(* ===== verification/_CoqProject ===== *)
-Q . S2P
Prelude.v
Strs.v
RcText.v
BTree.v
Core.v
FsTrait.v
FsLaws.v
FsLens.v
MemFs.v
MemFsFacts.v
MemFsProps.v
Vfs.v
VfsProps.v
P9Codec.v
P9CodecFacts.v
P9Server.v
P9Helpers.v
P9ServerFacts.v
P9ServerProps.v
P9Stream.v
P9Async.v
P9Client.v
P9ClientFacts.v
Pipe.v
PipeProps.v
Composite.v
Field.v
Task.v
TaskWorld.v
TaskProps.v
DevFiles.v
Devices.v
NetDev.v
NetProps.v
VmDev.v
DevProps.v
HttpText.v
HttpFs.v
MetaCache.v
MetaCacheProps.v
Sync.v
HttpServer.v
TextFacts.v
HttpTextFacts.v
HttpProps.v
HttpListing.v
R2.v
R2Props.v
SyncSched.v
SyncProps.v
SyncArrives.v
Registry.v
Proto.v
Exec.v
Worker.v
WorkerProps.v
Api.v
Shell.v
ShellProps.v
ShellHost.v
WasiMem.v
Wasi.v
WasiHost.v
WasiFacts.v
WasiReaddir.v
WasiBuffers.v
RcSyntax.v
RcLex.v
RcLexFacts.v
RcParse.v
RcParseFacts.v
RcPattern.v
RcSession.v
RcEval.v
RcEvalFacts.v
RcProps.v
RcGraph.v
RcShell.v
RcShellProps.v
RcTown.v
