(* ===== verification/Prelude.v ===== *)
(** * Star 9 verification library: prelude (root file)

    Star 9 is a system of filesystems in the manner of Plan 9: everything is a
    [FileSystem], filesystems are bound into namespaces, served to others over 9P,
    and used by tasks and by the rc shell.  This library models the crates that hold
    its logic and proves what they promise.  Paths below are under [src/crates].

    ** The parts and the files

    Shared ground.
    - [Prelude] (this file): outcomes, the state-and-error monad [Eff], machine
      integers, tactics, hint databases, relational triples.
    - [Strs], [RcText], [BTree]: Rust strings as bytes, UTF-8, [char]s, and
      [BTreeMap] as a sorted association list.

    star9-core ([star9-core/src/lib.rs]).
    - [Core]: errors, file modes, metadata, contexts, open flags and the algebra of
      paths ([clean_path], [valid_path], [parent_path], ...).

    star9-fs ([star9-fs/src/lib.rs]).
    - [FsTrait]: the traits [FileHandle] (a class) and [FileSystem] (a record of
      operations) with the methods they provide, directory handles, boxes, and the
      helpers [read_file], [write_file], [mkdir_all], [copy_fs], ...
    - [FsLaws]: the laws an exported filesystem must satisfy for the server not to
      crash, as a class the clients' theorems assume and [MemFs] proves.
    - [MemFs], [MemFsFacts], [MemFsProps]: [Node], [NodeFile] and [MemFs] over a
      heap of shared nodes.
    - [Pipe], [PipeProps]: pipes and signals.
    - [Composite]: [MapFs] and [UnionFs].
    - [Field]: [FieldFile] and [ControlFile].
    - [FsLens]: a filesystem over a part of a larger world, for the theorems about two
      filesystems at once.
    - [MetaCache], [MetaCacheProps] ([metacache.rs]): [MetaCacheFs], its refresh threads
      taking their steps between and within the calls.
    - [Sync] ([syncfs.rs]): [SyncFs], patches, push and pull over a [RemoteSyncBackend],
      with the [tar] crate as a class; [SyncProps] and [SyncArrives]
      hold the proofs and concrete runs.  [SyncSched]:
      [DebouncedSyncScheduler] and its background thread as a step relation.
    - [HttpText], [HttpFs]: HTTP messages and their texts, files fetched and
      sent whole, [HttpFs] over any transport; [HttpServer] ([http_server.rs]):
      [HttpFsHandler] over any filesystem.  [TextFacts], [HttpTextFacts],
      [HttpProps] and [HttpListing] hold the proofs and concrete runs.
    - [R2], [R2Props]: [R2Fs] over an [ObjectStore], the store in memory and
      the same store shared with other writers.

    star9-vfs ([star9-vfs/src/lib.rs]).
    - [Vfs], [VfsProps]: [Namespace], its bindings, resolution, union directories and
      the dispatch of writes.

    star9-protocol, 9P ([star9-protocol/src/p9.rs]).
    - [P9Codec], [P9CodecFacts]: messages and their encoding.
    - [P9Server], [P9Helpers], [P9ServerFacts], [P9ServerProps]:
      [NinePServer] over any [FileSystem]; [P9ServerProps] ends with the server of a [MemFs].
    - [P9Stream]: frames over a byte stream.  [P9Async]: [AsyncNinePServer] as a
      step relation.
    - [P9Client], [P9ClientFacts]: [NinePClientFs] and [NinePFile].

    star9-rc ([star9-rc/src/lib.rs]).
    - [RcSyntax], [RcLex], [RcParse], [RcPattern], [RcSession], [RcEval]: the rc
      language, from characters to the evaluator, over a class of hosts; [RcEval] ends
      with the host of the crate's tests.  [RcLexFacts], [RcParseFacts], [RcEvalFacts]
      and [RcProps] hold the proofs.

    star9-task ([star9-task/src/lib.rs]).
    - [Task]: tasks, descriptor tables and [TaskFs] over an interface of namespaces.
      [TaskWorld] implements the interface with [Vfs].  [TaskProps] holds the proofs.

    star9-runtime, the WASI host ([star9-runtime/src/wasi.rs]).
    - [WasiMem]: the memory of a guest as the host reads and writes it.  [Wasi],
      [WasiHost]: the functions of preview 1 over the descriptors of a [Task], the table
      [add_wasi_imports] links, and [execute] with the engine as a parameter ([Guest]).
      [WasiFacts], [WasiReaddir] and [WasiBuffers] hold the proofs and concrete runs.

    star9-runtime, devices ([star9-runtime/src/devices.rs]).
    - [DevFiles]: queues, texts and logs that several handles share.  [Devices]:
      [DeviceAllocator] over any factory, terminals, and the allocators that
      [bind_devices] makes.  [VmDev]: [VmDevice], its guests and providers parameters.
      [NetDev]: [NetDevice], its connections and the links between them.  [NetProps] and
      [DevProps] hold the proofs and concrete runs.

    star9-runtime, workers and registries ([star9-runtime/src]: [lib.rs],
    [execution.rs], [worker.rs]).
    - [Registry]: the environment and service registries of [lib.rs] and their files.
    - [Exec]: the start of a task from an [ExecutionSpec] and [ExecutionRegistry], whose
      handlers are parameters.
    - [Worker]: [RuntimeProtocolHost], one operation for each [RuntimeRequest].
      [WorkerProps] holds the proofs and concrete runs.

    star9-protocol, runtime ([star9-protocol/src]: [runtime.rs], [lib.rs]).
    - [Proto]: the messages between a runtime and its workers.
    - [Api]: [Star9Api], its handles and the dispatch of calls.

    star9-shell ([star9-shell/src/lib.rs]).
    - [Shell]: the line parser and [ShellSession] over a class of hosts.
      [ShellHost]: [RuntimeShellHost], the instance that asks a runtime; a session
      runs against [Vfs], [Task], [Api] and [Worker].  [ShellProps] holds the proofs.

    star9-shell, rc ([star9-shell/src/rc.rs]).
    - [RcGraph]: process graphs of external programs, run on threads that are programs of
      steps ([Prog]), and what a job shares with the shell.
    - [RcShell]: [Star9RcHost], the host of rc over a runtime, its jobs and its scopes.
      [RcShellProps] holds the proofs; [RcTown] puts all of it, from the lexer of rc to the
      bytes of the pipes, into one executable world and runs lines of rc in it.

    ** How the model reads

    A function of the source is a definition of the same name.  [&self] methods with
    interior mutability and [&mut self] methods are computations over an explicit
    world ([M W A] is [Eff Error W A]); [Result] is [Ok]/[Err], a panic is [Panic].
    An [Arc] is an index into a store of the world, so clones alias as they do in the
    source; [Arc::ptr_eq] is equality of indices.  An operation
    is the composition of its sections under a [Mutex] or [RwLock], with nothing in between;
    where the source's concurrency matters its sections are steps: in the step relations of
    [P9Async], [PipeProps], [SyncSched], [NetProps] and [RcShell], and between the calls of
    [MetaCache], where a schedule says which threads run.  A lock held while foreign code
    runs is a flag ([Task]).  Machine integers are [Z] with the source's
    checks and wrap-around written out.

    Recursion that is not structural takes fuel, and running out is [NoFuel], told
    apart from every outcome of the program.  [decode_dirents] and the stream loops
    use the length of their input, of which each turn consumes a byte at least;
    [chunks] the length of the data; the lexer of rc the number of characters, its
    parser one more than the number of tokens, [pattern_match] the sum of the two
    lengths, [find_here_markers] the characters left: [parse_total] and
    [pattern_match_language] show that they suffice.  [Task.root] uses the number of
    tasks ([task_root]).  The evaluator of rc takes the depth of nested evaluation,
    which no bound covers as functions recurse: [eval_fuel_monotone] shows that a
    result does not depend on it.  [MemFs.open] takes the number of symbolic links to
    follow and [TaskWorld.knot] the depth of nested calls; a cycle exhausts every
    fuel, as it exhausts the stack of the program ([self_bind_recurses]).  [R2.open] takes
    the number of symbolic links to follow in the same way.  [WasiReaddir.read_all] is the
    loop of a guest, one turn for each entry and one more ([wasi_readdir_complete]); a guest
    of [WasiHost.execute] is a list of steps and needs none.  [Api.wait_for] takes
    the turns of its poll, which the clock of the caller bounds.  [Graph.stream_for_fd] needs
    one more than the bindings of a stage, unless they are circular ([stage_fds_resolve]).
    The bound [WHILE_LIMIT] of 100,000 turns is the source's own.

    ** The theorems

    - Wire format: encoding and decoding are inverse bijections for every request and
      response; frames survive a stream; serving a stream ends.
    - Server: it never panics over lawful filesystems and requests within the
      arithmetic limits, keeps its fid table, touches only the fids of the request, and
      cannot be used to leave the exported tree; walk and readdir on every branch;
      extended attributes are complete exactly when every byte was written.
    - Asynchronous server: cancellation, the fate of every request, progress.
    - Client: over loopback, [stat] and the extended attributes are those of the
      exported filesystem.
    - [MemFs]: written bytes are read back and nothing else changes; renames move whole
      trees; listings are exact; hard links share; a served tree stays sound.
    - Namespaces: which mount answers (the deepest, but for mounts of one letter under a
      bound root), and that unbinding undoes binding.
    - Pipes and signals: order, end of file, when readers wait; a signal filesystem
      refines one log for calls that do not overlap, and is a broadcast in every
      interleaving.
    - Metadata cache: transparent over a filesystem whose changes show where it
      invalidates, wherever the steps of the refresh threads fall, as long as none holds an
      answer across a change of what it asked for.
    - Sync filesystem: transparent over the local one, exactly the successful changes are
      marked; a push settles what it sent and nothing newer; a written file arrives at the
      remote if its name fits the header of an archive; a pull leaves dirty paths alone; the scheduler loses no request and its
      thread sleeps only when there is nothing to do.
    - rc: parsing is total and lexing loses nothing; patterns match their language;
      evaluation is monotone in its fuel; jobs are not confused; quoting protects;
      the environment round-trips.
    - Tasks: descriptors are not reused, renumbering closes the target and on every
      outcome of that says what is left, allocation keeps
      the maps consistent, roots exist, fields are written as transactions.
    - HTTP: over loopback, a file written is read back, while the clock stays in range; a
      listing of plain names carries the metadata of each child in one request; multipart
      bodies arrive, and the cache never hides a change the client made itself.
    - Object store: listings and objects agree after every operation, no update of a listing
      is lost to other writers, and what is written is read.
    - WASI: a host call writes only the memory it was told to and opens only paths below the
      descriptor's; a directory read in pieces is the directory; arguments and the
      environment arrive; a scattered read is one read cut into pieces.
    - Devices: two joined connections exchange their bytes in order and without loss, the
      tables of the network stay consistent however calls interleave, and agree when calls
      do not overlap, dialers are accepted in order; the line endings
      of a terminal do not depend on how writes are cut; what a VM is told is applied.
    - Runtime: what is recorded of workers, ports and messages stays, each request logs
      exactly its message, and a worker keeps its task; a started task has the fields of its
      specification and for each descriptor the handle that opening it gives, and no other
      task changes.
    - Shell: a line is parsed exactly as its grammar says; with mounts disabled the commands
      that reach devices or change the namespace fail and change nothing.
    - rc over a runtime: the first note a job is sent is what waiting for it reports, whatever
      shell and threads do; mounts given up stay given up; which stream a descriptor of a stage
      gets, and when finding it never ends.
    - Divergences from what the code means to do are lemmas too, beside the theorems
      ([RcProps], [PipeProps], [Composite], [TaskProps], [VfsProps],
      [HttpListing], [R2Props], [WasiBuffers], [DevProps], [WorkerProps], [RcTown], ...).

    ** Not modelled

    [LocalFs], the native HTTP transport, the S3 store and its signer (operating
    system, network and cryptography); the browser bindings of star9-web and the
    command line of star9-cli (glue to code that is not under src); [TarFs]; the CBOR
    and JSON encodings, which serde derives; of star9-runtime the handler that runs a
    program on a pseudo-terminal, the process-wide tables it keeps, and the assembly of
    a [Runtime].

    Parameters: the wasmi engine and [DefaultHasher] of the WASI host; connecting a 9P
    client, the filesystem of a new workspace and the execution handlers of [ShellHost].
    A handler runs in one step, so what two stages of a pipeline do while both run is not
    represented in [RcGraph], only the order in which they run.  [watch] and [sync_fs] of
    [FileSystem] are left out of its record: what is modelled only forwards them
    ([Sync.sync] is what [sync_fs] of [SyncFs] does).  Mutex poisoning (but for
    [MetaCache]), memory exhaustion and stack overflow are not represented, except that
    endless recursion is [NoFuel] for every fuel.
*)

From stdpp Require Import base list numbers option strings.
From Stdlib Require Import ZArith Lia.

(** ** Outcomes

    [Ok] and [Err] are the two constructors of Rust's [Result].  [Panic] is a
    Rust panic (failed [unwrap], slice index out of range, arithmetic overflow
    trap, "capacity overflow").  [NoFuel] is the model's own: a recursion of the
    source that is not structural ran past the fuel it was given, so a function
    that answers [NoFuel] for every fuel is one that recurses forever. *)
Inductive Outcome (E A : Type) : Type :=
| Ok (a : A)
| Err (e : E)
| Panic
| NoFuel.
Arguments Ok {E A} a.
Arguments Err {E A} e.
Arguments Panic {E A}.
Arguments NoFuel {E A}.

Definition is_Ok {E A} (r : Outcome E A) : bool :=
  match r with Ok _ => true | _ => false end.

(** ** Computations that end

    [returns r]: [r] is a value or an error of the program; [settles r Q]: moreover
    its value has [Q]. *)
Definition returns {E A} (r : Outcome E A) : Prop :=
  match r with Ok _ | Err _ => True | Panic | NoFuel => False end.

Definition settles {E A} (r : Outcome E A) (Q : A → Prop) : Prop :=
  match r with Ok a => Q a | Err _ => True | Panic | NoFuel => False end.

(** ** The effect monad

    A computation of the source that may change a state of type [S], fail with
    an error of type [E], or panic.  A failing computation keeps the changes it
    made before it failed, as [?] does under [&mut] or a lock. *)
Definition Eff (E S A : Type) : Type := S → Outcome E A * S.

#[global] Instance eff_ret {E S} : MRet (Eff E S) := λ A a s, (Ok a, s).

#[global] Instance eff_bind {E S} : MBind (Eff E S) := λ A B k m s,
  match m s with
  | (Ok a, s') => k a s'
  | (Err e, s') => (Err e, s')
  | (Panic, s') => (Panic, s')
  | (NoFuel, s') => (NoFuel, s')
  end.

#[global] Instance outcome_ret {E} : MRet (Outcome E) := λ A a, Ok a.

#[global] Instance outcome_bind {E} : MBind (Outcome E) := λ A B k m,
  match m with
  | Ok a => k a
  | Err e => Err e
  | Panic => Panic
  | NoFuel => NoFuel
  end.

(** [throw e] is [return Err(e)]; [panic] is a Rust panic. *)
Definition throw {E S A} (e : E) : Eff E S A := λ s, (Err e, s).
Definition panic {E S A} : Eff E S A := λ s, (Panic, s).
Definition no_fuel {E S A} : Eff E S A := λ s, (NoFuel, s).

(** Reading and writing the state. *)
Definition get {E S} : Eff E S S := λ s, (Ok s, s).
Definition gets {E S A} (f : S → A) : Eff E S A := λ s, (Ok (f s), s).
Definition put {E S} (s' : S) : Eff E S unit := λ _, (Ok tt, s').
Definition modify {E S} (f : S → S) : Eff E S unit := λ s, (Ok tt, f s).

(** [lift r] is [r?] for a value [r] of type [Result]. *)
Definition lift {E S A} (r : Outcome E A) : Eff E S A := λ s, (r, s).

(** [attempt m] runs [m] and hands its [Result] to the continuation, as
    [match m { Ok(..) => .., Err(..) => .. }] and [let r = m;] do.  A panic is
    not a [Result] and goes through. *)
Definition attempt {E S A} (m : Eff E S A) : Eff E S (Outcome E A) := λ s,
  match m s with
  | (Ok a, s') => (Ok (Ok a), s')
  | (Err e, s') => (Ok (Err e), s')
  | (Panic, s') => (Panic, s')
  | (NoFuel, s') => (NoFuel, s')
  end.

(** [ok_or o e] is [o.ok_or(e)?]. *)
Definition ok_or {E S A} (o : option A) (e : E) : Eff E S A :=
  match o with Some a => mret a | None => throw e end.

Definition ok_or_res {E A} (o : option A) (e : E) : Outcome E A :=
  match o with Some a => Ok a | None => Err e end.

(** [guard_err b e] is [if b { return Err(e); }]. *)
Definition guard_err {E S} (b : bool) (e : E) : Eff E S unit :=
  if b then throw e else mret tt.

(** Running a computation on a component of a larger state. *)
Definition zoom {E S T A} (get_part : S → T) (set_part : T → S → S)
    (m : Eff E T A) : Eff E S A := λ s,
  let '(r, t) := m (get_part s) in (r, set_part t s).

Definition on_fst {E S T A} (m : Eff E S A) : Eff E (S * T) A :=
  λ '(s, t), let '(r, s') := m s in (r, (s', t)).

Definition on_snd {E S T A} (m : Eff E T A) : Eff E (S * T) A :=
  λ '(s, t), let '(r, t') := m t in (r, (s, t')).

(** [for_each f l] is [for x in l { f(x)?; }]. *)
Fixpoint for_each {E S A} (f : A → Eff E S unit) (l : list A) : Eff E S unit :=
  match l with
  | [] => mret tt
  | x :: l' => f x ;; for_each f l'
  end.

(** [map_eff f l] collects [f x?] over [l]. *)
Fixpoint map_eff {E S A B} (f : A → Eff E S B) (l : list A) : Eff E S (list B) :=
  match l with
  | [] => mret []
  | x :: l' => y ← f x; ys ← map_eff f l'; mret (y :: ys)
  end.

(** [for x in l] with a value carried along *)
Fixpoint fold_eff {E S A B} (f : B → A → Eff E S B) (b : B) (l : list A) : Eff E S B :=
  match l with
  | [] => mret b
  | x :: l' => b' ← f b x; fold_eff f b' l'
  end.

(** ** Machine integers

    A [w]-bit unsigned integer of the source is a [Z] in [0, 2^w); wrap-around
    is written out where the source wraps. *)
Definition U8_MAX : Z := 255.
Definition U16_MAX : Z := 65535.
Definition U32_MAX : Z := 4294967295.
Definition U64_MAX : Z := 18446744073709551615.
Definition I32_MAX : Z := 2147483647.
Definition I64_MAX : Z := 9223372036854775807.
Definition USIZE_MAX : Z := U64_MAX.
Definition ISIZE_MAX : Z := I64_MAX.

Definition in_u8 (z : Z) : Prop := (0 ≤ z ≤ U8_MAX)%Z.
Definition in_u16 (z : Z) : Prop := (0 ≤ z ≤ U16_MAX)%Z.
Definition in_u32 (z : Z) : Prop := (0 ≤ z ≤ U32_MAX)%Z.
Definition in_u64 (z : Z) : Prop := (0 ≤ z ≤ U64_MAX)%Z.

(** [!a] of a [u32]. *)
Definition not_u32 (z : Z) : Z := (U32_MAX - z)%Z.

(** ** Automation shared by the development *)

Create HintDb star9 discriminated.
Create Rewrite HintDb star9.

(** Case split on the scrutinee of the innermost [match] or [if] of the goal or
    of a hypothesis, keeping the equation. *)
Ltac split_match :=
  match goal with
  | |- context [match ?x with _ => _ end] =>
      lazymatch x with
      | context [match _ with _ => _ end] => fail
      | _ => destruct x eqn:?
      end
  end.

Ltac split_match_in H :=
  match type of H with
  | context [match ?x with _ => _ end] =>
      lazymatch x with
      | context [match _ with _ => _ end] => fail
      | _ => destruct x eqn:?
      end
  end.

(** Unfold the monad's plumbing. *)
Ltac unfold_eff :=
  unfold mret, mbind, eff_ret, eff_bind, outcome_ret, outcome_bind, throw, panic,
    no_fuel, get, gets, put, modify, lift, attempt, ok_or, ok_or_res, guard_err,
    zoom, on_fst, on_snd in *.

(** Run a computation in a hypothesis [H : m s = (r, s')] through every branch,
    dropping the branches that cannot give [(r, s')]. *)
Ltac run_in H :=
  repeat (cbn beta iota in H; first [progress simplify_eq | split_match_in H]).

Ltac bool_to_prop :=
  repeat match goal with
  | H : _ && _ = true |- _ => apply andb_true_iff in H as [? ?]
  | H : _ || _ = false |- _ => apply orb_false_iff in H as [? ?]
  | H : negb _ = true |- _ => apply negb_true_iff in H
  | H : negb _ = false |- _ => apply negb_false_iff in H
  | H : bool_decide _ = true |- _ => apply bool_decide_eq_true in H
  | H : bool_decide _ = false |- _ => apply bool_decide_eq_false in H
  | H : (_ =? _)%Z = true |- _ => apply Z.eqb_eq in H
  | H : (_ =? _)%Z = false |- _ => apply Z.eqb_neq in H
  | H : (_ <? _)%Z = true |- _ => apply Z.ltb_lt in H
  | H : (_ <? _)%Z = false |- _ => apply Z.ltb_ge in H
  | H : (_ <=? _)%Z = true |- _ => apply Z.leb_le in H
  | H : (_ <=? _)%Z = false |- _ => apply Z.leb_gt in H
  end.

(** ** Laws of the effect monad *)

Lemma eff_bind_Ok {E S A B} (m : Eff E S A) (k : A → Eff E S B) s a s' :
  m s = (Ok a, s') → (m ≫= k) s = k a s'.
Proof. intros H. unfold mbind, eff_bind. by rewrite H. Qed.

Lemma eff_bind_Err {E S A B} (m : Eff E S A) (k : A → Eff E S B) s e s' :
  m s = (Err e, s') → (m ≫= k) s = (Err e, s').
Proof. intros H. unfold mbind, eff_bind. by rewrite H. Qed.

Lemma eff_bind_inv {E S A B} (m : Eff E S A) (k : A → Eff E S B) s b s' :
  (m ≫= k) s = (Ok b, s') →
  ∃ a s1, m s = (Ok a, s1) ∧ k a s1 = (Ok b, s').
Proof.
  unfold mbind, eff_bind. destruct (m s) as [[a|e| |] s1] eqn:Hm; intros; simplify_eq.
  eauto.
Qed.

Lemma settles_bind {E A B} (r : Outcome E A) (k : A → Outcome E B) Q R :
  settles r Q → (∀ a, Q a → settles (k a) R) → settles (r ≫= k) R.
Proof. destruct r; cbn; auto. Qed.

Lemma settles_mono {E A} (r : Outcome E A) (Q R : A → Prop) :
  settles r Q → (∀ a, Q a → R a) → settles r R.
Proof. destruct r; cbn; auto. Qed.

Lemma settles_returns {E A} (r : Outcome E A) Q : settles r Q → returns r.
Proof. by destruct r. Qed.

Lemma returns_settles {E A} (r : Outcome E A) : returns r → settles r (λ _, True).
Proof. by destruct r. Qed.

Lemma settles_Ok {E A} (r : Outcome E A) Q a : settles r Q → r = Ok a → Q a.
Proof. intros H ->. exact H. Qed.

(** A computation that keeps a property of the state on every outcome. *)
Definition preserves {E S A} (P : S → Prop) (m : Eff E S A) : Prop :=
  ∀ s, P s → P (snd (m s)).

Lemma preserves_ret {E S A} (P : S → Prop) (a : A) : preserves (E:=E) P (mret a).
Proof. by intros s Hs. Qed.

Lemma preserves_bind {E S A B} (P : S → Prop) (m : Eff E S A) (k : A → Eff E S B) :
  preserves P m → (∀ a, preserves P (k a)) → preserves P (m ≫= k).
Proof.
  intros Hm Hk s Hs. unfold mbind, eff_bind.
  specialize (Hm s Hs). destruct (m s) as [[a|e| |] s1]; cbn in *; auto.
  by apply Hk.
Qed.

Lemma preserves_throw {E S A} (P : S → Prop) (e : E) : preserves (A:=A) P (throw e).
Proof. by intros s Hs. Qed.

Lemma preserves_lift {E S A} (P : S → Prop) (r : Outcome E A) : preserves P (lift r).
Proof. by intros s Hs. Qed.

Lemma preserves_gets {E S A} (P : S → Prop) (f : S → A) : preserves (E:=E) P (gets f).
Proof. by intros s Hs. Qed.

Lemma preserves_ok_or {E S A} (P : S → Prop) (o : option A) (e : E) :
  preserves P (ok_or o e).
Proof. by destruct o; intros s Hs. Qed.

Lemma preserves_guard {E S} (P : S → Prop) b (e : E) : preserves P (guard_err b e).
Proof. by destruct b; intros s Hs. Qed.

Lemma preserves_attempt {E S A} (P : S → Prop) (m : Eff E S A) :
  preserves P m → preserves P (attempt m).
Proof.
  intros Hm s Hs. specialize (Hm s Hs). unfold attempt.
  by destruct (m s) as [[]].
Qed.

#[export] Hint Resolve preserves_ret preserves_bind preserves_throw preserves_lift
  preserves_gets preserves_ok_or preserves_guard preserves_attempt : star9.

(** ** Relational triples

    [rel np I P m1 m2 Q]: from a state with [P], the two computations behave the
    same; a success leaves a result and a state with [Q], an error a state with
    the invariant [I]; and when [np] is [true] there is neither a panic nor fuel
    running out.  With [m1] and [m2] the same it is a Hoare triple. *)
Definition rel {E S A} (np : bool) (I P : S → Prop) (m1 m2 : Eff E S A)
    (Q : A → S → Prop) : Prop :=
  ∀ s, P s → m1 s = m2 s ∧
    match m1 s with
    | (Ok a, s') => Q a s'
    | (Err _, s') => I s'
    | (_, s') => np = false ∧ I s'
    end.

Create HintDb rel discriminated.

Section Rel.
Context {E S : Type} (np : bool) (I : S → Prop).

Lemma rel_ret {A} (P : S → Prop) (a : A) (Q : A → S → Prop) :
  (∀ s, P s → Q a s) → rel (E:=E) np I P (mret a) (mret a) Q.
Proof. intros HQ s Hs. split; [done|]. by apply HQ. Qed.

Lemma rel_throw {A} (P : S → Prop) (e : E) (Q : A → S → Prop) :
  (∀ s, P s → I s) → rel np I P (throw e) (throw e) Q.
Proof. intros HI s Hs. split; [done|]. by apply HI. Qed.

Lemma rel_bind {A B} P (m1 m2 : Eff E S A) (k1 k2 : A → Eff E S B) R Q :
  rel np I P m1 m2 R → (∀ a, rel np I (R a) (k1 a) (k2 a) Q) →
  rel np I P (m1 ≫= k1) (m2 ≫= k2) Q.
Proof.
  intros Hm Hk s Hs. destruct (Hm s Hs) as [Heq HR]. unfold mbind, eff_bind.
  rewrite <- Heq. destruct (m1 s) as [[a|e| |] s']; [|done..]. by apply Hk.
Qed.

Lemma rel_bind_ret {A B} P (a : A) (k1 k2 : A → Eff E S B) Q :
  rel np I P (k1 a) (k2 a) Q → rel np I P (mret a ≫= k1) (mret a ≫= k2) Q.
Proof. intros Hk. exact Hk. Qed.

Lemma rel_weaken {A} (P P' : S → Prop) (m1 m2 : Eff E S A) (Q Q' : A → S → Prop) :
  rel np I P m1 m2 Q → (∀ s, P' s → P s) → (∀ a s, Q a s → Q' a s) →
  rel np I P' m1 m2 Q'.
Proof.
  intros Hm HP HQ s Hs. destruct (Hm s) as [Heq HR]; [by apply HP|]. split; [done|].
  destruct (m1 s) as [[a|e| |] s']; [|done..]. by apply HQ.
Qed.

Lemma rel_pure {A} (φ : Prop) (P : S → Prop) (m1 m2 : Eff E S A) Q :
  (φ → rel np I P m1 m2 Q) → rel np I (λ s, φ ∧ P s) m1 m2 Q.
Proof. intros Hm s [Hφ Hs]. by apply Hm. Qed.

Lemma rel_attempt {A} P (m1 m2 : Eff E S A) (Q : A → S → Prop) :
  rel np I P m1 m2 Q →
  rel np I P (attempt m1) (attempt m2)
    (λ r s, match r with Ok a => Q a s | Err _ => I s | _ => False end).
Proof.
  intros Hm s Hs. destruct (Hm s Hs) as [Heq HR]. unfold attempt. rewrite <- Heq.
  by destruct (m1 s) as [[a|e| |] s'].
Qed.

Lemma rel_lift {A} (P : S → Prop) (r : Outcome E A) (Q : A → S → Prop) :
  (∀ s, P s → match r with Ok a => Q a s | Err _ => I s | _ => np = false ∧ I s end) →
  rel np I P (lift r) (lift r) Q.
Proof. intros Hr s Hs. split; [done|]. specialize (Hr s Hs). unfold lift. by destruct r. Qed.

Lemma rel_ok_or {A} (P : S → Prop) (o : option A) (e : E) (Q : A → S → Prop) :
  (∀ s, P s → I s) → (∀ a s, o = Some a → P s → Q a s) →
  rel np I P (ok_or o e) (ok_or o e) Q.
Proof.
  intros HI HQ s Hs. split; [done|]. destruct o as [a|]; cbn; [by apply HQ|by apply HI].
Qed.

Lemma rel_guard (P : S → Prop) (b : bool) (e : E) (Q : unit → S → Prop) :
  (∀ s, P s → I s) → (∀ s, b = false → P s → Q tt s) →
  rel np I P (guard_err b e) (guard_err b e) Q.
Proof.
  intros HI HQ s Hs. split; [done|]. destruct b; cbn; [by apply HI|by apply HQ].
Qed.

Lemma rel_if {A} (b : bool) P (m1 m2 n1 n2 : Eff E S A) Q :
  (b = true → rel np I P m1 n1 Q) → (b = false → rel np I P m2 n2 Q) →
  rel np I P (if b then m1 else m2) (if b then n1 else n2) Q.
Proof. destruct b; auto. Qed.
End Rel.

(** ** Lists *)

Lemma last_snoc_inv {A} (l : list A) x : last l = Some x → ∃ l', l = l' ++ [x].
Proof.
  destruct l as [|y l] using rev_ind; [done|]. rewrite last_snoc. intros [= ->]. eauto.
Qed.

Lemma forallb_Forall {A} (f : A → bool) (l : list A) :
  forallb f l = true ↔ Forall (λ x, f x = true) l.
Proof.
  induction l as [|x l IH]; cbn; [done|].
  rewrite andb_true_iff, IH, Forall_cons. done.
Qed.

(** ** Bit operations on [n]-bit integers *)

Lemma land_range n a b : (0 ≤ n → 0 ≤ b < 2 ^ n → 0 ≤ Z.land a b < 2 ^ n)%Z.
Proof.
  intros Hn Hb. rewrite <- (Z.mod_small b (2 ^ n)) by done.
  rewrite <- Z.land_ones, Z.land_assoc, Z.land_ones by done.
  apply Z.mod_pos_bound. lia.
Qed.

Lemma lor_range n a b : (0 ≤ n → 0 ≤ a < 2 ^ n → 0 ≤ b < 2 ^ n → 0 ≤ Z.lor a b < 2 ^ n)%Z.
Proof.
  intros Hn Ha Hb. rewrite <- (Z.mod_small a (2 ^ n)), <- (Z.mod_small b (2 ^ n)) by done.
  rewrite <- !Z.land_ones, <- Z.land_lor_distr_l, Z.land_ones by done.
  apply Z.mod_pos_bound. lia.
Qed.

Lemma in_u32_pow z : in_u32 z ↔ (0 ≤ z < 2 ^ 32)%Z.
Proof. unfold in_u32, U32_MAX. lia. Qed.

Lemma in_u64_pow z : in_u64 z ↔ (0 ≤ z < 2 ^ 64)%Z.
Proof. unfold in_u64, U64_MAX. lia. Qed.
