(* ===== verification/Strs.v ===== *)
(** * Strings, bytes and UTF-8

    Rust's [String] and [str] as Rocq strings of 8-bit characters, one per byte
    of the UTF-8 encoding; the standard library's string operations that the
    source uses; UTF-8 validation ([String::from_utf8]) and the lossy decoder
    ([String::from_utf8_lossy]). *)

From stdpp Require Import base list numbers option strings.
From Stdlib Require Import ZArith Lia Ascii.
From Stdlib Require Export Strings.Byte.
From S2P Require Import Prelude.

(** ** Bytes *)

Definition byte_to_Z (b : byte) : Z := Z.of_N (Byte.to_N b).

Definition byte_of_Z (z : Z) : byte :=
  match Byte.of_N (Z.to_N (z mod 256)) with Some b => b | None => x00 end.

Definition bytes_of (s : string) : list byte := String.list_byte_of_string s.
Definition string_of (bs : list byte) : string := String.string_of_list_byte bs.

(** [bs.len()] *)
Definition blen (bs : list byte) : Z := Z.of_nat (length bs).

#[global] Instance byte_eq_dec : EqDecision byte := Byte.byte_eq_dec.

(** ** [str] operations *)

(** [s.split(c)] *)
Fixpoint split_on (c : ascii) (s : string) : list string :=
  match s with
  | EmptyString => [""]
  | String a s' =>
      if decide (a = c) then "" :: split_on c s'
      else match split_on c s' with
           | p :: ps => String a p :: ps
           | [] => [String a ""]
           end
  end.

(** [parts.join(sep)] *)
Fixpoint str_join (sep : string) (parts : list string) : string :=
  match parts with
  | [] => ""
  | [p] => p
  | p :: ps => p +:+ sep +:+ str_join sep ps
  end.

(** [s.contains(c)] for a character *)
Fixpoint contains_char (c : ascii) (s : string) : bool :=
  match s with
  | EmptyString => false
  | String a s' => bool_decide (a = c) || contains_char c s'
  end.

(** [s.strip_prefix(p)] *)
Fixpoint strip_prefix (p s : string) : option string :=
  match p, s with
  | EmptyString, _ => Some s
  | String a p', String b s' => if decide (a = b) then strip_prefix p' s' else None
  | String _ _, EmptyString => None
  end.

(** [s.starts_with(p)] *)
Definition starts_with (p s : string) : bool :=
  match strip_prefix p s with Some _ => true | None => false end.

Definition is_empty_str (s : string) : bool :=
  match s with EmptyString => true | _ => false end.

(** [s.starts_with(c)] and [s.ends_with(c)] for a character *)
Definition starts_with_char (c : ascii) (s : string) : bool :=
  match s with EmptyString => false | String a _ => bool_decide (a = c) end.

Fixpoint ends_with_char (c : ascii) (s : string) : bool :=
  match s with
  | EmptyString => false
  | String a EmptyString => bool_decide (a = c)
  | String _ s' => ends_with_char c s'
  end.

(** [s.trim_start_matches(c)] *)
Fixpoint trim_start_char (c : ascii) (s : string) : string :=
  match s with
  | EmptyString => ""
  | String a s' => if decide (a = c) then trim_start_char c s' else s
  end.

(** [s.split_once(c)] and [s.rsplit_once(c)] *)
Fixpoint split_once (c : ascii) (s : string) : option (string * string) :=
  match s with
  | EmptyString => None
  | String a s' =>
      if decide (a = c) then Some ("", s')
      else match split_once c s' with
           | Some (l, r) => Some (String a l, r)
           | None => None
           end
  end.

Fixpoint rsplit_once (c : ascii) (s : string) : option (string * string) :=
  match s with
  | EmptyString => None
  | String a s' =>
      match rsplit_once c s' with
      | Some (l, r) => Some (String a l, r)
      | None => if decide (a = c) then Some ("", s') else None
      end
  end.

Arguments split_on c%_char_scope s.
Arguments contains_char c%_char_scope s.
Arguments starts_with_char c%_char_scope s.
Arguments ends_with_char c%_char_scope s.
Arguments trim_start_char c%_char_scope s.
Arguments split_once c%_char_scope s.
Arguments rsplit_once c%_char_scope s.

(** ** UTF-8

    [utf8_next] looks at the head of a byte string: [Some (true, n)] is a
    well-formed sequence of [n] bytes, [Some (false, n)] an ill-formed one whose
    maximal subpart has [n] bytes (the unit Rust replaces by U+FFFD). *)

Definition in_range (lo hi : Z) (b : byte) : bool :=
  (lo <=? byte_to_Z b)%Z && (byte_to_Z b <=? hi)%Z.

Definition utf8_cont (b : byte) : bool := in_range 128 191 b.

Definition utf8_width (b : byte) : nat :=
  if in_range 0 127 b then 1
  else if in_range 194 223 b then 2
  else if in_range 224 239 b then 3
  else if in_range 240 244 b then 4
  else 0.

(** The second byte allowed after lead byte [b0]. *)
Definition utf8_second (b0 b1 : byte) : bool :=
  match byte_to_Z b0 with
  | 224%Z => in_range 160 191 b1
  | 237%Z => in_range 128 159 b1
  | 240%Z => in_range 144 191 b1
  | 244%Z => in_range 128 143 b1
  | _ => utf8_cont b1
  end.

Definition utf8_next (bs : list byte) : option (bool * nat) :=
  match bs with
  | [] => None
  | b0 :: rest =>
      Some match utf8_width b0, rest with
      | 1, _ => (true, 1)
      | 2, b1 :: _ => if utf8_second b0 b1 then (true, 2) else (false, 1)
      | 3, b1 :: rest' =>
          if utf8_second b0 b1 then
            match rest' with
            | b2 :: _ => if utf8_cont b2 then (true, 3) else (false, 2)
            | [] => (false, 2)
            end
          else (false, 1)
      | 4, b1 :: rest' =>
          if utf8_second b0 b1 then
            match rest' with
            | b2 :: rest'' =>
                if utf8_cont b2 then
                  match rest'' with
                  | b3 :: _ => if utf8_cont b3 then (true, 4) else (false, 3)
                  | [] => (false, 3)
                  end
                else (false, 2)
            | [] => (false, 2)
            end
          else (false, 1)
      | _, _ => (false, 1)
      end
  end.

Fixpoint utf8_valid_fuel (fuel : nat) (bs : list byte) : bool :=
  match fuel with
  | O => match bs with [] => true | _ => false end
  | S fuel' =>
      match utf8_next bs with
      | None => true
      | Some (true, n) => utf8_valid_fuel fuel' (drop n bs)
      | Some (false, _) => false
      end
  end.

(** A sequence has at least one byte, so the length of the input is fuel enough. *)
Definition utf8_valid (bs : list byte) : bool := utf8_valid_fuel (length bs) bs.

Definition str_valid (s : string) : Prop := utf8_valid (bytes_of s) = true.

(** The UTF-8 encoding of U+FFFD. *)
Definition replacement : list byte := [xef; xbf; xbd].

Fixpoint utf8_lossy_fuel (fuel : nat) (bs : list byte) : list byte :=
  match fuel with
  | O => []
  | S fuel' =>
      match utf8_next bs with
      | None => []
      | Some (true, n) => take n bs ++ utf8_lossy_fuel fuel' (drop n bs)
      | Some (false, n) => replacement ++ utf8_lossy_fuel fuel' (drop n bs)
      end
  end.

(** [String::from_utf8] and [String::from_utf8_lossy] *)
Definition from_utf8 (bs : list byte) : option string :=
  if utf8_valid bs then Some (string_of bs) else None.

Definition from_utf8_lossy (bs : list byte) : string :=
  string_of (utf8_lossy_fuel (length bs) bs).

(** ** Lemmas on bytes *)

Lemma byte_to_Z_range b : (0 ≤ byte_to_Z b < 256)%Z.
Proof. unfold byte_to_Z. pose proof (Byte.to_N_bounded b). lia. Qed.

Lemma byte_to_of_Z z : byte_to_Z (byte_of_Z z) = (z mod 256)%Z.
Proof.
  unfold byte_to_Z, byte_of_Z. pose proof (Z.mod_pos_bound z 256 ltac:(lia)).
  destruct (Byte.of_N _) as [b|] eqn:Hb.
  - apply Byte.to_of_N in Hb. rewrite Hb. lia.
  - apply Byte.of_N_None_iff in Hb. lia.
Qed.

Lemma byte_of_to_Z b : byte_of_Z (byte_to_Z b) = b.
Proof.
  unfold byte_of_Z. rewrite Z.mod_small by apply byte_to_Z_range.
  unfold byte_to_Z. rewrite N2Z.id, Byte.of_to_N. done.
Qed.

Lemma bytes_of_string_of bs : bytes_of (string_of bs) = bs.
Proof. apply String.list_byte_of_string_of_list_byte. Qed.

Lemma string_of_bytes_of s : string_of (bytes_of s) = s.
Proof. apply String.string_of_list_byte_of_string. Qed.

#[export] Hint Rewrite bytes_of_string_of string_of_bytes_of : star9.

Lemma from_utf8_bytes_of s : str_valid s → from_utf8 (bytes_of s) = Some s.
Proof. unfold str_valid, from_utf8. intros ->. by rewrite string_of_bytes_of. Qed.

Lemma from_utf8_Some bs s : from_utf8 bs = Some s → bs = bytes_of s ∧ str_valid s.
Proof.
  unfold from_utf8, str_valid. destruct (utf8_valid bs) eqn:H; [|done].
  intros [= <-]. by rewrite bytes_of_string_of.
Qed.

Lemma utf8_lossy_valid_fuel n bs :
  length bs ≤ n → utf8_valid_fuel n bs = true → utf8_lossy_fuel n bs = bs.
Proof.
  revert bs. induction n as [|n IH]; intros [|b bs] Hlen; try done.
  cbn [utf8_valid_fuel utf8_lossy_fuel].
  destruct (utf8_next (b :: bs)) as [[[] m]|] eqn:Hnext; try done.
  intros Hv. rewrite IH; [apply take_drop| |done].
  assert (1 ≤ m) by (unfold utf8_next in Hnext; repeat case_match; simplify_eq; lia).
  rewrite length_drop. simpl in *. lia.
Qed.

(** Decoding lossily is the identity on well-formed input. *)
Lemma from_utf8_lossy_valid s : str_valid s → from_utf8_lossy (bytes_of s) = s.
Proof.
  intros H. unfold from_utf8_lossy.
  rewrite utf8_lossy_valid_fuel by done. apply string_of_bytes_of.
Qed.

(** ** Lemmas on [str] operations *)

#[local] Arguments String.append !_ _ / : simpl nomatch.

Lemma app_str_nil_r s : s +:+ "" = s.
Proof. induction s as [|a s IH]; [done|]. cbn. by f_equal. Qed.

Lemma app_str_assoc s1 s2 s3 : s1 +:+ (s2 +:+ s3) = (s1 +:+ s2) +:+ s3.
Proof. induction s1 as [|a s IH]; [done|]. cbn. by f_equal. Qed.

Lemma strip_prefix_Some p s r : strip_prefix p s = Some r ↔ s = p +:+ r.
Proof.
  revert s. induction p as [|a p IH]; intros s; cbn.
  - split; [by intros [= ->]|by intros ->].
  - destruct s as [|b s]; [done|]. case_decide; subst.
    + rewrite IH. split; [by intros ->|by intros [= ->]].
    + split; [done|]. by intros [= ??].
Qed.

Lemma starts_with_true p s : starts_with p s = true ↔ ∃ r, s = p +:+ r.
Proof.
  unfold starts_with. split.
  - destruct (strip_prefix p s) as [r|] eqn:H; [|done].
    apply strip_prefix_Some in H. eauto.
  - intros [r H]. apply strip_prefix_Some in H. by rewrite H.
Qed.

Lemma split_on_nonempty c s : split_on c s ≠ [].
Proof. destruct s as [|a s]; cbn; [done|]. case_decide; [done|]. by case_match. Qed.

Lemma split_on_parts c s : Forall (λ p, contains_char c p = false) (split_on c s).
Proof.
  induction s as [|a s IH]; cbn; [by repeat constructor|].
  case_decide; [by constructor|].
  destruct (split_on c s) as [|p ps]; inversion IH; subst; constructor; cbn; auto;
    by rewrite bool_decide_false.
Qed.

Lemma join_cons sep p ps : ps ≠ [] → str_join sep (p :: ps) = p +:+ sep +:+ str_join sep ps.
Proof. by destruct ps. Qed.

(** Splitting and joining are inverse. *)
Lemma join_split_on c s : str_join (String c "") (split_on c s) = s.
Proof.
  induction s as [|a s IH]; [done|]. cbn [split_on]. case_decide as Ha.
  - subst. rewrite join_cons by apply split_on_nonempty. by rewrite IH.
  - pose proof (split_on_nonempty c s).
    destruct (split_on c s) as [|p [|q qs]]; [done| |]; cbn in *; by rewrite IH.
Qed.

Lemma split_on_no_char c s : contains_char c s = false → split_on c s = [s].
Proof.
  induction s as [|a s IH]; [done|]. cbn. intros [Ha Hs]%orb_false_iff.
  apply bool_decide_eq_false in Ha. rewrite decide_False by done. by rewrite IH.
Qed.

Lemma split_on_app c p s : contains_char c p = false →
  split_on c (p +:+ String c s) = p :: split_on c s.
Proof.
  induction p as [|a p IH]; cbn.
  - intros _. by rewrite decide_True.
  - intros [Ha Hs]%orb_false_iff. apply bool_decide_eq_false in Ha.
    rewrite decide_False by done. by rewrite IH.
Qed.

Lemma split_on_join c ps : ps ≠ [] → Forall (λ p, contains_char c p = false) ps →
  split_on c (str_join (String c "") ps) = ps.
Proof.
  induction ps as [|p [|q qs] IH]; intros Hne Hps; [done| |].
  - inversion Hps; subst. by apply split_on_no_char.
  - rewrite join_cons by done. inversion Hps; subst. cbn [String.append].
    rewrite split_on_app by done. by rewrite IH.
Qed.

Lemma contains_char_app c s1 s2 :
  contains_char c (s1 +:+ s2) = contains_char c s1 || contains_char c s2.
Proof. induction s1 as [|a s IH]; [done|]. cbn. by rewrite IH, orb_assoc. Qed.

Lemma rsplit_once_no_char c s : contains_char c s = false → rsplit_once c s = None.
Proof.
  induction s as [|a s IH]; [done|]. cbn. intros [Ha Hs]%orb_false_iff.
  apply bool_decide_eq_false in Ha. rewrite IH by done. by rewrite decide_False.
Qed.

Lemma rsplit_once_app c l r : contains_char c r = false →
  rsplit_once c (l +:+ String c r) = Some (l, r).
Proof.
  intros Hr. induction l as [|a l IH]; cbn.
  - rewrite rsplit_once_no_char by done. by rewrite decide_True.
  - by rewrite IH.
Qed.

Lemma split_once_Some c s l r :
  split_once c s = Some (l, r) ↔ s = l +:+ String c r ∧ contains_char c l = false.
Proof.
  revert l. induction s as [|a s IH]; intros l; cbn.
  - split; [done|]. intros [H _]. by destruct l.
  - case_decide as Ha.
    + subst. split.
      * intros [= <- <-]. done.
      * intros [H Hl]. destruct l as [|b l]; [by simplify_eq/=|].
        simplify_eq/=. rewrite bool_decide_true in Hl by done. done.
    + split.
      * destruct (split_once c s) as [[l' r']|] eqn:Hs; [|done].
        intros [= <- <-]. destruct (proj1 (IH l') eq_refl) as [-> ?].
        split; [done|]. cbn. by rewrite bool_decide_false.
      * intros [H Hl]. destruct l as [|b l]; [by simplify_eq/=|].
        simplify_eq/=. apply orb_false_iff in Hl as [_ Hl].
        by rewrite (proj2 (IH l) (conj eq_refl Hl)).
Qed.

Lemma join_snoc sep ps p : ps ≠ [] → str_join sep (ps ++ [p]) = str_join sep ps +:+ sep +:+ p.
Proof.
  induction ps as [|q [|r rs] IH]; intros Hne; [done..|].
  change ((q :: r :: rs) ++ [p]) with (q :: ((r :: rs) ++ [p])).
  rewrite join_cons by (by destruct rs). rewrite IH by done.
  rewrite (join_cons sep q) by done. by rewrite !app_str_assoc.
Qed.

(** The part before the last separator, and the part after it. *)
Lemma rsplit_once_join c ps p : ps ≠ [] → contains_char c p = false →
  rsplit_once c (str_join (String c "") (ps ++ [p])) = Some (str_join (String c "") ps, p).
Proof.
  intros Hne Hp. rewrite join_snoc by done. cbn [String.append].
  by rewrite rsplit_once_app.
Qed.

Lemma is_empty_str_true s : is_empty_str s = true ↔ s = "".
Proof. by destruct s. Qed.

Lemma starts_with_char_contains c s :
  contains_char c s = false → starts_with_char c s = false.
Proof. destruct s; cbn; [done|]. by intros [? _]%orb_false_iff. Qed.

Lemma ends_with_char_contains c s :
  contains_char c s = false → ends_with_char c s = false.
Proof.
  induction s as [|a s IH]; [done|]. intros [Ha Hs]%orb_false_iff.
  destruct s; [exact Ha|]. by apply IH.
Qed.

Lemma trim_start_char_id c s : starts_with_char c s = false → trim_start_char c s = s.
Proof.
  destruct s as [|a s]; [done|]. cbn. intros H%bool_decide_eq_false.
  by rewrite decide_False.
Qed.

Lemma ends_with_char_app c s1 s2 : s2 ≠ "" →
  ends_with_char c (s1 +:+ s2) = ends_with_char c s2.
Proof.
  intros Hne. induction s1 as [|a s1 IH]; [done|].
  cbn [String.append]. destruct (s1 +:+ s2) eqn:H; [by destruct s1|].
  cbn. by rewrite <- IH.
Qed.

Lemma bytes_of_app s1 s2 : bytes_of (s1 +:+ s2) = bytes_of s1 ++ bytes_of s2.
Proof. induction s1 as [|a s IH]; [done|]. cbn. by f_equal. Qed.

Lemma length_bytes_of s : length (bytes_of s) = String.length s.
Proof. induction s as [|a s IH]; [done|]. cbn. by f_equal. Qed.
