(* ===== verification/RcText.v ===== *)
(** * Characters of a Rust string

    The rc language works on [char]s: [source.chars()] and strings built by
    [push].  A [char] is its code point; a [String] stays the Rocq string of its
    UTF-8 bytes ([Strs]), so [chars] decodes and [of_chars] encodes.  Also here:
    the character classes and the number parsing of the standard library that the
    rc sources use. *)

From stdpp Require Import base list numbers option strings pretty.
From Stdlib Require Import ZArith Lia Ascii.
From S2P Require Import Prelude Strs.

Abbreviation char := N.

(** ** Encoding and decoding *)

(** [char::len_utf8] *)
Definition len_utf8 (c : char) : nat :=
  if (c <? 128)%N then 1 else if (c <? 2048)%N then 2
  else if (c <? 65536)%N then 3 else 4.

Definition byte_of_N (n : N) : byte := byte_of_Z (Z.of_N n).
Definition byte_to_N (b : byte) : N := Byte.to_N b.

Definition encode_char (c : char) : list byte :=
  (match len_utf8 c with
   | 1%nat => [byte_of_N c]
   | 2%nat => [byte_of_N (192 + c / 64); byte_of_N (128 + c mod 64)]
   | 3%nat => [byte_of_N (224 + c / 4096); byte_of_N (128 + (c / 64) mod 64);
           byte_of_N (128 + c mod 64)]
   | _ => [byte_of_N (240 + c / 262144); byte_of_N (128 + (c / 4096) mod 64);
           byte_of_N (128 + (c / 64) mod 64); byte_of_N (128 + c mod 64)]
   end)%N.

Definition encode_chars (cs : list char) : list byte := mjoin (encode_char <$> cs).

(** The decoder reads the sequences a lead byte announces; on the bytes of a
    [String], which are well-formed, it is [chars]. *)
Fixpoint decode_chars (bs : list byte) : list char :=
  match bs with
  | [] => []
  | b0 :: r0 =>
      let x0 := byte_to_N b0 in
      (match utf8_width b0, r0 with
       | 2%nat, b1 :: r1 => ((x0 - 192) * 64 + (byte_to_N b1 - 128)) :: decode_chars r1
       | 3%nat, b1 :: b2 :: r2 =>
           ((x0 - 224) * 4096 + (byte_to_N b1 - 128) * 64 + (byte_to_N b2 - 128))
             :: decode_chars r2
       | 4%nat, b1 :: b2 :: b3 :: r3 =>
           ((x0 - 240) * 262144 + (byte_to_N b1 - 128) * 4096 +
            (byte_to_N b2 - 128) * 64 + (byte_to_N b3 - 128)) :: decode_chars r3
       | _, _ => x0 :: decode_chars r0
       end)%N
  end.

(** [s.chars().collect()] and [cs.iter().collect::<String>()] *)
Definition chars (s : string) : list char := decode_chars (bytes_of s).
Definition of_chars (cs : list char) : string := string_of (encode_chars cs).

(** A Unicode scalar value. *)
Definition scalar (c : char) : Prop :=
  (c < 55296 ∨ 57344 ≤ c < 1114112)%N.

#[global] Instance scalar_dec c : Decision (scalar c).
Proof. unfold scalar. apply _. Defined.

(** ** Classes *)

Definition ch (a : ascii) : char := N_of_ascii a.
Arguments ch a%_char_scope.

(** [c == 'a'] *)
Definition isc (a : ascii) (c : char) : bool := (c =? N_of_ascii a)%N.
Arguments isc a%_char_scope c.

(** [matches!(c, 'a' | 'b' | ..)] *)
Definition one_of (s : string) (c : char) : bool :=
  existsb (λ a, isc a c) (String.list_ascii_of_string s).

Definition NEWLINE : ascii := "010"%char.
Definition TAB : ascii := "009"%char.
Definition CR : ascii := "013"%char.
Definition QUOTE : ascii := "'"%char.

(** [char::is_whitespace]: the property White_Space *)
Definition is_whitespace (c : char) : bool :=
  ((9 <=? c) && (c <=? 13) || (c =? 32) || (c =? 133) || (c =? 160) || (c =? 5760) ||
   ((8192 <=? c) && (c <=? 8202)) || (c =? 8232) || (c =? 8233) || (c =? 8239) ||
   (c =? 8287) || (c =? 12288))%N.

(** [char::is_ascii_digit], [is_ascii_alphabetic], [is_ascii_alphanumeric] *)
Definition is_ascii_digit (c : char) : bool := ((48 <=? c) && (c <=? 57))%N.
Definition is_ascii_alphabetic (c : char) : bool :=
  ((65 <=? c) && (c <=? 90) || (97 <=? c) && (c <=? 122))%N.
Definition is_ascii_alphanumeric (c : char) : bool :=
  is_ascii_alphabetic c || is_ascii_digit c.

(** ** Numbers *)

Fixpoint digits_value (acc : N) (cs : list char) : option N :=
  match cs with
  | [] => Some acc
  | c :: cs' => if is_ascii_digit c then digits_value (acc * 10 + (c - 48))%N cs' else None
  end.

(** [s.parse::<u32>()] and [s.parse::<usize>()], [max] the type's largest value:
    an optional plus sign, then one or more digits. *)
Definition parse_unsigned (max : Z) (s : string) : option Z :=
  let cs := match chars s with
            | c :: cs' => if isc "+" c then cs' else c :: cs'
            | [] => []
            end in
  match cs with
  | [] => None
  | _ =>
      match digits_value 0 cs with
      | Some n => if (Z.of_N n <=? max)%Z then Some (Z.of_N n) else None
      | None => None
      end
  end.

Definition parse_u32 : string → option Z := parse_unsigned U32_MAX.
Definition parse_usize : string → option Z := parse_unsigned USIZE_MAX.

(** ** Lists of characters *)

(** [cs.iter().collect::<String>().trim_end_matches(c)] on characters *)
Fixpoint trim_end_chars (a : ascii) (cs : list char) : list char :=
  match cs with
  | [] => []
  | c :: cs' =>
      match trim_end_chars a cs' with
      | [] => if isc a c then [] else [c]
      | t => c :: t
      end
  end.

(** [str::split_inclusive('\n')]: each line with its newline *)
Fixpoint split_lines (cs : list char) : list (list char) :=
  match cs with
  | [] => []
  | c :: cs' =>
      if isc NEWLINE c then [c] :: split_lines cs'
      else match split_lines cs' with
           | [] => [[c]]
           | l :: ls => (c :: l) :: ls
           end
  end.

(** [str::split_at] at a byte offset: [None] when the offset is past the end or
    inside a character, where Rust panics. *)
Fixpoint split_at_byte (off : nat) (cs : list char) : option (list char * list char) :=
  match off, cs with
  | O, _ => Some ([], cs)
  | _, [] => None
  | _, c :: cs' =>
      if decide (len_utf8 c ≤ off) then
        match split_at_byte (off - len_utf8 c) cs' with
        | Some (l, r) => Some (c :: l, r)
        | None => None
        end
      else None
  end.

(** [str::len] *)
Definition byte_len (cs : list char) : nat := sum_list_with len_utf8 cs.

(** [String::replace_range(start..end, with)] *)
Definition replace_range {E} (start end_ : nat) (new cs : list char) : Outcome E (list char) :=
  if decide (start ≤ end_) then
    match split_at_byte start cs, split_at_byte end_ cs with
    | Some (l, _), Some (_, r) => Ok (l ++ new ++ r)
    | _, _ => Panic
    end
  else Panic.

(** ** Lemmas *)

Lemma len_utf8_pos c : 1 ≤ len_utf8 c.
Proof. unfold len_utf8. repeat case_match; lia. Qed.

Lemma split_lines_concat cs : mjoin (split_lines cs) = cs.
Proof.
  induction cs as [|c cs IH]; [done|]. cbn [split_lines].
  destruct (isc NEWLINE c); [change (c :: mjoin (split_lines cs) = c :: cs); by rewrite IH|].
  destruct (split_lines cs) as [|l ls] eqn:E; cbn in *; by rewrite <- IH.
Qed.

Lemma byte_len_app l r : byte_len (l ++ r) = byte_len l + byte_len r.
Proof. unfold byte_len. by rewrite sum_list_with_app. Qed.

Lemma split_at_byte_app l r : split_at_byte (byte_len l) (l ++ r) = Some (l, r).
Proof.
  induction l as [|c l IH]; [by destruct r|].
  cbn [byte_len sum_list_with app]. pose proof (len_utf8_pos c).
  destruct (len_utf8 c + sum_list_with len_utf8 l) eqn:Hl; [lia|]. cbn [split_at_byte].
  rewrite decide_True by lia. rewrite <- Hl.
  replace (len_utf8 c + sum_list_with len_utf8 l - len_utf8 c) with (byte_len l)
    by (unfold byte_len; lia).
  by rewrite IH.
Qed.

Lemma replace_range_app {E} l m r new :
  replace_range (E:=E) (byte_len l) (byte_len l + byte_len m) new (l ++ m ++ r)
  = Ok (l ++ new ++ r).
Proof.
  unfold replace_range. rewrite decide_True by lia.
  rewrite split_at_byte_app, app_assoc, <- byte_len_app, split_at_byte_app. done.
Qed.

Lemma encode_chars_app l r : encode_chars (l ++ r) = encode_chars l ++ encode_chars r.
Proof. unfold encode_chars. by rewrite fmap_app, join_app. Qed.

Lemma string_of_app l r : string_of (l ++ r) = string_of l +:+ string_of r.
Proof.
  rewrite <- (string_of_bytes_of (string_of l +:+ string_of r)).
  by rewrite bytes_of_app, !bytes_of_string_of.
Qed.

Lemma of_chars_app l r : of_chars (l ++ r) = of_chars l +:+ of_chars r.
Proof. unfold of_chars. by rewrite encode_chars_app, string_of_app. Qed.

(** *** Decoding what was encoded *)

Lemma byte_of_to_N n : (n < 256)%N → byte_to_N (byte_of_N n) = n.
Proof.
  intros Hn. pose proof (byte_to_of_Z (Z.of_N n)) as H. unfold byte_to_Z in H.
  rewrite Z.mod_small in H by lia. unfold byte_to_N, byte_of_N. lia.
Qed.

Lemma in_range_N lo hi n : (n < 256)%N →
  in_range (Z.of_N lo) (Z.of_N hi) (byte_of_N n) = (lo <=? n)%N && (n <=? hi)%N.
Proof.
  intros Hn. unfold in_range, byte_of_N. rewrite byte_to_of_Z, Z.mod_small by lia.
  assert (Hleb : ∀ a b, (Z.of_N a <=? Z.of_N b)%Z = (a <=? b)%N).
  { intros a b. destruct (Z.leb_spec (Z.of_N a) (Z.of_N b)), (N.leb_spec a b); done || lia. }
  by rewrite !Hleb.
Qed.

(** The width the lead byte [n] announces. *)
Lemma utf8_width_lead n : (n < 256)%N →
  utf8_width (byte_of_N n) =
    (if (0 <=? n)%N && (n <=? 127)%N then 1 else if (194 <=? n)%N && (n <=? 223)%N then 2
     else if (224 <=? n)%N && (n <=? 239)%N then 3
     else if (240 <=? n)%N && (n <=? 244)%N then 4 else 0).
Proof.
  intros Hn. unfold utf8_width.
  change 0%Z with (Z.of_N 0); change 127%Z with (Z.of_N 127);
  change 194%Z with (Z.of_N 194); change 223%Z with (Z.of_N 223);
  change 224%Z with (Z.of_N 224); change 239%Z with (Z.of_N 239);
  change 240%Z with (Z.of_N 240); change 244%Z with (Z.of_N 244).
  by rewrite !in_range_N.
Qed.

(** One sequence of each width, its bytes given by their values. *)
Ltac decode_step :=
  cbn [decode_chars]; rewrite utf8_width_lead by lia;
  repeat match goal with |- context [N.leb ?a ?b] => destruct (N.leb_spec a b); try lia end;
  cbn [andb]; by rewrite !byte_of_to_N by lia.

Lemma decode_one a rest : (a < 128)%N →
  decode_chars (byte_of_N a :: rest) = a :: decode_chars rest.
Proof. intros. decode_step. Qed.

Lemma decode_two a b rest : (194 ≤ a ≤ 223)%N → (b < 64)%N →
  decode_chars (byte_of_N a :: byte_of_N (128 + b) :: rest)
  = ((a - 192) * 64 + (128 + b - 128))%N :: decode_chars rest.
Proof. intros. decode_step. Qed.

Lemma decode_three a b c rest : (224 ≤ a ≤ 239)%N → (b < 64)%N → (c < 64)%N →
  decode_chars (byte_of_N a :: byte_of_N (128 + b) :: byte_of_N (128 + c) :: rest)
  = ((a - 224) * 4096 + (128 + b - 128) * 64 + (128 + c - 128))%N :: decode_chars rest.
Proof. intros. decode_step. Qed.

Lemma decode_four a b c d rest : (240 ≤ a ≤ 244)%N → (b < 64)%N → (c < 64)%N → (d < 64)%N →
  decode_chars (byte_of_N a :: byte_of_N (128 + b) :: byte_of_N (128 + c) ::
                byte_of_N (128 + d) :: rest)
  = ((a - 240) * 262144 + (128 + b - 128) * 4096 + (128 + c - 128) * 64 + (128 + d - 128))%N
    :: decode_chars rest.
Proof. intros. decode_step. Qed.

Lemma decode_encode_char c rest : scalar c →
  decode_chars (encode_char c ++ rest) = c :: decode_chars rest.
Proof.
  intros Hc. unfold scalar in Hc. unfold encode_char, len_utf8.
  pose proof (N.div_mod c 64 ltac:(done)) as H1.
  pose proof (N.mod_lt c 64 ltac:(done)) as H2.
  pose proof (N.div_mod (c / 64) 64 ltac:(done)) as H3.
  pose proof (N.mod_lt (c / 64) 64 ltac:(done)) as H4.
  pose proof (N.div_mod (c / 4096) 64 ltac:(done)) as H5.
  pose proof (N.mod_lt (c / 4096) 64 ltac:(done)) as H6.
  rewrite N.Div0.div_div in H3, H5. change (64 * 64)%N with 4096%N in H3.
  change (4096 * 64)%N with 262144%N in H5.
  set (q1 := (c / 64)%N) in *. set (q2 := (c / 4096)%N) in *. set (q3 := (c / 262144)%N) in *.
  set (r1 := (c mod 64)%N) in *. set (r2 := (q1 mod 64)%N) in *. set (r3 := (q2 mod 64)%N) in *.
  clearbody q1 q2 q3 r1 r2 r3.
  destruct (N.ltb_spec c 128); [|destruct (N.ltb_spec c 2048); [|destruct (N.ltb_spec c 65536)]];
    cbn [app].
  - by apply decode_one.
  - rewrite decode_two by lia. f_equal. lia.
  - rewrite decode_three by lia. f_equal. lia.
  - rewrite decode_four by lia. f_equal. lia.
Qed.

Lemma decode_encode_chars cs : Forall scalar cs → decode_chars (encode_chars cs) = cs.
Proof.
  induction 1 as [|c cs Hc _ IH]; [done|].
  change (encode_chars (c :: cs)) with (encode_char c ++ encode_chars cs).
  by rewrite decode_encode_char, IH.
Qed.

(** A string built from characters gives them back. *)
Lemma chars_of_chars cs : Forall scalar cs → chars (of_chars cs) = cs.
Proof. intros. unfold chars, of_chars. rewrite bytes_of_string_of. by apply decode_encode_chars. Qed.

Example chars_example : chars "a'é日" = [97; 39; 233; 26085]%N.
Proof. reflexivity. Qed.
Example of_chars_example : of_chars [97; 39; 233; 26085; 128512]%N = "a'é日😀".
Proof. vm_compute. reflexivity. Qed.
