(* ===== verification/BTree.v ===== *)
(** * Ordered maps

    Rust's [BTreeMap] as an association list sorted by key.  The source iterates
    over these maps, so the order of the entries is part of its behaviour: byte
    order for [String] keys, numeric order for [u32] keys.  [OrdKey] is the
    interface the maps need of a key type. *)

From stdpp Require Import base list numbers option strings sorting.
From Stdlib Require Import ZArith Lia.
From S2P Require Import Prelude Strs.

(** ** Keys *)

Class OrdKey (K : Type) `{EqDecision K} := {
  key_lt : relation K;
  key_lt_dec :: RelDecision key_lt;
  key_lt_strict :: StrictOrder key_lt;
  key_lt_total :: Trichotomy key_lt
}.

(** ** The map and its operations *)

Abbreviation btree K V := (list (K * V)).

Section BTree.
Context {K V : Type} `{OrdKey K}.

Implicit Types m : list (K * V).

(** [BTreeMap::get] *)
Fixpoint bt_get (k : K) (m : btree K V) : option V :=
  match m with
  | [] => None
  | (k', v) :: m' => if decide (k = k') then Some v else bt_get k m'
  end.

(** [BTreeMap::insert], the new value replacing the old one *)
Fixpoint bt_insert (k : K) (v : V) (m : btree K V) : btree K V :=
  match m with
  | [] => [(k, v)]
  | (k', v') :: m' =>
      if decide (k = k') then (k, v) :: m'
      else if decide (key_lt k k') then (k, v) :: (k', v') :: m'
      else (k', v') :: bt_insert k v m'
  end.

(** [BTreeMap::remove] *)
Fixpoint bt_remove (k : K) (m : btree K V) : btree K V :=
  match m with
  | [] => []
  | (k', v) :: m' => if decide (k = k') then bt_remove k m' else (k', v) :: bt_remove k m'
  end.

(** [BTreeMap::retain] with a test on the key *)
Definition bt_retain (f : K → bool) (m : btree K V) : btree K V :=
  filter (λ kv, f kv.1 = true) m.

(** [keys().cloned().collect()] and [values().cloned().collect()] *)
Definition bt_keys (m : btree K V) : list K := m.*1.
Definition bt_values (m : btree K V) : list V := m.*2.

(** [contains_key] *)
Definition bt_mem (k : K) (m : btree K V) : bool :=
  match bt_get k m with Some _ => true | None => false end.

(** The order invariant every [BTreeMap] satisfies. *)
Definition bt_wf (m : btree K V) : Prop := StronglySorted key_lt (bt_keys m).

(** ** Lookup laws *)

Lemma bt_get_insert_eq k v m : bt_get k (bt_insert k v m) = Some v.
Proof.
  induction m as [|[k' v'] m IH]; cbn; [by rewrite decide_True|].
  case_decide; subst; cbn; [by rewrite decide_True|].
  case_decide; cbn; [by rewrite decide_True|]. by rewrite decide_False.
Qed.

Lemma bt_get_insert_ne k k' v m : k' ≠ k → bt_get k' (bt_insert k v m) = bt_get k' m.
Proof.
  intros Hne. induction m as [|[k1 v1] m IH]; cbn; [by rewrite decide_False|].
  case_decide; subst; cbn; [by rewrite !decide_False|].
  case_decide; cbn; [by rewrite (decide_False (P:=k' = k))|]. case_decide; done.
Qed.

Lemma bt_get_insert k k' v m :
  bt_get k' (bt_insert k v m) = if decide (k' = k) then Some v else bt_get k' m.
Proof. case_decide; subst; [apply bt_get_insert_eq|by apply bt_get_insert_ne]. Qed.

Lemma bt_get_remove_eq k m : bt_get k (bt_remove k m) = None.
Proof.
  induction m as [|[k' v'] m IH]; cbn; [done|]. case_decide; [done|].
  cbn. by rewrite decide_False.
Qed.

Lemma bt_get_remove_ne k k' m : k' ≠ k → bt_get k' (bt_remove k m) = bt_get k' m.
Proof.
  intros Hne. induction m as [|[k1 v1] m IH]; cbn; [done|].
  case_decide as Hd; subst; cbn; [by rewrite decide_False|]. by rewrite IH.
Qed.

Lemma bt_get_remove k k' m :
  bt_get k' (bt_remove k m) = if decide (k' = k) then None else bt_get k' m.
Proof. case_decide; subst; [apply bt_get_remove_eq|by apply bt_get_remove_ne]. Qed.

Lemma bt_get_retain f k m :
  bt_get k (bt_retain f m) = if f k then bt_get k m else None.
Proof.
  unfold bt_retain. induction m as [|[k' v] m IH]; [by destruct (f k)|].
  rewrite filter_cons. cbn [fst bt_get]. destruct (decide (f k' = true)) as [Hf|Hf]; cbn;
    (case_decide; [subst|done]).
  - by rewrite Hf.
  - rewrite IH. by destruct (f k').
Qed.

(** ** Keys and order *)

Lemma bt_get_elem k v m : bt_get k m = Some v → (k, v) ∈ m.
Proof.
  induction m as [|[k' v'] m IH]; cbn; [done|]. case_decide.
  - intros [= ->]. subst. by left.
  - intros. right. auto.
Qed.

Lemma bt_get_None k m : bt_get k m = None ↔ k ∉ bt_keys m.
Proof.
  induction m as [|[k' v'] m IH]; cbn.
  - split; [intros _; apply not_elem_of_nil|done].
  - rewrite not_elem_of_cons. case_decide; [split; [done|tauto]|]. rewrite IH. tauto.
Qed.

Lemma bt_keys_get k m : k ∈ bt_keys m ↔ is_Some (bt_get k m).
Proof.
  rewrite <- not_eq_None_Some, bt_get_None.
  split; [tauto|]. intros Hk. destruct (decide (k ∈ bt_keys m)); tauto.
Qed.

Lemma bt_wf_cons k v m : bt_wf ((k, v) :: m) →
  bt_wf m ∧ ∀ k', k' ∈ bt_keys m → key_lt k k'.
Proof.
  intros Hwf. apply StronglySorted_inv in Hwf as [Hs Hf]. split; [done|].
  intros k' Hk'. rewrite Forall_forall in Hf. by apply Hf.
Qed.

Lemma bt_wf_notin k v m : bt_wf ((k, v) :: m) → k ∉ bt_keys m.
Proof. intros [_ Hlt]%bt_wf_cons Hin. apply (irreflexivity key_lt k). by apply Hlt. Qed.

Lemma bt_keys_nodup m : bt_wf m → NoDup (bt_keys m).
Proof.
  induction m as [|[k v] m IH]; intros Hwf; cbn; [constructor|].
  constructor; [by eapply bt_wf_notin|]. apply IH. by apply bt_wf_cons in Hwf as [? _].
Qed.

(** In a well-formed map every entry is the one its key finds. *)
Lemma bt_elem_get k v m : bt_wf m → (k, v) ∈ m → bt_get k m = Some v.
Proof.
  induction m as [|[k' v'] m IH]; intros Hwf Hin; [by apply elem_of_nil in Hin|].
  apply elem_of_cons in Hin as [[= -> ->]|Hin]; cbn; [by rewrite decide_True|].
  assert (k ∈ bt_keys m) by (apply list_elem_of_fmap; by exists (k, v)).
  rewrite decide_False by (intros ->; by eapply bt_wf_notin).
  apply IH; [|done]. by apply bt_wf_cons in Hwf as [? _].
Qed.

Lemma bt_keys_insert k v m k' :
  k' ∈ bt_keys (bt_insert k v m) ↔ k' = k ∨ k' ∈ bt_keys m.
Proof.
  rewrite !bt_keys_get, bt_get_insert. case_decide; [|tauto]. split; [by left|by eauto].
Qed.

Lemma bt_insert_wf k v m : bt_wf m → bt_wf (bt_insert k v m).
Proof.
  induction m as [|[k' v'] m IH]; intros Hwf; cbn.
  - repeat constructor.
  - pose proof (bt_wf_cons _ _ _ Hwf) as [Hm Hlt].
    case_decide as Heq; [by subst; apply StronglySorted_inv in Hwf as [??]; constructor|].
    case_decide as Hk.
    + constructor; [done|]. rewrite Forall_forall. intros x Hx.
      apply elem_of_cons in Hx as [->|Hx]; [done|]. etrans; [done|]. by apply Hlt.
    + constructor; [by apply IH|]. rewrite Forall_forall. intros x Hx.
      apply bt_keys_insert in Hx as [->|Hx]; [|by apply Hlt].
      destruct (trichotomy key_lt k k') as [?|[?|?]]; done.
Qed.

Lemma bt_filter_wf (P : K * V → Prop) `{∀ x, Decision (P x)} m :
  bt_wf m → bt_wf (filter P m).
Proof.
  induction m as [|[k v] m IH]; intros Hwf; [done|].
  pose proof (bt_wf_cons _ _ _ Hwf) as [Hm Hlt]. rewrite filter_cons.
  case_decide; [|by apply IH]. constructor; [by apply IH|].
  rewrite Forall_forall. intros x Hx. apply Hlt.
  apply list_elem_of_fmap in Hx as [[k' v'] [-> Hx]].
  apply list_elem_of_filter in Hx as [_ Hx]. apply list_elem_of_fmap. by exists (k', v').
Qed.

Lemma bt_remove_filter k m : bt_remove k m = filter (λ kv, kv.1 ≠ k) m.
Proof.
  induction m as [|[k' v] m IH]; [done|]. rewrite filter_cons. cbn [bt_remove fst].
  destruct (decide (k = k')), (decide (k' ≠ k)); try congruence; by f_equal.
Qed.

Lemma bt_remove_wf k m : bt_wf m → bt_wf (bt_remove k m).
Proof. rewrite bt_remove_filter. apply bt_filter_wf. Qed.

Lemma bt_retain_wf f m : bt_wf m → bt_wf (bt_retain f m).
Proof. apply bt_filter_wf. Qed.

(** Two well-formed maps with the same lookups are the same map. *)
Lemma bt_ext m1 m2 : bt_wf m1 → bt_wf m2 →
  (∀ k, bt_get k m1 = bt_get k m2) → m1 = m2.
Proof.
  revert m2. induction m1 as [|[k1 v1] m1 IH]; intros [|[k2 v2] m2] Hw1 Hw2 Hget.
  - done.
  - specialize (Hget k2). cbn in Hget. by rewrite decide_True in Hget.
  - specialize (Hget k1). cbn in Hget. by rewrite decide_True in Hget.
  - pose proof (bt_wf_cons _ _ _ Hw1) as [Hm1 Hl1].
    pose proof (bt_wf_cons _ _ _ Hw2) as [Hm2 Hl2].
    assert (k1 = k2) as ->.
    { destruct (trichotomy key_lt k1 k2) as [Hlt|[?|Hlt]]; [exfalso|done|exfalso].
      - assert (k1 ∈ bt_keys ((k2, v2) :: m2)) as Hin.
        { apply bt_keys_get. rewrite <- Hget. cbn. rewrite decide_True by done. eauto. }
        apply elem_of_cons in Hin as [->|Hin]; [by apply (irreflexivity key_lt k2)|].
        eapply (irreflexivity key_lt k1). etrans; [done|]. by apply Hl2.
      - assert (k2 ∈ bt_keys ((k1, v1) :: m1)) as Hin.
        { apply bt_keys_get. rewrite Hget. cbn. rewrite decide_True by done. eauto. }
        apply elem_of_cons in Hin as [->|Hin]; [by apply (irreflexivity key_lt k1)|].
        eapply (irreflexivity key_lt k2). etrans; [done|]. by apply Hl1. }
    pose proof (Hget k2) as Hv. cbn in Hv. rewrite !decide_True in Hv by done.
    simplify_eq. f_equal. apply IH; [done..|]. intros k. specialize (Hget k). cbn in Hget.
    case_decide; [|done]. subst.
    rewrite (proj2 (bt_get_None k2 m1)) by (by eapply bt_wf_notin).
    by rewrite (proj2 (bt_get_None k2 m2)) by (by eapply bt_wf_notin).
Qed.

End BTree.

#[export] Hint Resolve bt_insert_wf bt_remove_wf bt_retain_wf : star9.
#[export] Hint Rewrite @bt_get_insert_eq @bt_get_remove_eq : star9.

(** ** Key instances *)

Definition str_lt (s1 s2 : string) : Prop := String.ltb s1 s2 = true.

#[global] Instance str_lt_dec : RelDecision str_lt.
Proof. intros s1 s2. unfold str_lt. apply _. Defined.

Lemma str_lt_le s1 s2 : str_lt s1 s2 ↔ String.le s1 s2 ∧ s1 ≠ s2.
Proof.
  unfold str_lt, String.le, String.ltb, String.leb.
  destruct (String.compare s1 s2) eqn:Hc.
  - apply String.compare_eq_iff in Hc as ->. by split; [|intros [_ ?]].
  - split; [|done]. intros _. split; [done|]. intros ->.
    pose proof (String.compare_antisym s2 s2) as Ha. by rewrite Hc in Ha.
  - by split; [|intros [? _]].
Qed.

#[global] Instance str_lt_strict : StrictOrder str_lt.
Proof.
  split.
  - intros s Hs. apply str_lt_le in Hs as [_ ?]. done.
  - intros s1 s2 s3 H12 H23. apply str_lt_le in H12 as [H12 N12], H23 as [H23 N23].
    apply str_lt_le. split; [by etrans|]. intros ->. apply N12.
    by apply (anti_symm String.le).
Qed.

#[global] Instance str_lt_total : Trichotomy str_lt.
Proof.
  intros s1 s2. destruct (decide (s1 = s2)); [auto|].
  destruct (total String.le s1 s2); [left|right; right]; by apply str_lt_le.
Qed.

#[global] Instance string_ord : OrdKey string := { key_lt := str_lt }.

#[global] Instance Z_lt_strict : StrictOrder Z.lt.
Proof. split; [intros x Hx; lia|intros x y z ??; lia]. Qed.

#[global] Instance Z_lt_tricho : Trichotomy Z.lt.
Proof. intros x y. lia. Qed.

#[global] Instance Z_ord : OrdKey Z := { key_lt := Z.lt }.
