(* ===== verification/Core.v ===== *)
(** * star9-core: shared value types and path algebra

    Models [crates/star9-core/src/lib.rs]: [Error] and [ErrorKind], [FileMode],
    [Metadata], [DirEntry], [FsContext], [OpenFlags], and the path functions
    [clean_path], [valid_path], [base_name], [parent_path], [relative_under].

    A [SystemTime] is a number of nanoseconds relative to the Unix epoch. *)

From stdpp Require Import base list numbers option strings.
From Stdlib Require Import ZArith Lia Ascii.
From S2P Require Import Prelude Strs.

(** ** Errors *)

Inductive ErrorKind :=
| NotFound | AlreadyExists | Invalid | PermissionDenied | NotSupported | NotEmpty
| Closed | NotDir | IsDir | UnexpectedEof | Other.

#[global] Instance ErrorKind_eq_dec : EqDecision ErrorKind.
Proof. solve_decision. Defined.

Inductive Error :=
| EPath (op path : string) (kind : ErrorKind)
| EKind (kind : ErrorKind)
| EMessage (msg : string).

(** [Error::kind] *)
Definition error_kind (e : Error) : ErrorKind :=
  match e with
  | EPath _ _ kind => kind
  | EKind kind => kind
  | EMessage _ => Other
  end.

Definition kind_is (k : ErrorKind) (e : Error) : bool := bool_decide (error_kind e = k).

(** [#[error(..)]]: the texts of the kinds and of an error. *)
Definition ErrorKind_display (k : ErrorKind) : string :=
  match k with
  | NotFound => "not found"
  | AlreadyExists => "already exists"
  | Invalid => "invalid argument"
  | PermissionDenied => "permission denied"
  | NotSupported => "operation not supported"
  | NotEmpty => "directory not empty"
  | Closed => "file is closed"
  | NotDir => "not a directory"
  | IsDir => "is a directory"
  | UnexpectedEof => "unexpected eof"
  | Other => "other error"
  end.

Definition Error_display (e : Error) : string :=
  match e with
  | EPath op path kind => op +:+ " " +:+ path +:+ ": " +:+ ErrorKind_display kind
  | EKind kind => ErrorKind_display kind
  | EMessage m => m
  end.

(** [impl From<std::io::Error> for Error]; the kinds of [std::io::ErrorKind] it
    tells apart, [IoOther] carrying the text of any other one. *)
Inductive IoError :=
| IoNotFound | IoAlreadyExists | IoPermissionDenied | IoInvalidInput | IoInvalidData
| IoUnexpectedEof | IoOther (text : string).

Definition from_io_error (err : IoError) : Error :=
  match err with
  | IoNotFound => EKind NotFound
  | IoAlreadyExists => EKind AlreadyExists
  | IoPermissionDenied => EKind PermissionDenied
  | IoInvalidInput | IoInvalidData => EKind Invalid
  | IoUnexpectedEof => EKind UnexpectedEof
  | IoOther text => EMessage text
  end.

(** [star9_core::Result], and computations with a state of type [S]. *)
Abbreviation Result A := (Outcome Error A).

(** [time + duration], in nanoseconds: the addition panics when the seconds leave the [i64]
    that a native [SystemTime] or [Instant] holds. *)
Definition time_plus (time duration : Z) : Result Z :=
  if (I64_MAX <? (time + duration) / 1000000000)%Z then Panic else Ok (time + duration)%Z.
Abbreviation M S A := (Eff Error S A).

(** ** File modes: a [u32] *)

Module FileMode.
Definition DIR : Z := 2147483648.
Definition SYMLINK : Z := 1073741824.
Definition DEVICE : Z := 536870912.
Definition NAMED_PIPE : Z := 268435456.
Definition SOCKET : Z := 134217728.
Definition EXECUTABLE : Z := 67108864.
Definition PERM_MASK : Z := 511.
Definition empty : Z := 0.
Definition from_perm (perm : Z) : Z := Z.land perm PERM_MASK.
Definition perm (m : Z) : Z := Z.land m PERM_MASK.
Definition type_bits (m : Z) : Z := Z.land m (not_u32 PERM_MASK).
Definition contains (m other : Z) : bool := (Z.land m other =? other)%Z.
Definition is_dir (m : Z) : bool := contains m DIR.
Definition is_symlink (m : Z) : bool := contains m SYMLINK.
Definition with_perm (m perm : Z) : Z :=
  Z.lor (Z.land m (not_u32 PERM_MASK)) (Z.land perm PERM_MASK).
Definition unix_type_and_perm (m : Z) : Z :=
  let typ : Z :=
    (if is_dir m then 16384          (* 0o040000 *)
    else if is_symlink m then 40960 (* 0o120000 *)
    else if contains m NAMED_PIPE then 4096 (* 0o010000 *)
    else if contains m SOCKET then 49152 (* 0o140000 *)
    else 32768                      (* 0o100000 *))%Z in
  Z.lor typ (perm m).
End FileMode.

(** ** Metadata and directory entries *)

Record Metadata := mkMetadata {
  m_name : string;
  m_mode : Z;
  m_size : Z;
  m_modified : Z;
  m_uid : Z;
  m_gid : Z
}.

#[global] Instance Metadata_eq_dec : EqDecision Metadata.
Proof. solve_decision. Defined.

Definition UNIX_EPOCH : Z := 0.

Module Meta.
Definition new (name : string) (mode : Z) : Metadata :=
  let mode := FileMode.with_perm mode (FileMode.perm mode) in
  let size := if FileMode.is_dir mode then 2%Z else 0%Z in
  mkMetadata name mode size UNIX_EPOCH 0 0.
Definition set_size (size : Z) (m : Metadata) : Metadata :=
  mkMetadata (m_name m) (m_mode m) size (m_modified m) (m_uid m) (m_gid m).
Definition set_name (name : string) (m : Metadata) : Metadata :=
  mkMetadata name (m_mode m) (m_size m) (m_modified m) (m_uid m) (m_gid m).
Definition set_mode (mode : Z) (m : Metadata) : Metadata :=
  mkMetadata (m_name m) mode (m_size m) (m_modified m) (m_uid m) (m_gid m).
Definition set_modified (t : Z) (m : Metadata) : Metadata :=
  mkMetadata (m_name m) (m_mode m) (m_size m) t (m_uid m) (m_gid m).
Definition set_owner (uid gid : Z) (m : Metadata) : Metadata :=
  mkMetadata (m_name m) (m_mode m) (m_size m) (m_modified m) uid gid.
Definition dir (name : string) (perm : Z) : Metadata :=
  new name (Z.lor FileMode.DIR (FileMode.from_perm perm)).
Definition file (name : string) (perm size : Z) : Metadata :=
  set_size size (new name (FileMode.from_perm perm)).
Definition symlink (name : string) (size : Z) : Metadata :=
  set_size size (new name (Z.lor FileMode.SYMLINK (FileMode.from_perm 511))).
Definition is_dir (m : Metadata) : bool := FileMode.is_dir (m_mode m).
End Meta.

Record DirEntry := mkDirEntry { d_name : string; d_metadata : Metadata }.

#[global] Instance DirEntry_eq_dec : EqDecision DirEntry.
Proof. solve_decision. Defined.

(** ** Operation context *)

Record FsContext := mkFsContext {
  follow_symlinks : bool;
  read_only : bool;
  origin_path : option string;
  filepath : option string;
  ctx_op : option string
}.

Module Ctx.
Definition new : FsContext := mkFsContext true false None None None.
Definition no_follow (c : FsContext) : FsContext :=
  mkFsContext false (read_only c) (origin_path c) (filepath c) (ctx_op c).
Definition set_read_only (c : FsContext) : FsContext :=
  mkFsContext (follow_symlinks c) true (origin_path c) (filepath c) (ctx_op c).
Definition with_origin (path op : string) (c : FsContext) : FsContext :=
  match origin_path c with
  | None =>
      mkFsContext (follow_symlinks c)
        (read_only c ||
          bool_decide (op = "open" ∨ op = "stat" ∨ op = "readdir" ∨ op = "readlink"))
        (Some path) (Some path) (Some op)
  | Some _ => c
  end.
Definition with_filepath (path : string) (c : FsContext) : FsContext :=
  match filepath c with
  | None => mkFsContext (follow_symlinks c) (read_only c) (origin_path c) (Some path) (ctx_op c)
  | Some _ => c
  end.
Definition with_op (op : string) (c : FsContext) : FsContext :=
  match ctx_op c with
  | None => mkFsContext (follow_symlinks c) (read_only c) (origin_path c) (filepath c) (Some op)
  | Some _ => c
  end.
End Ctx.

(** ** Open flags: a [u32] *)

Module OpenFlags.
Definition RDONLY : Z := 0.
Definition WRONLY : Z := 1.
Definition RDWR : Z := 2.
Definition CREATE : Z := 64.   (* 0o100 *)
Definition EXCL : Z := 128.    (* 0o200 *)
Definition TRUNC : Z := 512.   (* 0o1000 *)
Definition APPEND : Z := 1024. (* 0o2000 *)
Definition contains (f other : Z) : bool := (Z.land f other =? other)%Z.
Definition is_write (f : Z) : bool := negb (Z.land f (Z.lor WRONLY RDWR) =? 0)%Z.
End OpenFlags.

(** ** Paths *)

(** One turn of [clean_path]'s loop over the components. *)
Definition clean_step (parts : list string) (part : string) : list string :=
  if decide (part = "" ∨ part = ".") then parts
  else if decide (part = "..") then removelast parts
  else parts ++ [part].

Definition clean_path (path : string) : string :=
  if decide (path = "" ∨ path = ".") then "."
  else
    let absolute := starts_with_char "/" path in
    let parts := foldl clean_step [] (split_on "/" path) in
    let cleaned := str_join "/" parts in
    match absolute, is_empty_str cleaned with
    | _, true => "."
    | true, false => trim_start_char "/" cleaned
    | false, false => cleaned
    end.

Definition valid_part (part : string) : bool :=
  negb (is_empty_str part) && bool_decide (part ≠ ".") && bool_decide (part ≠ "..").

Definition valid_path (path : string) : bool :=
  if decide (path = ".") then true
  else if is_empty_str path || starts_with_char "/" path || ends_with_char "/" path then false
  else forallb valid_part (split_on "/" path).

Definition base_name (path : string) : string :=
  default path (last (split_on "/" path)).

Definition parent_path (path : string) : string :=
  let cleaned := clean_path path in
  if decide (cleaned = ".") then "."
  else match rsplit_once "/" cleaned with
       | Some (parent, _) => parent
       | None => "."
       end.

Definition relative_under (root name : string) : option string :=
  if decide (root = name) then Some "."
  else if decide (root = ".") then Some (clean_path name)
  else
    rest ← strip_prefix root name;
    rest' ← strip_prefix "/" rest;
    Some (clean_path rest').

(** ** The component view of paths

    A valid path is a list of good components: none empty, none [.] or [..], none
    with a slash.  The root is the empty list. *)

Definition good_part (part : string) : Prop :=
  valid_part part = true ∧ contains_char "/" part = false.

Definition of_parts (parts : list string) : string :=
  match parts with [] => "." | _ => str_join "/" parts end.

Definition parts_of (path : string) : list string :=
  if decide (path = ".") then [] else split_on "/" path.

Lemma valid_part_inv p : valid_part p = true ↔ p ≠ "" ∧ p ≠ "." ∧ p ≠ "..".
Proof.
  unfold valid_part. rewrite !andb_true_iff, negb_true_iff, !bool_decide_eq_true.
  rewrite <- not_true_iff_false, is_empty_str_true. tauto.
Qed.

Lemma good_part_inv p : good_part p → p ≠ "" ∧ p ≠ "." ∧ p ≠ "..".
Proof. by intros [?%valid_part_inv _]. Qed.

Lemma clean_step_good parts p : contains_char "/" p = false →
  Forall good_part parts → Forall good_part (clean_step parts p).
Proof.
  intros Hc Hparts. unfold clean_step. repeat case_decide; [done| |].
  - destruct parts as [|q qs] using rev_ind; [done|].
    rewrite removelast_last. by apply Forall_app in Hparts as [??].
  - apply Forall_app. split; [done|]. repeat constructor; [|done].
    apply valid_part_inv. tauto.
Qed.

Lemma clean_fold_good ps acc : Forall (λ p, contains_char "/" p = false) ps →
  Forall good_part acc → Forall good_part (foldl clean_step acc ps).
Proof.
  revert acc. induction ps as [|p ps IH]; intros acc Hps Hacc; cbn; [done|].
  inversion Hps; subst. apply IH; [done|]. by apply clean_step_good.
Qed.

Lemma clean_fold_id ps acc : Forall good_part ps →
  foldl clean_step acc ps = acc ++ ps.
Proof.
  revert acc. induction ps as [|p ps IH]; intros acc Hps; cbn; [by rewrite app_nil_r|].
  inversion Hps as [|?? Hp%good_part_inv Hps']; subst. unfold clean_step at 2.
  rewrite decide_False by tauto. rewrite decide_False by tauto.
  rewrite IH by done. by rewrite <- app_assoc.
Qed.

Lemma join_good_nonempty ps : ps ≠ [] → Forall good_part ps → str_join "/" ps ≠ "".
Proof.
  intros Hne Hps. destruct ps as [|p ps]; [done|].
  inversion Hps as [|?? Hp%good_part_inv _]; subst.
  destruct ps as [|q ps]; [tauto|]. rewrite join_cons by done. by destruct p.
Qed.

Lemma join_good_no_slash ps : Forall good_part ps → starts_with_char "/" (str_join "/" ps) = false.
Proof.
  destruct ps as [|p ps]; [done|]. intros Hps. inversion Hps as [|?? Hp _]; subst.
  pose proof (good_part_inv _ Hp) as (Hne & _). destruct Hp as [_ Hc].
  destruct p as [|a p]; [done|]. assert (str_join "/" (String a p :: ps) =
    String a (match ps with [] => p | _ => p +:+ "/" +:+ str_join "/" ps end)) as ->.
  { by destruct ps. }
  cbn in *. by apply orb_false_iff in Hc as [? _].
Qed.

Lemma join_good_not_dot ps : Forall good_part ps → str_join "/" ps ≠ ".".
Proof.
  intros Hps Hj. destruct ps as [|p ps]; [done|].
  assert (split_on "/" (str_join "/" (p :: ps)) = p :: ps) as Hs.
  { apply split_on_join; [done|]. eapply Forall_impl; [done|]. by intros ? [_ ?]. }
  rewrite Hj in Hs. cbn in Hs. injection Hs as <- _.
  inversion Hps as [|?? Hp%good_part_inv _]; tauto.
Qed.

Lemma split_join_good ps : ps ≠ [] → Forall good_part ps →
  split_on "/" (str_join "/" ps) = ps.
Proof.
  intros Hne Hps. apply split_on_join; [done|].
  eapply Forall_impl; [done|]. by intros ? [_ ?].
Qed.

(** [clean_path] normalises the components of its argument. *)
Lemma clean_path_parts path :
  clean_path path = of_parts (foldl clean_step [] (split_on "/" path)).
Proof.
  assert (Forall good_part (foldl clean_step [] (split_on "/" path))) as Hg
    by (apply clean_fold_good; [apply split_on_parts|done]).
  unfold clean_path. case_decide as Hp; [by destruct Hp as [-> | ->]|].
  revert Hg. generalize (foldl clean_step [] (split_on "/" path)) as ps. intros ps Hg.
  destruct ps as [|p ps]; [by destruct (starts_with_char _ _)|].
  destruct (is_empty_str (str_join "/" (p :: ps))) eqn:He.
  - apply is_empty_str_true in He. by apply join_good_nonempty in He.
  - cbn [of_parts]. destruct (starts_with_char "/" path); [|done].
    apply trim_start_char_id, join_good_no_slash. done.
Qed.

Lemma of_parts_valid ps : Forall good_part ps → valid_path (of_parts ps) = true.
Proof.
  intros Hps. destruct ps as [|p ps]; [done|]. unfold of_parts, valid_path.
  rewrite decide_False by (by apply join_good_not_dot).
  rewrite join_good_no_slash by done.
  assert (is_empty_str (str_join "/" (p :: ps)) = false) as ->.
  { apply not_true_iff_false. rewrite is_empty_str_true. by apply join_good_nonempty. }
  rewrite split_join_good by done.
  assert (ends_with_char "/" (str_join "/" (p :: ps)) = false) as ->.
  { destruct (exists_last (l:=p :: ps)) as (l & q & Hl); [done|]. rewrite Hl in *.
    apply Forall_app in Hps as [_ Hq]. inversion Hq as [|?? Hq' _]; subst.
    pose proof (good_part_inv _ Hq') as (Hne & _). destruct Hq' as [_ Hc].
    destruct (decide (l = [])) as [->|?]; [by apply ends_with_char_contains|].
    rewrite join_snoc, app_str_assoc, ends_with_char_app by done.
    by apply ends_with_char_contains. }
  apply forallb_Forall. eapply Forall_impl; [done|]. by intros x [? _].
Qed.

(** Every valid path is the rendering of its components. *)
Lemma valid_path_parts path : valid_path path = true →
  Forall good_part (parts_of path) ∧ of_parts (parts_of path) = path.
Proof.
  unfold valid_path, parts_of. case_decide as Hd; [by subst|].
  destruct (_ || _); [done|]. intros Hall%forallb_Forall. split.
  - apply Forall_and. split; [done|]. apply split_on_parts.
  - pose proof (split_on_nonempty "/" path).
    pose proof (join_split_on "/" path) as Hj. unfold of_parts. by case_match.
Qed.

Lemma parts_of_of_parts ps : Forall good_part ps → parts_of (of_parts ps) = ps.
Proof.
  intros Hps. destruct ps as [|p ps]; [done|]. unfold parts_of, of_parts.
  rewrite decide_False by (by apply join_good_not_dot). by apply split_join_good.
Qed.

Lemma clean_path_of_parts ps : Forall good_part ps → clean_path (of_parts ps) = of_parts ps.
Proof.
  intros Hps. rewrite clean_path_parts. destruct ps as [|p ps]; [done|].
  unfold of_parts at 2. rewrite split_join_good by done. by rewrite clean_fold_id.
Qed.

Lemma clean_path_valid path : valid_path (clean_path path) = true.
Proof.
  rewrite clean_path_parts. apply of_parts_valid, clean_fold_good; [|done].
  apply split_on_parts.
Qed.

Lemma clean_path_id path : valid_path path = true → clean_path path = path.
Proof. intros [Hg <-]%valid_path_parts. by apply clean_path_of_parts. Qed.

Lemma of_parts_snoc_clean ps p : Forall good_part ps → good_part p →
  of_parts (ps ++ [p]) = if decide (ps = []) then p else of_parts ps +:+ "/" +:+ p.
Proof.
  intros Hps Hp. case_decide as Hd; [by subst|].
  destruct ps as [|q qs]; [done|]. unfold of_parts. cbn [app].
  change (q :: qs ++ [p]) with ((q :: qs) ++ [p]). by apply join_snoc.
Qed.

Lemma valid_as_parts q : valid_path q = true → ∃ ps, q = of_parts ps ∧ Forall good_part ps.
Proof. intros [Hg Heq]%valid_path_parts. by exists (parts_of q). Qed.

(** One turn of the loops that extend a path by a component. *)
Lemma join_step ps n : Forall good_part ps →
  (if is_empty_str (str_join "/" ps) then str_join "/" ps else str_join "/" ps +:+ "/") +:+ n =
    str_join "/" (ps ++ [n]).
Proof.
  intros Hps. destruct ps as [|q qs]; [done|].
  assert (is_empty_str (str_join "/" (q :: qs)) = false) as ->.
  { apply not_true_iff_false. rewrite is_empty_str_true. by apply join_good_nonempty. }
  rewrite join_snoc by done. by rewrite app_str_assoc.
Qed.

Lemma of_parts_app ks rs : ks ≠ [] → rs ≠ [] →
  of_parts (ks ++ rs) = of_parts ks +:+ "/" +:+ of_parts rs.
Proof.
  intros Hk Hr. unfold of_parts. destruct ks as [|k ks]; [done|]. destruct rs as [|r rs]; [done|].
  cbn [app]. clear Hk Hr. revert k. induction ks as [|k' ks IH]; intros k; cbn [app].
  - by rewrite (join_cons _ k (r :: rs)) by done.
  - rewrite (join_cons _ k (k' :: ks ++ r :: rs)), (join_cons _ k (k' :: ks)) by done.
    rewrite (IH k'). by rewrite !app_str_assoc.
Qed.

Lemma parent_of_parts ps p : Forall good_part (ps ++ [p]) →
  parent_path (of_parts (ps ++ [p])) = of_parts ps.
Proof.
  intros Hg. unfold parent_path. rewrite clean_path_of_parts by done.
  assert (of_parts (ps ++ [p]) = str_join "/" (ps ++ [p])) as -> by (by destruct ps).
  rewrite decide_False by (by apply join_good_not_dot).
  apply Forall_app in Hg as [_ Hp]. inversion Hp as [|?? [_ Hc] _]; subst.
  destruct (decide (ps = [])) as [->|?].
  - cbn [app str_join]. by rewrite rsplit_once_no_char.
  - rewrite rsplit_once_join by done. by destruct ps.
Qed.

Lemma parent_path_valid path : valid_path (parent_path path) = true.
Proof.
  assert (∀ ps, Forall good_part ps → valid_path (parent_path (of_parts ps)) = true) as Hps.
  { intros ps Hg. destruct ps as [|p ps _] using rev_ind; [done|].
    rewrite parent_of_parts by done. apply of_parts_valid.
    by apply Forall_app in Hg as [? _]. }
  assert (parent_path path = parent_path (clean_path path)) as ->.
  { unfold parent_path. by rewrite (clean_path_id (clean_path path)) by apply clean_path_valid. }
  destruct (valid_path_parts (clean_path path)) as [Hg <-]; [apply clean_path_valid|].
  by apply Hps.
Qed.

Lemma base_name_of_parts ps p : Forall good_part (ps ++ [p]) →
  base_name (of_parts (ps ++ [p])) = p.
Proof.
  intros Hg. unfold base_name.
  assert (of_parts (ps ++ [p]) = str_join "/" (ps ++ [p])) as -> by (by destruct ps).
  rewrite split_join_good by (done || by destruct ps). by rewrite last_snoc.
Qed.

#[export] Hint Resolve clean_path_valid parent_path_valid : star9.

(** ** Properties *)

(** [clean_path] is a projection onto the valid paths: its result is always
    a valid path, a valid path is left unchanged, and so cleaning twice is
    cleaning once. *)
Theorem clean_path_projection path :
  valid_path (clean_path path) = true ∧
  (valid_path path = true ↔ clean_path path = path) ∧
  clean_path (clean_path path) = clean_path path.
Proof.
  split; [apply clean_path_valid|]. split.
  - split; [apply clean_path_id|]. intros <-. apply clean_path_valid.
  - apply clean_path_id, clean_path_valid.
Qed.
