(* ===== verification/FsTrait.v ===== *)
(** * star9-fs: the filesystem and file-handle traits

    Models the traits [FileHandle] and [FileSystem] of
    [crates/star9-fs/src/lib.rs] with their provided methods, the directory
    handle [DirFile], and the helper functions over a [&dyn FileSystem]
    ([read_file], [write_file], [mkdir_all], [remove_all], [copy_fs], ...).

    [W] is the state behind the filesystems, [H] the type of open handles.  A
    method that takes [&self] or [&mut self] is a computation over [W]; a handle
    method is one over the handle and [W].  [read]s return the bytes they put at
    the front of the caller's buffer, whose length is their argument. *)

From stdpp Require Import base list numbers option strings sorting.
From Stdlib Require Import ZArith Lia Ascii.
From S2P Require Import Prelude Strs BTree Core.

Local Open Scope Z_scope.

(** ** The traits *)

Inductive SeekFrom := SeekStart (pos : Z) | SeekEnd (off : Z) | SeekCurrent (off : Z).

Class FileHandle (W H : Type) := {
  fh_read : Z → M (H * W) (list byte);
  fh_write : list byte → M (H * W) Z;
  fh_read_at : Z → Z → M (H * W) (list byte);
  fh_write_at : list byte → Z → M (H * W) Z;
  fh_seek : SeekFrom → M (H * W) Z;
  fh_stat : M (H * W) Metadata;
  fh_read_dir : Z → M (H * W) (list DirEntry);
  fh_sync : M (H * W) unit;
  fh_close : M (H * W) unit
}.

Record FileSystem (W H : Type) := mkFileSystem {
  fs_open : FsContext → string → M W H;
  fs_stat : FsContext → string → M W Metadata;
  fs_lstat : FsContext → string → M W Metadata;
  fs_read_dir : FsContext → string → M W (list DirEntry);
  fs_create : string → M W H;
  fs_open_file : string → Z → Z → M W H;
  fs_mkdir : string → Z → M W unit;
  fs_remove : string → M W unit;
  fs_rename : string → string → M W unit;
  fs_link : string → string → M W unit;
  fs_chmod : string → Z → M W unit;
  fs_chown : string → Z → Z → M W unit;
  fs_chtimes : string → Z → M W unit;
  fs_truncate : string → Z → M W unit;
  fs_symlink : string → string → M W unit;
  fs_readlink : string → M W string;
  fs_set_xattr : string → string → list byte → M W unit;
  fs_get_xattr : string → string → M W (list byte);
  fs_list_xattrs : string → M W (list string);
  fs_remove_xattr : string → string → M W unit
}.
Arguments fs_open {W H}. Arguments fs_stat {W H}. Arguments fs_lstat {W H}.
Arguments fs_read_dir {W H}. Arguments fs_create {W H}. Arguments fs_open_file {W H}.
Arguments fs_mkdir {W H}. Arguments fs_remove {W H}. Arguments fs_rename {W H}.
Arguments fs_link {W H}. Arguments fs_chmod {W H}. Arguments fs_chown {W H}.
Arguments fs_chtimes {W H}. Arguments fs_truncate {W H}. Arguments fs_symlink {W H}.
Arguments fs_readlink {W H}. Arguments fs_set_xattr {W H}. Arguments fs_get_xattr {W H}.
Arguments fs_list_xattrs {W H}. Arguments fs_remove_xattr {W H}.

(** ** Handles in local variables

    [on_handle h m] runs a handle method and returns its [Result] with the
    handle; [with_handle] is the same followed by [?]. *)
Definition on_handle {W H A} (h : H) (m : M (H * W) A) : M W (Result A * H) := λ w,
  match m (h, w) with
  | (Ok a, (h', w')) => (Ok (Ok a, h'), w')
  | (Err e, (h', w')) => (Ok (Err e, h'), w')
  | (Panic, (_, w')) => (Panic, w')
  | (NoFuel, (_, w')) => (NoFuel, w')
  end.

Definition with_handle {W H A} (h : H) (m : M (H * W) A) : M W (A * H) :=
  '(r, h') ← on_handle h m;
  a ← lift r;
  mret (a, h').

Definition unsupported {S A} : M S A := throw (EKind NotSupported).

(** ** Provided methods of [FileHandle] *)

Section HandleDefaults.
Context {W H : Type}.

Definition default_read_at (seek : SeekFrom → M (H * W) Z) (read : Z → M (H * W) (list byte))
    (len offset : Z) : M (H * W) (list byte) :=
  seek (SeekStart offset) ;; read len.

Definition default_write_at (seek : SeekFrom → M (H * W) Z)
    (write : list byte → M (H * W) Z) (data : list byte) (offset : Z) : M (H * W) Z :=
  seek (SeekStart offset) ;; write data.

Definition default_read_dir (stat : M (H * W) Metadata) (count : Z)
    : M (H * W) (list DirEntry) :=
  meta ← stat; throw (EPath "readdir" (m_name meta) NotSupported).
End HandleDefaults.

(** ** Provided methods of [FileSystem] *)

(** [entries.sort_by(|a, b| a.name.cmp(&b.name))] *)
Definition entry_le (a b : DirEntry) : Prop := String.le (d_name a) (d_name b).

#[global] Instance entry_le_dec : RelDecision entry_le.
Proof. intros a b. unfold entry_le. apply _. Defined.

Definition sort_entries (entries : list DirEntry) : list DirEntry :=
  merge_sort entry_le entries.

Section FsDefaults.
Context {W H : Type} `{!FileHandle W H}.

Definition default_stat (open : FsContext → string → M W H) (ctx : FsContext) (name : string)
    : M W Metadata :=
  f ← open (Ctx.with_origin name "stat" ctx) name;
  '(stat, f) ← on_handle f fh_stat;
  on_handle f fh_close ;;
  lift stat.

Definition default_lstat (stat : FsContext → string → M W Metadata) (ctx : FsContext)
    (name : string) : M W Metadata :=
  stat (Ctx.no_follow ctx) name.

Definition default_fs_read_dir (open : FsContext → string → M W H) (ctx : FsContext)
    (name : string) : M W (list DirEntry) :=
  f ← open (Ctx.with_origin name "readdir" (Ctx.set_read_only ctx)) name;
  '(entries, _) ← with_handle f (fh_read_dir (-1));
  mret (sort_entries entries).

(** The first [match] of [open_file]: the handle and whether it was created. *)
Definition open_or_create (open : FsContext → string → M W H) (create : string → M W H)
    (name : string) (flags : Z) : M W (H * bool) :=
  r ← attempt (open Ctx.new name);
  match r with
  | Ok f => mret (f, false)
  | Err e =>
      if OpenFlags.contains flags OpenFlags.CREATE && kind_is NotFound e then
        f ← create name; mret (f, true)
      else throw e
  | Panic => panic
  | NoFuel => no_fuel
  end.

Definition default_open_file (open : FsContext → string → M W H) (create : string → M W H)
    (chmod : string → Z → M W unit) (name : string) (flags perm : Z) : M W H :=
  if OpenFlags.is_write flags then
    '(file, created) ← open_or_create open create name flags;
    file ← (if OpenFlags.contains flags OpenFlags.TRUNC && negb created then
              on_handle file fh_close ;; create name
            else mret file);
    file ← (if negb (perm =? 0) then
              on_handle file fh_close ;;
              r ← attempt (chmod name perm);
              match r with
              | Ok _ | Err (EKind NotSupported) => open Ctx.new name
              | Err e => throw e
              | Panic => panic
              | NoFuel => no_fuel
              end
            else mret file);
    if OpenFlags.contains flags OpenFlags.APPEND then
      '(_, file) ← with_handle file (fh_seek (SeekEnd 0));
      mret file
    else mret file
  else open Ctx.new name.

(** An implementation of the trait that gives [open], [stat], [create] and [mkdir]
    and keeps every other provided method. *)
Definition default_fs (open : FsContext → string → M W H)
    (stat : FsContext → string → M W Metadata) (create : string → M W H)
    (mkdir : string → Z → M W unit) : FileSystem W H := {|
  fs_open := open;
  fs_stat := stat;
  fs_lstat := default_lstat stat;
  fs_read_dir := default_fs_read_dir open;
  fs_create := create;
  fs_open_file := default_open_file open create (λ _ _, unsupported);
  fs_mkdir := mkdir;
  fs_remove _ := unsupported;
  fs_rename _ _ := unsupported;
  fs_link _ _ := unsupported;
  fs_chmod _ _ := unsupported;
  fs_chown _ _ _ := unsupported;
  fs_chtimes _ _ := unsupported;
  fs_truncate _ _ := unsupported;
  fs_symlink _ _ := unsupported;
  fs_readlink _ := unsupported;
  fs_set_xattr _ _ _ := unsupported;
  fs_get_xattr _ _ := unsupported;
  fs_list_xattrs _ := unsupported;
  fs_remove_xattr _ _ := unsupported
|}.
End FsDefaults.

(** ** Directory handles *)

Record DirFile := mkDirFile { df_meta : Metadata; df_entries : list DirEntry; df_offset : Z }.

(** Names starting with [#] are hidden, a later entry replaces an earlier one of
    the same name, and the result is in name order. *)
Definition dedupe_sort_hide (entries : list DirEntry) : list DirEntry :=
  bt_values (foldl (λ map entry,
    if starts_with_char "#" (d_name entry) then map
    else bt_insert (d_name entry) entry map) [] entries).

Definition dir_file_new (meta : Metadata) (entries : list DirEntry) : DirFile :=
  let meta := Meta.set_mode (Z.lor (m_mode meta) FileMode.DIR) meta in
  let meta :=
    if m_size meta =? 0 then Meta.set_size (2 + Z.of_nat (length entries)) meta else meta in
  mkDirFile meta (dedupe_sort_hide entries) 0.

Definition dir_read_dir {W} (count : Z) : M (DirFile * W) (list DirEntry) := λ '(d, w),
  let n := Z.of_nat (length (df_entries d)) in
  if count <? 0 then
    (Ok (df_entries d), (mkDirFile (df_meta d) (df_entries d) n, w))
  else if n <=? df_offset d then (Ok [], (d, w))
  else
    let e := if count =? 0 then n else Z.min (df_offset d + count) n in
    (Ok (take (Z.to_nat (e - df_offset d)) (drop (Z.to_nat (df_offset d)) (df_entries d))),
     (mkDirFile (df_meta d) (df_entries d) e, w)).

Definition dir_read {W} (len : Z) : M (DirFile * W) (list byte) := λ '(d, w),
  (Err (EPath "read" (m_name (df_meta d)) Invalid), (d, w)).

Definition dir_stat {W} : M (DirFile * W) Metadata := λ '(d, w), (Ok (df_meta d), (d, w)).

(** [DirFile] overrides [read], [stat] and [read_dir] and keeps the provided
    methods of the trait for the rest. *)
#[global] Instance dir_handle {W} : FileHandle W DirFile := {
  fh_read := dir_read;
  fh_write _ := throw (EKind PermissionDenied);
  fh_read_at := default_read_at (λ _, unsupported) dir_read;
  fh_write_at := default_write_at (λ _, unsupported) (λ _, throw (EKind PermissionDenied));
  fh_seek _ := unsupported;
  fh_stat := dir_stat;
  fh_read_dir := dir_read_dir;
  fh_sync := unsupported;
  fh_close := mret tt
}.

(** A handle type into which [Box::new(DirFile)] goes. *)
Class BoxDir (H : Type) := box_dir : DirFile → H.

Definition directory_file {H} `{BoxDir H} (meta : Metadata) (entries : list DirEntry) : H :=
  box_dir (dir_file_new meta entries).

(** ** [Box<dyn FileHandle>]

    A box over two kinds of handle dispatches each method on what it holds. *)
Section Boxes.
Context {W H1 H2 : Type} `{!FileHandle W H1} `{!FileHandle W H2}.

Definition dispatch {A} (m1 : M (H1 * W) A) (m2 : M (H2 * W) A) : M ((H1 + H2) * W) A :=
  λ '(h, w),
    match h with
    | inl h1 => let '(r, (h1, w)) := m1 (h1, w) in (r, (inl h1, w))
    | inr h2 => let '(r, (h2, w)) := m2 (h2, w) in (r, (inr h2, w))
    end.

Definition sum_handle : FileHandle W (H1 + H2) := {|
  fh_read len := dispatch (fh_read len) (fh_read len);
  fh_write data := dispatch (fh_write data) (fh_write data);
  fh_read_at len offset := dispatch (fh_read_at len offset) (fh_read_at len offset);
  fh_write_at data offset := dispatch (fh_write_at data offset) (fh_write_at data offset);
  fh_seek pos := dispatch (fh_seek pos) (fh_seek pos);
  fh_stat := dispatch fh_stat fh_stat;
  fh_read_dir count := dispatch (fh_read_dir count) (fh_read_dir count);
  fh_sync := dispatch fh_sync fh_sync;
  fh_close := dispatch fh_close fh_close
|}.
End Boxes.

(** A method whose handle is only looked at. *)
Definition by_ref {W H A} (m : H → M W A) : M (H * W) A := λ '(h, w),
  let '(r, w') := m h w in (r, (h, w')).

(** ** Helper functions over a filesystem *)

Section Helpers.
Context {W H : Type} `{!FileHandle W H}.
Implicit Types fsys : FileSystem W H.

Definition open_path fsys (name : string) : M W H :=
  fs_open fsys (Ctx.with_origin name "open" Ctx.new) name.

Definition stat_path fsys (name : string) : M W Metadata :=
  fs_stat fsys (Ctx.with_origin name "stat" Ctx.new) name.

Definition lstat_path fsys (name : string) : M W Metadata :=
  fs_lstat fsys (Ctx.with_origin name "stat" Ctx.new) name.

Definition read_dir_path fsys (name : string) : M W (list DirEntry) :=
  fs_read_dir fsys (Ctx.with_origin name "readdir" Ctx.new) name.

(** The loop of [read_file]; [fuel] bounds its turns, each of which reads at most
    8192 bytes. *)
Fixpoint read_loop (fuel : nat) (out : list byte) (file : H) : M W (list byte * H) :=
  match fuel with
  | O => no_fuel
  | S fuel' =>
      '(r, file) ← on_handle file (fh_read 8192);
      match r with
      | Ok [] => mret (out, file)
      | Ok bs => read_loop fuel' (out ++ bs) file
      | Err e => if kind_is UnexpectedEof e then mret (out, file) else throw e
      | Panic => panic
      | NoFuel => no_fuel
      end
  end.

Definition read_file fsys (fuel : nat) (name : string) : M W (list byte) :=
  file ← open_path fsys name;
  '(out, file) ← read_loop fuel [] file;
  on_handle file fh_close ;;
  mret out.

Definition write_file fsys (name : string) (data : list byte) (perm : Z) : M W unit :=
  file ← fs_open_file fsys name
    (Z.lor (Z.lor OpenFlags.WRONLY OpenFlags.CREATE) OpenFlags.TRUNC) perm;
  '(_, file) ← with_handle file (fh_write data);
  with_handle file fh_close ;;
  mret tt.

Definition append_file fsys (name : string) (data : list byte) : M W unit :=
  file ← fs_open_file fsys name
    (Z.lor (Z.lor OpenFlags.WRONLY OpenFlags.CREATE) OpenFlags.APPEND)
    (FileMode.from_perm 420);
  '(_, file) ← with_handle file (fh_write data);
  with_handle file fh_close ;;
  mret tt.

(** [exists], [is_dir] and [is_empty] from the [stat] and [read_dir] they call. *)
Definition exists_with (stat : M W Metadata) : M W bool :=
  r ← attempt stat;
  match r with
  | Ok _ => mret true
  | Err e => if kind_is NotFound e then mret false else throw e
  | Panic => panic
  | NoFuel => no_fuel
  end.

Definition exists_path fsys (name : string) : M W bool := exists_with (stat_path fsys name).

Definition is_dir_path fsys (name : string) : M W bool :=
  meta ← stat_path fsys name; mret (Meta.is_dir meta).

Definition is_empty_path fsys (name : string) : M W bool :=
  entries ← read_dir_path fsys name; mret (bool_decide (entries = [])).

(** The loop of [mkdir_all] over the components, with [cur] the path so far. *)
Fixpoint mkdir_each fsys (cur : string) (parts : list string) (perm : Z) : M W unit :=
  match parts with
  | [] => mret tt
  | part :: rest =>
      let cur := (if is_empty_str cur then cur else cur +:+ "/") +:+ part in
      r ← attempt (fs_mkdir fsys cur perm);
      match r with
      | Ok _ => mkdir_each fsys cur rest perm
      | Err e => if kind_is AlreadyExists e then mkdir_each fsys cur rest perm else throw e
      | Panic => panic
      | NoFuel => no_fuel
      end
  end.

Definition mkdir_all fsys (name : string) (perm : Z) : M W unit :=
  if decide (name = ".") then mret tt
  else mkdir_each fsys "" (split_on "/" (clean_path name)) perm.

Definition child_path (name entry : string) : string :=
  if decide (name = ".") then entry else name +:+ "/" +:+ entry.

(** [remove_all] and [copy_fs] recurse into directories; [fuel] bounds the depth. *)
Fixpoint remove_all fsys (fuel : nat) (name : string) : M W unit :=
  match fuel with
  | O => no_fuel
  | S fuel' =>
      meta ← stat_path fsys name;
      (if Meta.is_dir meta then
         entries ← read_dir_path fsys name;
         for_each (λ entry, remove_all fsys fuel' (child_path name (d_name entry))) entries
       else mret tt) ;;
      fs_remove fsys name
  end.

Fixpoint copy_fs (fuel : nat) src_fs (src : string) dst_fs (dst : string) : M W unit :=
  match fuel with
  | O => no_fuel
  | S fuel' =>
      meta ← lstat_path src_fs src;
      if FileMode.is_symlink (m_mode meta) then
        target ← fs_readlink src_fs src; fs_symlink dst_fs target dst
      else if Meta.is_dir meta then
        fs_mkdir dst_fs dst (m_mode meta) ;;
        entries ← read_dir_path src_fs src;
        for_each (λ entry,
          copy_fs fuel' src_fs (child_path src (d_name entry))
            dst_fs (child_path dst (d_name entry))) entries
      else
        data ← read_file src_fs fuel src;
        write_file dst_fs dst data (m_mode meta)
  end.

Definition copy_all fsys (fuel : nat) (src dst : string) : M W unit :=
  copy_fs fuel fsys src fsys dst.
End Helpers.

(** ** Facts on directory listings *)

Definition listing (entries : list DirEntry) : btree string DirEntry :=
  foldl (λ map entry,
    if starts_with_char "#" (d_name entry) then map
    else bt_insert (d_name entry) entry map) [] entries.

Lemma listing_wf_aux entries acc : bt_wf acc →
  bt_wf (foldl (λ map entry, if starts_with_char "#" (d_name entry) then map
    else bt_insert (d_name entry) entry map) acc entries).
Proof.
  revert acc. induction entries as [|e es IH]; intros acc Hacc; cbn; [done|].
  apply IH. case_match; [done|]. by apply bt_insert_wf.
Qed.

Lemma listing_wf entries : bt_wf (listing entries).
Proof. apply listing_wf_aux. constructor. Qed.

Lemma listing_get_aux entries acc n :
  bt_get n (foldl (λ map entry, if starts_with_char "#" (d_name entry) then map
    else bt_insert (d_name entry) entry map) acc entries) =
  match last (filter (λ e, d_name e = n) entries) with
  | Some e => if starts_with_char "#" n then bt_get n acc else Some e
  | None => bt_get n acc
  end.
Proof.
  revert acc. induction entries as [|e es IH]; intros acc; cbn [foldl]; [done|].
  rewrite IH, filter_cons. case_decide as Hn.
  - subst n. rewrite last_cons. destruct (last _) as [e'|] eqn:Hl.
    + by destruct (starts_with_char _ _).
    + destruct (starts_with_char "#" (d_name e)); [done|]. apply bt_get_insert_eq.
  - assert (bt_get n (if starts_with_char "#" (d_name e) then acc
      else bt_insert (d_name e) e acc) = bt_get n acc) as ->; [|done].
    destruct (starts_with_char "#" (d_name e)); [done|]. by apply bt_get_insert_ne.
Qed.

(** What a directory handle lists under a name: nothing for a hidden name, else
    the last of the entries given with that name. *)
Lemma listing_get entries n :
  bt_get n (listing entries) =
    if starts_with_char "#" n then None else last (filter (λ e, d_name e = n) entries).
Proof.
  unfold listing. rewrite listing_get_aux. destruct (last _); by destruct (starts_with_char _ _).
Qed.

Lemma listing_keys_aux (entries : list DirEntry) (acc : btree string DirEntry) :
  Forall (λ kv, kv.1 = d_name kv.2) acc →
  Forall (λ kv, kv.1 = d_name kv.2)
    (foldl (λ map entry, if starts_with_char "#" (d_name entry) then map
      else bt_insert (d_name entry) entry map) acc entries).
Proof.
  revert acc. induction entries as [|e es IH]; intros acc Hacc; cbn; [done|].
  apply IH. case_match; [done|].
  induction Hacc as [|[k v] m Hkv Hm IHm]; cbn; [by repeat constructor|].
  repeat case_decide; repeat constructor; done.
Qed.

Lemma listing_names entries :
  d_name <$> dedupe_sort_hide entries = bt_keys (listing entries).
Proof.
  pose proof (listing_keys_aux entries [] ltac:(constructor)) as Hk.
  unfold dedupe_sort_hide, bt_values, bt_keys. fold (listing entries) in *.
  induction Hk as [|[k v] m Hkv Hm IH]; cbn in *; [done|]. by rewrite IH, Hkv.
Qed.
