(* ===== verification/FsLaws.v ===== *)
(** * What a filesystem promises to its clients

    The interface between the implementations of the [FileSystem] and [FileHandle]
    traits and the code that calls them: [FsLaws] is proved by an implementation
    and assumed by a client such as the 9P server.

    The laws are relational, over two filesystems.  With the same filesystem twice
    they are safety laws: on valid paths no method panics, handles stay good, and
    results are in the range of their Rust types.  With two filesystems, no
    invariant and panics allowed, they say that the two agree on valid paths. *)

From stdpp Require Import base list numbers option strings.
From Stdlib Require Import ZArith Lia Ascii.
From S2P Require Import Prelude Strs BTree Core FsTrait.

Local Open Scope Z_scope.

(** ** Value ranges *)

Definition meta_wf (m : Metadata) : Prop :=
  in_u32 (m_mode m) ∧ in_u64 (m_size m) ∧ in_u32 (m_uid m) ∧ in_u32 (m_gid m) ∧
  m_modified m < (I64_MAX + 1) * 1000000000.

Definition entry_wf (e : DirEntry) : Prop :=
  in_u32 (m_mode (d_metadata e)) ∧ str_valid (d_name e).

(** ** The laws *)

Section Laws.
Context {W H : Type} `{!FileHandle W H}.

(** [np]: no method panics.  [J]: invariant of the filesystem's state.  [HJ]: the
    handle is good in that state. *)
Context (np : bool) (J : W → Prop) (HJ : H → W → Prop).

(** The state with a collection of open handles. *)
Definition world_inv (hs : list H) (w : W) : Prop := J w ∧ Forall (λ h, HJ h w) hs.

(** Two calls that behave the same, keep the invariant and every open handle, and
    give a result with [Q]. *)
Definition good {A} (m1 m2 : M W A) (Q : A → W → Prop) : Prop :=
  ∀ hs, rel np (world_inv hs) (world_inv hs) m1 m2 (λ a w, Q a w ∧ world_inv hs w).

(** A method of an open handle that keeps the handle good. *)
Definition good_on {A} (m : M (H * W) A) (Q : A → Prop) : Prop :=
  ∀ h hs, rel np (world_inv hs) (world_inv (h :: hs)) (on_handle h m) (on_handle h m)
    (λ '(r, h') w, world_inv (h' :: hs) w ∧
       match r with Ok a => Q a | Err _ => True | _ => False end).

(** What holds of results unless panics are out of scope. *)
Definition checked {A} (Q : A → Prop) (a : A) (_ : W) : Prop := np = true → Q a.

Class FsLaws (fs1 fs2 : FileSystem W H) : Prop := {
  law_open_file p flags perm : valid_path p = true →
    good (fs_open_file fs1 p flags perm) (fs_open_file fs2 p flags perm) HJ;
  law_lstat ctx p : valid_path p = true →
    good (fs_lstat fs1 ctx p) (fs_lstat fs2 ctx p) (checked meta_wf);
  law_read_dir ctx p : valid_path p = true →
    good (fs_read_dir fs1 ctx p) (fs_read_dir fs2 ctx p)
      (checked (λ es, Forall entry_wf es ∧ Z.of_nat (length es) < ISIZE_MAX));
  law_mkdir p perm : valid_path p = true →
    good (fs_mkdir fs1 p perm) (fs_mkdir fs2 p perm) (λ _ _, True);
  law_remove p : valid_path p = true →
    good (fs_remove fs1 p) (fs_remove fs2 p) (λ _ _, True);
  law_rename p q : valid_path p = true → valid_path q = true →
    good (fs_rename fs1 p q) (fs_rename fs2 p q) (λ _ _, True);
  law_link p q : valid_path p = true → valid_path q = true →
    good (fs_link fs1 p q) (fs_link fs2 p q) (λ _ _, True);
  law_chmod p mode : valid_path p = true →
    good (fs_chmod fs1 p mode) (fs_chmod fs2 p mode) (λ _ _, True);
  law_chown p uid gid : valid_path p = true →
    good (fs_chown fs1 p uid gid) (fs_chown fs2 p uid gid) (λ _ _, True);
  law_chtimes p mtime : valid_path p = true →
    good (fs_chtimes fs1 p mtime) (fs_chtimes fs2 p mtime) (λ _ _, True);
  law_truncate p size : valid_path p = true →
    good (fs_truncate fs1 p size) (fs_truncate fs2 p size) (λ _ _, True);
  law_symlink target p : valid_path p = true →
    good (fs_symlink fs1 target p) (fs_symlink fs2 target p) (λ _ _, True);
  law_readlink p : valid_path p = true →
    good (fs_readlink fs1 p) (fs_readlink fs2 p) (checked str_valid);
  law_set_xattr p attr data : valid_path p = true →
    good (fs_set_xattr fs1 p attr data) (fs_set_xattr fs2 p attr data) (λ _ _, True);
  law_get_xattr p attr : valid_path p = true →
    good (fs_get_xattr fs1 p attr) (fs_get_xattr fs2 p attr)
      (checked (λ data, Z.of_nat (length data) ≤ ISIZE_MAX));
  law_list_xattrs p : valid_path p = true →
    good (fs_list_xattrs fs1 p) (fs_list_xattrs fs2 p)
      (checked (λ names, Z.of_nat (sum_list_with (λ n, S (String.length n)) names)
                           ≤ ISIZE_MAX));
  law_fh_stat : good_on fh_stat (λ m, np = true → meta_wf m);
  law_fh_read_at n off : good_on (fh_read_at n off) (λ _, True);
  law_fh_write_at data off : good_on (fh_write_at data off) (λ n, np = true → 0 ≤ n);
  law_fh_sync : good_on fh_sync (λ _, True);
  law_fh_close : good_on fh_close (λ _, True)
}.
End Laws.

(** ** Agreement on valid paths *)

Record fs_agree {W H} (fs1 fs2 : FileSystem W H) : Prop := {
  agree_open_file p flags perm w : valid_path p = true →
    fs_open_file fs1 p flags perm w = fs_open_file fs2 p flags perm w;
  agree_lstat ctx p w : valid_path p = true → fs_lstat fs1 ctx p w = fs_lstat fs2 ctx p w;
  agree_read_dir ctx p w : valid_path p = true →
    fs_read_dir fs1 ctx p w = fs_read_dir fs2 ctx p w;
  agree_mkdir p perm w : valid_path p = true → fs_mkdir fs1 p perm w = fs_mkdir fs2 p perm w;
  agree_remove p w : valid_path p = true → fs_remove fs1 p w = fs_remove fs2 p w;
  agree_rename p q w : valid_path p = true → valid_path q = true →
    fs_rename fs1 p q w = fs_rename fs2 p q w;
  agree_link p q w : valid_path p = true → valid_path q = true →
    fs_link fs1 p q w = fs_link fs2 p q w;
  agree_chmod p mode w : valid_path p = true → fs_chmod fs1 p mode w = fs_chmod fs2 p mode w;
  agree_chown p uid gid w : valid_path p = true →
    fs_chown fs1 p uid gid w = fs_chown fs2 p uid gid w;
  agree_chtimes p t w : valid_path p = true → fs_chtimes fs1 p t w = fs_chtimes fs2 p t w;
  agree_truncate p n w : valid_path p = true → fs_truncate fs1 p n w = fs_truncate fs2 p n w;
  agree_symlink target p w : valid_path p = true →
    fs_symlink fs1 target p w = fs_symlink fs2 target p w;
  agree_readlink p w : valid_path p = true → fs_readlink fs1 p w = fs_readlink fs2 p w;
  agree_set_xattr p attr data w : valid_path p = true →
    fs_set_xattr fs1 p attr data w = fs_set_xattr fs2 p attr data w;
  agree_get_xattr p attr w : valid_path p = true →
    fs_get_xattr fs1 p attr w = fs_get_xattr fs2 p attr w;
  agree_list_xattrs p w : valid_path p = true → fs_list_xattrs fs1 p w = fs_list_xattrs fs2 p w
}.

Section Agree.
Context {W H : Type} `{!FileHandle W H}.
Let no_inv : W → Prop := λ _, True.
Let no_handle_inv : H → W → Prop := λ _ _, True.

Lemma world_inv_trivial hs w : world_inv no_inv no_handle_inv hs w.
Proof. split; [done|]. by induction hs; constructor. Qed.

Lemma good_of_eq {A} (m1 m2 : M W A) (Q : A → W → Prop) :
  (∀ w, m1 w = m2 w) → (∀ a w, Q a w) → good false no_inv no_handle_inv m1 m2 Q.
Proof.
  intros Heq HQ hs w _. split; [done|]. pose proof (world_inv_trivial hs).
  destruct (m1 w) as [[a|e| |] w']; auto.
Qed.

Lemma good_on_trivial {A} (m : M (H * W) A) (Q : A → Prop) :
  (∀ a, Q a) → good_on false no_inv no_handle_inv m Q.
Proof.
  intros HQ h hs w _. split; [done|]. unfold on_handle.
  pose proof (world_inv_trivial hs).
  destruct (m (h, w)) as [[a|e| |] [h' w']]; auto; (split; [apply world_inv_trivial|done]).
Qed.

(** Filesystems that agree on valid paths satisfy the laws without an invariant. *)
Lemma agree_laws fs1 fs2 : fs_agree fs1 fs2 →
  FsLaws false no_inv no_handle_inv fs1 fs2.
Proof.
  intros Ha. destruct Ha.
  split; intros; first [apply good_of_eq|apply good_on_trivial]; unfold checked; auto; done.
Qed.
End Agree.

(** ** Composing calls *)

Section Good.
Context {W H : Type} (np : bool) (J : W → Prop) (HJ : H → W → Prop).
#[local] Abbreviation good := (good np J HJ).
#[local] Abbreviation world_inv := (world_inv J HJ).

Lemma good_ret {A} (a : A) (Q : A → W → Prop) : (∀ w, Q a w) → good (mret a) (mret a) Q.
Proof. intros HQ hs. apply rel_ret. auto. Qed.

Lemma good_bind {A B} (m1 m2 : M W A) (k1 k2 : A → M W B) (P : A → Prop) Q :
  good m1 m2 (λ a _, P a) → (∀ a, P a → good (k1 a) (k2 a) Q) →
  good (m1 ≫= k1) (m2 ≫= k2) Q.
Proof.
  intros Hm Hk hs. eapply rel_bind; [apply Hm|]. intros a. apply rel_pure. intros Ha.
  by apply Hk.
Qed.

Lemma good_weaken {A} (m1 m2 : M W A) (Q Q' : A → W → Prop) :
  good m1 m2 Q → (∀ a w, Q a w → Q' a w) → good m1 m2 Q'.
Proof.
  intros Hm HQ hs. eapply rel_weaken; [apply Hm|done|]. intros a w [??]. auto.
Qed.

Lemma good_attempt {A} (m1 m2 : M W A) (Q : A → W → Prop) :
  good m1 m2 Q →
  good (attempt m1) (attempt m2)
    (λ r w, match r with Ok a => Q a w | Err _ => True | _ => False end).
Proof.
  intros Hm hs. eapply rel_weaken; [apply rel_attempt, Hm|done|].
  intros [a|e| |] w; tauto.
Qed.
End Good.
