(* ===== verification/FsLens.v ===== *)
(** * Filesystems over a part of a larger world

    A filesystem whose world is a component of a larger one, and whose handles are some
    of the larger world's handles.  [lifted] relates a computation of the filesystem to
    its counterpart in the larger world; the helper functions over a filesystem respect
    it, so what is proved of a filesystem by itself holds of it inside the larger
    world. *)

From stdpp Require Import base list numbers option strings.
From Stdlib Require Import ZArith Lia.
From S2P Require Import Prelude Strs Core FsTrait.

Local Open Scope Z_scope.

Class Lens {V W : Type} (get : W → V) (set : V → W → W) := {
  lens_get_set v w : get (set v w) = v;
  lens_set_get w : set (get w) w = w;
  lens_set_set v v' w : set v (set v' w) = set v w
}.

(** The handles of the part among those of the whole: each method of an injected handle
    is that of the handle in the part. *)
Class HandleLens {V W H H' : Type} (get : W → V) (set : V → W → W) (inj : H → H')
    `{!FileHandle V H} `{!FileHandle W H'} := {
  hl_read len h w : fh_read len (inj h, w) =
    let '(r, (h', v)) := fh_read len (h, get w) in (r, (inj h', set v w));
  hl_write data h w : fh_write data (inj h, w) =
    let '(r, (h', v)) := fh_write data (h, get w) in (r, (inj h', set v w));
  hl_seek pos h w : fh_seek pos (inj h, w) =
    let '(r, (h', v)) := fh_seek pos (h, get w) in (r, (inj h', set v w));
  hl_close h w : fh_close (inj h, w) =
    let '(r, (h', v)) := fh_close (h, get w) in (r, (inj h', set v w))
}.

Section Zoom.
Context {V W H H' : Type} (get : W → V) (set : V → W → W) (inj : H → H').

Definition zoom_open (m : M V H) : M W H' := h ← zoom get set m; mret (inj h).

Definition zoom_method {A} (m : M (H * V) A) : M (H * W) A := λ '(h, w),
  let '(r, (h, v)) := m (h, get w) in (r, (h, set v w)).

Definition zoom_handle `{!FileHandle V H} : FileHandle W H := {|
  fh_read len := zoom_method (fh_read len);
  fh_write data := zoom_method (fh_write data);
  fh_read_at len offset := zoom_method (fh_read_at len offset);
  fh_write_at data offset := zoom_method (fh_write_at data offset);
  fh_seek pos := zoom_method (fh_seek pos);
  fh_stat := zoom_method fh_stat;
  fh_read_dir count := zoom_method (fh_read_dir count);
  fh_sync := zoom_method fh_sync;
  fh_close := zoom_method fh_close
|}.

Definition zoom_fs (fs : FileSystem V H) : FileSystem W H' := {|
  fs_open ctx p := zoom_open (fs_open fs ctx p);
  fs_stat ctx p := zoom get set (fs_stat fs ctx p);
  fs_lstat ctx p := zoom get set (fs_lstat fs ctx p);
  fs_read_dir ctx p := zoom get set (fs_read_dir fs ctx p);
  fs_create p := zoom_open (fs_create fs p);
  fs_open_file p flags perm := zoom_open (fs_open_file fs p flags perm);
  fs_mkdir p perm := zoom get set (fs_mkdir fs p perm);
  fs_remove p := zoom get set (fs_remove fs p);
  fs_rename p q := zoom get set (fs_rename fs p q);
  fs_link p q := zoom get set (fs_link fs p q);
  fs_chmod p mode := zoom get set (fs_chmod fs p mode);
  fs_chown p uid gid := zoom get set (fs_chown fs p uid gid);
  fs_chtimes p t := zoom get set (fs_chtimes fs p t);
  fs_truncate p n := zoom get set (fs_truncate fs p n);
  fs_symlink p q := zoom get set (fs_symlink fs p q);
  fs_readlink p := zoom get set (fs_readlink fs p);
  fs_set_xattr p attr data := zoom get set (fs_set_xattr fs p attr data);
  fs_get_xattr p attr := zoom get set (fs_get_xattr fs p attr);
  fs_list_xattrs p := zoom get set (fs_list_xattrs fs p);
  fs_remove_xattr p attr := zoom get set (fs_remove_xattr fs p attr)
|}.
End Zoom.

(** ** Lifting *)

Definition map_result {A B} (f : A → B) (r : Result A) : Result B :=
  match r with Ok a => Ok (f a) | Err e => Err e | Panic => Panic | NoFuel => NoFuel end.

Section Lifted.
Context {V W : Type} (get : W → V) (set : V → W → W) `{!Lens get set}.

Definition lifted {A B} (f : A → B) (m : M V A) (m' : M W B) : Prop := ∀ w,
  m' w = let '(r, v) := m (get w) in (map_result f r, set v w).

Lemma lifted_zoom {A} (m : M V A) : lifted id m (zoom get set m).
Proof. intros w. unfold zoom. by destruct (m (get w)) as [[] v]. Qed.

Lemma lifted_ret {A B} (f : A → B) a : lifted f (mret a) (mret (f a)).
Proof. intros w. unfold mret, eff_ret. cbn. by rewrite lens_set_get. Qed.

Lemma lifted_throw {A B} (f : A → B) e : lifted f (throw e) (throw e).
Proof. intros w. unfold throw. cbn. by rewrite lens_set_get. Qed.

Lemma lifted_panic {A B} (f : A → B) : lifted f panic panic.
Proof. intros w. unfold panic. cbn. by rewrite lens_set_get. Qed.

Lemma lifted_no_fuel {A B} (f : A → B) : lifted f no_fuel no_fuel.
Proof. intros w. unfold no_fuel. cbn. by rewrite lens_set_get. Qed.

Lemma lifted_lift {A} (r : Result A) : lifted id (lift r) (lift r).
Proof. intros w. unfold lift. cbn. rewrite lens_set_get. by destruct r. Qed.

Lemma lifted_bind {A A' B B'} (f : A → A') (g : B → B') m m' k k' :
  lifted f m m' → (∀ a, lifted g (k a) (k' (f a))) → lifted g (m ≫= k) (m' ≫= k').
Proof.
  intros Hm Hk w. unfold mbind, eff_bind. rewrite Hm.
  destruct (m (get w)) as [[a|e| |] v]; cbn; [|done..].
  rewrite (Hk a). rewrite lens_get_set. destruct (k a v) as [r v']. by rewrite lens_set_set.
Qed.

Lemma lifted_attempt {A B} (f : A → B) m m' : lifted f m m' →
  lifted (map_result f) (attempt m) (attempt m').
Proof. intros Hm w. unfold attempt. rewrite Hm. by destruct (m (get w)) as [[] v]. Qed.

Context {H H' : Type} (inj : H → H') `{!FileHandle V H} `{!FileHandle W H'}.
Context `{!HandleLens get set inj}.

Lemma lifted_open m : lifted inj m (zoom_open get set inj m).
Proof.
  intros w. unfold zoom_open, zoom, mbind, eff_bind. by destruct (m (get w)) as [[] v].
Qed.

Lemma lifted_on_handle {A} h (m : M (H * V) A) (m' : M (H' * W) A) :
  (∀ w, m' (inj h, w) = let '(r, (h', v)) := m (h, get w) in (r, (inj h', set v w))) →
  lifted (prod_map id inj) (on_handle h m) (on_handle (inj h) m').
Proof.
  intros Hm w. unfold on_handle. rewrite Hm.
  by destruct (m (h, get w)) as [[] [h' v]].
Qed.

Lemma lifted_with_handle {A} h (m : M (H * V) A) (m' : M (H' * W) A) :
  (∀ w, m' (inj h, w) = let '(r, (h', v)) := m (h, get w) in (r, (inj h', set v w))) →
  lifted (prod_map id inj) (with_handle h m) (with_handle (inj h) m').
Proof.
  intros Hm. unfold with_handle. eapply lifted_bind; [by apply lifted_on_handle|].
  intros [r h']. cbn. eapply lifted_bind; [apply lifted_lift|]. intros a. cbn.
  apply (lifted_ret (prod_map id inj) (a, h')).
Qed.

Lemma lifted_read_loop fuel out h :
  lifted (prod_map id inj) (read_loop fuel out h) (read_loop fuel out (inj h)).
Proof.
  revert out h. induction fuel as [|fuel IH]; intros out h; cbn; [apply lifted_no_fuel|].
  eapply lifted_bind; [apply lifted_on_handle, hl_read|]. intros [r h']. cbn.
  destruct r as [[|b bs]|e| |].
  - apply (lifted_ret (prod_map id inj) (out, h')).
  - apply IH.
  - destruct (kind_is _ _); [apply (lifted_ret (prod_map id inj) (out, h'))|apply lifted_throw].
  - apply lifted_panic.
  - apply lifted_no_fuel.
Qed.

Context (fs : FileSystem V H) (fs' : FileSystem W H').
Context (Hopen : ∀ ctx p, lifted inj (fs_open fs ctx p) (fs_open fs' ctx p)).
Context (Hopen_file : ∀ p fl perm, lifted inj (fs_open_file fs p fl perm) (fs_open_file fs' p fl perm)).

Lemma lifted_read_file fuel p : lifted id (read_file fs fuel p) (read_file fs' fuel p).
Proof.
  unfold read_file, open_path. eapply lifted_bind; [apply Hopen|]. intros h.
  eapply lifted_bind; [apply lifted_read_loop|]. intros [out h']. cbn.
  eapply lifted_bind; [apply lifted_on_handle, hl_close|]. intros _. apply (lifted_ret id out).
Qed.

Lemma lifted_write_file p data perm : lifted id (write_file fs p data perm) (write_file fs' p data perm).
Proof.
  unfold write_file. eapply lifted_bind; [apply Hopen_file|]. intros h.
  eapply lifted_bind; [apply lifted_with_handle, hl_write|]. intros [n h']. cbn.
  eapply lifted_bind; [apply lifted_with_handle, hl_close|]. intros [u h'']. cbn.
  apply (lifted_ret id tt).
Qed.
End Lifted.
