(* ===== verification/MemFs.v ===== *)
(** * star9-fs: the in-memory filesystem

    Models [Node], [NodeFile] and [MemFs] of [crates/star9-fs/src/lib.rs].

    A [Node] of the source is an [Arc<Mutex<NodeInner>>]: cloning it shares the
    contents, which is how hard links work.  Here a node is an index into the
    store of [NodeInner]s, and the tree is the ordered map from clean paths to
    nodes.  An index outside the store is a dangling [Arc], which the invariant of
    [MemFsFacts] excludes; [node_inner] totalises it with [dummy_inner].

    [open] and [stat] call themselves on the target of a symbolic link, so they
    take [fuel]; a cycle of links exhausts every fuel. *)

From stdpp Require Import base list numbers option strings sorting.
From Stdlib Require Import ZArith Lia Ascii.
From S2P Require Import Prelude Strs BTree Core FsTrait.

Local Open Scope Z_scope.

(** ** Nodes *)

Record NodeInner := mkNodeInner {
  ni_meta : Metadata;
  ni_data : list byte;
  ni_xattrs : btree string (list byte)
}.

Module Node.
Definition file (name : string) (data : list byte) (mode : Z) : NodeInner :=
  mkNodeInner (Meta.set_mode mode (Meta.file name (FileMode.perm mode) (blen data))) data [].
Definition dir (name : string) (mode : Z) : NodeInner :=
  mkNodeInner (Meta.set_mode (Z.lor mode FileMode.DIR) (Meta.dir name (FileMode.perm mode))) [] [].
Definition symlink (name target : string) : NodeInner :=
  let data := bytes_of target in mkNodeInner (Meta.symlink name (blen data)) data [].
Definition set_meta (f : Metadata → Metadata) (n : NodeInner) : NodeInner :=
  mkNodeInner (f (ni_meta n)) (ni_data n) (ni_xattrs n).
Definition set_name (name : string) : NodeInner → NodeInner := set_meta (Meta.set_name name).
Definition set_mode (mode : Z) : NodeInner → NodeInner := set_meta (Meta.set_mode mode).
Definition set_size (size : Z) : NodeInner → NodeInner := set_meta (Meta.set_size size).
Definition set_modified (t : Z) : NodeInner → NodeInner := set_meta (Meta.set_modified t).
Definition set_owner (uid gid : Z) : NodeInner → NodeInner := set_meta (Meta.set_owner uid gid).
Definition set_data (data : list byte) (now : Z) (n : NodeInner) : NodeInner :=
  mkNodeInner (Meta.set_modified now (Meta.set_size (blen data) (ni_meta n))) data (ni_xattrs n).
Definition set_xattr (attr : string) (data : list byte) (n : NodeInner) : NodeInner :=
  mkNodeInner (ni_meta n) (ni_data n) (bt_insert attr data (ni_xattrs n)).
Definition remove_xattr (attr : string) (n : NodeInner) : NodeInner :=
  mkNodeInner (ni_meta n) (ni_data n) (bt_remove attr (ni_xattrs n)).
End Node.

Definition dummy_inner : NodeInner := Node.file "" [] 0.

(** ** The world: the tree, the nodes, and the times the clock will give *)

Record MemWorld := mkMemWorld {
  mw_nodes : btree string nat;
  mw_store : list NodeInner;
  mw_times : nat → Z
}.

Definition set_nodes (nodes : btree string nat) (w : MemWorld) : MemWorld :=
  mkMemWorld nodes (mw_store w) (mw_times w).
Definition set_store (store : list NodeInner) (w : MemWorld) : MemWorld :=
  mkMemWorld (mw_nodes w) store (mw_times w).

(** [current_time()] *)
Definition current_time : M MemWorld Z := λ w,
  (Ok (mw_times w 0%nat), mkMemWorld (mw_nodes w) (mw_store w) (λ n, mw_times w (S n))).

Definition inner_of (store : list NodeInner) (i : nat) : NodeInner :=
  default dummy_inner (store !! i).
Definition node_inner (w : MemWorld) (i : nat) : NodeInner := inner_of (mw_store w) i.

(** [node.inner.lock().unwrap()], to read and to change. *)
Definition lock_node (i : nat) : M MemWorld NodeInner := gets (λ w, node_inner w i).
Definition update_node (i : nat) (f : NodeInner → NodeInner) : M MemWorld unit :=
  modify (λ w, set_store (alter f i (mw_store w)) w).

(** [Arc::new(Mutex::new(inner))] *)
Definition alloc_node (n : NodeInner) : M MemWorld nat := λ w,
  (Ok (length (mw_store w)), set_store (mw_store w ++ [n]) w).

Definition node_set_data (i : nat) (data : list byte) : M MemWorld unit :=
  now ← current_time; update_node i (Node.set_data data now).

(** [Vec::resize]: "capacity overflow" panics above [isize::MAX]. *)
Definition vec_resize (data : list byte) (n : Z) : option (list byte) :=
  if n <=? ISIZE_MAX then Some (resize (Z.to_nat n) x00 data) else None.

(** ** Open files: [NodeFile] works on a copy, written back by [sync] *)

Record NodeFile := mkNodeFile {
  nf_node : nat;
  nf_meta : Metadata;
  nf_data : list byte;
  nf_offset : Z;
  nf_dirty : bool;
  nf_closed : bool
}.

Definition nf_set_offset (o : Z) (f : NodeFile) : NodeFile :=
  mkNodeFile (nf_node f) (nf_meta f) (nf_data f) o (nf_dirty f) (nf_closed f).

Definition node_read (len : Z) : M (NodeFile * MemWorld) (list byte) := λ '(f, w),
  if nf_closed f then (Err (EKind Closed), (f, w))
  else if FileMode.is_dir (m_mode (nf_meta f)) then
    (Err (EPath "read" (m_name (nf_meta f)) Invalid), (f, w))
  else
    let start := nf_offset f in
    if blen (nf_data f) <=? start then (Ok [], (f, w))
    else
      let n := Z.min len (blen (nf_data f) - start) in
      (Ok (take (Z.to_nat n) (drop (Z.to_nat start) (nf_data f))),
       (nf_set_offset (nf_offset f + n) f, w)).

Definition node_write (data : list byte) : M (NodeFile * MemWorld) Z := λ '(f, w),
  if nf_closed f then (Err (EKind Closed), (f, w))
  else if FileMode.is_dir (m_mode (nf_meta f)) then
    (Err (EPath "write" (m_name (nf_meta f)) IsDir), (f, w))
  else
    let start := nf_offset f in
    let fin := Z.min (start + blen data) USIZE_MAX in
    let grown :=
      d ← (if blen (nf_data f) <? start then vec_resize (nf_data f) start else Some (nf_data f));
      if blen d <? fin then vec_resize d fin else Some d in
    match grown with
    | None => (Panic, (f, w))
    | Some d =>
        let d := take (Z.to_nat start) d ++ data ++ drop (Z.to_nat fin) d in
        let '(_, w') := current_time w in
        let meta := Meta.set_modified (mw_times w 0%nat) (Meta.set_size (blen d) (nf_meta f)) in
        (Ok (blen data), (mkNodeFile (nf_node f) meta d fin true (nf_closed f), w'))
    end.

Definition node_read_at (len offset : Z) : M (NodeFile * MemWorld) (list byte) := λ '(f, w),
  if blen (nf_data f) <? offset then
    (Err (EPath "read" (m_name (nf_meta f)) Invalid), (f, w))
  else
    let n := Z.min len (blen (nf_data f) - offset) in
    (Ok (take (Z.to_nat n) (drop (Z.to_nat offset) (nf_data f))), (f, w)).

Definition node_write_at (data : list byte) (offset : Z) : M (NodeFile * MemWorld) Z :=
  λ '(f, w), node_write data (nf_set_offset offset f, w).

Definition node_seek (pos : SeekFrom) : M (NodeFile * MemWorld) Z := λ '(f, w),
  let next :=
    match pos with
    | SeekStart pos => pos
    | SeekEnd off => blen (nf_data f) + off
    | SeekCurrent off => nf_offset f + off
    end in
  if (next <? 0) || (blen (nf_data f) <? next) then
    (Err (EPath "seek" (m_name (nf_meta f)) Invalid), (f, w))
  else (Ok next, (nf_set_offset next f, w)).

Definition node_stat : M (NodeFile * MemWorld) Metadata := λ '(f, w), (Ok (nf_meta f), (f, w)).

Definition node_sync : M (NodeFile * MemWorld) unit := λ '(f, w),
  if nf_dirty f then
    let '(r, w') := node_set_data (nf_node f) (nf_data f) w in
    (r, (mkNodeFile (nf_node f) (nf_meta f) (nf_data f) (nf_offset f) false (nf_closed f), w'))
  else (Ok tt, (f, w)).

Definition node_close : M (NodeFile * MemWorld) unit :=
  f ← gets fst;
  guard_err (nf_closed f) (EKind Closed) ;;
  node_sync ;;
  modify (λ '(f, w),
    (mkNodeFile (nf_node f) (nf_meta f) (nf_data f) (nf_offset f) (nf_dirty f) true, w)).

(** The two types behind the [BoxFile]s a [MemFs] gives out. *)
Inductive MemHandle := HNode (f : NodeFile) | HDir (d : DirFile).

Definition mem_method {A} (node : M (NodeFile * MemWorld) A) (dir : M (DirFile * MemWorld) A)
    : M (MemHandle * MemWorld) A := λ '(h, w),
  match h with
  | HNode f => let '(r, (f', w')) := node (f, w) in (r, (HNode f', w'))
  | HDir d => let '(r, (d', w')) := dir (d, w) in (r, (HDir d', w'))
  end.

#[global] Instance mem_handle : FileHandle MemWorld MemHandle := {
  fh_read n := mem_method (node_read n) (fh_read n);
  fh_write data := mem_method (node_write data) (fh_write data);
  fh_read_at n off := mem_method (node_read_at n off) (fh_read_at n off);
  fh_write_at data off := mem_method (node_write_at data off) (fh_write_at data off);
  fh_seek pos := mem_method (node_seek pos) (fh_seek pos);
  fh_stat := mem_method node_stat fh_stat;
  fh_read_dir n := mem_method (default_read_dir node_stat n) (fh_read_dir n);
  fh_sync := mem_method node_sync fh_sync;
  fh_close := mem_method node_close fh_close
}.

#[global] Instance mem_box_dir : BoxDir MemHandle := HDir.

(** [<Node as FileSystem>::open] on ["."] *)
Definition node_open (i : nat) : M MemWorld MemHandle :=
  inner ← lock_node i;
  mret (HNode (mkNodeFile i (ni_meta inner) (ni_data inner) 0 false false)).

(** ** The tree *)

Module MemFs.
(** [self.node(name)] *)
Definition node (name : string) : M MemWorld (option nat) :=
  gets (λ w, bt_get name (mw_nodes w)).

Definition insert (name : string) (i : nat) : M MemWorld unit :=
  modify (λ w, set_nodes (bt_insert name i (mw_nodes w)) w).

Definition remove_node (name : string) : M MemWorld unit :=
  modify (λ w, set_nodes (bt_remove name (mw_nodes w)) w).

Definition resolve_symlink (ctx : FsContext) (name target : string) : string :=
  if starts_with_char "/" target then clean_path (trim_start_char "/" target)
  else if bool_decide (filepath ctx = Some name) || bool_decide (filepath ctx = None) then
    clean_path (parent_path name +:+ "/" +:+ target)
  else clean_path target.

(** The part of a key below the directory [name]. *)
Definition below (name fname : string) : option string :=
  if decide (name = ".") then if decide (fname = ".") then None else Some fname
  else strip_prefix (name +:+ "/") fname.

(** One turn of the loop of [children_for]: an immediate child goes to the
    entries, the first component of a deeper path to the set of names needed. *)
Definition child_step (store : list NodeInner) (name : string)
    (acc : list DirEntry * btree string unit) (kv : string * nat) :=
  let '(entries, need) := acc in
  match below name kv.1 with
  | None => acc
  | Some rest =>
      match split_once "/" rest with
      | Some (head, _) => (entries, bt_insert head tt need)
      | None =>
          (entries ++ [mkDirEntry rest (Meta.set_name rest (ni_meta (inner_of store kv.2)))], need)
      end
  end.

Definition children_for (name : string) (w : MemWorld) : list DirEntry * list string :=
  let '(entries, need) := foldl (child_step (mw_store w) name) ([], []) (mw_nodes w) in
  (entries, bt_keys (foldl (λ need e, bt_remove (d_name e) need) need entries)).

Definition recompute_dir (dir : string) : M MemWorld unit :=
  '(entries, need) ← gets (children_for dir);
  n ← node dir;
  match n with
  | Some i =>
      update_node i
        (Node.set_size (2 + Z.of_nat (length entries) + Z.of_nat (length need)))
  | None => mret tt
  end.

Definition recompute_dir_sizes : M MemWorld unit :=
  dirs ← gets (λ w,
    bt_keys (filter (λ kv, Meta.is_dir (ni_meta (node_inner w kv.2)) = true) (mw_nodes w)));
  for_each recompute_dir dirs.

(** [MemFs::new], over the times [clock] *)
Definition new (clock : nat → Z) : MemWorld :=
  mkMemWorld [(".", 0%nat)]
    [Node.dir "." (Z.lor FileMode.DIR (FileMode.from_perm 493))] clock.

(** The ancestors of [name], nearest first; [fuel] bounds the [while] loop, which
    drops a component per turn. *)
Fixpoint ancestors (fuel : nat) (cur : string) : list string :=
  match fuel with
  | O => []
  | S fuel' =>
      if decide (cur = ".") then [] else cur :: ancestors fuel' (parent_path cur)
  end.

Definition ensure_parent_dirs (name : string) : M MemWorld unit :=
  for_each (λ dir,
    n ← node dir;
    match n with
    | Some _ => mret tt
    | None =>
        i ← alloc_node (Node.dir (base_name dir) (Z.lor FileMode.DIR (FileMode.from_perm 493)));
        insert dir i
    end) (reverse (ancestors (String.length name) (parent_path name))).

(** The loop of [MemFs::from_entries]. *)
Definition from_entries (entries : list (string * list byte)) : M MemWorld unit :=
  for_each (λ '(name, data),
    let name := clean_path name in
    ensure_parent_dirs name ;;
    i ← alloc_node (Node.file (base_name name) data (FileMode.from_perm 420));
    insert name i) entries ;;
  recompute_dir_sizes.

Definition set_node (name : string) (n : nat) : M MemWorld unit :=
  insert (clean_path name) n ;; recompute_dir_sizes.

(** ** The [FileSystem] implementation *)

(** The end of [open]: a directory, listed or implied by a deeper path. *)
Definition open_dir (n : option nat) (name : string) : M MemWorld MemHandle :=
  '(entries, need) ← gets (children_for name);
  if bool_decide (n = None) && bool_decide (entries = []) && bool_decide (need = [])
     && negb (bool_decide (name = "."))
  then throw (EPath "open" name NotFound)
  else
    let entries := entries ++ ((λ dir, mkDirEntry dir (Meta.dir dir 493)) <$> need) in
    meta ← (match n with
            | Some i => inner ← lock_node i; mret (ni_meta inner)
            | None => mret (Meta.dir (base_name name) 493)
            end);
    mret (directory_file meta entries).

Fixpoint open (fuel : nat) (ctx : FsContext) (name : string) : M MemWorld MemHandle :=
  match fuel with
  | O => no_fuel
  | S fuel' =>
      if negb (valid_path name) then throw (EPath "open" name NotFound)
      else
        let name := clean_path name in
        n ← node name;
        match n with
        | Some i =>
            inner ← lock_node i;
            let meta := ni_meta inner in
            if follow_symlinks ctx && FileMode.is_symlink (m_mode meta) then
              let target := from_utf8_lossy (ni_data inner) in
              open fuel' ctx (resolve_symlink ctx name target)
            else if negb (Meta.is_dir meta) then
              update_node i (Node.set_name (base_name name)) ;;
              node_open i
            else open_dir n name
        | None => open_dir n name
        end
  end.

Fixpoint stat (fuel : nat) (ctx : FsContext) (name : string) : M MemWorld Metadata :=
  match fuel with
  | O => no_fuel
  | S fuel' =>
      if negb (valid_path name) then throw (EPath "stat" name NotFound)
      else
        let name := clean_path name in
        n ← node name;
        i ← ok_or n (EPath "stat" name NotFound);
        inner ← lock_node i;
        let meta := ni_meta inner in
        if follow_symlinks ctx && FileMode.is_symlink (m_mode meta) then
          let target := from_utf8_lossy (ni_data inner) in
          stat fuel' ctx (resolve_symlink ctx name target)
        else mret meta
  end.

(** [exists(self, ..)], [is_dir(self, ..)] and [is_empty(self, ..)]: the helpers of
    the crate on this filesystem's own [stat] and [read_dir]. *)
Definition exists_self (fuel : nat) (name : string) : M MemWorld bool :=
  exists_with (stat fuel (Ctx.with_origin name "stat" Ctx.new) name).

Definition is_dir_self (fuel : nat) (name : string) : M MemWorld bool :=
  meta ← stat fuel (Ctx.with_origin name "stat" Ctx.new) name; mret (Meta.is_dir meta).

Definition is_empty_self (fuel : nat) (name : string) : M MemWorld bool :=
  entries ← default_fs_read_dir (open fuel) (Ctx.with_origin name "readdir" Ctx.new) name;
  mret (bool_decide (entries = [])).

(** [is_dir(self, &parent).unwrap_or(false)] *)
Definition is_dir_or_false (fuel : nat) (name : string) : M MemWorld bool :=
  r ← attempt (is_dir_self fuel name);
  match r with Ok b => mret b | Err _ => mret false | Panic => panic | NoFuel => no_fuel end.

(** [if parent != "." && !exists(self, &parent)? { return Err(..) }] *)
Definition parent_exists (fuel : nat) (op name : string) : M MemWorld unit :=
  let parent := parent_path name in
  if decide (parent = ".") then mret tt
  else b ← exists_self fuel parent; guard_err (negb b) (EPath op name NotFound).

Definition parent_is_dir (fuel : nat) (op name : string) : M MemWorld unit :=
  let parent := parent_path name in
  if decide (parent = ".") then mret tt
  else b ← is_dir_or_false fuel parent; guard_err (negb b) (EPath op name NotFound).

Definition create (fuel : nat) (name : string) : M MemWorld MemHandle :=
  let name := clean_path name in
  guard_err (negb (valid_path name)) (EPath "create" name NotFound) ;;
  parent_exists fuel "create" name ;;
  i ← alloc_node (Node.file (base_name name) [] (FileMode.from_perm 420));
  insert name i ;;
  recompute_dir_sizes ;;
  node_open i.

Definition mkdir (fuel : nat) (name : string) (perm : Z) : M MemWorld unit :=
  let name := clean_path name in
  guard_err (negb (valid_path name)) (EPath "mkdir" name NotFound) ;;
  n ← node name;
  guard_err (negb (bool_decide (n = None))) (EPath "mkdir" name AlreadyExists) ;;
  parent_exists fuel "mkdir" name ;;
  i ← alloc_node (Node.dir (base_name name) (Z.lor FileMode.DIR perm));
  insert name i ;;
  recompute_dir_sizes.

Definition remove (fuel : nat) (name : string) : M MemWorld unit :=
  let name := clean_path name in
  guard_err (bool_decide (name = ".")) (EPath "remove" name Invalid) ;;
  n ← node name;
  guard_err (bool_decide (n = None)) (EPath "remove" name NotFound) ;;
  d ← is_dir_self fuel name;
  (if (d : bool) then
     e ← is_empty_self fuel name; guard_err (negb e) (EPath "remove" name NotEmpty)
   else mret tt) ;;
  remove_node name ;;
  recompute_dir_sizes.

(** The entries a directory rename moves: the directory and everything below it,
    with the path each gets. *)
Definition to_move (old new : string) (nodes : btree string nat) : list (string * string * nat) :=
  (λ kv, (kv.1, new +:+ default "" (strip_prefix old kv.1), kv.2)) <$>
    filter (λ kv, kv.1 = old ∨ starts_with (old +:+ "/") kv.1 = true) nodes.

Definition move_all (moves : list (string * string * nat)) (nodes : btree string nat)
    : btree string nat :=
  foldl (λ nodes m, bt_insert m.1.2 m.2 nodes)
    (foldl (λ nodes m, bt_remove m.1.1 nodes) nodes moves) moves.

Definition rename (fuel : nat) (old new : string) : M MemWorld unit :=
  let old := clean_path old in
  let new := clean_path new in
  guard_err (negb (valid_path old) || negb (valid_path new)) (EPath "rename" old NotFound) ;;
  if decide (old = new) then mret tt
  else
    parent_is_dir fuel "rename" new ;;
    nodes ← gets mw_nodes;
    old_node ← ok_or (bt_get old nodes) (EPath "rename" old NotFound);
    match bt_get new nodes with
    | Some existing =>
        inner ← lock_node existing;
        guard_err (Meta.is_dir (ni_meta inner) &&
            existsb (λ path, starts_with (new +:+ "/") path) (bt_keys nodes))
          (EPath "rename" new AlreadyExists)
    | None => mret tt
    end ;;
    inner ← lock_node old_node;
    (if Meta.is_dir (ni_meta inner) then
       modify (λ w, set_nodes (move_all (to_move old new nodes) nodes) w)
     else
       modify (λ w, set_nodes
         (bt_insert new old_node (bt_remove old (bt_remove new nodes))) w)) ;;
    recompute_dir_sizes.

Definition link (fuel : nat) (old new : string) : M MemWorld unit :=
  let old := clean_path old in
  let new := clean_path new in
  guard_err (negb (valid_path old) || negb (valid_path new)) (EPath "link" old NotFound) ;;
  n ← node new;
  guard_err (negb (bool_decide (n = None))) (EPath "link" new AlreadyExists) ;;
  parent_is_dir fuel "link" new ;;
  n ← node old;
  i ← ok_or n (EPath "link" old NotFound);
  inner ← lock_node i;
  guard_err (Meta.is_dir (ni_meta inner)) (EPath "link" old PermissionDenied) ;;
  insert new i ;;
  recompute_dir_sizes.

(** [self.node(&name).ok_or_else(|| Error::path(op, &name, ErrorKind::NotFound))?] *)
Definition find (op name : string) : M MemWorld nat :=
  n ← node name; ok_or n (EPath op name NotFound).

Definition chmod (name : string) (mode : Z) : M MemWorld unit :=
  i ← find "chmod" (clean_path name);
  inner ← lock_node i;
  update_node i (Node.set_mode
    (Z.lor (FileMode.type_bits (m_mode (ni_meta inner)))
           (FileMode.from_perm (FileMode.perm mode)))).

Definition chown (name : string) (uid gid : Z) : M MemWorld unit :=
  i ← find "chown" (clean_path name);
  update_node i (Node.set_owner uid gid).

Definition chtimes (name : string) (mtime : Z) : M MemWorld unit :=
  i ← find "chtimes" (clean_path name);
  update_node i (Node.set_modified mtime).

Definition truncate (name : string) (size : Z) : M MemWorld unit :=
  i ← find "truncate" (clean_path name);
  inner ← lock_node i;
  match vec_resize (ni_data inner) size with
  | Some data => node_set_data i data
  | None => panic
  end.

Definition symlink (fuel : nat) (old new : string) : M MemWorld unit :=
  let new := clean_path new in
  guard_err (negb (valid_path new)) (EPath "symlink" new Invalid) ;;
  parent_exists fuel "symlink" new ;;
  i ← alloc_node (Node.symlink (base_name new) old);
  insert new i ;;
  recompute_dir_sizes.

Definition readlink (name : string) : M MemWorld string :=
  let name := clean_path name in
  i ← find "readlink" name;
  inner ← lock_node i;
  guard_err (negb (FileMode.is_symlink (m_mode (ni_meta inner)))) (EPath "readlink" name Invalid) ;;
  mret (from_utf8_lossy (ni_data inner)).

Definition set_xattr (name attr : string) (data : list byte) : M MemWorld unit :=
  i ← find "setxattr" (clean_path name);
  update_node i (Node.set_xattr attr data).

Definition get_xattr (name attr : string) : M MemWorld (list byte) :=
  i ← find "getxattr" (clean_path name);
  inner ← lock_node i;
  ok_or (bt_get attr (ni_xattrs inner)) (EPath "getxattr" attr NotFound).

Definition list_xattrs (name : string) : M MemWorld (list string) :=
  i ← find "listxattrs" (clean_path name);
  inner ← lock_node i;
  mret (bt_keys (ni_xattrs inner)).

Definition remove_xattr (name attr : string) : M MemWorld unit :=
  i ← find "removexattr" (clean_path name);
  inner ← lock_node i;
  update_node i (Node.remove_xattr attr) ;;
  guard_err (negb (bt_mem attr (ni_xattrs inner))) (EPath "removexattr" attr NotFound).

(** [impl FileSystem for MemFs]: [lstat], [read_dir] and [open_file] are the
    provided methods of the trait. *)
Definition fs (fuel : nat) : FileSystem MemWorld MemHandle := {|
  fs_open := open fuel;
  fs_stat := stat fuel;
  fs_lstat := default_lstat (stat fuel);
  fs_read_dir := default_fs_read_dir (open fuel);
  fs_create := create fuel;
  fs_open_file := default_open_file (open fuel) (create fuel) chmod;
  fs_mkdir := mkdir fuel;
  fs_remove := remove fuel;
  fs_rename := rename fuel;
  fs_link := link fuel;
  fs_chmod := chmod;
  fs_chown := chown;
  fs_chtimes := chtimes;
  fs_truncate := truncate;
  fs_symlink := symlink fuel;
  fs_readlink := readlink;
  fs_set_xattr := set_xattr;
  fs_get_xattr := get_xattr;
  fs_list_xattrs := list_xattrs;
  fs_remove_xattr := remove_xattr
|}.
End MemFs.
