(* ===== verification/MemFsFacts.v ===== *)
(** * The in-memory filesystem: invariant and the filesystem laws

    The tree of a [MemFs] is a well-formed ordered map whose entries point to live
    nodes; a directory node has one path; a node that is not a directory records
    the length of its data.  Every operation keeps this on every outcome, and so
    [MemFs] satisfies [FsLaws] with panics allowed: a size above [isize::MAX]
    panics, and a cycle of symbolic links exhausts the fuel. *)

From stdpp Require Import base list numbers option strings sorting.
From Stdlib Require Import ZArith Lia Ascii.
From S2P Require Import Prelude Strs BTree Core FsTrait FsLaws MemFs.

Local Open Scope Z_scope.

(** ** The invariant *)

Definition node_is_dir (n : NodeInner) : bool := Meta.is_dir (ni_meta n).

Definition size_ok (n : NodeInner) : Prop :=
  node_is_dir n = false → m_size (ni_meta n) = blen (ni_data n).

Record mem_inv (w : MemWorld) : Prop := {
  mi_wf : bt_wf (mw_nodes w);
  mi_live p i : bt_get p (mw_nodes w) = Some i → (i < length (mw_store w))%nat;
  mi_size i n : mw_store w !! i = Some n → size_ok n;
  mi_dirs p q i : bt_get p (mw_nodes w) = Some i → bt_get q (mw_nodes w) = Some i →
    node_is_dir (node_inner w i) = true → p = q
}.

Definition handle_ok (h : MemHandle) (w : MemWorld) : Prop :=
  match h with HNode f => (nf_node f < length (mw_store w))%nat | HDir _ => True end.

(** The names [children_for] finds, which depend on the keys only. *)
Definition names_step (name : string) (acc : list string * btree string unit) (kv : string * nat) :=
  let '(entries, need) := acc in
  match MemFs.below name kv.1 with
  | None => acc
  | Some rest =>
      match split_once "/" rest with
      | Some (head, _) => (entries, bt_insert head tt need)
      | None => (entries ++ [rest], need)
      end
  end.

Definition child_names (name : string) (nodes : btree string nat) : list string * list string :=
  let '(entries, need) := foldl (names_step name) ([], []) nodes in
  (entries, bt_keys (foldl (λ need e, bt_remove e need) need entries)).

(** The size a directory records: two, and one for every child. *)
Definition dir_size (name : string) (nodes : btree string nat) : Z :=
  2 + Z.of_nat (length (child_names name nodes).1) + Z.of_nat (length (child_names name nodes).2).

(** Every directory of the tree records its size. *)
Definition sizes_exact (w : MemWorld) : Prop :=
  ∀ p i, bt_get p (mw_nodes w) = Some i → node_is_dir (node_inner w i) = true →
    m_size (ni_meta (node_inner w i)) = dir_size p (mw_nodes w).

(** [w'] is [w] but for the sizes recorded by directories. *)
Record resized (w w' : MemWorld) : Prop := {
  rs_nodes : mw_nodes w' = mw_nodes w;
  rs_times : mw_times w' = mw_times w;
  rs_length : length (mw_store w') = length (mw_store w);
  rs_file i : node_is_dir (node_inner w i) = false → node_inner w' i = node_inner w i;
  rs_dir i : ∃ s, node_inner w' i = Node.set_size s (node_inner w i)
}.

(** [p] is [old] or below it, and the path a rename of [old] to [new] brings to [p]. *)
Definition under (old p : string) : Prop := p = old ∨ starts_with (old +:+ "/") p = true.

#[global] Instance under_dec old p : Decision (under old p).
Proof. unfold under. apply _. Defined.

Definition moved_from (old new p : string) : option string :=
  s ← strip_prefix new p;
  if decide (s = "" ∨ starts_with "/" s = true) then Some (old +:+ s) else None.

(** ** Directory bits of a mode *)

Lemma is_dir_testbit m : FileMode.is_dir m = Z.testbit m 31.
Proof.
  unfold FileMode.is_dir, FileMode.contains, FileMode.DIR. change 2147483648 with (2 ^ 31).
  destruct (Z.testbit m 31) eqn:Hb.
  - apply Z.eqb_eq, Z.bits_inj'. intros n Hn. rewrite Z.land_spec, Z.pow2_bits_eqb by lia.
    destruct (Z.eqb_spec 31 n) as [<-|]; [by rewrite Hb|apply andb_false_r].
  - apply Z.eqb_neq. intros Heq. apply (f_equal (λ z, Z.testbit z 31)) in Heq.
    rewrite Z.land_spec, Z.pow2_bits_true, Hb in Heq by lia. done.
Qed.

Lemma chmod_is_dir m p :
  FileMode.is_dir (Z.lor (FileMode.type_bits m) (FileMode.from_perm p)) = FileMode.is_dir m.
Proof.
  rewrite !is_dir_testbit, Z.lor_spec. unfold FileMode.type_bits, FileMode.from_perm.
  rewrite !Z.land_spec. change (Z.testbit (not_u32 FileMode.PERM_MASK) 31) with true.
  change (Z.testbit FileMode.PERM_MASK 31) with false.
  by rewrite andb_true_r, andb_false_r, orb_false_r.
Qed.

(** ** Nodes and the store *)

Lemma node_inner_lookup w i n : mw_store w !! i = Some n → node_inner w i = n.
Proof. unfold node_inner, inner_of. by intros ->. Qed.

Lemma node_inner_live w i : (i < length (mw_store w))%nat →
  mw_store w !! i = Some (node_inner w i).
Proof.
  intros [n Hn]%lookup_lt_is_Some. unfold node_inner, inner_of. by rewrite Hn.
Qed.

Lemma inner_of_alter f i j store : (i < length store)%nat →
  inner_of (alter f i store) j = if decide (i = j) then f (inner_of store i) else inner_of store j.
Proof.
  intros [n Hn]%lookup_lt_is_Some. unfold inner_of. rewrite list_lookup_alter, Hn.
  by case_decide.
Qed.

Lemma inner_of_dead i store : (length store ≤ i)%nat → inner_of store i = dummy_inner.
Proof. intros H. unfold inner_of. by rewrite lookup_ge_None_2. Qed.

Lemma alter_dead (f : NodeInner → NodeInner) i store : (length store ≤ i)%nat →
  alter f i store = store.
Proof.
  intros H. apply list_eq. intros j. rewrite list_lookup_alter. case_decide; [subst|done].
  by rewrite lookup_ge_None_2.
Qed.

Lemma alter_is_dir (f : NodeInner → NodeInner) i j store :
  (∀ n, store !! i = Some n → node_is_dir (f n) = node_is_dir n) →
  node_is_dir (inner_of (alter f i store) j) = node_is_dir (inner_of store j).
Proof.
  intros Hf. destruct (decide (i < length store)%nat) as [Hl|].
  - rewrite inner_of_alter by done. case_decide; [subst|done]. apply Hf.
    apply lookup_lt_is_Some in Hl as [n Hn]. unfold inner_of. by rewrite Hn.
  - by rewrite alter_dead by lia.
Qed.

Lemma inner_of_app store n i : inner_of (store ++ [n]) i =
  if decide (i = length store) then n else inner_of store i.
Proof.
  unfold inner_of. case_decide; subst.
  - by rewrite list_lookup_middle.
  - destruct (decide (i < length store)%nat); [by rewrite lookup_app_l|].
    rewrite !lookup_ge_None_2; [done|lia|rewrite length_app; cbn; lia].
Qed.

(** ** Steps that keep the invariant *)

Lemma update_inv f i w :
  (∀ n, mw_store w !! i = Some n → node_is_dir (f n) = node_is_dir n) →
  (∀ n, mw_store w !! i = Some n → size_ok n → size_ok (f n)) →
  mem_inv w → mem_inv (set_store (alter f i (mw_store w)) w).
Proof.
  intros Hdir Hsize [Hwf Hlive Hsz Hdirs]. split; cbn.
  - done.
  - intros p j Hp. rewrite length_alter. eauto.
  - intros j n. rewrite list_lookup_alter. case_decide; [subst|apply Hsz].
    destruct (mw_store w !! j) as [n0|] eqn:Hj; [|done]. intros [= <-]. eauto.
  - intros p q j. unfold node_inner. cbn. rewrite alter_is_dir by done. apply Hdirs.
Qed.

Lemma alloc_insert_inv p n w : size_ok n → mem_inv w →
  mem_inv (set_nodes (bt_insert p (length (mw_store w)) (mw_nodes w))
    (set_store (mw_store w ++ [n]) w)).
Proof.
  intros Hn [Hwf Hlive Hsz Hdirs]. split; cbn.
  - by apply bt_insert_wf.
  - intros q i. rewrite length_app, bt_get_insert. cbn. case_decide; [intros [= <-]; lia|].
    intros Hq%Hlive. lia.
  - intros i m. destruct (decide (i < length (mw_store w))%nat).
    + rewrite lookup_app_l by done. apply Hsz.
    + rewrite lookup_app_r by lia. intros Hm%list_lookup_singleton_Some.
      by destruct Hm as [_ <-].
  - intros q r i. rewrite !bt_get_insert. unfold node_inner. cbn. rewrite inner_of_app.
    repeat case_decide; subst; try done; intros; simplify_eq; try (by eapply Hdirs);
      repeat match goal with H : bt_get _ _ = Some _ |- _ => apply Hlive in H end; lia.
Qed.

Lemma remove_inv p w : mem_inv w → mem_inv (set_nodes (bt_remove p (mw_nodes w)) w).
Proof.
  intros [Hwf Hlive Hsz Hdirs]. split; cbn.
  - by apply bt_remove_wf.
  - intros q i. rewrite bt_get_remove. case_decide; [done|]. apply Hlive.
  - apply Hsz.
  - intros q r i. rewrite !bt_get_remove. repeat case_decide; try done. apply Hdirs.
Qed.

Lemma insert_inv p i w : (i < length (mw_store w))%nat →
  (node_is_dir (node_inner w i) = true → ∀ q, bt_get q (mw_nodes w) = Some i → q = p) →
  mem_inv w → mem_inv (set_nodes (bt_insert p i (mw_nodes w)) w).
Proof.
  intros Hi Hu [Hwf Hlive Hsz Hdirs]. split; cbn.
  - by apply bt_insert_wf.
  - intros q j. rewrite bt_get_insert. case_decide; [by intros [= <-]|]. apply Hlive.
  - apply Hsz.
  - intros q r j. rewrite !bt_get_insert. unfold node_inner in *. cbn.
    repeat case_decide; subst; try done; intros; simplify_eq; eauto.
    symmetry. eauto.
Qed.

(** The path a moved entry came from, and where every path is after [move_all]. *)
Lemma move_all_get moves nodes p :
  bt_get p (MemFs.move_all moves nodes) =
    match last (filter (λ m, m.1.2 = p) moves) with
    | Some m => Some m.2
    | None => if decide (p ∈ moves.*1.*1) then None else bt_get p nodes
    end.
Proof.
  unfold MemFs.move_all.
  assert (∀ ms base, bt_get p (foldl (λ nodes m, bt_insert m.1.2 m.2 nodes) base ms) =
    match last (filter (λ m : string * string * nat, m.1.2 = p) ms) with
    | Some m => Some m.2 | None => bt_get p base end) as ->.
  { intros ms. induction ms as [|m ms IH] using rev_ind; intros base; [done|].
    rewrite foldl_app, filter_app. cbn. rewrite bt_get_insert.
    destruct (decide (m.1.2 = p)) as [Hp|Hp].
    - by rewrite decide_True, last_snoc by done.
    - rewrite decide_False by congruence. by rewrite app_nil_r. }
  case_match; [done|]. clear.
  revert nodes. induction moves as [|m ms IH]; intros nodes; cbn.
  { case_decide as Hd; [by apply elem_of_nil in Hd|done]. }
  rewrite IH, bt_get_remove.
  destruct (decide (p ∈ ms.*1.*1)), (decide (p = m.1.1)), (decide (p ∈ m.1.1 :: ms.*1.*1));
    try done; rewrite elem_of_cons in *; tauto.
Qed.

Lemma under_spec old p : under old p ↔ ∃ s, p = old +:+ s ∧ (s = "" ∨ starts_with "/" s = true).
Proof.
  unfold under. rewrite starts_with_true. split.
  - intros [->|[r ->]].
    + exists "". by rewrite app_str_nil_r; auto.
    + exists ("/" +:+ r). rewrite <- app_str_assoc. split; [done|]. right.
      apply starts_with_true. eauto.
  - intros (s & -> & [->|[r ->]%starts_with_true]); [left; apply app_str_nil_r|right].
    exists r. by rewrite app_str_assoc.
Qed.

Lemma strip_prefix_app p s : strip_prefix p (p +:+ s) = Some s.
Proof. by apply strip_prefix_Some. Qed.

Lemma moved_from_spec old new p q : moved_from old new p = Some q ↔
  ∃ s, p = new +:+ s ∧ q = old +:+ s ∧ (s = "" ∨ starts_with "/" s = true).
Proof.
  unfold moved_from. split.
  - intros (s & Hs & Hq)%bind_Some. apply strip_prefix_Some in Hs as ->.
    case_decide; simplify_eq. eauto.
  - intros (s & -> & -> & Hs). rewrite strip_prefix_app. cbn. by rewrite decide_True.
Qed.

Lemma elem_of_to_move old new nodes m : m ∈ MemFs.to_move old new nodes ↔
  ∃ s i, m = (old +:+ s, new +:+ s, i) ∧ (s = "" ∨ starts_with "/" s = true) ∧
    (old +:+ s, i) ∈ nodes.
Proof.
  unfold MemFs.to_move. rewrite list_elem_of_fmap. split.
  - intros ([k i] & -> & [Hu Hin]%list_elem_of_filter). cbn in *.
    apply (under_spec old k) in Hu as (s & -> & Hs). exists s, i.
    by rewrite strip_prefix_app.
  - intros (s & i & -> & Hs & Hin). exists (old +:+ s, i). cbn. rewrite strip_prefix_app.
    split; [done|]. apply list_elem_of_filter. split; [|done]. cbn.
    apply (under_spec old). eauto.
Qed.

(** Where every path leads after a directory was renamed. *)
Lemma rename_get old new nodes p : bt_wf nodes →
  bt_get p (MemFs.move_all (MemFs.to_move old new nodes) nodes) =
    match moved_from old new p ≫= λ q, bt_get q nodes with
    | Some i => Some i
    | None => if decide (under old p) then None else bt_get p nodes
    end.
Proof.
  intros Hwf. rewrite move_all_get.
  destruct (last (filter _ (MemFs.to_move old new nodes))) as [m|] eqn:Hm.
  - apply last_Some_elem_of in Hm. apply list_elem_of_filter in Hm as [Hp Hm].
    apply elem_of_to_move in Hm as (s & i & -> & Hs & Hin). cbn in Hp. subst p.
    assert (moved_from old new (new +:+ s) = Some (old +:+ s)) as ->
      by (apply moved_from_spec; eauto).
    cbn. by rewrite (bt_elem_get _ i) by done.
  - apply last_None in Hm.
    destruct (moved_from old new p ≫= λ q, bt_get q nodes) as [i|] eqn:Hq.
    + apply bind_Some in Hq as (q & (s & -> & -> & Hs)%moved_from_spec & Hi).
      exfalso. apply bt_get_elem in Hi.
      assert ((old +:+ s, new +:+ s, i) ∈ filter (λ m : string * string * nat, m.1.2 = new +:+ s)
        (MemFs.to_move old new nodes)) as Hin.
      { apply list_elem_of_filter. split; [done|]. apply elem_of_to_move. eauto. }
      rewrite Hm in Hin. by apply elem_of_nil in Hin.
    + clear Hm Hq.
      assert (p ∈ (MemFs.to_move old new nodes).*1.*1 ↔ under old p ∧ p ∈ bt_keys nodes) as Hiff.
      { rewrite under_spec. split.
        - intros ([a b] & -> & ([[a' b'] i] & [= -> ->] & Hin)%list_elem_of_fmap)%list_elem_of_fmap.
          apply elem_of_to_move in Hin as (s & j & [= -> -> ->] & Hs & Hin). split; [eauto|].
          apply list_elem_of_fmap. by exists (old +:+ s, j).
        - intros [(s & -> & Hs) ([k i] & Hk & Hin)%list_elem_of_fmap]. cbn in Hk. subst k.
          apply list_elem_of_fmap. exists (old +:+ s, new +:+ s). split; [done|].
          apply list_elem_of_fmap. exists (old +:+ s, new +:+ s, i). split; [done|].
          apply elem_of_to_move. eauto 6. }
      destruct (decide (under old p)) as [Hu|Hu].
      * case_decide as Hd; [done|]. apply bt_get_None. tauto.
      * rewrite decide_False; tauto.
Qed.

Lemma rename_dir_inv old new w : mem_inv w →
  mem_inv (set_nodes (MemFs.move_all (MemFs.to_move old new (mw_nodes w)) (mw_nodes w)) w).
Proof.
  intros [Hwf Hlive Hsz Hdirs].
  assert (∀ p i, bt_get p (MemFs.move_all (MemFs.to_move old new (mw_nodes w)) (mw_nodes w)) = Some i →
    ∃ q, bt_get q (mw_nodes w) = Some i ∧
      ((moved_from old new p = Some q) ∨ (q = p ∧ ¬ under old p))) as Hsrc.
  { intros p i. rewrite rename_get by done. destruct (moved_from old new p ≫= _) as [j|] eqn:Hq.
    - intros [= <-]. apply bind_Some in Hq as (q & Hm & Hq). eauto.
    - case_decide; [done|]. eauto. }
  split; cbn.
  - unfold MemFs.move_all. generalize (MemFs.to_move old new (mw_nodes w)) as ms. intros ms.
    assert (bt_wf (foldl (λ nodes m, bt_remove m.1.1 nodes) (mw_nodes w) ms)) as Hr.
    { generalize (mw_nodes w) Hwf. clear. induction ms as [|m ms IH]; cbn; auto with star9. }
    revert Hr. generalize (foldl (λ nodes m, bt_remove m.1.1 nodes) (mw_nodes w) ms). clear.
    induction ms as [|m ms IH]; cbn; auto with star9.
  - intros p i (q & Hq & _)%Hsrc. eauto.
  - done.
  - intros p1 p2 i (q1 & Hq1 & H1)%Hsrc (q2 & Hq2 & H2)%Hsrc Hd.
    assert (q1 = q2) as <- by eauto.
    rewrite !moved_from_spec in *. rewrite !under_spec in *.
    destruct H1 as [(s1 & -> & E1 & Hs1)|[E1 H1]], H2 as [(s2 & -> & E2 & Hs2)|[E2 H2]].
    + rewrite E1 in E2. pose proof (strip_prefix_app old s1) as E.
      rewrite E2, strip_prefix_app in E. by simplify_eq.
    + exfalso. apply H2. exists s1. by rewrite <- E2.
    + exfalso. apply H1. exists s2. by rewrite <- E1.
    + by rewrite <- E1.
Qed.

Lemma rename_file_inv old new i w : bt_get old (mw_nodes w) = Some i →
  node_is_dir (node_inner w i) = false → mem_inv w →
  mem_inv (set_nodes (bt_insert new i (bt_remove old (bt_remove new (mw_nodes w)))) w).
Proof.
  intros Hi Hd Hinv. pose proof (mi_live _ Hinv _ _ Hi) as Hl.
  pose proof (remove_inv old _ (remove_inv new _ Hinv)) as H2.
  refine (insert_inv new i _ _ _ H2); cbn; [done|].
  unfold node_inner in *. cbn. by rewrite Hd.
Qed.

(** ** Recomputing the sizes of directories *)

Lemma child_fold_names store p kvs es ns nd : d_name <$> es = ns →
  let r := foldl (MemFs.child_step store p) (es, nd) kvs in
  foldl (names_step p) (ns, nd) kvs = (d_name <$> r.1, r.2).
Proof.
  revert es ns nd. induction kvs as [|kv kvs IH]; intros es ns nd <-; cbn; [done|].
  destruct (MemFs.below p kv.1) as [rest|]; [|by apply IH].
  destruct (split_once "/" rest) as [[head ?]|]; apply IH; [done|]. by rewrite fmap_app.
Qed.

Lemma children_names p w :
  child_names p (mw_nodes w) =
    (d_name <$> (MemFs.children_for p w).1, (MemFs.children_for p w).2).
Proof.
  unfold child_names, MemFs.children_for.
  rewrite (child_fold_names (mw_store w) p (mw_nodes w) [] [] []) by done.
  destruct (foldl (MemFs.child_step _ _) _ _) as [es nd]. cbn. f_equal. f_equal.
  revert nd. induction es as [|e es IH]; intros nd; cbn; [done|]. apply IH.
Qed.

Lemma recompute_dir_eq p w :
  MemFs.recompute_dir p w = (Ok tt,
    match bt_get p (mw_nodes w) with
    | Some i => set_store (alter (Node.set_size (dir_size p (mw_nodes w))) i (mw_store w)) w
    | None => w
    end).
Proof.
  unfold MemFs.recompute_dir, mbind, eff_bind, gets. unfold dir_size. rewrite children_names.
  destruct (MemFs.children_for p w) as [es nd]. cbn. rewrite length_fmap.
  unfold MemFs.node, gets. by destruct (bt_get p (mw_nodes w)).
Qed.

Lemma set_size_own n : Node.set_size (m_size (ni_meta n)) n = n.
Proof. by destruct n as [[] ? ?]. Qed.

Lemma resized_refl w : resized w w.
Proof. split; try done. intros i. exists (m_size (ni_meta (node_inner w i))). by rewrite set_size_own. Qed.

Lemma resized_is_dir w w' i : resized w w' →
  node_is_dir (node_inner w' i) = node_is_dir (node_inner w i).
Proof. intros Hr. destruct (rs_dir _ _ Hr i) as [s ->]. done. Qed.

Lemma resized_inv w w' : resized w w' → mem_inv w → mem_inv w'.
Proof.
  intros Hr [Hwf Hlive Hsz Hdirs]. split.
  - by rewrite (rs_nodes _ _ Hr).
  - intros p i. rewrite (rs_nodes _ _ Hr), (rs_length _ _ Hr). apply Hlive.
  - intros i n Hn Hd. pose proof (node_inner_lookup _ _ _ Hn) as <-.
    rewrite (resized_is_dir w) in Hd by done. rewrite (rs_file _ _ Hr) by done.
    apply lookup_lt_Some in Hn. rewrite (rs_length _ _ Hr) in Hn.
    apply (Hsz i); [by apply node_inner_live|done].
  - intros p q i. rewrite (rs_nodes _ _ Hr), (resized_is_dir w) by done. apply Hdirs.
Qed.

(** The loop over the directories [ds], those in [done] having been treated. *)
Lemma recompute_loop w0 ds processed w :
  mem_inv w0 → resized w0 w →
  (∀ p i, p ∈ processed → bt_get p (mw_nodes w0) = Some i →
    m_size (ni_meta (node_inner w i)) = dir_size p (mw_nodes w0)) →
  (∀ p i, p ∈ processed ++ ds → bt_get p (mw_nodes w0) = Some i →
    node_is_dir (node_inner w0 i) = true) →
  ∃ w', for_each MemFs.recompute_dir ds w = (Ok tt, w') ∧ resized w0 w' ∧
    ∀ p i, p ∈ processed ++ ds → bt_get p (mw_nodes w0) = Some i →
      m_size (ni_meta (node_inner w' i)) = dir_size p (mw_nodes w0).
Proof.
  intros Hinv. revert processed w. induction ds as [|d ds IH]; intros processed w Hr Hdone Hdir.
  { exists w. rewrite app_nil_r in *. done. }
  cbn [for_each]. rewrite (eff_bind_Ok _ _ _ _ _ (recompute_dir_eq d w)).
  rewrite (rs_nodes _ _ Hr) in *. rewrite cons_middle, app_assoc in *.
  apply IH; [| |done].
  - destruct (bt_get d (mw_nodes w0)) as [i|] eqn:Hi; [|done].
    assert (node_is_dir (node_inner w0 i) = true) as Hdi.
    { apply (Hdir d); [|done]. rewrite !elem_of_app, list_elem_of_singleton. auto. }
    pose proof (mi_live _ Hinv _ _ Hi) as Hl. rewrite <- (rs_length _ _ Hr) in Hl.
    destruct Hr as [Hn Ht Hlen Hf Hd]. split; cbn; [done|done| | |].
    + by rewrite length_alter.
    + intros j Hj. unfold node_inner at 1. cbn. rewrite inner_of_alter by done.
      case_decide; [subst; congruence|]. by apply Hf.
    + intros j. unfold node_inner at 1. cbn. rewrite inner_of_alter by done.
      destruct (Hd j) as [s Hs]. case_decide; [subst|by exists s].
      unfold node_inner in Hs at 1. rewrite Hs. by eexists.
  - intros p i Hp Hi. apply elem_of_app in Hp as [Hp| ->%list_elem_of_singleton].
    + destruct (bt_get d (mw_nodes w0)) as [j|] eqn:Hj; [|by apply Hdone].
      pose proof (mi_live _ Hinv _ _ Hj) as Hl. rewrite <- (rs_length _ _ Hr) in Hl.
      unfold node_inner. cbn. rewrite inner_of_alter by done. case_decide; [subst|by apply Hdone].
      assert (d = p) as ->; [|done]. eapply (mi_dirs _ Hinv); [done..|].
      apply (Hdir d); [|done]. rewrite !elem_of_app, list_elem_of_singleton. auto.
    + rewrite Hi. pose proof (mi_live _ Hinv _ _ Hi) as Hl. rewrite <- (rs_length _ _ Hr) in Hl.
      unfold node_inner. cbn. rewrite inner_of_alter by done. by rewrite decide_True.
Qed.

Lemma recompute_spec w : mem_inv w →
  ∃ w', MemFs.recompute_dir_sizes w = (Ok tt, w') ∧ resized w w' ∧ sizes_exact w'.
Proof.
  intros Hinv.
  set (dirs := bt_keys (filter (λ kv, Meta.is_dir (ni_meta (node_inner w kv.2)) = true)
    (mw_nodes w))).
  assert (∀ p i, p ∈ dirs → bt_get p (mw_nodes w) = Some i →
    node_is_dir (node_inner w i) = true) as Hdirs.
  { intros p i ([q j] & -> & [Hd Hin]%list_elem_of_filter)%list_elem_of_fmap Hi. cbn in *.
    apply bt_elem_get in Hin; [|apply Hinv]. by simplify_eq. }
  destruct (recompute_loop w dirs [] w) as (w' & Hrun & Hr & Hsize);
    [done|apply resized_refl|by intros ?? ?%elem_of_nil|done|].
  exists w'. split_and!; [exact Hrun|done|]. intros p i Hp Hd. rewrite (rs_nodes _ _ Hr) in *.
  rewrite (resized_is_dir w) in Hd by done. apply Hsize; [|done].
  apply list_elem_of_fmap. exists (p, i). split; [done|].
  apply list_elem_of_filter. split; [done|]. by apply bt_get_elem.
Qed.

(** ** Running an operation under the invariant

    [run_ok hs m w Q]: from [w], a success of [m] satisfies [Q], and any other
    outcome leaves a world with the invariant in which the handles [hs] are good. *)

Section Laws.
Variable hs : list MemHandle.
#[local] Abbreviation winv := (world_inv mem_inv handle_ok hs).

Definition run_ok {A} (m : M MemWorld A) (w : MemWorld) (Q : A → MemWorld → Prop) : Prop :=
  match m w with (Ok a, w') => Q a w' | (_, w') => winv w' end.

Lemma winv_step w w' : winv w → (length (mw_store w) ≤ length (mw_store w'))%nat →
  mem_inv w' → winv w'.
Proof.
  intros [_ Hhs] Hlen Hi. split; [done|]. eapply Forall_impl; [done|].
  intros [f|d]; cbn; [lia|done].
Qed.

Lemma run_bind {A B} (m : M MemWorld A) (k : A → M MemWorld B) w Q :
  run_ok m w (λ a w', run_ok (k a) w' Q) → run_ok (m ≫= k) w Q.
Proof. unfold run_ok, mbind, eff_bind. by destruct (m w) as [[a|e| |] w']. Qed.

Lemma run_seq {A B} (m : M MemWorld A) (k : A → M MemWorld B) w Q1 Q :
  run_ok m w Q1 → (∀ a w', Q1 a w' → run_ok (k a) w' Q) → run_ok (m ≫= k) w Q.
Proof.
  unfold run_ok, mbind, eff_bind. intros Hm Hk. destruct (m w) as [[a|e| |] w']; [|done..].
  by apply Hk.
Qed.

Lemma run_weaken {A} (m : M MemWorld A) w (Q1 Q : A → MemWorld → Prop) :
  run_ok m w Q1 → (∀ a w', Q1 a w' → Q a w') → run_ok m w Q.
Proof. unfold run_ok. intros Hm HQ. destruct (m w) as [[a|e| |] w']; auto. Qed.

Lemma run_ret {A} (a : A) w (Q : A → MemWorld → Prop) : Q a w → run_ok (mret a) w Q.
Proof. done. Qed.

Lemma run_throw {A} e w (Q : A → MemWorld → Prop) : winv w → run_ok (throw e) w Q.
Proof. done. Qed.

Lemma run_gets {A} (f : MemWorld → A) w (Q : A → MemWorld → Prop) :
  Q (f w) w → run_ok (gets f) w Q.
Proof. done. Qed.

Lemma run_modify (f : MemWorld → MemWorld) w (Q : unit → MemWorld → Prop) :
  Q tt (f w) → run_ok (modify f) w Q.
Proof. done. Qed.

Lemma run_guard b e w (Q : unit → MemWorld → Prop) :
  winv w → (b = false → Q tt w) → run_ok (guard_err b e) w Q.
Proof. destruct b; unfold run_ok; cbn; auto. Qed.

Lemma run_ok_or {A} (o : option A) e w (Q : A → MemWorld → Prop) :
  winv w → (∀ a, o = Some a → Q a w) → run_ok (ok_or o e) w Q.
Proof. destruct o; unfold run_ok; cbn; auto. Qed.

Lemma run_attempt {A} (m : M MemWorld A) w (Q : Result A → MemWorld → Prop) :
  run_ok m w (λ a, Q (Ok a)) → (∀ e w', m w = (Err e, w') → Q (Err e) w') →
  run_ok (attempt m) w Q.
Proof.
  unfold run_ok, attempt. destruct (m w) as [[a|e| |] w'] eqn:Hm; intros HQ He; auto.
Qed.

(** A computation that only reads. *)
Lemma run_read {A} (m : M MemWorld A) w (Q : A → MemWorld → Prop) :
  (m w).2 = w → winv w → (∀ a, m w = (Ok a, w) → Q a w) → run_ok m w Q.
Proof.
  unfold run_ok. destruct (m w) as [[a|e| |] w'] eqn:Hm; cbn; intros -> Hw HQ; auto.
Qed.

Lemma run_recompute w (Q : unit → MemWorld → Prop) : winv w →
  (∀ w', resized w w' → sizes_exact w' → winv w' → Q tt w') →
  run_ok MemFs.recompute_dir_sizes w Q.
Proof.
  intros Hw HQ. destruct (recompute_spec w) as (w' & Hrun & Hr & He); [apply Hw|].
  unfold run_ok. rewrite Hrun. apply HQ; [done|done|].
  eapply winv_step; [done|by rewrite (rs_length _ _ Hr)|]. eapply resized_inv; [done|apply Hw].
Qed.

Lemma run_update f i w (Q : unit → MemWorld → Prop) :
  (∀ n, mw_store w !! i = Some n → node_is_dir (f n) = node_is_dir n) →
  (∀ n, mw_store w !! i = Some n → size_ok n → size_ok (f n)) → winv w →
  (∀ w', winv w' → length (mw_store w') = length (mw_store w) → Q tt w') →
  run_ok (update_node i f) w Q.
Proof.
  intros Hd Hs Hw HQ. apply run_modify, HQ; [|apply length_alter].
  eapply winv_step; [done|by cbn; rewrite length_alter|].
  apply update_inv; [done..|apply Hw].
Qed.

Lemma run_set_data i data w (Q : unit → MemWorld → Prop) : winv w →
  (∀ w', winv w' → Q tt w') → run_ok (node_set_data i data) w Q.
Proof.
  intros Hw HQ. unfold node_set_data. apply run_bind. unfold current_time. cbn -[run_ok].
  apply run_update; [done|done| |auto].
  eapply winv_step; [done|done|]. destruct Hw as [Hi _]. by destruct Hi; split.
Qed.

(** A new node under the path [p]. *)
Lemma run_alloc_insert {A} p n (k : nat → M MemWorld A) w Q : size_ok n → winv w →
  (∀ w' i, winv w' → bt_get p (mw_nodes w') = Some i → (i < length (mw_store w'))%nat →
     run_ok (k i) w' Q) →
  run_ok (i ← alloc_node n; MemFs.insert p i ;; k i) w Q.
Proof.
  intros Hn Hw HQ. unfold run_ok, mbind, eff_bind. cbn. apply HQ.
  - eapply winv_step; [done|cbn; rewrite length_app; lia|].
    apply alloc_insert_inv; [done|apply Hw].
  - cbn. apply bt_get_insert_eq.
  - cbn. rewrite length_app. cbn. lia.
Qed.
End Laws.

(** ** The recursive operations *)

Lemma stat_reads fuel ctx name w : (MemFs.stat fuel ctx name w).2 = w.
Proof.
  revert ctx name. induction fuel as [|fuel IH]; intros ctx name; cbn [MemFs.stat]; [done|].
  destruct (negb _); [done|]. unfold mbind, eff_bind, MemFs.node, gets, lock_node.
  destruct (bt_get _ _); cbn; [|done]. case_match; [apply IH|done].
Qed.

Lemma is_dir_self_reads fuel name w : (MemFs.is_dir_self fuel name w).2 = w.
Proof.
  unfold MemFs.is_dir_self, mbind, eff_bind.
  pose proof (stat_reads fuel (Ctx.with_origin name "stat" Ctx.new) name w).
  by destruct (MemFs.stat _ _ _ _) as [[] ?].
Qed.

Lemma exists_self_reads fuel name w : (MemFs.exists_self fuel name w).2 = w.
Proof.
  unfold MemFs.exists_self, exists_with, attempt, mbind, eff_bind.
  pose proof (stat_reads fuel (Ctx.with_origin name "stat" Ctx.new) name w).
  destruct (MemFs.stat _ _ _ _) as [[|e| |] ?]; cbn in *; try done. by destruct (kind_is _ e).
Qed.

Lemma is_dir_or_false_reads fuel name w : (MemFs.is_dir_or_false fuel name w).2 = w.
Proof.
  unfold MemFs.is_dir_or_false, attempt, mbind, eff_bind.
  pose proof (is_dir_self_reads fuel name w).
  by destruct (MemFs.is_dir_self _ _ _) as [[] ?].
Qed.

Lemma parent_exists_reads fuel op name w : (MemFs.parent_exists fuel op name w).2 = w.
Proof.
  unfold MemFs.parent_exists. case_decide; [done|]. unfold mbind, eff_bind.
  pose proof (exists_self_reads fuel (parent_path name) w).
  destruct (MemFs.exists_self _ _ _) as [[b| | |] ?]; cbn in *; try done. by destruct b.
Qed.

Lemma parent_is_dir_reads fuel op name w : (MemFs.parent_is_dir fuel op name w).2 = w.
Proof.
  unfold MemFs.parent_is_dir. case_decide; [done|]. unfold mbind, eff_bind.
  pose proof (is_dir_or_false_reads fuel (parent_path name) w).
  destruct (MemFs.is_dir_or_false _ _ _) as [[b| | |] ?]; cbn in *; try done. by destruct b.
Qed.

(** ** Handles *)

Definition grown (w w' : MemWorld) : Prop :=
  mem_inv w' ∧ (length (mw_store w) ≤ length (mw_store w'))%nat.

(** A handle method that keeps the invariant and the handle good. *)
Definition method_ok {A} (m : M (MemHandle * MemWorld) A) : Prop :=
  ∀ h w, mem_inv w → handle_ok h w →
    let '(_, (h', w')) := m (h, w) in grown w w' ∧ handle_ok h' w'.

Lemma tick_inv w nodes' store' times' : mem_inv w → nodes' = mw_nodes w → store' = mw_store w →
  mem_inv (mkMemWorld nodes' store' times').
Proof. intros Hi -> ->. by destruct Hi; split. Qed.

Lemma mem_method_ok {A} (node : M (NodeFile * MemWorld) A) (dir : M (DirFile * MemWorld) A) :
  (∀ f w, mem_inv w → (nf_node f < length (mw_store w))%nat →
     let '(_, (f', w')) := node (f, w) in grown w w' ∧ nf_node f' = nf_node f) →
  (∀ d w, (dir (d, w)).2.2 = w) →
  method_ok (mem_method node dir).
Proof.
  intros Hn Hd [f|d] w Hi Hh; cbn.
  - specialize (Hn f w Hi Hh). destruct (node (f, w)) as [r [f' w']].
    destruct Hn as [[Hi' Hl] Hf]. cbn in *. split; [done|]. rewrite Hf. lia.
  - specialize (Hd d w). destruct (dir (d, w)) as [r [d' w']]. cbn in *. by subst.
Qed.

Lemma node_write_ok data f w : mem_inv w →
  let '(_, (f', w')) := node_write data (f, w) in grown w w' ∧ nf_node f' = nf_node f.
Proof.
  intros Hi. unfold node_write. destruct (nf_closed f); [done|].
  destruct (FileMode.is_dir _); [done|]. destruct (_ ≫= _); [|done].
  cbn. split; [|done]. split; [|done]. by eapply tick_inv.
Qed.

Lemma node_sync_ok f w : mem_inv w →
  let '(_, (f', w')) := node_sync (f, w) in grown w w' ∧ nf_node f' = nf_node f.
Proof.
  intros Hi. unfold node_sync. destruct (nf_dirty f); [|done]. cbn. split; [|done]. split.
  - apply (update_inv _ _ (mkMemWorld _ _ _)); [done|done|]. by eapply tick_inv.
  - cbn. by rewrite length_alter.
Qed.

Lemma node_close_ok f w : mem_inv w →
  let '(_, (f', w')) := node_close (f, w) in grown w w' ∧ nf_node f' = nf_node f.
Proof.
  intros Hi. unfold node_close, mbind, eff_bind, gets, guard_err. cbn [fst].
  destruct (nf_closed f); [by split; [split|]|]. cbn -[node_sync]. pose proof (node_sync_ok f w Hi) as Hs.
  by destruct (node_sync (f, w)) as [[] [f' w']].
Qed.

Lemma fh_read_ok n : method_ok (fh_read n).
Proof.
  apply mem_method_ok; [|done]. intros f w Hi Hf. unfold node_read.
  destruct (nf_closed f); [done|]. destruct (FileMode.is_dir _); [done|]. cbn.
  by destruct (blen (nf_data f) <=? nf_offset f).
Qed.

Lemma fh_write_ok data : method_ok (fh_write data).
Proof. apply mem_method_ok; [|done]. intros. by apply node_write_ok. Qed.

Lemma fh_read_at_ok n off : method_ok (fh_read_at n off).
Proof.
  apply mem_method_ok; [|done]. intros f w Hi Hf. unfold node_read_at. by destruct (blen (nf_data f) <? off).
Qed.

Lemma fh_write_at_ok data off : method_ok (fh_write_at data off).
Proof.
  apply mem_method_ok; [|done]. intros f w Hi Hf.
  exact (node_write_ok data (nf_set_offset off f) w Hi).
Qed.

Lemma fh_seek_ok pos : method_ok (fh_seek pos).
Proof.
  apply mem_method_ok; [|done]. intros f w Hi Hf. unfold node_seek. cbn zeta.
  match goal with |- context [if ?b then _ else _] => by destruct b end.
Qed.

Lemma fh_stat_ok : method_ok fh_stat.
Proof. by apply mem_method_ok. Qed.

Lemma fh_read_dir_ok n : method_ok (fh_read_dir n).
Proof.
  apply mem_method_ok; [done|]. intros d w. cbn. unfold dir_read_dir.
  destruct (n <? 0); [done|]. by destruct (_ <=? df_offset d).
Qed.

Lemma fh_sync_ok : method_ok fh_sync.
Proof. apply mem_method_ok; [|done]. intros. by apply node_sync_ok. Qed.

Lemma fh_close_ok : method_ok fh_close.
Proof. apply mem_method_ok; [|done]. intros. by apply node_close_ok. Qed.

#[export] Hint Resolve fh_read_ok fh_write_ok fh_read_at_ok fh_write_at_ok fh_seek_ok fh_stat_ok
  fh_read_dir_ok fh_sync_ok fh_close_ok : star9.

Lemma run_on_handle {A} hs h (m : M (MemHandle * MemWorld) A) w Q : method_ok m →
  world_inv mem_inv handle_ok (h :: hs) w →
  (∀ r h' w', world_inv mem_inv handle_ok (h' :: hs) w' →
     match r with Ok _ | Err _ => Q (r, h') w' | _ => True end) →
  run_ok hs (on_handle h m) w Q.
Proof.
  intros Hm [Hi Hhs] HQ. inversion Hhs as [|?? Hh Hhs']; subst.
  specialize (Hm h w Hi Hh). unfold run_ok, on_handle.
  destruct (m (h, w)) as [r [h' w']]. destruct Hm as [[Hi' Hl] Hh'].
  assert (world_inv mem_inv handle_ok hs w') as Hw' by (by eapply winv_step).
  assert (world_inv mem_inv handle_ok (h' :: hs) w') as Hw''.
  { destruct Hw'. split; [done|]. by constructor. }
  specialize (HQ r h' w' Hw''). by destruct r.
Qed.

Lemma good_of_run {A} (m : M MemWorld A) (Q : A → MemWorld → Prop) :
  (∀ hs w, world_inv mem_inv handle_ok hs w →
     run_ok hs m w (λ a w', Q a w' ∧ world_inv mem_inv handle_ok hs w')) →
  good false mem_inv handle_ok m m Q.
Proof.
  intros Hm hs w Hw. split; [done|]. specialize (Hm hs w Hw). unfold run_ok in Hm.
  by destruct (m w) as [[a|e| |] w'].
Qed.

Lemma good_on_of_method {A} (m : M (MemHandle * MemWorld) A) (Q : A → Prop) :
  method_ok m → (∀ a, Q a) → good_on false mem_inv handle_ok m Q.
Proof.
  intros Hm HQ h hs w Hw. split; [done|].
  assert (run_ok hs (on_handle h m) w (λ '(r, h') w', world_inv mem_inv handle_ok (h' :: hs) w' ∧
       match r with Ok a => Q a | Err _ => True | _ => False end)) as Hr.
  { apply run_on_handle; [done..|]. intros [] ???; auto. }
  unfold run_ok in Hr. by destruct (on_handle h m w) as [[[r h']|e| |] w'].
Qed.

(** ** The operations *)

Section Ops.
Variable hs : list MemHandle.
#[local] Abbreviation winv := (world_inv mem_inv handle_ok hs).

(** What every operation with no result worth naming guarantees. *)
#[local] Abbreviation keeps m w := (run_ok hs m w (λ _ w', winv w')).
#[local] Abbreviation restructures m w :=
  (run_ok hs m w (λ _ w', winv w' ∧ sizes_exact w')).
#[local] Abbreviation opens m w :=
  (run_ok hs m w (λ h w', handle_ok h w' ∧ winv w')).

Lemma node_open_run i w : winv w → (i < length (mw_store w))%nat → opens (node_open i) w.
Proof. intros Hw Hi. done. Qed.

Lemma open_dir_run n name w : winv w → opens (MemFs.open_dir n name) w.
Proof.
  intros Hw. apply run_bind, run_gets. destruct (MemFs.children_for _ _) as [es need].
  case_match; [done|]. apply run_bind. destruct n; [|done]. by apply run_bind, run_gets.
Qed.

Lemma open_run fuel ctx name w : winv w → opens (MemFs.open fuel ctx name) w.
Proof.
  intros Hw. revert ctx name. induction fuel as [|fuel IH]; intros ctx name;
    cbn [MemFs.open]; [done|].
  destruct (negb _); [done|]. apply run_bind. unfold MemFs.node. apply run_gets.
  destruct (bt_get (clean_path name) (mw_nodes w)) as [i|] eqn:Hi; [|by apply open_dir_run].
  apply run_bind, run_gets. case_match; [apply IH|]. case_match; [|by apply open_dir_run].
  apply run_bind, run_update; [done|done|done|]. intros w' Hw' Hl. apply node_open_run; [done|].
  rewrite Hl. apply (mi_live w) with (clean_path name); [apply Hw|done].
Qed.

Lemma create_run fuel name w : winv w →
  run_ok hs (MemFs.create fuel name) w (λ h w', (handle_ok h w' ∧ winv w') ∧ sizes_exact w').
Proof.
  intros Hw. apply run_bind, run_guard; [done|]. intros _.
  apply run_bind, run_read; [apply parent_exists_reads|done|]. intros [] _.
  apply run_alloc_insert; [done|done|]. intros w1 i Hw1 Hi Hl.
  apply run_bind, run_recompute; [done|]. intros w2 Hr Hsz Hw2.
  assert (i < length (mw_store w2))%nat by (by rewrite (rs_length _ _ Hr)). done.
Qed.

Lemma mkdir_run fuel name perm w : winv w → restructures (MemFs.mkdir fuel name perm) w.
Proof.
  intros Hw. apply run_bind, run_guard; [done|]. intros _.
  apply run_bind, run_gets. apply run_bind, run_guard; [done|]. intros _.
  apply run_bind, run_read; [apply parent_exists_reads|done|]. intros [] _.
  apply run_alloc_insert; [|done|].
  - unfold size_ok, node_is_dir, Meta.is_dir. cbn. rewrite is_dir_testbit, Z.lor_spec.
    by rewrite orb_true_r.
  - intros w1 i Hw1 _ _. by apply run_recompute.
Qed.

Lemma symlink_run fuel old new w : winv w → restructures (MemFs.symlink fuel old new) w.
Proof.
  intros Hw. apply run_bind, run_guard; [done|]. intros _.
  apply run_bind, run_read; [apply parent_exists_reads|done|]. intros [] _.
  apply run_alloc_insert; [done|done|]. intros w1 i Hw1 _ _. by apply run_recompute.
Qed.

Lemma read_dir_run fuel ctx name w : winv w →
  keeps (default_fs_read_dir (MemFs.open fuel) ctx name) w.
Proof.
  intros Hw. apply run_bind. pose proof (open_run fuel
    (Ctx.with_origin name "readdir" (Ctx.set_read_only ctx)) name w Hw) as Ho.
  unfold run_ok in *. destruct (MemFs.open _ _ _ _) as [[h|e| |] w1]; try done.
  destruct Ho as [Hh Hw1]. apply run_bind, run_bind, run_on_handle; [apply fh_read_dir_ok| |].
  - destruct Hw1. split; [done|]. by constructor.
  - intros r h' w2 [Hi Hf]. inversion Hf; subst. assert (winv w2) by done.
    destruct r; [|done..]. done.
Qed.

Lemma remove_run fuel name w : winv w → restructures (MemFs.remove fuel name) w.
Proof.
  intros Hw. apply run_bind, run_guard; [done|]. intros _.
  apply run_bind, run_gets. apply run_bind, run_guard; [done|]. intros _.
  apply run_bind, run_read; [apply is_dir_self_reads|done|]. intros d _.
  assert (∀ w1, winv w1 → restructures (MemFs.remove_node (clean_path name) ;;
    MemFs.recompute_dir_sizes) w1) as Hend.
  { intros w1 Hw1. apply run_bind, run_modify, run_recompute; [|done].
    eapply winv_step; [done|done|]. by apply remove_inv, Hw1. }
  apply run_bind. destruct d; [|by apply run_ret, Hend].
  apply run_bind. unfold MemFs.is_empty_self. apply run_bind.
  pose proof (read_dir_run fuel (Ctx.with_origin (clean_path name) "readdir" Ctx.new)
    (clean_path name) w Hw) as Hrd.
  unfold run_ok in *. destruct (default_fs_read_dir _ _ _ _) as [[es|e| |] w1]; try done.
  apply run_guard; [done|]. intros _. by apply Hend.
Qed.

Lemma rename_run fuel old new w : winv w →
  run_ok hs (MemFs.rename fuel old new) w (λ _ w', winv w' ∧ (sizes_exact w → sizes_exact w')).
Proof.
  intros Hw. apply run_bind, run_guard; [done|]. intros _. case_decide; [done|].
  apply run_bind, run_read; [apply parent_is_dir_reads|done|]. intros [] _.
  apply run_bind, run_gets. apply run_bind, run_ok_or; [done|]. intros i Hi.
  apply run_bind. match goal with |- run_ok _ ?m _ _ => assert ((m w).2 = w) as Hread end.
  { destruct (bt_get (clean_path new) (mw_nodes w)); [|done].
    unfold mbind, eff_bind, lock_node, gets. by destruct (_ && _). }
  apply run_read; [done|done|]. intros [] _.
  apply run_bind, run_gets. apply run_bind.
  destruct (Meta.is_dir _) eqn:Hd; apply run_modify, run_recompute; try done;
    (eapply winv_step; [done|done|]).
  - apply rename_dir_inv, Hw.
  - eapply rename_file_inv; [done|done|apply Hw].
Qed.

Lemma link_run fuel old new w : winv w → restructures (MemFs.link fuel old new) w.
Proof.
  intros Hw. apply run_bind, run_guard; [done|]. intros _.
  apply run_bind, run_gets. apply run_bind, run_guard; [done|]. intros _.
  apply run_bind, run_read; [apply parent_is_dir_reads|done|]. intros [] _.
  apply run_bind, run_gets. apply run_bind, run_ok_or; [done|]. intros i Hi.
  apply run_bind, run_gets. apply run_bind, run_guard; [done|]. intros Hd.
  apply run_bind, run_modify, run_recompute; [|done].
  eapply winv_step; [done|done|]. apply insert_inv; [| |apply Hw].
  - eapply mi_live; [apply Hw|done].
  - unfold node_is_dir. by rewrite Hd.
Qed.

Lemma find_run {A} op name w (k : nat → M MemWorld A) Q : winv w →
  (∀ i, bt_get name (mw_nodes w) = Some i → run_ok hs (k i) w Q) →
  run_ok hs (i ← MemFs.find op name; k i) w Q.
Proof. intros Hw Hk. apply run_bind, run_bind, run_gets. by apply run_ok_or. Qed.

Lemma chmod_run name mode w : winv w → keeps (MemFs.chmod name mode) w.
Proof.
  intros Hw. apply find_run; [done|]. intros i Hi. apply run_bind, run_gets.
  assert (∀ n, mw_store w !! i = Some n → node_is_dir (Node.set_mode
    (Z.lor (FileMode.type_bits (m_mode (ni_meta (node_inner w i))))
       (FileMode.from_perm (FileMode.perm mode))) n) = node_is_dir n) as Hd.
  { intros n <-%node_inner_lookup. apply chmod_is_dir. }
  apply run_update; [done| |done|done].
  intros n Hn Hs. unfold size_ok. rewrite Hd by done. exact Hs.
Qed.

Lemma truncate_run name size w : winv w → keeps (MemFs.truncate name size) w.
Proof.
  intros Hw. apply find_run; [done|]. intros i Hi. apply run_bind, run_gets.
  destruct (vec_resize _ _); [|done]. by apply run_set_data.
Qed.

(** Updates that change neither the mode, nor the size, nor the data. *)
Lemma update_field_run op name f w : (∀ n, node_is_dir (f n) = node_is_dir n) →
  (∀ n, size_ok n → size_ok (f n)) → winv w →
  keeps (i ← MemFs.find op name; update_node i f) w.
Proof. intros Hd Hs Hw. apply find_run; [done|]. intros i Hi. apply run_update; auto. Qed.

Lemma remove_xattr_run name attr w : winv w → keeps (MemFs.remove_xattr name attr) w.
Proof.
  intros Hw. apply find_run; [done|]. intros i Hi. apply run_bind, run_gets.
  apply run_bind, run_update; [done|done|done|]. intros w' Hw' _. by apply run_guard.
Qed.

Lemma open_or_create_run fuel name flags w : winv w →
  run_ok hs (open_or_create (MemFs.open fuel) (MemFs.create fuel) name flags) w
    (λ '(h, _) w', handle_ok h w' ∧ winv w').
Proof.
  intros Hw. pose proof (open_run fuel Ctx.new name w Hw) as Ho.
  unfold open_or_create. unfold run_ok, mbind, eff_bind, attempt in *.
  destruct (MemFs.open _ _ _ _) as [[h|e| |] w1]; try done.
  pose proof (create_run fuel name w1 Ho) as Hc. unfold run_ok in Hc.
  destruct (_ && _); [|done]. destruct (MemFs.create _ _ _) as [[] ?]; try done. apply Hc.
Qed.
End Ops.

Lemma close_drop_run {A} hs h w (k : M MemWorld A) Q : handle_ok h w →
  world_inv mem_inv handle_ok hs w →
  (∀ w', world_inv mem_inv handle_ok hs w' → run_ok hs k w' Q) →
  run_ok hs (on_handle h fh_close ;; k) w Q.
Proof.
  intros Hh [Hi Hhs] Hk. apply run_bind, run_on_handle; [apply fh_close_ok| |].
  - split; [done|]. by constructor.
  - intros [] h' w' [Hi' Hf]; try done; inversion Hf; subst; by apply Hk.
Qed.

Lemma append_seek_run hs flags f w : handle_ok f w → world_inv mem_inv handle_ok hs w →
  run_ok hs (if OpenFlags.contains flags OpenFlags.APPEND then
      '(_, file) ← with_handle f (fh_seek (SeekEnd 0)); mret file else mret f) w
    (λ h w', handle_ok h w' ∧ world_inv mem_inv handle_ok hs w').
Proof.
  intros Hf Hw. case_match; [|done].
  apply run_bind, run_bind, run_on_handle; [apply fh_seek_ok| |].
  - destruct Hw. split; [done|]. by constructor.
  - intros r h' w' [Hi' Hh']. inversion Hh'; subst. by destruct r.
Qed.

Lemma open_file_run hs fuel name flags perm w : world_inv mem_inv handle_ok hs w →
  run_ok hs (default_open_file (MemFs.open fuel) (MemFs.create fuel) MemFs.chmod name flags perm) w
    (λ h w', handle_ok h w' ∧ world_inv mem_inv handle_ok hs w').
Proof.
  intros Hw. unfold default_open_file. case_match; [|by apply open_run].
  eapply run_seq; [by apply open_or_create_run|]. intros [file created] w1 [Hf Hw1].
  apply run_seq with (λ h w', handle_ok h w' ∧ world_inv mem_inv handle_ok hs w').
  { case_match; [|done]. apply close_drop_run; [done..|]. intros.
    eapply run_weaken; [by apply create_run|]. by intros ?? [??]. }
  intros f2 w2 [Hf2 Hw2].
  apply run_seq with (λ h w', handle_ok h w' ∧ world_inv mem_inv handle_ok hs w').
  2: { intros ?? [??]. by apply append_seek_run. }
  case_match; [|done]. apply close_drop_run; [done..|]. intros w3 Hw3.
  pose proof (chmod_run hs name perm w3 Hw3) as Hc.
  unfold run_ok in Hc. unfold run_ok, mbind, eff_bind, attempt.
  destruct (MemFs.chmod _ _ _) as [[a|[op path kind|kind|msg]| |] w4]; try done.
  - by apply open_run.
  - destruct kind; try done. by apply open_run.
Qed.

(** ** The laws *)

#[global] Instance memfs_laws fuel :
  FsLaws false mem_inv handle_ok (MemFs.fs fuel) (MemFs.fs fuel).
Proof.
  split; intros; first [apply good_on_of_method; [auto with star9|done]|apply good_of_run];
    intros hs w Hw; cbn [fs_open_file fs_lstat fs_read_dir fs_mkdir fs_remove fs_rename fs_link
      fs_chmod fs_chown fs_chtimes fs_truncate fs_symlink fs_readlink fs_set_xattr fs_get_xattr
      fs_list_xattrs MemFs.fs].
  - by apply open_file_run.
  - apply run_read; [apply stat_reads|done|done].
  - eapply run_weaken; [by apply read_dir_run|done].
  - eapply run_weaken; [by apply mkdir_run|by intros ?? [??]].
  - eapply run_weaken; [by apply remove_run|by intros ?? [??]].
  - eapply run_weaken; [by apply rename_run|by intros ?? [??]].
  - eapply run_weaken; [by apply link_run|by intros ?? [??]].
  - eapply run_weaken; [by apply chmod_run|done].
  - eapply run_weaken; [by apply update_field_run|done].
  - eapply run_weaken; [by apply update_field_run|done].
  - eapply run_weaken; [by apply truncate_run|done].
  - eapply run_weaken; [by apply symlink_run|by intros ?? [??]].
  - apply find_run; [done|]. intros i _. apply run_bind, run_gets. by apply run_bind, run_guard.
  - eapply run_weaken; [by apply update_field_run|done].
  - apply find_run; [done|]. intros i _. apply run_bind, run_gets. by apply run_ok_or.
  - apply find_run; [done|]. intros i _. by apply run_bind, run_gets.
Qed.

(** ** The children of a directory *)

(** The first component of a path below a directory. *)
Definition head_of (rest : string) : string :=
  match split_once "/" rest with Some (head, _) => head | None => rest end.

(** [n] is a child of the directory [p]: some path of the tree goes through it. *)
Definition child_of (p n : string) (nodes : btree string nat) : Prop :=
  ∃ k rest, k ∈ bt_keys nodes ∧ MemFs.below p k = Some rest ∧ head_of rest = n.

Lemma below_inj p k1 k2 rest : MemFs.below p k1 = Some rest → MemFs.below p k2 = Some rest →
  k1 = k2.
Proof.
  unfold MemFs.below. case_decide.
  - repeat case_decide; congruence.
  - intros ->%strip_prefix_Some ->%strip_prefix_Some. done.
Qed.

(** What a key contributes: the name of an immediate child. *)
Definition leaf_name (p : string) (kv : string * nat) : option string :=
  rest ← MemFs.below p kv.1;
  match split_once "/" rest with Some _ => None | None => Some rest end.

Lemma names_fold p kvs ns nd : bt_wf nd →
  let r := foldl (names_step p) (ns, nd) kvs in
  r.1 = ns ++ omap (leaf_name p) kvs ∧ bt_wf r.2 ∧
  ∀ n, n ∈ bt_keys r.2 ↔ n ∈ bt_keys nd ∨ ∃ kv rest below_n,
    kv ∈ kvs ∧ MemFs.below p kv.1 = Some rest ∧ split_once "/" rest = Some (n, below_n).
Proof.
  revert ns nd. induction kvs as [|kv kvs IH]; intros ns nd Hwf; cbn [foldl].
  { split_and!; [by rewrite app_nil_r|done|]. intros n. split; [by left|].
    intros [?|(? & ? & ? & Hin & _)]; [done|]. by apply elem_of_nil in Hin. }
  cbn zeta. set (acc := names_step p (ns, nd) kv).
  assert (acc = match MemFs.below p kv.1 with
    | None => (ns, nd)
    | Some rest => match split_once "/" rest with
        | Some (head, _) => (ns, bt_insert head tt nd) | None => (ns ++ [rest], nd) end
    end) as Hacc by done. clearbody acc.
  change (omap (leaf_name p) (kv :: kvs)) with (match leaf_name p kv with
    | Some y => y :: omap (leaf_name p) kvs | None => omap (leaf_name p) kvs end).
  unfold leaf_name at 1.
  destruct (MemFs.below p kv.1) as [rest|] eqn:Hb; cbn -[omap leaf_name] in *; subst acc.
  - destruct (split_once "/" rest) as [[head tl]|] eqn:Hs.
    + destruct (IH ns (bt_insert head tt nd) ltac:(by apply bt_insert_wf)) as (E & Hw & Hk).
      split_and!; [done|done|]. intros n. rewrite Hk, bt_keys_insert. split.
      * intros [[->|?]|(kv' & r' & t' & ? & ? & ?)]; [right|by left|right].
        -- exists kv, rest, tl. split_and!; [by left|done|done].
        -- exists kv', r', t'. split_and!; [by right|done|done].
      * intros [?|(kv' & r' & t' & [->|?]%elem_of_cons & ? & ?)]; [by left; right| |].
        -- left. left. congruence.
        -- right. eauto 6.
    + destruct (IH (ns ++ [rest]) nd Hwf) as (E & Hw & Hk).
      split_and!; [by rewrite E, <- app_assoc|done|]. intros n. rewrite Hk. split.
      * intros [?|(kv' & r' & t' & ? & ? & ?)]; [by left|right].
        exists kv', r', t'. split_and!; [by right|done|done].
      * intros [?|(kv' & r' & t' & [->|?]%elem_of_cons & ? & ?)]; [by left|congruence|].
        right. eauto 6.
  - destruct (IH ns nd Hwf) as (E & Hw & Hk). split_and!; [done|done|].
    intros n. rewrite Hk. split.
    + intros [?|(kv' & r' & t' & ? & ? & ?)]; [by left|right].
      exists kv', r', t'. split_and!; [by right|done|done].
    + intros [?|(kv' & r' & t' & [->|?]%elem_of_cons & ? & ?)]; [by left|congruence|].
      right. eauto 6.
Qed.

Lemma remove_all_keys (ns : list string) (nd : btree string unit) : bt_wf nd →
  let r := foldl (λ need e, bt_remove e need) nd ns in
  bt_wf r ∧ ∀ n, n ∈ bt_keys r ↔ n ∈ bt_keys nd ∧ n ∉ ns.
Proof.
  revert nd. induction ns as [|e ns IH]; intros nd Hwf; cbn.
  { split; [done|]. intros n. split; [|tauto]. intros Hn. split; [done|apply not_elem_of_nil]. }
  destruct (IH (bt_remove e nd)) as [Hw Hk]; [by apply bt_remove_wf|].
  split; [done|]. intros n. rewrite Hk, !bt_keys_get, bt_get_remove, not_elem_of_cons.
  case_decide; subst; [|tauto]. split; [intros [[? [=]] _]|tauto].
Qed.

(** [children_for] finds every child once. *)
Lemma child_names_spec p nodes : bt_wf nodes →
  let '(es, need) := child_names p nodes in
  NoDup (es ++ need) ∧ ∀ n, n ∈ es ++ need ↔ child_of p n nodes.
Proof.
  intros Hwf. unfold child_names.
  destruct (names_fold p nodes [] [] ltac:(constructor)) as (E & Hw & Hk).
  destruct (foldl (names_step p) ([], []) nodes) as [es nd]. cbn [fst snd] in *.
  destruct (remove_all_keys es nd Hw) as [Hw' Hk'].
  set (need := bt_keys _) in *. subst es.
  assert (∀ n, n ∈ omap (leaf_name p) nodes ↔
    ∃ kv, kv ∈ nodes ∧ MemFs.below p kv.1 = Some n ∧ split_once "/" n = None) as Hleaf.
  { intros n. rewrite list_elem_of_omap. unfold leaf_name. split.
    - intros (kv & Hin & (rest & Hb & Hs)%bind_Some). destruct (split_once "/" rest) eqn:?; [done|].
      simplify_eq. eauto.
    - intros (kv & Hin & Hb & Hs). exists kv. split; [done|]. rewrite Hb. cbn. by rewrite Hs. }
  split.
  - apply NoDup_app. split_and!.
    + clear -Hwf. induction nodes as [|[k v] m IH]; [constructor|].
      pose proof (bt_wf_notin _ _ _ Hwf) as Hn. apply bt_wf_cons in Hwf as [Hwf _].
      cbn. destruct (leaf_name p (k, v)) as [n|] eqn:Hl; [|by apply IH].
      constructor; [|by apply IH]. intros ([k' v'] & Hin & Hl')%list_elem_of_omap.
      unfold leaf_name in Hl, Hl'. cbn in Hl, Hl'.
      destruct (MemFs.below p k) as [r|] eqn:E1; [|done].
      destruct (MemFs.below p k') as [r'|] eqn:E2; [|done]. cbn in *.
      destruct (split_once "/" r); [done|]. destruct (split_once "/" r'); [done|]. simplify_eq.
      assert (k = k') as -> by (by eapply below_inj). apply Hn.
      apply list_elem_of_fmap. by exists (k', v').
    + intros n Hn. unfold need. rewrite Hk'. tauto.
    + unfold need. by apply bt_keys_nodup.
  - intros n. rewrite elem_of_app. unfold need. rewrite Hk', Hk. split.
    + intros [(kv & Hin & Hb & Hs)%Hleaf|[[Hn|(kv & rest & t & Hin & Hb & Hs)] _]].
      * exists kv.1, n. split_and!; [by apply list_elem_of_fmap_2|done|].
        unfold head_of. by rewrite Hs.
      * by apply elem_of_nil in Hn.
      * exists kv.1, rest. split_and!; [by apply list_elem_of_fmap_2|done|].
        unfold head_of. by rewrite Hs.
    + intros (k & rest & ([k' v] & -> & Hin)%list_elem_of_fmap & Hb & Hh). unfold head_of in Hh.
      destruct (split_once "/" rest) as [[head t]|] eqn:Hs.
      * subst head. destruct (decide (n ∈ omap (leaf_name p) nodes)); [by left|right].
        split; [|done]. right. by exists (k', v), rest, t.
      * subst rest. left. apply Hleaf. by exists (k', v).
Qed.

(** ** New filesystems *)

Lemma new_inv clock : mem_inv (MemFs.new clock).
Proof.
  split; cbn.
  - repeat constructor.
  - intros p i. case_decide; [|done]. intros [= <-]. lia.
  - intros [|i] n; cbn; [|done]. by intros [= <-].
  - intros p q i. repeat case_decide; try done. by subst.
Qed.

(** A computation that always succeeds and keeps the invariant. *)
Definition succeeds (m : M MemWorld unit) : Prop :=
  ∀ w, mem_inv w → ∃ w', m w = (Ok tt, w') ∧ mem_inv w'.

Lemma succeeds_seq m k : succeeds m → succeeds k → succeeds (m ;; k).
Proof.
  intros Hm Hk w Hw. destruct (Hm w Hw) as (w1 & Hrun & Hw1).
  rewrite (eff_bind_Ok _ _ _ _ _ Hrun). by apply Hk.
Qed.

Lemma succeeds_for_each {A} (f : A → M MemWorld unit) l :
  (∀ x, succeeds (f x)) → succeeds (for_each f l).
Proof.
  intros Hf. induction l as [|x l IH]; [by intros w Hw; exists w|].
  by apply succeeds_seq.
Qed.

Lemma succeeds_add name n : size_ok n → succeeds (i ← alloc_node n; MemFs.insert name i).
Proof. intros Hn w Hw. eexists. split; [done|]. exact (alloc_insert_inv name n w Hn Hw). Qed.

Lemma from_entries_inv entries clock :
  let w := (MemFs.from_entries entries (MemFs.new clock)).2 in mem_inv w ∧ sizes_exact w.
Proof.
  cbn zeta. set (loop := for_each (λ '(name, data),
    let name := clean_path name in
    MemFs.ensure_parent_dirs name ;;
    i ← alloc_node (Node.file (base_name name) data (FileMode.from_perm 420));
    MemFs.insert name i) entries).
  assert (succeeds loop) as Hloop.
  { apply succeeds_for_each. intros [name data]. apply succeeds_seq.
    - apply succeeds_for_each. intros dir w Hw.
      unfold MemFs.node, mbind at 1, eff_bind at 1, gets.
      destruct (bt_get dir (mw_nodes w)); [by exists w|]. by apply succeeds_add.
    - by apply succeeds_add. }
  destruct (Hloop (MemFs.new clock) (new_inv clock)) as (w1 & Hrun & Hw1).
  destruct (recompute_spec w1 Hw1) as (w2 & Hrec & Hr & Hs).
  change (MemFs.from_entries entries) with (loop ;; MemFs.recompute_dir_sizes).
  rewrite (eff_bind_Ok _ _ _ _ _ Hrun), Hrec. split; [by eapply resized_inv|done].
Qed.
