(* ===== verification/MemFsProps.v ===== *)
(** * Properties of the in-memory filesystem

    Whole-file writes and reads, hard links, renames, directory listings and the
    sizes directories record. *)

From stdpp Require Import base list numbers option strings sorting.
From Stdlib Require Import ZArith Lia Ascii.
From S2P Require Import Prelude Strs BTree Core FsTrait FsLaws MemFs MemFsFacts.

Local Open Scope Z_scope.

(** ** Definitions used by the statements *)

Definition regular (n : NodeInner) : bool :=
  negb (node_is_dir n) && negb (FileMode.is_symlink (m_mode (ni_meta n))).

(** The path [name] leads to node [i], a regular file that holds [data]. *)
Definition file_at (w : MemWorld) (name : string) (i : nat) (data : list byte) : Prop :=
  bt_get name (mw_nodes w) = Some i ∧ (i < length (mw_store w))%nat ∧
  regular (node_inner w i) = true ∧ ni_data (node_inner w i) = data.

(** Nothing is at [name], nor below it. *)
Definition absent (w : MemWorld) (name : string) : Prop :=
  bt_get name (mw_nodes w) = None ∧ (child_names name (mw_nodes w)) = ([], []).

(** The parent of [name] is the root or a directory of the tree. *)
Definition parent_ok (w : MemWorld) (name : string) : Prop :=
  parent_path name = "." ∨
  ∃ i, bt_get (parent_path name) (mw_nodes w) = Some i ∧
    node_is_dir (node_inner w i) = true ∧
    FileMode.is_symlink (m_mode (ni_meta (node_inner w i))) = false.

(** Every path but [name] leads where it led, to the same contents. *)
Definition same_elsewhere (name : string) (w w' : MemWorld) : Prop :=
  ∀ p, p ≠ name → bt_get p (mw_nodes w') = bt_get p (mw_nodes w) ∧
    ∀ i, bt_get p (mw_nodes w) = Some i →
      ni_data (node_inner w' i) = ni_data (node_inner w i).

(** The operations that change the shape of the tree. *)
Inductive TreeOp :=
| OpCreate (name : string) | OpMkdir (name : string) (perm : Z) | OpRemove (name : string)
| OpRename (old new : string) | OpLink (old new : string) | OpSymlink (target name : string).

Definition tree_op (fuel : nat) (op : TreeOp) : M MemWorld unit :=
  match op with
  | OpCreate name => MemFs.create fuel name ;; mret tt
  | OpMkdir name perm => MemFs.mkdir fuel name perm
  | OpRemove name => MemFs.remove fuel name
  | OpRename old new => MemFs.rename fuel old new
  | OpLink old new => MemFs.link fuel old new
  | OpSymlink target name => MemFs.symlink fuel target name
  end.

(** A small tree: a directory [d] with the files [d/a] and [d/b], and a file [x]. *)
Definition sample_clock (n : nat) : Z := 1000 + Z.of_nat n.

Definition sample : MemWorld :=
  (MemFs.from_entries [("d/a", [x01; x02]); ("d/b", [x03]); ("x", [])]
    (MemFs.new sample_clock)).2.

#[local] Arguments MemFs.create : simpl never.
#[local] Arguments MemFs.chmod : simpl never.

(** ** One step at a time *)

Lemma is_symlink_testbit m : FileMode.is_symlink m = Z.testbit m 30.
Proof.
  unfold FileMode.is_symlink, FileMode.contains, FileMode.SYMLINK.
  change 1073741824 with (2 ^ 30). destruct (Z.testbit m 30) eqn:Hb.
  - apply Z.eqb_eq, Z.bits_inj'. intros n Hn. rewrite Z.land_spec, Z.pow2_bits_eqb by lia.
    destruct (Z.eqb_spec 30 n) as [<-|]; [by rewrite Hb|apply andb_false_r].
  - apply Z.eqb_neq. intros Heq. apply (f_equal (λ z, Z.testbit z 30)) in Heq.
    rewrite Z.land_spec, Z.pow2_bits_true, Hb in Heq by lia. done.
Qed.

Lemma chmod_is_symlink m p :
  FileMode.is_symlink (Z.lor (FileMode.type_bits m) (FileMode.from_perm p)) =
    FileMode.is_symlink m.
Proof.
  rewrite !is_symlink_testbit, Z.lor_spec. unfold FileMode.type_bits, FileMode.from_perm.
  rewrite !Z.land_spec. change (Z.testbit (not_u32 FileMode.PERM_MASK) 30) with true.
  change (Z.testbit FileMode.PERM_MASK 30) with false.
  by rewrite andb_true_r, andb_false_r, orb_false_r.
Qed.

Lemma regular_inv n : regular n = true →
  Meta.is_dir (ni_meta n) = false ∧ FileMode.is_symlink (m_mode (ni_meta n)) = false.
Proof. unfold regular, node_is_dir. intros. by bool_to_prop. Qed.

Lemma same_elsewhere_refl name w : same_elsewhere name w w.
Proof. done. Qed.

Lemma same_elsewhere_trans name w1 w2 w3 :
  same_elsewhere name w1 w2 → same_elsewhere name w2 w3 → same_elsewhere name w1 w3.
Proof.
  intros H12 H23 p Hp. destruct (H12 p Hp) as [E1 D1], (H23 p Hp) as [E2 D2].
  split; [congruence|]. intros i Hi. rewrite D2 by congruence. auto.
Qed.

(** Changing the node at [name] in a way that keeps the data, or when no other path
    leads to it. *)
Lemma update_elsewhere name i f w :
  (∀ n, ni_data (f n) = ni_data n) ∨ (∀ p, bt_get p (mw_nodes w) = Some i → p = name) →
  same_elsewhere name w (set_store (alter f i (mw_store w)) w).
Proof.
  intros Hf p Hp. split; [done|]. intros j Hj. unfold node_inner. cbn.
  destruct (decide (i < length (mw_store w))%nat).
  - rewrite inner_of_alter by done. case_decide; [subst|done].
    destruct Hf as [Hf|Hf]; [apply Hf|]. by destruct (Hp (Hf p Hj)).
  - by rewrite alter_dead by lia.
Qed.

Lemma update_file_at name i data data' f w :
  file_at w name i data → regular (f (node_inner w i)) = true →
  ni_data (f (node_inner w i)) = data' →
  file_at (set_store (alter f i (mw_store w)) w) name i data'.
Proof.
  intros (Hn & Hl & Hr & Hd) Hf <-. unfold file_at, node_inner in *. cbn.
  by rewrite length_alter, inner_of_alter, decide_True.
Qed.

Lemma open_file_at fuel ctx name i data w : valid_path name = true → file_at w name i data →
  ∃ meta w', MemFs.open (S fuel) ctx name w =
      (Ok (HNode (mkNodeFile i meta data 0 false false)), w') ∧
    FileMode.is_dir (m_mode meta) = false ∧
    file_at w' name i data ∧ same_elsewhere name w w' ∧ mw_nodes w' = mw_nodes w ∧
    ∀ k, k ≠ i → node_inner w' k = node_inner w k.
Proof.
  intros Hv Hf. pose proof Hf as (Hn & Hl & Hr & Hd).
  pose proof (regular_inv _ Hr) as [Hdir Hsym].
  set (f := Node.set_name (base_name name)).
  assert (file_at (set_store (alter f i (mw_store w)) w) name i data) as Hf'.
  { by apply (update_file_at _ _ data). }
  exists (ni_meta (f (node_inner w i))), (set_store (alter f i (mw_store w)) w).
  split_and!; [|done|done| |done|].
  - cbn [MemFs.open]. rewrite Hv, clean_path_id by done. cbn [negb].
    unfold MemFs.node, lock_node, node_open, update_node, mbind, eff_bind, gets, modify.
    rewrite Hn. rewrite Hsym, andb_false_r, Hdir. cbn [negb].
    destruct Hf' as (_ & _ & _ & Hd'). unfold lock_node, gets, mret, eff_ret, f in *.
    rewrite Hd'. unfold node_inner. cbn.
    by rewrite inner_of_alter, decide_True.
  - apply update_elsewhere. by left.
  - intros k Hk. unfold node_inner. cbn. rewrite inner_of_alter by done. by rewrite decide_False.
Qed.

Lemma stat_dir fuel ctx name i w : valid_path name = true →
  bt_get name (mw_nodes w) = Some i →
  FileMode.is_symlink (m_mode (ni_meta (node_inner w i))) = false →
  MemFs.stat (S fuel) ctx name w = (Ok (ni_meta (node_inner w i)), w).
Proof.
  intros Hv Hi Hs. cbn [MemFs.stat]. rewrite Hv, clean_path_id by done. cbn [negb].
  unfold MemFs.node, lock_node, mbind, eff_bind, gets. rewrite Hi. cbn.
  by rewrite Hs, andb_false_r.
Qed.

Lemma parent_exists_ok fuel op name w : parent_ok w name →
  MemFs.parent_exists (S fuel) op name w = (Ok tt, w).
Proof.
  unfold MemFs.parent_exists. intros Hp. case_decide as Hd; [done|].
  destruct Hp as [?|(i & Hi & _ & Hs)]; [done|].
  unfold MemFs.exists_self, exists_with, attempt, mbind, eff_bind.
  erewrite stat_dir by (done || apply parent_path_valid). done.
Qed.

Lemma parent_is_dir_ok fuel op name w : parent_ok w name →
  MemFs.parent_is_dir (S fuel) op name w = (Ok tt, w).
Proof.
  unfold MemFs.parent_is_dir. intros Hp. case_decide as Hd; [done|].
  destruct Hp as [?|(i & Hi & Hdir & Hs)]; [done|].
  unfold MemFs.is_dir_or_false, MemFs.is_dir_self, attempt, mbind, eff_bind.
  erewrite stat_dir by (done || apply parent_path_valid). cbn.
  unfold node_is_dir in Hdir. by rewrite Hdir.
Qed.

(** What recomputing the sizes keeps. *)
Lemma resized_data w w' i : resized w w' → ni_data (node_inner w' i) = ni_data (node_inner w i).
Proof. intros Hr. by destruct (rs_dir _ _ Hr i) as [s ->]. Qed.

Lemma resized_elsewhere name w w' : resized w w' → same_elsewhere name w w'.
Proof.
  intros Hr p _. rewrite (rs_nodes _ _ Hr). split; [done|]. intros i _. by apply resized_data.
Qed.

Lemma resized_file_at name i data w w' : resized w w' → file_at w name i data →
  file_at w' name i data.
Proof.
  intros Hr (Hn & Hl & Hreg & Hd). unfold file_at.
  rewrite (rs_nodes _ _ Hr), (rs_length _ _ Hr), (rs_file _ _ Hr); [done|].
  by apply regular_inv in Hreg as [? _].
Qed.

(** Only [name] leads to node [i]. *)
Definition private (w : MemWorld) (name : string) (i : nat) : Prop :=
  ∀ p, bt_get p (mw_nodes w) = Some i → p = name.

Lemma create_ok fuel name w : mem_inv w → valid_path name = true → parent_ok w name →
  ∃ i meta w', MemFs.create (S fuel) name w =
      (Ok (HNode (mkNodeFile i meta [] 0 false false)), w') ∧
    FileMode.is_dir (m_mode meta) = false ∧
    file_at w' name i [] ∧ private w' name i ∧ same_elsewhere name w w' ∧ mem_inv w'.
Proof.
  intros Hinv Hv Hp. unfold MemFs.create. rewrite clean_path_id, Hv by done. cbn [negb].
  set (n := Node.file (base_name name) [] (FileMode.from_perm 420)).
  set (i := length (mw_store w)).
  set (w1 := set_nodes (bt_insert name i (mw_nodes w)) (set_store (mw_store w ++ [n]) w)).
  assert (mem_inv w1) as Hinv1 by (by apply alloc_insert_inv).
  destruct (recompute_spec w1 Hinv1) as (w2 & Hrun & Hr & _).
  assert (node_inner w1 i = n) as Hn.
  { unfold node_inner. cbn. rewrite inner_of_app. by rewrite decide_True. }
  assert (file_at w1 name i []) as Hf.
  { unfold file_at. rewrite Hn. cbn. rewrite bt_get_insert_eq, length_app. cbn. split_and!; [done| |done..].
    unfold i. lia. }
  assert (mw_nodes w2 = bt_insert name i (mw_nodes w)) as Hn2 by apply (rs_nodes _ _ Hr).
  assert (node_inner w2 i = n) as Hni.
  { rewrite (rs_file _ _ Hr); [done|]. by rewrite Hn. }
  exists i, (ni_meta n), w2. split_and!.
  - rewrite (eff_bind_Ok _ _ _ tt w) by done.
    rewrite (eff_bind_Ok _ _ _ tt w) by (by apply parent_exists_ok).
    rewrite (eff_bind_Ok _ _ _ i (set_store (mw_store w ++ [n]) w)) by done.
    rewrite (eff_bind_Ok _ _ _ tt w1) by done.
    rewrite (eff_bind_Ok _ _ _ tt w2) by done.
    unfold node_open, lock_node, mbind, eff_bind, gets. by rewrite Hni.
  - done.
  - by eapply resized_file_at.
  - intros p. rewrite Hn2, bt_get_insert. case_decide; [done|].
    intros Hl%(mi_live _ Hinv). unfold i in Hl. lia.
  - eapply same_elsewhere_trans; [|by apply resized_elsewhere].
    intros p Hne. cbn. rewrite bt_get_insert_ne by done. split; [done|].
    intros j Hj%(mi_live _ Hinv). unfold node_inner. cbn. rewrite inner_of_app.
    rewrite decide_False by lia. done.
  - by eapply resized_inv.
Qed.

Lemma chmod_file_at name i data mode w : valid_path name = true → file_at w name i data →
  ∃ w', MemFs.chmod name mode w = (Ok tt, w') ∧ file_at w' name i data ∧
    same_elsewhere name w w' ∧ mw_nodes w' = mw_nodes w.
Proof.
  intros Hv Hf. pose proof Hf as (Hn & Hl & Hr & Hd). eexists. split_and!.
  - unfold MemFs.chmod, MemFs.find, MemFs.node, mbind, eff_bind, gets, lock_node, update_node, modify.
    rewrite clean_path_id, Hn by done. cbn. reflexivity.
  - apply (update_file_at _ _ data); [done| |done].
    apply regular_inv in Hr as [H1 H2]. unfold regular, node_is_dir, Meta.is_dir in *. cbn.
    by rewrite chmod_is_dir, chmod_is_symlink, H1, H2.
  - apply update_elsewhere. by left.
  - done.
Qed.

Lemma node_write_end i meta d data w : FileMode.is_dir (m_mode meta) = false →
  blen d + blen data ≤ ISIZE_MAX →
  ∃ meta', node_write data (mkNodeFile i meta d (blen d) false false, w) =
    (Ok (blen data), (mkNodeFile i meta' (d ++ data) (blen d + blen data) true false,
      (current_time w).2)).
Proof.
  intros Hd Hlen. unfold node_write. cbn [nf_closed nf_meta nf_data nf_offset nf_node].
  rewrite Hd. rewrite Z.ltb_irrefl.
  assert (0 ≤ blen d ∧ 0 ≤ blen data) as [? ?] by (unfold blen; lia).
  rewrite Z.min_l by (unfold USIZE_MAX, U64_MAX, ISIZE_MAX, I64_MAX in *; lia).
  cbn [mbind option_bind].
  assert ((if blen d <? blen d + blen data then vec_resize d (blen d + blen data) else Some d) =
    Some (d ++ replicate (length data) x00)) as ->.
  { unfold vec_resize. destruct (Z.ltb_spec (blen d) (blen d + blen data)).
    - rewrite (proj2 (Z.leb_le _ _)) by done. rewrite resize_ge by (unfold blen; lia).
      do 3 f_equal. unfold blen. lia.
    - assert (length data = 0%nat) as -> by (unfold blen in *; lia). by rewrite app_nil_r. }
  eexists. cbn. rewrite take_app_length' by (unfold blen; lia).
  rewrite drop_ge by (rewrite length_app, length_replicate; unfold blen; lia).
  by rewrite app_nil_r.
Qed.

Definition write_and_close (h : MemHandle) (data : list byte) : M MemWorld unit :=
  '(_, h) ← with_handle h (fh_write data);
  with_handle h fh_close ;;
  mret tt.

Lemma write_and_close_ok name i meta d data w : FileMode.is_dir (m_mode meta) = false →
  blen d + blen data ≤ ISIZE_MAX → file_at w name i d →
  ∃ w', write_and_close (HNode (mkNodeFile i meta d (blen d) false false)) data w = (Ok tt, w') ∧
    file_at w' name i (d ++ data) ∧ (private w name i → same_elsewhere name w w') ∧
    mw_nodes w' = mw_nodes w.
Proof.
  intros Hd Hlen Hf. destruct (node_write_end i meta d data w Hd Hlen) as [meta' Hw].
  set (w1 := (current_time w).2) in *.
  set (now := mw_times w1 0%nat). set (f := Node.set_data (d ++ data) now).
  set (w2 := (current_time w1).2).
  exists (set_store (alter f i (mw_store w2)) w2).
  assert (file_at w2 name i d) as Hf2 by exact Hf. split_and!.
  - assert (on_handle (HNode (mkNodeFile i meta d (blen d) false false)) (fh_write data) w =
      (Ok (Ok (blen data),
         HNode (mkNodeFile i meta' (d ++ data) (blen d + blen data) true false)), w1)) as H1.
    { unfold on_handle, fh_write, mem_handle, mem_method. by rewrite Hw. }
    unfold write_and_close, with_handle, mbind, eff_bind, lift. by rewrite H1.
  - apply (update_file_at _ _ d); [done| |done].
    destruct Hf2 as (_ & _ & Hr & _). exact Hr.
  - intros Hp. exact (update_elsewhere name i f w2 (or_intror Hp)).
  - done.
Qed.

(** Reading a whole file through a handle. *)
Lemma read_loop_ok fuel out i meta d off w : FileMode.is_dir (m_mode meta) = false →
  0 ≤ off ≤ blen d → blen d - off < 8192 * Z.of_nat fuel →
  read_loop (S fuel) out (HNode (mkNodeFile i meta d off false false)) w =
    (Ok (out ++ drop (Z.to_nat off) d, HNode (mkNodeFile i meta d (blen d) false false)), w).
Proof.
  intros Hd. revert out off. induction fuel as [|fuel IH]; intros out off Hoff Hfuel; [lia|].
  set (m := S fuel) in *. cbn [read_loop].
  unfold on_handle, fh_read, mem_handle, mem_method, node_read, mbind, eff_bind.
  cbn [nf_closed nf_meta nf_data nf_offset]. rewrite Hd.
  destruct (Z.leb_spec (blen d) off) as [Hge|Hlt].
  { assert (off = blen d) as -> by lia. cbn.
    rewrite drop_ge, app_nil_r by (unfold blen; lia). done. }
  set (n := Z.min 8192 (blen d - off)).
  assert (0 < n ≤ blen d - off) as Hn by lia.
  destruct (take (Z.to_nat n) (drop (Z.to_nat off) d)) as [|b bs] eqn:Htake.
  { apply (f_equal length) in Htake. rewrite length_take, length_drop in Htake. cbn in Htake.
    unfold blen in *. lia. }
  rewrite <- Htake. unfold nf_set_offset. cbn [nf_node nf_meta nf_data nf_dirty nf_closed].
  destruct (decide (n = blen d - off)) as [He|He].
  - unfold m. assert (off + n = blen d) as -> by lia.
    assert (take (Z.to_nat n) (drop (Z.to_nat off) d) = drop (Z.to_nat off) d) as ->.
    { apply take_ge. rewrite length_drop. unfold blen in *. lia. }
    cbn [read_loop]. unfold on_handle, fh_read, mem_handle, mem_method, node_read, mbind, eff_bind.
    cbn [nf_closed nf_meta nf_data nf_offset]. rewrite Hd, Z.leb_refl. done.
  - assert (n = 8192) as Hn8 by lia. unfold m. rewrite IH; [|lia|lia].
    rewrite <- app_assoc. do 4 f_equal.
    rewrite Z2Nat.inj_add, <- drop_drop by lia. apply take_drop.
Qed.

Lemma read_file_ok fuel rfuel name i data w : valid_path name = true → file_at w name i data →
  blen data < 8192 * Z.of_nat rfuel →
  (read_file (MemFs.fs (S fuel)) (S rfuel) name w).1 = Ok data.
Proof.
  intros Hv Hf Hfuel. unfold read_file, open_path, fs_open, MemFs.fs.
  destruct (open_file_at fuel (Ctx.with_origin name "open" Ctx.new) name i data w Hv Hf)
    as (meta & w1 & Ho & Hd & _).
  rewrite (eff_bind_Ok _ _ _ _ _ Ho).
  assert (0 ≤ blen data) by (unfold blen; lia).
  rewrite (eff_bind_Ok _ _ _ _ _
    (read_loop_ok rfuel [] i meta data 0 w1 Hd ltac:(lia) ltac:(lia))).
  done.
Qed.

(** ** Opening for writing *)

Lemma open_absent fuel ctx name w : valid_path name = true → name ≠ "." → absent w name →
  MemFs.open (S fuel) ctx name w = (Err (EPath "open" name NotFound), w).
Proof.
  intros Hv Hne [Hn Hc]. cbn [MemFs.open]. rewrite Hv, clean_path_id by done. cbn [negb].
  unfold MemFs.node, MemFs.open_dir, mbind, eff_bind, gets. rewrite Hn.
  rewrite children_names in Hc. destruct (MemFs.children_for name w) as [es need].
  cbn in Hc. injection Hc as Hes ->. apply fmap_nil_inv in Hes as ->.
  by rewrite (bool_decide_false (name = ".")).
Qed.

Lemma open_keeps_inv fuel ctx name w h w' : mem_inv w →
  MemFs.open fuel ctx name w = (Ok h, w') → mem_inv w'.
Proof.
  intros Hi Ho. pose proof (open_run [] fuel ctx name w (conj Hi (List.Forall_nil _))) as Hr.
  unfold run_ok in Hr. rewrite Ho in Hr. apply Hr.
Qed.

(** The file is new or, through [TRUNC], made new. *)
Lemma open_or_create_fresh fuel name flags w :
  OpenFlags.contains flags OpenFlags.CREATE = true →
  OpenFlags.contains flags OpenFlags.TRUNC = true →
  mem_inv w → valid_path name = true → name ≠ "." → parent_ok w name →
  (absent w name ∨ ∃ i d, file_at w name i d) →
  ∃ i meta w', ('(file, created) ← open_or_create (MemFs.open (S fuel)) (MemFs.create (S fuel)) name flags;
      (if OpenFlags.contains flags OpenFlags.TRUNC && negb created then
         on_handle file fh_close ;; MemFs.create (S fuel) name
       else mret file)) w =
      (Ok (HNode (mkNodeFile i meta [] 0 false false)), w') ∧
    FileMode.is_dir (m_mode meta) = false ∧
    file_at w' name i [] ∧ private w' name i ∧ same_elsewhere name w w'.
Proof.
  intros Hc Ht Hinv Hv Hne Hp [Ha|(j & d & Hf)].
  - destruct (create_ok fuel name w Hinv Hv Hp) as (i & meta & w' & Hrun & Hd & Hf & Hpr & Hs & _).
    exists i, meta, w'. split_and!; try done.
    unfold open_or_create, attempt, mbind, eff_bind. rewrite open_absent by done.
    rewrite Hc. change (kind_is NotFound (EPath "open" name NotFound)) with true.
    cbn -[MemFs.create]. rewrite Hrun. cbn. by rewrite Ht.
  - destruct (open_file_at fuel Ctx.new name j d w Hv Hf) as (m1 & w1 & Ho & Hd1 & Hf1 & Hs1 & Hn1 & Hk1).
    assert (mem_inv w1) as Hinv1 by (by eapply open_keeps_inv).
    assert (parent_ok w1 name) as Hp1.
    { destruct Hp as [?|(k & Hk & Hkd & Hks)]; [by left|right]. exists k.
      unfold parent_ok. rewrite Hn1. split; [done|].
      assert (k ≠ j) as Hkj.
      { intros ->. destruct Hf as (_ & _ & Hr & _). apply regular_inv in Hr as [Hr _].
        unfold node_is_dir in Hkd. congruence. }
      by rewrite Hk1. }
    destruct (create_ok fuel name w1 Hinv1 Hv Hp1) as (i & meta & w' & Hrun & Hd & Hf' & Hpr & Hs & _).
    exists i, meta, w'. split_and!; try done; [|by eapply same_elsewhere_trans].
    unfold open_or_create, attempt, mbind, eff_bind. rewrite Ho. cbn -[MemFs.create]. rewrite Ht. cbn -[MemFs.create].
    exact Hrun.
Qed.

(** The part of [open_file] that applies the permissions. *)
Lemma apply_perm_ok fuel name perm i meta d w : valid_path name = true →
  FileMode.is_dir (m_mode meta) = false → file_at w name i d →
  ∃ meta' w', (if negb (perm =? 0) then
      on_handle (HNode (mkNodeFile i meta d 0 false false)) fh_close ;;
      r ← attempt (MemFs.chmod name perm);
      match r with
      | Ok _ | Err (EKind NotSupported) => MemFs.open (S fuel) Ctx.new name
      | Err e => throw e
      | Panic => panic
      | NoFuel => no_fuel
      end
    else mret (HNode (mkNodeFile i meta d 0 false false))) w =
      (Ok (HNode (mkNodeFile i meta' d 0 false false)), w') ∧
    FileMode.is_dir (m_mode meta') = false ∧
    file_at w' name i d ∧ same_elsewhere name w w' ∧ mw_nodes w' = mw_nodes w.
Proof.
  intros Hv Hd Hf. destruct (negb (perm =? 0)); [|by exists meta, w].
  destruct (chmod_file_at name i d perm w Hv Hf) as (w1 & Hc & Hf1 & Hs1 & Hn1).
  destruct (open_file_at fuel Ctx.new name i d w1 Hv Hf1) as (m2 & w2 & Ho & Hd2 & Hf2 & Hs2 & Hn2 & _).
  exists m2, w2. split_and!; [|done|done|by eapply same_elsewhere_trans|congruence].
  rewrite (eff_bind_Ok _ _ _ (Ok tt, HNode (mkNodeFile i meta d 0 false true)) w) by done.
  rewrite (eff_bind_Ok _ _ _ (Ok tt) w1) by (unfold attempt; by rewrite Hc).
  exact Ho.
Qed.

(** ** Linking and appending *)

Lemma file_at_path name name' i d w : file_at w name i d →
  bt_get name' (mw_nodes w) = Some i → file_at w name' i d.
Proof. unfold file_at. tauto. Qed.

Lemma link_ok fuel old new i d w : mem_inv w → valid_path old = true → valid_path new = true →
  file_at w old i d → bt_get new (mw_nodes w) = None → parent_ok w new →
  ∃ w', MemFs.link (S fuel) old new w = (Ok tt, w') ∧
    file_at w' old i d ∧ file_at w' new i d.
Proof.
  intros Hinv Hvo Hvn Hf Hnone Hp. pose proof Hf as (Ho & Hl & Hr & Hd).
  pose proof (regular_inv _ Hr) as [Hdir _].
  set (w1 := set_nodes (bt_insert new i (mw_nodes w)) w).
  assert (mem_inv w1) as Hinv1.
  { apply insert_inv; [done| |done]. unfold node_is_dir. by rewrite Hdir. }
  destruct (recompute_spec w1 Hinv1) as (w2 & Hrun & Hrs & _).
  assert (old ≠ new) as Hne by (intros ->; congruence).
  exists w2. split_and!.
  - unfold MemFs.link. rewrite !clean_path_id, Hvo, Hvn by done.
    rewrite (eff_bind_Ok _ _ _ tt w) by done.
    rewrite (eff_bind_Ok _ _ _ (bt_get new (mw_nodes w)) w) by done. rewrite Hnone.
    rewrite (eff_bind_Ok _ _ _ tt w) by done.
    rewrite (eff_bind_Ok _ _ _ tt w) by (by apply parent_is_dir_ok).
    rewrite (eff_bind_Ok _ _ _ (bt_get old (mw_nodes w)) w) by done. rewrite Ho.
    rewrite (eff_bind_Ok _ _ _ i w) by done.
    rewrite (eff_bind_Ok _ _ _ (node_inner w i) w) by done. rewrite Hdir.
    rewrite (eff_bind_Ok _ _ _ tt w) by done.
    rewrite (eff_bind_Ok _ _ _ tt w1) by done. exact Hrun.
  - eapply resized_file_at; [done|]. unfold file_at. cbn. by rewrite bt_get_insert_ne.
  - eapply resized_file_at; [done|]. unfold file_at. cbn. by rewrite bt_get_insert_eq.
Qed.

Lemma append_file_ok fuel name i d data w : valid_path name = true → file_at w name i d →
  blen d + blen data ≤ ISIZE_MAX →
  ∃ w', append_file (MemFs.fs (S fuel)) name data w = (Ok tt, w') ∧
    file_at w' name i (d ++ data) ∧ mw_nodes w' = mw_nodes w.
Proof.
  intros Hv Hf Hlen. unfold append_file, fs_open_file, MemFs.fs, default_open_file.
  set (flags := Z.lor (Z.lor OpenFlags.WRONLY OpenFlags.CREATE) OpenFlags.APPEND).
  change (OpenFlags.is_write flags) with true. cbn iota.
  destruct (open_file_at fuel Ctx.new name i d w Hv Hf) as (m1 & w1 & Ho & Hd1 & Hf1 & _ & Hn1 & _).
  destruct (apply_perm_ok fuel name (FileMode.from_perm 420) i m1 d w1 Hv Hd1 Hf1)
    as (m2 & w2 & Hr2 & Hd2 & Hf2 & Hs2 & Hn2).
  destruct (write_and_close_ok name i m2 d data w2) as (w3 & Hr3 & Hf3 & _ & Hn3); [done..|].
  exists w3. split_and!; [|done|congruence].
  rewrite (eff_bind_Ok _ _ w (HNode (mkNodeFile i m2 d (blen d) false false)) w2); [exact Hr3|].
  rewrite (eff_bind_Ok _ _ w (HNode (mkNodeFile i m1 d 0 false false), false) w1).
  2: { unfold open_or_create, attempt, mbind, eff_bind. by rewrite Ho. }
  change (OpenFlags.contains flags OpenFlags.TRUNC) with false. cbn beta iota delta [andb].
  rewrite (eff_bind_Ok _ _ w1 (HNode (mkNodeFile i m1 d 0 false false)) w1) by done.
  rewrite (eff_bind_Ok _ _ _ _ _ Hr2).
  change (OpenFlags.contains flags OpenFlags.APPEND) with true. cbn iota.
  unfold with_handle, on_handle, fh_seek, mem_handle, mem_method, node_seek, mbind, eff_bind, lift.
  cbn [nf_data nf_offset nf_node nf_meta nf_dirty nf_closed].
  rewrite Z.add_0_r, Z.ltb_irrefl, orb_false_r.
  rewrite (proj2 (Z.ltb_ge _ _)) by (unfold blen; lia). done.
Qed.

(** ** Listing *)

Lemma listing_elem n entries : n ∈ bt_keys (listing entries) ↔
  n ∈ d_name <$> entries ∧ starts_with_char "#" n = false.
Proof.
  rewrite bt_keys_get, listing_get. destruct (starts_with_char "#" n).
  { split; [by intros [? [=]]|by intros [_ ?]]. }
  rewrite list_elem_of_fmap. destruct (last (filter (λ e, d_name e = n) entries)) as [e|] eqn:Hl.
  - apply last_Some_elem_of, list_elem_of_filter in Hl as [<- Hin].
    split; [eauto|]. intros _. by eexists.
  - apply last_None in Hl. split; [by intros [? [=]]|]. intros [(e & -> & Hin) _].
    assert (e ∈ filter (λ e', d_name e' = d_name e) entries) as He
      by (by apply list_elem_of_filter).
    rewrite Hl in He. by apply elem_of_nil in He.
Qed.

Lemma sort_entries_perm entries : sort_entries entries ≡ₚ entries.
Proof. apply merge_sort_Permutation. Qed.

#[local] Instance entry_le_total : Total entry_le.
Proof. intros a b. unfold entry_le. apply (total String.le). Qed.

Lemma open_dir_at fuel ctx p i w : valid_path p = true → bt_get p (mw_nodes w) = Some i →
  node_is_dir (node_inner w i) = true →
  FileMode.is_symlink (m_mode (ni_meta (node_inner w i))) = false →
  ∃ all, MemFs.open (S fuel) ctx p w =
      (Ok (HDir (dir_file_new (ni_meta (node_inner w i)) all)), w) ∧
    d_name <$> all = (child_names p (mw_nodes w)).1 ++ (child_names p (mw_nodes w)).2.
Proof.
  intros Hv Hi Hd Hs. rewrite children_names.
  exists ((MemFs.children_for p w).1 ++ ((λ d, mkDirEntry d (Meta.dir d 493)) <$>
    (MemFs.children_for p w).2)). split.
  - cbn [MemFs.open]. rewrite Hv, clean_path_id by done. cbn [negb].
    unfold MemFs.node, lock_node, MemFs.open_dir, mbind, eff_bind, gets. rewrite Hi.
    unfold node_is_dir in Hd. rewrite Hs, andb_false_r, Hd. cbn [negb].
    by destruct (MemFs.children_for p w).
  - rewrite fmap_app. cbn. f_equal. rewrite <- list_fmap_compose. apply list_fmap_id.
Qed.

Lemma write_file_ok fuel name data perm w :
  mem_inv w → valid_path name = true → name ≠ "." → parent_ok w name →
  (absent w name ∨ ∃ i d, file_at w name i d) → blen data ≤ ISIZE_MAX →
  ∃ i w', write_file (MemFs.fs (S fuel)) name data perm w = (Ok tt, w') ∧
    file_at w' name i data ∧ same_elsewhere name w w'.
Proof.
  intros Hinv Hv Hne Hp Hold Hlen.
  set (flags := Z.lor (Z.lor OpenFlags.WRONLY OpenFlags.CREATE) OpenFlags.TRUNC).
  destruct (open_or_create_fresh fuel name flags w) as (i & m1 & w1 & Hr1 & Hd1 & Hf1 & Hpr & Hs1);
    [done..|].
  destruct (apply_perm_ok fuel name perm i m1 [] w1 Hv Hd1 Hf1)
    as (m2 & w2 & Hr2 & Hd2 & Hf2 & Hs2 & Hn2).
  destruct (write_and_close_ok name i m2 [] data w2) as (w3 & Hr3 & Hf3 & Hs3 & Hn3); [done..|].
  exists i, w3. split_and!; [|done|].
  - unfold write_file, fs_open_file, MemFs.fs, default_open_file. fold flags.
    change (OpenFlags.is_write flags) with true. cbn iota.
    apply eff_bind_inv in Hr1 as ([file created] & w0 & H1 & H2).
    rewrite (eff_bind_Ok _ _ w (HNode (mkNodeFile i m2 [] 0 false false)) w2); [exact Hr3|].
    rewrite (eff_bind_Ok _ _ _ _ _ H1). cbn beta iota. rewrite (eff_bind_Ok _ _ _ _ _ H2).
    rewrite (eff_bind_Ok _ _ _ _ _ Hr2). done.
  - eapply same_elsewhere_trans; [done|]. eapply same_elsewhere_trans; [done|].
    apply Hs3. intros p. rewrite Hn2. apply Hpr.
Qed.

(** ** Properties *)

(** C12. Whole-file writes and reads are inverse on a [MemFs]: writing a file whose
    parent is a directory, new or over an existing regular file, succeeds, reading
    it back gives the bytes written, and every other path still leads to the same
    contents - also one that was a hard link of the file, since truncation gives
    the path a new node. *)
Theorem memfs_write_read fuel rfuel name data perm w :
  mem_inv w → valid_path name = true → name ≠ "." → parent_ok w name →
  (absent w name ∨ ∃ i d, file_at w name i d) →
  blen data ≤ ISIZE_MAX → blen data < 8192 * Z.of_nat rfuel →
  ∃ w', write_file (MemFs.fs (S fuel)) name data perm w = (Ok tt, w') ∧
    (read_file (MemFs.fs (S fuel)) (S rfuel) name w').1 = Ok data ∧
    same_elsewhere name w w'.
Proof.
  intros Hinv Hv Hne Hp Hold Hlen Hfuel.
  destruct (write_file_ok fuel name data perm w) as (i & w' & Hr & Hf & Hs); [done..|].
  exists w'. split_and!; [done|by eapply read_file_ok|done].
Qed.

(** A hard link shares the contents: after [link] both paths lead to one node,
    so bytes appended through the new path are read through the old one. *)
Theorem memfs_hard_link fuel rfuel old new i d data w :
  mem_inv w → valid_path old = true → valid_path new = true →
  file_at w old i d → bt_get new (mw_nodes w) = None → parent_ok w new →
  blen d + blen data ≤ ISIZE_MAX → blen d + blen data < 8192 * Z.of_nat rfuel →
  ∃ w1 w2, MemFs.link (S fuel) old new w = (Ok tt, w1) ∧
    append_file (MemFs.fs (S fuel)) new data w1 = (Ok tt, w2) ∧
    (read_file (MemFs.fs (S fuel)) (S rfuel) old w2).1 = Ok (d ++ data).
Proof.
  intros Hinv Hvo Hvn Hf Hnone Hp Hlen Hfuel.
  destruct (link_ok fuel old new i d w) as (w1 & Hlink & Ho & Hn); [done..|].
  destruct (append_file_ok fuel new i d data w1 Hvn Hn Hlen) as (w2 & Happ & Hn2 & Hnodes).
  exists w1, w2. split_and!; [done|done|]. apply read_file_ok with i; [done| |].
  - apply (file_at_path new); [done|]. rewrite Hnodes. apply Ho.
  - unfold blen in *. rewrite length_app. lia.
Qed.

(** What a rename does to the tree: it is where every path leads afterwards. A
    directory takes everything below it along, to the same suffix under the new
    path; any other node replaces what was at the new path; no other path changes,
    and no contents do. *)
Theorem memfs_rename fuel old new w w' :
  mem_inv w → valid_path old = true → valid_path new = true → old ≠ new →
  MemFs.rename fuel old new w = (Ok tt, w') →
  ∃ i, bt_get old (mw_nodes w) = Some i ∧
    (∀ p, bt_get p (mw_nodes w') =
      if node_is_dir (node_inner w i) then
        match moved_from old new p ≫= λ q, bt_get q (mw_nodes w) with
        | Some j => Some j
        | None => if decide (under old p) then None else bt_get p (mw_nodes w)
        end
      else if decide (p = new) then Some i
      else if decide (p = old) then None
      else bt_get p (mw_nodes w)) ∧
    (∀ j, ni_data (node_inner w' j) = ni_data (node_inner w j)).
Proof.
  intros Hinv Hvo Hvn Hne. unfold MemFs.rename. rewrite !clean_path_id, Hvo, Hvn by done.
  rewrite (eff_bind_Ok _ _ _ tt w) by done. rewrite decide_False by done.
  intros ([] & w1 & Hpar & Hrun)%eff_bind_inv.
  pose proof (parent_is_dir_reads fuel "rename" new w) as Hw1. rewrite Hpar in Hw1. cbn in Hw1.
  subst w1. rewrite (eff_bind_Ok _ _ _ (mw_nodes w) w) in Hrun by done.
  destruct (bt_get old (mw_nodes w)) as [i|] eqn:Hi; [|done].
  rewrite (eff_bind_Ok _ _ _ i w) in Hrun by done.
  apply eff_bind_inv in Hrun as ([] & w1 & Hguard & Hrun).
  assert (w1 = w) as ->.
  { destruct (bt_get new (mw_nodes w)); [|by injection Hguard].
    revert Hguard. unfold mbind, eff_bind, lock_node, gets. destruct (_ && _); by intros [=]. }
  rewrite (eff_bind_Ok _ _ _ (node_inner w i) w) in Hrun by done.
  exists i. split; [done|]. unfold node_is_dir.
  assert (∀ nodes, mem_inv (set_nodes nodes w) →
    MemFs.recompute_dir_sizes (set_nodes nodes w) = (Ok tt, w') →
    mw_nodes w' = nodes ∧ ∀ j, ni_data (node_inner w' j) = ni_data (node_inner w j)) as Hend.
  { intros nodes Hn Hrec. destruct (recompute_spec _ Hn) as (w2 & Hrec2 & Hr & _).
    rewrite Hrec in Hrec2. injection Hrec2 as <-. split; [apply (rs_nodes _ _ Hr)|].
    intros j. by rewrite (resized_data _ _ _ Hr). }
  destruct (Meta.is_dir (ni_meta (node_inner w i))) eqn:Hd; cbn in Hrun;
    (apply Hend in Hrun as [Hn Hdata]; [split; [|done]; intros p; rewrite Hn|]).
  - apply rename_get, Hinv.
  - by apply rename_dir_inv.
  - by rewrite bt_get_insert, !bt_get_remove; repeat case_decide.
  - by eapply rename_file_inv.
Qed.

(** Listing a directory gives each of its children once, in name order and
    without the hidden ones: a name is listed if and only if some path of the tree
    goes through it and it does not start with [#]. *)
Theorem memfs_read_dir fuel ctx p i w :
  mem_inv w → valid_path p = true → bt_get p (mw_nodes w) = Some i →
  node_is_dir (node_inner w i) = true →
  FileMode.is_symlink (m_mode (ni_meta (node_inner w i))) = false →
  ∃ entries, default_fs_read_dir (MemFs.open (S fuel)) ctx p w = (Ok entries, w) ∧
    NoDup (d_name <$> entries) ∧ Sorted entry_le entries ∧
    ∀ n, n ∈ d_name <$> entries ↔
      child_of p n (mw_nodes w) ∧ starts_with_char "#" n = false.
Proof.
  intros Hinv Hv Hi Hd Hs.
  destruct (open_dir_at fuel (Ctx.with_origin p "readdir" (Ctx.set_read_only ctx)) p i w Hv Hi Hd Hs)
    as (all & Ho & Hall).
  exists (sort_entries (dedupe_sort_hide all)). split_and!.
  - unfold default_fs_read_dir. rewrite (eff_bind_Ok _ _ _ _ _ Ho). done.
  - rewrite sort_entries_perm, listing_names. apply bt_keys_nodup, listing_wf.
  - apply Sorted_merge_sort, _.
  - intros n. rewrite sort_entries_perm, listing_names, listing_elem, Hall.
    pose proof (child_names_spec p (mw_nodes w) (mi_wf _ Hinv)) as Hc.
    destruct (child_names p (mw_nodes w)) as [es need]. destruct Hc as [_ Hc].
    cbn. by rewrite Hc.
Qed.

(** A directory records exactly two plus the number of its children: after
    every operation that changes the tree, each directory does. *)
Theorem memfs_sizes_exact fuel op w w' :
  mem_inv w → sizes_exact w → tree_op fuel op w = (Ok tt, w') →
  sizes_exact w' ∧
  ∀ p i, bt_get p (mw_nodes w') = Some i → node_is_dir (node_inner w' i) = true →
    ∃ children, NoDup children ∧ (∀ n, n ∈ children ↔ child_of p n (mw_nodes w')) ∧
      m_size (ni_meta (node_inner w' i)) = 2 + Z.of_nat (length children).
Proof.
  intros Hinv Hsz Hop. assert (world_inv mem_inv handle_ok [] w) as Hw by done.
  assert (run_ok [] (tree_op fuel op) w
    (λ _ w', world_inv mem_inv handle_ok [] w' ∧ sizes_exact w')) as Hr.
  { destruct op; cbn [tree_op].
    - eapply run_seq; [by apply create_run|]. by intros ?? [[??]?].
    - by apply mkdir_run.
    - by apply remove_run.
    - eapply run_weaken; [by apply rename_run|]. cbn. tauto.
    - by apply link_run.
    - by apply symlink_run. }
  unfold run_ok in Hr. rewrite Hop in Hr. destruct Hr as [[Hinv' _] Hsz']. split; [done|].
  intros p i Hp Hd. pose proof (child_names_spec p (mw_nodes w') (mi_wf _ Hinv')) as Hc.
  rewrite (Hsz' p i Hp Hd). unfold dir_size.
  destruct (child_names p (mw_nodes w')) as [es need]. destruct Hc as [Hnd Hc].
  exists (es ++ need). rewrite length_app. cbn. split_and!; [done|done|lia].
Qed.

(** ** Witnesses *)

Lemma sample_inv : mem_inv sample ∧ sizes_exact sample.
Proof. apply from_entries_inv. Qed.

Lemma memfs_write_read_witness :
  (∃ w', write_file (MemFs.fs 1) "d/a" [x07] 384 sample = (Ok tt, w') ∧
    (read_file (MemFs.fs 1) 2 "d/a" w').1 = Ok [x07] ∧ same_elsewhere "d/a" sample w') ∧
  (∃ w', write_file (MemFs.fs 1) "d/new" [x08] 384 sample = (Ok tt, w') ∧
    (read_file (MemFs.fs 1) 2 "d/new" w').1 = Ok [x08] ∧ same_elsewhere "d/new" sample w').
Proof.
  split.
  - apply (memfs_write_read 0 1); [apply sample_inv|done|done| | |done|done].
    + right. exists 1%nat. by vm_compute.
    + right. exists 2%nat, [x01; x02]. unfold file_at. vm_compute. split_and!; try done. lia.
  - apply (memfs_write_read 0 1); [apply sample_inv|done|done| | |done|done].
    + right. exists 1%nat. by vm_compute.
    + left. by vm_compute.
Defined.

Lemma memfs_hard_link_witness :
  ∃ w1 w2, MemFs.link 1 "d/a" "y" sample = (Ok tt, w1) ∧
    append_file (MemFs.fs 1) "y" [x09] w1 = (Ok tt, w2) ∧
    (read_file (MemFs.fs 1) 2 "d/a" w2).1 = Ok [x01; x02; x09].
Proof.
  apply (memfs_hard_link 0 1 "d/a" "y" 2 [x01; x02] [x09] sample);
    [apply sample_inv|done|done| |done|by left|done|done].
  unfold file_at. vm_compute. split_and!; try done. lia.
Defined.

Lemma memfs_rename_witness :
  let w' := (MemFs.rename 1 "d" "e" sample).2 in
  MemFs.rename 1 "d" "e" sample = (Ok tt, w') ∧
  ∃ i, bt_get "d" (mw_nodes sample) = Some i ∧
    (∀ p, bt_get p (mw_nodes w') =
      if node_is_dir (node_inner sample i) then
        match moved_from "d" "e" p ≫= λ q, bt_get q (mw_nodes sample) with
        | Some j => Some j
        | None => if decide (under "d" p) then None else bt_get p (mw_nodes sample)
        end
      else if decide (p = "e") then Some i
      else if decide (p = "d") then None
      else bt_get p (mw_nodes sample)) ∧
    (∀ j, ni_data (node_inner w' j) = ni_data (node_inner sample j)).
Proof.
  split; [by vm_compute|].
  apply (memfs_rename 1); [apply sample_inv|done|done|done|by vm_compute].
Defined.

Lemma memfs_read_dir_witness :
  ∃ entries, default_fs_read_dir (MemFs.open 1) Ctx.new "d" sample = (Ok entries, sample) ∧
    NoDup (d_name <$> entries) ∧ Sorted entry_le entries ∧
    ∀ n, n ∈ d_name <$> entries ↔
      child_of "d" n (mw_nodes sample) ∧ starts_with_char "#" n = false.
Proof.
  apply (memfs_read_dir 0 Ctx.new "d" 1); [apply sample_inv|done|by vm_compute..].
Defined.

Lemma memfs_sizes_exact_witness :
  let w' := (MemFs.remove 1 "d/a" sample).2 in
  sizes_exact w' ∧
  ∀ p i, bt_get p (mw_nodes w') = Some i → node_is_dir (node_inner w' i) = true →
    ∃ children, NoDup children ∧ (∀ n, n ∈ children ↔ child_of p n (mw_nodes w')) ∧
      m_size (ni_meta (node_inner w' i)) = 2 + Z.of_nat (length children).
Proof.
  apply (memfs_sizes_exact 1 (OpRemove "d/a") sample);
    [apply sample_inv|apply sample_inv|by vm_compute].
Defined.
