(* ===== verification/Vfs.v ===== *)
(** * star9-vfs: namespaces

    Models [Namespace] of [crates/star9-vfs/src/lib.rs]: the binding table, the
    resolution of a path to the targets bound at or above it, union directories,
    and the dispatch of writes.

    The filesystems that can be bound are the entries of [table], and a [FsRef] is
    an index into it: [Arc::ptr_eq] is equality of indices.  The binding table is
    a part of the world [W], read at every operation, so an entry of [table] may
    be a namespace itself. *)

From stdpp Require Import base list numbers option strings sorting pretty.
From Stdlib Require Import ZArith Lia Ascii.
From S2P Require Import Prelude Strs BTree Core FsTrait.

Local Open Scope Z_scope.

Inductive BindMode := After | Replace | Before.

Record BindTarget := mkBindTarget { t_fs : nat; t_path : string; t_metadata : Metadata }.

#[global] Instance BindTarget_eq_dec : EqDecision BindTarget.
Proof. solve_decision. Defined.

Abbreviation Bindings := (btree string (list BindTarget)).

(** Where the world keeps the bindings of the namespace. *)
Class HasBindings (W : Type) := {
  bindings : W → Bindings;
  set_bindings : Bindings → W → W;
  bindings_set b w : bindings (set_bindings b w) = b
}.

Module Vfs.

(** ** Resolution *)

(** [matching_targets] before the sort: bindings at or above [name]. *)
Definition binds (bind_path name : string) : bool :=
  bool_decide (bind_path = ".") || bool_decide (bind_path = name)
  || starts_with (bind_path +:+ "/") name.

(** [sort_by_key(|entry| Reverse(entry.0.len()))], a stable sort. *)
Fixpoint insert_by_len (e : string * list BindTarget) (l : list (string * list BindTarget)) :=
  match l with
  | [] => [e]
  | x :: l' =>
      if decide (String.length x.1 < String.length e.1)%nat then e :: l
      else x :: insert_by_len e l'
  end.

Definition sort_by_len (l : list (string * list BindTarget)) : list (string * list BindTarget) :=
  foldl (λ acc e, insert_by_len e acc) [] l.

Definition matching (b : Bindings) (name : string) : list (string * list BindTarget) :=
  sort_by_len (filter (λ kv, binds kv.1 name = true) b).

Definition target_path (bind_path target_path name : string) : string :=
  if decide (bind_path = name) then clean_path target_path
  else if decide (bind_path = ".") then
    if decide (target_path = ".") then clean_path name
    else clean_path (target_path +:+ "/" +:+ name)
  else
    let rel := default "." (rest ← strip_prefix bind_path name; strip_prefix "/" rest) in
    if decide (target_path = ".") then clean_path rel
    else clean_path (target_path +:+ "/" +:+ rel).

Definition target_matches (bind_path name : string) : bool :=
  bool_decide (bind_path = ".") || bool_decide (bind_path = name)
  || match strip_prefix bind_path name with
     | Some rest => starts_with_char "/" rest
     | None => false
     end.

Section Namespace.
Context {W H : Type} `{!HasBindings W} `{!FileHandle W H} `{!BoxDir H}.
Context (table : nat → FileSystem W H).

Definition target_fs (t : BindTarget) : FileSystem W H := table (t_fs t).

Definition direct_targets (name : string) : M W (option (list BindTarget)) :=
  gets (λ w, bt_get name (bindings w)).

Definition matching_targets (name : string) : M W (list (string * list BindTarget)) :=
  gets (λ w, matching (bindings w) name).

Definition update_bindings (f : Bindings → Bindings) : M W unit :=
  modify (λ w, set_bindings (f (bindings w)) w).

(** ** Changing the bindings *)

Definition bind (src : nat) (src_path dst_path : string) (mode : BindMode) : M W unit :=
  guard_err (negb (valid_path src_path)) (EPath "bind" src_path NotFound) ;;
  guard_err (negb (valid_path dst_path)) (EPath "bind" dst_path NotFound) ;;
  let src_path := clean_path src_path in
  let dst_path := clean_path dst_path in
  metadata ← fs_stat (table src) (Ctx.with_origin src_path "stat" Ctx.new) src_path;
  let target := mkBindTarget src src_path metadata in
  update_bindings (λ b,
    let old := default [] (bt_get dst_path b) in
    match mode with
    | After => bt_insert dst_path (target :: old) b
    | Before => bt_insert dst_path (old ++ [target]) b
    | Replace => bt_insert dst_path [target] b
    end).

(** [targets.retain(keep)], dropping the binding when none is left. *)
Definition retain_targets (dst_path : string) (keep : BindTarget → bool) (b : Bindings) : Bindings :=
  match bt_get dst_path b with
  | Some targets =>
      match filter (λ t, keep t = true) targets with
      | [] => bt_remove dst_path b
      | kept => bt_insert dst_path kept b
      end
  | None => b
  end.

Definition unbind (src : nat) (src_path dst_path : string) : M W unit :=
  guard_err (negb (valid_path src_path)) (EPath "unbind" src_path NotFound) ;;
  guard_err (negb (valid_path dst_path)) (EPath "unbind" dst_path NotFound) ;;
  let src_path := clean_path src_path in
  let dst_path := clean_path dst_path in
  update_bindings (retain_targets dst_path
    (λ t, negb (bool_decide (t_fs t = src) && bool_decide (t_path t = src_path)))).

Definition unbind_path (dst_path : string) : M W unit :=
  guard_err (negb (valid_path dst_path)) (EPath "unmount" dst_path NotFound) ;;
  let dst_path := clean_path dst_path in
  removed ← direct_targets dst_path;
  update_bindings (bt_remove dst_path) ;;
  guard_err (bool_decide (removed = None)) (EPath "unmount" dst_path NotFound).

Definition unbind_source_path (src_path dst_path : string) : M W unit :=
  guard_err (negb (valid_path src_path)) (EPath "unmount" src_path NotFound) ;;
  guard_err (negb (valid_path dst_path)) (EPath "unmount" dst_path NotFound) ;;
  let src_path := clean_path src_path in
  let dst_path := clean_path dst_path in
  found ← direct_targets dst_path;
  targets ← ok_or found (EPath "unmount" dst_path NotFound);
  update_bindings (retain_targets dst_path (λ t, negb (bool_decide (t_path t = src_path)))) ;;
  after ← direct_targets dst_path;
  guard_err (bool_decide (length targets = length (default [] after)))
    (EPath "unmount" src_path NotFound).

Definition unbind_all : M W unit :=
  update_bindings (bt_retain (λ path, starts_with_char "#" path)).

(** [clone_namespace]: the bindings of the copy. *)
Definition clone_bindings : M W Bindings := gets bindings.

(** [format_bindings]: a line for each target, numbered when there are several. *)
Definition format_target (dst : string) (many : bool) (index : nat) (t : BindTarget) : string :=
  (if many then dst +:+ "[" +:+ pretty index +:+ "]" else dst) +:+ " -> fs:" +:+ t_path t.

Definition format_bindings : M W string :=
  gets (λ w, str_join (String "010" "")
    (bindings w ≫= λ '(dst, targets),
      imap (format_target dst (negb (bool_decide (length targets = 1%nat)))) targets)).

Definition binding_paths : M W (list string) := gets (λ w, bt_keys (bindings w)).

(** ** Union directories *)

(** [target.fs.stat(ctx, &target.path).unwrap_or_else(|_| target.metadata.clone())] *)
Definition stat_or_saved (ctx : FsContext) (t : BindTarget) : M W Metadata :=
  r ← attempt (fs_stat (target_fs t) ctx (t_path t));
  match r with
  | Ok meta => mret meta
  | Err _ => mret (t_metadata t)
  | Panic => panic
  | NoFuel => no_fuel
  end.

(** The part of a bound path below [name]. *)
Definition below (name path : string) : option string :=
  if decide (name = ".") then if decide (path = ".") then None else Some path
  else strip_prefix (name +:+ "/") path.

Fixpoint synthesize_loop (ctx : FsContext) (name : string) (b : Bindings)
    (entries : list DirEntry) (need : btree string unit)
    : M W (list DirEntry * btree string unit) :=
  match b with
  | [] => mret (entries, need)
  | (path, targets) :: b' =>
      match below name path with
      | None => synthesize_loop ctx name b' entries need
      | Some rest =>
          match split_once "/" rest with
          | Some (head, _) => synthesize_loop ctx name b' entries (bt_insert head tt need)
          | None =>
              es ← map_eff (λ t,
                meta ← stat_or_saved ctx t; mret (mkDirEntry rest (Meta.set_name rest meta))) targets;
              synthesize_loop ctx name b' (entries ++ es) need
          end
      end
  end.

Definition synthesize_entries (ctx : FsContext) (name : string) : M W (list DirEntry) :=
  b ← gets bindings;
  '(entries, need) ← synthesize_loop ctx name b [] [];
  let need := foldl (λ need e, bt_remove (d_name e) need) need entries in
  mret (entries ++ ((λ dir, mkDirEntry dir (Meta.dir dir 493)) <$> bt_keys need)).

(** What the loops of [open] have gathered: a file to return at once, or the
    metadata of the first directory and the entries so far. *)
Definition Gathered : Type := H + (option Metadata * list DirEntry).

Definition add_dir (meta : Metadata) (es : list DirEntry) (acc : option Metadata * list DirEntry) :=
  (match acc.1 with Some m => Some m | None => Some meta end, acc.2 ++ es).

Fixpoint open_direct (ctx : FsContext) (targets : list BindTarget)
    (acc : option Metadata * list DirEntry) : M W Gathered :=
  match targets with
  | [] => mret (inr acc)
  | t :: targets' =>
      meta ← stat_or_saved ctx t;
      if Meta.is_dir meta then
        es ← fs_read_dir (target_fs t) ctx (t_path t);
        open_direct ctx targets' (add_dir meta es acc)
      else
        f ← fs_open (target_fs t) ctx (t_path t); mret (inl f)
  end.

(** The targets above [name] with the path each gives it, those bound at [name]
    itself left out. *)
Definition routes_above (name : string) (groups : list (string * list BindTarget))
    : list (BindTarget * string) :=
  groups ≫= λ '(bind_path, targets),
    if decide (bind_path = name) then []
    else (λ t, (t, target_path bind_path (t_path t) name)) <$> targets.

Fixpoint open_above (ctx : FsContext) (routes : list (BindTarget * string))
    (acc : option Metadata * list DirEntry) : M W Gathered :=
  match routes with
  | [] => mret (inr acc)
  | (t, full) :: routes' =>
      r ← attempt (fs_stat (target_fs t) ctx full);
      match r with
      | Ok meta =>
          if Meta.is_dir meta then
            es ← fs_read_dir (target_fs t) ctx full;
            open_above ctx routes' (add_dir meta es acc)
          else
            f ← fs_open (target_fs t) ctx full; mret (inl f)
      | Err e => if kind_is NotFound e then open_above ctx routes' acc else throw e
      | Panic => panic
      | NoFuel => no_fuel
      end
  end.

Definition open (ctx : FsContext) (name : string) : M W H :=
  guard_err (negb (valid_path name)) (EPath "open" name NotFound) ;;
  let ctx := Ctx.with_origin name "open" ctx in
  let name := clean_path name in
  direct ← direct_targets name;
  g ← open_direct ctx (default [] direct) (None, []);
  match g with
  | inl f => mret f
  | inr acc =>
      groups ← matching_targets name;
      g ← open_above ctx (routes_above name groups) acc;
      match g with
      | inl f => mret f
      | inr (dir_meta, entries) =>
          es ← synthesize_entries ctx name;
          let entries := entries ++ es in
          if negb (bool_decide (entries = [])) || bool_decide (is_Some dir_meta)
             || bool_decide (name = ".")
          then
            let meta := default (Meta.dir (base_name name) 493) dir_meta in
            mret (directory_file meta entries)
          else throw (EPath "open" name NotFound)
      end
  end.

(** ** [stat] *)

Fixpoint stat_direct (ctx : FsContext) (name : string) (targets : list BindTarget)
    : M W (option Metadata) :=
  match targets with
  | [] => mret None
  | t :: targets' =>
      r ← attempt (fs_stat (target_fs t) ctx (t_path t));
      match r with
      | Ok meta => mret (Some (Meta.set_name (base_name name) meta))
      | Err _ => stat_direct ctx name targets'
      | Panic => panic
      | NoFuel => no_fuel
      end
  end.

Fixpoint stat_above (ctx : FsContext) (name : string) (routes : list (BindTarget * string))
    : M W (option Metadata) :=
  match routes with
  | [] => mret None
  | (t, full) :: routes' =>
      r ← attempt (fs_stat (target_fs t) ctx full);
      match r with
      | Ok meta => mret (Some (Meta.set_name (base_name name) meta))
      | Err e => if kind_is NotFound e then stat_above ctx name routes' else throw e
      | Panic => panic
      | NoFuel => no_fuel
      end
  end.

Definition stat (ctx : FsContext) (name : string) : M W Metadata :=
  guard_err (negb (valid_path name)) (EPath "stat" name NotFound) ;;
  let ctx := Ctx.with_origin name "stat" ctx in
  let name := clean_path name in
  if decide (name = ".") then mret (Meta.dir "." 493)
  else
    direct ← direct_targets name;
    found ← stat_direct ctx name (default [] direct);
    match found with
    | Some meta => mret meta
    | None =>
        groups ← matching_targets name;
        found ← stat_above ctx name (routes_above name groups);
        match found with
        | Some meta => mret meta
        | None =>
            es ← synthesize_entries ctx name;
            if negb (bool_decide (es = [])) then mret (Meta.dir (base_name name) 493)
            else throw (EPath "stat" name NotFound)
        end
    end.

(** ** Writes *)

Fixpoint route_direct {T} (f : BindTarget → string → M W T) (targets : list BindTarget)
    (last : Error) : M W T :=
  match targets with
  | [] => throw last
  | t :: targets' =>
      r ← attempt (f t (t_path t));
      match r with
      | Ok value => mret value
      | Err e => if kind_is NotSupported e then route_direct f targets' e else throw e
      | Panic => panic
      | NoFuel => no_fuel
      end
  end.

(** [matches!(err.kind(), NotFound | NotSupported | NotDir)] *)
Definition passes (e : Error) : bool :=
  kind_is NotFound e || kind_is NotSupported e || kind_is NotDir e.

Fixpoint route_above {T} (f : BindTarget → string → M W T) (routes : list (BindTarget * string))
    (last : Error) : M W T :=
  match routes with
  | [] => throw last
  | (t, full) :: routes' =>
      r ← attempt (f t full);
      match r with
      | Ok value => mret value
      | Err e => if passes e then route_above f routes' last else throw e
      | Panic => panic
      | NoFuel => no_fuel
      end
  end.

(** All targets at or above [name] with the path each gives it. *)
Definition routes (name : string) (groups : list (string * list BindTarget))
    : list (BindTarget * string) :=
  groups ≫= λ '(bind_path, targets),
    (λ t, (t, target_path bind_path (t_path t) name)) <$> targets.

Definition route_write {T} (name op : string) (f : BindTarget → string → M W T) : M W T :=
  let name := clean_path name in
  direct ← direct_targets name;
  match direct with
  | Some targets => route_direct f targets (EKind NotSupported)
  | None =>
      groups ← matching_targets name;
      route_above f (routes name groups) (EPath op name NotFound)
  end.

(** [if target.fs.stat(.., &parent_path(&full)).is_ok() { .. } else { Err(..) }] *)
Definition when_parent {T} (op : string) (t : BindTarget) (full : string) (m : M W T) : M W T :=
  r ← attempt (fs_stat (target_fs t) Ctx.new (parent_path full));
  match r with
  | Ok _ => m
  | Err _ => throw (EPath op full NotFound)
  | Panic => panic
  | NoFuel => no_fuel
  end.

Definition create (name : string) : M W H :=
  route_write name "create" (λ t full, when_parent "create" t full (fs_create (target_fs t) full)).

Definition mkdir (name : string) (perm : Z) : M W unit :=
  route_write name "mkdir" (λ t full, when_parent "mkdir" t full (fs_mkdir (target_fs t) full perm)).

Definition remove (name : string) : M W unit :=
  route_write name "remove" (λ t full, fs_remove (target_fs t) full).

(** The binding through which [rename] translates the new name: the first group
    above [old] with a target on the same filesystem. *)
Definition rename_bind_path (groups : list (string * list BindTarget)) (t : BindTarget) : string :=
  match list_find (λ g, existsb (λ c, bool_decide (t_fs c = t_fs t)) g.2 = true) groups with
  | Some (_, (path, _)) => path
  | None => "."
  end.

Definition rename (old new : string) : M W unit :=
  route_write old "rename" (λ t full,
    groups ← matching_targets old;
    let new_full := target_path (rename_bind_path groups t) (t_path t) new in
    fs_rename (target_fs t) full new_full).

(** The pairs of routes [link] tries, on one filesystem each. *)
Definition link_routes (old new : string) (old_groups new_groups : list (string * list BindTarget))
    : list (BindTarget * string * string) :=
  new_groups ≫= λ '(new_bind, new_targets),
    if negb (target_matches new_bind new) then []
    else new_targets ≫= λ nt,
      old_groups ≫= λ '(old_bind, old_targets),
        if negb (target_matches old_bind old) then []
        else old_targets ≫= λ ot,
          if negb (bool_decide (t_fs ot = t_fs nt)) then []
          else [(nt, target_path old_bind (t_path ot) old, target_path new_bind (t_path nt) new)].

Fixpoint link_loop (pairs : list (BindTarget * string * string)) (last : Error) : M W unit :=
  match pairs with
  | [] => throw last
  | (nt, old_full, new_full) :: pairs' =>
      r ← attempt (fs_link (target_fs nt) old_full new_full);
      match r with
      | Ok _ => mret tt
      | Err e => if passes e then link_loop pairs' e else throw e
      | Panic => panic
      | NoFuel => no_fuel
      end
  end.

Definition link (old new : string) : M W unit :=
  let old := clean_path old in
  let new := clean_path new in
  guard_err (negb (valid_path old) || negb (valid_path new)) (EPath "link" old NotFound) ;;
  old_groups ← matching_targets old;
  new_groups ← matching_targets new;
  link_loop (link_routes old new old_groups new_groups) (EPath "link" new NotFound).

Definition chmod (name : string) (mode : Z) : M W unit :=
  route_write name "chmod" (λ t full, fs_chmod (target_fs t) full mode).

Definition chown (name : string) (uid gid : Z) : M W unit :=
  route_write name "chown" (λ t full, fs_chown (target_fs t) full uid gid).

Definition chtimes (name : string) (mtime : Z) : M W unit :=
  route_write name "chtimes" (λ t full, fs_chtimes (target_fs t) full mtime).

Definition truncate (name : string) (size : Z) : M W unit :=
  route_write name "truncate" (λ t full, fs_truncate (target_fs t) full size).

Definition symlink (old new : string) : M W unit :=
  route_write new "symlink" (λ t full, fs_symlink (target_fs t) old full).

Definition readlink (name : string) : M W string :=
  route_write name "readlink" (λ t full, fs_readlink (target_fs t) full).

(** [impl FileSystem for Namespace]; the extended-attribute methods are the
    provided ones. *)
Definition fs : FileSystem W H := {|
  fs_open := open;
  fs_stat := stat;
  fs_lstat := default_lstat stat;
  fs_read_dir := default_fs_read_dir open;
  fs_create := create;
  fs_open_file := default_open_file open create chmod;
  fs_mkdir := mkdir;
  fs_remove := remove;
  fs_rename := rename;
  fs_link := link;
  fs_chmod := chmod;
  fs_chown := chown;
  fs_chtimes := chtimes;
  fs_truncate := truncate;
  fs_symlink := symlink;
  fs_readlink := readlink;
  fs_set_xattr _ _ _ := unsupported;
  fs_get_xattr _ _ := unsupported;
  fs_list_xattrs _ := unsupported;
  fs_remove_xattr _ _ := unsupported
|}.
End Namespace.

Arguments Gathered : clear implicits.
End Vfs.
