(* ===== verification/VfsProps.v ===== *)
(** * Properties of namespaces

    Which targets a path resolves to and in what order, the path each target is
    asked for, and the effect of [bind] and [unbind] on the table. *)

From stdpp Require Import base list numbers option strings sorting.
From Stdlib Require Import ZArith Lia Ascii.
From S2P Require Import Prelude Strs BTree Core FsTrait MemFs MemFsFacts MemFsProps Vfs.

Local Open Scope Z_scope.

(** ** Definitions used by the statements *)

(** Every bound path is valid, and the table is ordered. *)
Definition bindings_wf (b : Bindings) : Prop :=
  bt_wf b ∧ ∀ p, p ∈ bt_keys b → valid_path p = true.

(** [bind_path] is at or above [name], component by component. *)
Definition at_or_above (bind_path name : string) : Prop :=
  parts_of bind_path `prefix_of` parts_of name.

(** A world with a binding table beside the state of one filesystem. *)
#[global] Instance pair_bindings {W} : HasBindings (Bindings * W) := {
  bindings := fst;
  set_bindings b w := (b, snd w);
  bindings_set _ _ := eq_refl
}.

Definition beside {W H A} (m : M (H * W) A) : M (H * (Bindings * W)) A := λ '(h, (b, w)),
  let '(r, (h', w')) := m (h, w) in (r, (h', (b, w'))).

#[global] Instance pair_handle {W H} `{!FileHandle W H} : FileHandle (Bindings * W) H := {
  fh_read n := beside (fh_read n);
  fh_write data := beside (fh_write data);
  fh_read_at n off := beside (fh_read_at n off);
  fh_write_at data off := beside (fh_write_at data off);
  fh_seek pos := beside (fh_seek pos);
  fh_stat := beside fh_stat;
  fh_read_dir n := beside (fh_read_dir n);
  fh_sync := beside fh_sync;
  fh_close := beside fh_close
}.

Definition fs_beside {W H} (fs : FileSystem W H) : FileSystem (Bindings * W) H := {|
  fs_open ctx p := on_snd (fs_open fs ctx p);
  fs_stat ctx p := on_snd (fs_stat fs ctx p);
  fs_lstat ctx p := on_snd (fs_lstat fs ctx p);
  fs_read_dir ctx p := on_snd (fs_read_dir fs ctx p);
  fs_create p := on_snd (fs_create fs p);
  fs_open_file p flags perm := on_snd (fs_open_file fs p flags perm);
  fs_mkdir p perm := on_snd (fs_mkdir fs p perm);
  fs_remove p := on_snd (fs_remove fs p);
  fs_rename p q := on_snd (fs_rename fs p q);
  fs_link p q := on_snd (fs_link fs p q);
  fs_chmod p mode := on_snd (fs_chmod fs p mode);
  fs_chown p uid gid := on_snd (fs_chown fs p uid gid);
  fs_chtimes p t := on_snd (fs_chtimes fs p t);
  fs_truncate p n := on_snd (fs_truncate fs p n);
  fs_symlink target p := on_snd (fs_symlink fs target p);
  fs_readlink p := on_snd (fs_readlink fs p);
  fs_set_xattr p attr data := on_snd (fs_set_xattr fs p attr data);
  fs_get_xattr p attr := on_snd (fs_get_xattr fs p attr);
  fs_list_xattrs p := on_snd (fs_list_xattrs fs p);
  fs_remove_xattr p attr := on_snd (fs_remove_xattr fs p attr)
|}.

(** Every entry of this table is the sample [MemFs]. *)
Definition sample_table (i : nat) : FileSystem (Bindings * MemWorld) MemHandle :=
  fs_beside (MemFs.fs 2).

Definition sample_target (i : nat) : BindTarget := mkBindTarget i "." (Meta.dir "." 493).

(** The sample bound at [mnt]. *)
Definition sample_mount : Bindings * MemWorld := ([("mnt", [sample_target 0])], sample).

(** ** Paths by components *)

Lemma join_app_cons ps q qs : ps ≠ [] →
  str_join "/" (ps ++ q :: qs) = str_join "/" ps +:+ "/" +:+ str_join "/" (q :: qs).
Proof.
  revert q qs. induction ps as [|p [|r ps] IH]; intros q qs Hne; [done| |].
  - cbn [app]. by rewrite join_cons.
  - cbn [app]. rewrite (join_cons _ p) by done. cbn [app] in IH. rewrite IH by done.
    rewrite (join_cons _ p) by done. by rewrite !app_str_assoc.
Qed.

Lemma of_parts_inj ps qs : Forall good_part ps → Forall good_part qs →
  of_parts ps = of_parts qs → ps = qs.
Proof.
  intros Hp Hq E. apply (f_equal parts_of) in E. by rewrite !parts_of_of_parts in E.
Qed.

Lemma slash_app s : "/" +:+ s = String "/" s.
Proof. done. Qed.

(** A textual prefix that ends in a slash is a prefix of components. *)
Lemma join_prefix ps qs r : Forall good_part ps → Forall good_part qs → ps ≠ [] → qs ≠ [] →
  str_join "/" qs = str_join "/" ps +:+ "/" +:+ r → ∃ rs, qs = ps ++ rs ∧ r = str_join "/" rs ∧ rs ≠ [].
Proof.
  intros Hp Hq Hpn Hqn E.
  assert (qs = ps ++ split_on "/" r) as Hqs.
  { rewrite <- (split_join_good qs) by done. rewrite E. clear E Hq Hqn qs.
    induction ps as [|p [|p' ps] IH]; [done| |]; inversion Hp as [|?? [_ Hc] Hp']; subst.
    - cbn. by apply split_on_app.
    - rewrite join_cons by done. rewrite <- !app_str_assoc, slash_app.
      rewrite split_on_app by done. cbn [app]. f_equal. by apply IH. }
  exists (split_on "/" r). split_and!; [done|by rewrite join_split_on|apply split_on_nonempty].
Qed.

Lemma binds_spec b n : valid_path b = true → valid_path n = true →
  Vfs.binds b n = true ↔ at_or_above b n.
Proof.
  intros [Hb Eb]%valid_path_parts [Hn En]%valid_path_parts. unfold Vfs.binds, at_or_above.
  rewrite !orb_true_iff, !bool_decide_eq_true, starts_with_true. split.
  - intros [[->| ->]|[r Hr]].
    + apply prefix_nil.
    + reflexivity.
    + rewrite <- Eb, <- En in Hr. rewrite <- app_str_assoc in Hr.
      destruct (parts_of b) as [|p ps] eqn:Epb; [apply prefix_nil|].
      destruct (parts_of n) as [|q qs] eqn:Epn.
      { apply (f_equal (contains_char "/")) in Hr. rewrite !contains_char_app in Hr.
        cbn [of_parts contains_char] in Hr. by rewrite orb_true_r in Hr. }
      apply (join_prefix (p :: ps) (q :: qs)) in Hr as (rs & -> & _ & _); [|done..].
      by exists rs.
  - intros [rs Hrs]. destruct (parts_of b) as [|p ps] eqn:Epb.
    { left. left. by rewrite <- Eb. }
    destruct rs as [|r rs].
    { rewrite app_nil_r in Hrs. left. right. rewrite <- Eb, <- En. by f_equal. }
    right. exists (of_parts (r :: rs)). rewrite <- Eb, <- En, Hrs.
    rewrite of_parts_app by done. by rewrite app_str_assoc.
Qed.

(** The path a target is asked for. *)
Lemma target_path_parts b t n rel : valid_path b = true → valid_path t = true →
  valid_path n = true → parts_of n = parts_of b ++ rel →
  Vfs.target_path b t n = of_parts (parts_of t ++ rel).
Proof.
  intros [Hb Eb]%valid_path_parts Ht [Hn En]%valid_path_parts Hrel.
  pose proof (valid_path_parts t Ht) as [Hgt Et].
  assert (Forall good_part rel) as Hgr by (rewrite Hrel in Hn; by apply Forall_app in Hn as [_ ?]).
  assert (Forall good_part (parts_of t ++ rel)) as Hg by (by apply Forall_app).
  unfold Vfs.target_path. case_decide as Hbn.
  { subst n. assert (rel = []) as ->.
    { apply (f_equal length) in Hrel. rewrite length_app in Hrel. destruct rel; [done|cbn in *; lia]. }
    rewrite app_nil_r, Et. by apply clean_path_id. }
  assert (rel ≠ []) as Hne.
  { intros ->. rewrite app_nil_r in Hrel. apply Hbn. rewrite <- Eb, <- En. by f_equal. }
  assert (∀ s, s = of_parts rel →
    (if decide (t = ".") then clean_path s else clean_path (t +:+ "/" +:+ s)) =
      of_parts (parts_of t ++ rel)) as Hfin.
  { intros s ->. case_decide as Hdot.
    - rewrite Hdot. by apply clean_path_of_parts.
    - rewrite <- (clean_path_of_parts (parts_of t ++ rel)) by done. f_equal.
      rewrite of_parts_app; [by rewrite Et| |done].
      intros E. apply Hdot. by rewrite <- Et, E. }
  destruct (decide (b = ".")) as [Hroot|Hroot].
  { apply Hfin. subst b. change (parts_of ".") with (@nil string) in Hrel. cbn [app] in Hrel.
    by rewrite <- Hrel, En. }
  cbn zeta. apply Hfin.
  assert (parts_of b ≠ []) as Hpb by (intros E; apply Hroot; by rewrite <- Eb, E).
  assert (n = b +:+ "/" +:+ of_parts rel) as ->.
  { rewrite <- En at 1. rewrite Hrel, of_parts_app by done. by rewrite Eb. }
  rewrite (proj2 (strip_prefix_Some b _ _) eq_refl). cbn [mbind option_bind].
  by rewrite (proj2 (strip_prefix_Some "/" _ _) eq_refl).
Qed.

(** ** The order of the groups *)

Abbreviation Group := (string * list BindTarget)%type.

Definition longer_first (a b : Group) : Prop := (String.length b.1 ≤ String.length a.1)%nat.

Lemma insert_by_len_perm e l : Vfs.insert_by_len e l ≡ₚ e :: l.
Proof.
  induction l as [|x l IH]; cbn; [done|]. case_decide; [done|]. rewrite IH. apply Permutation_swap.
Qed.

Lemma insert_by_len_sorted e l : StronglySorted longer_first l →
  StronglySorted longer_first (Vfs.insert_by_len e l).
Proof.
  induction l as [|x l IH]; intros Hs; cbn; [by repeat constructor|].
  apply StronglySorted_inv in Hs as [Hs Hx]. case_decide as Hd.
  - constructor; [by constructor|]. constructor; [unfold longer_first; lia|].
    eapply Forall_impl; [done|]. unfold longer_first. intros y ?. lia.
  - constructor; [by apply IH|]. rewrite insert_by_len_perm. constructor; [|done].
    unfold longer_first. lia.
Qed.

Lemma sort_by_len_spec l :
  Vfs.sort_by_len l ≡ₚ l ∧ StronglySorted longer_first (Vfs.sort_by_len l).
Proof.
  unfold Vfs.sort_by_len.
  assert (∀ acc, StronglySorted longer_first acc →
    foldl (λ acc e, Vfs.insert_by_len e acc) acc l ≡ₚ acc ++ l ∧
    StronglySorted longer_first (foldl (λ acc e, Vfs.insert_by_len e acc) acc l)) as H.
  { induction l as [|e l IH]; intros acc Hacc; cbn; [by rewrite app_nil_r|].
    destruct (IH (Vfs.insert_by_len e acc)) as [Hp Hs]; [by apply insert_by_len_sorted|].
    split; [|done]. rewrite Hp, insert_by_len_perm. cbn. by rewrite Permutation_middle. }
  apply H. constructor.
Qed.

Lemma matching_elem b n g : bindings_wf b → valid_path n = true →
  g ∈ Vfs.matching b n ↔ bt_get g.1 b = Some g.2 ∧ at_or_above g.1 n.
Proof.
  intros [Hwf Hv] Hn. unfold Vfs.matching.
  rewrite (proj1 (sort_by_len_spec _)), list_elem_of_filter. destruct g as [p ts]; cbn. split.
  - intros [Hb Hin]. split; [by apply bt_elem_get|]. apply binds_spec; [|done|done].
    apply Hv, list_elem_of_fmap. by exists (p, ts).
  - intros [Hg Ha]. split; [|by apply bt_get_elem]. apply binds_spec; [|done|done].
    apply Hv, bt_keys_get. eauto.
Qed.

(** The component lengths of two paths above one name compare as their text. *)
Lemma of_parts_length ps rs : ps ≠ [] → rs ≠ [] → Forall good_part rs →
  (String.length (of_parts ps) < String.length (of_parts (ps ++ rs)))%nat.
Proof.
  intros Hp Hr Hg. rewrite of_parts_app by done.
  assert (∀ a b, String.length (a +:+ b) = (String.length a + String.length b)%nat) as Hl.
  { intros a b. by rewrite <- !length_bytes_of, bytes_of_app, length_app. }
  rewrite !Hl. cbn. lia.
Qed.

(** A group strictly longer than the others comes first. *)
Lemma matching_first b n g : bindings_wf b → valid_path n = true →
  bt_get g.1 b = Some g.2 → at_or_above g.1 n →
  (∀ p, p ∈ bt_keys b → at_or_above p n → p ≠ g.1 →
     (String.length p < String.length g.1)%nat) →
  ∃ rest, Vfs.matching b n = g :: rest.
Proof.
  intros Hwf Hn Hg Ha Hlen.
  assert (g ∈ Vfs.matching b n) as Hin by (by apply matching_elem).
  pose proof (proj2 (sort_by_len_spec (filter (λ kv, Vfs.binds kv.1 n = true) b))) as Hs.
  fold (Vfs.matching b n) in Hs. pose proof (matching_elem b n) as Hm.
  destruct (Vfs.matching b n) as [|h l]; [by apply elem_of_nil in Hin|].
  exists l. f_equal. apply elem_of_cons in Hin as [->|Hin]; [done|].
  apply StronglySorted_inv in Hs as [_ Hs]. rewrite Forall_forall in Hs. specialize (Hs g Hin).
  destruct (proj1 (Hm h Hwf Hn) ltac:(by left)) as [Hh Hah].
  destruct (decide (h.1 = g.1)) as [E|E].
  - rewrite E in Hh. destruct g, h. cbn in *. congruence.
  - exfalso. unfold longer_first in Hs.
    assert (h.1 ∈ bt_keys b) as Hk by (apply bt_keys_get; eauto).
    specialize (Hlen h.1 Hk Hah E). lia.
Qed.

(** ** Changing one entry of the table and changing it back *)

Lemma retain_undo dst keep new b : bt_wf b → bt_get dst b ≠ Some [] →
  filter (λ t, keep t = true) new = default [] (bt_get dst b) →
  Vfs.retain_targets dst keep (bt_insert dst new b) = b.
Proof.
  intros Hwf Hne Hf. unfold Vfs.retain_targets. rewrite bt_get_insert_eq, Hf.
  destruct (bt_get dst b) as [[|t ts]|] eqn:Hb; [done| |]; cbn; apply bt_ext; auto with star9;
    intros k; rewrite ?bt_get_insert, ?bt_get_remove, ?bt_get_insert; repeat case_decide; congruence.
Qed.

Lemma filter_all {A} (P : A → Prop) `{∀ x, Decision (P x)} (l : list A) :
  (∀ x, x ∈ l → P x) → filter P l = l.
Proof.
  induction l as [|x l IH]; intros Hl; [done|].
  rewrite filter_cons_True by (apply Hl; by left). f_equal. apply IH. intros. apply Hl. by right.
Qed.

(** ** Properties *)

(** The targets tried for a path are those bound at the path or at one of its
    ancestors, component by component ([ab] is not above [abc]), and a deeper mount
    is tried before the ones above it: of two groups in the order of the search,
    the first at a path other than the root, the second is bound strictly above
    the first. *)
Theorem vfs_mount_order b n :
  bindings_wf b → valid_path n = true →
  (∀ g, g ∈ Vfs.matching b n ↔ bt_get g.1 b = Some g.2 ∧ at_or_above g.1 n) ∧
  (∀ l1 g1 l2 g2 l3, Vfs.matching b n = l1 ++ g1 :: l2 ++ g2 :: l3 → g1.1 ≠ "." →
     at_or_above g2.1 g1.1 ∧ g2.1 ≠ g1.1).
Proof.
  intros Hwf Hn. split; [intros g; by apply matching_elem|].
  intros l1 g1 l2 g2 l3 Hm Hroot.
  destruct (proj1 (matching_elem b n g1 Hwf Hn)) as [Hg1 Ha1].
  { rewrite Hm. apply elem_of_app. right. by left. }
  destruct (proj1 (matching_elem b n g2 Hwf Hn)) as [Hg2 Ha2].
  { rewrite Hm. apply elem_of_app. right. right. apply elem_of_app. right. by left. }
  pose proof (sort_by_len_spec (filter (λ kv, Vfs.binds kv.1 n = true) b)) as [Hperm Hs].
  fold (Vfs.matching b n) in Hperm, Hs. rewrite Hm in Hperm, Hs.
  assert (g2.1 ≠ g1.1) as Hne.
  { assert (NoDup (bt_keys (filter (λ kv, Vfs.binds kv.1 n = true) b))) as Hnd
      by (apply bt_keys_nodup, bt_filter_wf, Hwf).
    unfold bt_keys in Hnd. rewrite <- Hperm, !fmap_app, !fmap_cons, fmap_app, fmap_cons in Hnd.
    apply NoDup_app in Hnd as (_ & _ & Hnd). apply NoDup_cons in Hnd as [Hnot _].
    intros E. apply Hnot. rewrite <- E. apply elem_of_app. right. by left. }
  split; [|done]. unfold at_or_above in *.
  assert (String.length g2.1 ≤ String.length g1.1)%nat as Hlen.
  { apply StronglySorted_app in Hs as (_ & _ & Hs).
    apply StronglySorted_inv in Hs as [_ Hs]. apply Forall_app in Hs as [_ Hs].
    by inversion Hs. }
  destruct (prefix_weak_total _ _ _ Ha1 Ha2) as [[rs Hrs]|?]; [exfalso|done].
  assert (valid_path g1.1 = true ∧ valid_path g2.1 = true) as [Hv1 Hv2].
  { split; apply Hwf, bt_keys_get; eauto. }
  apply valid_path_parts in Hv1 as [Hp1 E1], Hv2 as [Hp2 E2].
  assert (rs ≠ []) as Hr.
  { intros ->. rewrite app_nil_r in Hrs. apply Hne. by rewrite <- E1, <- E2, Hrs. }
  rewrite Hrs in Hp2. apply Forall_app in Hp2 as [_ Hgr].
  pose proof (of_parts_length (parts_of g1.1) rs) as Hl. rewrite <- Hrs, E1, E2 in Hl.
  assert (parts_of g1.1 ≠ []) as Hp by (intros E; apply Hroot; by rewrite <- E1, E).
  specialize (Hl Hp Hr Hgr). lia.
Qed.

(** Of the bindings above a path the deepest has the longest text, unless it is bound at a
    name of one letter and the root, whose path is one character too, is bound as well. *)
Lemma deepest_longest b name m :
  bindings_wf b → m ∈ bt_keys b → at_or_above m name →
  (∀ p, p ∈ bt_keys b → at_or_above p name → (length (parts_of p) ≤ length (parts_of m))%nat) →
  ("." ∈ bt_keys b → m ≠ "." → (2 ≤ String.length m)%nat) →
  ∀ p, p ∈ bt_keys b → at_or_above p name → p ≠ m → (String.length p < String.length m)%nat.
Proof.
  intros [_ Hv] Hm Hma Hdeep Hroot p Hp Hpa Hne. specialize (Hdeep p Hp Hpa).
  destruct (valid_path_parts p (Hv p Hp)) as [Hgp Ep].
  destruct (valid_path_parts m (Hv m Hm)) as [Hgm Em]. unfold at_or_above in *.
  assert (∃ rs, parts_of m = parts_of p ++ rs) as [rs Hrs].
  { destruct (prefix_weak_total _ _ _ Hpa Hma) as [?|[rs Hrs]]; [done|].
    assert (rs = []) as ->; [|exists []; by rewrite Hrs, !app_nil_r].
    rewrite Hrs, length_app in Hdeep. by destruct rs; [|cbn in Hdeep; lia]. }
  assert (rs ≠ []) as Hr.
  { intros ->. rewrite app_nil_r in Hrs. apply Hne. by rewrite <- Ep, <- Em, Hrs. }
  destruct (decide (p = ".")) as [->|Hd]; [by apply Hroot; [|congruence]|].
  assert (parts_of p ≠ []) as Hpp by (intros E; apply Hd; by rewrite <- Ep, E).
  rewrite Hrs in Hgm. apply Forall_app in Hgm as [_ Hgr].
  pose proof (of_parts_length _ _ Hpp Hr Hgr) as Hl. by rewrite <- Hrs, Ep, Em in Hl.
Qed.

(** C39. A mount answers for the paths below it: when nothing is bound at the path
    itself and the mount is the deepest binding above it, [stat] and every routed
    write that the mounted filesystem accepts go to that filesystem, at the path
    of the source followed by the rest of the components, and their result is the
    result of the call.  A mount at a name of one letter competes with a bound root
    ([vfs_root_before_letter]); the theorem leaves that case out. *)
Theorem vfs_mount_answers {W H} `{!HasBindings W} `{!FileHandle W H} `{!BoxDir H}
    (table : nat → FileSystem W H) w m t ts name rel :
  bindings_wf (bindings w) → valid_path name = true → valid_path (t_path t) = true →
  bt_get m (bindings w) = Some (t :: ts) → bt_get name (bindings w) = None →
  parts_of name = parts_of m ++ rel → rel ≠ [] →
  (∀ p, p ∈ bt_keys (bindings w) → at_or_above p name →
     (length (parts_of p) ≤ length (parts_of m))%nat) →
  ("." ∈ bt_keys (bindings w) → m ≠ "." → (2 ≤ String.length m)%nat) →
  let full := of_parts (parts_of (t_path t) ++ rel) in
  (∀ ctx meta w', fs_stat (table (t_fs t)) (Ctx.with_origin name "stat" ctx) full w = (Ok meta, w') →
     Vfs.stat table ctx name w = (Ok (Meta.set_name (base_name name) meta), w')) ∧
  (∀ T op (f : BindTarget → string → M W T) v w', f t full w = (Ok v, w') →
     Vfs.route_write name op f w = (Ok v, w')).
Proof.
  intros Hwf Hn Ht Hm Hnone Hrel Hne Hdeep Hroot full.
  assert (m ∈ bt_keys (bindings w)) as Hmk by (apply bt_keys_get; eauto).
  assert (valid_path m = true) as Hvm by (by apply Hwf).
  pose proof (deepest_longest _ name m Hwf Hmk ltac:(by exists rel) Hdeep Hroot) as Hlen.
  destruct (matching_first (bindings w) name (m, t :: ts)) as [rest Hmatch];
    [done|done|done|by exists rel|done|].
  assert (Vfs.target_path m (t_path t) name = full) as Hfull by (by apply target_path_parts).
  assert (m ≠ name) as Hmn by congruence.
  assert (name ≠ ".") as Hdot.
  { intros ->. change (parts_of ".") with (@nil string) in Hrel.
    symmetry in Hrel. by apply app_nil in Hrel as [_ ?]. }
  split.
  - intros ctx meta w' Hstat. unfold Vfs.stat. rewrite Hn, clean_path_id by done.
    rewrite (eff_bind_Ok _ _ _ tt w) by done. rewrite decide_False by done.
    rewrite (eff_bind_Ok _ _ _ None w) by (unfold Vfs.direct_targets, gets; by rewrite Hnone).
    rewrite (eff_bind_Ok _ _ _ None w) by done.
    rewrite (eff_bind_Ok _ _ _ ((m, t :: ts) :: rest) w)
      by (unfold Vfs.matching_targets, gets; by rewrite Hmatch).
    rewrite (eff_bind_Ok _ _ _ (Some (Meta.set_name (base_name name) meta)) w'); [done|].
    unfold Vfs.routes_above. cbn [mbind list_bind]. rewrite decide_False by done.
    cbn [fmap list_fmap app Vfs.stat_above]. rewrite Hfull.
    rewrite (eff_bind_Ok _ _ _ (Ok meta) w'); [done|]. unfold attempt, Vfs.target_fs. by rewrite Hstat.
  - intros T op f v w' Hf. unfold Vfs.route_write. rewrite clean_path_id by done.
    rewrite (eff_bind_Ok _ _ _ None w) by (unfold Vfs.direct_targets, gets; by rewrite Hnone).
    rewrite (eff_bind_Ok _ _ _ ((m, t :: ts) :: rest) w)
      by (unfold Vfs.matching_targets, gets; by rewrite Hmatch).
    unfold Vfs.routes. cbn [mbind list_bind fmap list_fmap app Vfs.route_above]. rewrite Hfull.
    rewrite (eff_bind_Ok _ _ _ (Ok v) w'); [done|]. unfold attempt. by rewrite Hf.
Qed.

(** [unbind] undoes [bind]: after binding a source that was not bound at the
    path yet, before or after what is there, unbinding it gives back the table. *)
Theorem vfs_unbind_bind {W H} `{!HasBindings W} `{!FileHandle W H} `{!BoxDir H}
    (table : nat → FileSystem W H) src src_path dst_path mode w w1 :
  mode ≠ Replace → bt_wf (bindings w) → bt_get (clean_path dst_path) (bindings w) ≠ Some [] →
  (∀ t, t ∈ default [] (bt_get (clean_path dst_path) (bindings w)) →
     ¬ (t_fs t = src ∧ t_path t = clean_path src_path)) →
  (∀ ctx p w', bindings (fs_stat (table src) ctx p w').2 = bindings w') →
  Vfs.bind table src src_path dst_path mode w = (Ok tt, w1) →
  ∃ w2, Vfs.unbind src src_path dst_path w1 = (Ok tt, w2) ∧ bindings w2 = bindings w.
Proof.
  intros Hmode Hwf Hne Hnew Hpure. unfold Vfs.bind, Vfs.unbind.
  intros ([] & w0 & Hg1 & Hrun)%eff_bind_inv.
  destruct (valid_path src_path); [injection Hg1 as <-|done].
  apply eff_bind_inv in Hrun as ([] & w0 & Hg2 & Hrun).
  destruct (valid_path dst_path); [injection Hg2 as <-|done].
  apply eff_bind_inv in Hrun as (meta & w0 & Hstat & Hrun).
  assert (bindings w0 = bindings w) as Hb.
  { pose proof (Hpure (Ctx.with_origin (clean_path src_path) "stat" Ctx.new) (clean_path src_path) w)
      as Hp. by rewrite Hstat in Hp. }
  injection Hrun as <-. eexists. split; [reflexivity|].
  rewrite !bindings_set, Hb. set (old := default [] (bt_get (clean_path dst_path) (bindings w))) in *.
  set (keep := λ t, negb (bool_decide (t_fs t = src) && bool_decide (t_path t = clean_path src_path))).
  set (t := mkBindTarget src (clean_path src_path) meta).
  assert (keep t = false) as Ht by (unfold keep; cbn; by rewrite !bool_decide_true).
  assert (filter (λ t, keep t = true) old = old) as Hold.
  { apply filter_all. intros x Hx. specialize (Hnew x Hx). unfold keep.
    apply negb_true_iff, not_true_iff_false. by rewrite andb_true_iff, !bool_decide_eq_true. }
  destruct mode; [|done|]; apply retain_undo; try done; fold old.
  - by rewrite filter_cons_False by (by rewrite Ht).
  - rewrite filter_app, Hold. rewrite filter_cons_False by (by rewrite Ht).
    by rewrite filter_nil, app_nil_r.
Qed.

(** ** What the code does at the edges *)

(** The root binding is a group of length one: it is tried before a mount with a
    one-letter name, although the mount is deeper. *)
Lemma vfs_root_before_letter :
  fst <$> Vfs.matching [(".", [sample_target 0]); ("a", [sample_target 1])] "a/x" = ["."; "a"].
Proof. by vm_compute. Qed.

(** Renaming a file of a mount to a path outside it renames the file, inside the
    mounted filesystem, to the root: the tree's root becomes a regular file. *)
Lemma vfs_rename_outside :
  let r := Vfs.rename sample_table "mnt/x" "elsewhere/y" sample_mount in
  r.1 = Ok tt ∧
  node_is_dir (node_inner sample 0) = true ∧ bt_get "." (mw_nodes sample) = Some 0%nat ∧
  match bt_get "." (mw_nodes r.2.2) with
  | Some i => node_is_dir (node_inner r.2.2 i) = false
  | None => False
  end.
Proof. by vm_compute. Qed.

(** ** Witnesses *)

Lemma vfs_mount_order_witness :
  let b := [(".", [sample_target 0]); ("ab", [sample_target 1]); ("ab/cd", [sample_target 2])] in
  fst <$> Vfs.matching b "ab/cd/e" = ["ab/cd"; "ab"; "."] ∧
  (∀ g, g ∈ Vfs.matching b "ab/cd/e" ↔ bt_get g.1 b = Some g.2 ∧ at_or_above g.1 "ab/cd/e") ∧
  (∀ l1 g1 l2 g2 l3, Vfs.matching b "ab/cd/e" = l1 ++ g1 :: l2 ++ g2 :: l3 → g1.1 ≠ "." →
     at_or_above g2.1 g1.1 ∧ g2.1 ≠ g1.1).
Proof.
  split; [by vm_compute|]. apply (vfs_mount_order _ "ab/cd/e"); [|done]. split.
  - repeat constructor.
  - intros p Hp. repeat (apply elem_of_cons in Hp as [->|Hp]; [done|]).
    by apply elem_of_nil in Hp.
Defined.

Lemma vfs_mount_answers_witness :
  Vfs.stat sample_table Ctx.new "mnt/d/a" sample_mount =
    (Ok (Meta.set_name "a" (Meta.file "a" 420 2)), sample_mount) ∧
  (Vfs.mkdir sample_table "mnt/e" 493 sample_mount).1 = Ok tt.
Proof.
  assert (bindings_wf (bindings sample_mount)) as Hwf.
  { split; [repeat constructor|]. intros p Hp.
    apply elem_of_cons in Hp as [->|Hp]; [done|]. by apply elem_of_nil in Hp. }
  assert (∀ name p, p ∈ bt_keys (bindings sample_mount) → at_or_above p name →
    (length (parts_of p) ≤ length (parts_of "mnt"))%nat) as Hlen.
  { intros name p Hp. apply elem_of_cons in Hp as [->|Hp]; [done|]. by apply elem_of_nil in Hp. }
  split.
  - apply (vfs_mount_answers sample_table sample_mount "mnt" (sample_target 0) [] "mnt/d/a" ["d"; "a"]
      Hwf eq_refl eq_refl eq_refl eq_refl eq_refl ltac:(done) (Hlen _) ltac:(cbn; lia)). by vm_compute.
  - destruct (fs_mkdir (sample_table 0) "e" 493 sample_mount) as [r w'] eqn:Hmk.
    assert (r = Ok tt) as -> by (apply (f_equal fst) in Hmk; revert Hmk; by vm_compute).
    unfold Vfs.mkdir.
    rewrite (proj2 (vfs_mount_answers sample_table sample_mount "mnt" (sample_target 0) [] "mnt/e" ["e"]
      Hwf eq_refl eq_refl eq_refl eq_refl eq_refl ltac:(done) (Hlen _) ltac:(cbn; lia))
      unit "mkdir" _ tt w'); [done|].
    revert Hmk. unfold Vfs.when_parent, mbind, eff_bind. done.
Defined.

Lemma vfs_unbind_bind_witness :
  let w1 := (Vfs.bind sample_table 1 "d" "mnt" After sample_mount).2 in
  Vfs.bind sample_table 1 "d" "mnt" After sample_mount = (Ok tt, w1) ∧
  ∃ w2, Vfs.unbind 1 "d" "mnt" w1 = (Ok tt, w2) ∧ bindings w2 = bindings sample_mount.
Proof.
  split; [by vm_compute|].
  apply (vfs_unbind_bind sample_table 1 "d" "mnt" After sample_mount);
    [done|repeat constructor|done| | |by vm_compute].
  - intros t Ht. vm_compute in Ht. apply elem_of_cons in Ht as [->|Ht]; [by intros [? _]|].
    by apply elem_of_nil in Ht.
  - intros ctx p [b w]. change (bindings (on_snd (MemFs.stat 2 ctx p) (b, w)).2 = b).
    unfold on_snd. by destruct (MemFs.stat 2 ctx p w).
Defined.
