(* ===== verification/P9Codec.v ===== *)
(** * star9-protocol: the 9P2000.L codec

    Models the message types, [encode_request], [decode_request],
    [encode_response], [decode_response], the directory-entry codec, the frame
    layer and the [Decoder] of [crates/star9-protocol/src/p9.rs].

    Bytes are [byte]s, the integers of a message are [Z]s with their width in
    the well-formedness predicates, strings are byte strings that must be UTF-8
    (the invariant of Rust's [String]).  The constructors of [NinePRequest] and
    [NinePResponse] carry the T and R of the 9P message names, because the two
    enums of the source share their constructor names. *)

From stdpp Require Import base list numbers option strings sorting pretty.
From Stdlib Require Import ZArith Lia Ascii.
From S2P Require Import Prelude Strs Core.

Local Open Scope Z_scope.

(** ** Constants *)

Definition VERSION : string := "9P2000.L".
Definition DEFAULT_MSIZE : Z := 64 * 1024.
Definition NOFID : Z := U32_MAX.
Definition NOTAG : Z := U16_MAX.
Definition AT_REMOVEDIR : Z := 512. (* 0x200 *)
Definition MAX_STREAM_FRAME_SIZE : Z := DEFAULT_MSIZE.

Module msg.
Definition RLERROR := 7.
Definition TLOPEN := 12.
Definition RLOPEN := 13.
Definition TLCREATE := 14.
Definition RLCREATE := 15.
Definition TSYMLINK := 16.
Definition RSYMLINK := 17.
Definition TREADLINK := 22.
Definition RREADLINK := 23.
Definition TGETATTR := 24.
Definition RGETATTR := 25.
Definition TSETATTR := 26.
Definition RSETATTR := 27.
Definition TXATTRWALK := 30.
Definition RXATTRWALK := 31.
Definition TXATTRCREATE := 32.
Definition RXATTRCREATE := 33.
Definition TREADDIR := 40.
Definition RREADDIR := 41.
Definition TFSYNC := 50.
Definition RFSYNC := 51.
Definition TLINK := 70.
Definition RLINK := 71.
Definition TMKDIR := 72.
Definition RMKDIR := 73.
Definition TRENAMEAT := 74.
Definition RRENAMEAT := 75.
Definition TUNLINKAT := 76.
Definition RUNLINKAT := 77.
Definition TVERSION := 100.
Definition RVERSION := 101.
Definition TATTACH := 104.
Definition RATTACH := 105.
Definition TFLUSH := 108.
Definition RFLUSH := 109.
Definition TWALK := 110.
Definition RWALK := 111.
Definition TREAD := 116.
Definition RREAD := 117.
Definition TWRITE := 118.
Definition RWRITE := 119.
Definition TCLUNK := 120.
Definition RCLUNK := 121.
Definition TREMOVE := 122.
Definition RREMOVE := 123.
End msg.

(** ** Messages *)

Record Qid := mkQid { qid_typ : Z; qid_version : Z; qid_path : Z }.

Record NinePAttr := mkNinePAttr {
  at_valid : Z; at_qid : Qid; at_mode : Z; at_uid : Z; at_gid : Z; at_nlink : Z;
  at_rdev : Z; at_size : Z; at_blksize : Z; at_blocks : Z;
  at_atime_seconds : Z; at_atime_nanoseconds : Z;
  at_mtime_seconds : Z; at_mtime_nanoseconds : Z;
  at_ctime_seconds : Z; at_ctime_nanoseconds : Z;
  at_btime_seconds : Z; at_btime_nanoseconds : Z;
  at_gen : Z; at_data_version : Z
}.

Record SetAttr := mkSetAttr {
  sa_valid : Z; sa_mode : Z; sa_uid : Z; sa_gid : Z; sa_size : Z;
  sa_atime_seconds : Z; sa_atime_nanoseconds : Z;
  sa_mtime_seconds : Z; sa_mtime_nanoseconds : Z
}.

(** [SetAttr::default()] *)
Definition SetAttr_default : SetAttr := mkSetAttr 0 0 0 0 0 0 0 0 0.

Record NinePDirent := mkNinePDirent {
  de_qid : Qid; de_offset : Z; de_typ : Z; de_name : string
}.

Inductive NinePRequest :=
| TVersion (msize : Z) (version : string)
| TAttach (fid afid : Z) (uname aname : string) (n_uname : Z)
| TWalk (fid newfid : Z) (names : list string)
| TLopen (fid flags : Z)
| TLcreate (fid : Z) (name : string) (flags mode gid : Z)
| TGetAttr (fid request_mask : Z)
| TSetAttr (fid : Z) (attr : SetAttr)
| TXattrWalk (fid newfid : Z) (name : string)
| TXattrCreate (fid : Z) (name : string) (size flags : Z)
| TRead (fid offset count : Z)
| TWrite (fid offset : Z) (data : list byte)
| TClunk (fid : Z)
| TRemove (fid : Z)
| TMkdir (fid : Z) (name : string) (mode gid : Z)
| TLink (fid newdirfid : Z) (name : string)
| TReaddir (fid offset count : Z)
| TRenameAt (olddirfid : Z) (oldname : string) (newdirfid : Z) (newname : string)
| TUnlinkAt (dirfid : Z) (name : string) (flags : Z)
| TSymlink (fid : Z) (name target : string) (gid : Z)
| TReadlink (fid : Z)
| TFsync (fid : Z)
| TFlush (oldtag : Z).

Inductive NinePResponse :=
| RLerror (ecode : Z)
| RVersion (msize : Z) (version : string)
| RAttach (qid : Qid)
| RWalk (qids : list Qid)
| RLopen (qid : Qid) (iounit : Z)
| RLcreate (qid : Qid) (iounit : Z)
| RGetAttr (attr : NinePAttr)
| RSetAttr
| RXattrWalk (size : Z)
| RXattrCreate
| RRead (data : list byte)
| RWrite (count : Z)
| RClunk
| RRemove
| RMkdir (qid : Qid)
| RLink
| RReaddir (data : list byte)
| RRenameAt
| RUnlinkAt
| RSymlink (qid : Qid)
| RReadlink (target : string)
| RFsync
| RFlush.

(** ** Encoding *)

(** [value.to_le_bytes()] for an [n]-byte integer, and [from_le_bytes] *)
Fixpoint le_bytes (n : nat) (value : Z) : list byte :=
  match n with
  | O => []
  | S n' => byte_of_Z value :: le_bytes n' (value / 256)
  end.

Fixpoint from_le_bytes (bs : list byte) : Z :=
  match bs with
  | [] => 0
  | b :: bs' => byte_to_Z b + 256 * from_le_bytes bs'
  end.

Definition put_u8 (out : list byte) (value : Z) : list byte := out ++ [byte_of_Z value].
Definition put_u16 (out : list byte) (value : Z) : list byte := out ++ le_bytes 2 value.
Definition put_u32 (out : list byte) (value : Z) : list byte := out ++ le_bytes 4 value.
Definition put_u64 (out : list byte) (value : Z) : list byte := out ++ le_bytes 8 value.

Definition put_string (out : list byte) (value : string) : Result (list byte) :=
  let len := blen (bytes_of value) in
  if len <=? U16_MAX then Ok (put_u16 out len ++ bytes_of value) else Err (EKind Invalid).

Definition put_counted_data (out data : list byte) : Result (list byte) :=
  let len := blen data in
  if len <=? U32_MAX then Ok (put_u32 out len ++ data) else Err (EKind Invalid).

Definition encode_qid (out : list byte) (qid : Qid) : list byte :=
  put_u64 (put_u32 (put_u8 out (qid_typ qid)) (qid_version qid)) (qid_path qid).

Definition encode_attr (out : list byte) (attr : NinePAttr) : list byte :=
  let out := put_u64 out (at_valid attr) in
  let out := encode_qid out (at_qid attr) in
  let out := put_u32 out (at_mode attr) in
  let out := put_u32 out (at_uid attr) in
  let out := put_u32 out (at_gid attr) in
  let out := put_u64 out (at_nlink attr) in
  let out := put_u64 out (at_rdev attr) in
  let out := put_u64 out (at_size attr) in
  let out := put_u64 out (at_blksize attr) in
  let out := put_u64 out (at_blocks attr) in
  let out := put_u64 out (at_atime_seconds attr) in
  let out := put_u64 out (at_atime_nanoseconds attr) in
  let out := put_u64 out (at_mtime_seconds attr) in
  let out := put_u64 out (at_mtime_nanoseconds attr) in
  let out := put_u64 out (at_ctime_seconds attr) in
  let out := put_u64 out (at_ctime_nanoseconds attr) in
  let out := put_u64 out (at_btime_seconds attr) in
  let out := put_u64 out (at_btime_nanoseconds attr) in
  let out := put_u64 out (at_gen attr) in
  put_u64 out (at_data_version attr).

Definition encode_setattr (out : list byte) (attr : SetAttr) : list byte :=
  let out := put_u32 out (sa_valid attr) in
  let out := put_u32 out (sa_mode attr) in
  let out := put_u32 out (sa_uid attr) in
  let out := put_u32 out (sa_gid attr) in
  let out := put_u64 out (sa_size attr) in
  let out := put_u64 out (sa_atime_seconds attr) in
  let out := put_u64 out (sa_atime_nanoseconds attr) in
  let out := put_u64 out (sa_mtime_seconds attr) in
  put_u64 out (sa_mtime_nanoseconds attr).

(** [for name in names { put_string(&mut body, name)?; }] *)
Fixpoint put_strings (out : list byte) (names : list string) : Result (list byte) :=
  match names with
  | [] => Ok out
  | name :: names' => out ← put_string out name; put_strings out names'
  end.

Definition put_qids (out : list byte) (qids : list Qid) : list byte :=
  foldl encode_qid out qids.

(** [len.try_into()] to a [u16] followed by [put_u16] *)
Definition put_count16 (out : list byte) (n : nat) : Result (list byte) :=
  if Z.of_nat n <=? U16_MAX then Ok (put_u16 out (Z.of_nat n)) else Err (EKind Invalid).

Definition encode_frame (typ tag : Z) (body : list byte) : Result (list byte) :=
  let size := 7 + blen body in
  if size <=? U32_MAX then
    let out := put_u32 [] size in
    let out := put_u8 out typ in
    let out := put_u16 out tag in
    Ok (out ++ body)
  else Err (EKind Invalid).

(** The [match] of [encode_request]: the message type and the body. *)
Definition encode_request_body (request : NinePRequest) : Result (Z * list byte) :=
  let body : list byte := [] in
  match request with
  | TVersion msize version =>
      let body := put_u32 body msize in
      body ← put_string body version;
      Ok (msg.TVERSION, body)
  | TAttach fid afid uname aname n_uname =>
      let body := put_u32 body fid in
      let body := put_u32 body afid in
      body ← put_string body uname;
      body ← put_string body aname;
      let body := put_u32 body n_uname in
      Ok (msg.TATTACH, body)
  | TWalk fid newfid names =>
      let body := put_u32 body fid in
      let body := put_u32 body newfid in
      body ← put_count16 body (length names);
      body ← put_strings body names;
      Ok (msg.TWALK, body)
  | TLopen fid flags =>
      let body := put_u32 body fid in
      let body := put_u32 body flags in
      Ok (msg.TLOPEN, body)
  | TLcreate fid name flags mode gid =>
      let body := put_u32 body fid in
      body ← put_string body name;
      let body := put_u32 body flags in
      let body := put_u32 body mode in
      let body := put_u32 body gid in
      Ok (msg.TLCREATE, body)
  | TGetAttr fid request_mask =>
      let body := put_u32 body fid in
      let body := put_u64 body request_mask in
      Ok (msg.TGETATTR, body)
  | TSetAttr fid attr =>
      let body := put_u32 body fid in
      let body := encode_setattr body attr in
      Ok (msg.TSETATTR, body)
  | TXattrWalk fid newfid name =>
      let body := put_u32 body fid in
      let body := put_u32 body newfid in
      body ← put_string body name;
      Ok (msg.TXATTRWALK, body)
  | TXattrCreate fid name size flags =>
      let body := put_u32 body fid in
      body ← put_string body name;
      let body := put_u64 body size in
      let body := put_u32 body flags in
      Ok (msg.TXATTRCREATE, body)
  | TRead fid offset count =>
      let body := put_u32 body fid in
      let body := put_u64 body offset in
      let body := put_u32 body count in
      Ok (msg.TREAD, body)
  | TWrite fid offset data =>
      let body := put_u32 body fid in
      let body := put_u64 body offset in
      body ← put_counted_data body data;
      Ok (msg.TWRITE, body)
  | TClunk fid => Ok (msg.TCLUNK, put_u32 body fid)
  | TRemove fid => Ok (msg.TREMOVE, put_u32 body fid)
  | TMkdir fid name mode gid =>
      let body := put_u32 body fid in
      body ← put_string body name;
      let body := put_u32 body mode in
      let body := put_u32 body gid in
      Ok (msg.TMKDIR, body)
  | TLink fid newdirfid name =>
      let body := put_u32 body fid in
      let body := put_u32 body newdirfid in
      body ← put_string body name;
      Ok (msg.TLINK, body)
  | TReaddir fid offset count =>
      let body := put_u32 body fid in
      let body := put_u64 body offset in
      let body := put_u32 body count in
      Ok (msg.TREADDIR, body)
  | TRenameAt olddirfid oldname newdirfid newname =>
      let body := put_u32 body olddirfid in
      body ← put_string body oldname;
      let body := put_u32 body newdirfid in
      body ← put_string body newname;
      Ok (msg.TRENAMEAT, body)
  | TUnlinkAt dirfid name flags =>
      let body := put_u32 body dirfid in
      body ← put_string body name;
      let body := put_u32 body flags in
      Ok (msg.TUNLINKAT, body)
  | TSymlink fid name target gid =>
      let body := put_u32 body fid in
      body ← put_string body name;
      body ← put_string body target;
      let body := put_u32 body gid in
      Ok (msg.TSYMLINK, body)
  | TReadlink fid => Ok (msg.TREADLINK, put_u32 body fid)
  | TFsync fid => Ok (msg.TFSYNC, put_u32 body fid)
  | TFlush oldtag => Ok (msg.TFLUSH, put_u16 body oldtag)
  end.

Definition encode_request (tag : Z) (request : NinePRequest) : Result (list byte) :=
  '(typ, body) ← encode_request_body request;
  encode_frame typ tag body.

Definition encode_response_body (response : NinePResponse) : Result (Z * list byte) :=
  let body : list byte := [] in
  match response with
  | RLerror ecode => Ok (msg.RLERROR, put_u32 body ecode)
  | RVersion msize version =>
      let body := put_u32 body msize in
      body ← put_string body version;
      Ok (msg.RVERSION, body)
  | RAttach qid => Ok (msg.RATTACH, encode_qid body qid)
  | RWalk qids =>
      body ← put_count16 body (length qids);
      Ok (msg.RWALK, put_qids body qids)
  | RLopen qid iounit => Ok (msg.RLOPEN, put_u32 (encode_qid body qid) iounit)
  | RLcreate qid iounit => Ok (msg.RLCREATE, put_u32 (encode_qid body qid) iounit)
  | RGetAttr attr => Ok (msg.RGETATTR, encode_attr body attr)
  | RSetAttr => Ok (msg.RSETATTR, body)
  | RXattrWalk size => Ok (msg.RXATTRWALK, put_u64 body size)
  | RXattrCreate => Ok (msg.RXATTRCREATE, body)
  | RRead data =>
      body ← put_counted_data body data;
      Ok (msg.RREAD, body)
  | RWrite count => Ok (msg.RWRITE, put_u32 body count)
  | RClunk => Ok (msg.RCLUNK, body)
  | RRemove => Ok (msg.RREMOVE, body)
  | RMkdir qid => Ok (msg.RMKDIR, encode_qid body qid)
  | RLink => Ok (msg.RLINK, body)
  | RReaddir data =>
      body ← put_counted_data body data;
      Ok (msg.RREADDIR, body)
  | RRenameAt => Ok (msg.RRENAMEAT, body)
  | RUnlinkAt => Ok (msg.RUNLINKAT, body)
  | RSymlink qid => Ok (msg.RSYMLINK, encode_qid body qid)
  | RReadlink target =>
      body ← put_string body target;
      Ok (msg.RREADLINK, body)
  | RFsync => Ok (msg.RFSYNC, body)
  | RFlush => Ok (msg.RFLUSH, body)
  end.

Definition encode_response (tag : Z) (response : NinePResponse) : Result (list byte) :=
  '(typ, body) ← encode_response_body response;
  encode_frame typ tag body.

Fixpoint encode_dirents_from (out : list byte) (dirents : list NinePDirent)
    : Result (list byte) :=
  match dirents with
  | [] => Ok out
  | dirent :: rest =>
      let out := encode_qid out (de_qid dirent) in
      let out := put_u64 out (de_offset dirent) in
      let out := put_u8 out (de_typ dirent) in
      out ← put_string out (de_name dirent);
      encode_dirents_from out rest
  end.

Definition encode_dirents (dirents : list NinePDirent) : Result (list byte) :=
  encode_dirents_from [] dirents.

(** ** Decoding *)

Record Decoder := mkDecoder { dec_data : list byte; dec_offset : Z }.

Module Dec.
Definition new (data : list byte) : Decoder := mkDecoder data 0.

Definition is_empty (d : Decoder) : bool := dec_offset d =? blen (dec_data d).

Definition finish : M Decoder unit := λ d,
  if is_empty d then (Ok tt, d) else (Err (EKind Invalid), d).

Definition bytes (len : Z) : M Decoder (list byte) := λ d,
  let e := dec_offset d + len in
  if USIZE_MAX <? e then (Err (EKind Invalid), d)
  else if e <=? blen (dec_data d) then
    (Ok (take (Z.to_nat len) (drop (Z.to_nat (dec_offset d)) (dec_data d))),
     mkDecoder (dec_data d) e)
  else (Err (EKind UnexpectedEof), d).

(** [bytes.try_into()] to an array of [n] bytes, [map_err]ed to [Invalid] *)
Definition array (n : nat) (bs : list byte) : Result (list byte) :=
  if decide (length bs = n) then Ok bs else Err (EKind Invalid).

Definition u8 : M Decoder Z :=
  bs ← bytes 1;
  match bs with b :: _ => mret (byte_to_Z b) | [] => panic end.

Definition u16 : M Decoder Z :=
  bs ← bytes 2; bs ← lift (array 2 bs); mret (from_le_bytes bs).

Definition u32 : M Decoder Z :=
  bs ← bytes 4; bs ← lift (array 4 bs); mret (from_le_bytes bs).

Definition u64 : M Decoder Z :=
  bs ← bytes 8; bs ← lift (array 8 bs); mret (from_le_bytes bs).

Definition str : M Decoder string :=
  len ← u16;
  bs ← bytes len;
  ok_or (from_utf8 bs) (EKind Invalid).

Definition counted_data : M Decoder (list byte) :=
  len ← u32;
  bytes len.

Definition qid : M Decoder Qid :=
  typ ← u8; version ← u32; path ← u64; mret (mkQid typ version path).

Definition attr : M Decoder NinePAttr :=
  valid ← u64; q ← qid; mode ← u32; uid ← u32; gid ← u32; nlink ← u64;
  rdev ← u64; size ← u64; blksize ← u64; blocks ← u64;
  atime_s ← u64; atime_n ← u64; mtime_s ← u64; mtime_n ← u64;
  ctime_s ← u64; ctime_n ← u64; btime_s ← u64; btime_n ← u64;
  gen ← u64; data_version ← u64;
  mret (mkNinePAttr valid q mode uid gid nlink rdev size blksize blocks
    atime_s atime_n mtime_s mtime_n ctime_s ctime_n btime_s btime_n gen data_version).

Definition setattr : M Decoder SetAttr :=
  valid ← u32; mode ← u32; uid ← u32; gid ← u32; size ← u64;
  atime_s ← u64; atime_n ← u64; mtime_s ← u64; mtime_n ← u64;
  mret (mkSetAttr valid mode uid gid size atime_s atime_n mtime_s mtime_n).

(** [for _ in 0..n { out.push(p?); }] *)
Fixpoint times {A} (n : nat) (p : M Decoder A) : M Decoder (list A) :=
  match n with
  | O => mret []
  | S n' => x ← p; xs ← times n' p; mret (x :: xs)
  end.

Definition dirent : M Decoder NinePDirent :=
  q ← qid; offset ← u64; typ ← u8; name ← str; mret (mkNinePDirent q offset typ name).
End Dec.

(** [&frame[a..b]]: a panic when the range does not fit *)
Definition slice (a b : Z) (frame : list byte) : Result (list byte) :=
  if (0 <=? a) && (a <=? b) && (b <=? blen frame) then
    Ok (take (Z.to_nat (b - a)) (drop (Z.to_nat a) frame))
  else Panic.

Definition decode_frame (frame : list byte) : Result (Z * Z * Decoder) :=
  if blen frame <? 7 then Err (EKind Invalid)
  else
    head ← slice 0 4 frame;
    let size := from_le_bytes head in
    if negb (size =? blen frame) || (size <? 7) then Err (EKind Invalid)
    else
      typ ← slice 4 5 frame;
      tag ← slice 5 7 frame;
      rest ← slice 7 (blen frame) frame;
      Ok (from_le_bytes typ, from_le_bytes tag, Dec.new rest).

(** The [match typ] of [decode_request]. *)
Definition decode_request_body (typ : Z) : M Decoder NinePRequest :=
  if typ =? msg.TVERSION then
    msize ← Dec.u32; version ← Dec.str; mret (TVersion msize version)
  else if typ =? msg.TATTACH then
    fid ← Dec.u32; afid ← Dec.u32; uname ← Dec.str; aname ← Dec.str; n_uname ← Dec.u32;
    mret (TAttach fid afid uname aname n_uname)
  else if typ =? msg.TWALK then
    fid ← Dec.u32; newfid ← Dec.u32; n ← Dec.u16;
    names ← Dec.times (Z.to_nat n) Dec.str;
    mret (TWalk fid newfid names)
  else if typ =? msg.TLOPEN then
    fid ← Dec.u32; flags ← Dec.u32; mret (TLopen fid flags)
  else if typ =? msg.TLCREATE then
    fid ← Dec.u32; name ← Dec.str; flags ← Dec.u32; mode ← Dec.u32; gid ← Dec.u32;
    mret (TLcreate fid name flags mode gid)
  else if typ =? msg.TGETATTR then
    fid ← Dec.u32; request_mask ← Dec.u64; mret (TGetAttr fid request_mask)
  else if typ =? msg.TSETATTR then
    fid ← Dec.u32; attr ← Dec.setattr; mret (TSetAttr fid attr)
  else if typ =? msg.TXATTRWALK then
    fid ← Dec.u32; newfid ← Dec.u32; name ← Dec.str; mret (TXattrWalk fid newfid name)
  else if typ =? msg.TXATTRCREATE then
    fid ← Dec.u32; name ← Dec.str; size ← Dec.u64; flags ← Dec.u32;
    mret (TXattrCreate fid name size flags)
  else if typ =? msg.TREAD then
    fid ← Dec.u32; offset ← Dec.u64; count ← Dec.u32; mret (TRead fid offset count)
  else if typ =? msg.TWRITE then
    fid ← Dec.u32; offset ← Dec.u64; data ← Dec.counted_data; mret (TWrite fid offset data)
  else if typ =? msg.TCLUNK then fid ← Dec.u32; mret (TClunk fid)
  else if typ =? msg.TREMOVE then fid ← Dec.u32; mret (TRemove fid)
  else if typ =? msg.TMKDIR then
    fid ← Dec.u32; name ← Dec.str; mode ← Dec.u32; gid ← Dec.u32;
    mret (TMkdir fid name mode gid)
  else if typ =? msg.TLINK then
    fid ← Dec.u32; newdirfid ← Dec.u32; name ← Dec.str; mret (TLink fid newdirfid name)
  else if typ =? msg.TREADDIR then
    fid ← Dec.u32; offset ← Dec.u64; count ← Dec.u32; mret (TReaddir fid offset count)
  else if typ =? msg.TRENAMEAT then
    olddirfid ← Dec.u32; oldname ← Dec.str; newdirfid ← Dec.u32; newname ← Dec.str;
    mret (TRenameAt olddirfid oldname newdirfid newname)
  else if typ =? msg.TUNLINKAT then
    dirfid ← Dec.u32; name ← Dec.str; flags ← Dec.u32; mret (TUnlinkAt dirfid name flags)
  else if typ =? msg.TSYMLINK then
    fid ← Dec.u32; name ← Dec.str; target ← Dec.str; gid ← Dec.u32;
    mret (TSymlink fid name target gid)
  else if typ =? msg.TREADLINK then fid ← Dec.u32; mret (TReadlink fid)
  else if typ =? msg.TFSYNC then fid ← Dec.u32; mret (TFsync fid)
  else if typ =? msg.TFLUSH then oldtag ← Dec.u16; mret (TFlush oldtag)
  else throw (EMessage ("unsupported 9P request type " +:+ pretty typ)).

Definition decode_request (frame : list byte) : Result (Z * NinePRequest) :=
  '(typ, tag, d) ← decode_frame frame;
  fst ((request ← decode_request_body typ; Dec.finish ;; mret (tag, request)) d).

Definition decode_response_body (typ : Z) : M Decoder NinePResponse :=
  if typ =? msg.RLERROR then ecode ← Dec.u32; mret (RLerror ecode)
  else if typ =? msg.RVERSION then
    msize ← Dec.u32; version ← Dec.str; mret (RVersion msize version)
  else if typ =? msg.RATTACH then qid ← Dec.qid; mret (RAttach qid)
  else if typ =? msg.RWALK then
    n ← Dec.u16; qids ← Dec.times (Z.to_nat n) Dec.qid; mret (RWalk qids)
  else if typ =? msg.RLOPEN then qid ← Dec.qid; iounit ← Dec.u32; mret (RLopen qid iounit)
  else if typ =? msg.RLCREATE then qid ← Dec.qid; iounit ← Dec.u32; mret (RLcreate qid iounit)
  else if typ =? msg.RGETATTR then attr ← Dec.attr; mret (RGetAttr attr)
  else if typ =? msg.RSETATTR then mret RSetAttr
  else if typ =? msg.RXATTRWALK then size ← Dec.u64; mret (RXattrWalk size)
  else if typ =? msg.RXATTRCREATE then mret RXattrCreate
  else if typ =? msg.RREAD then data ← Dec.counted_data; mret (RRead data)
  else if typ =? msg.RWRITE then count ← Dec.u32; mret (RWrite count)
  else if typ =? msg.RCLUNK then mret RClunk
  else if typ =? msg.RREMOVE then mret RRemove
  else if typ =? msg.RMKDIR then qid ← Dec.qid; mret (RMkdir qid)
  else if typ =? msg.RLINK then mret RLink
  else if typ =? msg.RREADDIR then data ← Dec.counted_data; mret (RReaddir data)
  else if typ =? msg.RRENAMEAT then mret RRenameAt
  else if typ =? msg.RUNLINKAT then mret RUnlinkAt
  else if typ =? msg.RSYMLINK then qid ← Dec.qid; mret (RSymlink qid)
  else if typ =? msg.RREADLINK then target ← Dec.str; mret (RReadlink target)
  else if typ =? msg.RFSYNC then mret RFsync
  else if typ =? msg.RFLUSH then mret RFlush
  else throw (EMessage ("unsupported 9P response type " +:+ pretty typ)).

Definition decode_response (frame : list byte) : Result (Z * NinePResponse) :=
  '(typ, tag, d) ← decode_frame frame;
  fst ((response ← decode_response_body typ; Dec.finish ;; mret (tag, response)) d).

(** [while !d.is_empty() { out.push(..) }].  Every turn consumes at least one
    byte, so the length of the input is fuel enough. *)
Fixpoint decode_dirents_loop (fuel : nat) : M Decoder (list NinePDirent) := λ d,
  if Dec.is_empty d then (Ok [], d)
  else match fuel with
       | O => (NoFuel, d)
       | S fuel' =>
           (x ← Dec.dirent; xs ← decode_dirents_loop fuel'; mret (x :: xs)) d
       end.

Definition decode_dirents (data : list byte) : Result (list NinePDirent) :=
  fst (decode_dirents_loop (length data) (Dec.new data)).

(** ** The value ranges of the message types

    What the Rust types guarantee of a message: integer widths and UTF-8. *)

Definition qid_wf (q : Qid) : Prop :=
  in_u8 (qid_typ q) ∧ in_u32 (qid_version q) ∧ in_u64 (qid_path q).

Definition attr_wf (a : NinePAttr) : Prop :=
  in_u64 (at_valid a) ∧ qid_wf (at_qid a) ∧ in_u32 (at_mode a) ∧ in_u32 (at_uid a) ∧
  in_u32 (at_gid a) ∧ in_u64 (at_nlink a) ∧ in_u64 (at_rdev a) ∧ in_u64 (at_size a) ∧
  in_u64 (at_blksize a) ∧ in_u64 (at_blocks a) ∧
  in_u64 (at_atime_seconds a) ∧ in_u64 (at_atime_nanoseconds a) ∧
  in_u64 (at_mtime_seconds a) ∧ in_u64 (at_mtime_nanoseconds a) ∧
  in_u64 (at_ctime_seconds a) ∧ in_u64 (at_ctime_nanoseconds a) ∧
  in_u64 (at_btime_seconds a) ∧ in_u64 (at_btime_nanoseconds a) ∧
  in_u64 (at_gen a) ∧ in_u64 (at_data_version a).

Definition setattr_wf (a : SetAttr) : Prop :=
  in_u32 (sa_valid a) ∧ in_u32 (sa_mode a) ∧ in_u32 (sa_uid a) ∧ in_u32 (sa_gid a) ∧
  in_u64 (sa_size a) ∧ in_u64 (sa_atime_seconds a) ∧ in_u64 (sa_atime_nanoseconds a) ∧
  in_u64 (sa_mtime_seconds a) ∧ in_u64 (sa_mtime_nanoseconds a).

Definition dirent_wf (e : NinePDirent) : Prop :=
  qid_wf (de_qid e) ∧ in_u64 (de_offset e) ∧ in_u8 (de_typ e) ∧ str_valid (de_name e).

Definition request_wf (r : NinePRequest) : Prop :=
  match r with
  | TVersion msize version => in_u32 msize ∧ str_valid version
  | TAttach fid afid uname aname n_uname =>
      in_u32 fid ∧ in_u32 afid ∧ str_valid uname ∧ str_valid aname ∧ in_u32 n_uname
  | TWalk fid newfid names => in_u32 fid ∧ in_u32 newfid ∧ Forall str_valid names
  | TLopen fid flags => in_u32 fid ∧ in_u32 flags
  | TLcreate fid name flags mode gid =>
      in_u32 fid ∧ str_valid name ∧ in_u32 flags ∧ in_u32 mode ∧ in_u32 gid
  | TGetAttr fid request_mask => in_u32 fid ∧ in_u64 request_mask
  | TSetAttr fid attr => in_u32 fid ∧ setattr_wf attr
  | TXattrWalk fid newfid name => in_u32 fid ∧ in_u32 newfid ∧ str_valid name
  | TXattrCreate fid name size flags =>
      in_u32 fid ∧ str_valid name ∧ in_u64 size ∧ in_u32 flags
  | TRead fid offset count => in_u32 fid ∧ in_u64 offset ∧ in_u32 count
  | TWrite fid offset data => in_u32 fid ∧ in_u64 offset
  | TClunk fid | TRemove fid | TReadlink fid | TFsync fid => in_u32 fid
  | TMkdir fid name mode gid => in_u32 fid ∧ str_valid name ∧ in_u32 mode ∧ in_u32 gid
  | TLink fid newdirfid name => in_u32 fid ∧ in_u32 newdirfid ∧ str_valid name
  | TReaddir fid offset count => in_u32 fid ∧ in_u64 offset ∧ in_u32 count
  | TRenameAt olddirfid oldname newdirfid newname =>
      in_u32 olddirfid ∧ str_valid oldname ∧ in_u32 newdirfid ∧ str_valid newname
  | TUnlinkAt dirfid name flags => in_u32 dirfid ∧ str_valid name ∧ in_u32 flags
  | TSymlink fid name target gid =>
      in_u32 fid ∧ str_valid name ∧ str_valid target ∧ in_u32 gid
  | TFlush oldtag => in_u16 oldtag
  end.

Definition response_wf (r : NinePResponse) : Prop :=
  match r with
  | RLerror ecode => in_u32 ecode
  | RVersion msize version => in_u32 msize ∧ str_valid version
  | RAttach qid | RMkdir qid | RSymlink qid => qid_wf qid
  | RWalk qids => Forall qid_wf qids
  | RLopen qid iounit | RLcreate qid iounit => qid_wf qid ∧ in_u32 iounit
  | RGetAttr attr => attr_wf attr
  | RXattrWalk size => in_u64 size
  | RWrite count => in_u32 count
  | RReadlink target => str_valid target
  | _ => True
  end.
