(* ===== verification/P9CodecFacts.v ===== *)
(** * The 9P codec: laws

    The wire format of each field as a class of decoders ([Wire]), and the round
    trips of requests, responses, directory entries and frames built from it. *)

From stdpp Require Import base list numbers option strings sorting pretty.
From Stdlib Require Import ZArith Lia Ascii.
From S2P Require Import Prelude Strs Core P9Codec.

Local Open Scope Z_scope.

Set Warnings "-clear-no-such-hyp".

Create HintDb wire discriminated.

(** ** The wire formats *)

Definition wstr (s : string) : list byte :=
  le_bytes 2 (blen (bytes_of s)) ++ bytes_of s.

Definition wdata (bs : list byte) : list byte := le_bytes 4 (blen bs) ++ bs.

Definition str_ok (s : string) : Prop := str_valid s ∧ blen (bytes_of s) ≤ U16_MAX.

Definition data_ok (bs : list byte) : Prop := blen bs ≤ U32_MAX.

Definition wqid (q : Qid) : list byte :=
  concat [le_bytes 1 (qid_typ q); le_bytes 4 (qid_version q); le_bytes 8 (qid_path q)].

Definition wattr (a : NinePAttr) : list byte :=
  concat [le_bytes 8 (at_valid a); wqid (at_qid a); le_bytes 4 (at_mode a);
    le_bytes 4 (at_uid a); le_bytes 4 (at_gid a); le_bytes 8 (at_nlink a);
    le_bytes 8 (at_rdev a); le_bytes 8 (at_size a); le_bytes 8 (at_blksize a);
    le_bytes 8 (at_blocks a); le_bytes 8 (at_atime_seconds a);
    le_bytes 8 (at_atime_nanoseconds a); le_bytes 8 (at_mtime_seconds a);
    le_bytes 8 (at_mtime_nanoseconds a); le_bytes 8 (at_ctime_seconds a);
    le_bytes 8 (at_ctime_nanoseconds a); le_bytes 8 (at_btime_seconds a);
    le_bytes 8 (at_btime_nanoseconds a); le_bytes 8 (at_gen a);
    le_bytes 8 (at_data_version a)].

Definition wsetattr (a : SetAttr) : list byte :=
  concat [le_bytes 4 (sa_valid a); le_bytes 4 (sa_mode a); le_bytes 4 (sa_uid a);
    le_bytes 4 (sa_gid a); le_bytes 8 (sa_size a); le_bytes 8 (sa_atime_seconds a);
    le_bytes 8 (sa_atime_nanoseconds a); le_bytes 8 (sa_mtime_seconds a);
    le_bytes 8 (sa_mtime_nanoseconds a)].

Definition wdirent (e : NinePDirent) : list byte :=
  concat [wqid (de_qid e); le_bytes 8 (de_offset e); le_bytes 1 (de_typ e);
    wstr (de_name e)].

Definition dirent_ok (e : NinePDirent) : Prop :=
  dirent_wf e ∧ blen (bytes_of (de_name e)) ≤ U16_MAX.

(** A decoder whose input is a Rust slice: the offset is inside, and the slice is
    no longer than the language allows. *)
Definition dec_wf (d : Decoder) : Prop :=
  0 ≤ dec_offset d ≤ blen (dec_data d) ∧ blen (dec_data d) ≤ ISIZE_MAX.

Definition remaining (d : Decoder) : list byte :=
  drop (Z.to_nat (dec_offset d)) (dec_data d).

(** [parses p bs a]: on input [bs ++ rest], [p] gives [a] and leaves [rest]. *)
Definition parses {A} (p : M Decoder A) (bs : list byte) (a : A) : Prop :=
  ∀ d rest, dec_wf d → remaining d = bs ++ rest →
  ∃ d', p d = (Ok a, d') ∧ dec_wf d' ∧ remaining d' = rest.

(** [yields p Q]: when [p] gives [a], it has consumed some [bs] with [Q a bs]. *)
Definition yields {A} (p : M Decoder A) (Q : A → list byte → Prop) : Prop :=
  ∀ d a d', dec_wf d → p d = (Ok a, d') →
  ∃ bs, remaining d = bs ++ remaining d' ∧ dec_wf d' ∧ Q a bs.

(** [total p]: [p] answers [Ok] or [Err] whatever the input. *)
Definition total {A} (p : M Decoder A) : Prop :=
  ∀ d, dec_wf d →
  match p d with (Ok _, d') => dec_wf d' | (Err _, _) => True | _ => False end.

(** The interface of a field decoder: it reads exactly what [enc] writes. *)
Class Wire {A} (dec : M Decoder A) (enc : A → list byte) (ok : A → Prop) : Prop := {
  wire_parses a : ok a → parses dec (enc a) a;
  wire_yields : yields dec (λ a bs, bs = enc a ∧ ok a);
  wire_total : total dec
}.

(** ** Little-endian integers *)

Lemma length_le_bytes n v : length (le_bytes n v) = n.
Proof. revert v. induction n as [|n IH]; intros v; cbn; [done|]. by rewrite IH. Qed.

Lemma from_le_bytes_range bs : 0 ≤ from_le_bytes bs < 256 ^ Z.of_nat (length bs).
Proof.
  induction bs as [|b bs IH]; [done|]. cbn [from_le_bytes length].
  pose proof (byte_to_Z_range b). rewrite Nat2Z.inj_succ, Z.pow_succ_r by lia. lia.
Qed.

Lemma from_le_le_bytes n v : from_le_bytes (le_bytes n v) = v mod 256 ^ Z.of_nat n.
Proof.
  revert v. induction n as [|n IH]; intros v; [by rewrite Z.mod_1_r|].
  cbn [from_le_bytes le_bytes]. rewrite byte_to_of_Z, IH.
  rewrite Nat2Z.inj_succ, Z.pow_succ_r by lia.
  rewrite Z.rem_mul_r by lia. lia.
Qed.

Lemma le_from_le_bytes bs : le_bytes (length bs) (from_le_bytes bs) = bs.
Proof.
  induction bs as [|b bs IH]; [done|]. cbn [from_le_bytes le_bytes length].
  pose proof (byte_to_Z_range b). f_equal.
  - rewrite <- (byte_of_to_Z b) at 2. unfold byte_of_Z. do 3 f_equal.
    by rewrite Z.mul_comm, Z.mod_add by lia.
  - rewrite Z.mul_comm, Z.div_add by lia.
    rewrite (Z.div_small (byte_to_Z b)) by lia. by rewrite Z.add_0_l.
Qed.

Lemma blen_app bs1 bs2 : blen (bs1 ++ bs2) = blen bs1 + blen bs2.
Proof. unfold blen. rewrite length_app. lia. Qed.

Lemma blen_nonneg bs : 0 ≤ blen bs.
Proof. unfold blen. lia. Qed.

(** ** Decoder combinators *)

Lemma dec_wf_remaining d : dec_wf d → blen (remaining d) = blen (dec_data d) - dec_offset d.
Proof. intros [? ?]. unfold remaining, blen in *. rewrite length_drop. lia. Qed.

Lemma dec_wf_new bs : blen bs ≤ ISIZE_MAX → dec_wf (Dec.new bs).
Proof. intros ?. pose proof (blen_nonneg bs). split; cbn; lia. Qed.

Lemma parses_ret {A} (a : A) : parses (mret a) [] a.
Proof. intros d rest Hd Hrem. by exists d. Qed.

Lemma parses_bind {A B} (p : M Decoder A) (k : A → M Decoder B) bs bs' a b :
  parses p bs a → parses (k a) bs' b → parses (p ≫= k) (bs ++ bs') b.
Proof.
  intros Hp Hk d rest Hd Hrem. rewrite <- app_assoc in Hrem.
  destruct (Hp _ _ Hd Hrem) as (d1 & Hrun & Hd1 & Hrem1).
  rewrite (eff_bind_Ok _ _ _ _ _ Hrun). by apply Hk.
Qed.

Lemma yields_ret {A} (a : A) (Q : A → list byte → Prop) : Q a [] → yields (mret a) Q.
Proof. intros HQ d a' d' Hd [= <- <-]. by exists []. Qed.

Lemma yields_bind {A B} (p : M Decoder A) (k : A → M Decoder B) Q Q' :
  yields p Q → (∀ a bs, Q a bs → yields (k a) (λ b bs', Q' b (bs ++ bs'))) →
  yields (p ≫= k) Q'.
Proof.
  intros Hp Hk d b d' Hd (a & d1 & H1 & H2)%eff_bind_inv.
  destruct (Hp _ _ _ Hd H1) as (bs & Hrem & Hd1 & HQ).
  destruct (Hk _ _ HQ _ _ _ Hd1 H2) as (bs' & Hrem' & Hd' & HQ').
  exists (bs ++ bs'). by rewrite <- app_assoc, <- Hrem'.
Qed.

Lemma yields_throw {A} e (Q : A → list byte → Prop) : yields (throw e) Q.
Proof. by intros d a d' Hd [=]. Qed.

Lemma total_ret {A} (a : A) : total (mret a).
Proof. by intros d. Qed.

Lemma total_throw {A} e : total (A:=A) (throw e).
Proof. by intros d. Qed.

Lemma total_bind {A B} (p : M Decoder A) (k : A → M Decoder B) :
  total p → (∀ a, total (k a)) → total (p ≫= k).
Proof.
  intros Hp Hk d Hd. unfold mbind, eff_bind. specialize (Hp d Hd).
  destruct (p d) as [[a|e| |] d1]; cbn in *; try done. by apply Hk.
Qed.

Lemma total_bytes n : 0 ≤ n → total (Dec.bytes n).
Proof.
  intros Hn d [Ho Hm]. unfold Dec.bytes. cbn zeta.
  destruct (USIZE_MAX <? _); [done|]. destruct (_ <=? _) eqn:Hle; [|done].
  bool_to_prop. split; cbn; lia.
Qed.

#[export] Hint Resolve parses_ret parses_bind wire_parses wire_yields wire_total
  total_ret total_throw total_bind total_bytes yields_throw : wire.
#[export] Hint Extern 5 (Wire _ _ _) => typeclasses eauto : wire.

Lemma parses_bytes bs : parses (Dec.bytes (blen bs)) bs bs.
Proof.
  intros d rest Hd Hrem. pose proof (dec_wf_remaining d Hd) as Hlen.
  rewrite Hrem, blen_app in Hlen. pose proof (blen_nonneg rest). pose proof (blen_nonneg bs).
  destruct Hd as [Hoff Hmax]. unfold Dec.bytes.
  assert (USIZE_MAX = 18446744073709551615) by done.
  assert (ISIZE_MAX = 9223372036854775807) by done.
  rewrite (proj2 (Z.ltb_ge _ _)) by lia. rewrite (proj2 (Z.leb_le _ _)) by lia.
  fold (remaining d). rewrite Hrem. unfold blen at 1. rewrite Nat2Z.id, take_app_length.
  eexists. split; [done|]. split; [split; cbn; lia|].
  unfold remaining in *. cbn. rewrite Z2Nat.inj_add by lia.
  rewrite <- drop_drop, Hrem. unfold blen. by rewrite Nat2Z.id, drop_app_length.
Qed.

Lemma yields_bytes n : 0 ≤ n → yields (Dec.bytes n) (λ bs' bs, bs = bs' ∧ blen bs = n).
Proof.
  intros Hn d bs d' Hd. unfold Dec.bytes. case_match; [done|]. case_match; [|done].
  bool_to_prop. intros [= <- <-].
  fold (remaining d). exists (take (Z.to_nat n) (remaining d)).
  pose proof (dec_wf_remaining d Hd) as Hlen. destruct Hd as [Hoff Hmax].
  unfold blen in *. split; [|split; [split; cbn; unfold blen in *; lia|split; [done|]]].
  - unfold remaining at 3. cbn. rewrite Z2Nat.inj_add by lia.
    rewrite <- drop_drop. symmetry. apply take_drop.
  - rewrite length_take. lia.
Qed.

(** ** The field decoders implement their wire formats *)

Lemma wire_int (n : nat) (dec : M Decoder Z) (ok : Z → Prop) :
  dec = (bs ← Dec.bytes (Z.of_nat n); bs ← lift (Dec.array n bs); mret (from_le_bytes bs)) →
  (∀ v, ok v ↔ 0 ≤ v < 256 ^ Z.of_nat n) →
  Wire dec (le_bytes n) ok.
Proof.
  intros -> Hok. split.
  - intros v Hv%Hok. rewrite <- (app_nil_r (le_bytes n v)).
    pose proof (length_le_bytes n v) as Hlen.
    eapply parses_bind.
    { pose proof (parses_bytes (le_bytes n v)) as Hp. unfold blen in Hp.
      rewrite Hlen in Hp. exact Hp. }
    intros d rest Hd Hrem. exists d. split; [|done].
    unfold mbind, eff_bind, lift, Dec.array. rewrite decide_True by done.
    unfold mret, eff_ret. rewrite from_le_le_bytes. by rewrite Z.mod_small.
  - eapply yields_bind; [apply yields_bytes; lia|]. intros bs' bs [-> Hlen].
    intros d v d' Hd. unfold mbind, eff_bind, lift, Dec.array. case_decide as Hl; [|done].
    intros [= <- <-]. exists []. pose proof (from_le_bytes_range bs') as Hr.
    rewrite Hl in Hr. split_and!; [done|done| |by apply Hok].
    rewrite app_nil_r, <- Hl. by rewrite le_from_le_bytes.
  - apply total_bind; [apply total_bytes; lia|]. intros bs.
    apply total_bind; [|auto with wire].
    intros d. unfold lift, Dec.array. by case_decide.
Qed.

#[global] Instance wire_u16 : Wire Dec.u16 (le_bytes 2) in_u16.
Proof. apply wire_int; [done|]. intros v. unfold in_u16, U16_MAX. lia. Qed.

#[global] Instance wire_u32 : Wire Dec.u32 (le_bytes 4) in_u32.
Proof. apply wire_int; [done|]. intros v. unfold in_u32, U32_MAX. lia. Qed.

#[global] Instance wire_u64 : Wire Dec.u64 (le_bytes 8) in_u64.
Proof. apply wire_int; [done|]. intros v. unfold in_u64, U64_MAX. lia. Qed.

#[global] Instance wire_u8 : Wire Dec.u8 (le_bytes 1) in_u8.
Proof.
  split.
  - intros v Hv. rewrite <- (app_nil_r (le_bytes 1 v)).
    eapply parses_bind; [apply (parses_bytes (le_bytes 1 v))|].
    intros d rest Hd Hrem. exists d. split; [|done]. cbn.
    unfold mret, eff_ret. rewrite byte_to_of_Z. unfold in_u8, U8_MAX in Hv.
    by rewrite Z.mod_small by lia.
  - eapply yields_bind; [apply yields_bytes; lia|]. intros bs' bs [-> Hlen].
    intros d v d' Hd. destruct bs' as [|b bs']; [done|]. intros [= <- <-].
    destruct bs'; [|unfold blen in Hlen; cbn in Hlen; lia].
    exists []. pose proof (byte_to_Z_range b).
    split_and!; [done|done| |unfold in_u8, U8_MAX; lia].
    cbn. by rewrite byte_of_to_Z.
  - intros d Hd. unfold Dec.u8. destruct (Dec.bytes 1 d) as [r d1] eqn:Hb.
    pose proof (total_bytes 1 ltac:(lia) d Hd) as Ht. rewrite Hb in Ht.
    unfold mbind, eff_bind. rewrite Hb. destruct r as [bs|e| |]; [|done..].
    destruct (yields_bytes 1 ltac:(lia) d bs d1 Hd Hb) as (bs' & _ & _ & -> & Hl).
    by destruct bs.
Qed.

#[global] Instance wire_data : Wire Dec.counted_data wdata data_ok.
Proof.
  split.
  - intros bs Hbs. unfold Dec.counted_data, wdata. apply parses_bind with (blen bs).
    + apply wire_parses. pose proof (blen_nonneg bs). unfold in_u32. unfold data_ok in Hbs. lia.
    + apply parses_bytes.
  - eapply yields_bind; [apply wire_yields|]. intros n bs [-> Hn]. unfold in_u32 in Hn.
    intros d bs d' Hd Hr.
    destruct (yields_bytes n ltac:(lia) d bs d' Hd Hr) as (bs' & ? & ? & -> & <-).
    exists bs. split_and!; try done. unfold data_ok. lia.
  - intros d Hd. unfold Dec.counted_data, mbind, eff_bind.
    pose proof (wire_total (dec:=Dec.u32) d Hd) as Ht.
    destruct (Dec.u32 d) as [[n|e| |] d1] eqn:Hn; try done.
    destruct (wire_yields (dec:=Dec.u32) _ _ _ Hd Hn) as (bs & _ & _ & _ & Hr).
    apply total_bytes; [unfold in_u32 in Hr; lia|done].
Qed.

#[global] Instance wire_str : Wire Dec.str wstr str_ok.
Proof.
  split.
  - intros s [Hs Hl]. unfold Dec.str, wstr. pose proof (blen_nonneg (bytes_of s)).
    apply parses_bind with (blen (bytes_of s)); [apply wire_parses; unfold in_u16; lia|].
    rewrite <- (app_nil_r (bytes_of s)) at 2.
    apply parses_bind with (bytes_of s); [apply parses_bytes|].
    rewrite from_utf8_bytes_of by done. apply parses_ret.
  - eapply yields_bind; [apply wire_yields|]. intros n bs [-> Hn]. unfold in_u16 in Hn.
    eapply yields_bind; [apply yields_bytes; lia|]. intros bs' bs [-> <-].
    intros d s d' Hd. unfold ok_or. destruct (from_utf8 bs') as [s'|] eqn:Hu; [|done].
    apply from_utf8_Some in Hu as [-> Hv]. intros [= <- <-]. exists [].
    split_and!; [done|done| |]; [|split; [done|lia]]. by rewrite app_nil_r.
  - intros d Hd. unfold Dec.str, mbind, eff_bind.
    pose proof (wire_total (dec:=Dec.u16) d Hd) as Ht.
    destruct (Dec.u16 d) as [[n|e| |] d1] eqn:Hn; try done.
    destruct (wire_yields (dec:=Dec.u16) _ _ _ Hd Hn) as (bs & _ & _ & _ & Hr).
    unfold in_u16 in Hr. pose proof (total_bytes n ltac:(lia) d1 Ht) as Hb.
    destruct (Dec.bytes n d1) as [[bs'|e| |] d2]; try done. cbn.
    by destruct (from_utf8 bs').
Qed.

Lemma put_u16_eq out v : put_u16 out v = out ++ le_bytes 2 v.
Proof. done. Qed.
Lemma put_u32_eq out v : put_u32 out v = out ++ le_bytes 4 v.
Proof. done. Qed.
Lemma put_u64_eq out v : put_u64 out v = out ++ le_bytes 8 v.
Proof. done. Qed.
Lemma put_u8_eq out v : put_u8 out v = out ++ le_bytes 1 v.
Proof. done. Qed.

#[local] Opaque le_bytes from_le_bytes put_u8 put_u16 put_u32 put_u64.

(** A record decoder is a sequence of field decoders. *)
Ltac parse_fields :=
  repeat (eapply parses_bind; [apply wire_parses; solve [tauto | done | eauto]|]);
  apply parses_ret.

Ltac yield_fields :=
  repeat (eapply yields_bind; [apply wire_yields|intros ? ? [-> ?]]);
  apply yields_ret; cbn [concat].

Ltac total_fields := repeat (apply total_bind; [apply wire_total|intros ?]); apply total_ret.

#[global] Instance wire_qid : Wire Dec.qid wqid qid_wf.
Proof.
  split; unfold Dec.qid.
  - intros [t v p] (? & ? & ?). unfold wqid. cbn in *. parse_fields.
  - yield_fields. by split.
  - total_fields.
Qed.

#[global] Instance wire_attr : Wire Dec.attr wattr attr_wf.
Proof.
  split; unfold Dec.attr.
  - intros [] Ha. unfold attr_wf in Ha. cbn in Ha. unfold wattr.
    cbn -[wqid].
    parse_fields.
  - yield_fields. split; [done|]. by unfold attr_wf.
  - total_fields.
Qed.

#[global] Instance wire_setattr : Wire Dec.setattr wsetattr setattr_wf.
Proof.
  split; unfold Dec.setattr.
  - intros [] Ha. unfold setattr_wf in Ha. cbn in Ha. unfold wsetattr.
    cbn.
    parse_fields.
  - yield_fields. split; [done|]. by unfold setattr_wf.
  - total_fields.
Qed.

#[global] Instance wire_dirent : Wire Dec.dirent wdirent dirent_ok.
Proof.
  split; unfold Dec.dirent.
  - intros [q off typ name] [Ha Hl]. unfold dirent_wf in Ha. cbn in Ha, Hl.
    unfold wdirent. cbn -[wqid wstr]. assert (str_ok name) by (split; tauto). parse_fields.
  - yield_fields. split; [done|]. unfold dirent_ok, dirent_wf. cbn.
    unfold str_ok in *. tauto.
  - total_fields.
Qed.

(** A counted repetition. *)
Lemma wire_times {A} (dec : M Decoder A) enc ok `{!Wire dec enc ok} n :
  Wire (Dec.times n dec) (λ l, concat (enc <$> l)) (λ l, length l = n ∧ Forall ok l).
Proof.
  induction n as [|n IH]; split; cbn [Dec.times].
  - intros l [Hl _]. destruct l; [|done]. apply parses_ret.
  - apply yields_ret. by split.
  - apply total_ret.
  - intros [|a l] [Hl Hok]; [done|]. inversion Hok; subst. cbn.
    apply parses_bind with a; [by apply wire_parses|].
    rewrite <- (app_nil_r (concat _)).
    apply parses_bind with l; [|apply parses_ret].
    apply (wire_parses (Wire:=IH)). split; [by injection Hl|done].
  - eapply yields_bind; [apply wire_yields|]. intros a bs [-> Ha].
    eapply yields_bind; [apply (wire_yields (Wire:=IH))|]. intros l bs [-> [Hl Hok]].
    apply yields_ret. cbn. rewrite app_nil_r. split; [done|]. split; [by f_equal|].
    by constructor.
  - apply total_bind; [apply wire_total|intros a].
    apply total_bind; [apply (wire_total (Wire:=IH))|intros l]. apply total_ret.
Qed.

(** ** The encoders append the wire formats *)

Lemma put_string_eq out s :
  put_string out s =
    if blen (bytes_of s) <=? U16_MAX then Ok (out ++ wstr s) else Err (EKind Invalid).
Proof. unfold put_string. case_match; [|done]. by rewrite put_u16_eq, <- app_assoc. Qed.

Lemma put_data_eq out bs :
  put_counted_data out bs =
    if blen bs <=? U32_MAX then Ok (out ++ wdata bs) else Err (EKind Invalid).
Proof. unfold put_counted_data. case_match; [|done]. by rewrite put_u32_eq, <- app_assoc. Qed.

Lemma encode_qid_eq out q : encode_qid out q = out ++ wqid q.
Proof.
  unfold encode_qid, wqid. cbn [concat].
  by rewrite put_u64_eq, put_u32_eq, put_u8_eq, <- !app_assoc, app_nil_r.
Qed.

Lemma encode_attr_eq out a : encode_attr out a = out ++ wattr a.
Proof.
  unfold encode_attr. cbn zeta. rewrite encode_qid_eq, !put_u64_eq, !put_u32_eq.
  rewrite <- !app_assoc. unfold wattr. cbn [concat]. by rewrite app_nil_r.
Qed.

Lemma encode_setattr_eq out a : encode_setattr out a = out ++ wsetattr a.
Proof.
  unfold encode_setattr. cbn zeta. rewrite !put_u64_eq, !put_u32_eq.
  rewrite <- !app_assoc. unfold wsetattr. cbn [concat]. by rewrite app_nil_r.
Qed.

Lemma put_qids_eq out qs : put_qids out qs = out ++ concat (wqid <$> qs).
Proof.
  unfold put_qids. revert out. induction qs as [|q qs IH]; intros out; cbn.
  - by rewrite app_nil_r.
  - rewrite IH, encode_qid_eq. by rewrite <- app_assoc.
Qed.

Lemma put_strings_Ok out names b :
  put_strings out names = Ok b ↔
    b = out ++ concat (wstr <$> names) ∧ Forall (λ s, blen (bytes_of s) ≤ U16_MAX) names.
Proof.
  revert out. induction names as [|s names IH]; intros out; cbn [put_strings].
  - rewrite app_nil_r. split; [intros [= ->]; done|]. by intros [-> _].
  - rewrite put_string_eq, Forall_cons. destruct (_ <=? _) eqn:Hs; bool_to_prop; cbn.
    + rewrite IH, <- app_assoc. naive_solver.
    + split; [done|]. lia.
Qed.

Lemma put_count16_Ok out n b :
  put_count16 out n = Ok b ↔ b = out ++ le_bytes 2 (Z.of_nat n) ∧ Z.of_nat n ≤ U16_MAX.
Proof.
  unfold put_count16. destruct (_ <=? _) eqn:Hn; bool_to_prop.
  - rewrite put_u16_eq. naive_solver.
  - split; [done|]. lia.
Qed.

(** ** Frames *)

Definition wframe (typ tag : Z) (body : list byte) : list byte :=
  le_bytes 4 (7 + blen body) ++ le_bytes 1 typ ++ le_bytes 2 tag ++ body.

Lemma blen_le_bytes n v : blen (le_bytes n v) = Z.of_nat n.
Proof. unfold blen. by rewrite length_le_bytes. Qed.

Lemma blen_wframe typ tag body : blen (wframe typ tag body) = 7 + blen body.
Proof. unfold wframe. rewrite !blen_app, !blen_le_bytes. lia. Qed.

Lemma encode_frame_eq typ tag body :
  encode_frame typ tag body =
    if 7 + blen body <=? U32_MAX then Ok (wframe typ tag body) else Err (EKind Invalid).
Proof.
  unfold encode_frame, wframe. case_match; [|done]. cbn zeta.
  rewrite put_u16_eq, put_u8_eq, put_u32_eq. by rewrite <- !app_assoc.
Qed.

Lemma slice_app x y z a b : a = blen x → b = blen x + blen y →
  slice a b (x ++ y ++ z) = Ok y.
Proof.
  intros -> ->. unfold slice. rewrite !blen_app.
  pose proof (blen_nonneg x). pose proof (blen_nonneg y). pose proof (blen_nonneg z).
  rewrite !(proj2 (Z.leb_le _ _)) by lia. cbn [andb]. unfold blen.
  rewrite Z.add_simpl_l, !Nat2Z.id, drop_app_length, take_app_length. done.
Qed.

Lemma slice_Ok a b f y : slice a b f = Ok y →
  y = take (Z.to_nat (b - a)) (drop (Z.to_nat a) f) ∧ blen y = b - a ∧ 0 ≤ a ≤ b.
Proof.
  unfold slice. destruct (_ && _) eqn:Hb; [|done]. bool_to_prop. intros [= <-].
  split_and!; [done| |lia..]. unfold blen in *. rewrite length_take, length_drop. lia.
Qed.

Lemma slices_wframe typ tag body :
  let f := wframe typ tag body in
  slice 0 4 f = Ok (le_bytes 4 (7 + blen body)) ∧ slice 4 5 f = Ok (le_bytes 1 typ) ∧
  slice 5 7 f = Ok (le_bytes 2 tag) ∧ slice 7 (7 + blen body) f = Ok body.
Proof.
  unfold wframe. set (h := le_bytes 4 (7 + blen body)). cbn zeta. split_and!.
  - by apply (slice_app [] h).
  - by apply slice_app; unfold h; rewrite ?blen_le_bytes.
  - rewrite app_assoc. by apply slice_app; unfold h; rewrite ?blen_app, ?blen_le_bytes.
  - pose proof (slice_app (h ++ le_bytes 1 typ ++ le_bytes 2 tag) body [] 7
      (7 + blen body)) as Hs. rewrite app_nil_r, <- !app_assoc in Hs.
    apply Hs; unfold h; rewrite ?blen_app, ?blen_le_bytes; lia.
Qed.

Lemma decode_wframe typ tag body :
  in_u8 typ → in_u16 tag → 7 + blen body ≤ U32_MAX →
  decode_frame (wframe typ tag body) = Ok (typ, tag, Dec.new body).
Proof.
  intros Htyp Htag Hlen. pose proof (blen_nonneg body) as Hnn.
  destruct (slices_wframe typ tag body) as (H1 & H2 & H3 & H4).
  unfold decode_frame. rewrite blen_wframe, H1, H2, H3, H4.
  rewrite (proj2 (Z.ltb_ge _ _)) by lia. cbn -[from_le_bytes le_bytes].
  rewrite !from_le_le_bytes.
  unfold in_u8, U8_MAX in Htyp. unfold in_u16, U16_MAX in Htag. unfold U32_MAX in Hlen.
  rewrite !Z.mod_small by (cbn; lia).
  rewrite Z.eqb_refl, (proj2 (Z.ltb_ge _ _)) by lia. done.
Qed.

Lemma outcome_bind_inv {E A B} (m : Outcome E A) (k : A → Outcome E B) b :
  (m ≫= k) = Ok b → ∃ a, m = Ok a ∧ k a = Ok b.
Proof. destruct m; cbn; [eauto|done..]. Qed.

Lemma decode_frame_Ok f typ tag d : decode_frame f = Ok (typ, tag, d) →
  ∃ body, d = Dec.new body ∧ f = wframe typ tag body ∧ in_u8 typ ∧ in_u16 tag ∧
    7 + blen body ≤ U32_MAX.
Proof.
  unfold decode_frame. destruct (_ <? 7) eqn:H7; [done|]. bool_to_prop.
  intros (head & Hhead & H)%outcome_bind_inv. destruct (_ || _) eqn:Hsz; [done|].
  apply orb_false_iff in Hsz as [Hsz _]. bool_to_prop.
  apply outcome_bind_inv in H as (t & Ht & H). apply outcome_bind_inv in H as (g & Hg & H).
  apply outcome_bind_inv in H as (rest & Hrest & [= <- <- <-]).
  apply slice_Ok in Hhead as (-> & Hl4 & _), Ht as (-> & Hl1 & _), Hg as (-> & Hl2 & _),
    Hrest as (-> & Hlr & _).
  set (body := take (Z.to_nat (blen f - 7)) (drop (Z.to_nat 7) f)) in *.
  set (head := take (Z.to_nat (4 - 0)) (drop (Z.to_nat 0) f)) in *.
  set (t := take (Z.to_nat (5 - 4)) (drop (Z.to_nat 4) f)) in *.
  set (g := take (Z.to_nat (7 - 5)) (drop (Z.to_nat 5) f)) in *.
  assert (f = head ++ t ++ g ++ body) as Hf.
  { unfold head, t, g, body. change (Z.to_nat 0) with 0%nat. rewrite drop_0.
    rewrite (firstn_all2 (n:=Z.to_nat (blen f - 7))) by (rewrite length_drop; unfold blen; lia).
    rewrite <- (take_drop 4 f) at 1. f_equal. rewrite <- (take_drop 1 (drop 4 f)) at 1.
    f_equal. rewrite drop_drop. rewrite <- (take_drop 2 (drop (4 + 1) f)) at 1. f_equal.
    by rewrite drop_drop. }
  pose proof (from_le_bytes_range head) as Hr4. pose proof (from_le_bytes_range t) as Hr1.
  pose proof (from_le_bytes_range g) as Hr2. unfold blen in Hl4, Hl1, Hl2.
  assert (length head = 4%nat) as L4 by lia. assert (length t = 1%nat) as L1 by lia.
  assert (length g = 2%nat) as L2 by lia. rewrite L4 in Hr4. rewrite L1 in Hr1.
  rewrite L2 in Hr2. exists body. split; [done|].
  split; [|unfold in_u8, in_u16, U8_MAX, U16_MAX, U32_MAX; cbn in *; lia].
  assert (∀ n bs, length bs = n → le_bytes n (from_le_bytes bs) = bs) as Hle
    by (intros n bs <-; apply le_from_le_bytes).
  unfold wframe. replace (7 + blen body) with (from_le_bytes head) by lia.
  by rewrite !Hle.
Qed.

(** ** Requests and responses *)

(** Peel the binds of an encoder that succeeded. *)
Ltac inv_enc H :=
  repeat match type of H with
  | (_ ≫= _) = Ok _ =>
      let b := fresh "b" in let Hb := fresh "Hb" in
      apply outcome_bind_inv in H as (b & Hb & H);
      rewrite ?put_string_eq, ?put_data_eq in Hb;
      match type of Hb with
      | (if ?c then _ else _) = _ =>
          let Hc := fresh "Hc" in
          destruct c eqn:Hc; [|done]; bool_to_prop; injection Hb as <-
      | put_count16 _ _ = _ => apply put_count16_Ok in Hb as [-> ?]
      | put_strings _ _ = _ => apply put_strings_Ok in Hb as [-> ?]
      end
  end.

Ltac wire_norm :=
  rewrite ?put_u8_eq, ?put_u16_eq, ?put_u32_eq, ?put_u64_eq, ?encode_qid_eq,
    ?encode_attr_eq, ?encode_setattr_eq, ?put_qids_eq, <- ?app_assoc, ?app_nil_l.

(** The wire form ends in [++ []], so that its last field is a field like the others. *)
Ltac parse_body :=
  match goal with |- parses _ ?bs _ => rewrite <- (app_nil_r bs), <- ?app_assoc end;
  repeat (eapply parses_bind;
    [apply wire_parses; unfold str_ok, data_ok in *; solve [tauto | split_and!; tauto | eauto]|]);
  apply parses_ret.

Lemma nat_in_u16 n : Z.of_nat n ≤ U16_MAX → in_u16 (Z.of_nat n).
Proof. unfold in_u16. lia. Qed.

Lemma walk_parses fid newfid names :
  in_u32 fid → in_u32 newfid → Forall str_valid names →
  Z.of_nat (length names) ≤ U16_MAX →
  Forall (λ s, blen (bytes_of s) ≤ U16_MAX) names →
  parses (decode_request_body msg.TWALK)
    (le_bytes 4 fid ++ le_bytes 4 newfid ++ le_bytes 2 (Z.of_nat (length names)) ++
      concat (wstr <$> names)) (TWalk fid newfid names).
Proof.
  intros Hf Hn Hv Hl Hs.
  change (decode_request_body msg.TWALK) with
    (fid ← Dec.u32; newfid ← Dec.u32; n ← Dec.u16;
     names ← Dec.times (Z.to_nat n) Dec.str; mret (TWalk fid newfid names)).
  rewrite <- (app_nil_r (concat _)).
  do 2 (eapply parses_bind; [by apply wire_parses|]).
  eapply parses_bind; [by apply wire_parses, nat_in_u16|]. rewrite Nat2Z.id.
  eapply parses_bind; [|apply parses_ret].
  apply (wire_parses (Wire:=wire_times Dec.str wstr str_ok _)). split; [done|].
  by apply Forall_and.
Qed.

(** Select the branch of a body decoder whose message type is known. *)
Ltac pick_type :=
  cbv [decode_request_body decode_response_body Z.eqb Pos.eqb
    msg.RLERROR msg.TLOPEN msg.RLOPEN msg.TLCREATE msg.RLCREATE msg.TSYMLINK msg.RSYMLINK
    msg.TREADLINK msg.RREADLINK msg.TGETATTR msg.RGETATTR msg.TSETATTR msg.RSETATTR
    msg.TXATTRWALK msg.RXATTRWALK msg.TXATTRCREATE msg.RXATTRCREATE msg.TREADDIR
    msg.RREADDIR msg.TFSYNC msg.RFSYNC msg.TLINK msg.RLINK msg.TMKDIR msg.RMKDIR
    msg.TRENAMEAT msg.RRENAMEAT msg.TUNLINKAT msg.RUNLINKAT msg.TVERSION msg.RVERSION
    msg.TATTACH msg.RATTACH msg.TFLUSH msg.RFLUSH msg.TWALK msg.RWALK msg.TREAD msg.RREAD
    msg.TWRITE msg.RWRITE msg.TCLUNK msg.RCLUNK msg.TREMOVE msg.RREMOVE].

Lemma encode_request_parses r typ body :
  request_wf r → encode_request_body r = Ok (typ, body) →
  parses (decode_request_body typ) body r ∧ in_u8 typ.
Proof.
  intros Hwf He.
  destruct r; cbn in Hwf; unfold encode_request_body in He; cbn zeta in He; inv_enc He;
    injection He as <- <-; (split; [|done]); wire_norm;
    try (pick_type; parse_body).
  destruct Hwf as (? & ? & ?). by apply walk_parses.
Qed.

Lemma encode_response_parses r typ body :
  response_wf r → encode_response_body r = Ok (typ, body) →
  parses (decode_response_body typ) body r ∧ in_u8 typ.
Proof.
  intros Hwf He.
  destruct r; cbn in Hwf; unfold encode_response_body in He; cbn zeta in He; inv_enc He;
    injection He as <- <-; (split; [|done]); wire_norm;
    try (pick_type; parse_body).
  pick_type. rewrite <- (app_nil_r (concat _)).
  eapply parses_bind; [by apply wire_parses, nat_in_u16|]. rewrite Nat2Z.id.
  eapply parses_bind; [|apply parses_ret].
  by apply (wire_parses (Wire:=wire_times Dec.qid wqid qid_wf _)).
Qed.

Lemma put_string_ok out s : str_ok s → put_string out s = Ok (out ++ wstr s).
Proof. intros [_ H]. by rewrite put_string_eq, (proj2 (Z.leb_le _ _)). Qed.

Lemma put_data_ok out bs : data_ok bs → put_counted_data out bs = Ok (out ++ wdata bs).
Proof. intros H. by rewrite put_data_eq, (proj2 (Z.leb_le _ _)). Qed.

Lemma outcome_bind_Ok {E A B} (a : A) (k : A → Outcome E B) : (Ok a ≫= k) = k a.
Proof. done. Qed.

(** Run an encoder whose fields are in range, and compare the bytes. *)
Ltac run_enc :=
  repeat (first [rewrite put_string_ok by done | rewrite put_data_ok by done];
          rewrite outcome_bind_Ok; cbn beta);
  wire_norm; rewrite ?app_nil_r; reflexivity.

Lemma times_walk_encode fid newfid n names :
  in_u16 n → length names = Z.to_nat n → Forall str_ok names →
  encode_request_body (TWalk fid newfid names) =
    Ok (msg.TWALK, le_bytes 4 fid ++ le_bytes 4 newfid ++ le_bytes 2 n ++
      concat (wstr <$> names)).
Proof.
  intros Hn Hl Hok. unfold in_u16 in Hn. unfold encode_request_body. cbn zeta.
  assert (Z.of_nat (length names) = n) as Hln by lia. unfold put_count16.
  rewrite Hln, (proj2 (Z.leb_le _ _)), outcome_bind_Ok by lia.
  rewrite (proj2 (put_strings_Ok _ names _) (conj eq_refl (Forall_impl _ _ _ Hok
    (λ s H, proj2 H)))). rewrite outcome_bind_Ok. wire_norm. done.
Qed.

Lemma decode_request_yields typ :
  yields (decode_request_body typ)
    (λ r bs, encode_request_body r = Ok (typ, bs) ∧ request_wf r).
Proof.
  unfold decode_request_body.
  repeat match goal with
  | |- yields (if typ =? ?c then _ else _) _ =>
      let H := fresh "Htyp" in destruct (typ =? c) eqn:H; [apply Z.eqb_eq in H; subst typ|clear H]
  end; [..|apply yields_throw].
  3: { do 3 (eapply yields_bind; [apply wire_yields|intros ? ? [-> ?]]).
    eapply yields_bind; [apply (wire_yields (Wire:=wire_times Dec.str wstr str_ok _))|].
    intros names bs [-> [Hl Hok]]. apply yields_ret. rewrite app_nil_r. split.
    - by apply times_walk_encode.
    - cbn. split_and!; try done. eapply Forall_impl; [done|]. by intros ? []. }
  all: yield_fields; (split; [unfold encode_request_body; cbn zeta; run_enc|]);
    cbn; unfold str_ok in *; tauto.
Qed.

Lemma decode_response_yields typ :
  yields (decode_response_body typ)
    (λ r bs, encode_response_body r = Ok (typ, bs) ∧ response_wf r).
Proof.
  unfold decode_response_body.
  repeat match goal with
  | |- yields (if typ =? ?c then _ else _) _ =>
      let H := fresh "Htyp" in destruct (typ =? c) eqn:H; [apply Z.eqb_eq in H; subst typ|clear H]
  end; [..|apply yields_throw].
  4: { eapply yields_bind; [apply wire_yields|intros n ? [-> Hn]].
    eapply yields_bind; [apply (wire_yields (Wire:=wire_times Dec.qid wqid qid_wf _))|].
    intros qids bs [-> [Hl Hok]]. apply yields_ret. rewrite app_nil_r. split; [|done].
    unfold in_u16 in Hn. unfold encode_response_body. cbn zeta.
    assert (Z.of_nat (length qids) = n) as Hln by lia. unfold put_count16.
    rewrite Hln, (proj2 (Z.leb_le _ _)), outcome_bind_Ok by lia.
    wire_norm. done. }
  all: yield_fields; (split; [unfold encode_response_body; cbn zeta; run_enc|]);
    cbn; unfold str_ok in *; tauto.
Qed.

(** ** Whole messages

    Requests and responses have the same frame: the facts are proved once, from
    what the body encoder and the body decoder promise each other. *)

Section Message.
Context {A : Type} (enc_body : A → Result (Z * list byte)) (dec_body : Z → M Decoder A)
  (ok : A → Prop).
Hypothesis body_parses : ∀ r typ body, ok r → enc_body r = Ok (typ, body) →
  parses (dec_body typ) body r ∧ in_u8 typ.
Hypothesis body_yields : ∀ typ,
  yields (dec_body typ) (λ r bs, enc_body r = Ok (typ, bs) ∧ ok r).
Hypothesis body_total : ∀ typ, total (dec_body typ).

Let encode (tag : Z) (r : A) : Result (list byte) :=
  '(typ, body) ← enc_body r; encode_frame typ tag body.

Let decode (frame : list byte) : Result (Z * A) :=
  '(typ, tag, d) ← decode_frame frame;
  fst ((r ← dec_body typ; Dec.finish ;; mret (tag, r)) d).

Lemma dec_wf_frame body : 7 + blen body ≤ U32_MAX → dec_wf (Dec.new body).
Proof. intros ?. apply dec_wf_new. unfold U32_MAX, ISIZE_MAX, I64_MAX in *. lia. Qed.

Lemma remaining_new bs : remaining (Dec.new bs) = bs.
Proof. done. Qed.

Lemma finish_spec d : dec_wf d →
  Dec.finish d = if decide (remaining d = []) then (Ok tt, d) else (Err (EKind Invalid), d).
Proof.
  intros Hd. pose proof (dec_wf_remaining d Hd) as Hl. unfold Dec.finish, Dec.is_empty.
  case_decide as Hr.
  - rewrite Hr in Hl. unfold blen at 1 in Hl. cbn in Hl. by rewrite (proj2 (Z.eqb_eq _ _)) by lia.
  - rewrite (proj2 (Z.eqb_neq _ _)); [done|]. intros He. apply Hr.
    destruct (remaining d); [done|]. unfold blen at 1 in Hl. cbn in Hl. lia.
Qed.

Lemma decode_encode_msg tag r frame :
  in_u16 tag → ok r → encode tag r = Ok frame → decode frame = Ok (tag, r).
Proof.
  intros Htag Hr ([typ body] & Hb & He)%outcome_bind_inv.
  rewrite encode_frame_eq in He. destruct (_ <=? _) eqn:Hl; [|done]. bool_to_prop.
  injection He as <-. destruct (body_parses _ _ _ Hr Hb) as [Hp Htyp].
  unfold decode. rewrite decode_wframe by done. rewrite outcome_bind_Ok.
  destruct (Hp (Dec.new body) [] ltac:(by apply dec_wf_frame)) as (d' & Hrun & Hd' & Hrem).
  { by rewrite remaining_new, app_nil_r. }
  rewrite (eff_bind_Ok _ _ _ _ _ Hrun).
  assert (Dec.finish d' = (Ok tt, d')) as Hf by (by rewrite finish_spec, decide_True).
  by rewrite (eff_bind_Ok _ _ _ _ _ Hf).
Qed.

Lemma encode_decode_msg frame tag r :
  decode frame = Ok (tag, r) → encode tag r = Ok frame ∧ in_u16 tag ∧ ok r.
Proof.
  intros ([[typ tag'] d] & Hf & Hrun)%outcome_bind_inv.
  apply decode_frame_Ok in Hf as (body & -> & -> & Htyp & Htag & Hl).
  destruct ((r ← dec_body typ; Dec.finish ;; mret (tag', r)) (Dec.new body)) as [res d2] eqn:Hd.
  cbn in Hrun. subst res. apply eff_bind_inv in Hd as (r' & d1 & Hb & Hd).
  destruct (body_yields _ _ _ _ (dec_wf_frame _ Hl) Hb) as (bs & Hrem & Hd1 & Henc & Hok).
  apply eff_bind_inv in Hd as ([] & d3 & Hfin & [= -> -> ->]).
  rewrite finish_spec in Hfin by done. case_decide as Hnil; [|done].
  rewrite remaining_new, Hnil, app_nil_r in Hrem. subst bs.
  split; [|done]. unfold encode. rewrite Henc, outcome_bind_Ok, encode_frame_eq.
  by rewrite (proj2 (Z.leb_le _ _)).
Qed.

Lemma decode_msg_total frame :
  match decode frame with Ok _ | Err _ => True | Panic | NoFuel => False end.
Proof.
  destruct (decode_frame frame) as [[[typ tag] d]|e| |] eqn:Hf; unfold decode; rewrite Hf.
  - rewrite outcome_bind_Ok.
    apply decode_frame_Ok in Hf as (body & -> & -> & Htyp & Htag & Hl).
    assert (total (r ← dec_body typ; Dec.finish ;; mret (tag, r))) as Ht.
    { apply total_bind; [done|]. intros r. apply total_bind; [|intros; apply total_ret].
      intros d Hd. rewrite finish_spec by done. by case_decide. }
    specialize (Ht _ (dec_wf_frame _ Hl)).
    by destruct ((r ← dec_body typ; Dec.finish ;; mret (tag, r)) (Dec.new body)) as [[] ?].
  - done.
  - exfalso. revert Hf. unfold decode_frame. destruct (_ <? 7) eqn:H7; [done|]. bool_to_prop.
    unfold slice. rewrite !(proj2 (Z.leb_le _ _)) by lia. cbn. by destruct (_ || _).
  - exfalso. revert Hf. unfold decode_frame. destruct (_ <? 7) eqn:H7; [done|]. bool_to_prop.
    unfold slice. rewrite !(proj2 (Z.leb_le _ _)) by lia. cbn. by destruct (_ || _).
Qed.
End Message.

Lemma decode_request_body_total typ : total (decode_request_body typ).
Proof.
  unfold decode_request_body.
  repeat match goal with |- total (if ?c then _ else _) => destruct c end;
    try apply total_throw.
  3: { repeat (apply total_bind; [apply wire_total|intros ?]).
    apply total_bind; [apply (wire_total (Wire:=wire_times Dec.str wstr str_ok _))|].
    intros ?. apply total_ret. }
  all: total_fields.
Qed.

Lemma decode_response_body_total typ : total (decode_response_body typ).
Proof.
  unfold decode_response_body.
  repeat match goal with |- total (if ?c then _ else _) => destruct c end;
    try apply total_throw.
  4: { apply total_bind; [apply wire_total|intros ?].
    apply total_bind; [apply (wire_total (Wire:=wire_times Dec.qid wqid qid_wf _))|].
    intros ?. apply total_ret. }
  all: total_fields.
Qed.

Lemma decode_request_iff frame tag r :
  decode_request frame = Ok (tag, r) ↔
  encode_request tag r = Ok frame ∧ in_u16 tag ∧ request_wf r.
Proof.
  split.
  - apply (encode_decode_msg _ _ _ decode_request_yields).
  - intros (He & Ht & Hr). by apply (decode_encode_msg _ _ _ encode_request_parses).
Qed.

Lemma decode_response_iff frame tag r :
  decode_response frame = Ok (tag, r) ↔
  encode_response tag r = Ok frame ∧ in_u16 tag ∧ response_wf r.
Proof.
  split.
  - apply (encode_decode_msg _ _ _ decode_response_yields).
  - intros (He & Ht & Hr). by apply (decode_encode_msg _ _ _ encode_response_parses).
Qed.

(** ** Directory entries *)

Lemma encode_dirents_from_Ok out ds b :
  encode_dirents_from out ds = Ok b ↔
    b = out ++ concat (wdirent <$> ds) ∧
    Forall (λ e, blen (bytes_of (de_name e)) ≤ U16_MAX) ds.
Proof.
  revert out. induction ds as [|e ds IH]; intros out; cbn [encode_dirents_from].
  - rewrite app_nil_r. split; [intros [= ->]; done|]. by intros [-> _].
  - rewrite put_string_eq, Forall_cons. destruct (_ <=? _) eqn:Hs; bool_to_prop; cbn.
    + rewrite IH.
      assert (put_u8 (put_u64 (encode_qid out (de_qid e)) (de_offset e)) (de_typ e) ++
        wstr (de_name e) = out ++ wdirent e) as ->.
      { wire_norm. unfold wdirent. cbn [concat]. by rewrite app_nil_r. }
      rewrite <- app_assoc. cbn. tauto.
    + split; [done|]. lia.
Qed.

Lemma dirents_loop_S fuel d : dec_wf d → remaining d ≠ [] →
  decode_dirents_loop (S fuel) d =
    (x ← Dec.dirent; xs ← decode_dirents_loop fuel; mret (x :: xs)) d.
Proof.
  intros Hd Hne. cbn [decode_dirents_loop]. pose proof (finish_spec d Hd) as Hf.
  unfold Dec.finish in Hf. rewrite decide_False in Hf by done.
  by destruct (Dec.is_empty d).
Qed.

Lemma dirents_loop_nil fuel d : dec_wf d → remaining d = [] →
  decode_dirents_loop fuel d = (Ok [], d).
Proof.
  intros Hd Hnil. pose proof (finish_spec d Hd) as Hf. unfold Dec.finish in Hf.
  rewrite decide_True in Hf by done. destruct fuel; cbn [decode_dirents_loop];
    by destruct (Dec.is_empty d).
Qed.

Lemma length_wdirent e : (1 ≤ length (wdirent e))%nat.
Proof.
  unfold wdirent, wqid. cbn [concat]. rewrite !length_app, !length_le_bytes. lia.
Qed.

Lemma dirents_loop_parses fuel ds d :
  dec_wf d → Forall dirent_ok ds → remaining d = concat (wdirent <$> ds) →
  (length ds ≤ fuel)%nat → ∃ d', decode_dirents_loop fuel d = (Ok ds, d').
Proof.
  revert fuel d. induction ds as [|e ds IH]; intros fuel d Hd Hok Hrem Hfuel.
  - exists d. by apply dirents_loop_nil.
  - inversion Hok as [|?? He Hds]; subst. destruct fuel as [|fuel]; [cbn in Hfuel; lia|].
    pose proof (length_wdirent e) as Hl.
    rewrite dirents_loop_S; [|done|].
    + destruct (wire_parses e He d _ Hd Hrem) as (d1 & Hrun & Hd1 & Hrem1).
      rewrite (eff_bind_Ok _ _ _ _ _ Hrun).
      destruct (IH fuel d1 Hd1 Hds Hrem1 ltac:(cbn in Hfuel; lia)) as [d2 Hrun2].
      rewrite (eff_bind_Ok _ _ _ _ _ Hrun2). by exists d2.
    + rewrite Hrem, fmap_cons. cbn [concat]. intros Hnil.
      apply app_eq_nil in Hnil as [Hnil _]. rewrite Hnil in Hl. cbn in Hl. lia.
Qed.

Lemma dirents_loop_yields fuel ds d d' :
  dec_wf d → decode_dirents_loop fuel d = (Ok ds, d') →
  remaining d = concat (wdirent <$> ds) ∧ Forall dirent_ok ds.
Proof.
  revert ds d. induction fuel as [|fuel IH]; intros ds d Hd Hrun.
  - destruct (decide (remaining d = [])) as [Hnil|Hne].
    + rewrite dirents_loop_nil in Hrun by done. by injection Hrun as <- _.
    + pose proof (finish_spec d Hd) as Hf. unfold Dec.finish in Hf.
      rewrite decide_False in Hf by done. cbn in Hrun. by destruct (Dec.is_empty d).
  - destruct (decide (remaining d = [])) as [Hnil|Hne].
    + rewrite dirents_loop_nil in Hrun by done. by injection Hrun as <- _.
    + rewrite dirents_loop_S in Hrun by done.
      apply eff_bind_inv in Hrun as (e & d1 & He & Hrun).
      apply eff_bind_inv in Hrun as (es & d2 & Hes & [= <- <-]).
      destruct (wire_yields _ _ _ Hd He) as (bs & Hrem & Hd1 & -> & Hok).
      destruct (IH _ _ Hd1 Hes) as [Hrem1 Hoks]. rewrite Hrem, Hrem1. by split; [|constructor].
Qed.

Lemma length_concat_wdirent ds : (length ds ≤ length (concat (wdirent <$> ds)))%nat.
Proof.
  induction ds as [|e ds IH]; [done|]. rewrite fmap_cons. cbn [concat length].
  rewrite length_app. pose proof (length_wdirent e). lia.
Qed.

Lemma decode_dirents_iff data ds : blen data ≤ ISIZE_MAX →
  decode_dirents data = Ok ds ↔ encode_dirents ds = Ok data ∧ Forall dirent_wf ds.
Proof.
  intros Hmax. pose proof (dec_wf_new data Hmax) as Hwf. unfold decode_dirents, encode_dirents.
  rewrite encode_dirents_from_Ok, app_nil_l. split.
  - destruct (decode_dirents_loop _ _) as [r d'] eqn:Hrun. cbn. intros ->.
    destruct (dirents_loop_yields _ _ _ _ Hwf Hrun) as [Hrem Hok].
    rewrite remaining_new in Hrem. split; [split; [done|]|];
      (eapply Forall_impl; [done|]); by intros ? [].
  - intros [[-> Hl] Hok].
    destruct (dirents_loop_parses (length (concat (wdirent <$> ds))) ds _ Hwf) as [d' ->].
    + by apply Forall_and.
    + done.
    + apply length_concat_wdirent.
    + done.
Qed.

(** Each turn of [decode_dirents]'s loop consumes a byte, so its fuel is enough. *)
Lemma dirents_loop_total fuel d : dec_wf d → (length (remaining d) ≤ fuel)%nat →
  match (decode_dirents_loop fuel d).1 with Ok _ | Err _ => True | _ => False end.
Proof.
  revert d. induction fuel as [|fuel IH]; intros d Hd Hlen;
    (destruct (decide (remaining d = [])) as [Hnil|Hne]; [by rewrite dirents_loop_nil|]).
  - destruct (remaining d); cbn in Hlen; [done|lia].
  - rewrite dirents_loop_S by done. pose proof (wire_total (dec:=Dec.dirent) d Hd) as Ht.
    unfold mbind, eff_bind. destruct (Dec.dirent d) as [[e|e| |] d1] eqn:He; try done.
    destruct (wire_yields (dec:=Dec.dirent) _ _ _ Hd He) as (bs & Hrem & Hd1 & -> & _).
    pose proof (length_wdirent e) as Hl. rewrite Hrem, length_app in Hlen.
    specialize (IH d1 Hd1 ltac:(lia)).
    by destruct (decode_dirents_loop fuel d1) as [[]].
Qed.

(** ** Properties *)

(** C3. The request codec is a bijection: a frame decodes to a tag and a request
    exactly when it is the encoding of that tag and request, for a 16-bit tag and a
    request within its integer widths with UTF-8 names.  So what a client encodes
    is what the server decodes, and no two frames mean the same request. *)
Theorem request_codec_bijection frame tag r :
  decode_request frame = Ok (tag, r) ↔
  encode_request tag r = Ok frame ∧ in_u16 tag ∧ request_wf r.
Proof. apply decode_request_iff. Qed.

(** The response codec is a bijection in the same sense. *)
Theorem response_codec_bijection frame tag r :
  decode_response frame = Ok (tag, r) ↔
  encode_response tag r = Ok frame ∧ in_u16 tag ∧ response_wf r.
Proof. apply decode_response_iff. Qed.

(** Decoding is total: on any bytes whatever, [decode_request] and
    [decode_response] return a message or an error; they never panic on a slice or
    an array conversion. *)
Theorem decode_total frame :
  match decode_request frame with Ok _ | Err _ => True | Panic | NoFuel => False end ∧
  match decode_response frame with Ok _ | Err _ => True | Panic | NoFuel => False end.
Proof.
  split.
  - apply (decode_msg_total _ decode_request_body_total).
  - apply (decode_msg_total _ decode_response_body_total).
Qed.

(** Directory data: [decode_dirents] gives a list exactly when the data is its
    encoding, and on any data of at most [isize::MAX] bytes it returns a list or an
    error (its loop always ends). *)
Theorem dirents_roundtrip data : blen data ≤ ISIZE_MAX →
  (∀ ds, decode_dirents data = Ok ds ↔ encode_dirents ds = Ok data ∧ Forall dirent_wf ds) ∧
  match decode_dirents data with Ok _ | Err _ => True | Panic | NoFuel => False end.
Proof.
  intros Hmax. split; [intros ds; by apply decode_dirents_iff|].
  unfold decode_dirents. pose proof (dec_wf_new data Hmax) as Hwf.
  pose proof (dirents_loop_total (length data) (Dec.new data) Hwf) as Ht.
  rewrite remaining_new in Ht. specialize (Ht (le_n _)).
  by destruct (decode_dirents_loop _ _) as [[]].
Qed.

Lemma dirents_roundtrip_witness :
  let e := mkNinePDirent (mkQid 128 0 7) 1 4 "bin" in
  ∃ data, encode_dirents [e] = Ok data ∧ blen data ≤ ISIZE_MAX ∧ decode_dirents data = Ok [e].
Proof.
  set (e := mkNinePDirent (mkQid 128 0 7) 1 4 "bin").
  destruct (encode_dirents [e]) as [data| | |] eqn:He; try (vm_compute in He; discriminate He).
  exists data.
  assert (blen data ≤ ISIZE_MAX) as Hl
    by (vm_compute in He; injection He as <-; vm_compute; discriminate).
  split; [exact He|]. split; [exact Hl|].
  apply (proj1 (dirents_roundtrip data Hl) [e]). split; [exact He|].
  constructor; [|constructor]. repeat split; vm_compute; discriminate.
Defined.
