(* ===== verification/P9Server.v ===== *)
(** * star9-protocol: the 9P server

    Models [XattrWriteState], [NinePServer] and the helper functions of
    [crates/star9-protocol/src/p9.rs] from [struct FidState] to [impl NinePServer],
    and [qid_for] to [errno_to_error].

    The server is a computation over [ServerState * W]: the state behind its
    mutex, and the state [W] of the exported filesystem.  Requests are handled one
    at a time.  The exported filesystem is a [FileSystem W H], the clock is a
    parameter. *)

From stdpp Require Import base list numbers option strings sorting gmap.
From Stdlib Require Import ZArith Lia Ascii.
From S2P Require Import Prelude Strs BTree Core FsTrait P9Codec.

Local Open Scope Z_scope.

(** ** Constants *)

Definition QTDIR : Z := 128.   (* 0x80 *)
Definition QTSYMLINK : Z := 2. (* 0x02 *)
Definition DT_DIR : Z := 4.
Definition DT_REG : Z := 8.
Definition DT_LNK : Z := 10.

(** [ATTR_MODE | ATTR_NLINK | ... | ATTR_BLOCKS]: bits 0 to 7, 9 and 10 *)
Definition ATTR_BASIC : Z := 255 + 512 + 1024.

Definition SETATTR_MODE : Z := 1.
Definition SETATTR_UID : Z := 2.
Definition SETATTR_GID : Z := 4.
Definition SETATTR_SIZE : Z := 8.
Definition SETATTR_MTIME : Z := 32.
Definition SETATTR_MTIME_SET : Z := 256.

Definition EPERM : Z := 1.
Definition ENOENT : Z := 2.
Definition EIO : Z := 5.
Definition EBADF : Z := 9.
Definition EACCES : Z := 13.
Definition EEXIST : Z := 17.
Definition ENOTDIR : Z := 20.
Definition EISDIR : Z := 21.
Definition EINVAL : Z := 22.
Definition ENOSYS : Z := 38.
Definition ENOTEMPTY : Z := 39.

(** ** Extended-attribute writes *)

Record XattrWriteState := mkXattrWrite {
  xw_name : string;
  xw_flags : Z;
  xw_expected_size : Z;
  xw_data : list byte;
  xw_written : list (Z * Z);
  xw_committed : bool
}.

Module Xattr.
(** [vec![0; n]] panics with "capacity overflow" beyond [isize::MAX] bytes. *)
Definition new (name : string) (flags expected_size : Z) : Result XattrWriteState :=
  if ISIZE_MAX <? expected_size then Panic
  else Ok (mkXattrWrite name flags expected_size
             (replicate (Z.to_nat expected_size) x00) [] false).

Definition is_complete (x : XattrWriteState) : bool :=
  (xw_expected_size x =? 0) ||
  match xw_written x with
  | [(s, e)] => (s =? 0) && (e =? xw_expected_size x)
  | _ => false
  end.

(** One turn of [record_write]'s loop: the growing range, the ranges already
    merged, and whether the growing range has been inserted. *)
Definition record_step (acc : Z * Z * list (Z * Z) * bool) (existing : Z * Z)
    : Z * Z * list (Z * Z) * bool :=
  let '(start, e, merged, inserted) := acc in
  if existing.2 <? start then (start, e, merged ++ [existing], inserted)
  else if e <? existing.1 then
    (start, e, (if inserted : bool then merged else merged ++ [(start, e)]) ++ [existing], true)
  else (Z.min start existing.1, Z.max e existing.2, merged, inserted).

Definition record_write (range : Z * Z) (written : list (Z * Z)) : list (Z * Z) :=
  if range.2 <=? range.1 then written
  else
    let '(start, e, merged, inserted) :=
      foldl record_step (range.1, range.2, [], false) written in
    if inserted then merged else merged ++ [(start, e)].

(** [data[start..end].copy_from_slice(chunk)] *)
Definition overlay (start e : Z) (chunk data : list byte) : Result (list byte) :=
  if (start <=? e) && (e <=? blen data) && (blen chunk =? e - start) then
    Ok (take (Z.to_nat start) data ++ chunk ++ drop (Z.to_nat e) data)
  else Panic.

Definition write_at (offset : Z) (chunk : list byte) : M XattrWriteState Z := λ x,
  let e := offset + blen chunk in
  if U64_MAX <? e then (Err (EKind Invalid), x)
  else if xw_expected_size x <? e then (Err (EKind Invalid), x)
  else match overlay offset e chunk (xw_data x) with
       | Ok data =>
           (Ok (blen chunk),
            mkXattrWrite (xw_name x) (xw_flags x) (xw_expected_size x) data
              (record_write (offset, e) (xw_written x)) (xw_committed x))
       | Err err => (Err err, x)
       | Panic => (Panic, x)
       | NoFuel => (NoFuel, x)
       end.

Definition set_committed (x : XattrWriteState) : XattrWriteState :=
  mkXattrWrite (xw_name x) (xw_flags x) (xw_expected_size x) (xw_data x) (xw_written x) true.
End Xattr.

(** ** Pure helpers *)

Definition fnv1a64 (bs : list byte) : Z :=
  foldl (λ hash b, (Z.lxor hash (byte_to_Z b) * 1099511628211) mod 2 ^ 64)
    14695981039346656037 bs.

Definition qid_from_meta (path : string) (meta : Metadata) : Qid :=
  let typ :=
    if FileMode.is_dir (m_mode meta) then QTDIR
    else if FileMode.is_symlink (m_mode meta) then QTSYMLINK else 0 in
  mkQid typ 0 (fnv1a64 (bytes_of path)).

(** [duration_since(UNIX_EPOCH).unwrap_or_default()] as seconds and nanoseconds *)
Definition system_time_parts (time : Z) : Z * Z :=
  let d := Z.max 0 time in (d / 1000000000, d mod 1000000000).

(** [UNIX_EPOCH + Duration::new(secs, nanos as u32)]: [Duration::new] carries the
    nanoseconds and panics when the seconds overflow, and the addition panics when
    the seconds leave the [i64] a native [SystemTime] holds. *)
Definition epoch_plus (secs nanos : Z) : Result Z :=
  let nanos := nanos mod 2 ^ 32 in
  let s := secs + nanos / 1000000000 in
  if U64_MAX <? s then Panic
  else if I64_MAX <? s then Panic
  else Ok (s * 1000000000 + nanos mod 1000000000).

Definition mode_from_unix (mode : Z) : Z :=
  let typ := Z.land mode 61440 (* 0o170000 *) in
  let kind :=
    if typ =? 16384 then FileMode.DIR
    else if typ =? 40960 then FileMode.SYMLINK
    else if typ =? 4096 then FileMode.NAMED_PIPE
    else if typ =? 49152 then FileMode.SOCKET
    else FileMode.empty in
  Z.lor kind (FileMode.from_perm (Z.land mode 511)).

Definition mode_from_dirent_type (typ : Z) : Z :=
  if typ =? DT_DIR then Z.lor FileMode.DIR (FileMode.from_perm 493)
  else if typ =? DT_LNK then Z.lor FileMode.SYMLINK (FileMode.from_perm 511)
  else FileMode.from_perm 420.

Definition dirent_type (mode : Z) : Z :=
  if FileMode.is_dir mode then DT_DIR
  else if FileMode.is_symlink mode then DT_LNK
  else DT_REG.

(** [names.sort()] and a NUL after each name *)
Definition encode_xattr_names (names : list string) : list byte :=
  foldl (λ out name, out ++ bytes_of name ++ [x00]) [] (merge_sort String.le names).

(** [data.split(|byte| *byte == 0)] *)
Fixpoint split_nul (data : list byte) : list (list byte) :=
  match data with
  | [] => [[]]
  | b :: data' =>
      if decide (b = x00) then [] :: split_nul data'
      else match split_nul data' with
           | p :: ps => (b :: p) :: ps
           | [] => [[b]]
           end
  end.

Fixpoint collect_utf8 (names : list (list byte)) : Result (list string) :=
  match names with
  | [] => Ok []
  | name :: names' =>
      s ← ok_or_res (from_utf8 name) (EKind Invalid);
      ss ← collect_utf8 names';
      Ok (s :: ss)
  end.

Definition decode_xattr_names (data : list byte) : Result (list string) :=
  match last data with
  | None => Ok []
  | Some b =>
      if decide (b = x00) then collect_utf8 (split_nul (removelast data))
      else Err (EKind Invalid)
  end.

Definition open_flags_from_9p (flags : Z) : Z :=
  let acc := Z.land flags 3 in
  let out :=
    if acc =? 1 then OpenFlags.WRONLY
    else if acc =? 2 then OpenFlags.RDWR else OpenFlags.RDONLY in
  foldl (λ out bit, if negb (Z.land flags bit =? 0) then Z.lor out bit else out) out
    [OpenFlags.CREATE; OpenFlags.EXCL; OpenFlags.TRUNC; OpenFlags.APPEND].

Definition join_path (base name : string) : string :=
  if decide (base = ".") then clean_path name
  else clean_path (base +:+ "/" +:+ name).

Definition walk_join (base name : string) : string :=
  if decide (name = ".") then base
  else if decide (name = "..") then parent_path base
  else join_path base name.

Definition checked_join (base name : string) : Result string :=
  if is_empty_str name || contains_char "/" name || bool_decide (name = ".")
     || bool_decide (name = "..")
  then Err (EKind Invalid)
  else Ok (join_path base name).

Definition errno_for_error (err : Error) : Z :=
  match error_kind err with
  | NotFound => ENOENT
  | AlreadyExists => EEXIST
  | Invalid => EINVAL
  | PermissionDenied => EACCES
  | NotSupported => ENOSYS
  | NotEmpty => ENOTEMPTY
  | Closed => EBADF
  | NotDir => ENOTDIR
  | IsDir => EISDIR
  | UnexpectedEof => EIO
  | Other => EIO
  end.

Definition errno_to_error (errno : Z) : Error :=
  EKind (if errno =? EPERM then PermissionDenied
         else if errno =? ENOENT then NotFound
         else if errno =? EBADF then Invalid
         else if errno =? EACCES then PermissionDenied
         else if errno =? EEXIST then AlreadyExists
         else if errno =? ENOTDIR then NotDir
         else if errno =? EISDIR then IsDir
         else if errno =? EINVAL then Invalid
         else if errno =? ENOSYS then NotSupported
         else if errno =? ENOTEMPTY then NotEmpty
         else Other).

(** [attr.valid & MASK != 0] *)
Definition has_bit (valid mask : Z) : bool := negb (Z.land valid mask =? 0).

(** ** Server state *)

Inductive FidHandle (H : Type) :=
| HNone
| HFile (file : H)
| HXattrRead (data : list byte)
| HXattrWrite (write : XattrWriteState).
Arguments HNone {H}.
Arguments HFile {H} file.
Arguments HXattrRead {H} data.
Arguments HXattrWrite {H} write.

Record FidState (H : Type) := mkFidState {
  fid_st_path : string;
  fid_st_handle : FidHandle H;
  fid_st_flags : Z
}.
Arguments mkFidState {H}.
Arguments fid_st_path {H}.
Arguments fid_st_handle {H}.
Arguments fid_st_flags {H}.

Definition fid_unopened {H} (path : string) : FidState H := mkFidState path HNone 0.

Record ServerState (H : Type) := mkServerState {
  sv_msize : Z;
  sv_fids : gmap Z (FidState H)
}.
Arguments mkServerState {H}.
Arguments sv_msize {H}.
Arguments sv_fids {H}.

(** [NinePServer::new] *)
Definition server_new {H} : ServerState H := mkServerState DEFAULT_MSIZE ∅.

(** ** The server *)

Section Server.
Context {W H : Type} `{!FileHandle W H}.
Context (fsys : FileSystem W H) (current_time : M W Z).

Abbreviation SM A := (M (ServerState H * W) A).

Definition fs_call {A} (m : M W A) : SM A := on_snd m.

Definition lookup_fid (fid : Z) : SM (FidState H) := λ '(s, w),
  match sv_fids s !! fid with
  | Some st => (Ok st, (s, w))
  | None => (Err (EKind Invalid), (s, w))
  end.

Definition set_fid (fid : Z) (st : FidState H) : SM unit := λ '(s, w),
  (Ok tt, (mkServerState (sv_msize s) (<[fid := st]> (sv_fids s)), w)).

(** [fids.remove(&fid)] *)
Definition take_fid (fid : Z) : SM (option (FidState H)) := λ '(s, w),
  (Ok (sv_fids s !! fid), (mkServerState (sv_msize s) (delete fid (sv_fids s)), w)).

(** A method of the file in [fid]'s handle, called in place. *)
Definition fid_file {A} (fid : Z) (st : FidState H) (file : H) (m : M (H * W) A) : SM A :=
  '(r, file') ← fs_call (on_handle file m);
  set_fid fid (mkFidState (fid_st_path st) (HFile file') (fid_st_flags st)) ;;
  lift r.

Definition qid_for (path : string) : M W Qid :=
  meta ← fs_lstat fsys (Ctx.no_follow Ctx.new) path;
  mret (qid_from_meta path meta).

Definition attr_for (path : string) (meta : Metadata) (request_mask : Z) : M W NinePAttr :=
  let '(secs, nanos) := system_time_parts (m_modified meta) in
  let blocks := (m_size meta + 65535) / 65536 in
  nlink ← (if Meta.is_dir meta then
             r ← attempt (fs_read_dir fsys Ctx.new path);
             match r with
             | Ok entries => mret (2 + Z.of_nat (length entries))
             | Err _ => mret 2
             | Panic => panic
             | NoFuel => no_fuel
             end
           else mret 1);
  mret (mkNinePAttr (Z.land request_mask ATTR_BASIC) (qid_from_meta path meta)
          (FileMode.unix_type_and_perm (m_mode meta)) (m_uid meta) (m_gid meta) nlink
          0 (m_size meta) 65536 blocks secs nanos secs nanos secs nanos 0 0 0 0).

Definition fid_path (fid : Z) : SM string :=
  st ← lookup_fid fid; mret (fid_st_path st).

(** The guard of [walk] and [xattrwalk], and the path [fid] stands for. *)
Definition walk_base (fid newfid : Z) : SM string := λ '(s, w),
  if negb (newfid =? fid) && bool_decide (is_Some (sv_fids s !! newfid))
  then (Err (EKind Invalid), (s, w))
  else fid_path fid (s, w).

(** The loop of [walk]: the path reached and the qids on the way to it. *)
Fixpoint walk_loop (path : string) (qids : list Qid) (names : list string)
    : SM (string * list Qid) :=
  match names with
  | [] => mret (path, qids)
  | name :: rest =>
      if contains_char "/" name || is_empty_str name then throw (EKind Invalid)
      else
        let next_path := walk_join path name in
        r ← fs_call (attempt (qid_for next_path));
        match r with
        | Ok qid => walk_loop next_path (qids ++ [qid]) rest
        | Err err => match qids with [] => throw err | _ => mret (path, qids) end
        | Panic => panic
        | NoFuel => no_fuel
        end
  end.

Definition srv_walk (fid newfid : Z) (names : list string) : SM NinePResponse :=
  base ← walk_base fid newfid;
  '(path, qids) ← walk_loop base [] names;
  set_fid newfid (fid_unopened path) ;;
  mret (RWalk qids).

Definition srv_lopen (fid flags : Z) : SM NinePResponse :=
  path ← fid_path fid;
  file ← fs_call (fs_open_file fsys path (open_flags_from_9p flags) (FileMode.from_perm 438));
  qid ← fs_call (qid_for path);
  st ← lookup_fid fid;
  set_fid fid (mkFidState (fid_st_path st) (HFile file) flags) ;;
  mret (RLopen qid 0).

Definition srv_lcreate (fid : Z) (name : string) (flags mode : Z) : SM NinePResponse :=
  parent ← fid_path fid;
  path ← lift (checked_join parent name);
  let perm := FileMode.from_perm (Z.land mode 511) in
  file ← fs_call (fs_open_file fsys path
           (Z.lor (open_flags_from_9p flags) OpenFlags.CREATE) perm);
  qid ← fs_call (qid_for path);
  lookup_fid fid ;;
  set_fid fid (mkFidState path (HFile file) flags) ;;
  mret (RLcreate qid 0).

Definition srv_getattr (fid request_mask : Z) : SM NinePResponse :=
  st ← lookup_fid fid;
  meta ← match fid_st_handle st with
         | HFile file => fid_file fid st file fh_stat
         | HNone => fs_call (fs_lstat fsys (Ctx.no_follow Ctx.new) (fid_st_path st))
         | HXattrRead data => mret (Meta.file "xattr" 292 (blen data))
         | HXattrWrite write => mret (Meta.file "xattr" 128 (xw_expected_size write))
         end;
  attr ← fs_call (attr_for (fid_st_path st) meta request_mask);
  mret (RGetAttr attr).

Definition srv_setattr (fid : Z) (attr : SetAttr) : SM NinePResponse :=
  path ← fid_path fid;
  (if has_bit (sa_valid attr) SETATTR_SIZE then
     fs_call (fs_truncate fsys path (sa_size attr)) else mret tt) ;;
  (if has_bit (sa_valid attr) SETATTR_MODE then
     fs_call (fs_chmod fsys path (FileMode.from_perm (Z.land (sa_mode attr) 511)))
   else mret tt) ;;
  (if has_bit (sa_valid attr) (Z.lor SETATTR_UID SETATTR_GID) then
     meta ← fs_call (fs_lstat fsys (Ctx.no_follow Ctx.new) path);
     let uid := if has_bit (sa_valid attr) SETATTR_UID then sa_uid attr else m_uid meta in
     let gid := if has_bit (sa_valid attr) SETATTR_GID then sa_gid attr else m_gid meta in
     fs_call (fs_chown fsys path uid gid)
   else mret tt) ;;
  (if has_bit (sa_valid attr) SETATTR_MTIME then
     mtime ← (if has_bit (sa_valid attr) SETATTR_MTIME_SET then
                lift (epoch_plus (sa_mtime_seconds attr) (sa_mtime_nanoseconds attr))
              else fs_call current_time);
     fs_call (fs_chtimes fsys path mtime)
   else mret tt) ;;
  mret RSetAttr.

Definition srv_xattrwalk (fid newfid : Z) (name : string) : SM NinePResponse :=
  path ← walk_base fid newfid;
  data ← (if is_empty_str name then
            names ← fs_call (fs_list_xattrs fsys path); mret (encode_xattr_names names)
          else fs_call (fs_get_xattr fsys path name));
  set_fid newfid (mkFidState path (HXattrRead data) OpenFlags.RDONLY) ;;
  mret (RXattrWalk (blen data)).

Definition srv_xattrcreate (fid : Z) (name : string) (size flags : Z) : SM NinePResponse :=
  guard_err (is_empty_str name) (EKind Invalid) ;;
  st ← lookup_fid fid;
  write ← lift (Xattr.new name flags size);
  set_fid fid (mkFidState (fid_st_path st) (HXattrWrite write) OpenFlags.WRONLY) ;;
  mret RXattrCreate.

Definition srv_read (fid offset count : Z) : SM NinePResponse :=
  st ← lookup_fid fid;
  data ← match fid_st_handle st with
         | HFile file => fid_file fid st file (fh_read_at count offset)
         | HXattrRead data =>
             if blen data <=? offset then mret []
             else
               let e := Z.min (Z.min (offset + count) USIZE_MAX) (blen data) in
               lift (slice offset e data)
         | HXattrWrite _ => throw (EKind PermissionDenied)
         | HNone => throw (EKind Invalid)
         end;
  mret (RRead data).

Definition srv_write (fid offset : Z) (data : list byte) : SM NinePResponse :=
  st ← lookup_fid fid;
  count ← match fid_st_handle st with
          | HFile file => fid_file fid st file (fh_write_at data offset)
          | HXattrWrite write =>
              let '(r, write') := Xattr.write_at offset data write in
              set_fid fid (mkFidState (fid_st_path st) (HXattrWrite write') (fid_st_flags st)) ;;
              lift r
          | HXattrRead _ => throw (EKind PermissionDenied)
          | HNone => throw (EKind Invalid)
          end;
  if count <=? U32_MAX then mret (RWrite count) else throw (EKind Invalid).

(** [commit_xattr_if_ready] on a fid state in a local variable *)
Definition commit_xattr_if_ready (st : FidState H) : SM (FidState H) :=
  match fid_st_handle st with
  | HXattrWrite write =>
      if xw_committed write then mret st
      else
        guard_err (negb (Xattr.is_complete write)) (EKind Invalid) ;;
        fs_call (fs_set_xattr fsys (fid_st_path st) (xw_name write) (xw_data write)) ;;
        mret (mkFidState (fid_st_path st) (HXattrWrite (Xattr.set_committed write))
                (fid_st_flags st))
  | _ => mret st
  end.

Definition srv_clunk (fid : Z) : SM NinePResponse :=
  state ← take_fid fid;
  st ← ok_or state (EKind Invalid);
  st ← commit_xattr_if_ready st;
  match fid_st_handle st with
  | HFile file => fs_call (with_handle file fh_close) ;; mret RClunk
  | _ => mret RClunk
  end.

Definition srv_remove (fid : Z) : SM NinePResponse :=
  state ← take_fid fid;
  st ← ok_or state (EKind Invalid);
  guard_err (bool_decide (fid_st_path st = ".")) (EKind Invalid) ;;
  match fid_st_handle st with
  | HFile file => fs_call (on_handle file fh_close) ;; mret tt
  | _ => mret tt
  end ;;
  fs_call (fs_remove fsys (fid_st_path st)) ;;
  mret RRemove.

Definition srv_mkdir (fid : Z) (name : string) (mode : Z) : SM NinePResponse :=
  parent ← fid_path fid;
  path ← lift (checked_join parent name);
  fs_call (fs_mkdir fsys path
    (Z.lor FileMode.DIR (FileMode.from_perm (Z.land mode 511)))) ;;
  qid ← fs_call (qid_for path);
  mret (RMkdir qid).

Definition srv_link (fid newdirfid : Z) (name : string) : SM NinePResponse :=
  old ← fid_path fid;
  newdir ← fid_path newdirfid;
  new ← lift (checked_join newdir name);
  fs_call (fs_link fsys old new) ;;
  mret RLink.

Fixpoint readdir_loop (path : string) (offset count index : Z) (data : list byte)
    (entries : list DirEntry) : SM (list byte) :=
  match entries with
  | [] => mret data
  | entry :: rest =>
      let cursor := index + 1 in
      if cursor <=? offset then readdir_loop path offset count cursor data rest
      else
        let child := join_path path (d_name entry) in
        qid ← fs_call (qid_for child);
        encoded ← lift (encode_dirents
          [mkNinePDirent qid cursor (dirent_type (m_mode (d_metadata entry))) (d_name entry)]);
        if count <? blen data + blen encoded then mret data
        else readdir_loop path offset count cursor (data ++ encoded) rest
  end.

Definition srv_readdir (fid offset count : Z) : SM NinePResponse :=
  path ← fid_path fid;
  entries ← fs_call (fs_read_dir fsys Ctx.new path);
  data ← readdir_loop path offset count 0 [] entries;
  mret (RReaddir data).

Definition srv_rename_at (olddirfid : Z) (oldname : string) (newdirfid : Z)
    (newname : string) : SM NinePResponse :=
  olddir ← fid_path olddirfid;
  old ← lift (checked_join olddir oldname);
  newdir ← fid_path newdirfid;
  new ← lift (checked_join newdir newname);
  fs_call (fs_rename fsys old new) ;;
  mret RRenameAt.

Definition srv_unlink_at (dirfid : Z) (name : string) (flags : Z) : SM NinePResponse :=
  dir ← fid_path dirfid;
  path ← lift (checked_join dir name);
  meta ← fs_call (fs_lstat fsys (Ctx.no_follow Ctx.new) path);
  guard_err (Meta.is_dir meta && negb (has_bit flags AT_REMOVEDIR)) (EKind IsDir) ;;
  guard_err (negb (Meta.is_dir meta) && has_bit flags AT_REMOVEDIR) (EKind NotDir) ;;
  (if Meta.is_dir meta then
     entries ← fs_call (fs_read_dir fsys Ctx.new path);
     guard_err (negb (bool_decide (entries = []))) (EKind NotEmpty)
   else mret tt) ;;
  fs_call (fs_remove fsys path) ;;
  mret RUnlinkAt.

Definition srv_symlink (fid : Z) (name target : string) : SM NinePResponse :=
  dir ← fid_path fid;
  path ← lift (checked_join dir name);
  fs_call (fs_symlink fsys target path) ;;
  qid ← fs_call (qid_for path);
  mret (RSymlink qid).

Definition srv_readlink (fid : Z) : SM NinePResponse :=
  path ← fid_path fid;
  target ← fs_call (fs_readlink fsys path);
  mret (RReadlink target).

Definition srv_fsync (fid : Z) : SM NinePResponse :=
  st ← lookup_fid fid;
  match fid_st_handle st with
  | HFile file =>
      r ← attempt (fid_file fid st file fh_sync);
      match r with
      | Ok _ | Err (EKind NotSupported) => mret RFsync
      | Err err => throw err
      | Panic => panic
      | NoFuel => no_fuel
      end
  | HXattrWrite _ =>
      st' ← commit_xattr_if_ready st;
      set_fid fid st' ;;
      mret RFsync
  | HXattrRead _ | HNone => mret RFsync
  end.

Definition srv_version (msize : Z) (version : string) : SM NinePResponse := λ '(s, w),
  let negotiated := Z.min msize DEFAULT_MSIZE in
  (Ok (RVersion negotiated
         (if starts_with "9P2000" version then VERSION else "unknown")),
   (mkServerState negotiated (sv_fids s), w)).

Definition srv_attach (fid : Z) : SM NinePResponse :=
  qid ← fs_call (qid_for ".");
  set_fid fid (fid_unopened ".") ;;
  mret (RAttach qid).

Definition srv_flush (oldtag : Z) : NinePResponse := RFlush.

Definition srv_handle (request : NinePRequest) : SM NinePResponse :=
  match request with
  | TVersion msize version => srv_version msize version
  | TAttach fid _ _ _ _ => srv_attach fid
  | TWalk fid newfid names => srv_walk fid newfid names
  | TLopen fid flags => srv_lopen fid flags
  | TLcreate fid name flags mode _ => srv_lcreate fid name flags mode
  | TGetAttr fid request_mask => srv_getattr fid request_mask
  | TSetAttr fid attr => srv_setattr fid attr
  | TXattrWalk fid newfid name => srv_xattrwalk fid newfid name
  | TXattrCreate fid name size flags => srv_xattrcreate fid name size flags
  | TRead fid offset count => srv_read fid offset count
  | TWrite fid offset data => srv_write fid offset data
  | TClunk fid => srv_clunk fid
  | TRemove fid => srv_remove fid
  | TMkdir fid name mode _ => srv_mkdir fid name mode
  | TLink fid newdirfid name => srv_link fid newdirfid name
  | TReaddir fid offset count => srv_readdir fid offset count
  | TRenameAt olddirfid oldname newdirfid newname =>
      srv_rename_at olddirfid oldname newdirfid newname
  | TUnlinkAt dirfid name flags => srv_unlink_at dirfid name flags
  | TSymlink fid name target _ => srv_symlink fid name target
  | TReadlink fid => srv_readlink fid
  | TFsync fid => srv_fsync fid
  | TFlush oldtag => mret (srv_flush oldtag)
  end.

(** [handle(..).unwrap_or_else(|err| Lerror { .. })] *)
Definition srv_respond (request : NinePRequest) : SM NinePResponse :=
  r ← attempt (srv_handle request);
  match r with
  | Ok response => mret response
  | Err err => mret (RLerror (errno_for_error err))
  | Panic => panic
  | NoFuel => no_fuel
  end.

Definition handle_frame (frame : list byte) : SM (list byte) :=
  '(tag, request) ← lift (decode_request frame);
  response ← srv_respond request;
  lift (encode_response tag response).
End Server.
