(* ===== verification/P9Helpers.v ===== *)
(** * Translations of the 9P layer

    What survives the wire encodings of [crates/star9-protocol/src/p9.rs] that are
    not the message codec: error kinds as errno values, file modes as Unix modes,
    and lists of attribute names. *)

From stdpp Require Import base list numbers option strings sorting.
From Stdlib Require Import ZArith Lia Ascii.
From S2P Require Import Prelude Strs BTree Core FsTrait P9Codec P9CodecFacts P9Server.

Local Open Scope Z_scope.

(** ** File modes *)

(** The type of a file as [unix_type_and_perm] sees it: the first that applies. *)
Definition mode_kind (m : Z) : Z :=
  if FileMode.is_dir m then FileMode.DIR
  else if FileMode.is_symlink m then FileMode.SYMLINK
  else if FileMode.contains m FileMode.NAMED_PIPE then FileMode.NAMED_PIPE
  else if FileMode.contains m FileMode.SOCKET then FileMode.SOCKET
  else FileMode.empty.

Definition kind_unix : list (Z * Z) :=
  [(FileMode.DIR, 16384); (FileMode.SYMLINK, 40960); (FileMode.NAMED_PIPE, 4096);
   (FileMode.SOCKET, 49152); (FileMode.empty, 32768)].

(** A test of all permission values for each kind of file. *)
Definition mode_table_ok : bool :=
  forallb (λ '(k, u), forallb (λ q,
    (mode_from_unix (Z.lor u q) =? Z.lor k q) && (FileMode.perm (Z.lor k q) =? q) &&
    (mode_kind (Z.lor k q) =? k)) (seqZ 0 512)) kind_unix.

Lemma mode_table : mode_table_ok = true.
Proof. vm_compute. reflexivity. Qed.

Lemma perm_range m : 0 ≤ FileMode.perm m < 512.
Proof. apply (land_range 9); [lia|done]. Qed.

Lemma mode_kind_table m :
  ∃ u, (mode_kind m, u) ∈ kind_unix ∧ FileMode.unix_type_and_perm m = Z.lor u (FileMode.perm m).
Proof.
  unfold mode_kind, FileMode.unix_type_and_perm, kind_unix.
  repeat case_match; eexists; (split; [|reflexivity]); rewrite ?elem_of_cons; tauto.
Qed.

Lemma mode_table_entry k u q : (k, u) ∈ kind_unix → 0 ≤ q < 512 →
  mode_from_unix (Z.lor u q) = Z.lor k q ∧ FileMode.perm (Z.lor k q) = q ∧
  mode_kind (Z.lor k q) = k.
Proof.
  intros Hk Hq. pose proof mode_table as Ht. unfold mode_table_ok in Ht.
  rewrite forallb_Forall, Forall_forall in Ht. specialize (Ht _ Hk). cbv beta iota in Ht.
  rewrite forallb_Forall, Forall_forall in Ht.
  specialize (Ht q ltac:(apply elem_of_seqZ; lia)). cbv beta in Ht. by bool_to_prop.
Qed.

Lemma mode_roundtrip_aux m :
  let m' := mode_from_unix (FileMode.unix_type_and_perm m) in
  m' = Z.lor (mode_kind m) (FileMode.perm m) ∧
  FileMode.perm m' = FileMode.perm m ∧ mode_kind m' = mode_kind m ∧
  FileMode.unix_type_and_perm m' = FileMode.unix_type_and_perm m.
Proof.
  cbv zeta. destruct (mode_kind_table m) as (u & Hu & Heq). rewrite Heq.
  destruct (mode_table_entry _ _ _ Hu (perm_range m)) as (-> & Hp & Hk).
  split; [done|]. split; [done|]. split; [done|].
  destruct (mode_kind_table (Z.lor (mode_kind m) (FileMode.perm m))) as (u' & Hu' & ->).
  rewrite Hp. f_equal. rewrite Hk in Hu'. revert Hu Hu'. unfold kind_unix.
  rewrite !elem_of_cons. generalize (mode_kind m). intros k.
  intros [?|[?|[?|[?|[?|[]%elem_of_nil]]]]] [?|[?|[?|[?|[?|[]%elem_of_nil]]]]];
    simplify_eq; done.
Qed.

(** ** Attribute names *)

Definition name_bytes (names : list string) : list byte :=
  concat ((λ n, bytes_of n ++ [x00]) <$> names).

Lemma encode_xattr_names_eq names :
  encode_xattr_names names = name_bytes (merge_sort String.le names).
Proof.
  unfold encode_xattr_names, name_bytes. generalize (merge_sort String.le names) as l.
  assert (∀ l out, foldl (λ out name, out ++ bytes_of name ++ [x00]) out l =
    out ++ concat ((λ n, bytes_of n ++ [x00]) <$> l)) as Hf.
  { induction l as [|n l IH]; intros out; cbn [foldl]; [by rewrite app_nil_r|].
    rewrite IH, fmap_cons. cbn [concat]. by rewrite <- !app_assoc. }
  intros l. by rewrite Hf.
Qed.

Lemma split_nul_no_nul bs : x00 ∉ bs → split_nul bs = [bs].
Proof.
  induction bs as [|b bs IH]; [done|]. intros [Hb Hbs]%not_elem_of_cons. cbn.
  rewrite decide_False by done. by rewrite IH.
Qed.

Lemma split_nul_app bs rest : x00 ∉ bs → split_nul (bs ++ x00 :: rest) = bs :: split_nul rest.
Proof.
  induction bs as [|b bs IH]; [done|]. intros [Hb Hbs]%not_elem_of_cons. cbn.
  rewrite decide_False by done. by rewrite IH.
Qed.

Lemma split_name_bytes names : names ≠ [] → Forall (λ n, x00 ∉ bytes_of n) names →
  split_nul (removelast (name_bytes names)) = bytes_of <$> names.
Proof.
  induction names as [|n names IH]; [done|]. intros _ [Hn Hns]%Forall_cons.
  unfold name_bytes in *. rewrite fmap_cons. cbn [concat].
  destruct names as [|n' names].
  - cbn [concat fmap list_fmap]. rewrite app_nil_r, removelast_last. by apply split_nul_no_nul.
  - rewrite <- app_assoc, removelast_app, removelast_app; cbn [app].
    + rewrite split_nul_app by done. exact (f_equal (cons _) (IH ltac:(done) Hns)).
    + rewrite fmap_cons. cbn [concat]. by destruct (bytes_of n').
    + done.
Qed.

Lemma collect_utf8_valid names : Forall str_valid names →
  collect_utf8 (bytes_of <$> names) = Ok names.
Proof.
  induction 1 as [|n names Hn Hns IH]; [done|]. rewrite fmap_cons. cbn [collect_utf8].
  rewrite from_utf8_bytes_of by done. cbn. by rewrite IH.
Qed.

Lemma last_name_bytes names : names ≠ [] → last (name_bytes names) = Some x00.
Proof.
  intros Hne. destruct names as [|n names _] using rev_ind; [done|].
  unfold name_bytes. rewrite fmap_app, concat_app. cbn. rewrite app_nil_r, app_assoc.
  by rewrite last_snoc.
Qed.

(** ** Properties *)

(** Errors over the wire: the kind of an error survives its translation to an
    errno and back, except that a closed file comes back as an invalid argument and
    an unexpected end of file as an unspecified error; the operation and path do
    not survive. *)
Theorem errno_roundtrip e :
  errno_to_error (errno_for_error e) =
    EKind (match error_kind e with
           | Closed => Invalid
           | UnexpectedEof => Other
           | k => k
           end).
Proof. unfold errno_for_error. by destruct (error_kind e). Qed.

(** File modes over the wire: sending a mode as a Unix mode and reading it back
    keeps the permission bits and the type (directory, symlink, pipe, socket or
    plain file, the first that applies), whatever other bits the mode had, and what
    is read back is sent the same way again. *)
Theorem mode_roundtrip m :
  let m' := mode_from_unix (FileMode.unix_type_and_perm m) in
  m' = Z.lor (mode_kind m) (FileMode.perm m) ∧
  FileMode.perm m' = FileMode.perm m ∧ mode_kind m' = mode_kind m ∧
  FileMode.unix_type_and_perm m' = FileMode.unix_type_and_perm m.
Proof. apply mode_roundtrip_aux. Qed.

(** Attribute names over the wire: the list read back is the list sent, in byte
    order, when every name is UTF-8 without a NUL. *)
Theorem xattr_names_roundtrip names :
  Forall str_valid names → Forall (λ n, x00 ∉ bytes_of n) names →
  decode_xattr_names (encode_xattr_names names) = Ok (merge_sort String.le names).
Proof.
  intros Hv Hn. rewrite encode_xattr_names_eq.
  rewrite <- (merge_sort_Permutation String.le names) in Hv, Hn. revert Hv Hn.
  generalize (merge_sort String.le names) as l. intros l Hv Hn.
  destruct (decide (l = [])) as [->|Hne]; [done|].
  unfold decode_xattr_names. rewrite last_name_bytes by done.
  rewrite decide_True by done. rewrite split_name_bytes by done. by apply collect_utf8_valid.
Qed.

Lemma xattr_names_roundtrip_witness :
  decode_xattr_names (encode_xattr_names ["user.b"; ""; "user.a"]) =
    Ok [""; "user.a"; "user.b"].
Proof.
  etransitivity.
  - apply (xattr_names_roundtrip ["user.b"; ""; "user.a"]).
    + repeat constructor.
    + repeat constructor; apply (bool_decide_unpack _); vm_compute; exact I.
  - vm_compute. reflexivity.
Defined.

(** ** Extended-attribute writes of the 9P server

    Facts on [XattrWriteState] ([crates/star9-protocol/src/p9.rs]): the merged
    ranges of [record_write] are exactly the bytes written, so [is_complete] holds
    when every byte of the announced size has been written, in any order and with
    any overlap. *)

(** ** Ranges *)

(** Ascending, non-empty ranges in [lo, hi], none touching the next. *)
Fixpoint ranges_ok (lo hi : Z) (l : list (Z * Z)) : Prop :=
  match l with
  | [] => True
  | (s, e) :: l' => lo ≤ s ∧ s < e ∧ e ≤ hi ∧ ranges_ok (e + 1) hi l'
  end.

Definition in_ranges (i : Z) (l : list (Z * Z)) : Prop := Exists (λ r, r.1 ≤ i < r.2) l.

(** A write state as the server keeps it. *)
Definition xattr_ok (x : XattrWriteState) : Prop :=
  0 ≤ xw_expected_size x ∧ blen (xw_data x) = xw_expected_size x ∧
  ranges_ok 0 (xw_expected_size x) (xw_written x).

(** The writes of a client, refused ones leaving the state as it was. *)
Definition run_writes (x : XattrWriteState) (ws : list (Z * list byte)) : XattrWriteState :=
  foldl (λ x w, (Xattr.write_at w.1 w.2 x).2) x ws.

Definition fits (size : Z) (w : Z * list byte) : bool := w.1 + blen w.2 <=? size.

(** The byte at [i] after the writes [ws], most recent first. *)
Fixpoint byte_after (size : Z) (ws : list (Z * list byte)) (i : Z) : byte :=
  match ws with
  | [] => x00
  | w :: ws' =>
      if fits size w && (w.1 <=? i) && (i <? w.1 + blen w.2)
      then nth (Z.to_nat (i - w.1)) w.2 x00
      else byte_after size ws' i
  end.

(** What [record_write]'s loop leaves, as one list. *)
Definition fold_result (acc : Z * Z * list (Z * Z) * bool) : list (Z * Z) :=
  let '(start, e, merged, inserted) := acc in
  if inserted : bool then merged else merged ++ [(start, e)].

Lemma ranges_ok_weaken lo lo' hi l : lo ≤ lo' → ranges_ok lo' hi l → ranges_ok lo hi l.
Proof. destruct l as [|[s e] l]; cbn; [done|]. intros ? (?&?&?&?). repeat split; auto; lia. Qed.

Lemma in_ranges_cons i s e l : in_ranges i ((s, e) :: l) ↔ s ≤ i < e ∨ in_ranges i l.
Proof. unfold in_ranges. by rewrite Exists_cons. Qed.

Lemma in_ranges_lo i lo hi l : ranges_ok lo hi l → in_ranges i l → lo ≤ i < hi.
Proof.
  revert lo. induction l as [|[s e] l IH]; cbn; intros lo Hok Hin.
  - by apply Exists_nil in Hin.
  - destruct Hok as (?&?&?&Hok). apply in_ranges_cons in Hin as [?|Hin]; [lia|].
    specialize (IH _ Hok Hin). lia.
Qed.

Lemma record_fold_inserted start e hi merged rest : start < e → ranges_ok (e + 1) hi rest →
  foldl Xattr.record_step (start, e, merged, true) rest = (start, e, merged ++ rest, true).
Proof.
  revert merged. induction rest as [|[s' e'] rest IH]; intros merged Hlt Hok; cbn [foldl].
  - by rewrite app_nil_r.
  - cbn in Hok. destruct Hok as (?&?&?&Hok). unfold Xattr.record_step at 2. cbn [fst snd].
    rewrite (proj2 (Z.ltb_ge e' start)) by lia. rewrite (proj2 (Z.ltb_lt e s')) by lia.
    rewrite IH.
    + by rewrite <- app_assoc.
    + done.
    + eapply ranges_ok_weaken; [|done]. lia.
Qed.

Lemma record_fold lo hi start e merged rest :
  lo ≤ start → start < e → e ≤ hi → ranges_ok lo hi rest →
  ∃ l, fold_result (foldl Xattr.record_step (start, e, merged, false) rest) = merged ++ l ∧
    ranges_ok lo hi l ∧ ∀ i, in_ranges i l ↔ start ≤ i < e ∨ in_ranges i rest.
Proof.
  revert lo start e merged.
  induction rest as [|[s' e'] rest IH]; intros lo start e merged Hlo Hlt Hhi Hok; cbn [foldl].
  - exists [(start, e)]. split; [done|]. split; [cbn; lia|]. intros i.
    by rewrite in_ranges_cons.
  - cbn in Hok. destruct Hok as (?&?&?&Hok). unfold Xattr.record_step at 2. cbn [fst snd].
    destruct (e' <? start) eqn:?; bool_to_prop.
    { destruct (IH (e' + 1) start e (merged ++ [(s', e')])) as (l & -> & Hl & Hc); [lia..|done|].
      exists ((s', e') :: l). rewrite <- app_assoc. split; [done|]. split; [cbn; tauto|].
      intros i. rewrite !in_ranges_cons, Hc. tauto. }
    destruct (e <? s') eqn:?; bool_to_prop.
    { rewrite (record_fold_inserted start e hi) by (done || (eapply ranges_ok_weaken; [|done]; lia)).
      exists ((start, e) :: (s', e') :: rest). cbn [fold_result].
      rewrite <- !app_assoc. split; [done|].
      split; [cbn; repeat split; auto; lia|]. intros i. rewrite !in_ranges_cons. tauto. }
    destruct (IH lo (Z.min start s') (Z.max e e') merged) as (l & -> & Hl & Hc); [lia..| |].
    { eapply ranges_ok_weaken; [|done]. lia. }
    exists l. split; [done|]. split; [done|]. intros i. rewrite in_ranges_cons, Hc.
    destruct (decide (start ≤ i < e)), (decide (s' ≤ i < e')); try tauto.
    + split; [tauto|]. intros _. left. lia.
    + split; [tauto|]. intros _. left. lia.
    + split; [tauto|]. intros _. left. lia.
    + split; [|tauto]. intros [?|?]; [lia|tauto].
Qed.

Lemma record_write_ok hi range l : 0 ≤ range.1 → range.2 ≤ hi → ranges_ok 0 hi l →
  ranges_ok 0 hi (Xattr.record_write range l) ∧
  ∀ i, in_ranges i (Xattr.record_write range l) ↔ range.1 ≤ i < range.2 ∨ in_ranges i l.
Proof.
  intros H0 Hhi Hok. unfold Xattr.record_write.
  destruct (range.2 <=? range.1) eqn:?; bool_to_prop.
  - split; [done|]. intros i. split; [tauto|]. intros [?|?]; [lia|done].
  - destruct (record_fold 0 hi range.1 range.2 [] l) as (l' & Hl & Hok' & Hc); [lia..|done|].
    unfold fold_result in Hl. destruct (foldl _ _ _) as [[[s e] m] ins]. cbn in Hl.
    rewrite Hl. done.
Qed.

Lemma complete_iff hi l : 0 ≤ hi → ranges_ok 0 hi l →
  (hi =? 0) || match l with [(s, e)] => (s =? 0) && (e =? hi) | _ => false end = true ↔
  ∀ i, 0 ≤ i < hi → in_ranges i l.
Proof.
  intros Hhi Hok. destruct (Z.eqb_spec hi 0) as [->|Hne]; cbn [orb].
  { split; [intros _ i ?; lia|done]. }
  destruct l as [|[s e] l]; cbn in Hok.
  - split; [done|]. intros Hall. specialize (Hall 0 ltac:(lia)). by apply Exists_nil in Hall.
  - destruct Hok as (?&?&?&Hok). destruct l as [|[s2 e2] l].
    + rewrite andb_true_iff, !Z.eqb_eq. split.
      * intros [-> ->] i Hi. apply in_ranges_cons. by left.
      * intros Hall.
        pose proof (Hall 0 ltac:(lia)) as [?|Hn]%in_ranges_cons; [|by apply Exists_nil in Hn].
        pose proof (Hall (hi - 1) ltac:(lia)) as [?|Hn]%in_ranges_cons;
          [lia|by apply Exists_nil in Hn].
    + split; [done|]. intros Hall. exfalso. pose proof Hok as (?&?&?&_).
      pose proof (Hall e ltac:(lia)) as [?|Hin]%in_ranges_cons; [lia|].
      pose proof (in_ranges_lo _ _ _ _ Hok Hin). lia.
Qed.

(** ** One write *)

Lemma overlay_ok offset chunk data : 0 ≤ offset → offset + blen chunk ≤ blen data →
  Xattr.overlay offset (offset + blen chunk) chunk data =
    Ok (take (Z.to_nat offset) data ++ chunk ++ drop (Z.to_nat (offset + blen chunk)) data).
Proof.
  intros H0 H1. unfold Xattr.overlay. pose proof (blen_nonneg chunk).
  rewrite (proj2 (Z.leb_le offset _)), (proj2 (Z.leb_le _ (blen data))), (proj2 (Z.eqb_eq _ _));
    [done|lia..].
Qed.

Lemma nth_splice {A} (n : nat) (c l : list A) (k : nat) d : (n + length c ≤ length l)%nat →
  nth k (take n l ++ c ++ drop (n + length c) l) d =
    if decide (n ≤ k < n + length c)%nat then nth (k - n) c d else nth k l d.
Proof.
  intros Hl. rewrite !nth_lookup. case_decide.
  - rewrite lookup_app_r by (rewrite length_take; lia). rewrite length_take.
    rewrite lookup_app_l by lia. by rewrite Nat.min_l by lia.
  - destruct (decide (k < n)%nat).
    + rewrite lookup_app_l by (rewrite length_take; lia). by rewrite lookup_take_lt by lia.
    + rewrite lookup_app_r by (rewrite length_take; lia). rewrite length_take.
      rewrite lookup_app_r by lia. rewrite lookup_drop.
      by replace (n + length c + (k - n `min` length l - length c))%nat with k by lia.
Qed.

(** A write that fits is applied, any other is refused and changes nothing. *)
Lemma write_at_fits x off chunk : xattr_ok x → xw_expected_size x ≤ ISIZE_MAX → 0 ≤ off →
  Xattr.write_at off chunk x =
    if fits (xw_expected_size x) (off, chunk) then
      (Ok (blen chunk),
       mkXattrWrite (xw_name x) (xw_flags x) (xw_expected_size x)
         (take (Z.to_nat off) (xw_data x) ++ chunk ++
          drop (Z.to_nat (off + blen chunk)) (xw_data x))
         (Xattr.record_write (off, off + blen chunk) (xw_written x)) (xw_committed x))
    else (Err (EKind Invalid), x).
Proof.
  intros (H0 & Hlen & Hok) Hmax Hoff. unfold Xattr.write_at, fits. cbn [fst snd].
  assert (ISIZE_MAX < U64_MAX) by done.
  destruct (off + blen chunk <=? xw_expected_size x) eqn:Hf; bool_to_prop.
  - rewrite (proj2 (Z.ltb_ge U64_MAX _)) by lia.
    rewrite (proj2 (Z.ltb_ge (xw_expected_size x) _)) by lia.
    by rewrite overlay_ok by lia.
  - rewrite (proj2 (Z.ltb_lt (xw_expected_size x) _)) by lia. by destruct (_ <? _).
Qed.

Lemma write_at_ok x off chunk : xattr_ok x → xw_expected_size x ≤ ISIZE_MAX → 0 ≤ off →
  xattr_ok (Xattr.write_at off chunk x).2 ∧
  xw_expected_size (Xattr.write_at off chunk x).2 = xw_expected_size x.
Proof.
  intros Hx Hmax Hoff. rewrite write_at_fits by done. destruct (fits _ _) eqn:Hf; [|done].
  unfold fits in Hf. cbn in Hf. bool_to_prop. destruct Hx as (H0 & Hlen & Hok).
  pose proof (blen_nonneg chunk). split; [|done]. split; [done|]. cbn. split.
  - unfold blen in *. rewrite !length_app, length_take, length_drop. lia.
  - apply record_write_ok; cbn; [lia..|done].
Qed.

(** What a sequence of writes leaves. *)
Lemma run_writes_spec x ws : xattr_ok x → xw_expected_size x ≤ ISIZE_MAX →
  xw_written x = [] → (∀ i, nth i (xw_data x) x00 = x00) → Forall (λ w, 0 ≤ w.1) ws →
  let x' := run_writes x ws in
  let size := xw_expected_size x in
  xattr_ok x' ∧ xw_expected_size x' = size ∧
  (∀ i, in_ranges i (xw_written x') ↔
    Exists (λ w, fits size w = true ∧ w.1 ≤ i < w.1 + blen w.2) ws) ∧
  ∀ i, 0 ≤ i < size → nth (Z.to_nat i) (xw_data x') x00 = byte_after size (rev ws) i.
Proof.
  intros Hx Hmax Hnil Hzero. cbv zeta.
  induction ws as [|[off chunk] ws IH] using rev_ind; intros Hws.
  - cbn. rewrite Hnil. split; [done|]. split; [done|]. split.
    + intros i. by split; intros Hn; apply Exists_nil in Hn.
    + intros i _. apply Hzero.
  - apply Forall_app in Hws as [Hws Hoff]. apply Forall_cons in Hoff as [Hoff _]. cbn in Hoff.
    destruct (IH Hws) as (Hok & Hsize & Hcov & Hdata). clear IH.
    unfold run_writes in *. rewrite foldl_app. cbn [foldl fst snd].
    revert Hok Hsize Hcov Hdata. generalize (foldl (λ x w, (Xattr.write_at w.1 w.2 x).2) x ws).
    intros y Hok Hsize Hcov Hdata.
    destruct (write_at_ok y off chunk) as [Hok' Hsize']; [done|by rewrite Hsize|done|].
    split; [done|]. split; [by rewrite Hsize'|]. rewrite rev_unit. cbn [byte_after fst snd].
    rewrite write_at_fits by (done || by rewrite Hsize). rewrite Hsize.
    destruct Hok as (H0 & Hlen & Hok).
    destruct (fits (xw_expected_size x) (off, chunk)) eqn:Hf; cbn [snd xw_written xw_data andb].
    + pose proof Hf as Hf'. unfold fits in Hf'. cbn in Hf'. bool_to_prop. split.
      * intros i. pose proof (blen_nonneg chunk).
        rewrite (proj2 (record_write_ok (xw_expected_size x) (off, off + blen chunk)
          (xw_written y) ltac:(cbn; lia) ltac:(cbn; lia) ltac:(by rewrite <- Hsize))).
        rewrite Exists_app, Exists_cons, Exists_nil, Hcov. cbn. tauto.
      * intros i Hi. unfold blen in *.
        replace (Z.to_nat (off + Z.of_nat (length chunk))) with
          (Z.to_nat off + length chunk)%nat by lia.
        rewrite nth_splice by lia. rewrite <- Hdata by done.
        destruct (off <=? i) eqn:?, (i <? off + Z.of_nat (length chunk)) eqn:?;
          bool_to_prop; cbn [andb]; case_decide; try lia; [|done..].
        by replace (Z.to_nat i - Z.to_nat off)%nat with (Z.to_nat (i - off)) by lia.
    + split; [|done]. intros i. rewrite Exists_app, Exists_cons, Exists_nil, Hcov. cbn.
      rewrite Hf. split; [tauto|]. intros [?|[[? _]|?]]; done.
Qed.

(** A committed or fresh state is a good one. *)
Lemma xattr_new_ok name flags size x : 0 ≤ size → Xattr.new name flags size = Ok x →
  x = mkXattrWrite name flags size (replicate (Z.to_nat size) x00) [] false ∧
  xattr_ok x ∧ size ≤ ISIZE_MAX.
Proof.
  unfold Xattr.new. destruct (ISIZE_MAX <? size) eqn:?; [done|]. bool_to_prop.
  intros H0 [= <-]. split; [done|]. split; [|done]. split; [done|]. cbn.
  unfold blen. rewrite length_replicate. lia.
Qed.

(** ** Properties *)

(** Writing an extended attribute in pieces: starting from [XattrCreate] of
    [size] bytes, after any writes (in any order, overlapping, some refused because
    they run past [size]) the value is complete exactly when every byte of it is in
    a write that was accepted, and each byte is the one of the last accepted write
    over it. *)
Theorem xattr_writes_complete name flags size x ws :
  0 ≤ size → Xattr.new name flags size = Ok x → Forall (λ w, 0 ≤ w.1) ws →
  let x' := run_writes x ws in
  (Xattr.is_complete x' = true ↔
     ∀ i, 0 ≤ i < size →
       Exists (λ w, fits size w = true ∧ w.1 ≤ i < w.1 + blen w.2) ws) ∧
  blen (xw_data x') = size ∧
  ∀ i, 0 ≤ i < size → nth (Z.to_nat i) (xw_data x') x00 = byte_after size (rev ws) i.
Proof.
  intros H0 (-> & Hx & Hmax)%xattr_new_ok Hws; [|done]. cbv zeta.
  destruct (run_writes_spec _ ws Hx) as ((_ & Hlen & Hok) & Hsize & Hcov & Hdata);
    [done|done| |done|].
  { intros i. cbn. rewrite nth_lookup. destruct (_ !! i) eqn:Hi; [|done].
    by apply lookup_replicate in Hi as [-> _]. }
  cbn [xw_expected_size] in *. rewrite Hsize in *. split; [|done].
  unfold Xattr.is_complete. rewrite Hsize, complete_iff by done.
  split; intros Hall i Hi; apply Hcov; auto.
Qed.

Lemma xattr_writes_complete_witness :
  let x := mkXattrWrite "user.a" 0 3 [x00; x00; x00] [] false in
  let ws := [(2, [x63]); (0, [x61; x62]); (1, [x64; x65; x66])] in
  Xattr.is_complete (run_writes x ws) = true ∧ xw_data (run_writes x ws) = [x61; x62; x63] ∧
  blen (xw_data (run_writes x ws)) = 3.
Proof.
  split; [reflexivity|]. split; [reflexivity|].
  apply (xattr_writes_complete "user.a" 0 3);
    [done|reflexivity|repeat constructor; cbn; lia].
Defined.
