(* ===== verification/P9ServerFacts.v ===== *)
(** * Safety of the 9P server

    The invariant of [NinePServer]'s fid table, and the relational triple of every
    request handler: against a filesystem with the laws of [FsLaws] no request
    makes the server panic (two arithmetic limits apart, see [request_sane]), every
    reply is a well-formed message, and the filesystem is only ever called with
    valid paths. *)

From stdpp Require Import base list numbers option strings sorting gmap.
From Stdlib Require Import ZArith Lia Ascii.
From S2P Require Import Prelude Strs BTree Core FsTrait FsLaws P9Codec P9CodecFacts P9Server P9Helpers.

Local Open Scope Z_scope.

(** ** The invariant *)

Definition st_handles {H} (st : FidState H) : list H :=
  match fid_st_handle st with HFile h => [h] | _ => [] end.

Definition fid_good {H} (np : bool) (st : FidState H) : Prop :=
  valid_path (fid_st_path st) = true ∧
  match fid_st_handle st with
  | HXattrRead data => np = true → blen data ≤ ISIZE_MAX
  | HXattrWrite x => xattr_ok x ∧ xw_expected_size x ≤ ISIZE_MAX
  | _ => True
  end.

Section Inv.
Context {W H : Type} (np : bool) (J : W → Prop) (HJ : H → W → Prop).

(** The server's state with [hs], handles taken out of the table. *)
Definition srv_inv (hs : list H) (st : ServerState H * W) : Prop :=
  in_u32 (sv_msize st.1) ∧
  map_Forall (λ _ f, fid_good np f) (sv_fids st.1) ∧
  world_inv J HJ hs st.2 ∧
  map_Forall (λ _ f, Forall (λ h, HJ h st.2) (st_handles f)) (sv_fids st.1).
End Inv.

(** The requests whose sizes and times the server's arithmetic can represent. *)
Definition request_sane (r : NinePRequest) : bool :=
  match r with
  | TXattrCreate _ _ size _ => size <=? ISIZE_MAX
  | TSetAttr _ attr =>
      sa_mtime_seconds attr + (sa_mtime_nanoseconds attr mod 2 ^ 32) / 1000000000 <=? I64_MAX
  | _ => true
  end.

(** ** Paths *)

Lemma join_path_valid base name : valid_path (join_path base name) = true.
Proof. unfold join_path. case_decide; apply clean_path_valid. Qed.

Lemma walk_join_valid base name : valid_path base = true → valid_path (walk_join base name) = true.
Proof.
  intros Hb. unfold walk_join.
  repeat case_decide; [done|apply parent_path_valid|apply join_path_valid].
Qed.

Lemma checked_join_spec base name :
  checked_join base name =
    if is_empty_str name || contains_char "/" name || bool_decide (name = ".")
       || bool_decide (name = "..")
    then Err (EKind Invalid) else Ok (join_path base name).
Proof. done. Qed.

(** A name the server accepts is one path component. *)
Lemma accepted_name name :
  is_empty_str name || contains_char "/" name || bool_decide (name = ".")
    || bool_decide (name = "..") = false ↔ good_part name.
Proof.
  unfold good_part, valid_part.
  rewrite !orb_false_iff, !andb_true_iff, negb_true_iff, !bool_decide_eq_false,
    !bool_decide_eq_true. tauto.
Qed.

Lemma join_path_parts ps name : Forall good_part ps → good_part name →
  join_path (of_parts ps) name = of_parts (ps ++ [name]).
Proof.
  intros Hps Hn. assert (Forall good_part (ps ++ [name])) as Hall
    by (apply Forall_app; auto).
  unfold join_path. case_decide as Hd.
  - destruct ps as [|p ps]; [|by apply join_good_not_dot in Hd].
    apply (clean_path_of_parts [name]). auto.
  - rewrite <- (clean_path_of_parts (ps ++ [name])) by done. f_equal.
    rewrite of_parts_snoc_clean by done. case_decide; [by subst|done].
Qed.

(** ** Message values *)

Lemma qid_from_meta_wf path m : qid_wf (qid_from_meta path m).
Proof.
  unfold qid_wf, qid_from_meta. cbn [qid_typ qid_version qid_path].
  split; [repeat case_match; done|]. split; [done|].
  unfold fnv1a64. assert (in_u64 14695981039346656037) as Hz by done.
  assert (∀ bs z, in_u64 z →
    in_u64 (foldl (λ hash b, (Z.lxor hash (byte_to_Z b) * 1099511628211) mod 2 ^ 64) z bs)) as Hf.
  { clear. induction bs as [|b bs IH]; intros z Hz; [done|]. cbn [foldl]. apply IH.
    pose proof (Z.mod_pos_bound (Z.lxor z (byte_to_Z b) * 1099511628211) (2 ^ 64) ltac:(lia)).
    by apply in_u64_pow. }
  by apply Hf.
Qed.

Lemma checked_wf_meta (m : Metadata) : meta_wf m →
  let '(secs, nanos) := system_time_parts (m_modified m) in in_u64 secs ∧ in_u64 nanos.
Proof.
  intros (_ & _ & _ & _ & Ht). unfold system_time_parts, in_u64, U64_MAX, I64_MAX in *.
  pose proof (Z.mod_pos_bound (Z.max 0 (m_modified m)) 1000000000 ltac:(lia)).
  assert (0 ≤ Z.max 0 (m_modified m) / 1000000000 < 9223372036854775808); [|lia].
  split; [apply Z.div_pos; lia|apply Z.div_lt_upper_bound; lia].
Qed.

Lemma unix_mode_range m : 0 ≤ FileMode.unix_type_and_perm m < 2 ^ 16.
Proof.
  unfold FileMode.unix_type_and_perm. apply lor_range; [lia| |].
  - repeat case_match; lia.
  - unfold FileMode.perm, FileMode.PERM_MASK.
    pose proof (land_range 9 m 511 ltac:(lia) ltac:(lia)). lia.
Qed.

Lemma attr_basic_range mask : in_u64 (Z.land mask ATTR_BASIC).
Proof.
  apply in_u64_pow. pose proof (land_range 11 mask ATTR_BASIC ltac:(lia) ltac:(done)). lia.
Qed.

(** ** The handles of the table *)

Section Table.
Context {W H : Type} (np : bool) (J : W → Prop) (HJ : H → W → Prop).
#[local] Abbreviation inv := (srv_inv np J HJ).

Definition table_handles (fids : gmap Z (FidState H)) : list H :=
  (map_to_list fids).*2 ≫= st_handles.

Lemma table_handles_Forall (P : H → Prop) fids :
  Forall P (table_handles fids) ↔ map_Forall (λ _ f, Forall P (st_handles f)) fids.
Proof.
  unfold table_handles. rewrite map_Forall_to_list.
  induction (map_to_list fids) as [|[k f] l IH]; cbn; [done|].
  rewrite Forall_app, Forall_cons, IH. done.
Qed.

Lemma inv_handles hs s w :
  inv hs (s, w) ↔ in_u32 (sv_msize s) ∧ map_Forall (λ _ f, fid_good np f) (sv_fids s) ∧
    world_inv J HJ (hs ++ table_handles (sv_fids s)) w.
Proof.
  unfold srv_inv, world_inv. cbn. rewrite Forall_app, table_handles_Forall. tauto.
Qed.

Lemma inv_drop hs hs' st : inv (hs' ++ hs) st → inv hs st.
Proof.
  intros (Hm & Hf & [HJw Hhs] & Ht). split_and!; try done.
  split; [done|]. by apply Forall_app in Hhs as [_ ?].
Qed.

Lemma inv_nil hs st : inv hs st → inv [] st.
Proof. intros Hi. apply (inv_drop [] hs). by rewrite app_nil_r. Qed.

Lemma inv_keep h hs st : HJ h st.2 → inv hs st → inv (h :: hs) st.
Proof. intros Hh (? & ? & [??] & ?). split_and!; try done. split; [done|]. by constructor. Qed.

(** A call to the filesystem keeps the table's handles good. *)
Lemma rel_fs {A} (m1 m2 : M W A) Q hs : good np J HJ m1 m2 Q →
  rel np (inv []) (inv hs) (fs_call m1) (fs_call m2) (λ a st, Q a st.2 ∧ inv hs st).
Proof.
  intros Hm [s w] Hi. apply inv_handles in Hi as (Hms & Hf & Hw).
  destruct (Hm _ w Hw) as [Heq HQ]. unfold fs_call, on_snd. rewrite <- Heq.
  split; [done|].
  assert (∀ w', world_inv J HJ (hs ++ table_handles (sv_fids s)) w' → inv hs (s, w')) as Hback
    by (intros; by apply inv_handles).
  destruct (m1 w) as [[a|e| |] w']; cbn.
  - destruct HQ. split; auto.
  - eapply inv_nil; eauto.
  - destruct HQ. split; [done|]. eapply inv_nil; eauto.
  - destruct HQ. split; [done|]. eapply inv_nil; eauto.
Qed.

Lemma rel_lookup_fid fid hs :
  rel np (inv []) (inv hs) (lookup_fid fid) (lookup_fid fid)
    (λ f st, fid_good np f ∧ inv (st_handles f ++ hs) st).
Proof.
  intros [s w] Hi. split; [done|]. cbn.
  destruct (sv_fids s !! fid) as [f|] eqn:Hl; [|by eapply inv_nil].
  destruct Hi as (Hm & Hf & [HJw Hhs] & Ht). cbn in *.
  specialize (Hf _ _ Hl) as Hfg. specialize (Ht _ _ Hl) as Hh. cbn in *.
  split; [done|]. split_and!; try done. split; [done|]. by apply Forall_app.
Qed.

Lemma rel_set_fid fid f hs : fid_good np f →
  rel np (inv []) (inv (st_handles f ++ hs)) (set_fid fid f) (set_fid fid f)
    (λ _ st, inv hs st).
Proof.
  intros Hfg [s w] (Hm & Hf & [HJw Hhs] & Ht). split; [done|]. cbn in *.
  apply Forall_app in Hhs as [Hh Hhs]. split_and!; cbn; try done.
  - by apply map_Forall_insert_2.
  - by apply map_Forall_insert_2.
Qed.

Lemma rel_take_fid fid hs :
  rel np (inv []) (inv hs) (take_fid fid) (take_fid fid)
    (λ o st, match o with
             | Some f => fid_good np f ∧ inv (st_handles f ++ hs) st
             | None => inv hs st
             end).
Proof.
  intros [s w] (Hm & Hf & [HJw Hhs] & Ht). split; [done|]. cbn in *.
  assert (∀ P : FidState H → Prop, map_Forall (λ _ f, P f) (sv_fids s) →
    map_Forall (λ _ f, P f) (delete fid (sv_fids s))) as Hdel
    by (intros P HP; by apply map_Forall_delete).
  destruct (sv_fids s !! fid) as [f|] eqn:Hl.
  - specialize (Hf _ _ Hl) as Hfg. specialize (Ht _ _ Hl) as Hh. cbn in *.
    split; [done|]. split_and!; cbn; auto. split; [done|]. by apply Forall_app.
  - split_and!; cbn; auto. done.
Qed.

Lemma rel_fid_path fid hs :
  rel np (inv []) (inv hs) (fid_path fid) (fid_path fid)
    (λ p st, valid_path p = true ∧ inv hs st).
Proof.
  eapply rel_bind; [apply rel_lookup_fid|]. intros f. apply rel_ret.
  intros st [[Hp _] Hi]. split; [done|]. by eapply inv_drop.
Qed.

Lemma rel_walk_base fid newfid hs :
  rel np (inv []) (inv hs) (walk_base fid newfid) (walk_base fid newfid)
    (λ p st, valid_path p = true ∧ inv hs st).
Proof.
  intros [s w] Hi. unfold walk_base. case_match; [|by apply rel_fid_path].
  split; [done|]. by eapply inv_nil.
Qed.
End Table.

(** ** The request handlers *)

Create HintDb laws discriminated.

#[export] Hint Resolve law_open_file law_lstat law_read_dir law_mkdir law_remove law_rename
  law_link law_chmod law_chown law_chtimes law_truncate law_symlink law_readlink
  law_set_xattr law_get_xattr law_list_xattrs : laws.
#[export] Hint Resolve join_path_valid walk_join_valid qid_from_meta_wf : laws.

Section Handlers.
Context {W H : Type} `{!FileHandle W H}.
Context (np : bool) (J : W → Prop) (HJ : H → W → Prop).
Context (fs1 fs2 : FileSystem W H) (clock : M W Z).
Context `{!FsLaws np J HJ fs1 fs2}.
Hypothesis clock_good : good np J HJ clock clock (λ _ _, True).

#[local] Abbreviation inv := (srv_inv np J HJ).
#[local] Abbreviation triple := (rel np (inv [])).

(** The reply is a message the codec can represent, unless panics are out of scope. *)
Definition reply_ok (r : NinePResponse) (st : ServerState H * W) : Prop :=
  (np = true → response_wf r) ∧ inv [] st.

#[local] Hint Resolve clock_good : laws.

(** The laws of the handles do not mention the filesystems. *)
Lemma fh_stat_good : good_on np J HJ fh_stat (λ m, np = true → meta_wf m).
Proof. by eapply law_fh_stat. Qed.
Lemma fh_read_at_good n off : good_on np J HJ (fh_read_at n off) (λ _, True).
Proof. by eapply law_fh_read_at. Qed.
Lemma fh_write_at_good data off : good_on np J HJ (fh_write_at data off) (λ n, np = true → 0 ≤ n).
Proof. by eapply law_fh_write_at. Qed.
Lemma fh_sync_good : good_on np J HJ fh_sync (λ _, True).
Proof. by eapply law_fh_sync. Qed.
Lemma fh_close_good : good_on np J HJ fh_close (λ _, True).
Proof. by eapply law_fh_close. Qed.

Lemma good_qid_for p : valid_path p = true →
  good np J HJ (qid_for fs1 p) (qid_for fs2 p) (λ q _, qid_wf q).
Proof.
  intros Hp. eapply (good_bind _ _ _ _ _ _ _ (λ m, np = true → meta_wf m)).
  - by apply law_lstat.
  - intros m _. apply good_ret. intros _. apply qid_from_meta_wf.
Qed.

Lemma good_attr_for p m mask : valid_path p = true → (np = true → meta_wf m) →
  good np J HJ (attr_for fs1 p m mask) (attr_for fs2 p m mask)
    (λ a _, np = true → attr_wf a).
Proof.
  intros Hp Hm. unfold attr_for.
  pose proof (checked_wf_meta m) as Ht. destruct (system_time_parts (m_modified m)) as [secs nanos].
  eapply (good_bind _ _ _ _ _ _ _ (λ n, np = true → in_u64 n)).
  - destruct (Meta.is_dir m); [|apply good_ret; intros _ _; done].
    eapply (good_bind _ _ _ _ _ _ _ (λ r, match r with
      | Ok es => np = true → Z.of_nat (length es) < ISIZE_MAX | Err _ => True | _ => False end)).
    + eapply good_weaken; [apply good_attempt; by apply law_read_dir|].
      intros [es|e| |] w; cbn; try done. intros Hes Hnp. by apply Hes.
    + intros [es|e| |] Hes; [|apply good_ret; intros _ _; done|done..].
      apply good_ret. intros _ Hnp. specialize (Hes Hnp). unfold in_u64, U64_MAX, ISIZE_MAX, I64_MAX in *. lia.
  - intros n Hn. apply good_ret. intros _ Hnp. specialize (Hn Hnp). specialize (Hm Hnp).
    destruct (Ht Hm) as [Hs Hns]. destruct Hm as (Hmode & Hsize & Hu & Hg & _).
    pose proof (unix_mode_range (m_mode m)). pose proof (attr_basic_range mask).
    pose proof (qid_from_meta_wf p m) as Hq.
    assert (in_u64 ((m_size m + 65535) / 65536)).
    { unfold in_u64, U64_MAX in *. split; [apply Z.div_pos; lia|].
      assert ((m_size m + 65535) / 65536 < 18446744073709551616); [|lia].
      apply Z.div_lt_upper_bound; lia. }
    unfold attr_wf, in_u32, U32_MAX in *. cbn. split_and!; try done; lia.
Qed.

Lemma rel_open p flags perm hs : valid_path p = true →
  triple (inv hs) (fs_call (fs_open_file fs1 p flags perm))
    (fs_call (fs_open_file fs2 p flags perm)) (λ h st, inv (h :: hs) st).
Proof.
  intros Hp. eapply rel_weaken; [by apply rel_fs, law_open_file|done|].
  intros h st [??]. by apply inv_keep.
Qed.

Lemma rel_on_handle {A} (h : H) (m : M (H * W) A) (Q : A → Prop) hs :
  good_on np J HJ m Q →
  triple (inv (h :: hs)) (fs_call (on_handle h m)) (fs_call (on_handle h m))
    (λ '(r, h') st, inv (h' :: hs) st ∧
       match r with Ok a => Q a | Err _ => True | _ => False end).
Proof.
  intros Hm [s w] Hi. apply inv_handles in Hi as (Hms & Hf & Hw).
  destruct (Hm h _ w Hw) as [Heq HQ]. unfold fs_call, on_snd. split; [done|].
  assert (∀ hs' w', world_inv J HJ (hs' ++ table_handles (sv_fids s)) w' → inv hs' (s, w'))
    as Hback by (intros; by apply inv_handles).
  destruct (on_handle h m w) as [[[r h']|e| |] w']; cbn.
  - destruct HQ as [Hw' Hr]. split; [|done]. by apply Hback.
  - eapply inv_nil; eauto.
  - destruct HQ. split; [done|]. eapply inv_nil; eauto.
  - destruct HQ. split; [done|]. eapply inv_nil; eauto.
Qed.

Lemma rel_with_handle {A} (h : H) (m : M (H * W) A) (Q : A → Prop) hs :
  good_on np J HJ m Q →
  triple (inv (h :: hs)) (fs_call (with_handle h m)) (fs_call (with_handle h m))
    (λ '(a, h') st, inv (h' :: hs) st ∧ Q a).
Proof.
  intros Hm [s w] Hi. split; [done|].
  destruct (rel_on_handle h m Q hs Hm (s, w) Hi) as [_ HQ].
  unfold fs_call, on_snd, with_handle, mbind, eff_bind in *.
  destruct (on_handle h m w) as [[[r h']|e| |] w']; cbn in *; try done.
  destruct HQ as [Hi' Hr]. destruct r as [a|e| |]; cbn; try done. by eapply inv_nil.
Qed.

Lemma rel_fid_file {A} fid f h (m : M (H * W) A) (Q : A → Prop) hs :
  good_on np J HJ m Q → fid_good np f →
  triple (inv (h :: hs)) (fid_file fid f h m) (fid_file fid f h m)
    (λ a st, Q a ∧ inv hs st).
Proof.
  intros Hm [Hp _]. eapply rel_bind; [by eapply rel_on_handle|]. intros [r h'].
  apply (rel_bind _ _ _ _ _ _ _
    (λ _ st, match r with Ok a => Q a | Err _ => True | _ => False end ∧ inv hs st)).
  - intros st [Hi Hr]. destruct (rel_set_fid np J HJ fid
      (mkFidState (fid_st_path f) (HFile h') (fid_st_flags f)) hs ltac:(done) st Hi) as [_ HQ].
    split; [done|]. by destruct st.
  - intros _. apply rel_pure. intros Hr. apply rel_lift. intros st Hi.
    destruct r; try done. by eapply inv_nil.
Qed.

Lemma rel_checked_join base name hs :
  triple (inv hs) (lift (checked_join base name)) (lift (checked_join base name))
    (λ p st, valid_path p = true ∧ inv hs st).
Proof.
  apply rel_lift. intros st Hi. unfold checked_join.
  destruct (is_empty_str name || _ || _ || _); [by eapply inv_nil|].
  split; [apply join_path_valid|done].
Qed.

Lemma rel_set_file fid path h flags hs : valid_path path = true →
  triple (inv (hs ++ [h])) (set_fid fid (mkFidState path (HFile h) flags))
    (set_fid fid (mkFidState path (HFile h) flags)) (λ _ st, inv [] st).
Proof.
  intros Hp. eapply rel_weaken; [by apply (rel_set_fid np J HJ _ _ [])| |done].
  intros st Hi. by eapply inv_drop.
Qed.

Lemma rel_set_fid_drop fid f hs : fid_good np f → st_handles f = [] →
  triple (inv hs) (set_fid fid f) (set_fid fid f) (λ _ st, inv [] st).
Proof.
  intros Hf Hh. eapply rel_weaken; [by apply (rel_set_fid np J HJ _ _ [])| |done].
  intros st Hi. rewrite Hh. by eapply inv_nil.
Qed.

(** One call at the head of a handler, and the value it binds. *)
Ltac rel_call :=
  first
    [ apply rel_fid_path | apply rel_lookup_fid | apply rel_walk_base | apply rel_take_fid
    | apply rel_checked_join
    | apply rel_open; by eauto with laws
    | apply rel_fs, good_qid_for; by eauto with laws
    | apply rel_fs; by eauto with laws ].

Ltac rel_intro :=
  let a := fresh "a" in intros a; unfold checked; cbn beta;
  repeat (apply rel_pure; intros ?).

Ltac rel_bind_call := eapply rel_bind; [rel_call|rel_intro].

Ltac rel_reply :=
  apply rel_ret; let Hi := fresh "Hi" in intros ? Hi;
  split; [intros ?; cbn [response_wf];
    repeat match goal with
    | |- qid_wf _ => by eauto with laws
    | |- in_u32 _ => done
    | |- _ ∧ _ => split
    end; by eauto with laws|by eapply inv_nil].

Lemma fid_good_path (f : FidState H) : fid_good np f → valid_path (fid_st_path f) = true.
Proof. by intros [? _]. Qed.

#[local] Hint Resolve fid_good_path : laws.

Lemma walk_loop_ok names path qids hs : valid_path path = true → Forall qid_wf qids →
  triple (inv hs) (walk_loop fs1 path qids names) (walk_loop fs2 path qids names)
    (λ '(p, qs) st, valid_path p = true ∧ Forall qid_wf qs ∧ inv hs st).
Proof.
  revert path qids. induction names as [|name names IH]; intros path qids Hp Hq; cbn [walk_loop].
  - by apply rel_ret.
  - apply rel_if; intros _; [apply rel_throw; intros ? ?; by eapply inv_nil|].
    pose proof (walk_join_valid path name Hp) as Hj.
    eapply rel_bind; [apply rel_fs, good_attempt, good_qid_for; done|].
    intros [q|e| |]; apply rel_pure; intros Hr; [|destruct qids|done..].
    + apply IH; [done|]. apply Forall_app; auto.
    + apply rel_throw. intros ? ?. by eapply inv_nil.
    + by apply rel_ret.
Qed.

Lemma srv_walk_ok fid newfid names :
  triple (inv []) (srv_walk fs1 fid newfid names) (srv_walk fs2 fid newfid names) reply_ok.
Proof.
  unfold srv_walk. rel_bind_call.
  eapply rel_bind; [by apply walk_loop_ok|]. intros [p qs]. do 2 (apply rel_pure; intros ?).
  eapply rel_bind; [by apply (rel_set_fid _ _ _ _ (fid_unopened p))|]. intros [].
  rel_reply.
Qed.

Lemma srv_lopen_ok fid flags :
  triple (inv []) (srv_lopen fs1 fid flags) (srv_lopen fs2 fid flags) reply_ok.
Proof.
  unfold srv_lopen. do 4 rel_bind_call.
  eapply rel_bind; [apply rel_set_file; by eauto with laws|]. intros []. rel_reply.
Qed.

Lemma srv_lcreate_ok fid name flags mode :
  triple (inv []) (srv_lcreate fs1 fid name flags mode) (srv_lcreate fs2 fid name flags mode)
    reply_ok.
Proof.
  unfold srv_lcreate. do 5 rel_bind_call.
  eapply rel_bind; [apply rel_set_file; by eauto with laws|]. intros []. rel_reply.
Qed.

Lemma srv_getattr_ok fid mask :
  triple (inv []) (srv_getattr fs1 fid mask) (srv_getattr fs2 fid mask) reply_ok.
Proof.
  unfold srv_getattr. rel_bind_call.
  eapply (rel_bind _ _ _ _ _ _ _ (λ m st, (np = true → meta_wf m) ∧ inv [] st)).
  - unfold st_handles. destruct a as [p [|file|data|write] fl] eqn:Hf; cbn [fid_st_handle app].
    + eapply rel_weaken; [apply rel_fs, law_lstat; by destruct H0|done|].
      intros m st [Hm Hi]. split; [exact Hm|done].
    + eapply rel_fid_file; [apply fh_stat_good|done].
    + apply rel_ret. intros st Hi. split; [|done]. intros Hnp. destruct H0 as [_ Hd].
      specialize (Hd Hnp). unfold meta_wf, in_u32, in_u64, U64_MAX, U32_MAX, ISIZE_MAX, I64_MAX in *.
      cbn. pose proof (blen_nonneg data). split_and!; try done; lia.
    + apply rel_ret. intros st Hi. split; [|done]. intros Hnp. destruct H0 as [_ [[Hx _] Hd]].
      unfold meta_wf, in_u32, in_u64, U64_MAX, U32_MAX, ISIZE_MAX, I64_MAX in *.
      cbn. split_and!; try done; lia.
  - intros m. apply rel_pure. intros Hm.
    eapply rel_bind; [apply rel_fs, good_attr_for; by eauto with laws|].
    intros at1. cbn beta. apply rel_pure. intros Hat. apply rel_ret. intros st Hi. by split.
Qed.

(** A step that runs only when its bit is set. *)
Lemma rel_when (b : bool) (m1 m2 : M (ServerState H * W) unit) :
  (b = true → triple (inv []) m1 m2 (λ _ st, inv [] st)) →
  triple (inv []) (if b then m1 else mret tt) (if b then m2 else mret tt) (λ _ st, inv [] st).
Proof. intros Hm. apply rel_if; [done|]. intros _. by apply rel_ret. Qed.

Lemma rel_fs_unit {A} (m1 m2 : M W A) Q : good np J HJ m1 m2 Q →
  triple (inv []) (fs_call m1) (fs_call m2) (λ _ st, inv [] st).
Proof. intros Hm. eapply rel_weaken; [by apply rel_fs|done|]. by intros ? ? [_ ?]. Qed.

Lemma epoch_plus_sane fid attr : request_sane (TSetAttr fid attr) = true →
  ∃ t, epoch_plus (sa_mtime_seconds attr) (sa_mtime_nanoseconds attr) = Ok t.
Proof.
  unfold request_sane, epoch_plus. intros Hs. bool_to_prop.
  rewrite (proj2 (Z.ltb_ge U64_MAX _)) by (unfold U64_MAX, I64_MAX in *; lia).
  rewrite (proj2 (Z.ltb_ge I64_MAX _)) by lia. eauto.
Qed.

Lemma srv_setattr_ok fid attr : (np = true → request_sane (TSetAttr fid attr) = true) →
  triple (inv []) (srv_setattr fs1 clock fid attr) (srv_setattr fs2 clock fid attr) reply_ok.
Proof.
  intros Hsane. unfold srv_setattr. rel_bind_call.
  eapply rel_bind; [apply rel_when; intros _; by eapply rel_fs_unit, law_truncate|intros []].
  eapply rel_bind; [apply rel_when; intros _; by eapply rel_fs_unit, law_chmod|intros []].
  eapply rel_bind; [apply rel_when; intros _|intros []].
  { rel_bind_call. by eapply rel_fs_unit, law_chown. }
  eapply rel_bind; [apply rel_when; intros _|intros []; rel_reply].
  eapply (rel_bind _ _ _ _ _ _ _ (λ _ st, inv [] st)).
  - apply rel_if; intros _; [|by eapply rel_fs_unit]. apply rel_lift. intros st Hi.
    destruct np; [|by destruct (epoch_plus _ _)].
    by destruct (epoch_plus_sane fid attr (Hsane eq_refl)) as [t ->].
  - intros t. by eapply rel_fs_unit, law_chtimes.
Qed.

Lemma length_encode_names names out :
  length (foldl (λ out name, out ++ bytes_of name ++ [x00]) out names) =
    (length out + sum_list_with (λ n, S (String.length n)) names)%nat.
Proof.
  revert out. induction names as [|n names IH]; intros out; cbn; [lia|].
  rewrite IH, !length_app, length_bytes_of. cbn. lia.
Qed.

Lemma blen_encode_xattr_names names :
  blen (encode_xattr_names names) = Z.of_nat (sum_list_with (λ n, S (String.length n)) names).
Proof.
  unfold encode_xattr_names, blen. rewrite length_encode_names. cbn [length Nat.add].
  f_equal. by rewrite merge_sort_Permutation.
Qed.

Lemma srv_xattrwalk_ok fid newfid name :
  triple (inv []) (srv_xattrwalk fs1 fid newfid name) (srv_xattrwalk fs2 fid newfid name) reply_ok.
Proof.
  unfold srv_xattrwalk. rel_bind_call.
  eapply (rel_bind _ _ _ _ _ _ _ (λ data st, (np = true → blen data ≤ ISIZE_MAX) ∧ inv [] st)).
  - apply rel_if; intros _.
    + rel_bind_call. apply rel_ret. intros st Hi. split; [|done].
      rewrite blen_encode_xattr_names. done.
    + eapply rel_weaken; [apply rel_fs, law_get_xattr; done|done|]. done.
  - intros data. apply rel_pure. intros Hd.
    eapply rel_bind; [by apply rel_set_fid_drop|]. intros [].
    apply rel_ret. intros st Hi. split; [|done]. intros Hnp. specialize (Hd Hnp).
    pose proof (blen_nonneg data). cbn. unfold in_u64, U64_MAX, ISIZE_MAX, I64_MAX in *. lia.
Qed.

Lemma srv_xattrcreate_ok fid name size flags :
  0 ≤ size → (np = true → size ≤ ISIZE_MAX) →
  triple (inv []) (srv_xattrcreate fid name size flags) (srv_xattrcreate fid name size flags)
    reply_ok.
Proof.
  intros H0 Hmax. unfold srv_xattrcreate.
  eapply rel_bind; [apply (rel_guard _ _ _ _ _ (λ _ st, inv [] st)); auto|]. intros [].
  rel_bind_call.
  eapply (rel_bind _ _ _ _ _ _ _ (λ x st, xattr_ok x ∧ xw_expected_size x ≤ ISIZE_MAX ∧ inv [] st)).
  - apply rel_lift. intros st Hi%inv_nil.
    destruct (Xattr.new name flags size) as [x|e| |] eqn:Hx.
    + apply xattr_new_ok in Hx as (-> & ? & ?); auto.
    + done.
    + split; [|done]. destruct np; [|done]. specialize (Hmax eq_refl). unfold Xattr.new in Hx.
      by rewrite (proj2 (Z.ltb_ge _ _)) in Hx.
    + unfold Xattr.new in Hx. by case_match.
  - intros x. apply rel_pure; intros Hx. apply rel_pure; intros Hm.
    eapply rel_bind; [apply rel_set_fid_drop; [|done]|intros []; rel_reply].
    split; [by destruct H1|done].
Qed.

Lemma srv_read_ok fid offset count : 0 ≤ offset → 0 ≤ count →
  triple (inv []) (srv_read fid offset count) (srv_read fid offset count) reply_ok.
Proof.
  intros Ho Hc. unfold srv_read. rel_bind_call.
  eapply (rel_bind _ _ _ _ _ _ _ (λ _ st, inv [] st)); [|intros data; rel_reply].
  unfold st_handles. destruct a as [p [|file|data|write] fl] eqn:Hf; cbn [fid_st_handle app].
  - apply rel_throw. auto.
  - eapply rel_weaken; [eapply rel_fid_file; [apply fh_read_at_good|done]|done|]. by intros ? ? [_ ?].
  - apply rel_if; intros Hle; bool_to_prop; [by apply rel_ret|].
    apply rel_lift. intros st Hi. unfold slice. destruct H0 as [_ Hd]. cbn in Hd.
    destruct ((0 <=? offset) && _ && _) eqn:Hr; [done|]. split; [|done].
    destruct np; [|done]. specialize (Hd eq_refl). exfalso.
    apply not_true_iff_false in Hr. apply Hr. rewrite !andb_true_iff, !Z.leb_le.
    unfold USIZE_MAX, U64_MAX, ISIZE_MAX, I64_MAX in *. lia.
  - apply rel_throw. auto.
Qed.

Lemma srv_write_ok fid offset data : 0 ≤ offset →
  triple (inv []) (srv_write fid offset data) (srv_write fid offset data) reply_ok.
Proof.
  intros Ho. unfold srv_write. rel_bind_call.
  eapply (rel_bind _ _ _ _ _ _ _ (λ n st, (np = true → 0 ≤ n) ∧ inv [] st)).
  - unfold st_handles. destruct a as [p [|file|d|x] fl] eqn:Hf; cbn [fid_st_handle app].
    + apply rel_throw. auto.
    + eapply rel_fid_file; [apply fh_write_at_good|done].
    + apply rel_throw. auto.
    + destruct H0 as [Hp [Hx Hm]]. pose proof (write_at_ok x offset data Hx Hm Ho) as [Hx' Hm'].
      rewrite write_at_fits in * by done.
      destruct (fits _ _); cbn [snd] in *.
      * eapply rel_bind; [apply rel_set_fid_drop; [split; [done|split; [done|lia]]|done]|].
        intros []. apply rel_lift. intros st Hi. split; [|done]. intros _. apply blen_nonneg.
      * eapply rel_bind; [by apply rel_set_fid_drop|]. intros []. by apply rel_lift.
  - intros n. apply rel_pure. intros Hn. apply rel_if; intros Hle; bool_to_prop.
    + apply rel_ret. intros st Hi. split; [|done]. intros Hnp. cbn. split; auto.
    + by apply rel_throw.
Qed.

(** A committed value is still a good one. *)
Lemma commit_ok f hs : fid_good np f →
  triple (inv (st_handles f ++ hs)) (commit_xattr_if_ready fs1 f) (commit_xattr_if_ready fs2 f)
    (λ f' st, fid_good np f' ∧ inv (st_handles f' ++ hs) st).
Proof.
  intros Hg. unfold commit_xattr_if_ready.
  assert (∀ st, inv (st_handles f ++ hs) st → inv hs st) as Hdrop
    by (intros st; apply inv_drop).
  destruct (fid_st_handle f) as [|file|data|x] eqn:Hf; [by apply rel_ret..|].
  destruct Hg as [Hp Hx]. rewrite Hf in Hx.
  apply rel_if; intros _.
  { apply rel_ret. intros st Hi. split; [split; [done|by rewrite Hf]|done]. }
  eapply rel_bind; [apply (rel_guard _ _ _ _ _ (λ _ st, inv hs st)); eauto using inv_nil|].
  intros []. eapply rel_bind; [by apply rel_fs, law_set_xattr|]. rel_intro.
  apply rel_ret. intros st Hi. split; [|done]. by split.
Qed.

Lemma srv_clunk_ok fid :
  triple (inv []) (srv_clunk fs1 fid) (srv_clunk fs2 fid) reply_ok.
Proof.
  unfold srv_clunk. rel_bind_call. destruct a as [f|]; [|by intros st Hi].
  apply rel_pure. intros Hf. cbn [ok_or].
  apply rel_bind_ret.
  eapply rel_bind; [by apply commit_ok|]. intros f'. apply rel_pure. intros Hf'.
  unfold st_handles. destruct (fid_st_handle f') as [|h| |]; cbn [app]; [rel_reply| |rel_reply..].
  eapply rel_bind; [apply rel_with_handle, fh_close_good|]. intros [u h']. apply rel_ret.
  intros st [Hi _]. split; [done|]. by eapply inv_nil.
Qed.

Lemma srv_remove_ok fid :
  triple (inv []) (srv_remove fs1 fid) (srv_remove fs2 fid) reply_ok.
Proof.
  unfold srv_remove. rel_bind_call. destruct a as [f|]; [|by intros st Hi].
  apply rel_pure. intros Hf. cbn [ok_or].
  apply rel_bind_ret.
  eapply rel_bind.
  { apply (rel_guard _ _ _ _ _ (λ _ st, inv (st_handles f ++ []) st)); eauto using inv_nil. }
  intros []. apply (rel_bind _ _ _ _ _ _ _ (λ _ st, inv [] st)).
  - unfold st_handles. destruct (fid_st_handle f) as [|h| |]; cbn [app];
      [by apply rel_ret| |by apply rel_ret..].
    eapply rel_bind; [apply rel_on_handle, fh_close_good|]. intros [r h']. apply rel_ret.
    intros st [Hi _]. by eapply inv_nil.
  - intros []. eapply rel_bind; [eapply rel_fs_unit; by eauto with laws|].
    intros []. rel_reply.
Qed.

Lemma srv_mkdir_ok fid name mode :
  triple (inv []) (srv_mkdir fs1 fid name mode) (srv_mkdir fs2 fid name mode) reply_ok.
Proof. unfold srv_mkdir. do 4 rel_bind_call. rel_reply. Qed.

Lemma srv_link_ok fid newdirfid name :
  triple (inv []) (srv_link fs1 fid newdirfid name) (srv_link fs2 fid newdirfid name) reply_ok.
Proof. unfold srv_link. do 4 rel_bind_call. rel_reply. Qed.

Lemma readdir_loop_ok path offset count index data entries :
  triple (inv []) (readdir_loop fs1 path offset count index data entries)
    (readdir_loop fs2 path offset count index data entries) (λ _ st, inv [] st).
Proof.
  revert index data. induction entries as [|e es IH]; intros index data; cbn [readdir_loop].
  - by apply rel_ret.
  - apply rel_if; intros _; [apply IH|]. rel_bind_call.
    eapply (rel_bind _ _ _ _ _ _ _ (λ _ st, inv [] st)).
    + apply rel_lift. intros st Hi. unfold encode_dirents. cbn.
      unfold put_string. by destruct (_ <=? U16_MAX).
    + intros enc. apply rel_if; intros _; [by apply rel_ret|apply IH].
Qed.

Lemma srv_readdir_ok fid offset count :
  triple (inv []) (srv_readdir fs1 fid offset count) (srv_readdir fs2 fid offset count) reply_ok.
Proof.
  unfold srv_readdir. do 2 rel_bind_call.
  eapply rel_bind; [apply readdir_loop_ok|]. intros data. rel_reply.
Qed.

Lemma srv_rename_at_ok od on nd nn :
  triple (inv []) (srv_rename_at fs1 od on nd nn) (srv_rename_at fs2 od on nd nn) reply_ok.
Proof. unfold srv_rename_at. do 5 rel_bind_call. rel_reply. Qed.

Lemma srv_unlink_at_ok fid name flags :
  triple (inv []) (srv_unlink_at fs1 fid name flags) (srv_unlink_at fs2 fid name flags) reply_ok.
Proof.
  unfold srv_unlink_at. do 3 rel_bind_call.
  do 2 (eapply rel_bind; [apply (rel_guard _ _ _ _ _ (λ _ st, inv [] st)); auto|intros []]).
  eapply (rel_bind _ _ _ _ _ _ _ (λ _ st, inv [] st)).
  - apply rel_if; intros _; [|by apply rel_ret]. rel_bind_call. by apply rel_guard.
  - intros []. rel_bind_call. rel_reply.
Qed.

Lemma srv_symlink_ok fid name target :
  triple (inv []) (srv_symlink fs1 fid name target) (srv_symlink fs2 fid name target) reply_ok.
Proof. unfold srv_symlink. do 4 rel_bind_call. rel_reply. Qed.

Lemma srv_readlink_ok fid :
  triple (inv []) (srv_readlink fs1 fid) (srv_readlink fs2 fid) reply_ok.
Proof. unfold srv_readlink. do 2 rel_bind_call. apply rel_ret. by intros st Hi. Qed.

Lemma srv_fsync_ok fid :
  triple (inv []) (srv_fsync fs1 fid) (srv_fsync fs2 fid) reply_ok.
Proof.
  unfold srv_fsync. rel_bind_call. unfold st_handles.
  destruct (fid_st_handle a) as [|h|data|x] eqn:Hf; cbn [app]; [rel_reply| |rel_reply|].
  - eapply rel_bind; [apply rel_attempt; by eapply rel_fid_file; [apply fh_sync_good|]|].
    intros [u|[op p k|[]|msg]| |]; try (by intros st []); try rel_reply.
  - eapply rel_bind.
    + eapply rel_weaken; [apply (commit_ok a []); done| |].
      * intros st Hi. unfold st_handles. by rewrite Hf.
      * intros f st Hq. exact Hq.
    + intros f'. apply rel_pure. intros Hf'.
      eapply rel_bind; [by apply (rel_set_fid np J HJ fid f' [])|]. intros []. rel_reply.
Qed.

Lemma srv_handle_ok r : request_wf r → (np = true → request_sane r = true) →
  triple (inv []) (srv_handle fs1 clock r) (srv_handle fs2 clock r) reply_ok.
Proof.
  intros Hwf Hsane. destruct r; cbn [srv_handle request_wf] in *.
  - intros [s w] (Hm & Hf & Hw & Ht). split; [done|]. cbn. split.
    + intros _. destruct Hwf as [Hmz _]. cbn. split; [|by destruct (starts_with _ _)].
      unfold in_u32, DEFAULT_MSIZE, U32_MAX in *. lia.
    + split_and!; cbn; try done. destruct Hwf as [Hmz _].
      unfold in_u32, DEFAULT_MSIZE, U32_MAX in *. lia.
  - unfold srv_attach. rel_bind_call.
    eapply rel_bind; [by apply rel_set_fid_drop|]. intros []. rel_reply.
  - apply srv_walk_ok.
  - apply srv_lopen_ok.
  - apply srv_lcreate_ok.
  - apply srv_getattr_ok.
  - by apply srv_setattr_ok.
  - apply srv_xattrwalk_ok.
  - apply srv_xattrcreate_ok; [by destruct Hwf as (_ & _ & [? _] & _)|].
    intros Hnp. specialize (Hsane Hnp). cbn in Hsane. by bool_to_prop.
  - destruct Hwf as (_ & [? _] & [? _]). by apply srv_read_ok.
  - destruct Hwf as (_ & [? _]). by apply srv_write_ok.
  - apply srv_clunk_ok.
  - apply srv_remove_ok.
  - apply srv_mkdir_ok.
  - apply srv_link_ok.
  - apply srv_readdir_ok.
  - apply srv_rename_at_ok.
  - apply srv_unlink_at_ok.
  - apply srv_symlink_ok.
  - apply srv_readlink_ok.
  - apply srv_fsync_ok.
  - rel_reply.
Qed.
End Handlers.
