(* ===== verification/P9ServerProps.v ===== *)
(** * Properties of the 9P server

    What a client of [NinePServer] can rely on: replies instead of crashes, replies
    the codec can decode, confinement to valid paths, the meaning of [walk] and
    [readdir], and the fid table. *)

From stdpp Require Import base list numbers option strings sorting gmap.
From Stdlib Require Import ZArith Lia Ascii.
From S2P Require Import Prelude Strs BTree Core FsTrait FsLaws MemFs MemFsFacts P9Codec P9CodecFacts P9Server P9Helpers P9ServerFacts.

Local Open Scope Z_scope.

(** ** Definitions used by the statements *)

(** The fid a request refers to first, if any. *)
Definition request_fid (r : NinePRequest) : option Z :=
  match r with
  | TVersion _ _ | TAttach _ _ _ _ _ | TFlush _ => None
  | TWalk fid _ _ | TLopen fid _ | TLcreate fid _ _ _ _ | TGetAttr fid _ | TSetAttr fid _
  | TXattrWalk fid _ _ | TXattrCreate fid _ _ _ | TRead fid _ _ | TWrite fid _ _
  | TClunk fid | TRemove fid | TMkdir fid _ _ _ | TLink fid _ _ | TReaddir fid _ _
  | TRenameAt fid _ _ _ | TUnlinkAt fid _ _ | TSymlink fid _ _ _ | TReadlink fid
  | TFsync fid => Some fid
  end.

(** The fids whose entry in the table a request may change. *)
Definition request_writes (r : NinePRequest) : list Z :=
  match r with
  | TAttach fid _ _ _ _ => [fid]
  | TWalk _ newfid _ | TXattrWalk _ newfid _ => [newfid]
  | TLopen fid _ | TLcreate fid _ _ _ _ | TGetAttr fid _ | TXattrCreate fid _ _ _
  | TRead fid _ _ | TWrite fid _ _ | TClunk fid | TRemove fid | TFsync fid => [fid]
  | _ => []
  end.

(** The entries of a directory with the cursor [readdir] gives each, from [index]. *)
Fixpoint cursors (index : Z) (es : list DirEntry) : list (string * Z) :=
  match es with
  | [] => []
  | e :: es' => (d_name e, index + 1) :: cursors (index + 1) es'
  end.

(** A filesystem with a root directory and one file, for the witnesses. *)
Definition static_lstat (ctx : FsContext) (p : string) : M unit Metadata :=
  if decide (p = ".") then mret (Meta.dir "." 493)
  else if decide (p = "a") then mret (Meta.file "a" 420 3)
  else throw (EKind NotFound).

Definition static_read_dir (ctx : FsContext) (p : string) : M unit (list DirEntry) :=
  if decide (p = ".") then mret [mkDirEntry "a" (Meta.file "a" 420 3)]
  else throw (EKind NotDir).

Definition static_open (p : string) : M unit DirFile :=
  mret (dir_file_new (Meta.dir p 493) []).

Definition static_fs : FileSystem unit DirFile := {|
  fs_open _ p := static_open p;
  fs_stat := static_lstat;
  fs_lstat := static_lstat;
  fs_read_dir := static_read_dir;
  fs_create _ := unsupported;
  fs_open_file p _ _ := static_open p;
  fs_mkdir _ _ := unsupported;
  fs_remove _ := unsupported;
  fs_rename _ _ := unsupported;
  fs_link _ _ := unsupported;
  fs_chmod _ _ := unsupported;
  fs_chown _ _ _ := unsupported;
  fs_chtimes _ _ := unsupported;
  fs_truncate _ _ := unsupported;
  fs_symlink _ _ := unsupported;
  fs_readlink _ := unsupported;
  fs_set_xattr _ _ _ := unsupported;
  fs_get_xattr _ _ := unsupported;
  fs_list_xattrs _ := unsupported;
  fs_remove_xattr _ _ := unsupported
|}.

Definition static_clock : M unit Z := mret 0.

(** [static_fs] with a file outside the export. *)
Definition leaky_fs : FileSystem unit DirFile := {|
  fs_open := fs_open static_fs;
  fs_stat := fs_stat static_fs;
  fs_lstat ctx p :=
    if valid_path p then static_lstat ctx p else mret (Meta.file "secret" 384 9);
  fs_read_dir := fs_read_dir static_fs;
  fs_create := fs_create static_fs;
  fs_open_file := fs_open_file static_fs;
  fs_mkdir := fs_mkdir static_fs;
  fs_remove := fs_remove static_fs;
  fs_rename := fs_rename static_fs;
  fs_link := fs_link static_fs;
  fs_chmod := fs_chmod static_fs;
  fs_chown := fs_chown static_fs;
  fs_chtimes := fs_chtimes static_fs;
  fs_truncate := fs_truncate static_fs;
  fs_symlink := fs_symlink static_fs;
  fs_readlink := fs_readlink static_fs;
  fs_set_xattr := fs_set_xattr static_fs;
  fs_get_xattr := fs_get_xattr static_fs;
  fs_list_xattrs := fs_list_xattrs static_fs;
  fs_remove_xattr := fs_remove_xattr static_fs
|}.

(** A session: the outcomes of [handle_frame] on one frame after another. *)
Fixpoint run_frames {W H} `{!FileHandle W H} (fsys : FileSystem W H) (clock : M W Z)
    (frames : list (list byte)) (st : ServerState H * W)
    : list (Result (list byte)) * (ServerState H * W) :=
  match frames with
  | [] => ([], st)
  | frame :: rest =>
      let '(r, st1) := handle_frame fsys clock frame st in
      let '(rs, st2) := run_frames fsys clock rest st1 in
      (r :: rs, st2)
  end.

(** A server of [static_fs] with fid 0 on the root. *)
Definition static_state : ServerState DirFile * unit :=
  (mkServerState DEFAULT_MSIZE {[0 := fid_unopened "."]}, tt).

Section Lemmas.
Context {W H : Type} `{!FileHandle W H}.
Implicit Types fsys : FileSystem W H.

Lemma srv_respond_Err fsys clock r st e st' :
  srv_handle fsys clock r st = (Err e, st') →
  srv_respond fsys clock r st = (Ok (RLerror (errno_for_error e)), st').
Proof. intros Hh. unfold srv_respond, attempt, mbind, eff_bind. by rewrite Hh. Qed.

Lemma lookup_fid_None fid (s : ServerState H) (w : W) : sv_fids s !! fid = None →
  lookup_fid fid (s, w) = (Err (EKind Invalid), (s, w)).
Proof. intros Hn. cbn. by rewrite Hn. Qed.

Lemma lookup_fid_Some fid (s : ServerState H) (w : W) f : sv_fids s !! fid = Some f →
  lookup_fid fid (s, w) = (Ok f, (s, w)).
Proof. intros Hn. cbn. by rewrite Hn. Qed.

Lemma srv_respond_Panic fsys clock r st st' :
  srv_handle fsys clock r st = (Panic, st') → (srv_respond fsys clock r st).1 = Panic.
Proof. intros Hh. unfold srv_respond, attempt, mbind, eff_bind. by rewrite Hh. Qed.

Lemma fid_path_None fid (s : ServerState H) (w : W) : sv_fids s !! fid = None →
  fid_path fid (s, w) = (Err (EKind Invalid), (s, w)).
Proof. intros Hn. apply eff_bind_Err. by apply lookup_fid_None. Qed.

Lemma walk_base_None fid newfid (s : ServerState H) (w : W) : sv_fids s !! fid = None →
  walk_base fid newfid (s, w) = (Err (EKind Invalid), (s, w)).
Proof. intros Hn. unfold walk_base. destruct (negb _ && _); [done|]. by apply fid_path_None. Qed.

Lemma take_fid_None {B} fid (k : FidState H → M (ServerState H * W) B) s w :
  sv_fids s !! fid = None →
  (o ← take_fid fid; st ← ok_or o (EKind Invalid); k st) (s, w) = (Err (EKind Invalid), (s, w)).
Proof.
  intros Hn. unfold mbind, eff_bind. cbn. rewrite Hn. cbn. rewrite delete_id by done.
  by destruct s.
Qed.

Lemma handle_unknown_fid fsys clock r fid s w :
  request_fid r = Some fid → sv_fids s !! fid = None →
  srv_handle fsys clock r (s, w) = (Err (EKind Invalid), (s, w)).
Proof.
  intros Hr Hn. destruct r; cbn in Hr; simplify_eq; cbn [srv_handle];
    try (apply eff_bind_Err; by apply fid_path_None);
    try (apply eff_bind_Err; by apply lookup_fid_None);
    try (apply eff_bind_Err; by apply walk_base_None);
    try by apply take_fid_None.
  unfold srv_xattrcreate. destruct (is_empty_str name); [done|].
  unfold mbind, eff_bind. cbn. by rewrite Hn.
Qed.

(** ** Walking *)

Lemma walk_join_parts ps name : Forall good_part ps →
  contains_char "/" name = false → is_empty_str name = false →
  walk_join (of_parts ps) name = of_parts (clean_step ps name).
Proof.
  intros Hps Hc He. assert (name ≠ "") as Hne by (intros ->; done).
  unfold walk_join, clean_step. destruct (decide (name = ".")) as [->|Hd].
  { by rewrite decide_True by auto. }
  rewrite (decide_False (P:=name = "" ∨ name = ".")) by tauto.
  destruct (decide (name = "..")) as [->|Hdd].
  - destruct ps as [|p ps _] using rev_ind; [done|].
    by rewrite parent_of_parts, removelast_last.
  - apply join_path_parts; [done|]. split; [|done]. apply valid_part_inv. auto.
Qed.

Lemma walk_path_parts ps names : Forall good_part ps →
  Forall (λ n, contains_char "/" n = false ∧ is_empty_str n = false) names →
  foldl walk_join (of_parts ps) names = of_parts (foldl clean_step ps names).
Proof.
  revert ps. induction names as [|n names IH]; intros ps Hps Hn; cbn [foldl]; [done|].
  inversion Hn as [|?? [Hc He] Hns]; subst. rewrite walk_join_parts by done.
  apply IH; [|done]. by apply clean_step_good.
Qed.

Lemma walk_loop_spec fsys names path qids (s : ServerState H) w p qs st' :
  walk_loop fsys path qids names (s, w) = (Ok (p, qs), st') →
  st'.1 = s ∧ ∃ n, (n ≤ length names)%nat ∧ length qs = (length qids + n)%nat ∧
    p = foldl walk_join path (take n names) ∧
    Forall (λ x, contains_char "/" x = false ∧ is_empty_str x = false) (take n names) ∧
    (qs = [] → names = []).
Proof.
  revert path qids w. induction names as [|name names IH]; intros path qids w; cbn [walk_loop].
  - intros [= <- <- <-]. split; [done|]. exists 0%nat. cbn. split_and!; auto.
  - destruct (contains_char "/" name || is_empty_str name) eqn:Hn; [done|]. bool_to_prop.
    intros Hrun. apply eff_bind_inv in Hrun as (r & [s1 w1] & Hr & Hk).
    assert (s1 = s) as ->.
    { unfold fs_call, on_snd in Hr. by destruct (attempt _ w); simplify_eq. }
    destruct r as [q|e| |]; [|destruct qids as [|q0 qids]; [done|]|done..].
    + destruct (IH _ _ _ Hk) as (Hs & n & Hle & Hlen & Hp & Hnames & Hnil). split; [done|].
      exists (S n). cbn [length take foldl]. rewrite length_app in Hlen. cbn in Hlen.
      split_and!; [lia|lia|done|by constructor|]. intros ->. cbn in Hlen. lia.
    + injection Hk as <- <- <-. split; [done|]. exists 0%nat. cbn. split_and!; auto; lia || done.
Qed.
End Lemmas.

(** ** What a request leaves alone in the table *)

Section Frame.
Context {W H : Type} `{!FileHandle W H}.
Context (fsys : FileSystem W H) (clock : M W Z) (k : Z) (v : option (FidState H)).

#[local] Abbreviation keeps := (preserves (λ st : ServerState H * W, sv_fids st.1 !! k = v)).

Lemma keeps_fs_call {A} (m : M W A) : keeps (fs_call m).
Proof. intros [s w] Hk. unfold fs_call, on_snd. by destruct (m w). Qed.

Lemma keeps_lookup fid : keeps (lookup_fid fid).
Proof. intros [s w] Hk. cbn. by destruct (sv_fids s !! fid). Qed.

Lemma keeps_set fid f : fid ≠ k → keeps (set_fid fid f).
Proof. intros Hne [s w] Hk. cbn. by rewrite lookup_insert_ne. Qed.

Lemma keeps_take fid : fid ≠ k → keeps (take_fid fid).
Proof. intros Hne [s w] Hk. cbn. by rewrite lookup_delete_ne. Qed.

Lemma keeps_walk_base fid newfid : keeps (walk_base fid newfid).
Proof.
  intros [s w] Hk. unfold walk_base. destruct (negb _ && _); [done|].
  assert (keeps (fid_path fid)) as Hp
    by (apply preserves_bind; [apply keeps_lookup|]; intros; apply preserves_ret).
  exact (Hp (s, w) Hk).
Qed.

Lemma keeps_panic {A} : keeps (panic (E:=Error) (A:=A)).
Proof. by intros s Hs. Qed.
Lemma keeps_no_fuel {A} : keeps (no_fuel (E:=Error) (A:=A)).
Proof. by intros s Hs. Qed.

Ltac keeps_go :=
  repeat first
    [ apply preserves_bind; [|intros ?]
    | apply keeps_fs_call | apply keeps_lookup | apply keeps_walk_base
    | apply keeps_set; assumption | apply keeps_take; assumption
    | apply preserves_ret | apply preserves_throw | apply preserves_lift
    | apply preserves_ok_or | apply preserves_guard | apply preserves_attempt
    | apply keeps_panic | apply keeps_no_fuel
    | match goal with |- preserves _ (match ?x with _ => _ end) => destruct x end
    | match goal with |- preserves _ (let '(_, _) := ?x in _) => destruct x end ].

Lemma keeps_fid_file {A} fid f h (m : M (H * W) A) : fid ≠ k → keeps (fid_file fid f h m).
Proof. intros Hne. unfold fid_file. keeps_go. Qed.

Lemma keeps_walk_loop path qids names : keeps (walk_loop fsys path qids names).
Proof.
  revert path qids. induction names as [|n names IH]; intros path qids; cbn [walk_loop];
    [keeps_go|].
  destruct (_ || _); [keeps_go|]. apply preserves_bind; [keeps_go|].
  intros [q|e| |]; [apply IH|keeps_go..].
Qed.

Lemma keeps_readdir_loop path offset count index data es :
  keeps (readdir_loop fsys path offset count index data es).
Proof.
  revert index data. induction es as [|e es IH]; intros index data; cbn [readdir_loop];
    [keeps_go|].
  destruct (_ <=? _); [apply IH|]. do 2 (apply preserves_bind; [keeps_go|intros ?]).
  destruct (_ <? _); [keeps_go|apply IH].
Qed.

Lemma keeps_commit f : keeps (commit_xattr_if_ready fsys f).
Proof. unfold commit_xattr_if_ready. keeps_go. Qed.

Lemma keeps_handle r : k ∉ request_writes r → keeps (srv_handle fsys clock r).
Proof.
  intros Hk. destruct r; cbn [srv_handle request_writes] in *;
    rewrite ?not_elem_of_cons in Hk; try destruct Hk as [Hk%not_eq_sym _];
    repeat first
      [ apply preserves_bind; [|intros ?] | apply keeps_walk_loop | apply keeps_readdir_loop
      | apply keeps_commit | apply keeps_fid_file; assumption | progress keeps_go
      | progress unfold srv_attach, srv_walk, srv_lopen, srv_lcreate, srv_getattr, srv_setattr,
          srv_xattrwalk, srv_xattrcreate, srv_read, srv_write, srv_clunk, srv_remove,
          srv_mkdir, srv_link, srv_readdir, srv_rename_at, srv_unlink_at, srv_symlink,
          srv_readlink, srv_fsync, fid_path ].
  by intros [s w] Hs.
Qed.
End Frame.

(** ** Directory pages *)

Lemma blen_wdirent e : blen (wdirent e) = 24 + blen (bytes_of (de_name e)).
Proof.
  unfold wdirent, wqid, wstr, blen. cbn [concat].
  rewrite !length_app, !length_le_bytes. cbn [length]. lia.
Qed.

Lemma cursors_elem index es p : p ∈ cursors index es → 0 ≤ index →
  ∃ e, e ∈ es ∧ d_name e = p.1 ∧ index < p.2 ≤ index + Z.of_nat (length es).
Proof.
  revert index. induction es as [|e es IH]; intros index Hp H0; cbn in Hp;
    [by apply elem_of_nil in Hp|].
  cbn [length]. apply elem_of_cons in Hp as [->|Hp].
  - exists e. split; [by left|]. cbn. split; [done|lia].
  - destruct (IH _ Hp ltac:(lia)) as (e' & ? & ? & ?). exists e'. split; [by right|].
    split; [done|lia].
Qed.

Section Readdir.
Context {W H : Type} `{!FileHandle W H} (fsys : FileSystem W H).

(** Entries the loop has still to report. *)
Definition pending (offset index : Z) (es : list DirEntry) : list (string * Z) :=
  filter (λ p, offset < p.2) (cursors index es).

Definition dirent_key (d : NinePDirent) : string * Z := (de_name d, de_offset d).

Definition page_ok (offset count index : Z) (data : list byte) (es : list DirEntry)
    (out : list byte) : Prop :=
  ∃ ds, out = data ++ concat (wdirent <$> ds) ∧
    dirent_key <$> ds = take (length ds) (pending offset index es) ∧
    Forall (λ d, qid_wf (de_qid d) ∧ in_u8 (de_typ d) ∧
                 blen (bytes_of (de_name d)) ≤ U16_MAX) ds ∧
    blen out ≤ Z.max count (blen data) ∧
    (ds = [] → pending offset index es = [] ∨ count < blen data + 24 + U16_MAX).

Lemma readdir_loop_page path offset count index data es s w out st' :
  readdir_loop fsys path offset count index data es (s, w) = (Ok out, st') →
  page_ok offset count index data es out.
Proof.
  revert index data s w. induction es as [|e es IH]; intros index data s w; cbn [readdir_loop].
  { intros [= <- <-]. exists []. rewrite app_nil_r. split; [done|]. split; [done|].
    split; [constructor|]. split; [lia|]. by left. }
  unfold page_ok, pending. cbn [cursors]. rewrite filter_cons.
  destruct (index + 1 <=? offset) eqn:Hc; bool_to_prop; intros Hrun.
  { rewrite decide_False by (cbn; lia). by eapply IH. }
  rewrite decide_True by (cbn; lia).
  apply eff_bind_inv in Hrun as (q & [s1 w1] & Hq & Hrun).
  assert (qid_wf q) as Hqwf.
  { unfold fs_call, on_snd in Hq. destruct (qid_for fsys _ w) as [r w'] eqn:Hqf. simplify_eq.
    unfold qid_for in Hqf. apply eff_bind_inv in Hqf as (m & w2 & _ & [= <- _]).
    apply qid_from_meta_wf. }
  apply eff_bind_inv in Hrun as (enc & [s2 w2] & Henc & Hrun).
  injection Henc as Henc <- <-.
  apply encode_dirents_from_Ok in Henc as [-> Hlen]. apply Forall_cons in Hlen as [Hlen _].
  cbn [app concat fmap list_fmap] in *. rewrite app_nil_r in *. cbn [de_name] in Hlen.
  set (d := mkNinePDirent q (index + 1) (dirent_type (m_mode (d_metadata e))) (d_name e)) in *.
  pose proof (blen_wdirent d) as Hbl. cbn [d de_name] in Hbl. fold d in Hbl.
  destruct (count <? blen data + blen (wdirent d)) eqn:Hfit; bool_to_prop.
  { injection Hrun as <- <-. exists []. rewrite app_nil_r.
    split; [done|]. split; [done|]. split; [constructor|]. split; [lia|]. intros _. right. lia. }
  destruct (IH _ _ _ _ Hrun) as (ds & -> & Hds & Hok & Hb & _). exists (d :: ds).
  rewrite fmap_cons. cbn [concat]. rewrite <- app_assoc in *.
  split; [done|]. split; [cbn; f_equal; exact Hds|]. split.
  { constructor; [|done]. split; [done|]. split; [|done]. cbn. unfold dirent_type.
    by repeat case_match. }
  split; [|done]. rewrite (blen_app data (wdirent d)) in Hb. lia.
Qed.
End Readdir.

(** The invariant of a freshly started server. *)
Lemma srv_inv_new {W H} np (J : W → Prop) (HJ : H → W → Prop) w : J w →
  srv_inv np J HJ [] (server_new, w).
Proof. intros HJw. unfold srv_inv, world_inv. cbn. by split_and!. Qed.

(** The laws hold of [static_fs], and a fresh attach gives [static_state]. *)
Definition static_handle_ok (h : DirFile) (w : unit) : Prop := meta_wf (df_meta h).

Lemma static_laws : FsLaws true (λ _, True) static_handle_ok static_fs static_fs.
Proof.
  assert (∀ p, meta_wf (df_meta (dir_file_new (Meta.dir p 493) []))) as Hdir
    by (intros p; split_and!; cbn; done).
  assert (meta_wf (Meta.dir "." 493) ∧ meta_wf (Meta.file "a" 420 3)) as [Hd Ha]
    by (split; split_and!; done).
  split; intros; first [intros hs w [_ Hhs]|intros h hs w [_ [Hh Hhs]%Forall_cons]];
    (split; [done|]); cbn; try (by split).
  - unfold static_lstat. repeat case_decide; first [by split|split; [by intros _|by split]].
  - unfold static_read_dir. case_decide; [|by split]. split; [|by split].
    intros _. split; [|done]. by repeat constructor.
  - split; [split; [done|by constructor]|done].
  - split; [split; [done|by constructor]|done].
  - split; [split; [done|by constructor]|done].
  - split; [split; [done|by constructor]|done].
  - split; [split; [done|by constructor]|done].
Qed.

Section Frames.
Context {W H : Type} `{!FileHandle W H} (np : bool) (J : W → Prop) (HJ : H → W → Prop).
Context (fs1 fs2 : FileSystem W H) (clock : M W Z) `{!FsLaws np J HJ fs1 fs2}.
Hypothesis clock_good : good np J HJ clock clock (λ _ _, True).

Lemma errno_wf e : in_u32 (errno_for_error e).
Proof. unfold errno_for_error. by destruct (error_kind e). Qed.

Lemma srv_respond_ok r : request_wf r → (np = true → request_sane r = true) →
  rel np (srv_inv np J HJ []) (srv_inv np J HJ []) (srv_respond fs1 clock r)
    (srv_respond fs2 clock r) (reply_ok np J HJ).
Proof.
  intros Hwf Hs. eapply rel_bind; [apply rel_attempt; by apply srv_handle_ok|].
  intros [resp|e| |]; [by apply rel_ret|apply rel_ret|by intros st []..].
  intros st Hi. split; [|done]. intros _. apply errno_wf.
Qed.

Lemma handle_frame_ok frame :
  (np = true → ∀ tag r, decode_request frame = Ok (tag, r) → request_sane r = true) →
  rel np (srv_inv np J HJ []) (srv_inv np J HJ []) (handle_frame fs1 clock frame)
    (handle_frame fs2 clock frame) (λ _ st, srv_inv np J HJ [] st).
Proof.
  intros Hs. pose proof (decode_msg_total _ decode_request_body_total frame) as Ht.
  change (match decode_request frame with Ok _ | Err _ => True | _ => False end) in Ht.
  eapply (rel_bind _ _ _ _ _ _ _ (λ x st, decode_request frame = Ok x ∧ srv_inv np J HJ [] st)).
  { apply rel_lift. intros st Hi. by destruct (decode_request frame). }
  intros [tag r]. apply rel_pure. intros Hd. pose proof Hd as (_ & _ & Hwf)%decode_request_iff.
  eapply rel_bind; [apply srv_respond_ok; eauto|].
  intros resp. apply rel_lift. intros st [_ Hi].
  unfold encode_response, mbind, outcome_bind.
  destruct resp; cbn; unfold put_string, put_counted_data, put_count16, mbind, outcome_bind,
    encode_frame; repeat (case_match; simplify_eq); try done.
Qed.
End Frames.

(** ** Properties *)

(** C1. The server answers every request: over a filesystem that satisfies its laws,
    from a state with the fid-table invariant, a request within the arithmetic
    limits gets a reply (an [Rlerror] if the operation fails); the server does not
    panic, the reply is a message the codec can represent, and the invariant is
    kept. *)
Theorem server_never_crashes {W H} `{!FileHandle W H} J HJ (fsys : FileSystem W H) clock st r :
  FsLaws true J HJ fsys fsys → good true J HJ clock clock (λ _ _, True) →
  srv_inv true J HJ [] st → request_wf r → request_sane r = true →
  ∃ resp st', srv_respond fsys clock r st = (Ok resp, st') ∧
    response_wf resp ∧ srv_inv true J HJ [] st'.
Proof.
  intros Hlaws Hclock Hi Hwf Hs.
  destruct (srv_respond_ok true J HJ fsys fsys clock Hclock r Hwf (λ _, Hs) st Hi) as [_ Hr].
  destruct (srv_respond fsys clock r st) as [[resp|e| |] st'] eqn:Hrun.
  - exists resp, st'. destruct Hr. auto.
  - exfalso. revert Hrun. unfold srv_respond, mbind, eff_bind, attempt.
    destruct (srv_handle fsys clock r st) as [[]]; done.
  - by destruct Hr.
  - by destruct Hr.
Qed.

Lemma static_clock_good :
  good true (λ _, True) static_handle_ok static_clock static_clock (λ _ _, True).
Proof. by apply good_ret. Qed.

Lemma static_state_inv : srv_inv true (λ _, True) static_handle_ok [] static_state.
Proof.
  split; [done|]. split; [by apply map_Forall_singleton|].
  split; [by split|]. by apply map_Forall_singleton.
Qed.

Lemma server_never_crashes_witness :
  ∃ resp st', srv_respond static_fs static_clock (TWalk 0 1 ["a"]) static_state = (Ok resp, st') ∧
    response_wf resp ∧ srv_inv true (λ _, True) static_handle_ok [] st'.
Proof.
  apply (server_never_crashes (λ _, True) static_handle_ok static_fs static_clock static_state
    (TWalk 0 1 ["a"]) static_laws static_clock_good static_state_inv).
  - split; [done|]. split; [done|]. repeat constructor.
  - reflexivity.
Defined.

(** [handle_frame] on any bytes: unless the frame carries a request beyond the
    arithmetic limits the server does not panic; it returns an error only when the
    frame does not decode or the reply does not fit a message, and a reply it
    returns decodes to the tag of the request and the response computed for it. *)
Theorem handle_frame_replies {W H} `{!FileHandle W H} J HJ (fsys : FileSystem W H) clock st frame :
  FsLaws true J HJ fsys fsys → good true J HJ clock clock (λ _ _, True) →
  srv_inv true J HJ [] st →
  (∀ tag r, decode_request frame = Ok (tag, r) → request_sane r = true) →
  match handle_frame fsys clock frame st with
  | (Ok reply, st') => srv_inv true J HJ [] st' ∧
      ∃ tag r resp, decode_request frame = Ok (tag, r) ∧
        srv_respond fsys clock r st = (Ok resp, st') ∧
        decode_response reply = Ok (tag, resp)
  | (Err e, st') => srv_inv true J HJ [] st' ∧
      (decode_request frame = Err e ∧ st' = st ∨
       ∃ tag r resp, decode_request frame = Ok (tag, r) ∧
         srv_respond fsys clock r st = (Ok resp, st') ∧ encode_response tag resp = Err e)
  | _ => False
  end.
Proof.
  intros Hlaws Hclock Hi Hs.
  destruct (handle_frame_ok true J HJ fsys fsys clock Hclock frame (λ _, Hs) st Hi) as [_ Hr].
  revert Hr. unfold handle_frame, mbind, eff_bind, lift.
  destruct (decode_request frame) as [[tag r]|e| |] eqn:Hd; [|intros ?; by auto|by intros [? _]..].
  pose proof Hd as (_ & Htag & Hwf)%decode_request_iff.
  destruct (srv_respond_ok true J HJ fsys fsys clock Hclock r Hwf (λ _, Hs _ _ eq_refl) st Hi)
    as [_ Hresp].
  destruct (srv_respond fsys clock r st) as [[resp|e| |] st'] eqn:Hrun.
  - destruct Hresp as [Hrwf _]. destruct (encode_response tag resp) as [reply|e| |] eqn:He.
    + intros Hi'. split; [done|]. exists tag, r, resp. split; [done|]. split; [done|].
      apply decode_response_iff. auto.
    + intros Hi'. split; [done|]. right. by exists tag, r, resp.
    + by intros [? _].
    + by intros [? _].
  - exfalso. revert Hrun. unfold srv_respond, mbind, eff_bind, attempt.
    destruct (srv_handle fsys clock r st) as [[]]; done.
  - by intros [? _].
  - by intros [? _].
Qed.

Lemma handle_frame_replies_witness :
  ∃ frame, encode_request 7 (TGetAttr 0 2047) = Ok frame ∧
  match handle_frame static_fs static_clock frame static_state with
  | (Ok reply, st') => srv_inv true (λ _, True) static_handle_ok [] st' ∧
      ∃ tag r resp, decode_request frame = Ok (tag, r) ∧
        srv_respond static_fs static_clock r static_state = (Ok resp, st') ∧
        decode_response reply = Ok (tag, resp)
  | _ => False
  end.
Proof.
  destruct (encode_request 7 (TGetAttr 0 2047)) as [frame| | |] eqn:He;
    [|vm_compute in He; discriminate He..].
  exists frame. split; [reflexivity|].
  assert (decode_request frame = Ok (7, TGetAttr 0 2047)) as Hd
    by (vm_compute in He; injection He as <-; vm_compute; reflexivity).
  pose proof (handle_frame_replies (λ _, True) static_handle_ok static_fs static_clock
    static_state frame static_laws static_clock_good static_state_inv) as Hr.
  assert (∃ reply st', handle_frame static_fs static_clock frame static_state = (Ok reply, st'))
    as (reply & st' & Hrun)
    by (vm_compute in He; injection He as <-; eexists _, _; vm_compute; reflexivity).
  rewrite Hrun in Hr |- *. apply Hr. intros tag r Hd'. rewrite Hd in Hd'.
  injection Hd' as <- <-. reflexivity.
Defined.

Lemma run_frames_confined {W H} `{!FileHandle W H} (fs1 fs2 : FileSystem W H) clock frames st :
  fs_agree fs1 fs2 → srv_inv false (λ _, True) (λ _ _, True) [] st →
  run_frames fs1 clock frames st = run_frames fs2 clock frames st.
Proof.
  intros Ha. pose proof (agree_laws fs1 fs2 Ha) as Hlaws.
  assert (good false (λ _, True) (λ (_ : H) (_ : W), True) clock clock (λ _ _, True)) as Hclock
    by (by apply good_of_eq).
  revert st. induction frames as [|frame frames IH]; intros st Hi; [done|]. cbn [run_frames].
  destruct (handle_frame_ok false _ _ fs1 fs2 clock Hclock frame ltac:(done) st Hi) as [Heq Hr].
  rewrite <- Heq. destruct (handle_frame fs1 clock frame st) as [r st1].
  rewrite (IH st1); [done|]. destruct r as [| | |]; [done|done|by destruct Hr..].
Qed.

(** C2. Confinement: two filesystems that agree on the valid paths (relative, without
    empty, [.] or [..] components) cannot be told apart through the server, by any
    sequence of frames to a new server.  Whatever names a client sends, in [walk],
    [lcreate], [rename] or anywhere else, the exported filesystem is only called
    with valid paths, so nothing above the exported root is reachable. *)
Theorem server_confined {W H} `{!FileHandle W H} (fs1 fs2 : FileSystem W H) clock frames w :
  fs_agree fs1 fs2 →
  run_frames fs1 clock frames (server_new, w) = run_frames fs2 clock frames (server_new, w).
Proof. intros Ha. apply run_frames_confined; [done|]. by apply srv_inv_new. Qed.

Lemma server_confined_witness :
  fs_lstat static_fs Ctx.new "../etc" tt ≠ fs_lstat leaky_fs Ctx.new "../etc" tt ∧
  ∀ frames, run_frames static_fs static_clock frames (server_new, tt) =
            run_frames leaky_fs static_clock frames (server_new, tt).
Proof.
  split; [vm_compute; discriminate|]. intros frames.
  apply (server_confined static_fs leaky_fs static_clock frames tt).
  split; intros; try reflexivity. cbn. by rewrite H.
Defined.

(** A request on a fid that is not in the table is answered with [EINVAL] and
    changes neither the table nor the filesystem. *)
Theorem unknown_fid_refused {W H} `{!FileHandle W H} (fsys : FileSystem W H) clock r fid s w :
  request_fid r = Some fid → sv_fids s !! fid = None →
  srv_respond fsys clock r (s, w) = (Ok (RLerror EINVAL), (s, w)).
Proof.
  intros Hr Hn. apply (srv_respond_Err _ _ _ _ (EKind Invalid)). by apply (handle_unknown_fid _ _ _ fid).
Qed.

Lemma unknown_fid_refused_witness :
  srv_respond static_fs static_clock (TUnlinkAt 5 "a" 0) static_state =
    (Ok (RLerror 22), static_state).
Proof.
  apply (unknown_fid_refused static_fs static_clock (TUnlinkAt 5 "a" 0) 5); reflexivity.
Defined.

(** Walking: a reply with [n] qids means that [newfid] now stands, unopened, for
    the path of [fid] followed by the first [n] names, where [.] stays, [..] drops
    the last component (and stays at the root) and any other name is appended.  It
    replaces no fid but [fid] itself, touches no other, and is empty only for an
    empty list of names. *)
Theorem walk_installs_path {W H} `{!FileHandle W H} (fsys : FileSystem W H)
    fid newfid names s w qids s' w' :
  map_Forall (λ _ f, fid_good false f) (sv_fids s) →
  srv_walk fsys fid newfid names (s, w) = (Ok (RWalk qids), (s', w')) →
  ∃ f, sv_fids s !! fid = Some f ∧ (newfid = fid ∨ sv_fids s !! newfid = None) ∧
    (length qids ≤ length names)%nat ∧ (qids = [] → names = []) ∧
    s' = mkServerState (sv_msize s) (<[newfid := fid_unopened
      (of_parts (foldl clean_step (parts_of (fid_st_path f)) (take (length qids) names)))]>
      (sv_fids s)).
Proof.
  intros Hgood. unfold srv_walk. intros Hrun.
  apply eff_bind_inv in Hrun as (base & [s1 w1] & Hb & Hrun).
  unfold walk_base in Hb. destruct (negb _ && _) eqn:Hg; [done|].
  apply eff_bind_inv in Hb as (f & [s2 w2] & Hf & Hb). injection Hb as <- <- <-.
  cbn in Hf. destruct (sv_fids s !! fid) as [f'|] eqn:Hl; [|done]. injection Hf as <- <- <-.
  apply eff_bind_inv in Hrun as ([p qs] & [s3 w3] & Hloop & Hrun).
  apply walk_loop_spec in Hloop as (Hs & n & Hle & Hlen & -> & Hnames & Hnil).
  cbn in Hs, Hlen. subst s3. injection Hrun as <- <- <-. subst n.
  exists f'. split; [done|]. split.
  { apply andb_false_iff in Hg as [Hg|Hg]; bool_to_prop; [by left|right].
    by apply eq_None_not_Some. }
  split; [done|]. split; [done|]. do 3 f_equal.
  destruct (valid_path_parts (fid_st_path f')) as [Hps Heq]; [by apply (Hgood _ _ Hl)|].
  rewrite <- Heq at 1. by apply walk_path_parts.
Qed.

Lemma walk_installs_path_witness :
  ∃ f, sv_fids static_state.1 !! 0 = Some f ∧ (3 = 0 ∨ sv_fids static_state.1 !! 3 = None) ∧
    (2 ≤ 2)%nat ∧
    srv_walk static_fs 0 3 [".."; "a"] static_state =
      (Ok (RWalk [mkQid 128 0 12638124528392833969; mkQid 0 0 12638187200555641996]),
       (mkServerState DEFAULT_MSIZE (<[3 := fid_unopened "a"]> {[0 := fid_unopened "."]}), tt)).
Proof.
  assert (srv_walk static_fs 0 3 [".."; "a"] static_state =
      (Ok (RWalk [mkQid 128 0 12638124528392833969; mkQid 0 0 12638187200555641996]),
       (mkServerState DEFAULT_MSIZE (<[3 := fid_unopened "a"]> {[0 := fid_unopened "."]}), tt)))
    as Hrun by (vm_compute; reflexivity).
  destruct (walk_installs_path static_fs 0 3 [".."; "a"] static_state.1 tt _ _ _
    (proj2 (map_Forall_singleton _ _ _) (conj eq_refl I)) Hrun) as (f & Hf & Hn & Hlen & _).
  exists f. split; [exact Hf|]. split; [exact Hn|]. split; [exact Hlen|exact Hrun].
Defined.

(** Isolation of fids: a request changes the table only at the fids it opens,
    reads, writes, walks to or clunks; every other fid keeps its path, handle and
    pending attribute data, whether the request succeeds or fails. *)
Theorem fids_isolated {W H} `{!FileHandle W H} (fsys : FileSystem W H) clock r s w k :
  k ∉ request_writes r →
  sv_fids (srv_handle fsys clock r (s, w)).2.1 !! k = sv_fids s !! k.
Proof. intros Hk. by apply (keeps_handle fsys clock k (sv_fids s !! k) r Hk (s, w)). Qed.

Lemma fids_isolated_witness :
  sv_fids (srv_handle static_fs static_clock (TAttach 4 NOFID "u" "" 0) static_state).2.1 !! 0
    = Some (fid_unopened ".").
Proof.
  etransitivity.
  - apply (fids_isolated static_fs static_clock (TAttach 4 NOFID "u" "" 0) static_state.1 tt 0).
    apply not_elem_of_cons. split; [discriminate|apply not_elem_of_nil].
  - reflexivity.
Defined.

(** [clunk] and [remove] retire the fid whatever their outcome: also when an
    incomplete attribute write is refused, when closing fails or when the removal
    fails, the fid is free afterwards. *)
Theorem clunk_frees_fid {W H} `{!FileHandle W H} (fsys : FileSystem W H) fid s w :
  sv_fids (srv_clunk fsys fid (s, w)).2.1 !! fid = None ∧
  sv_fids (srv_remove fsys fid (s, w)).2.1 !! fid = None.
Proof.
  assert (∀ (k : option (FidState H) → M (ServerState H * W) NinePResponse),
    (∀ o, preserves (λ st : ServerState H * W, sv_fids st.1 !! fid = None) (k o)) →
    sv_fids ((take_fid fid ≫= k) (s, w)).2.1 !! fid = None) as Htake.
  { intros k Hk. unfold mbind, eff_bind. cbn [take_fid]. apply Hk. cbn.
    apply lookup_delete_eq. }
  split; apply Htake; intros o.
  - apply preserves_bind; [apply preserves_ok_or|]. intros st.
    apply preserves_bind; [apply keeps_commit|]. intros st'.
    destruct (fid_st_handle st'); try apply preserves_ret.
    apply preserves_bind; [apply keeps_fs_call|]. intros. apply preserves_ret.
  - apply preserves_bind; [apply preserves_ok_or|]. intros st.
    apply preserves_bind; [apply preserves_guard|]. intros _.
    apply preserves_bind.
    + destruct (fid_st_handle st); try apply preserves_ret.
      apply preserves_bind; [apply keeps_fs_call|]. intros. apply preserves_ret.
    + intros _. apply preserves_bind; [apply keeps_fs_call|]. intros. apply preserves_ret.
Qed.

(** C7. One page of [readdir] from a cursor holds, in order, the entries with a later
    cursor (cursors count from 1), as many as fit: its data decodes, has at most
    [count] bytes, and is empty only at the end of the directory or when [count] is
    smaller than the largest possible entry.  So reading on from the last cursor
    neither skips nor repeats an entry. *)
Theorem readdir_page {W H} `{!FileHandle W H} (fsys : FileSystem W H)
    fid offset count s w f es w1 data st' :
  0 ≤ offset → in_u32 count → sv_fids s !! fid = Some f →
  fs_read_dir fsys Ctx.new (fid_st_path f) w = (Ok es, w1) →
  Forall entry_wf es → Z.of_nat (length es) < ISIZE_MAX →
  srv_readdir fsys fid offset count (s, w) = (Ok (RReaddir data), st') →
  ∃ ds, decode_dirents data = Ok ds ∧
    dirent_key <$> ds = take (length ds) (filter (λ p, offset < p.2) (cursors 0 es)) ∧
    blen data ≤ count ∧
    (ds = [] → filter (λ p, offset < p.2) (cursors 0 es) = [] ∨ count < 24 + U16_MAX).
Proof.
  intros Hoff Hcount Hf Hes Hwf Hlen. unfold srv_readdir. intros Hrun.
  apply eff_bind_inv in Hrun as (p & [s1 w2] & Hp & Hrun).
  apply eff_bind_inv in Hp as (f' & [s2 w3] & Hl & [= <- <- <-]).
  cbn in Hl. rewrite Hf in Hl. injection Hl as <- <- <-.
  apply eff_bind_inv in Hrun as (es' & [s4 w4] & He & Hrun).
  unfold fs_call, on_snd in He. rewrite Hes in He. injection He as <- <- <-.
  apply eff_bind_inv in Hrun as (out & st4 & Hloop & [= <- <-]).
  apply readdir_loop_page in Hloop as (ds & -> & Hkeys & Hok & Hb & Hnil). cbn [app] in *.
  unfold pending in *. destruct Hcount as [Hc0 Hc1]. change (blen []) with 0 in *.
  exists ds. split; [|split; [done|split; [lia|exact Hnil]]].
  apply decode_dirents_iff; [unfold ISIZE_MAX, I64_MAX, U32_MAX in *; lia|].
  unfold encode_dirents. rewrite encode_dirents_from_Ok. split; [split; [done|]|].
  { eapply Forall_impl; [exact Hok|]. by intros d (_ & _ & ?). }
  apply Forall_forall. intros d Hd. rewrite Forall_forall in Hok.
  destruct (Hok d Hd) as (Hq & Ht & _).
  assert (dirent_key d ∈ cursors 0 es) as Hin.
  { assert (dirent_key d ∈ dirent_key <$> ds) as Hin by (by apply list_elem_of_fmap_2).
    rewrite Hkeys in Hin. apply elem_of_take in Hin as (i & Hi & _).
    apply list_elem_of_lookup_2, list_elem_of_filter in Hi. by destruct Hi. }
  destruct (cursors_elem 0 es _ Hin ltac:(lia)) as (e & Hine & Hname & Hcur).
  rewrite Forall_forall in Hwf. destruct (Hwf e Hine) as [_ Hstr]. cbn in Hname, Hcur.
  split; [done|]. split; [|split; [done|by rewrite <- Hname]].
  unfold in_u64, U64_MAX, ISIZE_MAX, I64_MAX in *. lia.
Qed.

Lemma readdir_page_witness :
  ∃ data ds, srv_readdir static_fs 0 0 70000 static_state = (Ok (RReaddir data), static_state) ∧
    decode_dirents data = Ok ds ∧ dirent_key <$> ds = [("a", 1)].
Proof.
  destruct (srv_readdir static_fs 0 0 70000 static_state) as [r st'] eqn:Hrun.
  assert (∃ data, r = Ok (RReaddir data) ∧ st' = static_state) as (data & -> & ->).
  { vm_compute in Hrun. injection Hrun as <- <-. eexists. split; reflexivity. }
  assert (Forall entry_wf [mkDirEntry "a" (Meta.file "a" 420 3)]) as Hwf
    by (repeat constructor; cbn; discriminate).
  destruct (readdir_page static_fs 0 0 70000 static_state.1 tt (fid_unopened ".")
    [mkDirEntry "a" (Meta.file "a" 420 3)] tt data static_state) as (ds & Hd & Hk & _ & Hnil);
    [done|by vm_compute|reflexivity|reflexivity|exact Hwf|by vm_compute|exact Hrun|].
  exists data, ds. split; [reflexivity|]. split; [exact Hd|].
  destruct ds as [|d [|d' ds]]; [|exact Hk|].
  - destruct (Hnil eq_refl) as [Hn|Hn]; [discriminate Hn|vm_compute in Hn; discriminate Hn].
  - discriminate (f_equal length Hk).
Defined.

(** C40. The two requests outside the server's arithmetic: on a fid in the table,
    [XattrCreate] with a size beyond [isize::MAX] (a [vec!] of that length) and
    [SetAttr] of an explicit modification time beyond the seconds a [SystemTime]
    holds make the server panic, whatever the exported filesystem. *)
Theorem remote_panic {W H} `{!FileHandle W H} (fsys : FileSystem W H) clock fid s w f :
  sv_fids s !! fid = Some f →
  (∀ name size flags, is_empty_str name = false → ISIZE_MAX < size →
     (srv_respond fsys clock (TXattrCreate fid name size flags) (s, w)).1 = Panic) ∧
  (∀ secs, I64_MAX < secs →
     (srv_respond fsys clock (TSetAttr fid
        (mkSetAttr (Z.lor SETATTR_MTIME SETATTR_MTIME_SET) 0 0 0 0 0 0 secs 0)) (s, w)).1 = Panic).
Proof.
  intros Hf. split.
  - intros name size flags Hn Hs. apply (srv_respond_Panic _ _ _ _ (s, w)). cbn [srv_handle].
    unfold srv_xattrcreate. rewrite Hn. cbn [guard_err].
    rewrite (eff_bind_Ok (mret tt) _ (s, w) tt (s, w)) by done.
    rewrite (eff_bind_Ok _ _ _ _ _ (lookup_fid_Some fid s w f Hf)).
    unfold Xattr.new. by rewrite (proj2 (Z.ltb_lt ISIZE_MAX size) Hs).
  - intros secs Hs. apply (srv_respond_Panic _ _ _ _ (s, w)). cbn [srv_handle]. unfold srv_setattr.
    rewrite (eff_bind_Ok (fid_path fid) _ (s, w) (fid_st_path f) (s, w))
      by (unfold fid_path; by rewrite (eff_bind_Ok _ _ _ _ _ (lookup_fid_Some fid s w f Hf))).
    assert (epoch_plus secs 0 = Panic) as Hp; [|unfold mbind, eff_bind; cbn; by rewrite Hp].
    unfold epoch_plus. destruct (U64_MAX <? _) eqn:?; [done|].
    rewrite (proj2 (Z.ltb_lt I64_MAX _)); [done|]. change (0 mod 2 ^ 32 / 1000000000) with 0. lia.
Qed.

Lemma remote_panic_witness :
  (srv_respond static_fs static_clock (TXattrCreate 0 "user.a" U64_MAX 0) static_state).1 = Panic.
Proof.
  apply (remote_panic static_fs static_clock 0 static_state.1 tt (fid_unopened "."));
    [reflexivity|reflexivity|by vm_compute].
Defined.

(** ** Serving the in-memory filesystem

    The 9P server of [P9Server] with a [MemFs] behind it: the interface [FsLaws]
    joins the two components. *)

Lemma current_time_good : good false mem_inv handle_ok current_time current_time (λ _ _, True).
Proof.
  apply good_of_run. intros hs w Hw. unfold run_ok, current_time. split; [done|].
  apply (winv_step hs w); [done|done|]. by eapply tick_inv; [apply Hw|..].
Qed.

Lemma run_frames_inv {W H} `{!FileHandle W H} J HJ (fsys : FileSystem W H) clock frames st :
  FsLaws false J HJ fsys fsys → good false J HJ clock clock (λ _ _, True) →
  srv_inv false J HJ [] st → srv_inv false J HJ [] (run_frames fsys clock frames st).2.
Proof.
  intros Hlaws Hclock. revert st. induction frames as [|frame frames IH]; intros st Hi; [done|].
  cbn [run_frames].
  destruct (handle_frame_ok false J HJ fsys fsys clock Hclock frame ltac:(done) st Hi) as [_ Hr].
  destruct (handle_frame fsys clock frame st) as [r st1].
  assert (srv_inv false J HJ [] st1) as Hi1.
  { destruct r; [by destruct Hr|done|by destruct Hr..]. }
  specialize (IH st1 Hi1). by destruct (run_frames fsys clock frames st1).
Qed.

(** C13. Whatever a 9P client sends to a server of a [MemFs], the tree stays sound:
    after any sequence of frames, answered or not, the ordered map is well formed,
    every path leads to a live node, directories have one path each, every regular
    file records the length of its data, and every open handle refers to a live
    node. *)
Theorem served_memfs_sound fuel frames w :
  mem_inv w →
  let st := (run_frames (MemFs.fs fuel) current_time frames (server_new, w)).2 in
  mem_inv st.2 ∧
  map_Forall (λ _ f, Forall (λ h, handle_ok h st.2) (st_handles f)) (sv_fids st.1).
Proof.
  intros Hinv. cbn zeta.
  pose proof (run_frames_inv mem_inv handle_ok (MemFs.fs fuel) current_time frames (server_new, w)
    (memfs_laws fuel) current_time_good) as Hr.
  destruct Hr as (_ & _ & [Hi _] & Hh); [|done].
  by apply srv_inv_new.
Qed.

(** A session on a new [MemFs]: attach, then make the directory [d]. *)
Definition session_frames : list (list byte) :=
  omap (λ r, match encode_request 1 r with Ok bs => Some bs | _ => None end)
    [TAttach 0 NOFID "user" "" 0; TMkdir 0 "d" 493 0].

Lemma served_memfs_sound_witness :
  let st := (run_frames (MemFs.fs 1) current_time session_frames
    (server_new, MemFs.new (λ _, 0))).2 in
  bt_keys (mw_nodes st.2) = ["."; "d"] ∧
  (mem_inv st.2 ∧
   map_Forall (λ _ f, Forall (λ h, handle_ok h st.2) (st_handles f)) (sv_fids st.1)).
Proof.
  split; [by vm_compute|].
  apply (served_memfs_sound 1 session_frames (MemFs.new (λ _, 0))), new_inv.
Defined.
