(* ===== verification/P9Stream.v ===== *)
(** * 9P frames over byte streams

    Models [read_frame], [write_frame], [serve_frame_stream] and [StreamTransport] of
    [crates/star9-protocol/src/p9.rs].

    A reader is the bytes it will still deliver and what happens after them: the end
    of the stream, or an I/O error.  A writer is the bytes written so far and, if it
    is going to fail, the room left before the error. *)

From stdpp Require Import base list numbers option strings gmap.
From Stdlib Require Import ZArith Lia Ascii.
From S2P Require Import Prelude Strs BTree Core FsTrait P9Codec P9CodecFacts P9Server P9ServerProps.

Local Open Scope Z_scope.

(** ** Streams *)

Record Reader := mkReader { rd_bytes : list byte; rd_end : option IoError }.
Record Writer := mkWriter { wr_bytes : list byte; wr_room : option (nat * IoError) }.

(** [read] into a buffer of one byte: [None] is [Ok(0)] *)
Definition read_one : M Reader (option byte) := λ r,
  match rd_bytes r, rd_end r with
  | b :: bs, _ => (Ok (Some b), mkReader bs (rd_end r))
  | [], None => (Ok None, r)
  | [], Some err => (Err (from_io_error err), r)
  end.

(** [Read::read_exact] for [n] bytes *)
Definition read_exact (n : nat) : M Reader (list byte) := λ r,
  if decide (n ≤ length (rd_bytes r))%nat then
    (Ok (take n (rd_bytes r)), mkReader (drop n (rd_bytes r)) (rd_end r))
  else
    (Err (from_io_error (default IoUnexpectedEof (rd_end r))), mkReader [] (rd_end r)).

(** [Write::write_all] *)
Definition write_all (data : list byte) : M Writer unit := λ w,
  match wr_room w with
  | None => (Ok tt, mkWriter (wr_bytes w ++ data) None)
  | Some (n, err) =>
      if decide (length data ≤ n)%nat then
        (Ok tt, mkWriter (wr_bytes w ++ data) (Some ((n - length data)%nat, err)))
      else
        (Err (from_io_error err), mkWriter (wr_bytes w ++ take n data) (Some (0%nat, err)))
  end.

(** ** Frames *)

Definition encoded_frame_size (frame : list byte) : Result Z :=
  if blen frame <? 4 then Err (EKind Invalid)
  else head ← slice 0 4 frame; Ok (from_le_bytes head).

Definition validate_frame_size (size : Z) : Result unit :=
  if negb ((7 <=? size) && (size <=? MAX_STREAM_FRAME_SIZE)) then Err (EKind Invalid)
  else Ok tt.

Definition read_frame : M Reader (option (list byte)) :=
  first ← read_one;
  match first with
  | None => mret None
  | Some b =>
      rest ← read_exact 3;
      let header := b :: rest in
      let size := from_le_bytes header in
      lift (validate_frame_size size) ;;
      body ← read_exact (Z.to_nat (size - 4));
      mret (Some (header ++ body))
  end.

Definition write_frame (frame : list byte) : M Writer unit :=
  size ← lift (encoded_frame_size frame);
  lift (validate_frame_size size) ;;
  guard_err (negb (size =? blen frame)) (EKind Invalid) ;;
  write_all frame.

(** [StreamTransport::round_trip] on a stream that is a reader and a writer *)
Definition stream_round_trip (request : list byte) : M (Reader * Writer) (list byte) :=
  on_snd (write_frame request) ;;
  frame ← on_fst read_frame;
  ok_or frame (EKind UnexpectedEof).

Section Serve.
Context {W H : Type} `{!FileHandle W H} (fsys : FileSystem W H) (clock : M W Z).

(** The loop of [serve_frame_stream]: every turn but the last reads a frame, so the
    bytes of the reader bound the turns. *)
Fixpoint serve_loop (fuel : nat) (served : Z)
    : M ((ServerState H * W) * (Reader * Writer)) Z :=
  match fuel with
  | O => no_fuel
  | S fuel' =>
      frame ← on_snd (on_fst read_frame);
      match frame with
      | None => mret served
      | Some frame =>
          response ← on_fst (handle_frame fsys clock frame);
          on_snd (on_snd (write_frame response)) ;;
          serve_loop fuel' (served + 1)
      end
  end.

Definition serve_frame_stream : M ((ServerState H * W) * (Reader * Writer)) Z := λ st,
  serve_loop (S (length (rd_bytes st.2.1))) 0 st.
End Serve.

(** ** Frames that fit the stream *)

(** The first four bytes are the length, which is in the accepted range. *)
Definition framed (frame : list byte) : Prop :=
  7 ≤ blen frame ≤ MAX_STREAM_FRAME_SIZE ∧ from_le_bytes (take 4 frame) = blen frame.

(** What [handle_frame] gives for the frames of a session, if it answers them all. *)
Fixpoint answers {W H} `{!FileHandle W H} (fsys : FileSystem W H) (clock : M W Z)
    (frames : list (list byte)) (st : ServerState H * W) (replies : list (list byte))
    (st' : ServerState H * W) : Prop :=
  match frames, replies with
  | [], [] => st' = st
  | frame :: frames', reply :: replies' =>
      ∃ st1, handle_frame fsys clock frame st = (Ok reply, st1) ∧
        answers fsys clock frames' st1 replies' st'
  | _, _ => False
  end.

(** A clunk request, on the wire. *)
Definition clunk_frame : list byte :=
  match encode_request 1 (TClunk 5) with Ok frame => frame | _ => [] end.

Definition unknown_fid_frame : list byte :=
  match encode_response 1 (RLerror EINVAL) with Ok frame => frame | _ => [] end.

Lemma validate_frame_size_Ok size :
  validate_frame_size size = if decide (7 ≤ size ≤ MAX_STREAM_FRAME_SIZE) then Ok tt
    else Err (EKind Invalid).
Proof.
  unfold validate_frame_size. destruct (7 <=? size) eqn:?, (size <=? _) eqn:?;
    bool_to_prop; cbn; case_decide; try done; lia.
Qed.

Lemma encoded_frame_size_eq frame : 4 ≤ blen frame →
  encoded_frame_size frame = Ok (from_le_bytes (take 4 frame)).
Proof.
  intros Hl. unfold encoded_frame_size, slice.
  rewrite (proj2 (Z.ltb_ge _ _)) by lia. rewrite (proj2 (Z.leb_le 4 (blen frame))) by lia.
  done.
Qed.

Lemma read_one_cons b bs e : read_one (mkReader (b :: bs) e) = (Ok (Some b), mkReader bs e).
Proof. done. Qed.

Lemma read_exact_app n bs rest e : length bs = n →
  read_exact n (mkReader (bs ++ rest) e) = (Ok bs, mkReader rest e).
Proof.
  intros <-. unfold read_exact. cbn [rd_bytes rd_end]. rewrite decide_True.
  - by rewrite take_app_length, drop_app_length.
  - rewrite length_app. lia.
Qed.

(** Reading a framed message off the front of a stream. *)
Lemma read_frame_framed frame rest e : framed frame →
  read_frame (mkReader (frame ++ rest) e) = (Ok (Some frame), mkReader rest e).
Proof.
  intros [Hsize Hhead]. unfold blen in *. destruct frame as [|b0 frame]; [cbn in Hsize; lia|].
  assert (∃ h body, frame = h ++ body ∧ length h = 3%nat) as (h & body & -> & Hh).
  { exists (take 3 frame), (drop 3 frame). rewrite take_drop, length_take.
    cbn [length] in Hsize. split; [done|lia]. }
  unfold read_frame. cbn [app]. rewrite (eff_bind_Ok _ _ _ _ _ (read_one_cons _ _ _)).
  rewrite <- app_assoc. rewrite (eff_bind_Ok _ _ _ _ _ (read_exact_app 3 h _ e Hh)).
  assert (take 4 (b0 :: h ++ body) = b0 :: h) as Ht.
  { cbn. f_equal. rewrite <- Hh. apply take_app_length. }
  rewrite Ht in Hhead. rewrite Hhead, validate_frame_size_Ok, decide_True by lia.
  unfold lift. rewrite (eff_bind_Ok _ _ _ tt (mkReader (body ++ rest) e)) by done.
  rewrite (eff_bind_Ok _ _ _ body (mkReader rest e)); [done|].
  apply read_exact_app. cbn [length]. rewrite length_app. lia.
Qed.

Lemma write_frame_framed frame w : framed frame → wr_room w = None →
  write_frame frame w = (Ok tt, mkWriter (wr_bytes w ++ frame) None).
Proof.
  intros [Hsize Hhead] Hw. unfold write_frame, lift.
  rewrite encoded_frame_size_eq by lia. rewrite Hhead.
  rewrite (eff_bind_Ok _ _ w (blen frame) w) by done.
  rewrite validate_frame_size_Ok, decide_True by done.
  rewrite (eff_bind_Ok _ _ w tt w) by done. rewrite Z.eqb_refl. cbn [negb guard_err].
  rewrite (eff_bind_Ok _ _ w tt w) by done. unfold write_all. by rewrite Hw.
Qed.

Lemma read_frame_Ok r frame r' : read_frame r = (Ok (Some frame), r') →
  framed frame ∧ rd_bytes r = frame ++ rd_bytes r' ∧ rd_end r' = rd_end r.
Proof.
  destruct r as [bs e]. unfold read_frame. intros Hrun.
  apply eff_bind_inv in Hrun as (first & r1 & H1 & Hrun).
  destruct bs as [|b bs]; cbn in H1; [destruct e; simplify_eq|]. simplify_eq.
  apply eff_bind_inv in Hrun as (rest & r2 & H2 & Hrun).
  unfold read_exact in H2. cbn [rd_bytes rd_end] in H2. case_decide as Hl3; [|done]. simplify_eq.
  apply eff_bind_inv in Hrun as ([] & r3 & H3 & Hrun). unfold lift in H3.
  rewrite validate_frame_size_Ok in H3. case_decide as Hsz; [|done]. simplify_eq.
  apply eff_bind_inv in Hrun as (body & r4 & H4 & Hrun).
  unfold read_exact in H4. cbn [rd_bytes rd_end] in H4. case_decide as Hlb; [|done]. simplify_eq.
  injection Hrun as <- <-. cbn [rd_bytes rd_end].
  assert (length (take 3 bs) = 3%nat) as Ht3 by (rewrite length_take; lia).
  rewrite length_drop in Hlb. split; [|split; [|done]].
  - assert (take 4 ((b :: take 3 bs) ++ take (Z.to_nat (from_le_bytes (b :: take 3 bs) - 4))
      (drop 3 bs)) = b :: take 3 bs) as Hhead by (apply take_app_length'; cbn; by rewrite Ht3).
    match goal with |- framed ?f => change f with ((b :: take 3 bs) ++
      take (Z.to_nat (from_le_bytes (b :: take 3 bs) - 4)) (drop 3 bs)) end.
    unfold framed. rewrite Hhead. unfold blen. rewrite length_app, length_take, length_drop.
    rewrite length_cons, Ht3.
    revert Hsz Hlb. generalize (from_le_bytes (b :: take 3 bs)). intros size. lia.
  - cbn [app]. f_equal. rewrite <- app_assoc, take_drop. by rewrite take_drop.
Qed.

(** Encoded messages are framed when they fit. *)
Lemma encode_frame_framed typ tag body frame : encode_frame typ tag body = Ok frame →
  blen frame ≤ MAX_STREAM_FRAME_SIZE → framed frame.
Proof.
  unfold encode_frame. destruct (7 + blen body <=? U32_MAX) eqn:Hs; [|done].
  intros [= <-] Hmax. bool_to_prop. pose proof (blen_nonneg body).
  assert (∀ a b c d e f g : byte, blen (a :: b :: c :: d :: e :: f :: g :: body) = 7 + blen body)
    as Hl by (intros; unfold blen; cbn [length]; lia).
  unfold framed. rewrite Hl in *. split; [lia|].
  change (from_le_bytes (le_bytes 4 (7 + blen body)) = 7 + blen body).
  rewrite from_le_le_bytes. apply Z.mod_small. unfold U32_MAX in *. lia.
Qed.

(** The server loop on a stream of frames that it answers. *)
Lemma serve_loop_frames {W H} `{!FileHandle W H} (fsys : FileSystem W H) clock
    frames replies st st' served fuel w :
  Forall framed frames → Forall framed replies → answers fsys clock frames st replies st' →
  wr_room w = None → (length frames < fuel)%nat →
  serve_loop fsys clock fuel served (st, (mkReader (concat frames) None, w)) =
    (Ok (served + Z.of_nat (length frames)),
     (st', (mkReader [] None, mkWriter (wr_bytes w ++ concat replies) None))).
Proof.
  revert replies st served fuel w. induction frames as [|frame frames IH];
    intros [|reply replies] st served [|fuel] w Hf Hr Ha Hw Hfuel; cbn in Ha, Hfuel; try done; try lia.
  - subst. cbn. rewrite app_nil_r, Z.add_0_r. destruct w; cbn in *. by subst.
  - destruct Ha as (st1 & Hh & Ha). apply Forall_cons in Hf as [Hf Hfs].
    apply Forall_cons in Hr as [Hr Hrs]. cbn [serve_loop concat].
    erewrite eff_bind_Ok; [|unfold on_snd, on_fst; by rewrite read_frame_framed].
    cbv iota. erewrite eff_bind_Ok; [|unfold on_fst; by rewrite Hh].
    erewrite eff_bind_Ok; [|unfold on_snd; by rewrite write_frame_framed].
    rewrite (IH replies st1); [|done..|cbn; lia].
    cbn [wr_bytes length]. rewrite <- app_assoc. do 2 f_equal. lia.
Qed.

(** No step of the stream layer itself runs out of fuel. *)
Lemma read_frame_fuel r : (read_frame r).1 ≠ NoFuel.
Proof.
  destruct r as [[|b bs] e]; [by destruct e|]. unfold read_frame.
  rewrite (eff_bind_Ok _ _ _ _ _ (read_one_cons b bs e)). unfold mbind, eff_bind, lift, read_exact.
  cbn [rd_bytes rd_end]. case_decide; [|done]. rewrite validate_frame_size_Ok.
  case_decide; [|done]. by case_decide.
Qed.

Lemma write_frame_fuel frame w : (write_frame frame w).1 ≠ NoFuel.
Proof.
  unfold write_frame, mbind, eff_bind, lift, encoded_frame_size.
  destruct (blen frame <? 4) eqn:?; [done|]. unfold slice.
  destruct ((0 <=? 0) && _ && _); [|done]. cbn [mbind outcome_bind].
  rewrite validate_frame_size_Ok. case_decide; [|done].
  destruct (negb _); [done|]. cbn. unfold write_all. destruct (wr_room w) as [[]|]; [|done].
  by case_decide.
Qed.

(** Each turn consumes a frame, so the loop ends. *)
Lemma serve_loop_ends {W H} `{!FileHandle W H} (fsys : FileSystem W H) clock fuel served st :
  (length (rd_bytes st.2.1) < fuel)%nat →
  (∀ frame st, (handle_frame fsys clock frame st).1 ≠ NoFuel) →
  (serve_loop fsys clock fuel served st).1 ≠ NoFuel.
Proof.
  intros Hfuel Hh. revert served st Hfuel. induction fuel as [|fuel IH]; [lia|].
  intros served [st [r w]] Hfuel. cbn [fst snd] in Hfuel.
  cbn [serve_loop]. unfold mbind, eff_bind, on_snd, on_fst.
  pose proof (read_frame_fuel r) as Hrf.
  destruct (read_frame r) as [[[frame|]|e| |] r'] eqn:Hrd; try done.
  pose proof (Hh frame st) as Hhf.
  destruct (handle_frame fsys clock frame st) as [[reply|e| |] st1]; try done.
  pose proof (write_frame_fuel reply w) as Hwf.
  destruct (write_frame reply w) as [[[]|e| |] w1]; try done.
  apply IH. cbn [fst snd]. apply read_frame_Ok in Hrd as ([Hsz _] & Heq & _).
  rewrite Heq, length_app in Hfuel. unfold blen in Hsz. lia.
Qed.

(** ** Properties *)

(** Frames over a stream: a frame that [write_frame] accepts is written as it is,
    and [read_frame] on a stream that continues with it returns exactly that frame
    and leaves the rest; frames that encode messages of at most 64 KiB are accepted.
    Conversely a frame that [read_frame] returns is the front of the stream, between
    7 bytes and 64 KiB long, and announces its own length. *)
Theorem frame_stream_roundtrip :
  (∀ frame w rest e, framed frame → wr_room w = None →
     write_frame frame w = (Ok tt, mkWriter (wr_bytes w ++ frame) None) ∧
     read_frame (mkReader (frame ++ rest) e) = (Ok (Some frame), mkReader rest e)) ∧
  (∀ frame w w', write_frame frame w = (Ok tt, w') → framed frame) ∧
  (∀ tag r frame, encode_request tag r = Ok frame → blen frame ≤ MAX_STREAM_FRAME_SIZE →
     framed frame) ∧
  (∀ r frame r', read_frame r = (Ok (Some frame), r') →
     framed frame ∧ rd_bytes r = frame ++ rd_bytes r').
Proof.
  split_and!.
  - intros frame w rest e Hf Hw. split; [by apply write_frame_framed|by apply read_frame_framed].
  - intros frame w w'. unfold write_frame. intros Hrun.
    apply eff_bind_inv in Hrun as (size & w1 & Hs & Hrun).
    apply eff_bind_inv in Hrun as ([] & w2 & Hv & Hrun).
    apply eff_bind_inv in Hrun as ([] & w3 & Hg & _). unfold lift in *.
    rewrite validate_frame_size_Ok in Hv. case_decide as Hsz; [|done].
    destruct (size =? blen frame) eqn:He; [|done]. bool_to_prop. subst size.
    injection Hs as Hs _. rewrite encoded_frame_size_eq in Hs by lia. injection Hs as Hs.
    by split.
  - intros tag r frame He Hmax. unfold encode_request in He.
    destruct (encode_request_body r) as [[typ body]| | |]; [|done..].
    by eapply encode_frame_framed.
  - intros r frame r' Hr. apply read_frame_Ok in Hr as (? & ? & _). by split.
Qed.

(** Serving a stream: on a stream made of frames the server answers, with replies
    that fit, [serve_frame_stream] writes the replies in order, reports how many
    frames it served, and stops at the end of the stream with the server in the
    state after the last of them; and on any stream it comes to an end. *)
Theorem serve_stream_spec {W H} `{!FileHandle W H} (fsys : FileSystem W H) clock :
  (∀ frames replies st st' w,
     Forall framed frames → Forall framed replies →
     answers fsys clock frames st replies st' → wr_room w = None →
     serve_frame_stream fsys clock (st, (mkReader (concat frames) None, w)) =
       (Ok (Z.of_nat (length frames)),
        (st', (mkReader [] None, mkWriter (wr_bytes w ++ concat replies) None)))) ∧
  ((∀ frame st, (handle_frame fsys clock frame st).1 ≠ NoFuel) →
   ∀ st, (serve_frame_stream fsys clock st).1 ≠ NoFuel).
Proof.
  split.
  - intros frames replies st st' w Hf Hr Ha Hw. unfold serve_frame_stream.
    rewrite (serve_loop_frames fsys clock frames replies st st'); try done.
    cbn [fst snd rd_bytes]. clear -Hf. induction Hf as [|frame frames [Hs _] Hf IH]; cbn; [lia|].
    rewrite length_app. unfold blen in Hs. lia.
  - intros Hh st. unfold serve_frame_stream. apply serve_loop_ends; [lia|done].
Qed.

Lemma frame_stream_roundtrip_witness :
  read_frame (mkReader (clunk_frame ++ [x00]) None) = (Ok (Some clunk_frame), mkReader [x00] None) ∧
  framed clunk_frame.
Proof.
  assert (framed clunk_frame) as Hf
    by (apply (proj1 (proj2 (proj2 frame_stream_roundtrip)) 1 (TClunk 5)); vm_compute; [reflexivity|discriminate]).
  split; [|exact Hf].
  apply (proj1 frame_stream_roundtrip clunk_frame (mkWriter [] None) [x00] None Hf eq_refl).
Defined.

Lemma serve_stream_spec_witness :
  serve_frame_stream static_fs static_clock
    (static_state, (mkReader (clunk_frame ++ clunk_frame ++ []) None, mkWriter [] None)) =
  (Ok 2, (static_state,
     (mkReader [] None, mkWriter (unknown_fid_frame ++ unknown_fid_frame ++ []) None))).
Proof.
  assert (framed clunk_frame) as Hf by (split; [split|]; vm_compute; try discriminate; reflexivity).
  assert (framed unknown_fid_frame) as Hr by (split; [split|]; vm_compute; try discriminate; reflexivity).
  apply (proj1 (serve_stream_spec static_fs static_clock) [clunk_frame; clunk_frame]
    [unknown_fid_frame; unknown_fid_frame] static_state static_state (mkWriter [] None)).
  - repeat constructor; apply Hf.
  - repeat constructor; apply Hr.
  - exists static_state. split; [vm_compute; reflexivity|].
    exists static_state. split; [vm_compute; reflexivity|reflexivity].
  - reflexivity.
Defined.
