(* ===== verification/P9Async.v ===== *)
(** * The asynchronous 9P server

    Models [AsyncNinePServer] of [crates/star9-protocol/src/p9.rs] as a transition
    system: the pending table, the response queue, and one thread per request.  A
    thread calls the synchronous server, then takes the pending lock to decide
    whether its response is still wanted, then takes the queue lock to push it; each
    of these is a step, and steps of threads and calls interleave freely.  A thread's
    [Arc<AtomicBool>] is its identity: [as_cancelled] holds the threads whose flag
    is set.  A call of the synchronous server is one step. *)

From stdpp Require Import base list numbers option strings sorting gmap relations.
From Stdlib Require Import ZArith Lia Ascii.
From S2P Require Import Prelude Strs BTree Core FsTrait P9Codec P9CodecFacts P9Server P9ServerProps P9Stream.

Local Open Scope Z_scope.

(** ** State *)

Inductive Phase :=
| Started                           (* has not called the server yet *)
| Replied (response : list byte)    (* has its response, has not looked at the table *)
| Sending (response : list byte)    (* removed its entry, will push the response *)
| Sent                              (* pushed it *)
| Dropped                           (* found that it was cancelled *)
| Panicked.                         (* the server call panicked *)

Record Thread := mkThread { th_tag : Z; th_frame : list byte; th_phase : Phase }.

Record AsyncState (S : Type) := mkAsync {
  as_server : S;
  as_pending : gmap Z nat;
  as_cancelled : gset nat;
  as_threads : gmap nat Thread;
  as_responses : list (list byte);
  as_next : nat
}.
Arguments mkAsync {S}.
Arguments as_server {S}. Arguments as_pending {S}. Arguments as_cancelled {S}.
Arguments as_threads {S}. Arguments as_responses {S}. Arguments as_next {S}.

(** [AsyncNinePServer::from_server] *)
Definition async_new {S} (server : S) : AsyncState S := mkAsync server ∅ ∅ ∅ [] 0.

(** ** Calls *)

Section Calls.
Context {S : Type}.
Implicit Types s : AsyncState S.

Definition set_phase (id : nat) (th : Thread) (phase : Phase) s : AsyncState S :=
  mkAsync (as_server s) (as_pending s) (as_cancelled s)
    (<[id := mkThread (th_tag th) (th_frame th) phase]> (as_threads s))
    (as_responses s) (as_next s).

Definition async_cancel (tag : Z) : M (AsyncState S) bool := λ s,
  match as_pending s !! tag with
  | Some id =>
      (Ok true, mkAsync (as_server s) (delete tag (as_pending s)) ({[id]} ∪ as_cancelled s)
                  (as_threads s) (as_responses s) (as_next s))
  | None => (Ok false, s)
  end.

Definition spawn (tag : Z) (frame : list byte) : M (AsyncState S) unit := λ s,
  (Ok tt, mkAsync (as_server s) (<[tag := as_next s]> (as_pending s)) (as_cancelled s)
            (<[as_next s := mkThread tag frame Started]> (as_threads s))
            (as_responses s) (1 + as_next s)%nat).

(** [AsyncNinePServer::handle_frame]: the response when it is given at once *)
Definition async_handle_frame (frame : list byte) : M (AsyncState S) (option (list byte)) :=
  '(tag, request) ← lift (decode_request frame);
  match request with
  | TFlush oldtag =>
      async_cancel oldtag ;;
      r ← lift (encode_response tag RFlush); mret (Some r)
  | _ =>
      existing ← async_cancel tag;
      if existing : bool then
        r ← lift (encode_response tag (RLerror (errno_for_error (EKind Invalid))));
        mret (Some r)
      else spawn tag frame ;; mret None
  end.

Definition next_response : M (AsyncState S) (option (list byte)) := λ s,
  match as_responses s with
  | [] => (Ok None, s)
  | r :: rs =>
      (Ok (Some r), mkAsync (as_server s) (as_pending s) (as_cancelled s) (as_threads s) rs
                      (as_next s))
  end.

(** ** Steps of a thread *)

(** The call of the server in the thread's closure *)
Definition thread_run (handle : list byte → M S (list byte)) (id : nat) s
    : option (AsyncState S) :=
  match as_threads s !! id with
  | Some th =>
      match th_phase th with
      | Started =>
          let '(r, server) := handle (th_frame th) (as_server s) in
          let s := mkAsync server (as_pending s) (as_cancelled s) (as_threads s)
                     (as_responses s) (as_next s) in
          Some (match r with
                | Ok response => set_phase id th (Replied response) s
                | Err _ =>
                    match encode_response (th_tag th) (RLerror EIO) with
                    | Ok response => set_phase id th (Replied response) s
                    | _ => set_phase id th Panicked s
                    end
                | _ => set_phase id th Panicked s
                end)
      | _ => None
      end
  | None => None
  end.

(** [should_send] *)
Definition thread_check (id : nat) s : option (AsyncState S) :=
  match as_threads s !! id with
  | Some th =>
      match th_phase th with
      | Replied response =>
          let wanted :=
            match as_pending s !! th_tag th with
            | Some id' => bool_decide (id' = id) && negb (bool_decide (id ∈ as_cancelled s))
            | None => false
            end in
          if wanted : bool then
            Some (set_phase id th (Sending response)
              (mkAsync (as_server s) (delete (th_tag th) (as_pending s)) (as_cancelled s)
                 (as_threads s) (as_responses s) (as_next s)))
          else Some (set_phase id th Dropped s)
      | _ => None
      end
  | None => None
  end.

Definition thread_push (id : nat) s : option (AsyncState S) :=
  match as_threads s !! id with
  | Some th =>
      match th_phase th with
      | Sending response =>
          Some (set_phase id th Sent
            (mkAsync (as_server s) (as_pending s) (as_cancelled s) (as_threads s)
               (as_responses s ++ [response]) (as_next s)))
      | _ => None
      end
  | None => None
  end.

(** [pending_tags] *)
Definition pending_tags s : list Z :=
  merge_sort Z.le (elements (dom (as_pending s))).

(** ** The transition system *)

Inductive Event :=
| ECall (frame : list byte) (result : Result (option (list byte)))
| ECancel (tag : Z) (result : bool)
| ENext (result : option (list byte))
| ERun (id : nat)
| ECheck (id : nat)
| EPush (id : nat).

Inductive async_step (handle : list byte → M S (list byte))
    : AsyncState S → Event → AsyncState S → Prop :=
| step_call s frame r s' :
    async_handle_frame frame s = (r, s') → async_step handle s (ECall frame r) s'
| step_cancel s tag b s' :
    async_cancel tag s = (Ok b, s') → async_step handle s (ECancel tag b) s'
| step_next s r s' :
    next_response s = (Ok r, s') → async_step handle s (ENext r) s'
| step_run s id s' :
    thread_run handle id s = Some s' → async_step handle s (ERun id) s'
| step_check s id s' :
    thread_check id s = Some s' → async_step handle s (ECheck id) s'
| step_push s id s' :
    thread_push id s = Some s' → async_step handle s (EPush id) s'.

Inductive async_run (handle : list byte → M S (list byte))
    : AsyncState S → list Event → AsyncState S → Prop :=
| run_nil s : async_run handle s [] s
| run_cons s e s1 es s2 :
    async_step handle s e s1 → async_run handle s1 es s2 →
    async_run handle s (e :: es) s2.

(** ** The invariant *)

(** A thread that has not yet looked at the pending table. *)
Definition undecided (th : Thread) : Prop :=
  match th_phase th with Started | Replied _ | Panicked => True | _ => False end.

(** A thread whose response goes or went to the queue. *)
Definition answering (th : Thread) : Prop :=
  match th_phase th with Sending _ | Sent => True | _ => False end.

Record async_inv s : Prop := {
  (* the table holds exactly the undecided threads that are not cancelled *)
  inv_pending tag id : as_pending s !! tag = Some id ↔
    ∃ th, as_threads s !! id = Some th ∧ th_tag th = tag ∧ undecided th ∧
      id ∉ as_cancelled s;
  (* a thread that answers was not cancelled, one that gave up was *)
  inv_answering id th : as_threads s !! id = Some th → answering th → id ∉ as_cancelled s;
  inv_dropped id th : as_threads s !! id = Some th → th_phase th = Dropped →
    id ∈ as_cancelled s;
  inv_fresh id th : as_threads s !! id = Some th → (id < as_next s)%nat;
  inv_cancelled id : id ∈ as_cancelled s → (id < as_next s)%nat
}.
End Calls.

(** A session on [static_fs] for the witnesses: a clunk under tag 1, and its flush. *)
Definition static_handle : list byte → M (ServerState DirFile * unit) (list byte) :=
  handle_frame static_fs static_clock.

Definition flush_frame : list byte :=
  match encode_request 2 (TFlush 1) with Ok frame => frame | _ => [] end.

Definition one_pending : AsyncState (ServerState DirFile * unit) :=
  mkAsync static_state {[1 := 0%nat]} ∅ {[0%nat := mkThread 1 clunk_frame Started]} [] 1.

Definition one_sending : AsyncState (ServerState DirFile * unit) :=
  mkAsync static_state ∅ ∅ {[0%nat := mkThread 1 clunk_frame (Sending unknown_fid_frame)]} [] 1.

Section Invariant.
Context {S : Type}.
Implicit Types s : AsyncState S.

Lemma async_inv_new (server : S) : async_inv (async_new server).
Proof.
  split; cbn; try done.
  intros tag id. rewrite lookup_empty. split; [done|]. intros (th & Hth & _).
  by rewrite lookup_empty in Hth.
Qed.

(** Cancelling a tag takes its thread out of the table and marks it. *)
Lemma async_cancel_inv tag s b s' : async_inv s → async_cancel tag s = (Ok b, s') →
  async_inv s' ∧
  match as_pending s !! tag with
  | Some id => b = true ∧ as_cancelled s' = {[id]} ∪ as_cancelled s ∧
      as_pending s' = delete tag (as_pending s)
  | None => b = false ∧ s' = s
  end ∧
  as_threads s' = as_threads s ∧ as_responses s' = as_responses s ∧
  as_server s' = as_server s ∧ as_next s' = as_next s.
Proof.
  intros Hi. unfold async_cancel. destruct (as_pending s !! tag) as [id|] eqn:Hp;
    intros [= <- <-]; [|by auto].
  split; [|by auto]. destruct Hi as [Hpend Hans Hdrop Hfresh Hcan].
  pose proof Hp as (th & Hth & Htag & Hund & Hnc)%Hpend.
  split; cbn.
  - intros tag' id'. rewrite lookup_delete_Some, Hpend.
    setoid_rewrite not_elem_of_union. setoid_rewrite not_elem_of_singleton.
    split.
    + intros (Hne & th' & Hth' & Htag' & Hund' & Hnc'). exists th'. split_and!; try done.
      intros ->. simplify_eq.
    + intros (th' & Hth' & Htag' & Hund' & Hne & Hnc'). split; [|by eauto].
      intros ->. assert (as_pending s !! tag' = Some id') as Hp' by (apply Hpend; eauto).
      by simplify_eq.
  - intros id' th' Hth' Hans'. rewrite not_elem_of_union, not_elem_of_singleton.
    split; [|by eauto]. intros ->. simplify_eq. unfold undecided, answering in *.
    by destruct (th_phase th).
  - intros id' th' Hth' Hd. apply elem_of_union_r. eauto.
  - done.
  - intros id' [->%elem_of_singleton|?]%elem_of_union; eauto.
Qed.

Lemma spawn_inv tag frame s s' : async_inv s → as_pending s !! tag = None →
  spawn tag frame s = (Ok tt, s') → async_inv s'.
Proof.
  intros [Hpend Hans Hdrop Hfresh Hcan] Hp [= <-].
  assert (as_threads s !! as_next s = None) as Hnew.
  { apply eq_None_not_Some. intros [th Hth]. apply Hfresh in Hth. lia. }
  assert (as_next s ∉ as_cancelled s) as Hnc by (intros Hc%Hcan; lia).
  split; cbn.
  - intros tag' id'. rewrite lookup_insert_Some, Hpend. split.
    + intros [[<- <-]|(Hne & th & Hth & Htag & Hund & Hnc')].
      * eexists. rewrite lookup_insert_eq. by split_and!.
      * exists th. rewrite lookup_insert_ne by congruence. by split_and!.
    + intros (th & Hth & Htag & Hund & Hnc').
      apply lookup_insert_Some in Hth as [[<- <-]|[Hne Hth]]; [by left|right].
      split; [|by eauto]. intros ->.
      assert (as_pending s !! tag' = Some id') by (apply Hpend; eauto). congruence.
  - intros id' th [[<- <-]|[Hne Hth]]%lookup_insert_Some; [done|eauto].
  - intros id' th [[<- <-]|[Hne Hth]]%lookup_insert_Some; [done|eauto].
  - intros id' th [[<- <-]|[Hne Hth]]%lookup_insert_Some; [lia|]. apply Hfresh in Hth. lia.
  - intros id' Hc%Hcan. lia.
Qed.

(** Moving an undecided thread on without touching the table. *)
Lemma set_phase_undecided id th phase s :
  async_inv s → as_threads s !! id = Some th → undecided th →
  undecided (mkThread (th_tag th) (th_frame th) phase) →
  async_inv (set_phase id th phase s).
Proof.
  intros [Hpend Hans Hdrop Hfresh Hcan] Hth Hu Hu'. split; cbn.
  - intros tag id'. rewrite Hpend. destruct (decide (id' = id)) as [->|Hne].
    + rewrite lookup_insert_eq. split.
      * intros (th' & ? & ? & ? & ?). simplify_eq. eexists. by split_and!.
      * intros (th' & [= <-] & Htag & _ & Hnc). exists th. by split_and!.
    + by rewrite lookup_insert_ne.
  - intros id' th' [[<- <-]|[Hne Hth']]%lookup_insert_Some; [|by eauto].
    unfold undecided, answering in *. cbn in *. by destruct phase.
  - intros id' th' [[<- <-]|[Hne Hth']]%lookup_insert_Some; [|by eauto].
    cbn. intros ->. done.
  - intros id' th' [[<- <-]|[Hne Hth']]%lookup_insert_Some; eauto.
  - done.
Qed.

Lemma thread_run_inv handle id s s' : async_inv s → thread_run handle id s = Some s' →
  async_inv s'.
Proof.
  intros Hi. unfold thread_run. destruct (as_threads s !! id) as [th|] eqn:Hth; [|done].
  destruct (th_phase th) eqn:Hph; try done.
  destruct (handle (th_frame th) (as_server s)) as [r server].
  set (s1 := mkAsync server _ _ _ _ _).
  assert (async_inv s1) as Hi1 by (destruct Hi; by split).
  assert (undecided th) as Hu by (unfold undecided; by rewrite Hph).
  intros [= <-].
  repeat case_match; by apply set_phase_undecided.
Qed.

Lemma thread_check_inv id s s' : async_inv s → thread_check id s = Some s' → async_inv s'.
Proof.
  intros Hi. unfold thread_check. destruct (as_threads s !! id) as [th|] eqn:Hth; [|done].
  destruct (th_phase th) as [|response| | | |] eqn:Hph; try done.
  destruct Hi as [Hpend Hans Hdrop Hfresh Hcan].
  assert (undecided th) as Hu by (unfold undecided; by rewrite Hph).
  destruct (match as_pending s !! th_tag th with Some _ => _ | None => _ end) eqn:Hw;
    intros [= <-].
  - destruct (as_pending s !! th_tag th) as [id'|] eqn:Hp; [|done]. bool_to_prop. subst id'.
    split; cbn.
    + intros tag id'. rewrite lookup_delete_Some, Hpend. split.
      * intros (Hne & th' & Hth' & Htag' & Hu' & Hnc'). exists th'.
        rewrite lookup_insert_ne; [done|]. intros <-. by simplify_eq.
      * intros (th' & Hth' & Htag' & Hu' & Hnc').
        apply lookup_insert_Some in Hth' as [[<- <-]|[Hne Hth']]; [done|].
        split; [|by eauto]. intros <-.
        assert (as_pending s !! th_tag th = Some id') by (apply Hpend; eauto).
        by simplify_eq.
    + intros id' th' [[<- <-]|[Hne Hth']]%lookup_insert_Some; by eauto.
    + intros id' th' [[<- <-]|[Hne Hth']]%lookup_insert_Some; by eauto.
    + intros id' th' [[<- <-]|[Hne Hth']]%lookup_insert_Some; by eauto.
    + done.
  - assert (id ∈ as_cancelled s) as Hc.
    { destruct (decide (id ∈ as_cancelled s)) as [?|Hnc]; [done|].
      assert (as_pending s !! th_tag th = Some id) as Hp by (apply Hpend; eauto).
      rewrite Hp in Hw. rewrite bool_decide_eq_true_2 in Hw by done.
      by rewrite bool_decide_eq_false_2 in Hw. }
    split; cbn.
    + intros tag id'. rewrite Hpend. destruct (decide (id' = id)) as [->|Hne].
      * split; [by intros (?&?&?&?&?)|]. by intros (?&?&?&?&?).
      * by rewrite lookup_insert_ne.
    + intros id' th' [[<- <-]|[Hne Hth']]%lookup_insert_Some; by eauto.
    + intros id' th' [[<- <-]|[Hne Hth']]%lookup_insert_Some; by eauto.
    + intros id' th' [[<- <-]|[Hne Hth']]%lookup_insert_Some; by eauto.
    + done.
Qed.

Lemma thread_push_inv id s s' : async_inv s → thread_push id s = Some s' → async_inv s'.
Proof.
  intros Hi. unfold thread_push. destruct (as_threads s !! id) as [th|] eqn:Hth; [|done].
  destruct (th_phase th) as [| |response| | |] eqn:Hph; try done. intros [= <-].
  destruct Hi as [Hpend Hans Hdrop Hfresh Hcan].
  assert (answering th) as Ha by (unfold answering; by rewrite Hph).
  split; cbn.
  - intros tag id'. rewrite Hpend. destruct (decide (id' = id)) as [->|Hne].
    + rewrite lookup_insert_eq. split.
      * intros (th' & ? & ? & Hu & ?). simplify_eq. unfold undecided in Hu. by rewrite Hph in Hu.
      * by intros (th' & [= <-] & _ & [] & _).
    + by rewrite lookup_insert_ne.
  - intros id' th' [[<- <-]|[Hne Hth']]%lookup_insert_Some; by eauto.
  - intros id' th' [[<- <-]|[Hne Hth']]%lookup_insert_Some; by eauto.
  - intros id' th' [[<- <-]|[Hne Hth']]%lookup_insert_Some; by eauto.
  - done.
Qed.
End Invariant.

Section Runs.
Context {S : Type} (handle : list byte → M S (list byte)).
Implicit Types s : AsyncState S.

Lemma encode_lerror tag ecode : ∃ reply, encode_response tag (RLerror ecode) = Ok reply.
Proof. by eexists. Qed.

Lemma encode_flush tag : ∃ reply, encode_response tag RFlush = Ok reply.
Proof. by eexists. Qed.

(** What a call of [handle_frame] does. *)
Lemma async_handle_frame_spec frame s r s' : async_handle_frame frame s = (r, s') →
  (s' = s ∧ ¬ ∃ x, decode_request frame = Ok x) ∨
  ∃ tag request, decode_request frame = Ok (tag, request) ∧
    ((∃ oldtag b, request = TFlush oldtag ∧ async_cancel oldtag s = (Ok b, s') ∧
        ∃ reply, encode_response tag RFlush = Ok reply ∧ r = Ok (Some reply)) ∨
     ((∀ oldtag, request ≠ TFlush oldtag) ∧
       (async_cancel tag s = (Ok true, s') ∧
          (∃ reply, encode_response tag (RLerror EINVAL) = Ok reply ∧ r = Ok (Some reply)) ∨
        async_cancel tag s = (Ok false, s) ∧ as_pending s !! tag = None ∧
          spawn tag frame s = (Ok tt, s') ∧ r = Ok None))).
Proof.
  unfold async_handle_frame, lift, mbind at 1, eff_bind at 1.
  destruct (decode_request frame) as [[tag request]|e| |] eqn:Hd; intros Hrun.
  2-4: left; simplify_eq; split; [done|by intros [? ?]].
  right. exists tag, request. split; [done|].
  assert (∀ req : NinePRequest, (∀ oldtag, req ≠ TFlush oldtag) ∨ ∃ oldtag, req = TFlush oldtag)
    as Hcase by (intros []; eauto).
  destruct (Hcase request) as [Hne|[oldtag ->]].
  - right. split; [done|].
    assert ((existing ← async_cancel tag;
      if existing : bool then
        r ← lift (encode_response tag (RLerror (errno_for_error (EKind Invalid))));
        mret (Some r)
      else spawn tag frame ;; mret None) s = (r, s')) as Hrun'.
    { destruct request; try exact Hrun. by destruct (Hne oldtag). }
    clear Hrun. unfold async_cancel, mbind, eff_bind in *.
    destruct (as_pending s !! tag) as [id|] eqn:Hp.
    + left. destruct (encode_lerror tag EINVAL) as [reply He]. unfold lift in Hrun'.
      change (errno_for_error (EKind Invalid)) with EINVAL in Hrun'. cbv iota beta in Hrun'.
      rewrite He in Hrun'. injection Hrun' as <- <-. eauto.
    + right. injection Hrun' as <- <-. by split_and!.
  - left. exists oldtag. unfold async_cancel, mbind, eff_bind in *.
    destruct (encode_flush tag) as [reply He]. unfold lift in Hrun. rewrite He in Hrun.
    destruct (as_pending s !! oldtag) as [id|]; cbv iota beta in Hrun;
      injection Hrun as <- <-; eauto 10.
Qed.

Lemma async_step_inv s e s' : async_inv s → async_step handle s e s' → async_inv s'.
Proof.
  intros Hi Hstep. destruct Hstep as [s frame r s' Hc|s tag b s' Hc|s r s' Hn|s id s' Hr
    |s id s' Hr|s id s' Hr].
  - apply async_handle_frame_spec in Hc as [[-> _]|(tag & req & _ & [(o & b & _ & Hc & _)
      |(_ & [[Hc _]|(_ & Hp & Hs & _)])])]; [done|..].
    + by apply (async_cancel_inv o s b s').
    + by apply (async_cancel_inv tag s true s').
    + by apply (spawn_inv tag frame s s').
  - by apply (async_cancel_inv tag s b s').
  - unfold next_response in Hn. destruct (as_responses s); simplify_eq; [done|].
    destruct Hi. by split.
  - by eapply thread_run_inv.
  - by eapply thread_check_inv.
  - by eapply thread_push_inv.
Qed.

(** A set flag stays set, a decided thread stays decided. *)
Definition decided s (id : nat) : Prop :=
  ∃ th, as_threads s !! id = Some th ∧ match th_phase th with Sent | Dropped => True | _ => False end.

Lemma async_cancel_mono tag s b s' : async_cancel tag s = (Ok b, s') →
  as_cancelled s ⊆ as_cancelled s' ∧ as_threads s' = as_threads s.
Proof.
  unfold async_cancel. destruct (as_pending s !! tag); intros [= _ <-]; cbn; [|done].
  split; [apply union_subseteq_r|done].
Qed.

Lemma async_step_mono s e s' : async_inv s → async_step handle s e s' →
  as_cancelled s ⊆ as_cancelled s' ∧ ∀ id, decided s id → decided s' id.
Proof.
  intros Hi Hstep. destruct Hstep as [s frame r s' Hc|s tag b s' Hc|s r s' Hn|s id s' Hr
    |s id s' Hr|s id s' Hr].
  - unfold decided.
    apply async_handle_frame_spec in Hc as [[-> _]|(tag & req & _ & [(o & b & _ & Hc & _)
      |(_ & [[Hc _]|(_ & Hp & Hs & _)])])]; [done|..].
    + by apply async_cancel_mono in Hc as [? ->].
    + by apply async_cancel_mono in Hc as [? ->].
    + injection Hs as <-. cbn. split; [done|]. intros id (th & Hth & Hd). exists th.
      rewrite lookup_insert_ne; [done|]. intros <-. apply (inv_fresh _ Hi) in Hth. lia.
  - unfold decided. by apply async_cancel_mono in Hc as [? ->].
  - unfold next_response in Hn. unfold decided. by destruct (as_responses s); simplify_eq.
  - unfold thread_run in Hr. destruct (as_threads s !! id) as [th|] eqn:Hth; [|done].
    destruct (th_phase th) eqn:Hph; try done.
    destruct (handle _ _) as [r server]. injection Hr as <-. unfold decided.
    assert (∀ id0 th', decided s id0 →
      ∃ th0, <[id:=th']> (as_threads s) !! id0 = Some th0 ∧
        match th_phase th0 with Sent | Dropped => True | _ => False end) as Hkeep.
    { intros id0 th' (th0 & Hth0 & Hd). exists th0. rewrite lookup_insert_ne; [done|].
      intros ->. simplify_eq. by rewrite Hph in Hd. }
    repeat case_match; cbn; (split; [done|]); intros id0 Hd; by apply Hkeep.
  - unfold thread_check in Hr. destruct (as_threads s !! id) as [th|] eqn:Hth; [|done].
    destruct (th_phase th) eqn:Hph; try done. unfold decided.
    destruct (match as_pending s !! th_tag th with Some _ => _ | None => _ end);
      injection Hr as <-; cbn; (split; [done|]); intros id0 (th0 & Hth0 & Hd); exists th0;
      (rewrite lookup_insert_ne; [done|]); intros ->; simplify_eq; by rewrite Hph in Hd.
  - unfold thread_push in Hr. destruct (as_threads s !! id) as [th|] eqn:Hth; [|done].
    destruct (th_phase th) eqn:Hph; try done. unfold decided.
    injection Hr as <-; cbn; (split; [done|]); intros id0 (th0 & Hth0 & Hd); exists th0;
      (rewrite lookup_insert_ne; [done|]); intros ->; simplify_eq; by rewrite Hph in Hd.
Qed.

Lemma async_run_inv s es s' : async_inv s → async_run handle s es s' → async_inv s'.
Proof. intros Hi Hr. induction Hr; [done|]. eauto using async_step_inv. Qed.

(** A push needs a thread that is sending, and decides it. *)
Lemma push_sending s id s' : async_step handle s (EPush id) s' →
  (∃ th r, as_threads s !! id = Some th ∧ th_phase th = Sending r) ∧ decided s' id.
Proof.
  inversion 1 as [| | | | |? ? ? Hp]; subst. unfold thread_push in Hp.
  destruct (as_threads s !! id) as [th|] eqn:Hth; [|done].
  destruct (th_phase th) eqn:Hph; try done. injection Hp as <-. split; [eauto|].
  eexists. cbn. rewrite lookup_insert_eq. by split.
Qed.

Lemma cancelled_no_push s es s' id : async_inv s → id ∈ as_cancelled s →
  async_run handle s es s' → EPush id ∉ es.
Proof.
  intros Hi Hc Hr. revert Hi Hc. induction Hr as [s|s e s1 es s2 Hstep Hr IH]; intros Hi Hc.
  { apply not_elem_of_nil. }
  apply not_elem_of_cons. destruct (async_step_mono _ _ _ Hi Hstep) as [Hmono _].
  split; [|apply IH; [by eapply async_step_inv|by apply Hmono]].
  intros <-. apply push_sending in Hstep as [(th & r & Hth & Hph) _].
  apply (inv_answering _ Hi id th Hth); [|done]. unfold answering. by rewrite Hph.
Qed.

Lemma decided_no_push s es s' id : async_inv s → decided s id →
  async_run handle s es s' → EPush id ∉ es.
Proof.
  intros Hi Hd Hr. revert Hi Hd. induction Hr as [s|s e s1 es s2 Hstep Hr IH]; intros Hi Hd.
  { apply not_elem_of_nil. }
  apply not_elem_of_cons. destruct (async_step_mono _ _ _ Hi Hstep) as [_ Hdec].
  split; [|apply IH; [by eapply async_step_inv|by apply Hdec]].
  intros <-. apply push_sending in Hstep as [(th & r & Hth & Hph) _].
  destruct Hd as (th' & Hth' & Hd). simplify_eq. by rewrite Hph in Hd.
Qed.
End Runs.

(** ** Properties *)

(** C6. Every request of the asynchronous server has exactly one fate.  In any state
    reached from a new server, by any interleaving of calls and thread steps, a
    thread is either waiting (and then it is the one its tag names in the pending
    table), or cancelled (and then it is in no entry of the table), or it answers
    (and then it was not cancelled); no two waiting threads have the same tag. *)
Theorem async_fates {S} (handle : list byte → M S (list byte)) (server : S) es s id th :
  async_run handle (async_new server) es s → as_threads s !! id = Some th →
  (as_pending s !! th_tag th = Some id ↔ undecided th ∧ id ∉ as_cancelled s) ∧
  (answering th → id ∉ as_cancelled s) ∧
  (th_phase th = Dropped → id ∈ as_cancelled s) ∧
  (∀ id' th', as_threads s !! id' = Some th' → th_tag th' = th_tag th →
     undecided th → undecided th' → id ∉ as_cancelled s → id' ∉ as_cancelled s → id' = id).
Proof.
  intros Hr Hth. pose proof (async_run_inv handle _ _ _ (async_inv_new server) Hr) as Hi.
  split; [|split; [by apply (inv_answering _ Hi)|split; [by apply (inv_dropped _ Hi)|]]].
  - rewrite (inv_pending _ Hi). split; [|by eauto]. intros (th' & Hth' & _ & ? & ?).
    by simplify_eq.
  - intros id' th' Hth' Htag Hu Hu' Hc Hc'.
    assert (as_pending s !! th_tag th = Some id) as Hp by (apply (inv_pending _ Hi); eauto).
    assert (as_pending s !! th_tag th = Some id') as Hp'
      by (apply (inv_pending _ Hi); by exists th').
    by simplify_eq.
Qed.

(** C5. Cancellation: flushing a pending tag is acknowledged at once with [Rflush],
    reusing a pending tag is refused with [EINVAL], both mark the thread that was
    pending, and from then on that thread never pushes a response, whatever
    happens next. *)
Theorem async_cancellation {S} (handle : list byte → M S (list byte)) (server : S) es s
    frame tag request old id :
  async_run handle (async_new server) es s →
  decode_request frame = Ok (tag, request) →
  old = match request with TFlush oldtag => oldtag | _ => tag end →
  as_pending s !! old = Some id →
  ∃ reply s', async_step handle s (ECall frame (Ok (Some reply))) s' ∧
    encode_response tag (match request with TFlush _ => RFlush | _ => RLerror EINVAL end)
      = Ok reply ∧
    as_pending s' !! old = None ∧
    ∀ es' s2, async_run handle s' es' s2 → EPush id ∉ es'.
Proof.
  intros Hr Hd Hold Hp.
  pose proof (async_run_inv handle _ _ _ (async_inv_new server) Hr) as Hi.
  destruct (async_handle_frame frame s) as [r s'] eqn:Hcall.
  assert (async_step handle s (ECall frame r) s') as Hstep by (by constructor).
  pose proof (async_step_inv handle _ _ _ Hi Hstep) as Hi'.
  assert (∀ b, async_cancel old s = (Ok b, s') →
    as_pending s' !! old = None ∧ id ∈ as_cancelled s') as Hcancel.
  { intros b Hc. apply (async_cancel_inv old s b s' Hi) in Hc as (_ & Hc & _).
    rewrite Hp in Hc. destruct Hc as (_ & -> & ->). split; [apply lookup_delete_eq|].
    set_solver. }
  apply async_handle_frame_spec in Hcall as [[_ Hno]|(tag' & request' & Hd' & Hcase)];
    [by destruct Hno; eauto|].
  rewrite Hd in Hd'. injection Hd' as <- <-.
  destruct Hcase as [(oldtag & b & -> & Hc & reply & He & ->)|(Hne & Hcase)].
  - subst old. destruct (Hcancel b Hc) as [Hnone Hin]. exists reply, s'.
    split; [done|]. split; [done|]. split; [done|]. intros es' s2. by apply cancelled_no_push.
  - assert (old = tag) as -> by (destruct request; try done; by destruct (Hne oldtag)).
    destruct Hcase as [[Hc (reply & He & ->)]|(_ & Hn & _)]; [|by rewrite Hp in Hn].
    destruct (Hcancel true Hc) as [Hnone Hin]. exists reply, s'. split; [done|].
    split; [by destruct request; try done; destruct (Hne oldtag)|]. split; [done|].
    intros es' s2. by apply cancelled_no_push.
Qed.

(** At most one response: in any run of a new server a thread pushes its response
    at most once. *)
Theorem async_answers_once {S} (handle : list byte → M S (list byte)) (server : S)
    es1 id es2 s :
  async_run handle (async_new server) (es1 ++ (EPush id :: es2)) s →
  (EPush id ∉ es1) ∧ (EPush id ∉ es2).
Proof.
  intros Hr.
  assert (∀ es1 s0, async_inv s0 → async_run handle s0 (es1 ++ (EPush id :: es2)) s →
    (EPush id ∉ es1) ∧ (EPush id ∉ es2)) as Hgen; [|by eapply Hgen; [apply async_inv_new|]].
  clear Hr es1. intros es1. induction es1 as [|e es1 IH]; intros s0 Hi Hr;
    inversion Hr as [|? ? s1 ? ? Hst Hrest]; subst.
  - split; [apply not_elem_of_nil|]. eapply decided_no_push; [| |done].
    + by eapply async_step_inv.
    + by eapply push_sending.
  - assert (async_inv s1) as Hi1 by (by eapply async_step_inv).
    destruct (IH s1 Hi1) as [H1 H2]; [done|].
    split; [|done]. apply not_elem_of_cons. split; [|done]. intros <-.
    assert (EPush id ∉ es1 ++ (EPush id :: es2)) as Hno.
    { eapply decided_no_push; [exact Hi1| |done]. by eapply push_sending. }
    apply Hno. set_solver.
Qed.

(** A pending request is answered: its thread can run its three steps, without
    waiting for any other, and they put the reply of the server at the end of the
    queue and free the tag. *)
Theorem async_answer_progress {S} (handle : list byte → M S (list byte)) (server : S) es s
    tag id th reply server' :
  async_run handle (async_new server) es s →
  as_pending s !! tag = Some id → as_threads s !! id = Some th → th_phase th = Started →
  handle (th_frame th) (as_server s) = (Ok reply, server') →
  ∃ s', async_run handle s [ERun id; ECheck id; EPush id] s' ∧
    as_responses s' = as_responses s ++ [reply] ∧ as_pending s' !! tag = None ∧
    as_server s' = server'.
Proof.
  intros Hr Hp Hth Hph Hh.
  pose proof (async_run_inv handle _ _ _ (async_inv_new server) Hr) as Hi.
  apply (inv_pending _ Hi) in Hp as Hp'. destruct Hp' as (th' & Hth' & Htag & _ & Hnc).
  simplify_eq.
  set (s1 := set_phase id th (Replied reply) (mkAsync server' (as_pending s) (as_cancelled s)
    (as_threads s) (as_responses s) (as_next s))).
  set (th1 := mkThread (th_tag th) (th_frame th) (Replied reply)).
  assert (as_threads s1 !! id = Some th1) as Hth1 by apply lookup_insert_eq.
  set (s2 := set_phase id th1 (Sending reply) (mkAsync server' (delete (th_tag th) (as_pending s))
    (as_cancelled s) (as_threads s1) (as_responses s) (as_next s))).
  set (th2 := mkThread (th_tag th) (th_frame th) (Sending reply)).
  assert (as_threads s2 !! id = Some th2) as Hth2 by apply lookup_insert_eq.
  eexists. split; [|split; [|split]].
  - apply (run_cons _ _ _ s1).
    { constructor. unfold thread_run. by rewrite Hth, Hph, Hh. }
    apply (run_cons _ _ _ s2).
    { constructor. unfold thread_check. rewrite Hth1. cbn. rewrite Hp.
      rewrite bool_decide_eq_true_2, bool_decide_eq_false_2 by done. done. }
    eapply run_cons; [|apply run_nil]. constructor. unfold thread_push. by rewrite Hth2.
  - done.
  - apply lookup_delete_eq.
  - done.
Qed.

(** The states of the session. *)
Lemma run_one_pending :
  async_run static_handle (async_new static_state) [ECall clunk_frame (Ok None)] one_pending.
Proof.
  eapply run_cons; [|apply run_nil]. constructor. vm_compute. reflexivity.
Qed.

Lemma run_one_sending :
  async_run static_handle (async_new static_state)
    [ECall clunk_frame (Ok None); ERun 0; ECheck 0] one_sending.
Proof.
  apply (run_cons _ _ _ one_pending); [constructor; vm_compute; reflexivity|].
  eapply run_cons; [constructor; vm_compute; reflexivity|].
  eapply run_cons; [constructor; vm_compute; reflexivity|]. apply run_nil.
Qed.

(** The window in which a flush comes too late: when the thread of a tag has
    already decided to send, flushing that tag is still acknowledged at once with
    [Rflush], and the response is pushed after that acknowledgement. *)
Theorem async_late_reply {S} (handle : list byte → M S (list byte)) (s : AsyncState S)
    id th response frame tag :
  as_threads s !! id = Some th → th_phase th = Sending response →
  decode_request frame = Ok (tag, TFlush (th_tag th)) →
  ∃ reply s', encode_response tag RFlush = Ok reply ∧
    async_run handle s [ECall frame (Ok (Some reply)); EPush id] s' ∧
    last (as_responses s') = Some response.
Proof.
  intros Hth Hph Hd. destruct (encode_flush tag) as [reply He].
  destruct (async_cancel (th_tag th) s) as [b s1] eqn:Hc.
  assert (∃ b', b = Ok b') as [b' ->].
  { unfold async_cancel in Hc. destruct (as_pending s !! th_tag th); simplify_eq; eauto. }
  destruct (async_cancel_mono _ _ _ _ Hc) as [_ Hths].
  exists reply. eexists. split; [done|]. split.
  - apply (run_cons _ _ _ s1).
    { constructor. unfold async_handle_frame, mbind, eff_bind, lift. by rewrite Hd, Hc, He. }
    eapply run_cons; [|apply run_nil]. constructor. unfold thread_push. by rewrite Hths, Hth, Hph.
  - cbn. by rewrite last_snoc.
Qed.

Lemma async_fates_witness :
  as_pending one_pending !! 1 = Some 0%nat ↔
    undecided (mkThread 1 clunk_frame Started) ∧ 0%nat ∉ as_cancelled one_pending.
Proof.
  apply (async_fates static_handle static_state _ one_pending 0
    (mkThread 1 clunk_frame Started) run_one_pending). reflexivity.
Defined.

Lemma async_cancellation_witness :
  ∃ reply s', async_step static_handle one_pending (ECall flush_frame (Ok (Some reply))) s' ∧
    encode_response 2 RFlush = Ok reply ∧ as_pending s' !! 1 = None ∧
    ∀ es' s2, async_run static_handle s' es' s2 → EPush 0 ∉ es'.
Proof.
  apply (async_cancellation static_handle static_state _ one_pending flush_frame 2 (TFlush 1) 1 0
    run_one_pending); [vm_compute; reflexivity|reflexivity|reflexivity].
Defined.

Lemma async_answers_once_witness :
  ∃ s, async_run static_handle (async_new static_state)
    ([ECall clunk_frame (Ok None); ERun 0; ECheck 0] ++ [EPush 0]) s ∧
  EPush 0 ∉ [ECall clunk_frame (Ok None); ERun 0; ECheck 0].
Proof.
  assert (∃ s, async_run static_handle (async_new static_state)
    ([ECall clunk_frame (Ok None); ERun 0; ECheck 0] ++ [EPush 0]) s) as [s Hr].
  { eexists. cbn [app]. apply (run_cons _ _ _ one_pending); [constructor; vm_compute; reflexivity|].
    eapply run_cons; [constructor; vm_compute; reflexivity|].
    eapply run_cons; [constructor; vm_compute; reflexivity|].
    eapply run_cons; [constructor; vm_compute; reflexivity|]. apply run_nil. }
  exists s. split; [exact Hr|].
  apply (async_answers_once static_handle static_state
    [ECall clunk_frame (Ok None); ERun 0; ECheck 0] 0 [] s Hr).
Defined.

Lemma async_answer_progress_witness :
  ∃ s', async_run static_handle one_pending [ERun 0; ECheck 0; EPush 0] s' ∧
    as_responses s' = [unknown_fid_frame] ∧ as_pending s' !! 1 = None ∧
    as_server s' = static_state.
Proof.
  apply (async_answer_progress static_handle static_state _ one_pending 1 0
    (mkThread 1 clunk_frame Started) unknown_fid_frame static_state run_one_pending);
    vm_compute; reflexivity.
Defined.

Lemma async_late_reply_witness :
  (∃ es, async_run static_handle (async_new static_state) es one_sending) ∧
  ∃ reply s', encode_response 2 RFlush = Ok reply ∧
    async_run static_handle one_sending [ECall flush_frame (Ok (Some reply)); EPush 0] s' ∧
    last (as_responses s') = Some unknown_fid_frame.
Proof.
  split; [eexists; exact run_one_sending|].
  apply (async_late_reply static_handle one_sending 0
    (mkThread 1 clunk_frame (Sending unknown_fid_frame)) unknown_fid_frame flush_frame 2);
    vm_compute; reflexivity.
Defined.
