(* ===== verification/P9Client.v ===== *)
(** * The 9P client

    Models [NinePClientFs] and [NinePFile] of [crates/star9-protocol/src/p9.rs]:
    the filesystem that turns each operation into 9P calls over a transport.

    The client is a computation over [Client * T]: its three atomics (the root fid is
    always 1) and the state [T] behind the transport, whose [round_trip] is a
    parameter; [loopback] is the transport of [LoopbackTransport].  A [NinePFile]
    that goes out of scope inside the client is dropped explicitly ([drop_file]). *)

From stdpp Require Import base list numbers option strings gmap.
From Stdlib Require Import ZArith Lia Ascii.
From S2P Require Import Prelude Strs BTree Core FsTrait P9Codec P9CodecFacts P9Server.

Local Open Scope Z_scope.

(** ** Client state *)

Record Client := mkClient { cl_msize : Z; cl_next_tag : Z; cl_next_fid : Z }.

Definition client_new : Client := mkClient DEFAULT_MSIZE 1 2.
Definition root_fid : Z := 1.

(** [fetch_add(1)] of the two counters, which wrap *)
Definition bump_tag (cl : Client) : Client :=
  mkClient (cl_msize cl) ((cl_next_tag cl + 1) mod 2 ^ 16) (cl_next_fid cl).
Definition bump_fid (cl : Client) : Client :=
  mkClient (cl_msize cl) (cl_next_tag cl) ((cl_next_fid cl + 1) mod 2 ^ 32).

Definition validated_client_path (op name : string) : Result string :=
  if is_empty_str name || starts_with_char "/" name
     || existsb (λ part, bool_decide (part = "..")) (split_on "/" name)
  then Err (EPath op name Invalid)
  else
    let path := clean_path name in
    if negb (valid_path path) then Err (EPath op path Invalid) else Ok path.

Definition metadata_from_attr (path : string) (attr : NinePAttr) : Result Metadata :=
  modified ← epoch_plus (at_mtime_seconds attr) (at_mtime_nanoseconds attr);
  Ok (mkMetadata (base_name path) (mode_from_unix (at_mode attr)) (at_size attr) modified
        (at_uid attr) (at_gid attr)).

(** An open remote file *)
Record NinePFile := mkNinePFile {
  nf_fid : Z;
  nf_path : string;
  nf_offset : Z;
  nf_closed : bool;
  nf_dir_cache : option (list DirEntry);
  nf_dir_offset : Z
}.

Definition nine_file_new (fid : Z) (path : string) : NinePFile :=
  mkNinePFile fid path 0 false None 0.

Definition set_offset (offset : Z) (f : NinePFile) : NinePFile :=
  mkNinePFile (nf_fid f) (nf_path f) offset (nf_closed f) (nf_dir_cache f) (nf_dir_offset f).

(** ** Calls *)

Section Client.
Context {T : Type} (round_trip : list byte → M T (list byte)).

Abbreviation CM A := (M (Client * T) A).

Definition alloc_tag : CM Z := λ '(cl, t),
  let tag := cl_next_tag cl in
  let cl := bump_tag cl in
  if tag =? NOTAG then (Ok (cl_next_tag cl), (bump_tag cl, t)) else (Ok tag, (cl, t)).

Definition alloc_fid : CM Z := λ '(cl, t), (Ok (cl_next_fid cl), (bump_fid cl, t)).

Definition call (request : NinePRequest) : CM NinePResponse :=
  tag ← alloc_tag;
  frame ← lift (encode_request tag request);
  response ← on_snd (round_trip frame);
  '(response_tag, response) ← lift (decode_response response);
  guard_err (negb (response_tag =? tag)) (EKind Invalid) ;;
  match response with
  | RLerror ecode => throw (errno_to_error ecode)
  | response => mret response
  end.

(** [let _ = m;] and [let r = m;] where [m] returns a [Result] *)
Definition ignore {A} (m : CM A) : CM unit := attempt m ;; mret tt.

(** [result.and(clunk)] *)
Definition result_and {A B} (r : Result A) (r' : Result B) : Result B :=
  match r with
  | Ok _ => r'
  | Err e => Err e
  | Panic => Panic
  | NoFuel => NoFuel
  end.

(** [match self.call(..)? { expected => Ok(v), _ => Err(Invalid) }] *)
Definition expect {A} (request : NinePRequest) (expected : NinePResponse → option A) : CM A :=
  response ← call request;
  ok_or (expected response) (EKind Invalid).

Definition is_clunk (r : NinePResponse) : option unit :=
  match r with RClunk => Some tt | _ => None end.

Definition clunk_fid (fid : Z) : CM unit := expect (TClunk fid) is_clunk.

Definition walk_fid (name : string) : CM Z :=
  name ← lift (validated_client_path "walk" name);
  fid ← alloc_fid;
  let names := if decide (name = ".") then [] else split_on "/" name in
  response ← call (TWalk root_fid fid names);
  match response with
  | RWalk qids =>
      if decide (length qids = length names) then mret fid
      else ignore (clunk_fid fid) ;; throw (EPath "walk" name NotFound)
  | _ => throw (EKind Invalid)
  end.

Definition is_getattr (r : NinePResponse) : option NinePAttr :=
  match r with RGetAttr attr => Some attr | _ => None end.

Definition getattr_fid (fid : Z) (path : string) : CM Metadata :=
  attr ← expect (TGetAttr fid ATTR_BASIC) is_getattr;
  lift (metadata_from_attr path attr).

(** A call on a walked fid, which is clunked whatever the outcome; the error of the
    call takes precedence. *)
Definition with_fid {A} (fid : Z) (m : CM A) : CM unit :=
  result ← attempt m;
  clunk ← attempt (clunk_fid fid);
  lift (result_and result clunk).

Definition with_fid_value {A} (fid : Z) (m : CM A) : CM A :=
  result ← attempt m;
  clunk ← attempt (clunk_fid fid);
  a ← lift result;
  lift clunk ;;
  mret a.

Definition is_lopen (r : NinePResponse) : option unit :=
  match r with RLopen _ _ => Some tt | _ => None end.

Definition open_existing (name : string) (flags : Z) : CM NinePFile :=
  path ← lift (validated_client_path "open" name);
  fid ← walk_fid path;
  r ← attempt (expect (TLopen fid flags) is_lopen);
  match r with
  | Ok _ => mret (nine_file_new fid path)
  | Err err => ignore (clunk_fid fid) ;; throw err
  | Panic => panic
  | NoFuel => no_fuel
  end.

Definition is_setattr (r : NinePResponse) : option unit :=
  match r with RSetAttr => Some tt | _ => None end.

Definition set_attr (path : string) (attr : SetAttr) : CM unit :=
  fid ← walk_fid path;
  with_fid fid (expect (TSetAttr fid attr) is_setattr).

Definition is_xattrwalk (r : NinePResponse) : option Z :=
  match r with RXattrWalk size => Some size | _ => None end.

Definition xattrwalk_fid (path attr : string) : CM (Z * Z) :=
  fid ← walk_fid path;
  newfid ← alloc_fid;
  result ← attempt (expect (TXattrWalk fid newfid attr) is_xattrwalk);
  clunk ← attempt (clunk_fid fid);
  match result, clunk with
  | Ok size, Ok _ => mret (newfid, size)
  | Err err, _ => ignore (clunk_fid newfid) ;; throw err
  | Ok _, Err err => ignore (clunk_fid newfid) ;; throw err
  | NoFuel, _ | _, NoFuel => no_fuel
  | _, _ => panic
  end.

Definition is_read (r : NinePResponse) : option (list byte) :=
  match r with RRead data => Some data | _ => None end.

Definition client_msize : CM Z := gets (λ '(cl, _), cl_msize cl).

(** The loop of [read_all_fid]: each turn reads at least one byte of the [size]. *)
Fixpoint read_all_loop (fuel : nat) (fid size count offset : Z) (data : list byte)
    : CM (list byte) :=
  if offset <? size then
    match fuel with
    | O => no_fuel
    | S fuel' =>
        let remaining := size - offset in
        chunk ← expect (TRead fid offset (Z.min count (Z.min remaining U32_MAX))) is_read;
        guard_err (bool_decide (chunk = [])) (EKind UnexpectedEof) ;;
        guard_err (U64_MAX <? offset + blen chunk) (EKind Invalid) ;;
        read_all_loop fuel' fid size count (offset + blen chunk) (data ++ chunk)
    end
  else mret data.

Definition read_all_fid (fid size : Z) : CM (list byte) :=
  msize ← client_msize;
  let count := Z.max (Z.max (msize - 11) 0) 1 in
  read_all_loop (Z.to_nat size) fid size count 0 [].

(** [data.chunks(n)] *)
Fixpoint chunks_fuel (fuel n : nat) (data : list byte) : list (list byte) :=
  match fuel, data with
  | S fuel', _ :: _ => take n data :: chunks_fuel fuel' n (drop n data)
  | _, _ => []
  end.

Definition chunks (n : nat) (data : list byte) : list (list byte) :=
  chunks_fuel (length data) n data.

Definition is_write_count (r : NinePResponse) : option Z :=
  match r with RWrite count => Some count | _ => None end.

Fixpoint write_all_loop (fid offset : Z) (cs : list (list byte)) : CM unit :=
  match cs with
  | [] => mret tt
  | chunk :: cs' =>
      count ← expect (TWrite fid offset chunk) is_write_count;
      guard_err (negb (count =? blen chunk)) (EKind UnexpectedEof) ;;
      guard_err (U64_MAX <? offset + blen chunk) (EKind Invalid) ;;
      write_all_loop fid (offset + blen chunk) cs'
  end.

Definition write_all_fid (fid : Z) (data : list byte) : CM unit :=
  msize ← client_msize;
  let count := Z.max (Z.max (msize - 23) 0) 1 in
  write_all_loop fid 0 (chunks (Z.to_nat count) data).

(** ** [NinePFile] *)

Abbreviation FM A := (M (NinePFile * (Client * T)) A).

Definition on_client {A} (m : CM A) : FM A := on_snd m.

Definition ensure_open : FM unit := λ '(f, c),
  if nf_closed f then (Err (EKind Closed), (f, c)) else (Ok tt, (f, c)).

Definition get_file : FM NinePFile := gets fst.
Definition put_file (f : NinePFile) : FM unit := λ '(_, c), (Ok tt, (f, c)).

(** [buf.len().try_into()] to a [u32] *)
Definition u32_len (len : Z) : Result Z :=
  if len <=? U32_MAX then Ok len else Err (EKind Invalid).

(** [buf[..n].copy_from_slice(&data)] panics when the server sent more than asked. *)
Definition fill_buf (len : Z) (data : list byte) : Result unit :=
  if blen data <=? len then Ok tt else Panic.

(** [self.offset += n], trapping on overflow *)
Definition advance (n : Z) : FM unit :=
  f ← get_file;
  if U64_MAX <? nf_offset f + n then panic else put_file (set_offset (nf_offset f + n) f).

Definition file_read_at (len offset : Z) : FM (list byte) :=
  ensure_open ;;
  f ← get_file;
  count ← lift (u32_len len);
  data ← on_client (expect (TRead (nf_fid f) offset count) is_read);
  lift (fill_buf len data) ;;
  mret data.

Definition file_read (len : Z) : FM (list byte) :=
  ensure_open ;;
  f ← get_file;
  count ← lift (u32_len len);
  data ← on_client (expect (TRead (nf_fid f) (nf_offset f) count) is_read);
  lift (fill_buf len data) ;;
  advance (blen data) ;;
  mret data.

Definition file_write_at (data : list byte) (offset : Z) : FM Z :=
  ensure_open ;;
  f ← get_file;
  on_client (expect (TWrite (nf_fid f) offset data) is_write_count).

Definition file_write (data : list byte) : FM Z :=
  ensure_open ;;
  f ← get_file;
  count ← on_client (expect (TWrite (nf_fid f) (nf_offset f) data) is_write_count);
  advance count ;;
  mret count.

Definition file_stat : FM Metadata :=
  ensure_open ;;
  f ← get_file;
  on_client (getattr_fid (nf_fid f) (nf_path f)).

Definition file_seek (pos : SeekFrom) : FM Z :=
  ensure_open ;;
  f ← get_file;
  next ← match pos with
         | SeekStart p => mret p
         | SeekCurrent delta => mret (nf_offset f + delta)
         | SeekEnd delta => meta ← file_stat; mret (m_size meta + delta)
         end;
  guard_err (next <? 0) (EKind Invalid) ;;
  let offset := next mod 2 ^ 64 in
  put_file (set_offset offset f) ;;
  mret offset.

Definition is_readdir (r : NinePResponse) : option (list byte) :=
  match r with RReaddir data => Some data | _ => None end.

Definition dirent_entry (d : NinePDirent) : DirEntry :=
  mkDirEntry (de_name d)
    (mkMetadata (de_name d) (mode_from_dirent_type (de_typ d)) 0 UNIX_EPOCH 0 0).

(** The loop of [read_dir]; a server that always answers entries keeps it running,
    so its fuel bounds the number of pages. *)
Fixpoint read_dir_loop (fuel : nat) (fid count offset : Z) (entries : list DirEntry)
    : CM (list DirEntry) :=
  match fuel with
  | O => no_fuel
  | S fuel' =>
      data ← expect (TReaddir fid offset count) is_readdir;
      if bool_decide (data = []) then mret entries
      else
        dirents ← lift (decode_dirents data);
        match last dirents with
        | None => mret entries
        | Some d =>
            read_dir_loop fuel' fid count (de_offset d) (entries ++ (dirent_entry <$> dirents))
        end
  end.

(** Paging through the cached listing *)
Definition dir_page (entries : list DirEntry) (count : Z) : FM (list DirEntry) := λ '(f, c),
  let n := Z.of_nat (length entries) in
  let at_offset o :=
    mkNinePFile (nf_fid f) (nf_path f) (nf_offset f) (nf_closed f) (Some entries) o in
  if count <? 0 then (Ok entries, (at_offset n, c))
  else if n <=? nf_dir_offset f then (Ok [], (at_offset (nf_dir_offset f), c))
  else
    let e := if count =? 0 then n else Z.min (nf_dir_offset f + count) n in
    (Ok (take (Z.to_nat (e - nf_dir_offset f)) (drop (Z.to_nat (nf_dir_offset f)) entries)),
     (at_offset e, c)).

Definition file_read_dir (fuel : nat) (count : Z) : FM (list DirEntry) :=
  ensure_open ;;
  f ← get_file;
  entries ← match nf_dir_cache f with
            | Some entries => mret entries
            | None =>
                msize ← on_client client_msize;
                on_client (read_dir_loop fuel (nf_fid f) (Z.max (msize - 24) 0) 0 [])
            end;
  dir_page entries count.

Definition is_fsync (r : NinePResponse) : option unit :=
  match r with RFsync => Some tt | _ => None end.

Definition file_sync : FM unit :=
  ensure_open ;;
  f ← get_file;
  on_client (expect (TFsync (nf_fid f)) is_fsync).

Definition file_close : FM unit :=
  f ← get_file;
  guard_err (nf_closed f) (EKind Closed) ;;
  on_client (clunk_fid (nf_fid f)) ;;
  put_file (mkNinePFile (nf_fid f) (nf_path f) (nf_offset f) true (nf_dir_cache f)
    (nf_dir_offset f)).

(** [impl Drop for NinePFile] *)
Definition drop_file (f : NinePFile) : CM unit :=
  if nf_closed f then mret tt else ignore (clunk_fid (nf_fid f)).

(** A method call on a local file followed by [?]: the file is dropped on an error. *)
Definition try_file {A} (f : NinePFile) (m : FM A) : CM (A * NinePFile) :=
  '(r, f) ← on_handle f m;
  match r with
  | Err e => drop_file f ;; throw e
  | r => a ← lift r; mret (a, f)
  end.

(** ** [impl FileSystem for NinePClientFs] *)

Definition client_open (ctx : FsContext) (name : string) : CM NinePFile :=
  r ← attempt (open_existing name OpenFlags.RDWR);
  match r with
  | Ok file => mret file
  | Err _ => open_existing name OpenFlags.RDONLY
  | Panic => panic
  | NoFuel => no_fuel
  end.

Definition client_stat (ctx : FsContext) (name : string) : CM Metadata :=
  name ← lift (validated_client_path "stat" name);
  fid ← walk_fid name;
  with_fid_value fid (getattr_fid fid name).

Definition client_read_dir (fuel : nat) (ctx : FsContext) (name : string) : CM (list DirEntry) :=
  file ← open_existing name OpenFlags.RDONLY;
  '(entries, file) ← on_handle file (file_read_dir fuel (-1));
  '(close, file) ← on_handle file file_close;
  drop_file file ;;
  entries ← lift entries;
  lift close ;;
  mret entries.

Definition is_lcreate (r : NinePResponse) : option unit :=
  match r with RLcreate _ _ => Some tt | _ => None end.

(** [if flags.contains(APPEND) { file.seek(SeekFrom::End(0))?; }] *)
Definition seek_if_append (flags : Z) (file : NinePFile) : CM NinePFile :=
  if OpenFlags.contains flags OpenFlags.APPEND then
    '(_, file) ← try_file file (file_seek (SeekEnd 0)); mret file
  else mret file.

Definition client_open_file (name : string) (flags perm : Z) : CM NinePFile :=
  path ← lift (validated_client_path "open" name);
  guard_err (bool_decide (path = ".")) (EPath "open" path Invalid) ;;
  if OpenFlags.contains flags OpenFlags.CREATE then
    fid ← walk_fid (parent_path path);
    r ← attempt (expect (TLcreate fid (base_name path) flags (FileMode.perm perm) 0) is_lcreate);
    match r with
    | Ok _ => seek_if_append flags (nine_file_new fid path)
    | Err err => ignore (clunk_fid fid) ;; throw err
    | Panic => panic
    | NoFuel => no_fuel
    end
  else
    file ← open_existing path flags;
    (if OpenFlags.contains flags OpenFlags.TRUNC then
       r ← attempt (set_attr path (mkSetAttr SETATTR_SIZE 0 0 0 0 0 0 0 0));
       match r with
       | Err e => drop_file file ;; throw e
       | r => lift r
       end
     else mret tt) ;;
    seek_if_append flags file.

Definition client_create (name : string) : CM NinePFile :=
  client_open_file name
    (Z.lor (Z.lor OpenFlags.RDWR OpenFlags.CREATE) OpenFlags.TRUNC) (FileMode.from_perm 420).

Definition is_mkdir (r : NinePResponse) : option unit :=
  match r with RMkdir _ => Some tt | _ => None end.

Definition client_mkdir (name : string) (perm : Z) : CM unit :=
  path ← lift (validated_client_path "mkdir" name);
  guard_err (bool_decide (path = ".")) (EPath "mkdir" path Invalid) ;;
  fid ← walk_fid (parent_path path);
  with_fid fid (expect (TMkdir fid (base_name path) (FileMode.perm perm) 0) is_mkdir).

Definition is_unlink (r : NinePResponse) : option unit :=
  match r with RUnlinkAt => Some tt | _ => None end.

Definition client_remove (name : string) : CM unit :=
  path ← lift (validated_client_path "remove" name);
  guard_err (bool_decide (path = ".")) (EPath "remove" path Invalid) ;;
  meta ← client_stat (Ctx.no_follow Ctx.new) path;
  fid ← walk_fid (parent_path path);
  with_fid fid (expect (TUnlinkAt fid (base_name path)
    (if Meta.is_dir meta then AT_REMOVEDIR else 0)) is_unlink).

(** The end of [rename] and [link]: a call on two walked fids, then both clunks. *)
Definition with_two_fids {A} (fid1 fid2 : Z) (m : CM A) : CM unit :=
  result ← attempt m;
  clunk1 ← attempt (clunk_fid fid1);
  clunk2 ← attempt (clunk_fid fid2);
  lift (result_and (result_and result clunk1) clunk2).

Definition is_rename (r : NinePResponse) : option unit :=
  match r with RRenameAt => Some tt | _ => None end.

Definition client_rename (old new : string) : CM unit :=
  old ← lift (validated_client_path "rename" old);
  new ← lift (validated_client_path "rename" new);
  old_parent ← walk_fid (parent_path old);
  new_parent ← walk_fid (parent_path new);
  with_two_fids old_parent new_parent
    (expect (TRenameAt old_parent (base_name old) new_parent (base_name new)) is_rename).

Definition is_link (r : NinePResponse) : option unit :=
  match r with RLink => Some tt | _ => None end.

Definition client_link (old new : string) : CM unit :=
  old ← lift (validated_client_path "link" old);
  new ← lift (validated_client_path "link" new);
  guard_err (bool_decide (old = ".") || bool_decide (new = ".")) (EPath "link" new Invalid) ;;
  old_fid ← walk_fid old;
  new_parent ← walk_fid (parent_path new);
  with_two_fids old_fid new_parent
    (expect (TLink old_fid new_parent (base_name new)) is_link).

Definition client_chmod (name : string) (mode : Z) : CM unit :=
  set_attr name (mkSetAttr SETATTR_MODE (FileMode.perm mode) 0 0 0 0 0 0 0).

Definition client_chown (name : string) (uid gid : Z) : CM unit :=
  set_attr name (mkSetAttr (Z.lor SETATTR_UID SETATTR_GID) 0 uid gid 0 0 0 0 0).

Definition client_chtimes (name : string) (mtime : Z) : CM unit :=
  let '(secs, nanos) := system_time_parts mtime in
  set_attr name (mkSetAttr (Z.lor SETATTR_MTIME SETATTR_MTIME_SET) 0 0 0 0 0 0 secs nanos).

Definition client_truncate (name : string) (size : Z) : CM unit :=
  set_attr name (mkSetAttr SETATTR_SIZE 0 0 0 size 0 0 0 0).

Definition is_symlink_reply (r : NinePResponse) : option unit :=
  match r with RSymlink _ => Some tt | _ => None end.

Definition client_symlink (old new : string) : CM unit :=
  new ← lift (validated_client_path "symlink" new);
  parent ← walk_fid (parent_path new);
  with_fid parent (expect (TSymlink parent (base_name new) old 0) is_symlink_reply).

Definition is_readlink (r : NinePResponse) : option string :=
  match r with RReadlink target => Some target | _ => None end.

Definition client_readlink (name : string) : CM string :=
  fid ← walk_fid name;
  with_fid_value fid (expect (TReadlink fid) is_readlink).

Definition is_xattrcreate (r : NinePResponse) : option unit :=
  match r with RXattrCreate => Some tt | _ => None end.

Definition client_set_xattr (name attr : string) (data : list byte) : CM unit :=
  path ← lift (validated_client_path "setxattr" name);
  fid ← walk_fid path;
  with_fid fid
    (expect (TXattrCreate fid attr (blen data) 0) is_xattrcreate ;; write_all_fid fid data).

Definition client_get_xattr (name attr : string) : CM (list byte) :=
  path ← lift (validated_client_path "getxattr" name);
  '(fid, size) ← xattrwalk_fid path attr;
  with_fid_value fid (read_all_fid fid size).

Definition client_list_xattrs (name : string) : CM (list string) :=
  path ← lift (validated_client_path "listxattrs" name);
  '(fid, size) ← xattrwalk_fid path "";
  with_fid_value fid (data ← read_all_fid fid size; lift (decode_xattr_names data)).

(** [connect]: the client's counters, and the calls that negotiate and attach *)
Definition connect : CM unit :=
  response ← call (TVersion DEFAULT_MSIZE VERSION);
  match response with
  | RVersion msize version =>
      if decide (version = VERSION) then
        (λ '(cl, t), (Ok tt, (mkClient msize (cl_next_tag cl) (cl_next_fid cl), t)))
      else throw (EKind Invalid)
  | _ => throw (EKind Invalid)
  end ;;
  response ← call (TAttach root_fid NOFID "star9" "" 0);
  match response with
  | RAttach _ => mret tt
  | _ => throw (EKind Invalid)
  end.

#[global] Instance nine_file_handle (fuel : nat) : FileHandle (Client * T) NinePFile := {
  fh_read := file_read;
  fh_write := file_write;
  fh_read_at := file_read_at;
  fh_write_at := file_write_at;
  fh_seek := file_seek;
  fh_stat := file_stat;
  fh_read_dir := file_read_dir fuel;
  fh_sync := file_sync;
  fh_close := file_close
}.

Definition client_fs (fuel : nat) : FileSystem (Client * T) NinePFile := {|
  fs_open := client_open;
  fs_stat := client_stat;
  fs_lstat := client_stat;
  fs_read_dir := client_read_dir fuel;
  fs_create := client_create;
  fs_open_file := client_open_file;
  fs_mkdir := client_mkdir;
  fs_remove := client_remove;
  fs_rename := client_rename;
  fs_link := client_link;
  fs_chmod := client_chmod;
  fs_chown := client_chown;
  fs_chtimes := client_chtimes;
  fs_truncate := client_truncate;
  fs_symlink := client_symlink;
  fs_readlink := client_readlink;
  fs_set_xattr := client_set_xattr;
  fs_get_xattr := client_get_xattr;
  fs_list_xattrs := client_list_xattrs;
  fs_remove_xattr _ _ := unsupported
|}.
End Client.

(** [LoopbackTransport::round_trip] *)
Definition loopback {W H} `{!FileHandle W H} (fsys : FileSystem W H) (clock : M W Z)
    : list byte → M (ServerState H * W) (list byte) :=
  handle_frame fsys clock.
