(* ===== verification/P9ClientFacts.v ===== *)
(** * The 9P client over a loopback transport

    What [NinePClientFs] does when its transport is [LoopbackTransport]: a call is
    the server's handler, and a remote operation is the operation of the exported
    filesystem, up to the translations of the protocol, with the server's fid table
    as it was. *)

From stdpp Require Import base list numbers option strings gmap.
From Stdlib Require Import ZArith Lia Ascii.
From S2P Require Import Prelude Strs BTree Core FsTrait FsLaws P9Codec P9CodecFacts P9Server P9Helpers P9ServerFacts P9ServerProps P9Client.

Local Open Scope Z_scope.

(** ** Messages that encode *)

Definition request_encodes (r : NinePRequest) : bool :=
  match encode_request_body r with Ok (_, body) => 7 + blen body <=? U32_MAX | _ => false end.

Definition response_encodes (r : NinePResponse) : bool :=
  match encode_response_body r with Ok (_, body) => 7 + blen body <=? U32_MAX | _ => false end.

Definition client_ok (cl : Client) : Prop := in_u16 (cl_next_tag cl) ∧ in_u32 (cl_msize cl).

(** The client after it has taken a tag. *)
Definition after_tag (cl : Client) : Client :=
  if cl_next_tag cl =? NOTAG then bump_tag (bump_tag cl) else bump_tag cl.

(** What [lstat] shows of a file after its metadata went over the wire. *)
Definition remote_meta (path : string) (m : Metadata) : Metadata :=
  mkMetadata (base_name path) (Z.lor (mode_kind (m_mode m)) (FileMode.perm (m_mode m)))
    (m_size m) (Z.max 0 (m_modified m)) (m_uid m) (m_gid m).

Section Tags.
Context {T : Type}.

Lemma alloc_tag_spec (cl : Client) (t : T) : client_ok cl →
  ∃ tag, alloc_tag (cl, t) = (Ok tag, (after_tag cl, t)) ∧ in_u16 tag ∧ tag ≠ NOTAG ∧
    client_ok (after_tag cl) ∧ cl_next_fid (after_tag cl) = cl_next_fid cl ∧
    cl_msize (after_tag cl) = cl_msize cl.
Proof.
  intros [Htag Hms]. unfold alloc_tag, after_tag, client_ok, in_u16, U16_MAX, NOTAG in *.
  pose proof (Z.mod_pos_bound (cl_next_tag cl + 1) (2 ^ 16) ltac:(lia)).
  destruct (Z.eqb_spec (cl_next_tag cl) U16_MAX) as [Heq|Hne]; unfold U16_MAX in *.
  - eexists. split; [reflexivity|]. cbn [bump_tag cl_next_tag cl_msize cl_next_fid].
    rewrite Heq. by split_and!.
  - eexists. split; [reflexivity|]. cbn [bump_tag cl_next_tag cl_msize cl_next_fid].
    split_and!; lia || done.
Qed.
End Tags.

Lemma encode_request_Ok tag r : request_encodes r = true →
  ∃ frame, encode_request tag r = Ok frame.
Proof.
  unfold request_encodes, encode_request, mbind, outcome_bind.
  destruct (encode_request_body r) as [[typ body]| | |]; [|done..].
  intros H. unfold encode_frame. rewrite H. eauto.
Qed.

Lemma encode_response_Ok tag r : response_encodes r = true →
  ∃ frame, encode_response tag r = Ok frame.
Proof.
  unfold response_encodes, encode_response, mbind, outcome_bind.
  destruct (encode_response_body r) as [[typ body]| | |]; [|done..].
  intros H. unfold encode_frame. rewrite H. eauto.
Qed.

Section Loopback.
Context {W H : Type} `{!FileHandle W H} (fsys : FileSystem W H) (clock : M W Z).

#[local] Abbreviation lb := (loopback fsys clock).

(** A call over the loopback transport is the server's handler. *)
Lemma call_loopback cl st r resp st' :
  client_ok cl → request_encodes r = true → request_wf r →
  srv_respond fsys clock r st = (Ok resp, st') →
  response_wf resp → response_encodes resp = true →
  call lb r (cl, st) =
    (match resp with RLerror ecode => Err (errno_to_error ecode) | _ => Ok resp end,
     (after_tag cl, st')).
Proof.
  intros Hcl Henc Hwf Hrun Hrwf Hrenc.
  destruct (alloc_tag_spec cl st Hcl) as (tag & Halloc & Htag & _).
  destruct (encode_request_Ok tag r Henc) as [frame Hframe].
  destruct (encode_response_Ok tag resp Hrenc) as [reply Hreply].
  assert (decode_request frame = Ok (tag, r)) as Hdec by (by apply decode_request_iff).
  assert (decode_response reply = Ok (tag, resp)) as Hdecr by (by apply decode_response_iff).
  assert (handle_frame fsys clock frame st = (Ok reply, st')) as Hframe'.
  { unfold handle_frame, mbind, eff_bind, lift. by rewrite Hdec, Hrun, Hreply. }
  unfold call. rewrite (eff_bind_Ok _ _ _ _ _ Halloc).
  unfold lift at 1. rewrite (eff_bind_Ok _ _ _ frame (after_tag cl, st)) by (by rewrite Hframe).
  rewrite (eff_bind_Ok _ _ _ reply (after_tag cl, st')) by (unfold on_snd, loopback; by rewrite Hframe').
  unfold lift. rewrite (eff_bind_Ok _ _ _ (tag, resp) (after_tag cl, st')) by (by rewrite Hdecr).
  rewrite Z.eqb_refl. cbn [negb guard_err].
  rewrite (eff_bind_Ok _ _ _ tt (after_tag cl, st')) by done. by destruct resp.
Qed.

Lemma expect_loopback {A} cl st r (expected : NinePResponse → option A) resp a st' :
  client_ok cl → request_encodes r = true → request_wf r →
  srv_handle fsys clock r st = (Ok resp, st') →
  response_wf resp → response_encodes resp = true →
  (∀ ecode, resp ≠ RLerror ecode) → expected resp = Some a →
  expect lb r expected (cl, st) = (Ok a, (after_tag cl, st')).
Proof.
  intros Hcl Henc Hwf Hrun Hrwf Hrenc Hne Ha.
  assert (srv_respond fsys clock r st = (Ok resp, st')) as Hresp
    by (unfold srv_respond, mbind, eff_bind, attempt; by rewrite Hrun).
  unfold expect. rewrite (eff_bind_Ok _ _ _ resp (after_tag cl, st')); [by rewrite Ha|].
  rewrite (call_loopback cl st r resp st') by done. destruct resp; try done. by destruct (Hne ecode).
Qed.

Lemma call_loopback_ok cl st r resp st' :
  client_ok cl → request_encodes r = true → request_wf r →
  srv_handle fsys clock r st = (Ok resp, st') →
  response_wf resp → response_encodes resp = true → (∀ ecode, resp ≠ RLerror ecode) →
  call lb r (cl, st) = (Ok resp, (after_tag cl, st')).
Proof.
  intros Hcl Henc Hwf Hrun Hrwf Hrenc Hne.
  assert (srv_respond fsys clock r st = (Ok resp, st')) as Hresp
    by (unfold srv_respond, mbind, eff_bind, attempt; by rewrite Hrun).
  rewrite (call_loopback cl st r resp st') by done. destruct resp; try done. by destruct (Hne ecode).
Qed.

Lemma expect_loopback_err {A} cl st r (expected : NinePResponse → option A) e st' :
  client_ok cl → request_encodes r = true → request_wf r →
  srv_handle fsys clock r st = (Err e, st') →
  expect lb r expected (cl, st) =
    (Err (errno_to_error (errno_for_error e)), (after_tag cl, st')).
Proof.
  intros Hcl Henc Hwf Hrun. unfold expect. apply eff_bind_Err.
  rewrite (call_loopback cl st r (RLerror (errno_for_error e)) st'); try done.
  - by apply srv_respond_Err.
  - apply errno_wf.
Qed.
End Loopback.

(** ** Paths the client sends *)

Lemma validated_valid op name : valid_path name = true → validated_client_path op name = Ok name.
Proof.
  intros Hv. unfold validated_client_path. rewrite clean_path_id, Hv by done. cbn [negb].
  destruct (valid_path_parts name Hv) as [Hg Heq].
  assert (is_empty_str name || starts_with_char "/" name
    || existsb (λ part, bool_decide (part = "..")) (split_on "/" name) = false) as ->; [|done].
  unfold valid_path in Hv. destruct (decide (name = ".")) as [->|Hd]; [done|].
  unfold parts_of in Hg. rewrite decide_False in Hg by done.
  destruct (is_empty_str name); [done|]. destruct (starts_with_char "/" name); [done|]. cbn.
  clear -Hg. induction Hg as [|p ps Hp Hg IH]; [done|]. cbn. rewrite IH, orb_false_r.
  apply bool_decide_eq_false. by apply good_part_inv in Hp as (_ & _ & ?).
Qed.

Lemma client_names name : (if decide (name = ".") then [] else split_on "/" name) = parts_of name.
Proof. done. Qed.

(** ** Remote walks, reads and clunks *)

Section Remote.
Context {W H : Type} `{!FileHandle W H} (fsys : FileSystem W H) (clock : M W Z).
#[local] Abbreviation lb := (loopback fsys clock).

(** [lstat] of a path succeeds and leaves the filesystem as it is. *)
Definition lstat_is (w : W) (p : string) (m : Metadata) : Prop :=
  fs_lstat fsys (Ctx.no_follow Ctx.new) p w = (Ok m, w).

(** Every ancestor of a path can be walked to. *)
Definition walkable (w : W) (name : string) : Prop :=
  ∀ l, l ≠ [] → l `prefix_of` parts_of name → ∃ m, lstat_is w (of_parts l) m.

(** A client that is attached to the server: the root fid is the root of the export
    and the next fid is free. *)
Definition attached (cl : Client) (s : ServerState H) : Prop :=
  client_ok cl ∧ in_u32 (cl_next_fid cl) ∧ cl_next_fid cl ≠ root_fid ∧
  (∃ f, sv_fids s !! root_fid = Some f ∧ fid_st_path f = ".") ∧
  sv_fids s !! cl_next_fid cl = None.

Lemma qid_for_is w p m : lstat_is w p m → qid_for fsys p w = (Ok (qid_from_meta p m), w).
Proof. intros Hm. unfold qid_for. by rewrite (eff_bind_Ok _ _ _ _ _ Hm). Qed.

Lemma walk_loop_pure ps names qids (s : ServerState H) w :
  Forall good_part (ps ++ names) →
  (∀ l, l ≠ [] → l `prefix_of` names → ∃ m, lstat_is w (of_parts (ps ++ l)) m) →
  ∃ qs, walk_loop fsys (of_parts ps) qids names (s, w) =
      (Ok (of_parts (ps ++ names), qids ++ qs), (s, w)) ∧
    length qs = length names ∧ Forall qid_wf qs.
Proof.
  revert ps qids. induction names as [|name names IH]; intros ps qids Hg Hl; cbn [walk_loop].
  { exists []. by rewrite !app_nil_r. }
  pose proof Hg as [Hps Hns]%Forall_app. apply Forall_cons in Hns as [Hn Hns].
  pose proof (good_part_inv _ Hn) as (Hne & Hnd & Hndd). pose proof Hn as [_ Hc].
  assert (is_empty_str name = false) as He by (apply not_true_iff_false; by rewrite is_empty_str_true).
  rewrite Hc, He. cbn [orb].
  assert (walk_join (of_parts ps) name = of_parts (ps ++ [name])) as Hj.
  { rewrite walk_join_parts by done. unfold clean_step.
    rewrite !decide_False by tauto. done. }
  destruct (Hl [name] ltac:(done) (prefix_cons name [] names (prefix_nil names))) as [m Hm].
  rewrite Hj. rewrite (eff_bind_Ok _ _ _ (Ok (qid_from_meta (of_parts (ps ++ [name])) m)) (s, w)).
  2: { unfold fs_call, on_snd, attempt. by rewrite (qid_for_is _ _ _ Hm). }
  destruct (IH (ps ++ [name]) (qids ++ [qid_from_meta (of_parts (ps ++ [name])) m]))
    as (qs & Hrun & Hlen & Hwf).
  - by rewrite <- app_assoc.
  - intros l Hne' Hpre. rewrite <- app_assoc. apply Hl; [done|]. by apply prefix_cons.
  - rewrite Hrun. eexists. rewrite <- !app_assoc. split; [reflexivity|].
    split; [by cbn; rewrite Hlen|]. constructor; [apply qid_from_meta_wf|done].
Qed.

Lemma walk_response_encodes qs : Z.of_nat (length qs) ≤ U16_MAX →
  response_encodes (RWalk qs) = true.
Proof.
  intros Hl. unfold response_encodes. cbn [encode_response_body]. unfold put_count16.
  rewrite (proj2 (Z.leb_le _ U16_MAX) Hl). cbn [mbind outcome_bind].
  apply Z.leb_le. unfold put_qids.
  assert (∀ qs out, blen (foldl encode_qid out qs) = blen out + 13 * Z.of_nat (length qs)) as Hb.
  { clear. induction qs as [|q qs IH]; intros out; cbn [foldl length]; [lia|].
    rewrite IH. unfold encode_qid, put_u8, put_u32, put_u64, blen.
    rewrite !length_app, !length_le_bytes. cbn [length]. lia. }
  rewrite Hb. unfold put_u16, blen. rewrite length_app, length_le_bytes. cbn [length].
  unfold U16_MAX, U32_MAX in *. lia.
Qed.

Lemma names_encode_count r fid newfid names :
  r = TWalk fid newfid names → request_encodes r = true → Z.of_nat (length names) ≤ U16_MAX.
Proof.
  intros ->. unfold request_encodes. cbn [encode_request_body]. unfold put_count16.
  destruct (Z.of_nat (length names) <=? U16_MAX) eqn:Hl; [by bool_to_prop|done].
Qed.

(** The client's counters after a walk. *)
Definition after_walk (cl : Client) : Client := after_tag (bump_fid cl).

(** What the protocol can carry of a path, and the types guarantee of it. *)
Definition sendable (fid : Z) (name : string) : Prop :=
  valid_path name = true ∧ Forall str_valid (parts_of name) ∧
  request_encodes (TWalk root_fid fid (parts_of name)) = true.

Definition set_table (s : ServerState H) (fids : gmap Z (FidState H)) : ServerState H :=
  mkServerState (sv_msize s) fids.

Lemma client_ok_after cl : client_ok cl →
  client_ok (after_tag cl) ∧ client_ok (bump_fid cl) ∧
  cl_next_fid (after_tag cl) = cl_next_fid cl ∧ cl_msize (after_tag cl) = cl_msize cl.
Proof.
  intros Hcl. destruct (alloc_tag_spec cl tt Hcl) as (_ & _ & _ & _ & ? & ? & ?).
  by split_and!.
Qed.

Lemma walk_fid_loopback cl s w name :
  attached cl s → sendable (cl_next_fid cl) name → walkable w name →
  walk_fid lb name (cl, (s, w)) =
    (Ok (cl_next_fid cl),
     (after_walk cl, (set_table s (<[cl_next_fid cl := fid_unopened name]> (sv_fids s)), w))).
Proof.
  intros (Hcl & Hfid & Hne & (f & Hf & Hroot) & Hfree) (Hv & Hstr & Henc) Hwalk.
  destruct (valid_path_parts name Hv) as [Hg Hname].
  destruct (walk_loop_pure [] (parts_of name) [] s w) as (qs & Hloop & Hlen & Hqs); [done|..].
  { intros l Hl Hpre. by apply Hwalk. }
  cbn [app] in Hloop. change (of_parts []) with "." in Hloop. rewrite Hname in Hloop.
  assert (srv_handle fsys clock (TWalk root_fid (cl_next_fid cl) (parts_of name)) (s, w) =
    (Ok (RWalk qs), (set_table s (<[cl_next_fid cl := fid_unopened name]> (sv_fids s)), w)))
    as Hsrv.
  { cbn [srv_handle]. unfold srv_walk.
    rewrite (eff_bind_Ok _ _ _ "." (s, w)).
    2: { unfold walk_base. rewrite Hfree. rewrite bool_decide_eq_false_2 by (by intros []).
      rewrite andb_false_r. unfold fid_path.
      by rewrite (eff_bind_Ok _ _ _ _ _ (lookup_fid_Some _ _ _ _ Hf)), Hroot. }
    by rewrite (eff_bind_Ok _ _ _ _ _ Hloop). }
  unfold walk_fid, lift at 1. rewrite validated_valid by done.
  rewrite (eff_bind_Ok _ _ _ name (cl, (s, w))) by done.
  rewrite (eff_bind_Ok _ _ _ (cl_next_fid cl) (bump_fid cl, (s, w))) by done.
  rewrite client_names. cbv zeta.
  rewrite (eff_bind_Ok _ _ _ (RWalk qs) (after_walk cl,
    (set_table s (<[cl_next_fid cl := fid_unopened name]> (sv_fids s)), w))).
  - by rewrite decide_True by done.
  - apply call_loopback_ok; try done.
    apply walk_response_encodes. rewrite Hlen. by eapply names_encode_count.
Qed.

(** Clunking a fid that has nothing to commit or close. *)
Lemma clunk_loopback cl s w fid f : client_ok cl → in_u32 fid → sv_fids s !! fid = Some f →
  match fid_st_handle f with HNone | HXattrRead _ => True | _ => False end →
  clunk_fid lb fid (cl, (s, w)) = (Ok tt, (after_tag cl, (set_table s (delete fid (sv_fids s)), w))).
Proof.
  intros Hcl Hfid Hf Hh. eapply (expect_loopback _ _ _ _ _ _ RClunk); try done.
  cbn [srv_handle]. unfold srv_clunk, mbind, eff_bind. cbn. rewrite Hf. cbn.
  unfold commit_xattr_if_ready. revert Hh.
  destruct (fid_st_handle f) eqn:Hfh; intros Hh; try done; cbn; by rewrite Hfh.
Qed.

Lemma with_fid_value_loopback {A} cl s w cl1 s1 w1 fid f (m : M (Client * (ServerState H * W)) A) a :
  m (cl, (s, w)) = (Ok a, (cl1, (s1, w1))) → client_ok cl1 → in_u32 fid →
  sv_fids s1 !! fid = Some f →
  match fid_st_handle f with HNone | HXattrRead _ => True | _ => False end →
  with_fid_value lb fid m (cl, (s, w)) =
    (Ok a, (after_tag cl1, (set_table s1 (delete fid (sv_fids s1)), w1))).
Proof.
  intros Hm Hcl Hfid Hf Hh. unfold with_fid_value.
  rewrite (eff_bind_Ok _ _ _ (Ok a) (cl1, (s1, w1))) by (unfold attempt; by rewrite Hm).
  rewrite (eff_bind_Ok _ _ _ (Ok tt) (after_tag cl1, (set_table s1 (delete fid (sv_fids s1)), w1))).
  { done. }
  unfold attempt. by rewrite (clunk_loopback _ _ _ _ f).
Qed.

Lemma set_table_restore s fid f : sv_fids s !! fid = None →
  set_table (set_table s (<[fid := f]> (sv_fids s)))
    (delete fid (sv_fids (set_table s (<[fid := f]> (sv_fids s))))) = s.
Proof.
  intros Hn. unfold set_table. cbn. rewrite delete_insert_id by done. by destruct s.
Qed.

(** The attributes the server sends for a file. *)
Definition attr_value (path : string) (m : Metadata) (mask nlink : Z) : NinePAttr :=
  let '(secs, nanos) := system_time_parts (m_modified m) in
  mkNinePAttr (Z.land mask ATTR_BASIC) (qid_from_meta path m)
    (FileMode.unix_type_and_perm (m_mode m)) (m_uid m) (m_gid m) nlink
    0 (m_size m) 65536 ((m_size m + 65535) / 65536) secs nanos secs nanos secs nanos 0 0 0 0.

(** A directory whose link count can be computed: [read_dir] answers, with a list or an
    error, and leaves the filesystem as it is. *)
Definition countable (w : W) (name : string) (m : Metadata) : Prop :=
  Meta.is_dir m = true →
  (∃ es, fs_read_dir fsys Ctx.new name w = (Ok es, w) ∧ Z.of_nat (length es) < ISIZE_MAX) ∨
  ∃ e, fs_read_dir fsys Ctx.new name w = (Err e, w).

Lemma attr_for_value path m mask w : countable w path m →
  ∃ nlink, attr_for fsys path m mask w = (Ok (attr_value path m mask nlink), w) ∧ in_u64 nlink.
Proof.
  intros Hc. unfold attr_for, attr_value.
  destruct (system_time_parts (m_modified m)) as [secs nanos].
  destruct (Meta.is_dir m) eqn:Hd.
  - destruct (Hc Hd) as [(es & Hes & Hlen)|[e He]].
    + exists (2 + Z.of_nat (length es)). split; [|unfold in_u64, U64_MAX, ISIZE_MAX, I64_MAX in *; lia].
      unfold mbind, eff_bind, attempt. by rewrite Hes.
    + exists 2. split; [|done]. unfold mbind, eff_bind, attempt. by rewrite He.
  - exists 1. by split.
Qed.

Lemma attr_value_wf path m mask nlink : meta_wf m → in_u64 nlink →
  attr_wf (attr_value path m mask nlink).
Proof.
  intros Hm Hn. unfold attr_value. pose proof (checked_wf_meta m Hm) as Ht.
  destruct (system_time_parts (m_modified m)) as [secs nanos]. destruct Ht as [Hs Hns].
  destruct Hm as (Hmode & Hsize & Hu & Hg & _).
  pose proof (unix_mode_range (m_mode m)). pose proof (attr_basic_range mask).
  pose proof (qid_from_meta_wf path m) as Hq.
  assert (in_u64 ((m_size m + 65535) / 65536)).
  { unfold in_u64, U64_MAX in *. split; [apply Z.div_pos; lia|].
    assert ((m_size m + 65535) / 65536 < 18446744073709551616); [|lia].
    apply Z.div_lt_upper_bound; lia. }
  unfold attr_wf, in_u32, U32_MAX in *. cbn. split_and!; try done; lia.
Qed.

Lemma metadata_from_attr_value path m mask nlink : meta_wf m →
  metadata_from_attr path (attr_value path m mask nlink) = Ok (remote_meta path m).
Proof.
  intros (_ & _ & _ & _ & Ht). unfold metadata_from_attr, attr_value, system_time_parts.
  cbn [at_mtime_seconds at_mtime_nanoseconds at_mode at_size at_uid at_gid].
  set (d := Z.max 0 (m_modified m)).
  pose proof (Z.mod_pos_bound d 1000000000 ltac:(lia)) as Hmod.
  assert (0 ≤ d / 1000000000 ≤ I64_MAX) as Hdiv.
  { unfold I64_MAX in *. split; [apply Z.div_pos; lia|].
    assert (d / 1000000000 < 9223372036854775808); [apply Z.div_lt_upper_bound; lia|lia]. }
  unfold epoch_plus. rewrite (Z.mod_small (d mod 1000000000) (2 ^ 32)) by lia.
  rewrite (Z.div_small (d mod 1000000000)) by lia. rewrite Z.add_0_r.
  rewrite (proj2 (Z.ltb_ge U64_MAX _)) by (unfold U64_MAX, I64_MAX in *; lia).
  rewrite (proj2 (Z.ltb_ge I64_MAX _)) by lia.
  rewrite (Z.mod_small (d mod 1000000000)) by lia. cbn [mbind outcome_bind].
  unfold remote_meta. destruct (mode_roundtrip_aux (m_mode m)) as [-> _].
  do 2 f_equal. pose proof (Z.div_mod d 1000000000 ltac:(lia)). lia.
Qed.

Lemma getattr_loopback cl s w fid name m : client_ok cl → in_u32 fid →
  sv_fids s !! fid = Some (fid_unopened name) → lstat_is w name m → meta_wf m →
  countable w name m →
  getattr_fid lb fid name (cl, (s, w)) = (Ok (remote_meta name m), (after_tag cl, (s, w))).
Proof.
  intros Hcl Hfid Hf Hm Hwf Hc. destruct (attr_for_value name m ATTR_BASIC w Hc) as (nl & Ha & Hnl).
  unfold getattr_fid. rewrite (eff_bind_Ok _ _ _ (attr_value name m ATTR_BASIC nl) (after_tag cl, (s, w))).
  - unfold lift. by rewrite metadata_from_attr_value.
  - eapply (expect_loopback _ _ _ _ _ _ (RGetAttr (attr_value name m ATTR_BASIC nl))); try done.
    + cbn [srv_handle]. unfold srv_getattr.
      rewrite (eff_bind_Ok _ _ _ _ _ (lookup_fid_Some _ _ _ _ Hf)).
      cbn [fid_unopened fid_st_handle fid_st_path].
      rewrite (eff_bind_Ok _ _ _ m (s, w)) by (unfold fs_call, on_snd; by rewrite Hm).
      by rewrite (eff_bind_Ok _ _ _ (attr_value name m ATTR_BASIC nl) (s, w))
        by (unfold fs_call, on_snd; by rewrite Ha).
    + by apply attr_value_wf.
Qed.

Lemma remote_stat_lemma cl s w ctx name m :
  attached cl s → sendable (cl_next_fid cl) name → walkable w name →
  lstat_is w name m → meta_wf m → countable w name m →
  ∃ cl', client_stat lb ctx name (cl, (s, w)) = (Ok (remote_meta name m), (cl', (s, w))).
Proof.
  intros Hatt Hsend Hwalk Hm Hwf Hc.
  pose proof Hatt as (Hcl & Hfid & Hne & _ & Hfree). pose proof Hsend as (Hv & _).
  pose proof (client_ok_after cl Hcl) as (_ & Hcl1 & _).
  pose proof (client_ok_after _ Hcl1) as (Hcl2 & _).
  pose proof (client_ok_after _ Hcl2) as (Hcl3 & _).
  unfold client_stat, lift at 1. rewrite validated_valid by done.
  rewrite (eff_bind_Ok _ _ _ name (cl, (s, w))) by done.
  rewrite (eff_bind_Ok _ _ _ _ _ (walk_fid_loopback cl s w name Hatt Hsend Hwalk)).
  eexists.
  rewrite (with_fid_value_loopback _ _ _ (after_tag (after_walk cl))
    (set_table s (<[cl_next_fid cl := fid_unopened name]> (sv_fids s))) w
    (cl_next_fid cl) (fid_unopened name) _ (remote_meta name m)); try done.
  - by rewrite set_table_restore.
  - apply getattr_loopback; try done. apply lookup_insert_eq.
  - apply lookup_insert_eq.
Qed.

(** ** Reading an attribute *)

Lemma slice_spec a b bs : 0 ≤ a → a ≤ b → b ≤ blen bs →
  slice a b bs = Ok (take (Z.to_nat (b - a)) (drop (Z.to_nat a) bs)).
Proof.
  intros H0 H1 H2. unfold slice.
  by rewrite (proj2 (Z.leb_le 0 a) H0), (proj2 (Z.leb_le a b) H1), (proj2 (Z.leb_le b _) H2).
Qed.

Lemma read_xattr_loopback cl s w fid p fl data offset count :
  client_ok cl → in_u32 fid → sv_fids s !! fid = Some (mkFidState p (HXattrRead data) fl) →
  blen data ≤ ISIZE_MAX → 0 ≤ offset < blen data → 1 ≤ count ≤ U32_MAX - 11 →
  expect lb (TRead fid offset count) is_read (cl, (s, w)) =
    (Ok (take (Z.to_nat (Z.min count (blen data - offset))) (drop (Z.to_nat offset) data)),
     (after_tag cl, (s, w))).
Proof.
  intros Hcl Hfid Hf Hmax Hoff Hcount.
  set (e := Z.min (Z.min (offset + count) USIZE_MAX) (blen data)).
  assert (e - offset = Z.min count (blen data - offset)) as He.
  { unfold e, USIZE_MAX, U64_MAX, ISIZE_MAX, I64_MAX in *. lia. }
  rewrite <- He.
  eapply (expect_loopback _ _ _ _ _ _ (RRead (take (Z.to_nat (e - offset))
    (drop (Z.to_nat offset) data))));
    [exact Hcl|reflexivity| | |exact I| |by intros|reflexivity].
  - cbn. unfold in_u64, in_u32, U64_MAX, U32_MAX, ISIZE_MAX, I64_MAX in *. repeat split; lia.
  - cbn [srv_handle]. unfold srv_read.
    rewrite (eff_bind_Ok _ _ _ _ _ (lookup_fid_Some _ _ _ _ Hf)). cbn [fid_st_handle].
    rewrite (proj2 (Z.leb_gt (blen data) offset)) by lia. cbv zeta. fold e.
    rewrite slice_spec by (unfold e, USIZE_MAX, U64_MAX, ISIZE_MAX, I64_MAX in *; lia). done.
  - unfold response_encodes. cbn [encode_response_body]. unfold put_counted_data.
    assert (blen (take (Z.to_nat (e - offset)) (drop (Z.to_nat offset) data)) = e - offset) as Hl.
    { unfold blen in *. rewrite length_take, length_drop. lia. }
    rewrite Hl. rewrite (proj2 (Z.leb_le _ U32_MAX)) by lia. cbn [mbind outcome_bind].
    apply Z.leb_le. rewrite blen_app, Hl. change (blen (put_u32 [] (e - offset))) with 4. lia.
Qed.

Lemma read_all_loopback fuel cl s w fid p fl data offset count :
  client_ok cl → in_u32 fid → sv_fids s !! fid = Some (mkFidState p (HXattrRead data) fl) →
  blen data ≤ ISIZE_MAX → 0 ≤ offset ≤ blen data → 1 ≤ count ≤ U32_MAX - 11 →
  (Z.to_nat (blen data - offset) ≤ fuel)%nat →
  ∃ cl', client_ok cl' ∧
    read_all_loop lb fuel fid (blen data) count offset (take (Z.to_nat offset) data) (cl, (s, w)) =
      (Ok data, (cl', (s, w))).
Proof.
  intros Hcl Hfid Hf Hmax Hoff Hcount. revert cl Hcl offset Hoff.
  induction fuel as [|fuel IH]; intros cl Hcl offset Hoff Hfuel; cbn [read_all_loop].
  { rewrite (proj2 (Z.ltb_ge offset _)) by lia. exists cl. split; [done|].
    rewrite take_ge by (unfold blen in *; lia). done. }
  destruct (Z.ltb_spec offset (blen data)) as [Hlt|Hge].
  2: { exists cl. split; [done|]. rewrite take_ge by (unfold blen in *; lia). done. }
  pose proof (client_ok_after cl Hcl) as (Hcl' & _).
  set (n := Z.min count (Z.min (blen data - offset) U32_MAX)).
  assert (1 ≤ n ≤ U32_MAX - 11 ∧ n ≤ blen data - offset) as [Hn Hn']
    by (unfold n, U32_MAX in *; lia).
  pose proof (read_xattr_loopback cl s w fid p fl data offset n Hcl Hfid Hf Hmax
    (conj (proj1 Hoff) Hlt) Hn) as Hread.
  rewrite (Z.min_l n) in Hread by done.
  rewrite (eff_bind_Ok _ _ _ _ _ Hread).
  set (chunk := take (Z.to_nat n) (drop (Z.to_nat offset) data)).
  assert (blen chunk = n) as Hchunk
    by (unfold chunk, blen in *; rewrite length_take, length_drop; lia).
  rewrite bool_decide_eq_false_2 by (intros Hnil; assert (blen chunk = 0) by (by rewrite Hnil); lia).
  cbn [guard_err]. rewrite (eff_bind_Ok _ _ _ tt (after_tag cl, (s, w))) by done.
  rewrite Hchunk.
  rewrite (proj2 (Z.ltb_ge U64_MAX _)) by (unfold U64_MAX, ISIZE_MAX, I64_MAX in *; lia).
  cbn [guard_err]. rewrite (eff_bind_Ok _ _ _ tt (after_tag cl, (s, w))) by done.
  assert (take (Z.to_nat offset) data ++ chunk = take (Z.to_nat (offset + n)) data) as ->.
  { unfold chunk. rewrite take_take_drop. f_equal. lia. }
  apply IH; [done|lia|lia].
Qed.

(** The second fid of an attribute walk. *)
Definition second_fid (cl : Client) : Z := cl_next_fid (after_walk cl).

Lemma second_fid_eq cl : client_ok cl → in_u32 (cl_next_fid cl) →
  second_fid cl = (cl_next_fid cl + 1) mod 2 ^ 32 ∧ in_u32 (second_fid cl) ∧
  second_fid cl ≠ cl_next_fid cl.
Proof.
  intros Hcl Hfid. unfold second_fid, after_walk.
  assert (client_ok (bump_fid cl)) as Hcl1 by done.
  destruct (client_ok_after _ Hcl1) as (_ & _ & -> & _). cbn.
  pose proof (Z.mod_pos_bound (cl_next_fid cl + 1) (2 ^ 32) ltac:(lia)).
  unfold in_u32, U32_MAX in *. split; [done|]. split; [lia|]. intros Heq.
  destruct (decide (cl_next_fid cl = 4294967295)) as [Hm|Hm].
  - rewrite Hm in Heq. done.
  - rewrite Z.mod_small in Heq by lia. lia.
Qed.

Lemma xattrwalk_loopback cl s w path attr data :
  attached cl s → sendable (cl_next_fid cl) path → walkable w path →
  sv_fids s !! second_fid cl = None → is_empty_str attr = false → str_valid attr →
  request_encodes (TXattrWalk (cl_next_fid cl) (second_fid cl) attr) = true →
  fs_get_xattr fsys path attr w = (Ok data, w) → blen data ≤ ISIZE_MAX →
  ∃ cl', client_ok cl' ∧ cl_msize cl' = cl_msize cl ∧
    xattrwalk_fid lb path attr (cl, (s, w)) =
      (Ok (second_fid cl, blen data),
       (cl', (set_table s (<[second_fid cl := mkFidState path (HXattrRead data) OpenFlags.RDONLY]>
                (sv_fids s)), w))).
Proof.
  intros Hatt Hsend Hwalk Hfree2 Hne Hstr Henc Hget Hmax.
  pose proof Hatt as (Hcl & Hfid & _ & _ & Hfree).
  destruct (second_fid_eq cl Hcl Hfid) as (_ & Hfid2 & Hdiff).
  assert (client_ok (bump_fid cl)) as Hcl0 by done.
  destruct (client_ok_after _ Hcl0) as (Hcl1 & _ & _ & Hms1). fold (after_walk cl) in *.
  assert (client_ok (bump_fid (after_walk cl))) as Hcl2 by done.
  destruct (client_ok_after _ Hcl2) as (Hcl3 & _ & _ & Hms3).
  destruct (client_ok_after _ Hcl3) as (Hcl4 & _ & _ & Hms4).
  set (fid := cl_next_fid cl) in *. set (newfid := second_fid cl) in *.
  set (s1 := set_table s (<[fid := fid_unopened path]> (sv_fids s))).
  set (st := mkFidState path (HXattrRead data) OpenFlags.RDONLY).
  set (s2 := set_table s (<[newfid := st]> (sv_fids s1))).
  unfold xattrwalk_fid.
  rewrite (eff_bind_Ok _ _ _ _ _ (walk_fid_loopback cl s w path Hatt Hsend Hwalk)).
  fold fid s1. rewrite (eff_bind_Ok _ _ _ newfid (bump_fid (after_walk cl), (s1, w))) by done.
  assert (expect lb (TXattrWalk fid newfid attr) is_xattrwalk
    (bump_fid (after_walk cl), (s1, w)) =
    (Ok (blen data), (after_tag (bump_fid (after_walk cl)), (s2, w)))) as Hx.
  { eapply (expect_loopback _ _ _ _ _ _ (RXattrWalk (blen data)));
      [done|done|by split_and!| |cbn|reflexivity|done|reflexivity].
    - cbn [srv_handle]. unfold srv_xattrwalk.
      assert (walk_base fid newfid (s1, w) = (Ok path, (s1, w))) as Hwb.
      { unfold walk_base. cbn [s1 set_table sv_fids].
        rewrite lookup_insert_ne, Hfree2 by congruence.
        rewrite bool_decide_eq_false_2 by (by intros []). rewrite andb_false_r.
        unfold fid_path. rewrite (eff_bind_Ok _ _ _ (fid_unopened path) (s1, w)); [done|].
        apply lookup_fid_Some. apply lookup_insert_eq. }
      rewrite (eff_bind_Ok _ _ _ _ _ Hwb), Hne.
      by rewrite (eff_bind_Ok _ _ _ data (s1, w)) by (unfold fs_call, on_snd; by rewrite Hget).
    - unfold in_u64, U64_MAX, ISIZE_MAX, I64_MAX in *. pose proof (blen_nonneg data). lia. }
  rewrite (eff_bind_Ok _ _ _ (Ok (blen data)) (after_tag (bump_fid (after_walk cl)), (s2, w)))
    by (unfold attempt; by rewrite Hx).
  assert (clunk_fid lb fid (after_tag (bump_fid (after_walk cl)), (s2, w)) =
    (Ok tt, (after_tag (after_tag (bump_fid (after_walk cl))),
       (set_table s2 (delete fid (sv_fids s2)), w)))) as Hc.
  { apply (clunk_loopback _ _ _ _ (fid_unopened path)); try done. cbn.
    rewrite lookup_insert_ne by congruence. apply lookup_insert_eq. }
  rewrite (eff_bind_Ok _ _ _ (Ok tt) (after_tag (after_tag (bump_fid (after_walk cl))),
    (set_table s2 (delete fid (sv_fids s2)), w))) by (unfold attempt; by rewrite Hc).
  eexists. split; [exact Hcl4|]. split; [rewrite Hms4, Hms3; exact Hms1|].
  unfold mret, eff_ret. do 4 f_equal. unfold set_table. cbn.
  rewrite delete_insert_ne by congruence. by rewrite delete_insert_id.
Qed.

Lemma remote_get_xattr_lemma cl s w path attr data :
  attached cl s → sendable (cl_next_fid cl) path → walkable w path →
  sv_fids s !! second_fid cl = None → is_empty_str attr = false → str_valid attr →
  request_encodes (TXattrWalk (cl_next_fid cl) (second_fid cl) attr) = true →
  fs_get_xattr fsys path attr w = (Ok data, w) → blen data ≤ ISIZE_MAX →
  ∃ cl', client_get_xattr lb path attr (cl, (s, w)) = (Ok data, (cl', (s, w))).
Proof.
  intros Hatt Hsend Hwalk Hfree2 Hne Hstr Henc Hget Hmax.
  pose proof Hatt as (Hcl & Hfid & _).
  destruct (second_fid_eq cl Hcl Hfid) as (_ & Hfid2 & Hdiff).
  destruct (xattrwalk_loopback cl s w path attr data) as (cl1 & Hcl1 & Hms & Hx); [done..|].
  unfold client_get_xattr, lift at 1. rewrite validated_valid by apply Hsend.
  rewrite (eff_bind_Ok _ _ _ path (cl, (s, w))) by done.
  rewrite (eff_bind_Ok _ _ _ _ _ Hx).
  set (st := mkFidState path (HXattrRead data) OpenFlags.RDONLY).
  set (s1 := set_table s (<[second_fid cl := st]> (sv_fids s))).
  pose proof Hcl as [_ Hmsz].
  destruct (read_all_loopback (Z.to_nat (blen data)) cl1 s1 w (second_fid cl) path OpenFlags.RDONLY
    data 0 (Z.max (Z.max (cl_msize cl1 - 11) 0) 1)) as (cl2 & Hcl2 & Hread); try done.
  - apply lookup_insert_eq.
  - pose proof (blen_nonneg data). lia.
  - rewrite Hms. unfold in_u32, U32_MAX in *. lia.
  - lia.
  - eexists. rewrite (with_fid_value_loopback cl1 s1 w cl2 s1 w (second_fid cl) st _ data); try done.
    + subst s1; by rewrite set_table_restore.
    + apply lookup_insert_eq.
Qed.

(** ** Writing an attribute *)

(** The server's write state after the first [n] bytes of [data]. *)
Definition partial (name : string) (data : list byte) (n : nat) : XattrWriteState :=
  mkXattrWrite name 0 (blen data) (take n data ++ replicate (length data - n) x00)
    (match n with O => [] | _ => [(0, Z.of_nat n)] end) false.

Lemma partial_ok name data n : (n ≤ length data)%nat → xattr_ok (partial name data n).
Proof.
  intros Hn. unfold xattr_ok, partial, blen. cbn [xw_expected_size xw_data xw_written].
  split; [lia|]. split; [rewrite length_app, length_take, length_replicate; lia|].
  destruct n; cbn; lia.
Qed.

Lemma partial_write name data n chunk rest :
  drop n data = chunk ++ rest → chunk ≠ [] → blen data ≤ ISIZE_MAX →
  Xattr.write_at (Z.of_nat n) chunk (partial name data n) =
    (Ok (blen chunk), partial name data (n + length chunk)).
Proof.
  intros Hd Hne Hmax.
  assert (length data - n = length chunk + length rest)%nat as Hlen
    by (rewrite <- length_drop, Hd, length_app; lia).
  assert (1 ≤ length chunk)%nat as Hc by (destruct chunk; [done|cbn; lia]).
  rewrite write_at_fits; [|apply partial_ok; lia|done|lia].
  assert (fits (xw_expected_size (partial name data n)) (Z.of_nat n, chunk) = true) as ->.
  { apply Z.leb_le. unfold partial, blen. cbn. lia. }
  unfold partial. cbn [xw_name xw_flags xw_expected_size xw_data xw_written xw_committed].
  rewrite Nat2Z.id.
  assert (take (n + length chunk) data = take n data ++ chunk) as Htake.
  { rewrite <- take_take_drop, Hd. f_equal. apply take_app_length. }
  do 2 f_equal.
  - rewrite take_app_le by (rewrite length_take; lia). rewrite take_take, Nat.min_id.
    rewrite Htake, <- app_assoc. do 2 f_equal.
    replace (Z.to_nat (Z.of_nat n + blen chunk)) with (n + length chunk)%nat by (unfold blen; lia).
    rewrite drop_app_ge by (rewrite length_take; lia). rewrite length_take, Nat.min_l by lia.
    rewrite drop_replicate. f_equal. lia.
  - unfold Xattr.record_write. cbn [fst snd]. unfold blen.
    rewrite (proj2 (Z.leb_gt _ _)) by lia. destruct n as [|n]; cbn [foldl].
    + cbn. destruct (length chunk) eqn:Hlc; [lia|]. by rewrite <- Hlc.
    + unfold Xattr.record_step. cbn [fst snd].
      rewrite (proj2 (Z.ltb_ge _ _)) by lia. rewrite (proj2 (Z.ltb_ge _ _)) by lia.
      cbn [app Nat.add]. do 2 f_equal; lia.
Qed.

Lemma partial_complete name data :
  Xattr.is_complete (partial name data (length data)) = true ∧
  xw_data (partial name data (length data)) = data.
Proof.
  unfold partial, Xattr.is_complete. cbn [xw_expected_size xw_data xw_written]. split.
  - destruct data as [|b data]; [done|]. cbn [length blen]. unfold blen. cbn [length].
    by rewrite Z.eqb_refl, Z.eqb_refl, orb_true_r.
  - by rewrite take_ge, Nat.sub_diag, app_nil_r by done.
Qed.

Lemma chunks_fuel_spec fuel n data : (1 ≤ n)%nat → (length data ≤ fuel)%nat →
  concat (chunks_fuel fuel n data) = data ∧
  Forall (λ c, c ≠ [] ∧ (length c ≤ n)%nat) (chunks_fuel fuel n data).
Proof.
  intros Hn. revert data. induction fuel as [|fuel IH]; intros data Hlen; cbn [chunks_fuel].
  { destruct data; [by split|cbn in Hlen; lia]. }
  destruct data as [|b data]; [by split|].
  destruct (IH (drop n (b :: data))) as [Hc Hf].
  { rewrite length_drop. cbn [length] in *. lia. }
  cbn [concat]. rewrite Hc, take_drop. split; [done|]. constructor; [|done].
  split; [by destruct n; [lia|]|]. rewrite length_take. lia.
Qed.

Lemma chunks_spec n data : (1 ≤ n)%nat →
  concat (chunks n data) = data ∧ Forall (λ c, c ≠ [] ∧ (length c ≤ n)%nat) (chunks n data).
Proof. intros Hn. by apply chunks_fuel_spec. Qed.

Lemma write_loopback cl s w fid p fl name data n chunk rest :
  client_ok cl → in_u32 fid →
  sv_fids s !! fid = Some (mkFidState p (HXattrWrite (partial name data n)) fl) →
  drop n data = chunk ++ rest → chunk ≠ [] → blen data ≤ ISIZE_MAX →
  blen chunk ≤ U32_MAX - 23 →
  expect lb (TWrite fid (Z.of_nat n) chunk) is_write_count (cl, (s, w)) =
    (Ok (blen chunk),
     (after_tag cl, (set_table s (<[fid := mkFidState p
        (HXattrWrite (partial name data (n + length chunk))) fl]> (sv_fids s)), w))).
Proof.
  intros Hcl Hfid Hf Hd Hne Hmax Hchunk. pose proof (blen_nonneg chunk).
  assert (length data - n = length chunk + length rest)%nat as Hlen
    by (rewrite <- length_drop, Hd, length_app; lia).
  eapply (expect_loopback _ _ _ _ _ _ (RWrite (blen chunk)));
    [exact Hcl| | | | |reflexivity|by intros|reflexivity].
  - unfold request_encodes. cbn [encode_request_body]. unfold put_counted_data.
    rewrite (proj2 (Z.leb_le _ U32_MAX)) by lia. cbn [mbind outcome_bind].
    apply Z.leb_le. rewrite blen_app. unfold put_u32, put_u64. rewrite !blen_app.
    change (blen []) with 0. unfold blen at 1 2 3. rewrite !length_le_bytes. lia.
  - split; [done|]. unfold in_u64, U64_MAX, ISIZE_MAX, I64_MAX, blen in *. split; [lia|].
    assert (1 ≤ length chunk)%nat by (destruct chunk; [done|cbn; lia]). lia.
  - cbn [srv_handle]. unfold srv_write.
    rewrite (eff_bind_Ok _ _ _ _ _ (lookup_fid_Some _ _ _ _ Hf)).
    cbn [fid_st_handle fid_st_path fid_st_flags].
    rewrite (partial_write name data n chunk rest) by done.
    rewrite (eff_bind_Ok _ _ _ (blen chunk) (set_table s (<[fid := mkFidState p
      (HXattrWrite (partial name data (n + length chunk))) fl]> (sv_fids s)), w)) by done.
    by rewrite (proj2 (Z.leb_le (blen chunk) U32_MAX)) by lia.
  - cbn. unfold in_u32. lia.
Qed.

Lemma write_all_loopback cs cl s w fid p fl name data n :
  client_ok cl → in_u32 fid →
  sv_fids s !! fid = Some (mkFidState p (HXattrWrite (partial name data n)) fl) →
  drop n data = concat cs → Forall (λ c, c ≠ [] ∧ blen c ≤ U32_MAX - 23) cs →
  blen data ≤ ISIZE_MAX → (n ≤ length data)%nat →
  ∃ cl', client_ok cl' ∧ write_all_loop lb fid (Z.of_nat n) cs (cl, (s, w)) =
    (Ok tt, (cl', (set_table s (<[fid := mkFidState p
       (HXattrWrite (partial name data (length data))) fl]> (sv_fids s)), w))).
Proof.
  intros Hcl Hfid. revert cl Hcl s n.
  induction cs as [|c cs IH]; intros cl Hcl s n Hf Hd Hcs Hmax Hn; cbn [write_all_loop concat] in *.
  - assert (n = length data) as ->.
    { assert (length (drop n data) = 0)%nat as Hl by (by rewrite Hd). rewrite length_drop in Hl. lia. }
    exists cl. split; [done|]. unfold mret, eff_ret. do 3 f_equal. unfold set_table.
    rewrite insert_id by done. by destruct s.
  - apply Forall_cons in Hcs as [[Hne Hc] Hcs].
    pose proof (client_ok_after cl Hcl) as (Hcl' & _).
    assert (length data - n = length c + length (concat cs))%nat as Hlen
      by (rewrite <- length_drop, Hd, length_app; lia).
    rewrite (eff_bind_Ok _ _ _ _ _ (write_loopback cl s w fid p fl name data n c (concat cs)
      Hcl Hfid Hf Hd Hne Hmax Hc)).
    set (s1 := set_table s (<[fid := mkFidState p (HXattrWrite (partial name data (n + length c))) fl]>
      (sv_fids s))).
    rewrite Z.eqb_refl. cbn [negb guard_err].
    rewrite (eff_bind_Ok _ _ _ tt (after_tag cl, (s1, w))) by done.
    rewrite (proj2 (Z.ltb_ge U64_MAX _)) by (unfold U64_MAX, ISIZE_MAX, I64_MAX, blen in *; lia).
    cbn [guard_err]. rewrite (eff_bind_Ok _ _ _ tt (after_tag cl, (s1, w))) by done.
    replace (Z.of_nat n + blen c) with (Z.of_nat (n + length c)) by (unfold blen; lia).
    destruct (IH (after_tag cl) Hcl' s1 (n + length c)%nat) as (cl2 & Hcl2 & Hrun); [| |done|done|lia|].
    + apply lookup_insert_eq.
    + rewrite <- drop_drop, Hd. apply drop_app_length.
    + exists cl2. split; [done|]. rewrite Hrun. unfold s1, set_table. cbn.
      by rewrite insert_insert_eq.
Qed.

(** Clunking a fid with a complete attribute write commits it. *)
Lemma clunk_commit_loopback cl s w fid p fl name data r w' :
  client_ok cl → in_u32 fid →
  sv_fids s !! fid = Some (mkFidState p (HXattrWrite (partial name data (length data))) fl) →
  fs_set_xattr fsys p name data w = (r, w') → (r = Ok tt ∨ ∃ e, r = Err e) →
  clunk_fid lb fid (cl, (s, w)) =
    (match r with
     | Ok _ => Ok tt
     | Err e => Err (errno_to_error (errno_for_error e))
     | Panic => Panic
     | NoFuel => NoFuel
     end, (after_tag cl, (set_table s (delete fid (sv_fids s)), w'))).
Proof.
  intros Hcl Hfid Hf Hset Hr. destruct (partial_complete name data) as [Hcomp Hdata].
  assert (srv_handle fsys clock (TClunk fid) (s, w) =
    (match r with Ok _ => Ok RClunk | Err e => Err e | Panic => Panic | NoFuel => NoFuel end,
     (set_table s (delete fid (sv_fids s)), w'))) as Hsrv.
  { cbn [srv_handle]. unfold srv_clunk.
    rewrite (eff_bind_Ok (take_fid fid) _ (s, w) (Some (mkFidState p
      (HXattrWrite (partial name data (length data))) fl))
      (set_table s (delete fid (sv_fids s)), w)) by (cbn; by rewrite Hf).
    cbn [ok_or].
    rewrite (eff_bind_Ok (mret _) _ _ (mkFidState p
      (HXattrWrite (partial name data (length data))) fl)
      (set_table s (delete fid (sv_fids s)), w)) by done.
    unfold commit_xattr_if_ready. cbn [fid_st_handle fid_st_path fid_st_flags].
    change (xw_committed (partial name data (length data))) with false.
    rewrite Hcomp, Hdata. cbn [negb guard_err].
    unfold mbind, eff_bind, fs_call, on_snd. cbn.
    rewrite Hset. by destruct Hr as [->|[e ->]]. }
  destruct Hr as [->|[e ->]].
  - by eapply (expect_loopback _ _ _ _ _ _ RClunk).
  - by apply expect_loopback_err.
Qed.

Lemma remote_set_xattr_lemma cl s w path attr data r w' :
  attached cl s → sendable (cl_next_fid cl) path → walkable w path →
  is_empty_str attr = false → str_valid attr →
  request_encodes (TXattrCreate (cl_next_fid cl) attr (blen data) 0) = true →
  blen data ≤ ISIZE_MAX → cl_msize cl ≤ DEFAULT_MSIZE →
  fs_set_xattr fsys path attr data w = (r, w') → (r = Ok tt ∨ ∃ e, r = Err e) →
  ∃ cl', client_set_xattr lb path attr data (cl, (s, w)) =
    (match r with
     | Ok _ => Ok tt
     | Err e => Err (errno_to_error (errno_for_error e))
     | Panic => Panic
     | NoFuel => NoFuel
     end, (cl', (s, w'))).
Proof.
  intros Hatt Hsend Hwalk Hne Hstr Henc Hmax Hms Hset Hr.
  pose proof Hatt as (Hcl & Hfid & _ & _ & Hfree).
  assert (client_ok (bump_fid cl)) as Hcl0 by done.
  destruct (client_ok_after _ Hcl0) as (Hcl1 & _ & _ & Hms1). fold (after_walk cl) in *.
  destruct (client_ok_after _ Hcl1) as (Hcl2 & _ & _ & Hms2).
  set (fid := cl_next_fid cl) in *.
  set (s1 := set_table s (<[fid := fid_unopened path]> (sv_fids s))).
  set (st0 := mkFidState (H:=H) path (HXattrWrite (partial attr data 0)) OpenFlags.WRONLY).
  set (s2 := set_table s1 (<[fid := st0]> (sv_fids s1))).
  set (n := Z.to_nat (Z.max (Z.max (cl_msize cl - 23) 0) 1)).
  assert (1 ≤ n)%nat as Hn by lia.
  destruct (chunks_spec n data Hn) as [Hconcat Hchunks].
  destruct (write_all_loopback (chunks n data) (after_tag (after_walk cl)) s2 w fid path
    OpenFlags.WRONLY attr data 0) as (cl3 & Hcl3 & Hwrite); try done; [| |lia|].
  { apply lookup_insert_eq. }
  { eapply Forall_impl; [exact Hchunks|]. intros c [? Hc]. split; [done|].
    unfold blen, n, DEFAULT_MSIZE, U32_MAX in *. lia. }
  set (s3 := set_table s2 (<[fid := mkFidState path
    (HXattrWrite (partial attr data (length data))) OpenFlags.WRONLY]> (sv_fids s2))) in Hwrite.
  assert (expect lb (TXattrCreate fid attr (blen data) 0) is_xattrcreate (after_walk cl, (s1, w)) =
    (Ok tt, (after_tag (after_walk cl), (s2, w)))) as Hcreate.
  { eapply (expect_loopback _ _ _ _ _ _ RXattrCreate); try done.
    - split; [done|]. split; [done|]. split; [|done]. pose proof (blen_nonneg data).
      unfold in_u64, U64_MAX, ISIZE_MAX, I64_MAX in *. lia.
    - cbn [srv_handle]. unfold srv_xattrcreate. rewrite Hne. cbn [guard_err].
      rewrite (eff_bind_Ok (mret tt) _ _ tt (s1, w)) by done.
      rewrite (eff_bind_Ok _ _ _ (fid_unopened path) (s1, w))
        by (apply lookup_fid_Some, lookup_insert_eq).
      rewrite (eff_bind_Ok _ _ _ (partial attr data 0) (s1, w)); [done|].
      unfold lift, Xattr.new. rewrite (proj2 (Z.ltb_ge ISIZE_MAX _)) by done.
      unfold partial, blen. cbn [take app]. by rewrite Nat2Z.id, Nat.sub_0_r. }
  unfold client_set_xattr, lift at 1. rewrite validated_valid by apply Hsend.
  rewrite (eff_bind_Ok _ _ _ path (cl, (s, w))) by done.
  rewrite (eff_bind_Ok _ _ _ _ _ (walk_fid_loopback cl s w path Hatt Hsend Hwalk)). fold fid s1.
  unfold with_fid.
  rewrite (eff_bind_Ok _ _ _ (Ok tt) (cl3, (s3, w))).
  2: { unfold attempt. rewrite (eff_bind_Ok _ _ _ _ _ Hcreate). unfold write_all_fid.
    rewrite (eff_bind_Ok _ _ _ (cl_msize cl) (after_tag (after_walk cl), (s2, w)))
      by (unfold client_msize, gets; by rewrite Hms2, Hms1).
    fold n. change (Z.of_nat 0) with 0 in Hwrite. by rewrite Hwrite. }
  assert (set_table s3 (delete fid (sv_fids s3)) = s) as Hrestore.
  { unfold s3, s2, s1, set_table. cbn. rewrite !insert_insert_eq, delete_insert_id by done.
    by destruct s. }
  assert (sv_fids s3 !! fid = Some (mkFidState path
    (HXattrWrite (partial attr data (length data))) OpenFlags.WRONLY)) as Hf3 by apply lookup_insert_eq.
  pose proof (clunk_commit_loopback cl3 s3 w fid path OpenFlags.WRONLY attr data r w'
    Hcl3 Hfid Hf3 Hset Hr) as Hclunk. rewrite Hrestore in Hclunk.
  exists (after_tag cl3). unfold mbind, eff_bind, attempt. rewrite Hclunk.
  by destruct Hr as [->|[e ->]].
Qed.
End Remote.

(** ** A filesystem with one file and one attribute, for the witnesses *)

Definition cell_fs : FileSystem (list byte) DirFile := {|
  fs_open _ p := mret (dir_file_new (Meta.dir p 493) []);
  fs_stat ctx p := lift (static_lstat ctx p tt).1;
  fs_lstat ctx p := lift (static_lstat ctx p tt).1;
  fs_read_dir ctx p := lift (static_read_dir ctx p tt).1;
  fs_create _ := unsupported;
  fs_open_file p _ _ := mret (dir_file_new (Meta.dir p 493) []);
  fs_mkdir _ _ := unsupported;
  fs_remove _ := unsupported;
  fs_rename _ _ := unsupported;
  fs_link _ _ := unsupported;
  fs_chmod _ _ := unsupported;
  fs_chown _ _ _ := unsupported;
  fs_chtimes _ _ := unsupported;
  fs_truncate _ _ := unsupported;
  fs_symlink _ _ := unsupported;
  fs_readlink _ := unsupported;
  fs_set_xattr _ _ data := put data;
  fs_get_xattr _ _ := get;
  fs_list_xattrs _ := unsupported;
  fs_remove_xattr _ _ := unsupported
|}.

(** A server whose only fid is the client's root fid. *)
Definition attached_server : ServerState DirFile :=
  mkServerState DEFAULT_MSIZE {[root_fid := fid_unopened "."]}.

Lemma cell_attached : attached client_new attached_server.
Proof.
  split; [split; split; vm_compute; discriminate|].
  split; [split; vm_compute; discriminate|]. split; [discriminate|].
  split; [|reflexivity]. eexists. split; reflexivity.
Qed.

Lemma cell_sendable : sendable (cl_next_fid client_new) "a".
Proof.
  split; [reflexivity|]. split; [|reflexivity]. repeat constructor.
Qed.

Lemma cell_walkable w : walkable cell_fs w "a".
Proof.
  intros l Hl Hpre. change (parts_of "a") with ["a"] in Hpre.
  destruct l as [|p [|q l]]; [done| |].
  - apply prefix_cons_inv_1 in Hpre as ->. exists (Meta.file "a" 420 3). reflexivity.
  - apply prefix_cons_inv_2 in Hpre. destruct Hpre as [k Hk]. discriminate Hk.
Qed.

(** ** Properties *)

(** A client call over the loopback transport is the server's handler: for a
    request that fits a frame, the answer is the server's response, with an error
    reply turned back into an error, and nothing else of the server changes.  The
    tag used is never [NOTAG]. *)
Theorem client_call_is_server {W H} `{!FileHandle W H} (fsys : FileSystem W H) clock
    cl st r resp st' :
  client_ok cl → request_encodes r = true → request_wf r →
  srv_respond fsys clock r st = (Ok resp, st') →
  response_wf resp → response_encodes resp = true →
  call (loopback fsys clock) r (cl, st) =
    (match resp with RLerror ecode => Err (errno_to_error ecode) | _ => Ok resp end,
     (after_tag cl, st')) ∧
  ∃ tag, alloc_tag (cl, st) = (Ok tag, (after_tag cl, st)) ∧ in_u16 tag ∧ tag ≠ NOTAG.
Proof.
  intros Hcl Henc Hwf Hrun Hrwf Hrenc. split; [by apply call_loopback|].
  destruct (alloc_tag_spec cl st Hcl) as (tag & ? & ? & ? & _). eauto.
Qed.

Lemma client_call_is_server_witness :
  call (loopback static_fs static_clock) (TClunk 5) (mkClient DEFAULT_MSIZE NOTAG 2, static_state) =
    (Err (EKind Invalid), (mkClient DEFAULT_MSIZE 1 2, static_state)).
Proof.
  apply (client_call_is_server static_fs static_clock (mkClient DEFAULT_MSIZE NOTAG 2) static_state
    (TClunk 5) (RLerror 22) static_state).
  - split; split; vm_compute; discriminate.
  - reflexivity.
  - split; vm_compute; discriminate.
  - vm_compute. reflexivity.
  - split; vm_compute; discriminate.
  - reflexivity.
Defined.

(** Remote [stat]: over the loopback transport, [stat] of a path whose ancestors
    can be walked gives the [lstat] of the exported filesystem, with the same size,
    owner, type and permission bits, the base name as its name and times before the
    epoch moved to the epoch; server and filesystem are as before (the fid it used
    is free again). *)
Theorem remote_stat {W H} `{!FileHandle W H} (fsys : FileSystem W H) clock cl s w ctx name m :
  attached cl s → sendable (cl_next_fid cl) name → walkable fsys w name →
  lstat_is fsys w name m → meta_wf m → countable fsys w name m →
  ∃ cl', client_stat (loopback fsys clock) ctx name (cl, (s, w)) =
    (Ok (remote_meta name m), (cl', (s, w))).
Proof. by apply remote_stat_lemma. Qed.

Lemma remote_stat_witness :
  ∃ cl', client_stat (loopback cell_fs (mret 0)) Ctx.new "a" (client_new, (attached_server, [])) =
    (Ok (Meta.file "a" 420 3), (cl', (attached_server, []))).
Proof.
  apply (remote_stat cell_fs (mret 0) client_new attached_server [] Ctx.new "a"
    (Meta.file "a" 420 3) cell_attached cell_sendable (cell_walkable [])).
  - reflexivity.
  - repeat split; vm_compute; discriminate.
  - discriminate.
Defined.

(** C4. Remote attributes: over the loopback transport, [get_xattr] of an attribute of
    any size (read in as many pieces as the message size asks for) gives the
    attribute of the exported filesystem, and [set_xattr] (written in pieces and
    committed when the fid is clunked) has exactly the effect and the outcome of
    setting it there once with all the data; the server's fid table is as before. *)
Theorem remote_xattr {W H} `{!FileHandle W H} (fsys : FileSystem W H) clock cl s w path attr data :
  attached cl s → sendable (cl_next_fid cl) path → walkable fsys w path →
  is_empty_str attr = false → str_valid attr → blen data ≤ ISIZE_MAX →
  (sv_fids s !! second_fid cl = None →
   request_encodes (TXattrWalk (cl_next_fid cl) (second_fid cl) attr) = true →
   fs_get_xattr fsys path attr w = (Ok data, w) →
   ∃ cl', client_get_xattr (loopback fsys clock) path attr (cl, (s, w)) =
     (Ok data, (cl', (s, w)))) ∧
  (∀ r w', request_encodes (TXattrCreate (cl_next_fid cl) attr (blen data) 0) = true →
   cl_msize cl ≤ DEFAULT_MSIZE →
   fs_set_xattr fsys path attr data w = (r, w') → (r = Ok tt ∨ ∃ e, r = Err e) →
   ∃ cl', client_set_xattr (loopback fsys clock) path attr data (cl, (s, w)) =
     (match r with
      | Ok _ => Ok tt
      | Err e => Err (errno_to_error (errno_for_error e))
      | Panic => Panic
      | NoFuel => NoFuel
      end, (cl', (s, w')))).
Proof.
  intros Hatt Hsend Hwalk Hne Hstr Hmax. split.
  - intros Hfree Henc Hget. by apply remote_get_xattr_lemma.
  - intros r w' Henc Hms Hset Hr. by apply remote_set_xattr_lemma.
Qed.

Lemma remote_xattr_witness :
  (∃ cl', client_get_xattr (loopback cell_fs (mret 0)) "a" "user.x"
     (client_new, (attached_server, [x61; x62])) =
     (Ok [x61; x62], (cl', (attached_server, [x61; x62])))) ∧
  (∃ cl', client_set_xattr (loopback cell_fs (mret 0)) "a" "user.x" [x61; x62]
     (client_new, (attached_server, [x00])) =
     (Ok tt, (cl', (attached_server, [x61; x62])))).
Proof.
  split.
  - apply (remote_xattr cell_fs (mret 0) client_new attached_server [x61; x62] "a" "user.x"
      [x61; x62] cell_attached cell_sendable (cell_walkable _));
      try reflexivity. vm_compute. discriminate.
  - apply (proj2 (remote_xattr cell_fs (mret 0) client_new attached_server [x00] "a" "user.x"
      [x61; x62] cell_attached cell_sendable (cell_walkable _) eq_refl eq_refl
      ltac:(vm_compute; discriminate)) (Ok tt) [x61; x62]);
      [reflexivity|vm_compute; discriminate|reflexivity|left; reflexivity].
Defined.

(** A failed remote [rename] can leak a fid: when the new parent does not exist the
    client returns the error of its second walk without clunking the fid of the
    first, which stays in the server's table. *)
Theorem rename_leaks_fid :
  ∃ cl' s', client_rename (loopback static_fs static_clock) "a" "missing/b"
      (client_new, (attached_server, tt)) =
    (Err (EKind NotFound), (cl', (s', tt))) ∧
  sv_fids attached_server !! 2 = None ∧ sv_fids s' !! 2 = Some (fid_unopened ".").
Proof. eexists _, _. split; [vm_compute; reflexivity|]. split; reflexivity. Qed.
