(* ===== verification/Pipe.v ===== *)
(** * star9-fs: pipes and signals

    Models [PipeBuffer], [PipePort], [pipe_pair], [PipeFs], [SignalFs] and
    [SignalHandle] of [crates/star9-fs/src/lib.rs].

    The world holds the buffers and an [Arc<PipeBuffer>] is an index into them, so
    clones of a port share its buffers.  A read of a blocking, empty and open
    buffer parks its thread in [ready.wait]; [port_read] answers [NoFuel] there and
    changes nothing, and [pipe_step] lets such a thread take its step only when
    another one has woken it.  Every other method holds the lock of one buffer
    from beginning to end and is one step. *)

From stdpp Require Import base list numbers option strings.
From Stdlib Require Import ZArith Lia.
From S2P Require Import Prelude Strs Core FsTrait.

Local Open Scope Z_scope.

Record PipeBuffer := mkPipeBuffer {
  pb_data : list byte;
  pb_closed : bool;
  pb_blocking : bool
}.

Abbreviation Pipes := (list PipeBuffer).

Record PipePort := mkPipePort { pp_reader : nat; pp_writer : nat }.

#[global] Instance PipePort_eq_dec : EqDecision PipePort.
Proof. solve_decision. Defined.

Module Pipe.

(** ** Buffers *)

Definition buffer_new (blocking : bool) : PipeBuffer := mkPipeBuffer [] false blocking.

Definition buffer_len (p : PipeBuffer) : Z := blen (pb_data p).

(** [Arc::new(PipeBuffer::new(blocking))] *)
Definition alloc (blocking : bool) : M Pipes nat := λ w,
  (Ok (length w), w ++ [buffer_new blocking]).

(** Taking the lock of a buffer, and what is left in it when it is released. *)
Definition load (i : nat) : M Pipes PipeBuffer := λ w,
  match w !! i with Some p => (Ok p, w) | None => (Panic, w) end.

Definition store (i : nat) (p : PipeBuffer) : M Pipes unit := modify (λ w, <[i:=p]> w).

Definition set_data (data : list byte) (p : PipeBuffer) : PipeBuffer :=
  mkPipeBuffer data (pb_closed p) (pb_blocking p).

Definition set_closed (p : PipeBuffer) : PipeBuffer :=
  mkPipeBuffer (pb_data p) true (pb_blocking p).

(** The condition of the [while] loop of [read]. *)
Definition must_wait (p : PipeBuffer) : bool :=
  pb_blocking p && bool_decide (pb_data p = []) && negb (pb_closed p).

(** ** Ports *)

Definition pipe_pair (blocking : bool) : M Pipes (PipePort * PipePort) :=
  a ← alloc blocking;
  b ← alloc blocking;
  mret (mkPipePort a b, mkPipePort b a).

Definition port_read (port : PipePort) (len : Z) : M Pipes (list byte) :=
  p ← load (pp_reader port);
  if must_wait p then no_fuel
  else if bool_decide (pb_data p = []) then mret []
  else
    let n := Z.to_nat (Z.min len (buffer_len p)) in
    store (pp_reader port) (set_data (drop n (pb_data p)) p) ;;
    mret (take n (pb_data p)).

Definition port_write (port : PipePort) (data : list byte) : M Pipes Z :=
  p ← load (pp_writer port);
  guard_err (pb_closed p) (EKind Closed) ;;
  store (pp_writer port) (set_data (pb_data p ++ data) p) ;;
  mret (blen data).

Definition port_stat (port : PipePort) : M Pipes Metadata :=
  p ← load (pp_reader port);
  mret (Meta.file "data" 438 (buffer_len p)).

Definition port_close (port : PipePort) : M Pipes unit :=
  p ← load (pp_writer port);
  store (pp_writer port) (set_closed p).

(** [impl FileHandle for PipePort]: [read_at], [write_at], [seek], [read_dir] and
    [sync] are the provided methods. *)
#[global] Instance port_handle : FileHandle Pipes PipePort := {
  fh_read len := by_ref (λ port, port_read port len);
  fh_write data := by_ref (λ port, port_write port data);
  fh_read_at := default_read_at (λ _, unsupported) (λ len, by_ref (λ port, port_read port len));
  fh_write_at :=
    default_write_at (λ _, unsupported) (λ data, by_ref (λ port, port_write port data));
  fh_seek _ := unsupported;
  fh_stat := by_ref port_stat;
  fh_read_dir := default_read_dir (by_ref port_stat);
  fh_sync := unsupported;
  fh_close := by_ref port_close
}.

(** ** [PipeFs] *)

Record PipeFs := mkPipeFs { pf_a : PipePort; pf_b : PipePort }.

Abbreviation PipeFile := (PipePort + DirFile)%type.
#[global] Instance pipe_file : FileHandle Pipes PipeFile := sum_handle.
#[global] Instance pipe_box_dir : BoxDir PipeFile := inr.

Definition pipefs_new (blocking : bool) : M Pipes PipeFs :=
  '(a, b) ← pipe_pair blocking;
  mret (mkPipeFs a b).

Definition data_entry (name : string) : DirEntry := mkDirEntry name (Meta.file name 438 0).

Definition pipefs_open (f : PipeFs) (ctx : FsContext) (name : string) : M Pipes PipeFile :=
  if decide (name = ".") then
    mret (directory_file (Meta.dir "." 365) [data_entry "data"; data_entry "data1"])
  else if decide (name = "data") then mret (inl (pf_a f))
  else if decide (name = "data1") then mret (inl (pf_b f))
  else throw (EPath "open" name NotFound).

Definition pipefs_stat (f : PipeFs) (ctx : FsContext) (name : string) : M Pipes Metadata :=
  if decide (name = ".") then mret (Meta.dir "." 365)
  else if decide (name = "data") then mret (Meta.file name 438 0)
  else if decide (name = "data1") then mret (Meta.file name 438 0)
  else throw (EPath "stat" name NotFound).

Definition pipefs (f : PipeFs) : FileSystem Pipes PipeFile :=
  default_fs (pipefs_open f) (pipefs_stat f) (λ _, unsupported) (λ _ _, unsupported).

(** ** [SignalFs]

    A filesystem and its clones share one list of subscribers; a handle is its
    own buffer. *)
Record SignalWorld := mkSignalWorld { sw_pipes : Pipes; sw_subscribers : list nat }.

Definition in_pipes {A} (m : M Pipes A) : M SignalWorld A :=
  zoom sw_pipes (λ p w, mkSignalWorld p (sw_subscribers w)) m.

Record SignalHandle := mkSignalHandle { sh_reader : nat }.

Definition signal_read (h : SignalHandle) (len : Z) : M SignalWorld (list byte) :=
  in_pipes (port_read (mkPipePort (sh_reader h) (sh_reader h)) len).

(** [write] takes a copy of the list under its lock, and then the lock of one buffer after
    another.  [signal_write] is the call of a thread that is alone; where threads meet,
    [deliver] is one step ([PipeProps]). *)
Definition write_begin : M SignalWorld (list nat) := gets sw_subscribers.

(** One turn of the loop of [write]. *)
Definition deliver (data : list byte) (sub : nat) : M Pipes unit :=
  p ← load sub;
  if negb (pb_closed p) then store sub (set_data (pb_data p ++ data) p) else mret tt.

Definition signal_write (h : SignalHandle) (data : list byte) : M SignalWorld Z :=
  subscribers ← write_begin;
  for_each (λ sub, in_pipes (deliver data sub)) subscribers ;;
  mret (blen data).

Definition signal_stat (h : SignalHandle) : M SignalWorld Metadata :=
  p ← in_pipes (load (sh_reader h));
  mret (Meta.file "data" 438 (buffer_len p)).

(** [close] is the provided method. *)
#[global] Instance signal_handle : FileHandle SignalWorld SignalHandle := {
  fh_read len := by_ref (λ h, signal_read h len);
  fh_write data := by_ref (λ h, signal_write h data);
  fh_read_at := default_read_at (λ _, unsupported) (λ len, by_ref (λ h, signal_read h len));
  fh_write_at := default_write_at (λ _, unsupported) (λ data, by_ref (λ h, signal_write h data));
  fh_seek _ := unsupported;
  fh_stat := by_ref signal_stat;
  fh_read_dir := default_read_dir (by_ref signal_stat);
  fh_sync := unsupported;
  fh_close := mret tt
}.

Abbreviation SignalFile := (SignalHandle + DirFile)%type.
#[global] Instance signal_file : FileHandle SignalWorld SignalFile := sum_handle.
#[global] Instance signal_box_dir : BoxDir SignalFile := inr.

Definition subscribe : M SignalWorld SignalHandle :=
  buffer ← in_pipes (alloc true);
  modify (λ w, mkSignalWorld (sw_pipes w) (sw_subscribers w ++ [buffer])) ;;
  mret (mkSignalHandle buffer).

Definition signal_open (ctx : FsContext) (name : string) : M SignalWorld SignalFile :=
  if decide (name = ".") then
    mret (directory_file (Meta.dir "." 365) [data_entry "data"])
  else
    guard_err (negb (bool_decide (name = "data"))) (EPath "open" name NotFound) ;;
    h ← subscribe;
    mret (inl h).

Definition signalfs : FileSystem SignalWorld SignalFile :=
  default_fs signal_open (default_stat signal_open) (λ _, unsupported) (λ _ _, unsupported).
End Pipe.
