(* ===== verification/PipeProps.v ===== *)
(** * Correctness of pipes and signals

    [pipe_step] interleaves the calls of threads on the two ports of a pipe.
    [pipe_fifo] and [pipe_eof_complete] say what a reader receives, [pipe_read_waits]
    when it waits.  [signal_refines_log] shows that a signal filesystem whose calls are made
    one after another implements one log that every subscriber reads from where it
    subscribed; [signal_step] interleaves the locks of threads, and [signal_broadcast] says
    what then still holds. *)

From stdpp Require Import base list numbers option strings sets.
From Stdlib Require Import ZArith Lia.
From S2P Require Import Prelude Strs Core FsTrait Pipe.

Local Open Scope Z_scope.

Import Pipe.

(** ** Threads on the two ports of a pipe *)

Inductive Side := SideA | SideB.
#[global] Instance Side_eq_dec : EqDecision Side.
Proof. solve_decision. Defined.

Definition other (s : Side) : Side := match s with SideA => SideB | SideB => SideA end.

Definition port_of (f : PipeFs) (s : Side) : PipePort :=
  match s with SideA => pf_a f | SideB => pf_b f end.

(** What one call of a thread did. *)
Inductive PipeEvent :=
| Received (s : Side) (len : Z) (bs : list byte)
| Sent (s : Side) (data : list byte)
| Refused (s : Side) (data : list byte)
| Closed_by (s : Side).

Inductive pipe_step (f : PipeFs) : Pipes → PipeEvent → Pipes → Prop :=
| step_read s len bs w w' :
    port_read (port_of f s) len w = (Ok bs, w') → pipe_step f w (Received s len bs) w'
| step_write s data n w w' :
    port_write (port_of f s) data w = (Ok n, w') → pipe_step f w (Sent s data) w'
| step_refuse s data e w w' :
    port_write (port_of f s) data w = (Err e, w') → pipe_step f w (Refused s data) w'
| step_close s w w' :
    port_close (port_of f s) w = (Ok tt, w') → pipe_step f w (Closed_by s) w'.

Inductive pipe_run (f : PipeFs) : Pipes → list PipeEvent → Pipes → Prop :=
| run_nil w : pipe_run f w [] w
| run_cons w e w1 tr w' :
    pipe_step f w e w1 → pipe_run f w1 tr w' → pipe_run f w (e :: tr) w'.

(** The bytes one side has written, and has read, along a run. *)
Fixpoint sent (s : Side) (tr : list PipeEvent) : list byte :=
  match tr with
  | [] => []
  | Sent s' data :: tr' => (if decide (s' = s) then data else []) ++ sent s tr'
  | _ :: tr' => sent s tr'
  end.

Fixpoint received (s : Side) (tr : list PipeEvent) : list byte :=
  match tr with
  | [] => []
  | Received s' _ bs :: tr' => (if decide (s' = s) then bs else []) ++ received s tr'
  | _ :: tr' => received s tr'
  end.

Definition closes (s : Side) (tr : list PipeEvent) : bool :=
  existsb (λ e, match e with Closed_by s' => bool_decide (s' = s) | _ => false end) tr.

(** ** The state of a pipe along a run *)

(** The buffer that [s] writes and [other s] reads. *)
Definition buffer_of (f : PipeFs) (s : Side) : nat := pp_writer (port_of f s).

(** The two ports are crossed over two buffers of the world. *)
Definition pipe_ok (f : PipeFs) (w : Pipes) : Prop :=
  pp_reader (pf_a f) = pp_writer (pf_b f) ∧ pp_reader (pf_b f) = pp_writer (pf_a f)
  ∧ pp_writer (pf_a f) ≠ pp_writer (pf_b f)
  ∧ ∀ s, is_Some (w !! buffer_of f s).

Lemma buffer_of_other f w s : pipe_ok f w → pp_reader (port_of f s) = buffer_of f (other s).
Proof. intros (H1 & H2 & _). by destruct s. Qed.

Lemma buffer_of_inj f w s s' : pipe_ok f w → buffer_of f s = buffer_of f s' → s = s'.
Proof. intros (_ & _ & H & _). unfold buffer_of. destruct s, s'; cbn; intros; congruence. Qed.

Lemma other_involutive s : other (other s) = s.
Proof. by destruct s. Qed.

Lemma other_inj s s' : other s = other s' → s = s'.
Proof. by destruct s, s'. Qed.

Lemma pipefs_new_ok blocking w f w' : pipefs_new blocking w = (Ok f, w') →
  pipe_ok f w' ∧ ∀ s, w' !! buffer_of f s = Some (buffer_new blocking).
Proof.
  unfold pipefs_new, pipe_pair, alloc. unfold_eff. intros H. cbn in H. simplify_eq.
  assert (∀ s, ((w ++ [buffer_new blocking]) ++ [buffer_new blocking])
    !! buffer_of (mkPipeFs (mkPipePort (length w) (length (w ++ [buffer_new blocking])))
        (mkPipePort (length (w ++ [buffer_new blocking])) (length w))) s
    = Some (buffer_new blocking)) as Hl.
  { intros []; unfold buffer_of; cbn.
    - by apply list_lookup_middle.
    - rewrite <- app_assoc. by apply list_lookup_middle. }
  split; [|done]. split; [done|]. split; [done|]. split.
  - cbn. rewrite length_app. cbn. lia.
  - intros s. rewrite Hl. eauto.
Qed.

(** How one event changes the buffer that [s] writes. *)
Definition apply_event (s : Side) (e : PipeEvent) (p : PipeBuffer) : PipeBuffer :=
  match e with
  | Received s' _ bs => if decide (other s' = s) then set_data (drop (length bs) (pb_data p)) p else p
  | Sent s' data => if decide (s' = s) then set_data (pb_data p ++ data) p else p
  | Refused _ _ => p
  | Closed_by s' => if decide (s' = s) then set_closed p else p
  end.

(** When an event can happen. *)
Definition allowed (e : PipeEvent) (p : PipeBuffer) : Prop :=
  match e with
  | Received _ len bs =>
      must_wait p = false ∧ bs = take (Z.to_nat len) (pb_data p)
  | Sent _ _ => pb_closed p = false
  | Refused _ _ => pb_closed p = true
  | Closed_by _ => True
  end.

(** The buffer whose lock the call takes. *)
Definition touched (e : PipeEvent) : Side :=
  match e with
  | Received s _ _ => other s
  | Sent s _ | Refused s _ | Closed_by s => s
  end.

Lemma take_min (len : Z) (data : list byte) :
  take (Z.to_nat (Z.min len (blen data))) data = take (Z.to_nat len) data.
Proof.
  unfold blen. destruct (Z.le_ge_cases len (Z.of_nat (length data))).
  - by rewrite Z.min_l.
  - rewrite Z.min_r, Nat2Z.id by done. rewrite !take_ge; [done|lia..].
Qed.

Lemma drop_min (len : Z) (data : list byte) :
  drop (Z.to_nat (Z.min len (blen data))) data = drop (length (take (Z.to_nat len) data)) data.
Proof.
  rewrite length_take. unfold blen. f_equal. lia.
Qed.

Lemma port_read_spec port len w p : w !! pp_reader port = Some p →
  port_read port len w =
    if must_wait p then (NoFuel, w)
    else (Ok (take (Z.to_nat len) (pb_data p)),
          <[pp_reader port := set_data (drop (length (take (Z.to_nat len) (pb_data p))) (pb_data p)) p]> w).
Proof.
  intros Hp. unfold port_read, load, store. unfold_eff. rewrite Hp.
  destruct (must_wait p); [done|]. case_bool_decide as Hd.
  - rewrite Hd, take_nil. cbn. f_equal. symmetry. apply list_insert_id.
    rewrite Hp. destruct p; cbn in *; by subst.
  - unfold buffer_len. by rewrite take_min, drop_min.
Qed.

Lemma port_write_spec port data w p : w !! pp_writer port = Some p →
  port_write port data w =
    if pb_closed p then (Err (EKind Closed), w)
    else (Ok (blen data), <[pp_writer port := set_data (pb_data p ++ data) p]> w).
Proof.
  intros Hp. unfold port_write, load, store. unfold_eff. rewrite Hp.
  by destruct (pb_closed p).
Qed.

Lemma port_close_spec port w p : w !! pp_writer port = Some p →
  port_close port w = (Ok tt, <[pp_writer port := set_closed p]> w).
Proof. intros Hp. unfold port_close, load, store. unfold_eff. by rewrite Hp. Qed.

(** A step looks at the buffer its call locks and changes it alone. *)
Lemma pipe_step_spec f w e w' : pipe_ok f w → pipe_step f w e w' →
  pipe_ok f w' ∧ ∀ s p, w !! buffer_of f s = Some p →
    w' !! buffer_of f s = Some (apply_event s e p) ∧ (touched e = s → allowed e p).
Proof.
  intros Hok Hstep. pose proof Hok as (Hab & Hba & Hne & Hsome).
  assert (∃ t q q', touched e = t ∧ w !! buffer_of f t = Some q
    ∧ w' = <[buffer_of f t := q']> w ∧ q' = apply_event t e q ∧ allowed e q) as
    (t & q & q' & Ht & Hq & -> & Hq' & Hal).
  { destruct Hstep as [s len bs w w' H|s data n w w' H|s data er w w' H|s w w' H].
    - destruct (Hsome (other s)) as [q Hq]. exists (other s), q.
      rewrite (port_read_spec _ _ _ q) in H by (by rewrite (buffer_of_other f w)).
      destruct (must_wait q) eqn:Hw; simplify_eq. rewrite (buffer_of_other f w s) by done.
      eexists. repeat split; try done. cbn. by rewrite decide_True by done.
    - destruct (Hsome s) as [q Hq]. exists s, q. rewrite (port_write_spec _ _ _ q Hq) in H.
      destruct (pb_closed q) eqn:Hc; simplify_eq. eexists. repeat split; try done.
      cbn. by rewrite decide_True by done.
    - destruct (Hsome s) as [q Hq]. exists s, q, q. rewrite (port_write_spec _ _ _ q Hq) in H.
      destruct (pb_closed q) eqn:Hc; simplify_eq. repeat split; try done.
      symmetry. by apply list_insert_id.
    - destruct (Hsome s) as [q Hq]. exists s, q. rewrite (port_close_spec _ _ q Hq) in H.
      simplify_eq. eexists. repeat split; try done. cbn. by rewrite decide_True by done. }
  assert (∀ s p, w !! buffer_of f s = Some p →
    <[buffer_of f t:=q']> w !! buffer_of f s = Some (apply_event s e p)
    ∧ (touched e = s → allowed e p)) as Hall.
  { intros s p Hp. destruct (decide (s = t)) as [->|Hst].
    - rewrite Hq in Hp. simplify_eq. split; [|done]. apply list_lookup_insert_eq.
      by eapply lookup_lt_Some.
    - rewrite list_lookup_insert_ne by (intros ?; by apply Hst, (buffer_of_inj f w)).
      rewrite Hp. split; [|by intros; congruence]. f_equal.
      destruct e; cbn in *; try done; by rewrite decide_False by congruence. }
  split; [|done]. repeat split; try done. intros s. destruct (Hsome s) as [p Hp].
  destruct (Hall s p Hp) as [-> _]. eauto.
Qed.

(** Along a run, what [s] sent is what [other s] received and what is still in the
    buffer between them; it is closed once [s] has closed, and then nothing more
    is sent. *)
Definition buffer_run (s : Side) (p : PipeBuffer) (tr : list PipeEvent) (p' : PipeBuffer) : Prop :=
  pb_data p ++ sent s tr = received (other s) tr ++ pb_data p'
  ∧ pb_closed p' = pb_closed p || closes s tr
  ∧ pb_blocking p' = pb_blocking p
  ∧ (pb_closed p = true → sent s tr = []).

Lemma buffer_step s e p tr p' : (touched e = s → allowed e p) →
  buffer_run s (apply_event s e p) tr p' → buffer_run s p (e :: tr) p'.
Proof.
  intros Hal (Hd & Hc & Hb & Hs). unfold buffer_run. destruct e as [t len bs|t data|t data|t]; cbn in *.
  - destruct (decide (other t = s)) as [<-|Hts].
    + destruct Hal as [_ Hbs]; [done|]. rewrite other_involutive in *.
      rewrite decide_True by done. repeat split; try done. cbn in *.
      rewrite <- app_assoc, <- Hd, app_assoc. f_equal. subst bs.
      rewrite length_take. rewrite <- (take_drop (Z.to_nat len) (pb_data p)) at 1. f_equal.
      destruct (le_lt_dec (Z.to_nat len) (length (pb_data p))).
      * by rewrite Nat.min_l.
      * rewrite Nat.min_r by lia. by rewrite !drop_ge by lia.
    + rewrite decide_False; [done|]. intros ->. by rewrite other_involutive in Hts.
  - destruct (decide (t = s)) as [->|Hts]; [|done]. cbn in *. specialize (Hal eq_refl).
    rewrite app_assoc. repeat split; try done. rewrite Hal. done.
  - repeat split; done.
  - destruct (decide (t = s)) as [->|Hts]; cbn in *.
    + rewrite bool_decide_true by done. cbn. rewrite orb_true_r. repeat split; auto.
    + rewrite bool_decide_false by done. done.
Qed.

Lemma pipe_run_spec f w tr w' : pipe_run f w tr w' → pipe_ok f w →
  pipe_ok f w' ∧ ∀ s p, w !! buffer_of f s = Some p →
    ∃ p', w' !! buffer_of f s = Some p' ∧ buffer_run s p tr p'.
Proof.
  induction 1 as [w|w e w1 tr w' Hstep Hrun IH]; intros Hok.
  - split; [done|]. intros s p Hp. exists p. repeat split; try done; cbn.
    + by rewrite app_nil_r.
    + by rewrite orb_false_r.
  - destruct (pipe_step_spec f w e w1 Hok Hstep) as [Hok1 Hev].
    destruct (IH Hok1) as [Hok' Hall]. split; [done|]. intros s p Hp.
    destruct (Hev s p Hp) as [Hp1 Hal]. destruct (Hall s _ Hp1) as (p' & Hp' & Hr).
    exists p'. split; [done|]. by apply buffer_step.
Qed.

(** A run of a pipe from its creation. *)
Definition pipe_history (blocking : bool) (f : PipeFs) (tr : list PipeEvent) (w' : Pipes) : Prop :=
  ∃ w0 w, pipefs_new blocking w0 = (Ok f, w) ∧ pipe_run f w tr w'.

Lemma history_spec blocking f tr w' : pipe_history blocking f tr w' →
  pipe_ok f w' ∧ ∀ s, ∃ p', w' !! buffer_of f s = Some p' ∧ buffer_run s (buffer_new blocking) tr p'.
Proof.
  intros (w0 & w & Hnew & Hrun). destruct (pipefs_new_ok _ _ _ _ Hnew) as [Hok Hbuf].
  destruct (pipe_run_spec _ _ _ _ Hrun Hok) as [Hok' Hall]. split; [done|].
  intros s. by apply Hall.
Qed.

Lemma pipe_run_app f w tr1 tr2 w' : pipe_run f w (tr1 ++ tr2) w' ↔
  ∃ w1, pipe_run f w tr1 w1 ∧ pipe_run f w1 tr2 w'.
Proof.
  split.
  - revert w. induction tr1 as [|e tr1 IH]; intros w; cbn; [eauto using run_nil|].
    inversion 1 as [|? ? w1 ? ? Hs Hr]; simplify_eq. destruct (IH _ Hr) as (w2 & H1 & H2).
    eauto using run_cons.
  - intros (w1 & H1 & H2). induction H1; cbn; eauto using run_cons.
Qed.

Lemma sent_app s tr1 tr2 : sent s (tr1 ++ tr2) = sent s tr1 ++ sent s tr2.
Proof. induction tr1 as [|[] tr1 IH]; cbn; [done|done|by rewrite IH, app_assoc|done..]. Qed.

Lemma received_app s tr1 tr2 : received s (tr1 ++ tr2) = received s tr1 ++ received s tr2.
Proof. induction tr1 as [|[] tr1 IH]; cbn; [done|by rewrite IH, app_assoc|done..]. Qed.

(** A pipe delivers: along every interleaving of calls on its two ports,
    what one side has written is, in order, what the other side has read followed by
    what the buffer between them still holds; and the two directions do not mix. *)
Theorem pipe_fifo blocking f tr w' s : pipe_history blocking f tr w' →
  ∃ p, w' !! pp_reader (port_of f (other s)) = Some p
    ∧ sent s tr = received (other s) tr ++ pb_data p.
Proof.
  intros Hh. destruct (history_spec _ _ _ _ Hh) as [Hok Hall].
  destruct (Hall s) as (p & Hp & Hd & _). exists p.
  rewrite (buffer_of_other _ _ _ Hok), other_involutive. done.
Qed.

(** C14. End of file is true: when a read of a blocking pipe with room for a byte
    answers none, the other side has closed, everything it ever wrote has been read
    before, and nothing is written or read in that direction afterwards. *)
Theorem pipe_eof_complete f tr1 r len tr2 w' :
  pipe_history true f (tr1 ++ Received r len [] :: tr2) w' → 0 < len →
  closes (other r) tr1 = true
  ∧ received r tr1 = sent (other r) (tr1 ++ Received r len [] :: tr2)
  ∧ received r tr2 = [].
Proof.
  intros (w0 & w & Hnew & Hrun) Hlen. apply pipe_run_app in Hrun as (w1 & Hrun1 & Hrun2).
  inversion Hrun2 as [|? ? w2 ? ? Hstep Hrun3]; simplify_eq.
  assert (pipe_history true f tr1 w1) as Hh1 by (exists w0, w; auto).
  destruct (history_spec _ _ _ _ Hh1) as [Hok1 Hall1].
  destruct (Hall1 (other r)) as (p & Hp & Hd & Hc & Hb & _).
  destruct (pipe_step_spec _ _ _ _ Hok1 Hstep) as [Hok2 Hev].
  destruct (Hev _ _ Hp) as [Hp2 Hal]. destruct Hal as [Hw Hbs]; [done|].
  assert (pb_data p = []) as Hempty.
  { destruct (pb_data p) as [|b bs]; [done|]. destruct (Z.to_nat len) eqn:?; [lia|done]. }
  unfold must_wait in Hw. rewrite Hempty, Hb in Hw. cbn in Hw. apply negb_false_iff in Hw.
  rewrite Hw in Hc. rewrite Hempty, app_nil_r, other_involutive in Hd. cbn in Hc, Hd.
  destruct (pipe_run_spec _ _ _ _ Hrun3 Hok2) as [_ Hall3].
  destruct (Hall3 _ _ Hp2) as (p3 & _ & Hd3 & _ & _ & Hs3).
  rewrite other_involutive in Hd3. cbn in Hd3, Hs3. rewrite decide_True in Hd3, Hs3 by done.
  cbn in Hd3, Hs3. rewrite Hempty, Hs3 in Hd3 by done. cbn in Hd3.
  symmetry in Hd3. apply app_nil in Hd3 as [Hr3 _].
  repeat split; [done| |done].
  rewrite sent_app. cbn. rewrite Hs3 by done. by rewrite app_nil_r, Hd.
Qed.

(** C15. When a reader waits: only on a blocking pipe whose other side is open and
    has written nothing that is unread; in every other state the read answers, with
    the oldest unread bytes. *)
Theorem pipe_read_waits blocking f tr w' r len : pipe_history blocking f tr w' →
  let unread := drop (length (received r tr)) (sent (other r) tr) in
  fst (port_read (port_of f r) len w') =
    if blocking && bool_decide (unread = []) && negb (closes (other r) tr)
    then NoFuel else Ok (take (Z.to_nat len) unread).
Proof.
  intros Hh. destruct (history_spec _ _ _ _ Hh) as [Hok Hall].
  destruct (Hall (other r)) as (p & Hp & Hd & Hc & Hb & _). cbn in Hd, Hc, Hb.
  rewrite other_involutive in Hd. cbn zeta. rewrite Hd, drop_app_length.
  rewrite (port_read_spec _ _ _ p) by (by rewrite (buffer_of_other _ _ _ Hok)).
  unfold must_wait. rewrite Hb, Hc. by destruct (_ && _).
Qed.

(** ** Signals as one log

    The specification of [SignalFs]: everything written since it was created, and
    how much of it each subscriber has had. *)
Record SignalLog := mkSignalLog { sl_log : list byte; sl_cursors : list nat }.

Definition log_empty : SignalLog := mkSignalLog [] [].

Inductive SignalOp :=
| OpOpen
| OpStatPath
| OpRead (i : nat) (len : Z)
| OpWrite (i : nat) (data : list byte)
| OpLen (i : nat)
| OpClose (i : nat).

(** What a call answers; [Waiting] is a parked read. *)
Inductive SignalAnswer :=
| Opened | Waiting | Bytes (bs : list byte) | Count (n : Z) | Done | Bad.

(** A subscriber starts at the end of the log; a read takes what comes after its
    cursor and waits at the end; a write goes to the log. *)
Definition log_op (op : SignalOp) (l : SignalLog) : SignalAnswer * SignalLog :=
  let subscribed := mkSignalLog (sl_log l) (sl_cursors l ++ [length (sl_log l)]) in
  match op with
  | OpOpen => (Opened, subscribed)
  | OpStatPath => (Count 0, subscribed)
  | OpRead i len =>
      match sl_cursors l !! i with
      | None => (Bad, l)
      | Some pos =>
          let unread := drop pos (sl_log l) in
          if decide (unread = []) then (Waiting, l)
          else
            let bs := take (Z.to_nat len) unread in
            (Bytes bs, mkSignalLog (sl_log l) (<[i := (pos + length bs)%nat]> (sl_cursors l)))
      end
  | OpWrite i data =>
      if decide (i < length (sl_cursors l))%nat
      then (Count (blen data), mkSignalLog (sl_log l ++ data) (sl_cursors l))
      else (Bad, l)
  | OpLen i =>
      match sl_cursors l !! i with
      | Some pos => (Count (blen (drop pos (sl_log l))), l)
      | None => (Bad, l)
      end
  | OpClose i => (Done, l)
  end.

(** The same calls on the filesystem; [i] is the handle of the [i]-th buffer. *)
Definition answer {A} (f : A → SignalAnswer) (r : Result A * SignalWorld)
    : SignalAnswer * SignalWorld :=
  (match r.1 with Ok a => f a | NoFuel => Waiting | _ => Bad end, r.2).

Definition on_file {A} (h : SignalFile) (m : M (SignalFile * SignalWorld) A) : M SignalWorld A :=
  λ w, let '(r, (_, w')) := m (h, w) in (r, w').

Definition handle_at (i : nat) : SignalFile := inl (mkSignalHandle i).

(** A write goes through a handle, which exists when its buffer does. *)
Definition signal_op (op : SignalOp) (w : SignalWorld) : SignalAnswer * SignalWorld :=
  match op with
  | OpOpen => answer (λ _, Opened) (fs_open signalfs Ctx.new "data" w)
  | OpStatPath => answer (λ m, Count (m_size m)) (fs_stat signalfs Ctx.new "data" w)
  | OpRead i len => answer Bytes (on_file (handle_at i) (fh_read len) w)
  | OpWrite i data =>
      if decide (i < length (sw_pipes w))%nat
      then answer Count (on_file (handle_at i) (fh_write data) w)
      else (Bad, w)
  | OpLen i => answer (λ m, Count (m_size m)) (on_file (handle_at i) fh_stat w)
  | OpClose i => answer (λ _, Done) (on_file (handle_at i) fh_close w)
  end.

Fixpoint run_ops {S} (step : SignalOp → S → SignalAnswer * S) (ops : list SignalOp) (s : S)
    : list SignalAnswer :=
  match ops with
  | [] => []
  | op :: ops' => let '(a, s') := step op s in a :: run_ops step ops' s'
  end.

Definition signal_empty : SignalWorld := mkSignalWorld [] [].

(** The state of the filesystem that stands for a log. *)
Definition world_of (l : SignalLog) : SignalWorld :=
  mkSignalWorld ((λ pos, mkPipeBuffer (drop pos (sl_log l)) false true) <$> sl_cursors l)
    (seq 0 (length (sl_cursors l))).

Definition log_ok (l : SignalLog) : Prop := Forall (λ pos, (pos ≤ length (sl_log l))%nat) (sl_cursors l).

Lemma log_op_ok op l : log_ok l → log_ok (snd (log_op op l)).
Proof.
  unfold log_ok. intros Hl. destruct op as [| |i len|i data|i|i]; cbn; try done.
  1-2: apply Forall_app; split; [done|by repeat constructor].
  - destruct (sl_cursors l !! i) as [pos|] eqn:Hi; [|done]. case_decide; [done|]. cbn.
    apply Forall_insert; [done|]. rewrite length_take, length_drop.
    pose proof (Forall_lookup_1 _ _ _ _ Hl Hi). cbn in *. lia.
  - case_decide; [|done]. cbn. eapply Forall_impl; [done|]. intros pos ?. cbn in *.
    rewrite length_app. lia.
  - by destruct (sl_cursors l !! i).
Qed.

(** Subscribing adds the empty buffer of a cursor at the end of the log. *)
Lemma subscribe_world l :
  subscribe (world_of l) = (Ok (mkSignalHandle (length (sl_cursors l))),
    world_of (mkSignalLog (sl_log l) (sl_cursors l ++ [length (sl_log l)]))).
Proof.
  unfold subscribe, in_pipes, alloc, zoom, modify, world_of, buffer_new. unfold_eff. cbn.
  rewrite length_fmap, fmap_app, length_app, seq_app. cbn. by rewrite drop_all.
Qed.

Lemma deliver_spec data i w p : w !! i = Some p → pb_closed p = false →
  deliver data i w = (Ok tt, <[i := set_data (pb_data p ++ data) p]> w).
Proof. intros Hi Hp. unfold deliver, load, store. unfold_eff. by rewrite Hi, Hp. Qed.

Lemma deliver_all data bufs pre : Forall (λ p, pb_closed p = false) bufs →
  for_each (deliver data) (seq (length pre) (length bufs)) (pre ++ bufs) =
    (Ok tt, pre ++ ((λ p, set_data (pb_data p ++ data) p) <$> bufs)).
Proof.
  intros Hc. revert pre. induction Hc as [|p bufs Hp Hc IH]; intros pre; cbn; [done|].
  rewrite (eff_bind_Ok _ _ _ tt _ (deliver_spec _ _ _ p (list_lookup_middle _ _ _ _ eq_refl) Hp)).
  rewrite insert_app_r_alt, Nat.sub_diag by done. cbn.
  specialize (IH (pre ++ [set_data (pb_data p ++ data) p])).
  rewrite length_app in IH. cbn in IH. rewrite Nat.add_1_r, <- !app_assoc in IH. exact IH.
Qed.

Lemma for_each_in_pipes {A} (f : A → M Pipes unit) l w :
  for_each (λ x, in_pipes (f x)) l w = in_pipes (for_each f l) w.
Proof.
  revert w. induction l as [|x l IH]; intros [ps subs]; [done|].
  cbn [for_each]. unfold in_pipes, zoom in *. unfold_eff. cbn in *.
  destruct (f x ps) as [[[]|?| |] ps']; cbn; [by rewrite IH|done..].
Qed.

Lemma write_world h data l : log_ok l →
  signal_write h data (world_of l) =
    (Ok (blen data), world_of (mkSignalLog (sl_log l ++ data) (sl_cursors l))).
Proof.
  intros Hl. unfold signal_write, write_begin. unfold_eff. cbn.
  pose proof (deliver_all data (sw_pipes (world_of l)) []) as Hd. cbn in Hd.
  rewrite length_fmap in Hd.
  rewrite for_each_in_pipes. unfold in_pipes, zoom. cbn [sw_pipes world_of]. rewrite Hd by (apply Forall_fmap, Forall_true; done).
  unfold world_of. cbn. repeat f_equal. rewrite <- list_fmap_compose.
  apply list_fmap_ext. intros i pos Hi. cbn. unfold set_data. cbn. f_equal.
  rewrite drop_app_le; [done|]. exact (Forall_lookup_1 _ _ _ _ Hl Hi).
Qed.

Lemma world_lookup l i :
  sw_pipes (world_of l) !! i =
    (λ pos, mkPipeBuffer (drop pos (sl_log l)) false true) <$> (sl_cursors l !! i).
Proof. apply list_lookup_fmap. Qed.

Lemma read_world i pos len l : sl_cursors l !! i = Some pos →
  signal_read (mkSignalHandle i) len (world_of l) =
    let unread := drop pos (sl_log l) in
    let bs := take (Z.to_nat len) unread in
    if decide (unread = []) then (NoFuel, world_of l)
    else (Ok bs, world_of (mkSignalLog (sl_log l) (<[i := (pos + length bs)%nat]> (sl_cursors l)))).
Proof.
  intros Hi. unfold signal_read, in_pipes, zoom. cbn zeta.
  erewrite port_read_spec by (cbn [pp_reader sh_reader]; by rewrite world_lookup, Hi).
  unfold must_wait. cbn. case_decide as Hu.
  - by rewrite bool_decide_true.
  - rewrite bool_decide_false by done. cbn. unfold world_of. cbn. rewrite length_insert.
    repeat f_equal. rewrite list_fmap_insert. repeat f_equal. unfold set_data. cbn.
    by rewrite drop_drop.
Qed.

#[local] Arguments subscribe : simpl never.
#[local] Arguments signal_read : simpl never.
#[local] Arguments signal_write : simpl never.
#[local] Arguments world_of : simpl never.

Lemma open_world ctx l : signal_open ctx "data" (world_of l) =
  (Ok (handle_at (length (sl_cursors l))),
   world_of (mkSignalLog (sl_log l) (sl_cursors l ++ [length (sl_log l)]))).
Proof.
  unfold signal_open. rewrite decide_False by done. rewrite bool_decide_true by done.
  cbn [negb guard_err]. unfold_eff. cbn beta iota. by rewrite subscribe_world.
Qed.

Lemma stat_world i l : signal_stat (mkSignalHandle i) (world_of l) =
  (match sl_cursors l !! i with
   | Some pos => Ok (Meta.file "data" 438 (blen (drop pos (sl_log l))))
   | None => Panic
   end, world_of l).
Proof.
  unfold signal_stat, in_pipes, zoom, load. unfold_eff. cbn [sh_reader].
  rewrite world_lookup. by destruct (sl_cursors l !! i).
Qed.

(** [stat] is the provided method, which opens: asking for the metadata of [data]
    subscribes a buffer that no handle can read and that every later write fills. *)
Lemma stat_subscribes ctx l : fs_stat signalfs ctx "data" (world_of l) =
  (Ok (Meta.file "data" 438 0),
   world_of (mkSignalLog (sl_log l) (sl_cursors l ++ [length (sl_log l)]))).
Proof.
  change (fs_stat signalfs) with (default_stat signal_open). unfold default_stat.
  erewrite eff_bind_Ok by apply open_world. unfold on_handle, handle_at. unfold_eff.
  cbn [fh_stat signal_file sum_handle dispatch signal_handle by_ref]. rewrite stat_world. cbn.
  rewrite lookup_app_r, Nat.sub_diag by done. cbn. by rewrite drop_all.
Qed.

(** One call on the filesystem is one call on the log. *)
Lemma signal_op_log op l : log_ok l →
  signal_op op (world_of l) = prod_map id world_of (log_op op l).
Proof.
  intros Hl. destruct op as [| |i len|i data|i|i]; unfold signal_op, answer, on_file, handle_at.
  - change (fs_open signalfs) with signal_open. by rewrite open_world.
  - by rewrite stat_subscribes.
  - cbn [fh_read signal_file sum_handle dispatch signal_handle by_ref]. cbn [log_op].
    destruct (sl_cursors l !! i) as [pos|] eqn:Hi.
    + rewrite (read_world i pos) by done. cbn zeta. by case_decide.
    + unfold signal_read, in_pipes, zoom, port_read, load. unfold_eff.
      cbn [pp_reader sh_reader]. by rewrite world_lookup, Hi.
  - cbn [fh_write signal_file sum_handle dispatch signal_handle by_ref log_op].
    assert (length (sw_pipes (world_of l)) = length (sl_cursors l)) as -> by apply length_fmap.
    case_decide; [|done]. by rewrite write_world.
  - cbn [fh_stat signal_file sum_handle dispatch signal_handle by_ref log_op]. rewrite stat_world.
    by destruct (sl_cursors l !! i).
  - done.
Qed.

(** A signal filesystem whose calls are made one after another is one log: through any
    handles and in any order, they are answered as by one log of all writes from which every
    handle reads what was written since it was opened, in order, waiting at the end.  Two
    writes that overlap may reach two handles in different orders ([signal_orders_differ]). *)
Theorem signal_refines_log ops :
  run_ops signal_op ops signal_empty = run_ops log_op ops log_empty.
Proof.
  change signal_empty with (world_of log_empty).
  assert (log_ok log_empty) as Hl by constructor. revert Hl.
  generalize log_empty as l. induction ops as [|op ops IH]; intros l Hl; cbn; [done|].
  rewrite signal_op_log by done. pose proof (log_op_ok op l Hl) as Hl'.
  destruct (log_op op l) as [a l']. cbn in *. by rewrite IH.
Qed.

(** ** Signals between threads

    [write] copies the list of subscribers under its lock and then locks one buffer after
    another, so the writes of two threads meet between two buffers.  A write that has begun
    is what it writes and the subscribers it has not come to yet. *)
Record SignalCall := mkSignalCall { sc_data : list byte; sc_left : list nat }.

Record SignalState := mkSignalState { ss_world : SignalWorld; ss_calls : list SignalCall }.

Definition signal_start : SignalState := mkSignalState signal_empty [].

Inductive SignalEvent :=
| Subscribed
| Began (data : list byte)
| Delivered (k b : nat)
| Took (b : nat) (bs : list byte).

Inductive signal_step : SignalState → SignalEvent → SignalState → Prop :=
| signal_subscribes h w w' calls :
    subscribe w = (Ok h, w') →
    signal_step (mkSignalState w calls) Subscribed (mkSignalState w' calls)
| signal_begins data subs w w' calls :
    write_begin w = (Ok subs, w') →
    signal_step (mkSignalState w calls) (Began data)
      (mkSignalState w' (calls ++ [mkSignalCall data subs]))
| signal_delivers k data b rest w w' calls :
    calls !! k = Some (mkSignalCall data (b :: rest)) →
    in_pipes (deliver data b) w = (Ok tt, w') →
    signal_step (mkSignalState w calls) (Delivered k b)
      (mkSignalState w' (<[k := mkSignalCall data rest]> calls))
| signal_takes b len bs w w' calls :
    signal_read (mkSignalHandle b) len w = (Ok bs, w') →
    signal_step (mkSignalState w calls) (Took b bs) (mkSignalState w' calls).

(** Every interleaving of the locks of any number of threads, from the filesystem's creation. *)
Inductive signal_run : list SignalEvent → SignalState → Prop :=
| signal_run_nil : signal_run [] signal_start
| signal_run_snoc tr s e s' :
    signal_run tr s → signal_step s e s' → signal_run (tr ++ [e]) s'.

(** What a run did: the subscribers so far, what the writes begun so far write, the writes a
    buffer was given, in its order, and the bytes its reader took. *)
Definition opened (tr : list SignalEvent) : nat :=
  length (omap (λ e, match e with Subscribed => Some tt | _ => None end) tr).

Definition began (tr : list SignalEvent) : list (list byte) :=
  omap (λ e, match e with Began data => Some data | _ => None end) tr.

Definition delivered (b : nat) (tr : list SignalEvent) : list nat :=
  omap (λ e, match e with Delivered k b' => if decide (b' = b) then Some k else None
             | _ => None end) tr.

Definition taken (b : nat) (tr : list SignalEvent) : list byte :=
  e ← tr; match e with Took b' bs => if decide (b' = b) then bs else [] | _ => [] end.

Definition written (tr : list SignalEvent) (k : nat) : list byte := default [] (began tr !! k).

(** The subscribers write [k] has still to come to. *)
Definition left_of (s : SignalState) (k : nat) : list nat :=
  match ss_calls s !! k with Some c => sc_left c | None => [] end.

(** The state after a run: the buffers are the subscribers, in order, and open; a buffer holds
    what it was given and its reader has not taken; a write keeps its text. *)
Record signal_inv (tr : list SignalEvent) (s : SignalState) : Prop := {
  si_subscribers : sw_subscribers (ss_world s) = seq 0 (length (sw_pipes (ss_world s)));
  si_opened : length (sw_pipes (ss_world s)) = opened tr;
  si_open : Forall (λ p, pb_closed p = false) (sw_pipes (ss_world s));
  si_calls : sc_data <$> ss_calls s = began tr;
  si_below b : Forall (λ k, (k < length (began tr))%nat) (delivered b tr);
  si_data b : (k ← delivered b tr; written tr k)
    = taken b tr ++ default [] (pb_data <$> sw_pipes (ss_world s) !! b)
}.

(** Which subscribers a write still has to come to: those there were when it began, without
    those it has come to. *)
Definition call_inv (tr : list SignalEvent) (s : SignalState) (k n : nat) : Prop :=
  NoDup (left_of s k)
  ∧ ∀ b, ((b < n)%nat ↔ k ∈ delivered b tr ∨ b ∈ left_of s k)
     ∧ ¬ (k ∈ delivered b tr ∧ b ∈ left_of s k).

Lemma began_app tr1 tr2 : began (tr1 ++ tr2) = began tr1 ++ began tr2.
Proof. apply omap_app. Qed.

Lemma delivered_app b tr1 tr2 : delivered b (tr1 ++ tr2) = delivered b tr1 ++ delivered b tr2.
Proof. apply omap_app. Qed.

Lemma taken_app b tr1 tr2 : taken b (tr1 ++ tr2) = taken b tr1 ++ taken b tr2.
Proof. apply bind_app. Qed.

Lemma opened_app tr1 tr2 : opened (tr1 ++ tr2) = (opened tr1 + opened tr2)%nat.
Proof. unfold opened. by rewrite omap_app, length_app. Qed.

(** What was written before stays what it was. *)
Lemma written_app tr1 tr2 ks : Forall (λ k, (k < length (began tr1))%nat) ks →
  (k ← ks; written (tr1 ++ tr2) k) = (k ← ks; written tr1 k).
Proof.
  induction 1 as [|k ks Hk _ IH]; [done|]. rewrite !bind_cons, IH. f_equal.
  unfold written. by rewrite began_app, lookup_app_l.
Qed.

Lemma subscribe_inv w h w' : subscribe w = (Ok h, w') →
  w' = mkSignalWorld (sw_pipes w ++ [buffer_new true])
         (sw_subscribers w ++ [length (sw_pipes w)]).
Proof. unfold subscribe, in_pipes, alloc. unfold_eff. cbn. by intros [= <- <-]. Qed.

Lemma deliver_inv data b w w' : Forall (λ p, pb_closed p = false) (sw_pipes w) →
  in_pipes (deliver data b) w = (Ok tt, w') →
  ∃ p, sw_pipes w !! b = Some p
    ∧ w' = mkSignalWorld (<[b := set_data (pb_data p ++ data) p]> (sw_pipes w)) (sw_subscribers w).
Proof.
  intros Hopen. unfold in_pipes, deliver, load, store. unfold_eff.
  destruct (sw_pipes w !! b) as [p|] eqn:Hp; [|by intros [=]].
  rewrite (Forall_lookup_1 _ _ _ _ Hopen Hp). cbn. intros [= <-]. eauto.
Qed.

Lemma take_inv b len bs w w' : signal_read (mkSignalHandle b) len w = (Ok bs, w') →
  ∃ p, sw_pipes w !! b = Some p ∧ pb_data p = bs ++ drop (length bs) (pb_data p)
    ∧ w' = mkSignalWorld (<[b := set_data (drop (length bs) (pb_data p)) p]> (sw_pipes w))
             (sw_subscribers w).
Proof.
  unfold signal_read, in_pipes, zoom. cbn [sh_reader].
  destruct (sw_pipes w !! b) as [p|] eqn:Hp.
  - rewrite (port_read_spec (mkPipePort b b) _ _ p Hp). cbn [pp_reader].
    destruct (must_wait p); [done|]. intros [= <- <-]. exists p. split; [done|]. split; [|done].
    rewrite length_take. rewrite <- (take_drop (Z.to_nat len) (pb_data p)) at 1. f_equal.
    destruct (decide (Z.to_nat len ≤ length (pb_data p))%nat).
    + by rewrite Nat.min_l.
    + rewrite !drop_ge; [done|lia..].
  - unfold port_read, load. unfold_eff. cbn. by rewrite Hp.
Qed.

(** A step that changes one buffer, and only what a write has still to come to. *)
Lemma signal_inv_buffer tr e w calls calls' b p d :
  signal_inv tr (mkSignalState w calls) → sw_pipes w !! b = Some p →
  opened [e] = 0%nat → began [e] = [] → sc_data <$> calls' = sc_data <$> calls →
  (∀ b', b' ≠ b → delivered b' [e] = [] ∧ taken b' [e] = []) →
  Forall (λ k, (k < length (began tr))%nat) (delivered b [e]) →
  pb_data p ++ (k ← delivered b [e]; written tr k) = taken b [e] ++ d →
  signal_inv (tr ++ [e])
    (mkSignalState (mkSignalWorld (<[b := set_data d p]> (sw_pipes w)) (sw_subscribers w)) calls').
Proof.
  intros [Hsub Hop Hopen Hcalls Hbelow Hdata] Hp Ho Hb Hc Hne Hks Heq.
  cbn [ss_world ss_calls] in *.
  assert (∀ b', Forall (λ k, (k < length (began tr))%nat) (delivered b' (tr ++ [e]))) as Hall.
  { intros b'. rewrite delivered_app. apply Forall_app. split; [done|].
    destruct (decide (b' = b)) as [->|Hn]; [done|]. by rewrite (proj1 (Hne _ Hn)). }
  split; cbn [ss_world ss_calls sw_pipes sw_subscribers].
  - by rewrite length_insert.
  - by rewrite opened_app, Ho, Nat.add_0_r, length_insert.
  - apply Forall_insert; [done|]. exact (Forall_lookup_1 _ _ _ _ Hopen Hp).
  - by rewrite began_app, Hb, app_nil_r, Hc.
  - intros b'. by rewrite began_app, Hb, app_nil_r.
  - intros b'. rewrite written_app by done. rewrite delivered_app, taken_app, bind_app, Hdata.
    destruct (decide (b' = b)) as [->|Hn].
    + rewrite Hp, list_lookup_insert_eq by (by eapply lookup_lt_Some).
      change (default [] (pb_data <$> Some p)) with (pb_data p).
      change (default [] (pb_data <$> Some (set_data d p))) with d.
      by rewrite <- !app_assoc, Heq.
    + destruct (Hne _ Hn) as [-> ->]. by rewrite list_lookup_insert_ne, !app_nil_r.
Qed.

Lemma signal_step_inv tr s e s' : signal_inv tr s → signal_step s e s' →
  signal_inv (tr ++ [e]) s'.
Proof.
  intros Hinv Hstep. pose proof Hinv as [Hsub Hop Hopen Hcalls Hbelow Hdata].
  destruct Hstep as [h w w' calls H|data subs w w' calls H|k data b rest w w' calls Hk H
    |b len bs w w' calls H]; cbn [ss_world ss_calls] in *.
  - apply subscribe_inv in H as ->. split; cbn [ss_world ss_calls sw_pipes sw_subscribers].
    + by rewrite length_app, seq_app, Hsub.
    + by rewrite opened_app, length_app, Hop.
    + apply Forall_app. split; [done|by repeat constructor].
    + by rewrite began_app, app_nil_r.
    + intros b. by rewrite delivered_app, began_app, !app_nil_r.
    + intros b. rewrite delivered_app, taken_app, !app_nil_r, written_app, Hdata by done. f_equal.
      destruct (decide (b < length (sw_pipes w))%nat); [by rewrite lookup_app_l|].
      rewrite lookup_app_r, (lookup_ge_None_2 (sw_pipes w)) by lia.
      by destruct (b - length (sw_pipes w))%nat as [|[]].
  - injection H as <- <-. split; cbn [ss_world ss_calls]; try done.
    + by rewrite opened_app, Nat.add_0_r.
    + by rewrite began_app, fmap_app, Hcalls.
    + intros b. rewrite delivered_app, app_nil_r. eapply Forall_impl; [done|].
      intros k Hk. rewrite began_app, length_app. cbn in *. lia.
    + intros b. rewrite written_app, delivered_app, taken_app, !app_nil_r; [done|].
      by rewrite delivered_app, app_nil_r.
  - apply deliver_inv in H as (p & Hp & ->); [|done].
    eapply signal_inv_buffer; try done.
    + rewrite list_fmap_insert. apply list_insert_id. by rewrite list_lookup_fmap, Hk.
    + intros b' Hb. cbn. by rewrite decide_False.
    + cbn. rewrite decide_True by done. repeat constructor. rewrite <- Hcalls, length_fmap.
      by eapply lookup_lt_Some.
    + cbn. rewrite decide_True by done. cbn. unfold written.
      by rewrite <- Hcalls, list_lookup_fmap, Hk, app_nil_r.
  - apply take_inv in H as (p & Hp & Hd & ->). eapply signal_inv_buffer; try done.
    + intros b' Hb. cbn. by rewrite decide_False.
    + cbn. by rewrite decide_True, !app_nil_r by done.
Qed.

Definition calls_inv (tr : list SignalEvent) (s : SignalState) : Prop :=
  (∀ b, NoDup (delivered b tr))
  ∧ ∀ tr1 data tr2, tr = tr1 ++ Began data :: tr2 →
      call_inv tr s (length (began tr1)) (opened tr1).

Lemma began_split tr k : (k < length (began tr))%nat →
  ∃ tr1 data tr2, tr = tr1 ++ Began data :: tr2 ∧ length (began tr1) = k.
Proof.
  induction tr as [|e tr IH] using rev_ind; [cbn; lia|]. rewrite began_app, length_app.
  intros Hk. destruct (decide (k < length (began tr))%nat) as [Hlt|Hge].
  - destruct (IH Hlt) as (tr1 & data & tr2 & -> & Hl). exists tr1, data, (tr2 ++ [e]).
    by rewrite <- app_assoc.
  - destruct e as [|data|k' b|b bs]; cbn in Hk; try lia. exists tr, data, [].
    split; [done|lia].
Qed.

(** Only a delivery changes what writes have still to come to. *)
Lemma calls_inv_keep tr s e s' : calls_inv tr s →
  (∀ b, delivered b [e] = []) → (∀ k, left_of s' k = left_of s k) → began [e] = [] →
  calls_inv (tr ++ [e]) s'.
Proof.
  intros [Hnd Hc] He Hl Hb. split.
  - intros b. rewrite delivered_app, He, app_nil_r. apply Hnd.
  - intros tr1 data tr2 Heq. destruct tr2 as [|e2 tr2 _] using rev_ind.
    + apply app_inj_tail in Heq as [-> ->]. done.
    + rewrite app_comm_cons, app_assoc in Heq. apply app_inj_tail in Heq as [Heq ->].
      destruct (Hc _ _ _ Heq) as [Hn Hall]. unfold call_inv. rewrite Hl. split; [done|].
      intros b. rewrite delivered_app, He, app_nil_r. apply Hall.
Qed.

Lemma calls_inv_deliver tr w w' calls k data b rest :
  sc_data <$> calls = began tr → calls_inv tr (mkSignalState w calls) →
  calls !! k = Some (mkSignalCall data (b :: rest)) →
  calls_inv (tr ++ [Delivered k b]) (mkSignalState w' (<[k := mkSignalCall data rest]> calls)).
Proof.
  intros Hcalls [Hnd Hci] Hk.
  assert (k < length (began tr))%nat as Hlt.
  { rewrite <- Hcalls, length_fmap. by eapply lookup_lt_Some. }
  assert (left_of (mkSignalState w calls) k = b :: rest) as Hleft.
  { unfold left_of. cbn. by rewrite Hk. }
  destruct (began_split _ _ Hlt) as (t1 & d & t2 & Ht & Hl).
  destruct (Hci _ _ _ Ht) as [Hn Hb]. rewrite Hl, Hleft in Hn, Hb.
  apply NoDup_cons in Hn as [Hbr Hn].
  assert (k ∉ delivered b tr) as Hkb by (intros ?; apply (proj2 (Hb b)); set_solver).
  split.
  { intros b'. rewrite delivered_app. cbn. case_decide; [subst b'|by rewrite app_nil_r].
    apply NoDup_app. split; [done|]. split; [set_solver|apply NoDup_singleton]. }
  intros tr1 data' tr2 Heq. destruct tr2 as [|e2 tr2 _] using rev_ind.
  { by apply app_inj_tail in Heq as [_ [=]]. }
  rewrite app_comm_cons, app_assoc in Heq. apply app_inj_tail in Heq as [Heq <-].
  destruct (Hci _ _ _ Heq) as [Hn' Hb']. unfold call_inv.
  destruct (decide (length (began tr1) = k)) as [Hk1|Hk1].
  + rewrite Hk1 in *. rewrite Hleft in Hb'.
    assert (left_of (mkSignalState w' (<[k:=mkSignalCall data rest]> calls)) k = rest) as ->.
    { unfold left_of. cbn. rewrite list_lookup_insert_eq; [done|]. by eapply lookup_lt_Some. }
    split; [done|]. intros b'. rewrite delivered_app. specialize (Hb' b'). cbn.
    case_decide; [subst b'|]; set_solver.
  + assert (left_of (mkSignalState w' (<[k:=mkSignalCall data rest]> calls)) (length (began tr1))
      = left_of (mkSignalState w calls) (length (began tr1))) as ->.
    { unfold left_of. cbn. by rewrite list_lookup_insert_ne. }
    split; [done|]. intros b'. rewrite delivered_app. specialize (Hb' b'). cbn.
    case_decide; set_solver.
Qed.

Lemma calls_step_inv tr s e s' : signal_inv tr s → calls_inv tr s → signal_step s e s' →
  calls_inv (tr ++ [e]) s'.
Proof.
  intros Hinv Hci Hstep. pose proof Hinv as [Hsub Hop _ Hcalls Hbelow _].
  destruct Hstep as [h w w' calls H|data subs w w' calls H|k data b rest w w' calls Hk H
    |b len bs w w' calls H]; cbn [ss_world ss_calls] in *.
  - by eapply calls_inv_keep.
  - injection H as <- <-. apply (f_equal length) in Hcalls as Hlen. rewrite length_fmap in Hlen.
    destruct Hci as [Hnd Hci]. split.
    { intros b. rewrite delivered_app, app_nil_r. apply Hnd. }
    intros tr1 data' tr2 Heq. destruct tr2 as [|e2 tr2 _] using rev_ind.
    + apply app_inj_tail in Heq as [-> [= ->]]. unfold call_inv, left_of. cbn.
      rewrite <- Hlen, lookup_app_r, Nat.sub_diag by done. cbn. rewrite Hsub.
      split; [apply NoDup_seq|]. intros b. rewrite delivered_app, app_nil_r, elem_of_seq, Hlen.
      assert (length (began tr1) ∉ delivered b tr1) as Hno.
      { intros Hin. pose proof (Hbelow b) as Hb. rewrite Forall_forall in Hb.
        by apply Hb, Nat.lt_irrefl in Hin. }
      split; [|by intros []]. split; [right; lia|]. intros [?|?]; [done|lia].
    + rewrite app_comm_cons, app_assoc in Heq. apply app_inj_tail in Heq as [Heq <-].
      destruct (Hci _ _ _ Heq) as [Hn Hall].
      assert (length (began tr1) < length calls)%nat as Hlt.
      { rewrite Hlen, Heq, began_app, length_app. cbn. lia. }
      unfold call_inv, left_of in *. cbn in *. rewrite lookup_app_l by done.
      split; [done|]. intros b. rewrite delivered_app, app_nil_r. apply Hall.
  - by apply (calls_inv_deliver _ w _ calls k data b rest).
  - by eapply calls_inv_keep.
Qed.

Lemma signal_run_inv tr s : signal_run tr s → signal_inv tr s ∧ calls_inv tr s.
Proof.
  induction 1 as [|tr s e s' _ [IHs IHc] Hstep].
  - split; [by split|]. split; [by constructor|]. by intros [].
  - eauto using signal_step_inv, calls_step_inv.
Qed.

(** C16. A signal filesystem is a broadcast, whatever the interleaving of the locks that
    subscribing, writing and reading threads take: what a subscriber has read and has still
    unread are whole writes, in one order, each once; a write comes to those that had
    subscribed when it began and to no other, so that it has come to all of them when it has
    none left; every reader has a write that ended before another began before that one; and a
    write never waits for a reader. *)
Theorem signal_broadcast tr s : signal_run tr s →
  (∀ b p, sw_pipes (ss_world s) !! b = Some p →
     (k ← delivered b tr; written tr k) = taken b tr ++ pb_data p ∧ NoDup (delivered b tr))
  ∧ (∀ tr1 data tr2, tr = tr1 ++ Began data :: tr2 →
       let k := length (began tr1) in
       written tr k = data
       ∧ (∀ b, k ∈ delivered b tr ↔ (b < opened tr1)%nat ∧ b ∉ left_of s k)
       ∧ (∀ s1 i b, signal_run tr1 s1 → (i < k)%nat → left_of s1 i = [] →
            k ∉ delivered b tr1 ∧ i ∉ delivered b tr2))
  ∧ (∀ k b rest, left_of s k = b :: rest → ∃ s', signal_step s (Delivered k b) s').
Proof.
  intros Hrun. destruct (signal_run_inv _ _ Hrun) as [Hinv Hci].
  pose proof Hinv as [_ Hop Hopen Hcalls Hbelow Hdata]. pose proof Hci as [Hnd Hcall]. split_and!.
  - intros b p Hp. by rewrite Hdata, Hp.
  - intros tr1 data tr2 Htr. cbn zeta. destruct (Hcall _ _ _ Htr) as [_ Hb]. split_and!.
    + unfold written. rewrite Htr, began_app.
      change (began (Began data :: tr2)) with (data :: began tr2). by rewrite list_lookup_middle.
    + intros b. specialize (Hb b). tauto.
    + intros s1 i b Hrun1 Hi Hleft. destruct (signal_run_inv _ _ Hrun1) as [Hinv1 [_ Hcall1]].
      split.
      { intros Hin. pose proof (si_below _ _ Hinv1 b) as Hlt. rewrite Forall_forall in Hlt.
        by apply Hlt, Nat.lt_irrefl in Hin. }
      destruct (began_split _ _ Hi) as (t1 & d & t2 & Ht & Hl).
      destruct (Hcall1 _ _ _ Ht) as [_ Hb1]. specialize (Hb1 b). rewrite Hl, Hleft in Hb1.
      assert (tr = t1 ++ Began d :: (t2 ++ Began data :: tr2)) as Htr'.
      { by rewrite Htr, Ht, <- app_assoc. }
      destruct (Hcall _ _ _ Htr') as [_ Hb2]. specialize (Hb2 b). rewrite Hl in Hb2.
      pose proof (Hnd b) as Hn. rewrite Htr, delivered_app in Hn.
      apply NoDup_app in Hn as (_ & Hn & _). intros Hin. apply (Hn i); [|by cbn].
      assert (i ∈ delivered b tr) as Htot by (rewrite Htr, delivered_app; set_solver).
      assert (b < opened t1)%nat as Hlt by tauto. apply Hb1 in Hlt as [|Hx]; [done|].
      by apply not_elem_of_nil in Hx.
  - intros k b rest Hleft. destruct s as [w calls]. unfold left_of in Hleft. cbn in *.
    destruct (calls !! k) as [[data l]|] eqn:Hk; [|done]. cbn in Hleft. subst l.
    assert (k < length (began tr))%nat as Hlt.
    { rewrite <- Hcalls, length_fmap. by eapply lookup_lt_Some. }
    destruct (began_split _ _ Hlt) as (t1 & d & t2 & Ht & Hl).
    destruct (Hcall _ _ _ Ht) as [_ Hb]. specialize (Hb b). rewrite Hl in Hb.
    unfold left_of in Hb. cbn in Hb. rewrite Hk in Hb. cbn in Hb.
    destruct (lookup_lt_is_Some_2 (sw_pipes w) b) as [p Hp].
    { rewrite Hop, Ht, opened_app. assert (b < opened t1)%nat by set_solver. lia. }
    eexists. eapply signal_delivers; [exact Hk|]. unfold in_pipes, zoom.
    by rewrite (deliver_spec data b (sw_pipes w) p Hp (Forall_lookup_1 _ _ _ _ Hopen Hp)).
Qed.

(** Two threads write to two subscribers; the first to begin is the last to come to the second
    subscriber. *)
Definition crossing : list SignalEvent :=
  [Subscribed; Subscribed; Began (bytes_of "x"); Began (bytes_of "y");
   Delivered 0 0; Delivered 1 0; Delivered 1 1; Delivered 0 1; Took 0 (bytes_of "xy")].

Definition crossed : SignalState :=
  mkSignalState
    (mkSignalWorld [mkPipeBuffer [] false true; mkPipeBuffer (bytes_of "yx") false true] [0; 1])%nat
    [mkSignalCall (bytes_of "x") []; mkSignalCall (bytes_of "y") []].

Ltac signal_next R e step :=
  let R' := fresh R in
  eassert (signal_run (_ ++ [e]) _) as R'
    by (eapply signal_run_snoc; [exact R|eapply step; vm_compute; reflexivity]);
  clear R; rename R' into R.

Lemma crossing_run : signal_run crossing crossed.
Proof.
  pose proof signal_run_nil as R. unfold signal_start in R.
  do 2 signal_next R Subscribed signal_subscribes.
  signal_next R (Began (bytes_of "x")) signal_begins.
  signal_next R (Began (bytes_of "y")) signal_begins.
  signal_next R (Delivered 0 0) signal_delivers. signal_next R (Delivered 1 0) signal_delivers.
  signal_next R (Delivered 1 1) signal_delivers. signal_next R (Delivered 0 1) signal_delivers.
  signal_next R (Took 0 (bytes_of "xy")) (signal_takes 0 8).
  exact R.
Qed.

Lemma signal_orders_differ : delivered 0 crossing = [0; 1]%nat ∧ delivered 1 crossing = [1; 0]%nat.
Proof. done. Qed.

Lemma signal_broadcast_witness :
  (k ← delivered 1 crossing; written crossing k) = taken 1 crossing ++ bytes_of "yx"
  ∧ NoDup (delivered 1 crossing).
Proof.
  exact (proj1 (signal_broadcast crossing crossed crossing_run) 1%nat _ eq_refl).
Defined.

(** Closing the reading side of a pipe does not close it for the writer, whose
    bytes are accepted and kept. *)
Example reader_gone :
  (let '(r, w) := pipefs_new true [] in
   match r with
   | Ok f =>
       let '(_, w) := port_close (pf_b f) w in
       let '(r, w) := port_write (pf_a f) (bytes_of "x") w in (r, pb_data <$> w)
   | _ => (Panic, [])
   end) = (Ok 1, [[]; bytes_of "x"]).
Proof. reflexivity. Qed.

(** ** A run: the first side writes two bytes and closes, the other reads to the end *)

Definition demo_pipe : PipeFs := mkPipeFs (mkPipePort 0 1) (mkPipePort 1 0).
Definition demo_before : list PipeEvent :=
  [Sent SideA (bytes_of "ab"); Received SideB 1 (bytes_of "a"); Closed_by SideA;
   Refused SideA (bytes_of "c"); Received SideB 8 (bytes_of "b")].
Definition demo_trace : list PipeEvent := demo_before ++ [Received SideB 8 []].
Definition demo_world : Pipes := [buffer_new true; mkPipeBuffer [] true true].

Lemma demo_history : pipe_history true demo_pipe demo_trace demo_world.
Proof.
  exists [], [buffer_new true; buffer_new true]. split; [reflexivity|].
  eapply run_cons; [eapply step_write; vm_compute; reflexivity|].
  eapply run_cons; [eapply step_read; vm_compute; reflexivity|].
  eapply run_cons; [eapply step_close; vm_compute; reflexivity|].
  eapply run_cons; [eapply step_refuse; vm_compute; reflexivity|].
  eapply run_cons; [eapply step_read; vm_compute; reflexivity|].
  eapply run_cons; [eapply step_read; vm_compute; reflexivity|].
  apply run_nil.
Qed.

Lemma pipe_fifo_witness : ∃ p, demo_world !! 1%nat = Some p
  ∧ bytes_of "ab" = received SideB demo_trace ++ pb_data p.
Proof. exact (pipe_fifo true demo_pipe demo_trace demo_world SideA demo_history). Defined.

Lemma pipe_eof_complete_witness : received SideB demo_before = bytes_of "ab".
Proof.
  exact (proj1 (proj2 (pipe_eof_complete demo_pipe demo_before SideB 8 [] demo_world
    demo_history ltac:(lia)))).
Defined.

Lemma pipe_read_waits_witness : fst (port_read (pf_b demo_pipe) 8 demo_world) = Ok [].
Proof. exact (pipe_read_waits true demo_pipe demo_trace demo_world SideB 8 demo_history). Defined.
