(* ===== verification/Composite.v ===== *)
(** * star9-fs: filesystems made of filesystems

    Models [MapFs] and [UnionFs] of [crates/star9-fs/src/lib.rs].  As in [Vfs], a
    [FsRef] is an index into [table], and the world [W] keeps the map of a [MapFs]
    and the layers of a [UnionFs]. *)

From stdpp Require Import base list numbers option strings sorting sets.
From Stdlib Require Import ZArith Lia Ascii.
From S2P Require Import Prelude Strs BTree Core FsTrait.

Local Open Scope Z_scope.

(** Where the world keeps the entries of a [MapFs] and the layers of a [UnionFs]. *)
Class HasEntries (W : Type) := {
  entries_of : W → btree string nat;
  set_entries : btree string nat → W → W;
  entries_set b w : entries_of (set_entries b w) = b
}.

Class HasLayers (W : Type) := {
  layers_of : W → list nat;
  set_layers : list nat → W → W;
  layers_set l w : layers_of (set_layers l w) = l
}.

(** [str::trim_start_matches] with a nonempty pattern: every leading occurrence
    goes; [fuel] is the length of the text. *)
Fixpoint trim_matches_fuel (fuel : nat) (p s : string) : string :=
  match fuel with
  | O => s
  | S fuel' =>
      match strip_prefix p s with
      | Some rest => trim_matches_fuel fuel' p rest
      | None => s
      end
  end.

Definition trim_start_matches (p s : string) : string := trim_matches_fuel (String.length s) p s.

(** ** [MapFs] *)

Module MapFs.
Section MapFs.
Context {W H : Type} `{!HasEntries W} `{!FileHandle W H} `{!BoxDir H}.
Context (table : nat → FileSystem W H).

Definition insert (name : string) (fs : nat) : M W unit :=
  modify (λ w, set_entries (bt_insert (clean_path name) fs (entries_of w)) w).

Definition direct (name : string) : M W (option nat) :=
  gets (λ w, bt_get name (entries_of w)).

(** [sort_by_key(|entry| Reverse(entry.0.len()))], a stable sort. *)
Fixpoint insert_by_len (e : string * nat) (l : list (string * nat)) : list (string * nat) :=
  match l with
  | [] => [e]
  | x :: l' =>
      if decide (String.length x.1 < String.length e.1)%nat then e :: l
      else x :: insert_by_len e l'
  end.

Definition matches_key (name key : string) : bool :=
  bool_decide (key = name) || negb (bool_decide (key = ".")) && starts_with (key +:+ "/") name.

Definition match_prefixes (name : string) : M W (list (string * nat)) :=
  gets (λ w, foldl (λ acc e, insert_by_len e acc) []
    (filter (λ kv, matches_key name kv.1 = true) (entries_of w))).

(** The path of [name] in the filesystem at [key]. *)
Definition rel_path (key name : string) : string :=
  if decide (key = ".") then name else clean_path (trim_start_matches (key +:+ "/") name).

(** The first of the candidates whose path is not the root. *)
Fixpoint first_route (name : string) (candidates : list (string * nat)) : option (nat * string) :=
  match candidates with
  | [] => None
  | (key, fs) :: rest =>
      if decide (rel_path key name = ".") then first_route name rest
      else Some (fs, rel_path key name)
  end.

(** The loops of [open] over the entries: [below] gives the part of a key under the
    directory, or [None]. *)
Fixpoint listing_loop (ctx : FsContext) (below : string → option string)
    (m : btree string nat) (entries : list DirEntry) (need : btree string unit)
    : M W (list DirEntry * btree string unit) :=
  match m with
  | [] => mret (entries, need)
  | (fname, subfs) :: m' =>
      match below fname with
      | None => listing_loop ctx below m' entries need
      | Some rest =>
          match split_once "/" rest with
          | Some (head, _) => listing_loop ctx below m' entries (bt_insert head tt need)
          | None =>
              r ← attempt (fs_stat (table subfs) ctx ".");
              match r with
              | Ok meta =>
                  listing_loop ctx below m'
                    (entries ++ [mkDirEntry rest (Meta.set_name rest meta)]) need
              | Err _ => listing_loop ctx below m' entries need
              | Panic => panic
              | NoFuel => no_fuel
              end
          end
      end
  end.

Definition below (name fname : string) : option string :=
  if decide (name = ".") then if decide (fname = ".") then None else Some fname
  else strip_prefix (name +:+ "/") fname.

Definition list_dir (ctx : FsContext) (name : string) : M W H :=
  m ← gets entries_of;
  '(entries, need) ← listing_loop ctx (below name) m [] [];
  guard_err (negb (bool_decide (name = ".")) && bool_decide (entries = [])
    && bool_decide (need = [])) (EPath "open" name NotFound) ;;
  mret (directory_file (Meta.dir name 365)
    (entries ++ ((λ n, mkDirEntry n (Meta.dir n 365)) <$> bt_keys need))).

Definition open (ctx : FsContext) (name : string) : M W H :=
  guard_err (negb (valid_path name)) (EPath "open" name NotFound) ;;
  let name := clean_path name in
  d ← direct name;
  match d with
  | Some fs => fs_open (table fs) ctx "."
  | None =>
      candidates ← match_prefixes name;
      match first_route name candidates with
      | Some (fs, rel) => fs_open (table fs) ctx rel
      | None => list_dir ctx name
      end
  end.

Definition stat (ctx : FsContext) (name : string) : M W Metadata :=
  if decide (name = ".") then
    root ← direct ".";
    match root with
    | Some fs => fs_stat (table fs) ctx "."
    | None => mret (Meta.dir "." 365)
    end
  else
    f ← open ctx name;
    '(stat, f) ← on_handle f fh_stat;
    on_handle f fh_close ;;
    lift stat.

Definition fs : FileSystem W H := default_fs open stat (λ _, unsupported) (λ _ _, unsupported).
End MapFs.
End MapFs.

(** ** [UnionFs] *)

Module UnionFs.
Section UnionFs.
Context {W H : Type} `{!HasLayers W} `{!FileHandle W H} `{!BoxDir H}.
Context (table : nat → FileSystem W H).

Definition push_front (fs : nat) : M W unit := modify (λ w, set_layers (fs :: layers_of w) w).

(** [layer.read_dir(ctx, name).unwrap_or_default()] *)
Definition read_dir_or_empty (layer : nat) (ctx : FsContext) (name : string)
    : M W (list DirEntry) :=
  r ← attempt (fs_read_dir (table layer) ctx name);
  match r with
  | Ok entries => mret entries
  | Err _ => mret []
  | Panic => panic
  | NoFuel => no_fuel
  end.

(** The loop of [open]: a file found, or the entries gathered. *)
Fixpoint open_loop (ctx : FsContext) (name : string) (layers : list nat)
    (entries : list DirEntry) : M W (H + list DirEntry) :=
  match layers with
  | [] => mret (inr entries)
  | layer :: layers' =>
      r ← attempt (fs_stat (table layer) ctx name);
      match r with
      | Ok meta =>
          if Meta.is_dir meta then
            es ← read_dir_or_empty layer ctx name;
            open_loop ctx name layers' (entries ++ es)
          else
            f ← fs_open (table layer) ctx name; mret (inl f)
      | Err e => if kind_is NotFound e then open_loop ctx name layers' entries else throw e
      | Panic => panic
      | NoFuel => no_fuel
      end
  end.

Definition open (ctx : FsContext) (name : string) : M W H :=
  layers ← gets layers_of;
  g ← open_loop ctx name layers [];
  match g with
  | inl f => mret f
  | inr entries =>
      if negb (bool_decide (entries = [])) || bool_decide (name = ".") then
        mret (directory_file (Meta.dir (base_name name) 365) entries)
      else throw (EPath "open" name NotFound)
  end.

(** [stat], [create] and [mkdir] try the layers in order and pass over the errors
    of kind [skip]. *)
Fixpoint first_layer {A} (f : nat → M W A) (skip : ErrorKind) (last : Error)
    (layers : list nat) : M W A :=
  match layers with
  | [] => throw last
  | layer :: layers' =>
      r ← attempt (f layer);
      match r with
      | Ok a => mret a
      | Err e => if kind_is skip e then first_layer f skip last layers' else throw e
      | Panic => panic
      | NoFuel => no_fuel
      end
  end.

Definition stat (ctx : FsContext) (name : string) : M W Metadata :=
  layers ← gets layers_of;
  first_layer (λ layer, fs_stat (table layer) ctx name) NotFound (EPath "stat" name NotFound)
    layers.

Definition create (name : string) : M W H :=
  layers ← gets layers_of;
  first_layer (λ layer, fs_create (table layer) name) NotSupported (EKind NotSupported) layers.

Definition mkdir (name : string) (perm : Z) : M W unit :=
  layers ← gets layers_of;
  first_layer (λ layer, fs_mkdir (table layer) name perm) NotSupported (EKind NotSupported) layers.

Definition fs : FileSystem W H := default_fs open stat create mkdir.
End UnionFs.
End UnionFs.

(** ** Correctness of map and union filesystems

    [map_open_mounted] says which filesystem answers below a mounted one, and under
    what path; [union_lists_all] what a directory of a union lists. *)

(** ** [MapFs] *)

Section MapFs.
Context {W H : Type} `{!HasEntries W} `{!FileHandle W H} `{!BoxDir H}.
Context (table : nat → FileSystem W H).

Lemma insert_by_len_in e l x : x ∈ MapFs.insert_by_len e l ↔ x = e ∨ x ∈ l.
Proof.
  induction l as [|y l IH]; cbn; [by rewrite list_elem_of_singleton, elem_of_nil; tauto|]. case_decide; rewrite ?elem_of_cons; [tauto|].
  rewrite IH. tauto.
Qed.

Definition longest_first (l : list (string * nat)) : Prop :=
  StronglySorted (λ a b, String.length b.1 ≤ String.length a.1)%nat l.

Lemma insert_key_sorted e l : longest_first l → longest_first (MapFs.insert_by_len e l).
Proof.
  intros Hl. induction Hl as [|x l Hl IH Hx]; cbn; [by repeat constructor|].
  case_decide as Hlt.
  - constructor; [by constructor|]. constructor; [lia|].
    eapply Forall_impl; [done|]. cbn. intros; lia.
  - constructor; [done|]. apply Forall_forall. intros y Hy.
    apply insert_by_len_in in Hy as [->|Hy]; [lia|]. by apply (proj1 (Forall_forall _ _) Hx).
Qed.

Definition sorted_candidates (l : list (string * nat)) : list (string * nat) :=
  foldl (λ acc e, MapFs.insert_by_len e acc) [] l.

Lemma sorted_candidates_spec l :
  longest_first (sorted_candidates l) ∧ ∀ x, x ∈ sorted_candidates l ↔ x ∈ l.
Proof.
  unfold sorted_candidates.
  assert (∀ acc, longest_first acc →
    longest_first (foldl (λ acc e, MapFs.insert_by_len e acc) acc l)
    ∧ ∀ x, x ∈ foldl (λ acc e, MapFs.insert_by_len e acc) acc l ↔ x ∈ acc ∨ x ∈ l) as Hgen.
  { induction l as [|e l IH]; intros acc Hacc; cbn.
    { split; [done|]. intros x. rewrite elem_of_nil. tauto. }
    destruct (IH _ (insert_key_sorted e acc Hacc)) as [Hs Hin]. split; [done|].
    intros x. rewrite Hin, insert_by_len_in, elem_of_cons. tauto. }
  destruct (Hgen [] ltac:(constructor)) as [Hs Hin]. split; [done|].
  intros x. rewrite Hin, elem_of_nil. tauto.
Qed.

(** One leading occurrence goes when the rest does not begin with the pattern. *)
Lemma trim_once p rest : p ≠ "" → strip_prefix p rest = None →
  trim_start_matches p (p +:+ rest) = rest.
Proof.
  intros Hp Hnone. unfold trim_start_matches.
  destruct (String.length (p +:+ rest)) as [|n] eqn:Hlen.
  { destruct p; [done|discriminate]. }
  cbn [trim_matches_fuel]. rewrite (proj2 (strip_prefix_Some p (p +:+ rest) rest) eq_refl).
  destruct n; cbn [trim_matches_fuel]; [done|]. by rewrite Hnone.
Qed.

Lemma matches_same_length name k k' :
  MapFs.matches_key name k = true → MapFs.matches_key name k' = true →
  String.length k = String.length k' → k ≠ "." → k' ≠ "." → k = k'.
Proof.
  unfold MapFs.matches_key. intros Hk Hk' Hlen Hd Hd'.
  assert (∃ r, name = k +:+ r) as [r Hr].
  { apply orb_true_iff in Hk as [Hk|Hk]; bool_to_prop; [exists ""; by rewrite app_str_nil_r|].
    apply starts_with_true in H1 as [r ->]. exists ("/" +:+ r). by rewrite app_str_assoc. }
  assert (∃ r, name = k' +:+ r) as [r' Hr'].
  { apply orb_true_iff in Hk' as [Hk'|Hk']; bool_to_prop; [exists ""; by rewrite app_str_nil_r|].
    apply starts_with_true in H1 as [r' ->]. exists ("/" +:+ r'). by rewrite app_str_assoc. }
  apply (f_equal bytes_of) in Hr, Hr'. rewrite bytes_of_app in Hr, Hr'. rewrite Hr in Hr'.
  apply app_inj_1 in Hr' as [Hb _]; [|by rewrite !length_bytes_of].
  by rewrite <- (string_of_bytes_of k), Hb, string_of_bytes_of.
Qed.

Lemma candidates_head name key fs (m : btree string nat) : bt_wf m → bt_get key m = Some fs →
  key ≠ "." → name ≠ "." → MapFs.matches_key name key = true →
  (∀ k, k ∈ bt_keys m → MapFs.matches_key name k = true → (String.length k ≤ String.length key)%nat) →
  head (sorted_candidates (filter (λ kv, MapFs.matches_key name kv.1 = true) m)) = Some (key, fs).
Proof.
  intros Hwf Hget Hkey Hname Hmatch Hlong.
  destruct (sorted_candidates_spec (filter (λ kv, MapFs.matches_key name kv.1 = true) m)) as [Hs Hin].
  assert ((key, fs) ∈ sorted_candidates (filter (λ kv, MapFs.matches_key name kv.1 = true) m)) as Hmem.
  { apply Hin, list_elem_of_filter. split; [done|]. by apply bt_get_elem. }
  destruct (sorted_candidates _) as [|[k' fs'] l]; [by apply elem_of_nil in Hmem|]. cbn. f_equal.
  assert ((k', fs') ∈ m ∧ MapFs.matches_key name k' = true) as [Hm' Hk'].
  { assert ((k', fs') ∈ (k', fs') :: l) as H0 by by left.
    apply Hin, list_elem_of_filter in H0. cbn in H0. tauto. }
  assert (k' = key) as ->.
  { apply (matches_same_length name); [done|done| | |done].
    - apply Nat.le_antisymm.
      + apply Hlong; [|done]. apply list_elem_of_fmap. by exists (k', fs').
      + inversion Hs as [|? ? _ Hall]; subst. apply elem_of_cons in Hmem as [[= -> _]|Hmem]; [done|].
        by apply (proj1 (Forall_forall _ _) Hall) in Hmem.
    - intros ->. unfold MapFs.matches_key in Hk'. apply orb_true_iff in Hk' as [Hk'|Hk'];
        bool_to_prop; [by subst|]. done. }
  apply (bt_elem_get _ _ _ Hwf) in Hm'. congruence.
Qed.

(** Which filesystem answers: a path below a mounted filesystem, with no other
    mounted between, is opened in that filesystem under the rest of the path, as long
    as the rest does not begin with the mount point's own path again. *)
Theorem map_open_mounted ctx ks rs fs w :
  ks ≠ [] → rs ≠ [] → Forall good_part (ks ++ rs) → bt_wf (entries_of w) →
  bt_get (of_parts ks) (entries_of w) = Some fs →
  bt_get (of_parts (ks ++ rs)) (entries_of w) = None →
  (∀ k, k ∈ bt_keys (entries_of w) → MapFs.matches_key (of_parts (ks ++ rs)) k = true →
     (String.length k ≤ String.length (of_parts ks))%nat) →
  strip_prefix (of_parts ks +:+ "/") (of_parts rs) = None →
  MapFs.open table ctx (of_parts (ks ++ rs)) w = fs_open (table fs) ctx (of_parts rs) w.
Proof.
  intros Hks Hrs Hgood Hwf Hget Hdirect Hlong Hagain. unfold MapFs.open.
  apply Forall_app in Hgood as Hg. destruct Hg as [Hgk Hgr].
  rewrite of_parts_valid by done. rewrite clean_path_of_parts by done. cbn [negb guard_err].
  unfold MapFs.direct, MapFs.match_prefixes. unfold_eff. rewrite Hdirect.
  fold (sorted_candidates (filter (λ kv, MapFs.matches_key (of_parts (ks ++ rs)) kv.1 = true) (entries_of w))).
  assert (∀ ps, ps ≠ [] → Forall good_part ps → of_parts ps ≠ ".") as Hdot.
  { intros ps Hne Hps. unfold of_parts. destruct ps; [done|]. by apply join_good_not_dot. }
  assert (MapFs.matches_key (of_parts (ks ++ rs)) (of_parts ks) = true) as Hm.
  { unfold MapFs.matches_key. rewrite of_parts_app by done. apply orb_true_iff. right.
    rewrite bool_decide_false by auto. apply starts_with_true. exists (of_parts rs).
    by rewrite app_str_assoc. }
  pose proof (candidates_head (of_parts (ks ++ rs)) (of_parts ks) fs _ Hwf Hget
    ltac:(auto) ltac:(apply Hdot; [by destruct ks|done]) Hm Hlong) as Hhead.
  destruct (sorted_candidates _) as [|[k' fs'] l]; [done|]. cbn in Hhead. simplify_eq.
  cbn [MapFs.first_route].
  assert (MapFs.rel_path (of_parts ks) (of_parts (ks ++ rs)) = of_parts rs) as ->.
  { unfold MapFs.rel_path. rewrite decide_False by auto. rewrite of_parts_app by done.
    rewrite app_str_assoc, trim_once; [by apply clean_path_of_parts| |done].
    intros Heq. apply (f_equal String.length) in Heq.
    rewrite <- !length_bytes_of, bytes_of_app, length_app in Heq. cbn in Heq. lia. }
  by rewrite decide_False by auto.
Qed.
End MapFs.

(** ** [UnionFs] *)

Section UnionFs.
Context {W H : Type} `{!HasLayers W} `{!FileHandle W H} `{!BoxDir H}.
Context (table : nat → FileSystem W H).

(** What a layer answers for a name without changing the world: nothing, or a
    directory with its listing. *)
Definition layer_dir (ctx : FsContext) (name : string) (w : W) (layer : nat)
    (o : option (list DirEntry)) : Prop :=
  match o with
  | None => ∃ e, fs_stat (table layer) ctx name w = (Err e, w) ∧ kind_is NotFound e = true
  | Some es => ∃ meta, fs_stat (table layer) ctx name w = (Ok meta, w) ∧ Meta.is_dir meta = true
      ∧ fs_read_dir (table layer) ctx name w = (Ok es, w)
  end.

Lemma open_loop_dirs ctx name w layers os acc : Forall2 (layer_dir ctx name w) layers os →
  UnionFs.open_loop table ctx name layers acc w = (Ok (inr (acc ++ mjoin (default [] <$> os))), w).
Proof.
  intros Hall. revert acc. induction Hall as [|layer o layers os Ho Hall IH]; intros acc; cbn.
  - by rewrite app_nil_r.
  - destruct o as [es|]; cbn in Ho.
    + destruct Ho as (meta & Hs & Hd & Hr). unfold attempt at 1. unfold mbind, eff_bind at 1.
      rewrite Hs, Hd. unfold UnionFs.read_dir_or_empty, attempt. unfold_eff. rewrite Hr.
      rewrite IH. cbn. by rewrite app_assoc.
    + destruct Ho as (e & Hs & He). unfold attempt at 1. unfold mbind, eff_bind at 1.
      rewrite Hs, He. rewrite IH. done.
Qed.

(** A directory of a union: where every layer has nothing or a directory, it
    opens as one directory of all their entries; a name that several layers list is
    listed once, as the last of them has it, and names that begin with a hash sign
    are hidden.  It opens exactly when a layer lists something or it is the root. *)
Theorem union_lists_all ctx name w os :
  Forall2 (layer_dir ctx name w) (layers_of w) os →
  let all := mjoin (default [] <$> os) in
  fst (UnionFs.open table ctx name w) =
    (if negb (bool_decide (all = [])) || bool_decide (name = ".")
     then Ok (directory_file (Meta.dir (base_name name) 365) all)
     else Err (EPath "open" name NotFound))
  ∧ ∀ n, bt_get n (listing all) =
      if starts_with_char "#" n then None
      else last (mjoin ((λ o, filter (λ e, d_name e = n) (default [] o)) <$> os)).
Proof.
  intros Hall. cbn zeta. split.
  - unfold UnionFs.open. unfold_eff. rewrite (open_loop_dirs _ _ _ _ _ _ Hall). cbn.
    by destruct (_ || _).
  - intros n. rewrite listing_get. destruct (starts_with_char "#" n); [done|]. f_equal.
    clear Hall. induction os as [|o os IH]; [done|].
    cbn [fmap list_fmap mjoin list_join]. rewrite filter_app. f_equal. exact IH.
Qed.
End UnionFs.

(** ** Examples *)

(** A world of fixed filesystems: a handle says which one opened what. *)
Record FixedWorld := mkFixedWorld { fw_entries : btree string nat; fw_layers : list nat }.

#[global] Instance fixed_entries : HasEntries FixedWorld :=
  {| entries_of := fw_entries; set_entries e w := mkFixedWorld e (fw_layers w);
     entries_set _ _ := eq_refl |}.
#[global] Instance fixed_layers : HasLayers FixedWorld :=
  {| layers_of := fw_layers; set_layers l w := mkFixedWorld (fw_entries w) l;
     layers_set _ _ := eq_refl |}.

Record FixedFile := mkFixedFile { xf_fs : nat; xf_path : string }.

#[global] Instance fixed_handle : FileHandle FixedWorld FixedFile := {
  fh_read _ := mret [];
  fh_write _ := throw (EKind PermissionDenied);
  fh_read_at _ _ := mret [];
  fh_write_at _ _ := throw (EKind PermissionDenied);
  fh_seek _ := unsupported;
  fh_stat := λ '(f, w), (Ok (Meta.file (xf_path f) 292 0), (f, w));
  fh_read_dir _ := unsupported;
  fh_sync := unsupported;
  fh_close := mret tt
}.
Abbreviation FixedBox := (FixedFile + DirFile)%type.
#[global] Instance fixed_box : FileHandle FixedWorld FixedBox := sum_handle.
#[global] Instance fixed_box_dir : BoxDir FixedBox := inr.

(** A filesystem given by its directories and files. *)
Definition fixed_open (i : nat) (dirs : list (string * list DirEntry)) (files : list string)
    (ctx : FsContext) (name : string) : M FixedWorld FixedBox :=
  match list_find (λ d, d.1 = name) dirs with
  | Some (_, (_, es)) => mret (inr (dir_file_new (Meta.dir name 365) es))
  | None =>
      if decide (name ∈ files) then mret (inl (mkFixedFile i name))
      else throw (EPath "open" name NotFound)
  end.

Definition fixed_fs (i : nat) (dirs : list (string * list DirEntry)) (files : list string)
    : FileSystem FixedWorld FixedBox :=
  default_fs (fixed_open i dirs files) (default_stat (fixed_open i dirs files))
    (λ _, unsupported) (λ _ _, unsupported).

Definition file_entry (name : string) : DirEntry := mkDirEntry name (Meta.file name 292 0).

Definition map_table (i : nat) : FileSystem FixedWorld FixedBox :=
  match i with
  | O => fixed_fs 0 [(".", [])] ["b"; "a/b"; "c/d"]
  | _ => fixed_fs i [(".", [])] ["x"]
  end.

Definition map_world : FixedWorld := mkFixedWorld [("a", 0%nat)] [].

Lemma map_open_mounted_witness :
  MapFs.open map_table Ctx.new "a/c/d" map_world = (Ok (inl (mkFixedFile 0 "c/d")), map_world).
Proof.
  rewrite (map_open_mounted map_table Ctx.new ["a"] ["c"; "d"] 0 map_world);
    [reflexivity|done|done|repeat constructor; done|repeat constructor|reflexivity|reflexivity
    | |reflexivity].
  intros k Hk _. cbn in Hk. apply list_elem_of_singleton in Hk as ->. done.
Defined.

(** [trim_start_matches] takes off every leading occurrence of the mount point: a
    directory of the mounted filesystem with the same name as its mount point is
    skipped, and another file is opened. *)
Lemma map_repeated_prefix :
  MapFs.open map_table Ctx.new "a/a/b" map_world = (Ok (inl (mkFixedFile 0 "b")), map_world).
Proof. reflexivity. Qed.

(** A filesystem inserted at the root answers for the root alone: the paths below it
    are not looked for in it. *)
Lemma map_root_not_searched :
  let w := mkFixedWorld [(".", 1%nat)] [] in
  is_Ok (fst (MapFs.stat map_table Ctx.new "." w)) = true
  ∧ fst (MapFs.open map_table Ctx.new "x" w) = Err (EPath "open" "x" NotFound)
  ∧ is_Ok (fst (fs_open (map_table 1) Ctx.new "x" w)) = true.
Proof. repeat split; reflexivity. Qed.

Definition union_table (i : nat) : FileSystem FixedWorld FixedBox :=
  match i with
  | O => fixed_fs 0 [("e", []); ("d", [file_entry "one"])] []
  | S O => fixed_fs 1 [("d", [file_entry "one"; file_entry "two"])] []
  | _ => fixed_fs 2 [] ["d"; "e"]
  end.

Definition union_world (layers : list nat) : FixedWorld := mkFixedWorld [] layers.

Lemma union_lists_all_witness :
  fst (UnionFs.open union_table Ctx.new "d" (union_world [0%nat; 1%nat])) =
    Ok (directory_file (Meta.dir "d" 365) [file_entry "one"; file_entry "one"; file_entry "two"]).
Proof.
  refine (proj1 (union_lists_all union_table Ctx.new "d" (union_world [0%nat; 1%nat])
    [Some [file_entry "one"]; Some [file_entry "one"; file_entry "two"]] _)).
  repeat constructor; (eexists; split; [reflexivity|split; reflexivity]).
Defined.

(** An empty directory has metadata but does not open. *)
Lemma union_empty_directory :
  let w := union_world [0%nat] in
  Meta.is_dir <$> (match fst (UnionFs.stat union_table Ctx.new "e" w) with Ok m => Some m | _ => None end)
    = Some true
  ∧ fst (UnionFs.open union_table Ctx.new "e" w) = Err (EPath "open" "e" NotFound).
Proof. split; reflexivity. Qed.

(** A directory of an upper layer over a file of a lower one: the metadata are the
    directory's and the file is opened. *)
Lemma union_opens_what_it_does_not_stat :
  let w := union_world [0%nat; 2%nat] in
  Meta.is_dir <$> (match fst (UnionFs.stat union_table Ctx.new "d" w) with Ok m => Some m | _ => None end)
    = Some true
  ∧ fst (UnionFs.open union_table Ctx.new "d" w) = Ok (inl (mkFixedFile 2 "d")).
Proof. split; reflexivity. Qed.
