(* ===== verification/Field.v ===== *)
(** * star9-fs: fields and control files

    Models [FieldFile], [FieldHandle], [ControlFile] and [ControlHandle] of
    [crates/star9-fs/src/lib.rs], with [str::trim], [str::lines] and
    [str::split_whitespace] as they use them.

    The value of a field is an [Arc<Mutex<String>>]; here it is an index into the
    values of the world, so clones of a field share it.  The callback of a control
    file is a parameter: a computation over the world of its owner. *)

From stdpp Require Import base list numbers option strings.
From Stdlib Require Import ZArith Lia Ascii.
From S2P Require Import Prelude Strs RcText Core FsTrait.

Local Open Scope Z_scope.

(** ** Text *)

Fixpoint drop_spaces (cs : list char) : list char :=
  match cs with
  | c :: cs' => if is_whitespace c then drop_spaces cs' else cs
  | [] => []
  end.

Definition trim_chars (cs : list char) : list char :=
  reverse (drop_spaces (reverse (drop_spaces cs))).

(** [s.trim()] *)
Definition trim (s : string) : string := of_chars (trim_chars (chars s)).

Fixpoint words_loop (word : list char) (cs : list char) : list (list char) :=
  match cs with
  | [] => if decide (word = []) then [] else [word]
  | c :: cs' =>
      if is_whitespace c then
        (if decide (word = []) then [] else [word]) ++ words_loop [] cs'
      else words_loop (word ++ [c]) cs'
  end.

(** [s.split_whitespace().collect()] *)
Definition split_whitespace_str (s : string) : list string := of_chars <$> words_loop [] (chars s).

(** One line without its carriage return. *)
Definition chomp (s : string) : string :=
  match rev (bytes_of s) with x0d :: r => string_of (rev r) | _ => s end.

(** [s.lines().collect()]: a final line terminator ends the last line. *)
Definition str_lines (s : string) : list string :=
  match rev (split_on NEWLINE s) with
  | [] => []
  | final :: r => (chomp <$> rev r) ++ (if is_empty_str final then [] else [final])
  end.

(** ** Reading and seeking in a handle that holds its data *)

(** What [read] gives of [data] at [offset]. *)
Definition window (data : list byte) (offset len : Z) : list byte :=
  if blen data <=? offset then []
  else take (Z.to_nat (Z.min len (blen data - offset))) (drop (Z.to_nat offset) data).

(** The position [seek] moves to, when it is inside the data. *)
Definition seek_to (data : list byte) (offset : Z) (pos : SeekFrom) : option Z :=
  let next :=
    match pos with
    | SeekStart pos => pos
    | SeekEnd off => blen data + off
    | SeekCurrent off => offset + off
    end in
  if (next <? 0) || (blen data <? next) then None else Some next.

(** ** [FieldFile] *)

Abbreviation Values := (list string).

Record FieldFile := mkFieldFile { ff_name : string; ff_value : nat; ff_writable : bool }.

Module Field.

Definition readonly (name value : string) : M Values FieldFile := λ w,
  (Ok (mkFieldFile name (length w) false), w ++ [value]).

Definition writable (name value : string) : M Values FieldFile := λ w,
  (Ok (mkFieldFile name (length w) true), w ++ [value]).

(** [value.lock().unwrap().clone()] *)
Definition get (f : FieldFile) : M Values string := λ w,
  match w !! ff_value f with Some v => (Ok v, w) | None => (Panic, w) end.

Definition set (f : FieldFile) (value : string) : M Values unit :=
  guard_err (negb (ff_writable f)) (EKind PermissionDenied) ;;
  modify (λ w, <[ff_value f := value]> w).

Record FieldHandle := mkFieldHandle {
  fh_field : FieldFile;
  fh_data : list byte;
  fh_offset : Z;
  fh_dirty : list byte
}.

Abbreviation FieldBox := (FieldHandle + DirFile)%type.

Definition open_handle (f : FieldFile) (name : string) : M Values FieldHandle :=
  guard_err (negb (bool_decide (name = "."))) (EPath "open" name NotFound) ;;
  v ← get f;
  mret (mkFieldHandle f (bytes_of (v +:+ String NEWLINE "")) 0 []).

Definition open (f : FieldFile) (ctx : FsContext) (name : string) : M Values FieldBox :=
  h ← open_handle f name; mret (inl h).

Definition stat (f : FieldFile) (ctx : FsContext) (name : string) : M Values Metadata :=
  v ← get f;
  mret (Meta.file (ff_name f) (if ff_writable f then 438 else 292) (blen (bytes_of v) + 1)).

Definition set_offset (o : Z) (h : FieldHandle) : FieldHandle :=
  mkFieldHandle (fh_field h) (fh_data h) o (fh_dirty h).

Definition read (len : Z) : M (FieldHandle * Values) (list byte) := λ '(h, w),
  let bs := window (fh_data h) (fh_offset h) len in
  (Ok bs, (set_offset (fh_offset h + blen bs) h, w)).

Definition write (data : list byte) : M (FieldHandle * Values) Z := λ '(h, w),
  if negb (ff_writable (fh_field h)) then (Err (EKind PermissionDenied), (h, w))
  else
    (Ok (blen data),
     (mkFieldHandle (fh_field h) (fh_data h) (fh_offset h) (fh_dirty h ++ data), w)).

Definition seek (pos : SeekFrom) : M (FieldHandle * Values) Z := λ '(h, w),
  match seek_to (fh_data h) (fh_offset h) pos with
  | None => (Err (EKind Invalid), (h, w))
  | Some next => (Ok next, (set_offset next h, w))
  end.

(** The dirty bytes are written as text, and are kept. *)
Definition close : M (FieldHandle * Values) unit := λ '(h, w),
  if decide (fh_dirty h = []) then (Ok tt, (h, w))
  else
    let '(r, w) := set (fh_field h) (trim (from_utf8_lossy (fh_dirty h))) w in (r, (h, w)).

Definition handle_stat : M (FieldHandle * Values) Metadata :=
  by_ref (λ h, stat (fh_field h) Ctx.new ".").

#[global] Instance field_handle : FileHandle Values FieldHandle := {
  fh_read := read;
  fh_write := write;
  fh_read_at := default_read_at seek read;
  fh_write_at := default_write_at seek write;
  fh_seek := seek;
  fh_stat := handle_stat;
  fh_read_dir := default_read_dir handle_stat;
  fh_sync := unsupported;
  fh_close := close
}.

#[global] Instance field_box : FileHandle Values FieldBox := sum_handle.
#[global] Instance field_box_dir : BoxDir FieldBox := inr.

Definition fs (f : FieldFile) : FileSystem Values FieldBox :=
  default_fs (open f) (stat f) (λ _, unsupported) (λ _ _, unsupported).
End Field.

(** ** [ControlFile] *)

Module Control.
Section Control.
Context {W : Type}.

Record ControlFile := mkControlFile { cf_name : string; cf_callback : string → M W unit }.

Record ControlHandle := mkControlHandle { ch_ctl : ControlFile; ch_buf : list byte }.

Definition stat (f : ControlFile) (ctx : FsContext) (name : string) : M W Metadata :=
  mret (Meta.file (cf_name f) 146 0).

Definition open_handle (f : ControlFile) (name : string) : M W ControlHandle :=
  guard_err (negb (bool_decide (name = "."))) (EPath "open" name NotFound) ;;
  mret (mkControlHandle f []).

Definition write (data : list byte) : M (ControlHandle * W) Z := λ '(h, w),
  (Ok (blen data), (mkControlHandle (ch_ctl h) (ch_buf h ++ data), w)).

Definition close : M (ControlHandle * W) unit :=
  by_ref (λ h,
    let cmd := trim (from_utf8_lossy (ch_buf h)) in
    if negb (is_empty_str cmd) then cf_callback (ch_ctl h) cmd else mret tt).

Definition handle_stat : M (ControlHandle * W) Metadata :=
  by_ref (λ h, stat (ch_ctl h) Ctx.new ".").

(** [read], [seek], [sync] and [read_dir] are the provided methods. *)
#[global] Instance control_handle : FileHandle W ControlHandle := {
  fh_read _ := throw (EKind PermissionDenied);
  fh_write := write;
  fh_read_at := default_read_at (λ _, unsupported) (λ _, throw (EKind PermissionDenied));
  fh_write_at := default_write_at (λ _, unsupported) write;
  fh_seek _ := unsupported;
  fh_stat := handle_stat;
  fh_read_dir := default_read_dir handle_stat;
  fh_sync := unsupported;
  fh_close := close
}.

#[global] Instance control_box : FileHandle W (ControlHandle + DirFile) := sum_handle.

Definition open (f : ControlFile) (ctx : FsContext) (name : string)
    : M W (ControlHandle + DirFile) :=
  h ← open_handle f name; mret (inl h).

Definition fs (f : ControlFile) : FileSystem W (ControlHandle + DirFile) :=
  default_fs (open f) (stat f) (λ _, unsupported) (λ _ _, unsupported).
End Control.

Arguments ControlFile : clear implicits.
Arguments ControlHandle : clear implicits.
End Control.
