(* ===== verification/Task.v ===== *)
(** * star9-task: tasks and the task filesystem

    Models [Task], [TaskFs] and the handles of [crates/star9-task/src/lib.rs].

    A [Task] of the source is an [Arc<TaskInner>]: here an index into the tasks of
    the world.  The handles behind [Box<dyn FileHandle>] are the values of [H]; the
    world [W] keeps the tasks next to whatever those handles and the namespaces of
    the tasks live in ([TaskNamespaces] is what the tasks use of star9-vfs).  A
    driver is an index into [drivers], 0 being the driver [auto] of [TaskFs::new].

    The lock of a descriptor table is held while a method of one of its handles
    runs, so it is a flag of the table: a call that needs the lock while it is held
    by its own thread never returns, which is [NoFuel]. *)

From stdpp Require Import base list numbers option strings pretty.
From Stdlib Require Import ZArith Lia Ascii.
From S2P Require Import Prelude Strs RcText BTree Core FsTrait Vfs Field.

Local Open Scope Z_scope.

(** ** Data *)

Record TaskState := mkTaskState {
  st_alias : string;
  st_kind : string;
  st_cmd : string;
  st_env : list string;
  st_exit : string;
  st_dir : string
}.

Record OpenFile (H : Type) := mkOpenFile { of_file : H; of_path : string }.
Arguments mkOpenFile {H}. Arguments of_file {H}. Arguments of_path {H}.

Record FdTable (H : Type) := mkFdTable {
  ft_files : btree Z (OpenFile H);
  ft_next : Z;
  ft_locked : bool
}.
Arguments mkFdTable {H}. Arguments ft_files {H}. Arguments ft_next {H}. Arguments ft_locked {H}.

Record TaskInner (H : Type) := mkTaskInner {
  ti_driver : nat;
  ti_parent : option nat;
  ti_ns : nat;
  ti_id : Z;
  ti_state : TaskState;
  ti_fds : FdTable H;
  ti_worker : option string;
  ti_export : option nat
}.
Arguments mkTaskInner {H}. Arguments ti_driver {H}. Arguments ti_parent {H}.
Arguments ti_ns {H}. Arguments ti_id {H}. Arguments ti_state {H}. Arguments ti_fds {H}.
Arguments ti_worker {H}. Arguments ti_export {H}.

(** The tasks, and the maps of the one [TaskFs] they belong to. *)
Record TaskStore (H : Type) := mkTaskStore {
  ts_tasks : list (TaskInner H);
  ts_drivers : btree string nat;
  ts_resources : btree string nat;
  ts_aliases : btree string nat;
  ts_next_id : Z
}.
Arguments mkTaskStore {H}. Arguments ts_tasks {H}. Arguments ts_drivers {H}.
Arguments ts_resources {H}. Arguments ts_aliases {H}. Arguments ts_next_id {H}.

Class HasTasks (W H : Type) := {
  tasks_of : W → TaskStore H;
  set_tasks : TaskStore H → W → W;
  tasks_set s w : tasks_of (set_tasks s w) = s;
  set_tasks_set s s' w : set_tasks s (set_tasks s' w) = set_tasks s w;
  set_tasks_id w : set_tasks (tasks_of w) w = w
}.

(** What tasks use of namespaces: [Arc<Namespace>] is an index, a [FsRef] another. *)
Class TaskNamespaces (W H : Type) := {
  ns_new : M W nat;
  ns_clone : nat → M W nat;
  ns_self : nat → M W nat;
  ns_bind : nat → nat → string → string → BindMode → M W unit;
  ns_unbind : nat → nat → string → string → M W unit;
  ns_open : nat → FsContext → string → M W H;
  ns_format_bindings : nat → M W string
}.

Record TaskDriver (W : Type) := mkTaskDriver {
  td_check : nat → M W bool;
  td_start : nat → M W unit
}.
Arguments mkTaskDriver {W}. Arguments td_check {W}. Arguments td_start {W}.

(** ** The handles of the task filesystem *)

Record TaskFieldHandle := mkTaskFieldHandle {
  tf_task : nat;
  tf_name : string;
  tf_data : list byte;
  tf_written : list byte;
  tf_offset : Z
}.

Record FdProxy := mkFdProxy { fp_task : nat; fp_fd : Z }.
Record NewTaskHandle := mkNewTaskHandle { nt_kind : string; nt_data : option (list byte); nt_offset : Z }.

(** The handle of [ControlFile::new("ctl", ..)] for a task, its callback being
    [ctl_command] below. *)
Record TaskCtlHandle := mkTaskCtlHandle { tc_task : nat; tc_buf : list byte }.

Class BoxTask (H : Type) := {
  #[global] task_box_dir :: BoxDir H;
  box_field : TaskFieldHandle → H;
  box_proxy : FdProxy → H;
  box_new : NewTaskHandle → H;
  box_ctl : TaskCtlHandle → H
}.

(** A [u32] counter taken and moved on. *)
Definition next_u32 (n : Z) : option Z := if n =? U32_MAX then None else Some (n + 1).

Module Task.

Section Task.
Context {W H : Type} `{!HasTasks W H} `{!TaskNamespaces W H} `{!FileHandle W H} `{!BoxTask H}.
Context (table : nat → FileSystem W H) (drivers : nat → TaskDriver W).

(** ** Locks *)

Definition store : M W (TaskStore H) := gets tasks_of.

Definition update_store (f : TaskStore H → TaskStore H) : M W unit :=
  modify (λ w, set_tasks (f (tasks_of w)) w).

Definition set_ts_tasks (l : list (TaskInner H)) (s : TaskStore H) : TaskStore H :=
  mkTaskStore l (ts_drivers s) (ts_resources s) (ts_aliases s) (ts_next_id s).
Definition set_drivers (d : btree string nat) (s : TaskStore H) : TaskStore H :=
  mkTaskStore (ts_tasks s) d (ts_resources s) (ts_aliases s) (ts_next_id s).
Definition set_resources (r : btree string nat) (s : TaskStore H) : TaskStore H :=
  mkTaskStore (ts_tasks s) (ts_drivers s) r (ts_aliases s) (ts_next_id s).
Definition set_aliases (a : btree string nat) (s : TaskStore H) : TaskStore H :=
  mkTaskStore (ts_tasks s) (ts_drivers s) (ts_resources s) a (ts_next_id s).
Definition set_next_id (n : Z) (s : TaskStore H) : TaskStore H :=
  mkTaskStore (ts_tasks s) (ts_drivers s) (ts_resources s) (ts_aliases s) n.

Definition inner (task : nat) : M W (TaskInner H) :=
  s ← store;
  match ts_tasks s !! task with Some i => mret i | None => panic end.

Definition update_inner (task : nat) (f : TaskInner H → TaskInner H) : M W unit :=
  update_store (λ s, set_ts_tasks (alter f task (ts_tasks s)) s).

Definition set_ti_state (f : TaskState → TaskState) (i : TaskInner H) : TaskInner H :=
  mkTaskInner (ti_driver i) (ti_parent i) (ti_ns i) (ti_id i) (f (ti_state i)) (ti_fds i)
    (ti_worker i) (ti_export i).
Definition set_ti_fds (f : FdTable H) (i : TaskInner H) : TaskInner H :=
  mkTaskInner (ti_driver i) (ti_parent i) (ti_ns i) (ti_id i) (ti_state i) f
    (ti_worker i) (ti_export i).
Definition set_ti_worker (x : option string) (i : TaskInner H) : TaskInner H :=
  mkTaskInner (ti_driver i) (ti_parent i) (ti_ns i) (ti_id i) (ti_state i) (ti_fds i)
    x (ti_export i).
Definition set_ti_export (x : option nat) (i : TaskInner H) : TaskInner H :=
  mkTaskInner (ti_driver i) (ti_parent i) (ti_ns i) (ti_id i) (ti_state i) (ti_fds i)
    (ti_worker i) x.

(** [self.inner.state.lock().unwrap()] *)
Definition state (task : nat) : M W TaskState := i ← inner task; mret (ti_state i).
Definition update_state (task : nat) (f : TaskState → TaskState) : M W unit :=
  update_inner task (set_ti_state f).

(** [self.inner.fds.lock().unwrap()] *)
Definition lock_fds (task : nat) : M W (FdTable H) :=
  i ← inner task;
  if ft_locked (ti_fds i) then no_fuel else mret (ti_fds i).
Definition put_fds (task : nat) (f : FdTable H) : M W unit := update_inner task (set_ti_fds f).

Definition set_files (files : btree Z (OpenFile H)) (f : FdTable H) : FdTable H :=
  mkFdTable files (ft_next f) (ft_locked f).
Definition set_locked (b : bool) (f : FdTable H) : FdTable H :=
  mkFdTable (ft_files f) (ft_next f) b.

(** The lock is held while [m] runs. *)
Definition set_fds_locked (task : nat) (b : bool) : M W unit :=
  update_inner task (λ i, set_ti_fds (set_locked b (ti_fds i)) i).

Definition holding_fds {A} (task : nat) (m : M W A) : M W A :=
  set_fds_locked task true ;;
  r ← attempt m;
  set_fds_locked task false ;;
  lift r.

(** ** Fields of a task *)

Definition id (task : nat) : M W string := i ← inner task; mret (pretty (ti_id i)).
Definition namespace (task : nat) : M W nat := i ← inner task; mret (ti_ns i).
Definition parent (task : nat) : M W (option nat) := i ← inner task; mret (ti_parent i).

(** The loop of [root] walks up the parents; [fuel] is the number of tasks, more
    than any chain of parents has ([TaskProps.root_ends]). *)
Fixpoint root_loop (fuel : nat) (task : nat) : M W nat :=
  match fuel with
  | O => no_fuel
  | S fuel' =>
      p ← parent task;
      match p with
      | Some parent => root_loop fuel' parent
      | None => mret task
      end
  end.

Definition root (task : nat) : M W nat :=
  s ← store; root_loop (length (ts_tasks s)) task.

Definition kind (task : nat) : M W string := s ← state task; mret (st_kind s).
Definition cmd (task : nat) : M W string := s ← state task; mret (st_cmd s).
Definition arg (task : nat) (index : nat) : M W string :=
  c ← cmd task; mret (default "" (split_on " " c !! index)).
Definition env (task : nat) : M W (list string) := s ← state task; mret (st_env s).
Definition exit (task : nat) : M W string := s ← state task; mret (st_exit s).
Definition alias (task : nat) : M W string := s ← state task; mret (st_alias s).
Definition dir (task : nat) : M W string := s ← state task; mret (st_dir s).

Definition set_st_alias (v : string) (s : TaskState) : TaskState :=
  mkTaskState v (st_kind s) (st_cmd s) (st_env s) (st_exit s) (st_dir s).
Definition set_st_kind (v : string) (s : TaskState) : TaskState :=
  mkTaskState (st_alias s) v (st_cmd s) (st_env s) (st_exit s) (st_dir s).
Definition set_st_cmd (v : string) (s : TaskState) : TaskState :=
  mkTaskState (st_alias s) (st_kind s) v (st_env s) (st_exit s) (st_dir s).
Definition set_st_env (v : list string) (s : TaskState) : TaskState :=
  mkTaskState (st_alias s) (st_kind s) (st_cmd s) v (st_exit s) (st_dir s).
Definition set_st_exit (v : string) (s : TaskState) : TaskState :=
  mkTaskState (st_alias s) (st_kind s) (st_cmd s) (st_env s) v (st_dir s).
Definition set_st_dir (v : string) (s : TaskState) : TaskState :=
  mkTaskState (st_alias s) (st_kind s) (st_cmd s) (st_env s) (st_exit s) v.

Definition set_cmd (task : nat) (v : string) : M W unit := update_state task (set_st_cmd v).
Definition set_env (task : nat) (v : list string) : M W unit := update_state task (set_st_env v).
Definition set_dir (task : nat) (v : string) : M W unit := update_state task (set_st_dir v).
Definition set_exit (task : nat) (v : string) : M W unit := update_state task (set_st_exit v).

Definition set_worker (task : nat) (worker : string) : M W unit :=
  update_inner task (set_ti_worker (Some worker)).
Definition worker (task : nat) : M W (option string) := i ← inner task; mret (ti_worker i).
Definition set_export (task : nat) (fs : nat) : M W unit :=
  update_inner task (set_ti_export (Some fs)).
Definition clear_export (task : nat) : M W unit := update_inner task (set_ti_export None).
Definition export (task : nat) : M W (option nat) := i ← inner task; mret (ti_export i).

(** ** Namespaces of a task *)

Definition bind (task : nat) (src_path dst_path : string) : M W unit :=
  ns ← namespace task;
  src ← ns_self ns;
  ns_bind ns src src_path dst_path After.

Definition unbind (task : nat) (src_path dst_path : string) : M W unit :=
  ns ← namespace task;
  ns_ref ← ns_self ns;
  ns_unbind ns ns_ref src_path dst_path.

(** ** Descriptors *)

Definition open_fd (task : nat) (file : H) (path : string) : M W Z :=
  fds ← lock_fds task;
  let fd := ft_next fds in
  match next_u32 fd with
  | None => panic
  | Some next =>
      put_fds task (mkFdTable (bt_insert fd (mkOpenFile file path) (ft_files fds)) next false) ;;
      mret fd
  end.

Definition set_fd (task : nat) (fd : Z) (file : H) (path : string) : M W unit :=
  fds ← lock_fds task;
  match (if ft_next fds <=? fd then next_u32 fd else Some (ft_next fds)) with
  | None => panic
  | Some next =>
      put_fds task (mkFdTable (bt_insert fd (mkOpenFile file path) (ft_files fds)) next false)
  end.

Definition fd_entries (task : nat) : M W (list (Z * string)) :=
  fds ← lock_fds task;
  mret ((λ kv, (kv.1, of_path kv.2)) <$> (ft_files fds)).

Definition clear_fds (task : nat) : M W unit :=
  fds ← lock_fds task;
  put_fds task (set_files [] fds) ;;
  for_each (λ kv, with_handle (of_file kv.2) fh_close ;; mret tt) (ft_files fds).

Definition reopen_fds_from (task source : nat) : M W unit :=
  entries ← fd_entries source;
  for_each (λ '(fd, path),
    ns ← namespace source;
    file ← ns_open ns Ctx.new path;
    set_fd task fd file path) entries.

Definition no_fd (op : string) (fd : Z) : Error := EPath op (pretty fd) Invalid.

Definition close_fd (task : nat) (fd : Z) : M W unit :=
  fds ← lock_fds task;
  file ← ok_or (bt_get fd (ft_files fds)) (no_fd "closefd" fd);
  put_fds task (set_files (bt_remove fd (ft_files fds)) fds) ;;
  holding_fds task (with_handle (of_file file) fh_close) ;;
  mret tt.

(** A method of the handle at [fd], run with the table locked; the handle is
    changed in its place. *)
Definition on_fd {A} (task : nat) (fd : Z) (missing : Error) (f : M (H * W) A) : M W A :=
  fds ← lock_fds task;
  file ← ok_or (bt_get fd (ft_files fds)) missing;
  set_fds_locked task true ;;
  '(r, h) ← on_handle (of_file file) f;
  put_fds task (set_locked false
    (set_files (bt_insert fd (mkOpenFile h (of_path file)) (ft_files fds)) fds)) ;;
  lift r.

Definition renumber_fd (task : nat) (from to : Z) : M W unit :=
  fds ← lock_fds task;
  source ← ok_or (bt_get from (ft_files fds)) (no_fd "renumberfd" from);
  if from =? to then mret tt
  else
    on_fd task to (no_fd "renumberfd" to) fh_close ;;
    fds ← lock_fds task;
    put_fds task (set_files
      (bt_insert to source (bt_remove from (ft_files fds))) fds).

Definition fd_path (task : nat) (fd : Z) : M W string :=
  fds ← lock_fds task;
  file ← ok_or (bt_get fd (ft_files fds)) (no_fd "fd" fd);
  mret (of_path file).

Definition with_fd_mut {A} (task : nat) (fd : Z) (f : M (H * W) A) : M W A :=
  on_fd task fd (no_fd "fd" fd) f.

(** ** Reading and writing the fields as files *)

Definition update_alias (task : nat) (old new : string) : M W unit :=
  update_store (λ s,
    let aliases := if is_empty_str old then ts_aliases s else bt_remove old (ts_aliases s) in
    let aliases := if is_empty_str new then aliases else bt_insert new task aliases in
    set_aliases aliases s).

Definition set_field (task : nat) (name value : string) : M W unit :=
  if decide (name = "cmd") then update_state task (set_st_cmd value)
  else if decide (name = "alias") then
    s ← state task;
    update_state task (set_st_alias value) ;;
    update_alias task (st_alias s) value
  else if decide (name = "env") then update_state task (set_st_env (str_lines value))
  else if decide (name = "dir") then update_state task (set_st_dir value)
  else if decide (name = "exit") then update_state task (set_st_exit value)
  else throw (EKind Invalid).

Definition field_value (task : nat) (name : string) : M W string :=
  s ← state task;
  if decide (name = "id") then id task
  else if decide (name = "kind") then mret (st_kind s)
  else if decide (name = "cmd") then mret (st_cmd s)
  else if decide (name = "alias") then mret (st_alias s)
  else if decide (name = "env") then mret (str_join (String NEWLINE "") (st_env s))
  else if decide (name = "dir") then mret (st_dir s)
  else if decide (name = "exit") then mret (st_exit s)
  else throw (EKind Invalid).

(** [matches!(name, "id" | "kind" | "binds")]: the fields that are not written. *)
Definition fixed_field (name : string) : bool := bool_decide (name ∈ ["id"; "kind"; "binds"]).

Definition field_read (len : Z) : M (TaskFieldHandle * W) (list byte) := λ '(h, w),
  let bs := window (tf_data h) (tf_offset h) len in
  (Ok bs, (mkTaskFieldHandle (tf_task h) (tf_name h) (tf_data h) (tf_written h)
             (tf_offset h + blen bs), w)).

Definition field_write (data : list byte) : M (TaskFieldHandle * W) Z := λ '(h, w),
  if fixed_field (tf_name h) then (Err (EKind PermissionDenied), (h, w))
  else (Ok (blen data), (mkTaskFieldHandle (tf_task h) (tf_name h) (tf_data h)
                           (tf_written h ++ data) (tf_offset h), w)).

Definition field_stat : M (TaskFieldHandle * W) Metadata := λ '(h, w),
  (Ok (Meta.file (tf_name h) (if fixed_field (tf_name h) then 292 else 438) (blen (tf_data h))),
   (h, w)).

Definition field_close : M (TaskFieldHandle * W) unit :=
  by_ref (λ h,
    if decide (tf_written h = []) then mret tt
    else set_field (tf_task h) (tf_name h) (trim (from_utf8_lossy (tf_written h)))).

#[global] Instance task_field_handle : FileHandle W TaskFieldHandle := {
  fh_read := field_read;
  fh_write := field_write;
  fh_read_at := default_read_at (λ _, unsupported) field_read;
  fh_write_at := default_write_at (λ _, unsupported) field_write;
  fh_seek _ := unsupported;
  fh_stat := field_stat;
  fh_read_dir := default_read_dir field_stat;
  fh_sync := unsupported;
  fh_close := field_close
}.

Definition proxy {A} (f : M (H * W) A) : M (FdProxy * W) A :=
  by_ref (λ p, with_fd_mut (fp_task p) (fp_fd p) f).

#[global] Instance fd_proxy_handle : FileHandle W FdProxy := {
  fh_read len := proxy (fh_read len);
  fh_write data := proxy (fh_write data);
  fh_read_at len offset := proxy (fh_read_at len offset);
  fh_write_at data offset := proxy (fh_write_at data offset);
  fh_seek pos := proxy (fh_seek pos);
  fh_stat := proxy fh_stat;
  fh_read_dir := default_read_dir (proxy fh_stat);
  fh_sync := proxy fh_sync;
  fh_close := mret tt
}.

(** ** [TaskFs] *)

Definition register (kind : string) (driver : nat) : M W unit :=
  update_store (λ s, set_drivers (bt_insert kind driver (ts_drivers s)) s).

(** The start function of the driver [auto]: the first other driver that takes the
    task, in the order of the kinds. *)
Fixpoint auto_loop (task : nat) (ds : btree string nat) : M W unit :=
  match ds with
  | [] => mret tt
  | (kind, d) :: ds' =>
      taken ← (if decide (kind = "auto") then mret false else td_check (drivers d) task);
      if (taken : bool) then
        update_state task (set_st_kind kind) ;;
        td_start (drivers d) task
      else auto_loop task ds'
  end.

Definition auto_start (task : nat) : M W unit :=
  s ← store; auto_loop task (ts_drivers s).

(** [self.inner.driver.start(self)] *)
Definition start (task : nat) : M W unit :=
  i ← inner task;
  if decide (ti_driver i = 0%nat) then auto_start task
  else td_start (drivers (ti_driver i)) task.

Definition new_inner (id : Z) (kind : string) (driver : nat) (parent : option nat) (ns : nat)
    : TaskInner H :=
  mkTaskInner driver parent ns id (mkTaskState "" kind "" [] "" ".") (mkFdTable [] 3 false)
    None None.

(** [Task::new_with_namespace]: the [Arc] of a new task. *)
Definition new_with_namespace (id : Z) (kind : string) (driver : nat) (parent : option nat)
    (ns : nat) : M W nat :=
  s ← store;
  update_store (λ s, set_ts_tasks (ts_tasks s ++ [new_inner id kind driver parent ns]) s) ;;
  mret (length (ts_tasks s)).

(** [Task::new]: a child gets a copy of the namespace of its parent. *)
Definition new (id : Z) (kind : string) (driver : nat) (parent : option nat) : M W nat :=
  ns ← match parent with
       | Some p => pns ← namespace p; ns_clone pns
       | None => ns_new
       end;
  new_with_namespace id kind driver parent ns.

Definition take_id : M W Z :=
  s ← store;
  match next_u32 (ts_next_id s) with
  | None => panic
  | Some id => update_store (set_next_id id) ;; mret id
  end.

Definition alloc_with_parent_and_namespace (kind : string) (parent : option nat)
    (namespace : option nat) : M W nat :=
  s ← store;
  driver ← ok_or (bt_get kind (ts_drivers s)) (EKind NotFound);
  id ← take_id;
  task ← match namespace with
         | Some ns => new_with_namespace id kind driver parent ns
         | None => new id kind driver parent
         end;
  update_store (λ s, set_resources (bt_insert (pretty id) task (ts_resources s)) s) ;;
  mret task.

Definition alloc (kind : string) (parent : option nat) : M W nat :=
  s ← store;
  let parent := match parent with Some p => Some p | None => bt_get "1" (ts_resources s) end in
  alloc_with_parent_and_namespace kind parent None.

Definition alloc_with_namespace (kind : string) (parent : option nat) (namespace : nat) : M W nat :=
  alloc_with_parent_and_namespace kind parent (Some namespace).

Definition alloc_clean_namespace (kind : string) : M W nat :=
  ns ← ns_new; alloc_with_parent_and_namespace kind None (Some ns).

Definition lookup (rid : string) : M W nat :=
  s ← store;
  match bt_get rid (ts_resources s) with
  | Some task => mret task
  | None => ok_or (bt_get rid (ts_aliases s)) (EPath "lookup" rid NotFound)
  end.

Definition tasks : M W (list nat) := s ← store; mret (bt_values (ts_resources s)).

Definition new_dir_entries : M W (list DirEntry) :=
  s ← store;
  mret ((λ kind, mkDirEntry kind (Meta.file kind 365 0)) <$> bt_keys (ts_drivers s)).

(** Reading a handle of [new/kind] allocates its task once. *)
Definition new_read (len : Z) : M (NewTaskHandle * W) (list byte) := λ '(h, w),
  let '(r, w) :=
    match nt_data h with
    | Some data => (Ok data, w)
    | None =>
        (task ← alloc (nt_kind h) None;
         i ← id task;
         mret (bytes_of (i +:+ String NEWLINE ""))) w
    end in
  match r with
  | Ok data =>
      let bs := window data (nt_offset h) len in
      (Ok bs, (mkNewTaskHandle (nt_kind h) (Some data) (nt_offset h + blen bs), w))
  | Err e => (Err e, (h, w))
  | Panic => (Panic, (h, w))
  | NoFuel => (NoFuel, (h, w))
  end.

Definition new_stat : M (NewTaskHandle * W) Metadata := λ '(h, w),
  (Ok (Meta.file (base_name (nt_kind h)) 365 0), (h, w)).

#[global] Instance new_task_handle : FileHandle W NewTaskHandle := {
  fh_read := new_read;
  fh_write _ := throw (EKind PermissionDenied);
  fh_read_at := default_read_at (λ _, unsupported) new_read;
  fh_write_at := default_write_at (λ _, unsupported) (λ _, throw (EKind PermissionDenied));
  fh_seek _ := unsupported;
  fh_stat := new_stat;
  fh_read_dir := default_read_dir new_stat;
  fh_sync := unsupported;
  fh_close := mret tt
}.

(** ** The control file *)

Definition ctl_command (task : nat) (cmd : string) : M W unit :=
  match split_whitespace_str cmd with
  | [verb; src; dst] =>
      if decide (verb = "bind") then bind task src dst
      else if decide (verb = "unbind") then unbind task src dst
      else throw (EKind Invalid)
  | [verb] => if decide (verb = "start") then start task else throw (EKind Invalid)
  | _ => throw (EKind Invalid)
  end.

Definition ctl_file (task : nat) : Control.ControlFile W :=
  Control.mkControlFile "ctl" (ctl_command task).

(** The methods of the control file's handle. *)
Definition as_control {A} (m : M (Control.ControlHandle W * W) A) : M (TaskCtlHandle * W) A :=
  λ '(h, w),
    let '(r, (c, w)) := m (Control.mkControlHandle (ctl_file (tc_task h)) (tc_buf h), w) in
    (r, (mkTaskCtlHandle (tc_task h) (Control.ch_buf c), w)).

#[global] Instance task_ctl_handle : FileHandle W TaskCtlHandle := {
  fh_read len := as_control (fh_read len);
  fh_write data := as_control (fh_write data);
  fh_read_at len offset := as_control (fh_read_at len offset);
  fh_write_at data offset := as_control (fh_write_at data offset);
  fh_seek pos := as_control (fh_seek pos);
  fh_stat := as_control fh_stat;
  fh_read_dir count := as_control (fh_read_dir count);
  fh_sync := as_control fh_sync;
  fh_close := as_control fh_close
}.

(** ** [impl FileSystem for Task] *)

Definition field_entry (field : string) : DirEntry :=
  mkDirEntry field
    (if bool_decide (field ∈ ["fd"; "ns"; "export"]) then Meta.dir field 365
     else if fixed_field field then Meta.file field 292 0
     else Meta.file field 438 0).

Definition open_root (task : nat) : M W H :=
  e ← export task;
  let fields :=
    ["ctl"; "id"; "kind"; "cmd"; "alias"; "env"; "dir"; "exit"; "fd"; "ns"; "binds"]
    ++ (match e with Some _ => ["export"] | None => [] end) in
  mret (directory_file (Meta.dir "." 365) (field_entry <$> fields)).

(** [name.strip_prefix(prefix).map(clean_path).unwrap_or(".")] *)
Definition rel_or_root (prefix name : string) : string :=
  match strip_prefix prefix name with Some rest => clean_path rest | None => "." end.

Definition open_fds (task : nat) : M W H :=
  fds ← lock_fds task;
  mret (directory_file (Meta.dir "fd" 365)
    ((λ fd, mkDirEntry (pretty fd) (Meta.file (pretty fd) 438 0)) <$> bt_keys (ft_files fds))).

Definition open_field (task : nat) (name : string) (data : string) : M W H :=
  mret (box_field (mkTaskFieldHandle task name (bytes_of data) [] 0)).

Definition open (task : nat) (ctx : FsContext) (name : string) : M W H :=
  guard_err (negb (valid_path name)) (EPath "open" name NotFound) ;;
  let name := clean_path name in
  if decide (name = ".") then open_root task
  else if bool_decide (name = "export") || starts_with "export/" name then
    e ← export task;
    export ← ok_or e (EPath "open" name NotFound);
    fs_open (table export) ctx (rel_or_root "export/" name)
  else if bool_decide (name = "ns") || starts_with "ns/" name then
    ns ← namespace task;
    ns_open ns ctx (rel_or_root "ns/" name)
  else if decide (name = "fd") then open_fds task
  else
    match strip_prefix "fd/" name with
    | Some fd_name =>
        match parse_unsigned U32_MAX fd_name with
        | Some fd => mret (box_proxy (mkFdProxy task fd))
        | None => throw (EPath "open" name Invalid)
        end
    | None =>
        if decide (name = "ctl") then mret (box_ctl (mkTaskCtlHandle task []))
        else if bool_decide (name ∈ ["id"; "kind"; "cmd"; "alias"; "env"; "dir"; "exit"]) then
          v ← field_value task name;
          open_field task name (v +:+ String NEWLINE "")
        else if decide (name = "binds") then
          ns ← namespace task;
          data ← ns_format_bindings ns;
          open_field task name (if is_empty_str data then data else data +:+ String NEWLINE "")
        else throw (EPath "open" name NotFound)
    end.

(** [stat] of [Task] and of [TaskFs]: open, ask the handle, close. *)
Definition stat_by (open : FsContext → string → M W H) (ctx : FsContext) (name : string)
    : M W Metadata :=
  f ← open ctx name;
  '(stat, f) ← on_handle f fh_stat;
  on_handle f fh_close ;;
  lift stat.

Definition fs (task : nat) : FileSystem W H :=
  default_fs (open task) (stat_by (open task)) (λ _, unsupported) (λ _ _, unsupported).

(** ** [impl FileSystem for TaskFs] *)

Definition dir_entry (name : string) : DirEntry := mkDirEntry name (Meta.dir name 365).

Definition taskfs_open (ctx : FsContext) (name : string) : M W H :=
  guard_err (negb (valid_path name)) (EPath "open" name NotFound) ;;
  let name := clean_path name in
  if decide (name = ".") then
    s ← store;
    mret (directory_file (Meta.dir "." 365)
      (dir_entry <$> "new" :: bt_keys (ts_resources s) ++ bt_keys (ts_aliases s)))
  else if decide (name = "new") then
    entries ← new_dir_entries;
    mret (directory_file (Meta.dir "new" 365) entries)
  else
    match strip_prefix "new/" name with
    | Some kind => mret (box_new (mkNewTaskHandle kind None 0))
    | None =>
        let '(head, rest) := default (name, ".") (split_once "/" name) in
        task ← lookup head;
        open task ctx rest
    end.

Definition taskfs : FileSystem W H :=
  default_fs taskfs_open (stat_by taskfs_open) (λ _, unsupported) (λ _ _, unsupported).
End Task.

(** [TaskFs::new] *)
Definition new_store {H} : TaskStore H := mkTaskStore [] [("auto", 0%nat)] [] [] 0.
End Task.
