(* ===== verification/TaskWorld.v ===== *)
(** * Tasks over namespaces

    Puts [Task] and [Vfs] together into one executable world: [TaskNamespaces] is
    implemented by namespaces of [Vfs], the [FsRef] of a namespace is an index of
    the world, and the handles are those of star9-task, directories and pipes.

    A handle method and a filesystem of a namespace call each other (a descriptor
    may hold a proxy of another descriptor, a control file binds a namespace into
    itself), so [knot] ties them with fuel: the depth of nested calls.  A cycle of
    proxies or of bindings exhausts every fuel, as it exhausts the stack. *)

From stdpp Require Import base list numbers option strings pretty.
From Stdlib Require Import ZArith Lia Ascii.
From S2P Require Import Prelude Strs RcText BTree Core FsTrait Vfs Pipe Field Task.

Local Open Scope Z_scope.

Inductive Box :=
| BField (h : TaskFieldHandle)
| BProxy (h : FdProxy)
| BNew (h : NewTaskHandle)
| BCtl (h : TaskCtlHandle)
| BDir (h : DirFile)
| BPipe (h : PipePort).

#[global] Instance box_task : BoxTask Box := {
  task_box_dir := BDir;
  box_field := BField;
  box_proxy := BProxy;
  box_new := BNew;
  box_ctl := BCtl
}.

(** The tasks, the pipes, the bindings of each namespace, and the namespace behind
    each [FsRef]. *)
Record World := mkWorld {
  w_tasks : TaskStore Box;
  w_pipes : Pipes;
  w_ns : nat → Bindings;
  w_ns_next : nat;
  w_refs : list nat
}.

#[global] Instance world_tasks : HasTasks World Box.
Proof.
  refine {| tasks_of := w_tasks;
            set_tasks s w := mkWorld s (w_pipes w) (w_ns w) (w_ns_next w) (w_refs w) |};
    [done|done|by intros []].
Defined.

Definition set_ns (ns : nat) (b : Bindings) (w : World) : World :=
  mkWorld (w_tasks w) (w_pipes w) (λ n, if decide (n = ns) then b else w_ns w n)
    (w_ns_next w) (w_refs w).

(** The bindings of one namespace. *)
Definition bindings_at (ns : nat) : HasBindings World.
Proof.
  refine {| bindings w := w_ns w ns; set_bindings := set_ns ns |}.
  intros b w. cbn. by rewrite decide_True.
Defined.

Definition in_pipes {A} (m : M Pipes A) : M World A :=
  zoom w_pipes (λ p w, mkWorld (w_tasks w) p (w_ns w) (w_ns_next w) (w_refs w)) m.

(** ** Namespaces *)

Section Namespaces.
Context (hd : FileHandle World Box) (table : nat → FileSystem World Box).

Definition new_namespace (b : Bindings) : M World nat := λ w,
  (Ok (w_ns_next w),
   mkWorld (w_tasks w) (w_pipes w) (λ n, if decide (n = w_ns_next w) then b else w_ns w n)
     (S (w_ns_next w)) (w_refs w)).

Definition clone_namespace (ns : nat) : M World nat :=
  b ← Vfs.clone_bindings (HasBindings0 := bindings_at ns);
  new_namespace b.

(** [fs_ref] of a clone of the namespace: a new [Arc] around the same bindings. *)
Definition new_ref (ns : nat) : M World nat := λ w,
  (Ok (length (w_refs w)),
   mkWorld (w_tasks w) (w_pipes w) (w_ns w) (w_ns_next w) (w_refs w ++ [ns])).

Definition vfs_namespaces : TaskNamespaces World Box := {|
  ns_new := new_namespace [];
  ns_clone := clone_namespace;
  ns_self := new_ref;
  ns_bind ns := @Vfs.bind World Box (bindings_at ns) table;
  ns_unbind ns := @Vfs.unbind World (bindings_at ns);
  ns_open ns := @Vfs.open World Box (bindings_at ns) _ table;
  ns_format_bindings ns := @Vfs.format_bindings World (bindings_at ns)
|}.

(** The filesystem of the namespace behind a [FsRef]. *)
Definition at_ref {A} (r : nat) (f : FileSystem World Box → M World A) : M World A := λ w,
  match w_refs w !! r with
  | Some ns => f (@Vfs.fs World Box (bindings_at ns) hd _ table) w
  | None => (Panic, w)
  end.

Definition ref_fs (r : nat) : FileSystem World Box := {|
  fs_open ctx name := at_ref r (λ f, fs_open f ctx name);
  fs_stat ctx name := at_ref r (λ f, fs_stat f ctx name);
  fs_lstat ctx name := at_ref r (λ f, fs_lstat f ctx name);
  fs_read_dir ctx name := at_ref r (λ f, fs_read_dir f ctx name);
  fs_create name := at_ref r (λ f, fs_create f name);
  fs_open_file name flags perm := at_ref r (λ f, fs_open_file f name flags perm);
  fs_mkdir name perm := at_ref r (λ f, fs_mkdir f name perm);
  fs_remove name := at_ref r (λ f, fs_remove f name);
  fs_rename old new := at_ref r (λ f, fs_rename f old new);
  fs_link old new := at_ref r (λ f, fs_link f old new);
  fs_chmod name mode := at_ref r (λ f, fs_chmod f name mode);
  fs_chown name uid gid := at_ref r (λ f, fs_chown f name uid gid);
  fs_chtimes name t := at_ref r (λ f, fs_chtimes f name t);
  fs_truncate name size := at_ref r (λ f, fs_truncate f name size);
  fs_symlink old new := at_ref r (λ f, fs_symlink f old new);
  fs_readlink name := at_ref r (λ f, fs_readlink f name);
  fs_set_xattr name attr data := at_ref r (λ f, fs_set_xattr f name attr data);
  fs_get_xattr name attr := at_ref r (λ f, fs_get_xattr f name attr);
  fs_list_xattrs name := at_ref r (λ f, fs_list_xattrs f name);
  fs_remove_xattr name attr := at_ref r (λ f, fs_remove_xattr f name attr)
|}.
End Namespaces.

(** ** Handles *)

(** Dispatch of a method of a box on what it holds. *)
Definition box_case {A}
    (f : M (TaskFieldHandle * World) A) (p : M (FdProxy * World) A)
    (n : M (NewTaskHandle * World) A) (c : M (TaskCtlHandle * World) A)
    (d : M (DirFile * World) A) (q : M (PipePort * World) A) : M (Box * World) A := λ '(b, w),
  match b with
  | BField h => let '(r, (h, w)) := f (h, w) in (r, (BField h, w))
  | BProxy h => let '(r, (h, w)) := p (h, w) in (r, (BProxy h, w))
  | BNew h => let '(r, (h, w)) := n (h, w) in (r, (BNew h, w))
  | BCtl h => let '(r, (h, w)) := c (h, w) in (r, (BCtl h, w))
  | BDir h => let '(r, (h, w)) := d (h, w) in (r, (BDir h, w))
  | BPipe h => let '(r, (h, w)) := q (h, w) in (r, (BPipe h, w))
  end.

(** A pipe's handle acts on the pipes of the world. *)
Definition pipe_in_world {A} (m : M (PipePort * Pipes) A) : M (PipePort * World) A := λ '(h, w),
  let '(r, (h, p)) := m (h, w_pipes w) in
  (r, (h, mkWorld (w_tasks w) p (w_ns w) (w_ns_next w) (w_refs w))).

Section Boxes.
Context (hd : FileHandle World Box) (ns : TaskNamespaces World Box)
  (drivers : nat → TaskDriver World).

#[local] Existing Instance hd.
#[local] Existing Instance ns.

Definition ctl_handle : FileHandle World TaskCtlHandle := Task.task_ctl_handle drivers.
#[local] Existing Instance ctl_handle.

Definition box_handle : FileHandle World Box := {|
  fh_read len := box_case (fh_read len) (fh_read len) (fh_read len) (fh_read len) (fh_read len)
    (pipe_in_world (fh_read len));
  fh_write data := box_case (fh_write data) (fh_write data) (fh_write data) (fh_write data)
    (fh_write data) (pipe_in_world (fh_write data));
  fh_read_at len o := box_case (fh_read_at len o) (fh_read_at len o) (fh_read_at len o)
    (fh_read_at len o) (fh_read_at len o) (pipe_in_world (fh_read_at len o));
  fh_write_at data o := box_case (fh_write_at data o) (fh_write_at data o) (fh_write_at data o)
    (fh_write_at data o) (fh_write_at data o) (pipe_in_world (fh_write_at data o));
  fh_seek pos := box_case (fh_seek pos) (fh_seek pos) (fh_seek pos) (fh_seek pos) (fh_seek pos)
    (pipe_in_world (fh_seek pos));
  fh_stat := box_case fh_stat fh_stat fh_stat fh_stat fh_stat (pipe_in_world fh_stat);
  fh_read_dir n := box_case (fh_read_dir n) (fh_read_dir n) (fh_read_dir n) (fh_read_dir n)
    (fh_read_dir n) (pipe_in_world (fh_read_dir n));
  fh_sync := box_case fh_sync fh_sync fh_sync fh_sync fh_sync (pipe_in_world fh_sync);
  fh_close := box_case fh_close fh_close fh_close fh_close fh_close (pipe_in_world fh_close)
|}.
End Boxes.

Definition no_handle : FileHandle World Box := {|
  fh_read _ := no_fuel; fh_write _ := no_fuel; fh_read_at _ _ := no_fuel;
  fh_write_at _ _ := no_fuel; fh_seek _ := no_fuel; fh_stat := no_fuel;
  fh_read_dir _ := no_fuel; fh_sync := no_fuel; fh_close := no_fuel
|}.

Definition no_fs : FileSystem World Box := {|
  fs_open _ _ := no_fuel; fs_stat _ _ := no_fuel; fs_lstat _ _ := no_fuel;
  fs_read_dir _ _ := no_fuel; fs_create _ := no_fuel; fs_open_file _ _ _ := no_fuel;
  fs_mkdir _ _ := no_fuel; fs_remove _ := no_fuel; fs_rename _ _ := no_fuel;
  fs_link _ _ := no_fuel; fs_chmod _ _ := no_fuel; fs_chown _ _ _ := no_fuel;
  fs_chtimes _ _ := no_fuel; fs_truncate _ _ := no_fuel; fs_symlink _ _ := no_fuel;
  fs_readlink _ := no_fuel; fs_set_xattr _ _ _ := no_fuel; fs_get_xattr _ _ := no_fuel;
  fs_list_xattrs _ := no_fuel; fs_remove_xattr _ _ := no_fuel
|}.

Section Knot.
Context (drivers : nat → TaskDriver World).

Fixpoint knot (fuel : nat) : FileHandle World Box * (nat → FileSystem World Box) :=
  match fuel with
  | O => (no_handle, λ _, no_fs)
  | S fuel' =>
      let '(hd, table) := knot fuel' in
      (box_handle hd (vfs_namespaces table) drivers, ref_fs hd table)
  end.

Definition handles (fuel : nat) : FileHandle World Box := fst (knot fuel).
Definition namespaces (fuel : nat) : TaskNamespaces World Box := vfs_namespaces (snd (knot fuel)).
Definition refs (fuel : nat) : nat → FileSystem World Box := snd (knot fuel).
End Knot.

(** Before any task. *)
Definition empty_world : World := mkWorld Task.new_store [] (λ _, []) 0 [].
