(* ===== verification/TaskProps.v ===== *)
(** * Correctness of tasks

    Descriptor tables ([task_fds_fresh], [task_renumber]), the maps of [TaskFs]
    ([task_store_invariant], [task_alloc], [task_root]) and the fields as files
    ([task_field_write]), for any handles, namespaces and drivers that leave alone
    what the theorem is about. *)

From stdpp Require Import base list numbers option strings pretty sets relations.
From Stdlib Require Import ZArith Lia Ascii.
From S2P Require Import Prelude Strs RcText BTree Core FsTrait Vfs Pipe Field Task TaskWorld.

Local Open Scope Z_scope.

#[local] Arguments Task.set_fds_locked : simpl never.
#[local] Arguments Task.put_fds : simpl never.
#[local] Arguments Task.update_inner : simpl never.

Section Facts.
Context {W H : Type} `{!HasTasks W H}.

(** ** Looking into the world *)

Definition task_at (w : W) (task : nat) : option (TaskInner H) := ts_tasks (tasks_of w) !! task.
Definition fds_at (w : W) (task : nat) : option (FdTable H) := ti_fds <$> task_at w task.

Lemma inner_spec task w i : task_at w task = Some i → Task.inner task w = (Ok i, w).
Proof. intros Hi. unfold Task.inner, Task.store. unfold_eff. unfold task_at in Hi. by rewrite Hi. Qed.

Lemma task_at_update task f w t :
  task_at (snd (Task.update_inner task f w)) t =
    (if decide (t = task) then f else λ i, i) <$> task_at w t.
Proof.
  unfold Task.update_inner, Task.update_store, modify, task_at. cbn. rewrite tasks_set. cbn.
  case_decide as Ht.
  - subst. apply list_lookup_alter_eq.
  - rewrite list_lookup_alter_ne by done. by destruct (_ !! t).
Qed.

Lemma update_inner_ok task f w :
  Task.update_inner task f w = (Ok tt, snd (Task.update_inner task f w)).
Proof. done. Qed.

Lemma lock_fds_spec task w f : fds_at w task = Some f → ft_locked f = false →
  Task.lock_fds task w = (Ok f, w).
Proof.
  intros Hf Hl. unfold fds_at in Hf. destruct (task_at w task) as [i|] eqn:Hi; [|done].
  cbn in Hf. simplify_eq. unfold Task.lock_fds.
  rewrite (eff_bind_Ok _ _ _ _ _ (inner_spec _ _ _ Hi)). by rewrite Hl.
Qed.

Lemma lock_fds_held task w f : fds_at w task = Some f → ft_locked f = true →
  Task.lock_fds task w = (NoFuel, w).
Proof.
  intros Hf Hl. unfold fds_at in Hf. destruct (task_at w task) as [i|] eqn:Hi; [|done].
  cbn in Hf. simplify_eq. unfold Task.lock_fds.
  rewrite (eff_bind_Ok _ _ _ _ _ (inner_spec _ _ _ Hi)). by rewrite Hl.
Qed.

(** The world with another descriptor table for a task. *)
Definition with_fds (task : nat) (f : FdTable H) (w : W) : W := snd (Task.put_fds task f w).

Lemma put_fds_spec task f w : Task.put_fds task f w = (Ok tt, with_fds task f w).
Proof. done. Qed.

Lemma fds_at_with task f w t :
  fds_at (with_fds task f w) t =
    if decide (t = task) then (λ _, f) <$> fds_at w t else fds_at w t.
Proof.
  unfold fds_at, with_fds, Task.put_fds. rewrite task_at_update.
  case_decide; by destruct (task_at w t).
Qed.

Lemma fds_at_with_eq task f g w : fds_at w task = Some g → fds_at (with_fds task f w) task = Some f.
Proof. intros Hg. rewrite fds_at_with, decide_True, Hg by done. done. Qed.

Lemma fds_at_with_ne task f w t : t ≠ task → fds_at (with_fds task f w) t = fds_at w t.
Proof. intros Ht. by rewrite fds_at_with, decide_False. Qed.

Lemma with_fds_twice task f g w : with_fds task f (with_fds task g w) = with_fds task f w.
Proof.
  unfold with_fds, Task.put_fds, Task.update_inner, Task.update_store, modify. cbn.
  rewrite tasks_set, set_tasks_set. f_equal.
  unfold Task.set_ts_tasks. f_equal. cbn. apply list_eq. intros t.
  destruct (decide (t = task)) as [->|Ht]; [|by rewrite !list_lookup_alter_ne].
  rewrite !list_lookup_alter_eq. by destruct (_ !! task).
Qed.

Lemma set_locked_spec task b w f : fds_at w task = Some f →
  Task.set_fds_locked task b w = (Ok tt, with_fds task (Task.set_locked b f) w).
Proof.
  intros Hf. unfold Task.set_fds_locked, with_fds, Task.put_fds, Task.update_inner,
    Task.update_store, modify. cbn. do 2 f_equal. unfold Task.set_ts_tasks. f_equal.
  unfold fds_at, task_at in Hf. apply list_eq. intros t.
  destruct (decide (t = task)) as [->|Ht].
  - rewrite !list_lookup_alter_eq. destruct (_ !! task) as [i|]; [|done]. cbn in *. by simplify_eq.
  - by rewrite !list_lookup_alter_ne.
Qed.

(** ** Descriptor tables *)

Context `{!FileHandle W H}.

(** A handle method that changes no descriptor table. *)
Definition quiet {A} (m : M (H * W) A) : Prop :=
  ∀ h w t, fds_at (snd (snd (m (h, w)))) t = fds_at w t.

(** What holds of a table between calls: its lock is free and every descriptor is
    below the next one. *)
Definition table_ok (f : FdTable H) : Prop :=
  ft_locked f = false ∧ bt_wf (ft_files f) ∧ ∀ fd, fd ∈ bt_keys (ft_files f) → fd < ft_next f.

(** The handle at [fd] after [m], in its place. *)
Definition replaced (fd : Z) (h : H) (file : OpenFile H) (f : FdTable H) : FdTable H :=
  mkFdTable (bt_insert fd (mkOpenFile h (of_path file)) (ft_files f)) (ft_next f) false.

Lemma on_fd_missing {A} task fd e (m : M (H * W) A) w f :
  fds_at w task = Some f → ft_locked f = false → bt_get fd (ft_files f) = None →
  Task.on_fd task fd e m w = (Err e, w).
Proof.
  intros Hf Hl Hg. unfold Task.on_fd.
  rewrite (eff_bind_Ok _ _ _ _ _ (lock_fds_spec _ _ _ Hf Hl)), Hg. done.
Qed.

(** A method runs with the table locked, and its handle is put back in its place. *)
Lemma on_fd_run {A} task fd e (m : M (H * W) A) w f file :
  fds_at w task = Some f → ft_locked f = false → bt_get fd (ft_files f) = Some file →
  let '(r, (h, w')) := m (of_file file, with_fds task (Task.set_locked true f) w) in
  Task.on_fd task fd e m w =
    match r with
    | Ok _ | Err _ => (r, with_fds task (replaced fd h file f) w')
    | _ => (r, w')
    end.
Proof.
  intros Hf Hl Hg. unfold Task.on_fd.
  rewrite (eff_bind_Ok _ _ _ _ _ (lock_fds_spec _ _ _ Hf Hl)), Hg. cbn [ok_or].
  rewrite (eff_bind_Ok _ _ _ file w) by done.
  rewrite (eff_bind_Ok _ _ _ _ _ (set_locked_spec _ true _ _ Hf)).
  unfold on_handle. unfold_eff.
  destruct (m (of_file file, with_fds task (Task.set_locked true f) w)) as [[a|err| |] [h w']];
    cbn in *; done.
Qed.

Lemma on_fd_spec {A} task fd e (m : M (H * W) A) w f file :
  quiet m → fds_at w task = Some f → ft_locked f = false →
  bt_get fd (ft_files f) = Some file →
  let '(r, (h, w')) := m (of_file file, with_fds task (Task.set_locked true f) w) in
  Task.on_fd task fd e m w =
    match r with
    | Ok _ | Err _ => (r, with_fds task (replaced fd h file f) w')
    | _ => (r, w')
    end ∧ fds_at w' task = Some (Task.set_locked true f).
Proof.
  intros Hm Hf Hl Hg. pose proof (on_fd_run task fd e m w f file Hf Hl Hg) as Hrun.
  specialize (Hm (of_file file) (with_fds task (Task.set_locked true f) w) task).
  rewrite (fds_at_with_eq _ _ _ _ Hf) in Hm.
  by destruct (m (of_file file, with_fds task (Task.set_locked true f) w)) as [r [h w']].
Qed.

(** ** Calls on one descriptor table *)

Inductive FdEvent := GaveOut (fd : Z) | Placed (fd : Z) | NoNew.

(** [close] of the handles in play is quiet, as it is of every handle of the
    crates that does not start a task. *)
Inductive fd_step (task : nat) : W → FdEvent → W → Prop :=
| fd_open h path fd w w' : Task.open_fd task h path w = (Ok fd, w') →
    fd_step task w (GaveOut fd) w'
| fd_set h path fd w w' : Task.set_fd task fd h path w = (Ok tt, w') →
    fd_step task w (Placed fd) w'
| fd_close fd r w w' : Task.close_fd task fd w = (r, w') → returns r → fd_step task w NoNew w'
| fd_renumber a b r w w' : Task.renumber_fd task a b w = (r, w') → returns r →
    fd_step task w NoNew w'
| fd_clear r w w' : Task.clear_fds task w = (r, w') → returns r → fd_step task w NoNew w'
| fd_use {A} (m : M (H * W) A) fd r w w' : quiet m → Task.with_fd_mut task fd m w = (r, w') →
    returns r → fd_step task w NoNew w'.

Inductive fd_run (task : nat) : W → list FdEvent → W → Prop :=
| fd_nil w : fd_run task w [] w
| fd_cons w e w1 tr w' : fd_step task w e w1 → fd_run task w1 tr w' →
    fd_run task w (e :: tr) w'.

(** The descriptors a call brings into use. *)
Definition event_fd (e : FdEvent) : option Z :=
  match e with GaveOut fd | Placed fd => Some fd | NoNew => None end.

Hypothesis quiet_close : quiet fh_close.

(** A table that keeps its counter and gains no descriptor. *)
Definition shrinks (f f' : FdTable H) : Prop :=
  table_ok f' ∧ ft_next f' = ft_next f.

Lemma table_ok_keys f f' : table_ok f → ft_locked f' = false → ft_next f' = ft_next f →
  bt_wf (ft_files f') →
  (∀ fd, fd ∈ bt_keys (ft_files f') → fd ∈ bt_keys (ft_files f)) → shrinks f f'.
Proof.
  intros (Hl & Hwf & Hlt) Hl' Hn Hwf' Hsub. split; [|done]. repeat split; [done..|].
  intros fd Hfd. rewrite Hn. auto.
Qed.

Lemma replaced_shrinks fd h file f : table_ok f → bt_get fd (ft_files f) = Some file →
  shrinks f (replaced fd h file f).
Proof.
  intros Hok Hg. pose proof Hok as (_ & Hwf & _). apply table_ok_keys; [done..| |].
  - by apply bt_insert_wf.
  - cbn. intros x Hx. apply bt_keys_insert in Hx as [->|Hx]; [|done].
    apply bt_keys_get. eauto.
Qed.

Lemma on_fd_shrinks {A} task fd e (m : M (H * W) A) w f r w' : quiet m →
  fds_at w task = Some f → table_ok f → Task.on_fd task fd e m w = (r, w') → returns r →
  ∃ f', fds_at w' task = Some f' ∧ shrinks f f'.
Proof.
  intros Hm Hf Hok Hr Hret. pose proof Hok as (Hl & _ & _).
  destruct (bt_get fd (ft_files f)) as [file|] eqn:Hg.
  - pose proof (on_fd_spec task fd e m w f file Hm Hf Hl Hg) as Hs.
    destruct (m _) as [r1 [h w1]]. destruct Hs as [Hs Hf1]. rewrite Hs in Hr.
    destruct r1; simplify_eq; try done; eexists;
      (split; [by eapply fds_at_with_eq|by apply replaced_shrinks]).
  - rewrite (on_fd_missing _ _ _ _ _ _ Hf Hl Hg) in Hr. simplify_eq. by exists f.
Qed.

Lemma with_handle_fds {A} (m : M (H * W) A) h w t : quiet m →
  fds_at (snd (with_handle h m w)) t = fds_at w t.
Proof.
  intros Hm. specialize (Hm h w t). unfold with_handle, on_handle. unfold_eff.
  by destruct (m (h, w)) as [[a|e| |] [h' w']].
Qed.

Lemma next_u32_spec n m : next_u32 n = Some m → m = n + 1.
Proof. unfold next_u32. case_match; naive_solver. Qed.

Lemma placed_ok fd file f m : table_ok f → ft_next f ≤ m → fd < m →
  table_ok (mkFdTable (bt_insert fd file (ft_files f)) m false).
Proof.
  intros (Hl & Hwf & Hlt) Hm Hfd. repeat split; [by apply bt_insert_wf|].
  cbn. intros x Hx. apply bt_keys_insert in Hx as [->|Hx]; [done|]. specialize (Hlt x Hx). lia.
Qed.

Lemma open_fd_spec task h path w f : fds_at w task = Some f → ft_locked f = false →
  Task.open_fd task h path w =
    match next_u32 (ft_next f) with
    | None => (Panic, w)
    | Some next => (Ok (ft_next f),
        with_fds task (mkFdTable (bt_insert (ft_next f) (mkOpenFile h path) (ft_files f)) next false) w)
    end.
Proof.
  intros Hf Hl. unfold Task.open_fd. rewrite (eff_bind_Ok _ _ _ _ _ (lock_fds_spec _ _ _ Hf Hl)).
  by destruct (next_u32 _).
Qed.

Lemma set_fd_spec task fd h path w f : fds_at w task = Some f → ft_locked f = false →
  Task.set_fd task fd h path w =
    match (if ft_next f <=? fd then next_u32 fd else Some (ft_next f)) with
    | None => (Panic, w)
    | Some next => (Ok tt,
        with_fds task (mkFdTable (bt_insert fd (mkOpenFile h path) (ft_files f)) next false) w)
    end.
Proof.
  intros Hf Hl. unfold Task.set_fd. rewrite (eff_bind_Ok _ _ _ _ _ (lock_fds_spec _ _ _ Hf Hl)).
  by destruct (if _ : bool then _ else _).
Qed.

Lemma for_each_fds (l : list (Z * OpenFile H)) w t :
  fds_at (snd (for_each (λ kv : Z * OpenFile H, with_handle (of_file kv.2) fh_close ;; mret tt) l w)) t
  = fds_at w t.
Proof.
  revert w. induction l as [|[fd file] l IH]; intros w; cbn; [done|].
  pose proof (with_handle_fds fh_close (of_file file) w t quiet_close) as Hw. cbn in *.
  unfold mbind, eff_bind, mret, eff_ret in *. cbn in *.
  destruct (with_handle (of_file file) fh_close w) as [[a|e| |] w1]; cbn in *; [|done..].
  by rewrite IH.
Qed.

Lemma unlock_locked (f : FdTable H) : ft_locked f = false →
  Task.set_locked false (Task.set_locked true f) = f.
Proof. destruct f. cbn. by intros ->. Qed.

Lemma close_fd_shrinks task fd w f r w' : fds_at w task = Some f → table_ok f →
  Task.close_fd task fd w = (r, w') → returns r →
  ∃ f', fds_at w' task = Some f' ∧ shrinks f f'.
Proof.
  intros Hf Hok Hr Hret. pose proof Hok as (Hl & Hwf & _). unfold Task.close_fd in Hr.
  rewrite (eff_bind_Ok _ _ _ _ _ (lock_fds_spec _ _ _ Hf Hl)) in Hr.
  destruct (bt_get fd (ft_files f)) as [file|] eqn:Hg; cbn [ok_or] in Hr.
  2: { unfold_eff. simplify_eq. by exists f. }
  rewrite (eff_bind_Ok _ _ _ file w) in Hr by done.
  rewrite (eff_bind_Ok _ _ _ _ _ (put_fds_spec _ _ _)) in Hr.
  set (f1 := Task.set_files (bt_remove fd (ft_files f)) f) in *.
  assert (fds_at (with_fds task f1 w) task = Some f1) as Hf1 by by eapply fds_at_with_eq.
  unfold Task.holding_fds in Hr.
  unfold mbind, eff_bind at 1 2 in Hr. rewrite (set_locked_spec _ true _ _ Hf1) in Hr.
  pose proof (with_handle_fds fh_close (of_file file)
    (with_fds task (Task.set_locked true f1) (with_fds task f1 w)) task quiet_close) as Hw.
  rewrite (fds_at_with_eq _ _ _ _ Hf1) in Hw. unfold_eff.
  destruct (with_handle _ _ _) as [[a|e| |] w1]; cbn in Hw, Hr; simplify_eq; try done.
  all: rewrite (set_locked_spec _ false _ _ Hw) in Hr; cbn in Hr; simplify_eq;
    exists f1; (split; [by rewrite (fds_at_with_eq _ _ _ _ Hw), unlock_locked|]);
    apply table_ok_keys; cbn; try done;
    [by apply bt_remove_wf
    |intros x Hx; apply bt_keys_get in Hx as [v Hv]; rewrite bt_get_remove in Hv; case_decide;
     [done|apply bt_keys_get; eauto]].
Qed.

Lemma clear_fds_shrinks task w f r w' : fds_at w task = Some f → table_ok f →
  Task.clear_fds task w = (r, w') → ∃ f', fds_at w' task = Some f' ∧ shrinks f f'.
Proof.
  intros Hf Hok Hr. pose proof Hok as (Hl & _ & _). unfold Task.clear_fds in Hr.
  rewrite (eff_bind_Ok _ _ _ _ _ (lock_fds_spec _ _ _ Hf Hl)) in Hr.
  rewrite (eff_bind_Ok _ _ _ _ _ (put_fds_spec _ _ _)) in Hr.
  exists (Task.set_files [] f). apply (f_equal snd) in Hr. cbn in Hr. subst w'.
  rewrite for_each_fds. split; [by eapply fds_at_with_eq|].
  apply table_ok_keys; [done|done|done|constructor|]. intros fd Hfd. by apply elem_of_nil in Hfd.
Qed.

Lemma renumber_shrinks task a b w f r w' : fds_at w task = Some f → table_ok f →
  Task.renumber_fd task a b w = (r, w') → returns r →
  ∃ f', fds_at w' task = Some f' ∧ shrinks f f'.
Proof.
  intros Hf Hok Hr Hret. pose proof Hok as (Hl & _ & _). unfold Task.renumber_fd in Hr.
  rewrite (eff_bind_Ok _ _ _ _ _ (lock_fds_spec _ _ _ Hf Hl)) in Hr.
  destruct (bt_get a (ft_files f)) as [file|] eqn:Hg; cbn [ok_or] in Hr.
  2: { unfold_eff. simplify_eq. by exists f. }
  rewrite (eff_bind_Ok _ _ _ file w) in Hr by done.
  destruct (a =? b); [unfold_eff; simplify_eq; by exists f|].
  destruct (Task.on_fd task b (Task.no_fd "renumberfd" b) fh_close w) as [r1 w1] eqn:H1.
  destruct r1 as [u|e| |].
  - destruct (on_fd_shrinks _ _ _ _ _ _ _ _ quiet_close Hf Hok H1) as (f1 & Hf1 & Hok1 & Hn1);
      [done|]. pose proof Hok1 as (Hl1 & Hwf1 & Hlt1).
    rewrite (eff_bind_Ok _ _ _ _ _ H1) in Hr.
    rewrite (eff_bind_Ok _ _ _ _ _ (lock_fds_spec _ _ _ Hf1 Hl1)) in Hr.
    rewrite put_fds_spec in Hr. simplify_eq. eexists. split; [by eapply fds_at_with_eq|].
    destruct (bt_get b (ft_files f)) as [old|] eqn:Hb.
    2: { by rewrite (on_fd_missing _ _ _ _ _ _ Hf Hl Hb) in H1. }
    split; [|done]. repeat split; cbn; [done|by apply bt_insert_wf, bt_remove_wf|].
    intros x Hx. rewrite Hn1. destruct Hok as (_ & _ & Hlt).
    apply bt_keys_insert in Hx as [->|Hx]; [apply Hlt, bt_keys_get; eauto|].
    apply bt_keys_get in Hx as [v Hv]. rewrite bt_get_remove in Hv. case_decide; [done|].
    rewrite <- Hn1. apply Hlt1, bt_keys_get. eauto.
  - rewrite (eff_bind_Err _ _ _ _ _ H1) in Hr. simplify_eq.
    by apply (on_fd_shrinks _ _ _ _ _ _ _ _ quiet_close Hf Hok H1).
  - unfold mbind, eff_bind in Hr. rewrite H1 in Hr. by simplify_eq.
  - unfold mbind, eff_bind in Hr. rewrite H1 in Hr. by simplify_eq.
Qed.

(** A call keeps the table well-formed and its counter never goes back; a descriptor
    it gives out is the counter, one it brings into use is below the new counter. *)
Lemma fd_step_spec task w e w' f : fd_step task w e w' → fds_at w task = Some f → table_ok f →
  ∃ f', fds_at w' task = Some f' ∧ table_ok f' ∧ ft_next f ≤ ft_next f'
    ∧ (∀ fd, event_fd e = Some fd → fd < ft_next f')
    ∧ (∀ fd, e = GaveOut fd → fd = ft_next f).
Proof.
  intros Hstep Hf Hok. pose proof Hok as (Hl & _ & _).
  assert (∀ f', fds_at w' task = Some f' ∧ shrinks f f' → e = NoNew →
    ∃ f', fds_at w' task = Some f' ∧ table_ok f' ∧ ft_next f ≤ ft_next f'
      ∧ (∀ fd, event_fd e = Some fd → fd < ft_next f') ∧ (∀ fd, e = GaveOut fd → fd = ft_next f))
    as Hnone.
  { intros f' (Hf' & Hok' & Hn) ->. exists f'. rewrite Hn. repeat split; try done; apply Hok'. }
  destruct Hstep as [h path fd w w' Hs|h path fd w w' Hs|fd r w w' Hs Hr|a b r w w' Hs Hr
                    |r w w' Hs Hr|A m fd r w w' Hm Hs Hr].
  - rewrite (open_fd_spec _ _ _ _ _ Hf Hl) in Hs.
    destruct (next_u32 (ft_next f)) as [next|] eqn:Hn; simplify_eq.
    apply next_u32_spec in Hn. eexists. split; [by eapply fds_at_with_eq|].
    split; [apply placed_ok; [done|lia..]|]. cbn. repeat split; [lia|..]; intros; simplify_eq; lia.
  - rewrite (set_fd_spec _ _ _ _ _ _ Hf Hl) in Hs. destruct (ft_next f <=? fd) eqn:Hle.
    + destruct (next_u32 fd) as [next|] eqn:Hn; simplify_eq. apply next_u32_spec in Hn.
      bool_to_prop. eexists. split; [by eapply fds_at_with_eq|].
      split; [apply placed_ok; [done|lia..]|]. cbn. repeat split; [lia|..]; intros; simplify_eq; lia.
    + bool_to_prop. simplify_eq. eexists. split; [by eapply fds_at_with_eq|].
      split; [apply placed_ok; [done|lia..]|]. cbn. repeat split; [lia|..]; intros; simplify_eq; lia.
  - destruct (close_fd_shrinks _ _ _ _ _ _ Hf Hok Hs Hr) as [f' Hf']. eauto.
  - destruct (renumber_shrinks _ _ _ _ _ _ _ Hf Hok Hs Hr) as [f' Hf']. eauto.
  - destruct (clear_fds_shrinks _ _ _ _ _ Hf Hok Hs) as [f' Hf']. eauto.
  - destruct (on_fd_shrinks _ _ _ _ _ _ _ _ Hm Hf Hok Hs Hr) as [f' Hf']. eauto.
Qed.

Lemma fd_run_spec task w tr w' f : fd_run task w tr w' → fds_at w task = Some f → table_ok f →
  ∃ f', fds_at w' task = Some f' ∧ table_ok f' ∧ ft_next f ≤ ft_next f'
    ∧ (∀ fd, GaveOut fd ∈ tr → ft_next f ≤ fd)
    ∧ (∀ e fd, e ∈ tr → event_fd e = Some fd → fd < ft_next f').
Proof.
  intros Hrun. revert f. induction Hrun as [w|w e w1 tr w' Hstep Hrun IH]; intros f Hf Hok.
  - exists f. repeat split; try done; try (by apply Hok).
    + intros fd Hfd. by apply elem_of_nil in Hfd.
    + intros e fd Hfd. by apply elem_of_nil in Hfd.
  - destruct (fd_step_spec _ _ _ _ _ Hstep Hf Hok) as (f1 & Hf1 & Hok1 & Hle1 & Hev & Hgave).
    destruct (IH f1 Hf1 Hok1) as (f' & Hf' & Hok' & Hle & Hg & He).
    exists f'. split; [done|]. split; [done|]. split; [lia|]. split.
    + intros fd [Hfd|Hfd]%elem_of_cons; [rewrite (Hgave fd) by done; lia|].
      specialize (Hg fd Hfd). lia.
    + intros e' fd [->|Hin]%elem_of_cons Hfd; [specialize (Hev fd Hfd); lia|eauto].
Qed.

Lemma fd_run_app task w tr1 tr2 w' : fd_run task w (tr1 ++ tr2) w' →
  ∃ w1, fd_run task w tr1 w1 ∧ fd_run task w1 tr2 w'.
Proof.
  revert w. induction tr1 as [|e tr1 IH]; intros w Hr; [by exists w; split; [constructor|]|].
  inversion Hr as [|? ? w1 ? ? Hs Hr1]; subst. destruct (IH _ Hr1) as (w2 & H1 & H2).
  exists w2. split; [by econstructor|done].
Qed.

(** A descriptor number is given out once: whatever calls are made on the
    table of a task (open, place, use, renumber, close, close all), the descriptor
    that [open_fd] returns is not in the table and was not brought into use by any
    earlier call, even if it was closed since. *)
Theorem task_fds_fresh task w tr1 fd tr2 w' f :
  fd_run task w (tr1 ++ (GaveOut fd :: tr2)) w' → fds_at w task = Some f → table_ok f →
  (fd ∉ bt_keys (ft_files f))
  ∧ (∀ e, e ∈ tr1 ++ tr2 → event_fd e = Some fd → e ∈ tr2 ∧ e = Placed fd).
Proof.
  intros Hrun Hf Hok. apply fd_run_app in Hrun as (w1 & H1 & H2).
  inversion H2 as [|? ? w2 ? ? Hs H3]; subst.
  destruct (fd_run_spec _ _ _ _ _ H1 Hf Hok) as (f1 & Hf1 & Hok1 & Hle1 & _ & He1).
  destruct (fd_step_spec _ _ _ _ _ Hs Hf1 Hok1) as (f2 & Hf2 & Hok2 & Hle2 & Hev & Hg).
  specialize (Hev fd eq_refl). specialize (Hg fd eq_refl).
  destruct (fd_run_spec _ _ _ _ _ H3 Hf2 Hok2) as (f3 & _ & _ & _ & Hg3 & _).
  split.
  - intros Hin. apply Hok in Hin. lia.
  - intros e [Hin|Hin]%elem_of_app Hfd; [specialize (He1 e fd Hin Hfd); lia|].
    split; [done|]. destruct e as [fd'|fd'|]; cbn in Hfd; [..|done].
    + injection Hfd as ->. specialize (Hg3 fd Hin). lia.
    + by injection Hfd as ->.
Qed.

(** C38. Renumbering, exactly, on every branch.  A missing descriptor is an error and nothing
    changes; a descriptor renumbered to itself stays.  Else the handle of the target is closed,
    once, while the table is locked: when that succeeds the target stands for the source's
    handle and path, the source is free and every other descriptor is as it was; when it fails
    the error is returned, the target keeps its path and the handle as the close left it, and
    every other descriptor is as it was.  The rest of the world is as the close left it.  The
    hypothesis is that nothing changes the table while its lock is held. *)
Theorem task_renumber task a b w f : fds_at w task = Some f → table_ok f →
  match bt_get a (ft_files f), bt_get b (ft_files f) with
  | None, _ => Task.renumber_fd task a b w = (Err (Task.no_fd "renumberfd" a), w)
  | Some _, None => Task.renumber_fd task a b w = (Err (Task.no_fd "renumberfd" b), w)
  | Some source, Some target =>
      if a =? b then Task.renumber_fd task a b w = (Ok tt, w)
      else
        let '(closed, (h, w1)) :=
          fh_close (of_file target, with_fds task (Task.set_locked true f) w) in
        fds_at w1 task = Some (Task.set_locked true f) →
        match closed with
        | Ok _ => ∃ files, Task.renumber_fd task a b w
              = (Ok tt, with_fds task (mkFdTable files (ft_next f) false) w1)
            ∧ ∀ fd, bt_get fd files = if decide (fd = b) then Some source
                else if decide (fd = a) then None else bt_get fd (ft_files f)
        | Err e => ∃ files, Task.renumber_fd task a b w
              = (Err e, with_fds task (mkFdTable files (ft_next f) false) w1)
            ∧ ∀ fd, bt_get fd files = if decide (fd = b) then Some (mkOpenFile h (of_path target))
                else bt_get fd (ft_files f)
        | _ => Task.renumber_fd task a b w = (closed, w1)
        end
  end.
Proof.
  intros Hf (Hl & Hwf & _). unfold Task.renumber_fd.
  rewrite (eff_bind_Ok _ _ _ _ _ (lock_fds_spec _ _ _ Hf Hl)).
  destruct (bt_get a (ft_files f)) as [source|] eqn:Ha; cbn [ok_or]; [|done].
  rewrite (eff_bind_Ok _ _ _ source w) by done.
  destruct (a =? b) eqn:Hab.
  { apply Z.eqb_eq in Hab as <-. by rewrite Ha. }
  destruct (bt_get b (ft_files f)) as [target|] eqn:Hb.
  2: by rewrite (eff_bind_Err _ _ _ _ _ (on_fd_missing _ _ _ _ _ _ Hf Hl Hb)).
  pose proof (on_fd_run task b (Task.no_fd "renumberfd" b) fh_close w f target Hf Hl Hb) as Hs.
  destruct (fh_close _) as [closed [h w1]]. intros Hf1.
  pose proof (fds_at_with_eq task (replaced b h target f) _ _ Hf1) as Hf2.
  destruct closed as [[]|e| |].
  - rewrite (eff_bind_Ok _ _ _ _ _ Hs), (eff_bind_Ok _ _ _ _ _ (lock_fds_spec _ _ _ Hf2 eq_refl)).
    rewrite put_fds_spec, with_fds_twice. eexists. split; [done|]. intros fd. cbn.
    rewrite bt_get_insert, bt_get_remove, bt_get_insert. by repeat case_decide; subst.
  - rewrite (eff_bind_Err _ _ _ _ _ Hs). eexists. split; [done|]. intros fd. cbn.
    by rewrite bt_get_insert.
  - unfold mbind, eff_bind. by rewrite Hs.
  - unfold mbind, eff_bind. by rewrite Hs.
Qed.

(** While a method of a handle runs its table is locked, so a call on the same table
    from inside it never returns: a descriptor that proxies a descriptor of its own
    task cannot be read. *)
Lemma own_proxy_waits task fd fd' len w f : fds_at w task = Some f → ft_locked f = true →
  fst (fh_read (FileHandle := Task.fd_proxy_handle) len (mkFdProxy task fd', w)) = NoFuel
  ∧ fst (Task.close_fd task fd w) = NoFuel.
Proof.
  intros Hf Hl. cbn. unfold Task.proxy, by_ref, Task.with_fd_mut, Task.on_fd, Task.close_fd.
  cbn [fp_task fp_fd]. unfold mbind, eff_bind. by rewrite (lock_fds_held _ _ _ Hf Hl).
Qed.
End Facts.

(** ** The maps of [TaskFs] *)

Section Store.
Context {W H : Type} `{!HasTasks W H} `{!TaskNamespaces W H}.

(** Every task is registered under its own identifier and no other, identifiers
    are different and were given out, and a parent is older than its children. *)
Record task_inv (s : TaskStore H) : Prop := {
  inv_parent : ∀ i t p, ts_tasks s !! i = Some t → ti_parent t = Some p → (p < i)%nat;
  inv_ids : ∀ i t, ts_tasks s !! i = Some t → ti_id t ≤ ts_next_id s;
  inv_unique : ∀ i j t t', ts_tasks s !! i = Some t → ts_tasks s !! j = Some t' →
    ti_id t = ti_id t' → i = j;
  inv_resources : ∀ rid i, bt_get rid (ts_resources s) = Some i ↔
    ∃ t, ts_tasks s !! i = Some t ∧ rid = pretty (ti_id t)
}.

Lemma new_store_inv : task_inv Task.new_store.
Proof.
  constructor; cbn; [done..|]. intros rid i. split; [done|]. intros (t & Ht & _). done.
Qed.

(** Changing a task, its identifier and parent apart. *)
Lemma update_inner_inv task f w :
  (∀ i, ti_id (f i) = ti_id i ∧ ti_parent (f i) = ti_parent i) →
  task_inv (tasks_of w) → task_inv (tasks_of (snd (Task.update_inner task f w))).
Proof.
  intros Hf [Hp Hi Hu Hr].
  assert (∀ j t, ts_tasks (tasks_of (snd (Task.update_inner task f w))) !! j = Some t →
    ∃ t0, ts_tasks (tasks_of w) !! j = Some t0 ∧ ti_id t = ti_id t0 ∧ ti_parent t = ti_parent t0)
    as Hback.
  { intros j t Ht. pose proof (task_at_update task f w j) as Hj. unfold task_at in Hj.
    rewrite Ht in Hj. destruct (ts_tasks (tasks_of w) !! j) as [t0|]; [|done].
    cbn in Hj. exists t0. split; [done|]. case_decide; simplify_eq; [apply Hf|done]. }
  unfold Task.update_inner, Task.update_store, modify in *. cbn in *. rewrite tasks_set in *. cbn in *.
  constructor; cbn.
  - intros i t p Ht Htp. destruct (Hback i t Ht) as (t0 & H0 & _ & Hpar). rewrite Hpar in Htp. eauto.
  - intros i t Ht. destruct (Hback i t Ht) as (t0 & H0 & -> & _). eauto.
  - intros i j t t' Ht Ht' Heq. destruct (Hback i t Ht) as (t0 & H0 & Hid & _).
    destruct (Hback j t' Ht') as (t1 & H1 & Hid' & _). apply (Hu i j t0 t1); congruence.
  - intros rid i. rewrite Hr. split.
    + intros (t & Ht & ->). destruct (decide (i = task)) as [->|Hne].
      * exists (f t). rewrite list_lookup_alter_eq, Ht. by rewrite (proj1 (Hf t)).
      * exists t. by rewrite list_lookup_alter_ne.
    + intros (t & Ht & ->). destruct (Hback i t Ht) as (t0 & H0 & -> & _). eauto.
Qed.

Lemma put_fds_inv task f w : task_inv (tasks_of w) → task_inv (tasks_of (with_fds task f w)).
Proof. by apply update_inner_inv. Qed.

(** What a namespace operation does not touch. *)
Hypothesis ns_new_quiet : ∀ w, tasks_of (snd (ns_new w)) = tasks_of (H:=H) w.
Hypothesis ns_clone_quiet : ∀ ns w, tasks_of (snd (ns_clone ns w)) = tasks_of (H:=H) w.

(** The parent a new task gets: the one asked for, or the task "1". *)
Definition default_parent (s : TaskStore H) (parent : option nat) : option nat :=
  match parent with Some p => Some p | None => bt_get "1" (ts_resources s) end.

(** The store with one more task. *)
Definition with_task (t : TaskInner H) (s : TaskStore H) : TaskStore H :=
  mkTaskStore (ts_tasks s ++ [t]) (ts_drivers s)
    (bt_insert (pretty (ti_id t)) (length (ts_tasks s)) (ts_resources s)) (ts_aliases s) (ti_id t).

Lemma with_task_inv t s : task_inv s → ti_id t = ts_next_id s + 1 →
  (∀ p, ti_parent t = Some p → (p < length (ts_tasks s))%nat) → task_inv (with_task t s).
Proof.
  intros [Hp Hi Hu Hr] Hid Hpar.
  assert (∀ i u, (ts_tasks s ++ [t]) !! i = Some u →
    ts_tasks s !! i = Some u ∧ (i < length (ts_tasks s))%nat ∨ i = length (ts_tasks s) ∧ u = t) as Hl.
  { intros i u Hi'. apply lookup_app_Some in Hi' as [Hi'|[Hge Hi']].
    - left. split; [done|]. by eapply lookup_lt_Some.
    - right. apply list_lookup_singleton_Some in Hi' as [? <-]. split; [lia|done]. }
  constructor; cbn.
  - intros i u p Hu' Hup. destruct (Hl i u Hu') as [[Hu0 _]|[-> ->]]; eauto.
  - intros i u Hu'. destruct (Hl i u Hu') as [[Hu0 _]|[-> ->]]; [|lia]. specialize (Hi i u Hu0). lia.
  - intros i j u u' Hu' Hu'' Heq.
    destruct (Hl i u Hu') as [[Hu0 _]|[-> ->]], (Hl j u' Hu'') as [[Hu1 _]|[-> ->]];
      [by eapply Hu| | |done].
    + specialize (Hi i u Hu0). lia.
    + specialize (Hi j u' Hu1). lia.
  - intros rid i. rewrite bt_get_insert. case_decide as Hrid.
    + subst rid. split.
      * intros [= <-]. exists t. by rewrite list_lookup_middle.
      * intros (u & Hu' & Heq). apply (inj pretty) in Heq.
        destruct (Hl i u Hu') as [[Hu0 _]|[-> _]]; [|done]. specialize (Hi i u Hu0). lia.
    + rewrite Hr. split; intros (u & Hu' & ->).
      * exists u. by rewrite lookup_app_l by (by eapply lookup_lt_Some).
      * destruct (Hl i u Hu') as [[Hu0 _]|[-> ->]]; [eauto|done].
Qed.

Definition ns_for (s : TaskStore H) (parent : option nat) : M W nat :=
  match parent with
  | Some p => match ts_tasks s !! p with Some t => ns_clone (ti_ns t) | None => panic end
  | None => ns_new
  end.

Lemma ns_for_quiet s parent w : tasks_of (snd (ns_for s parent w)) = tasks_of (H:=H) w.
Proof.
  destruct parent as [p|]; cbn; [|apply ns_new_quiet].
  destruct (ts_tasks s !! p); [apply ns_clone_quiet|done].
Qed.

Lemma new_spec id kind driver parent w :
  Task.new id kind driver parent w =
    match ns_for (tasks_of w) parent w with
    | (Ok ns, w1) => (Ok (length (ts_tasks (tasks_of w))),
        set_tasks (Task.set_ts_tasks (ts_tasks (tasks_of w) ++ [Task.new_inner id kind driver parent ns])
          (tasks_of w)) w1)
    | (Err e, w1) => (Err e, w1)
    | (Panic, w1) => (Panic, w1)
    | (NoFuel, w1) => (NoFuel, w1)
    end.
Proof.
  pose proof (ns_for_quiet (tasks_of w) parent w) as Hq.
  unfold Task.new, Task.new_with_namespace, Task.namespace, Task.inner, Task.store,
    Task.update_store. unfold_eff. unfold ns_for in *. unfold_eff.
  destruct parent as [p|].
  - destruct (ts_tasks (tasks_of w) !! p) as [t|]; [|done].
    destruct (ns_clone (ti_ns t) w) as [[ns|e| |] w1]; cbn in *; by rewrite ?Hq.
  - destruct (ns_new w) as [[ns|e| |] w1]; cbn in *; by rewrite ?Hq.
Qed.

Lemma alloc_spec kind parent w :
  let s := tasks_of w in
  let parent' := default_parent s parent in
  Task.alloc kind parent w =
    match bt_get kind (ts_drivers s), next_u32 (ts_next_id s) with
    | None, _ => (Err (EKind NotFound), w)
    | Some _, None => (Panic, w)
    | Some driver, Some id =>
        match ns_for s parent' (set_tasks (Task.set_next_id id s) w) with
        | (Ok ns, w1) => (Ok (length (ts_tasks s)),
            set_tasks (with_task (Task.new_inner id kind driver parent' ns) s) w1)
        | (Err e, w1) => (Err e, w1)
        | (Panic, w1) => (Panic, w1)
        | (NoFuel, w1) => (NoFuel, w1)
        end
    end.
Proof.
  cbn zeta. unfold Task.alloc, Task.alloc_with_parent_and_namespace, Task.take_id.
  change (match parent with Some p => Some p | None => bt_get "1" (ts_resources (tasks_of w)) end)
    with (default_parent (tasks_of w) parent).
  unfold Task.store, Task.update_store. unfold_eff.
  fold (default_parent (tasks_of w) parent). set (parent' := default_parent (tasks_of w) parent).
  destruct (bt_get kind (ts_drivers (tasks_of w))) as [driver|]; [|done]. cbn.
  destruct (next_u32 (ts_next_id (tasks_of w))) as [id|] eqn:Hn; [|done].
  rewrite new_spec, tasks_set. cbn.
  replace (ns_for (Task.set_next_id id (tasks_of w)) parent') with (ns_for (tasks_of w) parent')
    by done.
  destruct (ns_for (tasks_of w) parent' _) as [[ns|e| |] w1]; [|done..].
  rewrite tasks_set, set_tasks_set. done.
Qed.

Lemma lookup_spec rid w :
  Task.lookup rid w =
    (match bt_get rid (ts_resources (tasks_of w)), bt_get rid (ts_aliases (tasks_of w)) with
     | Some t, _ => Ok t
     | None, Some t => Ok t
     | None, None => Err (EPath "lookup" rid NotFound)
     end, w).
Proof.
  unfold Task.lookup, Task.store. unfold_eff.
  destruct (bt_get rid (ts_resources _)); [done|]. by destruct (bt_get rid (ts_aliases _)).
Qed.

(** Allocating a task: the new task is none of the existing ones, which are
    unchanged; it has the kind asked for, the parent asked for (else the task "1"),
    no descriptors and a fresh identifier, under which alone the lookups change; and
    the maps stay consistent. *)
Theorem task_alloc kind parent w t w' :
  task_inv (tasks_of w) → (∀ p, parent = Some p → (p < length (ts_tasks (tasks_of w)))%nat) →
  Task.alloc kind parent w = (Ok t, w') →
  task_inv (tasks_of w')
  ∧ task_at w t = None
  ∧ (∀ u, u ≠ t → task_at w' u = task_at w u)
  ∧ ∃ i, task_at w' t = Some i
    ∧ st_kind (ti_state i) = kind
    ∧ ti_parent i = default_parent (tasks_of w) parent
    ∧ table_ok (ti_fds i) ∧ ft_files (ti_fds i) = []
    ∧ bt_get (pretty (ti_id i)) (ts_resources (tasks_of w)) = None
    ∧ ∀ rid, fst (Task.lookup rid w') =
        if decide (rid = pretty (ti_id i)) then Ok t else fst (Task.lookup rid w).
Proof.
  intros Hinv Hpar Hr. rewrite alloc_spec in Hr.
  destruct (bt_get kind (ts_drivers (tasks_of w))) as [driver|]; [|done].
  destruct (next_u32 (ts_next_id (tasks_of w))) as [id|] eqn:Hn; [|done].
  apply next_u32_spec in Hn.
  destruct (ns_for _ _ _) as [[ns|e| |] w1]; simplify_eq.
  set (s := tasks_of w) in *. set (i := Task.new_inner _ _ _ _ _).
  rewrite tasks_set. unfold task_at. rewrite tasks_set. cbn [with_task ts_tasks].
  split; [|split; [|split]].
  - apply with_task_inv; [done|done|]. cbn. unfold default_parent. intros p Hp.
    destruct parent as [p'|]; [by apply Hpar|]. apply Hinv in Hp as (u & Hu & _).
    by eapply lookup_lt_Some.
  - apply lookup_ge_None_2. done.
  - intros u Hu. destruct (decide (u < length (ts_tasks s))%nat).
    + by rewrite lookup_app_l.
    + rewrite !lookup_ge_None_2; [done| |rewrite length_app; cbn]; unfold s in *; lia.
  - exists i. split; [by rewrite list_lookup_middle|]. split; [done|]. split; [done|].
    split; [|split; [done|split]].
    + repeat split; cbn; [constructor|]. intros fd Hfd. by apply elem_of_nil in Hfd.
    + destruct (bt_get _ _) as [u|] eqn:Hu; [|done].
      apply Hinv in Hu as (v & Hv & Heq). apply (inj pretty) in Heq.
      pose proof (inv_ids _ Hinv _ _ Hv). cbn in Heq. unfold s in *. lia.
    + intros rid. rewrite !lookup_spec. cbn. rewrite tasks_set. cbn. rewrite bt_get_insert.
      by case_decide.
Qed.

(** Every task has a root: walking up the parents ends, at a task without a
    parent, and changes nothing. *)
Theorem task_root task w i : task_inv (tasks_of w) → task_at w task = Some i →
  ∃ r j, Task.root task w = (Ok r, w) ∧ task_at w r = Some j ∧ ti_parent j = None
    ∧ rtc (λ u v, ∃ t, task_at w u = Some t ∧ ti_parent t = Some v) task r.
Proof.
  intros Hinv Hi. unfold Task.root, Task.store. unfold_eff. pose proof Hinv as [Hp _ _ Hr].
  assert (task < length (ts_tasks (tasks_of w)))%nat as Hlt by (by eapply lookup_lt_Some).
  revert Hlt. generalize (length (ts_tasks (tasks_of w))) as fuel. intros fuel. revert task i Hi.
  induction fuel as [|fuel IH]; intros task i Hi Hlt; [lia|]. cbn.
  unfold Task.parent. rewrite (eff_bind_Ok _ _ _ (ti_parent i) w).
  2: { by rewrite (eff_bind_Ok _ _ _ _ _ (inner_spec _ _ _ Hi)). }
  destruct (ti_parent i) as [p|] eqn:Hpar.
  - pose proof (Hp _ _ _ Hi Hpar) as Hlt'.
    assert (∃ j, task_at w p = Some j) as [j Hj].
    { unfold task_at in *. apply lookup_lt_is_Some_2. apply lookup_lt_Some in Hi. lia. }
    destruct (IH p j Hj ltac:(lia)) as (r & k & Hrun & Hk & Hnone & Hchain).
    exists r, k. repeat split; [done..|]. eapply rtc_l; [|done]. eauto.
  - exists task, i. repeat split; [done..|]. apply rtc_refl.
Qed.
End Store.

(** ** Fields as files *)

Section Fields.
Context {W H : Type} `{!HasTasks W H} `{!TaskNamespaces W H} `{!FileHandle W H} `{!BoxTask H}.

Lemma state_spec task w i : task_at w task = Some i →
  Task.state task w = (Ok (ti_state i), w).
Proof. intros Hi. unfold Task.state. by rewrite (eff_bind_Ok _ _ _ _ _ (inner_spec _ _ _ Hi)). Qed.

(** Writing to a field's handle in pieces. *)
Fixpoint write_pieces (pieces : list (list byte)) (h : TaskFieldHandle) (w : W)
    : TaskFieldHandle * W :=
  match pieces with
  | [] => (h, w)
  | data :: rest =>
      let '(_, (h, w)) := fh_write (FileHandle := Task.task_field_handle) data (h, w) in
      write_pieces rest h w
  end.

(** What a field keeps of the text written to it: [env] is a list of lines. *)
Definition kept_text (name text : string) : string :=
  if decide (name = "env") then str_join (String NEWLINE "") (str_lines text) else text.

Definition writable_field (name : string) : bool :=
  bool_decide (name ∈ ["cmd"; "alias"; "env"; "dir"; "exit"]).

Lemma writable_inv name : writable_field name = true →
  name = "cmd" ∨ name = "alias" ∨ name = "env" ∨ name = "dir" ∨ name = "exit".
Proof.
  intros Hn. apply bool_decide_eq_true in Hn.
  repeat (apply elem_of_cons in Hn as [->|Hn]; [tauto|]). by apply elem_of_nil in Hn.
Qed.

Lemma write_pieces_spec pieces h w : writable_field (tf_name h) = true →
  write_pieces pieces h w =
    (mkTaskFieldHandle (tf_task h) (tf_name h) (tf_data h) (tf_written h ++ mjoin pieces)
       (tf_offset h), w).
Proof.
  revert h. induction pieces as [|data rest IH]; intros h Hn; cbn.
  - rewrite app_nil_r. by destruct h.
  - assert (Task.fixed_field (tf_name h) = false) as ->.
    { by destruct (writable_inv _ Hn) as [->|[->|[->|[->| ->]]]]. }
    rewrite IH by done. cbn. by rewrite app_assoc.
Qed.

Definition value_of (i : TaskInner H) (name : string) : option string :=
  let s := ti_state i in
  if decide (name = "id") then Some (pretty (ti_id i))
  else if decide (name = "kind") then Some (st_kind s)
  else if decide (name = "cmd") then Some (st_cmd s)
  else if decide (name = "alias") then Some (st_alias s)
  else if decide (name = "env") then Some (str_join (String NEWLINE "") (st_env s))
  else if decide (name = "dir") then Some (st_dir s)
  else if decide (name = "exit") then Some (st_exit s)
  else None.

Lemma field_value_spec task name w i : task_at w task = Some i →
  Task.field_value task name w =
    (match value_of i name with Some v => Ok v | None => Err (EKind Invalid) end, w).
Proof.
  intros Hi. unfold Task.field_value, value_of.
  rewrite (eff_bind_Ok _ _ _ _ _ (state_spec _ _ _ Hi)).
  repeat (case_decide; [first [done|unfold Task.id; by rewrite (eff_bind_Ok _ _ _ _ _ (inner_spec _ _ _ Hi))]|]).
  done.
Qed.

(** The state of a task after [set_field]. *)
Definition field_set (name value : string) (s : TaskState) : TaskState :=
  if decide (name = "cmd") then Task.set_st_cmd value s
  else if decide (name = "alias") then Task.set_st_alias value s
  else if decide (name = "env") then Task.set_st_env (str_lines value) s
  else if decide (name = "dir") then Task.set_st_dir value s
  else Task.set_st_exit value s.

Lemma set_field_spec task name value w i : task_at w task = Some i → writable_field name = true →
  ∃ w', Task.set_field task name value w = (Ok tt, w')
    ∧ task_at w' task = Some (Task.set_ti_state (field_set name value) i)
    ∧ ∀ u, u ≠ task → task_at w' u = task_at w u.
Proof.
  intros Hi Hn. apply writable_inv in Hn. unfold Task.set_field, field_set.
  assert (∀ f, ∃ w', Task.update_state task f w = (Ok tt, w')
    ∧ task_at w' task = Some (Task.set_ti_state f i)
    ∧ ∀ u, u ≠ task → task_at w' u = task_at w u) as Hup.
  { intros f. eexists. split; [apply update_inner_ok|]. split.
    - by rewrite task_at_update, decide_True, Hi.
    - intros u Hu. rewrite task_at_update, decide_False by done. by destruct (task_at w u). }
  case_decide; [apply Hup|]. case_decide as Ha.
  - rewrite (eff_bind_Ok _ _ _ _ _ (state_spec _ _ _ Hi)).
    destruct (Hup (Task.set_st_alias value)) as (w1 & H1 & Ht & Hu).
    rewrite (eff_bind_Ok _ _ _ _ _ H1). unfold Task.update_alias, Task.update_store, modify.
    eexists. split; [done|]. unfold task_at in *. rewrite tasks_set. cbn. done.
  - case_decide; [apply Hup|]. case_decide; [apply Hup|]. case_decide; [apply Hup|].
    by destruct Hn as [?|[?|[?|[?|?]]]].
Qed.

Lemma value_of_set name name' value i : writable_field name = true →
  value_of (Task.set_ti_state (field_set name value) i) name' =
    if decide (name' = name) then Some (kept_text name value) else value_of i name'.
Proof.
  intros Hn. unfold value_of, field_set, kept_text. cbn.
  destruct (writable_inv _ Hn) as [->|[->|[->|[->| ->]]]]; by repeat case_decide; simplify_eq.
Qed.

Lemma open_field_spec table task ctx name w i : task_at w task = Some i → writable_field name = true →
  Task.open table task ctx name w =
    (match value_of i name with
     | Some v => Ok (box_field (mkTaskFieldHandle task name (bytes_of (v +:+ String NEWLINE "")) [] 0))
     | None => Err (EKind Invalid)
     end, w).
Proof.
  intros Hi Hn.
  assert (Task.open table task ctx name w =
    (v ← Task.field_value task name; Task.open_field task name (v +:+ String NEWLINE "")) w) as ->.
  { by destruct (writable_inv _ Hn) as [->|[->|[->|[->| ->]]]]. }
  pose proof (field_value_spec task name w i Hi) as Hv. unfold mbind, eff_bind. rewrite Hv.
  by destruct (value_of i name).
Qed.

(** Writing a field is a transaction: pieces written to the handle of a field
    change nothing until it is closed; closing sets that field to the text written,
    trimmed (by lines for [env]), and opening it again reads it back; an empty write
    changes nothing; no other field and no other task changes. *)
Theorem task_field_write table task ctx name pieces w i :
  task_at w task = Some i → writable_field name = true →
  let text := trim (from_utf8_lossy (mjoin pieces)) in
  ∃ h h' w', Task.open table task ctx name w = (Ok (box_field h), w)
    ∧ write_pieces pieces h w = (h', w)
    ∧ fh_close (FileHandle := Task.task_field_handle) (h', w) = (Ok tt, (h', w'))
    ∧ (mjoin pieces ≠ [] →
       Task.open table task ctx name w' = (Ok (box_field (mkTaskFieldHandle task name
         (bytes_of (kept_text name text +:+ String NEWLINE "")) [] 0)), w'))
    ∧ (mjoin pieces = [] → w' = w)
    ∧ (∀ name', name' ≠ name → fst (Task.field_value task name' w') = fst (Task.field_value task name' w))
    ∧ (∀ u, u ≠ task → task_at w' u = task_at w u).
Proof.
  intros Hi Hn text. rewrite (open_field_spec table task ctx name w i Hi Hn).
  assert (∃ v, value_of i name = Some v) as [v Hv].
  { destruct (writable_inv _ Hn) as [->|[->|[->|[->| ->]]]]; by eexists. }
  rewrite Hv. set (h := mkTaskFieldHandle _ _ _ _ _).
  destruct (set_field_spec task name text w i Hi Hn) as (w1 & Hset & Ht & Hu).
  set (h' := mkTaskFieldHandle task name (tf_data h) (mjoin pieces) 0).
  exists h, h', (if decide (mjoin pieces = []) then w else w1).
  split; [done|]. split; [by apply (write_pieces_spec pieces h w)|].
  split; [|split; [|split; [|split]]].
  - cbn [fh_close Task.task_field_handle]. unfold Task.field_close, by_ref, h'.
    cbn [tf_written tf_task tf_name]. case_decide; [done|]. fold text. by rewrite Hset.
  - intros Hne. rewrite decide_False by done.
    rewrite (open_field_spec table task ctx name w1 _ Ht Hn), value_of_set, decide_True by done. done.
  - intros ->. by rewrite decide_True.
  - intros name' Hn'. case_decide; [done|].
    rewrite (field_value_spec _ _ _ _ Ht), (field_value_spec _ _ _ _ Hi), value_of_set by done.
    by rewrite decide_False.
  - intros u Hne. case_decide; [done|by apply Hu].
Qed.
End Fields.

(** ** The tasks alone, with directories as handles *)

Definition store_tasks : HasTasks (TaskStore DirFile) DirFile :=
  {| tasks_of s := s; set_tasks s _ := s;
     tasks_set _ _ := eq_refl; set_tasks_set _ _ _ := eq_refl; set_tasks_id _ := eq_refl |}.

Definition one_namespace : TaskNamespaces (TaskStore DirFile) DirFile := {|
  ns_new := mret 0%nat;
  ns_clone _ := mret 0%nat;
  ns_self _ := mret 0%nat;
  ns_bind _ _ _ _ _ := mret tt;
  ns_unbind _ _ _ _ := mret tt;
  ns_open _ _ name := throw (EPath "open" name NotFound);
  ns_format_bindings _ := mret ""
|}.

#[local] Existing Instance store_tasks.
#[local] Existing Instance one_namespace.

Definition some_dir : DirFile := dir_file_new (Meta.dir "d" 365) [].

Lemma one_new_quiet (w : TaskStore DirFile) :
  tasks_of (H := DirFile) (snd (ns_new w)) = tasks_of w.
Proof. done. Qed.

Lemma one_clone_quiet ns (w : TaskStore DirFile) :
  tasks_of (H := DirFile) (snd (ns_clone ns w)) = tasks_of w.
Proof. done. Qed.

(** A store with one task, and its descriptor table. *)
Definition one_task : TaskStore DirFile := snd (Task.alloc "auto" None Task.new_store).
Definition empty_table : FdTable DirFile := mkFdTable [] 3 false.

Lemma empty_table_ok : table_ok empty_table.
Proof. repeat split; [constructor|]. intros fd Hfd. by apply elem_of_nil in Hfd. Qed.

Lemma dir_close_quiet : quiet (W := TaskStore DirFile) (H := DirFile) fh_close.
Proof. by intros h w t. Qed.

(** Opening twice, closing the first, opening again: 3, 4, then 5. *)
Lemma reopen_run : ∃ w, fd_run 0 one_task ([GaveOut 3; GaveOut 4; NoNew] ++ [GaveOut 5]) w.
Proof.
  eexists. cbn.
  eapply fd_cons; [apply (fd_open 0 some_dir "a"); vm_compute; reflexivity|].
  eapply fd_cons; [apply (fd_open 0 some_dir "b"); vm_compute; reflexivity|].
  eapply fd_cons; [eapply (fd_close 0 3); [vm_compute; reflexivity|exact I]|].
  eapply fd_cons; [apply (fd_open 0 some_dir "a"); vm_compute; reflexivity|].
  apply fd_nil.
Qed.

Lemma task_fds_fresh_witness : (5 ∉ bt_keys (ft_files empty_table)).
Proof.
  destruct reopen_run as [w Hw].
  exact (proj1 (task_fds_fresh dir_close_quiet 0 one_task [GaveOut 3; GaveOut 4; NoNew] 5 [] w
    empty_table Hw eq_refl empty_table_ok)).
Defined.

Definition two_open : TaskStore DirFile :=
  snd ((Task.open_fd 0 some_dir "a" ;; Task.open_fd 0 some_dir "b") one_task).
Definition two_table : FdTable DirFile :=
  mkFdTable [(3, mkOpenFile some_dir "a"); (4, mkOpenFile some_dir "b")] 5 false.

Lemma two_table_ok : table_ok two_table.
Proof.
  repeat split.
  - repeat constructor; by vm_compute.
  - cbn. intros fd. rewrite !elem_of_cons, elem_of_nil. lia.
Qed.

Lemma task_renumber_witness :
  ∃ files, Task.renumber_fd 0 3 4 two_open = (Ok tt, with_fds 0 (mkFdTable files 5 false) two_open)
    ∧ bt_get 4 files = Some (mkOpenFile some_dir "a") ∧ bt_get 3 files = None.
Proof.
  pose proof (task_renumber (HasTasks0 := store_tasks) 0 3 4 two_open two_table ltac:(vm_compute; reflexivity)
    two_table_ok) as Hr.
  destruct Hr as (files & Hr & Hget); [by vm_compute|].
  exists files. split; [|split; [exact (Hget 4)|exact (Hget 3)]].
  rewrite Hr. by rewrite with_fds_twice.
Defined.

Lemma task_alloc_witness : task_inv one_task ∧ task_at one_task 0 ≠ None.
Proof.
  destruct (task_alloc (HasTasks0 := store_tasks) one_new_quiet one_clone_quiet "auto" None Task.new_store 0%nat one_task
    new_store_inv ltac:(done) ltac:(vm_compute; reflexivity)) as (Hinv & _ & _ & i & Hi & _).
  split; [exact Hinv|]. rewrite Hi. discriminate.
Defined.

(** Two tasks, the second a child of the first. *)
Definition two_tasks : TaskStore DirFile := snd (Task.alloc "auto" None one_task).

Lemma with_child_inv s t s' : task_inv s → Task.alloc "auto" None s = (Ok t, s') → task_inv s'.
Proof.
  intros Hinv Hr. rewrite (alloc_spec (HasTasks0 := store_tasks) one_new_quiet one_clone_quiet) in Hr.
  destruct (bt_get "auto" _); [|done]. destruct (next_u32 _) as [id|] eqn:Hn; [|done].
  apply next_u32_spec in Hn. destruct (ns_for _ _ _) as [[ns|e| |] w1] eqn:Hns; simplify_eq.
  apply with_task_inv; [done|done|]. intros p Hp. cbn in Hp. unfold default_parent in Hp.
  apply Hinv in Hp as (u & Hu & _). by eapply lookup_lt_Some.
Qed.

Lemma two_tasks_inv : task_inv two_tasks.
Proof.
  apply (with_child_inv one_task 1%nat); [|vm_compute; reflexivity].
  by apply (with_child_inv Task.new_store 0%nat); [apply new_store_inv|].
Qed.

Lemma task_root_witness : ∃ r, Task.root 1 two_tasks = (Ok r, two_tasks).
Proof.
  destruct (task_root (HasTasks0 := store_tasks) 1 two_tasks (Task.new_inner 2 "auto" 0 (Some 0%nat) 0) two_tasks_inv
    ltac:(vm_compute; reflexivity))
    as (r & _ & Hr & _).
  exists r. exact Hr.
Defined.

(** ** Tasks in the world of [TaskWorld] *)

Definition no_drivers : nat → TaskDriver World :=
  λ _, mkTaskDriver (λ _, mret false) (λ _, mret tt).

Definition world_handles : FileHandle World Box := handles no_drivers 6.
Definition world_ns : TaskNamespaces World Box := namespaces no_drivers 6.
#[local] Existing Instance world_handles.
#[local] Existing Instance world_ns.

Definition world_refs : nat → FileSystem World Box := refs no_drivers 6.
Definition world_taskfs : FileSystem World Box := Task.taskfs world_refs.

Definition after {A} (m : M World A) (w : World) : World := snd (m w).
Definition text_of (r : Result (list byte)) : string :=
  match r with Ok bs => string_of bs | Err e => Error_display e | _ => "" end.

Definition one : World := after (Task.alloc "auto" None) empty_world.
Definition two : World := after (Task.alloc "auto" None) one.

Definition set_by_file (path value : string) : M World unit :=
  f ← fs_open world_taskfs Ctx.new path;
  '(_, f) ← with_handle f (fh_write (bytes_of value));
  with_handle f fh_close ;;
  mret tt.

Lemma task_field_write_witness : ∃ w',
  Task.open world_refs 0 Ctx.new "cmd" w' = (Ok (BField (mkTaskFieldHandle 0 "cmd"
    (bytes_of ("run -v" +:+ String NEWLINE "")) [] 0)), w').
Proof.
  destruct (task_field_write (HasTasks0 := world_tasks) world_refs 0 Ctx.new "cmd" [bytes_of " run"; bytes_of " -v "] one
    (Task.new_inner 1 "auto" 0 None 0) ltac:(vm_compute; reflexivity) eq_refl)
    as (h & h' & w' & _ & _ & _ & Hread & _).
  exists w'. exact (Hread ltac:(discriminate)).
Defined.

(** The examples of the crate's tests. *)
Example fields_are_exposed :
  text_of (fst (read_file world_taskfs 4 "1/id" one)) = "1" +:+ String NEWLINE ""
  ∧ fst (Task.lookup "shell" (after (set_by_file "1/alias" "shell") one)) = Ok 0%nat
  ∧ (Task.parent 1%nat two).1 = Ok (Some 0%nat).
Proof. by vm_compute. Qed.

(** Reading [new/auto] allocates a task and gives its identifier. *)
Example reading_new_allocates :
  text_of (fst (read_file world_taskfs 4 "new/auto" two)) = "3" +:+ String NEWLINE ""
  ∧ length (ts_tasks (w_tasks (after (read_file world_taskfs 4 "new/auto") two))) = 3%nat.
Proof. by vm_compute. Qed.

(** An alias is removed by its name and not by its task: when two tasks had the
    same alias, giving the first another one takes it from the second, whose [alias]
    field still shows it. *)
Lemma alias_taken_from_other :
  let w := after (set_by_file "1/alias" "a") two in
  let w := after (set_by_file "2/alias" "a") w in
  let w' := after (set_by_file "1/alias" "b") w in
  fst (Task.lookup "a" w) = Ok 1%nat
  ∧ fst (Task.lookup "a" w') = Err (EPath "lookup" "a" NotFound)
  ∧ fst (Task.alias 1 w') = Ok "a".
Proof. by vm_compute. Qed.

(** [unbind] looks for the [Arc] it has just made, which nothing is bound to: what
    [bind] bound stays. *)
Lemma unbind_removes_nothing :
  let w := after (set_by_file "1/ctl" "bind . here") one in
  let w' := after (set_by_file "1/ctl" "unbind . here") w in
  text_of (fst (read_file world_taskfs 4 "1/binds" w)) = "here -> fs:." +:+ String NEWLINE ""
  ∧ fst (set_by_file "1/ctl" "unbind . here" w) = Ok tt
  ∧ w_ns w' 0 = w_ns w 0.
Proof. by vm_compute. Qed.

(** A name of an alias that is a number, or [new], is not reached. *)
Example alias_hidden_by_identifier :
  let w := after (set_by_file "1/alias" "2") one in
  fst (Task.lookup "2" w) = Ok 0%nat
  ∧ fst (Task.lookup "2" (after (Task.alloc "auto" None) w)) = Ok 1%nat.
Proof. by vm_compute. Qed.

(** A descriptor that holds a proxy of itself: the read waits for the lock its own
    call holds. *)
Lemma proxy_of_itself_waits :
  let w := after (p ← fs_open world_taskfs Ctx.new "1/fd/3"; Task.open_fd 0 p "1/fd/3") one in
  fst (read_file world_taskfs 4 "1/fd/3" w) = NoFuel.
Proof. by vm_compute. Qed.

(** A namespace bound to its own root. *)
Definition looped (meta : Metadata) (w : World) : Prop :=
  w_refs w = [0%nat] ∧ w_ns w 0 = [(".", [mkBindTarget 0 "." meta])].

(** [bind . .] ends in an endless recursion: the namespace is a target for every
    path of itself, so a [stat] of a name that is bound nowhere asks itself again,
    whatever the depth allowed. *)
Lemma self_bind_recurses meta w ctx n : looped meta w →
  fs_stat (refs no_drivers n 0) ctx "x" w = (NoFuel, w).
Proof.
  intros [Hr Hb]. revert ctx. unfold refs. induction n as [|n IH]; intros ctx; [done|].
  cbn [knot]. destruct (knot no_drivers n) as [hd table]. cbn [snd] in *.
  cbn [ref_fs fs_stat]. unfold at_ref. rewrite Hr. cbn [lookup list_lookup Vfs.fs fs_stat].
  unfold Vfs.stat, Vfs.direct_targets, Vfs.matching_targets. unfold_eff.
  cbn [bindings bindings_at]. change (valid_path "x") with true. change (clean_path "x") with "x".
  cbn [negb]. rewrite decide_False by done. unfold_eff. cbn beta iota. rewrite Hb.
  change (default [] (bt_get "x" _)) with (@nil BindTarget). cbn [Vfs.stat_direct].
  unfold_eff. cbn beta iota. rewrite Hb.
  change (Vfs.routes_above "x" _) with [(mkBindTarget 0 "." meta, "x")].
  cbn [Vfs.stat_above]. unfold Vfs.target_fs. cbn [t_fs]. unfold_eff. by rewrite IH.
Qed.

Example self_bind_example :
  let w := after (set_by_file "1/ctl" "bind . .") one in
  looped (Meta.dir "." 493) w ∧ fst (fs_stat world_taskfs Ctx.new "1/ns/x" w) = NoFuel.
Proof. by vm_compute. Qed.
