(* ===== verification/DevFiles.v ===== *)
(** * star9-runtime: the files of devices

    Models [ByteQueue], [QueueFile], [TerminalDataFile], [SharedTextFile] and
    [SharedLogFile] of [crates/star9-runtime/src/devices.rs] with their handles.

    An [Arc<Mutex<..>>] of these files is an index into a store of [DevCells], so clones of a
    file share what it holds.  [ready.notify_all()] wakes nobody: no method of a
    [ByteQueue] waits. *)

From stdpp Require Import base list numbers option strings.
From Stdlib Require Import ZArith Lia.
From S2P Require Import Prelude Strs RcText Core FsTrait Field.

Local Open Scope Z_scope.

Record DevCells := mkDevCells {
  s_texts : list string;
  s_logs : list (list byte);
  s_queues : list (list byte);
  s_prevs : list (option byte)
}.

Definition cells_empty : DevCells := mkDevCells [] [] [] [].

Definition set_texts (l : list string) (s : DevCells) : DevCells :=
  mkDevCells l (s_logs s) (s_queues s) (s_prevs s).
Definition set_logs (l : list (list byte)) (s : DevCells) : DevCells :=
  mkDevCells (s_texts s) l (s_queues s) (s_prevs s).
Definition set_queues (l : list (list byte)) (s : DevCells) : DevCells :=
  mkDevCells (s_texts s) (s_logs s) l (s_prevs s).
Definition set_prevs (l : list (option byte)) (s : DevCells) : DevCells :=
  mkDevCells (s_texts s) (s_logs s) (s_queues s) l.

(** [Arc::new(Mutex::new(v))] in one of the stores, taking the lock, and what is left in
    the cell when it is released. *)
Section Cells.
Context {V : Type} (store : DevCells → list V) (set_store : list V → DevCells → DevCells).

Definition cell_new (v : V) : M DevCells nat := λ s,
  (Ok (length (store s)), set_store (store s ++ [v]) s).

Definition cell_load (i : nat) : M DevCells V := λ s,
  match store s !! i with Some v => (Ok v, s) | None => (Panic, s) end.

Definition cell_store (i : nat) (v : V) : M DevCells unit :=
  modify (λ s, set_store (<[i := v]> (store s)) s).
End Cells.

(** The text of a file that shows a value: the value and a newline. *)
Definition line_of (s : string) : list byte := bytes_of (s +:+ String NEWLINE "").

(** A handle that fills its data when it is read first ([fill]) and then gives it piece by
    piece; [None] from [fill] leaves it unfilled. *)
Definition read_filled {W} (fill : M W (option (list byte))) (data : option (list byte))
    (offset len : Z) (w : W) : Outcome Error (list byte) * (option (list byte) * Z * W) :=
  let '(r, w) :=
    match data with
    | Some d => (Ok (Some d), w)
    | None => fill w
    end in
  match r with
  | Ok (Some d) =>
      let bs := window d offset len in (Ok bs, (Some d, offset + blen bs, w))
  | Ok None => (Ok [], (None, offset, w))
  | Err e => (Err e, (data, offset, w))
  | Panic => (Panic, (data, offset, w))
  | NoFuel => (NoFuel, (data, offset, w))
  end.

(** A handle that reads and tells its metadata and keeps every other provided method. *)
Definition read_only_handle {W H} (read : Z → M (H * W) (list byte))
    (stat : M (H * W) Metadata) : FileHandle W H := {|
  fh_read := read;
  fh_write _ := throw (EKind PermissionDenied);
  fh_read_at := default_read_at (λ _, unsupported) read;
  fh_write_at := default_write_at (λ _, unsupported) (λ _, throw (EKind PermissionDenied));
  fh_seek _ := unsupported;
  fh_stat := stat;
  fh_read_dir := default_read_dir stat;
  fh_sync := unsupported;
  fh_close := mret tt
|}.

(** The same with [write] and [close] of its own. *)
Definition read_write_handle {W H} (read : Z → M (H * W) (list byte))
    (write : list byte → M (H * W) Z) (stat : M (H * W) Metadata) (close : M (H * W) unit)
    : FileHandle W H := {|
  fh_read := read;
  fh_write := write;
  fh_read_at := default_read_at (λ _, unsupported) read;
  fh_write_at := default_write_at (λ _, unsupported) write;
  fh_seek _ := unsupported;
  fh_stat := stat;
  fh_read_dir := default_read_dir stat;
  fh_sync := unsupported;
  fh_close := close
|}.

(** A filesystem of one file: [open] and [stat] alone. *)
Definition file_fs {W H} `{!FileHandle W H} (open : FsContext → string → M W H)
    (stat : FsContext → string → M W Metadata) : FileSystem W H :=
  default_fs open stat (λ _, unsupported) (λ _ _, unsupported).

(** ** [ByteQueue] *)

Module ByteQueue.

Definition new : M DevCells nat := cell_new s_queues set_queues [].

Definition load (q : nat) : M DevCells (list byte) := cell_load s_queues q.

Definition store (q : nat) (data : list byte) : M DevCells unit :=
  cell_store s_queues set_queues q data.

Definition len (q : nat) : M DevCells Z := data ← load q; mret (blen data).

Definition read (q : nat) (len : Z) : M DevCells (list byte) :=
  data ← load q;
  if bool_decide (data = []) then mret []
  else
    let n := Z.to_nat (Z.min len (blen data)) in
    store q (drop n data) ;;
    mret (take n data).

Definition write (q : nat) (bytes : list byte) : M DevCells Z :=
  data ← load q;
  store q (data ++ bytes) ;;
  mret (blen bytes).

Definition clear (q : nat) : M DevCells unit := load q ;; store q [].
End ByteQueue.

(** ** [QueueFile] *)

Inductive QueueWriteBehavior := Raw | NormalizeLf (prev : nat).

Record QueueFile := mkQueueFile {
  qf_name : string;
  qf_reader : nat;
  qf_writer : nat;
  qf_behavior : QueueWriteBehavior
}.

Record QueueHandle := mkQueueHandle { qh_file : QueueFile }.

Module Queue.

Definition loopback (name : string) : M DevCells QueueFile :=
  q ← ByteQueue.new; mret (mkQueueFile name q q Raw).

Definition program (name : string) : M DevCells QueueFile :=
  q ← ByteQueue.new;
  prev ← cell_new s_prevs set_prevs None;
  mret (mkQueueFile name q q (NormalizeLf prev)).

Definition clear (f : QueueFile) : M DevCells unit :=
  ByteQueue.clear (qf_reader f) ;;
  (if decide (qf_reader f = qf_writer f) then mret tt else ByteQueue.clear (qf_writer f)) ;;
  match qf_behavior f with
  | Raw => mret tt
  | NormalizeLf prev => cell_store s_prevs set_prevs prev None
  end.

(** The loop of [write]: the bytes with a carriage return before each line feed that has
    none, and the last byte. *)
Fixpoint normalize (last : option byte) (data : list byte) : list byte * option byte :=
  match data with
  | [] => ([], last)
  | b :: rest =>
      let '(out, final) := normalize (Some b) rest in
      ((if bool_decide (b = x0a) && negb (bool_decide (last = Some x0d)) then [x0d; b] else [b])
         ++ out, final)
  end.

Definition write (f : QueueFile) (data : list byte) : M DevCells Z :=
  match qf_behavior f with
  | Raw => ByteQueue.write (qf_writer f) data
  | NormalizeLf prev =>
      if bool_decide (data = []) then mret 0
      else
        previous ← cell_load s_prevs prev;
        let '(normalized, last) := normalize previous data in
        cell_store s_prevs set_prevs prev last ;;
        ByteQueue.write (qf_writer f) normalized ;;
        mret (blen data)
  end.

Definition open (f : QueueFile) (ctx : FsContext) (name : string) : M DevCells QueueHandle :=
  guard_err (negb (bool_decide (name = "."))) (EPath "open" name NotFound) ;;
  mret (mkQueueHandle f).

Definition stat (f : QueueFile) (ctx : FsContext) (name : string) : M DevCells Metadata :=
  n ← ByteQueue.len (qf_reader f);
  mret (Meta.file (qf_name f) 438 n).

Definition handle_read (len : Z) : M (QueueHandle * DevCells) (list byte) :=
  by_ref (λ h, ByteQueue.read (qf_reader (qh_file h)) len).

Definition handle_write (data : list byte) : M (QueueHandle * DevCells) Z :=
  by_ref (λ h, write (qh_file h) data).

Definition handle_stat : M (QueueHandle * DevCells) Metadata :=
  by_ref (λ h, stat (qh_file h) Ctx.new ".").

#[global] Instance queue_handle : FileHandle DevCells QueueHandle :=
  read_write_handle handle_read handle_write handle_stat (mret tt).

Definition fs (f : QueueFile) : FileSystem DevCells QueueHandle := file_fs (open f) (stat f).
End Queue.

(** ** [SharedTextFile] *)

Record SharedTextFile := mkSharedTextFile {
  st_name : string;
  st_value : nat;
  st_writable : bool
}.

Record SharedTextHandle := mkSharedTextHandle {
  th_file : SharedTextFile;
  th_data : list byte;
  th_offset : Z;
  th_dirty : list byte
}.

Module Text.

Definition readonly (name value : string) : M DevCells SharedTextFile :=
  v ← cell_new s_texts set_texts value; mret (mkSharedTextFile name v false).

Definition writable (name value : string) : M DevCells SharedTextFile :=
  v ← cell_new s_texts set_texts value; mret (mkSharedTextFile name v true).

Definition get (f : SharedTextFile) : M DevCells string := cell_load s_texts (st_value f).

Definition set (f : SharedTextFile) (value : string) : M DevCells unit :=
  cell_store s_texts set_texts (st_value f) value.

Definition open (f : SharedTextFile) (ctx : FsContext) (name : string)
    : M DevCells SharedTextHandle :=
  guard_err (negb (bool_decide (name = "."))) (EPath "open" name NotFound) ;;
  v ← get f;
  mret (mkSharedTextHandle f (line_of v) 0 []).

Definition stat (f : SharedTextFile) (ctx : FsContext) (name : string) : M DevCells Metadata :=
  v ← get f;
  mret (Meta.file (st_name f) (if st_writable f then 438 else 292) (blen (bytes_of v) + 1)).

Definition handle_read (len : Z) : M (SharedTextHandle * DevCells) (list byte) := λ '(h, s),
  let bs := window (th_data h) (th_offset h) len in
  (Ok bs, (mkSharedTextHandle (th_file h) (th_data h) (th_offset h + blen bs) (th_dirty h), s)).

Definition handle_write (data : list byte) : M (SharedTextHandle * DevCells) Z := λ '(h, s),
  if negb (st_writable (th_file h)) then (Err (EKind PermissionDenied), (h, s))
  else
    (Ok (blen data),
     (mkSharedTextHandle (th_file h) (th_data h) (th_offset h) (th_dirty h ++ data), s)).

Definition handle_stat : M (SharedTextHandle * DevCells) Metadata :=
  by_ref (λ h, stat (th_file h) Ctx.new ".").

(** The dirty bytes become the value, and are kept. *)
Definition handle_close : M (SharedTextHandle * DevCells) unit :=
  by_ref (λ h,
    if st_writable (th_file h) && negb (bool_decide (th_dirty h = [])) then
      set (th_file h) (trim (from_utf8_lossy (th_dirty h)))
    else mret tt).

#[global] Instance text_handle : FileHandle DevCells SharedTextHandle :=
  read_write_handle handle_read handle_write handle_stat handle_close.

Definition fs (f : SharedTextFile) : FileSystem DevCells SharedTextHandle :=
  file_fs (open f) (stat f).
End Text.

(** ** [SharedLogFile] *)

Record SharedLogFile := mkSharedLogFile { sl_name : string; sl_data : nat }.

Record SharedLogHandle := mkSharedLogHandle { lh_file : SharedLogFile; lh_offset : Z }.

Module Log.

Definition new (name : string) : M DevCells SharedLogFile :=
  d ← cell_new s_logs set_logs []; mret (mkSharedLogFile name d).

Definition load (f : SharedLogFile) : M DevCells (list byte) := cell_load s_logs (sl_data f).

Definition append (f : SharedLogFile) (bytes : list byte) : M DevCells unit :=
  data ← load f; cell_store s_logs set_logs (sl_data f) (data ++ bytes).

Definition append_line (f : SharedLogFile) (line : string) : M DevCells unit :=
  data ← load f; cell_store s_logs set_logs (sl_data f) (data ++ bytes_of line ++ [x0a]).

Definition clear (f : SharedLogFile) : M DevCells unit :=
  load f ;; cell_store s_logs set_logs (sl_data f) [].

Definition open (f : SharedLogFile) (ctx : FsContext) (name : string) : M DevCells SharedLogHandle :=
  guard_err (negb (bool_decide (name = "."))) (EPath "open" name NotFound) ;;
  mret (mkSharedLogHandle f 0).

Definition stat (f : SharedLogFile) (ctx : FsContext) (name : string) : M DevCells Metadata :=
  data ← load f;
  mret (Meta.file (sl_name f) 438 (blen data)).

Definition handle_read (len : Z) : M (SharedLogHandle * DevCells) (list byte) := λ '(h, s),
  match load (lh_file h) s with
  | (Ok data, s) =>
      let bs := window data (lh_offset h) len in
      (Ok bs, (mkSharedLogHandle (lh_file h) (lh_offset h + blen bs), s))
  | (Err e, s) => (Err e, (h, s))
  | (Panic, s) => (Panic, (h, s))
  | (NoFuel, s) => (NoFuel, (h, s))
  end.

Definition handle_write (bytes : list byte) : M (SharedLogHandle * DevCells) Z :=
  by_ref (λ h, append (lh_file h) bytes ;; mret (blen bytes)).

Definition handle_stat : M (SharedLogHandle * DevCells) Metadata :=
  by_ref (λ h, stat (lh_file h) Ctx.new ".").

#[global] Instance log_handle : FileHandle DevCells SharedLogHandle :=
  read_write_handle handle_read handle_write handle_stat (mret tt).

Definition fs (f : SharedLogFile) : FileSystem DevCells SharedLogHandle := file_fs (open f) (stat f).
End Log.

(** ** [TerminalDataFile] *)

Record TerminalDataFile := mkTerminalDataFile { td_queue : QueueFile; td_screen : SharedLogFile }.

Record TerminalDataHandle := mkTerminalDataHandle { dh_file : TerminalDataFile }.

Module TermData.

Definition new (name : string) (screen : SharedLogFile) : M DevCells TerminalDataFile :=
  q ← Queue.loopback name; mret (mkTerminalDataFile q screen).

Definition clear (f : TerminalDataFile) : M DevCells unit :=
  Queue.clear (td_queue f) ;; Log.clear (td_screen f).

Definition open (f : TerminalDataFile) (ctx : FsContext) (name : string)
    : M DevCells TerminalDataHandle :=
  guard_err (negb (bool_decide (name = "."))) (EPath "open" name NotFound) ;;
  mret (mkTerminalDataHandle f).

Definition stat (f : TerminalDataFile) (ctx : FsContext) (name : string) : M DevCells Metadata :=
  Queue.stat (td_queue f) ctx name.

Definition handle_read (len : Z) : M (TerminalDataHandle * DevCells) (list byte) :=
  by_ref (λ h, ByteQueue.read (qf_reader (td_queue (dh_file h))) len).

Definition handle_write (data : list byte) : M (TerminalDataHandle * DevCells) Z :=
  by_ref (λ h, Log.append (td_screen (dh_file h)) data ;; Queue.write (td_queue (dh_file h)) data).

Definition handle_stat : M (TerminalDataHandle * DevCells) Metadata :=
  by_ref (λ h, Queue.stat (td_queue (dh_file h)) Ctx.new ".").

#[global] Instance term_data_handle : FileHandle DevCells TerminalDataHandle :=
  read_write_handle handle_read handle_write handle_stat (mret tt).

Definition fs (f : TerminalDataFile) : FileSystem DevCells TerminalDataHandle :=
  file_fs (open f) (stat f).
End TermData.
