(* ===== verification/Devices.v ===== *)
(** * star9-runtime: device allocators and terminals

    Models [DeviceAllocator], [terminal_fs] and the small device filesystems of
    [crates/star9-runtime/src/devices.rs].

    An allocator is over the resources its factory makes: a resource is an index into
    [table], a filesystem over the world [R] of the resources.  [Copies] is the case of a
    factory whose resources share nothing: [R] is the list of their worlds. *)

From stdpp Require Import base list numbers option strings pretty.
From Stdlib Require Import ZArith Lia Ascii.
From S2P Require Import Prelude Strs RcText BTree Core FsTrait FsLens MemFs Pipe Composite Field Task DevFiles.

Local Open Scope Z_scope.

(** ** [DeviceAllocator] *)

Record AllocState := mkAllocState { as_next_id : Z; as_resources : btree string nat }.

(** A handle of ["new"]: what it has read so far. *)
Record NewDeviceHandle := mkNewDeviceHandle { nd_data : option (list byte); nd_offset : Z }.

(** The entries of the root of a device: ["new"] and a directory for each name. *)
Definition new_entry : DirEntry := mkDirEntry "new" (Meta.file "new" 365 0).
Definition dir_entries (names : list string) : list DirEntry :=
  (λ id, mkDirEntry id (Meta.dir id 365)) <$> names.

(** [name.split_once('/').unwrap_or((name, "."))] *)
Definition head_rest (name : string) : string * string := default (name, ".") (split_once "/" name).

Module DeviceAllocator.
Section Allocator.
Context {R H : Type} `{!FileHandle R H} (table : nat → FileSystem R H).
Context (kind : string) (factory : string → M R nat).

Abbreviation W := (AllocState * R)%type.

Definition new : AllocState := mkAllocState 0 [].

Definition get (id : string) : M W (option nat) := gets (λ w, bt_get id (as_resources w.1)).

Definition alloc : M W string :=
  next ← gets (λ w, as_next_id w.1);
  match next_u32 next with
  | None => panic
  | Some next =>
      modify (λ '(s, r), (mkAllocState next (as_resources s), r)) ;;
      let id := pretty next in
      resource ← on_snd (factory id);
      modify (λ '(s, r), (mkAllocState (as_next_id s) (bt_insert id resource (as_resources s)), r)) ;;
      mret id
  end.

Definition new_read (len : Z) : M (NewDeviceHandle * W) (list byte) := λ '(h, w),
  let '(r, (data, offset, w)) :=
    read_filled (id ← alloc; mret (Some (line_of id))) (nd_data h) (nd_offset h) len w in
  (r, (mkNewDeviceHandle data offset, w)).

Definition new_stat : M (NewDeviceHandle * W) Metadata := λ '(h, w),
  (Ok (Meta.file ("new-" +:+ kind) 365 0), (h, w)).

#[local] Instance new_device_handle : FileHandle W NewDeviceHandle :=
  read_only_handle new_read new_stat.

(** The handles of the resources, in the world of the allocator. *)
#[local] Instance resource_handle : FileHandle W H :=
  zoom_handle snd (λ r w, (w.1, r)).

Abbreviation File := (H + (NewDeviceHandle + DirFile))%type.
#[local] Instance new_or_dir : FileHandle W (NewDeviceHandle + DirFile) := sum_handle.
#[global] Instance allocator_file : FileHandle W File := sum_handle.

Definition open (ctx : FsContext) (name : string) : M W File :=
  guard_err (negb (valid_path name)) (EPath "open" name NotFound) ;;
  let name := clean_path name in
  if decide (name = ".") then
    s ← gets fst;
    mret (inr (inr (dir_file_new (Meta.dir "." 365)
      (new_entry :: dir_entries (bt_keys (as_resources s))))))
  else if decide (name = "new") then mret (inr (inl (mkNewDeviceHandle None 0)))
  else
    let '(head, rest) := head_rest name in
    found ← get head;
    resource ← ok_or found (EPath "open" head NotFound);
    f ← on_snd (fs_open (table resource) ctx rest);
    mret (inl f).

Definition stat (ctx : FsContext) (name : string) : M W Metadata :=
  guard_err (negb (valid_path name)) (EPath "stat" name NotFound) ;;
  let name := clean_path name in
  if decide (name = ".") then mret (Meta.dir "." 365)
  else if decide (name = "new") then mret (Meta.file "new" 365 0)
  else
    let '(head, rest) := head_rest name in
    found ← get head;
    resource ← ok_or found (EPath "stat" head NotFound);
    if decide (rest = ".") then mret (Meta.dir head 365)
    else on_snd (fs_stat (table resource) ctx rest).

Definition fs : FileSystem W File := default_fs open stat (λ _, unsupported) (λ _ _, unsupported).
End Allocator.
End DeviceAllocator.

(** ** Resources that share nothing

    The world of each is an element of a list, and a handle is kept with the index of the
    world it is over.  [fs_in v] is the filesystem of a resource whose world is [v]; which
    it is does not change.  [blank] is what an index outside the list would mean. *)
Class Blank (V : Type) := blank : V.

Module Copies.
Section Copies.
Context {V H : Type} `{!Blank V} `{!FileHandle V H} (fs_in : V → FileSystem V H).

Definition world_at (i : nat) (l : list V) : V := default blank (l !! i).
Definition set_world (i : nat) (v : V) (l : list V) : list V := <[i := v]> l.

Definition at_index {A} (i : nat) (m : M (H * V) A) (h : H) (l : list V)
    : Result A * (nat * H * list V) :=
  let '(r, (h, v)) := m (h, world_at i l) in (r, (i, h, set_world i v l)).

Definition method {A} (m : M (H * V) A) : M (nat * H * list V) A := λ '(i, h, l),
  at_index i m h l.

#[global] Instance copies_handle : FileHandle (list V) (nat * H) := {|
  fh_read len := method (fh_read len);
  fh_write data := method (fh_write data);
  fh_read_at len offset := method (fh_read_at len offset);
  fh_write_at data offset := method (fh_write_at data offset);
  fh_seek pos := method (fh_seek pos);
  fh_stat := method fh_stat;
  fh_read_dir count := method (fh_read_dir count);
  fh_sync := method fh_sync;
  fh_close := method fh_close
|}.

(** The filesystem at [i], as the world there says. *)
Definition in_world {A} (f : FileSystem V H → M V A) : M V A := λ v, f (fs_in v) v.

Definition dynamic : FileSystem V H := {|
  fs_open ctx p := in_world (λ fs, fs_open fs ctx p);
  fs_stat ctx p := in_world (λ fs, fs_stat fs ctx p);
  fs_lstat ctx p := in_world (λ fs, fs_lstat fs ctx p);
  fs_read_dir ctx p := in_world (λ fs, fs_read_dir fs ctx p);
  fs_create p := in_world (λ fs, fs_create fs p);
  fs_open_file p flags perm := in_world (λ fs, fs_open_file fs p flags perm);
  fs_mkdir p perm := in_world (λ fs, fs_mkdir fs p perm);
  fs_remove p := in_world (λ fs, fs_remove fs p);
  fs_rename p q := in_world (λ fs, fs_rename fs p q);
  fs_link p q := in_world (λ fs, fs_link fs p q);
  fs_chmod p mode := in_world (λ fs, fs_chmod fs p mode);
  fs_chown p uid gid := in_world (λ fs, fs_chown fs p uid gid);
  fs_chtimes p t := in_world (λ fs, fs_chtimes fs p t);
  fs_truncate p n := in_world (λ fs, fs_truncate fs p n);
  fs_symlink p q := in_world (λ fs, fs_symlink fs p q);
  fs_readlink p := in_world (λ fs, fs_readlink fs p);
  fs_set_xattr p attr data := in_world (λ fs, fs_set_xattr fs p attr data);
  fs_get_xattr p attr := in_world (λ fs, fs_get_xattr fs p attr);
  fs_list_xattrs p := in_world (λ fs, fs_list_xattrs fs p);
  fs_remove_xattr p attr := in_world (λ fs, fs_remove_xattr fs p attr)
|}.

Definition table (i : nat) : FileSystem (list V) (nat * H) :=
  zoom_fs (world_at i) (set_world i) (pair i) dynamic.

(** A factory of such resources: a world of its own for each. *)
Definition factory (make : string → V) (id : string) : M (list V) nat := λ l,
  (Ok (length l), l ++ [make id]).
End Copies.
End Copies.

(** ** [terminal_fs] *)

Record Terminal := mkTerminal {
  t_id : SharedTextFile;
  t_state : SharedTextFile;
  t_size : SharedTextFile;
  t_screen : SharedLogFile;
  t_data : TerminalDataFile;
  t_program : QueueFile;
  t_raw : QueueFile
}.

(** The world of one terminal: what its files hold, its signal and the entries of its
    [MapFs]. *)
Record TermWorld := mkTermWorld {
  tw_cells : DevCells;
  tw_winch : Pipe.SignalWorld;
  tw_entries : btree string nat
}.

Definition set_cells (c : DevCells) (w : TermWorld) : TermWorld :=
  mkTermWorld c (tw_winch w) (tw_entries w).
Definition set_winch (s : Pipe.SignalWorld) (w : TermWorld) : TermWorld :=
  mkTermWorld (tw_cells w) s (tw_entries w).

#[global] Instance term_entries : HasEntries TermWorld := {|
  entries_of := tw_entries;
  set_entries b w := mkTermWorld (tw_cells w) (tw_winch w) b;
  entries_set b w := eq_refl
|}.

Module Terminals.

(** The handles of a terminal's files. *)
Abbreviation CtlHandle := (Control.ControlHandle DevCells + DirFile)%type.
Abbreviation File :=
  (SharedTextHandle + (SharedLogHandle + (QueueHandle + (TerminalDataHandle +
    (CtlHandle + (Pipe.SignalFile + DirFile))))))%type.

#[local] Instance text_in_term : FileHandle TermWorld SharedTextHandle :=
  zoom_handle tw_cells set_cells.
#[local] Instance log_in_term : FileHandle TermWorld SharedLogHandle :=
  zoom_handle tw_cells set_cells.
#[local] Instance queue_in_term : FileHandle TermWorld QueueHandle :=
  zoom_handle tw_cells set_cells.
#[local] Instance data_in_term : FileHandle TermWorld TerminalDataHandle :=
  zoom_handle tw_cells set_cells.
#[local] Instance ctl_in_term : FileHandle TermWorld CtlHandle :=
  zoom_handle tw_cells set_cells.
#[local] Instance winch_in_term : FileHandle TermWorld Pipe.SignalFile :=
  zoom_handle tw_winch set_winch.
#[local] Instance term5 : FileHandle TermWorld (Pipe.SignalFile + DirFile) := sum_handle.
#[local] Instance term4 : FileHandle TermWorld (CtlHandle + (Pipe.SignalFile + DirFile)) :=
  sum_handle.
#[local] Instance term3 : FileHandle TermWorld
  (TerminalDataHandle + (CtlHandle + (Pipe.SignalFile + DirFile))) := sum_handle.
#[local] Instance term2 : FileHandle TermWorld
  (QueueHandle + (TerminalDataHandle + (CtlHandle + (Pipe.SignalFile + DirFile)))) := sum_handle.
#[local] Instance term1 : FileHandle TermWorld
  (SharedLogHandle + (QueueHandle + (TerminalDataHandle + (CtlHandle + (Pipe.SignalFile + DirFile))))) :=
  sum_handle.
#[global] Instance term_file : FileHandle TermWorld File := sum_handle.
#[global] Instance term_box_dir : BoxDir File := λ d, inr (inr (inr (inr (inr (inr d))))).

Definition box_text (h : SharedTextHandle) : File := inl h.
Definition box_log (h : SharedLogHandle) : File := inr (inl h).
Definition box_queue (h : QueueHandle) : File := inr (inr (inl h)).
Definition box_data (h : TerminalDataHandle) : File := inr (inr (inr (inl h))).
Definition box_ctl (h : CtlHandle) : File := inr (inr (inr (inr (inl h)))).
Definition box_winch (h : Pipe.SignalFile) : File := inr (inr (inr (inr (inr (inl h))))).

(** The callback of ["ctl"]. *)
Definition clear_queues (t : Terminal) : M DevCells unit :=
  TermData.clear (t_data t) ;; Queue.clear (t_program t) ;; Queue.clear (t_raw t).

Definition ctl_command (t : Terminal) (cmd : string) : M DevCells unit :=
  if decide (cmd = "clear") then clear_queues t
  else if decide (cmd = "reset") then
    clear_queues t ;; Text.set (t_size t) "80x24" ;; Text.set (t_state t) "ready"
  else mret tt.

Definition ctl (t : Terminal) : Control.ControlFile DevCells :=
  Control.mkControlFile "ctl" (ctl_command t).

(** The files of a terminal, in the order they are made. *)
Definition parts (id : string) : M DevCells Terminal :=
  state ← Text.readonly "state" "ready";
  size ← Text.writable "size" "80x24";
  screen ← Log.new "screen";
  data ← TermData.new "data" screen;
  program ← Queue.program "program";
  raw ← Queue.loopback "raw";
  id ← Text.readonly "id" id;
  mret (mkTerminal id state size screen data program raw).

(** The [FsRef]s that are inserted into the [MapFs], in the order of the source. *)
Definition table (t : Terminal) (i : nat) : FileSystem TermWorld File :=
  match i with
  | 0%nat => zoom_fs tw_cells set_cells box_text (Text.fs (t_id t))
  | 1%nat => zoom_fs tw_cells set_cells box_ctl (Control.fs (ctl t))
  | 2%nat => zoom_fs tw_cells set_cells box_text (Text.fs (t_state t))
  | 3%nat => zoom_fs tw_cells set_cells box_text (Text.fs (t_size t))
  | 4%nat => zoom_fs tw_cells set_cells box_data (TermData.fs (t_data t))
  | 5%nat => zoom_fs tw_cells set_cells box_log (Log.fs (t_screen t))
  | 6%nat => zoom_fs tw_cells set_cells box_queue (Queue.fs (t_program t))
  | 7%nat => zoom_fs tw_cells set_cells box_queue (Queue.fs (t_raw t))
  | _ => zoom_fs tw_winch set_winch box_winch Pipe.signalfs
  end.

Definition no_world : TermWorld := mkTermWorld cells_empty (Pipe.mkSignalWorld [] []) [].

Definition names : list string :=
  ["id"; "ctl"; "state"; "size"; "data"; "screen"; "program"; "raw"; "winch"].

Definition insert_all : M TermWorld unit :=
  for_each (λ '(i, name), MapFs.insert name i) (imap (λ i name, (i, name)) names).

Definition terminal_new (id : string) : M TermWorld Terminal :=
  t ← zoom tw_cells set_cells (parts id);
  insert_all ;;
  mret t.

Definition terminal_fs (id : string) : M TermWorld (FileSystem TermWorld File) :=
  t ← terminal_new id; mret (MapFs.fs (table t)).

(** A terminal of the allocator: its files and its world. *)
Abbreviation Unit := (Terminal * TermWorld)%type.

#[global] Instance unit_file : FileHandle Unit File := zoom_handle snd (λ w u, (u.1, w)).

Definition unit_fs (u : Unit) : FileSystem Unit File :=
  zoom_fs snd (λ w u, (u.1, w)) id (MapFs.fs (table u.1)).

Definition no_terminal : Terminal :=
  mkTerminal (mkSharedTextFile "" 0 false) (mkSharedTextFile "" 0 false)
    (mkSharedTextFile "" 0 false) (mkSharedLogFile "" 0)
    (mkTerminalDataFile (mkQueueFile "" 0 0 Raw) (mkSharedLogFile "" 0))
    (mkQueueFile "" 0 0 Raw) (mkQueueFile "" 0 0 Raw).

Definition make_terminal (id : string) : Unit :=
  match terminal_new id no_world with
  | (Ok t, w) => (t, w)
  | (_, w) => (no_terminal, w)
  end.
End Terminals.

(** ** Devices with fixed contents *)

Definition worker_fs : M MemWorld unit :=
  MemFs.from_entries
    [("ctl", []); ("kind", line_of "worker"); ("state", line_of "created")].

Definition web_fs : M MemWorld unit :=
  MemFs.from_entries
    [("dom/ctl", []); ("caches/new", []); ("download/ctl", []); ("worker/new", []);
     ("opfs/new", [])].

Definition js_value_fs : M MemWorld unit :=
  MemFs.from_entries [("global", line_of "[object global]"); ("values", [])].

Definition download_fs : M MemWorld unit :=
  MemFs.from_entries [("ctl", []); ("files", [])].

(** ** The allocators that [bind_devices] makes *)

Module DeviceTable.

#[global] Instance blank_terminal : Blank Terminals.Unit :=
  (Terminals.no_terminal, Terminals.no_world).

Definition term : FileSystem _ _ :=
  DeviceAllocator.fs (Copies.table Terminals.unit_fs)
    "term" (Copies.factory Terminals.make_terminal).

(** A pipe of the allocator: its two ports and their buffers. *)
Abbreviation PipeUnit := (Pipe.PipeFs * Pipes)%type.
#[global] Instance pipe_unit_file : FileHandle PipeUnit Pipe.PipeFile :=
  zoom_handle snd (λ w u, (u.1, w)).

Definition pipe_fs (u : PipeUnit) : FileSystem PipeUnit Pipe.PipeFile :=
  zoom_fs snd (λ w u, (u.1, w)) id (Pipe.pipefs u.1).

#[global] Instance blank_pipe : Blank PipeUnit :=
  (Pipe.mkPipeFs (mkPipePort 0 0) (mkPipePort 0 0), []).

Definition make_pipe (id : string) : PipeUnit :=
  match Pipe.pipefs_new false [] with (Ok f, w) => (f, w) | (_, w) => (blank.1, w) end.

Definition pipe : FileSystem _ _ :=
  DeviceAllocator.fs (Copies.table pipe_fs) "pipe" (Copies.factory make_pipe).

#[global] Instance blank_signal : Blank Pipe.SignalWorld := Pipe.mkSignalWorld [] [].

Definition signal : FileSystem _ _ :=
  DeviceAllocator.fs (Copies.table (λ _, Pipe.signalfs)) "signal"
    (Copies.factory (λ _, Pipe.mkSignalWorld [] [])).

(** ["#ramfs"] and ["#cache"] start empty, ["#worker"] and ["#download"] with their
    files; [fuel] is that of [MemFs.fs]. *)
#[global] Instance blank_mem : Blank MemWorld := MemFs.new (λ _, 0).

Definition mem_device (fuel : nat) (kind : string) (clock : nat → Z) (contents : M MemWorld unit)
    : FileSystem _ _ :=
  DeviceAllocator.fs (Copies.table (λ _, MemFs.fs fuel)) kind
    (Copies.factory (λ _, (contents (MemFs.new clock)).2)).

Definition ramfs (fuel : nat) (clock : nat → Z) := mem_device fuel "ramfs" clock (mret tt).
Definition cache (fuel : nat) (clock : nat → Z) := mem_device fuel "cache" clock (mret tt).
Definition worker (fuel : nat) (clock : nat → Z) := mem_device fuel "worker" clock worker_fs.
Definition download (fuel : nat) (clock : nat → Z) := mem_device fuel "download" clock download_fs.
End DeviceTable.
