(* ===== verification/NetDev.v ===== *)
(** * star9-runtime: the network device

    Models [NetDevice], [NetConn], [NetEndpoint] and their handles of
    [crates/star9-runtime/src/devices.rs]: connections inside one device, which listen,
    dial each other and carry bytes both ways.

    A [NetConn] is its id and an index into the states of the world, so its clones share a
    state; the queues and the flag of a link are indices too.  A method that takes a
    lock holds it for one critical section: [alloc], [announce], [dial], [accept_one],
    [hangup] and [reset] are made of several, which are definitions of their own because
    other threads run between them ([NetProps.advance] takes a call section by section). *)

From stdpp Require Import base list numbers option strings pretty.
From Stdlib Require Import ZArith Lia Ascii.
From S2P Require Import Prelude Strs RcText BTree Core FsTrait FsLens Field Task DevFiles Devices.

Local Open Scope Z_scope.

Inductive NetPhase := Idle | Bound | Listening | Connected | Closed.

#[global] Instance NetPhase_eq_dec : EqDecision NetPhase.
Proof. solve_decision. Defined.

(** One end of a link: the queue it reads, the queue it writes, and the link. *)
Record NetEndpoint := mkNetEndpoint { ne_inbound : nat; ne_outbound : nat; ne_state : nat }.

#[global] Instance NetEndpoint_eq_dec : EqDecision NetEndpoint.
Proof. solve_decision. Defined.

Record PendingAccept := mkPendingAccept { pa_remote : string; pa_endpoint : NetEndpoint }.

Record NetConnState := mkNetConnState {
  cs_phase : NetPhase;
  cs_local : string;
  cs_remote : string;
  cs_last_error : option string;
  cs_endpoint : option NetEndpoint;
  cs_pending_accepts : list PendingAccept
}.

Record NetConn := mkNetConn { cn_id : string; cn_inner : nat }.

Record NetWorld := mkNetWorld {
  nw_next_id : Z;
  nw_next_port : Z;
  nw_resources : btree string NetConn;
  nw_listeners : btree string string;
  nw_conns : list NetConnState;
  nw_links : list bool;
  nw_cells : DevCells
}.

Definition set_next_id (n : Z) (w : NetWorld) : NetWorld :=
  mkNetWorld n (nw_next_port w) (nw_resources w) (nw_listeners w) (nw_conns w) (nw_links w)
    (nw_cells w).
Definition set_next_port (n : Z) (w : NetWorld) : NetWorld :=
  mkNetWorld (nw_next_id w) n (nw_resources w) (nw_listeners w) (nw_conns w) (nw_links w)
    (nw_cells w).
Definition set_resources (m : btree string NetConn) (w : NetWorld) : NetWorld :=
  mkNetWorld (nw_next_id w) (nw_next_port w) m (nw_listeners w) (nw_conns w) (nw_links w)
    (nw_cells w).
Definition set_listeners (m : btree string string) (w : NetWorld) : NetWorld :=
  mkNetWorld (nw_next_id w) (nw_next_port w) (nw_resources w) m (nw_conns w) (nw_links w)
    (nw_cells w).
Definition set_conns (l : list NetConnState) (w : NetWorld) : NetWorld :=
  mkNetWorld (nw_next_id w) (nw_next_port w) (nw_resources w) (nw_listeners w) l (nw_links w)
    (nw_cells w).
Definition set_links (l : list bool) (w : NetWorld) : NetWorld :=
  mkNetWorld (nw_next_id w) (nw_next_port w) (nw_resources w) (nw_listeners w) (nw_conns w) l
    (nw_cells w).
Definition set_net_cells (c : DevCells) (w : NetWorld) : NetWorld :=
  mkNetWorld (nw_next_id w) (nw_next_port w) (nw_resources w) (nw_listeners w) (nw_conns w)
    (nw_links w) c.

Definition set_phase (p : NetPhase) (s : NetConnState) : NetConnState :=
  mkNetConnState p (cs_local s) (cs_remote s) (cs_last_error s) (cs_endpoint s)
    (cs_pending_accepts s).
Definition set_local (a : string) (s : NetConnState) : NetConnState :=
  mkNetConnState (cs_phase s) a (cs_remote s) (cs_last_error s) (cs_endpoint s)
    (cs_pending_accepts s).
Definition set_remote (a : string) (s : NetConnState) : NetConnState :=
  mkNetConnState (cs_phase s) (cs_local s) a (cs_last_error s) (cs_endpoint s)
    (cs_pending_accepts s).
Definition set_last_error (e : option string) (s : NetConnState) : NetConnState :=
  mkNetConnState (cs_phase s) (cs_local s) (cs_remote s) e (cs_endpoint s)
    (cs_pending_accepts s).
Definition set_endpoint (e : option NetEndpoint) (s : NetConnState) : NetConnState :=
  mkNetConnState (cs_phase s) (cs_local s) (cs_remote s) (cs_last_error s) e
    (cs_pending_accepts s).
Definition set_pending (l : list PendingAccept) (s : NetConnState) : NetConnState :=
  mkNetConnState (cs_phase s) (cs_local s) (cs_remote s) (cs_last_error s) (cs_endpoint s) l.

Definition in_cells {A} (m : M DevCells A) : M NetWorld A := zoom nw_cells set_net_cells m.

(** ** [NetEndpoint] *)

Module Endpoint.

Definition pair : M NetWorld (NetEndpoint * NetEndpoint) :=
  left ← in_cells ByteQueue.new;
  right ← in_cells ByteQueue.new;
  state ← gets (λ w, length (nw_links w));
  modify (λ w, set_links (nw_links w ++ [false]) w) ;;
  mret (mkNetEndpoint left right state, mkNetEndpoint right left state).

Definition read (e : NetEndpoint) (len : Z) : M NetWorld (list byte) :=
  in_cells (ByteQueue.read (ne_inbound e) len).

Definition closed (e : NetEndpoint) : M NetWorld bool := λ w,
  match nw_links w !! ne_state e with Some b => (Ok b, w) | None => (Panic, w) end.

Definition write (e : NetEndpoint) (data : list byte) : M NetWorld Z :=
  c ← closed e;
  guard_err c (EMessage "data: broken pipe") ;;
  in_cells (ByteQueue.write (ne_outbound e) data).

Definition close (e : NetEndpoint) : M NetWorld unit :=
  modify (λ w, set_links (<[ne_state e := true]> (nw_links w)) w).
End Endpoint.

(** ** The tables of [NetDevice] *)

Definition conn_new : NetConnState := mkNetConnState Idle "" "" None None [].

(** The lock of a connection: [inner] takes it, [set_inner] is what is left in it when it is
    released. *)
Definition inner (c : NetConn) : M NetWorld NetConnState := λ w,
  match nw_conns w !! cn_inner c with Some s => (Ok s, w) | None => (Panic, w) end.

Definition set_inner (c : NetConn) (s : NetConnState) : M NetWorld unit :=
  modify (λ w, set_conns (<[cn_inner c := s]> (nw_conns w)) w).

Definition update_inner (c : NetConn) (f : NetConnState → NetConnState) : M NetWorld unit :=
  s ← inner c; set_inner c (f s).

Module NetDevice.

Definition new : NetWorld := mkNetWorld 0 0 [] [] [] [] cells_empty.

(** The two sections of [alloc]: an id is taken, for a connection that nobody else can name
    yet, which is then put among the resources. *)
Definition alloc_new : M NetWorld NetConn :=
  next ← gets nw_next_id;
  match next_u32 next with
  | None => panic
  | Some next =>
      modify (set_next_id next) ;;
      let id := pretty next in
      i ← gets (λ w, length (nw_conns w));
      modify (λ w, set_conns (nw_conns w ++ [conn_new]) w) ;;
      mret (mkNetConn id i)
  end.

Definition alloc_insert (c : NetConn) : M NetWorld unit :=
  modify (λ w, set_resources (bt_insert (cn_id c) c (nw_resources w)) w).

Definition alloc : M NetWorld string :=
  c ← alloc_new; alloc_insert c ;; mret (cn_id c).

Definition lookup (id : string) : M NetWorld NetConn :=
  m ← gets nw_resources; ok_or (bt_get id m) (EPath "open" id NotFound).

Definition next_auto_local : M NetWorld string :=
  next ← gets nw_next_port;
  match next_u32 next with
  | None => panic
  | Some next =>
      modify (set_next_port next) ;;
      if U32_MAX <? 10000 + next then panic else mret ("local:" +:+ pretty (10000 + next))
  end.

Definition register_listener (addr id : string) : M NetWorld unit :=
  m ← gets nw_listeners;
  guard_err (bt_mem addr m) (EMessage ("announce: address already in use: " +:+ addr)) ;;
  modify (set_listeners (bt_insert addr id m)).

Definition unregister_listener (addr id : string) : M NetWorld unit :=
  m ← gets nw_listeners;
  if bool_decide (bt_get addr m = Some id) then modify (set_listeners (bt_remove addr m))
  else mret tt.

Definition listener_id (addr : string) : M NetWorld (option string) :=
  m ← gets nw_listeners; mret (bt_get addr m).

(** [lookup(..).ok()] *)
Definition lookup_ok (id : string) : M NetWorld (option NetConn) :=
  r ← gets nw_resources; mret (bt_get id r).

Definition listener (addr : string) : M NetWorld (option NetConn) :=
  id ← listener_id addr;
  match id with
  | None => mret None
  | Some id => lookup_ok id
  end.
End NetDevice.

(** ** [NetConn] *)

Module NetConns.

Definition install_accepted (c : NetConn) (local remote : string) (endpoint : NetEndpoint)
    : M NetWorld unit :=
  update_inner c (λ s,
    mkNetConnState Connected local remote None (Some endpoint) (cs_pending_accepts s)).

(** [NetDevice::alloc_connected] *)
Definition alloc_connected (local remote : string) (endpoint : NetEndpoint) : M NetWorld string :=
  id ← NetDevice.alloc;
  r ← attempt (NetDevice.lookup id);
  match r with
  | Ok conn => install_accepted conn local remote endpoint ;; mret id
  | Err _ | Panic => panic
  | NoFuel => no_fuel
  end.

Definition phase_name (p : NetPhase) : string :=
  match p with
  | Idle => "idle"
  | Bound => "bound"
  | Listening => "listening"
  | Connected => "connected"
  | Closed => "closed"
  end.

Definition snapshot (c : NetConn) : M NetWorld (NetPhase * string * string * option string) :=
  s ← inner c; mret (cs_phase s, cs_local s, cs_remote s, cs_last_error s).

Definition status (c : NetConn) : M NetWorld string :=
  '(phase, local, remote, last_error) ← snapshot c;
  mret (phase_name phase
    +:+ (if is_empty_str local then "" else " local=" +:+ local)
    +:+ (if is_empty_str remote then "" else " remote=" +:+ remote)
    +:+ match last_error with Some e => " err=" +:+ e | None => "" end).

Definition local (c : NetConn) : M NetWorld string := s ← inner c; mret (cs_local s).
Definition remote (c : NetConn) : M NetWorld string := s ← inner c; mret (cs_remote s).

Definition invalid_transition_message (op : string) (p : NetPhase) : string :=
  op +:+ ": invalid transition from " +:+ phase_name p.

(** An error that is kept in the connection too. *)
Definition fail {A} (c : NetConn) (message : string) : M NetWorld A :=
  update_inner c (set_last_error (Some message)) ;;
  throw (EMessage message).

Definition bind (c : NetConn) (addr : string) : M NetWorld unit :=
  let addr := trim addr in
  if is_empty_str addr then fail c "bind: missing address"
  else
    s ← inner c;
    match cs_phase s with
    | Idle | Closed =>
        set_inner c (mkNetConnState Bound addr "" None None (cs_pending_accepts s))
    | Bound =>
        if decide (cs_local s = addr) then set_inner c (set_last_error None s)
        else fail c ("bind: invalid transition from " +:+ phase_name (cs_phase s) +:+ " to "
                       +:+ addr)
    | phase => fail c (invalid_transition_message "bind" phase)
    end.

(** The first critical section of [announce]: the address it will listen on. *)
Definition announce_claim (c : NetConn) (addr : string) : M NetWorld string :=
  s ← inner c;
  match cs_phase s with
  | Idle | Closed => set_inner c (set_local addr s) ;; mret addr
  | Bound =>
      if decide (cs_local s = addr) then mret (cs_local s)
      else fail c ("announce: bound address mismatch: expected " +:+ cs_local s +:+ ", got "
                     +:+ addr)
  | phase => fail c (invalid_transition_message "announce" phase)
  end.

(** The last: the connection listens. *)
Definition announce_done (c : NetConn) : M NetWorld unit :=
  update_inner c (λ s,
    mkNetConnState Listening (cs_local s) "" None None (cs_pending_accepts s)).

Definition announce (c : NetConn) (addr : string) : M NetWorld unit :=
  let addr := trim addr in
  if is_empty_str addr then fail c "announce: missing address"
  else
    listener_addr ← announce_claim c addr;
    NetDevice.register_listener listener_addr (cn_id c) ;;
    announce_done c.

(** The critical section of [dial] over the connection that dials: its local address. *)
Definition dial_connect (c : NetConn) (addr : string) (dialer : NetEndpoint)
    : M NetWorld string :=
  s ← inner c;
  match cs_phase s with
  | Idle | Bound | Closed =>
      local ← (if is_empty_str (cs_local s) then NetDevice.next_auto_local
               else mret (cs_local s));
      set_inner c
        (mkNetConnState Connected local addr None (Some dialer) (cs_pending_accepts s)) ;;
      mret local
  | phase => fail c (invalid_transition_message "dial" phase)
  end.

Definition enqueue_accept (c : NetConn) (pending : PendingAccept) : M NetWorld unit :=
  s ← inner c;
  guard_err (negb (bool_decide (cs_phase s = Listening)))
    (EMessage "listen: listener is not active") ;;
  set_inner c (set_pending (cs_pending_accepts s ++ [pending]) s).

Definition dial (c : NetConn) (addr : string) : M NetWorld unit :=
  let addr := trim addr in
  if is_empty_str addr then fail c "dial: missing address"
  else
    found ← NetDevice.listener addr;
    listener ← ok_or found (EMessage ("dial: no listener for " +:+ addr));
    '(dialer, acceptor) ← Endpoint.pair;
    local ← dial_connect c addr dialer;
    enqueue_accept listener (mkPendingAccept local acceptor).

(** The critical section of [accept_one]: the first dialer that waits. *)
Definition accept_pop (c : NetConn) : M NetWorld (option (string * PendingAccept)) :=
  s ← inner c;
  if decide (cs_phase s = Listening) then
    match cs_pending_accepts s with
    | [] => mret None
    | pending :: rest =>
        set_inner c (set_pending rest s) ;;
        mret (Some (cs_local s, pending))
    end
  else fail c (invalid_transition_message "listen" (cs_phase s)).

Definition accept_one (c : NetConn) : M NetWorld (option string) :=
  accepted ← accept_pop c;
  match accepted with
  | None => mret None
  | Some (local, pending) =>
      id ← alloc_connected local (pa_remote pending) (pa_endpoint pending);
      mret (Some id)
  end.

Definition close_endpoint (e : option NetEndpoint) : M NetWorld unit :=
  match e with Some endpoint => Endpoint.close endpoint | None => mret tt end.

(** The critical section of [hangup] over the connection, which is closed: what it was. *)
Definition hangup_take (c : NetConn) : M NetWorld (NetPhase * string * option NetEndpoint) :=
  s ← inner c;
  match cs_phase s with
  | Connected | Listening =>
      set_inner c (mkNetConnState Closed (cs_local s) (cs_remote s) None None []) ;;
      mret (cs_phase s, cs_local s, cs_endpoint s)
  | phase => fail c (invalid_transition_message "hangup" phase)
  end.

Definition hangup (c : NetConn) : M NetWorld unit :=
  '(phase, local, endpoint) ← hangup_take c;
  (if bool_decide (phase = Listening) && negb (is_empty_str local) then
     NetDevice.unregister_listener local (cn_id c)
   else mret tt) ;;
  close_endpoint endpoint.

Definition reset_take (c : NetConn) : M NetWorld (string * option NetEndpoint) :=
  s ← inner c;
  set_inner c conn_new ;;
  mret (cs_local s, cs_endpoint s).

Definition reset (c : NetConn) : M NetWorld unit :=
  '(local, endpoint) ← reset_take c;
  (if negb (is_empty_str local) then NetDevice.unregister_listener local (cn_id c)
   else mret tt) ;;
  close_endpoint endpoint.

(** The callback of ["ctl"]. *)
Definition ctl_command (c : NetConn) (cmd : string) : M NetWorld unit :=
  match split_whitespace_str cmd with
  | [] => mret tt
  | verb :: parts =>
      let rest := str_join " " parts in
      if decide (verb = "dial") then dial c rest
      else if decide (verb = "bind") then bind c rest
      else if decide (verb = "announce") then announce c rest
      else if decide (verb = "hangup") then hangup c
      else if decide (verb = "reset") then reset c
      else if decide (verb = "noop") then mret tt
      else throw (EMessage ("ctl: unsupported command " +:+ verb))
  end.

(** ** The handles *)

Record NetDataHandle := mkNetDataHandle { nh_conn : NetConn }.

Record NetListenHandle := mkNetListenHandle {
  nl_conn : NetConn;
  nl_data : option (list byte);
  nl_offset : Z
}.

(** The endpoint of a connected connection: [expect] panics on a missing one. *)
Definition data_endpoint (c : NetConn) : M NetWorld NetEndpoint :=
  s ← inner c;
  guard_err (negb (bool_decide (cs_phase s = Connected)))
    (EMessage ("data: unavailable while " +:+ phase_name (cs_phase s))) ;;
  match cs_endpoint s with Some e => mret e | None => panic end.

Definition data_read (c : NetConn) (len : Z) : M NetWorld (list byte) :=
  e ← data_endpoint c; Endpoint.read e len.

Definition data_write (c : NetConn) (data : list byte) : M NetWorld Z :=
  e ← data_endpoint c; Endpoint.write e data.

Definition data_stat : M (NetDataHandle * NetWorld) Metadata := mret (Meta.file "data" 438 0).

#[global] Instance data_handle : FileHandle NetWorld NetDataHandle :=
  read_write_handle (λ len, by_ref (λ h, data_read (nh_conn h) len))
    (λ data, by_ref (λ h, data_write (nh_conn h) data)) data_stat (mret tt).

Definition listen_read (len : Z) : M (NetListenHandle * NetWorld) (list byte) := λ '(h, w),
  let '(r, (data, offset, w)) :=
    read_filled (id ← accept_one (nl_conn h); mret (line_of <$> id)) (nl_data h) (nl_offset h)
      len w in
  (r, (mkNetListenHandle (nl_conn h) data offset, w)).

Definition listen_stat : M (NetListenHandle * NetWorld) Metadata :=
  mret (Meta.file "listen" 292 0).

#[global] Instance listen_handle : FileHandle NetWorld NetListenHandle :=
  read_only_handle listen_read listen_stat.

Record NewNetHandle := mkNewNetHandle { nn_data : option (list byte); nn_offset : Z }.

Definition new_read (len : Z) : M (NewNetHandle * NetWorld) (list byte) := λ '(h, w),
  let '(r, (data, offset, w)) :=
    read_filled (id ← NetDevice.alloc; mret (Some (line_of id))) (nn_data h) (nn_offset h)
      len w in
  (r, (mkNewNetHandle data offset, w)).

Definition new_stat : M (NewNetHandle * NetWorld) Metadata := mret (Meta.file "new-net" 365 0).

#[global] Instance new_net_handle : FileHandle NetWorld NewNetHandle :=
  read_only_handle new_read new_stat.

#[global] Instance text_in_net : FileHandle NetWorld SharedTextHandle :=
  zoom_handle nw_cells set_net_cells.

Abbreviation CtlFile := (Control.ControlHandle NetWorld + DirFile)%type.
Abbreviation File :=
  (SharedTextHandle + (NetDataHandle + (NetListenHandle + (NewNetHandle + CtlFile))))%type.
#[local] Instance net3 : FileHandle NetWorld (NewNetHandle + CtlFile) := sum_handle.
#[local] Instance net2 : FileHandle NetWorld (NetListenHandle + (NewNetHandle + CtlFile)) :=
  sum_handle.
#[local] Instance net1 : FileHandle NetWorld
  (NetDataHandle + (NetListenHandle + (NewNetHandle + CtlFile))) := sum_handle.
#[global] Instance net_file : FileHandle NetWorld File := sum_handle.
#[global] Instance net_box_dir : BoxDir File := λ d, inr (inr (inr (inr (inr d)))).

Definition box_data (h : NetDataHandle) : File := inr (inl h).
Definition box_listen (h : NetListenHandle) : File := inr (inr (inl h)).
Definition box_new (h : NewNetHandle) : File := inr (inr (inr (inl h))).
Definition box_ctl (h : CtlFile) : File := inr (inr (inr (inr h))).

(** ** The filesystems *)

(** [SharedTextFile::readonly(name, value).open(..)]: a file of its own for each [open]. *)
Definition text_open (name value : string) : M NetWorld File :=
  h ← in_cells (f ← Text.readonly name value; Text.open f Ctx.new ".");
  mret (inl h).

Definition text_entry (name value : string) : DirEntry :=
  mkDirEntry name (Meta.file name 292 (blen (bytes_of value) + 1)).

Definition ctl (c : NetConn) : Control.ControlFile NetWorld :=
  Control.mkControlFile "ctl" (ctl_command c).

Definition open_dir (c : NetConn) : M NetWorld File :=
  '(phase, _, _, _) ← snapshot c;
  st ← status c;
  l ← local c;
  r ← remote c;
  mret (directory_file (Meta.dir "." 365)
    ([text_entry "id" (cn_id c);
      mkDirEntry "ctl" (Meta.file "ctl" 146 0);
      mkDirEntry "data" (Meta.file "data" 438 0);
      text_entry "status" st;
      text_entry "local" l;
      text_entry "remote" r]
     ++ if decide (phase = Listening) then [mkDirEntry "listen" (Meta.file "listen" 292 0)]
        else [])).

Definition open_conn (c : NetConn) (ctx : FsContext) (name : string) : M NetWorld File :=
  if decide (name = ".") then open_dir c
  else if decide (name = "id") then text_open "id" (cn_id c)
  else if decide (name = "ctl") then
    h ← Control.open (ctl c) Ctx.new "."; mret (box_ctl h)
  else if decide (name = "data") then mret (box_data (mkNetDataHandle c))
  else if decide (name = "status") then st ← status c; text_open "status" st
  else if decide (name = "local") then l ← local c; text_open "local" l
  else if decide (name = "remote") then r ← remote c; text_open "remote" r
  else if decide (name = "listen") then
    '(phase, _, _, _) ← snapshot c;
    guard_err (negb (bool_decide (phase = Listening))) (EPath "open" name NotFound) ;;
    mret (box_listen (mkNetListenHandle c None 0))
  else throw (EPath "open" name NotFound).

Definition open (ctx : FsContext) (name : string) : M NetWorld File :=
  guard_err (negb (valid_path name)) (EPath "open" name NotFound) ;;
  let name := clean_path name in
  if decide (name = ".") then
    m ← gets nw_resources;
    mret (directory_file (Meta.dir "." 365) (new_entry :: dir_entries (bt_keys m)))
  else if decide (name = "new") then mret (box_new (mkNewNetHandle None 0))
  else
    let '(head, rest) := head_rest name in
    c ← NetDevice.lookup head;
    open_conn c ctx rest.

Definition fs : FileSystem NetWorld File :=
  default_fs open (Task.stat_by open) (λ _, unsupported) (λ _ _, unsupported).

Definition conn_fs (c : NetConn) : FileSystem NetWorld File :=
  default_fs (open_conn c) (Task.stat_by (open_conn c)) (λ _, unsupported) (λ _ _, unsupported).
End NetConns.
