(* ===== verification/NetProps.v ===== *)
(** * What the network device keeps and carries

    The invariant of the device between operations: connections and listeners agree, a
    connection has an endpoint exactly when it is connected, and each end of a link is held
    once.  From it, that two connections that are the ends of one link exchange their bytes
    in order.  Then calls that overlap ([advance], [net_step]), section by section, and what
    holds of the device however they interleave. *)

From stdpp Require Import base list numbers option strings pretty relations.
From Stdlib Require Import ZArith Lia Ascii.
From S2P Require Import Prelude Strs RcText BTree Core FsTrait FsLens Field Task DevFiles Devices NetDev.

Local Open Scope Z_scope.
Import NetConns.

(** ** The invariant *)

(** The id of the connection at [k]. *)
Definition conn_name (k : nat) : string := pretty (Z.of_nat k + 1).

(** The two ends of the link at [l]. *)
Definition dial_end (l : nat) : NetEndpoint := mkNetEndpoint (2 * l) (2 * l + 1) l.
Definition accept_end (l : nat) : NetEndpoint := mkNetEndpoint (2 * l + 1) (2 * l) l.

Definition valid_end (n : nat) (e : NetEndpoint) : Prop :=
  ∃ l, (l < n)%nat ∧ (e = dial_end l ∨ e = accept_end l).

(** The ends a connection holds: its own and those that wait to be accepted. *)
Definition ends (s : NetConnState) : list NetEndpoint :=
  option_list (cs_endpoint s) ++ (pa_endpoint <$> cs_pending_accepts s).

Definition listens (s : NetConnState) (addr : string) : Prop :=
  cs_phase s = Listening ∧ cs_local s = addr.

Record conn_ok (s : NetConnState) : Prop := {
  co_endpoint : cs_phase s = Connected ↔ is_Some (cs_endpoint s);
  co_pending : cs_pending_accepts s ≠ [] → cs_phase s = Listening;
  co_local : cs_phase s = Listening → cs_local s ≠ "";
  co_ends : NoDup (ends s)
}.

Definition listeners_agree (m : btree string string) (conns : list NetConnState) : Prop :=
  ∀ addr id, bt_get addr m = Some id ↔
    ∃ k s, conns !! k = Some s ∧ id = conn_name k ∧ listens s addr.

Record net_inv (w : NetWorld) : Prop := {
  ni_ids : nw_next_id w = Z.of_nat (length (nw_conns w));
  ni_resources id c : bt_get id (nw_resources w) = Some c ↔
    ∃ k, (k < length (nw_conns w))%nat ∧ id = conn_name k ∧ c = mkNetConn id k;
  ni_listeners : listeners_agree (nw_listeners w) (nw_conns w);
  ni_conns k s : nw_conns w !! k = Some s → conn_ok s;
  ni_queues : length (s_queues (nw_cells w)) = (2 * length (nw_links w))%nat;
  ni_ends k s e : nw_conns w !! k = Some s → e ∈ ends s → valid_end (length (nw_links w)) e;
  ni_unique k k' s s' e : nw_conns w !! k = Some s → nw_conns w !! k' = Some s' →
    e ∈ ends s → e ∈ ends s' → k = k'
}.

(** An end that nobody holds. *)
Definition loose (w : NetWorld) (e : NetEndpoint) : Prop :=
  valid_end (length (nw_links w)) e ∧ ∀ k s, nw_conns w !! k = Some s → e ∉ ends s.

#[global] Instance conn_name_inj : Inj (=) (=) conn_name.
Proof. unfold conn_name. intros a b H. apply pretty_Z_inj in H. lia. Qed.

Lemma dial_end_inj l l' : dial_end l = dial_end l' → l = l'.
Proof. intros [=]. lia. Qed.

Lemma accept_end_inj l l' : accept_end l = accept_end l' → l = l'.
Proof. intros [=]. lia. Qed.

Lemma dial_not_accept l l' : dial_end l ≠ accept_end l'.
Proof. intros [=]. lia. Qed.

(** ** What an operation leaves alone

    [gentle w w']: every connected connection keeps its end, the queues keep their bytes
    and the links their state; new ones are empty and open, and no connection goes. *)
Definition stays (k : nat) (w w' : NetWorld) : Prop :=
  ∀ s, nw_conns w !! k = Some s → cs_phase s = Connected →
  ∃ s', nw_conns w' !! k = Some s' ∧ cs_phase s' = Connected ∧ cs_endpoint s' = cs_endpoint s.

Record gentle (w w' : NetWorld) : Prop := {
  ge_conns : (length (nw_conns w) ≤ length (nw_conns w'))%nat;
  ge_stays k : stays k w w';
  ge_queues : ∃ n, s_queues (nw_cells w') = s_queues (nw_cells w) ++ replicate n [];
  ge_links : ∃ n, nw_links w' = nw_links w ++ replicate n false
}.

#[global] Instance gentle_preorder : PreOrder gentle.
Proof.
  split.
  - intros w. split; [done|..].
    + intros k s Hs Hp. eauto.
    + exists 0%nat. by rewrite app_nil_r.
    + exists 0%nat. by rewrite app_nil_r.
  - intros w1 w2 w3 [Hc1 Hs1 [n1 Hq1] [m1 Hl1]] [Hc2 Hs2 [n2 Hq2] [m2 Hl2]].
    split; [by etrans|..].
    + intros k s Hs Hp. destruct (Hs1 k s Hs Hp) as (s2 & H2 & Hp2 & He2).
      destruct (Hs2 k s2 H2 Hp2) as (s3 & H3 & Hp3 & He3).
      exists s3. split_and!; [done|done|congruence].
    + exists (n1 + n2)%nat. by rewrite Hq2, Hq1, <- app_assoc, replicate_add.
    + exists (m1 + m2)%nat. by rewrite Hl2, Hl1, <- app_assoc, replicate_add.
Qed.

(** ** Changing one connection *)

Lemma listeners_kept m conns k s s' :
  listeners_agree m conns → conns !! k = Some s → (∀ a, listens s' a ↔ listens s a) →
  listeners_agree m (<[k := s']> conns).
Proof.
  intros Hm Hk Hl addr id. etrans; [apply Hm|]. split; intros (k' & t & Ht & -> & Ha).
  - destruct (decide (k' = k)) as [->|Hne].
    + rewrite Hk in Ht. injection Ht as <-. exists k, s'.
      rewrite list_lookup_insert_eq by (by eapply lookup_lt_Some). by rewrite Hl.
    + exists k', t. by rewrite list_lookup_insert_ne by done.
  - destruct (decide (k' = k)) as [->|Hne].
    + rewrite list_lookup_insert_eq in Ht by (by eapply lookup_lt_Some).
      injection Ht as <-. exists k, s. by rewrite <- Hl.
    + rewrite list_lookup_insert_ne in Ht by done. eauto.
Qed.

Lemma inv_update w k s s' m :
  net_inv w → nw_conns w !! k = Some s → conn_ok s' →
  (∀ e, e ∈ ends s' → e ∈ ends s ∨ loose w e) →
  listeners_agree m (<[k := s']> (nw_conns w)) →
  net_inv (set_listeners m (set_conns (<[k := s']> (nw_conns w)) w)).
Proof.
  intros Hinv Hk Hok Hends Hm.
  pose proof (lookup_lt_Some _ _ _ Hk) as Hlt.
  split; cbn; rewrite ?length_insert; [apply Hinv|apply Hinv|done| |apply Hinv|..].
  - intros k' t Ht. apply list_lookup_insert_Some in Ht as [(_ & -> & _)|[_ Ht]]; [done|].
    by eapply ni_conns.
  - intros k' t e Ht He. apply list_lookup_insert_Some in Ht as [(_ & <- & _)|[_ Ht]].
    + destruct (Hends e He) as [He'|[Hv _]]; [by eapply ni_ends|done].
    + by eapply ni_ends.
  - intros k1 k2 t1 t2 e H1 H2 He1 He2.
    apply list_lookup_insert_Some in H1 as [(<- & <- & _)|[Hn1 H1]];
      apply list_lookup_insert_Some in H2 as [(<- & <- & _)|[Hn2 H2]]; [done| | |].
    + destruct (Hends e He1) as [He|[_ Hl]]; [by eapply (ni_unique w)|]. by destruct (Hl _ _ H2).
    + destruct (Hends e He2) as [He|[_ Hl]]; [by eapply (ni_unique w)|]. by destruct (Hl _ _ H1).
    + by eapply (ni_unique w).
Qed.

Lemma set_listeners_same w l : set_listeners (nw_listeners w) (set_conns l w) = set_conns l w.
Proof. done. Qed.

(** The connection listens where it did, and holds no new end. *)
Lemma inv_set w k s s' :
  net_inv w → nw_conns w !! k = Some s → conn_ok s' →
  (∀ e, e ∈ ends s' → e ∈ ends s ∨ loose w e) → (∀ a, listens s' a ↔ listens s a) →
  net_inv (set_conns (<[k := s']> (nw_conns w)) w).
Proof.
  intros Hinv Hk Hok Hends Hl. rewrite <- set_listeners_same. eapply inv_update; eauto.
  eapply listeners_kept; eauto using ni_listeners.
Qed.

Lemma gentle_set w k s s' m :
  nw_conns w !! k = Some s →
  (cs_phase s = Connected → cs_phase s' = Connected ∧ cs_endpoint s' = cs_endpoint s) →
  gentle w (set_listeners m (set_conns (<[k := s']> (nw_conns w)) w)).
Proof.
  intros Hk Hs. split; cbn; [by rewrite length_insert| |by exists 0%nat; rewrite app_nil_r..].
  intros k' t Ht Hp. cbn. destruct (decide (k' = k)) as [->|Hne].
  - rewrite Hk in Ht. injection Ht as <-. exists s'.
    rewrite list_lookup_insert_eq by (by eapply lookup_lt_Some). split; [done|]. by apply Hs.
  - exists t. by rewrite list_lookup_insert_ne by done.
Qed.

(** ** Operations that keep the invariant and are gentle

    A panic is one of a counter of ids or ports that is used up. *)
Definition exhausted (w : NetWorld) : Prop :=
  U32_MAX ≤ nw_next_id w ∨ U32_MAX ≤ 10000 + nw_next_port w.

Definition does {A} (m : M NetWorld A) (w : NetWorld) (Q : A → NetWorld → Prop) : Prop :=
  let '(r, w') := m w in
  net_inv w' ∧ gentle w w' ∧
  match r with
  | Ok a => Q a w'
  | Err _ => True
  | Panic => exhausted w'
  | NoFuel => False
  end.

#[local] Arguments does : simpl never.

Definition known (w : NetWorld) (c : NetConn) : Prop :=
  ∃ k, (k < length (nw_conns w))%nat ∧ c = mkNetConn (conn_name k) k.

Lemma known_gentle w w' c : known w c → gentle w w' → known w' c.
Proof. intros (k & Hk & ->) Hg. exists k. split; [|done]. destruct Hg. lia. Qed.

Lemma does_ret {A} (a : A) w (Q : A → NetWorld → Prop) : net_inv w → Q a w → does (mret a) w Q.
Proof. intros Hw HQ. split_and!; [done|done|done]. Qed.

Lemma does_throw {A} (e : Error) w (Q : A → NetWorld → Prop) : net_inv w → does (throw e) w Q.
Proof. intros Hw. split_and!; [done|done|done]. Qed.

Lemma does_bind {A B} (m : M NetWorld A) (f : A → M NetWorld B) w R Q :
  does m w R → (∀ a w1, net_inv w1 → gentle w w1 → R a w1 → does (f a) w1 Q) →
  does (m ≫= f) w Q.
Proof.
  intros Hm Hf. unfold does, mbind, eff_bind in *.
  destruct (m w) as [[a|e| |] w1]; [|done..]. destruct Hm as (Hi & Hg & HR).
  specialize (Hf a w1 Hi Hg HR). destruct (f a w1) as [r w2].
  destruct Hf as (Hi2 & Hg2 & HQ). split_and!; [done|by etrans|done].
Qed.

Lemma does_gets {A} (f : NetWorld → A) w : net_inv w → does (gets f) w (λ a w', a = f w' ∧ w' = w).
Proof. intros Hw. by split_and!. Qed.

Lemma does_ok_or {A} (o : option A) e w : net_inv w → does (ok_or o e) w (λ a w', o = Some a ∧ w' = w).
Proof. intros Hw. by destruct o; split_and!. Qed.

Lemma does_guard b e w : net_inv w → does (guard_err b e) w (λ _ w', b = false ∧ w' = w).
Proof. intros Hw. by destruct b; split_and!. Qed.

Lemma does_inner w c : net_inv w → known w c →
  does (inner c) w (λ s w', w' = w ∧ nw_conns w !! cn_inner c = Some s).
Proof.
  intros Hw (k & Hk & ->). unfold does, inner.
  destruct (lookup_lt_is_Some_2 _ _ Hk) as [s Hs]. cbn [cn_inner]. rewrite !Hs.
  by split_and!.
Qed.

(** Leaving a state that listens where the old one did. *)
Lemma does_set w c s s' (Q : unit → NetWorld → Prop) :
  net_inv w → nw_conns w !! cn_inner c = Some s → conn_ok s' →
  (∀ e, e ∈ ends s' → e ∈ ends s ∨ loose w e) → (∀ a, listens s' a ↔ listens s a) →
  (cs_phase s = Connected → cs_phase s' = Connected ∧ cs_endpoint s' = cs_endpoint s) →
  Q tt (set_conns (<[cn_inner c := s']> (nw_conns w)) w) →
  does (set_inner c s') w Q.
Proof.
  intros Hw Hk Hok He Hl Hs HQ. unfold does, set_inner. cbn.
  split_and!; [by eapply inv_set| |done].
  rewrite <- set_listeners_same. by eapply gentle_set.
Qed.

Lemma conn_ok_same s s' :
  conn_ok s → cs_phase s' = cs_phase s → cs_local s' = cs_local s →
  cs_endpoint s' = cs_endpoint s → cs_pending_accepts s' = cs_pending_accepts s → conn_ok s'.
Proof.
  intros [] Hp Hl He Ha. split; unfold ends in *; rewrite ?Hp, ?Hl, ?He, ?Ha; done.
Qed.

Lemma does_fail {A} w c msg (Q : A → NetWorld → Prop) :
  net_inv w → known w c → does (fail c msg) w Q.
Proof.
  intros Hw Hc. unfold fail, update_inner.
  eapply (does_bind _ _ _ (λ _ _, True)); [|intros ?????; by apply does_throw].
  eapply does_bind; [by apply does_inner|]. cbn. intros s w1 _ _ [-> Hs].
  eapply does_set; [done|done|..]; cbn; auto.
  eapply conn_ok_same; [by eapply ni_conns|done..].
Qed.

Lemma does_ext {A} (m m' : M NetWorld A) w Q : m w = m' w → does m' w Q → does m w Q.
Proof. unfold does. by intros ->. Qed.

(** ** A new link, a new connection *)

Definition pair_world (w : NetWorld) : NetWorld :=
  set_links (nw_links w ++ [false])
    (set_net_cells (set_queues (s_queues (nw_cells w) ++ [[]; []]) (nw_cells w)) w).

Lemma valid_end_mono n n' e : valid_end n e → (n ≤ n')%nat → valid_end n' e.
Proof. intros (l & Hl & He) Hn. exists l. split; [lia|done]. Qed.

Lemma pair_eq w : length (s_queues (nw_cells w)) = (2 * length (nw_links w))%nat →
  Endpoint.pair w =
    (Ok (dial_end (length (nw_links w)), accept_end (length (nw_links w))), pair_world w).
Proof.
  intros Hw. unfold Endpoint.pair, ByteQueue.new, in_cells, cell_new. unfold_eff.
  cbn. rewrite length_app, <- app_assoc. cbn. rewrite Hw.
  unfold dial_end, accept_end, pair_world. repeat f_equal.
Qed.

Lemma pair_spec w : net_inv w →
  Endpoint.pair w =
    (Ok (dial_end (length (nw_links w)), accept_end (length (nw_links w))), pair_world w).
Proof. intros Hw. by apply pair_eq, ni_queues. Qed.

Lemma pair_inv w : net_inv w → net_inv (pair_world w).
Proof.
  intros Hw. split; cbn; try apply Hw.
  - rewrite !length_app, (ni_queues w Hw). cbn. lia.
  - intros k s e Hs He. rewrite length_app. eapply valid_end_mono; [by eapply ni_ends|lia].
Qed.

Lemma pair_gentle w : gentle w (pair_world w).
Proof.
  split; cbn; [done|..]; [|by exists 2%nat|by exists 1%nat]. intros k s Hs Hp. eauto.
Qed.

Lemma pair_loose w e : net_inv w →
  e = dial_end (length (nw_links w)) ∨ e = accept_end (length (nw_links w)) →
  loose (pair_world w) e.
Proof.
  intros Hw He. split.
  - exists (length (nw_links w)). cbn. rewrite length_app. cbn. split; [lia|done].
  - intros k s Hs Hin. destruct (ni_ends w Hw k s e Hs Hin) as (l & Hl & He').
    destruct He as [-> | ->], He' as [He|He]; injection He as ???; lia.
Qed.

Definition alloc_world (w : NetWorld) : NetWorld :=
  let id := conn_name (length (nw_conns w)) in
  set_resources (bt_insert id (mkNetConn id (length (nw_conns w))) (nw_resources w))
    (set_conns (nw_conns w ++ [conn_new])
      (set_next_id (Z.of_nat (length (nw_conns w)) + 1) w)).

Lemma net_alloc_spec w : net_inv w →
  NetDevice.alloc w = (Ok (conn_name (length (nw_conns w))), alloc_world w) ∨
  NetDevice.alloc w = (Panic, w) ∧ exhausted w.
Proof.
  intros Hw. unfold NetDevice.alloc, NetDevice.alloc_new, NetDevice.alloc_insert, next_u32. unfold_eff. cbn. rewrite (ni_ids w Hw).
  destruct (Z.of_nat _ =? U32_MAX) eqn:Hz; [right|by left].
  split; [done|]. left. rewrite (ni_ids w Hw). apply Z.eqb_eq in Hz. lia.
Qed.

Lemma conn_new_ok : conn_ok conn_new.
Proof.
  split; cbn; [|done..|]; [|constructor]. split; [done|]. by intros [].
Qed.

Lemma lookup_snoc_new {A} (l : list A) x k y :
  (l ++ [x]) !! k = Some y ↔ l !! k = Some y ∨ k = length l ∧ y = x.
Proof.
  rewrite lookup_app_Some. split.
  - intros [H|[Hk H]]; [by left|]. right.
    apply list_lookup_singleton_Some in H as [H ->]. split; [lia|done].
  - intros [H|[-> ->]]; [by left|]. right. by rewrite Nat.sub_diag.
Qed.

Lemma alloc_inv w : net_inv w → net_inv (alloc_world w).
Proof.
  intros Hw. split; cbn.
  - rewrite length_app. cbn. lia.
  - intros id c. rewrite bt_get_insert, length_app. cbn. case_decide as Hd.
    + split; [intros [= <-]; exists (length (nw_conns w)); split_and!; [lia|done|by rewrite Hd]|].
      intros (k & Hk & -> & ->). apply (inj conn_name) in Hd as ->. done.
    + etrans; [apply (ni_resources w Hw)|]. split; intros (k & Hk & -> & ->).
      * exists k. split_and!; [lia|done..].
      * exists k. split_and!; [|done..].
        destruct (decide (k = length (nw_conns w))) as [->|]; [done|lia].
  - intros addr id. etrans; [apply (ni_listeners w Hw)|]. split; intros (k & s & Hs & -> & Ha).
    + exists k, s. rewrite lookup_snoc_new. auto.
    + rewrite lookup_snoc_new in Hs. destruct Hs as [Hs|[_ ->]]; [eauto|]. by destruct Ha.
  - intros k s. rewrite lookup_snoc_new. intros [Hs|[_ ->]]; [by eapply ni_conns|].
    apply conn_new_ok.
  - apply Hw.
  - intros k s e. rewrite lookup_snoc_new. intros [Hs|[_ ->]] He; [by eapply ni_ends|].
    by apply elem_of_nil in He.
  - intros k k' s s' e. rewrite !lookup_snoc_new.
    intros [Hs|[-> ->]] [Hs'|[-> ->]] He He'; [by eapply (ni_unique w)| | |done];
      [by apply elem_of_nil in He'|by apply elem_of_nil in He].
Qed.

Lemma alloc_gentle w : gentle w (alloc_world w).
Proof.
  split; cbn; [rewrite length_app; lia| |by exists 0%nat; rewrite app_nil_r..].
  intros k s Hs Hp. exists s. cbn. rewrite lookup_snoc_new. auto.
Qed.

(** ** The operations of a connection *)

Lemma does_if {A} (b : bool) (m1 m2 : M NetWorld A) w Q :
  (b = true → does m1 w Q) → (b = false → does m2 w Q) → does (if b then m1 else m2) w Q.
Proof. destruct b; auto. Qed.

Lemma does_mono {A} (m : M NetWorld A) w (Q R : A → NetWorld → Prop) :
  does m w Q → (∀ a w', net_inv w' → gentle w w' → Q a w' → R a w') → does m w R.
Proof.
  unfold does. destruct (m w) as [[a|e| |] w']; [|done..]. intros (Hi & Hg & HQ) HR. auto.
Qed.

Lemma is_empty_ne s : is_empty_str s = false → s ≠ "".
Proof. intros H ->. done. Qed.

(** What is known of a connection that may change its phase. *)
Lemma conn_ok_at_rest s : conn_ok s → cs_phase s ≠ Connected → cs_phase s ≠ Listening →
  cs_endpoint s = None ∧ cs_pending_accepts s = [].
Proof.
  intros [He Hp _ _] Hc Hl. split.
  - destruct (cs_endpoint s) eqn:E; [|done]. destruct Hc. apply He. eauto.
  - destruct (cs_pending_accepts s) eqn:E; [done|]. destruct Hl. by apply Hp.
Qed.

Lemma conn_ok_rest p a r e : p ≠ Connected → p ≠ Listening → conn_ok (mkNetConnState p a r e None []).
Proof. intros H1 H2. split; cbn; [|done..|constructor]. split; [done|by intros []]. Qed.

Lemma conn_ok_listening a r e l : a ≠ "" → NoDup (pa_endpoint <$> l) →
  conn_ok (mkNetConnState Listening a r e None l).
Proof. intros Ha Hl. split; cbn; [|done..]. split; [done|by intros []]. Qed.

Lemma conn_ok_connected a r e d : conn_ok (mkNetConnState Connected a r e (Some d) []).
Proof. split; cbn; [by split; eauto|done..|apply NoDup_singleton]. Qed.

Lemma not_listening s s' : cs_phase s ≠ Listening → cs_phase s' ≠ Listening →
  ∀ a, listens s' a ↔ listens s a.
Proof. intros H1 H2 a. by split; intros [? _]. Qed.

Lemma bind_does w c addr : net_inv w → known w c → does (bind c addr) w (λ _ _, True).
Proof.
  intros Hw Hc. unfold bind. apply does_if; intros _; [by apply does_fail|].
  eapply does_bind; [by apply does_inner|]. intros s w1 _ _ [-> Hs].
  pose proof (ni_conns w Hw _ _ Hs) as Hok.
  destruct (cs_phase s) eqn:Hp; [| |by apply does_fail..|].
  2: { case_decide; [|by apply does_fail].
       eapply does_set; [done|done|eapply conn_ok_same; [exact Hok|done..]|..]; cbn; auto. }
  all: destruct (conn_ok_at_rest s Hok) as [He Ha]; [congruence..|]; rewrite Ha;
    (eapply does_set; [done|done|by apply conn_ok_rest| |apply not_listening; cbn; congruence
                      |congruence|done]); cbn; intros e H; by apply elem_of_nil in H.
Qed.

(** An address is claimed: the connection is at rest and [addr] its address. *)
Lemma announce_claim_does w c addr : net_inv w → known w c →
  does (announce_claim c addr) w (λ a w', a = addr ∧ ∃ s, nw_conns w' !! cn_inner c = Some s ∧
    cs_phase s ≠ Connected ∧ cs_phase s ≠ Listening ∧ cs_local s = addr).
Proof.
  intros Hw Hc. unfold announce_claim.
  eapply does_bind; [by apply does_inner|]. intros s w1 _ _ [-> Hs].
  pose proof (ni_conns w Hw _ _ Hs) as Hok.
  destruct (cs_phase s) eqn:Hp; [| |by apply does_fail..|].
  2: { case_decide; [|by apply does_fail]. apply does_ret; [done|]. split; [done|].
       exists s. rewrite Hp. done. }
  all: destruct (conn_ok_at_rest s Hok) as [He Ha]; [congruence..|];
    (eapply (does_bind _ _ _ (λ _ w', ∃ s, nw_conns w' !! cn_inner c = Some s ∧
      cs_phase s ≠ Connected ∧ cs_phase s ≠ Listening ∧ cs_local s = addr));
      [|intros ? w2 H2 _ H; by apply does_ret]);
    (eapply does_set; [done|done|..]; cbn; [|by auto|apply not_listening; cbn; congruence|congruence|]).
  1,3: destruct s; cbn in *; subst; by apply conn_ok_rest.
  all: eexists; rewrite list_lookup_insert_eq by (by eapply lookup_lt_Some); split; [done|cbn; rewrite Hp; done].
Qed.

(** The rest of [announce], where the listener is registered and the phase set. *)
Lemma announce_rest_does w k addr s : net_inv w →
  nw_conns w !! k = Some s → cs_phase s ≠ Connected → cs_phase s ≠ Listening →
  cs_local s = addr → addr ≠ "" →
  let c := mkNetConn (conn_name k) k in
  does (NetDevice.register_listener addr (cn_id c) ;; announce_done c) w
    (λ _ w', bt_get addr (nw_listeners w') = Some (conn_name k)).
Proof.
  intros Hw Hk Hp1 Hp2 Ha Hne c.
  pose proof (ni_conns w Hw _ _ Hk) as Hok.
  destruct (conn_ok_at_rest s Hok) as [He Hpe]; [done..|].
  unfold does, NetDevice.register_listener, announce_done, update_inner, inner, set_inner.
  unfold_eff. cbn. unfold bt_mem. destruct (bt_get addr (nw_listeners w)) eqn:Hget.
  { by split_and!. }
  cbn. rewrite Hk, Hpe.
  match goal with |- context [<[k := ?x]> _] => set (s' := x) end.
  split_and!.
  - eapply (inv_update w k s s' (bt_insert addr (conn_name k) (nw_listeners w))); [done|done|by apply conn_ok_listening; [congruence|constructor]| |].
    + intros e Hin. by apply elem_of_nil in Hin.
    + intros a id. rewrite bt_get_insert. split.
      * case_decide as Hd.
        -- intros [= <-]. exists k, s'. rewrite list_lookup_insert_eq by (by eapply lookup_lt_Some).
           split_and!; [done|done|]. split; [done|]. cbn. congruence.
        -- intros H. apply (ni_listeners w Hw) in H as (k' & t & Ht & -> & Hl).
           exists k', t. rewrite list_lookup_insert_ne; [done|]. intros ->.
           rewrite Hk in Ht. injection Ht as <-. by destruct Hl.
      * intros (k' & t & Ht & -> & Hl). destruct (decide (k' = k)) as [->|Hkk].
        -- rewrite list_lookup_insert_eq in Ht by (by eapply lookup_lt_Some).
           injection Ht as <-. destruct Hl as [_ Hl]. cbn in Hl. rewrite decide_True by congruence. done.
        -- rewrite list_lookup_insert_ne in Ht by done. case_decide as Hd.
           ++ subst a. assert (bt_get addr (nw_listeners w) = Some (conn_name k')) as H
                by (apply (ni_listeners w Hw); eauto). congruence.
           ++ apply (ni_listeners w Hw). eauto.
  - eapply (gentle_set w k s s' (bt_insert addr (conn_name k) (nw_listeners w))); [done|congruence].
  - apply bt_get_insert_eq.
Qed.

Lemma announce_does w c addr : net_inv w → known w c →
  does (announce c addr) w (λ _ w', bt_get (trim addr) (nw_listeners w') = Some (cn_id c)).
Proof.
  intros Hw Hc. unfold announce. apply does_if; intros Hne; [by apply does_fail|].
  eapply does_bind; [by apply announce_claim_does|].
  intros a w1 Hw1 Hg [-> (s & Hs & Hp1 & Hp2 & Hl)].
  destruct Hc as (k & Hk & ->). eapply announce_rest_does; eauto using is_empty_ne.
Qed.

(** ** Dialing *)

(** The listener at an address is a connection that listens there. *)
Lemma listener_does w addr : net_inv w →
  does (NetDevice.listener addr) w (λ found w', w' = w ∧
    ∀ c, found = Some c → ∃ k s, (k < length (nw_conns w))%nat ∧ c = mkNetConn (conn_name k) k ∧
      nw_conns w !! k = Some s ∧ listens s addr).
Proof.
  intros Hw. unfold does, NetDevice.listener, NetDevice.listener_id, NetDevice.lookup_ok.
  unfold_eff. cbn.
  destruct (bt_get addr (nw_listeners w)) as [id|] eqn:Hg; cbn; split_and!; try done.
  intros c Hc. apply (ni_listeners w Hw) in Hg as (k & s & Hs & -> & Hl).
  apply (ni_resources w Hw) in Hc as (k' & Hk' & Heq & ->). apply (inj conn_name) in Heq as <-.
  exists k, s. split_and!; done || by destruct Hl.
Qed.

Lemma next_auto_local_does w : net_inv w →
  does NetDevice.next_auto_local w (λ a w', w' = set_next_port (nw_next_port w + 1) w).
Proof.
  intros Hw. unfold does, NetDevice.next_auto_local, next_u32. unfold_eff. cbn.
  destruct (nw_next_port w =? U32_MAX) eqn:Hz; cbn.
  { split_and!; [done|done|]. right. apply Z.eqb_eq in Hz. rewrite Hz. unfold U32_MAX. lia. }
  assert (net_inv (set_next_port (nw_next_port w + 1) w)) as Hi by (destruct Hw; by split).
  assert (gentle w (set_next_port (nw_next_port w + 1) w)) as Hg.
  { split; cbn; [done| |by exists 0%nat; rewrite app_nil_r..]. intros k s Hs Hp. eauto. }
  destruct (U32_MAX <? 10000 + (nw_next_port w + 1)) eqn:Hm; cbn; split_and!; try done.
  right. cbn. apply Z.ltb_lt in Hm. lia.
Qed.

Lemma loose_set_next_port w n e : loose w e → loose (set_next_port n w) e.
Proof. done. Qed.

(** The state of a connection that has dialed. *)
Definition dialed (w : NetWorld) (k : nat) (local addr : string) (l : nat) : Prop :=
  nw_conns w !! k = Some (mkNetConnState Connected local addr None (Some (dial_end l)) []).

Lemma dial_connect_does w c addr l : net_inv w → known w c → loose w (dial_end l) →
  does (dial_connect c addr (dial_end l)) w (λ local w',
    dialed w' (cn_inner c) local addr l ∧
    (∃ s, nw_conns w !! cn_inner c = Some s ∧ cs_phase s ≠ Connected ∧ cs_phase s ≠ Listening) ∧
    (∀ k, k ≠ cn_inner c → nw_conns w' !! k = nw_conns w !! k) ∧
    nw_links w' = nw_links w ∧ nw_cells w' = nw_cells w ∧ nw_listeners w' = nw_listeners w).
Proof.
  intros Hw Hc Hl. unfold dial_connect.
  eapply does_bind; [by apply does_inner|]. intros s w1 _ _ [-> Hs].
  pose proof (ni_conns w Hw _ _ Hs) as Hok.
  destruct (cs_phase s) eqn:Hp; [| |by apply does_fail..|].
  all: destruct (conn_ok_at_rest s Hok) as [He Ha]; [congruence..|]; rewrite Ha.
  all: (eapply (does_bind _ _ _ (λ _ w', nw_conns w' = nw_conns w ∧ nw_links w' = nw_links w ∧
    nw_cells w' = nw_cells w ∧ nw_listeners w' = nw_listeners w ∧ loose w' (dial_end l)));
    [apply does_if; intros _; [|by apply does_ret];
     eapply does_mono; [by apply next_auto_local_does|]; by intros ????->|]).
  all: intros local w1 Hw1 _ (Hcs & Hls & Hce & Hli & Hlo).
  all: (eapply (does_bind _ _ _ (λ _ w2, w2 = set_conns (<[cn_inner c :=
      mkNetConnState Connected local addr None (Some (dial_end l)) []]> (nw_conns w1)) w1));
    [eapply does_set; [done|by rewrite Hcs|by apply conn_ok_connected| |apply not_listening; cbn; congruence
                      |congruence|done];
     cbn; intros e H; apply list_elem_of_singleton in H as ->; by right|]).
  all: intros ? w2 Hw2 _ ->; apply does_ret; [done|]; unfold dialed; cbn; rewrite Hcs.
  all: split_and!; [rewrite list_lookup_insert_eq by (by eapply lookup_lt_Some); done
                   |exists s; rewrite Hp; done|intros k Hk; by rewrite list_lookup_insert_ne|done..].
Qed.

Lemma enqueue_does w k s p : net_inv w → nw_conns w !! k = Some s → cs_phase s = Listening →
  loose w (pa_endpoint p) →
  does (enqueue_accept (mkNetConn (conn_name k) k) p) w (λ _ w',
    w' = set_conns (<[k := set_pending (cs_pending_accepts s ++ [p]) s]> (nw_conns w)) w).
Proof.
  intros Hw Hs Hp Hl. pose proof (ni_conns w Hw _ _ Hs) as Hok. unfold enqueue_accept.
  eapply does_bind; [apply does_inner; [done|]; exists k; split; [by eapply lookup_lt_Some|done]|].
  cbn. intros ? w1 _ _ [-> Hs']. rewrite Hs in Hs'. injection Hs' as <-.
  rewrite Hp, bool_decide_true by done. cbn [negb guard_err].
  assert (He : cs_endpoint s = None).
  { destruct (cs_endpoint s) eqn:E; [|done]. destruct Hok as [[_ H] _ _ _].
    rewrite H in Hp; [done|]. rewrite E. eauto. }
  eapply (does_bind _ _ _ (λ _ w', w' = w)); [by apply does_ret|]. intros _ w1 _ _ ->.
  eapply (does_set w (mkNetConn (conn_name k) k)); [done|exact Hs| | |done|cbn; congruence|done].
  - destruct Hok as [He1 He2 He3 He4]. unfold ends in He4.
    destruct s as [ph lo re er en pe]; cbn in *. subst.
    apply conn_ok_listening; [by apply He3|]. rewrite fmap_app. apply NoDup_app. split; [done|].
    split; [|apply NoDup_singleton]. intros e H1 H2. apply list_elem_of_singleton in H2 as ->.
    destruct Hl as [_ Hl]. by apply (Hl _ _ Hs).
  - intros e. unfold ends. cbn. rewrite He. cbn. rewrite fmap_app, elem_of_app. cbn.
    intros [H|H]; [by left|]. apply list_elem_of_singleton in H as ->. by right.
Qed.

(** After a dial: the two connections, and the link between them. *)
Definition dial_post (c : NetConn) (addr : string) (w w' : NetWorld) : Prop :=
  ∃ kl sl local,
    let l := length (nw_links w) in
    nw_conns w !! kl = Some sl ∧ listens sl addr ∧ kl ≠ cn_inner c ∧
    dialed w' (cn_inner c) local addr l ∧
    nw_conns w' !! kl =
      Some (set_pending (cs_pending_accepts sl ++ [mkPendingAccept local (accept_end l)]) sl) ∧
    nw_links w' = nw_links w ++ [false] ∧
    s_queues (nw_cells w') = s_queues (nw_cells w) ++ [[]; []].

Lemma does_eq {A} (m : M NetWorld A) w a w' : m w = (Ok a, w') → net_inv w' → gentle w w' →
  does m w (λ b w1, b = a ∧ w1 = w').
Proof. intros Hm Hi Hg. unfold does. rewrite Hm. done. Qed.

Lemma pair_does w : net_inv w → does Endpoint.pair w (λ p w',
  p = (dial_end (length (nw_links w)), accept_end (length (nw_links w))) ∧ w' = pair_world w).
Proof. intros Hw. eapply does_eq; eauto using pair_spec, pair_inv, pair_gentle. Qed.

Lemma dial_does w c addr : net_inv w → known w c →
  does (dial c addr) w (λ _ w', dial_post c (trim addr) w w').
Proof.
  intros Hw Hc. unfold dial. apply does_if; intros _; [by apply does_fail|].
  eapply does_bind; [by apply listener_does|]. intros found w1 _ _ [-> Hf].
  eapply does_bind; [by apply does_ok_or|]. intros ln w1 _ _ [-> ->].
  destruct (Hf ln eq_refl) as (kl & sl & Hkl & -> & Hsl & Hls).
  eapply does_bind; [by apply pair_does|]. intros ? w1 Hw1 Hg1 [-> ->].
  eapply does_bind.
  { apply dial_connect_does; [done|by eapply known_gentle|]. apply pair_loose; auto. }
  cbn. intros local w2 Hw2 _ (Hd & (s & Hs & Hp1 & Hp2) & Hframe & Hlinks & Hcells & _).
  assert (kl ≠ cn_inner c) as Hne.
  { intros ->. rewrite Hsl in Hs. injection Hs as <-. by destruct Hls. }
  assert (nw_conns w2 !! kl = Some sl) as Hsl2 by (by rewrite Hframe).
  eapply does_mono.
  { eapply enqueue_does; [done|exact Hsl2|by destruct Hls|]. cbn.
    split; [rewrite Hlinks; by eapply (pair_loose w); auto|].
    intros k t Ht He. destruct (decide (k = cn_inner c)) as [->|Hk].
    - rewrite Hd in Ht. injection Ht as <-. apply list_elem_of_singleton in He.
      by destruct (dial_not_accept (length (nw_links w)) (length (nw_links w))).
    - rewrite Hframe in Ht by done.
      destruct (pair_loose w (accept_end (length (nw_links w))) Hw) as [_ Hl]; [by right|].
      by eapply Hl. }
  intros _ w3 _ _ ->. exists kl, sl, local. split_and!; cbn; try done.
  - unfold dialed. cbn. rewrite list_lookup_insert_ne by done. exact Hd.
  - rewrite list_lookup_insert_eq by (by eapply lookup_lt_Some). done.
  - by rewrite Hcells.
Qed.

(** ** Accepting *)

Definition accept_post (k : nat) (w : NetWorld) (r : option string) (w' : NetWorld) : Prop :=
  ∃ s, nw_conns w !! k = Some s ∧ cs_phase s = Listening ∧
  match cs_pending_accepts s, r with
  | [], None => w' = w
  | p :: rest, Some id =>
      let n := length (nw_conns w) in
      id = conn_name n ∧
      nw_conns w' = <[k := set_pending rest s]> (nw_conns w) ++
        [mkNetConnState Connected (cs_local s) (pa_remote p) None (Some (pa_endpoint p)) []] ∧
      nw_links w' = nw_links w ∧ nw_cells w' = nw_cells w
  | _, _ => False
  end.

(** Installing an end in a connection that was just made. *)
Lemma install_does w local remote e : net_inv w → loose w e →
  does (alloc_connected local remote e) w (λ id w', id = conn_name (length (nw_conns w)) ∧
    nw_conns w' = nw_conns w ++ [mkNetConnState Connected local remote None (Some e) []] ∧
    nw_links w' = nw_links w ∧ nw_cells w' = nw_cells w).
Proof.
  intros Hw Hl. unfold alloc_connected.
  destruct (net_alloc_spec w Hw) as [Ha|[Ha Hex]].
  2: { unfold does, mbind, eff_bind. rewrite Ha. by split_and!. }
  eapply does_bind; [eapply does_eq; eauto using alloc_inv, alloc_gentle|].
  intros ? w1 Hw1 _ [-> ->].
  set (n := length (nw_conns w)). set (c := mkNetConn (conn_name n) n).
  assert (Hat : attempt (NetDevice.lookup (conn_name n)) (alloc_world w) = (Ok (Ok c), alloc_world w)).
  { unfold attempt, NetDevice.lookup. unfold_eff. cbn. by rewrite bt_get_insert_eq. }
  eapply does_bind; [eapply does_eq; [exact Hat|done|done]|]. intros ? w1 _ _ [-> ->]. cbn.
  assert (Hc : nw_conns (alloc_world w) !! n = Some conn_new)
    by (cbn; apply lookup_snoc_new; auto).
  eapply (does_bind _ _ _ (λ _ w', w' = set_conns (<[n := mkNetConnState Connected local remote None
    (Some e) []]> (nw_conns (alloc_world w))) (alloc_world w))).
  - unfold install_accepted, update_inner.
    eapply does_bind; [apply does_inner; [done|]; exists n; split; [by eapply lookup_lt_Some|done]|].
    cbn [cn_inner c]. intros s w1 _ _ [-> Hs]. rewrite Hc in Hs. injection Hs as <-.
    eapply (does_set _ c); [done|exact Hc|apply conn_ok_connected| |by apply not_listening|done|done].
    cbn. intros e' H. apply list_elem_of_singleton in H as ->. right.
    destruct Hl as [Hv Hl]. split; [done|]. cbn. intros k t. rewrite lookup_snoc_new.
    intros [Ht|[_ ->]]; [by eapply Hl|]. apply not_elem_of_nil.
  - intros _ w1 Hw2 _ ->. apply does_ret; [done|]. split_and!; try done. cbn.
    by rewrite insert_app_r_alt, Nat.sub_diag by (subst n; lia).
Qed.

(** [accept_one] in one piece. *)
Lemma accept_one_eq c w : accept_one c w =
  (s ← inner c;
   if decide (cs_phase s = Listening) then
     match cs_pending_accepts s with
     | [] => mret None
     | pending :: rest =>
         set_inner c (set_pending rest s) ;;
         id ← alloc_connected (cs_local s) (pa_remote pending) (pa_endpoint pending);
         mret (Some id)
     end
   else fail c (invalid_transition_message "listen" (cs_phase s))) w.
Proof.
  unfold accept_one, accept_pop, inner. unfold mbind, eff_bind. cbn beta.
  destruct (nw_conns w !! cn_inner c) as [s|]; [|done].
  case_decide; [by destruct (cs_pending_accepts s)|].
  unfold fail, update_inner, inner. unfold mbind, eff_bind. cbn beta.
  by destruct (nw_conns w !! cn_inner c).
Qed.

Lemma accept_does w k : net_inv w → (k < length (nw_conns w))%nat →
  does (accept_one (mkNetConn (conn_name k) k)) w (λ r w', accept_post k w r w').
Proof.
  intros Hw Hk. eapply does_ext; [apply accept_one_eq|].
  assert (known w (mkNetConn (conn_name k) k)) as Hc by (by exists k).
  eapply does_bind; [by apply does_inner|]. cbn [cn_inner]. intros s w1 _ _ [-> Hs].
  pose proof (ni_conns w Hw _ _ Hs) as Hok.
  case_decide as Hp; [|by apply does_fail].
  destruct (cs_pending_accepts s) as [|p rest] eqn:Hpe.
  { apply does_ret; [done|]. exists s. by rewrite Hpe. }
  assert (He : cs_endpoint s = None).
  { destruct (cs_endpoint s) eqn:E; [|done]. destruct Hok as [[_ H] _ _ _].
    rewrite H in Hp; [done|]. rewrite E. eauto. }
  assert (Hnd : NoDup (pa_endpoint p :: (pa_endpoint <$> rest))).
  { destruct Hok as [_ _ _ H]. unfold ends in H. by rewrite He, Hpe in H. }
  apply NoDup_cons in Hnd as [Hnin Hnd].
  set (s' := set_pending rest s).
  eapply (does_bind _ _ _ (λ _ w', w' = set_conns (<[k := s']> (nw_conns w)) w)).
  { eapply (does_set w (mkNetConn (conn_name k) k)); [done|exact Hs| | |done|cbn; congruence|done].
    - destruct Hok as [_ _ Hlo _]. specialize (Hlo Hp). destruct s as [ph lo re er en pe]; cbn in *.
      subst. by apply conn_ok_listening.
    - intros e. unfold ends. cbn. rewrite He, Hpe. cbn. intros H. left. by right. }
  intros _ w1 Hw1 _ ->.
  eapply does_bind.
  { apply install_does; [done|]. split; cbn.
    - eapply (ni_ends w Hw _ _ _ Hs). unfold ends. rewrite He, Hpe. by left.
    - intros k' t Ht He'. apply list_lookup_insert_Some in Ht as [(<- & <- & _)|[Hne Ht]].
      + unfold ends in He'. cbn in He'. by rewrite He in He'.
      + destruct Hne. eapply (ni_unique w Hw _ _ _ _ (pa_endpoint p) Hs Ht); [|done].
        unfold ends. rewrite He, Hpe. by left. }
  cbn. intros id w2 Hw2 _ (-> & Hcs & Hlk & Hce). apply does_ret; [done|].
  exists s. rewrite Hpe, length_insert in *. by split_and!.
Qed.

(** ** Hanging up *)

(** The listeners without the connection at [k], whose state was [s]. *)
Definition unlisten (m : btree string string) (k : nat) (s : NetConnState) : btree string string :=
  if bool_decide (bt_get (cs_local s) m = Some (conn_name k)) then bt_remove (cs_local s) m else m.

Lemma unlisten_agree m conns k s s' :
  listeners_agree m conns → conns !! k = Some s → cs_phase s' ≠ Listening →
  listeners_agree (unlisten m k s) (<[k := s']> conns).
Proof.
  intros Hm Hk Hs' addr id.
  assert (∀ P : Prop, (P ↔ ∃ k' t, k' ≠ k ∧ conns !! k' = Some t ∧ id = conn_name k' ∧ listens t addr) →
    (P ↔ ∃ k' t, <[k := s']> conns !! k' = Some t ∧ id = conn_name k' ∧ listens t addr)) as Hiff.
  { intros P ->. split.
    - intros (k' & t & Hne & Ht & H). exists k', t. by rewrite list_lookup_insert_ne.
    - intros (k' & t & Ht & -> & Hl). destruct (decide (k' = k)) as [->|Hne].
      + rewrite list_lookup_insert_eq in Ht by (by eapply lookup_lt_Some).
        injection Ht as <-. by destruct Hl.
      + rewrite list_lookup_insert_ne in Ht by done. eauto 6. }
  apply Hiff. clear Hiff. unfold unlisten. case_bool_decide as Hd.
  - rewrite bt_get_remove. case_decide as Ha.
    + split; [done|]. intros (k' & t & Hne & Ht & -> & Hl). subst addr.
      assert (bt_get (cs_local s) m = Some (conn_name k')) as H by (apply Hm; eauto).
      rewrite Hd in H. injection H as H. by apply (inj conn_name) in H.
    + etrans; [apply Hm|]. split; intros (k' & t & H); [|destruct H as [_ H]; eauto].
      exists k', t. destruct H as (Ht & -> & Hl). split_and!; [|done..]. intros ->.
      rewrite Hk in Ht. injection Ht as <-. by destruct Hl.
  - etrans; [apply Hm|]. split; intros (k' & t & H); [|destruct H as [_ H]; eauto].
    exists k', t. destruct H as (Ht & -> & Hl). split_and!; [|done..]. intros ->.
    rewrite Hk in Ht. injection Ht as <-. destruct Hd. apply Hm. destruct Hl as [Hl1 Hl2].
    exists k, s. split_and!; try done.
Qed.

Lemma unlisten_same w k s : net_inv w → nw_conns w !! k = Some s →
  cs_phase s ≠ Listening ∨ cs_local s = "" → unlisten (nw_listeners w) k s = nw_listeners w.
Proof.
  intros Hw Hk Hs. unfold unlisten. rewrite bool_decide_false; [done|]. intros H.
  apply (ni_listeners w Hw) in H as (k' & t & Ht & Hn & Hl). apply (inj conn_name) in Hn as <-.
  rewrite Hk in Ht. injection Ht as <-. destruct Hl as [Hl _].
  destruct Hs as [Hs|Hs]; [done|]. by destruct (co_local s (ni_conns w Hw _ _ Hk)).
Qed.

Definition closed_links (e : option NetEndpoint) (links : list bool) : list bool :=
  match e with Some e => <[ne_state e := true]> links | None => links end.

(** A connection that was in state [s] is left in [s'] and gives up its end. *)
Definition left_world (w : NetWorld) (k : nat) (s s' : NetConnState) : NetWorld :=
  set_links (closed_links (cs_endpoint s) (nw_links w))
    (set_listeners (unlisten (nw_listeners w) k s) (set_conns (<[k := s']> (nw_conns w)) w)).

Lemma left_inv w k s s' : net_inv w → nw_conns w !! k = Some s → conn_ok s' →
  cs_phase s' ≠ Listening → ends s' = [] → net_inv (left_world w k s s').
Proof.
  intros Hw Hk Hok Hp He.
  assert (Hi : net_inv (set_listeners (unlisten (nw_listeners w) k s)
    (set_conns (<[k := s']> (nw_conns w)) w))).
  { eapply inv_update; [done|done|done| |].
    - rewrite He. intros e H. by apply elem_of_nil in H.
    - apply unlisten_agree; [apply Hw|done|done]. }
  unfold left_world.
  assert (length (closed_links (cs_endpoint s) (nw_links w)) = length (nw_links w)) as Hl.
  { destruct (cs_endpoint s); [apply length_insert|done]. }
  destruct Hi. split; cbn in *; rewrite ?Hl; done.
Qed.

Lemma hangup_spec w k s : net_inv w → nw_conns w !! k = Some s →
  cs_phase s = Connected ∨ cs_phase s = Listening →
  hangup (mkNetConn (conn_name k) k) w =
    (Ok tt, left_world w k s (mkNetConnState Closed (cs_local s) (cs_remote s) None None [])).
Proof.
  intros Hw Hk Hp. unfold hangup, hangup_take, inner, set_inner, NetDevice.unregister_listener, left_world.
  unfold_eff. cbn. rewrite Hk. pose proof (unlisten_same w k s Hw Hk) as Hsame.
  assert (bool_decide (cs_phase s = Listening) && negb (is_empty_str (cs_local s)) = false →
    unlisten (nw_listeners w) k s = nw_listeners w) as Hcond.
  { intros H. apply Hsame. apply andb_false_iff in H as [H|H]; [left|right].
    - by apply bool_decide_eq_false in H.
    - apply negb_false_iff in H. by destruct (cs_local s). }
  unfold unlisten in *.
  destruct Hp as [Hp|Hp]; rewrite Hp in *; cbn;
    [rewrite Hcond by done; by destruct (cs_endpoint s)|].
  destruct (is_empty_str (cs_local s)); cbn; [rewrite Hcond by done; by destruct (cs_endpoint s)|].
  rewrite (bool_decide_true (Listening = Listening)) by done. cbn.
  clear. case_bool_decide; cbn; by destruct (cs_endpoint s).
Qed.

Lemma reset_spec w k s : net_inv w → nw_conns w !! k = Some s →
  reset (mkNetConn (conn_name k) k) w = (Ok tt, left_world w k s conn_new).
Proof.
  intros Hw Hk. unfold reset, reset_take, inner, set_inner, NetDevice.unregister_listener, left_world.
  unfold_eff. cbn. rewrite Hk. pose proof (unlisten_same w k s Hw Hk) as Hsame.
  unfold unlisten in *. destruct (is_empty_str (cs_local s)) eqn:He; cbn.
  - rewrite Hsame by (right; by destruct (cs_local s)). by destruct (cs_endpoint s).
  - clear. case_bool_decide; cbn; by destruct (cs_endpoint s).
Qed.

(** ** Data *)

Definition set_queue (i : nat) (q : list byte) (w : NetWorld) : NetWorld :=
  set_net_cells (set_queues (<[i := q]> (s_queues (nw_cells w))) (nw_cells w)) w.

Lemma set_queue_inv i q w : net_inv w → net_inv (set_queue i q w).
Proof. intros []. split; cbn; rewrite ?length_insert; done. Qed.

Lemma end_lookup w e : net_inv w → valid_end (length (nw_links w)) e →
  is_Some (nw_links w !! ne_state e) ∧ is_Some (s_queues (nw_cells w) !! ne_inbound e) ∧
  is_Some (s_queues (nw_cells w) !! ne_outbound e).
Proof.
  intros Hw (l & Hl & He). pose proof (ni_queues w Hw) as Hq.
  split_and!; apply lookup_lt_is_Some_2; destruct He as [-> | ->]; cbn; lia.
Qed.

Lemma data_unavailable {A} (f : NetEndpoint → M NetWorld A) w k s :
  nw_conns w !! k = Some s → cs_phase s ≠ Connected →
  (data_endpoint (mkNetConn (conn_name k) k) ≫= f) w =
    (Err (EMessage ("data: unavailable while " +:+ phase_name (cs_phase s))), w).
Proof.
  intros Hk Hp. unfold data_endpoint, inner. unfold_eff. cbn. rewrite Hk.
  by rewrite bool_decide_false by done.
Qed.

Lemma data_available {A} (f : NetEndpoint → M NetWorld A) w k s e :
  nw_conns w !! k = Some s → cs_phase s = Connected → cs_endpoint s = Some e →
  (data_endpoint (mkNetConn (conn_name k) k) ≫= f) w = f e w.
Proof.
  intros Hk Hp He. unfold data_endpoint, inner. unfold_eff. cbn. rewrite Hk.
  by rewrite Hp, He, bool_decide_true by done.
Qed.

Lemma endpoint_write_spec w e (b : bool) q data :
  nw_links w !! ne_state e = Some b → s_queues (nw_cells w) !! ne_outbound e = Some q →
  Endpoint.write e data w =
    if b then (Err (EMessage "data: broken pipe"), w)
    else (Ok (blen data), set_queue (ne_outbound e) (q ++ data) w).
Proof.
  intros Hl Hq. unfold Endpoint.write, Endpoint.closed, ByteQueue.write, ByteQueue.load,
    ByteQueue.store, in_cells, cell_load, cell_store. unfold_eff. rewrite Hl. cbn.
  destruct b; [done|]. cbn. by rewrite Hq.
Qed.

Lemma endpoint_read_spec w e q len :
  s_queues (nw_cells w) !! ne_inbound e = Some q →
  let n := Z.to_nat (Z.min len (blen q)) in
  Endpoint.read e len w = (Ok (take n q), set_queue (ne_inbound e) (drop n q) w).
Proof.
  intros Hq. unfold Endpoint.read, ByteQueue.read, ByteQueue.load, ByteQueue.store, in_cells,
    cell_load, cell_store. unfold_eff. rewrite Hq. cbn. case_bool_decide as Hz; [|done].
  subst. rewrite take_nil, drop_nil. cbn. unfold set_queue. rewrite list_insert_id by done.
  by destruct w as [? ? ? ? ? ? []].
Qed.

(** ** What clients do

    The operations on the device, each through the files of a connection by its id: reading
    ["new"], writing ["ctl"], reading and writing ["data"] and reading ["listen"]. *)
Inductive NetOp :=
| ONew
| OCtl (id cmd : string)
| OWrite (id : string) (data : list byte)
| ORead (id : string) (len : Z)
| OAccept (id : string).

Definition perform (op : NetOp) : M NetWorld (list byte) :=
  match op with
  | ONew => id ← NetDevice.alloc; mret (bytes_of id)
  | OCtl id cmd => c ← NetDevice.lookup id; ctl_command c cmd ;; mret []
  | OWrite id data => c ← NetDevice.lookup id; data_write c data ;; mret []
  | ORead id len => c ← NetDevice.lookup id; data_read c len
  | OAccept id =>
      c ← NetDevice.lookup id; r ← accept_one c;
      mret (match r with Some id => bytes_of id | None => [] end)
  end.

(** Operations one after the other, whoever performs them, and what each answered. *)
Fixpoint run (ops : list NetOp) (w : NetWorld) : list (Result (list byte)) * NetWorld :=
  match ops with
  | [] => ([], w)
  | op :: rest =>
      let '(r, w1) := perform op w in
      let '(rs, w2) := run rest w1 in (r :: rs, w2)
  end.

(** A command that ends a connection. *)
Definition disconnects (id : string) (op : NetOp) : Prop :=
  match op with
  | OCtl id' cmd =>
      id' = id ∧ (head (split_whitespace_str cmd) = Some "hangup" ∨
                  head (split_whitespace_str cmd) = Some "reset")
  | _ => False
  end.

(** ** Every operation keeps the invariant *)

Lemma net_lookup_spec w id : net_inv w →
  (∃ k, id = conn_name k ∧ (k < length (nw_conns w))%nat ∧
     NetDevice.lookup id w = (Ok (mkNetConn (conn_name k) k), w)) ∨
  (∀ k, (k < length (nw_conns w))%nat → id ≠ conn_name k) ∧
     NetDevice.lookup id w = (Err (EPath "open" id NotFound), w).
Proof.
  intros Hw. unfold NetDevice.lookup. unfold_eff.
  destruct (bt_get id (nw_resources w)) as [c|] eqn:Hg; [left|right].
  - apply (ni_resources w Hw) in Hg as (k & Hk & -> & ->). by exists k.
  - split; [|done]. intros k Hk ->.
    assert (bt_get (conn_name k) (nw_resources w) = Some (mkNetConn (conn_name k) k)) as H
      by (apply (ni_resources w Hw); eauto). congruence.
Qed.

(** The outcomes that are allowed: an answer, an error, or a panic of a counter. *)
Definition answers {A} (r : Result A) (w : NetWorld) : Prop :=
  match r with Ok _ | Err _ => True | Panic => exhausted w | NoFuel => False end.

Lemma does_answers {A} (m : M NetWorld A) w Q : does m w Q →
  net_inv (m w).2 ∧ gentle w (m w).2 ∧ answers (m w).1 (m w).2.
Proof. unfold does. destruct (m w) as [[a|e| |] w']; cbn; intros (? & ? & ?); done. Qed.

(** What a command that disconnects does, or the command is gentle. *)
Definition hangs_up (k : nat) (w w' : NetWorld) : Prop :=
  ∃ s s', nw_conns w !! k = Some s ∧ w' = left_world w k s s'.

Lemma hangup_keeps w k : net_inv w → (k < length (nw_conns w))%nat →
  let '(r, w') := hangup (mkNetConn (conn_name k) k) w in
  net_inv w' ∧ answers r w' ∧ (gentle w w' ∨ hangs_up k w w').
Proof.
  intros Hw Hk. destruct (lookup_lt_is_Some_2 _ _ Hk) as [s Hs].
  destruct (decide (cs_phase s = Connected ∨ cs_phase s = Listening)) as [Hp|Hp].
  - rewrite (hangup_spec w k s Hw Hs Hp). split_and!; [|done|right; by eexists _, _].
    apply left_inv; try done. by apply conn_ok_rest.
  - assert (does (hangup (mkNetConn (conn_name k) k)) w (λ _ _, False)) as Hd.
    { unfold hangup, hangup_take. eapply (does_bind _ _ _ (λ _ _, False)); [|done].
      eapply does_bind; [apply does_inner; [done|by exists k]|].
      cbn. intros t w1 _ _ [-> Ht]. rewrite Hs in Ht. injection Ht as <-.
      destruct (cs_phase s); try (by apply does_fail; [done|by exists k]); destruct Hp; auto. }
    apply does_answers in Hd. destruct (hangup _ w). destruct Hd as (? & ? & ?). auto.
Qed.

Lemma reset_keeps w k : net_inv w → (k < length (nw_conns w))%nat →
  let '(r, w') := reset (mkNetConn (conn_name k) k) w in
  net_inv w' ∧ answers r w' ∧ (gentle w w' ∨ hangs_up k w w').
Proof.
  intros Hw Hk. destruct (lookup_lt_is_Some_2 _ _ Hk) as [s Hs].
  rewrite (reset_spec w k s Hw Hs). split_and!; [|done|right; by eexists _, _].
  apply left_inv; try done. apply conn_new_ok.
Qed.

Lemma ctl_keeps w k cmd : net_inv w → (k < length (nw_conns w))%nat →
  let '(r, w') := ctl_command (mkNetConn (conn_name k) k) cmd w in
  net_inv w' ∧ answers r w' ∧
  (gentle w w' ∨ hangs_up k w w' ∧ disconnects (conn_name k) (OCtl (conn_name k) cmd)).
Proof.
  intros Hw Hk. assert (Hc : known w (mkNetConn (conn_name k) k)) by (by exists k).
  cut (let '(r, w') := ctl_command (mkNetConn (conn_name k) k) cmd w in
    (net_inv w' ∧ answers r w' ∧ (gentle w w' ∨ hangs_up k w w') ∧
      disconnects (conn_name k) (OCtl (conn_name k) cmd)) ∨
    (net_inv w' ∧ gentle w w' ∧ answers r w')).
  { destruct (ctl_command _ _ w) as [r w']. intuition. }
  unfold ctl_command, disconnects.
  destruct (split_whitespace_str cmd) as [|verb parts]; cbn; [by right|].
  assert (∀ A (m : M NetWorld A) Q, does m w Q → let '(r, w') := m w in
    net_inv w' ∧ gentle w w' ∧ answers r w') as Hdoes.
  { intros A m Q Hd. apply does_answers in Hd. by destruct (m w). }
  repeat case_decide; subst; clear - Hdoes Hw Hk Hc.
  - pose proof (Hdoes _ _ _ (dial_does w _ (str_join " " parts) Hw Hc)) as Hx.
    destruct (dial _ _ w). by right.
  - pose proof (Hdoes _ _ _ (bind_does w _ (str_join " " parts) Hw Hc)) as Hx.
    destruct (bind _ _ w). by right.
  - pose proof (Hdoes _ _ _ (announce_does w _ (str_join " " parts) Hw Hc)) as Hx.
    destruct (announce _ _ w). by right.
  - pose proof (hangup_keeps w k Hw Hk) as H. destruct (hangup _ w). left.
    destruct H as (? & ? & ?). split_and!; auto.
  - pose proof (reset_keeps w k Hw Hk) as H. destruct (reset _ w). left.
    destruct H as (? & ? & ?). split_and!; auto.
  - by right.
  - by right.
Qed.

(** A write that must be taken: its connection is connected and the link is open. *)
Definition can_write (w : NetWorld) (op : NetOp) : Prop :=
  ∃ k s e data, op = OWrite (conn_name k) data ∧ nw_conns w !! k = Some s ∧
    cs_phase s = Connected ∧ cs_endpoint s = Some e ∧ nw_links w !! ne_state e = Some false.

(** The queues after one operation: nothing but data was read or written, at the ends of
    the connection the operation names. *)
Inductive effect (w : NetWorld) : NetOp → Result (list byte) → NetWorld → Prop :=
| EGentle op r w' : (∀ id data, op ≠ OWrite id data) → (∀ id len, op ≠ ORead id len) →
    gentle w w' → effect w op r w'
| EHangup k cmd r w' : disconnects (conn_name k) (OCtl (conn_name k) cmd) → hangs_up k w w' →
    effect w (OCtl (conn_name k) cmd) r w'
| EFailed op e : ¬ can_write w op → effect w op (Err e) w
| EWrite k s e q data : nw_conns w !! k = Some s → cs_phase s = Connected →
    cs_endpoint s = Some e → nw_links w !! ne_state e = Some false →
    s_queues (nw_cells w) !! ne_outbound e = Some q →
    effect w (OWrite (conn_name k) data) (Ok []) (set_queue (ne_outbound e) (q ++ data) w)
| ERead k s e q n len : nw_conns w !! k = Some s → cs_phase s = Connected →
    cs_endpoint s = Some e → s_queues (nw_cells w) !! ne_inbound e = Some q →
    n = Z.to_nat (Z.min len (blen q)) →
    effect w (ORead (conn_name k) len) (Ok (take n q)) (set_queue (ne_inbound e) (drop n q) w).

Lemma data_ends w k s : net_inv w → nw_conns w !! k = Some s → cs_phase s = Connected →
  ∃ e b qi qo, cs_endpoint s = Some e ∧ nw_links w !! ne_state e = Some b ∧
    s_queues (nw_cells w) !! ne_inbound e = Some qi ∧
    s_queues (nw_cells w) !! ne_outbound e = Some qo.
Proof.
  intros Hw Hs Hp. destruct (ni_conns w Hw _ _ Hs) as [[He _] _ _ _].
  destruct (He Hp) as [e Hend].
  destruct (end_lookup w e Hw) as ([b Hb] & [qi Hi] & [qo Ho]).
  { eapply (ni_ends w Hw _ _ _ Hs). unfold ends. rewrite Hend. by left. }
  by exists e, b, qi, qo.
Qed.

Lemma write_effect w k data : net_inv w → (k < length (nw_conns w))%nat →
  let '(r, w') := (data_write (mkNetConn (conn_name k) k) data ;; mret []) w in
  net_inv w' ∧ answers r w' ∧ effect w (OWrite (conn_name k) data) r w'.
Proof.
  intros Hw Hk. destruct (lookup_lt_is_Some_2 _ _ Hk) as [s Hs]. unfold data_write.
  destruct (decide (cs_phase s = Connected)) as [Hp|Hp].
  - destruct (data_ends w k s Hw Hs Hp) as (e & b & qi & qo & He & Hb & Hi & Ho).
    unfold mbind at 1, eff_bind at 1. rewrite (data_available _ w k s e Hs Hp He).
    rewrite (endpoint_write_spec w e b qo data Hb Ho).
    destruct b; [split_and!; [done|done|apply EFailed]|].
    + intros (k' & s' & e' & d & [= Hn _] & Hs' & _ & He' & Hl). apply (inj conn_name) in Hn as <-.
      congruence.
    + split_and!; [by apply set_queue_inv|done|by eapply EWrite].
  - unfold mbind at 1, eff_bind at 1. rewrite (data_unavailable _ w k s Hs Hp).
    split_and!; [done|done|apply EFailed].
    intros (k' & s' & e' & d & [= Hn _] & Hs' & Hp' & _). apply (inj conn_name) in Hn as <-.
    congruence.
Qed.

Lemma read_effect w k len : net_inv w → (k < length (nw_conns w))%nat →
  let '(r, w') := data_read (mkNetConn (conn_name k) k) len w in
  net_inv w' ∧ answers r w' ∧ effect w (ORead (conn_name k) len) r w'.
Proof.
  intros Hw Hk. destruct (lookup_lt_is_Some_2 _ _ Hk) as [s Hs]. unfold data_read.
  destruct (decide (cs_phase s = Connected)) as [Hp|Hp].
  - destruct (data_ends w k s Hw Hs Hp) as (e & b & qi & qo & He & Hb & Hi & Ho).
    rewrite (data_available _ w k s e Hs Hp He), (endpoint_read_spec w e qi len Hi).
    split_and!; [by apply set_queue_inv|done|by eapply ERead].
  - rewrite (data_unavailable _ w k s Hs Hp). split_and!; [done|done|apply EFailed].
    by intros (? & ? & ? & ? & ? & _).
Qed.

Lemma perform_effect w op : net_inv w →
  let '(r, w') := perform op w in net_inv w' ∧ answers r w' ∧ effect w op r w'.
Proof.
  intros Hw. destruct op as [|id cmd|id data|id len|id]; unfold perform.
  { unfold mbind, eff_bind. destruct (net_alloc_spec w Hw) as [-> | [-> Hex]].
    - split_and!; [by apply alloc_inv|done|]. apply EGentle; [done..|apply alloc_gentle].
    - split_and!; [done|done|]. by apply EGentle. }
  all: unfold mbind at 1, eff_bind at 1;
    destruct (net_lookup_spec w id Hw) as [(k & -> & Hk & ->)|[Hno ->]];
    [|split_and!; [done|done|apply EFailed; intros (k & s & e & d & Heq & Hs & _);
        first [done | injection Heq as -> ->; by destruct (Hno k (lookup_lt_Some _ _ _ Hs))]]].
  - pose proof (ctl_keeps w k cmd Hw Hk) as H. unfold mbind, eff_bind.
    destruct (ctl_command _ cmd w) as [[[]|e| |] w'];
      destruct H as (Hi & Ha & [Hg|[Hh Hd]]); split_and!; try done;
      first [by apply EGentle | by eapply EHangup].
  - by apply write_effect.
  - by apply read_effect.
  - pose proof (accept_does w k Hw Hk) as H. apply does_answers in H. unfold mbind, eff_bind.
    destruct (accept_one _ w) as [[[]|e| |] w']; destruct H as (Hi & Hg & Ha);
      split_and!; try done; by apply EGentle.
Qed.

Lemma run_inv ops w : net_inv w → net_inv (run ops w).2.
Proof.
  revert w. induction ops as [|op ops IH]; intros w Hw; [done|]. cbn.
  pose proof (perform_effect w op Hw) as H. destruct (perform op w) as [r w1].
  destruct H as (H1 & _ & _). specialize (IH w1 H1). by destruct (run ops w1).
Qed.

Lemma net_new_inv : net_inv NetDevice.new.
Proof.
  split; cbn; [done| | |done|done|done|done].
  - intros id c. split; [done|]. intros (k & Hk & _). lia.
  - intros addr id. split; [done|]. by intros (k & s & Hs & _).
Qed.

(** ** Connections that carry bytes *)

(** The connections at [x] and [y] hold the two ends of the open link [l]. *)
Definition joined (w : NetWorld) (x y l : nat) : Prop :=
  nw_links w !! l = Some false ∧
  ∃ sx sy, nw_conns w !! x = Some sx ∧ cs_phase sx = Connected ∧ cs_endpoint sx = Some (dial_end l) ∧
    nw_conns w !! y = Some sy ∧ cs_phase sy = Connected ∧ cs_endpoint sy = Some (accept_end l).

(** The bytes that wait in a queue. *)
Definition waiting (w : NetWorld) (i : nat) : list byte := default [] (s_queues (nw_cells w) !! i).

(** What the connection [id] wrote, and what it was given. *)
Definition wrote (id : string) (op : NetOp) : list byte :=
  match op with OWrite id' data => if decide (id' = id) then data else [] | _ => [] end.

Definition got (id : string) (op : NetOp) (r : Result (list byte)) : list byte :=
  match op, r with
  | ORead id' _, Ok bs => if decide (id' = id) then bs else []
  | _, _ => []
  end.

Definition sent (id : string) (ops : list NetOp) : list byte := concat (wrote id <$> ops).
Definition received (id : string) (ops : list NetOp) (rs : list (Result (list byte))) : list byte :=
  concat (zip_with (got id) ops rs).

(** The ends of a link tell the connections apart. *)
Lemma joined_queues w x y l k s e : net_inv w → joined w x y l →
  nw_conns w !! k = Some s → cs_endpoint s = Some e →
  ((k = x ↔ e = dial_end l) ∧ (k = y ↔ e = accept_end l)) ∧
  ((k = x ↔ ne_outbound e = (2 * l + 1)%nat) ∧ (k = y ↔ ne_outbound e = (2 * l)%nat)) ∧
  ((k = x ↔ ne_inbound e = (2 * l)%nat) ∧ (k = y ↔ ne_inbound e = (2 * l + 1)%nat)).
Proof.
  intros Hw (_ & sx & sy & Hx & _ & Hex & Hy & _ & Hey) Hk He.
  assert (e ∈ ends s) as Hin by (unfold ends; rewrite He; by left).
  destruct (ni_ends w Hw _ _ _ Hk Hin) as (l' & _ & Hv).
  assert (k = x ↔ e = dial_end l) as Hkx.
  { split; [intros ->; congruence|]. intros ->. eapply (ni_unique w Hw); eauto.
    unfold ends. rewrite Hex. by left. }
  assert (k = y ↔ e = accept_end l) as Hky.
  { split; [intros ->; congruence|]. intros ->. eapply (ni_unique w Hw); eauto.
    unfold ends. rewrite Hey. by left. }
  split; [done|]. rewrite Hkx, Hky. clear - Hv. unfold dial_end, accept_end in *.
  repeat split; destruct Hv as [-> | ->]; cbn; intros H;
    first [lia | injection H; lia | f_equal; lia].
Qed.

Lemma joined_ne w x y l : joined w x y l → x ≠ y.
Proof.
  intros (_ & sx & sy & Hx & _ & Hex & Hy & _ & Hey) ->. rewrite Hx in Hy. injection Hy as <-.
  apply (dial_not_accept l l). congruence.
Qed.

Lemma joined_stays w w' x y l : joined w x y l → stays x w w' → stays y w w' →
  nw_links w' !! l = Some false → joined w' x y l.
Proof.
  intros (_ & sx & sy & Hx & Hpx & Hex & Hy & Hpy & Hey) Hsx Hsy Hl.
  destruct (Hsx sx Hx Hpx) as (sx' & ? & ? & ?), (Hsy sy Hy Hpy) as (sy' & ? & ? & ?).
  split; [done|]. exists sx', sy'. split_and!; congruence.
Qed.

Lemma left_stays w k s s' k' : k' ≠ k → stays k' w (left_world w k s s').
Proof.
  intros Hne t Ht Hp. exists t. unfold left_world. cbn. by rewrite list_lookup_insert_ne.
Qed.

Lemma joined_queue_bound w x y l : net_inv w → joined w x y l →
  (2 * l + 1 < length (s_queues (nw_cells w)))%nat.
Proof.
  intros Hw [Hl _]. apply lookup_lt_Some in Hl. rewrite (ni_queues w Hw). lia.
Qed.

Lemma set_queue_waiting i q w j : (i < length (s_queues (nw_cells w)))%nat →
  waiting (set_queue i q w) j = if decide (j = i) then q else waiting w j.
Proof.
  intros Hi. unfold waiting, set_queue. cbn. case_decide; subst.
  - by rewrite list_lookup_insert_eq.
  - by rewrite list_lookup_insert_ne.
Qed.

(** One operation moves bytes in order, both ways. *)
Record moves (w w' : NetWorld) (x y l : nat) (op : NetOp) (r : Result (list byte)) : Prop := {
  mv_right : got (conn_name y) op r ++ waiting w' (2 * l + 1) =
    waiting w (2 * l + 1) ++ wrote (conn_name x) op;
  mv_left : got (conn_name x) op r ++ waiting w' (2 * l) =
    waiting w (2 * l) ++ wrote (conn_name y) op
}.

Lemma got_err id op e : got id op (Err e) = [].
Proof. by destruct op. Qed.

(** No bytes are moved when the queues are the same and nothing is read or written. *)
Lemma moves_still w w' x y l op r :
  got (conn_name x) op r = [] → got (conn_name y) op r = [] →
  wrote (conn_name x) op = [] → wrote (conn_name y) op = [] →
  waiting w' (2 * l) = waiting w (2 * l) → waiting w' (2 * l + 1) = waiting w (2 * l + 1) →
  moves w w' x y l op r.
Proof. intros Hgx Hgy Hwx Hwy H0 H1. split; by rewrite ?Hgx, ?Hgy, ?Hwx, ?Hwy, ?H0, ?H1, app_nil_r. Qed.

Lemma waiting_gentle w w' i : gentle w w' → (i < length (s_queues (nw_cells w)))%nat →
  waiting w' i = waiting w i.
Proof. intros [_ _ [n Hq] _] Hi. unfold waiting. by rewrite Hq, lookup_app_l. Qed.

Lemma name_decide {A} (k x : nat) (a b : A) :
  (if decide (conn_name k = conn_name x) then a else b) = if decide (k = x) then a else b.
Proof.
  destruct (decide (k = x)) as [->|Hne]; [by rewrite decide_True|]. rewrite decide_False; [done|].
  intros H. by apply (inj conn_name) in H.
Qed.

Lemma joined_gentle w w' x y l : joined w x y l → gentle w w' → joined w' x y l.
Proof.
  intros Hj [_ Hs _ [n Hl]]. eapply joined_stays; [done|done|done|].
  destruct Hj as [H _]. rewrite Hl. by apply lookup_app_l_Some.
Qed.

Lemma joined_hangup w k s s' x y l : net_inv w → joined w x y l → nw_conns w !! k = Some s →
  k ≠ x → k ≠ y → joined (left_world w k s s') x y l.
Proof.
  intros Hw Hj Hs Hx Hy. eapply joined_stays; [done|by apply left_stays..|].
  destruct Hj as [Hl Hrest]. unfold left_world, closed_links. cbn.
  destruct (cs_endpoint s) as [e|] eqn:He; [|done].
  rewrite list_lookup_insert_ne; [done|]. intros Heq.
  destruct (joined_queues w x y l k s e Hw (conj Hl Hrest) Hs He) as (_ & [Hx1 _] & _).
  assert (e ∈ ends s) as Hin by (unfold ends; rewrite He; by left).
  destruct (ni_ends w Hw _ _ _ Hs Hin) as (l' & _ & [-> | ->]); cbn in Heq; subst l'.
  - destruct Hx. by apply Hx1.
  - destruct (joined_queues w x y l k s _ Hw (conj Hl Hrest) Hs He) as ([_ Hky] & _).
    destruct Hy. by apply Hky.
Qed.

Lemma wrote_none id op : (∀ id data, op ≠ OWrite id data) → wrote id op = [].
Proof. intros H. destruct op; try done. by destruct (H id0 data). Qed.

Lemma got_none id op r : (∀ id len, op ≠ ORead id len) → got id op r = [].
Proof. intros H. destruct op; try done. by destruct (H id0 len). Qed.

Lemma joined_can_write w x y l id data : joined w x y l → id = conn_name x ∨ id = conn_name y →
  can_write w (OWrite id data).
Proof.
  intros (Hl & sx & sy & Hx & Hpx & Hex & Hy & Hpy & Hey) [-> | ->].
  - by exists x, sx, (dial_end l), data.
  - by exists y, sy, (accept_end l), data.
Qed.

Lemma wrote_failed w x y l op id : joined w x y l → ¬ can_write w op →
  id = conn_name x ∨ id = conn_name y → wrote id op = [].
Proof.
  intros Hj Hno Hid. destruct op; try done. cbn. case_decide as Hd; [|done]. subst.
  destruct Hno. by eapply joined_can_write.
Qed.

Lemma joined_set_queue w x y l i q : joined w x y l → joined (set_queue i q w) x y l.
Proof. done. Qed.

Lemma effect_moves w op r w' x y l : net_inv w → joined w x y l → effect w op r w' →
  ¬ disconnects (conn_name x) op → ¬ disconnects (conn_name y) op →
  joined w' x y l ∧ moves w w' x y l op r.
Proof.
  intros Hw Hj He Hdx Hdy. pose proof (joined_queue_bound w x y l Hw Hj) as Hb.
  pose proof (joined_ne w x y l Hj) as Hxy.
  destruct He as [op r w' Hnw Hnr Hg|k cmd r w' Hd (s & s' & Hs & ->)|op e Hno
    |k s e q data Hs Hp He Hl Hq|k s e q n len Hs Hp He Hq Hn].
  - split; [by eapply joined_gentle|].
    apply moves_still; [by apply got_none|by apply got_none|by apply wrote_none|by apply wrote_none
                       |apply waiting_gentle; [done|lia]..].
  - split; [|by apply moves_still].
    apply joined_hangup; [done|done|done|intros ->; by destruct Hdx|intros ->; by destruct Hdy].
  - split; [done|]. apply moves_still; [apply got_err|apply got_err| | |done|done];
      eapply wrote_failed; eauto.
  - split; [by apply joined_set_queue|].
    destruct (joined_queues w x y l k s e Hw Hj Hs He) as (_ & [Hox Hoy] & _).
    pose proof (lookup_lt_Some _ _ _ Hq) as Ho.
    split; cbn [got wrote app]; rewrite name_decide, set_queue_waiting by done.
    + destruct (decide (k = x)) as [Hk|Hk].
      * rewrite decide_True by (symmetry; by apply Hox). unfold waiting.
        apply Hox in Hk. rewrite <- Hk, Hq. done.
      * rewrite decide_False by (intros Hi; symmetry in Hi; by apply Hox in Hi). by rewrite app_nil_r.
    + destruct (decide (k = y)) as [Hk|Hk].
      * rewrite decide_True by (symmetry; by apply Hoy). unfold waiting.
        apply Hoy in Hk. rewrite <- Hk, Hq. done.
      * rewrite decide_False by (intros Hi; symmetry in Hi; by apply Hoy in Hi). by rewrite app_nil_r.
  - split; [by apply joined_set_queue|].
    destruct (joined_queues w x y l k s e Hw Hj Hs He) as (_ & _ & [Hix Hiy]).
    pose proof (lookup_lt_Some _ _ _ Hq) as Hi.
    split; cbn [got wrote]; rewrite app_nil_r, name_decide, set_queue_waiting by done.
    + destruct (decide (k = y)) as [Hk|Hk].
      * rewrite decide_True by (symmetry; by apply Hiy). unfold waiting.
        apply Hiy in Hk. rewrite <- Hk, Hq. cbn. apply take_drop.
      * by rewrite decide_False by (intros H; symmetry in H; by apply Hiy in H).
    + destruct (decide (k = x)) as [Hk|Hk].
      * rewrite decide_True by (symmetry; by apply Hix). unfold waiting.
        apply Hix in Hk. rewrite <- Hk, Hq. cbn. apply take_drop.
      * by rewrite decide_False by (intros H; symmetry in H; by apply Hix in H).
Qed.

(** Writes of the connections of an open link are taken. *)
Lemma joined_write w x y l id data : net_inv w → joined w x y l →
  id = conn_name x ∨ id = conn_name y → (perform (OWrite id data) w).1 = Ok [].
Proof.
  intros Hw Hj Hid. pose proof (perform_effect w (OWrite id data) Hw) as H.
  destruct (perform (OWrite id data) w) as [r w']. destruct H as (_ & _ & He). cbn.
  inversion He as [op r' w2 Hno _ _| |op e Hno| |]; subst; try done.
  - by destruct (Hno id data).
  - destruct Hno. by eapply joined_can_write.
Qed.

(** C29. Two connections that are the ends of one link exchange their bytes in order and
    without loss, whatever is done on the device in between, by them or by others, as long
    as neither hangs up or is reset: what one end was given, followed by what still waits,
    is what waited before followed by everything the other end wrote; and so the other way
    round.  The two stay joined. *)
Theorem net_in_order ops w x y l :
  net_inv w → joined w x y l →
  Forall (λ op, ¬ disconnects (conn_name x) op ∧ ¬ disconnects (conn_name y) op) ops →
  let '(rs, w') := run ops w in
  joined w' x y l ∧
  received (conn_name y) ops rs ++ waiting w' (2 * l + 1) =
    waiting w (2 * l + 1) ++ sent (conn_name x) ops ∧
  received (conn_name x) ops rs ++ waiting w' (2 * l) =
    waiting w (2 * l) ++ sent (conn_name y) ops.
Proof.
  intros Hw Hj Hops. revert w Hw Hj.
  induction Hops as [|op ops [Hx Hy] _ IH]; intros w Hw Hj; cbn [run].
  { split; [done|]. cbn [received sent zip_with fmap list_fmap concat app]. by rewrite !app_nil_r. }
  pose proof (perform_effect w op Hw) as H. destruct (perform op w) as [r w1].
  destruct H as (Hw1 & _ & He).
  destruct (effect_moves w op r w1 x y l Hw Hj He Hx Hy) as [Hj1 [Hr Hl]].
  specialize (IH w1 Hw1 Hj1). destruct (run ops w1) as [rs w2].
  destruct IH as (Hj2 & Hr2 & Hl2). unfold received, sent in *. cbn [zip_with concat fmap list_fmap].
  split_and!; [done|..].
  - by rewrite <- (app_assoc (got _ _ _)), Hr2, !app_assoc, Hr.
  - by rewrite <- (app_assoc (got _ _ _)), Hl2, !app_assoc, Hl.
Qed.

(** ** Calls that overlap

    A call takes a lock for one section at a time, and other threads run between its
    sections: [advance] takes a call through its next section, and [Returned] is its answer.
    A [NetCall] is where a call is, with what it has in its local variables. *)
Inductive NetCall :=
| Begin (op : NetOp)
| NewInserting (c : NetConn)
| Command (c : NetConn) (cmd : string)
| Registering (c : NetConn) (addr : string)
| Announcing (c : NetConn)
| DialFinding (c : NetConn) (addr id : string)
| Connecting (c : NetConn) (addr : string) (listener : NetConn)
| Enqueuing (listener : NetConn) (p : PendingAccept)
| Accepting (c : NetConn)
| Allocating (local : string) (p : PendingAccept)
| AcceptInserting (c : NetConn) (local : string) (p : PendingAccept)
| AcceptFinding (id local : string) (p : PendingAccept)
| Installing (c : NetConn) (id local : string) (p : PendingAccept)
| Unregistering (c : NetConn) (local : string) (e : option NetEndpoint)
| Closing (e : NetEndpoint)
| Writing (c : NetConn) (data : list byte)
| WriteChecking (e : NetEndpoint) (data : list byte)
| Putting (e : NetEndpoint) (data : list byte)
| Reading (c : NetConn) (len : Z)
| Getting (e : NetEndpoint) (len : Z)
| Returned (r : Result (list byte)).

(** A section, and where the call goes on; an error or a panic is its answer. *)
Definition section {A} (m : M NetWorld A) (next : A → NetCall) (w : NetWorld) : NetCall * NetWorld :=
  match m w with
  | (Ok a, w') => (next a, w')
  | (Err e, w') => (Returned (Err e), w')
  | (Panic, w') => (Returned Panic, w')
  | (NoFuel, w') => (Returned NoFuel, w')
  end.

Definition return_unit : unit → NetCall := λ _, Returned (Ok []).

Definition begin_dial (c : NetConn) (addr : string) : NetWorld → NetCall * NetWorld :=
  let addr := trim addr in
  if is_empty_str addr then section (fail c "dial: missing address") return_unit
  else section (id ← NetDevice.listener_id addr; ok_or id (EMessage ("dial: no listener for " +:+ addr)))
    (DialFinding c addr).

Definition begin_announce (c : NetConn) (addr : string) : NetWorld → NetCall * NetWorld :=
  let addr := trim addr in
  if is_empty_str addr then section (fail c "announce: missing address") return_unit
  else section (announce_claim c addr) (Registering c).

Definition then_close (e : option NetEndpoint) : NetCall :=
  match e with Some e => Closing e | None => Returned (Ok []) end.

(** Where [hangup] and [reset] go on: to the table of listeners, if [registered]. *)
Definition then_unregister (registered : bool) (c : NetConn) (local : string)
    (e : option NetEndpoint) : NetCall :=
  if registered then Unregistering c local e else then_close e.

Definition begin_hangup (c : NetConn) : NetWorld → NetCall * NetWorld :=
  section (hangup_take c) (λ '(phase, local, e),
    then_unregister (bool_decide (phase = Listening) && negb (is_empty_str local)) c local e).

Definition begin_reset (c : NetConn) : NetWorld → NetCall * NetWorld :=
  section (reset_take c) (λ '(local, e), then_unregister (negb (is_empty_str local)) c local e).

(** [ctl_command], up to the end of its first section. *)
Definition begin_command (c : NetConn) (cmd : string) : NetWorld → NetCall * NetWorld :=
  match split_whitespace_str cmd with
  | [] => section (mret tt) return_unit
  | verb :: parts =>
      let rest := str_join " " parts in
      if decide (verb = "dial") then begin_dial c rest
      else if decide (verb = "bind") then section (bind c rest) return_unit
      else if decide (verb = "announce") then begin_announce c rest
      else if decide (verb = "hangup") then begin_hangup c
      else if decide (verb = "reset") then begin_reset c
      else if decide (verb = "noop") then section (mret tt) return_unit
      else section (throw (EMessage ("ctl: unsupported command " +:+ verb))) return_unit
  end.

Definition connect (c : NetConn) (addr : string) : M NetWorld PendingAccept :=
  '(dialer, acceptor) ← Endpoint.pair;
  local ← dial_connect c addr dialer;
  mret (mkPendingAccept local acceptor).

Definition advance (call : NetCall) : NetWorld → NetCall * NetWorld :=
  match call with
  | Begin ONew => section NetDevice.alloc_new NewInserting
  | Begin (OCtl id cmd) => section (NetDevice.lookup id) (λ c, Command c cmd)
  | Begin (OWrite id data) => section (NetDevice.lookup id) (λ c, Writing c data)
  | Begin (ORead id len) => section (NetDevice.lookup id) (λ c, Reading c len)
  | Begin (OAccept id) => section (NetDevice.lookup id) Accepting
  | NewInserting c => section (NetDevice.alloc_insert c) (λ _, Returned (Ok (bytes_of (cn_id c))))
  | Command c cmd => begin_command c cmd
  | Registering c addr => section (NetDevice.register_listener addr (cn_id c)) (λ _, Announcing c)
  | Announcing c => section (announce_done c) return_unit
  | DialFinding c addr id =>
      section (found ← NetDevice.lookup_ok id; ok_or found (EMessage ("dial: no listener for " +:+ addr)))
        (Connecting c addr)
  | Connecting c addr listener => section (connect c addr) (Enqueuing listener)
  | Enqueuing listener p => section (enqueue_accept listener p) return_unit
  | Accepting c =>
      section (accept_pop c) (λ o,
        match o with Some (local, p) => Allocating local p | None => Returned (Ok []) end)
  | Allocating local p => section NetDevice.alloc_new (λ c, AcceptInserting c local p)
  | AcceptInserting c local p => section (NetDevice.alloc_insert c) (λ _, AcceptFinding (cn_id c) local p)
  | AcceptFinding id local p =>
      section (NetDevice.lookup_ok id) (λ o,
        match o with Some c => Installing c id local p | None => Returned Panic end)
  | Installing c id local p =>
      section (install_accepted c local (pa_remote p) (pa_endpoint p))
        (λ _, Returned (Ok (bytes_of id)))
  | Unregistering c local e =>
      section (NetDevice.unregister_listener local (cn_id c)) (λ _, then_close e)
  | Closing e => section (Endpoint.close e) return_unit
  | Writing c data => section (data_endpoint c) (λ e, WriteChecking e data)
  | WriteChecking e data =>
      section (b ← Endpoint.closed e; guard_err b (EMessage "data: broken pipe")) (λ _, Putting e data)
  | Putting e data =>
      section (in_cells (ByteQueue.write (ne_outbound e) data)) (λ _, Returned (Ok []))
  | Reading c len => section (data_endpoint c) (λ e, Getting e len)
  | Getting e len => section (Endpoint.read e len) (λ bs, Returned (Ok bs))
  | Returned r => λ w, (Returned r, w)
  end.

(** A call that is taken through [n] sections with nothing in between. *)
Fixpoint alone (n : nat) (call : NetCall) (w : NetWorld) : NetCall * NetWorld :=
  match n with
  | 0%nat => (call, w)
  | S n => let '(call, w) := advance call w in alone n call w
  end.

Lemma alone_returned n r w : alone n (Returned r) w = (Returned r, w).
Proof. by induction n. Qed.

Definition answered (p : Result (list byte) * NetWorld) : NetCall * NetWorld := (Returned p.1, p.2).

(** The rest of a call that has been through a section. *)
Definition after (n : nat) (p : NetCall * NetWorld) : NetCall * NetWorld := alone n p.1 p.2.

Lemma alone_S n call w : alone (S n) call w = after n (advance call w).
Proof. cbn. unfold after. by destruct (advance call w). Qed.

Lemma section_then {A} (m : M NetWorld A) next (f : A → M NetWorld (list byte)) n w :
  (∀ a w, alone n (next a) w = answered (f a w)) →
  after n (section m next w) = answered ((m ≫= f) w).
Proof.
  intros Hf. unfold section, after, mbind, eff_bind.
  destruct (m w) as [[a|e| |] w']; cbn; [apply Hf|apply alone_returned..].
Qed.

Lemma bind_assoc {A B C} (m : M NetWorld A) (f : A → M NetWorld B) (g : B → M NetWorld C) w :
  ((m ≫= f) ≫= g) w = (m ≫= (λ a, f a ≫= g)) w.
Proof. unfold mbind, eff_bind. by destruct (m w) as [[a|e| |] w']. Qed.

Lemma section_last (m : M NetWorld unit) n w :
  after n (section m return_unit w) = answered ((m ;; mret (@nil byte)) w).
Proof. apply section_then. intros [] w'. apply alone_returned. Qed.

Lemma dial_eq c addr w : is_empty_str (trim addr) = false →
  (dial c addr ;; mret (@nil byte)) w =
  ((id ← NetDevice.listener_id (trim addr); ok_or id (EMessage ("dial: no listener for " +:+ trim addr))) ≫=
    (λ id, (found ← NetDevice.lookup_ok id;
            ok_or found (EMessage ("dial: no listener for " +:+ trim addr))) ≫=
    (λ listener, connect c (trim addr) ≫= (λ p, enqueue_accept listener p ;; mret (@nil byte))))) w.
Proof.
  intros He. unfold dial. rewrite He. unfold NetDevice.listener, NetDevice.listener_id,
    NetDevice.lookup_ok, connect, gets, mbind, eff_bind. cbn.
  destruct (bt_get _ (nw_listeners w)) as [id|]; cbn; [|done].
  destruct (bt_get id (nw_resources w)) as [l|]; cbn; [|done].
  destruct (Endpoint.pair w) as [[[d a]|e| |] w1]; cbn; [|done..].
  destruct (dial_connect c (trim addr) d w1) as [[local|e| |] w2]; done.
Qed.

Lemma alone_dial n c addr w : (3 ≤ n)%nat →
  after n (begin_dial c addr w) = answered ((dial c addr ;; mret (@nil byte)) w).
Proof.
  intros Hn. destruct n as [|[|[|n]]]; [lia..|]. unfold begin_dial.
  destruct (is_empty_str (trim addr)) eqn:He.
  - unfold dial. rewrite He. apply section_last.
  - rewrite dial_eq by done. apply section_then. intros id w1. rewrite alone_S.
    apply section_then. intros l w2. rewrite alone_S.
    apply section_then. intros p w3. rewrite alone_S. apply section_last.
Qed.

Lemma alone_announce n c addr w : (2 ≤ n)%nat →
  after n (begin_announce c addr w) = answered ((announce c addr ;; mret (@nil byte)) w).
Proof.
  intros Hn. destruct n as [|[|n]]; [lia..|]. unfold begin_announce, announce.
  destruct (is_empty_str (trim addr)); [apply section_last|].
  rewrite bind_assoc. apply section_then. intros a w1. rewrite alone_S, bind_assoc.
  apply section_then. intros _ w2. rewrite alone_S. apply section_last.
Qed.

Lemma alone_close n e w : (1 ≤ n)%nat → alone n (then_close e) w = answered ((close_endpoint e ;; mret (@nil byte)) w).
Proof.
  intros Hn. destruct n as [|n]; [lia|]. destruct e as [e|]; cbn [then_close].
  - rewrite alone_S. apply section_last.
  - by rewrite alone_returned.
Qed.

Lemma alone_unregister n (b : bool) c local e w : (2 ≤ n)%nat →
  alone n (then_unregister b c local e) w =
    answered (((if b then NetDevice.unregister_listener local (cn_id c) else mret tt) ;;
              close_endpoint e ;; mret (@nil byte)) w).
Proof.
  intros Hn. destruct n as [|n]; [lia|]. destruct b; cbn [then_unregister].
  - rewrite alone_S. apply section_then. intros _ w1. apply alone_close. lia.
  - rewrite alone_close by lia. done.
Qed.

Lemma alone_hangup n c w : (2 ≤ n)%nat →
  after n (begin_hangup c w) = answered ((hangup c ;; mret (@nil byte)) w).
Proof.
  intros Hn. unfold begin_hangup, hangup. rewrite bind_assoc.
  apply section_then. intros [[phase local] e] w1. rewrite alone_unregister by done.
  by rewrite bind_assoc.
Qed.

Lemma alone_reset n c w : (2 ≤ n)%nat →
  after n (begin_reset c w) = answered ((reset c ;; mret (@nil byte)) w).
Proof.
  intros Hn. unfold begin_reset, reset. rewrite bind_assoc.
  apply section_then. intros [local e] w1. rewrite alone_unregister by done.
  by rewrite bind_assoc.
Qed.

Lemma alone_command n c cmd w : (3 ≤ n)%nat →
  after n (begin_command c cmd w) = answered ((ctl_command c cmd ;; mret (@nil byte)) w).
Proof.
  intros Hn. unfold begin_command, ctl_command.
  destruct (split_whitespace_str cmd) as [|verb parts]; [apply section_last|]. cbn zeta.
  repeat case_decide; try apply section_last.
  - by apply alone_dial.
  - apply alone_announce. lia.
  - apply alone_hangup. lia.
  - apply alone_reset. lia.
Qed.

Lemma alone_accept n c w : (4 ≤ n)%nat →
  after n (section (accept_pop c) (λ o,
    match o with Some (local, p) => Allocating local p | None => Returned (Ok []) end) w) =
  answered ((r ← accept_one c; mret (match r with Some id => bytes_of id | None => [] end)) w).
Proof.
  intros Hn. destruct n as [|[|[|[|n]]]]; [lia..|]. unfold accept_one. rewrite bind_assoc.
  apply section_then. intros [[local p]|] w1; [|by rewrite alone_returned].
  unfold alloc_connected, NetDevice.alloc. rewrite !bind_assoc, alone_S.
  apply section_then. intros c1 w2. rewrite !bind_assoc, alone_S.
  apply section_then. intros [] w3. rewrite alone_S.
  unfold advance, section, after, attempt, NetDevice.lookup, NetDevice.lookup_ok, gets, mbind, eff_bind.
  cbn. destruct (bt_get (cn_id c1) (nw_resources w3)) as [c2|]; cbn; [|by rewrite alone_returned].
  unfold section. destruct (install_accepted c2 local _ _ w3) as [[[]|e| |] w4]; cbn;
    by rewrite ?alone_returned.
Qed.

Lemma perform_command id cmd w : perform (OCtl id cmd) w =
  (NetDevice.lookup id ≫= (λ c, ctl_command c cmd ;; mret (@nil byte))) w.
Proof. done. Qed.

(** With nothing in between, the sections of a call make up the operation. *)
Lemma alone_performs op w : alone 6 (Begin op) w = answered (perform op w).
Proof.
  rewrite alone_S. destruct op as [|id cmd|id data|id len|id]; cbn [advance perform].
  - unfold NetDevice.alloc. rewrite bind_assoc. apply section_then. intros c w1.
    rewrite bind_assoc, alone_S. apply section_then. intros [] w2. apply alone_returned.
  - apply section_then. intros c w1. rewrite alone_S. apply alone_command. lia.
  - apply section_then. intros c w1. unfold data_write. rewrite bind_assoc, alone_S.
    apply section_then. intros e w2. rewrite alone_S.
    replace ((Endpoint.write e data ≫= (λ _, mret (@nil byte))) w2) with
      (((b ← Endpoint.closed e; guard_err b (EMessage "data: broken pipe")) ≫=
        (λ _, in_cells (ByteQueue.write (ne_outbound e) data) ≫= (λ _, mret (@nil byte)))) w2).
    + apply section_then. intros [] w3. rewrite alone_S. apply section_then.
      intros _ w4. apply alone_returned.
    + unfold Endpoint.write, mbind, eff_bind. by destruct (Endpoint.closed e w2) as [[[]|er| |] w3].
  - apply section_then. intros c w1. unfold data_read. rewrite alone_S.
    apply section_then. intros e w2. rewrite alone_S.
    replace (Endpoint.read e len w2) with ((Endpoint.read e len ≫= mret) w2).
    + apply section_then. intros bs w3. apply alone_returned.
    + unfold mbind, eff_bind. by destruct (Endpoint.read e len w2) as [[bs|er| |] w3].
  - apply section_then. intros c w1. rewrite alone_S. apply alone_accept. lia.
Qed.

(** *** What holds in every interleaving *)

(** The ends a call has in its local variables, to give them to a connection or to close
    them. *)
Definition held (call : NetCall) : list NetEndpoint :=
  match call with
  | Enqueuing _ p | Allocating _ p | AcceptInserting _ _ p | AcceptFinding _ _ p
  | Installing _ _ _ p => [pa_endpoint p]
  | Unregistering _ _ e => option_list e
  | Closing e => [e]
  | _ => []
  end.

Definition conn_ends (conns : list NetConnState) : list NetEndpoint := concat (ends <$> conns).

Definition registered (w : NetWorld) (c : NetConn) : Prop := bt_get (cn_id c) (nw_resources w) = Some c.

(** What a call knows of the device. *)
Definition call_ok (w : NetWorld) (call : NetCall) : Prop :=
  match call with
  | Begin _ | Allocating _ _ => True
  | NewInserting c | AcceptInserting c _ _ => known w c
  | Command c _ | Registering c _ | Announcing c | Enqueuing c _ | Accepting c
  | Installing c _ _ _ | Writing c _ | Reading c _ => registered w c
  | Unregistering c _ e => registered w c ∧ Forall (valid_end (length (nw_links w))) (option_list e)
  | DialFinding c _ id => registered w c ∧ is_Some (bt_get id (nw_resources w))
  | Connecting c _ listener => registered w c ∧ registered w listener
  | AcceptFinding id _ _ => is_Some (bt_get id (nw_resources w))
  | Closing e | WriteChecking e _ | Putting e _ | Getting e _ => valid_end (length (nw_links w)) e
  | Returned r => answers r w
  end.

Record shared_ok (w : NetWorld) : Prop := {
  so_ids : nw_next_id w = Z.of_nat (length (nw_conns w));
  so_resources id c : bt_get id (nw_resources w) = Some c → id = cn_id c ∧ known w c;
  so_listeners addr id : bt_get addr (nw_listeners w) = Some id → is_Some (bt_get id (nw_resources w));
  so_conns : Forall (λ s, cs_phase s = Connected ↔ is_Some (cs_endpoint s)) (nw_conns w);
  so_queues : length (s_queues (nw_cells w)) = (2 * length (nw_links w))%nat
}.

(** The device and the calls that are under way: every registered address is that of a
    connection of the device, a connection has an end of a link exactly when it is connected,
    each end is held once, by a connection or by a call, and no call has panicked unless a
    counter is used up. *)
Record overlap_inv (w : NetWorld) (calls : list NetCall) : Prop := {
  oi_shared : shared_ok w;
  oi_valid : Forall (valid_end (length (nw_links w))) (conn_ends (nw_conns w) ++ concat (held <$> calls));
  oi_once : NoDup (conn_ends (nw_conns w) ++ concat (held <$> calls));
  oi_calls : Forall (call_ok w) calls
}.

(** Threads begin calls and take them through their sections, in any order. *)
Inductive net_step : NetWorld * list NetCall → NetWorld * list NetCall → Prop :=
| net_begins w calls op : net_step (w, calls) (w, calls ++ [Begin op])
| net_advances w calls i call : calls !! i = Some call →
    net_step (w, calls) ((advance call w).2, <[i := (advance call w).1]> calls).

(** What a section leaves alone. *)
Record grows (w w' : NetWorld) : Prop := {
  gr_conns : (length (nw_conns w) ≤ length (nw_conns w'))%nat;
  gr_links : (length (nw_links w) ≤ length (nw_links w'))%nat;
  gr_resources id c : bt_get id (nw_resources w) = Some c → bt_get id (nw_resources w') = Some c;
  gr_ids : nw_next_id w ≤ nw_next_id w';
  gr_ports : nw_next_port w ≤ nw_next_port w'
}.

#[global] Instance grows_refl : Reflexive grows.
Proof. by intros w. Qed.

Lemma known_grows w w' c : grows w w' → known w c → known w' c.
Proof. intros [] (k & Hk & ->). exists k. split; [lia|done]. Qed.

Lemma registered_grows w w' c : grows w w' → registered w c → registered w' c.
Proof. intros [] Hc. unfold registered in *. auto. Qed.

Lemma resource_grows w w' id : grows w w' → is_Some (bt_get id (nw_resources w)) →
  is_Some (bt_get id (nw_resources w')).
Proof. intros Hg [c Hc]. exists c. by apply Hg. Qed.

Lemma call_ok_grows w w' call : grows w w' → call_ok w call → call_ok w' call.
Proof.
  intros Hg. pose proof (known_grows w w') as Hk. pose proof (registered_grows w w') as Hr.
  pose proof (resource_grows w w') as Hs. pose proof (gr_links _ _ Hg) as Hl.
  assert (∀ l, Forall (valid_end (length (nw_links w))) l → Forall (valid_end (length (nw_links w'))) l).
  { intros l H. eapply Forall_impl; [exact H|]. intros e He. by eapply valid_end_mono. }
  destruct call; cbn [call_ok]; eauto using valid_end_mono; try (intros []; eauto).
  destruct r; cbn; try done. unfold exhausted. destruct Hg. lia.
Qed.

(** What a section of a call does: nothing it was not given is held afterwards, but the ends
    of a new link. *)
Record section_ok (w : NetWorld) (call : NetCall) (p : NetCall * NetWorld) : Prop := {
  sk_shared : shared_ok p.2;
  sk_grows : grows w p.2;
  sk_call : call_ok p.2 p.1;
  sk_ends : ∃ new, conn_ends (nw_conns p.2) ++ held p.1 ⊆+ conn_ends (nw_conns w) ++ held call ++ new ∧
    (new = [] ∨ new = [dial_end (length (nw_links w)); accept_end (length (nw_links w))] ∧
      (length (nw_links w) < length (nw_links p.2))%nat)
}.

(** Changing one of the lists that are put together. *)
Lemma concat_insert {A B} (f : A → list B) l i x y : l !! i = Some x →
  ∃ rest, concat (f <$> l) ≡ₚ f x ++ rest ∧ concat (f <$> <[i := y]> l) ≡ₚ f y ++ rest.
Proof.
  intros Hi. destruct (list_elem_of_split_length l i x Hi) as (l1 & l2 & -> & ->).
  exists (concat (f <$> l1) ++ concat (f <$> l2)).
  rewrite (insert_app_r_alt _ _ (length l1)), Nat.sub_diag by done. cbn.
  rewrite !fmap_app, !concat_app. cbn. split; apply Permutation_app_swap_app.
Qed.

Lemma submseteq_NoDup {A} (l k : list A) : l ⊆+ k → NoDup k → NoDup l.
Proof. intros (rest & Hp)%submseteq_Permutation Hn. rewrite Hp in Hn. by apply NoDup_app in Hn as [? _]. Qed.

Lemma submseteq_Forall {A} (P : A → Prop) (l k : list A) : l ⊆+ k → Forall P k → Forall P l.
Proof. intros (rest & Hp)%submseteq_Permutation Hk. rewrite Hp in Hk. by apply Forall_app in Hk as [? _]. Qed.

Lemma new_ends_fresh n l e : Forall (valid_end n) l → e ∈ [dial_end n; accept_end n] → e ∉ l.
Proof.
  intros Hl He Hin. rewrite Forall_forall in Hl. destruct (Hl e Hin) as (m & Hm & He').
  rewrite !elem_of_cons in He.
  destruct He as [->|[->|He]]; [| |by apply elem_of_nil in He];
    destruct He' as [He'|He']; injection He' as ???; lia.
Qed.

(** One such section keeps the invariant of all. *)
Lemma overlap_advance w calls i call p : overlap_inv w calls → calls !! i = Some call →
  section_ok w call p → overlap_inv p.2 (<[i := p.1]> calls).
Proof.
  intros [Hs Hv Ho Hc] Hi [Hs' Hg Hc' (new & Hsub & Hnew)]. destruct p as [call' w']. cbn in *.
  destruct (concat_insert held calls i call call' Hi) as (rest & Hp & Hp').
  assert (conn_ends (nw_conns w') ++ concat (held <$> <[i := call']> calls) ⊆+
    (conn_ends (nw_conns w) ++ concat (held <$> calls)) ++ new) as Hall.
  { rewrite Hp', Hp. etrans.
    - rewrite app_assoc. apply submseteq_app; [exact Hsub|reflexivity].
    - rewrite <- !app_assoc. by rewrite (Permutation_app_comm new). }
  assert (NoDup new ∧ Forall (valid_end (length (nw_links w'))) new) as [Hnn Hnv].
  { destruct Hnew as [->|[-> Hlt]]; [split; [constructor|done]|]. split.
    - apply NoDup_cons. split; [|apply NoDup_singleton]. intros H%list_elem_of_singleton.
      by apply dial_not_accept in H.
    - repeat constructor; exists (length (nw_links w)); auto. }
  assert (Forall (valid_end (length (nw_links w'))) (conn_ends (nw_conns w) ++ concat (held <$> calls)))
    as Hv'.
  { eapply Forall_impl; [exact Hv|]. intros e He. eapply valid_end_mono; [done|]. apply Hg. }
  split; [done| | |].
  - eapply submseteq_Forall; [exact Hall|]. by apply Forall_app.
  - eapply submseteq_NoDup; [exact Hall|]. apply NoDup_app. split_and!; [done| |done].
    intros e He1 He2. destruct Hnew as [->|[-> _]]; [by apply elem_of_nil in He2|].
    by apply (new_ends_fresh _ _ e Hv He2).
  - apply Forall_insert; [|done]. eapply Forall_impl; [exact Hc|]. intros c. by apply call_ok_grows.
Qed.

(** *** Each section *)

Lemma sk_same w call call' : shared_ok w → held call' ⊆+ held call → call_ok w call' →
  section_ok w call (call', w).
Proof.
  intros Hs Hh Hc. split; cbn; [done|done|done|]. exists []. split; [|by left].
  rewrite app_nil_r. by apply submseteq_app.
Qed.

(** One connection is changed. *)
Lemma sk_update w k s s' call call' : shared_ok w → nw_conns w !! k = Some s →
  (cs_phase s' = Connected ↔ is_Some (cs_endpoint s')) →
  ends s' ++ held call' ⊆+ ends s ++ held call → call_ok w call' →
  section_ok w call (call', set_conns (<[k := s']> (nw_conns w)) w).
Proof.
  intros Hs Hk Hiff Hends Hc.
  assert (grows w (set_conns (<[k := s']> (nw_conns w)) w)) as Hg.
  { split; cbn; try done. by rewrite length_insert. }
  split; cbn [fst snd]; [|done|by eapply call_ok_grows|].
  - destruct Hs as [H1 H2 H3 H4 H5]. split; cbn; rewrite ?length_insert; try done.
    + intros id c Hr. destruct (H2 id c Hr) as [? ?]. split; [done|]. by eapply known_grows.
    + by apply Forall_insert.
  - exists []. split; [|by left]. rewrite app_nil_r. cbn.
    destruct (concat_insert ends (nw_conns w) k s s' Hk) as (rest & Hp & Hp').
    unfold conn_ends. rewrite Hp, Hp', (Permutation_app_comm (ends s') rest),
      (Permutation_app_comm (ends s) rest), <- !app_assoc. by apply submseteq_app.
Qed.

(** A connection that a call knows has a state. *)
Lemma known_state w c : known w c → ∃ s, nw_conns w !! cn_inner c = Some s.
Proof. intros (k & Hk & ->). destruct (lookup_lt_is_Some_2 _ _ Hk) as [s Hs]. by exists s. Qed.

Lemma registered_state w c : shared_ok w → registered w c → ∃ s, nw_conns w !! cn_inner c = Some s ∧
  (cs_phase s = Connected ↔ is_Some (cs_endpoint s)).
Proof.
  intros Hs Hc. destruct (so_resources w Hs _ _ Hc) as [_ Hk].
  destruct (known_state w c Hk) as [s Hl]. exists s. split; [done|].
  exact (Forall_lookup_1 _ _ _ _ (so_conns w Hs) Hl).
Qed.

Section OfConn.
Context (w : NetWorld) (c : NetConn) (s : NetConnState) (call : NetCall).
Context (Hw : shared_ok w) (Hc : registered w c) (Hs : nw_conns w !! cn_inner c = Some s).
Context (Hiff : cs_phase s = Connected ↔ is_Some (cs_endpoint s)).
Context (Hv : Forall (valid_end (length (nw_links w))) (conn_ends (nw_conns w))).

Lemma inner_is : inner c w = (Ok s, w).
Proof. unfold inner. by rewrite Hs. Qed.

Lemma state_ends : Forall (valid_end (length (nw_links w))) (ends s).
Proof.
  destruct (concat_insert ends (nw_conns w) _ s s Hs) as (rest & Hp & _). unfold conn_ends in Hv.
  rewrite Hp in Hv. by apply Forall_app in Hv as [? _].
Qed.

Lemma fail_sk {A} msg (next : A → NetCall) : section_ok w call (section (fail c msg) next w).
Proof.
  unfold section, fail, update_inner, set_inner, throw, modify, mbind, eff_bind. rewrite inner_is. cbn.
  eapply sk_update; [done|exact Hs|done| |done]. cbn. unfold ends. cbn.
  apply submseteq_app; [done|]. apply submseteq_nil_l.
Qed.

(** The state of the connection is set, and the call answers or goes on. *)
Lemma set_sk (s' : NetConnState) call' : (cs_phase s' = Connected ↔ is_Some (cs_endpoint s')) →
  ends s' ++ held call' ⊆+ ends s ++ held call → call_ok w call' →
  section_ok w call (call', snd (set_inner c s' w)).
Proof. intros H1 H2 H3. by eapply sk_update. Qed.

(** A section that begins with the lock of the connection. *)
Lemma inner_sk {A} (f : NetConnState → M NetWorld A) next :
  section_ok w call (section (f s) next w) → section_ok w call (section (inner c ≫= f) next w).
Proof. unfold section. unfold mbind, eff_bind. by rewrite inner_is. Qed.

Lemma at_rest_none : cs_phase s ≠ Connected → cs_endpoint s = None.
Proof. intros Hp. destruct (cs_endpoint s) eqn:E; [|done]. destruct Hp. apply Hiff. by eexists. Qed.

Lemma bind_sk addr : section_ok w call (section (bind c addr) return_unit w).
Proof.
  unfold bind. destruct (is_empty_str _); [apply fail_sk|]. apply inner_sk.
  assert (∀ p, p ≠ Connected → ends (mkNetConnState p (trim addr) "" None None (cs_pending_accepts s))
    ++ [] ⊆+ ends s ++ held call) as Hle.
  { intros p Hp. apply submseteq_app; [|apply submseteq_nil_l]. unfold ends. cbn. by apply submseteq_inserts_l. }
  cbn beta. case_eq (cs_phase s); intros Hp; [| |apply fail_sk|apply fail_sk|].
  - apply set_sk; [|by apply Hle|done]. cbn. split; [done|by intros []].
  - case_decide; [|apply fail_sk]. apply set_sk; [exact Hiff| |done].
    apply submseteq_app; [done|apply submseteq_nil_l].
  - apply set_sk; [|by apply Hle|done]. cbn. split; [done|by intros []].
Qed.

Lemma announce_claim_sk addr : section_ok w call (section (announce_claim c addr) (Registering c) w).
Proof.
  unfold announce_claim. apply inner_sk. cbn beta.
  case_eq (cs_phase s); intros Hp; [| |apply fail_sk|apply fail_sk|].
  - apply set_sk; [exact Hiff| |done]. apply submseteq_app; [done|apply submseteq_nil_l].
  - case_decide; [|apply fail_sk]. apply sk_same; [done|apply submseteq_nil_l|done].
  - apply set_sk; [exact Hiff| |done]. apply submseteq_app; [done|apply submseteq_nil_l].
Qed.

Lemma announce_done_sk : section_ok w call (section (announce_done c) return_unit w).
Proof.
  unfold announce_done, update_inner. apply inner_sk. cbn beta. apply set_sk; [| |done].
  - cbn. split; [done|by intros []].
  - apply submseteq_app; [|apply submseteq_nil_l]. unfold ends. cbn. by apply submseteq_inserts_l.
Qed.

Lemma enqueue_sk p : held call = [pa_endpoint p] →
  section_ok w call (section (enqueue_accept c p) return_unit w).
Proof.
  intros Hh. unfold enqueue_accept. apply inner_sk. cbn beta. case_bool_decide as Hp; cbn [negb guard_err].
  - apply set_sk; [exact Hiff| |done]. unfold ends. cbn. by rewrite Hh, fmap_app, app_nil_r, <- app_assoc.
  - apply sk_same; [done|apply submseteq_nil_l|done].
Qed.

Lemma accept_pop_sk : section_ok w call (section (accept_pop c) (λ o,
  match o with Some (local, p) => Allocating local p | None => Returned (Ok []) end) w).
Proof.
  unfold accept_pop. apply inner_sk. cbn beta. case_decide as Hp; [|apply fail_sk].
  destruct (cs_pending_accepts s) as [|p rest] eqn:He.
  - apply sk_same; [done|apply submseteq_nil_l|done].
  - apply (set_sk _ (Allocating (cs_local s) p)); [exact Hiff| |done]. cbn. unfold ends. cbn. rewrite He. cbn.
    rewrite <- !app_assoc. apply submseteq_app; [reflexivity|].
    rewrite (Permutation_app_comm (pa_endpoint <$> rest)). cbn.
    apply submseteq_skip, submseteq_inserts_r. reflexivity.
Qed.

Lemma then_close_ok e : Forall (valid_end (length (nw_links w))) (option_list e) →
  call_ok w (then_close e).
Proof. destruct e as [e|]; [|done]. cbn. by inversion 1. Qed.

Lemma then_unregister_ok b local e : Forall (valid_end (length (nw_links w))) (option_list e) →
  call_ok w (then_unregister b c local e) ∧ held (then_unregister b c local e) = option_list e.
Proof.
  intros He. destruct b; cbn [then_unregister]; [done|]. split; [by apply then_close_ok|by destruct e].
Qed.

Lemma own_end_ok : Forall (valid_end (length (nw_links w))) (option_list (cs_endpoint s)).
Proof. pose proof state_ends as H. unfold ends in H. by apply Forall_app in H as [? _]. Qed.

Lemma hangup_take_sk : section_ok w call (begin_hangup c w).
Proof.
  unfold begin_hangup, hangup_take. apply inner_sk. cbn beta.
  assert (∀ b, section_ok w call (then_unregister b c (cs_local s) (cs_endpoint s),
    snd (set_inner c (mkNetConnState Closed (cs_local s) (cs_remote s) None None []) w))) as Htake.
  { intros b. destruct (then_unregister_ok b (cs_local s) (cs_endpoint s) own_end_ok) as [Hok Hh].
    apply set_sk; [cbn; split; [done|by intros []]| |done]. rewrite Hh. unfold ends. cbn.
    rewrite <- app_assoc. by apply submseteq_inserts_r. }
  case_eq (cs_phase s); intros Hp; [apply fail_sk|apply fail_sk| | |apply fail_sk]; apply Htake.
Qed.

Lemma reset_take_sk : section_ok w call (begin_reset c w).
Proof.
  unfold begin_reset, reset_take. apply inner_sk. cbn beta.
  destruct (then_unregister_ok (negb (is_empty_str (cs_local s))) (cs_local s) (cs_endpoint s) own_end_ok) as [Hok Hh].
  apply set_sk; [cbn; split; [done|by intros []]| |done]. rewrite Hh. unfold ends. cbn.
  rewrite <- app_assoc. by apply submseteq_inserts_r.
Qed.

Lemma data_endpoint_sk (next : NetEndpoint → NetCall) :
  (∀ e, held (next e) = [] ∧ (valid_end (length (nw_links w)) e → call_ok w (next e))) →
  section_ok w call (section (data_endpoint c) next w).
Proof.
  intros Hnext. unfold data_endpoint. apply inner_sk. cbn beta. case_bool_decide as Hp; cbn [negb guard_err].
  - destruct (proj1 Hiff Hp) as [e He]. pose proof own_end_ok as Hok. rewrite He in Hok.
    apply Forall_cons in Hok as [Hok _]. destruct (Hnext e) as [Hh Hn].
    unfold section. cbn. rewrite He. apply sk_same; [done|rewrite Hh; apply submseteq_nil_l|by apply Hn].
  - apply sk_same; [done|apply submseteq_nil_l|done].
Qed.

Lemma install_sk id local p : held call = [pa_endpoint p] →
  section_ok w call (section (install_accepted c local (pa_remote p) (pa_endpoint p))
    (λ _, Returned (Ok (bytes_of id))) w).
Proof.
  intros Hh. unfold install_accepted, update_inner. apply inner_sk. cbn beta.
  apply (set_sk _ (Returned (Ok (bytes_of id)))); [by cbn; split; [eexists|]| |done].
  unfold ends. cbn. rewrite Hh, app_nil_r, (Permutation_app_comm _ [_]). cbn.
  apply submseteq_skip. by apply submseteq_inserts_l.
Qed.
End OfConn.

(** The shared part of a device of which only one table has changed. *)
Lemma sk_tables w w' call call' : shared_ok w → shared_ok w' → grows w w' →
  nw_conns w' = nw_conns w → held call' ⊆+ held call → call_ok w' call' → section_ok w call (call', w').
Proof.
  intros Hw Hw' Hg Hc Hh Hok. split; [done..|]. cbn. rewrite Hc. exists []. split; [|by left].
  rewrite app_nil_r. by apply submseteq_app.
Qed.

(** A lookup that changes nothing. *)
Lemma pure_sk {A} w call (m : M NetWorld A) (next : A → NetCall) r : shared_ok w → m w = (r, w) →
  match r with Ok a => held (next a) ⊆+ held call ∧ call_ok w (next a) | Err _ => True | _ => False end →
  section_ok w call (section m next w).
Proof.
  intros Hw Hm Hr. unfold section. rewrite Hm. destruct r as [a|e| |]; [destruct Hr; by apply sk_same| |done|done].
  apply sk_same; [done|apply submseteq_nil_l|done].
Qed.

Lemma alloc_new_sk w call (next : NetConn → NetCall) : shared_ok w →
  (∀ c, held (next c) ⊆+ held call) → (∀ w c, known w c → call_ok w (next c)) →
  section_ok w call (section NetDevice.alloc_new next w).
Proof.
  intros Hw Hh Hok. unfold section, NetDevice.alloc_new, next_u32. unfold_eff. cbn.
  rewrite (so_ids w Hw). destruct (Z.of_nat _ =? U32_MAX) eqn:Hz.
  { apply sk_same; [done|apply submseteq_nil_l|]. left. rewrite (so_ids w Hw).
    apply Z.eqb_eq in Hz. lia. }
  cbn. set (w' := set_conns _ _).
  assert (grows w w') as Hg.
  { split; cbn; [rewrite length_app; lia|done|done|rewrite (so_ids w Hw); lia|done]. }
  assert (known w' (mkNetConn (conn_name (length (nw_conns w))) (length (nw_conns w)))) as Hk.
  { exists (length (nw_conns w)). cbn. rewrite length_app. cbn. split; [lia|done]. }
  split; cbn [fst snd]; [|done|by apply Hok|].
  - destruct Hw as [H1 H2 H3 H4 H5]. split; cbn; try done.
    + rewrite length_app. cbn. lia.
    + intros id c Hr. destruct (H2 id c Hr) as [? ?]. split; [done|]. by eapply known_grows.
    + apply Forall_app. split; [done|]. repeat constructor; [by intros ?|by intros [] ].
  - exists []. split; [|by left]. cbn. unfold conn_ends. rewrite fmap_app, concat_app. cbn.
    rewrite !app_nil_r. by apply submseteq_app.
Qed.

Lemma alloc_insert_sk w call c call' : shared_ok w → known w c → held call' ⊆+ held call →
  (∀ w', registered w' c → call_ok w' call') →
  section_ok w call (section (NetDevice.alloc_insert c) (λ _, call') w).
Proof.
  intros Hw Hc Hh Hok. set (w' := (NetDevice.alloc_insert c w).2).
  assert (registered w' c) as Hr.
  { unfold registered. cbn. rewrite bt_get_insert. by rewrite decide_True. }
  assert (∀ id c0, bt_get id (nw_resources w) = Some c0 → bt_get id (nw_resources w') = Some c0) as Hold.
  { intros id c0 H0. cbn. rewrite bt_get_insert. case_decide as He; [|done]. subst id.
    destruct (so_resources w Hw _ _ H0) as [He (k & Hk & ->)]. destruct Hc as (k' & Hk' & ->).
    cbn in He. apply (inj conn_name) in He as ->. done. }
  assert (grows w w') as Hg by (by split).
  apply (sk_tables w w'); [done| |done|done|done|by apply Hok].
  destruct Hw as [H1 H2 H3 H4 H5]. split; cbn; try done.
  - intros id c0. rewrite bt_get_insert. case_decide as He.
    + intros [= <-]. split; [done|]. by eapply known_grows.
    + intros H0. destruct (H2 id c0 H0) as [? ?]. split; [done|]. by eapply known_grows.
  - intros addr id H0. destruct (H3 addr id H0) as [c0 Hc0]. exists c0. by apply Hold.
Qed.

Lemma set_listeners_ok w m : shared_ok w →
  (∀ addr id, bt_get addr m = Some id → is_Some (bt_get id (nw_resources w))) →
  shared_ok (set_listeners m w) ∧ grows w (set_listeners m w).
Proof. intros [H1 H2 H3 H4 H5] Hm. split; by split. Qed.

Lemma register_sk w c addr : shared_ok w → registered w c →
  section_ok w (Registering c addr)
    (section (NetDevice.register_listener addr (cn_id c)) (λ _, Announcing c) w).
Proof.
  intros Hw Hc. unfold section, NetDevice.register_listener. unfold_eff. cbn.
  destruct (bt_mem addr (nw_listeners w)); cbn; [apply sk_same; [done|apply submseteq_nil_l|done]|].
  destruct (set_listeners_ok w (bt_insert addr (cn_id c) (nw_listeners w)) Hw) as [Hw' Hg].
  { intros a id. rewrite bt_get_insert. case_decide; [|by apply so_listeners]. intros [= <-]. by exists c. }
  by apply sk_tables.
Qed.

Lemma unregister_sk w c local e : shared_ok w → registered w c →
  Forall (valid_end (length (nw_links w))) (option_list e) →
  section_ok w (Unregistering c local e)
    (section (NetDevice.unregister_listener local (cn_id c)) (λ _, then_close e) w).
Proof.
  intros Hw Hc He. unfold section, NetDevice.unregister_listener. unfold_eff. cbn.
  assert (held (then_close e) = option_list e) as Hh by (by destruct e).
  case_bool_decide; cbn.
  - destruct (set_listeners_ok w (bt_remove local (nw_listeners w)) Hw) as [Hw' Hg].
    { intros a id. destruct (decide (a = local)) as [->|Hne].
      - by rewrite bt_get_remove_eq.
      - rewrite bt_get_remove_ne by done. by apply so_listeners. }
    apply sk_tables; [done..|cbn; by rewrite Hh|]. by apply then_close_ok.
  - apply sk_same; [done|cbn; by rewrite Hh|]. by apply then_close_ok.
Qed.

Lemma close_sk w e : shared_ok w → section_ok w (Closing e) (section (Endpoint.close e) return_unit w).
Proof.
  intros Hw. unfold section, Endpoint.close. cbn. apply sk_tables; [done| | |done|apply submseteq_nil_l|done].
  - destruct Hw as [H1 H2 H3 H4 H5]. split; cbn; rewrite ?length_insert; done.
  - split; cbn; rewrite ?length_insert; done.
Qed.

Lemma set_queue_ok i q w : shared_ok w → shared_ok (set_queue i q w) ∧ grows w (set_queue i q w).
Proof. intros [H1 H2 H3 H4 H5]. split; split; cbn; rewrite ?length_insert; done. Qed.

Lemma end_cells w e : shared_ok w → valid_end (length (nw_links w)) e →
  (∃ b, nw_links w !! ne_state e = Some b) ∧
  (∃ q, s_queues (nw_cells w) !! ne_inbound e = Some q) ∧
  (∃ q, s_queues (nw_cells w) !! ne_outbound e = Some q).
Proof.
  intros Hw (l & Hl & He). pose proof (so_queues w Hw) as Hq.
  split_and!; apply lookup_lt_is_Some_2; destruct He as [-> | ->]; cbn; lia.
Qed.

Lemma put_sk w e data : shared_ok w → valid_end (length (nw_links w)) e →
  section_ok w (Putting e data)
    (section (in_cells (ByteQueue.write (ne_outbound e) data)) (λ _, Returned (Ok [])) w).
Proof.
  intros Hw He. destruct (end_cells w e Hw He) as (_ & _ & q & Hq).
  assert (in_cells (ByteQueue.write (ne_outbound e) data) w =
    (Ok (blen data), set_queue (ne_outbound e) (q ++ data) w)) as Hp.
  { unfold ByteQueue.write, ByteQueue.load, ByteQueue.store, in_cells, cell_load, cell_store.
    unfold_eff. cbn. by rewrite Hq. }
  unfold section. rewrite Hp. destruct (set_queue_ok (ne_outbound e) (q ++ data) w Hw) as [Hw' Hg].
  by apply sk_tables.
Qed.

Lemma get_sk w e len : shared_ok w → valid_end (length (nw_links w)) e →
  section_ok w (Getting e len) (section (Endpoint.read e len) (λ bs, Returned (Ok bs)) w).
Proof.
  intros Hw He. destruct (end_cells w e Hw He) as (_ & (q & Hq) & _).
  unfold section. rewrite (endpoint_read_spec w e q len Hq). cbn zeta.
  match goal with |- context [set_queue ?i ?q' w] => destruct (set_queue_ok i q' w Hw) as [Hw' Hg] end.
  by apply sk_tables.
Qed.

Lemma pair_ok w : shared_ok w →
  Endpoint.pair w = (Ok (dial_end (length (nw_links w)), accept_end (length (nw_links w))), pair_world w) ∧
  shared_ok (pair_world w) ∧ grows w (pair_world w).
Proof.
  intros Hw. split; [by apply pair_eq, so_queues|]. destruct Hw as [H1 H2 H3 H4 H5]. split.
  - split; cbn; [done|done|done|done|]. rewrite !length_app, H5. cbn. lia.
  - split; cbn; [done|rewrite length_app; lia|done..].
Qed.

(** The ends of the new link: one in the connection, the other with the call. *)
Lemma connected_sk w c addr listener s local port : shared_ok w → registered w c →
  registered w listener → nw_conns w !! cn_inner c = Some s → cs_endpoint s = None →
  nw_next_port w ≤ port →
  section_ok w (Connecting c addr listener)
    (Enqueuing listener (mkPendingAccept local (accept_end (length (nw_links w)))),
     set_conns (<[cn_inner c := mkNetConnState Connected local addr None
         (Some (dial_end (length (nw_links w)))) (cs_pending_accepts s)]> (nw_conns w))
       (set_next_port port (pair_world w))).
Proof.
  intros Hw Hc Hl Hs He Hport. destruct (pair_ok w Hw) as (_ & Hp & Hg).
  set (w' := set_conns _ _).
  assert (grows w w') as Hg'.
  { destruct Hg. split; cbn in *; rewrite ?length_insert; done. }
  split; cbn [fst snd]; [|done|by eapply registered_grows|].
  - destruct Hp as [H1 H2 H3 H4 H5]. split; cbn in *; rewrite ?length_insert; try done.
    + intros id c0 Hr. destruct (so_resources w Hw id c0 Hr). split; [done|]. by eapply known_grows.
    + apply Forall_insert; [done|]. cbn. split; [by eexists|done].
  - exists [dial_end (length (nw_links w)); accept_end (length (nw_links w))]. split.
    + cbn. destruct (concat_insert ends (nw_conns w) _ s (mkNetConnState Connected local addr None
        (Some (dial_end (length (nw_links w)))) (cs_pending_accepts s)) Hs) as (rest & Hr & Hr').
      unfold conn_ends. rewrite Hr, Hr'. unfold ends. cbn. rewrite He. cbn.
      rewrite (Permutation_app_comm (_ ++ rest) [_; _]). cbn. apply submseteq_skip.
      by rewrite (Permutation_app_comm _ [_]).
    + right. split; [done|]. cbn. rewrite length_app. cbn. lia.
Qed.

Lemma pair_then_fail_sk w c addr listener s msg : shared_ok w → nw_conns w !! cn_inner c = Some s →
  (cs_phase s = Connected ↔ is_Some (cs_endpoint s)) →
  section_ok w (Connecting c addr listener)
    (Returned (Err (EMessage msg)),
     set_conns (<[cn_inner c := set_last_error (Some msg) s]> (nw_conns w)) (pair_world w)).
Proof.
  intros Hw Hs Hiff. destruct (pair_ok w Hw) as (_ & Hp & Hg).
  assert (section_ok (pair_world w) (Connecting c addr listener)
    (Returned (Err (EMessage msg)), set_conns (<[cn_inner c := set_last_error (Some msg) s]>
      (nw_conns (pair_world w))) (pair_world w))) as [H1 H2 H3 (new & H4 & H5)].
  { by apply (sk_update _ _ s). }
  cbn in *. split; cbn; [done| |done|].
  - destruct H2, Hg. by split; cbn in *.
  - exists []. split; [|by left].
    destruct (concat_insert ends (nw_conns w) _ s (set_last_error (Some msg) s) Hs) as (rest & Hr & Hr').
    unfold conn_ends. rewrite Hr, Hr'. done.
Qed.

Lemma connect_sk w c addr listener : shared_ok w → registered w c → registered w listener →
  section_ok w (Connecting c addr listener) (section (connect c addr) (Enqueuing listener) w).
Proof.
  intros Hw Hc Hl. destruct (registered_state w c Hw Hc) as (s & Hs & Hiff).
  destruct (pair_ok w Hw) as (Hp & _ & _).
  assert (inner c (pair_world w) = (Ok s, pair_world w)) as Hin.
  { unfold inner. cbn. by rewrite Hs. }
  unfold section, connect. unfold mbind at 1, eff_bind at 1. rewrite Hp. cbn beta iota.
  unfold dial_connect. unfold mbind at 1 2, eff_bind at 1 2. rewrite Hin. cbn beta iota.
  assert (cs_phase s ≠ Connected → ∀ port, nw_next_port w ≤ port → ∀ local, section_ok w (Connecting c addr listener)
    (Enqueuing listener (mkPendingAccept local (accept_end (length (nw_links w)))),
     set_conns (<[cn_inner c := mkNetConnState Connected local addr None
         (Some (dial_end (length (nw_links w)))) (cs_pending_accepts s)]> (nw_conns w))
       (set_next_port port (pair_world w)))) as Hcon.
  { intros Hne port Hport local. apply connected_sk; try done. by apply at_rest_none. }
  assert (∀ port, nw_next_port w ≤ port → U32_MAX ≤ 10000 + port →
    section_ok w (Connecting c addr listener) (Returned Panic, set_next_port port (pair_world w)))
    as Hpanic.
  { intros port Hport Hmax. destruct (pair_ok w Hw) as (_ & [H1 H2 H3 H4 H5] & Hg). split; cbn.
    - by split.
    - destruct Hg. by split.
    - by right.
    - exists []. split; [done|by left]. }
  assert (∀ A msg, @fail A c msg (pair_world w) = (Err (EMessage msg),
    set_conns (<[cn_inner c := set_last_error (Some msg) s]> (nw_conns w)) (pair_world w))) as Hfail.
  { intros A msg. unfold fail, update_inner, set_inner, throw, modify. unfold mbind, eff_bind.
    by rewrite Hin. }
  assert (cs_phase s ≠ Connected → section_ok w (Connecting c addr listener)
    match (if is_empty_str (cs_local s) then NetDevice.next_auto_local else mret (cs_local s)) (pair_world w) with
    | (Ok local, w1) => (Enqueuing listener (mkPendingAccept local (accept_end (length (nw_links w)))),
        set_conns (<[cn_inner c := mkNetConnState Connected local addr None
         (Some (dial_end (length (nw_links w)))) (cs_pending_accepts s)]> (nw_conns w1)) w1)
    | (Err e, w1) => (Returned (Err e), w1)
    | (Panic, w1) => (Returned Panic, w1)
    | (NoFuel, w1) => (Returned NoFuel, w1)
    end) as Hlocal.
  { intros Hne. destruct (is_empty_str (cs_local s)).
    - unfold NetDevice.next_auto_local, next_u32. unfold_eff. cbn.
      destruct (nw_next_port w =? U32_MAX) eqn:Hz; cbn.
      { apply Z.eqb_eq in Hz. apply (Hpanic (nw_next_port w)); [lia|]. unfold U32_MAX in *. lia. }
      destruct (U32_MAX <? 10000 + (nw_next_port w + 1)) eqn:Hm; cbn.
      + apply Z.ltb_lt in Hm. apply Hpanic; lia.
      + apply Hcon; [done|lia].
    - apply (Hcon Hne (nw_next_port w)). lia. }
  case_eq (cs_phase s); intros Hph; [| |rewrite Hfail; by apply pair_then_fail_sk
    |rewrite Hfail; by apply pair_then_fail_sk|].
  all: assert (cs_phase s ≠ Connected) as Hne by congruence; specialize (Hlocal Hne); revert Hlocal.
  all: unfold set_inner, modify, mbind, eff_bind.
  all: by destruct ((if is_empty_str (cs_local s) then NetDevice.next_auto_local
         else mret (cs_local s)) (pair_world w)) as [[local|e| |] w1].
Qed.

(** *** All sections *)

Lemma lookup_sk w call id (next : NetConn → NetCall) : shared_ok w →
  (∀ c, held (next c) = []) → (∀ c, registered w c → call_ok w (next c)) →
  section_ok w call (section (NetDevice.lookup id) next w).
Proof.
  intros Hw Hh Hok. unfold section, NetDevice.lookup, gets, ok_or, mbind, eff_bind. cbn.
  destruct (bt_get id (nw_resources w)) as [c|] eqn:Hg; cbn;
    [|apply sk_same; [done|apply submseteq_nil_l|done]].
  apply sk_same; [done|..]; [|]. 1: rewrite Hh; apply submseteq_nil_l. apply Hok.
  destruct (so_resources w Hw _ _ Hg) as [-> _]. done.
Qed.

Lemma command_sk w c cmd : shared_ok w → registered w c →
  Forall (valid_end (length (nw_links w))) (conn_ends (nw_conns w)) →
  section_ok w (Command c cmd) (begin_command c cmd w).
Proof.
  intros Hw Hc Hv. destruct (registered_state w c Hw Hc) as (s & Hs & Hiff).
  assert (section_ok w (Command c cmd) (section (mret tt) return_unit w)) as Hnothing.
  { eapply pure_sk; [done|reflexivity|done]. }
  unfold begin_command. destruct (split_whitespace_str cmd) as [|verb parts]; [done|]. cbn zeta.
  repeat case_decide.
  - unfold begin_dial. destruct (is_empty_str _); [by eapply fail_sk|].
    unfold section. unfold NetDevice.listener_id, gets, ok_or, mbind, eff_bind. cbn.
    destruct (bt_get _ (nw_listeners w)) as [id|] eqn:Hg; cbn; [|by apply sk_same].
    apply sk_same; [done..|]. split; [done|]. by eapply so_listeners.
  - by eapply bind_sk.
  - unfold begin_announce. destruct (is_empty_str _); [by eapply fail_sk|by eapply announce_claim_sk].
  - by eapply hangup_take_sk.
  - by eapply reset_take_sk.
  - done.
  - eapply pure_sk; [done|reflexivity|done].
Qed.

Lemma advance_ok w call : shared_ok w → call_ok w call →
  Forall (valid_end (length (nw_links w))) (conn_ends (nw_conns w)) →
  section_ok w call (advance call w).
Proof.
  intros Hw Hok Hv.
  destruct call as [op|c|c cmd|c addr|c|c addr id|c addr ln|ln p|c|local p|c local p|id local p
    |c id local p|c local e|e|c data|e data|e data|c len|e len|r]; cbn [advance].
  - destruct op; [|by apply lookup_sk..]. by apply alloc_new_sk.
  - by apply alloc_insert_sk.
  - by apply command_sk.
  - by apply register_sk.
  - destruct (registered_state w c Hw Hok) as (s & Hs & Hiff). by eapply announce_done_sk.
  - destruct Hok as [Hc [ln Hln]].
    eapply (pure_sk _ _ _ _ (Ok ln)); [done|by unfold NetDevice.lookup_ok, mbind, eff_bind; cbn; rewrite Hln|].
    split; [done|]. split; [done|]. destruct (so_resources w Hw _ _ Hln) as [-> _]. done.
  - destruct Hok. by apply connect_sk.
  - destruct (registered_state w ln Hw Hok) as (s & Hs & Hiff). by eapply enqueue_sk.
  - destruct (registered_state w c Hw Hok) as (s & Hs & Hiff). by eapply accept_pop_sk.
  - by apply alloc_new_sk.
  - apply alloc_insert_sk; [done|done|done|]. intros w' Hr. by exists c.
  - destruct Hok as [c Hc]. eapply pure_sk; [done|reflexivity|]. cbn. rewrite Hc. split; [done|].
    destruct (so_resources w Hw _ _ Hc) as [-> _]. done.
  - destruct (registered_state w c Hw Hok) as (s & Hs & Hiff). by eapply install_sk.
  - destruct Hok. by apply unregister_sk.
  - by apply close_sk.
  - destruct (registered_state w c Hw Hok) as (s & Hs & Hiff). by eapply data_endpoint_sk.
  - destruct (end_cells w e Hw Hok) as ((b & Hb) & _ & _). unfold section, Endpoint.closed.
    unfold mbind, eff_bind. rewrite Hb. destruct b; by apply sk_same.
  - by apply put_sk.
  - destruct (registered_state w c Hw Hok) as (s & Hs & Hiff). by eapply data_endpoint_sk.
  - by apply get_sk.
  - by apply sk_same.
Qed.

Lemma net_step_inv p p' : net_step p p' → overlap_inv p.1 p.2 → overlap_inv p'.1 p'.2.
Proof.
  intros [w calls op|w calls i call Hi] Hinv; cbn in *.
  - destruct Hinv as [H1 H2 H3 H4].
    assert (concat (held <$> calls ++ [Begin op]) = concat (held <$> calls)) as He.
    { rewrite fmap_app, concat_app. apply app_nil_r. }
    split; rewrite ?He; [done..|]. apply Forall_app. split; [done|]. by repeat constructor.
  - eapply overlap_advance; [done|done|]. apply advance_ok; [apply Hinv| |].
    + exact (Forall_lookup_1 _ _ _ _ (oi_calls _ _ Hinv) Hi).
    + pose proof (oi_valid _ _ Hinv) as Hv. by apply Forall_app in Hv as [? _].
Qed.

Lemma overlap_new : overlap_inv NetDevice.new [].
Proof. split; cbn; [by split|constructor..]. Qed.

Lemma net_reach w calls : rtc net_step (NetDevice.new, []) (w, calls) → overlap_inv w calls.
Proof.
  intros H. assert (∀ p p', rtc net_step p p' → overlap_inv p.1 p.2 → overlap_inv p'.1 p'.2) as Hr.
  { induction 1; [done|]. intros Hp. eapply IHrtc, net_step_inv; eauto. }
  apply (Hr _ _ H overlap_new).
Qed.

(** How many sections a call has before it, at most. *)
Definition sections_left (call : NetCall) : nat :=
  match call with
  | Returned _ => 0
  | Announcing _ | Enqueuing _ _ | NewInserting _ | Installing _ _ _ _ | Closing _ | Putting _ _
  | Getting _ _ => 1
  | Registering _ _ | Connecting _ _ _ | AcceptFinding _ _ _ | Unregistering _ _ _
  | WriteChecking _ _ | Reading _ _ => 2
  | DialFinding _ _ _ | AcceptInserting _ _ _ | Writing _ _ => 3
  | Command _ _ | Allocating _ _ => 4
  | Accepting _ => 5
  | Begin _ => 6
  end.

Lemma section_left {A} (m : M NetWorld A) next w n : (0 < n)%nat →
  (∀ a, (sections_left (next a) < n)%nat) → (sections_left (section m next w).1 < n)%nat.
Proof. intros Hn Hnext. unfold section. destruct (m w) as [[a|e| |] w']; cbn; auto. Qed.

Lemma then_close_left e : (sections_left (then_close e) ≤ 1)%nat.
Proof. destruct e; cbn; lia. Qed.

Lemma then_unregister_left b c local e : (sections_left (then_unregister b c local e) ≤ 2)%nat.
Proof. destruct b; cbn; [lia|]. pose proof (then_close_left e). lia. Qed.

Lemma command_left c cmd w : (sections_left (begin_command c cmd w).1 < 4)%nat.
Proof.
  unfold begin_command, begin_dial, begin_announce, begin_hangup, begin_reset.
  destruct (split_whitespace_str cmd) as [|verb parts]; [apply section_left; cbn; lia|]. cbn zeta.
  repeat case_decide; repeat case_match; apply section_left; cbn; try lia.
  - intros [[phase local] e]. pose proof (then_unregister_left
      (bool_decide (phase = Listening) && negb (is_empty_str local)) c local e). lia.
  - intros [local e]. pose proof (then_unregister_left (negb (is_empty_str local)) c local e). lia.
Qed.

Lemma advance_left call w : (∀ r, call ≠ Returned r) →
  (sections_left (advance call w).1 < sections_left call)%nat.
Proof.
  intros Hne. destruct call as [op|c|c cmd|c addr|c|c addr id|c addr ln|ln p|c|local p|c local p
    |id local p|c id local p|c local e|e|c data|e data|e data|c len|e len|r]; cbn [advance];
    try (apply section_left; cbn; lia).
  - destruct op; apply section_left; cbn; lia.
  - apply command_left.
  - apply section_left; [cbn; lia|]. intros [[local p]|]; cbn; lia.
  - apply section_left; [cbn; lia|]. intros [c|]; cbn; lia.
  - apply section_left; [cbn; lia|]. intros _. pose proof (then_close_left e). cbn. lia.
  - by destruct (Hne r).
Qed.

(** C30. The network device stays consistent.  A call is made of sections, each under one
    lock, which with nothing in between are the operation, and answers after at most six.
    However the sections of any number of calls interleave, every registered address is that
    of a connection of the device, a connection has an end of a link exactly when it is
    connected, each end is held once, by a connection or by a call under way, and no call
    panics unless the counter of ids or of ports is used up.  When operations follow one
    another, each ending before the next begins, the listeners are moreover exactly the
    connections that listen, and connections that wait to be accepted wait at a listener;
    calls of one connection that overlap can break that ([reset_during_announce]). *)
Theorem net_consistent :
  (∀ op w, alone 6 (Begin op) w = (Returned (perform op w).1, (perform op w).2)) ∧
  (∀ call w, (∀ r, call ≠ Returned r) →
    (sections_left (advance call w).1 < sections_left call ≤ 6)%nat) ∧
  (∀ w calls, rtc net_step (NetDevice.new, []) (w, calls) → overlap_inv w calls) ∧
  (∀ ops op, let w := (run ops NetDevice.new).2 in
    net_inv w ∧ answers (perform op w).1 (perform op w).2).
Proof.
  split; [exact alone_performs|]. split.
  { intros call w Hne. split; [by apply advance_left|]. destruct call; cbn; lia. }
  split; [exact net_reach|]. intros ops op. cbn.
  pose proof (run_inv ops NetDevice.new net_new_inv) as Hw. split; [done|].
  pose proof (perform_effect _ op Hw) as H. destruct (perform op _) as [r w']. by destruct H as (_ & H & _).
Qed.

(** ** From dialing to accepting *)

Lemma perform_accept w k : net_inv w → (k < length (nw_conns w))%nat →
  let '(r, w') := perform (OAccept (conn_name k)) w in
  net_inv w' ∧ gentle w w' ∧
  match r with
  | Ok bs => ∃ id, bs = match id with Some id => bytes_of id | None => [] end ∧ accept_post k w id w'
  | Err _ => True
  | Panic => exhausted w'
  | NoFuel => False
  end.
Proof.
  intros Hw Hk. pose proof (accept_does w k Hw Hk) as H. unfold does in H. cbn.
  unfold mbind at 1, eff_bind at 1.
  destruct (net_lookup_spec w (conn_name k) Hw) as [(k' & Hn & _ & ->)|[Hno _]]; [|by destruct (Hno k Hk)].
  apply (inj conn_name) in Hn as <-. unfold mbind, eff_bind.
  destruct (accept_one _ w) as [[id|e| |] w']; destruct H as (? & ? & ?); split_and!; eauto.
Qed.

(** The listener at [k] has the dialer at [x] among those that wait. *)
Definition queued (w : NetWorld) (k x : nat) (before : list PendingAccept) (local addr : string)
    (l : nat) : Prop :=
  nw_links w !! l = Some false ∧ s_queues (nw_cells w) !! (2 * l)%nat = Some [] ∧
  s_queues (nw_cells w) !! (2 * l + 1)%nat = Some [] ∧ k ≠ x ∧ dialed w x local addr l ∧
  ∃ s after, nw_conns w !! k = Some s ∧ listens s addr ∧
    cs_pending_accepts s = before ++ mkPendingAccept local (accept_end l) :: after.

Lemma accept_queued w k x before local addr l : net_inv w → queued w k x before local addr l →
  let '(r, w') := perform (OAccept (conn_name k)) w in
  is_Ok r → net_inv w' ∧
  match before with
  | _ :: before => queued w' k x before local addr l
  | [] => ∃ y, r = Ok (bytes_of (conn_name y)) ∧ joined w' x y l ∧ dialed w' x local addr l ∧
      nw_conns w' !! y = Some (mkNetConnState Connected addr local None (Some (accept_end l)) []) ∧
      waiting w' (2 * l) = [] ∧ waiting w' (2 * l + 1) = []
  end.
Proof.
  intros Hw (Hl & Hq0 & Hq1 & Hkx & Hd & s & after & Hs & Hls & Hp).
  pose proof (perform_accept w k Hw (lookup_lt_Some _ _ _ Hs)) as H.
  destruct (perform _ w) as [r w']. destruct H as (Hi & _ & Hr). intros Hok. split; [done|].
  destruct r as [bs| | |]; try done. destruct Hr as (id & -> & s' & Hs' & _ & Hpost).
  rewrite Hs in Hs'. injection Hs' as <-. rewrite Hp in Hpost.
  pose proof (lookup_lt_Some _ _ _ Hd) as Hx. pose proof (lookup_lt_Some _ _ _ Hs) as Hk.
  assert (∀ t c, nw_conns w' = <[k := t]> (nw_conns w) ++ [c] → dialed w' x local addr l) as Hd'.
  { intros t c Hc. unfold dialed. rewrite Hc, lookup_app_l by (by rewrite length_insert).
    by rewrite list_lookup_insert_ne. }
  destruct before as [|p before]; cbn in Hpost; destruct id as [id|]; try done;
    destruct Hpost as (-> & Hc & Hlk & Hce).
  - exists (length (nw_conns w)). specialize (Hd' _ _ Hc).
    assert (nw_conns w' !! length (nw_conns w) =
      Some (mkNetConnState Connected addr local None (Some (accept_end l)) [])) as Hy.
    { rewrite Hc. apply lookup_snoc_new. right. rewrite length_insert. destruct Hls as [_ ->]. done. }
    split_and!; [done| |done|done|by unfold waiting; rewrite Hce, Hq0|by unfold waiting; rewrite Hce, Hq1].
    split; [by rewrite Hlk|]. eexists _, _. split_and!; [exact Hd'|done|done|exact Hy|done|done].
  - split_and!; [by rewrite Hlk|by rewrite Hce|by rewrite Hce|done|by eapply Hd'|].
    exists (set_pending (before ++ mkPendingAccept local (accept_end l) :: after) s), after.
    rewrite Hc, lookup_app_l by (by rewrite length_insert).
    rewrite list_lookup_insert_eq by done. split_and!; [done|by destruct Hls|done].
Qed.

Lemma accepts_queued before : ∀ w k x local addr l, net_inv w → queued w k x before local addr l →
  let '(rs, w') := run (replicate (S (length before)) (OAccept (conn_name k))) w in
  Forall is_Ok rs → net_inv w' ∧ ∃ y, last rs = Some (Ok (bytes_of (conn_name y))) ∧
    joined w' x y l ∧ dialed w' x local addr l ∧
    nw_conns w' !! y = Some (mkNetConnState Connected addr local None (Some (accept_end l)) []) ∧
    waiting w' (2 * l) = [] ∧ waiting w' (2 * l + 1) = [].
Proof.
  induction before as [|p before IH]; intros w k x local addr l Hw Hq.
  - cbn [length replicate run]. pose proof (accept_queued w k x [] local addr l Hw Hq) as H.
    destruct (perform _ w) as [r w1]. intros Hok. apply Forall_cons in Hok as [Hok _].
    destruct (H Hok) as [Hw1 (y & -> & Hrest)]. split; [done|]. by exists y.
  - cbn [length]. change (replicate (S (S (length before))) (OAccept (conn_name k)))
      with (OAccept (conn_name k) :: replicate (S (length before)) (OAccept (conn_name k))).
    remember (S (length before)) as n eqn:Hn. cbn [run].
    pose proof (accept_queued w k x (p :: before) local addr l Hw Hq) as H.
    destruct (perform _ w) as [r w1] eqn:Hperf.
    destruct (run (replicate n _) w1) as [rs w2] eqn:Hrun.
    intros Hok. apply Forall_cons in Hok as [Hok Hoks]. destruct (H Hok) as [Hw1 Hq1].
    specialize (IH w1 k x local addr l Hw1 Hq1). rewrite <- ?Hn, Hrun in IH.
    destruct (IH Hoks) as (Hw2 & y & Hlast & Hrest). split; [done|]. exists y.
    split; [|exact Hrest]. destruct rs; [done|exact Hlast].
Qed.

(** A connection that dialed an address is given, once those that waited there before it
    are accepted, a connection of its own: the two hold the ends of a new link with nothing
    in it, each has the other's address for its remote one, and the connections that waited
    before are accepted in the order in which they dialed. *)
Theorem net_dial_accept w x addr w1 :
  net_inv w → (x < length (nw_conns w))%nat →
  dial (mkNetConn (conn_name x) x) addr w = (Ok tt, w1) →
  ∃ k s, nw_conns w !! k = Some s ∧ listens s (trim addr) ∧
    let '(rs, w2) :=
      run (replicate (S (length (cs_pending_accepts s))) (OAccept (conn_name k))) w1 in
    Forall is_Ok rs →
    ∃ y l local, last rs = Some (Ok (bytes_of (conn_name y))) ∧ net_inv w2 ∧ joined w2 x y l ∧
      waiting w2 (2 * l) = [] ∧ waiting w2 (2 * l + 1) = [] ∧
      nw_conns w2 !! x =
        Some (mkNetConnState Connected local (trim addr) None (Some (dial_end l)) []) ∧
      nw_conns w2 !! y =
        Some (mkNetConnState Connected (trim addr) local None (Some (accept_end l)) []).
Proof.
  intros Hw Hx Hdial.
  pose proof (dial_does w (mkNetConn (conn_name x) x) addr Hw) as H. unfold does in H.
  rewrite Hdial in H. destruct H as (Hw1 & _ & k & s & local & Hs & Hls & Hkx & Hd & Hk & Hl & Hq);
    [by exists x|]. cbn [cn_inner] in *.
  exists k, s. split_and!; [done|done|]. set (l := length (nw_links w)) in *.
  assert (queued w1 k x (cs_pending_accepts s) local (trim addr) l) as Hqd.
  { split_and!; [|rewrite Hq..|done|done|].
    - rewrite Hl. apply lookup_snoc_new. auto.
    - rewrite lookup_app_r by (rewrite (ni_queues w Hw); lia).
      by rewrite (ni_queues w Hw), Nat.sub_diag.
    - rewrite lookup_app_r by (rewrite (ni_queues w Hw); lia). rewrite (ni_queues w Hw).
      by replace (2 * l + 1 - 2 * length (nw_links w))%nat with 1%nat by (subst l; lia).
    - eexists _, []. split_and!; [exact Hk|by destruct Hls|done]. }
  pose proof (accepts_queued _ _ _ _ _ _ _ Hw1 Hqd) as H.
  destruct (run _ w1) as [rs w2]. intros Hok. destruct (H Hok) as (Hw2 & y & ? & ? & ? & ? & ? & ?).
  by exists y, l, local.
Qed.
