(* ===== verification/VmDev.v ===== *)
(** * star9-runtime: the VM device

    Models [VmDevice], [VmResource], [VmProvider] and their handles of
    [crates/star9-runtime/src/devices.rs].

    The filesystems of guests are a table over a world [G] of their own, and so are the
    providers that are installed with [set_provider], computations over [G]; the provider
    of a new device is [DeterministicVmProvider].  The [Arc] of a guest is an index. *)

From stdpp Require Import base list numbers option strings pretty.
From Stdlib Require Import ZArith Lia Ascii.
From S2P Require Import Prelude Strs RcText BTree Core FsTrait FsLens Field Task DevFiles Devices.

Local Open Scope Z_scope.

Record VmProviderResource := mkVmProviderResource {
  vp_id : string;
  vp_kind : string;
  vp_alias : string;
  vp_config : string
}.

Record VmProviderUpdate := mkVmProviderUpdate {
  vu_state : option string;
  vu_console_lines : list string;
  vu_clear_console : bool
}.

(** [VmProviderUpdate::state] *)
Definition update_of_state (state : string) : VmProviderUpdate :=
  mkVmProviderUpdate (Some state) [] false.

Record VmProvider (G : Type) := mkVmProvider {
  vp_start : VmProviderResource → M G VmProviderUpdate;
  vp_stop : VmProviderResource → M G VmProviderUpdate;
  vp_reset : VmProviderResource → M G VmProviderUpdate
}.
Arguments mkVmProvider {G}. Arguments vp_start {G}. Arguments vp_stop {G}.
Arguments vp_reset {G}.

Definition DeterministicVmProvider {G} : VmProvider G := mkVmProvider
  (λ _, mret (mkVmProviderUpdate (Some "running") ["start"] false))
  (λ _, mret (mkVmProviderUpdate (Some "stopped") ["stop"] false))
  (λ _, mret (mkVmProviderUpdate (Some "created") [] true)).

(** The provider of a device: its own, or one that was installed. *)
Inductive ProviderRef := Deterministic | Installed (i : nat).

Record VmResource := mkVmResource {
  vr_id : string;
  vr_kind : string;
  vr_state : SharedTextFile;
  vr_alias : SharedTextFile;
  vr_config : SharedTextFile;
  vr_console : SharedLogFile;
  vr_guest : nat
}.

Record VmState := mkVmState {
  vs_next_id : Z;
  vs_resources : btree string VmResource;
  vs_aliases : btree string string;
  vs_provider : ProviderRef;
  vs_guests : list (option nat);
  vs_cells : DevCells
}.

Definition set_vm_next (n : Z) (s : VmState) : VmState :=
  mkVmState n (vs_resources s) (vs_aliases s) (vs_provider s) (vs_guests s) (vs_cells s).
Definition set_vm_resources (m : btree string VmResource) (s : VmState) : VmState :=
  mkVmState (vs_next_id s) m (vs_aliases s) (vs_provider s) (vs_guests s) (vs_cells s).
Definition set_vm_aliases (m : btree string string) (s : VmState) : VmState :=
  mkVmState (vs_next_id s) (vs_resources s) m (vs_provider s) (vs_guests s) (vs_cells s).
Definition set_vm_provider (p : ProviderRef) (s : VmState) : VmState :=
  mkVmState (vs_next_id s) (vs_resources s) (vs_aliases s) p (vs_guests s) (vs_cells s).
Definition set_vm_guests (l : list (option nat)) (s : VmState) : VmState :=
  mkVmState (vs_next_id s) (vs_resources s) (vs_aliases s) (vs_provider s) l (vs_cells s).
Definition set_vm_cells (c : DevCells) (s : VmState) : VmState :=
  mkVmState (vs_next_id s) (vs_resources s) (vs_aliases s) (vs_provider s) (vs_guests s) c.

Record NewVmHandle := mkNewVmHandle {
  nv_kind : string;
  nv_data : option (list byte);
  nv_offset : Z
}.

Record VmAliasHandle := mkVmAliasHandle {
  va_resource : VmResource;
  va_data : list byte;
  va_offset : Z;
  va_dirty : list byte
}.

Module VmDevice.

Definition new : VmState := mkVmState 0 [] [] Deterministic [] cells_empty.

(** ** Resources and aliases *)

Definition in_cells {A} (m : M DevCells A) : M VmState A := zoom vs_cells set_vm_cells m.

(** [VmResource::new] *)
Definition resource_new (id kind : string) : M VmState VmResource :=
  '(state, alias, config, console) ← in_cells (
    state ← Text.readonly "state" "created";
    alias ← Text.writable "alias" "";
    config ← Text.writable "config" "";
    console ← Log.new "console";
    mret (state, alias, config, console));
  guest ← gets (λ s, length (vs_guests s));
  modify (λ s, set_vm_guests (vs_guests s ++ [None]) s) ;;
  mret (mkVmResource id kind state alias config console guest).

Definition alloc (kind : string) : M VmState string :=
  let kind := trim kind in
  guard_err (is_empty_str kind) (EKind Invalid) ;;
  next ← gets vs_next_id;
  match next_u32 next with
  | None => panic
  | Some next =>
      modify (set_vm_next next) ;;
      let id := pretty next in
      resource ← resource_new id kind;
      modify (λ s, set_vm_resources (bt_insert id resource (vs_resources s)) s) ;;
      mret id
  end.

Definition resolve (name : string) : M VmState VmResource :=
  resources ← gets vs_resources;
  match bt_get name resources with
  | Some resource => mret resource
  | None =>
      aliases ← gets vs_aliases;
      id ← ok_or (bt_get name aliases) (EPath "open" name NotFound);
      resources ← gets vs_resources;
      ok_or (bt_get id resources) (EPath "open" name NotFound)
  end.

Definition update_alias (id old new : string) : M VmState unit :=
  modify (λ s,
    let aliases := if is_empty_str old then vs_aliases s else bt_remove old (vs_aliases s) in
    set_vm_aliases (if is_empty_str new then aliases else bt_insert new id aliases) s).

Definition set_guest_of (r : VmResource) (guest : nat) : M VmState unit :=
  modify (λ s, set_vm_guests (<[vr_guest r := Some guest]> (vs_guests s)) s).

(** [VmDevice::set_guest] *)
Definition set_guest (id : string) (guest : nat) : M VmState unit :=
  r ← resolve id; set_guest_of r guest.

Definition set_provider (provider : ProviderRef) : M VmState unit :=
  modify (set_vm_provider provider).

(** [VmResource::guest] *)
Definition guest_of (r : VmResource) : M VmState (option nat) := λ s,
  match vs_guests s !! vr_guest r with Some g => (Ok g, s) | None => (Panic, s) end.

Definition set_alias (r : VmResource) (value : string) : M VmState unit :=
  let next := trim value in
  old ← in_cells (Text.get (vr_alias r));
  in_cells (Text.set (vr_alias r) next) ;;
  update_alias (vr_id r) old next.

Definition provider_resource (r : VmResource) : M VmState VmProviderResource :=
  alias ← in_cells (Text.get (vr_alias r));
  config ← in_cells (Text.get (vr_config r));
  mret (mkVmProviderResource (vr_id r) (vr_kind r) alias config).

Definition apply_provider_update (r : VmResource) (update : VmProviderUpdate) : M VmState unit :=
  (if vu_clear_console update then in_cells (Log.clear (vr_console r)) else mret tt) ;;
  (match vu_state update with
   | Some state => in_cells (Text.set (vr_state r) state)
   | None => mret tt
   end) ;;
  for_each (λ line, in_cells (Log.append_line (vr_console r) line)) (vu_console_lines update).

(** ** Over the worlds of guests and providers *)

Section Guests.
Context {G HG : Type} `{!FileHandle G HG}.
Context (guests : nat → FileSystem G HG) (providers : nat → VmProvider G).

Abbreviation W := (VmState * G)%type.

Definition provider : M VmState (VmProvider G) :=
  p ← gets vs_provider;
  mret (match p with Deterministic => DeterministicVmProvider | Installed i => providers i end).

(** [resource.device.provider().start(&resource.provider_resource())?] and the update it
    answers. *)
Definition drive (r : VmResource)
    (action : VmProvider G → VmProviderResource → M G VmProviderUpdate) : M W unit :=
  p ← on_fst provider;
  res ← on_fst (provider_resource r);
  update ← on_snd (action p res);
  on_fst (apply_provider_update r update).

(** The callback of ["ctl"]. *)
Definition ctl_command (r : VmResource) (cmd : string) : M W unit :=
  match split_whitespace_str cmd with
  | [] => mret tt
  | verb :: parts =>
      if decide (verb = "start") then drive r vp_start
      else if decide (verb = "stop") then drive r vp_stop
      else if decide (verb = "reset") then drive r vp_reset
      else if decide (verb = "alias") then on_fst (set_alias r (str_join " " parts))
      else if decide (verb = "config") then
        on_fst (in_cells (Text.set (vr_config r) (str_join " " parts)))
      else if decide (verb = "noop") then mret tt
      else throw (EKind Invalid)
  end.

Definition ctl (r : VmResource) : Control.ControlFile W := Control.mkControlFile "ctl" (ctl_command r).

(** ** The handles *)

Definition new_read (len : Z) : M (NewVmHandle * W) (list byte) := λ '(h, w),
  let '(r, (data, offset, w)) :=
    read_filled (id ← on_fst (alloc (nv_kind h)); mret (Some (line_of id))) (nv_data h)
      (nv_offset h) len w in
  (r, (mkNewVmHandle (nv_kind h) data offset, w)).

Definition new_stat : M (NewVmHandle * W) Metadata := mret (Meta.file "new-vm" 365 0).

#[local] Instance new_vm_handle : FileHandle W NewVmHandle := read_only_handle new_read new_stat.

Definition alias_read (len : Z) : M (VmAliasHandle * W) (list byte) := λ '(h, w),
  let bs := window (va_data h) (va_offset h) len in
  (Ok bs, (mkVmAliasHandle (va_resource h) (va_data h) (va_offset h + blen bs) (va_dirty h), w)).

Definition alias_write (data : list byte) : M (VmAliasHandle * W) Z := λ '(h, w),
  (Ok (blen data),
   (mkVmAliasHandle (va_resource h) (va_data h) (va_offset h) (va_dirty h ++ data), w)).

Definition alias_stat : M (VmAliasHandle * W) Metadata :=
  by_ref (λ h,
    v ← on_fst (in_cells (Text.get (vr_alias (va_resource h))));
    mret (Meta.file "alias" 438 (blen (bytes_of v) + 1))).

(** The dirty bytes become the alias, and are kept. *)
Definition alias_close : M (VmAliasHandle * W) unit :=
  by_ref (λ h,
    if bool_decide (va_dirty h = []) then mret tt
    else on_fst (set_alias (va_resource h) (trim (from_utf8_lossy (va_dirty h))))).

#[local] Instance vm_alias_handle : FileHandle W VmAliasHandle :=
  read_write_handle alias_read alias_write alias_stat alias_close.

#[local] Instance guest_handle : FileHandle W HG := zoom_handle snd (λ g w, (w.1, g)).
#[local] Instance text_in_vm : FileHandle W SharedTextHandle :=
  zoom_handle (λ w, vs_cells w.1) (λ c w, (set_vm_cells c w.1, w.2)).
#[local] Instance log_in_vm : FileHandle W SharedLogHandle :=
  zoom_handle (λ w, vs_cells w.1) (λ c w, (set_vm_cells c w.1, w.2)).

Abbreviation CtlFile := (Control.ControlHandle W + DirFile)%type.
Abbreviation File :=
  (SharedTextHandle + (SharedLogHandle + (VmAliasHandle + (NewVmHandle + (HG + CtlFile)))))%type.
#[local] Instance vm4 : FileHandle W (HG + CtlFile) := sum_handle.
#[local] Instance vm3 : FileHandle W (NewVmHandle + (HG + CtlFile)) := sum_handle.
#[local] Instance vm2 : FileHandle W (VmAliasHandle + (NewVmHandle + (HG + CtlFile))) := sum_handle.
#[local] Instance vm1 : FileHandle W
  (SharedLogHandle + (VmAliasHandle + (NewVmHandle + (HG + CtlFile)))) := sum_handle.
#[global] Instance vm_file : FileHandle W File := sum_handle.
#[global] Instance vm_box_dir : BoxDir File := λ d, inr (inr (inr (inr (inr (inr d))))).

Definition box_text (h : SharedTextHandle) : File := inl h.
Definition box_log (h : SharedLogHandle) : File := inr (inl h).
Definition box_alias (h : VmAliasHandle) : File := inr (inr (inl h)).
Definition box_new (h : NewVmHandle) : File := inr (inr (inr (inl h))).
Definition box_guest (h : HG) : File := inr (inr (inr (inr (inl h)))).
Definition box_ctl (h : CtlFile) : File := inr (inr (inr (inr (inr h)))).

(** ** The filesystems *)

Definition open_text (f : SharedTextFile) : M W File :=
  h ← on_fst (in_cells (Text.open f Ctx.new ".")); mret (box_text h).

Definition open_value (name value : string) : M W File :=
  h ← on_fst (in_cells (f ← Text.readonly name value; Text.open f Ctx.new "."));
  mret (box_text h).

Definition text_entry (name : string) (perm : Z) (value : string) : DirEntry :=
  mkDirEntry name (Meta.file name perm (blen (bytes_of value) + 1)).

Definition list_resource (r : VmResource) : M W File :=
  state ← on_fst (in_cells (Text.get (vr_state r)));
  alias ← on_fst (in_cells (Text.get (vr_alias r)));
  config ← on_fst (in_cells (Text.get (vr_config r)));
  console ← on_fst (in_cells (Log.load (vr_console r)));
  guest ← on_fst (guest_of r);
  mret (directory_file (Meta.dir "." 365)
    ([text_entry "id" 292 (vr_id r);
      text_entry "kind" 292 (vr_kind r);
      mkDirEntry "ctl" (Meta.file "ctl" 146 0);
      text_entry "state" 292 state;
      text_entry "alias" 438 alias;
      text_entry "config" 438 config;
      mkDirEntry "console" (Meta.file "console" 438 (blen console))]
     ++ match guest with Some _ => [mkDirEntry "guest" (Meta.dir "guest" 365)] | None => [] end)).

(** [VmResource]'s [open] *)
Definition open_resource (r : VmResource) (ctx : FsContext) (name : string) : M W File :=
  if bool_decide (name = "guest") || starts_with "guest/" name then
    found ← on_fst (guest_of r);
    guest ← ok_or found (EPath "open" name NotFound);
    let rel := match strip_prefix "guest/" name with Some p => clean_path p | None => "." end in
    h ← on_snd (fs_open (guests guest) ctx rel);
    mret (box_guest h)
  else if decide (name = ".") then list_resource r
  else if decide (name = "id") then open_value "id" (vr_id r)
  else if decide (name = "kind") then open_value "kind" (vr_kind r)
  else if decide (name = "ctl") then
    h ← Control.open (ctl r) Ctx.new "."; mret (box_ctl h)
  else if decide (name = "state") then open_text (vr_state r)
  else if decide (name = "alias") then
    v ← on_fst (in_cells (Text.get (vr_alias r)));
    mret (box_alias (mkVmAliasHandle r (line_of v) 0 []))
  else if decide (name = "config") then open_text (vr_config r)
  else if decide (name = "console") then
    h ← on_fst (in_cells (Log.open (vr_console r) Ctx.new ".")); mret (box_log h)
  else throw (EPath "open" name NotFound).

Definition resource_fs (r : VmResource) : FileSystem W File :=
  default_fs (open_resource r) (Task.stat_by (open_resource r)) (λ _, unsupported)
    (λ _ _, unsupported).

Definition open (ctx : FsContext) (name : string) : M W File :=
  guard_err (negb (valid_path name)) (EPath "open" name NotFound) ;;
  let name := clean_path name in
  if decide (name = ".") then
    s ← gets fst;
    mret (directory_file (Meta.dir "." 365)
      (new_entry :: dir_entries (bt_keys (vs_resources s)) ++ dir_entries (bt_keys (vs_aliases s))))
  else if decide (name = "new") then mret (box_new (mkNewVmHandle "vm" None 0))
  else
    match strip_prefix "new/" name with
    | Some kind => mret (box_new (mkNewVmHandle kind None 0))
    | None =>
        let '(head, rest) := head_rest name in
        r ← on_fst (resolve head);
        open_resource r ctx rest
    end.

Definition fs : FileSystem W File :=
  default_fs open (Task.stat_by open) (λ _, unsupported) (λ _ _, unsupported).
End Guests.
End VmDevice.
