(* ===== verification/DevProps.v ===== *)
(** * Terminals and VMs

    The line endings of a terminal's program file do not depend on how writes are cut, what
    is written to a terminal is read from it and kept on its screen, resources of an
    allocator are apart, and what the commands of a VM do. *)

From stdpp Require Import base list numbers option strings pretty.
From Stdlib Require Import ZArith Lia Ascii.
From S2P Require Import Prelude Strs RcText BTree Core FsTrait FsLens Field Task DevFiles Devices NetDev NetProps VmDev.

Local Open Scope Z_scope.

(** ** Line endings *)

(** The reference: every line feed that has no carriage return before it is given one. *)
Fixpoint crlf (data : list byte) : list byte :=
  match data with
  | [] => []
  | b :: rest =>
      if decide (b = x0a) then x0d :: x0a :: crlf rest
      else if decide (b = x0d) then
        match rest with
        | c :: rest' => if decide (c = x0a) then x0d :: x0a :: crlf rest' else x0d :: crlf rest
        | [] => [x0d]
        end
      else b :: crlf rest
  end.

Lemma normalize_app last a b :
  Queue.normalize last (a ++ b) =
    let '(oa, la) := Queue.normalize last a in
    let '(ob, lb) := Queue.normalize la b in (oa ++ ob, lb).
Proof.
  revert last. induction a as [|x a IH]; intros last; cbn.
  - by destruct (Queue.normalize last b).
  - rewrite IH. destruct (Queue.normalize (Some x) a) as [oa la].
    destruct (Queue.normalize la b) as [ob lb]. by rewrite app_assoc.
Qed.

(** Inside a text only the last byte matters, and only whether it is a carriage return. *)
Lemma normalize_crlf data : ∀ last,
  (last ≠ Some x0d → (Queue.normalize last data).1 = crlf data) ∧
  (Queue.normalize (Some x0d) data).1 =
    match data with
    | x0a :: rest => x0a :: crlf rest
    | _ => crlf data
    end.
Proof.
  induction data as [|b data IH]; intros last; [done|]. cbn.
  destruct (IH (Some b)) as [IH1 IH2]. destruct (Queue.normalize (Some b) data) as [out fin] eqn:Hn.
  cbn in *. split.
  - intros Hlast. destruct (decide (b = x0a)) as [->|Hb].
    + rewrite bool_decide_true, bool_decide_false by done. cbn. by rewrite IH1.
    + rewrite bool_decide_false by done. cbn. destruct (decide (b = x0d)) as [->|Hd].
      * rewrite Hn in IH2. cbn in IH2. rewrite IH2. destruct data as [|c data]; [done|].
        destruct (decide (c = x0a)) as [->|Hc]; [done|]. by destruct c.
      * rewrite IH1 by congruence. done.
  - destruct (decide (b = x0a)) as [->|Hb].
    + rewrite bool_decide_true by done. cbn. rewrite IH1 by done. done.
    + rewrite bool_decide_false by done. cbn.
      assert (match b with x0a => x0a :: crlf data
        | _ => if decide (b = x0d) then
            match data with
            | c :: rest' => if decide (c = x0a) then x0d :: x0a :: crlf rest' else x0d :: crlf data
            | [] => [x0d] end
          else b :: crlf data end =
        if decide (b = x0d) then
            match data with
            | c :: rest' => if decide (c = x0a) then x0d :: x0a :: crlf rest' else x0d :: crlf data
            | [] => [x0d] end
          else b :: crlf data) as -> by (by destruct b).
      destruct (decide (b = x0d)) as [->|Hd].
      * rewrite Hn in IH2. cbn in IH2. rewrite IH2. destruct data as [|c data]; [done|].
        destruct (decide (c = x0a)) as [->|Hc]; [done|]. by destruct c.
      * by rewrite IH1 by congruence.
Qed.

(** A program file whose queue holds [data] and whose last byte was [last]. *)
Definition program_holds (f : QueueFile) (data : list byte) (last : option byte) (s : DevCells) : Prop :=
  qf_writer f = qf_reader f ∧ s_queues s !! qf_reader f = Some data ∧
  ∃ p, qf_behavior f = NormalizeLf p ∧ s_prevs s !! p = Some last.

Lemma program_write f data last s piece : program_holds f data last s →
  let '(out, final) := Queue.normalize last piece in
  ∃ s', Queue.write f piece s = (Ok (blen piece), s') ∧ program_holds f (data ++ out) final s'.
Proof.
  intros (Hrw & Hq & p & Hb & Hp). destruct (Queue.normalize last piece) as [out final] eqn:Hn.
  unfold Queue.write. rewrite Hb. case_bool_decide as He.
  { subst. cbn in Hn. injection Hn as <- <-. exists s. split; [done|]. rewrite app_nil_r.
    split_and!; eauto. }
  unfold cell_load, cell_store, ByteQueue.write, ByteQueue.load, ByteQueue.store, cell_load,
    cell_store. unfold_eff. rewrite Hp, Hn. cbn. rewrite Hrw, Hq. cbn. eexists. split; [done|].
  unfold program_holds. cbn. split_and!; [done| |].
  - rewrite list_lookup_insert_eq; [done|]. by eapply lookup_lt_Some.
  - exists p. split; [done|]. rewrite list_lookup_insert_eq; [done|]. by eapply lookup_lt_Some.
Qed.

Lemma program_writes f pieces : ∀ data last s, program_holds f data last s →
  ∃ s', map_eff (Queue.write f) pieces s = (Ok (blen <$> pieces), s') ∧
    program_holds f (data ++ (Queue.normalize last (concat pieces)).1)
      (Queue.normalize last (concat pieces)).2 s'.
Proof.
  induction pieces as [|piece pieces IH]; intros data last s Hf; cbn.
  { exists s. by rewrite app_nil_r. }
  pose proof (program_write f data last s piece Hf) as H. rewrite normalize_app.
  destruct (Queue.normalize last piece) as [out final] eqn:Hn.
  destruct H as (s1 & Hw & Hf1). destruct (IH _ _ _ Hf1) as (s2 & Hws & Hf2).
  destruct (Queue.normalize final (concat pieces)) as [out2 final2]. cbn in *.
  exists s2. unfold mbind, eff_bind. rewrite Hw, Hws. split; [done|]. by rewrite app_assoc.
Qed.

(** What is written to the program file of a new terminal, in however many pieces and
    wherever they are cut, is read as one text whose bare line feeds have been given a
    carriage return, every other byte unchanged; each write answers that it took the whole
    piece. *)
Theorem term_program_lines id pieces len :
  blen (crlf (concat pieces)) ≤ len →
  fst ((t ← Terminals.parts id;
        counts ← map_eff (Queue.write (t_program t)) pieces;
        text ← ByteQueue.read (qf_reader (t_program t)) len;
        mret (counts, text)) cells_empty)
  = Ok (blen <$> pieces, crlf (concat pieces)).
Proof.
  intros Hlen.
  destruct (Terminals.parts id cells_empty) as [r s] eqn:Hp.
  assert (∃ t, r = Ok t ∧ program_holds (t_program t) [] None s) as (t & -> & Hf).
  { cbn in Hp. injection Hp as <- <-. eexists. split; [done|]. split_and!; [done|done|].
    eexists. done. }
  destruct (program_writes _ pieces _ _ _ Hf) as (s1 & Hw & _ & Hq & _). cbn [app] in Hq.
  unfold mbind, eff_bind. rewrite Hp, Hw.
  assert ((Queue.normalize None (concat pieces)).1 = crlf (concat pieces)) as Hc
    by (by apply normalize_crlf). rewrite Hc in Hq.
  unfold ByteQueue.read, ByteQueue.load, ByteQueue.store, cell_load, cell_store.
  unfold_eff. rewrite Hq. cbn.
  assert (Z.to_nat (Z.min len (blen (crlf (concat pieces)))) = length (crlf (concat pieces))) as Hn
    by (unfold blen in *; lia).
  case_bool_decide as He; cbn; [by rewrite He|]. by rewrite Hn, firstn_all.
Qed.

Lemma term_program_lines_witness :
  crlf [x61; x0d; x0a; x0a] = [x61; x0d; x0a; x0d; x0a] ∧
  fst ((t ← Terminals.parts "1";
        counts ← map_eff (Queue.write (t_program t)) [[x61; x0d]; [x0a]; [x0a]];
        text ← ByteQueue.read (qf_reader (t_program t)) 10;
        mret (counts, text)) cells_empty)
  = Ok ([2; 1; 1], crlf [x61; x0d; x0a; x0a]).
Proof.
  split; [reflexivity|].
  apply (term_program_lines "1" [[x61; x0d]; [x0a]; [x0a]] 10).
  vm_compute. intros H. discriminate H.
Defined.

(** ** The data file and the screen of a terminal *)

Definition data_holds (f : TerminalDataFile) (data screen : list byte) (s : DevCells) : Prop :=
  qf_writer (td_queue f) = qf_reader (td_queue f) ∧ qf_behavior (td_queue f) = Raw ∧
  s_queues s !! qf_reader (td_queue f) = Some data ∧ s_logs s !! sl_data (td_screen f) = Some screen.

(** What is written goes to the queue and to the screen as it is; a read takes from the
    queue alone. *)
Lemma data_write_spec f data screen s bs : data_holds f data screen s →
  ∃ s', TermData.handle_write bs (mkTerminalDataHandle f, s) =
      (Ok (blen bs), (mkTerminalDataHandle f, s')) ∧ data_holds f (data ++ bs) (screen ++ bs) s'.
Proof.
  intros (Hrw & Hb & Hq & Hl). unfold TermData.handle_write, by_ref, Log.append, Log.load,
    Queue.write, ByteQueue.write, ByteQueue.load, ByteQueue.store, cell_load, cell_store.
  unfold_eff. cbn. rewrite Hl. cbn. rewrite Hb, Hrw. cbn. rewrite Hq. cbn.
  eexists. split; [done|]. unfold data_holds. cbn.
  split_and!; [done|done|rewrite list_lookup_insert_eq; [done|by eapply lookup_lt_Some]..].
Qed.

Lemma data_read_spec f data screen s len : data_holds f data screen s →
  let n := Z.to_nat (Z.min len (blen data)) in
  ∃ s', TermData.handle_read len (mkTerminalDataHandle f, s) =
      (Ok (take n data), (mkTerminalDataHandle f, s')) ∧ data_holds f (drop n data) screen s'.
Proof.
  intros (Hrw & Hb & Hq & Hl). unfold TermData.handle_read, by_ref, ByteQueue.read,
    ByteQueue.load, ByteQueue.store, cell_load, cell_store.
  unfold_eff. cbn. rewrite Hq. cbn. case_bool_decide as Hd; cbn.
  - subst. rewrite take_nil, drop_nil. exists s. by split_and!.
  - eexists. split; [done|]. unfold data_holds. cbn.
    split_and!; [done|done|rewrite list_lookup_insert_eq; [done|by eapply lookup_lt_Some]|done].
Qed.

(** ** The commands of a VM *)

Section Vm.
Context {G HG : Type} `{!FileHandle G HG}.
Context (guests : nat → FileSystem G HG) (providers : nat → VmProvider G).
Implicit Types (r : VmResource) (s : VmState) (g : G).

(** The cells of a resource are there. *)
Definition vm_holds r (state alias config : string) (console : list byte) s : Prop :=
  s_texts (vs_cells s) !! st_value (vr_state r) = Some state ∧
  s_texts (vs_cells s) !! st_value (vr_alias r) = Some alias ∧
  s_texts (vs_cells s) !! st_value (vr_config r) = Some config ∧
  s_logs (vs_cells s) !! sl_data (vr_console r) = Some console ∧
  st_value (vr_state r) ≠ st_value (vr_alias r) ∧ st_value (vr_state r) ≠ st_value (vr_config r) ∧
  st_value (vr_alias r) ≠ st_value (vr_config r).

Lemma vm_console_line r state alias config console s line :
  vm_holds r state alias config console s →
  ∃ s', VmDevice.in_cells (Log.append_line (vr_console r) line) s = (Ok tt, s') ∧
    vm_holds r state alias config (console ++ bytes_of line ++ [x0a]) s' ∧
    vs_resources s' = vs_resources s ∧ vs_aliases s' = vs_aliases s.
Proof.
  intros (Hs & Ha & Hc & Hl & N1 & N2 & N3). unfold VmDevice.in_cells, Log.append_line, Log.load, cell_load,
    cell_store. unfold_eff. rewrite Hl. cbn. eexists. split; [done|]. split; [|done].
  unfold vm_holds. cbn. rewrite list_lookup_insert_eq by (by eapply lookup_lt_Some). by split_and!.
Qed.

Lemma vm_console_lines lines : ∀ r state alias config console s,
  vm_holds r state alias config console s →
  ∃ s', for_each (λ line, VmDevice.in_cells (Log.append_line (vr_console r) line)) lines s = (Ok tt, s') ∧
    vm_holds r state alias config (console ++ concat ((λ l, bytes_of l ++ [x0a]) <$> lines)) s' ∧
    vs_resources s' = vs_resources s ∧ vs_aliases s' = vs_aliases s.
Proof.
  induction lines as [|line lines IH]; intros r state alias config console s Hr; cbn.
  { exists s. by rewrite app_nil_r. }
  destruct (vm_console_line r state alias config console s line Hr) as (s1 & H1 & Hr1 & Hm1 & Ha1).
  destruct (IH _ _ _ _ _ _ Hr1) as (s2 & H2 & Hr2 & Hm2 & Ha2).
  exists s2. unfold mbind, eff_bind. rewrite H1, H2, app_assoc. split_and!; congruence.
Qed.

(** An update sets the state it names, clears the console first when it says so and appends
    its lines; alias and configuration stay. *)
Lemma vm_update r state alias config console s u :
  vm_holds r state alias config console s →
  ∃ s', VmDevice.apply_provider_update r u s = (Ok tt, s') ∧
    vm_holds r (default state (vu_state u)) alias config
      ((if vu_clear_console u then [] else console) ++
       concat ((λ l, bytes_of l ++ [x0a]) <$> vu_console_lines u)) s' ∧
    vs_resources s' = vs_resources s ∧ vs_aliases s' = vs_aliases s.
Proof.
  intros Hr. unfold VmDevice.apply_provider_update.
  assert (∃ s1, (if vu_clear_console u then VmDevice.in_cells (Log.clear (vr_console r)) else mret tt) s
      = (Ok tt, s1) ∧ vm_holds r state alias config (if vu_clear_console u then [] else console) s1 ∧
      vs_resources s1 = vs_resources s ∧ vs_aliases s1 = vs_aliases s)
    as (s1 & H1 & Hr1 & Hm1 & Ha1).
  { destruct (vu_clear_console u); [|by exists s]. destruct Hr as (Hs & Ha & Hc & Hl & N1 & N2 & N3).
    unfold VmDevice.in_cells, Log.clear, Log.load, cell_load, cell_store. unfold_eff. rewrite Hl. cbn.
    eexists. split; [done|]. split; [|done]. unfold vm_holds. cbn.
    rewrite list_lookup_insert_eq by (by eapply lookup_lt_Some). by split_and!. }
  assert (∃ s2, (match vu_state u with
      | Some st => VmDevice.in_cells (Text.set (vr_state r) st) | None => mret tt end) s1
      = (Ok tt, s2) ∧ vm_holds r (default state (vu_state u)) alias config
          (if vu_clear_console u then [] else console) s2 ∧
      vs_resources s2 = vs_resources s ∧ vs_aliases s2 = vs_aliases s)
    as (s2 & H2 & Hr2 & Hm2 & Ha2).
  { destruct (vu_state u) as [st|]; [|by exists s1]. destruct Hr1 as (Hs & Ha & Hc & Hl & N1 & N2 & N3).
    unfold VmDevice.in_cells, Text.set, cell_store. unfold_eff. eexists. split; [done|].
    split; [|done]. unfold vm_holds. cbn. rewrite list_lookup_insert_eq by (by eapply lookup_lt_Some).
    rewrite !list_lookup_insert_ne by done. by split_and!. }
  destruct (vm_console_lines (vu_console_lines u) _ _ _ _ _ _ Hr2) as (s3 & H3 & Hr3 & Hm3 & Ha3).
  exists s3. unfold mbind, eff_bind. rewrite H1, H2, H3. split_and!; congruence.
Qed.

Lemma in_cells_get (f : SharedTextFile) v s : s_texts (vs_cells s) !! st_value f = Some v →
  VmDevice.in_cells (Text.get f) s = (Ok v, s).
Proof.
  intros Hv. unfold VmDevice.in_cells, Text.get, cell_load. unfold_eff. rewrite Hv.
  by destruct s as [? ? ? ? ? []].
Qed.

(** A command that drives the VM asks the provider with the resource as it is now; what the
    provider answers is applied, and its error changes nothing of the device. *)
Lemma vm_drive r action state alias config console s g :
  vm_holds r state alias config console s →
  let p := match vs_provider s with
           | Deterministic => DeterministicVmProvider
           | Installed i => providers i
           end in
  match action p (mkVmProviderResource (vr_id r) (vr_kind r) alias config) g with
  | (Ok u, g') => ∃ s',
      VmDevice.drive providers r action (s, g) = (Ok tt, (s', g')) ∧
      vm_holds r (default state (vu_state u)) alias config
        ((if vu_clear_console u then [] else console) ++
         concat ((λ l, bytes_of l ++ [x0a]) <$> vu_console_lines u)) s'
  | (Err e, g') => VmDevice.drive providers r action (s, g) = (Err e, (s, g'))
  | (Panic, g') => VmDevice.drive providers r action (s, g) = (Panic, (s, g'))
  | (NoFuel, g') => VmDevice.drive providers r action (s, g) = (NoFuel, (s, g'))
  end.
Proof.
  intros Hr p. pose proof Hr as (_ & Ha & Hc & _).
  assert (VmDevice.drive providers r action (s, g) =
    (update ← on_snd (action p (mkVmProviderResource (vr_id r) (vr_kind r) alias config));
     on_fst (VmDevice.apply_provider_update r update)) (s, g)) as ->.
  { unfold VmDevice.drive, VmDevice.provider, VmDevice.provider_resource, mbind, eff_bind, on_fst,
      on_snd, gets, mret, eff_ret.
    rewrite (in_cells_get _ _ _ Ha), (in_cells_get _ _ _ Hc). done. }
  unfold mbind, eff_bind, on_snd. destruct (action p _ g) as [[u|e| |] g']; try done.
  destruct (vm_update r state alias config console s u Hr) as (s' & Hu & Hr' & _).
  exists s'. unfold on_fst. by rewrite Hu.
Qed.

(** An alias leads to its VM until another VM takes it, unless it is the id of one. *)
Lemma vm_alias_leads r value old s :
  bt_get (vr_id r) (vs_resources s) = Some r → bt_get (trim value) (vs_resources s) = None →
  trim value ≠ "" → s_texts (vs_cells s) !! st_value (vr_alias r) = Some old →
  ∃ s', VmDevice.set_alias r value s = (Ok tt, s') ∧
    VmDevice.resolve (trim value) s' = (Ok r, s') ∧
    (old ≠ trim value → bt_get old (vs_resources s) = None → old ≠ "" →
     VmDevice.resolve old s' = (Err (EPath "open" old NotFound), s')).
Proof.
  intros Hr Hv Hne Hold. unfold VmDevice.set_alias, VmDevice.in_cells, VmDevice.update_alias,
    Text.get, Text.set, cell_load, cell_store. unfold_eff. rewrite Hold. cbn.
  assert (∀ t, t ≠ "" → is_empty_str t = false) as Hem by (by intros []).
  rewrite (Hem (trim value)) by done. eexists. split; [done|].
  unfold VmDevice.resolve. unfold_eff. cbn. split.
  - rewrite Hv. cbn. rewrite bt_get_insert_eq. cbn. by rewrite Hr.
  - intros Hne2 Hno Hne3. rewrite Hno. cbn. rewrite bt_get_insert_ne by done.
    by rewrite (Hem old), bt_get_remove_eq by done.
Qed.
End Vm.

(** ** Examples of devices

    The theorems on connections at a small network, and what connections, terminals and VMs
    do that they are not meant to. *)

Import NetConns.

(** ** A network of a listener and two dialers *)

Definition net_ops : list NetOp :=
  [ONew; ONew; ONew; OCtl "1" "announce srv"; OCtl "2" "dial srv"; OCtl "3" "dial  srv "].

Definition small_net : NetWorld := (run net_ops NetDevice.new).2.

Example small_net_phases :
  cs_phase <$> nw_conns small_net = [Listening; Connected; Connected] ∧
  cs_local <$> nw_conns small_net = ["srv"; "local:10001"; "local:10002"].
Proof. vm_compute. split; reflexivity. Qed.

(** The same network with both connections accepted. *)
Definition joined_net : NetWorld := (run (net_ops ++ [OAccept "1"; OAccept "1"]) NetDevice.new).2.

Lemma joined_net_joined : joined joined_net 1 3 0.
Proof. vm_compute. split; [reflexivity|]. do 2 eexists. repeat split; reflexivity. Qed.

Definition talk : list NetOp :=
  [OWrite "2" [x61; x62]; OWrite "5" [x7a]; ORead "4" 1; OWrite "2" [x63]; OCtl "3" "hangup";
   OWrite "4" [x64]; ORead "4" 9; ORead "2" 9].

Lemma net_in_order_witness :
  net_inv joined_net ∧ joined joined_net 1 3 0 ∧
  (let '(rs, w') := run talk joined_net in
   joined w' 1 3 0 ∧
   received (conn_name 3) talk rs ++ waiting w' (2 * 0 + 1) =
     waiting joined_net (2 * 0 + 1) ++ sent (conn_name 1) talk ∧
   received (conn_name 1) talk rs ++ waiting w' (2 * 0) =
     waiting joined_net (2 * 0) ++ sent (conn_name 3) talk).
Proof.
  assert (Hi : net_inv joined_net) by (apply run_inv, net_new_inv).
  split; [exact Hi|]. split; [exact joined_net_joined|].
  apply (net_in_order talk joined_net 1 3 0 Hi joined_net_joined).
  unfold talk. repeat (apply Forall_cons_2; [split; cbn; intros H; try done; destruct H as [H _];
    vm_compute in H; discriminate H|]). apply Forall_nil_2.
Defined.

(** What was exchanged there. *)
Example talk_received :
  let '(rs, _) := run talk joined_net in
  received "4" talk rs = [x61; x62; x63] ∧ received "2" talk rs = [x64].
Proof. vm_compute. split; reflexivity. Qed.

Definition waiting_net : NetWorld := (run (take 5 net_ops) NetDevice.new).2.
Definition dialed_net : NetWorld := (dial (mkNetConn (conn_name 2) 2) "srv" waiting_net).2.

Lemma net_dial_accept_witness :
  net_inv waiting_net ∧ dial (mkNetConn (conn_name 2) 2) "srv" waiting_net = (Ok tt, dialed_net) ∧
  ∃ k s, nw_conns waiting_net !! k = Some s ∧ listens s (trim "srv") ∧
    let '(rs, w2) :=
      run (replicate (S (length (cs_pending_accepts s))) (OAccept (conn_name k))) dialed_net in
    Forall is_Ok rs →
    ∃ y l local, last rs = Some (Ok (bytes_of (conn_name y))) ∧ net_inv w2 ∧ joined w2 2 y l ∧
      waiting w2 (2 * l) = [] ∧ waiting w2 (2 * l + 1) = [] ∧
      nw_conns w2 !! 2%nat =
        Some (mkNetConnState Connected local (trim "srv") None (Some (dial_end l)) []) ∧
      nw_conns w2 !! y =
        Some (mkNetConnState Connected (trim "srv") local None (Some (accept_end l)) []).
Proof.
  assert (Hi : net_inv waiting_net) by (apply run_inv, net_new_inv).
  assert (Hd : dial (mkNetConn (conn_name 2) 2) "srv" waiting_net = (Ok tt, dialed_net))
    by (vm_compute; reflexivity).
  split; [exact Hi|]. split; [exact Hd|].
  apply (net_dial_accept waiting_net 2 "srv" dialed_net Hi); [vm_compute; lia|exact Hd].
Defined.

(** ** What connections should not do *)

(** Hanging up a listener forgets the connections that wait there without closing their
    links: the dialer stays connected and what it writes is taken, for nobody to read. *)
Lemma hangup_forgets_dialers :
  let '(rs, w) := run (OCtl "1" "hangup" :: [OWrite "2" [x61]; OCtl "1" "announce srv"; OAccept "1"])
                      small_net in
  rs = [Ok []; Ok []; Ok []; Ok []] ∧ (cs_phase <$> nw_conns w !! 1%nat) = Some Connected ∧
  bool_decide (accept_end 0 ∈ concat (ends <$> nw_conns w)) = false.
Proof. vm_compute. repeat split. Qed.

(** Between the critical sections of [dial] the listener may hang up: the dial fails and the
    dialer is connected all the same. *)
Lemma dial_fails_connected :
  let w := (run (take 4 net_ops) NetDevice.new).2 in
  let c := mkNetConn "2" 1 in
  match Endpoint.pair w with
  | (Ok (dialer, acceptor), w) =>
      let w := (dial_connect c "srv" dialer w).2 in
      let w := (perform (OCtl "1" "hangup") w).2 in
      let '(r, w) := enqueue_accept (mkNetConn "1" 0) (mkPendingAccept "local:10001" acceptor) w in
      r = Err (EMessage "listen: listener is not active") ∧
      (status c w).1 = Ok "connected local=local:10001 remote=srv"
  | _ => False
  end.
Proof. vm_compute. split; reflexivity. Qed.

(** A reset between the sections of [announce] leaves a connection that listens where nobody
    can dial, and has no address. *)
Lemma reset_during_announce :
  let w := (run [ONew; ONew] NetDevice.new).2 in
  let c := mkNetConn "1" 0 in
  let w := (announce_claim c "srv" w).2 in
  let w := (NetDevice.register_listener "srv" "1" w).2 in
  let w := (reset c w).2 in
  let w := (announce_done c w).2 in
  (status c w).1 = Ok "listening" ∧ nw_listeners w = [] ∧
  (perform (OCtl "2" "dial srv") w).1 = Err (EMessage "dial: no listener for srv").
Proof. vm_compute. repeat split. Qed.

(** An address that is in use is kept as the local address of the connection that failed to
    announce it, which dials in its name. *)
Lemma failed_announce_keeps_address :
  let '(rs, w) := run (take 4 net_ops ++ [OCtl "3" "announce srv"; OCtl "3" "dial srv"]) NetDevice.new in
  drop 4 rs = [Err (EMessage "announce: address already in use: srv"); Ok []] ∧
  (status (mkNetConn "3" 2) w).1 = Ok "connected local=srv remote=srv".
Proof. vm_compute. split; reflexivity. Qed.

(** ** Terminals *)

(** ["clear"] and ["reset"] of a new terminal. *)
Example term_commands :
  let '(r, s) := Terminals.parts "7" cells_empty in
  match r with
  | Ok t =>
      let s := (Queue.write (t_program t) [x0d] s).2 in
      let s := (Text.set (t_size t) "100x40" s).2 in
      let s := (TermData.handle_write [x61] (mkTerminalDataHandle (t_data t), s)).2.2 in
      let s1 := (Terminals.ctl_command t "clear" s).2 in
      let s2 := (Terminals.ctl_command t "reset" s).2 in
      (s_queues s, s_logs s, s_prevs s) = ([[x61]; [x0d]; []], [[x61]], [Some x0d]) ∧
      (s_queues s1, s_logs s1, s_prevs s1) = ([[]; []; []], [[]], [None]) ∧
      (Text.get (t_size t) s1).1 = Ok "100x40" ∧ (Text.get (t_size t) s2).1 = Ok "80x24"
  | _ => False
  end.
Proof. vm_compute. repeat split. Qed.

(** ** VMs *)

(** Two VMs with one alias: when the first is given another, the alias of the second no
    longer leads anywhere, although the second still shows it. *)
Lemma alias_taken_and_lost :
  let run A (m : M VmState A) s := (m s).2 in
  let s := run _ (VmDevice.alloc "vm") (run _ (VmDevice.alloc "vm") VmDevice.new) in
  match VmDevice.resolve "1" s, VmDevice.resolve "2" s with
  | (Ok r1, _), (Ok r2, _) =>
      let s := run _ (VmDevice.set_alias r2 "box") (run _ (VmDevice.set_alias r1 "box") s) in
      let s' := run _ (VmDevice.set_alias r1 "other") s in
      vr_id <$> (match (VmDevice.resolve "box" s).1 with Ok r => Some r | _ => None end) = Some "2" ∧
      (VmDevice.resolve "box" s').1 = Err (EPath "open" "box" NotFound) ∧
      (VmDevice.in_cells (Text.get (vr_alias r2)) s').1 = Ok "box"
  | _, _ => False
  end.
Proof. vm_compute. repeat split. Qed.

(** The first start and stop of a VM under the provider of a new device. *)
Example vm_lifecycle :
  let s := (VmDevice.alloc " wasm " VmDevice.new).2 in
  match VmDevice.resolve "1" s with
  | (Ok r, s) =>
      let p : nat → VmProvider unit := λ _, DeterministicVmProvider in
      let w := (VmDevice.ctl_command p r "start" (s, tt)).2 in
      let w := (VmDevice.ctl_command p r "stop now" w).2 in
      vr_kind r = "wasm" ∧ (VmDevice.in_cells (Text.get (vr_state r)) w.1).1 = Ok "stopped" ∧
      s_logs (vs_cells w.1) = [line_of "start" ++ line_of "stop"] ∧
      (VmDevice.ctl_command p r "fly" w).1 = Err (EKind Invalid)
  | _ => False
  end.
Proof. vm_compute. repeat split. Qed.
