(* ===== verification/HttpText.v ===== *)
(** * star9-fs: HTTP messages and their texts

    Models the data [HttpFs], [HttpFsHandler] and [R2Fs] of
    [crates/star9-fs/src/lib.rs] and [crates/star9-fs/src/http_server.rs] share:
    requests and responses, headers, the textual forms of modes and metadata,
    directory listings and multipart bodies.

    A header map is a [BTreeMap].  Positions in a body are [nat]s. *)

From stdpp Require Import base list numbers option strings pretty.
From Stdlib Require Import ZArith Lia Ascii.
From S2P Require Import Prelude Strs RcText BTree Core FsTrait MemFs Field.

Local Open Scope Z_scope.

(** ** Strings *)

Definition ascii_lower (a : ascii) : ascii :=
  let n := N_of_ascii a in
  if ((65 <=? n) && (n <=? 90))%N then ascii_of_N (n + 32) else a.

Fixpoint to_ascii_lowercase (s : string) : string :=
  match s with
  | EmptyString => ""
  | String a s' => String (ascii_lower a) (to_ascii_lowercase s')
  end.

Definition eq_ignore_ascii_case (a b : string) : bool :=
  bool_decide (to_ascii_lowercase a = to_ascii_lowercase b).

(** [s.trim_end_matches(c)] and [s.trim_matches(c)] *)
Fixpoint trim_end_char (c : ascii) (s : string) : string :=
  match s with
  | EmptyString => ""
  | String a s' =>
      let r := trim_end_char c s' in
      if is_empty_str r && bool_decide (a = c) then "" else String a r
  end.

Definition trim_char (c : ascii) (s : string) : string := trim_end_char c (trim_start_char c s).

(** [s.split_once(p)] for a string [p]; its second part is what [s.find(p)] leaves
    behind the match. *)
Fixpoint split_once_str (p s : string) : option (string * string) :=
  match strip_prefix p s with
  | Some r => Some ("", r)
  | None =>
      match s with
      | EmptyString => None
      | String a s' =>
          match split_once_str p s' with
          | Some (l, r) => Some (String a l, r)
          | None => None
          end
      end
  end.

(** [s.find('/').map(|i| &s[i..]).unwrap_or("/")] *)
Definition from_slash (s : string) : string :=
  match split_once "/" s with Some (_, r) => String "/" r | None => "/" end.

(** [s.split(c).next().unwrap_or(s)] *)
Definition before_char (c : ascii) (s : string) : string := default s (head (split_on c s)).

Definition DQUOTE : ascii := "034"%char.

Definition parse_u64 : string → option Z := parse_unsigned U64_MAX.

(** ** Messages *)

Inductive Method := GET | HEAD | PUT | DELETE | PATCH | OtherMethod (name : string).

#[global] Instance Method_eq_dec : EqDecision Method.
Proof. solve_decision. Defined.

Definition MOVE : Method := OtherMethod "MOVE".

Abbreviation Headers := (btree string string).

Record HttpRequest := mkRequest {
  rq_method : Method;
  rq_url : string;
  rq_headers : Headers;
  rq_body : list byte
}.

Record HttpResponse := mkResponse {
  rp_status : Z;
  rp_headers : Headers;
  rp_body : list byte
}.

Definition response_new (status : Z) : HttpResponse := mkResponse status [] [].
Definition with_header (key value : string) (r : HttpResponse) : HttpResponse :=
  mkResponse (rp_status r) (bt_insert key value (rp_headers r)) (rp_body r).
Definition with_body (body : list byte) (r : HttpResponse) : HttpResponse :=
  mkResponse (rp_status r) (rp_headers r) body.

Module HttpText.

(** [headers.iter().find(|(key, _)| key.eq_ignore_ascii_case(name))] *)
Fixpoint header_value (headers : Headers) (name : string) : option string :=
  match headers with
  | [] => None
  | (k, v) :: rest => if eq_ignore_ascii_case k name then Some v else header_value rest name
  end.

(** ** Modes and times *)

(** The mode of type-and-permission bits. *)
Definition mode_of_bits (bits : Z) : Z :=
  let perm := Z.land bits 511 in
  let type := Z.land bits 61440 in
  if type =? 16384 then Z.lor FileMode.DIR (FileMode.from_perm perm)
  else if type =? 40960 then Z.lor FileMode.SYMLINK (FileMode.from_perm perm)
  else FileMode.from_perm perm.

Definition parse_http_mode (mode : string) : Z :=
  match parse_u32 mode with
  | None => FileMode.from_perm 420
  | Some bits => mode_of_bits bits
  end.

Definition format_http_mode (mode : Z) : string := pretty (FileMode.unix_type_and_perm mode).

Definition unix_secs (t : Z) : Z := Z.max 0 t / 1000000000.
Definition unix_micros (t : Z) : Z := Z.max 0 t / 1000.

Definition dir_mode (perm : Z) : Z := Z.lor FileMode.DIR (FileMode.from_perm perm).
Definition symlink_mode (perm : Z) : Z := Z.lor FileMode.SYMLINK (FileMode.from_perm perm).

(** ** Metadata in headers *)

Definition parse_http_content_range_size (value : string) : option Z :=
  match split_once "/" value with Some (_, r) => parse_u64 (trim r) | None => None end.

Definition default_http_mode (content_type : string) : Z :=
  if decide (content_type = "application/x-directory") then dir_mode 493
  else if decide (content_type = "application/x-symlink") then symlink_mode 511
  else FileMode.from_perm 420.

Definition parse_owner (value : string) : Z * Z :=
  match split_once ":" value with
  | Some (uid, gid) => (default 0 (parse_u32 uid), default 0 (parse_u32 gid))
  | None => (0, 0)
  end.

(** [UNIX_EPOCH + Duration::from_secs(secs)], which panics beyond [SystemTime]. *)
Definition epoch_secs (secs : Z) : Result Z :=
  if secs <=? I64_MAX then Ok (secs * 1000000000) else Panic.

Definition header_size (headers : Headers) (body_len : Z) : Z :=
  match header_value headers "Content-Length" ≫= parse_u64 with
  | Some n => n
  | None => default body_len (header_value headers "Content-Range" ≫= parse_http_content_range_size)
  end.

Definition parse_http_metadata (name : string) (headers : Headers) (body_len : Z) : Result Metadata :=
  let content_type := default "" (header_value headers "Content-Type") in
  let mode := match header_value headers "Content-Mode" with
    | Some m => parse_http_mode m | None => default_http_mode content_type end in
  let size := header_size headers body_len in
  modified ← match header_value headers "Content-Modified" ≫= parse_u64 with
    | Some secs => epoch_secs secs | None => Ok UNIX_EPOCH end;
  let '(uid, gid) := match header_value headers "Content-Ownership" with
    | Some value => parse_owner value | None => (0, 0) end in
  Ok (mkMetadata (base_name name) mode (if FileMode.is_dir mode then Z.max size 2 else size)
        modified uid gid).

(** ** Directory listings *)

(** A directory entry of which only the name and the mode are known. *)
Definition listed_entry (name : string) (mode : Z) : DirEntry :=
  mkDirEntry name (mkMetadata name mode (if FileMode.is_dir mode then 2 else 0) UNIX_EPOCH 0 0).

Definition parse_listing_line (line : string) : option DirEntry :=
  match split_whitespace_str line with
  | [] => None
  | name :: rest =>
      let mode := match rest with
        | m :: _ => parse_http_mode m
        | [] => if ends_with_char "/" name then dir_mode 493 else FileMode.from_perm 420
        end in
      Some (listed_entry (trim_end_char "/" name) mode)
  end.

Definition parse_http_directory (body : list byte) : list DirEntry :=
  omap parse_listing_line (str_lines (from_utf8_lossy body)).

(** ** Parameters of a header *)

(** One turn of the loop over the parts. *)
Definition header_parameter (params : Headers) (part : string) : Headers :=
  match split_once "=" (trim part) with
  | None => params
  | Some (key, raw) =>
      bt_insert (to_ascii_lowercase (trim key)) (trim_char DQUOTE (trim raw)) params
  end.

Definition parse_header_parameters (value : string) : string * Headers :=
  match split_on ";" value with
  | [] => ("", [])
  | media :: parts => (to_ascii_lowercase (trim media), foldl header_parameter [] parts)
  end.

Definition multipart_boundary (headers : Headers) : option string :=
  content_type ← header_value headers "Content-Type";
  let '(media_type, params) := parse_header_parameters content_type in
  if starts_with "multipart/" media_type then bt_get "boundary" params else None.

(** ** Multipart bodies *)

Record HttpMultipartPart := mkPart { mp_headers : Headers; mp_body : list byte }.

Definition CRLF : list byte := [x0d; x0a].

(** [haystack.starts_with(needle)] and the rest behind it *)
Fixpoint strip_bytes (needle bs : list byte) : option (list byte) :=
  match needle, bs with
  | [], _ => Some bs
  | x :: needle, b :: bs => if decide (x = b) then strip_bytes needle bs else None
  | _ :: _, [] => None
  end.

Definition starts_bytes (needle bs : list byte) : bool :=
  match strip_bytes needle bs with Some _ => true | None => false end.

(** The first position of a non-empty [needle]. *)
Fixpoint position (needle bs : list byte) : option nat :=
  if starts_bytes needle bs then Some 0%nat
  else match bs with [] => None | _ :: bs => S <$> position needle bs end.

Definition find_bytes (haystack needle : list byte) (start : nat) : option nat :=
  match needle with
  | [] => None
  | _ => if (length haystack <? start)%nat then None
         else Nat.add start <$> position needle (drop start haystack)
  end.

Definition consume_multipart_newline (body : list byte) (cursor : nat) : option nat :=
  match drop cursor body with
  | x0d :: x0a :: _ => Some (cursor + 2)%nat
  | x0a :: _ => Some (cursor + 1)%nat
  | _ => None
  end.

(** The end of the headers and the start of the body of a part. *)
Definition header_terminator (body : list byte) (start : nat) : option (nat * nat) :=
  let crlf := find_bytes body (CRLF ++ CRLF) start in
  let lf := find_bytes body [x0a; x0a] start in
  match crlf, lf with
  | Some c, Some l => if (c <=? l)%nat then Some (c, (c + 4)%nat) else Some (l, (l + 2)%nat)
  | Some c, None => Some (c, (c + 4)%nat)
  | None, Some l => Some (l, (l + 2)%nat)
  | None, None => None
  end.

Definition header_line (headers : Headers) (line : string) : Headers :=
  match split_once ":" (trim_end_char CR line) with
  | None => headers
  | Some (key, value) => bt_insert (trim key) (trim value) headers
  end.

Definition parse_http_part_headers (body : list byte) (start : nat) : Result (Headers * nat) :=
  match header_terminator body start with
  | None => Err (EMessage "multipart part missing header terminator")
  | Some (header_end, next) =>
      let text := from_utf8_lossy (take (header_end - start) (drop start body)) in
      Ok (foldl header_line [] (str_lines text), next)
  end.

(** The loop of [find_multipart_body_end]: each turn starts behind the last match. *)
Fixpoint body_end_loop (fuel : nat) (body delimiter : list byte) (search : nat) : option (nat * nat) :=
  match fuel with
  | O => None
  | S fuel' =>
      match find_bytes body delimiter search with
      | None => None
      | Some found =>
          match rev (take found body) with
          | x0a :: x0d :: _ => Some (found - 2, found)%nat
          | x0a :: _ => Some (found - 1, found)%nat
          | _ => body_end_loop fuel' body delimiter (S found)
          end
      end
  end.

Definition find_multipart_body_end (body delimiter : list byte) (start : nat) : option (nat * nat) :=
  if starts_bytes delimiter (drop start body) then Some (start, start)
  else body_end_loop (S (length body)) body delimiter start.

(** The loop of [parse_http_multipart], at a delimiter; [fuel] bounds the parts. *)
Fixpoint parts_loop (fuel : nat) (body delimiter : list byte) (cursor : nat)
    (parts : list HttpMultipartPart) : Result (list HttpMultipartPart) :=
  match fuel with
  | O => NoFuel
  | S fuel' =>
      if negb (starts_bytes delimiter (drop cursor body)) then
        Err (EMessage "multipart body has invalid boundary")
      else
        let cursor := (cursor + length delimiter)%nat in
        match drop cursor body with
        | x2d :: x2d :: _ => Ok parts
        | _ =>
            cursor ← ok_or_res (consume_multipart_newline body cursor)
              (EMessage "multipart body missing newline");
            '(headers, body_start) ← parse_http_part_headers body cursor;
            '(body_end, next) ← ok_or_res (find_multipart_body_end body delimiter body_start)
              (EMessage "multipart part missing closing boundary");
            let part := mkPart headers (take (body_end - body_start) (drop body_start body)) in
            parts_loop fuel' body delimiter next (parts ++ [part])
        end
  end.

Definition parse_http_multipart (body : list byte) (boundary : string) : Result (list HttpMultipartPart) :=
  let delimiter := bytes_of ("--" +:+ boundary) in
  cursor ← ok_or_res (find_bytes body delimiter 0) (EMessage "multipart body missing boundary");
  parts_loop (S (length body)) body delimiter cursor [].
End HttpText.

(** ** star9-fs: files whose contents are fetched or sent whole

    Models [HttpFile], [HttpWriteFile] and [R2WriteFile] of
    [crates/star9-fs/src/lib.rs].  A file open for reading holds the body it was opened
    with; a file open for writing collects its contents and sends them when it is
    closed.  The two kinds of file for writing differ in where they are sent: [put]. *)

Record HttpFile := mkHttpFile {
  hf_metadata : Metadata;
  hf_data : list byte;
  hf_pos : Z;
  hf_closed : bool
}.

Record HttpWriteFile := mkWriteFile {
  wf_path : string;
  wf_metadata : Metadata;
  wf_data : list byte;
  wf_offset : Z;
  wf_closed : bool
}.

Inductive HttpHandle := BoxDirectory (d : DirFile) | BoxRead (f : HttpFile) | BoxWrite (f : HttpWriteFile).

#[global] Instance http_box_dir : BoxDir HttpHandle := BoxDirectory.

Module HttpFiles.

(** ** Reading *)

Section Read.
Context {W : Type}.

Definition set_pos (pos : Z) (f : HttpFile) : HttpFile :=
  mkHttpFile (hf_metadata f) (hf_data f) pos (hf_closed f).

Definition open_only {A} (m : M (HttpFile * W) A) : M (HttpFile * W) A := λ '(f, w),
  if hf_closed f then (Err (EKind Closed), (f, w)) else m (f, w).

Definition read (len : Z) : M (HttpFile * W) (list byte) := open_only (λ '(f, w),
  let bs := window (hf_data f) (hf_pos f) len in (Ok bs, (set_pos (hf_pos f + blen bs) f, w))).

Definition read_at (len offset : Z) : M (HttpFile * W) (list byte) := open_only (λ '(f, w),
  (Ok (window (hf_data f) offset len), (f, w))).

(** [Cursor::seek]: a position is any [u64]. *)
Definition cursor_seek (f : HttpFile) (pos : SeekFrom) : option Z :=
  let next := match pos with
    | SeekStart pos => pos
    | SeekEnd off => blen (hf_data f) + off
    | SeekCurrent off => hf_pos f + off
    end in
  if (next <? 0) || (U64_MAX <? next) then None else Some next.

Definition seek (pos : SeekFrom) : M (HttpFile * W) Z := open_only (λ '(f, w),
  match cursor_seek f pos with
  | None => (Err (from_io_error IoInvalidInput), (f, w))
  | Some next => (Ok next, (set_pos next f, w))
  end).

Definition stat : M (HttpFile * W) Metadata := by_ref (λ f, mret (hf_metadata f)).

Definition close : M (HttpFile * W) unit := open_only (λ '(f, w),
  (Ok tt, (mkHttpFile (hf_metadata f) (hf_data f) (hf_pos f) true, w))).

#[global] Instance read_handle : FileHandle W HttpFile := {
  fh_read := read;
  fh_write _ := throw (EKind PermissionDenied);
  fh_read_at := read_at;
  fh_write_at := default_write_at seek (λ _, throw (EKind PermissionDenied));
  fh_seek := seek;
  fh_stat := stat;
  fh_read_dir := default_read_dir stat;
  fh_sync := unsupported;
  fh_close := close
}.
End Read.

(** ** Writing *)

Section Write.
Context {W : Type} (put : string → Z → list byte → M W unit).

Definition grow (data : list byte) (n : Z) : option (list byte) :=
  if blen data <? n then vec_resize data n else Some data.

(** The sum of the offset and the length is a [usize]. *)
Definition wf_write (data : list byte) : M (HttpWriteFile * W) Z := λ '(f, w),
  if wf_closed f then (Err (EKind Closed), (f, w))
  else
    let start := wf_offset f in
    let fin := start + blen data in
    if USIZE_MAX <? fin then (Panic, (f, w))
    else
      match d ← grow (wf_data f) start; grow d fin with
      | None => (Panic, (f, w))
      | Some d =>
          let d := take (Z.to_nat start) d ++ data ++ drop (Z.to_nat fin) d in
          (Ok (blen data),
           (mkWriteFile (wf_path f) (Meta.set_size (blen d) (wf_metadata f)) d fin (wf_closed f), w))
      end.

Definition wf_set_offset (offset : Z) (f : HttpWriteFile) : HttpWriteFile :=
  mkWriteFile (wf_path f) (wf_metadata f) (wf_data f) offset (wf_closed f).

Definition wf_write_at (data : list byte) (offset : Z) : M (HttpWriteFile * W) Z := λ '(f, w),
  wf_write data (wf_set_offset offset f, w).

(** [next as u64] *)
Definition wf_seek (pos : SeekFrom) : M (HttpWriteFile * W) Z := λ '(f, w),
  let next := match pos with
    | SeekStart pos => pos
    | SeekEnd off => blen (wf_data f) + off
    | SeekCurrent off => wf_offset f + off
    end in
  if next <? 0 then (Err (EKind Invalid), (f, w))
  else
    let next := next mod (U64_MAX + 1) in
    (Ok next, (wf_set_offset next f, w)).

Definition wf_read (len : Z) : M (HttpWriteFile * W) (list byte) := throw (EKind PermissionDenied).

Definition wf_stat : M (HttpWriteFile * W) Metadata := by_ref (λ f, mret (wf_metadata f)).

Definition wf_close : M (HttpWriteFile * W) unit :=
  f ← gets fst;
  guard_err (wf_closed f) (EKind Closed) ;;
  on_snd (put (wf_path f) (m_mode (wf_metadata f)) (wf_data f)) ;;
  modify (λ '(f, w),
    (mkWriteFile (wf_path f) (wf_metadata f) (wf_data f) (wf_offset f) true, w)).

#[global] Instance write_handle : FileHandle W HttpWriteFile := {
  fh_read := wf_read;
  fh_write := wf_write;
  fh_read_at := default_read_at wf_seek wf_read;
  fh_write_at := wf_write_at;
  fh_seek := wf_seek;
  fh_stat := wf_stat;
  fh_read_dir := default_read_dir wf_stat;
  fh_sync := unsupported;
  fh_close := wf_close
}.

(** [Box<dyn FileHandle>] *)
Definition box_method {A} (dir : M (DirFile * W) A) (read : M (HttpFile * W) A)
    (write : M (HttpWriteFile * W) A) : M (HttpHandle * W) A := λ '(h, w),
  match h with
  | BoxDirectory d => let '(r, (d, w)) := dir (d, w) in (r, (BoxDirectory d, w))
  | BoxRead f => let '(r, (f, w)) := read (f, w) in (r, (BoxRead f, w))
  | BoxWrite f => let '(r, (f, w)) := write (f, w) in (r, (BoxWrite f, w))
  end.

Definition http_handle : FileHandle W HttpHandle := {|
  fh_read len := box_method (fh_read len) (fh_read len) (fh_read len);
  fh_write data := box_method (fh_write data) (fh_write data) (fh_write data);
  fh_read_at len offset := box_method (fh_read_at len offset) (fh_read_at len offset) (fh_read_at len offset);
  fh_write_at data offset := box_method (fh_write_at data offset) (fh_write_at data offset) (fh_write_at data offset);
  fh_seek pos := box_method (fh_seek pos) (fh_seek pos) (fh_seek pos);
  fh_stat := box_method fh_stat fh_stat fh_stat;
  fh_read_dir count := box_method (fh_read_dir count) (fh_read_dir count) (fh_read_dir count);
  fh_sync := box_method fh_sync fh_sync fh_sync;
  fh_close := box_method fh_close fh_close fh_close
|}.
End Write.

(** [HttpFile { metadata, data: Cursor::new(body), closed: false }] *)
Definition read_file_of (metadata : Metadata) (body : list byte) : HttpFile :=
  mkHttpFile metadata body 0 false.

(** The file that [open_file] makes for writing, with the contents it starts from. *)
Definition write_file_of (name : string) (flags perm : Z) (data : list byte) : HttpWriteFile :=
  mkWriteFile name
    (Meta.file name (if perm =? 0 then 420 else FileMode.perm perm) (blen data))
    data (if OpenFlags.contains flags OpenFlags.APPEND then blen data else 0) false.
End HttpFiles.
