(* ===== verification/HttpFs.v ===== *)
(** * star9-fs: a filesystem over HTTP

    Models [HttpFs] of [crates/star9-fs/src/lib.rs]: its requests, its cache with
    validators, and its reading of plain and multipart answers.  The [HttpTransport] is
    a parameter: a computation over its own world [V].

    The world of an [HttpFs] is the transport's world, the cache, the names to ignore
    and the clock: [current_time()] takes the next of [hw_clock]. *)

From stdpp Require Import base list numbers option strings pretty.
From Stdlib Require Import ZArith Lia Ascii.
From S2P Require Import Prelude Strs RcText BTree Core FsTrait Field HttpText.

Local Open Scope Z_scope.

(** ** The cache *)

Record HttpNode := mkHttpNode {
  hn_metadata : Metadata;
  hn_body : list byte;
  hn_entries : list DirEntry
}.

Record HttpValidators := mkValidators { va_etag : option string; va_last_modified : option string }.

Inductive HttpFsCachePayload (T : Type) := PayValue (t : T) | PayNotFound.
Arguments PayValue {T}. Arguments PayNotFound {T}.

Record HttpFsCacheEntry (T : Type) := mkCached {
  hc_payload : HttpFsCachePayload T;
  hc_expires_at : Z;
  hc_validators : HttpValidators
}.
Arguments mkCached {T}. Arguments hc_payload {T}. Arguments hc_expires_at {T}.
Arguments hc_validators {T}.

Abbreviation Cached T := (btree string (HttpFsCacheEntry T)).

Record HttpFsCache := mkHttpCache {
  hx_ttl : Z;
  hx_stat : Cached Metadata;
  hx_node : Cached HttpNode
}.

Record HttpWorld (V : Type) := mkHttpWorld {
  hw_inner : V;
  hw_cache : HttpFsCache;
  hw_ignores : list string;
  hw_clock : nat → Z
}.
Arguments mkHttpWorld {V}. Arguments hw_inner {V}. Arguments hw_cache {V}.
Arguments hw_ignores {V}. Arguments hw_clock {V}.

Module HttpFs.
Import HttpText.

(** ** Validators *)

Definition no_validators : HttpValidators := mkValidators None None.

Definition validators_empty (v : HttpValidators) : bool :=
  match va_etag v, va_last_modified v with None, None => true | _, _ => false end.

Definition validators_from_headers (headers : Headers) : HttpValidators :=
  mkValidators (header_value headers "ETag") (header_value headers "Last-Modified").

Definition response_validators {T} (headers : Headers) (stale : option (HttpFsCacheEntry T))
    : HttpValidators :=
  let validators := validators_from_headers headers in
  if validators_empty validators then
    match stale with Some entry => hc_validators entry | None => validators end
  else validators.

Definition add_validator_headers (headers : Headers) (v : HttpValidators) : Headers :=
  let headers := match va_etag v with
    | Some etag => bt_insert "If-None-Match" etag headers | None => headers end in
  match va_last_modified v with
  | Some last_modified => bt_insert "If-Modified-Since" last_modified headers
  | None => headers
  end.

(** [name.ends_with(suffix)] *)
Definition ends_with_str (suffix name : string) : bool :=
  starts_bytes (rev (bytes_of suffix)) (rev (bytes_of name)).

Definition normalize_http_path (name : string) : string :=
  let cleaned := clean_path name in
  if decide (cleaned = ".") then "/" else "/" +:+ cleaned.

Definition response_status_result (name : string) (response : HttpResponse) : Result HttpResponse :=
  if (200 <=? rp_status response) && (rp_status response <=? 299) then Ok response
  else if rp_status response =? 404 then Err (EPath "httpfs" name NotFound)
  else Err (EMessage ("httpfs " +:+ name +:+ " returned HTTP " +:+ pretty (rp_status response))).

Section Fs.
Context {V : Type} (transport : HttpRequest → M V HttpResponse) (base_url : string) (fuel : nat).
Local Abbreviation W := (HttpWorld V).

(** [with_cache_ttl], which cuts the slashes at the end of the base URL. *)
Definition base_of (url : string) : string := trim_end_char "/" url.

Definition with_cache_ttl (v : V) (clock : nat → Z) (ttl : Z) : W :=
  mkHttpWorld v (mkHttpCache ttl [] []) [] clock.

Definition in_transport {A} (m : M V A) : M W A :=
  zoom hw_inner (λ v w, mkHttpWorld v (hw_cache w) (hw_ignores w) (hw_clock w)) m.

Definition update_cache (f : HttpFsCache → HttpFsCache) : M W unit :=
  modify (λ w, mkHttpWorld (hw_inner w) (f (hw_cache w)) (hw_ignores w) (hw_clock w)).

(** [current_time()] *)
Definition now : M W Z := λ w,
  (Ok (hw_clock w 0%nat),
   mkHttpWorld (hw_inner w) (hw_cache w) (hw_ignores w) (λ n, hw_clock w (S n))).

Definition cache_ttl : M W Z := gets (λ w, hx_ttl (hw_cache w)).
Definition set_cache_ttl (ttl : Z) : M W unit := update_cache (λ _, mkHttpCache ttl [] []).

Definition ignore (names : list string) : M W unit :=
  modify (λ w, mkHttpWorld (hw_inner w) (hw_cache w) (hw_ignores w ++ names) (hw_clock w)).

Definition should_ignore (name : string) : M W bool :=
  gets (λ w, existsb (λ suffix, ends_with_str suffix name) (hw_ignores w)).

Definition build_url (name : string) : string := base_url +:+ normalize_http_path name.

(** ** Looking up and storing *)

Definition set_stat (c : Cached Metadata) (x : HttpFsCache) : HttpFsCache :=
  mkHttpCache (hx_ttl x) c (hx_node x).
Definition set_node (c : Cached HttpNode) (x : HttpFsCache) : HttpFsCache :=
  mkHttpCache (hx_ttl x) (hx_stat x) c.

Definition cache_lookup {T} (entries : Cached T) (name : string) : M W (option (HttpFsCachePayload T)) :=
  t ← now;
  mret (match bt_get name entries with
        | Some entry => if t <? hc_expires_at entry then Some (hc_payload entry) else None
        | None => None
        end).

Definition cache_stale_value {T} (entries : Cached T) (name : string) : option (HttpFsCacheEntry T) :=
  match bt_get name entries with
  | Some entry => match hc_payload entry with PayValue _ => Some entry | PayNotFound => None end
  | None => None
  end.

Definition cache_store {T} (put : Cached T → HttpFsCache → HttpFsCache)
    (get : HttpFsCache → Cached T) (ttl : Z) (name : string) (payload : HttpFsCachePayload T)
    (validators : HttpValidators) : M W unit :=
  if ttl =? 0 then mret tt
  else
    t ← now;
    expires_at ← lift (time_plus t ttl);
    update_cache (λ x, put (bt_insert name (mkCached payload expires_at validators) (get x)) x).

(** [cached_stat] and [cached_node]: the answer of a live entry. *)
Definition cached {T} (get : HttpFsCache → Cached T) (name : string) : M W (option (Result T)) :=
  x ← gets hw_cache;
  found ← cache_lookup (get x) name;
  mret (match found with
        | None => None
        | Some (PayValue t) => Some (Ok t)
        | Some PayNotFound => Some (Err (EPath "httpfs" name NotFound))
        end).

(** [cache_stat_http_result] and [cache_node_http_result] *)
Definition cache_http_result {T} (put : Cached T → HttpFsCache → HttpFsCache)
    (get : HttpFsCache → Cached T) (name : string) (result : Result T) (validators : HttpValidators)
    : M W unit :=
  ttl ← cache_ttl;
  match result with
  | Ok t => cache_store put get ttl name (PayValue t) validators
  | Err e =>
      if kind_is NotFound e then cache_store put get ttl name PayNotFound no_validators
      else mret tt
  | _ => mret tt
  end.

(** ** Invalidating *)

Definition invalidate_exact (name : string) (x : HttpFsCache) : HttpFsCache :=
  mkHttpCache (hx_ttl x) (bt_remove name (hx_stat x)) (bt_remove name (hx_node x)).

Definition outside_tree (name path : string) : bool :=
  bool_decide (path ≠ name) && negb (starts_with (name +:+ "/") path).

Definition invalidate_tree (name : string) (x : HttpFsCache) : HttpFsCache :=
  if decide (name = ".") then mkHttpCache (hx_ttl x) [] []
  else mkHttpCache (hx_ttl x) (bt_retain (outside_tree name) (hx_stat x))
         (bt_retain (outside_tree name) (hx_node x)).

(** [invalidate_cache_after_put], [_remove] and [_patch] *)
Definition invalidate_after_change (name : string) : M W unit :=
  let name := clean_path name in
  update_cache (λ x, invalidate_exact (parent_path name) (invalidate_tree name x)).

Definition invalidate_cache_after_rename (old new : string) : M W unit :=
  let old := clean_path old in
  let new := clean_path new in
  update_cache (λ x,
    invalidate_exact (parent_path new) (invalidate_exact (parent_path old)
      (invalidate_tree new (invalidate_tree old x)))).

(** ** Requests *)

Definition raw_request (method : Method) (name : string) (headers : Headers) (body : list byte)
    : M W HttpResponse :=
  in_transport (transport (mkRequest method (build_url name) headers body)).

Definition request (method : Method) (name : string) (headers : Headers) (body : list byte)
    : M W HttpResponse :=
  response ← raw_request method name headers body;
  lift (response_status_result name response).

Definition insert_change_timestamp (headers : Headers) : M W Headers :=
  t ← now; mret (bt_insert "Change-Timestamp" (pretty (unix_micros t)) headers).

(** ** Reading an answer *)

Definition normalize_multipart_path (raw : string) : string :=
  let trimmed := trim raw in
  let without_base := default trimmed (strip_prefix base_url trimmed) in
  let path := match split_once_str "://" without_base with
    | Some (_, remainder) => from_slash remainder
    | None => without_base
    end in
  let cleaned := trim_start_char "/" (trim_char DQUOTE path) in
  if is_empty_str cleaned then "." else clean_path cleaned.

Definition multipart_part_path (headers : Headers) : option string :=
  match header_value headers "Content-Location" with
  | Some path => Some (normalize_multipart_path path)
  | None =>
      disposition ← header_value headers "Content-Disposition";
      let params := (parse_header_parameters disposition).2 in
      filename ← match bt_get "filename" params with
        | Some f => Some f | None => bt_get "filename*" params end;
      Some (normalize_multipart_path filename)
  end.

(** What the loop over the parts has: the directory itself, and its entries by name. *)
Abbreviation Collected := (option (Metadata * list byte) * btree string DirEntry)%type.

Definition collect_part (name : string) (acc : Collected) (part : HttpMultipartPart)
    : Result Collected :=
  let '(root, entries) := acc in
  match multipart_part_path (mp_headers part) with
  | None => Ok acc
  | Some part_path =>
      metadata ← parse_http_metadata part_path (mp_headers part) (blen (mp_body part));
      if decide (part_path = name) then
        Ok (Some (metadata, mp_body part),
            foldl (λ m e, bt_insert (d_name e) e m) entries (parse_http_directory (mp_body part)))
      else if decide (parent_path part_path = name) then
        let entry_name := base_name part_path in
        Ok (root, bt_insert entry_name (mkDirEntry entry_name (Meta.set_name entry_name metadata))
                    entries)
      else Ok acc
  end.

Fixpoint collect_parts (name : string) (acc : Collected) (parts : list HttpMultipartPart)
    : Result Collected :=
  match parts with
  | [] => Ok acc
  | part :: parts => acc ← collect_part name acc part; collect_parts name acc parts
  end.

Definition parse_multipart_node (name boundary : string) (body : list byte) : Result HttpNode :=
  let name := clean_path name in
  parts ← parse_http_multipart body boundary;
  '(root, entries) ← collect_parts name (None, []) parts;
  match root with
  | None => Err (EMessage ("httpfs " +:+ name +:+ " returned malformed multipart directory listing"))
  | Some (metadata, root_body) => Ok (mkHttpNode metadata root_body (bt_values entries))
  end.

Definition parse_node (name : string) (response : HttpResponse) : Result HttpNode :=
  match multipart_boundary (rp_headers response) with
  | Some boundary => parse_multipart_node name boundary (rp_body response)
  | None =>
      metadata ← parse_http_metadata name (rp_headers response) (blen (rp_body response));
      Ok (mkHttpNode metadata (rp_body response)
            (if Meta.is_dir metadata then parse_http_directory (rp_body response) else []))
  end.

(** The common shape of [load_node_with_headers] and [load_metadata]. *)
Definition load {T} (put : Cached T → HttpFsCache → HttpFsCache) (get : HttpFsCache → Cached T)
    (op : string) (method : Method) (unmodified : string)
    (parse : HttpResponse → Result T) (name : string) (headers : Headers) : M W T :=
  found ← cached get name;
  match found with
  | Some result => lift result
  | None =>
      ignored ← should_ignore name;
      if (ignored : bool) then throw (EPath op name NotFound)
      else
        x ← gets hw_cache;
        let stale := cache_stale_value (get x) name in
        let headers := match stale with
          | Some entry => add_validator_headers headers (hc_validators entry)
          | None => headers
          end in
        response ← raw_request method name headers [];
        let validators := response_validators (rp_headers response) stale in
        let result :=
          if rp_status response =? 304 then
            match hc_payload <$> stale with
            | Some (PayValue t) => Ok t
            | _ => Err (EMessage ("httpfs " +:+ name +:+ unmodified))
            end
          else response ← response_status_result name response; parse response in
        cache_http_result put get name result validators ;;
        lift result
  end.

Definition load_node_with_headers (name : string) (headers : Headers) : M W HttpNode :=
  load set_node hx_node "open" GET " returned HTTP 304 without a cached node" (parse_node name)
    name headers.

Definition load_node (name : string) : M W HttpNode := load_node_with_headers name [].

Definition load_metadata (name : string) : M W Metadata :=
  load set_stat hx_stat "stat" HEAD " returned HTTP 304 without cached metadata"
    (λ response, parse_http_metadata name (rp_headers response) (blen (rp_body response)))
    name [].

(** ** Sending *)

Definition put_node (name content_type : string) (mode : Z) (body : list byte) : M W unit :=
  let headers := bt_insert "Content-Mode" (format_http_mode mode)
    (bt_insert "Content-Type" content_type []) in
  t ← now;
  let headers := bt_insert "Content-Length" (pretty (blen body))
    (bt_insert "Content-Ownership" "0:0"
      (bt_insert "Content-Modified" (pretty (unix_secs t)) headers)) in
  headers ← insert_change_timestamp headers;
  request PUT name headers body ;;
  invalidate_after_change name.

Definition patch_tar (name : string) (body : list byte) : M W unit :=
  if negb (valid_path name) then throw (EPath "patch" name NotFound)
  else
    let name := clean_path name in
    headers ← insert_change_timestamp
      (bt_insert "Content-Length" (pretty (blen body))
        (bt_insert "Content-Type" "application/x-tar" []));
    request PATCH name headers body ;;
    invalidate_after_change name.

(** ** [impl FileSystem for HttpFs] *)

Definition put_file (path : string) (mode : Z) (body : list byte) : M W unit :=
  put_node path "application/octet-stream" mode body.

#[local] Instance http_files : FileHandle W HttpHandle := HttpFiles.http_handle put_file.

Definition open (ctx : FsContext) (name : string) : M W HttpHandle :=
  if negb (valid_path name) then throw (EPath "open" name NotFound)
  else
    node ← load_node (clean_path name);
    mret (if Meta.is_dir (hn_metadata node)
          then directory_file (hn_metadata node) (hn_entries node)
          else BoxRead (HttpFiles.read_file_of (hn_metadata node) (hn_body node))).

Definition stat (ctx : FsContext) (name : string) : M W Metadata :=
  if negb (valid_path name) then throw (EPath "stat" name NotFound)
  else load_metadata (clean_path name).

Definition read_dir (ctx : FsContext) (name : string) : M W (list DirEntry) :=
  if negb (valid_path name) then throw (EPath "readdir" name NotFound)
  else
    let name := clean_path name in
    found ← cached hx_node name;
    node ← match found with
      | Some result => lift result
      | None => load_node_with_headers name (bt_insert "Accept" "multipart/mixed" [])
      end;
    if negb (Meta.is_dir (hn_metadata node)) then throw (EPath "readdir" name Invalid)
    else mret (sort_entries (hn_entries node)).

(** [read_file(self, &name).unwrap_or_default()] *)
Definition old_contents (name : string) : M W (list byte) :=
  r ← attempt (read_file (default_fs open stat (λ _, unsupported) (λ _ _, unsupported)) fuel name);
  match r with
  | Ok data => mret data
  | Err _ => mret []
  | Panic => panic
  | NoFuel => no_fuel
  end.

Definition open_file (name : string) (flags perm : Z) : M W HttpHandle :=
  if negb (OpenFlags.is_write flags) then open Ctx.new name
  else
    let name := clean_path name in
    data ← (if OpenFlags.contains flags OpenFlags.TRUNC || OpenFlags.contains flags OpenFlags.CREATE
            then mret [] else old_contents name);
    mret (BoxWrite (HttpFiles.write_file_of name flags perm data)).

Definition create (name : string) : M W HttpHandle :=
  open_file name (Z.lor (Z.lor OpenFlags.WRONLY OpenFlags.CREATE) OpenFlags.TRUNC)
    (FileMode.from_perm 420).

Definition mkdir (name : string) (perm : Z) : M W unit :=
  put_node name "application/x-directory" (dir_mode (FileMode.perm perm)) [].

Definition remove (name : string) : M W unit :=
  headers ← insert_change_timestamp [];
  request DELETE name headers [] ;;
  invalidate_after_change name.

Definition rename (old new : string) : M W unit :=
  headers ← insert_change_timestamp (bt_insert "Destination" (normalize_http_path new) []);
  request MOVE old headers [] ;;
  invalidate_cache_after_rename old new.

Definition symlink (old new : string) : M W unit :=
  put_node new "application/x-symlink" (symlink_mode 511) (bytes_of old).

Definition readlink (name : string) : M W string :=
  node ← load_node name;
  if negb (FileMode.is_symlink (m_mode (hn_metadata node))) then throw (EPath "readlink" name Invalid)
  else mret (from_utf8_lossy (hn_body node)).

Definition fs : FileSystem W HttpHandle := {|
  fs_open := open;
  fs_stat := stat;
  fs_lstat := default_lstat stat;
  fs_read_dir := read_dir;
  fs_create := create;
  fs_open_file := open_file;
  fs_mkdir := mkdir;
  fs_remove := remove;
  fs_rename := rename;
  fs_link _ _ := unsupported;
  fs_chmod _ _ := unsupported;
  fs_chown _ _ _ := unsupported;
  fs_chtimes _ _ := unsupported;
  fs_truncate _ _ := unsupported;
  fs_symlink := symlink;
  fs_readlink := readlink;
  fs_set_xattr _ _ _ := unsupported;
  fs_get_xattr _ _ := unsupported;
  fs_list_xattrs _ := unsupported;
  fs_remove_xattr _ _ := unsupported
|}.
End Fs.
End HttpFs.
