(* ===== verification/MetaCache.v ===== *)
(** * star9-fs: the metadata cache

    Models [MetaCacheFs] and [MetaCacheFile] of [crates/star9-fs/src/metacache.rs]
    over any inner [FileSystem].

    The world of a cache is the inner filesystem's world [V], the cache behind its lock,
    the clock ([Instant::now()] takes the next of [cw_clock], in nanoseconds) and the
    refresh threads that have been spawned and have not ended. A section under the lock
    is one step ([locked]: a panic inside poisons the lock, and every later [lock()]
    panics). A refresh thread asks the inner filesystem, reads the clock, and stores, in
    three steps of [step_refresh]; a call of the filesystem has a [yield] between its
    steps, where the threads that [cw_schedule] names take theirs. The threads are the
    native ones: on [wasm32] the refresh is run within the call. *)

From stdpp Require Import base list numbers option strings gmap.
From Stdlib Require Import ZArith Lia Ascii.
From S2P Require Import Prelude Strs Core FsTrait.

Local Open Scope Z_scope.

Inductive CacheKind := KStat | KLstat | KReadDir.

#[global] Instance CacheKind_eq_dec : EqDecision CacheKind.
Proof. solve_decision. Defined.

#[global] Instance CacheKind_countable : Countable CacheKind.
Proof.
  apply (inj_countable' (λ k, match k with KStat => 0 | KLstat => 1 | KReadDir => 2 end)
    (λ n, match n with 0 => KStat | 1 => KLstat | _ => KReadDir end)).
  by intros [].
Defined.

(** [CacheKey]: the path and the kind. *)
Abbreviation CacheKey := (string * CacheKind)%type.

Inductive CachePayload :=
| PMetadata (r : Result Metadata)
| PReadDir (r : Result (list DirEntry)).

Record CacheEntry := mkCacheEntry {
  ce_payload : CachePayload;
  ce_renew_at : option Z;
  ce_expires_at : Z;
  ce_refreshing : bool
}.

(** Where a refresh thread is: about to ask the inner filesystem, holding its answer, or
    holding the entry it is about to store. *)
Inductive RefreshPoint :=
| Asking
| Holding (payload : CachePayload)
| Storing (entry : CacheEntry).

(** A refresh thread: the path as it was asked for, its key, which names the call, and
    where the thread is. *)
Record Refresh := mkRefresh { rf_path : string; rf_key : CacheKey; rf_at : RefreshPoint }.

Record CacheWorld (V : Type) := mkCacheWorld {
  cw_inner : V;
  cw_ttl : Z;
  cw_poisoned : bool;
  cw_cache : gmap CacheKey CacheEntry;
  cw_clock : nat → Z;
  cw_refreshes : list Refresh;
  cw_schedule : nat → list nat
}.
Arguments mkCacheWorld {V}. Arguments cw_inner {V}. Arguments cw_ttl {V}.
Arguments cw_poisoned {V}. Arguments cw_cache {V}. Arguments cw_clock {V}.
Arguments cw_refreshes {V}. Arguments cw_schedule {V}.

Module MetaCache.

Definition DEFAULT_TTL : Z := 30000000000.

Definition normalize_cache_path (path : string) : string := clean_path (trim_start_char "/" path).

Definition key (path : string) (kind : CacheKind) : CacheKey := (normalize_cache_path path, kind).

Section Cache.
Context {V H : Type} `{!FileHandle V H} (inner : FileSystem V H).
Local Abbreviation C A := (M (CacheWorld V) A).

Definition with_ttl (v : V) (clock : nat → Z) (schedule : nat → list nat) (ttl : Z)
    : CacheWorld V :=
  mkCacheWorld v ttl false ∅ clock [] schedule.

Definition set_inner (v : V) (w : CacheWorld V) : CacheWorld V :=
  mkCacheWorld v (cw_ttl w) (cw_poisoned w) (cw_cache w) (cw_clock w) (cw_refreshes w)
    (cw_schedule w).
Definition set_cache (c : gmap CacheKey CacheEntry) (w : CacheWorld V) : CacheWorld V :=
  mkCacheWorld (cw_inner w) (cw_ttl w) (cw_poisoned w) c (cw_clock w) (cw_refreshes w)
    (cw_schedule w).
Definition set_refreshes (rs : list Refresh) (w : CacheWorld V) : CacheWorld V :=
  mkCacheWorld (cw_inner w) (cw_ttl w) (cw_poisoned w) (cw_cache w) (cw_clock w) rs
    (cw_schedule w).
Definition poison (w : CacheWorld V) : CacheWorld V :=
  mkCacheWorld (cw_inner w) (cw_ttl w) true (cw_cache w) (cw_clock w) (cw_refreshes w)
    (cw_schedule w).

(** [self.inner.f(..)] *)
Definition in_inner {A} (m : M V A) : C A := zoom cw_inner set_inner m.

(** A section under [self.state.lock().unwrap()]. *)
Definition locked {A} (m : C A) : C A := λ w,
  if cw_poisoned w then (Panic, w)
  else match m w with
       | (Panic, w') => (Panic, poison w')
       | answer => answer
       end.

Definition update_cache (f : gmap CacheKey CacheEntry → gmap CacheKey CacheEntry) : C unit :=
  modify (λ w, set_cache (f (cw_cache w)) w).

(** [Instant::now()] *)
Definition now : C Z := λ w,
  (Ok (cw_clock w 0%nat),
   mkCacheWorld (cw_inner w) (cw_ttl w) (cw_poisoned w) (cw_cache w) (λ n, cw_clock w (S n))
     (cw_refreshes w) (cw_schedule w)).

(** [now + duration] *)
Definition later (t duration : Z) : C Z := lift (time_plus t duration).

Definition ttl : C Z := locked (gets cw_ttl).
Definition set_ttl (t : Z) : C unit :=
  locked (modify (λ w, mkCacheWorld (cw_inner w) t (cw_poisoned w) (cw_cache w) (cw_clock w)
    (cw_refreshes w) (cw_schedule w))).

(** ** Invalidation *)

Definition invalidate (path : string) : C unit :=
  let path := normalize_cache_path path in
  locked (update_cache (λ c,
    delete (path, KReadDir) (delete (path, KLstat) (delete (path, KStat) c)))).

(** The keys [invalidate_dir] drops. *)
Definition below_path (path : string) (k : CacheKey) : bool :=
  bool_decide (k.1 = path) || bool_decide (path = ".") || starts_with (path +:+ "/") k.1.

Definition invalidate_dir (path : string) : C unit :=
  let path := normalize_cache_path path in
  locked (update_cache (filter (λ kv, negb (below_path path kv.1) = true))).

Definition invalidate_all : C unit := locked (update_cache (λ _, ∅)).

Definition invalidate_parent_listing (path : string) : C unit :=
  locked (update_cache (delete (parent_path (normalize_cache_path path), KReadDir))).

(** ** Looking up and storing *)

(** The payload of a live entry, and whether this lookup starts its refresh. *)
Definition get_cached (k : CacheKey) : C (option (CachePayload * bool)) := locked (
  t ← now;
  c ← gets cw_cache;
  match c !! k with
  | None => mret None
  | Some entry =>
      if ce_expires_at entry <=? t then update_cache (delete k) ;; mret None
      else
        let due := match ce_renew_at entry with Some r => r <=? t | None => false end in
        let refresh := due && negb (ce_refreshing entry) in
        (if refresh then
           update_cache (<[k := mkCacheEntry (ce_payload entry) (ce_renew_at entry)
             (ce_expires_at entry) true]>)
         else mret tt) ;;
        mret (Some (ce_payload entry, refresh))
  end).

Definition is_error (p : CachePayload) : bool :=
  match p with
  | PMetadata r => negb (is_Ok r)
  | PReadDir r => negb (is_Ok r)
  end.

(** The first section of [set_cached]: the time to live is read, and the entry made
    unless it is zero. *)
Definition new_entry (p : CachePayload) : C (option CacheEntry) :=
  ttl ← ttl;
  if ttl =? 0 then mret None
  else
    t ← now;
    renew ← later t (ttl / 2);
    expires ← later t (if is_error p then ttl / 2 else ttl);
    mret (Some (mkCacheEntry p (if is_error p then None else Some renew) expires false)).

Definition insert_entry (k : CacheKey) (e : CacheEntry) : C unit :=
  locked (update_cache (<[k := e]>)).

Definition extend_expiry (k : CacheKey) : C unit := locked (
  ttl ← gets cw_ttl;
  if ttl =? 0 then update_cache (delete k)
  else
    c ← gets cw_cache;
    match c !! k with
    | None => mret tt
    | Some entry =>
        t ← now;
        renew ← later t (ttl / 2);
        expires ← later t ttl;
        update_cache (<[k := mkCacheEntry (ce_payload entry) (Some renew) expires false]>)
    end).

(** The thread of a refresh is spawned: it has its own clones. *)
Definition schedule_refresh (path : string) (k : CacheKey) : C unit :=
  modify (λ w, set_refreshes (cw_refreshes w ++ [mkRefresh path k Asking]) w).

Definition inner_metadata (lstat : bool) (ctx : FsContext) (name : string) : C Metadata :=
  in_inner (if lstat then fs_lstat inner ctx name else fs_stat inner ctx name).

(** ** Refreshes *)

Definition asked {A} (wrap : Result A → CachePayload) (m : C A) : C CachePayload :=
  result ← attempt m; mret (wrap result).

Definition refresh_metadata (path : string) (lstat : bool) : C CachePayload :=
  let ctx := Ctx.with_origin path "stat" (if lstat then Ctx.no_follow Ctx.new else Ctx.new) in
  asked PMetadata (inner_metadata lstat ctx path).

Definition refresh_dir (path : string) : C CachePayload :=
  let ctx := Ctx.with_origin path "readdir" (Ctx.set_read_only Ctx.new) in
  asked PReadDir (in_inner (fs_read_dir inner ctx path)).

Definition refresh_ask (r : Refresh) : C CachePayload :=
  match (rf_key r).2 with
  | KStat => refresh_metadata (rf_path r) false
  | KLstat => refresh_metadata (rf_path r) true
  | KReadDir => refresh_dir (rf_path r)
  end.

(** What a refresh thread does next, and where that leaves it: [None] when it has ended.
    An answer is stored as [set_cached] stores it, an error extends the entry. *)
Definition refresh_section (r : Refresh) : C (option RefreshPoint) :=
  match rf_at r with
  | Asking => p ← refresh_ask r; mret (Some (Holding p))
  | Holding p =>
      if is_error p then extend_expiry (rf_key r) ;; mret None
      else e ← new_entry p; mret (Storing <$> e)
  | Storing e => insert_entry (rf_key r) e ;; mret None
  end.

(** The [i]-th refresh thread takes a step; one that panics has ended. *)
Definition step_refresh (i : nat) (w : CacheWorld V) : CacheWorld V :=
  match cw_refreshes w !! i with
  | None => w
  | Some r =>
      let '(next, w) := refresh_section r w in
      set_refreshes
        (match next with
         | Ok (Some at_) => <[i := mkRefresh (rf_path r) (rf_key r) at_]> (cw_refreshes w)
         | _ => delete i (cw_refreshes w)
         end) w
  end.

(** Between two steps of a call, the refresh threads the schedule names take theirs. *)
Definition yield : C unit := λ w,
  (Ok tt, foldl (λ w i, step_refresh i w)
    (mkCacheWorld (cw_inner w) (cw_ttl w) (cw_poisoned w) (cw_cache w) (cw_clock w)
       (cw_refreshes w) (λ n, cw_schedule w (S n)))
    (cw_schedule w 0%nat)).

(** ** Lookups *)

Definition set_cached (k : CacheKey) (p : CachePayload) : C unit :=
  e ← new_entry p;
  match e with
  | None => mret tt
  | Some e => yield ;; insert_entry k e
  end.

(** Asking the inner filesystem and keeping its answer, an error too. *)
Definition ask {A} (wrap : Result A → CachePayload) (k : CacheKey) (m : C A) : C A :=
  result ← attempt m;
  yield ;;
  set_cached k (wrap result) ;;
  lift result.

Definition stat_context (ctx : FsContext) (name : string) (lstat : bool) : C Metadata :=
  let k := key name (if lstat then KLstat else KStat) in
  let miss := ask PMetadata k (inner_metadata lstat ctx name) in
  found ← get_cached k;
  match found with
  | None => yield ;; miss
  | Some (payload, refresh) =>
      (if (refresh : bool) then schedule_refresh name k else mret tt) ;;
      yield ;;
      match payload with
      | PMetadata result => lift result
      | PReadDir _ => miss
      end
  end.

Definition read_dir_context (ctx : FsContext) (name : string) : C (list DirEntry) :=
  let k := key name KReadDir in
  let miss := ask PReadDir k (in_inner (fs_read_dir inner ctx name)) in
  found ← get_cached k;
  match found with
  | None => yield ;; miss
  | Some (payload, refresh) =>
      (if (refresh : bool) then schedule_refresh name k else mret tt) ;;
      yield ;;
      match payload with
      | PReadDir result => lift result
      | PMetadata _ => miss
      end
  end.

(** ** Invalidation by the calls *)

(** After a change of [name]. *)
Definition changed (name : string) : C unit :=
  yield ;; invalidate name ;; yield ;; invalidate_parent_listing name.

Definition changing {A} (name : string) (m : M V A) : C A :=
  a ← in_inner m; changed name ;; mret a.

(** ** Open files *)

Record MetaCacheFile := mkMetaCacheFile {
  mf_path : string;
  mf_inner : H;
  mf_dirty : bool;
  mf_entries : option (list DirEntry);
  mf_offset : nat
}.

Definition file_new (path : string) (file : H) : MetaCacheFile :=
  mkMetaCacheFile (normalize_cache_path path) file false None 0.

(** A method of the inner handle. *)
Definition in_file {A} (m : M (H * V) A) : M (MetaCacheFile * CacheWorld V) A := λ '(f, w),
  let '(r, (h, v)) := m (mf_inner f, cw_inner w) in
  (r, (mkMetaCacheFile (mf_path f) h (mf_dirty f) (mf_entries f) (mf_offset f),
       set_inner v w)).

Definition mark_written (written : Z) : M (MetaCacheFile * CacheWorld V) unit :=
  modify (λ '(f, w),
    (mkMetaCacheFile (mf_path f) (mf_inner f) (mf_dirty f || (0 <? written)) (mf_entries f)
       (mf_offset f), w)).

Definition file_write (data : list byte) : M (MetaCacheFile * CacheWorld V) Z :=
  written ← in_file (fh_write data); mark_written written ;; mret written.

Definition file_write_at (data : list byte) (offset : Z) : M (MetaCacheFile * CacheWorld V) Z :=
  written ← in_file (fh_write_at data offset); mark_written written ;; mret written.

Definition file_stat : M (MetaCacheFile * CacheWorld V) Metadata :=
  by_ref (λ f, stat_context (Ctx.with_origin (mf_path f) "stat" Ctx.new) (mf_path f) false).

(** The listing is taken once, at the first [read_dir]. *)
Definition load_entries : M (MetaCacheFile * CacheWorld V) (list DirEntry) := λ '(f, w),
  match mf_entries f with
  | Some entries => (Ok entries, (f, w))
  | None =>
      let ctx := Ctx.with_origin (mf_path f) "readdir" (Ctx.set_read_only Ctx.new) in
      let '(r, w) := read_dir_context ctx (mf_path f) w in
      (r, (match r with
           | Ok entries => mkMetaCacheFile (mf_path f) (mf_inner f) (mf_dirty f) (Some entries) 0
           | _ => f
           end, w))
  end.

Definition take_entries (count : Z) (entries : list DirEntry)
    : M (MetaCacheFile * CacheWorld V) (list DirEntry) := λ '(f, w),
  let from := mf_offset f in
  let upto :=
    if count <=? 0 then length entries
    else Nat.min (from + Z.to_nat count) (length entries) in
  if (0 <? count) && bool_decide (length entries ≤ from)%nat then (Ok [], (f, w))
  else
    (Ok (take (upto - from) (drop from entries)),
     (mkMetaCacheFile (mf_path f) (mf_inner f) (mf_dirty f) (mf_entries f) upto, w)).

Definition file_read_dir (count : Z) : M (MetaCacheFile * CacheWorld V) (list DirEntry) :=
  entries ← load_entries; take_entries count entries.

Definition on_cache {A} (m : C A) : M (MetaCacheFile * CacheWorld V) A := on_snd m.

(** The cache is invalidated whether or not the inner [close] succeeds. *)
Definition file_close : M (MetaCacheFile * CacheWorld V) unit :=
  result ← attempt (in_file fh_close);
  f ← gets fst;
  (if mf_dirty f then
     on_cache (changed (mf_path f))
   else mret tt) ;;
  lift result.

#[global] Instance cache_handle : FileHandle (CacheWorld V) MetaCacheFile := {
  fh_read len := in_file (fh_read len);
  fh_write := file_write;
  fh_read_at len offset := in_file (fh_read_at len offset);
  fh_write_at := file_write_at;
  fh_seek pos := in_file (fh_seek pos);
  fh_stat := file_stat;
  fh_read_dir := file_read_dir;
  fh_sync := in_file fh_sync;
  fh_close := file_close
}.

(** ** [impl FileSystem for MetaCacheFs] *)

Definition open (ctx : FsContext) (name : string) : C MetaCacheFile :=
  file ← in_inner (fs_open inner ctx name); mret (file_new name file).

Definition create (name : string) : C MetaCacheFile :=
  file ← changing name (fs_create inner name); mret (file_new name file).

Definition open_file (name : string) (flags perm : Z) : C MetaCacheFile :=
  file ← in_inner (fs_open_file inner name flags perm);
  (if OpenFlags.contains flags OpenFlags.CREATE || OpenFlags.contains flags OpenFlags.TRUNC
   then changed name else mret tt) ;;
  mret (file_new name file).

Definition remove (name : string) : C unit :=
  in_inner (fs_remove inner name) ;;
  yield ;; invalidate_dir name ;; yield ;; invalidate_parent_listing name.

Definition rename (old new : string) : C unit :=
  in_inner (fs_rename inner old new) ;;
  yield ;; invalidate_dir old ;; yield ;; invalidate_dir new ;;
  yield ;; invalidate_parent_listing old ;; yield ;; invalidate_parent_listing new.

Definition fs : FileSystem (CacheWorld V) MetaCacheFile := {|
  fs_open := open;
  fs_stat ctx name := stat_context ctx name false;
  fs_lstat ctx name := stat_context ctx name true;
  fs_read_dir := read_dir_context;
  fs_create := create;
  fs_open_file := open_file;
  fs_mkdir name perm := changing name (fs_mkdir inner name perm);
  fs_remove := remove;
  fs_rename := rename;
  fs_link old new := changing new (fs_link inner old new);
  fs_chmod name mode := changing name (fs_chmod inner name mode);
  fs_chown name uid gid := changing name (fs_chown inner name uid gid);
  fs_chtimes name mtime := changing name (fs_chtimes inner name mtime);
  fs_truncate name size := changing name (fs_truncate inner name size);
  fs_symlink old new := changing new (fs_symlink inner old new);
  fs_readlink name := in_inner (fs_readlink inner name);
  fs_set_xattr name attr data := in_inner (fs_set_xattr inner name attr data);
  fs_get_xattr name attr := in_inner (fs_get_xattr inner name attr);
  fs_list_xattrs name := in_inner (fs_list_xattrs inner name);
  fs_remove_xattr name attr := in_inner (fs_remove_xattr inner name attr)
|}.
End Cache.
Arguments MetaCacheFile : clear implicits.
End MetaCache.
