(* ===== verification/MetaCacheProps.v ===== *)
(** * Correctness of the metadata cache

    [cache_transparent]: over a filesystem whose changes show only where the cache
    invalidates, no caller can tell the cache from the filesystem, wherever the steps of
    the refresh threads fall, as long as none holds an answer across a change of what it
    asked for.  The lemmas at the end say what happens when one does
    ([refresh_after_invalidate]), and when a change shows elsewhere or is made by
    somebody else. *)

From stdpp Require Import base list numbers option strings gmap.
From Stdlib Require Import ZArith Lia Ascii.
From S2P Require Import Prelude Strs BTree Core FsTrait MemFs MetaCache.

Local Open Scope Z_scope.

Import MetaCache.

(** ** Changes *)

Inductive Change :=
| ChMkdir (name : string) (perm : Z)
| ChRemove (name : string)
| ChRename (old new : string)
| ChLink (old new : string)
| ChChmod (name : string) (mode : Z)
| ChChown (name : string) (uid gid : Z)
| ChChtimes (name : string) (mtime : Z)
| ChTruncate (name : string) (size : Z)
| ChSymlink (old new : string).

Definition run_change {W H} (f : FileSystem W H) (c : Change) : M W unit :=
  match c with
  | ChMkdir name perm => fs_mkdir f name perm
  | ChRemove name => fs_remove f name
  | ChRename old new => fs_rename f old new
  | ChLink old new => fs_link f old new
  | ChChmod name mode => fs_chmod f name mode
  | ChChown name uid gid => fs_chown f name uid gid
  | ChChtimes name mtime => fs_chtimes f name mtime
  | ChTruncate name size => fs_truncate f name size
  | ChSymlink old new => fs_symlink f old new
  end.

(** The keys a change of one name, or of a tree, invalidates. *)
Definition touches_name (name : string) (k : CacheKey) : bool :=
  bool_decide (k.1 = normalize_cache_path name)
  || bool_decide (k = (parent_path (normalize_cache_path name), KReadDir)).

Definition touches_tree (name : string) (k : CacheKey) : bool :=
  below_path (normalize_cache_path name) k
  || bool_decide (k = (parent_path (normalize_cache_path name), KReadDir)).

Definition touches (c : Change) (k : CacheKey) : bool :=
  match c with
  | ChRemove name => touches_tree name k
  | ChRename old new => touches_tree old k || touches_tree new k
  | ChMkdir name _ | ChChmod name _ | ChChown name _ _ | ChChtimes name _ | ChTruncate name _
  | ChLink _ name | ChSymlink _ name => touches_name name k
  end.

(** ** What the inner filesystem must be like

    Its lookups change nothing and depend on the normalized path alone, and a change
    shows only if it succeeds and only where the cache invalidates. *)
Class CacheLaws {V H : Type} (inner : FileSystem V H) := {
  look : V → CacheKey → CachePayload;
  look_stat ctx name v : ∃ r, look v (key name KStat) = PMetadata r
    ∧ fs_stat inner ctx name v = (r, v);
  look_lstat ctx name v : ∃ r, look v (key name KLstat) = PMetadata r
    ∧ fs_lstat inner ctx name v = (r, v);
  look_dir ctx name v : ∃ r, look v (key name KReadDir) = PReadDir r
    ∧ fs_read_dir inner ctx name v = (r, v);
  change_hidden c v k : (fst (run_change inner c v) = Ok tt → touches c k = false) →
    look (snd (run_change inner c v)) k = look v k
}.

Section Transparent.
Context {V H : Type} `{!FileHandle V H} (inner : FileSystem V H) `{!CacheLaws inner}.
Local Abbreviation W := (CacheWorld V).

(** The instants the clock shows and the times to live in use: an instant and a time to
    live after it fits an [Instant]. *)
Context (instant time : Z → Prop).
Context (in_range : ∀ i t, instant i → time t → 0 ≤ t ∧ (i + t) / 1000000000 ≤ I64_MAX).

(** The keys a change has still to invalidate. *)
Implicit Types P : CacheKey → bool.
Local Abbreviation settled := (λ _ : CacheKey, false).

(** A refresh thread knows the kind of the call it repeats, and what it holds is what the
    filesystem would answer now. *)
Definition refresh_ok (v : V) (r : Refresh) : Prop :=
  (∃ kind, rf_key r = key (rf_path r) kind)
  ∧ match rf_at r with
    | Asking => True
    | Holding p => p = look v (rf_key r)
    | Storing e => ce_payload e = look v (rf_key r)
    end.

(** Every entry that is not about to be invalidated is what the filesystem would answer
    now. *)
Definition coherent P (w : W) : Prop :=
  ∀ k e, cw_cache w !! k = Some e → P k = false → ce_payload e = look (cw_inner w) k.

Record cache_inv P (w : W) : Prop := {
  inv_coherent : coherent P w;
  inv_refreshes : Forall (refresh_ok (cw_inner w)) (cw_refreshes w);
  inv_healthy : cw_poisoned w = false;
  inv_time : time (cw_ttl w);
  inv_clock n : instant (cw_clock w n)
}.

Lemma cache_inv_mono P Q w : cache_inv P w → (∀ k, P k = true → Q k = true) → cache_inv Q w.
Proof.
  intros [Hc Hr Hh Ht Hi] HPQ. split; try done. intros k e Hk Hq. apply Hc; [done|].
  destruct (P k) eqn:Hp; [|done]. apply HPQ in Hp. congruence.
Qed.

(** [steps P m w Q]: [m] succeeds from [w], leaves the inner filesystem as it was and the
    invariant outside [P], and its value has [Q]. *)
Definition steps {A} P (m : M W A) (w : W) (Q : A → Prop) : Prop :=
  ∃ a w', m w = (Ok a, w') ∧ cache_inv P w' ∧ cw_inner w' = cw_inner w ∧ Q a.

Lemma steps_bind {A B} P P' (m : M W A) (f : A → M W B) w Q R :
  steps P m w Q → (∀ a w', cache_inv P w' → cw_inner w' = cw_inner w → Q a → steps P' (f a) w' R) →
  steps P' (m ≫= f) w R.
Proof.
  intros (a & w1 & Hm & Hi & He & HQ) Hf.
  destruct (Hf a w1 Hi He HQ) as (b & w2 & Hf2 & Hi2 & He2 & HR).
  exists b, w2. split; [by rewrite (eff_bind_Ok _ _ _ _ _ Hm)|]. split; [done|].
  split; [congruence|done].
Qed.

Lemma steps_ret {A} P (a : A) w (Q : A → Prop) : cache_inv P w → Q a → steps P (mret a) w Q.
Proof. intros Hw HQ. by exists a, w. Qed.

(** An invariant state's lock can be taken. *)
Lemma steps_locked {A} P P' (m : M W A) w Q :
  cache_inv P w → steps P' m w Q → steps P' (locked m) w Q.
Proof.
  intros Hw (a & w' & Hm & Hs). exists a, w'. split; [|done].
  unfold locked. by rewrite (inv_healthy _ _ Hw), Hm.
Qed.

(** A new cache whose payloads are right. *)
Lemma steps_cache P P' (f : gmap CacheKey CacheEntry → gmap CacheKey CacheEntry) w :
  cache_inv P w →
  (∀ k e, f (cw_cache w) !! k = Some e → P' k = false → ce_payload e = look (cw_inner w) k) →
  steps P' (update_cache f) w (λ _, True).
Proof. intros [Hc Hr Hh Ht Hi] Hf. eexists tt, _. split; [done|]. by split. Qed.

Lemma steps_delete P k w : cache_inv P w → steps P (update_cache (delete k)) w (λ _, True).
Proof.
  intros Hw. eapply steps_cache; [done|]. intros k' e He.
  apply lookup_delete_Some in He as [_ He]. by apply Hw.
Qed.

Lemma steps_now P w : cache_inv P w → steps P now w instant.
Proof.
  intros [Hc Hr Hh Ht Hi]. eexists _, _. split; [done|]. split; [|by split].
  split; try done. intros n. apply (Hi (S n)).
Qed.

(** A time of at most a time to live after an instant is in range. *)
Lemma steps_later P i t d w : cache_inv P w → instant i → time t → d ≤ t →
  steps P (later i d) w (λ _, True).
Proof.
  intros Hw Hi Ht Hd. destruct (in_range i t Hi Ht) as [_ Hr].
  exists (i + d), w. split; [|done]. unfold later, lift, time_plus.
  assert ((i + d) / 1000000000 ≤ (i + t) / 1000000000) by (apply Z.div_le_mono; lia).
  by rewrite (proj2 (Z.ltb_ge _ _)) by lia.
Qed.

Lemma half_time i t : instant i → time t → t / 2 ≤ t.
Proof. intros Hi Ht. destruct (in_range i t Hi Ht) as [H0 _]. apply Z.div_le_upper_bound; lia. Qed.

Lemma steps_insert P k e w : cache_inv P w → (P k = false → ce_payload e = look (cw_inner w) k) →
  steps P (update_cache (<[k:=e]>)) w (λ _, True).
Proof.
  intros Hw He. eapply steps_cache; [done|]. intros k' e' Hk' HP.
  apply lookup_insert_Some in Hk' as [[<- <-]|[_ Hk']]; [by apply He|]. by eapply inv_coherent.
Qed.

Lemma steps_gets {A} P (f : W → A) w : cache_inv P w → steps P (gets f) w (λ a, a = f w).
Proof. intros Hw. by exists (f w), w. Qed.

(** A lookup finds nothing or what the filesystem would answer. *)
Lemma steps_get_cached k w : cache_inv settled w →
  steps settled (get_cached k) w (λ o, ∀ p b, o = Some (p, b) → p = look (cw_inner w) k).
Proof.
  intros Hw. unfold get_cached. eapply steps_locked; [done|].
  eapply steps_bind; [by apply steps_now|]. intros t w1 Hw1 He1 Hi.
  eapply steps_bind; [by apply steps_gets|]. intros c w2 Hw2 He2 ->.
  destruct (cw_cache w1 !! k) as [e|] eqn:Hk; [|by apply steps_ret].
  assert (ce_payload e = look (cw_inner w2) k) as Hp.
  { rewrite He2. by eapply inv_coherent. }
  destruct (_ <=? _).
  - eapply steps_bind; [by apply steps_delete|]. intros _ w3 Hw3 _ _. by apply steps_ret.
  - eapply (steps_bind settled _ _ _ _ (λ _, True)).
    + destruct (_ && _); [by apply steps_insert|by apply steps_ret].
    + intros _ w3 Hw3 _ _. apply steps_ret; [done|]. intros p b [= <- _]. congruence.
Qed.

(** An answer that is right makes an entry that is. *)
Lemma steps_new_entry P p w : cache_inv P w →
  steps P (new_entry p) w (λ o, ∀ e, o = Some e → ce_payload e = p).
Proof.
  intros Hw. unfold new_entry, ttl.
  eapply steps_bind; [eapply steps_locked; [done|by apply steps_gets]|].
  intros t w1 Hw1 He1 ->. pose proof (inv_time _ _ Hw) as Ht.
  destruct (cw_ttl w =? 0); [by apply steps_ret|].
  eapply steps_bind; [by apply steps_now|]. intros n w2 Hw2 He2 Hn.
  pose proof (half_time n _ Hn Ht) as Hh.
  eapply (steps_bind P); [by eapply steps_later|]. intros r w3 Hw3 _ _.
  eapply (steps_bind P); [eapply steps_later; [done..|]; by destruct (is_error p)|].
  intros x w4 Hw4 _ _. apply steps_ret; [done|]. by intros e [= <-].
Qed.

Lemma steps_insert_entry P k e w : cache_inv P w → ce_payload e = look (cw_inner w) k →
  steps P (insert_entry k e) w (λ _, True).
Proof. intros Hw He. eapply steps_locked; [done|by apply steps_insert]. Qed.

Lemma steps_extend P k w : cache_inv P w → steps P (extend_expiry k) w (λ _, True).
Proof.
  intros Hw. unfold extend_expiry. eapply steps_locked; [done|].
  eapply steps_bind; [by apply steps_gets|].
  intros t w1 Hw1 He1 ->. pose proof (inv_time _ _ Hw) as Ht.
  destruct (cw_ttl w =? 0); [by apply steps_delete|].
  eapply steps_bind; [by apply steps_gets|]. intros c w2 Hw2 He2 ->.
  destruct (cw_cache w1 !! k) as [e|] eqn:Hk; [|by apply steps_ret].
  assert (P k = false → ce_payload e = look (cw_inner w2) k) as Hp.
  { intros HP. rewrite He2. by eapply inv_coherent. }
  eapply steps_bind; [by apply steps_now|]. intros n w3 Hw3 He3 Hn.
  pose proof (half_time n _ Hn Ht) as Hh.
  eapply (steps_bind P); [by eapply steps_later|]. intros r w4 Hw4 He4 _.
  eapply (steps_bind P); [by eapply steps_later|]. intros x w5 Hw5 He5 _.
  apply steps_insert; [done|]. cbn. rewrite He5, He4, He3. exact Hp.
Qed.

(** ** Refresh threads *)

Lemma in_inner_look {A} (m : M V A) (w : W) r :
  m (cw_inner w) = (r, cw_inner w) → in_inner m w = (r, w).
Proof. intros Hm. unfold in_inner, zoom. rewrite Hm. by destruct w. Qed.

(** Asking the inner filesystem changes nothing, and answers what it would. *)
Lemma asked_look {A} (wrap : Result A → CachePayload) (m : M V A) (w : W) r :
  m (cw_inner w) = (r, cw_inner w) →
  ∃ o, asked wrap (in_inner m) w = (o, w) ∧ (∀ p, o = Ok p → p = wrap r).
Proof.
  intros Hm. unfold asked, attempt. unfold mbind, eff_bind. cbn beta.
  rewrite (in_inner_look _ _ _ Hm). destruct r; eexists; (split; [reflexivity|]);
    intros p Hp; by inversion Hp.
Qed.

Lemma refresh_ask_look (r : Refresh) (w : W) kind : rf_key r = key (rf_path r) kind →
  ∃ o, refresh_ask inner r w = (o, w) ∧ (∀ p, o = Ok p → p = look (cw_inner w) (rf_key r)).
Proof.
  intros Hk. unfold refresh_ask. rewrite Hk. cbn [key snd].
  destruct kind; unfold refresh_metadata, refresh_dir, inner_metadata.
  1: edestruct (look_stat (Ctx.with_origin (rf_path r) "stat" Ctx.new) (rf_path r) (cw_inner w))
      as (a & Hl & Ha).
  2: edestruct (look_lstat (Ctx.with_origin (rf_path r) "stat" (Ctx.no_follow Ctx.new)) (rf_path r)
      (cw_inner w)) as (a & Hl & Ha).
  3: edestruct (look_dir (Ctx.with_origin (rf_path r) "readdir" (Ctx.set_read_only Ctx.new))
      (rf_path r) (cw_inner w)) as (a & Hl & Ha).
  all: change (normalize_cache_path (rf_path r), ?kind) with (key (rf_path r) kind); rewrite Hl;
    by apply asked_look.
Qed.

(** What a section of a thread does: the thread goes on with what the filesystem would
    answer. *)
Definition section_keeps P (r : Refresh) (w : W) : Prop :=
  ∃ o w', refresh_section inner r w = (o, w') ∧ cache_inv P w' ∧ cw_inner w' = cw_inner w
  ∧ ∀ a, o = Ok (Some a) → refresh_ok (cw_inner w) (mkRefresh (rf_path r) (rf_key r) a).

Lemma steps_section P (r : Refresh) w :
  steps P (refresh_section inner r) w
    (λ o, ∀ a, o = Some a → refresh_ok (cw_inner w) (mkRefresh (rf_path r) (rf_key r) a)) →
  section_keeps P r w.
Proof.
  intros (o & w' & Hs & Hi & He & Ho). exists (Ok o), w'. split_and!; [done..|].
  intros a [= ->]. by apply Ho.
Qed.

Lemma section_ok P (r : Refresh) w : cache_inv P w → refresh_ok (cw_inner w) r →
  section_keeps P r w.
Proof.
  intros Hw [[kind Hkind] Hat].
  destruct (rf_at r) as [|p|e] eqn:Hr.
  - destruct (refresh_ask_look r w kind Hkind) as (o & Ho & Hp).
    unfold section_keeps, refresh_section. rewrite Hr. unfold mbind, eff_bind. cbn beta. rewrite Ho. destruct o as [p|err| |]; (eexists _, _; split; [reflexivity|]); split_and!; try done.
    intros a [= <-]. split; [by exists kind|]. by apply Hp.
  - apply steps_section. unfold refresh_section. rewrite Hr. destruct (is_error p).
    + eapply steps_bind; [by apply steps_extend|]. intros _ w1 Hw1 _ _. by apply steps_ret.
    + eapply steps_bind; [by apply steps_new_entry|]. intros o w1 Hw1 He1 Ho.
      apply steps_ret; [done|]. intros a Ha. destruct o as [e|]; [|done]. injection Ha as <-.
      split; [by exists kind|]. cbn. by rewrite (Ho e eq_refl).
  - apply steps_section. unfold refresh_section. rewrite Hr.
    eapply steps_bind; [by apply steps_insert_entry|]. intros _ w1 Hw1 _ _. by apply steps_ret.
Qed.

Lemma cache_inv_refreshes P w rs : cache_inv P w → Forall (refresh_ok (cw_inner w)) rs →
  cache_inv P (set_refreshes rs w).
Proof. by intros [Hc Hr Hh Ht Hi]. Qed.

Lemma step_refresh_keeps P i w : cache_inv P w →
  cache_inv P (step_refresh inner i w) ∧ cw_inner (step_refresh inner i w) = cw_inner w.
Proof.
  intros Hw. unfold step_refresh. destruct (cw_refreshes w !! i) as [r|] eqn:Hi; [|done].
  pose proof (Forall_lookup_1 _ _ _ _ (inv_refreshes _ _ Hw) Hi) as Hr.
  destruct (section_ok P r w Hw Hr) as (o & w' & Hs & Hw' & He & Ho). rewrite Hs.
  split; [|done]. apply cache_inv_refreshes; [done|].
  pose proof (inv_refreshes _ _ Hw') as Hrs.
  destruct o as [[a|]|err| |]; [|by apply Forall_delete..].
  apply Forall_insert; [done|]. rewrite He. by apply Ho.
Qed.

Lemma steps_yield P w : cache_inv P w → steps P (yield inner) w (λ _, True).
Proof.
  intros Hw. eexists tt, _. split; [reflexivity|].
  set (w0 := mkCacheWorld _ _ _ _ _ _ _).
  assert (cache_inv P w0) as Hw0 by (by destruct Hw).
  change (cw_inner w) with (cw_inner w0). clearbody w0. clear Hw. revert w0 Hw0.
  induction (cw_schedule w 0%nat) as [|i is_ IH]; intros w0 Hw0; cbn [foldl]; [done|].
  destruct (step_refresh_keeps P i w0 Hw0) as [Hw1 He]. rewrite <- He. by apply IH.
Qed.

Lemma steps_schedule P path kind w : cache_inv P w →
  steps P (schedule_refresh path (key path kind)) w (λ _, True).
Proof.
  intros Hw. eexists tt, _. split; [done|]. split; [|done]. apply cache_inv_refreshes; [done|].
  apply Forall_app. split; [apply Hw|]. repeat constructor. by exists kind.
Qed.

Lemma steps_set_cached P k p w : cache_inv P w → p = look (cw_inner w) k →
  steps P (set_cached inner k p) w (λ _, True).
Proof.
  intros Hw Hp. unfold set_cached. eapply steps_bind; [by apply steps_new_entry|].
  intros [e|] w1 Hw1 He1 Ho; [|by apply steps_ret].
  eapply steps_bind; [by apply steps_yield|]. intros _ w2 Hw2 He2 _.
  apply steps_insert_entry; [done|]. rewrite (Ho e eq_refl). congruence.
Qed.

(** ** Lookups *)

(** A call on the cache and the call on the inner filesystem it stands for. *)
Definition same {A} (m : M W A) (w : W) (r : Result A) : Prop :=
  ∃ w', m w = (r, w') ∧ cache_inv settled w' ∧ cw_inner w' = cw_inner w.

Lemma same_bind {A B} (m : M W A) (f : A → M W B) w Q r :
  steps settled m w Q →
  (∀ a w', cache_inv settled w' → cw_inner w' = cw_inner w → Q a → same (f a) w' r) →
  same (m ≫= f) w r.
Proof.
  intros (a & w1 & Hm & Hi & He & HQ) Hf. destruct (Hf a w1 Hi He HQ) as (w2 & Hf2 & Hi2 & He2).
  exists w2. split; [by rewrite (eff_bind_Ok _ _ _ _ _ Hm)|]. split; [done|congruence].
Qed.

Lemma ask_same {A} (wrap : Result A → CachePayload) k (m : M V A) w r :
  cache_inv settled w → look (cw_inner w) k = wrap r → m (cw_inner w) = (r, cw_inner w) →
  same (ask inner wrap k (in_inner m)) w r.
Proof.
  intros Hw Hk Hm. unfold ask, attempt. unfold mbind at 1. unfold eff_bind at 1. unfold same.
  cbn beta. rewrite (in_inner_look _ _ _ Hm).
  destruct r as [a|e| |]; [| |by exists w..].
  all: cbn beta iota; eapply same_bind; [by apply steps_yield|]; intros _ w1 Hw1 He1 _;
    eapply same_bind; [apply steps_set_cached; [done|]; by rewrite He1, Hk|];
    intros _ w2 Hw2 _ _; by exists w2.
Qed.

(** The common shape of [stat_context] and [read_dir_context]. *)
Lemma lookup_same {A} (wrap : Result A → CachePayload) (hit : CachePayload → M W A)
    (miss : M W A) name kind w r :
  cache_inv settled w → look (cw_inner w) (key name kind) = wrap r →
  (∀ w', cache_inv settled w' → cw_inner w' = cw_inner w → same miss w' r) →
  (∀ w', cache_inv settled w' → hit (wrap r) w' = (r, w')) →
  same (found ← get_cached (key name kind);
        match found with
        | None => yield inner ;; miss
        | Some (payload, refresh) =>
            (if (refresh : bool) then schedule_refresh name (key name kind) else mret tt) ;;
            yield inner ;;
            hit payload
        end) w r.
Proof.
  intros Hw Hk Hmiss Hhit. eapply same_bind; [by apply steps_get_cached|].
  intros [[p b]|] w1 Hw1 He1 Hp.
  - specialize (Hp p b eq_refl) as ->. rewrite Hk.
    eapply (same_bind _ _ _ (λ _, True)).
    + destruct b; [by apply steps_schedule|by apply steps_ret].
    + intros _ w2 Hw2 He2 _. eapply same_bind; [by apply steps_yield|].
      intros _ w3 Hw3 He3 _. exists w3. split; [by apply Hhit|done].
  - eapply same_bind; [by apply steps_yield|]. intros _ w2 Hw2 He2 _.
    apply Hmiss; [done|congruence].
Qed.

Lemma look_metadata (lstat : bool) ctx name v : ∃ r,
  look v (key name (if lstat then KLstat else KStat)) = PMetadata r
  ∧ (if lstat then fs_lstat inner ctx name else fs_stat inner ctx name) v = (r, v).
Proof. destruct lstat; [apply look_lstat|apply look_stat]. Qed.

Lemma stat_same ctx name (lstat : bool) w : cache_inv settled w →
  same (stat_context inner ctx name lstat) w
    (fst ((if lstat then fs_lstat inner ctx name else fs_stat inner ctx name) (cw_inner w))).
Proof.
  intros Hw. destruct (look_metadata lstat ctx name (cw_inner w)) as (r & Hk & Hr).
  rewrite Hr. cbn [fst]. unfold stat_context.
  apply (lookup_same PMetadata (λ payload : CachePayload, match payload with
      | PMetadata result => lift result
      | PReadDir _ => ask inner PMetadata (key name (if lstat then KLstat else KStat))
          (inner_metadata inner lstat ctx name)
      end : M W Metadata)); [done|done| |done].
  intros w' Hw' He. apply ask_same; [done|by rewrite He|by rewrite He].
Qed.

Lemma read_dir_same ctx name w : cache_inv settled w →
  same (read_dir_context inner ctx name) w (fst (fs_read_dir inner ctx name (cw_inner w))).
Proof.
  intros Hw. destruct (look_dir ctx name (cw_inner w)) as (r & Hk & Hr).
  rewrite Hr. cbn [fst]. unfold read_dir_context.
  apply (lookup_same PReadDir (λ payload : CachePayload, match payload with
      | PReadDir result => lift result
      | PMetadata _ => ask inner PReadDir (key name KReadDir) (in_inner (fs_read_dir inner ctx name))
      end : M W (list DirEntry))); [done|done| |done].
  intros w' Hw' He. apply ask_same; [done|by rewrite He|by rewrite He].
Qed.

(** ** Changes *)

(** A section that drops the entries of [t]. *)
Definition forgets (f : gmap CacheKey CacheEntry → gmap CacheKey CacheEntry) (t : CacheKey → bool)
    : Prop := ∀ c k e, f c !! k = Some e → c !! k = Some e ∧ t k = false.

Lemma steps_forget P t f w : forgets f t → cache_inv (λ k, t k || P k) w →
  steps P (locked (update_cache f)) w (λ _, True).
Proof.
  intros Hf Hw. eapply steps_locked; [done|]. eapply steps_cache; [done|].
  intros k e Hk HP. apply Hf in Hk as [Hk Ht]. apply (inv_coherent _ _ Hw); [done|]. cbn. by rewrite Ht.
Qed.

Lemma forgets_path path : forgets
  (λ c, delete (path, KReadDir) (delete (path, KLstat) (delete (path, KStat) c)))
  (λ k, bool_decide (k.1 = path)).
Proof.
  intros c [p kind] e Hk. repeat (apply lookup_delete_Some in Hk as [? Hk]). split; [done|].
  apply bool_decide_eq_false. cbn. intros ->. destruct kind; congruence.
Qed.

Lemma forgets_below path : forgets (filter (λ kv, negb (below_path path kv.1) = true)) (below_path path).
Proof. intros c k e Hk. apply map_lookup_filter_Some in Hk as [Hk Hn]. by apply negb_true_iff in Hn. Qed.

Lemma forgets_key k0 : forgets (delete k0) (λ k, bool_decide (k = k0)).
Proof.
  intros c k e Hk. apply lookup_delete_Some in Hk as [Hn Hk]. split; [done|].
  apply bool_decide_eq_false. congruence.
Qed.

(** The invalidations of a call, one after another: each settles the keys it drops,
    whatever the refresh threads do before it. *)
Lemma forget_then P t f (m : M W unit) w : forgets f t →
  (∀ w', cache_inv P w' → steps settled m w' (λ _, True)) →
  cache_inv (λ k, t k || P k) w →
  steps settled (yield inner ;; locked (update_cache f) ;; m) w (λ _, True).
Proof.
  intros Hf Hm Hw. eapply steps_bind; [by apply steps_yield|]. intros _ w1 Hw1 _ _.
  eapply steps_bind; [by eapply steps_forget|]. intros _ w2 Hw2 _ _. by apply Hm.
Qed.

Lemma forget_last t f w : forgets f t → cache_inv t w →
  steps settled (yield inner ;; locked (update_cache f)) w (λ _, True).
Proof.
  intros Hf Hw. eapply steps_bind; [by apply steps_yield|]. intros _ w1 Hw1 _ _.
  eapply steps_forget; [done|]. eapply cache_inv_mono; [done|]. intros k Hk. by rewrite Hk.
Qed.

Lemma steps_changed name w : cache_inv (touches_name name) w →
  steps settled (changed inner name) w (λ _, True).
Proof.
  intros Hw. eapply forget_then; [apply forgets_path| |exact Hw]. intros w1 Hw1.
  eapply forget_last; [apply forgets_key|exact Hw1].
Qed.

Lemma steps_removed name w : cache_inv (touches_tree name) w →
  steps settled (yield inner ;; invalidate_dir name ;;
    yield inner ;; invalidate_parent_listing name) w (λ _, True).
Proof.
  intros Hw. eapply forget_then; [apply forgets_below| |exact Hw]. intros w1 Hw1.
  eapply forget_last; [apply forgets_key|exact Hw1].
Qed.

Lemma steps_renamed old new w : cache_inv (λ k, touches_tree old k || touches_tree new k) w →
  steps settled (yield inner ;; invalidate_dir old ;; yield inner ;; invalidate_dir new ;;
    yield inner ;; invalidate_parent_listing old ;;
    yield inner ;; invalidate_parent_listing new) w (λ _, True).
Proof.
  intros Hw. eapply forget_then; [apply forgets_below| |].
  { intros w1 Hw1. eapply forget_then; [apply forgets_below| |exact Hw1]. intros w2 Hw2.
    eapply forget_then; [apply forgets_key| |exact Hw2]. intros w3 Hw3.
    eapply forget_last; [apply forgets_key|exact Hw3]. }
  eapply cache_inv_mono; [exact Hw|]. intros k Hk. unfold touches_tree in Hk. cbn beta.
  destruct (below_path (normalize_cache_path old) k), (below_path (normalize_cache_path new) k); [done..|].
  cbn in Hk |- *. exact Hk.
Qed.

(** No refresh thread holds an answer that the change outdates. *)
Definition unraced (c : Change) (w : W) : Prop :=
  fst (run_change inner c (cw_inner w)) = Ok tt →
  Forall (λ r, rf_at r ≠ Asking → touches c (rf_key r) = false) (cw_refreshes w).

(** The inner filesystem has changed, and the cache has still to be told. *)
Lemma change_pending c w : cache_inv settled w → unraced c w →
  let '(r, v) := run_change inner c (cw_inner w) in
  cache_inv (if is_Ok r then touches c else settled) (set_inner v w).
Proof.
  intros [Hc Hr Hh Ht Hi] Hrace. unfold unraced in Hrace.
  pose proof (change_hidden c (cw_inner w)) as Hhidden.
  destruct (run_change inner c (cw_inner w)) as [r v]. cbn [fst snd] in *.
  split; try done.
  - intros k e Hk HP. cbn. rewrite Hhidden; [|by intros ->]. apply Hc; [done|reflexivity].
  - apply Forall_lookup. intros i rf Hrf. pose proof (Forall_lookup_1 _ _ _ _ Hr Hrf) as [Hkey Hat].
    split; [done|]. cbn. destruct (rf_at rf) eqn:Hp; [done| |].
    all: rewrite Hhidden; [done|]; intros ->;
      apply (Forall_lookup_1 _ _ _ _ (Hrace eq_refl) Hrf); by rewrite Hp.
Qed.

(** A change through the cache is the change of the inner filesystem. *)
Lemma in_inner_then c (m : M V unit) (after : M W unit) w :
  run_change inner c = m → cache_inv settled w → unraced c w →
  (∀ w', cache_inv (touches c) w' → steps settled after w' (λ _, True)) →
  let '(r, w') := (in_inner m ;; after) w in
  (r, cw_inner w') = m (cw_inner w) ∧ cache_inv settled w'.
Proof.
  intros Hm Hw Hrace Hafter. pose proof (change_pending c w Hw Hrace) as Hp. rewrite Hm in Hp.
  unfold mbind, eff_bind, in_inner, zoom. destruct (m (cw_inner w)) as [r v].
  destruct r as [[]|e| |]; [|done..].
  destruct (Hafter _ Hp) as ([] & w' & Ha & Hw' & He & _). rewrite Ha. by rewrite He.
Qed.

Lemma steps_unit (m : M W unit) w : steps settled m w (λ _, True) →
  steps settled (m ;; mret tt) w (λ _, True).
Proof. intros Hm. eapply steps_bind; [exact Hm|]. intros _ w' Hw' _ _. by apply steps_ret. Qed.

Lemma change_same c w : cache_inv settled w → unraced c w →
  let '(r, w') := run_change (fs inner) c w in
  (r, cw_inner w') = run_change inner c (cw_inner w) ∧ cache_inv settled w'.
Proof.
  intros Hw Hrace.
  assert (∀ name (m : M V unit), run_change inner c = m → touches c = touches_name name →
    let '(r, w') := changing inner name m w in
    (r, cw_inner w') = m (cw_inner w) ∧ cache_inv settled w') as Hone.
  { intros name m Hm Ht. unfold changing.
    pose proof (in_inner_then c m (changed inner name ;; mret tt) w Hm Hw Hrace) as Hi.
    rewrite Ht in Hi. specialize (Hi (λ w' H', steps_unit _ _ (steps_changed name w' H'))).
    revert Hi. unfold mbind at 1 3, eff_bind at 1 3. destruct (in_inner m w) as [[[]|e| |] w1]; done. }
  destruct c; try (by apply Hone).
  - apply (in_inner_then (ChRemove name)); [done..|]. intros w' Hw'. by apply steps_removed.
  - apply (in_inner_then (ChRename old new)); [done..|]. intros w' Hw'. by apply steps_renamed.
Qed.

End Transparent.

(** ** Traces *)

Inductive CacheOp :=
| OpStat (ctx : FsContext) (name : string)
| OpLstat (ctx : FsContext) (name : string)
| OpReadDir (ctx : FsContext) (name : string)
| OpChange (c : Change)
| OpRefresh (i : nat)
| OpSetTtl (ttl : Z)
| OpInvalidateAll.

Inductive CacheAnswer :=
| AMetadata (r : Result Metadata)
| AEntries (r : Result (list DirEntry))
| AChanged (r : Result unit)
| ANothing.

Definition through {A S} (wrap : Result A → CacheAnswer) (r : Result A * S) : CacheAnswer * S :=
  (wrap r.1, r.2).

Fixpoint answers {S} (step : CacheOp → S → CacheAnswer * S) (ops : list CacheOp) (s : S)
    : list CacheAnswer * S :=
  match ops with
  | [] => ([], s)
  | op :: ops' =>
      let '(a, s') := step op s in
      let '(rest, s'') := answers step ops' s' in (a :: rest, s'')
  end.

Section Traces.
Context {V H : Type} `{!FileHandle V H} (inner : FileSystem V H).
Local Abbreviation W := (CacheWorld V).

(** A call on a filesystem; the cache's own operations are nothing to it. *)
Definition direct_op (op : CacheOp) (v : V) : CacheAnswer * V :=
  match op with
  | OpStat ctx name => through AMetadata (fs_stat inner ctx name v)
  | OpLstat ctx name => through AMetadata (fs_lstat inner ctx name v)
  | OpReadDir ctx name => through AEntries (fs_read_dir inner ctx name v)
  | OpChange c => through AChanged (run_change inner c v)
  | _ => (ANothing, v)
  end.

(** The call through the cache, a step of a refresh thread between two calls, or one of
    the cache's own operations. *)
Definition cached_op (op : CacheOp) (w : W) : CacheAnswer * W :=
  match op with
  | OpStat ctx name => through AMetadata (fs_stat (fs inner) ctx name w)
  | OpLstat ctx name => through AMetadata (fs_lstat (fs inner) ctx name w)
  | OpReadDir ctx name => through AEntries (fs_read_dir (fs inner) ctx name w)
  | OpChange c => through AChanged (run_change (fs inner) c w)
  | OpRefresh i => (ANothing, step_refresh inner i w)
  | OpSetTtl t => (ANothing, snd (set_ttl t w))
  | OpInvalidateAll => (ANothing, snd (invalidate_all w))
  end.

(** Along the trace, no change is made while a refresh thread holds an answer to what
    the change touches. *)
Fixpoint calm (ops : list CacheOp) (w : W) : Prop :=
  match ops with
  | [] => True
  | op :: ops' =>
      match op with OpChange c => unraced inner c w | _ => True end
      ∧ calm ops' (snd (cached_op op w))
  end.

(** The times to live that the trace sets. *)
Definition set_ttls : list CacheOp → list Z :=
  omap (λ op, match op with OpSetTtl t => Some t | _ => None end).

Context `{!CacheLaws inner} (instant time : Z → Prop).
Context (in_range : ∀ i t, instant i → time t → 0 ≤ t ∧ (i + t) / 1000000000 ≤ I64_MAX).
Local Abbreviation inv := (cache_inv inner instant time (λ _, false)).

Lemma cached_op_same op w : inv w →
  match op with
  | OpChange c => unraced inner c w
  | OpSetTtl t => time t
  | _ => True
  end →
  let '(a, w') := cached_op op w in
  inv w' ∧ (a, cw_inner w') = direct_op op (cw_inner w).
Proof.
  intros Hw Hop. destruct op as [ctx name|ctx name|ctx name|c|i|t|]; cbn.
  - destruct (stat_same inner _ _ in_range ctx name false w Hw) as (w' & Hr & Hi & He).
    rewrite Hr. cbn. destruct (look_stat ctx name (cw_inner w)) as (r & _ & Hs). rewrite Hs. cbn.
    by rewrite He.
  - destruct (stat_same inner _ _ in_range ctx name true w Hw) as (w' & Hr & Hi & He).
    rewrite Hr. cbn. destruct (look_lstat ctx name (cw_inner w)) as (r & _ & Hs). rewrite Hs. cbn.
    by rewrite He.
  - destruct (read_dir_same inner _ _ in_range ctx name w Hw) as (w' & Hr & Hi & He).
    rewrite Hr. cbn. destruct (look_dir ctx name (cw_inner w)) as (r & _ & Hs). rewrite Hs. cbn.
    by rewrite He.
  - pose proof (change_same inner _ _ in_range c w Hw Hop) as Hc.
    destruct (run_change (fs inner) c w) as [r w']. destruct Hc as [Hc Hi]. split; [done|].
    unfold through. by rewrite <- Hc.
  - destruct (step_refresh_keeps inner _ _ in_range _ i w Hw) as [Hi He]. by rewrite He.
  - unfold set_ttl, locked. destruct Hw as [Hc Hr Hh Ht Hi]. by rewrite Hh.
  - unfold invalidate_all, locked. destruct Hw as [Hc Hr Hh Ht Hi]. rewrite Hh.
    split; [|done]. split; [|done..]. intros k e Hk. cbn in Hk. by rewrite lookup_empty in Hk.
Qed.

Lemma answers_same ops : ∀ w, inv w → calm ops w → Forall time (set_ttls ops) →
  let '(got, w') := answers cached_op ops w in
  (got, cw_inner w') = answers direct_op ops (cw_inner w).
Proof.
  induction ops as [|op ops IH]; intros w Hw Hcalm Hts; cbn [answers]; [done|].
  destruct Hcalm as [Hop Hcalm].
  assert (Forall time (set_ttls ops) ∧ match op with
    | OpChange c => unraced inner c w | OpSetTtl t => time t | _ => True end) as [Hts' Hop'].
  { destruct op; try done. by inversion Hts. }
  pose proof (cached_op_same op w Hw Hop') as Hs. destruct (cached_op op w) as [a w1].
  destruct Hs as [Hw1 Hs]. rewrite <- Hs. specialize (IH w1 Hw1 Hcalm Hts').
  destruct (answers cached_op ops w1) as [got w2]. by rewrite <- IH.
Qed.
End Traces.

(** C25. The cache cannot be told from the filesystem: over one whose changes show
    only where the cache invalidates, any sequence of lookups and changes through the
    cache, one call at a time, with the refresh threads taking their steps at any
    moments between and within the calls, is answered as by the filesystem itself,
    which ends in the same state. The clock and the times to live stay in the range of
    an [Instant], and no change is made while a refresh thread holds an answer, not yet
    stored, to something the change touches ([refresh_after_invalidate] is what happens
    then). *)
Theorem cache_transparent {V H} (inner : FileSystem V H) `{!CacheLaws inner}
    ops v clock schedule ttl :
  (∀ n t, t ∈ ttl :: set_ttls ops → 0 ≤ t ∧ (clock n + t) / 1000000000 ≤ I64_MAX) →
  calm inner ops (with_ttl v clock schedule ttl) →
  let '(got, w) := answers (cached_op inner) ops (with_ttl v clock schedule ttl) in
  (got, cw_inner w) = answers (direct_op inner) ops v.
Proof.
  intros Hrange Hcalm.
  apply (answers_same inner (λ i, ∃ n, i = clock n) (λ t, t ∈ ttl :: set_ttls ops)).
  - intros i t [n ->] Ht. by apply Hrange.
  - split; [|constructor|done|left|by intros n; exists n].
    intros k e Hk. cbn in Hk. by rewrite lookup_empty in Hk.
  - done.
  - apply Forall_forall. intros t Ht. by right.
Qed.

(** ** A filesystem with the laws

    Files with a mode, under normalized paths; [chmod] makes or changes one. *)
Abbreviation Flat := (btree string Z).

Definition flat_stat (v : Flat) (path : string) : Result Metadata :=
  match bt_get path v with
  | Some mode => Ok (Meta.file path mode 0)
  | None => Err (EPath "stat" path NotFound)
  end.

Definition flat_list (v : Flat) (path : string) : list DirEntry :=
  (λ kv, mkDirEntry (base_name kv.1) (Meta.file (base_name kv.1) kv.2 0))
    <$> filter (λ kv, parent_path kv.1 = path) v.

Definition flat_fs : FileSystem Flat unit := {|
  fs_open _ name := throw (EPath "open" name NotFound);
  fs_stat _ name := λ v, (flat_stat v (normalize_cache_path name), v);
  fs_lstat _ name := λ v, (flat_stat v (normalize_cache_path name), v);
  fs_read_dir _ name := λ v, (Ok (flat_list v (normalize_cache_path name)), v);
  fs_create _ := unsupported;
  fs_open_file _ _ _ := unsupported;
  fs_mkdir _ _ := unsupported;
  fs_remove name := modify (bt_remove (normalize_cache_path name));
  fs_rename _ _ := unsupported;
  fs_link _ _ := unsupported;
  fs_chmod name mode := modify (bt_insert (normalize_cache_path name) mode);
  fs_chown _ _ _ := unsupported;
  fs_chtimes _ _ := unsupported;
  fs_truncate _ _ := unsupported;
  fs_symlink _ _ := unsupported;
  fs_readlink _ := unsupported;
  fs_set_xattr _ _ _ := unsupported;
  fs_get_xattr _ _ := unsupported;
  fs_list_xattrs _ := unsupported;
  fs_remove_xattr _ _ := unsupported
|}.

Definition flat_look (v : Flat) (k : CacheKey) : CachePayload :=
  match k.2 with
  | KReadDir => PReadDir (Ok (flat_list v k.1))
  | _ => PMetadata (flat_stat v k.1)
  end.

Lemma filter_insert_other (P : string * Z → Prop) `{∀ x, Decision (P x)} n z (v : Flat) :
  (∀ y, ¬ P (n, y)) → filter P (bt_insert n z v) = filter P v.
Proof.
  intros HP. induction v as [|[k y] v IH]; cbn [bt_insert].
  - rewrite filter_cons, decide_False by done. done.
  - repeat case_decide; subst; rewrite ?filter_cons; rewrite ?IH; repeat case_decide; try done;
      by exfalso; eapply HP.
Qed.

Lemma flat_list_insert n z v p : parent_path n ≠ p → flat_list (bt_insert n z v) p = flat_list v p.
Proof. intros Hn. unfold flat_list. f_equal. by apply filter_insert_other. Qed.

Lemma flat_list_remove n v p : parent_path n ≠ p → flat_list (bt_remove n v) p = flat_list v p.
Proof.
  intros Hn. unfold flat_list. f_equal. rewrite bt_remove_filter, list_filter_filter.
  apply list_filter_iff. intros [k y]. cbn. split; [tauto|]. intros <-. split; [done|]. congruence.
Qed.

#[global] Instance flat_laws : CacheLaws flat_fs.
Proof.
  refine {| look := flat_look |}.
  - intros ctx name v. by eexists.
  - intros ctx name v. by eexists.
  - intros ctx name v. by eexists.
  - intros c v [p kind] Ht. destruct c; cbn in *; try done; specialize (Ht eq_refl).
    + apply orb_false_iff in Ht as [Hb Hl]. bool_to_prop. unfold below_path in Hb.
      apply orb_false_iff in Hb as [Hb _]. apply orb_false_iff in Hb as [Hb _]. bool_to_prop.
      cbn in Hb. unfold flat_look. cbn. destruct kind; cbn.
      * f_equal. unfold flat_stat. by rewrite bt_get_remove_ne.
      * f_equal. unfold flat_stat. by rewrite bt_get_remove_ne.
      * f_equal. f_equal. apply flat_list_remove. congruence.
    + apply orb_false_iff in Ht as [Hb Hl]. bool_to_prop. cbn in Hb.
      unfold flat_look. cbn. destruct kind; cbn.
      * f_equal. unfold flat_stat. by rewrite bt_get_insert_ne.
      * f_equal. unfold flat_stat. by rewrite bt_get_insert_ne.
      * f_equal. f_equal. apply flat_list_insert. congruence.
Defined.

(** A clock that shows the next second at every reading, until it stops at [1000]. *)
Definition ticking (n : nat) : Z := Z.of_nat (n `min` 1000) * 1000000000.

(** The first refresh thread takes a step between any two steps of a call. *)
Definition busy (_ : nat) : list nat := [0%nat].

Definition demo_ops : list CacheOp :=
  [OpStat Ctx.new "d/f"; OpChange (ChChmod "/d/f" 420); OpStat Ctx.new "/d/f";
   OpReadDir Ctx.new "d"; OpStat Ctx.new "d/f"; OpRefresh 0; OpSetTtl 2000000000;
   OpStat Ctx.new "d/f"; OpStat Ctx.new "d/f"; OpChange (ChChmod "e" 1);
   OpRefresh 0; OpRefresh 0; OpRefresh 0; OpChange (ChRemove "d/f"); OpReadDir Ctx.new "d";
   OpStat Ctx.new "d/f"].

Lemma cache_transparent_witness :
  fst (answers (cached_op flat_fs) demo_ops (with_ttl [] ticking busy 4000000000)) =
  fst (answers (direct_op flat_fs) demo_ops []).
Proof.
  assert (calm flat_fs demo_ops (with_ttl [] ticking busy 4000000000)) as Hcalm.
  { vm_compute. repeat split; intros Ha; repeat constructor; try discriminate Ha; done. }
  pose proof (cache_transparent flat_fs demo_ops [] ticking busy 4000000000) as Ht.
  destruct (answers (cached_op flat_fs) _ _) as [got w]. rewrite <- Ht; [done| |exact Hcalm].
  intros n t Hn. change (t ∈ [4000000000; 2000000000]) in Hn.
  assert (0 ≤ t ≤ 4000000000) by (rewrite !elem_of_cons, elem_of_nil in Hn; lia).
  unfold ticking.
  split; [lia|]. apply Z.div_le_upper_bound; [lia|]. unfold I64_MAX. lia.
Defined.

(** ** Where the laws fail: the cache over [MemFs] *)

Definition mem : FileSystem MemWorld MemHandle := MemFs.fs 8.
Definition mem_tree : MemWorld :=
  snd (MemFs.from_entries [("d/f", [x01])] (MemFs.new (λ _, 0))).
Definition over_mem : CacheWorld MemWorld := with_ttl mem_tree ticking (λ _, []) DEFAULT_TTL.

Definition run {A} (m : M (CacheWorld MemWorld) A) (w : CacheWorld MemWorld) : CacheWorld MemWorld :=
  snd (m w).
Definition size_of (r : Result Metadata) : option Z :=
  match r with Ok m => Some (m_size m) | _ => None end.
Definition mode_of (r : Result Metadata) : option Z :=
  match r with Ok m => Some (FileMode.perm (m_mode m)) | _ => None end.
Definition cached_stat (name : string) (w : CacheWorld MemWorld) : Result Metadata :=
  fst (fs_stat (fs mem) Ctx.new name w).
Definition real_stat (name : string) (w : CacheWorld MemWorld) : Result Metadata :=
  fst (fs_stat mem Ctx.new name (cw_inner w)).

(** Making a file invalidates the metadata of the file and the listing of its
    directory, and not the metadata of the directory, whose size has changed. *)
Lemma directory_size_stale :
  let w := run (fs_stat (fs mem) Ctx.new "d") over_mem in
  let w := run (fs_create (fs mem) "d/g") w in
  size_of (cached_stat "d" w) = Some 3 ∧ size_of (real_stat "d" w) = Some 4.
Proof. by vm_compute. Qed.

(** The metadata under a symbolic link are those of its target; a change of the target
    does not invalidate them. *)
Lemma link_target_stale :
  let w := run (fs_symlink (fs mem) "d/f" "s") over_mem in
  let w := run (fs_stat (fs mem) Ctx.new "s") w in
  let w := run (fs_truncate (fs mem) "d/f" 9) w in
  size_of (cached_stat "s" w) = Some 1 ∧ size_of (real_stat "s" w) = Some 9.
Proof. by vm_compute. Qed.

(** Metadata of an open file are asked for by path: after a rename the file the
    handle has open is not found. *)
Lemma renamed_file_loses_stat :
  let '(r, w) := fs_open (fs mem) Ctx.new "d/f" over_mem in
  let w := run (fs_rename (fs mem) "d/f" "d/h") w in
  match r with
  | Ok f => is_Ok (fst (file_stat mem (f, w))) = false
      ∧ is_Ok (fst (fh_stat (mf_inner f, cw_inner w))) = true
  | _ => False
  end.
Proof. by vm_compute. Qed.

(** A lookup that missed stores what it was told before a change that another thread
    made and invalidated meanwhile: the old answer is then served for its whole time
    to live. *)
Lemma store_after_invalidate :
  let k := key "d/f" KStat in
  let '(answer, w) := inner_metadata mem false Ctx.new "d/f" over_mem in
  let w := run (fs_chmod (fs mem) "d/f" 256) w in
  let w := run (set_cached mem k (PMetadata answer)) w in
  mode_of (cached_stat "d/f" w) = Some 420 ∧ mode_of (real_stat "d/f" w) = Some 256.
Proof. by vm_compute. Qed.

(** So does a refresh thread that asked before a change and stores after it: the changed
    path is answered as it was. *)
Lemma refresh_after_invalidate :
  let w := run (set_ttl 2000000000) over_mem in
  let w := run (fs_stat (fs mem) Ctx.new "d/f") w in
  let w := run (fs_stat (fs mem) Ctx.new "d/f") w in
  let w := step_refresh mem 0 w in
  let w := run (fs_chmod (fs mem) "d/f" 256) w in
  let w := run (set_ttl DEFAULT_TTL) w in
  let w := step_refresh mem 0 (step_refresh mem 0 w) in
  mode_of (cached_stat "d/f" w) = Some 420 ∧ mode_of (real_stat "d/f" w) = Some 256.
Proof. by vm_compute. Qed.

(** A refresh that is answered with an error renews the old answer, for a whole time
    to live: a file that is gone from the inner filesystem is served for ever, as long
    as it is asked for between the moments of renewal and of expiry. *)
Lemma failed_refresh_renews {V H} `{!FileHandle V H} (inner : FileSystem V H) w path err e rs :
  let k := key path KStat in
  cw_refreshes w = mkRefresh path k Asking :: rs →
  fst (fs_stat inner (Ctx.with_origin path "stat" Ctx.new) path (cw_inner w)) = Err err →
  cw_cache w !! k = Some e → cw_poisoned w = false → cw_ttl w ≠ 0 → 0 ≤ cw_ttl w →
  (cw_clock w 0%nat + cw_ttl w) / 1000000000 ≤ I64_MAX →
  let w' := step_refresh inner 0 (step_refresh inner 0 w) in
  cw_cache w' !! k = Some (mkCacheEntry (ce_payload e) (Some (cw_clock w 0%nat + cw_ttl w / 2))
    (cw_clock w 0%nat + cw_ttl w) false)
  ∧ cw_refreshes w' = rs.
Proof.
  intros k Hrs Hask He Hh Hne Ht Hmax. destruct w as [v t p c clock rs' sch].
  cbn [cw_inner cw_ttl cw_poisoned cw_cache cw_clock cw_refreshes] in *. subst rs' p.
  assert ((clock 0%nat + t / 2) / 1000000000 ≤ I64_MAX) as Hhalf.
  { etrans; [|exact Hmax]. apply Z.div_le_mono; [lia|].
    assert (t / 2 ≤ t) by (apply Z.div_le_upper_bound; lia). lia. }
  apply Z.ltb_ge in Hmax, Hhalf. apply Z.eqb_neq in Hne.
  assert (∃ v', step_refresh inner 0 (mkCacheWorld v t false c clock (mkRefresh path k Asking :: rs) sch)
    = mkCacheWorld v' t false c clock (mkRefresh path k (Holding (PMetadata (Err err))) :: rs) sch)
    as [v' ->].
  { unfold step_refresh, refresh_section, refresh_ask, refresh_metadata, inner_metadata, asked,
      attempt, in_inner, zoom. cbn. unfold_eff. cbn.
    destruct (fs_stat inner _ path v) as [r v']. cbn in Hask. subst r. by exists v'. }
  unfold step_refresh, refresh_section, extend_expiry, locked, later, time_plus, lift. cbn.
  unfold_eff. cbn. rewrite Hne. cbn. rewrite He. cbn. rewrite Hhalf. cbn. rewrite Hmax. cbn.
  by rewrite lookup_insert_eq.
Qed.
