(* ===== verification/Sync.v ===== *)
(** * star9-fs: the sync filesystem

    Models [SyncFs], [SyncFile], [apply_sync_patch] and their helpers of
    [crates/star9-fs/src/syncfs.rs], over any local [FileSystem] and any
    [RemoteSyncBackend].

    A patch is a tar archive.  The [tar] crate is a parameter ([TarCodec]): an entry
    is what the code sets in a header or reads from it.  The world [W] keeps the
    [SyncState] next to the worlds of the two filesystems, so the computations of the
    filesystems and of the remote may change it: what other threads mark while they
    run.  [collect_paths], [append_patch_path] and [remove_all] recurse into
    directories and take the depth as [fuel]; [read_file] reads with the same. *)

From stdpp Require Import base list numbers option strings sorting.
From Stdlib Require Import ZArith Lia Ascii.
From S2P Require Import Prelude Strs BTree Core FsTrait.

Local Open Scope Z_scope.

(** ** Archives *)

Inductive EntryType := Regular | Directory | Symlink | OtherType.

#[global] Instance EntryType_eq_dec : EqDecision EntryType.
Proof. solve_decision. Defined.

Record TarEntry := mkTarEntry {
  te_path : string;
  te_type : EntryType;
  te_mode : option Z;
  te_mtime : Z;
  te_uid : Z;
  te_gid : Z;
  te_link : option string;
  te_pax : list (string * string);
  te_data : list byte
}.

(** [tar::Builder] and [tar::Archive]: writing entries, and the entries read before
    the end or before an error.  The [te_path] of an entry that is written is the path given
    to [append_data]; of an entry that is read it is [header().path()], which of a path longer
    than [HEADER_NAME] bytes is the beginning alone: the crate writes the whole path in an
    extension that the header does not show. *)
Class TarCodec := {
  tar_build : list TarEntry → Result (list byte);
  tar_read : list byte → list TarEntry * option Error
}.

(** The name field of a header. *)
Definition HEADER_NAME : nat := 100.

(** ** The state *)

Inductive DirtyChange := Upsert | Remove (recursive : bool).

#[global] Instance DirtyChange_eq_dec : EqDecision DirtyChange.
Proof. solve_decision. Defined.

Record DirtyEntry := mkDirtyEntry { de_change : DirtyChange; de_generation : Z }.

#[global] Instance DirtyEntry_eq_dec : EqDecision DirtyEntry.
Proof. solve_decision. Defined.

Abbreviation Dirty := (btree string DirtyEntry).

Record SyncState := mkSyncState {
  ss_next_generation : Z;
  ss_dirty : Dirty;
  ss_pull_conflicts : btree string DirtyChange
}.

Inductive PullConflictPolicy := KeepLocal | PreferRemote.

Inductive PullPathAction := DeleteLocal | SyncRemoteDir | SyncRemoteLeaf.

Class HasSync (W : Type) := {
  sync_of : W → SyncState;
  set_sync : SyncState → W → W;
  sync_set s w : sync_of (set_sync s w) = s
}.

(** [RemoteSyncBackend] *)
Record RemoteSyncBackend (W H : Type) := mkRemote {
  rs_index : M W (FileSystem W H);
  rs_apply_patch : list byte → M W unit
}.
Arguments mkRemote {W H}. Arguments rs_index {W H}. Arguments rs_apply_patch {W H}.

Module Sync.

(** ** Paths *)

Definition path_contains (ancestor descendant : string) : bool :=
  let ancestor := clean_path ancestor in
  let descendant := clean_path descendant in
  bool_decide (descendant = ancestor)
  || match strip_prefix (ancestor +:+ "/") descendant with Some _ => true | None => false end.

Definition paths_overlap (a b : string) : bool := path_contains a b || path_contains b a.

(** The order of [collect_paths]: fewer components first, then by name. *)
Definition path_order (a b : string) : Prop :=
  let na := length (split_on "/" a) in
  let nb := length (split_on "/" b) in
  (na < nb)%nat ∨ na = nb ∧ String.le a b.

#[global] Instance path_order_dec : RelDecision path_order.
Proof. intros a b. unfold path_order. apply _. Defined.

Definition sort_paths (l : list string) : list string := merge_sort path_order l.

Section Sync.
Context {W H : Type} `{!HasSync W} `{!FileHandle W H} `{!TarCodec}.
Implicit Types fsys : FileSystem W H.

(** ** Applying a patch *)

Definition sync_patch_path_exists fsys (path : string) : M W bool :=
  exists_with (lstat_path fsys path).

Definition remove_sync_patch_path fsys (fuel : nat) (path : string) : M W unit :=
  found ← sync_patch_path_exists fsys path;
  if negb (found : bool) then mret tt
  else
    meta ← lstat_path fsys path;
    if Meta.is_dir meta then remove_all fsys fuel path else fs_remove fsys path.

(** The loop of [ensure_sync_patch_parent_dirs], [cur] the path so far. *)
Fixpoint ensure_dirs fsys (fuel : nat) (cur : string) (parts : list string) : M W unit :=
  match parts with
  | [] => mret tt
  | part :: rest =>
      let cur := (if is_empty_str cur then cur else cur +:+ "/") +:+ part in
      r ← attempt (lstat_path fsys cur);
      match r with
      | Ok meta =>
          if Meta.is_dir meta then mret tt
          else
            remove_sync_patch_path fsys fuel cur ;;
            fs_mkdir fsys cur (FileMode.from_perm 493)
      | Err e =>
          if kind_is NotFound e then fs_mkdir fsys cur (FileMode.from_perm 493) else throw e
      | Panic => panic
      | NoFuel => no_fuel
      end ;;
      ensure_dirs fsys fuel cur rest
  end.

Definition ensure_sync_patch_parent_dirs fsys (fuel : nat) (path : string) : M W unit :=
  let parent := parent_path path in
  if decide (parent = ".") then mret tt
  else ensure_dirs fsys fuel "" (split_on "/" (clean_path parent)).

(** [match r { Ok(()) => Ok(()), Err(err) if err.kind() == skip => Ok(()), .. }] *)
Definition passing (skip : ErrorKind) (m : M W unit) : M W unit :=
  r ← attempt m;
  match r with
  | Ok _ => mret tt
  | Err e => if kind_is skip e then mret tt else throw e
  | Panic => panic
  | NoFuel => no_fuel
  end.

Definition apply_sync_patch_delete fsys (fuel : nat) (path : string) (recursive : bool) : M W unit :=
  found ← sync_patch_path_exists fsys path;
  if negb (found : bool) then mret tt
  else
    meta ← lstat_path fsys path;
    if recursive && Meta.is_dir meta then remove_all fsys fuel path else fs_remove fsys path.

Definition apply_sync_patch_dir fsys (fuel : nat) (path : string) (mode : Z) : M W unit :=
  ensure_sync_patch_parent_dirs fsys fuel path ;;
  found ← sync_patch_path_exists fsys path;
  (if (found : bool) then
     meta ← lstat_path fsys path;
     if Meta.is_dir meta then mret tt else remove_sync_patch_path fsys fuel path
   else mret tt) ;;
  passing AlreadyExists (fs_mkdir fsys path mode) ;;
  passing NotSupported (fs_chmod fsys path mode).

Definition apply_sync_patch_symlink fsys (fuel : nat) (path target : string) : M W unit :=
  ensure_sync_patch_parent_dirs fsys fuel path ;;
  remove_sync_patch_path fsys fuel path ;;
  fs_symlink fsys target path.

Definition apply_sync_patch_file fsys (fuel : nat) (path : string) (data : list byte) (mode : Z)
    : M W unit :=
  ensure_sync_patch_parent_dirs fsys fuel path ;;
  found ← sync_patch_path_exists fsys path;
  (if (found : bool) then
     meta ← lstat_path fsys path;
     if Meta.is_dir meta || FileMode.is_symlink (m_mode meta)
     then remove_sync_patch_path fsys fuel path else mret tt
   else mret tt) ;;
  write_file fsys path data mode.

(** The last record of a key that the loop over the records looks at. *)
Fixpoint pax_flags (records : list (string * string)) (is_delete recursive : bool) : bool * bool :=
  match records with
  | [] => (is_delete, recursive)
  | (k, v) :: rest =>
      if decide (k = "delete") then pax_flags rest true recursive
      else if decide (k = "recursive") then pax_flags rest is_delete (bool_decide (v = "1"))
      else pax_flags rest is_delete recursive
  end.

(** One turn of the loop of [apply_sync_patch]. *)
Definition apply_entry fsys (fuel : nat) (entry : TarEntry) : M W unit :=
  let '(is_delete, recursive) := pax_flags (te_pax entry) false false in
  let path := clean_path (te_path entry) in
  if (is_delete : bool) then apply_sync_patch_delete fsys fuel path recursive
  else
    match te_type entry with
    | Directory =>
        apply_sync_patch_dir fsys fuel path (FileMode.from_perm (default 493 (te_mode entry)))
    | Symlink =>
        target ← ok_or (te_link entry) (EMessage ("symlink entry missing target: " +:+ path));
        apply_sync_patch_symlink fsys fuel path target
    | _ =>
        apply_sync_patch_file fsys fuel path (te_data entry)
          (FileMode.from_perm (default 420 (te_mode entry)))
    end.

Definition apply_sync_patch fsys (fuel : nat) (patch : list byte) : M W unit :=
  let '(entries, error) := tar_read patch in
  for_each (apply_entry fsys fuel) entries ;;
  match error with Some e => throw e | None => mret tt end.

(** ** Building a patch *)

(** [metadata.modified.duration_since(UNIX_EPOCH).unwrap_or_default().as_secs()] *)
Definition mtime_secs (t : Z) : Z := Z.max 0 t / 1000000000.

Definition path_entry (path : string) (meta : Metadata) (type : EntryType) (link : option string)
    (data : list byte) : TarEntry :=
  mkTarEntry path type (Some (FileMode.perm (m_mode meta))) (mtime_secs (m_modified meta))
    (m_uid meta) (m_gid meta) link [] data.

Fixpoint append_patch_path fsys (fuel : nat) (path : string) : M W (list TarEntry) :=
  match fuel with
  | O => no_fuel
  | S fuel' =>
      meta ← lstat_path fsys path;
      let archive_path := clean_path path in
      if FileMode.is_symlink (m_mode meta) then
        target ← fs_readlink fsys path;
        mret [path_entry archive_path meta Symlink (Some target) []]
      else if Meta.is_dir meta then
        entries ← read_dir_path fsys path;
        children ← map_eff (λ e, append_patch_path fsys fuel' (child_path path (d_name e))) entries;
        mret (path_entry archive_path meta Directory None [] :: mjoin children)
      else
        data ← read_file fsys fuel path;
        mret [path_entry archive_path meta Regular None data]
  end.

Definition delete_marker (path : string) (recursive : bool) : TarEntry :=
  mkTarEntry (clean_path path) Regular (Some 0) 0 0 0 None
    (("delete", "") :: (if recursive then [("recursive", "1")] else [])) [].

(** ** [SyncFs] *)

Context (local : FileSystem W H) (remote : RemoteSyncBackend W H).
Context (policy : PullConflictPolicy) (retain_pull_conflicts : bool).

Definition sync_new : SyncState := mkSyncState 0 [] [].

Definition sync_state : M W SyncState := gets sync_of.
Definition update_sync (f : SyncState → SyncState) : M W unit :=
  modify (λ w, set_sync (f (sync_of w)) w).

Definition dirty : M W (btree string DirtyChange) :=
  s ← sync_state; mret (prod_map id de_change <$> ss_dirty s).

Definition pull_conflicts : M W (btree string DirtyChange) :=
  s ← sync_state; mret (ss_pull_conflicts s).

Definition set_conflicts (c : btree string DirtyChange) (s : SyncState) : SyncState :=
  mkSyncState (ss_next_generation s) (ss_dirty s) c.
Definition set_dirty (d : Dirty) (s : SyncState) : SyncState :=
  mkSyncState (ss_next_generation s) d (ss_pull_conflicts s).

Definition clear_pull_conflicts : M W unit := update_sync (set_conflicts []).

(** The state after [mark_dirty]. *)
Definition marked (path : string) (change : DirtyChange) (s : SyncState) : SyncState :=
  let generation := ss_next_generation s + 1 in
  mkSyncState generation (bt_insert (clean_path path) (mkDirtyEntry change generation) (ss_dirty s))
    (ss_pull_conflicts s).

Definition mark_dirty (path : string) (change : DirtyChange) : M W unit :=
  s ← sync_state;
  if ss_next_generation s =? U64_MAX then panic else update_sync (marked path change).

Definition patch_entries (fuel : nat) (d : Dirty) : M W (list TarEntry) :=
  parts ← map_eff (λ '(path, entry),
    match de_change entry with
    | Upsert => append_patch_path local fuel path
    | Remove recursive => mret [delete_marker path recursive]
    end) d;
  mret (mjoin parts).

Definition build_patch (fuel : nat) (d : Dirty) : M W (list byte) :=
  entries ← patch_entries fuel d;
  lift (tar_build entries).

(** The paths of [snapshot] that have not been marked since are clean again. *)
Definition settle_path (path : string) (snapshot : DirtyEntry) (s : SyncState) : SyncState :=
  match bt_get path (ss_dirty s) with
  | Some current =>
      if de_generation current =? de_generation snapshot then
        mkSyncState (ss_next_generation s) (bt_remove path (ss_dirty s))
          (bt_remove path (ss_pull_conflicts s))
      else s
  | None => s
  end.

Definition settle (snapshot : Dirty) (s : SyncState) : SyncState :=
  foldl (λ s kv, settle_path kv.1 kv.2 s) s snapshot.

Definition push (fuel : nat) : M W unit :=
  s ← sync_state;
  let snapshot := ss_dirty s in
  if bool_decide (snapshot = []) then mret tt
  else
    patch ← build_patch fuel snapshot;
    if bool_decide (patch = []) then mret tt
    else
      rs_apply_patch remote patch ;;
      update_sync (settle snapshot).

(** ** Pulling *)

Fixpoint collect_paths_from fsys (fuel : nat) (path : string) : M W (list string) :=
  match fuel with
  | O => no_fuel
  | S fuel' =>
      let out := if decide (path = ".") then [] else [path] in
      meta ← lstat_path fsys path;
      if negb (Meta.is_dir meta) then mret out
      else
        entries ← read_dir_path fsys path;
        below ← map_eff (λ e, collect_paths_from fsys fuel' (child_path path (d_name e))) entries;
        mret (out ++ mjoin below)
  end.

Definition collect_paths fsys (fuel : nat) : M W (list string) :=
  out ← collect_paths_from fsys fuel "."; mret (sort_paths out).

(** [exists(local, path)? && lstat(local, path)?.is_dir()] *)
Definition local_is_dir (path : string) : M W bool :=
  found ← exists_path local path;
  if (found : bool) then meta ← lstat_path local path; mret (Meta.is_dir meta) else mret false.

Definition overlapping (d : Dirty) (path : string) : list string :=
  filter (λ p, paths_overlap p path = true) (bt_keys d).

Definition conflicting_dirty_paths (d : Dirty) (path : string) (action : PullPathAction)
    : M W (list string) :=
  let path := clean_path path in
  match action with
  | DeleteLocal | SyncRemoteLeaf => mret (overlapping d path)
  | SyncRemoteDir =>
      is_dir ← local_is_dir path;
      mret (if (is_dir : bool) then filter (λ p, path_contains p path = true) (bt_keys d)
            else overlapping d path)
  end.

Definition record_conflicts (retained : btree string DirtyChange) (d : Dirty)
    (conflicts : list string) : btree string DirtyChange :=
  foldl (λ r path, match bt_get path d with
    | Some entry => bt_insert path (de_change entry) r
    | None => r
    end) retained conflicts.

Definition clear_dirty_subtree (d : Dirty) (path : string) : Dirty :=
  bt_retain (λ p, negb (path_contains path p)) d.

Definition clear_dirty_paths_for_remote_sync (d : Dirty) (path : string) (action : PullPathAction)
    : Dirty :=
  match action with
  | DeleteLocal | SyncRemoteLeaf => clear_dirty_subtree d path
  | SyncRemoteDir => bt_remove path d
  end.

(** The last two branches give the same action. *)
Definition pull_path_action (index : FileSystem W H) (path : string) : M W PullPathAction :=
  remote_meta ← lstat_path index path;
  if Meta.is_dir remote_meta then mret SyncRemoteDir
  else if FileMode.is_symlink (m_mode remote_meta) then mret SyncRemoteLeaf
  else
    is_dir ← local_is_dir path;
    mret (if (is_dir : bool) then SyncRemoteLeaf else SyncRemoteLeaf).

Definition remove_local_path (fuel : nat) (path : string) : M W unit :=
  meta ← lstat_path local path;
  if Meta.is_dir meta then remove_all local fuel path else fs_remove local path.

Definition sync_path_from_remote (index : FileSystem W H) (fuel : nat) (path : string) : M W unit :=
  remote_meta ← lstat_path index path;
  if Meta.is_dir remote_meta then
    found ← exists_path local path;
    if negb (found : bool) then mkdir_all local path (m_mode remote_meta)
    else
      meta ← lstat_path local path;
      if negb (Meta.is_dir meta) then
        remove_local_path fuel path ;; mkdir_all local path (m_mode remote_meta)
      else mret tt
  else if FileMode.is_symlink (m_mode remote_meta) then
    found ← exists_path local path;
    (if (found : bool) then remove_local_path fuel path else mret tt) ;;
    mkdir_all local (parent_path path) (FileMode.from_perm 493) ;;
    target ← fs_readlink index path;
    fs_symlink local target path
  else
    data ← read_file index fuel path;
    found ← exists_path local path;
    same ← (if (found : bool) then
              local_meta ← lstat_path local path;
              if Meta.is_dir local_meta || FileMode.is_symlink (m_mode local_meta) then
                remove_local_path fuel path ;; mret false
              else
                old ← read_file local fuel path; mret (bool_decide (old = data))
            else
              mkdir_all local (parent_path path) (FileMode.from_perm 493) ;; mret false);
    if (same : bool) then mret tt
    else write_file local path data (m_mode remote_meta).

(** What the two loops of [pull] carry: the dirty paths they still respect, and the
    conflicts they found. *)
Abbreviation Pulling := (Dirty * btree string DirtyChange)%type.

Definition keeps_local : bool := match policy with KeepLocal => true | PreferRemote => false end.

(** A turn of the first loop, over the local paths, the deepest first. *)
Definition pull_delete (fuel : nat) (remote_paths : list string) (st : Pulling) (path : string)
    : M W Pulling :=
  let '(d, retained) := st in
  if bool_decide (path ∈ remote_paths) then mret st
  else
    conflicts ← conflicting_dirty_paths d path DeleteLocal;
    if bool_decide (conflicts = []) then remove_local_path fuel path ;; mret st
    else if keeps_local then mret (d, record_conflicts retained d conflicts)
    else
      remove_local_path fuel path ;;
      mret (clear_dirty_subtree d path, retained).

(** A turn of the second loop, over the remote paths. *)
Definition pull_copy (index : FileSystem W H) (fuel : nat) (st : Pulling) (path : string)
    : M W Pulling :=
  let '(d, retained) := st in
  action ← pull_path_action index path;
  conflicts ← conflicting_dirty_paths d path action;
  if bool_decide (conflicts = []) then sync_path_from_remote index fuel path ;; mret st
  else if keeps_local then mret (d, record_conflicts retained d conflicts)
  else
    sync_path_from_remote index fuel path ;;
    mret (clear_dirty_paths_for_remote_sync d path action, retained).

(** The snapshot's paths that the loops cleared and nobody has marked since. *)
Definition unmark_path (path : string) (snapshot : DirtyEntry) (s : SyncState) : SyncState :=
  match bt_get path (ss_dirty s) with
  | Some current =>
      if de_generation current =? de_generation snapshot
      then set_dirty (bt_remove path (ss_dirty s)) s else s
  | None => s
  end.

Definition finish_pull (original d : Dirty) (retained : btree string DirtyChange) (s : SyncState)
    : SyncState :=
  set_conflicts (if retain_pull_conflicts then retained else [])
    (foldl (λ s kv, if bt_mem kv.1 d then s else unmark_path kv.1 kv.2 s) s original).

Definition pull (fuel : nat) : M W unit :=
  index ← rs_index remote;
  s ← sync_state;
  let original := ss_dirty s in
  remote_paths ← collect_paths index fuel;
  local_paths ← collect_paths local fuel;
  st ← fold_eff (pull_delete fuel remote_paths) (original, []) (reverse local_paths);
  '(d, retained) ← fold_eff (pull_copy index fuel) st remote_paths;
  update_sync (finish_pull original d retained).

Definition sync (fuel : nat) : M W unit := push fuel ;; pull fuel.

(** ** Open files *)

Record SyncFile := mkSyncFile {
  sf_path : string;
  sf_inner : H;
  sf_dirty : bool;
  sf_mark_on_close : bool
}.

Definition file_new (path : string) (inner : H) (mark_on_close : bool) : SyncFile :=
  mkSyncFile (clean_path path) inner false mark_on_close.

(** A method of the inner handle. *)
Definition in_file {A} (m : M (H * W) A) : M (SyncFile * W) A := λ '(f, w),
  let '(r, (h, w)) := m (sf_inner f, w) in
  (r, (mkSyncFile (sf_path f) h (sf_dirty f) (sf_mark_on_close f), w)).

Definition note_written (written : Z) : M (SyncFile * W) unit :=
  modify (λ '(f, w),
    (mkSyncFile (sf_path f) (sf_inner f) (sf_dirty f || (0 <? written)) (sf_mark_on_close f), w)).

Definition file_write (data : list byte) : M (SyncFile * W) Z :=
  written ← in_file (fh_write data); note_written written ;; mret written.

Definition file_write_at (data : list byte) (offset : Z) : M (SyncFile * W) Z :=
  written ← in_file (fh_write_at data offset); note_written written ;; mret written.

Definition file_close : M (SyncFile * W) unit :=
  result ← attempt (in_file fh_close);
  f ← gets fst;
  (if is_Ok result && (sf_mark_on_close f || sf_dirty f)
   then on_snd (mark_dirty (sf_path f) Upsert) else mret tt) ;;
  lift result.

#[global] Instance sync_handle : FileHandle W SyncFile := {
  fh_read len := in_file (fh_read len);
  fh_write := file_write;
  fh_read_at len offset := in_file (fh_read_at len offset);
  fh_write_at := file_write_at;
  fh_seek pos := in_file (fh_seek pos);
  fh_stat := in_file fh_stat;
  fh_read_dir count := in_file (fh_read_dir count);
  fh_sync := in_file fh_sync;
  fh_close := file_close
}.

(** ** [impl FileSystem for SyncFs]

    A handle is one of the local filesystem, from [open], or a [SyncFile]. *)

(** A change that marks [name] when it succeeds. *)
Definition marking (name : string) (m : M W unit) : M W unit := m ;; mark_dirty name Upsert.

(** [lstat(local, name).map(|meta| meta.is_dir()).unwrap_or(false)] *)
Definition was_dir (name : string) : M W bool :=
  r ← attempt (lstat_path local name);
  match r with
  | Ok meta => mret (Meta.is_dir meta)
  | Err _ => mret false
  | Panic => panic
  | NoFuel => no_fuel
  end.

Definition create (name : string) : M W (H + SyncFile) :=
  file ← fs_create local name; mret (inr (file_new name file true)).

Definition open_file (name : string) (flags perm : Z) : M W (H + SyncFile) :=
  file ← fs_open_file local name flags perm;
  mret (inr (file_new name file
    (OpenFlags.contains flags OpenFlags.CREATE || OpenFlags.contains flags OpenFlags.TRUNC))).

Definition remove (name : string) : M W unit :=
  recursive ← was_dir name;
  fs_remove local name ;;
  mark_dirty name (Remove recursive).

Definition rename (old new : string) : M W unit :=
  recursive ← was_dir old;
  fs_rename local old new ;;
  mark_dirty old (Remove recursive) ;;
  mark_dirty new Upsert.

Definition fs : FileSystem W (H + SyncFile) := {|
  fs_open ctx name := file ← fs_open local ctx name; mret (inl file);
  fs_stat := fs_stat local;
  fs_lstat := fs_lstat local;
  fs_read_dir := fs_read_dir local;
  fs_create := create;
  fs_open_file := open_file;
  fs_mkdir name perm := marking name (fs_mkdir local name perm);
  fs_remove := remove;
  fs_rename := rename;
  fs_link old new := marking new (fs_link local old new);
  fs_chmod name mode := marking name (fs_chmod local name mode);
  fs_chown name uid gid := marking name (fs_chown local name uid gid);
  fs_chtimes name mtime := marking name (fs_chtimes local name mtime);
  fs_truncate name size := marking name (fs_truncate local name size);
  fs_symlink old new := marking new (fs_symlink local old new);
  fs_readlink := fs_readlink local;
  fs_set_xattr name attr data := marking name (fs_set_xattr local name attr data);
  fs_get_xattr := fs_get_xattr local;
  fs_list_xattrs := fs_list_xattrs local;
  fs_remove_xattr name attr := marking name (fs_remove_xattr local name attr)
|}.
End Sync.
Arguments SyncFile : clear implicits.
End Sync.
