(* ===== verification/HttpServer.v ===== *)
(** * star9-fs: the HTTP filesystem server

    Models [HttpFsHandler] of [crates/star9-fs/src/http_server.rs]: the answer to one
    request, over any [FileSystem].  Bodies of PATCH requests are the patches of
    [Sync]; [fuel] is that of [read_file] and of the removals of a patch. *)

From stdpp Require Import base list numbers option strings pretty.
From Stdlib Require Import ZArith Lia Ascii.
From S2P Require Import Prelude Strs RcText BTree Core FsTrait Field HttpText Sync.

Local Open Scope Z_scope.

Module HttpServer.
Import HttpText.

Definition ALLOW_METHODS : string := "GET, HEAD, PUT, DELETE, PATCH, MOVE".
Definition MULTIPART_BOUNDARY : string := "star9-httpfs-boundary".

Definition headers_from (l : list (string * string)) : Headers :=
  foldl (λ m kv, bt_insert kv.1 kv.2 m) [] l.

(** ** Responses *)

Definition text (s : string) : list byte := bytes_of s.

Definition ok_response : HttpResponse := with_body (text "OK") (response_new 200).

Definition method_not_allowed : HttpResponse :=
  with_body (text "Method Not Allowed") (with_header "Allow" ALLOW_METHODS (response_new 405)).

Definition bad_request (message : string) : HttpResponse :=
  with_body (text message) (response_new 400).

Definition response_from_error (err : Error) : HttpResponse :=
  let '(status, body) := match error_kind err with
    | NotFound => (404, "Not Found")
    | PermissionDenied => (403, "Permission Denied")
    | AlreadyExists => (409, Error_display err)
    | Invalid => (400, Error_display err)
    | NotEmpty => (409, Error_display err)
    | NotSupported => (501, Error_display err)
    | _ => (500, Error_display err)
    end in
  with_body (text body) (response_new status).

(** ** The target of a request *)

Record RequestTarget := mkTarget { rt_path : string; rt_trailing_slash : bool }.

(** The path of a URL, an authority, or a path. *)
Definition url_path (url : string) : string :=
  match split_once_str "://" url with
  | Some (_, remainder) => from_slash remainder
  | None =>
      match strip_prefix "//" url with
      | Some remainder => from_slash remainder
      | None => url
      end
  end.

Definition parse_request_target (url : string) : RequestTarget :=
  let path := before_char "?" (url_path (before_char "#" (trim url))) in
  let had_trailing_slash := ends_with_char "/" path in
  let path := trim (trim_start_char "/" path) in
  mkTarget (if is_empty_str path then "." else clean_path path) had_trailing_slash.

Definition accepts_multipart (headers : Headers) : bool :=
  match header_value headers "Accept" with
  | Some accept =>
      existsb (λ value, eq_ignore_ascii_case (trim value) "multipart/mixed") (split_on "," accept)
  | None => false
  end.

(** ** Headers of a response *)

Definition content_type (mode : Z) : string :=
  if FileMode.is_dir mode then "application/x-directory"
  else if FileMode.is_symlink mode then "application/x-symlink"
  else "application/octet-stream".

Definition http_mode (mode : Z) : string := pretty (FileMode.unix_type_and_perm mode).

Definition etag_of (mode : Z) (content_length : Z) (modified : string) : string :=
  String DQUOTE (pretty (FileMode.unix_type_and_perm mode) +:+ "-" +:+ pretty content_length
    +:+ "-" +:+ modified +:+ String DQUOTE "").

Definition metadata_headers (metadata : Metadata) (content_length : Z) : Headers :=
  let modified : string := pretty (unix_secs (m_modified metadata)) in
  headers_from
    [("Content-Type", content_type (m_mode metadata));
     ("Content-Length", pretty content_length);
     ("Content-Mode", http_mode (m_mode metadata));
     ("Content-Modified", modified);
     ("Last-Modified", modified);
     ("ETag", etag_of (m_mode metadata) content_length modified);
     ("Content-Ownership", pretty (m_uid metadata) +:+ ":" +:+ pretty (m_gid metadata))].

Definition conditional_not_modified (request_headers response_headers : Headers) : bool :=
  match header_value request_headers "If-None-Match" with
  | Some candidate =>
      match header_value response_headers "ETag" with
      | None => false
      | Some etag =>
          existsb (λ value, bool_decide (value = "*") || bool_decide (value = etag))
            (trim <$> split_on "," candidate)
      end
  | None =>
      match header_value request_headers "If-Modified-Since" with
      | None => false
      | Some since =>
          match header_value response_headers "Last-Modified" with
          | Some modified => bool_decide (modified = since)
          | None => false
          end
      end
  end.

Definition not_modified_response (headers : Headers) : HttpResponse :=
  foldl (λ response key,
    match header_value headers key with
    | Some value => with_header key value response
    | None => response
    end) (response_new 304) ["ETag"; "Last-Modified"; "Content-Modified"].

(** The answer with [body], or that it has not changed. *)
Definition answer (request_headers headers : Headers) (body : list byte) : HttpResponse :=
  if conditional_not_modified request_headers headers then not_modified_response headers
  else mkResponse 200 headers body.

(** ** Headers of a request *)

Definition mode_header_or_default (value : option string) (def : Z) : Z :=
  match value ≫= parse_u32 with Some bits => mode_of_bits bits | None => def end.

Definition parse_ownership (value : string) : Z * Z := parse_owner value.

Definition http_path (name : string) : string :=
  if decide (name = ".") then "/" else "/" +:+ clean_path name.

Definition http_child_path (parent name : string) : string :=
  if decide (parent = ".") then clean_path name else clean_path (parent +:+ "/" +:+ name).

Definition append_multipart_part (body : list byte) (boundary : string) (headers : Headers)
    (part_body : list byte) : list byte :=
  body ++ text ("--" +:+ boundary) ++ CRLF
  ++ mjoin ((λ kv, text (kv.1 +:+ ": " +:+ kv.2) ++ CRLF) <$> headers)
  ++ CRLF ++ part_body ++ CRLF.

(** ** The handler *)

Section Handler.
Context {W H : Type} `{!FileHandle W H} `{!TarCodec} (fsys : FileSystem W H) (fuel : nat).

Definition listing_line (entry : DirEntry) : string :=
  d_name entry +:+ " " +:+ http_mode (m_mode (d_metadata entry)) +:+ String NEWLINE "".

Definition directory_listing (name : string) : M W (list byte) :=
  entries ← read_dir_path fsys name;
  mret (mjoin ((λ e, text (listing_line e)) <$> entries)).

Definition ignore_unsupported (m : M W unit) : M W unit := Sync.passing NotSupported m.

Definition apply_metadata_headers (name : string) (headers : Headers) : M W unit :=
  lstat_path fsys name ;;
  match header_value headers "Content-Mode" with
  | Some mode =>
      ignore_unsupported
        (fs_chmod fsys name (mode_header_or_default (Some mode) (FileMode.from_perm 420)))
  | None => mret tt
  end ;;
  match header_value headers "Content-Ownership" with
  | Some ownership =>
      let '(uid, gid) := parse_ownership ownership in
      ignore_unsupported (fs_chown fsys name uid gid)
  | None => mret tt
  end ;;
  match header_value headers "Content-Modified" ≫= parse_u64 with
  | Some modified => t ← lift (epoch_secs modified); ignore_unsupported (fs_chtimes fsys name t)
  | None => mret tt
  end.

(** The part of a child in a multipart listing. *)
Definition child_part (name : string) (body : list byte) (entry : DirEntry) : M W (list byte) :=
  let child_name := http_child_path name (d_name entry) in
  child_metadata ← lstat_path fsys child_name;
  let headers := bt_insert "Content-Location" (http_path child_name)
    (metadata_headers child_metadata (m_size child_metadata)) in
  if Meta.is_dir child_metadata then
    part_body ← directory_listing child_name;
    mret (append_multipart_part body MULTIPART_BOUNDARY headers part_body)
  else
    let headers := bt_insert "Content-Range" ("bytes 0-0/" +:+ pretty (m_size child_metadata))
      (bt_remove "Content-Length" headers) in
    mret (append_multipart_part body MULTIPART_BOUNDARY headers []).

Definition multipart_directory_response (name : string) : M W HttpResponse :=
  metadata ← lstat_path fsys name;
  entries ← read_dir_path fsys name;
  root_body ← directory_listing name;
  let root_headers := bt_insert "Content-Location" (http_path name)
    (metadata_headers metadata (m_size metadata)) in
  let body := append_multipart_part [] MULTIPART_BOUNDARY root_headers root_body in
  body ← fold_eff (child_part name) body entries;
  let body := body ++ text ("--" +:+ MULTIPART_BOUNDARY +:+ "--") ++ CRLF in
  mret (with_body body (with_header "Content-Length" (pretty (blen body))
    (with_header "Content-Type" ("multipart/mixed; boundary=" +:+ MULTIPART_BOUNDARY)
      (response_new 200)))).

Definition handle_get (name : string) (request_headers : Headers) : M W HttpResponse :=
  metadata ← lstat_path fsys name;
  if Meta.is_dir metadata && accepts_multipart request_headers then
    multipart_directory_response name
  else if FileMode.is_symlink (m_mode metadata) then
    target ← fs_readlink fsys name;
    let body := bytes_of target in
    mret (answer request_headers (metadata_headers metadata (blen body)) body)
  else if Meta.is_dir metadata then
    body ← directory_listing name;
    mret (answer request_headers (metadata_headers metadata (blen body)) body)
  else
    body ← read_file fsys fuel name;
    mret (answer request_headers (metadata_headers metadata (blen body)) body).

Definition handle_head (name : string) (request_headers : Headers) : M W HttpResponse :=
  metadata ← lstat_path fsys name;
  mret (answer request_headers (metadata_headers metadata (m_size metadata)) []).

(** [mkdir] that accepts a directory which is there. *)
Definition put_directory (name : string) (mode : Z) : M W unit :=
  r ← attempt (fs_mkdir fsys name (FileMode.from_perm (FileMode.perm mode)));
  match r with
  | Ok _ => mret tt
  | Err e =>
      if kind_is AlreadyExists e then
        there ← attempt (lstat_path fsys name);
        match there with
        | Ok metadata => if Meta.is_dir metadata then mret tt else throw e
        | Err _ => throw e
        | Panic => panic
        | NoFuel => no_fuel
        end
      else throw e
  | Panic => panic
  | NoFuel => no_fuel
  end.

Definition handle_put (name : string) (had_trailing_slash : bool) (request : HttpRequest)
    : M W HttpResponse :=
  let headers := rq_headers request in
  let type := default "" (header_value headers "Content-Type") in
  (if eq_ignore_ascii_case type "application/x-symlink" then
     fs_symlink fsys (from_utf8_lossy (rq_body request)) name
   else if eq_ignore_ascii_case type "application/x-directory" || had_trailing_slash then
     put_directory name (mode_header_or_default (header_value headers "Content-Mode") (dir_mode 493))
   else
     write_file fsys name (rq_body request)
       (FileMode.from_perm (FileMode.perm
         (mode_header_or_default (header_value headers "Content-Mode") (FileMode.from_perm 420))))) ;;
  apply_metadata_headers name headers ;;
  mret ok_response.

Definition handle_delete (name : string) : M W HttpResponse :=
  fs_remove fsys name ;; mret ok_response.

Definition handle_move (name : string) (request : HttpRequest) : M W HttpResponse :=
  match header_value (rq_headers request) "Destination" with
  | None => mret (bad_request "Destination header required")
  | Some destination =>
      fs_rename fsys name (rt_path (parse_request_target destination)) ;; mret ok_response
  end.

Definition handle_patch (name : string) (request : HttpRequest) : M W HttpResponse :=
  match header_value (rq_headers request) "Content-Type" with
  | Some value =>
      if eq_ignore_ascii_case value "application/x-tar" then
        Sync.apply_sync_patch fsys fuel (rq_body request) ;; mret ok_response
      else apply_metadata_headers name (rq_headers request) ;; mret ok_response
  | None => apply_metadata_headers name (rq_headers request) ;; mret ok_response
  end.

Definition dispatch_request (request : HttpRequest) : M W HttpResponse :=
  let target := parse_request_target (rq_url request) in
  match rq_method request with
  | GET => handle_get (rt_path target) (rq_headers request)
  | HEAD => handle_head (rt_path target) (rq_headers request)
  | PUT => handle_put (rt_path target) (rt_trailing_slash target) request
  | DELETE => handle_delete (rt_path target)
  | PATCH => handle_patch (rt_path target) request
  | OtherMethod name =>
      if decide (name = "MOVE") then handle_move (rt_path target) request
      else mret method_not_allowed
  end.

Definition handle (request : HttpRequest) : M W HttpResponse :=
  r ← attempt (dispatch_request request);
  match r with
  | Ok response => mret response
  | Err err => mret (response_from_error err)
  | Panic => panic
  | NoFuel => no_fuel
  end.
End Handler.
End HttpServer.
