(* ===== verification/TextFacts.v ===== *)
(** * Facts about the texts of a Rust program

    A valid [String] is its characters: [chars] and [of_chars] are inverse to each
    other, and searching, trimming and splitting can be followed on the characters.
    The decimal numbers that [format!] prints are read back by [parse]. *)

From stdpp Require Import base list numbers option strings pretty.
From Stdlib Require Import ZArith Lia Ascii.
From S2P Require Import Prelude Strs RcText Field.

(** ** A string is its characters *)

Lemma encode_chars_cons c cs : encode_chars (c :: cs) = encode_char c ++ encode_chars cs.
Proof. done. Qed.

Lemma byte_of_to_N' b : byte_of_N (byte_to_N b) = b.
Proof.
  unfold byte_of_N, byte_to_N. change (Z.of_N (Byte.to_N b)) with (byte_to_Z b).
  apply byte_of_to_Z.
Qed.

Lemma byte_to_N_lt b : (byte_to_N b < 256)%N.
Proof. pose proof (byte_to_Z_range b) as H. unfold byte_to_Z, byte_to_N in *. lia. Qed.

Lemma byte_Z_N b : byte_to_Z b = Z.of_N (byte_to_N b).
Proof. done. Qed.

Lemma in_range_spec lo hi b :
  in_range lo hi b = true ↔ (lo ≤ Z.of_N (byte_to_N b) ≤ hi)%Z.
Proof. unfold in_range. rewrite byte_Z_N, andb_true_iff, !Z.leb_le. done. Qed.

Lemma utf8_second_range b0 b1 : utf8_second b0 b1 = true →
  (128 ≤ byte_to_N b1 < 192)%N
  ∧ (byte_to_N b0 = 224 → 160 ≤ byte_to_N b1)%N ∧ (byte_to_N b0 = 237 → byte_to_N b1 < 160)%N
  ∧ (byte_to_N b0 = 240 → 144 ≤ byte_to_N b1)%N ∧ (byte_to_N b0 = 244 → byte_to_N b1 < 144)%N.
Proof.
  unfold utf8_second, utf8_cont. rewrite byte_Z_N. pose proof (byte_to_N_lt b0) as Hb0.
  intros H.
  destruct (decide (byte_to_N b0 = 224 ∨ byte_to_N b0 = 237 ∨ byte_to_N b0 = 240
    ∨ byte_to_N b0 = 244)%N) as [[E|[E|[E|E]]]|Hn]; [rewrite E in *..|].
  1-4: cbn in H; apply in_range_spec in H; lia.
  assert (in_range 128 191 b1 = true) as H'%in_range_spec; [|lia].
  repeat case_match; try done; exfalso; apply Hn; lia.
Qed.

(** Characters of each width, from the digits their bytes carry. *)
Lemma digits_64 q r : (r < 64)%N → ((q * 64 + r) / 64 = q ∧ (q * 64 + r) mod 64 = r)%N.
Proof.
  intros Hr. rewrite N.add_comm, N.div_add, N.Div0.mod_add, N.div_small, N.mod_small by done.
  split; lia.
Qed.

Lemma encode_two a b : (2 ≤ a < 32)%N → (b < 64)%N →
  encode_char (a * 64 + b) = [byte_of_N (192 + a); byte_of_N (128 + b)].
Proof.
  intros Ha Hb. unfold encode_char, len_utf8. destruct (digits_64 a b Hb) as [-> ->].
  destruct (N.ltb_spec (a * 64 + b) 128); [lia|].
  by destruct (N.ltb_spec (a * 64 + b) 2048); [|lia].
Qed.

Lemma encode_three a b c : (a < 16)%N → (b < 64)%N → (c < 64)%N → (32 ≤ a * 64 + b)%N →
  encode_char ((a * 64 + b) * 64 + c)
  = [byte_of_N (224 + a); byte_of_N (128 + b); byte_of_N (128 + c)].
Proof.
  intros Ha Hb Hc Hab. unfold encode_char, len_utf8. set (x := (a * 64 + b)%N) in *.
  change 4096%N with (64 * 64)%N. rewrite <- N.Div0.div_div.
  destruct (digits_64 x c Hc) as [-> ->]. destruct (digits_64 a b Hb) as [Hq Hr]. fold x in Hq, Hr. rewrite Hq, Hr.
  destruct (N.ltb_spec (x * 64 + c) 128); [lia|].
  destruct (N.ltb_spec (x * 64 + c) 2048); [lia|].
  by destruct (N.ltb_spec (x * 64 + c) 65536); [|lia].
Qed.

Lemma encode_four a b c d : (a < 8)%N → (b < 64)%N → (c < 64)%N → (d < 64)%N →
  (16 ≤ a * 64 + b)%N →
  encode_char (((a * 64 + b) * 64 + c) * 64 + d)
  = [byte_of_N (240 + a); byte_of_N (128 + b); byte_of_N (128 + c); byte_of_N (128 + d)].
Proof.
  intros Ha Hb Hc Hd Hab. unfold encode_char, len_utf8. set (x := (a * 64 + b)%N) in *.
  set (y := (x * 64 + c)%N). change 262144%N with (64 * 64 * 64)%N.
  change 4096%N with (64 * 64)%N. rewrite <- !N.Div0.div_div.
  destruct (digits_64 y d Hd) as [-> ->]. destruct (digits_64 x c Hc) as [Hq Hr].
  fold y in Hq, Hr. rewrite Hq, Hr. clear Hq Hr.
  destruct (digits_64 a b Hb) as [Hq Hr]. fold x in Hq, Hr. rewrite Hq, Hr.
  destruct (N.ltb_spec (y * 64 + d) 128); [lia|].
  destruct (N.ltb_spec (y * 64 + d) 2048); [lia|].
  by destruct (N.ltb_spec (y * 64 + d) 65536); [lia|].
Qed.

Ltac byte_sum :=
  repeat match goal with
  | |- context [byte_of_N (?k + (byte_to_N ?b - ?k))] =>
      replace (k + (byte_to_N b - k))%N with (byte_to_N b) by lia
  end; by rewrite ?byte_of_to_N'.

(** The well-formed sequence at the head of a byte string is one character. *)
Lemma utf8_next_char bs n : utf8_next bs = Some (true, n) →
  ∃ c, scalar c ∧ take n bs = encode_char c.
Proof.
  destruct bs as [|b0 r0]; [done|]. cbn [utf8_next]. intros [= H].
  unfold utf8_width in H.
  destruct (in_range 0 127 b0) eqn:H1; [|destruct (in_range 194 223 b0) eqn:H2;
    [|destruct (in_range 224 239 b0) eqn:H3; [|destruct (in_range 240 244 b0) eqn:H4; [|done]]]].
  - apply in_range_spec in H1. injection H as <-. exists (byte_to_N b0).
    split; [unfold scalar; lia|]. unfold encode_char, len_utf8.
    destruct (N.ltb_spec (byte_to_N b0) 128); [|lia]. cbn. by rewrite byte_of_to_N'.
  - apply in_range_spec in H2. destruct r0 as [|b1 r1]; [done|].
    destruct (utf8_second b0 b1) eqn:Hs; [|done]. injection H as <-.
    apply utf8_second_range in Hs.
    exists ((byte_to_N b0 - 192) * 64 + (byte_to_N b1 - 128))%N.
    split; [unfold scalar; lia|]. rewrite encode_two by lia. cbn [take]. byte_sum.
  - apply in_range_spec in H3. destruct r0 as [|b1 [|b2 r2]]; [done| |];
      (destruct (utf8_second b0 b1) eqn:Hs; [|done]); [done|].
    destruct (utf8_cont b2) eqn:Hc; [|done]. injection H as <-.
    apply utf8_second_range in Hs. apply in_range_spec in Hc.
    exists (((byte_to_N b0 - 224) * 64 + (byte_to_N b1 - 128)) * 64 + (byte_to_N b2 - 128))%N.
    split; [unfold scalar; lia|]. rewrite encode_three by lia. cbn [take]. byte_sum.
  - apply in_range_spec in H4. destruct r0 as [|b1 [|b2 [|b3 r3]]]; [done| | |];
      (destruct (utf8_second b0 b1) eqn:Hs; [|done]); [done| |];
      (destruct (utf8_cont b2) eqn:Hc; [|done]); [done|].
    destruct (utf8_cont b3) eqn:Hd; [|done]. injection H as <-.
    apply utf8_second_range in Hs. apply in_range_spec in Hc, Hd.
    exists ((((byte_to_N b0 - 240) * 64 + (byte_to_N b1 - 128)) * 64 + (byte_to_N b2 - 128)) * 64
      + (byte_to_N b3 - 128))%N.
    split; [unfold scalar; lia|]. rewrite encode_four by lia. cbn [take]. byte_sum.
Qed.

Lemma utf8_valid_chars n bs : length bs ≤ n → utf8_valid_fuel n bs = true →
  ∃ cs, Forall scalar cs ∧ bs = encode_chars cs.
Proof.
  revert bs. induction n as [|n IH]; intros [|b bs] Hlen; [by exists []|by cbn in Hlen; lia|by exists []|].
  cbn [utf8_valid_fuel]. destruct (utf8_next (b :: bs)) as [[[] m]|] eqn:Hnext; try done.
  intros Hv. destruct (utf8_next_char _ _ Hnext) as (c & Hc & Htake).
  assert (1 ≤ m) by (unfold utf8_next in Hnext; repeat case_match; simplify_eq; lia).
  destruct (IH (drop m (b :: bs))) as (cs & Hcs & Heq); [rewrite length_drop; cbn in *; lia|done|].
  exists (c :: cs). split; [by constructor|]. by rewrite encode_chars_cons, <- Htake, <- Heq, take_drop.
Qed.

Lemma str_valid_chars s : str_valid s → ∃ cs, Forall scalar cs ∧ s = of_chars cs.
Proof.
  intros (cs & Hcs & Heq)%utf8_valid_chars; [|done]. exists cs. split; [done|].
  unfold of_chars. by rewrite <- Heq, string_of_bytes_of.
Qed.

(** The converse: what is built from characters is valid. *)
Lemma in_range_N' lo hi n : (n < 256)%N → (lo ≤ Z.of_N n ≤ hi)%Z → in_range lo hi (byte_of_N n) = true.
Proof. intros. rewrite in_range_spec, byte_of_to_N by done. lia. Qed.

Lemma utf8_second_N a b : (a < 256)%N → (128 ≤ b < 192)%N → (a = 224 → 160 ≤ b)%N →
  (a = 237 → b < 160)%N → (a = 240 → 144 ≤ b)%N → (a = 244 → b < 144)%N →
  utf8_second (byte_of_N a) (byte_of_N b) = true.
Proof.
  intros Ha Hb H1 H2 H3 H4. unfold utf8_second, utf8_cont. rewrite byte_Z_N, byte_of_to_N by done.
  repeat case_match; apply in_range_N'; lia.
Qed.

(** The digits of a character that has more than one byte. *)
Lemma scalar_digits c : scalar c →
  (c < 128)%N
  ∨ (∃ a b, 2 ≤ a < 32 ∧ b < 64 ∧ c = a * 64 + b)%N
  ∨ (∃ a b d, a < 16 ∧ b < 64 ∧ d < 64 ∧ 32 ≤ a * 64 + b ∧ c = (a * 64 + b) * 64 + d)%N
  ∨ (∃ a b d e, a ≤ 4 ∧ b < 64 ∧ d < 64 ∧ e < 64 ∧ 16 ≤ a * 64 + b
      ∧ c = ((a * 64 + b) * 64 + d) * 64 + e)%N.
Proof.
  intros Hc. unfold scalar in Hc. destruct (N.lt_ge_cases c 128) as [H1|H1]; [by left|right].
  pose proof (N.div_mod c 64 ltac:(done)) as E1. pose proof (N.mod_lt c 64 ltac:(done)) as L1.
  set (q := (c / 64)%N) in *. set (r := (c mod 64)%N) in *. clearbody q r.
  destruct (N.lt_ge_cases c 2048) as [H2|H2]; [left; exists q, r; lia|right].
  pose proof (N.div_mod q 64 ltac:(done)) as E2. pose proof (N.mod_lt q 64 ltac:(done)) as L2.
  set (q' := (q / 64)%N) in *. set (r' := (q mod 64)%N) in *. clearbody q' r'.
  destruct (N.lt_ge_cases c 65536) as [H3|H3]; [left; exists q', r', r; lia|right].
  pose proof (N.div_mod q' 64 ltac:(done)) as E3. pose proof (N.mod_lt q' 64 ltac:(done)) as L3.
  set (q'' := (q' / 64)%N) in *. set (r'' := (q' mod 64)%N) in *. clearbody q'' r''.
  exists q'', r'', r', r. lia.
Qed.

(** Find the width that a lead byte announces. *)
Ltac utf8_lead :=
  cbn [app utf8_next length]; rewrite utf8_width_lead by lia;
  repeat match goal with |- context [N.leb ?a ?b] => destruct (N.leb_spec a b); try lia end;
  cbn [andb].

Lemma utf8_next_encode c rest : scalar c →
  utf8_next (encode_char c ++ rest) = Some (true, length (encode_char c)).
Proof.
  intros Hc. pose proof Hc as Hs. unfold scalar in Hs.
  destruct (N.lt_ge_cases c 128) as [H1|H1].
  { unfold encode_char, len_utf8. destruct (N.ltb_spec c 128); [|lia]. cbn [app utf8_next length].
    rewrite utf8_width_lead by lia.
    by destruct (N.leb_spec 0 c), (N.leb_spec c 127); try lia. }
  destruct (scalar_digits c Hc) as [|[(a & b & Ha & Hb & ->)|[(a & b & d & Ha & Hb & Hd & Hab & ->)
    |(a & b & d & e & Ha & Hb & Hd & He & Hab & ->)]]]; [lia|..].
  - rewrite encode_two by lia. utf8_lead. by rewrite utf8_second_N by lia.
  - rewrite encode_three by lia. utf8_lead. rewrite utf8_second_N by lia.
    unfold utf8_cont. by rewrite in_range_N' by lia.
  - rewrite encode_four by lia. utf8_lead. rewrite utf8_second_N by lia.
    unfold utf8_cont. by rewrite !in_range_N' by lia.
Qed.

Lemma encode_char_length c : 1 ≤ length (encode_char c).
Proof. unfold encode_char. repeat case_match; cbn; lia. Qed.

Lemma utf8_valid_encode n cs : Forall scalar cs → length (encode_chars cs) ≤ n →
  utf8_valid_fuel n (encode_chars cs) = true.
Proof.
  intros Hcs. revert n. induction Hcs as [|c cs Hc _ IH]; intros n; [by destruct n|].
  rewrite encode_chars_cons, length_app. pose proof (encode_char_length c).
  destruct n as [|n]; [lia|]. intros Hn. cbn [utf8_valid_fuel].
  rewrite utf8_next_encode, drop_app_length by done. apply IH. lia.
Qed.

Lemma of_chars_valid cs : Forall scalar cs → str_valid (of_chars cs).
Proof.
  intros. unfold str_valid, utf8_valid, of_chars. rewrite bytes_of_string_of.
  by apply utf8_valid_encode.
Qed.

Lemma of_chars_chars s : str_valid s → of_chars (chars s) = s.
Proof. intros (cs & Hcs & ->)%str_valid_chars. by rewrite chars_of_chars. Qed.

Lemma chars_scalar s : str_valid s → Forall scalar (chars s).
Proof. intros (cs & Hcs & ->)%str_valid_chars. by rewrite chars_of_chars. Qed.

Lemma chars_app s1 s2 : str_valid s1 → str_valid s2 → chars (s1 +:+ s2) = chars s1 ++ chars s2.
Proof.
  intros (c1 & H1 & ->)%str_valid_chars (c2 & H2 & ->)%str_valid_chars.
  rewrite <- of_chars_app, !chars_of_chars by (try done; by apply Forall_app). done.
Qed.

Lemma str_valid_app s1 s2 : str_valid s1 → str_valid s2 → str_valid (s1 +:+ s2).
Proof.
  intros (c1 & H1 & ->)%str_valid_chars (c2 & H2 & ->)%str_valid_chars.
  rewrite <- of_chars_app. apply of_chars_valid. by apply Forall_app.
Qed.

(** ** ASCII *)

Definition is_ascii (a : ascii) : bool := (N_of_ascii a <? 128)%N.

Lemma bytes_of_cons a s : bytes_of (String a s) = byte_of_ascii a :: bytes_of s.
Proof. done. Qed.

Lemma byte_of_ascii_N a : byte_of_ascii a = byte_of_N (N_of_ascii a).
Proof.
  pose proof (byte_of_ascii_via_N a) as H. symmetry in H. apply Byte.to_of_N in H.
  rewrite <- H. symmetry. apply byte_of_to_N'.
Qed.

Lemma chars_ascii a s : is_ascii a = true → chars (String a s) = N_of_ascii a :: chars s.
Proof.
  unfold is_ascii. intros Ha%N.ltb_lt. unfold chars.
  rewrite bytes_of_cons, byte_of_ascii_N. by apply decode_one.
Qed.

Lemma of_chars_ascii a : is_ascii a = true → String a "" = of_chars [N_of_ascii a].
Proof.
  unfold is_ascii. intros Ha. unfold of_chars. rewrite encode_chars_cons, app_nil_r.
  unfold encode_char, len_utf8. rewrite Ha, <- byte_of_ascii_N.
  symmetry. apply (string_of_bytes_of (String a "")).
Qed.

Lemma str_valid_ascii a s : is_ascii a = true → str_valid s → str_valid (String a s).
Proof.
  intros Ha Hs. change (String a s) with (String a "" +:+ s). apply str_valid_app; [|done].
  rewrite of_chars_ascii by done. apply of_chars_valid. constructor; [|done].
  apply N.ltb_lt in Ha. left. lia.
Qed.

Lemma contains_char_bytes c s :
  contains_char c s = existsb (λ b, bool_decide (b = byte_of_ascii c)) (bytes_of s).
Proof.
  induction s as [|a s IH]; [done|]. rewrite bytes_of_cons. cbn. rewrite IH. f_equal.
  apply bool_decide_ext. split; [by intros ->|]. intros H.
  by rewrite <- (ascii_of_byte_of_ascii a), H, ascii_of_byte_of_ascii.
Qed.

Lemma encode_char_ascii c x : is_ascii c = true → scalar x →
  existsb (λ b, bool_decide (b = byte_of_ascii c)) (encode_char x) = isc c x.
Proof.
  intros Hc%N.ltb_lt Hx. pose proof Hx as Hs. unfold scalar in Hs. rewrite byte_of_ascii_N.
  assert (∀ n, (n < 256)%N →
    bool_decide (byte_of_N n = byte_of_N (N_of_ascii c)) = (n =? N_of_ascii c)%N) as Heq.
  { intros n Hn. destruct (N.eqb_spec n (N_of_ascii c)) as [->|Hne]; [by apply bool_decide_eq_true|].
    apply bool_decide_eq_false. intros H%(f_equal byte_to_N).
    rewrite !byte_of_to_N in H by lia. done. }
  destruct (N.lt_ge_cases x 128) as [H1|H1].
  { unfold isc, encode_char, len_utf8. destruct (N.ltb_spec x 128); [|lia]. cbn [existsb].
    rewrite Heq by lia. by rewrite orb_false_r. }
  assert (isc c x = false) as -> by (unfold isc; apply N.eqb_neq; lia).
  assert (∀ b, (128 ≤ b < 256)%N →
    bool_decide (byte_of_N b = byte_of_N (N_of_ascii c)) = false) as Hno.
  { intros b Hb. rewrite Heq by lia. apply N.eqb_neq. lia. }
  destruct (scalar_digits x Hx) as [|[(a & b & Ha & Hb & ->)|[(a & b & d & Ha & Hb & Hd & Hab & ->)
    |(a & b & d & e & Ha & Hb & Hd & He & Hab & ->)]]]; [lia|..];
    [rewrite encode_two by lia|rewrite encode_three by lia|rewrite encode_four by lia];
    cbn [existsb]; by rewrite !Hno by lia.
Qed.

(** Looking for an ASCII character is looking for it among the characters. *)
Lemma contains_char_chars c s : is_ascii c = true → str_valid s →
  contains_char c s = existsb (isc c) (chars s).
Proof.
  intros Hc (cs & Hcs & ->)%str_valid_chars. rewrite chars_of_chars, contains_char_bytes by done.
  unfold of_chars. rewrite bytes_of_string_of. induction Hcs as [|x cs Hx _ IH]; [done|].
  rewrite encode_chars_cons, existsb_app. cbn [existsb]. by rewrite encode_char_ascii, IH.
Qed.

(** ** Whitespace *)

(** No character is whitespace. *)
Definition solid (s : string) : Prop :=
  str_valid s ∧ Forall (λ c, is_whitespace c = false) (chars s).

(** No whitespace at either end. *)
Definition trimmed (s : string) : Prop :=
  str_valid s
  ∧ (∀ c, head (chars s) = Some c → is_whitespace c = false)
  ∧ (∀ c, last (chars s) = Some c → is_whitespace c = false).

Lemma solid_trimmed s : solid s → trimmed s.
Proof.
  intros [Hv Hs]. rewrite Forall_forall in Hs. split_and!; [done| |];
    intros c Hc; apply Hs; [by apply head_Some_elem_of|by apply last_Some_elem_of].
Qed.

Lemma drop_spaces_id cs : (∀ c, head cs = Some c → is_whitespace c = false) → drop_spaces cs = cs.
Proof. destruct cs as [|c cs]; [done|]. cbn. intros H. by rewrite H. Qed.

Lemma trim_chars_id cs : (∀ c, head cs = Some c → is_whitespace c = false) →
  (∀ c, last cs = Some c → is_whitespace c = false) → trim_chars cs = cs.
Proof.
  intros Hh Hl. unfold trim_chars. rewrite (drop_spaces_id cs), drop_spaces_id by (try done;
    intros c; rewrite head_reverse; apply Hl). apply reverse_involutive.
Qed.

Lemma trim_id s : trimmed s → trim s = s.
Proof.
  intros (Hv & Hh & Hl). unfold trim. rewrite trim_chars_id by done. by apply of_chars_chars.
Qed.

Lemma trim_space s : trimmed s → trim (String " " s) = s.
Proof.
  intros (Hv & Hh & Hl). unfold trim. rewrite chars_ascii by done.
  change (trim_chars (N_of_ascii " " :: chars s)) with (trim_chars (chars s)).
  rewrite trim_chars_id by done. by apply of_chars_chars.
Qed.

Lemma solid_no_char c s : is_ascii c = true → is_whitespace (N_of_ascii c) = true → solid s →
  contains_char c s = false.
Proof.
  intros Hc Hw [Hv Hs]. rewrite contains_char_chars by done. apply not_true_iff_false.
  intros (x & Hin & Hx)%existsb_exists. apply N.eqb_eq in Hx. subst.
  rewrite Forall_forall in Hs. apply list_elem_of_In, Hs in Hin. congruence.
Qed.

Lemma solid_ascii a s : is_ascii a = true → is_whitespace (N_of_ascii a) = false → solid s →
  solid (String a s).
Proof.
  intros Ha Hw [Hv Hs]. split; [by apply str_valid_ascii|]. rewrite chars_ascii by done. by constructor.
Qed.

Lemma solid_empty : solid "".
Proof. split; [done|constructor]. Qed.

Lemma solid_app s1 s2 : solid s1 → solid s2 → solid (s1 +:+ s2).
Proof.
  intros [H1 F1] [H2 F2]. split; [by apply str_valid_app|]. rewrite chars_app by done.
  by apply Forall_app.
Qed.

(** ** Words *)

Lemma words_loop_word w cs rest : Forall (λ c, is_whitespace c = false) cs →
  words_loop w (cs ++ rest) = words_loop (w ++ cs) rest.
Proof.
  intros Hcs. revert w. induction Hcs as [|c cs Hc _ IH]; intros w; [by rewrite app_nil_r|].
  cbn. rewrite Hc, IH. by rewrite <- app_assoc.
Qed.

Lemma chars_nonempty s : str_valid s → s ≠ "" → chars s ≠ [].
Proof. intros Hv Hs Hc. apply Hs. by rewrite <- (of_chars_chars s Hv), Hc. Qed.

(** Two words with a space between them. *)
Lemma split_whitespace_two a b : solid a → solid b → a ≠ "" → b ≠ "" →
  split_whitespace_str (a +:+ " " +:+ b) = [a; b].
Proof.
  intros [Ha Fa] [Hb Fb] Na Nb. unfold split_whitespace_str.
  change (" " +:+ b) with (String " " b).
  rewrite chars_app, chars_ascii by (try done; by apply str_valid_ascii).
  rewrite words_loop_word by done. cbn [words_loop app].
  change (is_whitespace (N_of_ascii " ")) with true. cbn iota.
  rewrite <- (app_nil_r (chars b)), words_loop_word by done. cbn [words_loop app].
  rewrite !decide_False by (by apply chars_nonempty). cbn. by rewrite !of_chars_chars.
Qed.

(** ** Decimal numbers *)

Lemma pretty_digit x : (x < 10)%N →
  N_of_ascii (pretty_N_char x) = (48 + x)%N ∧ is_ascii (pretty_N_char x) = true.
Proof.
  intros Hx. assert (x = 0 ∨ x = 1 ∨ x = 2 ∨ x = 3 ∨ x = 4 ∨ x = 5 ∨ x = 6 ∨ x = 7 ∨ x = 8 ∨ x = 9)%N
    as Hcases by lia. by repeat destruct Hcases as [->|Hcases]; [..|subst].
Qed.

(** Decide every comparison in the goal. *)
Ltac N_cases :=
  repeat match goal with
  | |- context [N.leb ?a ?b] => destruct (N.leb_spec a b); try lia
  | |- context [N.eqb ?a ?b] => destruct (N.eqb_spec a b); try lia
  end.

Lemma digit_char x : (x < 10)%N → is_ascii_digit (48 + x) = true ∧ is_whitespace (48 + x) = false.
Proof.
  intros Hx. unfold is_ascii_digit, is_whitespace.
  split; by N_cases.
Qed.

Lemma digits_value_pretty x s :
  digits_value 0 (chars (pretty_N_go x s)) = digits_value x (chars s).
Proof.
  revert s. induction (N.lt_wf_0 x) as [x _ IH]. intros s.
  destruct (N.eq_0_gt_0_cases x) as [->|Hx]; [by rewrite pretty_N_go_0|].
  rewrite pretty_N_go_step, IH by (try done; by apply N.div_lt).
  pose proof (N.mod_lt x 10 ltac:(done)) as Hlt.
  destruct (pretty_digit _ Hlt) as [Hd Ha]. rewrite chars_ascii, Hd by done. cbn [digits_value].
  rewrite (proj1 (digit_char _ Hlt)), (N.add_comm 48), N.add_sub, N.mul_comm, <- N.div_mod by done. done.
Qed.

(** All the characters are digits. *)
Definition numeric (s : string) : Prop := Forall (λ c, is_ascii_digit c = true) (chars s).

Lemma numeric_go x s : solid s ∧ numeric s →
  solid (pretty_N_go x s) ∧ numeric (pretty_N_go x s) ∧ (x ≠ 0%N → pretty_N_go x s ≠ "").
Proof.
  revert s. induction (N.lt_wf_0 x) as [x _ IH]. intros s [Hs Hn].
  destruct (N.eq_0_gt_0_cases x) as [->|Hx]; [by rewrite pretty_N_go_0|].
  pose proof (N.mod_lt x 10 ltac:(done)) as Hlt.
  destruct (pretty_digit _ Hlt) as [Hd Ha].
  rewrite pretty_N_go_step by done.
  destruct (IH (x / 10)%N ltac:(by apply N.div_lt) (String (pretty_N_char (x mod 10)) s)) as (H1 & H2 & H3).
  { split.
    - apply solid_ascii; [done| |done]. rewrite Hd. by apply digit_char.
    - unfold numeric. rewrite chars_ascii by done. constructor; [|done]. rewrite Hd. by apply digit_char. }
  split_and!; try done. intros _. destruct (decide (x / 10 = 0)%N) as [E|E]; [|by apply H3].
  by rewrite E, pretty_N_go_0.
Qed.

Lemma pretty_numeric (n : N) : solid (pretty n) ∧ numeric (pretty n) ∧ pretty n ≠ "".
Proof.
  unfold pretty, pretty_N. case_decide as Hn.
  - split_and!; [|repeat constructor|done]. by apply solid_ascii, solid_empty.
  - destruct (numeric_go n "") as (H1 & H2 & H3); [split; [apply solid_empty|constructor]|]. eauto.
Qed.

Lemma pretty_Z_N z : (0 ≤ z)%Z → pretty z = pretty (Z.to_N z).
Proof. intros Hz. by destruct z; [| |lia]. Qed.

Lemma digits_value_number (n : N) : digits_value 0 (chars (pretty n)) = Some n.
Proof.
  unfold pretty, pretty_N. case_decide as Hn; [by subst|]. by rewrite digits_value_pretty.
Qed.

(** What [format!] prints, [parse] reads. *)
Lemma parse_unsigned_pretty max z : (0 ≤ z ≤ max)%Z → parse_unsigned max (pretty z) = Some z.
Proof.
  intros Hz. rewrite pretty_Z_N by lia. unfold parse_unsigned.
  destruct (pretty_numeric (Z.to_N z)) as ([Hv _] & Hn & Hne).
  pose proof (chars_nonempty _ Hv Hne) as Hc. pose proof (digits_value_number (Z.to_N z)) as Hd.
  unfold numeric in Hn. destruct (chars (pretty (Z.to_N z))) as [|c cs]; [done|].
  assert (isc "+" c = false) as ->.
  { inversion Hn as [|?? Hdig _]; subst. unfold is_ascii_digit in Hdig. unfold isc.
    apply andb_true_iff in Hdig as [?%N.leb_le _]. apply N.eqb_neq. cbn. lia. }
  rewrite Hd. rewrite Z2N.id by lia. destruct (Z.leb_spec z max); [done|lia].
Qed.

Lemma pretty_solid z : (0 ≤ z)%Z → solid (pretty z) ∧ pretty z ≠ "".
Proof. intros. rewrite pretty_Z_N by done. destruct (pretty_numeric (Z.to_N z)) as (? & _ & ?). done. Qed.

(** A number contains no character but digits. *)
Lemma pretty_no_char c z : is_ascii c = true → is_ascii_digit (N_of_ascii c) = false → (0 ≤ z)%Z →
  contains_char c (pretty z) = false.
Proof.
  intros Hc Hd Hz. rewrite pretty_Z_N by done.
  destruct (pretty_numeric (Z.to_N z)) as ([Hv _] & Hn & _).
  rewrite contains_char_chars by done. apply not_true_iff_false.
  intros (x & Hin & Hx)%existsb_exists. apply N.eqb_eq in Hx. subst.
  unfold numeric in Hn. rewrite Forall_forall in Hn. apply list_elem_of_In, Hn in Hin. congruence.
Qed.

(** ** Lines *)

Definition concat_str (ss : list string) : string := foldr String.append "" ss.

Lemma bytes_of_concat ss : mjoin (bytes_of <$> ss) = bytes_of (concat_str ss).
Proof.
  induction ss as [|s ss IH]; [done|]. change (concat_str (s :: ss)) with (s +:+ concat_str ss).
  rewrite bytes_of_app, <- IH. done.
Qed.

Lemma str_valid_concat ss : Forall str_valid ss → str_valid (concat_str ss).
Proof. induction 1; [done|]. by apply str_valid_app. Qed.

Lemma concat_lines ls :
  concat_str ((λ l, l +:+ String NEWLINE "") <$> ls) = str_join (String NEWLINE "") (ls ++ [""]).
Proof.
  induction ls as [|l ls IH]; [done|]. cbn [app]. rewrite join_cons by (by destruct ls).
  rewrite fmap_cons. cbn [concat_str foldr]. unfold concat_str in IH. rewrite IH.
  by rewrite <- app_str_assoc.
Qed.

Lemma chomp_id s : contains_char CR s = false → chomp s = s.
Proof.
  intros Hs. rewrite contains_char_bytes in Hs. unfold chomp.
  destruct (rev (bytes_of s)) as [|b r] eqn:E; [done|].
  assert (b ≠ x0d) as Hb.
  { intros ->. apply not_true_iff_false in Hs. apply Hs, existsb_exists. exists x0d. split; [|done].
    apply in_rev. rewrite E. by left. }
  by destruct b.
Qed.

(** What is written a line at a time is read a line at a time. *)
Lemma str_lines_concat ls :
  Forall (λ l, contains_char NEWLINE l = false ∧ contains_char CR l = false) ls →
  str_lines (concat_str ((λ l, l +:+ String NEWLINE "") <$> ls)) = ls.
Proof.
  intros Hls. rewrite concat_lines. unfold str_lines. rewrite split_on_join.
  - rewrite rev_app_distr. cbn. rewrite rev_involutive, app_nil_r.
    rewrite <- (list_fmap_id ls) at 2. apply list_fmap_ext. intros i l Hl.
    apply chomp_id. by eapply Forall_lookup_1 in Hls as [_ ?].
  - by destruct ls.
  - apply Forall_app. split; [|by repeat constructor]. eapply Forall_impl; [done|]. by intros ? [? _].
Qed.
