(* ===== verification/HttpTextFacts.v ===== *)
(** * Facts about the texts of HTTP messages

    What one side writes the other reads: modes, metadata in headers, the target of a
    URL, the lines of a directory listing and the parts of a multipart body. *)

From stdpp Require Import base list numbers option strings pretty sorting.
From Stdlib Require Import ZArith Lia Ascii.
From S2P Require Import Prelude Strs RcText BTree Core FsTrait MemFs Field HttpText HttpFs Sync HttpServer TextFacts.

Local Open Scope Z_scope.
Import HttpText HttpServer.

#[local] Arguments String.append !_ _ / : simpl nomatch.

(** ** Modes *)

(** The type bits that a mode keeps on the wire: those of a directory, a symbolic
    link, or a plain file. *)
Definition wire_mode (mode : Z) : Z :=
  if FileMode.is_dir mode then Z.lor FileMode.DIR (FileMode.perm mode)
  else if FileMode.is_symlink mode then Z.lor FileMode.SYMLINK (FileMode.perm mode)
  else FileMode.perm mode.

Lemma perm_of_bits typ mode : Z.land typ 511 = 0 →
  Z.land (Z.lor typ (Z.land mode 511)) 511 = Z.land mode 511.
Proof. intros H. by rewrite Z.land_lor_distr_l, H, Z.lor_0_l, <- Z.land_assoc. Qed.

Lemma type_of_bits typ mode : Z.land (Z.lor typ (Z.land mode 511)) 61440 = Z.land typ 61440.
Proof.
  rewrite Z.land_lor_distr_l, <- Z.land_assoc. change (Z.land 511 61440) with 0.
  by rewrite Z.land_0_r, Z.lor_0_r.
Qed.

Lemma mode_of_wire mode : HttpText.mode_of_bits (FileMode.unix_type_and_perm mode) = wire_mode mode.
Proof.
  assert (∀ m, FileMode.from_perm (FileMode.perm m) = FileMode.perm m) as Hperm.
  { intros m. unfold FileMode.from_perm, FileMode.perm, FileMode.PERM_MASK. by rewrite <- Z.land_assoc. }
  unfold HttpText.mode_of_bits, FileMode.unix_type_and_perm, wire_mode, FileMode.perm, FileMode.PERM_MASK.
  destruct (FileMode.is_dir mode); [|destruct (FileMode.is_symlink mode);
    [|destruct (FileMode.contains mode FileMode.NAMED_PIPE);
    [|destruct (FileMode.contains mode FileMode.SOCKET)]]];
    rewrite perm_of_bits, type_of_bits by done; cbn; f_equal; apply Hperm.
Qed.

Lemma unix_mode_bound mode : 0 ≤ FileMode.unix_type_and_perm mode ≤ U32_MAX.
Proof.
  unfold FileMode.unix_type_and_perm, FileMode.perm, FileMode.PERM_MASK.
  pose proof (land_range 9 mode 511 ltac:(lia) ltac:(lia)) as Hl.
  assert (∀ typ, 0 ≤ typ < 2 ^ 16 → 0 ≤ Z.lor typ (Z.land mode 511) ≤ U32_MAX) as H.
  { intros typ Ht. unfold U32_MAX.
    pose proof (lor_range 16 typ (Z.land mode 511) ltac:(lia) Ht ltac:(lia)). lia. }
  apply H. repeat case_match; lia.
Qed.

(** [HttpFs] reads the mode that the server writes. *)
Lemma parse_http_mode_wire mode : HttpText.parse_http_mode (HttpServer.http_mode mode) = wire_mode mode.
Proof.
  unfold HttpText.parse_http_mode, HttpServer.http_mode, parse_u32.
  rewrite parse_unsigned_pretty by apply unix_mode_bound. apply mode_of_wire.
Qed.

Lemma wire_mode_dir mode : FileMode.is_dir (wire_mode mode) = FileMode.is_dir mode.
Proof.
  assert (∀ typ, Z.land typ FileMode.DIR = 0 →
    Z.land (Z.lor typ (FileMode.perm mode)) FileMode.DIR = 0) as H.
  { intros typ Ht. unfold FileMode.perm. rewrite Z.land_lor_distr_l, Ht, <- Z.land_assoc.
    change (Z.land FileMode.PERM_MASK FileMode.DIR) with 0. by rewrite Z.land_0_r. }
  unfold wire_mode. destruct (FileMode.is_dir mode) eqn:Hd.
  - unfold FileMode.is_dir, FileMode.contains. rewrite Z.land_lor_distr_l.
    unfold FileMode.perm. rewrite <- Z.land_assoc.
    change (Z.land FileMode.PERM_MASK FileMode.DIR) with 0. by rewrite Z.land_0_r.
  - destruct (FileMode.is_symlink mode); unfold FileMode.is_dir, FileMode.contains.
    + by rewrite H.
    + specialize (H 0 eq_refl). rewrite Z.lor_0_l in H. by rewrite H.
Qed.

(** ** Metadata in headers *)

(** What can be sent in headers: every field in the range of its type, a time that is
    not before 1970. *)
Definition sendable (m : Metadata) : Prop :=
  0 ≤ m_modified m ∧ unix_secs (m_modified m) ≤ I64_MAX
  ∧ in_u32 (m_uid m) ∧ in_u32 (m_gid m).

(** The metadata that arrives. *)
Definition arriving (name : string) (m : Metadata) (len : Z) : Metadata :=
  mkMetadata (base_name name) (wire_mode (m_mode m))
    (if FileMode.is_dir (m_mode m) then Z.max len 2 else len)
    (unix_secs (m_modified m) * 1000000000) (m_uid m) (m_gid m).

Lemma metadata_headers_eq m len :
  let modified : string := pretty (unix_secs (m_modified m)) in
  metadata_headers m len =
    [("Content-Length", pretty len); ("Content-Mode", http_mode (m_mode m));
     ("Content-Modified", modified);
     ("Content-Ownership", pretty (m_uid m) +:+ ":" +:+ pretty (m_gid m));
     ("Content-Type", content_type (m_mode m)); ("ETag", etag_of (m_mode m) len modified);
     ("Last-Modified", modified)].
Proof. reflexivity. Qed.

Lemma parse_owner_pretty uid gid : in_u32 uid → in_u32 gid →
  parse_owner (pretty uid +:+ ":" +:+ pretty gid) = (uid, gid).
Proof.
  unfold in_u32. intros Hu Hg. unfold parse_owner.
  rewrite (proj2 (split_once_Some ":" _ (pretty uid) (pretty gid)))
    by (split; [done|apply pretty_no_char; done || lia]).
  unfold parse_u32. by rewrite !parse_unsigned_pretty by lia.
Qed.

Lemma unix_secs_nonneg t : 0 ≤ unix_secs t.
Proof. unfold unix_secs. apply Z.div_pos; lia. Qed.

(** What [HttpFs] reads from the headers the server writes. *)
Lemma parse_metadata_headers name m len n : sendable m → 0 ≤ len ≤ U64_MAX →
  parse_http_metadata name (metadata_headers m len) n = Ok (arriving name m len).
Proof.
  intros (Hm & Hsecs & Hu & Hg) Hlen. rewrite metadata_headers_eq. unfold parse_http_metadata.
  change (header_value _ "Content-Type") with (Some (content_type (m_mode m))).
  change (header_value _ "Content-Mode") with (Some (http_mode (m_mode m))).
  change (header_value _ "Content-Modified") with (Some (pretty (unix_secs (m_modified m)) : string)).
  change (header_value _ "Content-Ownership") with (Some (pretty (m_uid m) +:+ ":" +:+ pretty (m_gid m))).
  unfold header_size.
  change (header_value _ "Content-Length") with (Some (pretty len : string)).
  cbn [mbind option_bind default from_option]. unfold parse_u64.
  pose proof (unix_secs_nonneg (m_modified m)).
  rewrite !parse_unsigned_pretty by (unfold I64_MAX, U64_MAX in *; lia).
  unfold epoch_secs. destruct (Z.leb_spec (unix_secs (m_modified m)) I64_MAX); [|lia].
  unfold outcome_bind. rewrite parse_owner_pretty, parse_http_mode_wire, wire_mode_dir by done. done.
Qed.

(** ** The target of a URL *)

(** A part of a base URL. *)
Definition plain (s : string) : Prop :=
  solid s ∧ contains_char "/" s = false ∧ contains_char "#" s = false ∧ contains_char "?" s = false.

(** A base URL: empty, or a scheme and an authority. *)
Definition web_base (base : string) : Prop :=
  base = "" ∨ ∃ scheme host, base = scheme +:+ "://" +:+ host ∧ plain scheme ∧ plain host.

(** A name that survives in a URL: none is quoted there. *)
Definition web_name (name : string) : Prop :=
  trimmed name ∧ contains_char "#" name = false ∧ contains_char "?" name = false.

(** The path of a URL. *)
Definition rooted (name : string) : string := String "/" (if decide (name = ".") then "" else name).

Lemma build_url_rooted base name : valid_path name = true →
  HttpFs.build_url base name = base +:+ rooted name.
Proof.
  intros Hv. unfold HttpFs.build_url, HttpFs.normalize_http_path, rooted.
  rewrite clean_path_id by done. by case_decide.
Qed.

Lemma trimmed_app s1 s2 : trimmed s1 → trimmed s2 → s1 ≠ "" → s2 ≠ "" → trimmed (s1 +:+ s2).
Proof.
  intros [V1 [H1 L1]] [V2 [H2 L2]] N1 N2. pose proof (chars_nonempty _ V1 N1).
  pose proof (chars_nonempty _ V2 N2). split_and!; [by apply str_valid_app|..];
    rewrite chars_app by done.
  - destruct (chars s1); [done|exact H1].
  - rewrite last_app. destruct (last (chars s2)) eqn:E; [exact L2|]. by apply last_None in E.
Qed.

Lemma trimmed_rooted name : trimmed name → trimmed (rooted name).
Proof.
  intros Hn. assert (trimmed "/") as Hs by (apply solid_trimmed, solid_ascii, solid_empty; done).
  unfold rooted. case_decide; [done|]. destruct (decide (name = "")) as [->|]; [done|].
  change (String "/" name) with ("/" +:+ name). by apply trimmed_app.
Qed.

Lemma rooted_no_char c name : c ≠ "/"%char → contains_char c name = false →
  contains_char c (rooted name) = false.
Proof.
  intros Hc Hn. unfold rooted. cbn. rewrite bool_decide_false by done. by case_decide.
Qed.

Lemma split_on_sep c a b : split_on c (a +:+ String c b) = split_on c a ++ split_on c b.
Proof.
  induction a as [|x a IH]; cbn; [by rewrite decide_True|]. case_decide; [by rewrite IH|].
  rewrite IH. by destruct (split_on c a) eqn:E; [destruct (split_on_nonempty c a)|].
Qed.

(** A valid path has no empty component, so its URL has no double slash. *)
Lemma rooted_no_double name l r : valid_path name = true → rooted name ≠ l +:+ "//" +:+ r.
Proof.
  intros (ps & -> & Hps)%valid_as_parts. unfold rooted. case_decide as Hd.
  { intros H. destruct l as [|a [|b l]]; cbn in H; congruence. }
  destruct ps as [|p ps]; [done|]. unfold of_parts in *.
  pose proof (join_good_no_slash _ Hps) as Hs.
  pose proof (split_join_good (p :: ps) ltac:(done) Hps) as Hsp.
  revert Hs Hsp. generalize (str_join "/" (p :: ps)). intros s Hs Hsp H.
  destruct l as [|a l]; cbn in H; [injection H as ->|injection H as _ ->]; [done|].
  rewrite split_on_sep in Hsp. rewrite <- Hsp in Hps.
  apply Forall_app in Hps as [_ Hps]. cbn in Hps. inversion Hps as [|?? Hg _]; subst.
  by apply good_part_inv in Hg as (? & _).
Qed.

Lemma split_once_str_Some p s l r : split_once_str p s = Some (l, r) → s = l +:+ p +:+ r.
Proof.
  revert l. induction s as [|a s IH]; intros l; cbn [split_once_str];
    (destruct (strip_prefix p _) as [r'|] eqn:Hp;
      [apply strip_prefix_Some in Hp; by intros [= <- <-]|]); [done|].
  destruct (split_once_str p s) as [[l' r']|]; [|done]. intros [= <- <-]. cbn. by rewrite <- IH.
Qed.

Lemma split_once_scheme scheme rest : contains_char "/" scheme = false →
  split_once_str "://" (scheme +:+ "://" +:+ rest) = Some (scheme, rest).
Proof.
  induction scheme as [|a s IH]; [done|]. cbn [contains_char]. intros [Ha Hs]%orb_false_iff.
  change (String a s +:+ ?r) with (String a (s +:+ r)). cbn [split_once_str].
  assert (strip_prefix "://" (String a (s +:+ "://" +:+ rest)) = None) as ->; [|by rewrite IH].
  apply eq_None_not_Some. intros [x Hx]. apply strip_prefix_Some in Hx. cbn in Hx.
  destruct s as [|b s]; cbn in Hx; [congruence|]. injection Hx as _ -> _. cbn in Hs.
  by rewrite bool_decide_true in Hs.
Qed.

Lemma from_slash_app host name : contains_char "/" host = false →
  from_slash (host +:+ rooted name) = rooted name.
Proof.
  intros Hh. unfold from_slash, rooted.
  by rewrite (proj2 (split_once_Some "/" _ _ _) (conj eq_refl Hh)).
Qed.

Lemma url_path_rooted base name : web_base base → valid_path name = true →
  url_path (base +:+ rooted name) = rooted name.
Proof.
  intros Hb Hv. unfold url_path. destruct Hb as [->|(scheme & host & -> & (Hs & Hs1 & _) & (Hh & Hh1 & _))].
  - change ("" +:+ rooted name) with (rooted name).
    destruct (split_once_str "://" (rooted name)) as [[l r]|] eqn:E.
    { apply split_once_str_Some in E. exfalso. apply (rooted_no_double name (l +:+ ":") r Hv).
      rewrite E. by rewrite <- app_str_assoc. }
    destruct (strip_prefix "//" (rooted name)) as [r|] eqn:E'; [|done].
    apply strip_prefix_Some in E'. by destruct (rooted_no_double name "" r Hv).
  - rewrite <- !app_str_assoc, split_once_scheme by done. by apply from_slash_app.
Qed.

Lemma web_base_char c base : web_base base → c = "#"%char ∨ c = "?"%char →
  contains_char c base = false.
Proof.
  intros [->|(scheme & host & -> & (_ & _ & S1 & S2) & (_ & _ & H1 & H2))] [-> | ->]; [done..| |];
    rewrite !contains_char_app; by rewrite ?S1, ?S2, ?H1, ?H2.
Qed.

Lemma web_base_trimmed base : web_base base → base = "" ∨ (trimmed base ∧ base ≠ "").
Proof.
  intros [->|(scheme & host & -> & (Hs & _) & (Hh & _))]; [by left|right].
  split; [|by destruct scheme]. apply solid_trimmed. repeat apply solid_app; try done.
  by repeat (apply solid_ascii; [done..|]).
Qed.

Lemma before_char_no c s : contains_char c s = false → before_char c s = s.
Proof. intros H. unfold before_char. by rewrite split_on_no_char. Qed.

Lemma rooted_target name : valid_path name = true → trimmed name →
  ends_with_char "/" (rooted name) = bool_decide (name = ".")
  ∧ trim (trim_start_char "/" (rooted name)) = if decide (name = ".") then "" else name.
Proof.
  intros Hv Ht. unfold rooted. destruct (decide (name = ".")) as [->|Hd]; [done|].
  pose proof Hv as Hv'. unfold valid_path in Hv'. rewrite decide_False in Hv' by done.
  destruct (is_empty_str name) eqn:He; [done|]. destruct (starts_with_char "/" name) eqn:Hs; [done|].
  destruct (ends_with_char "/" name) eqn:Hend; [done|].
  rewrite bool_decide_false by done. split.
  - destruct name; [done|]. exact Hend.
  - cbn [trim_start_char]. rewrite decide_True by done. rewrite trim_start_char_id by done.
    by apply trim_id.
Qed.

(** The server finds the name in the URL that [HttpFs] builds from it. *)
Lemma target_of_url base name : web_base base → web_name name → valid_path name = true →
  parse_request_target (HttpFs.build_url base name) = mkTarget name (bool_decide (name = ".")).
Proof.
  intros Hb (Ht & H1 & H2) Hv. rewrite build_url_rooted by done. unfold parse_request_target.
  assert (trim (base +:+ rooted name) = base +:+ rooted name) as ->.
  { apply trim_id. destruct (web_base_trimmed base Hb) as [->|[Hbt Hne]]; [by apply trimmed_rooted|].
    apply trimmed_app; [done|by apply trimmed_rooted|done|done]. }
  rewrite (before_char_no "#").
  2:{ rewrite contains_char_app, web_base_char, rooted_no_char by auto. done. }
  rewrite url_path_rooted by done. rewrite before_char_no by (by apply rooted_no_char).
  destruct (rooted_target name Hv Ht) as [-> ->]. f_equal.
  destruct (decide (name = ".")) as [->|Hd]; [done|].
  destruct (is_empty_str name) eqn:He; [by apply is_empty_str_true in He; subst|]. by apply clean_path_id.
Qed.

(** ** Directory listings *)

(** A name that a line of a listing can carry. *)
Definition listable (name : string) : Prop := solid name ∧ good_part name.

Lemma trim_end_char_id c s : contains_char c s = false → trim_end_char c s = s.
Proof.
  induction s as [|a s IH]; [done|]. cbn. intros [Ha Hs]%orb_false_iff. rewrite IH by done.
  apply bool_decide_eq_false in Ha. by rewrite (bool_decide_false (a = c)), andb_false_r.
Qed.

Lemma listing_line_solid e : 
  listing_line e = (d_name e +:+ " " +:+ http_mode (m_mode (d_metadata e))) +:+ String NEWLINE "".
Proof. unfold listing_line. by rewrite !app_str_assoc. Qed.

Lemma http_mode_solid mode : solid (http_mode mode) ∧ http_mode mode ≠ "".
Proof. apply pretty_solid, unix_mode_bound. Qed.

Lemma parse_listing_line_text e : listable (d_name e) →
  parse_listing_line (d_name e +:+ " " +:+ http_mode (m_mode (d_metadata e)))
  = Some (listed_entry (d_name e) (wire_mode (m_mode (d_metadata e)))).
Proof.
  intros [Hs Hg]. pose proof (http_mode_solid (m_mode (d_metadata e))) as [Hm Hne].
  unfold parse_listing_line. rewrite split_whitespace_two; [|done..|by destruct (good_part_inv _ Hg)|done].
  rewrite parse_http_mode_wire. destruct Hg as [_ Hc]. by rewrite trim_end_char_id.
Qed.

Lemma listing_text_lines e : listable (d_name e) →
  let line := d_name e +:+ " " +:+ http_mode (m_mode (d_metadata e)) in
  str_valid line ∧ contains_char NEWLINE line = false ∧ contains_char CR line = false.
Proof.
  intros [Hs Hg]. pose proof (http_mode_solid (m_mode (d_metadata e))) as [Hm Hne]. cbv zeta.
  split_and!.
  - repeat apply str_valid_app; [apply Hs|done|apply Hm].
  - rewrite !contains_char_app, (solid_no_char _ (d_name e)), (solid_no_char _ (http_mode _)) by done. done.
  - rewrite !contains_char_app, (solid_no_char _ (d_name e)), (solid_no_char _ (http_mode _)) by done. done.
Qed.

(** The entries that [HttpFs] reads from the listing the server writes. *)
Lemma parse_directory_listing entries : Forall (λ e, listable (d_name e)) entries →
  parse_http_directory (mjoin ((λ e, text (listing_line e)) <$> entries))
  = (λ e, listed_entry (d_name e) (wire_mode (m_mode (d_metadata e)))) <$> entries.
Proof.
  intros Hes. unfold parse_http_directory, text.
  set (line := λ e, d_name e +:+ " " +:+ http_mode (m_mode (d_metadata e))).
  assert ((λ e, bytes_of (listing_line e)) <$> entries
    = bytes_of <$> ((λ l, l +:+ String NEWLINE "") <$> (line <$> entries))) as ->.
  { rewrite <- !list_fmap_compose. apply list_fmap_ext. intros. cbn. by rewrite listing_line_solid. }
  rewrite bytes_of_concat, from_utf8_lossy_valid, str_lines_concat.
  - clear -Hes. induction Hes as [|e es He _ IH]; [done|]. cbn [fmap list_fmap omap list_omap].
    unfold line at 1. rewrite parse_listing_line_text by done. by f_equal.
  - apply Forall_fmap. eapply Forall_impl; [done|]. intros e He. cbn. by apply listing_text_lines in He as [_ ?].
  - apply str_valid_concat. apply Forall_fmap, Forall_fmap. eapply Forall_impl; [done|]. intros e He. cbn.
    apply str_valid_app; [|done]. by apply listing_text_lines in He as [? _].
Qed.

(** ** Facts about files that are fetched or sent whole

    A file open for reading gives its contents piece by piece; a new file that is written
    once and closed sends what was written. *)

(** The permissions of a file that [open_file] makes. *)
Definition sent_mode (perm : Z) : Z := if perm =? 0 then 420 else FileMode.perm perm.

Lemma sent_mode_perm perm :
  FileMode.from_perm (sent_mode perm) = sent_mode perm ∧ FileMode.perm (sent_mode perm) = sent_mode perm
  ∧ wire_mode (sent_mode perm) = sent_mode perm.
Proof.
  assert (Z.land (sent_mode perm) 511 = sent_mode perm) as H1.
  { unfold sent_mode, FileMode.perm, FileMode.PERM_MASK. destruct (perm =? 0); [done|].
    by rewrite <- Z.land_assoc. }
  split_and!; [done..|]. unfold wire_mode, FileMode.is_dir, FileMode.is_symlink, FileMode.contains.
  rewrite <- H1, <- !Z.land_assoc. change (Z.land 511 FileMode.DIR) with 0.
  change (Z.land 511 FileMode.SYMLINK) with 0. rewrite Z.land_0_r. cbn.
  unfold FileMode.perm, FileMode.PERM_MASK. by rewrite <- Z.land_assoc.
Qed.

Lemma file_mode_sent name perm n : m_mode (Meta.file name (sent_mode perm) n) = sent_mode perm.
Proof.
  destruct (sent_mode_perm perm) as (H1 & H2 & _). cbn. rewrite H1, H2. unfold FileMode.with_perm.
  change (Z.land (sent_mode perm) FileMode.PERM_MASK) with (FileMode.from_perm (sent_mode perm)).
  rewrite H1, <- H1 at 1. unfold FileMode.from_perm. rewrite <- Z.land_assoc.
  change (Z.land FileMode.PERM_MASK (not_u32 FileMode.PERM_MASK)) with 0.
  by rewrite Z.land_0_r, Z.lor_0_l.
Qed.

Section Files.
Context {W : Type} (put : string → Z → list byte → M W unit).
#[local] Instance files : FileHandle W HttpHandle := HttpFiles.http_handle put.

(** Reading the file piece by piece gives its data. *)
Lemma read_loop_box n data m pos out w :
  0 ≤ pos ≤ blen data → blen data - pos < Z.of_nat n →
  read_loop n out (BoxRead (mkHttpFile m data pos false)) w
  = (Ok (out ++ drop (Z.to_nat pos) data, BoxRead (mkHttpFile m data (blen data) false)), w).
Proof.
  revert pos out. induction n as [|n IH]; intros pos out Hp Hn; [lia|]. cbn [read_loop].
  unfold on_handle. unfold mbind, eff_bind. cbn.
  destruct (decide (pos = blen data)) as [->|Hne].
  - assert (window data (blen data) 8192 = []) as ->.
    { unfold window. by rewrite Z.leb_refl. }
    cbn. unfold mret, eff_ret, HttpFiles.set_pos. cbn.
    rewrite (drop_ge data) by (unfold blen; lia). by rewrite app_nil_r, Z.add_0_r.
  - assert (window data pos 8192 = take (Z.to_nat (Z.min 8192 (blen data - pos))) (drop (Z.to_nat pos) data)) as ->.
    { unfold window. destruct (Z.leb_spec (blen data) pos); [lia|done]. }
    set (bs := take _ _).
    assert (blen bs = Z.min 8192 (blen data - pos)) as Hbs.
    { unfold bs, blen in *. rewrite length_take, length_drop. lia. }
    assert (bs ≠ []) as Hbne by (intros E; rewrite E in Hbs; change (blen []) with 0 in Hbs; lia).
    assert (∀ A (x y : A), (match bs with [] => x | _ => y end) = y) as Hmatch by (by destruct bs).
    cbn. rewrite Hmatch. unfold HttpFiles.set_pos. cbn. rewrite IH by lia. do 3 f_equal.
    rewrite <- app_assoc. f_equal. subst bs. rewrite Hbs.
    rewrite <- (take_drop (Z.to_nat (Z.min 8192 (blen data - pos))) (drop (Z.to_nat pos) data)) at 2.
    f_equal. rewrite drop_drop. f_equal. lia.
Qed.

(** The contents of a new file that is written once. *)
Lemma write_new name perm data (w : W) : blen data ≤ ISIZE_MAX →
  HttpFiles.wf_write data (mkWriteFile name (Meta.file name perm 0) [] 0 false, w)
  = (Ok (blen data), (mkWriteFile name (Meta.set_size (blen data) (Meta.file name perm 0)) data (blen data) false, w)).
Proof.
  intros Hlen. unfold HttpFiles.wf_write. cbn [wf_closed wf_offset wf_data wf_path wf_metadata].
  rewrite Z.add_0_l. destruct (Z.ltb_spec USIZE_MAX (blen data)); [unfold USIZE_MAX, U64_MAX, ISIZE_MAX, I64_MAX in *; lia|].
  unfold HttpFiles.grow. change (blen [] <? 0) with false. cbn [mbind option_bind].
  assert (∃ d, (if blen [] <? blen data then vec_resize [] (blen data) else Some []) = Some d
    ∧ length d = length data) as (d & -> & Hd).
  { change (blen []) with 0. destruct (Z.ltb_spec 0 (blen data)).
    - unfold vec_resize. destruct (Z.leb_spec (blen data) ISIZE_MAX); [|lia]. eexists. split; [done|].
      unfold blen. by rewrite Nat2Z.id, length_resize.
    - exists []. split; [done|]. unfold blen in *. cbn. lia. }
  cbn [Z.to_nat take app]. rewrite drop_ge by (unfold blen; lia). by rewrite app_nil_r.
Qed.

Lemma close_ok f w w' : wf_closed f = false →
  put (wf_path f) (m_mode (wf_metadata f)) (wf_data f) w = (Ok tt, w') →
  ∃ f', fh_close (BoxWrite f, w) = (Ok tt, (BoxWrite f', w')).
Proof.
  intros Hc Hp. unfold fh_close, files, HttpFiles.http_handle, HttpFiles.box_method, HttpFiles.write_handle,
    HttpFiles.wf_close, on_snd. unfold_eff. cbn. rewrite Hc. cbn. rewrite Hp. cbn. eauto.
Qed.

(** The rest of [write_file] behind [open_file]. *)
Lemma write_whole name perm data w w' : blen data ≤ ISIZE_MAX →
  put name (sent_mode perm) data w = (Ok tt, w') →
  ('(_, file) ← with_handle (BoxWrite (HttpFiles.write_file_of name
      (Z.lor (Z.lor OpenFlags.WRONLY OpenFlags.CREATE) OpenFlags.TRUNC) perm [])) (fh_write data);
   with_handle file fh_close ;;
   mret tt) w = (Ok tt, w').
Proof.
  intros Hlen Hp. unfold with_handle, on_handle, mbind, eff_bind, mret, eff_ret. cbn beta iota.
  unfold fh_write, files, HttpFiles.http_handle at 1. unfold HttpFiles.box_method at 1.
  unfold fh_write, HttpFiles.write_handle at 1.
  rewrite (write_new name (sent_mode perm) data w Hlen : HttpFiles.wf_write data
    (HttpFiles.write_file_of name (Z.lor (Z.lor OpenFlags.WRONLY OpenFlags.CREATE) OpenFlags.TRUNC) perm [], w) = _).
  cbn beta iota. unfold lift. cbn beta iota.
  destruct (close_ok
    (mkWriteFile name (Meta.set_size (blen data) (Meta.file name (sent_mode perm) 0)) data (blen data) false)
    w w' eq_refl) as [f' Ef].
  { cbn [wf_path wf_data wf_metadata].
    change (m_mode (Meta.set_size _ ?m)) with (m_mode m). by rewrite file_mode_sent. }
  change (HttpFiles.http_handle put) with files. by rewrite Ef.
Qed.

(** The rest of [read_file] behind [open]. *)
Lemma read_whole n m data w : (length data < n)%nat →
  ('(out, file) ← read_loop n [] (BoxRead (HttpFiles.read_file_of m data));
   on_handle file fh_close ;;
   mret out) w = (Ok data, w).
Proof.
  intros Hn. unfold mbind, eff_bind, HttpFiles.read_file_of.
  rewrite read_loop_box by (unfold blen; lia). done.
Qed.
End Files.

(** ** Multipart bodies arrive

    [HttpText.parse_http_multipart] reads back the parts that
    [HttpServer.append_multipart_part] writes. *)

Local Close Scope Z_scope.
#[local] Arguments String.append !_ _ / : simpl nomatch.

(** ** Building a map in order *)

Section Build.
Context {K V : Type} `{OrdKey K}.

Lemma bt_insert_last k (v : V) (m : btree K V) : (∀ k', k' ∈ bt_keys m → key_lt k' k) →
  bt_insert k v m = m ++ [(k, v)].
Proof.
  induction m as [|[k' v'] m IH]; intros Hlt; [done|]. cbn.
  assert (key_lt k' k) as Hk by (apply Hlt; by left).
  rewrite !decide_False, IH; [done|..].
  - intros x Hx. apply Hlt. by right.
  - intros Hk'. apply (irreflexivity key_lt k). by etrans.
  - intros ->. by apply (irreflexivity key_lt k').
Qed.

Lemma bt_build (m : btree K V) : bt_wf m → foldl (λ m kv, bt_insert kv.1 kv.2 m) [] m = m.
Proof.
  induction m as [|[k v] m IH] using rev_ind; intros Hwf; [done|].
  unfold bt_wf, bt_keys in Hwf. rewrite fmap_app in Hwf.
  apply StronglySorted_app in Hwf as (Hlt & Hm & _).
  rewrite foldl_app. cbn. rewrite IH by done. apply bt_insert_last. intros k' Hk'.
  apply Hlt; [done|]. by left.
Qed.
End Build.

(** ** Searching bytes *)

Lemma strip_bytes_Some n s r : strip_bytes n s = Some r ↔ s = n ++ r.
Proof.
  revert s. induction n as [|a n IH]; intros s; cbn; [split; [by intros [= ->]|by intros ->]|].
  destruct s as [|b s]; [done|]. case_decide; subst.
  - rewrite IH. split; [by intros ->|by intros [= ->]].
  - split; [done|]. by intros [= ??].
Qed.

Lemma starts_bytes_true n s : starts_bytes n s = true ↔ ∃ r, s = n ++ r.
Proof.
  unfold starts_bytes. destruct (strip_bytes n s) as [r|] eqn:E; split; try done.
  - intros _. exists r. by apply strip_bytes_Some.
  - intros [r Hr]. apply strip_bytes_Some in Hr. congruence.
Qed.

Lemma starts_bytes_app n r : starts_bytes n (n ++ r) = true.
Proof. apply starts_bytes_true. eauto. Qed.

(** [needle] does not start inside [a], in front of [s]. *)
Definition not_inside (needle a s : list byte) : Prop :=
  ∀ u v, a = u ++ v → v ≠ [] → starts_bytes needle (v ++ s) = false.

Lemma position_skip needle a s : not_inside needle a s →
  position needle (a ++ s) = Nat.add (length a) <$> position needle s.
Proof.
  induction a as [|x a IH]; intros Hn;
    [cbn [app]; by destruct (position needle s)|].
  cbn [app position]. change (x :: a ++ s) with ((x :: a) ++ s).
  rewrite (Hn [] (x :: a)) by done. rewrite IH; [by destruct (position needle s)|].
  intros u v -> Hv. by apply (Hn (x :: u) v).
Qed.

Lemma position_here needle s : starts_bytes needle s = true → position needle s = Some 0.
Proof. destruct s; cbn; by intros ->. Qed.

Lemma find_bytes_at pre s needle : needle ≠ [] →
  find_bytes (pre ++ s) needle (length pre) = Nat.add (length pre) <$> position needle s.
Proof.
  intros Hn. unfold find_bytes. destruct needle; [done|]. rewrite length_app.
  destruct (Nat.ltb_spec (length pre + length s) (length pre)); [lia|]. by rewrite drop_app_length.
Qed.

(** A needle without the head of what follows starts inside only if it is inside. *)
Lemma not_inside_free needle a b s : position needle a = None → b ∉ needle →
  not_inside needle a (b :: s).
Proof.
  intros Hp Hb u v -> Hv. apply not_true_iff_false. intros [r Hr]%starts_bytes_true.
  apply app_eq_inv in Hr as [(k & -> & _)|(k & -> & Hk)].
  - clear Hb Hv. induction u as [|x u IH]; cbn [app] in Hp.
    + by rewrite (position_here needle) in Hp by apply starts_bytes_app.
    + cbn [position] in Hp. destruct (starts_bytes needle _); [done|].
      apply IH. by destruct (position needle (u ++ needle ++ k)).
  - destruct k as [|y k]; cbn in Hk; [|injection Hk as -> ->; apply Hb; apply elem_of_app; right; by left].
    rewrite app_nil_r in *. clear Hk Hb Hv r.
    induction u as [|x u IH]; cbn [app] in Hp.
    + rewrite (position_here v) in Hp; [done|]. apply starts_bytes_true. exists []. by rewrite app_nil_r.
    + cbn [position] in Hp. destruct (starts_bytes v _); [done|]. apply IH.
      by destruct (position v (u ++ v)).
Qed.

Lemma not_inside_head b needle a s : b ∉ a → not_inside (b :: needle) a s.
Proof.
  intros Hb u v -> Hv. destruct v as [|x v]; [done|]. unfold starts_bytes. cbn.
  case_decide; [|done]. subst. destruct Hb. apply elem_of_app. right. by left.
Qed.

Lemma position_next needle b s : starts_bytes needle (b :: s) = false →
  position needle (b :: s) = S <$> position needle s.
Proof. intros H. cbn. by rewrite H. Qed.

(** ** The headers of a part *)

(** A line without its end. *)
Definition unbroken (l : list byte) : Prop := l ≠ [] ∧ (x0d ∉ l) ∧ (x0a ∉ l).

Definition block (ls : list (list byte)) : list byte := mjoin ((λ l, l ++ CRLF) <$> ls).

Lemma block_cons l ls : block (l :: ls) = l ++ CRLF ++ block ls.
Proof. unfold block. cbn. by rewrite <- app_assoc. Qed.

(** What starts with a line that is not empty. *)
Definition fresh_line (s : list byte) : Prop := ∃ c r, s = c :: r ∧ c ≠ x0d ∧ c ≠ x0a.

Lemma block_fresh l ls rest : unbroken l → fresh_line (block (l :: ls) ++ rest).
Proof.
  intros (Hne & Hcr & Hlf). rewrite block_cons. destruct l as [|c l]; [done|].
  exists c, ((l ++ CRLF ++ block ls) ++ rest).
  apply not_elem_of_cons in Hcr as [? _]. apply not_elem_of_cons in Hlf as [? _]. done.
Qed.

(** Behind a line that is not the last no empty line starts. *)
Lemma position_line needle l s : unbroken l → fresh_line s →
  (needle = CRLF ++ CRLF) ∨ needle = [x0a; x0a] →
  position needle (l ++ CRLF ++ s) = Nat.add (length l + 2) <$> position needle s.
Proof.
  intros (_ & Hcr & Hlf) (c & r & -> & H1 & H2) Hn.
  rewrite position_skip by (destruct Hn as [-> | ->]; by apply not_inside_head).
  change (CRLF ++ c :: r) with (x0d :: x0a :: c :: r).
  rewrite (position_next _ x0d), (position_next _ x0a).
  - destruct (position needle (c :: r)); [|done]. cbn. f_equal. lia.
  - apply not_true_iff_false. intros [t Ht]%starts_bytes_true. destruct Hn as [-> | ->]; cbn in Ht; congruence.
  - apply not_true_iff_false. intros [t Ht]%starts_bytes_true. destruct Hn as [-> | ->]; cbn in Ht; congruence.
Qed.

Lemma block_empty_line ls rest : ls ≠ [] → Forall unbroken ls →
  position (CRLF ++ CRLF) (block ls ++ CRLF ++ rest) = Some (length (block ls) - 2)
  ∧ ∀ n, position [x0a; x0a] (block ls ++ CRLF ++ rest) = Some n → length (block ls) - 2 ≤ n.
Proof.
  induction ls as [|l [|l' ls] IH]; intros Hne Hls; [done| |].
  - apply Forall_cons in Hls as [Hl _]. rewrite block_cons. unfold block. cbn [fmap list_fmap].
    rewrite <- !app_assoc. destruct Hl as (_ & Hcr & Hlf).
    rewrite !(position_skip _ l) by (by apply not_inside_head). rewrite !length_app. split.
    + rewrite position_here by (apply (starts_bytes_app (CRLF ++ CRLF))). cbn. f_equal. lia.
    + intros n (m & _ & ->)%fmap_Some. cbn. lia.
  - apply Forall_cons in Hls as [Hl Hls]. destruct (IH ltac:(done) Hls) as [H1 H2]. clear IH.
    apply Forall_cons in Hls as [Hl' _].
    assert (2 < length (block (l' :: ls))) as Hlen.
    { rewrite block_cons, !length_app. destruct Hl' as [? _]. destruct l'; [done|]. cbn. lia. }
    rewrite (block_cons l), !length_app, <- !app_assoc. cbn [length CRLF].
    rewrite !(position_line _ l) by (auto using block_fresh). split.
    + rewrite H1. cbn [fmap option_fmap option_map]. f_equal. lia.
    + intros n (m & Hm & ->)%fmap_Some. specialize (H2 m Hm). lia.
Qed.

Lemma header_terminator_block pre ls rest : ls ≠ [] → Forall unbroken ls →
  header_terminator (pre ++ block ls ++ CRLF ++ rest) (length pre)
  = Some (length pre + (length (block ls) - 2), length pre + (length (block ls) - 2) + 4).
Proof.
  intros Hne Hls. destruct (block_empty_line ls rest Hne Hls) as [H1 H2].
  unfold header_terminator. rewrite !find_bytes_at by done. rewrite H1. cbn [fmap option_fmap option_map].
  destruct (position [x0a; x0a] _) as [n|]; [|done]. specialize (H2 n eq_refl). cbn.
  destruct (Nat.leb_spec (length pre + (length (block ls) - 2)) (length pre + n)); [done|lia].
Qed.

(** A header that a part can carry. *)
Definition header_ok (kv : string * string) : Prop :=
  trimmed kv.1 ∧ trimmed kv.2 ∧ contains_char ":" kv.1 = false
  ∧ Forall (λ c, contains_char c kv.1 = false ∧ contains_char c kv.2 = false) [NEWLINE; CR].

Definition header_text (kv : string * string) : string := kv.1 +:+ ": " +:+ kv.2.

Lemma header_text_no c kv : c = NEWLINE ∨ c = CR → header_ok kv →
  contains_char c (header_text kv) = false.
Proof.
  intros Hc (_ & _ & _ & Hno). rewrite Forall_forall in Hno.
  destruct (Hno c) as [H1 H2]; [destruct Hc as [-> | ->]; [left|right; left]|].
  unfold header_text. rewrite !contains_char_app, H1, H2. by destruct Hc as [-> | ->].
Qed.

Lemma header_text_unbroken kv : header_ok kv → unbroken (bytes_of (header_text kv)).
Proof.
  intros Hok. assert (∀ c, c = NEWLINE ∨ c = CR → byte_of_ascii c ∉ bytes_of (header_text kv)) as Hno.
  { intros c Hc Hin. pose proof (header_text_no c kv Hc Hok) as H.
    rewrite contains_char_bytes in H. apply not_true_iff_false in H. apply H, existsb_exists.
    exists (byte_of_ascii c). rewrite bool_decide_true by done. by rewrite <- list_elem_of_In. }
  split_and!; [|by apply (Hno CR); right|by apply (Hno NEWLINE); left].
  unfold header_text. rewrite !bytes_of_app. by destruct (bytes_of kv.1).
Qed.

Lemma header_line_text m kv : header_ok kv → header_line m (header_text kv) = bt_insert kv.1 kv.2 m.
Proof.
  intros Hok. unfold header_line. rewrite trim_end_char_id by (by apply header_text_no; [right|]).
  destruct Hok as (Hk & Hv & Hc & _). unfold header_text.
  rewrite (proj2 (split_once_Some ":" _ kv.1 (String " " kv.2))) by done.
  by rewrite trim_id, trim_space.
Qed.

Definition crlf : string := String CR (String NEWLINE "").

(** The lines of the headers are read one by one. *)
Lemma join_crlf init z :
  str_join crlf (init ++ [z]) = str_join (String NEWLINE "") (((λ l, l +:+ String CR "") <$> init) ++ [z]).
Proof.
  induction init as [|l init IH]; [done|]. rewrite fmap_cons. cbn [app].
  rewrite !join_cons by (by destruct init). rewrite IH. by rewrite <- app_str_assoc.
Qed.

Lemma chomp_cr l : chomp (l +:+ String CR "") = l.
Proof.
  unfold chomp. rewrite bytes_of_app, rev_app_distr.
  change (rev (bytes_of (String CR ""))) with [x0d]. cbn [app]. by rewrite rev_involutive, string_of_bytes_of.
Qed.

Lemma str_lines_crlf ls : ls ≠ [] →
  Forall (λ l, l ≠ "" ∧ contains_char NEWLINE l = false) ls → str_lines (str_join crlf ls) = ls.
Proof.
  intros Hne Hls. destruct (exists_last Hne) as (init & z & ->). rewrite join_crlf.
  apply Forall_app in Hls as [Hi Hz]. apply Forall_cons in Hz as [[Hz Hnl] _].
  unfold str_lines. rewrite split_on_join.
  - rewrite rev_app_distr. cbn. rewrite rev_involutive.
    destruct (is_empty_str z) eqn:E; [by apply is_empty_str_true in E|]. f_equal.
    rewrite <- list_fmap_compose. rewrite <- (list_fmap_id init) at 2. apply list_fmap_ext.
    intros i l _. cbn. apply chomp_cr.
  - by destruct init.
  - apply Forall_app. split; [|by repeat constructor]. apply Forall_fmap.
    eapply Forall_impl; [done|]. intros l [_ Hl]. cbn. by rewrite contains_char_app, Hl.
Qed.

Lemma block_join ls : ls ≠ [] →
  block (bytes_of <$> ls) = bytes_of (str_join crlf ls) ++ CRLF.
Proof.
  induction ls as [|l [|l' ls] IH]; intros Hne;
    [done|by rewrite fmap_cons, block_cons|].
  rewrite fmap_cons, block_cons, IH, (join_cons _ l) by done. by rewrite !bytes_of_app, <- !app_assoc.
Qed.

Lemma str_valid_join sep ls : str_valid sep → Forall str_valid ls → str_valid (str_join sep ls).
Proof.
  intros Hs. induction 1 as [|l [|l' ls] Hl _ IH]; [done..|]. rewrite join_cons by done.
  by repeat apply str_valid_app.
Qed.

(** The headers of a part are read back. *)
Lemma parse_part_headers pre headers rest : headers ≠ [] → bt_wf headers → Forall header_ok headers →
  parse_http_part_headers
    (pre ++ block ((bytes_of ∘ header_text) <$> headers) ++ CRLF ++ rest) (length pre)
  = Ok (headers, length (pre ++ block ((bytes_of ∘ header_text) <$> headers) ++ CRLF)).
Proof.
  intros Hne Hwf Hok. set (ls := header_text <$> headers).
  rewrite (list_fmap_compose header_text bytes_of). fold ls.
  assert (ls ≠ []) as Hls by (by destruct headers).
  assert (Forall unbroken (bytes_of <$> ls)) as Hun.
  { apply Forall_fmap, Forall_fmap. eapply Forall_impl; [done|]. apply header_text_unbroken. }
  unfold parse_http_part_headers. rewrite header_terminator_block by (done || by destruct ls).
  rewrite block_join by done. set (t := str_join crlf ls).
  replace (length (bytes_of t ++ CRLF) - 2) with (length (bytes_of t)) by (rewrite length_app; cbn; lia).
  replace (length pre + length (bytes_of t) - length pre) with (length (bytes_of t)) by lia.
  rewrite drop_app_length, <- !app_assoc, take_app_length.
  rewrite from_utf8_lossy_valid.
  - subst t. rewrite str_lines_crlf; [|done|].
    + f_equal. f_equal; [|rewrite !length_app; cbn; lia]. clear Hls Hun Hne.
      subst ls. rewrite <- (bt_build headers Hwf) at 2. clear Hwf. generalize (@nil (string * string)).
      induction Hok as [|kv hs Hkv _ IH]; intros m; [done|]. cbn. by rewrite header_line_text.
    + apply Forall_fmap. eapply Forall_impl; [done|]. intros kv Hkv. cbn. split.
      * apply header_text_unbroken in Hkv as [Hb _]. by destruct (header_text kv).
      * apply header_text_no; [by left|done].
  - apply str_valid_join; [done|]. apply Forall_fmap. eapply Forall_impl; [done|].
    intros kv ([? _] & [? _] & _). cbn. by repeat apply str_valid_app.
Qed.

(** ** Parts *)

Section Parts.
Context (boundary : string).

Definition delimiter : list byte := text ("--" +:+ boundary).

(** A part that arrives: a header at least, and no boundary in its body. *)
Definition part_ok (p : HttpMultipartPart) : Prop :=
  mp_headers p ≠ [] ∧ bt_wf (mp_headers p) ∧ Forall header_ok (mp_headers p)
  ∧ position delimiter (mp_body p) = None.

Definition part_bytes (p : HttpMultipartPart) : list byte :=
  delimiter ++ CRLF ++ block ((bytes_of ∘ header_text) <$> mp_headers p) ++ CRLF ++ mp_body p ++ CRLF.

Definition closing : list byte := delimiter ++ [x2d; x2d] ++ CRLF.

Context (Hcr : contains_char CR boundary = false).

Lemma delimiter_cr : x0d ∉ delimiter.
Proof.
  intros Hin. unfold delimiter, text in Hin.
  assert (contains_char CR ("--" +:+ boundary) = true) as H; [|by rewrite contains_char_app, Hcr in H].
  rewrite contains_char_bytes. apply existsb_exists. exists x0d. by rewrite <- list_elem_of_In.
Qed.

Lemma delimiter_head : delimiter = x2d :: x2d :: bytes_of boundary.
Proof. done. Qed.

(** The end of a body is where the next boundary starts. *)
Lemma body_end pre body rest : position delimiter body = None →
  find_multipart_body_end (pre ++ body ++ CRLF ++ delimiter ++ rest) delimiter (length pre)
  = Some (length (pre ++ body), length (pre ++ body ++ CRLF)).
Proof.
  intros Hb. assert (not_inside delimiter body (CRLF ++ delimiter ++ rest)) as Hin.
  { apply (not_inside_free _ _ x0d); [done|apply delimiter_cr]. }
  unfold find_multipart_body_end. rewrite drop_app_length.
  assert (starts_bytes delimiter (body ++ CRLF ++ delimiter ++ rest) = false) as ->.
  { destruct body as [|b body]; [done|]. by apply (Hin [] (b :: body)). }
  cbn [body_end_loop]. rewrite find_bytes_at by done. rewrite position_skip by done.
  change (position _ (CRLF ++ ?s)) with (position delimiter (x0d :: x0a :: s)).
  rewrite (position_next delimiter x0d), (position_next delimiter x0a) by done.
  rewrite position_here by apply starts_bytes_app. cbn [fmap option_fmap option_map].
  replace (length pre + (length body + 2)) with (length (pre ++ body ++ CRLF))
    by (rewrite !length_app; cbn; lia).
  replace (pre ++ body ++ CRLF ++ delimiter ++ rest) with ((pre ++ body ++ CRLF) ++ delimiter ++ rest)
    by (by rewrite <- !app_assoc).
  rewrite take_app_length, !rev_app_distr. cbn [rev app CRLF]. f_equal. f_equal.
  rewrite !length_app. cbn. lia.
Qed.

Definition document (parts : list HttpMultipartPart) : list byte :=
  foldr (λ p rest, part_bytes p ++ rest) closing parts.

Lemma document_starts parts : ∃ r, document parts = delimiter ++ r.
Proof. destruct parts as [|p parts]; [by eexists|]. cbn. unfold part_bytes. rewrite <- app_assoc. eauto. Qed.

(** One turn of the loop reads one part. *)
Lemma parts_loop_step p pre acc rest fuel : part_ok p → (∃ r, rest = delimiter ++ r) →
  parts_loop (S fuel) (pre ++ part_bytes p ++ rest) delimiter (length pre) acc
  = parts_loop fuel ((pre ++ part_bytes p) ++ rest) delimiter (length (pre ++ part_bytes p)) (acc ++ [p]).
Proof.
  intros (Hne & Hwf & Hh & Hb) [r ->]. rewrite app_assoc.
  set (blk := block ((bytes_of ∘ header_text) <$> mp_headers p)).
  set (full := (pre ++ part_bytes p) ++ delimiter ++ r).
  set (p2 := pre ++ delimiter ++ CRLF). set (p3 := p2 ++ blk ++ CRLF).
  assert (full = pre ++ delimiter ++ x0d :: x0a :: blk ++ CRLF ++ mp_body p ++ CRLF ++ delimiter ++ r) as E1.
  { subst full. unfold part_bytes. by rewrite <- !app_assoc. }
  assert (full = p2 ++ blk ++ CRLF ++ mp_body p ++ CRLF ++ delimiter ++ r) as E2.
  { rewrite E1. subst p2. by rewrite <- !app_assoc. }
  assert (full = p3 ++ mp_body p ++ CRLF ++ delimiter ++ r) as E3.
  { rewrite E2. subst p3. by rewrite <- !app_assoc. }
  assert (pre ++ part_bytes p = p3 ++ mp_body p ++ CRLF) as ->.
  { subst p3 p2. unfold part_bytes. by rewrite <- !app_assoc. }
  clearbody full.
  assert (starts_bytes delimiter (drop (length pre) full) = true) as S1.
  { rewrite E1, drop_app_length. apply starts_bytes_app. }
  assert (drop (length pre + length delimiter) full
    = x0d :: x0a :: blk ++ CRLF ++ mp_body p ++ CRLF ++ delimiter ++ r) as S2.
  { rewrite E1, <- length_app, app_assoc. apply drop_app_length. }
  assert (length pre + length delimiter + 2 = length p2) as S3.
  { subst p2. rewrite !length_app. cbn. lia. }
  assert (parse_http_part_headers full (length p2) = Ok (mp_headers p, length p3)) as S4.
  { rewrite E2. by apply parse_part_headers. }
  assert (find_multipart_body_end full delimiter (length p3)
    = Some (length (p3 ++ mp_body p), length (p3 ++ mp_body p ++ CRLF))) as S5.
  { rewrite E3. by apply body_end. }
  assert (take (length (p3 ++ mp_body p) - length p3) (drop (length p3) full) = mp_body p) as S6.
  { rewrite E3, drop_app_length, length_app, Nat.add_comm, Nat.add_sub. apply take_app_length. }
  cbn [parts_loop]. rewrite S1. cbn [negb]. unfold consume_multipart_newline. rewrite S2, S3.
  unfold mbind, outcome_bind, ok_or_res. rewrite S4. cbn beta iota.
  rewrite S5. cbn beta iota. rewrite S6. by destruct p.
Qed.

Lemma parts_loop_read parts pre acc fuel : Forall part_ok parts → length parts < fuel →
  parts_loop fuel (pre ++ document parts) delimiter (length pre) acc = Ok (acc ++ parts).
Proof.
  intros Hok. revert pre acc fuel. induction Hok as [|p parts Hp _ IH];
    intros pre acc [|fuel] Hf; [cbn in Hf; lia| |cbn in Hf; lia|].
  - cbn [document foldr parts_loop]. unfold closing. rewrite drop_app_length, starts_bytes_app. cbn [negb].
    rewrite app_assoc, <- length_app, drop_app_length. cbn. by rewrite app_nil_r.
  - change (document (p :: parts)) with (part_bytes p ++ document parts).
    rewrite parts_loop_step by (done || apply document_starts).
    rewrite IH by (cbn in Hf; lia). by rewrite <- app_assoc.
Qed.

Lemma document_length parts : length parts ≤ length (document parts).
Proof.
  induction parts as [|p parts IH]; [cbn; lia|].
  change (document (p :: parts)) with (part_bytes p ++ document parts).
  unfold part_bytes. rewrite !length_app. cbn. lia.
Qed.

Lemma parse_document parts : Forall part_ok parts →
  parse_http_multipart (document parts) boundary = Ok parts.
Proof.
  intros Hok. unfold parse_http_multipart. change (bytes_of ("--" +:+ boundary)) with delimiter.
  assert (find_bytes (document parts) delimiter 0 = Some 0) as ->.
  { destruct (document_starts parts) as [r ->].
    pose proof (find_bytes_at [] (delimiter ++ r) delimiter ltac:(done)) as H. cbn [app length] in H. rewrite H.
    by rewrite position_here by apply starts_bytes_app. }
  apply (parts_loop_read parts [] []); [done|].
  pose proof (document_length parts). lia.
Qed.

(** What the server writes is such a document. *)
Lemma append_part body p :
  append_multipart_part body boundary (mp_headers p) (mp_body p) = body ++ part_bytes p.
Proof.
  unfold append_multipart_part, part_bytes, block. by rewrite <- list_fmap_compose.
Qed.

Lemma append_parts parts body :
  foldl (λ body p, append_multipart_part body boundary (mp_headers p) (mp_body p)) body parts
    ++ text ("--" +:+ boundary +:+ "--") ++ CRLF
  = body ++ document parts.
Proof.
  revert body. induction parts as [|p parts IH]; intros body.
  - cbn [foldl document foldr]. unfold closing, delimiter, text.
    rewrite app_str_assoc, bytes_of_app, <- app_assoc. done.
  - cbn [foldl]. rewrite IH, append_part. cbn [document foldr]. by rewrite <- app_assoc.
Qed.
End Parts.

(** Multipart bodies round trip: whatever parts the server appends, with headers that
    fit on a line and bodies, binary or empty, in which the boundary does not occur, the
    reader returns exactly those parts. *)
Theorem multipart_roundtrip boundary parts :
  contains_char CR boundary = false → Forall (part_ok boundary) parts →
  parse_http_multipart
    (foldl (λ body p, append_multipart_part body boundary (mp_headers p) (mp_body p)) [] parts
      ++ text ("--" +:+ boundary +:+ "--") ++ CRLF) boundary
  = Ok parts.
Proof. intros Hb Hok. rewrite append_parts. by apply parse_document. Qed.

Lemma multipart_roundtrip_witness :
  parse_http_multipart
    (foldl (λ body p, append_multipart_part body "b" (mp_headers p) (mp_body p)) []
      [mkPart [("Content-Location", "/d")] [x0d; x0a; x00]; mkPart [("A", ""); ("B", "c d")] []]
      ++ text ("--" +:+ "b" +:+ "--") ++ CRLF) "b"
  = Ok [mkPart [("Content-Location", "/d")] [x0d; x0a; x00]; mkPart [("A", ""); ("B", "c d")] []].
Proof.
  assert (∀ s, str_valid s →
    match head (chars s) with Some c => is_whitespace c = false | None => True end →
    match last (chars s) with Some c => is_whitespace c = false | None => True end → trimmed s) as Ht.
  { intros s Hv H1 H2. split_and!; [done|by destruct (head (chars s)); [intros ? [= <-]|]|].
    by destruct (last (chars s)); [intros ? [= <-]|]. }
  apply multipart_roundtrip; [done|].
  repeat apply Forall_cons_2; [| |apply Forall_nil_2]; split_and!;
    try first [by vm_compute|by repeat constructor].
  - apply Forall_cons_2; [|apply Forall_nil_2]. split_and!; try first [by vm_compute|by apply Ht].
    repeat apply Forall_cons_2; try apply Forall_nil_2; by vm_compute.
  - repeat apply Forall_cons_2; [| |apply Forall_nil_2];
      (split_and!; [by apply Ht|by apply Ht|by vm_compute|]);
      repeat apply Forall_cons_2; try apply Forall_nil_2; by vm_compute.
Defined.
