(* ===== verification/HttpProps.v ===== *)
(** * The HTTP filesystem against its server

    [HttpFs] with [HttpServer.handle] as its transport answers as the filesystem that is
    served; its cache never hides a change it made itself. *)

From stdpp Require Import base list numbers option strings pretty sorting.
From Stdlib Require Import ZArith Lia Ascii.
From S2P Require Import Prelude Strs RcText BTree Core FsTrait Field MemFs TextFacts HttpText HttpFs Sync HttpServer HttpTextFacts MemFsProps.

Local Open Scope Z_scope.
Import HttpText.

(** ** The cache *)

Section Cache.
Context {V : Type} (transport : HttpRequest → M V HttpResponse) (base : string).
Local Abbreviation W := (HttpWorld V).
Implicit Types w : W.

(** The moments at which answers stored from now on expire are in the range of the clock; with
    no time to live nothing is stored. *)
Definition expiring {V} (w : HttpWorld V) : Prop :=
  hx_ttl (hw_cache w) = 0 ∨ ∀ n, (hw_clock w n + hx_ttl (hw_cache w)) / 1000000000 ≤ I64_MAX.

(** A cache without an answer for a name. *)
Definition uncached (name : string) (x : HttpFsCache) : Prop :=
  bt_get name (hx_stat x) = None ∧ bt_get name (hx_node x) = None.

(** [p] is [name] or below it, the names that [invalidate_tree] removes. *)
Definition in_tree (name p : string) : bool := negb (HttpFs.outside_tree name p).

Lemma invalidate_exact_get name p x :
  bt_get p (hx_stat (HttpFs.invalidate_exact name x))
    = (if decide (p = name) then None else bt_get p (hx_stat x))
  ∧ bt_get p (hx_node (HttpFs.invalidate_exact name x))
    = (if decide (p = name) then None else bt_get p (hx_node x)).
Proof. unfold HttpFs.invalidate_exact. cbn. by rewrite !bt_get_remove. Qed.

Lemma invalidate_tree_get name p x :
  bt_get p (hx_stat (HttpFs.invalidate_tree name x))
    = (if bool_decide (name = ".") || in_tree name p then None else bt_get p (hx_stat x))
  ∧ bt_get p (hx_node (HttpFs.invalidate_tree name x))
    = (if bool_decide (name = ".") || in_tree name p then None else bt_get p (hx_node x)).
Proof.
  unfold HttpFs.invalidate_tree. case_decide as Hn.
  - by rewrite bool_decide_true by done.
  - rewrite bool_decide_false by done. cbn. rewrite !bt_get_retain. unfold in_tree.
    by destruct (HttpFs.outside_tree name p).
Qed.

(** The names whose answers a change of [name] drops. *)
Definition dropped (name p : string) : bool :=
  bool_decide (name = ".") || in_tree name p || bool_decide (p = parent_path name).

Definition drop_cached (name : string) (x : HttpFsCache) : HttpFsCache :=
  HttpFs.invalidate_exact (parent_path name) (HttpFs.invalidate_tree name x).

Lemma drop_cached_get name p x :
  bt_get p (hx_stat (drop_cached name x)) = (if dropped name p then None else bt_get p (hx_stat x))
  ∧ bt_get p (hx_node (drop_cached name x)) = (if dropped name p then None else bt_get p (hx_node x)).
Proof.
  unfold drop_cached, dropped.
  destruct (invalidate_exact_get (parent_path name) p (HttpFs.invalidate_tree name x)) as [-> ->].
  destruct (invalidate_tree_get name p x) as [-> ->].
  case_decide; [rewrite (bool_decide_true (p = _)) by done; by rewrite orb_true_r|].
  rewrite (bool_decide_false (p = _)) by done. by rewrite orb_false_r.
Qed.

(** A change that sends one request: what it does to the world. *)
Definition sends {A} (m : M W A) (name : string) : Prop := ∀ w r w', m w = (r, w') →
  hw_ignores w' = hw_ignores w ∧ hx_ttl (hw_cache w') = hx_ttl (hw_cache w)
  ∧ match r with
    | Ok _ => hw_cache w' = drop_cached name (hw_cache w)
    | _ => hw_cache w' = hw_cache w
    end.

Lemma request_keeps method name headers body w r w' :
  HttpFs.request transport base method name headers body w = (r, w') →
  hw_cache w' = hw_cache w ∧ hw_ignores w' = hw_ignores w ∧ hw_clock w' = hw_clock w.
Proof.
  unfold HttpFs.request, HttpFs.raw_request, HttpFs.in_transport. unfold_eff.
  intros H. run_in H; done.
Qed.

Ltac sent H :=
  first [progress simplify_eq | match type of H with
  | context [HttpFs.request ?t ?b ?m ?n ?h ?d ?w] =>
      let E := fresh "E" in
      destruct (HttpFs.request t b m n h d w) as [[?|?| |] ?] eqn:E;
      apply request_keeps in E as (?&?&?); cbn in *
  end].

Lemma invalidate_tree_ttl name x : hx_ttl (HttpFs.invalidate_tree name x) = hx_ttl x.
Proof. unfold HttpFs.invalidate_tree. by case_decide. Qed.

Ltac sends_now :=
  unfold HttpFs.insert_change_timestamp, HttpFs.now, HttpFs.invalidate_after_change,
    HttpFs.update_cache; unfold_eff; intros w r w' H; cbn in H;
  repeat sent H; cbn;
  change (HttpFs.invalidate_exact (parent_path ?n) (HttpFs.invalidate_tree ?n ?x)) with (drop_cached n x);
  rewrite ?invalidate_tree_ttl; split_and!; congruence.

Lemma put_node_sends name content_type mode body :
  sends (HttpFs.put_node transport base name content_type mode body) (clean_path name).
Proof. unfold HttpFs.put_node. sends_now. Qed.

Lemma remove_sends name : sends (HttpFs.remove transport base name) (clean_path name).
Proof. unfold HttpFs.remove. sends_now. Qed.

Lemma patch_sends name body : sends (HttpFs.patch_tar transport base name body) (clean_path name).
Proof.
  unfold HttpFs.patch_tar, HttpFs.invalidate_after_change. destruct (valid_path name) eqn:Hv; cbn [negb].
  - rewrite !(clean_path_id name) by done. sends_now.
  - intros w r w' H. injection H as <- <-. by split_and!.
Qed.

(** A rename drops the answers for both names. *)
Lemma rename_cache old new w r w' : HttpFs.rename transport base old new w = (r, w') →
  hw_ignores w' = hw_ignores w ∧ hx_ttl (hw_cache w') = hx_ttl (hw_cache w)
  ∧ match r with
    | Ok _ => ∀ p,
        let gone := dropped (clean_path old) p || dropped (clean_path new) p in
        bt_get p (hx_stat (hw_cache w')) = (if gone then None else bt_get p (hx_stat (hw_cache w)))
        ∧ bt_get p (hx_node (hw_cache w')) = (if gone then None else bt_get p (hx_node (hw_cache w)))
    | _ => hw_cache w' = hw_cache w
    end.
Proof.
  unfold HttpFs.rename, HttpFs.insert_change_timestamp, HttpFs.now,
    HttpFs.invalidate_cache_after_rename, HttpFs.update_cache; unfold_eff. intros H. cbn in H.
  repeat sent H; cbn [hw_cache hw_ignores]; [|split_and!; congruence..].
  split; [congruence|]. split; [cbn; rewrite !invalidate_tree_ttl; congruence|]. intros p.
  repeat match goal with E : hw_cache _ = _ |- _ => rewrite E; clear E end.
  destruct (invalidate_exact_get (parent_path (clean_path new)) p (HttpFs.invalidate_exact
    (parent_path (clean_path old)) (HttpFs.invalidate_tree (clean_path new)
      (HttpFs.invalidate_tree (clean_path old) (hw_cache w))))) as [-> ->].
  destruct (invalidate_exact_get (parent_path (clean_path old)) p (HttpFs.invalidate_tree (clean_path new)
      (HttpFs.invalidate_tree (clean_path old) (hw_cache w)))) as [-> ->].
  destruct (invalidate_tree_get (clean_path new) p
    (HttpFs.invalidate_tree (clean_path old) (hw_cache w))) as [-> ->].
  destruct (invalidate_tree_get (clean_path old) p (hw_cache w)) as [-> ->].
  cbv zeta. unfold dropped, bool_decide. repeat case_decide; try done;
    by destruct (in_tree (clean_path old) p), (in_tree (clean_path new) p).
Qed.

(** ** A request for what is not cached *)

(** Storing an answer sends nothing. *)
Lemma cache_store_ok {T} (put : Cached T → HttpFsCache → HttpFsCache) get name payload validators w :
  expiring w →
  ∃ w', HttpFs.cache_store put get (hx_ttl (hw_cache w)) name payload validators w = (Ok tt, w')
    ∧ hw_inner w' = hw_inner w ∧ hw_ignores w' = hw_ignores w.
Proof.
  unfold HttpFs.cache_store, HttpFs.now, HttpFs.update_cache, time_plus. intros Hexp.
  destruct (Z.eqb_spec (hx_ttl (hw_cache w)) 0); [by exists w|].
  destruct Hexp as [|Hexp]; [done|]. unfold_eff. cbn beta iota.
  rewrite (proj2 (Z.ltb_ge _ _) (Hexp 0%nat)). cbn. eauto.
Qed.

Lemma cache_result_ok {T} (put : Cached T → HttpFsCache → HttpFsCache) get name (result : Result T)
    validators w : expiring w →
  ∃ w', HttpFs.cache_http_result put get name result validators w = (Ok tt, w')
    ∧ hw_inner w' = hw_inner w ∧ hw_ignores w' = hw_ignores w.
Proof.
  intros Hexp. unfold HttpFs.cache_http_result, HttpFs.cache_ttl, gets, mbind, eff_bind. cbn beta iota.
  destruct result as [t|e| |]; [by apply cache_store_ok| |by exists w..].
  destruct (kind_is NotFound e); [by apply cache_store_ok|by exists w].
Qed.

(** [load] for a name that is not cached: one request, and the answer is what the
    response says. *)
Lemma load_fresh {T} (put : Cached T → HttpFsCache → HttpFsCache) get op method text
    (parse : HttpResponse → Result T) name headers w response v :
  bt_get name (get (hw_cache w)) = None → hw_ignores w = [] → expiring w →
  transport (mkRequest method (HttpFs.build_url base name) headers []) (hw_inner w) = (Ok response, v) →
  rp_status response ≠ 304 →
  ∃ w', HttpFs.load transport base put get op method text parse name headers w
        = (response ← HttpFs.response_status_result name response; parse response, w')
    ∧ hw_inner w' = v ∧ hw_ignores w' = [] .
Proof.
  intros Hget Hign Hexp Ht Hst. unfold HttpFs.load, HttpFs.cached, HttpFs.cache_lookup, HttpFs.should_ignore,
    HttpFs.now, HttpFs.cache_stale_value, HttpFs.raw_request, HttpFs.in_transport.
  unfold mbind, eff_bind, gets, mret, eff_ret, zoom.
  cbn -[HttpFs.build_url HttpFs.response_status_result]. rewrite Hget, Hign.
  cbn -[HttpFs.build_url HttpFs.response_status_result]. rewrite !Hget, Ht.
  cbn -[HttpFs.build_url HttpFs.response_status_result].
  destruct (Z.eqb_spec (rp_status response) 304); [done|].
  set (result := outcome_bind _ _ _ _). set (w1 := mkHttpWorld v _ _ _).
  assert (∃ w2, HttpFs.cache_http_result put get name result
    (HttpFs.response_validators (rp_headers response) (@None (HttpFsCacheEntry T))) w1 = (Ok tt, w2)
    ∧ hw_inner w2 = v ∧ hw_ignores w2 = []) as (w2 & E & ? & ?).
  { apply (cache_result_ok put get name result _ w1). destruct Hexp as [|Hexp]; [by left|right].
    intros i. apply Hexp. }
  rewrite E. cbn. eauto.
Qed.
End Cache.

(** A change made through [HttpFs]. *)
Inductive Change :=
  | CPut (name content_type : string) (mode : Z) (body : list byte)
  | CRemove (name : string)
  | CPatch (name : string) (body : list byte)
  | CRename (old new : string).

Definition make {V} (transport : HttpRequest → M V HttpResponse) (base : string) (c : Change)
    : M (HttpWorld V) unit :=
  match c with
  | CPut name content_type mode body => HttpFs.put_node transport base name content_type mode body
  | CRemove name => HttpFs.remove transport base name
  | CPatch name body => HttpFs.patch_tar transport base name body
  | CRename old new => HttpFs.rename transport base old new
  end.

(** The names whose answers it can change: the named ones, those below them and the
    directories they are in. *)
Definition touches (c : Change) (p : string) : bool :=
  match c with
  | CPut name _ _ _ | CRemove name | CPatch name _ => dropped (clean_path name) p
  | CRename old new => dropped (clean_path old) p || dropped (clean_path new) p
  end.

(** The cache never hides a change made through it: whatever the transport answers and
    whatever the time to live, after a change that succeeds there is no cached answer for
    the changed name, for anything below it or for its parent directory (for both names of
    a rename), every other answer is kept, and a change that fails leaves the cache as it
    was. *)
Theorem http_changes_coherent {V} (transport : HttpRequest → M V HttpResponse) base c w r w' :
  make transport base c w = (r, w') →
  match r with
  | Ok _ => ∀ p,
      bt_get p (hx_stat (hw_cache w')) = (if touches c p then None else bt_get p (hx_stat (hw_cache w)))
      ∧ bt_get p (hx_node (hw_cache w')) = (if touches c p then None else bt_get p (hx_node (hw_cache w)))
  | _ => hw_cache w' = hw_cache w
  end.
Proof.
  destruct c as [name ct mode body|name|name body|old new]; cbn [make touches]; intros H;
    [apply put_node_sends in H as (_ & _ & H)|apply remove_sends in H as (_ & _ & H)
    |apply patch_sends in H as (_ & _ & H)|apply rename_cache in H as (_ & _ & H); by destruct r];
    destruct r; try done; intros p; rewrite H; apply drop_cached_get.
Qed.

(** ** Over loopback *)

(** The status with which the server answers an error. *)
Definition status_of (e : Error) : Z := rp_status (HttpServer.response_from_error e).

(** The error that arrives. *)
Definition arriving_error (name : string) (e : Error) : Error :=
  if kind_is NotFound e then EPath "httpfs" name NotFound
  else EMessage ("httpfs " +:+ name +:+ " returned HTTP " +:+ pretty (status_of e)).

Section Loopback.
Context {V H : Type} `{!FileHandle V H} `{!TarCodec} (fsys : FileSystem V H) (fuel : nat).
Context (base : string) (Hbase : web_base base).
Local Abbreviation transport := (HttpServer.handle fsys fuel).
Local Abbreviation W := (HttpWorld V).

Lemma status_cases e :
  status_of e = 404 ∧ kind_is NotFound e = true
  ∨ kind_is NotFound e = false
    ∧ (status_of e = 403 ∨ status_of e = 409 ∨ status_of e = 400 ∨ status_of e = 501 ∨ status_of e = 500).
Proof.
  unfold status_of, HttpServer.response_from_error, kind_is.
  destruct (error_kind e); cbn; tauto.
Qed.

Lemma status_error name e : HttpFs.response_status_result name (HttpServer.response_from_error e)
  = Err (arriving_error name e).
Proof.
  unfold HttpFs.response_status_result, arriving_error. fold (status_of e).
  destruct (status_cases e) as [[-> ->]|[-> Hs]]; [done|].
  by destruct Hs as [-> |[-> |[-> |[-> | ->]]]].
Qed.

Lemma status_error_fresh e : rp_status (HttpServer.response_from_error e) ≠ 304.
Proof. fold (status_of e). destruct (status_cases e) as [[-> _]|[_ Hs]]; [done|lia]. Qed.

(** What the server answers, for each computation of a handler. *)
Lemma handle_ok request v response v' :
  HttpServer.dispatch_request fsys fuel request v = (Ok response, v') →
  transport request v = (Ok response, v').
Proof. intros E. unfold HttpServer.handle, attempt. unfold_eff. by rewrite E. Qed.

Lemma handle_err request v e v' :
  HttpServer.dispatch_request fsys fuel request v = (Err e, v') →
  transport request v = (Ok (HttpServer.response_from_error e), v').
Proof. intros E. unfold HttpServer.handle, attempt. unfold_eff. by rewrite E. Qed.

Definition remote_name (name : string) : Prop := web_name name ∧ valid_path name = true.

Lemma head_answer name v : remote_name name →
  transport (mkRequest HEAD (HttpFs.build_url base name) [] []) v =
  match lstat_path fsys name v with
  | (Ok m, v') => (Ok (mkResponse 200 (HttpServer.metadata_headers m (m_size m)) []), v')
  | (Err e, v') => (Ok (HttpServer.response_from_error e), v')
  | (Panic, v') => (Panic, v')
  | (NoFuel, v') => (NoFuel, v')
  end.
Proof.
  intros [Hn Hv]. unfold HttpServer.handle, HttpServer.dispatch_request. cbn [rq_url rq_method].
  rewrite target_of_url by done. cbn [HttpServer.rt_path rq_headers].
  unfold HttpServer.handle_head, attempt. unfold_eff.
  by destruct (lstat_path fsys name v) as [[m|e| |] v'].
Qed.

(** Over loopback [stat] of [HttpFs] is [lstat] of the served filesystem: the same name,
    size, owner and permissions, the type as far as a mode on the wire has one, the time to
    the second; an error arrives as [NotFound] or with its status; and nothing else changes
    on the server. *)
Theorem http_remote_stat ctx name w :
  remote_name name → bt_get name (hx_stat (hw_cache w)) = None → hw_ignores w = [] →
  expiring w →
  match lstat_path fsys name (hw_inner w) with
  | (Ok m, v) => sendable m → 0 ≤ m_size m ≤ U64_MAX →
      ∃ w', HttpFs.stat transport base ctx name w = (Ok (arriving name m (m_size m)), w') ∧ hw_inner w' = v
  | (Err e, v) => ∃ w', HttpFs.stat transport base ctx name w = (Err (arriving_error name e), w')
      ∧ hw_inner w' = v
  | _ => True
  end.
Proof.
  intros Hn Hc Hi Hexp. pose proof (head_answer name (hw_inner w) Hn) as Ha.
  unfold HttpFs.stat, HttpFs.load_metadata. rewrite (proj2 Hn). cbn [negb].
  rewrite (clean_path_id name) by apply Hn.
  destruct (lstat_path fsys name (hw_inner w)) as [[m|e| |] v]; [| |done..].
  - intros Hs Hz. edestruct (load_fresh transport base HttpFs.set_stat hx_stat) as (w' & -> & Hv & _);
      [done..|]. exists w'. split; [|done]. f_equal.
    by apply parse_metadata_headers.
  - edestruct (load_fresh transport base HttpFs.set_stat hx_stat) as (w' & -> & Hv & _);
      [done..|apply status_error_fresh|]. exists w'. split; [|done]. by rewrite status_error.
Qed.

(** *** Reading *)

Lemma get_answer name m data v v1 v2 : remote_name name →
  lstat_path fsys name v = (Ok m, v1) → FileMode.is_dir (m_mode m) = false →
  FileMode.is_symlink (m_mode m) = false → read_file fsys fuel name v1 = (Ok data, v2) →
  transport (mkRequest GET (HttpFs.build_url base name) [] []) v
  = (Ok (mkResponse 200 (HttpServer.metadata_headers m (blen data)) data), v2).
Proof.
  intros [Hn Hv] Hl Hd Hs Hr. apply handle_ok.
  unfold HttpServer.dispatch_request. cbn [rq_url rq_method].
  rewrite target_of_url by done. cbn [HttpServer.rt_path rq_headers].
  unfold HttpServer.handle_get, Meta.is_dir. unfold_eff. rewrite Hl, Hs, Hd. cbn [andb]. by rewrite Hr.
Qed.

(** The file that [open] gives holds the contents. *)
Lemma open_fresh ctx name m data w v1 v2 :
  remote_name name → bt_get name (hx_node (hw_cache w)) = None → hw_ignores w = [] →
  expiring w →
  lstat_path fsys name (hw_inner w) = (Ok m, v1) → FileMode.is_dir (m_mode m) = false →
  FileMode.is_symlink (m_mode m) = false → read_file fsys fuel name v1 = (Ok data, v2) →
  sendable m → blen data ≤ U64_MAX →
  ∃ w', HttpFs.open transport base ctx name w
      = (Ok (BoxRead (HttpFiles.read_file_of (arriving name m (blen data)) data)), w')
    ∧ hw_inner w' = v2.
Proof.
  intros Hn Hc Hi Hexp Hl Hd Hsym Hr Hs Hz. pose proof (get_answer name m data _ _ _ Hn Hl Hd Hsym Hr) as Ha.
  unfold HttpFs.open. rewrite (proj2 Hn). cbn [negb]. rewrite (clean_path_id name) by apply Hn.
  edestruct (load_fresh transport base HttpFs.set_node hx_node) as (w' & E & Hv & _); [done..|].
  unfold HttpFs.load_node, HttpFs.load_node_with_headers. unfold mbind, eff_bind. rewrite E.
  exists w'. split; [|done].
  change (HttpFs.response_status_result name _) with
    (Ok (E:=Error) (mkResponse 200 (HttpServer.metadata_headers m (blen data)) data)).
  unfold mbind, outcome_bind. cbn beta iota. unfold HttpFs.parse_node.
  cbn [rp_headers rp_body]. assert (multipart_boundary (HttpServer.metadata_headers m (blen data)) = None) as ->.
  { rewrite metadata_headers_eq. unfold multipart_boundary.
    change (header_value _ "Content-Type") with (Some (HttpServer.content_type (m_mode m))).
    unfold HttpServer.content_type. by repeat case_match. }
  rewrite parse_metadata_headers by first [done|unfold blen in *; lia].
  unfold mbind, outcome_bind. cbn. unfold Meta.is_dir, arriving. cbn.
  by rewrite wire_mode_dir, Hd.
Qed.

Lemma read_fresh n name m data w v1 v2 :
  remote_name name → bt_get name (hx_node (hw_cache w)) = None → hw_ignores w = [] →
  expiring w →
  lstat_path fsys name (hw_inner w) = (Ok m, v1) → FileMode.is_dir (m_mode m) = false →
  FileMode.is_symlink (m_mode m) = false → read_file fsys fuel name v1 = (Ok data, v2) →
  sendable m → blen data ≤ U64_MAX → (length data < n)%nat →
  ∃ w', @read_file W HttpHandle (HttpFiles.http_handle (HttpFs.put_file transport base))
      (HttpFs.fs transport base fuel) n name w = (Ok data, w') ∧ hw_inner w' = v2.
Proof.
  intros Hn Hc Hi Hexp Hl Hd Hsym Hr Hs Hz Hlen. unfold read_file, open_path.
  destruct (open_fresh (Ctx.with_origin name "open" Ctx.new) name m data w v1 v2) as (w' & E & Hv); [done..|].
  unfold mbind at 1, eff_bind at 1. cbn [fs_open HttpFs.fs]. rewrite E.
  exists w'. split; [|done]. by apply (read_whole (HttpFs.put_file transport base)).
Qed.

(** *** Writing *)

(** What a PUT of a file does on the server: the contents, then the mode, the owner and
    the time that [HttpFs] sends with them. *)
Definition stored (name : string) (data : list byte) (perm t : Z) : M V unit :=
  write_file fsys name data perm ;;
  lstat_path fsys name ;;
  HttpServer.ignore_unsupported (fs_chmod fsys name perm) ;;
  HttpServer.ignore_unsupported (fs_chown fsys name 0 0) ;;
  HttpServer.ignore_unsupported (fs_chtimes fsys name t).

Lemma put_headers_eq (type modified length stamp : string) mode :
  bt_insert "Change-Timestamp" stamp (bt_insert "Content-Length" length
    (bt_insert "Content-Ownership" "0:0" (bt_insert "Content-Modified" modified
      (bt_insert "Content-Mode" (format_http_mode mode) (bt_insert "Content-Type" type [])))))
  = [("Change-Timestamp", stamp); ("Content-Length", length); ("Content-Mode", format_http_mode mode);
     ("Content-Modified", modified); ("Content-Ownership", "0:0"); ("Content-Type", type)].
Proof. reflexivity. Qed.

Lemma http_mode_sent perm def :
  HttpServer.mode_header_or_default (Some (format_http_mode (sent_mode perm))) def = sent_mode perm.
Proof.
  unfold HttpServer.mode_header_or_default, format_http_mode, parse_u32. cbn [mbind option_bind].
  rewrite parse_unsigned_pretty by apply unix_mode_bound. rewrite mode_of_wire. apply sent_mode_perm.
Qed.

Lemma put_answer name data perm (secs : Z) (length stamp : string) v v1 : remote_name name → name ≠ "." →
  0 ≤ secs ≤ I64_MAX →
  stored name data (sent_mode perm) (secs * 1000000000) v = (Ok tt, v1) →
  transport (mkRequest PUT (HttpFs.build_url base name)
    [("Change-Timestamp", stamp); ("Content-Length", length);
     ("Content-Mode", format_http_mode (sent_mode perm)); ("Content-Modified", pretty secs);
     ("Content-Ownership", "0:0"); ("Content-Type", "application/octet-stream")] data) v
  = (Ok HttpServer.ok_response, v1).
Proof.
  intros [Hn Hv] Hdot Hsecs Hst. apply handle_ok.
  unfold HttpServer.dispatch_request. cbn [rq_url rq_method].
  rewrite target_of_url by done. cbn [HttpServer.rt_path HttpServer.rt_trailing_slash].
  rewrite bool_decide_false by done. unfold HttpServer.handle_put. cbn [rq_headers rq_body].
  change (header_value _ "Content-Type") with (Some "application/octet-stream").
  change (header_value _ "Content-Mode") with (Some (format_http_mode (sent_mode perm))).
  change (eq_ignore_ascii_case _ "application/x-symlink") with false.
  change (eq_ignore_ascii_case _ "application/x-directory") with false. cbn [orb].
  rewrite http_mode_sent. unfold HttpServer.apply_metadata_headers.
  change (header_value _ "Content-Mode") with (Some (format_http_mode (sent_mode perm))).
  change (header_value _ "Content-Ownership") with (Some "0:0").
  change (header_value _ "Content-Modified") with (Some (pretty secs : string)).
  cbn beta iota. change (HttpServer.parse_ownership "0:0") with (0, 0). cbn beta iota. rewrite http_mode_sent.
  destruct (sent_mode_perm perm) as (H1 & H2 & _). rewrite H2, H1.
  cbn [mbind option_bind]. unfold parse_u64.
  rewrite parse_unsigned_pretty by (unfold I64_MAX, U64_MAX in *; lia).
  unfold epoch_secs. destruct (Z.leb_spec secs I64_MAX); [|lia].
  unfold stored in Hst. unfold mbind, eff_bind, lift in *.
  destruct (write_file fsys name data (sent_mode perm) v) as [[?|?| |] ?]; [|done..].
  destruct (lstat_path fsys name _) as [[?|?| |] ?]; [|done..].
  destruct (HttpServer.ignore_unsupported (fs_chmod _ _ _) _) as [[?|?| |] ?]; [|done..].
  destruct (HttpServer.ignore_unsupported (fs_chown _ _ _ _) _) as [[?|?| |] ?]; [|done..].
  by rewrite Hst.
Qed.
Lemma request_ok method name headers body w response v :
  transport (mkRequest method (HttpFs.build_url base name) headers body) (hw_inner w) = (Ok response, v) →
  rp_status response = 200 →
  HttpFs.request transport base method name headers body w
  = (Ok response, mkHttpWorld v (hw_cache w) (hw_ignores w) (hw_clock w)).
Proof.
  intros Ht Hs. unfold HttpFs.request, HttpFs.raw_request, HttpFs.in_transport, zoom.
  unfold mbind, eff_bind. rewrite Ht. unfold HttpFs.response_status_result. by rewrite Hs.
Qed.

Local Abbreviation remote_fs := (HttpFs.fs transport base fuel).
#[local] Instance remote_files : FileHandle W HttpHandle :=
  HttpFiles.http_handle (HttpFs.put_file transport base).

Lemma write_run name data perm w v1 : remote_name name → name ≠ "." → blen data ≤ ISIZE_MAX →
  unix_secs (hw_clock w 0%nat) ≤ I64_MAX →
  stored name data (sent_mode perm) (unix_secs (hw_clock w 0%nat) * 1000000000) (hw_inner w) = (Ok tt, v1) →
  ∃ w', write_file remote_fs name data perm w = (Ok tt, w') ∧ hw_inner w' = v1
    ∧ hw_cache w' = drop_cached name (hw_cache w) ∧ hw_ignores w' = hw_ignores w
    ∧ (expiring w → expiring w').
Proof.
  intros Hn Hdot Hlen Hclock Hst. pose proof (unix_secs_nonneg (hw_clock w 0%nat)) as Hsecs.
  assert (∃ w', HttpFs.put_file transport base name (sent_mode perm) data w = (Ok tt, w') ∧ hw_inner w' = v1
      ∧ ∃ k, ∀ n, hw_clock w' n = hw_clock w (n + k)%nat) as (w' & E & Hv & k & Hk).
  { unfold HttpFs.put_file, HttpFs.put_node, HttpFs.now, HttpFs.insert_change_timestamp, HttpFs.invalidate_after_change,
      HttpFs.update_cache, HttpFs.now. unfold mbind, eff_bind, mret, eff_ret, modify.
    cbn beta iota. rewrite put_headers_eq.
    erewrite request_ok; [|cbn; by eapply put_answer|done]. cbn. eexists. split; [done|].
    split; [done|]. exists 2%nat. intros i. cbn. by rewrite Nat.add_comm. }
  pose proof (put_node_sends transport base _ _ _ _ _ _ _ E) as (Hi & Httl & Hc).
  rewrite (clean_path_id name) in Hc by apply Hn.
  exists w'. split_and!; [|done..|].
  2: { intros [He|He]; [left; congruence|right]. intros i. rewrite Hk, Httl. apply He. }
  unfold write_file. cbn [fs_open_file HttpFs.fs].
  unfold HttpFs.open_file. change (OpenFlags.is_write _) with true. cbn [negb].
  rewrite (clean_path_id name) by apply Hn. change (_ || _) with true. cbn iota.
  unfold mbind at 1, eff_bind at 1. cbn beta iota. by apply (write_whole (HttpFs.put_file transport base)).
Qed.

(** C17. A file written through [HttpFs] is read back through it, whatever its cache held and
    however long answers live, as long as the moments at which they expire are in the range of
    the clock (the addition panics outside): when the server stores the contents (then sets mode, owner
    and time), the write succeeds, and the read that follows gives what the served
    filesystem now reads, not an old answer. *)
Theorem http_write_read n name data perm w v1 m data' v2 v3 :
  remote_name name → name ≠ "." → hw_ignores w = [] → expiring w →
  blen data ≤ ISIZE_MAX → unix_secs (hw_clock w 0%nat) ≤ I64_MAX →
  stored name data (sent_mode perm) (unix_secs (hw_clock w 0%nat) * 1000000000) (hw_inner w) = (Ok tt, v1) →
  lstat_path fsys name v1 = (Ok m, v2) → FileMode.is_dir (m_mode m) = false →
  FileMode.is_symlink (m_mode m) = false → sendable m →
  read_file fsys fuel name v2 = (Ok data', v3) → blen data' ≤ U64_MAX → (length data' < n)%nat →
  ∃ w1 w2, write_file remote_fs name data perm w = (Ok tt, w1) ∧ hw_inner w1 = v1
    ∧ read_file remote_fs n name w1 = (Ok data', w2) ∧ hw_inner w2 = v3.
Proof.
  intros Hn Hdot Hi Hexp Hlen Hclock Hst Hl Hd Hs Hm Hr Hz Hfuel.
  destruct (write_run name data perm w v1) as (w1 & E1 & <- & Hc & Hi1 & Hexp1); [done..|].
  assert (bt_get name (hx_node (hw_cache w1)) = None) as Hfresh.
  { rewrite Hc. destruct (drop_cached_get name name (hw_cache w)) as [_ ->].
    unfold dropped, in_tree, HttpFs.outside_tree. rewrite (bool_decide_false (name ≠ name)) by naive_solver.
    cbn. by rewrite orb_true_r. }
  destruct (read_fresh n name m data' w1 v2 v3) as (w2 & E2 & Hv2); [done|done|by rewrite Hi1|by apply Hexp1|done..|].
  eauto 10.
Qed.
End Loopback.

(** ** Examples *)

#[local] Instance no_archives : TarCodec :=
  {| tar_build _ := Err (EKind NotSupported); tar_read _ := ([], None) |}.

Lemma plain_ascii s : forallb (λ c, (33 <=? c)%N && (c <? 127)%N) (chars s) = true → str_valid s → solid s.
Proof.
  intros Hs Hv. split; [done|]. apply forallb_Forall in Hs. eapply Forall_impl; [done|].
  intros c [H1%N.leb_le H2%N.ltb_lt]%andb_true_iff. unfold is_whitespace. N_cases; try done; lia.
Qed.

Definition example_base : string := "http://host:80".

Lemma example_base_web : web_base example_base.
Proof.
  right. exists "http", "host:80".
  split; [done|]. split; (split; [by apply plain_ascii|]); by vm_compute.
Qed.

Lemma example_name s : forallb (λ c, (33 <=? c)%N && (c <? 127)%N) (chars s) = true → str_valid s →
  contains_char "#" s = false → contains_char "?" s = false → valid_path s = true → remote_name s.
Proof.
  intros Hs Hv H1 H2 Hp. split; [|done]. split; [|done]. by apply solid_trimmed, plain_ascii.
Qed.

(** A served tree and a client whose cache knows nothing yet. *)
Definition served : HttpWorld MemWorld :=
  HttpFs.with_cache_ttl sample (λ _, 5000000000) 1000.

Lemma served_expiring : expiring served.
Proof. right. intros n. by apply Z.leb_le. Qed.

Lemma http_remote_stat_witness :
  ∃ w', HttpFs.stat (HttpServer.handle (MemFs.fs 1) 2) example_base Ctx.new "d/a" served
    = (Ok (mkMetadata "a" 420 2 0 0 0), w').
Proof.
  pose proof (http_remote_stat (MemFs.fs 1) 2 example_base example_base_web Ctx.new "d/a" served) as Hs.
  assert (remote_name "d/a") as Hn by (by apply example_name).
  specialize (Hs Hn eq_refl eq_refl served_expiring).
  destruct (lstat_path (MemFs.fs 1) "d/a" (hw_inner served)) as [r v] eqn:E. vm_compute in E.
  injection E as <- <-. destruct Hs as (w' & E' & _); [|done|].
  - unfold sendable, in_u32. vm_compute. split_and!; congruence.
  - exists w'. exact E'.
Defined.

Lemma http_write_read_witness :
  ∃ w1 w2, @write_file _ _ (HttpFiles.http_handle (HttpFs.put_file (HttpServer.handle (MemFs.fs 1) 2) example_base))
      (HttpFs.fs (HttpServer.handle (MemFs.fs 1) 2) example_base 2) "d/new" [x07; x08] 384 served = (Ok tt, w1)
    ∧ @read_file _ _ (HttpFiles.http_handle (HttpFs.put_file (HttpServer.handle (MemFs.fs 1) 2) example_base))
        (HttpFs.fs (HttpServer.handle (MemFs.fs 1) 2) example_base 2) 3 "d/new" w1 = (Ok [x07; x08], w2).
Proof.
  destruct (http_write_read (MemFs.fs 1) 2 example_base example_base_web 3 "d/new" [x07; x08] 384 served
    (stored (MemFs.fs 1) "d/new" [x07; x08] (sent_mode 384) 5000000000 sample).2
    (mkMetadata "new" 384 2 5000000000 0 0) [x07; x08]
    (stored (MemFs.fs 1) "d/new" [x07; x08] (sent_mode 384) 5000000000 sample).2
    (stored (MemFs.fs 1) "d/new" [x07; x08] (sent_mode 384) 5000000000 sample).2)
    as (w1 & w2 & E1 & _ & E2 & _); [by apply example_name|done|done|exact served_expiring|done|done| | |done|done| | |done|cbn; lia|].
  - by vm_compute.
  - by vm_compute.
  - unfold sendable, in_u32. vm_compute. split_and!; congruence.
  - by vm_compute.
  - eauto.
Defined.

Lemma http_changes_coherent_witness :
  ∃ w', make (HttpServer.handle (MemFs.fs 1) 2) example_base (CRemove "d/a") served = (Ok tt, w')
    ∧ bt_get "d/a" (hx_node (hw_cache w')) = None.
Proof.
  destruct (make (HttpServer.handle (MemFs.fs 1) 2) example_base (CRemove "d/a") served) as [r w'] eqn:E.
  pose proof (http_changes_coherent _ example_base (CRemove "d/a") served r w' E) as Hc.
  assert (r = Ok tt) as ->.
  { change r with ((r, w').1). rewrite <- E. by vm_compute. }
  exists w'. split; [done|]. by destruct (Hc "d/a") as [_ ->].
Defined.
