(* ===== verification/HttpListing.v ===== *)
(** * A directory read over HTTP

    Over loopback, [HttpFs.read_dir] asks for a multipart answer and gives an entry with
    the metadata of each child, in one request. *)

From stdpp Require Import base list numbers option strings pretty sorting.
From Stdlib Require Import ZArith Lia Ascii.
From S2P Require Import Prelude Strs RcText BTree Core FsTrait MemFs MemFsProps Field HttpText HttpFs Sync HttpServer TextFacts HttpTextFacts HttpProps.

Local Open Scope Z_scope.
Import HttpText.

(** ** Headers of the parts *)

Definition value_ok (s : string) : Prop :=
  trimmed s ∧ contains_char NEWLINE s = false ∧ contains_char CR s = false.

Lemma solid_value s : solid s → value_ok s.
Proof. intros Hs. split; [by apply solid_trimmed|]. by rewrite !solid_no_char. Qed.

(** The headers the server puts on a part. *)
Definition part_headers (m : Metadata) (path : string) : Headers :=
  bt_insert "Content-Location" (HttpServer.http_path path) (HttpServer.metadata_headers m (m_size m)).

Definition file_part_headers (m : Metadata) (path : string) : Headers :=
  bt_insert "Content-Range" ("bytes 0-0/" +:+ pretty (m_size m)) (bt_remove "Content-Length" (part_headers m path)).

Lemma owner_solid m : in_u32 (m_uid m) → in_u32 (m_gid m) →
  solid (pretty (m_uid m) +:+ ":" +:+ pretty (m_gid m)).
Proof.
  unfold in_u32. intros Hu Hg. apply solid_app; [apply pretty_solid; lia|].
  apply solid_app; [by apply solid_ascii, solid_empty|apply pretty_solid; lia].
Qed.

Lemma etag_solid mode len t : 0 ≤ len → 0 ≤ t → solid (HttpServer.etag_of mode len (pretty t)).
Proof.
  intros Hl Ht. unfold HttpServer.etag_of. apply solid_ascii; [done..|].
  repeat apply solid_app; try (apply pretty_solid; lia).
  - apply pretty_solid, unix_mode_bound.
  - by apply solid_ascii, solid_empty.
  - by apply solid_ascii, solid_empty.
  - by apply solid_ascii, solid_empty.
Qed.

Lemma header_ok_value k v : solid k → contains_char ":" k = false → value_ok v → header_ok (k, v).
Proof.
  intros Hk Hc (Hv & H1 & H2). split_and!; [by apply solid_trimmed|done|done|].
  repeat apply Forall_cons_2; [..|apply Forall_nil_2]; cbn; split; first [by apply solid_no_char|done].
Qed.

Lemma metadata_headers_ok m len : sendable m → 0 ≤ len →
  Forall header_ok (HttpServer.metadata_headers m len).
Proof.
  intros (Hm & Hsecs & Hu & Hg) Hlen. rewrite metadata_headers_eq.
  pose proof (unix_secs_nonneg (m_modified m)).
  pose proof (pretty_solid _ Hlen) as [H1 _]. pose proof (pretty_solid _ H) as [H2 _].
  repeat (apply Forall_cons_2; [apply header_ok_value; [by apply plain_ascii|done|apply solid_value; try done]|]);
    [..|apply Forall_nil_2].
  - apply http_mode_solid.
  - by apply owner_solid.
  - unfold HttpServer.content_type. repeat case_match; by apply plain_ascii.
  - by apply etag_solid.
Qed.

(** A path that survives in the headers of a part. *)
Definition part_name (name : string) : Prop :=
  valid_path name = true ∧ solid name ∧ contains_char DQUOTE name = false.

Lemma http_path_rooted name : valid_path name = true → HttpServer.http_path name = rooted name.
Proof.
  intros Hv. unfold HttpServer.http_path, rooted. rewrite clean_path_id by done. by case_decide.
Qed.

Lemma rooted_value name : part_name name → value_ok (HttpServer.http_path name).
Proof.
  intros (Hv & Hs & _). rewrite http_path_rooted by done. apply solid_value. unfold rooted.
  apply solid_ascii; [done..|]. case_decide; [apply solid_empty|done].
Qed.

Lemma part_headers_eq m path :
  let modified : string := pretty (unix_secs (m_modified m)) in
  part_headers m path =
    [("Content-Length", pretty (m_size m)); ("Content-Location", HttpServer.http_path path);
     ("Content-Mode", HttpServer.http_mode (m_mode m));
     ("Content-Modified", modified);
     ("Content-Ownership", pretty (m_uid m) +:+ ":" +:+ pretty (m_gid m));
     ("Content-Type", HttpServer.content_type (m_mode m));
     ("ETag", HttpServer.etag_of (m_mode m) (m_size m) modified);
     ("Last-Modified", modified)].
Proof. reflexivity. Qed.

Lemma file_part_headers_eq m path :
  let modified : string := pretty (unix_secs (m_modified m)) in
  file_part_headers m path =
    [("Content-Location", HttpServer.http_path path);
     ("Content-Mode", HttpServer.http_mode (m_mode m));
     ("Content-Modified", modified);
     ("Content-Ownership", pretty (m_uid m) +:+ ":" +:+ pretty (m_gid m));
     ("Content-Range", "bytes 0-0/" +:+ pretty (m_size m));
     ("Content-Type", HttpServer.content_type (m_mode m));
     ("ETag", HttpServer.etag_of (m_mode m) (m_size m) modified);
     ("Last-Modified", modified)].
Proof. reflexivity. Qed.

Lemma range_value n : 0 ≤ n → value_ok ("bytes 0-0/" +:+ pretty n).
Proof.
  intros Hn. destruct (pretty_solid n Hn) as [Hs Hne]. split_and!.
  - change ("bytes 0-0/" +:+ pretty n) with (String "b" "ytes 0-0/" +:+ pretty n).
    apply trimmed_app; [|by apply solid_trimmed|done|done].
    split_and!; [done|by intros c [= <-]|]. intros c Hc. vm_compute in Hc. by injection Hc as <-.
  - rewrite contains_char_app, (solid_no_char NEWLINE (pretty n)) by done. done.
  - rewrite contains_char_app, (solid_no_char CR (pretty n)) by done. done.
Qed.

Lemma part_headers_ok m path : sendable m → 0 ≤ m_size m → part_name path →
  Forall header_ok (part_headers m path) ∧ Forall header_ok (file_part_headers m path).
Proof.
  intros Hm Hz Hp. pose proof (metadata_headers_ok m (m_size m) Hm Hz) as H.
  rewrite metadata_headers_eq in H. rewrite part_headers_eq, file_part_headers_eq. cbv zeta in *.
  assert (header_ok ("Content-Location", HttpServer.http_path path)) as H1.
  { apply header_ok_value; [by apply plain_ascii|done|by apply rooted_value]. }
  assert (header_ok ("Content-Range", "bytes 0-0/" +:+ pretty (m_size m))) as H2.
  { apply header_ok_value; [by apply plain_ascii|done|by apply range_value]. }
  rewrite !Forall_cons in *. tauto.
Qed.

Lemma part_headers_wf m path : bt_wf (part_headers m path) ∧ bt_wf (file_part_headers m path).
Proof.
  unfold file_part_headers, part_headers, HttpServer.metadata_headers, HttpServer.headers_from.
  cbn [foldl fst snd].
  split; repeat first [apply bt_insert_wf|apply bt_remove_wf]; constructor.
Qed.

(** ** Reading a part *)

Lemma trim_start_rooted name : valid_path name = true →
  trim_start_char "/" (rooted name) = if decide (name = ".") then "" else name.
Proof.
  intros Hv. unfold rooted. cbn [trim_start_char]. rewrite decide_True by done.
  destruct (decide (name = ".")) as [|Hd]; [done|]. apply trim_start_char_id.
  unfold valid_path in Hv. rewrite decide_False in Hv by done.
  by destruct (is_empty_str name), (starts_with_char "/" name).
Qed.

Lemma normalize_rooted base name : web_base base → part_name name →
  HttpFs.normalize_multipart_path base (rooted name) = name.
Proof.
  intros Hb (Hv & Hs & Hq). unfold HttpFs.normalize_multipart_path.
  rewrite trim_id by (by apply trimmed_rooted, solid_trimmed).
  assert (default (rooted name) (strip_prefix base (rooted name)) = rooted name) as ->.
  { destruct Hb as [->|(scheme & host & -> & (_ & Hsl & _) & _)]; [done|].
    destruct (strip_prefix _ _) as [r|] eqn:E; [|done]. apply strip_prefix_Some in E.
    unfold rooted in E. destruct scheme as [|a s]; cbn in E; [done|]. injection E as <- _.
    cbn in Hsl. by rewrite bool_decide_true in Hsl. }
  destruct (split_once_str "://" (rooted name)) as [[l r]|] eqn:E.
  { apply split_once_str_Some in E. exfalso. apply (rooted_no_double name (l +:+ ":") r Hv).
    rewrite E. by rewrite <- app_str_assoc. }
  assert (trim_char DQUOTE (rooted name) = rooted name) as ->.
  { unfold trim_char. rewrite trim_start_char_id by done. apply trim_end_char_id.
    by apply rooted_no_char. }
  rewrite trim_start_rooted by done. destruct (decide (name = ".")) as [->|Hd]; [done|].
  destruct (is_empty_str name) eqn:He; [by apply is_empty_str_true in He; subst|].
  by apply clean_path_id.
Qed.

Lemma part_path base m path : web_base base → part_name path →
  HttpFs.multipart_part_path base (part_headers m path) = Some path
  ∧ HttpFs.multipart_part_path base (file_part_headers m path) = Some path.
Proof.
  intros Hb Hp. rewrite part_headers_eq, file_part_headers_eq. unfold HttpFs.multipart_part_path.
  change (header_value _ "Content-Location") with (Some (HttpServer.http_path path)).
  change (header_value (_ :: _) "Content-Location") with (Some (HttpServer.http_path path)).
  rewrite http_path_rooted by apply Hp. by rewrite normalize_rooted.
Qed.

(** Metadata that can be sent, its size included. *)
Definition sized (m : Metadata) : Prop := sendable m ∧ 0 ≤ m_size m ≤ U64_MAX.

Lemma parse_size_range n : 0 ≤ n ≤ U64_MAX → parse_http_content_range_size ("bytes 0-0/" +:+ pretty n) = Some n.
Proof.
  intros Hn. unfold parse_http_content_range_size.
  change ("bytes 0-0/" +:+ pretty n) with ("bytes 0-0" +:+ String "/" (pretty n)).
  rewrite (proj2 (split_once_Some "/" _ "bytes 0-0" (pretty n))) by done.
  rewrite trim_id by (apply solid_trimmed, pretty_solid; lia). unfold parse_u64.
  by apply parse_unsigned_pretty.
Qed.

Lemma parse_part_metadata name m path n : sized m →
  parse_http_metadata name (part_headers m path) n = Ok (arriving name m (m_size m))
  ∧ parse_http_metadata name (file_part_headers m path) n = Ok (arriving name m (m_size m)).
Proof.
  intros [Hs Hz]. rewrite <- (parse_metadata_headers name m (m_size m) n Hs Hz).
  split; [done|].
  assert (header_size (file_part_headers m path) n = m_size m) as H1.
  { rewrite file_part_headers_eq. unfold header_size.
    change (header_value _ "Content-Length") with (@None string).
    change (header_value (_ :: _) "Content-Range") with (Some ("bytes 0-0/" +:+ pretty (m_size m))).
    cbn [mbind option_bind]. by rewrite parse_size_range. }
  assert (header_size (HttpServer.metadata_headers m (m_size m)) n = m_size m) as H2.
  { rewrite metadata_headers_eq. unfold header_size.
    change (header_value _ "Content-Length") with (Some (pretty (m_size m) : string)).
    cbn [mbind option_bind]. unfold parse_u64. by rewrite parse_unsigned_pretty. }
  unfold parse_http_metadata. rewrite H1, H2. reflexivity.
Qed.

(** ** What the server answers *)

Section Listing.
Context {V H : Type} `{!FileHandle V H} `{!TarCodec} (fsys : FileSystem V H) (fuel : nat).
Context (base : string) (Hbase : web_base base).
Local Abbreviation transport := (HttpServer.handle fsys fuel).
Local Abbreviation B := HttpServer.MULTIPART_BOUNDARY.

(** The tree as the server sees it, which reading does not change: the directory [name]
    with its entries, and each child. *)
Context (name : string) (v : V) (m : Metadata) (es : list DirEntry) (kid : string → Metadata).
Context (under : string → list DirEntry).

Definition child (e : DirEntry) : string := HttpServer.http_child_path name (d_name e).

Definition listing_bytes (l : list DirEntry) : list byte :=
  mjoin ((λ e, HttpServer.text (HttpServer.listing_line e)) <$> l).

Definition boundless (bs : list byte) : Prop := position (delimiter B) bs = None.

Record readable : Prop := {
  rd_name : part_name name;
  rd_query : contains_char "#" name = false ∧ contains_char "?" name = false;
  rd_stat : lstat_path fsys name v = (Ok m, v);
  rd_dir : FileMode.is_dir (m_mode m) = true;
  rd_sized : sized m;
  rd_entries : read_dir_path fsys name v = (Ok es, v);
  rd_sorted : StronglySorted str_lt (d_name <$> es);
  rd_boundless : boundless (listing_bytes es);
  rd_kids : Forall (λ e, listable (d_name e) ∧ part_name (child e)
    ∧ lstat_path fsys (child e) v = (Ok (kid (d_name e)), v) ∧ sized (kid (d_name e))
    ∧ (FileMode.is_dir (m_mode (kid (d_name e))) = true →
        read_dir_path fsys (child e) v = (Ok (under (d_name e)), v)
        ∧ boundless (listing_bytes (under (d_name e))))) es
}.

Context (Hrd : readable).

Definition root_part : HttpMultipartPart := mkPart (part_headers m name) (listing_bytes es).

Definition kid_part (e : DirEntry) : HttpMultipartPart :=
  if FileMode.is_dir (m_mode (kid (d_name e)))
  then mkPart (part_headers (kid (d_name e)) (child e)) (listing_bytes (under (d_name e)))
  else mkPart (file_part_headers (kid (d_name e)) (child e)) [].

Definition body : list byte :=
  foldl (λ body p, HttpServer.append_multipart_part body B (mp_headers p) (mp_body p)) []
    (root_part :: (kid_part <$> es)) ++ HttpServer.text ("--" +:+ B +:+ "--") ++ CRLF.

Lemma child_parts l acc : (∀ e, e ∈ l → e ∈ es) →
  fold_eff (HttpServer.child_part fsys name) acc l v
  = (Ok (foldl (λ body p, HttpServer.append_multipart_part body B (mp_headers p) (mp_body p)) acc
      (kid_part <$> l)), v).
Proof.
  destruct Hrd. rewrite Forall_forall in rd_kids0.
  revert acc. induction l as [|e l IH]; intros acc Hl; [done|].
  destruct (rd_kids0 e) as (_ & _ & Hstat & _ & Hsub); [apply Hl; by left|].
  cbn [fold_eff fmap list_fmap foldl]. unfold mbind, eff_bind.
  assert (HttpServer.child_part fsys name acc e v
    = (Ok (HttpServer.append_multipart_part acc B (mp_headers (kid_part e)) (mp_body (kid_part e))), v)) as ->.
  - unfold HttpServer.child_part. fold (child e). unfold mbind, eff_bind. rewrite Hstat. unfold kid_part, Meta.is_dir.
    destruct (FileMode.is_dir (m_mode (kid (d_name e)))); [|done].
    destruct (Hsub eq_refl) as [Hls _]. unfold HttpServer.directory_listing.
    unfold mbind, eff_bind. by rewrite Hls.
  - apply IH. intros x Hx. apply Hl. by right.
Qed.

Lemma listing_answer :
  transport (mkRequest GET (HttpFs.build_url base name) (bt_insert "Accept" "multipart/mixed" []) []) v
  = (Ok (mkResponse 200 [("Content-Length", pretty (blen body));
        ("Content-Type", "multipart/mixed; boundary=" +:+ B)] body), v).
Proof.
  destruct Hrd. apply handle_ok. unfold HttpServer.dispatch_request. cbn [rq_url rq_method].
  rewrite target_of_url; [|done|split; [by apply solid_trimmed, rd_name0|done]|apply rd_name0].
  cbn [HttpServer.rt_path rq_headers]. unfold HttpServer.handle_get, Meta.is_dir, mbind, eff_bind.
  rewrite rd_stat0, rd_dir0. change (HttpServer.accepts_multipart _) with true. cbn [andb].
  unfold HttpServer.multipart_directory_response, HttpServer.directory_listing, mbind, eff_bind.
  rewrite rd_stat0, rd_entries0. cbn beta iota.
  rewrite rd_entries0. unfold mret, eff_ret. cbn beta iota. rewrite child_parts by done. done.
Qed.

(** ** What the client reads *)

Lemma parts_read : parse_http_multipart body B = Ok (root_part :: (kid_part <$> es)).
Proof.
  destruct Hrd. unfold body. apply multipart_roundtrip; [done|]. constructor.
  - split_and!; [done|apply part_headers_wf| |exact rd_boundless0].
    apply part_headers_ok; [apply rd_sized0|destruct rd_sized0; lia|done].
  - apply Forall_fmap. eapply Forall_impl; [exact rd_kids0|]. cbn.
    intros e (_ & Hp & _ & [Hs Hz] & Hsub). unfold kid_part.
    destruct (part_headers_ok (kid (d_name e)) (child e) Hs ltac:(lia) Hp) as [H1 H2].
    destruct (part_headers_wf (kid (d_name e)) (child e)) as [H3 H4].
    destruct (FileMode.is_dir (m_mode (kid (d_name e)))); split_and!; try done. by apply Hsub.
Qed.

(** The entry of a child. *)
Definition arriving_entry (e : DirEntry) : DirEntry :=
  mkDirEntry (d_name e) (arriving (child e) (kid (d_name e)) (m_size (kid (d_name e)))).

Lemma child_parts_of e : part_name name → good_part (d_name e) → 
  child e ≠ name ∧ parent_path (child e) = name ∧ base_name (child e) = d_name e.
Proof.
  intros ([ps [Hn Hps]]%valid_as_parts & _ & _) Hg.
  assert (child e = of_parts (ps ++ [d_name e]) ∧ Forall good_part (ps ++ [d_name e])) as [E Hall].
  { assert (Forall good_part (ps ++ [d_name e])) as Hall by (apply Forall_app; split; [done|by apply Forall_singleton]).
    split; [|done]. pose proof (of_parts_snoc_clean ps (d_name e) Hps Hg) as Hsn.
    unfold child, HttpServer.http_child_path. rewrite Hn.
    destruct (decide (ps = [])) as [->|Hne].
    - rewrite decide_True by done. rewrite <- Hsn. by apply clean_path_of_parts.
    - rewrite decide_False, <- Hsn by (destruct ps; [done|by apply join_good_not_dot]).
      by apply clean_path_of_parts. }
  rewrite E, parent_of_parts, base_name_of_parts by done. split_and!; [|done..].
  rewrite Hn. intros Heq%(f_equal parts_of). rewrite !parts_of_of_parts in Heq by done.
  apply (f_equal length) in Heq. rewrite length_app in Heq. cbn in Heq. lia.
Qed.

Lemma collect_kids l root entries : (∀ e, e ∈ l → e ∈ es) →
  HttpFs.collect_parts base name (root, entries) (kid_part <$> l)
  = Ok (root, foldl (λ m e, bt_insert (d_name e) (arriving_entry e) m) entries l).
Proof.
  destruct Hrd. rewrite Forall_forall in rd_kids0.
  revert entries. induction l as [|e l IH]; intros entries Hl; [done|].
  destruct (rd_kids0 e) as ([_ Hg] & Hp & _ & Hsz & _); [apply Hl; by left|].
  destruct (child_parts_of e rd_name0 Hg) as (Hne & Hpar & Hbase').
  cbn [fmap list_fmap HttpFs.collect_parts foldl].
  assert (HttpFs.collect_part base name (root, entries) (kid_part e)
    = Ok (root, bt_insert (d_name e) (arriving_entry e) entries)) as ->.
  - unfold HttpFs.collect_part, kid_part.
    destruct (part_path base (kid (d_name e)) (child e) Hbase Hp) as [P1 P2].
    destruct (parse_part_metadata (child e) (kid (d_name e)) (child e)
      (blen (listing_bytes (under (d_name e)))) Hsz) as [M1 _].
    destruct (parse_part_metadata (child e) (kid (d_name e)) (child e) (blen []) Hsz) as [_ M2].
    destruct (FileMode.is_dir (m_mode (kid (d_name e)))); cbn [mp_headers mp_body]; rewrite ?P1, ?P2, ?M1, ?M2;
      unfold mbind, outcome_bind; rewrite decide_False, decide_True, Hbase' by done;
      do 3 f_equal; unfold arriving_entry, Meta.set_name, arriving; by rewrite Hbase'.
  - apply IH. intros x Hx. apply Hl. by right.
Qed.

Definition entry_map (f : DirEntry → DirEntry) (l : list DirEntry) : btree string DirEntry :=
  (λ e, (d_name e, f e)) <$> l.

(** Entries put over entries of the same names. *)
Lemma put_entries f g : 
  foldl (λ m e, bt_insert (d_name e) (f e) m) (entry_map g es) es = entry_map f es.
Proof.
  destruct Hrd. clear -rd_sorted0.
  assert (∀ init todo, es = init ++ todo →
    foldl (λ m e, bt_insert (d_name e) (f e) m) (entry_map f init ++ entry_map g todo) todo
    = entry_map f es) as Hgen; [|by apply (Hgen [] es)].
  intros init todo. revert init. induction todo as [|e todo IH]; intros init Heq.
  { cbn. by rewrite !app_nil_r in *; subst. }
  cbn [foldl].
  assert (bt_insert (d_name e) (f e) (entry_map f init ++ entry_map g (e :: todo))
    = entry_map f (init ++ [e]) ++ entry_map g todo) as ->; [|apply IH; by rewrite <- app_assoc].
  rewrite Heq in rd_sorted0. rewrite fmap_app in rd_sorted0.
  apply StronglySorted_app in rd_sorted0 as (Hlt & _ & _).
  assert (∀ x, x ∈ init → str_lt (d_name x) (d_name e)) as Hinit.
  { intros x Hx. apply Hlt; [by apply list_elem_of_fmap_2|by left]. }
  clear -Hinit. induction init as [|x init IH].
  - cbn. by rewrite decide_True.
  - assert (str_lt (d_name x) (d_name e)) as Hx by (apply Hinit; by left).
    cbn. rewrite !decide_False.
    + f_equal. apply IH. intros y Hy. apply Hinit. by right.
    + intros Hk. by apply (irreflexivity str_lt (d_name e)); etrans.
    + intros Hk. rewrite Hk in Hx. by apply (irreflexivity str_lt (d_name x)).
Qed.

Lemma build_entries f : foldl (λ m e, bt_insert (d_name e) (f e) m) [] es = entry_map f es.
Proof.
  destruct Hrd. rewrite <- (bt_build (entry_map f es)).
  - unfold entry_map at 1. by rewrite foldl_fmap.
  - unfold bt_wf, bt_keys, entry_map. by rewrite <- list_fmap_compose.
Qed.

Lemma node_read :
  HttpFs.parse_multipart_node base name B body
  = Ok (mkHttpNode (arriving name m (m_size m)) (listing_bytes es) (arriving_entry <$> es)).
Proof.
  pose proof parts_read as Hparts. destruct Hrd. unfold HttpFs.parse_multipart_node.
  rewrite Hparts. unfold mbind, outcome_bind. rewrite (clean_path_id name) by apply rd_name0.
  cbn [HttpFs.collect_parts].
  assert (HttpFs.collect_part base name (None, []) root_part
    = Ok (Some (arriving name m (m_size m), listing_bytes es),
        entry_map (λ e, listed_entry (d_name e) (wire_mode (m_mode (d_metadata e)))) es)) as ->.
  { unfold HttpFs.collect_part, root_part. cbn [mp_headers mp_body].
    destruct (part_path base m name Hbase rd_name0) as [-> _].
    destruct (parse_part_metadata name m name (blen (listing_bytes es)) rd_sized0) as [-> _].
    unfold mbind, outcome_bind. rewrite decide_True by done. do 2 f_equal.
    unfold listing_bytes. rewrite parse_directory_listing.
    - rewrite foldl_fmap. cbn [d_name listed_entry]. apply build_entries.
    - eapply Forall_impl; [exact rd_kids0|]. by intros e [? _]. }
  unfold mbind, outcome_bind. rewrite collect_kids by done. rewrite put_entries. do 2 f_equal.
  unfold bt_values, entry_map. by rewrite <- list_fmap_compose.
Qed.

(** The server with a record of the requests it was sent. *)
Definition recorded (rq : HttpRequest) : M (list HttpRequest * V) HttpResponse := λ '(sent, v),
  let '(r, v) := transport rq v in (r, (sent ++ [rq], v)).

(** C18. A directory read over HTTP: one request, for a multipart answer, gives every entry of
    the served directory, each with what [lstat] says of the child, as far as the wire carries
    it: entry names, types, sizes (of files from a range that is never sent), owners and times
    to the second.  It needs ([readable]) that the path of the directory and those of its
    children have no whitespace or double quotes, the directory's no number sign or
    question mark, that no listing holds the boundary of the parts, and that reading does not
    change the served tree; and that the directory is not in the cache, with the moments of
    expiry in the range of the clock. *)
Theorem http_remote_read_dir ctx w sent : hw_inner w = (sent, v) →
  bt_get name (hx_node (hw_cache w)) = None → hw_ignores w = [] → expiring w →
  ∃ w', HttpFs.read_dir recorded base ctx name w = (Ok (sort_entries (arriving_entry <$> es)), w')
    ∧ hw_inner w' = (sent ++ [mkRequest GET (HttpFs.build_url base name)
                                (bt_insert "Accept" "multipart/mixed" []) []], v).
Proof.
  intros Hin Hc Hi Hexp. pose proof listing_answer as Ha. pose proof node_read as Hnode. destruct Hrd.
  unfold HttpFs.read_dir. rewrite (proj1 rd_name0). cbn [negb].
  rewrite (clean_path_id name) by apply rd_name0.
  unfold HttpFs.cached, HttpFs.cache_lookup, HttpFs.now, mbind, eff_bind, gets, mret, eff_ret.
  cbn beta iota. cbn [hw_cache hw_clock]. rewrite Hc. cbn beta iota.
  set (w1 := mkHttpWorld _ _ _ _).
  assert (expiring w1) as Hexp1 by (destruct Hexp as [|Hexp]; [by left|right; intros i; apply Hexp]).
  edestruct (load_fresh recorded base HttpFs.set_node hx_node "open" GET
    " returned HTTP 304 without a cached node" (HttpFs.parse_node base name) name
    (bt_insert "Accept" "multipart/mixed" []) w1) as (w' & E & Hv & _);
    [done|done|done|unfold recorded; change (hw_inner w1) with (hw_inner w); rewrite Hin, Ha; reflexivity|done|].
  unfold HttpFs.load_node_with_headers. rewrite E.
  change (HttpFs.response_status_result name ?r) with (Ok (E:=Error) r).
  unfold mbind, outcome_bind. cbn beta iota. unfold HttpFs.parse_node.
  change (multipart_boundary _) with (Some B). cbn [rp_body]. rewrite Hnode. cbn beta iota.
  unfold Meta.is_dir. cbn [hn_metadata arriving m_mode hn_entries].
  rewrite wire_mode_dir, rd_dir0. cbn. by exists w'.
Qed.
End Listing.

(** ** Example *)

#[local] Instance no_tars : TarCodec :=
  {| tar_build _ := Err (EKind NotSupported); tar_read _ := ([], None) |}.

Definition file_meta (name : string) (size : Z) : Metadata := mkMetadata name 420 size 0 0 0.

Definition sample_kid (n : string) : Metadata := file_meta n (if decide (n = "a") then 2 else 1).

Definition sample_entries : list DirEntry :=
  [mkDirEntry "a" (file_meta "a" 2); mkDirEntry "b" (file_meta "b" 1)].

Lemma example_part s : forallb (λ c, (33 <=? c)%N && (c <? 127)%N) (chars s) = true → str_valid s →
  contains_char DQUOTE s = false → valid_path s = true → part_name s.
Proof. intros Hs Hv H1 Hp. split; [done|]. split; [|done]. by apply plain_ascii. Qed.

Lemma sample_readable :
  readable (MemFs.fs 1) "d" sample (mkMetadata "d" 2147484141 4 0 0 0) sample_entries sample_kid (λ _, []).
Proof.
  split.
  - by apply example_part.
  - done.
  - by vm_compute.
  - done.
  - unfold sized, sendable, in_u32. vm_compute. split_and!; congruence.
  - by vm_compute.
  - repeat constructor; by vm_compute.
  - by vm_compute.
  - repeat apply Forall_cons_2; [| |apply Forall_nil_2].
    + split_and!; [split; [by apply plain_ascii|by vm_compute]|by apply example_part|by vm_compute| |done].
      unfold sized, sendable, in_u32. vm_compute. split_and!; congruence.
    + split_and!; [split; [by apply plain_ascii|by vm_compute]|by apply example_part|by vm_compute| |done].
      unfold sized, sendable, in_u32. vm_compute. split_and!; congruence.
Qed.

Definition recording : HttpWorld (list HttpRequest * MemWorld) :=
  HttpFs.with_cache_ttl ([], sample) (λ _, 5000000000) 1000.

Lemma http_remote_read_dir_witness :
  ∃ w', HttpFs.read_dir (recorded (MemFs.fs 1) 2) example_base Ctx.new "d" recording
      = (Ok sample_entries, w')
    ∧ length (hw_inner w').1 = 1%nat.
Proof.
  destruct (http_remote_read_dir (MemFs.fs 1) 2 example_base example_base_web "d" sample
    (mkMetadata "d" 2147484141 4 0 0 0) sample_entries sample_kid (λ _, []) sample_readable
    Ctx.new recording [] eq_refl eq_refl eq_refl) as (w' & E & Hs).
  { right. intros n. by apply Z.leb_le. }
  exists w'. rewrite Hs. by split; [exact E|].
Defined.

(** ** What the HTTP filesystem does not carry

    Names and changes that [HttpFs] and its server lose between them, each shown on the
    definitions of [HttpFs] and [HttpServer]. *)

#[local] Instance nothing_archived : TarCodec :=
  {| tar_build _ := Err (EKind NotSupported); tar_read _ := ([], None) |}.

Section Served.
Local Abbreviation server := (HttpServer.handle (MemFs.fs 1) 2).
Local Abbreviation client := (HttpFs.fs server example_base 2).
#[local] Instance client_files : FileHandle (HttpWorld MemWorld) HttpHandle :=
  HttpFiles.http_handle (HttpFs.put_file server example_base).

(** Names are not quoted in a URL: what follows a number sign or a question mark is cut, so
    removing ["d/a#b"] removes ["d/a"]. *)
Lemma http_name_cut :
  HttpServer.parse_request_target (HttpFs.build_url example_base "d/a#b") = HttpServer.mkTarget "d/a" false
  ∧ (fs_remove client "d/a#b" served).1 = Ok tt
  ∧ (lstat_path (MemFs.fs 1) "d/a" (hw_inner (fs_remove client "d/a#b" served).2)).1
    = Err (EPath "stat" "d/a" NotFound).
Proof. split_and!; by vm_compute. Qed.

(** Appending through [HttpFs] replaces the contents: a file opened for writing with
    [CREATE] starts empty even when [APPEND] is given without [TRUNC]. *)
Lemma http_append_truncates :
  (append_file client "d/a" [x09] served).1 = Ok tt
  ∧ (read_file (MemFs.fs 1) 2 "d/a" sample).1 = Ok [x01; x02]
  ∧ (read_file (MemFs.fs 1) 2 "d/a" (hw_inner (append_file client "d/a" [x09] served).2)).1 = Ok [x09].
Proof. split_and!; by vm_compute. Qed.
End Served.

(** A line of a listing is split at whitespace, so a name with a space arrives cut, its
    second word read as the mode. *)
Lemma http_listing_cut :
  parse_http_directory (HttpServer.text (HttpServer.listing_line (mkDirEntry "a 16877" (file_meta "a 16877" 3))))
  = [listed_entry "a" (Z.lor FileMode.DIR 493)].
Proof. by vm_compute. Qed.

(** The path of a part is stripped of double quotes, so a name that ends in one loses it. *)
Lemma http_quote_cut :
  HttpFs.normalize_multipart_path example_base (HttpServer.http_path (String "a" (String DQUOTE ""))) = "a".
Proof. by vm_compute. Qed.

(** A file whose name starts with the boundary ends the part that lists it, and the rest of
    the answer is malformed. *)
Lemma http_boundary_name :
  let line := HttpServer.text (HttpServer.listing_line
    (mkDirEntry "--star9-httpfs-boundary" (file_meta "--star9-httpfs-boundary" 0))) in
  let first := HttpServer.text (HttpServer.listing_line (mkDirEntry "a" (file_meta "a" 0))) in
  parse_http_multipart
    (HttpServer.append_multipart_part [] HttpServer.MULTIPART_BOUNDARY [("K", "v")] (first ++ line)
      ++ HttpServer.text "--star9-httpfs-boundary--") HttpServer.MULTIPART_BOUNDARY
  = Err (EMessage "multipart body missing newline").
Proof. by vm_compute. Qed.

(** The ETag is the mode, the length and the second of the last change: two states of a
    file that agree on these are the same to a conditional request, whatever they hold. *)
Lemma http_etag_misses_changes m1 m2 len :
  m_mode m1 = m_mode m2 → unix_secs (m_modified m1) = unix_secs (m_modified m2) → 0 ≤ len →
  HttpServer.conditional_not_modified
    (bt_insert "If-None-Match" (HttpServer.etag_of (m_mode m1) len (pretty (unix_secs (m_modified m1)))) [])
    (HttpServer.metadata_headers m2 len) = true.
Proof.
  intros Hm Ht Hlen. rewrite metadata_headers_eq. unfold HttpServer.conditional_not_modified.
  rewrite <- Hm, <- Ht. set (etag := HttpServer.etag_of _ _ _).
  change (header_value (bt_insert _ etag []) "If-None-Match") with (Some etag).
  change (header_value _ "ETag") with (Some etag). cbn beta iota.
  assert (solid etag) as Hs by (apply etag_solid; [done|apply unix_secs_nonneg]).
  assert (contains_char "," etag = false) as Hc.
  { unfold etag, HttpServer.etag_of. cbn [contains_char]. rewrite bool_decide_false by done. cbn [orb].
    rewrite !contains_char_app, !pretty_no_char; try done; [apply unix_secs_nonneg|apply unix_mode_bound]. }
  rewrite split_on_no_char by done. cbn [fmap list_fmap existsb]. rewrite trim_id by (by apply solid_trimmed).
  rewrite (bool_decide_true (etag = etag)) by done. by rewrite orb_true_r.
Qed.
