(* ===== verification/R2.v ===== *)
(** * star9-fs: a filesystem over an object store

    Models [R2Fs], [ObjectStore], [InMemoryObjectStore] and [Object] of
    [crates/star9-fs/src/lib.rs].  A file is an object under its path, a directory an
    object whose body lists its children; the listing of a parent is changed by
    compare-and-swap, tried three times.

    The store is an interface ([ObjectStore]); [in_memory] is the store of the source, and
    [shared] the same store when other threads use it too: [sh_others] are their changes,
    one of which happens before each operation.  The times that [r2_metadata] takes from
    [current_time()] are those of [rw_clock].  [open] and [stat] follow symbolic links with
    [fuel]. *)

From stdpp Require Import base list numbers option strings pretty sorting.
From Stdlib Require Import ZArith Lia Ascii.
From S2P Require Import Prelude Strs RcText BTree Core FsTrait Field HttpText.

Local Open Scope Z_scope.
Import HttpText.

Record Object := mkObject { ob_metadata : Headers; ob_body : list byte }.

#[global] Instance Object_eq_dec : EqDecision Object.
Proof. solve_decision. Defined.

Class ObjectStore (S : Type) := {
  os_get : string → M S (option Object);
  os_put : string → Object → M S unit;
  os_compare_and_swap : string → option Object → option Object → M S bool;
  os_delete : string → M S unit;
  os_list_prefix : string → M S (list (string * Object))
}.

Abbreviation Objects := (btree string Object).

(** ** [InMemoryObjectStore] *)

Module InMemoryObjectStore.

Definition get (key : string) : M Objects (option Object) := gets (bt_get key).

Definition put (key : string) (object : Object) : M Objects unit := modify (bt_insert key object).

Definition compare_and_swap (key : string) (expected new : option Object) : M Objects bool := λ objects,
  if decide (bt_get key objects ≠ expected) then (Ok false, objects)
  else (Ok true, match new with
    | Some object => bt_insert key object objects
    | None => bt_remove key objects
    end).

Definition delete (key : string) : M Objects unit := modify (bt_remove key).

Definition list_prefix (prefix : string) : M Objects (list (string * Object)) :=
  gets (λ objects, filter (λ kv, starts_with prefix kv.1 = true) objects).

#[global] Instance in_memory : ObjectStore Objects := {|
  os_get := get;
  os_put := put;
  os_compare_and_swap := compare_and_swap;
  os_delete := delete;
  os_list_prefix := list_prefix
|}.
End InMemoryObjectStore.

(** The store between other threads: each operation is atomic, and a change of the others
    comes before it. *)
Record Shared := mkShared { sh_objects : Objects; sh_others : nat → Objects → Objects }.

Definition after_others {A} (m : M Objects A) : M Shared A := λ s,
  let '(r, objects) := m (sh_others s 0%nat (sh_objects s)) in
  (r, mkShared objects (λ n, sh_others s (S n))).

#[global] Instance shared : ObjectStore Shared := {|
  os_get key := after_others (os_get key);
  os_put key object := after_others (os_put key object);
  os_compare_and_swap key expected new := after_others (os_compare_and_swap key expected new);
  os_delete key := after_others (os_delete key);
  os_list_prefix prefix := after_others (os_list_prefix prefix)
|}.

(** ** Objects and listings *)

Module R2.

Record World (S : Type) := mkWorld { rw_store : S; rw_clock : nat → Z }.
Arguments mkWorld {S}. Arguments rw_store {S}. Arguments rw_clock {S}.

Record R2Node := mkNode { rn_metadata : Metadata; rn_body : list byte; rn_entries : list DirEntry }.

Definition normalize_r2_base_path (base_path : string) : string :=
  let trimmed := trim_char "/" base_path in
  if is_empty_str trimmed || bool_decide (trimmed = ".") then "" else clean_path trimmed.

Definition listing_entry (line : string) : option (string * Z) :=
  match split_whitespace_str line with
  | name :: mode :: _ => Some (name, parse_http_mode mode)
  | _ => None
  end.

Definition parse_r2_listing (body : list byte) : btree string Z :=
  foldl (λ m kv, bt_insert kv.1 kv.2 m) [] (omap listing_entry (str_lines (from_utf8_lossy body))).

(** [entries.sort_by(|a, b| a.0.cmp(&b.0))], which is stable *)
Definition name_le (a b : string * Z) : Prop := ¬ str_lt b.1 a.1.
#[global] Instance name_le_dec a b : Decision (name_le a b).
Proof. unfold name_le, str_lt. apply _. Defined.

Definition format_r2_listing (entries : list (string * Z)) : string :=
  foldr (λ e rest, e.1 +:+ " " +:+ format_http_mode e.2 +:+ String NEWLINE "" +:+ rest) ""
    (merge_sort name_le entries).

Definition key (base name : string) : string :=
  let path := clean_path name in
  if decide (base = "") then (if decide (path = ".") then "/" else "/" +:+ path)
  else if decide (path = ".") then "/" +:+ base else "/" +:+ base +:+ "/" +:+ path.

Definition node_entry (e : string * Z) : DirEntry := listed_entry e.1 e.2.

Definition parse_object (name : string) (object : Object) : Result R2Node :=
  metadata ← parse_http_metadata name (ob_metadata object) (blen (ob_body object));
  Ok (mkNode metadata (ob_body object)
    (if Meta.is_dir metadata then node_entry <$> parse_r2_listing (ob_body object) else [])).

(** The path that a symbolic link at [name] leads to. *)
Definition resolved (name target : string) : string :=
  if starts_with_char "/" target then clean_path (trim_start_char "/" target)
  else clean_path (parent_path name +:+ "/" +:+ target).

Definition COMPARE_AND_SWAP_RETRIES : nat := 3.

Section Fs.
Context {S : Type} `{!ObjectStore S} (base : string) (fuel : nat).
Local Abbreviation W := (World S).

Definition store {A} (m : M S A) : M W A := zoom rw_store (λ s w, mkWorld s (rw_clock w)) m.

Definition now : M W Z := λ w,
  (Ok (rw_clock w 0%nat), mkWorld (rw_store w) (λ n, rw_clock w (Datatypes.S n))).

Definition r2_metadata (content_type : string) (mode : Z) (len : Z) : M W Headers :=
  t ← now;
  mret (bt_insert "Content-Ownership" "0:0" (bt_insert "Content-Modified" (pretty (unix_secs t))
    (bt_insert "Content-Length" (pretty len) (bt_insert "Content-Mode" (format_http_mode mode)
      (bt_insert "Content-Type" content_type []))))).

Definition directory_listing_object (entries : list (string * Z)) : M W Object :=
  metadata ← r2_metadata "application/x-directory" (dir_mode 493) 0;
  mret (mkObject metadata (bytes_of (format_r2_listing entries))).

Definition get_object (name : string) : M W Object :=
  object ← store (os_get (key base name));
  ok_or object (EPath "r2fs" name NotFound).

Definition put_directory_object (name : string) (entries : list (string * Z)) : M W unit :=
  object ← directory_listing_object entries;
  store (os_put (key base name) object).

Definition ensure_root : M W unit :=
  root ← store (os_get (key base "."));
  match root with Some _ => mret tt | None => put_directory_object "." [] end.

(** The loop of [update_parent_listing]. *)
Fixpoint update_listing (retries : nat) (parent child : string) (child_mode : option Z) : M W unit :=
  match retries with
  | O => throw (EMessage ("r2fs compare-and-swap conflict for " +:+ parent))
  | Datatypes.S retries =>
      found ← store (os_get (key base parent));
      parent_object ← match found with
        | Some object => mret object
        | None =>
            if decide (parent = ".") then directory_listing_object []
            else throw (EPath "r2fs" parent NotFound)
        end;
      let entries := parse_r2_listing (ob_body parent_object) in
      let entries := match child_mode with
        | Some mode => bt_insert child mode entries
        | None => bt_remove child entries
        end in
      next ← directory_listing_object entries;
      swapped ← store (os_compare_and_swap (key base parent) (Some parent_object) (Some next));
      if (swapped : bool) then mret tt else update_listing retries parent child child_mode
  end.

Definition update_parent_listing (name : string) (child_mode : option Z) : M W unit :=
  let parent := parent_path name in
  let child := base_name name in
  if bool_decide (child = ".") || is_empty_str child then mret tt
  else update_listing COMPARE_AND_SWAP_RETRIES parent child child_mode.

Definition put_file_object (name : string) (mode : Z) (body : list byte) : M W unit :=
  metadata ← r2_metadata "application/octet-stream" mode (blen body);
  store (os_put (key base name) (mkObject metadata body)) ;;
  update_parent_listing name (Some mode).

Definition load (name : string) : M W R2Node :=
  object ← get_object name;
  lift (parse_object name object).

(** ** [impl FileSystem for R2Fs] *)

#[local] Instance r2_files : FileHandle W HttpHandle := HttpFiles.http_handle put_file_object.

(** Both [open] and [stat] follow a symbolic link by calling themselves. *)
Fixpoint follow (fuel : nat) (op : string) (ctx : FsContext) (name : string) : M W R2Node :=
  match fuel with
  | O => no_fuel
  | Datatypes.S fuel' =>
      if negb (valid_path name) then throw (EPath op name NotFound)
      else
        let name := clean_path name in
        node ← load name;
        if follow_symlinks ctx && FileMode.is_symlink (m_mode (rn_metadata node)) then
          follow fuel' op ctx (resolved name (from_utf8_lossy (rn_body node)))
        else mret node
  end.

Definition open (ctx : FsContext) (name : string) : M W HttpHandle :=
  node ← follow fuel "open" ctx name;
  mret (if Meta.is_dir (rn_metadata node)
        then directory_file (rn_metadata node) (rn_entries node)
        else BoxRead (HttpFiles.read_file_of (rn_metadata node) (rn_body node))).

Definition stat (ctx : FsContext) (name : string) : M W Metadata :=
  node ← follow fuel "stat" ctx name; mret (rn_metadata node).

(** [read_file(self, &name).unwrap_or_default()] *)
Definition old_contents (name : string) : M W (list byte) :=
  r ← attempt (read_file (default_fs open stat (λ _, unsupported) (λ _ _, unsupported)) fuel name);
  match r with
  | Ok data => mret data
  | Err _ => mret []
  | Panic => panic
  | NoFuel => no_fuel
  end.

Definition open_file (name : string) (flags perm : Z) : M W HttpHandle :=
  if negb (OpenFlags.is_write flags) then open Ctx.new name
  else
    let name := clean_path name in
    data ← (if OpenFlags.contains flags OpenFlags.TRUNC || OpenFlags.contains flags OpenFlags.CREATE
            then mret [] else old_contents name);
    mret (BoxWrite (HttpFiles.write_file_of name flags perm data)).

Definition create (name : string) : M W HttpHandle :=
  open_file name (Z.lor (Z.lor OpenFlags.WRONLY OpenFlags.CREATE) OpenFlags.TRUNC)
    (FileMode.from_perm 420).

(** The check that a parent has an object. *)
Definition has_parent (op name : string) : M W unit :=
  found ← store (os_get (key base (parent_path name)));
  match found with Some _ => mret tt | None => throw (EPath op name NotFound) end.

Definition mkdir (name : string) (perm : Z) : M W unit :=
  let name := clean_path name in
  has_parent "mkdir" name ;;
  put_directory_object name [] ;;
  update_parent_listing name (Some (dir_mode 493)).

Definition remove (name : string) : M W unit :=
  let name := clean_path name in
  node ← load name;
  if Meta.is_dir (rn_metadata node) && negb (bool_decide (rn_entries node = [])) then
    throw (EPath "remove" name NotEmpty)
  else
    store (os_delete (key base name)) ;;
    update_parent_listing name None.

(** One turn of the loop over the objects below a directory that is renamed. *)
Definition move_object (old_prefix new_prefix : string) (kv : string * Object) : M W unit :=
  let suffix := default "" (strip_prefix old_prefix kv.1) in
  store (os_put (new_prefix +:+ suffix) kv.2) ;;
  store (os_delete kv.1).

Definition rename (old new : string) : M W unit :=
  let old := clean_path old in
  let new := clean_path new in
  has_parent "rename" new ;;
  old_object ← get_object old;
  old_node ← lift (parse_object old old_object);
  let old_key := key base old in
  let new_key := key base new in
  store (os_put new_key old_object) ;;
  store (os_delete old_key) ;;
  (if Meta.is_dir (rn_metadata old_node) then
     below ← store (os_list_prefix (old_key +:+ "/"));
     for_each (move_object (old_key +:+ "/") (new_key +:+ "/")) below
   else mret tt) ;;
  update_parent_listing old None ;;
  update_parent_listing new (Some (m_mode (rn_metadata old_node))).

Definition symlink (old new : string) : M W unit :=
  let new := clean_path new in
  has_parent "symlink" new ;;
  metadata ← r2_metadata "application/x-symlink" (symlink_mode 511) (blen (bytes_of old));
  store (os_put (key base new) (mkObject metadata (bytes_of old))) ;;
  update_parent_listing new (Some (symlink_mode 511)).

Definition readlink (name : string) : M W string :=
  node ← load name;
  if negb (FileMode.is_symlink (m_mode (rn_metadata node))) then throw (EPath "readlink" name Invalid)
  else mret (from_utf8_lossy (rn_body node)).

Definition fs : FileSystem W HttpHandle := {|
  fs_open := open;
  fs_stat := stat;
  fs_lstat := default_lstat stat;
  fs_read_dir := default_fs_read_dir open;
  fs_create := create;
  fs_open_file := open_file;
  fs_mkdir := mkdir;
  fs_remove := remove;
  fs_rename := rename;
  fs_link _ _ := unsupported;
  fs_chmod _ _ := unsupported;
  fs_chown _ _ _ := unsupported;
  fs_chtimes _ _ := unsupported;
  fs_truncate _ _ := unsupported;
  fs_symlink := symlink;
  fs_readlink := readlink;
  fs_set_xattr _ _ _ := unsupported;
  fs_get_xattr _ _ := unsupported;
  fs_list_xattrs _ := unsupported;
  fs_remove_xattr _ _ := unsupported
|}.
End Fs.

(** [with_base_path], which makes the root when it is not there. *)
Definition with_base_path {S} `{!ObjectStore S} (base_path : string) (s : S) (clock : nat → Z)
    : string * World S :=
  let base := normalize_r2_base_path base_path in
  (base, (ensure_root base (mkWorld s clock)).2).
End R2.
