(* ===== verification/R2Props.v ===== *)
(** * Listings and objects of the object-store filesystem

    What [R2Fs] keeps consistent: the listing of each directory and the objects below it. *)

From stdpp Require Import base list numbers option strings pretty sorting.
From Stdlib Require Import ZArith Lia Ascii.
From S2P Require Import Prelude Strs RcText BTree Core FsTrait MemFs MemFsProps Field HttpText HttpFs Sync HttpServer TextFacts HttpTextFacts HttpProps R2.

Local Open Scope Z_scope.
Import HttpText R2.

(** ** Listings *)

Section Build.
Context {V : Type}.

Lemma bt_fold_get (l : list (string * V)) acc k : NoDup l.*1 →
  bt_get k (foldl (λ m kv, bt_insert kv.1 kv.2 m) acc l)
  = match bt_get k (filter (λ kv, kv.1 = k) l) with Some v => Some v | None => bt_get k acc end.
Proof.
  revert acc. induction l as [|[k' v] l IH]; intros acc Hnd; [done|].
  apply NoDup_cons in Hnd as [Hk Hnd]. cbn [foldl fst snd]. rewrite IH, filter_cons by done.
  cbn [fst]. rewrite bt_get_insert. destruct (decide (k' = k)) as [->|Hne].
  - cbn. rewrite !decide_True by done.
    destruct (bt_get k (filter _ l)) as [v'|] eqn:E; [|done].
    apply bt_get_elem, list_elem_of_filter in E as [_ E]. destruct Hk.
    apply list_elem_of_fmap. by exists (k, v').
  - by rewrite (decide_False (P:=k = k')) by congruence.
Qed.

Lemma bt_fold_wf (l : list (string * V)) acc : bt_wf acc → bt_wf (foldl (λ m kv, bt_insert kv.1 kv.2 m) acc l).
Proof. revert acc. induction l as [|kv l IH]; intros acc Hacc; [done|]. by apply IH, bt_insert_wf. Qed.

(** The order in which a map is filled does not matter. *)
Lemma bt_fold_perm (l m : list (string * V)) : bt_wf m → l ≡ₚ m →
  foldl (λ m kv, bt_insert kv.1 kv.2 m) [] l = m.
Proof.
  intros Hm Hp. assert (NoDup l.*1) as Hnd by (rewrite Hp; by apply bt_keys_nodup).
  apply bt_ext; [apply bt_fold_wf; constructor|done|]. intros k. rewrite bt_fold_get by done. cbn.
  destruct (bt_get k (filter _ l)) as [v|] eqn:E.
  - apply bt_get_elem, list_elem_of_filter in E as [_ E]. rewrite Hp in E. symmetry. by apply bt_elem_get.
  - symmetry. apply bt_get_None. intros Hin. apply bt_get_None in E. apply E.
    apply list_elem_of_fmap in Hin as [[k' v] [-> Hin]]. apply list_elem_of_fmap. exists (k', v).
    split; [done|]. apply list_elem_of_filter. split; [done|]. by rewrite Hp.
Qed.
End Build.

Definition listed (names : btree string Z) : Prop := bt_wf names ∧ Forall (λ e, listable e.1) names.

Definition on_wire (names : btree string Z) : btree string Z := (λ e, (e.1, wire_mode e.2)) <$> names.

Lemma format_lines entries : format_r2_listing entries
  = concat_str ((λ l, l +:+ String NEWLINE "") <$> ((λ e, e.1 +:+ " " +:+ format_http_mode e.2) <$> merge_sort name_le entries)).
Proof.
  unfold format_r2_listing. induction (merge_sort name_le entries) as [|e l IH]; [done|].
  cbn [foldr]. rewrite IH. cbn [fmap list_fmap concat_str foldr]. by rewrite !app_str_assoc.
Qed.

Lemma listing_entry_text name mode : listable name →
  listing_entry (name +:+ " " +:+ format_http_mode mode) = Some (name, wire_mode mode)
  ∧ str_valid (name +:+ " " +:+ format_http_mode mode)
  ∧ contains_char NEWLINE (name +:+ " " +:+ format_http_mode mode) = false
  ∧ contains_char CR (name +:+ " " +:+ format_http_mode mode) = false.
Proof.
  intros Hl. pose proof (listing_text_lines (mkDirEntry name (mkMetadata name mode 0 0 0 0)) Hl) as (H1 & H2 & H3).
  split_and!; [|done..]. destruct Hl as [Hs Hg].
  pose proof (http_mode_solid mode) as [Hm Hne]. unfold listing_entry.
  change (format_http_mode mode) with (HttpServer.http_mode mode).
  rewrite split_whitespace_two; [|done..|by destruct (good_part_inv _ Hg)|done].
  by rewrite parse_http_mode_wire.
Qed.

(** A listing is read back, the modes as the wire has them. *)
Lemma parse_format names : listed names →
  parse_r2_listing (bytes_of (format_r2_listing names)) = on_wire names.
Proof.
  intros [Hwf Hl]. unfold parse_r2_listing. rewrite format_lines.
  pose proof (merge_sort_Permutation name_le names) as Hp.
  assert (Forall (λ e, listable e.1) (merge_sort name_le names)) as Hl' by (by rewrite Hp).
  rewrite from_utf8_lossy_valid, str_lines_concat.
  - assert (omap listing_entry ((λ e, e.1 +:+ " " +:+ format_http_mode e.2) <$> merge_sort name_le names)
      = on_wire (merge_sort name_le names)) as ->.
    { clear -Hl'. induction Hl' as [|e l He _ IH]; [done|]. cbn [fmap list_fmap omap list_omap].
      destruct (listing_entry_text e.1 e.2 He) as [-> _]. cbn. by f_equal. }
    apply bt_fold_perm; [|unfold on_wire; by rewrite Hp].
    unfold bt_wf, bt_keys, on_wire. by rewrite <- list_fmap_compose.
  - apply Forall_fmap. eapply Forall_impl; [done|]. intros e He. cbn.
    by destruct (listing_entry_text e.1 e.2 He) as (_ & _ & ?).
  - apply str_valid_concat. apply Forall_fmap, Forall_fmap. eapply Forall_impl; [done|]. intros e He. cbn.
    apply str_valid_app; [|done]. by destruct (listing_entry_text e.1 e.2 He) as (_ & ? & _).
Qed.

Lemma on_wire_get names n : bt_get n (on_wire names) = wire_mode <$> bt_get n names.
Proof. induction names as [|[k v] names IH]; [done|]. cbn. by case_decide. Qed.

(** The modes that listings give back do not change any more. *)
Lemma wire_mode_typed typ q : Z.land q 511 = q → typ = FileMode.DIR ∨ typ = FileMode.SYMLINK ∨ typ = 0 →
  wire_mode (Z.lor typ q) = Z.lor typ q.
Proof.
  intros Hq Ht.
  assert (∀ mask, Z.land 511 mask = 0 → Z.land (Z.lor typ q) mask = Z.land typ mask) as Hmask.
  { intros mask Hm. by rewrite Z.land_lor_distr_l, <- Hq, <- Z.land_assoc, Hm, Z.land_0_r, Z.lor_0_r. }
  assert (FileMode.perm (Z.lor typ q) = q) as Hp.
  { unfold FileMode.perm, FileMode.PERM_MASK. rewrite <- Hq at 1. rewrite perm_of_bits; [done|].
    by destruct Ht as [-> |[-> | ->]]. }
  unfold wire_mode, FileMode.is_dir, FileMode.is_symlink, FileMode.contains.
  rewrite !Hmask, Hp by done. by destruct Ht as [-> |[-> | ->]].
Qed.

Lemma wire_mode_of_bits bits : wire_mode (mode_of_bits bits) = mode_of_bits bits.
Proof.
  unfold mode_of_bits. set (q := FileMode.from_perm (Z.land bits 511)).
  assert (Z.land q 511 = q) as Hq by (unfold q, FileMode.from_perm, FileMode.PERM_MASK; by rewrite <- !Z.land_assoc).
  repeat case_match; [apply wire_mode_typed; tauto..|].
  rewrite <- (Z.lor_0_l q). apply wire_mode_typed; tauto.
Qed.

Lemma wire_mode_parse s : wire_mode (parse_http_mode s) = parse_http_mode s.
Proof. unfold parse_http_mode. destruct (parse_u32 s); [apply wire_mode_of_bits|done]. Qed.

Lemma on_wire_parsed body : on_wire (parse_r2_listing body) = parse_r2_listing body.
Proof.
  unfold parse_r2_listing. set (es := omap listing_entry _).
  assert (Forall (λ e : string * Z, wire_mode e.2 = e.2) es) as Hall.
  { subst es. induction (str_lines (from_utf8_lossy body)) as [|l ls IH]; [constructor|].
    cbn [omap list_omap]. destruct (listing_entry l) as [[name mode]|] eqn:E; [|exact IH].
    constructor; [|exact IH]. unfold listing_entry in E. repeat case_match; simplify_eq.
    apply wire_mode_parse. }
  clearbody es.
  assert (∀ acc : btree string Z, on_wire acc = acc →
    on_wire (foldl (λ m kv, bt_insert kv.1 kv.2 m) acc es) = foldl (λ m kv, bt_insert kv.1 kv.2 m) acc es)
    as H; [|by apply H].
  induction Hall as [|e es He _ IH]; intros acc Hacc; [done|]. cbn [foldl]. apply IH.
  clear -He Hacc. induction acc as [|[k v] acc IH]; [cbn; by rewrite He|].
  change ((k, wire_mode v) :: on_wire acc = (k, v) :: acc) in Hacc. injection Hacc as Hv Hacc.
  cbn [bt_insert]. repeat case_decide.
  - change ((e.1, wire_mode e.2) :: on_wire acc = (e.1, e.2) :: acc). by rewrite He, Hacc.
  - change ((e.1, wire_mode e.2) :: (k, wire_mode v) :: on_wire acc = (e.1, e.2) :: (k, v) :: acc).
    by rewrite He, Hv, Hacc.
  - change ((k, wire_mode v) :: on_wire (bt_insert e.1 e.2 acc) = (k, v) :: bt_insert e.1 e.2 acc).
    by rewrite Hv, IH.
Qed.

(** ** Other threads *)

Section Shared.
Context (base : string).
Local Abbreviation W := (World Shared).

(** The objects after the first [n] changes of the others. *)
Fixpoint others (n : nat) (s : Shared) : Objects :=
  match n with O => sh_objects s | S n => sh_others s n (others n s) end.

(** [w'] is [w] after [n] operations that did not change an object. *)
Definition waited (n : nat) (w w' : W) : Prop :=
  sh_objects (rw_store w') = others n (rw_store w)
  ∧ ∀ i, sh_others (rw_store w') i = sh_others (rw_store w) (n + i)%nat.

Lemma waited_refl w : waited 0 w w.
Proof. done. Qed.

Lemma waited_next n w w' s : waited n w w' →
  sh_objects s = sh_others (rw_store w') 0 (sh_objects (rw_store w')) →
  (∀ i, sh_others s i = sh_others (rw_store w') (S i)) →
  ∀ clock, waited (S n) w (mkWorld s clock).
Proof.
  intros [H1 H2] Ho Hi clock. split; cbn; [by rewrite Ho, H1, H2, Nat.add_0_r|].
  intros i. rewrite Hi, H2. by f_equal; lia.
Qed.

Lemma waited_clock n w w' clock : waited n w w' → waited n w (mkWorld (rw_store w') clock).
Proof. done. Qed.

Definition changed (child : string) (mode : option Z) (names : btree string Z) : btree string Z :=
  match mode with Some mode => bt_insert child mode names | None => bt_remove child names end.

Lemma listing_object_run entries (w : W) :
  ∃ metadata clock, directory_listing_object entries w
    = (Ok (mkObject metadata (bytes_of (format_r2_listing entries))), mkWorld (rw_store w) clock).
Proof. unfold directory_listing_object, r2_metadata, now. unfold_eff. cbn. eauto. Qed.

Lemma store_get_run parent (w : W) : ∃ w1,
  store (os_get (key base parent)) w
    = (Ok (bt_get (key base parent) (sh_others (rw_store w) 0 (sh_objects (rw_store w)))), w1)
  ∧ ∀ n w0, waited n w0 w → waited (S n) w0 w1.
Proof.
  eexists. split; [reflexivity|]. intros n w0 Hn. by eapply waited_next.
Qed.

Lemma update_listing_others retries parent child mode w0 w n r w' : waited n w0 w →
  update_listing base retries parent child mode w = (r, w') →
  ∃ k, match r with
    | Ok _ => ∃ found metadata,
        bt_get (key base parent) (others k (rw_store w0)) = Some found
        ∧ sh_objects (rw_store w') = bt_insert (key base parent)
            (mkObject metadata (bytes_of (format_r2_listing
              (changed child mode (parse_r2_listing (ob_body found))))))
            (others k (rw_store w0))
    | _ => sh_objects (rw_store w') = others k (rw_store w0)
    end.
Proof.
  revert w n. induction retries as [|retries IH]; intros w n Hn H; cbn [update_listing] in H.
  { unfold throw in H. simplify_eq. exists n. apply Hn. }
  unfold mbind at 1, eff_bind at 1 in H.
  destruct (store_get_run parent w) as (w1 & E & Hw1). rewrite E in H.
  assert (waited (S n) w0 w1) as Hn1 by (by apply Hw1).
  set (found := bt_get (key base parent) _) in H. clearbody found.
  assert (∀ po w2, waited (S n) w0 w2 → (
      next ← directory_listing_object (changed child mode (parse_r2_listing (ob_body po)));
      swapped ← store (os_compare_and_swap (key base parent) (Some po) (Some next));
      if (swapped : bool) then mret tt else update_listing base retries parent child mode) w2 = (r, w') →
    ∃ k, match r with
    | Ok _ => ∃ found metadata,
        bt_get (key base parent) (others k (rw_store w0)) = Some found
        ∧ sh_objects (rw_store w') = bt_insert (key base parent)
            (mkObject metadata (bytes_of (format_r2_listing
              (changed child mode (parse_r2_listing (ob_body found))))))
            (others k (rw_store w0))
    | _ => sh_objects (rw_store w') = others k (rw_store w0)
    end) as Hswap.
  { intros po w2 Hn2 H2. unfold mbind, eff_bind in H2.
    destruct (listing_object_run (changed child mode (parse_r2_listing (ob_body po))) w2) as (md & clock & E2).
    rewrite E2 in H2. cbn in H2. unfold store, zoom, after_others, InMemoryObjectStore.compare_and_swap in H2.
    cbn in H2. case_decide as Hcas; cbn in H2.
    - eapply (IH _ (S (S n))); [|exact H2]. by eapply waited_next.
    - unfold mret, eff_ret in H2. simplify_eq. exists (S (S n)), po, md. cbn.
      destruct Hn2 as [Ho Hi]. rewrite Ho, Hi, Nat.add_0_r in *. done. }
  destruct found as [object|].
  - apply (Hswap object w1 Hn1). exact H.
  - case_decide as Hdot.
    + unfold mbind at 1, eff_bind at 1 in H.
      destruct (listing_object_run [] w1) as (md & clock & E2). rewrite E2 in H.
      eapply Hswap; [|exact H]. by apply waited_clock.
    + unfold mbind at 1, eff_bind at 1, throw in H. simplify_eq. exists (S n). apply Hn1.
Qed.
End Shared.

(** A name without a parent to update. *)
Definition name_is_root (name : string) : bool :=
  bool_decide (base_name name = ".") || is_empty_str (base_name name).

(** C20. No update of a listing is lost between threads. When [update_parent_listing] succeeds,
    the listing it wrote is the one that was there at the moment of the swap with the one
    child changed, and nothing else of the store is different from what the other threads
    made; when it fails it has changed nothing. *)
Theorem r2_no_lost_update base name mode (w : World Shared) r w' :
  update_parent_listing base name mode w = (r, w') →
  ∃ k, match r with
    | Ok _ =>
        (name_is_root name = true ∧ w' = w)
        ∨ ∃ found metadata,
            bt_get (key base (parent_path name)) (others k (rw_store w)) = Some found
            ∧ sh_objects (rw_store w') = bt_insert (key base (parent_path name))
                (mkObject metadata (bytes_of (format_r2_listing
                  (changed (base_name name) mode (parse_r2_listing (ob_body found))))))
                (others k (rw_store w))
    | _ => sh_objects (rw_store w') = others k (rw_store w)
    end.
Proof.
  unfold update_parent_listing, name_is_root. intros H.
  destruct (bool_decide (base_name name = ".") || is_empty_str (base_name name)) eqn:E.
  - unfold mret, eff_ret in H. simplify_eq. exists 0%nat. by left.
  - apply (update_listing_others base _ _ _ _ w w 0%nat) in H; [|apply waited_refl].
    destruct H as [k H]. exists k. destruct r; try done. by right.
Qed.

(** ** One thread *)

Section Alone.
Context (base : string) (bs : list string) (Hbs : Forall good_part bs) (Hbase : base = str_join "/" bs).
Local Abbreviation W := (World Objects).

(** Names are lists of components here; [K] is the key of one. *)
Definition K (ps : list string) : string := key base (of_parts ps).

Lemma K_rooted ps : Forall good_part ps → K ps = String "/" (str_join "/" (bs ++ ps)).
Proof.
  intros Hps. unfold K, key. rewrite clean_path_of_parts by done.
  assert (∀ q qs, Forall good_part (q :: qs) → of_parts (q :: qs) ≠ ".") as Hdot.
  { intros q qs Hq. by apply (join_good_not_dot (q :: qs)). }
  destruct bs as [|b bs'] eqn:Eb.
  - rewrite decide_True by done. cbn [app]. destruct ps as [|p ps]; [done|].
    by rewrite decide_False by (by apply Hdot).
  - assert (base ≠ "") as Hne.
    { rewrite Hbase. apply join_good_nonempty; [done|by subst]. }
    rewrite decide_False by done. destruct ps as [|p ps].
    + rewrite app_nil_r, Hbase. done.
    + rewrite decide_False by (by apply Hdot). pose proof (of_parts_app (b :: bs') (p :: ps)) as Happ.
      cbn [app] in *. unfold of_parts in Happ at 1 2. cbn [app] in Happ.
      rewrite Hbase. cbn. f_equal. symmetry. by apply Happ.
Qed.

Lemma K_inj ps qs : Forall good_part ps → Forall good_part qs → K ps = K qs → ps = qs.
Proof.
  intros Hps Hqs. rewrite !K_rooted by done. intros [= E].
  assert (∀ l, Forall good_part l → l = [] ∨ split_on "/" (str_join "/" l) = l) as Hl.
  { intros [|x l] H; [by left|right]. by apply split_join_good. }
  assert (∀ l, Forall good_part l → l ≠ [] → str_join "/" l ≠ "") as Hne.
  { intros l H Hn. by apply join_good_nonempty. }
  assert (Forall good_part (bs ++ ps) ∧ Forall good_part (bs ++ qs)) as [H1 H2]
    by (by split; apply Forall_app).
  apply (app_inv_head bs).
  destruct (Hl _ H1) as [E1|E1], (Hl _ H2) as [E2|E2].
  - congruence.
  - rewrite E1 in E. destruct (bs ++ qs) as [|x l] eqn:Ex; [congruence|].
    destruct (Hne (x :: l)); [done|done|by rewrite <- E].
  - rewrite E2 in E. destruct (bs ++ ps) as [|x l] eqn:Ex; [congruence|].
    destruct (Hne (x :: l)); [done|done|by rewrite E].
  - by rewrite <- E1, <- E2, E.
Qed.

(** *** Objects that [R2Fs] makes *)

Definition r2_headers (type : string) (mode len secs : Z) : Headers :=
  [("Content-Length", pretty len); ("Content-Mode", format_http_mode mode);
   ("Content-Modified", pretty secs); ("Content-Ownership", "0:0"); ("Content-Type", type)].

(** An object with the headers of [r2_metadata]; every directory has the same mode. *)
Definition made (o : Object) : Prop := ∃ type mode len secs,
  ob_metadata o = r2_headers type mode len secs ∧ 0 ≤ len ≤ U64_MAX ∧ 0 ≤ secs ≤ I64_MAX
  ∧ (FileMode.is_dir mode = true → wire_mode mode = dir_mode 493).

Definition ob_mode (o : Object) : Z :=
  match header_value (ob_metadata o) "Content-Mode" with Some m => parse_http_mode m | None => 0 end.

Definition is_dir_ob (o : Object) : bool := FileMode.is_dir (ob_mode o).
Definition names (o : Object) : btree string Z := parse_r2_listing (ob_body o).

Lemma made_mode o type mode len secs : ob_metadata o = r2_headers type mode len secs →
  ob_mode o = wire_mode mode.
Proof.
  intros E. unfold ob_mode. rewrite E. change (header_value _ _) with (Some (format_http_mode mode)).
  apply parse_http_mode_wire.
Qed.

Lemma made_dir o : made o → is_dir_ob o = true → ob_mode o = dir_mode 493.
Proof.
  intros (type & mode & len & secs & E & _ & _ & Hd) H. unfold is_dir_ob in H.
  rewrite (made_mode o _ _ _ _ E) in *. rewrite wire_mode_dir in H. by apply Hd.
Qed.

Lemma made_parse name o : made o → ∃ md, parse_object name o
    = Ok (mkNode md (ob_body o) (if is_dir_ob o then node_entry <$> names o else []))
  ∧ m_mode md = ob_mode o.
Proof.
  intros (type & mode & len & secs & E & Hl & Hs & _). unfold parse_object, parse_http_metadata, header_size.
  unfold is_dir_ob. rewrite (made_mode o _ _ _ _ E), E.
  change (header_value _ "Content-Mode") with (Some (format_http_mode mode)).
  change (header_value _ "Content-Length") with (Some (pretty len : string)).
  change (header_value _ "Content-Modified") with (Some (pretty secs : string)).
  change (header_value _ "Content-Ownership") with (Some "0:0").
  cbn [mbind option_bind default from_option]. unfold parse_u64.
  rewrite !parse_unsigned_pretty by (unfold I64_MAX, U64_MAX in *; lia).
  unfold epoch_secs. destruct (Z.leb_spec secs I64_MAX); [|lia].
  change (format_http_mode mode) with (HttpServer.http_mode mode). rewrite parse_http_mode_wire.
  unfold outcome_bind, Meta.is_dir. cbn. eexists. split; [reflexivity|done].
Qed.

(** *** Consistent stores *)

Record consistent (m : Objects) : Prop := {
  c_made : ∀ k o, bt_get k m = Some o → made o;
  c_root : ∃ o, bt_get (K []) m = Some o ∧ is_dir_ob o = true;
  c_listed : ∀ ps o, Forall good_part ps → bt_get (K ps) m = Some o → is_dir_ob o = true → listed (names o);
  c_up : ∀ ps n o, Forall good_part (ps ++ [n]) → bt_get (K (ps ++ [n])) m = Some o →
    ∃ po, bt_get (K ps) m = Some po ∧ is_dir_ob po = true ∧ bt_get n (names po) = Some (ob_mode o);
  c_down : ∀ ps po n mode, Forall good_part ps → bt_get (K ps) m = Some po → is_dir_ob po = true →
    bt_get n (names po) = Some mode → ∃ o, bt_get (K (ps ++ [n])) m = Some o ∧ ob_mode o = mode
}.

Lemma consistent_ext m m' : (∀ k, bt_get k m = bt_get k m') → consistent m → consistent m'.
Proof.
  intros E [H1 H2 H3 H4 H5]. split; setoid_rewrite <- E; done.
Qed.

Lemma snoc_good ps n : Forall good_part ps → good_part n → Forall good_part (ps ++ [n]).
Proof. intros. apply Forall_app. split; [done|by apply Forall_singleton]. Qed.

Lemma listed_get names n mode : listed names → bt_get n names = Some mode → listable n.
Proof.
  intros [_ Hl] Hn. apply bt_get_elem in Hn. rewrite Forall_forall in Hl. by apply (Hl (n, mode)).
Qed.

Lemma listed_insert names n mode : listed names → listable n → listed (bt_insert n mode names).
Proof.
  intros [Hwf Hl] Hn. split; [by apply bt_insert_wf|]. rewrite Forall_forall in *. intros [n' md] Hin.
  apply (bt_elem_get _ _ _ (bt_insert_wf _ _ _ Hwf)) in Hin. rewrite bt_get_insert in Hin.
  cbn. case_decide; [by subst|]. apply bt_get_elem in Hin. by apply (Hl (n', md)).
Qed.

Lemma listed_remove names n : listed names → listed (bt_remove n names).
Proof.
  intros [Hwf Hl]. split; [by apply bt_remove_wf|]. rewrite bt_remove_filter.
  rewrite Forall_forall in *. intros e He. apply list_elem_of_filter in He as [_ He]. by apply Hl.
Qed.

(** The new listing of a directory. *)
Definition relisted (po' : Object) (l : btree string Z) : Prop :=
  made po' ∧ is_dir_ob po' = true ∧ ob_body po' = bytes_of (format_r2_listing l).

Lemma relisted_names po' l : relisted po' l → listed l → names po' = on_wire l.
Proof. intros (_ & _ & E) Hl. unfold names. rewrite E. by apply parse_format. Qed.

(** What may be replaced: nothing, a file or link, or an empty directory. *)
Definition free (m : Objects) (ps : list string) : Prop :=
  ∀ o, bt_get (K ps) m = Some o → is_dir_ob o = true → names o = [].

Lemma K_snoc_ne ps n : Forall good_part ps → good_part n → K (ps ++ [n]) ≠ K ps.
Proof.
  intros Hp Hn E%K_inj; [|by apply snoc_good|done]. apply (f_equal length) in E.
  rewrite length_app in E. cbn in E. lia.
Qed.

(** A store [m'] that is [m] with the child [n] of the directory [ps] replaced by [oo] and
    the listing of the directory changed to match. *)
Record relinked (m m' : Objects) (ps : list string) (n : string) (po po' : Object) (oo : option Object) : Prop := {
  rl_parent : Forall good_part ps;
  rl_name : good_part n;
  rl_old : bt_get (K ps) m = Some po;
  rl_dir : is_dir_ob po = true;
  rl_free : free m (ps ++ [n]);
  rl_same : ob_mode po' = ob_mode po;
  rl_listed : listed (names po');
  rl_names : ∀ n', bt_get n' (names po') = if decide (n' = n) then ob_mode <$> oo else bt_get n' (names po);
  rl_child : ∀ o, oo = Some o → is_dir_ob o = true → names o = [];
  rl_made : made po' ∧ ∀ o, oo = Some o → made o;
  rl_get : ∀ k, bt_get k m' = if decide (k = K ps) then Some po'
    else if decide (k = K (ps ++ [n])) then oo else bt_get k m
}.

Lemma relinked_get m m' ps n po po' oo qs : relinked m m' ps n po po' oo → Forall good_part qs →
  bt_get (K qs) m' = if decide (qs = ps) then Some po' else if decide (qs = ps ++ [n]) then oo else bt_get (K qs) m.
Proof.
  intros R Hq. rewrite (rl_get _ _ _ _ _ _ _ R).
  assert (∀ l, Forall good_part l → K qs = K l ↔ qs = l) as Heq.
  { intros l Hl. split; [by apply K_inj|congruence]. }
  pose proof (Heq ps (rl_parent _ _ _ _ _ _ _ R)).
  pose proof (Heq (ps ++ [n]) (snoc_good _ _ (rl_parent _ _ _ _ _ _ _ R) (rl_name _ _ _ _ _ _ _ R))).
  repeat case_decide; tauto.
Qed.

Lemma snoc_ne (l : list string) n : l ≠ l ++ [n].
Proof. intros E%(f_equal length). rewrite length_app in E. cbn in E. lia. Qed.

Lemma relinked_up m m' ps n po po' oo : consistent m → relinked m m' ps n po po' oo →
  ∀ qs n' o, Forall good_part (qs ++ [n']) → bt_get (K (qs ++ [n'])) m' = Some o →
  ∃ pq, bt_get (K qs) m' = Some pq ∧ is_dir_ob pq = true ∧ bt_get n' (names pq) = Some (ob_mode o).
Proof.
  intros C R qs n' o Hq. pose proof Hq as [Hq' _]%Forall_app.
  pose proof (rl_same _ _ _ _ _ _ _ R) as Hsame. pose proof (rl_dir _ _ _ _ _ _ _ R) as Hdir.
  assert (is_dir_ob po' = true) as Hdir' by (unfold is_dir_ob in *; by rewrite Hsame).
  rewrite !(relinked_get _ _ _ _ _ _ _ _ R) by done.
  destruct (decide (qs ++ [n'] = ps)) as [<-|E1]; [|destruct (decide (qs ++ [n'] = ps ++ [n])) as [E|E2]].
  - intros [= <-]. rewrite !decide_False.
    + rewrite Hsame. by apply (c_up _ C), R.
    + rewrite <- app_assoc. intros E%(f_equal length). rewrite length_app in E. cbn in E. lia.
    + apply snoc_ne.
  - apply app_inj_tail in E as [-> ->]. intros ->. exists po'. rewrite decide_True by done.
    split_and!; [done..|]. by rewrite (rl_names _ _ _ _ _ _ _ R), decide_True.
  - intros Ho. destruct (c_up _ C qs n' o Hq Ho) as (pq & Hpq & Hdq & Hnq).
    destruct (decide (qs = ps)) as [->|E3].
    + exists po'. rewrite (rl_names _ _ _ _ _ _ _ R), decide_False by congruence.
      rewrite (rl_old _ _ _ _ _ _ _ R) in Hpq. by injection Hpq as <-.
    + rewrite decide_False; [by exists pq|]. intros ->. by rewrite (rl_free _ _ _ _ _ _ _ R pq) in Hnq.
Qed.

Lemma relinked_down m m' ps n po po' oo : consistent m → relinked m m' ps n po po' oo →
  ∀ qs pq n' mode, Forall good_part qs → bt_get (K qs) m' = Some pq → is_dir_ob pq = true →
  bt_get n' (names pq) = Some mode → ∃ o, bt_get (K (qs ++ [n'])) m' = Some o ∧ ob_mode o = mode.
Proof.
  intros C R qs pq n' mode Hq. pose proof (rl_old _ _ _ _ _ _ _ R) as Hold.
  pose proof (rl_dir _ _ _ _ _ _ _ R) as Hdir. pose proof (rl_parent _ _ _ _ _ _ _ R) as Hps.
  rewrite (relinked_get _ _ _ _ _ _ _ _ R) by done.
  destruct (decide (qs = ps)) as [->|E1]; [|destruct (decide (qs = ps ++ [n])) as [->|E2]].
  - intros [= <-] _ Hn. pose proof (listed_get _ _ _ (rl_listed _ _ _ _ _ _ _ R) Hn) as [_ Hg].
    rewrite (relinked_get _ _ _ _ _ _ _ _ R) by (by apply snoc_good).
    rewrite decide_False by (apply not_eq_sym, snoc_ne). rewrite (rl_names _ _ _ _ _ _ _ R) in Hn.
    destruct (decide (n' = n)) as [->|Hne].
    + rewrite decide_True by done. apply fmap_Some in Hn as (o & -> & ->). by exists o.
    + rewrite decide_False by (by intros [_ ?]%app_inj_tail). by apply (c_down _ C ps po).
  - intros -> Hd Hn. by rewrite (rl_child _ _ _ _ _ _ _ R pq) in Hn.
  - intros Hx Hd Hn. pose proof (listed_get _ _ _ (c_listed _ C _ _ Hq Hx Hd) Hn) as [_ Hg].
    rewrite (relinked_get _ _ _ _ _ _ _ _ R) by (by apply snoc_good).
    destruct (c_down _ C qs pq n' mode Hq Hx Hd Hn) as (o & Ho & Hmode).
    destruct (decide (qs ++ [n'] = ps)) as [<-|E3].
    + exists po'. split; [done|]. rewrite (rl_same _ _ _ _ _ _ _ R). congruence.
    + rewrite decide_False; [by exists o|]. by intros [? _]%app_inj_tail.
Qed.

Lemma relinked_consistent m m' ps n po po' oo : consistent m → relinked m m' ps n po po' oo → consistent m'.
Proof.
  intros C R. pose proof (rl_made _ _ _ _ _ _ _ R) as [Hmp Hmo].
  assert (is_dir_ob po' = true) as Hdir'.
  { unfold is_dir_ob. rewrite (rl_same _ _ _ _ _ _ _ R). apply R. }
  split; [| | |by eapply relinked_up|by eapply relinked_down].
  - intros k x. rewrite (rl_get _ _ _ _ _ _ _ R). repeat case_decide; [by intros [= <-]|by apply Hmo|apply C].
  - rewrite (relinked_get _ _ _ _ _ _ _ _ R) by constructor. destruct (c_root _ C) as (r & Hr & Hd).
    case_decide; [by exists po'|]. rewrite decide_False; [by exists r|]. by destruct ps.
  - intros qs x Hq. rewrite (relinked_get _ _ _ _ _ _ _ _ R) by done. repeat case_decide.
    + intros [= <-] _. apply R.
    + intros Hx Hd. rewrite (rl_child _ _ _ _ _ _ _ R x Hx Hd). split; constructor.
    + by apply C.
Qed.

(** The new listing of a directory. *)
Lemma relisted_get po' l names0 n : relisted po' l → listed l → (∀ n, bt_get n l = bt_get n names0) →
  bt_get n (names po') = wire_mode <$> bt_get n names0.
Proof. intros Hr Hl E. by rewrite (relisted_names _ _ Hr Hl), on_wire_get, E. Qed.

Lemma names_wire o n : wire_mode <$> bt_get n (names o) = bt_get n (names o).
Proof. rewrite <- on_wire_get. unfold names. by rewrite on_wire_parsed. Qed.

Lemma listed_wire l : listed l → listed (on_wire l).
Proof.
  intros [Hw Hf]. split; [|by apply Forall_fmap].
  unfold bt_wf, bt_keys, on_wire. by rewrite <- list_fmap_compose.
Qed.

(** *** Running the operations *)

Definition clock_ok (clock : nat → Z) : Prop := ∀ i, unix_secs (clock i) ≤ I64_MAX.

Lemma metadata_run type mode len (w : W) : clock_ok (rw_clock w) →
  ∃ secs clock, r2_metadata type mode len w = (Ok (r2_headers type mode len secs), mkWorld (rw_store w) clock)
    ∧ 0 ≤ secs ≤ I64_MAX ∧ clock_ok clock.
Proof.
  intros Hc. exists (unix_secs (rw_clock w 0)), (λ n, rw_clock w (S n)). split; [reflexivity|].
  split; [split; [apply unix_secs_nonneg|apply Hc]|]. intros i. apply Hc.
Qed.

Lemma made_object type mode len secs body : 0 ≤ len ≤ U64_MAX → 0 ≤ secs ≤ I64_MAX →
  (FileMode.is_dir mode = true → wire_mode mode = dir_mode 493) →
  made (mkObject (r2_headers type mode len secs) body)
  ∧ ob_mode (mkObject (r2_headers type mode len secs) body) = wire_mode mode.
Proof.
  intros Hl Hs Hd. split; [by exists type, mode, len, secs|]. by eapply made_mode.
Qed.

Lemma listing_run l (w : W) : clock_ok (rw_clock w) →
  ∃ o clock, directory_listing_object l w = (Ok o, mkWorld (rw_store w) clock) ∧ relisted o l ∧ clock_ok clock.
Proof.
  intros Hc. destruct (metadata_run "application/x-directory" (dir_mode 493) 0 w Hc) as (secs & clock & E & Hs & Hc').
  exists (mkObject (r2_headers "application/x-directory" (dir_mode 493) 0 secs) (bytes_of (format_r2_listing l))), clock.
  split_and!; [|..|done].
  - unfold directory_listing_object, mbind, eff_bind. by rewrite E.
  - destruct (made_object "application/x-directory" (dir_mode 493) 0 secs (bytes_of (format_r2_listing l))) as [H1 H2];
      [by unfold U64_MAX; lia|done|done|]. split_and!; [done| |done]. unfold is_dir_ob. by rewrite H2.
Qed.

(** Without other threads the first swap succeeds. *)
Lemma update_alone ps n mode po (w : W) : Forall good_part (ps ++ [n]) →
  bt_get (K ps) (rw_store w) = Some po → clock_ok (rw_clock w) →
  ∃ po' clock, update_parent_listing base (of_parts (ps ++ [n])) mode w
    = (Ok tt, mkWorld (bt_insert (K ps) po' (rw_store w)) clock)
  ∧ relisted po' (changed n mode (names po)) ∧ clock_ok clock.
Proof.
  intros Hg Hpo Hc. unfold update_parent_listing. rewrite parent_of_parts, base_name_of_parts by done.
  pose proof Hg as [_ Hn]%Forall_app. rewrite Forall_singleton in Hn. destruct (good_part_inv _ Hn) as (Hne & Hdot & _).
  rewrite bool_decide_false by done.
  destruct (is_empty_str n) eqn:E; [by apply is_empty_str_true in E|]. cbn [orb].
  unfold COMPARE_AND_SWAP_RETRIES. cbn [update_listing].
  destruct (listing_run (changed n mode (names po)) w Hc) as (po' & clock & El & Hre & Hc').
  exists po', clock. split; [|done].
  unfold mbind, eff_bind. unfold store at 1, zoom at 1. cbn [os_get InMemoryObjectStore.in_memory].
  unfold InMemoryObjectStore.get, gets. cbn beta iota. fold (K ps). rewrite Hpo.
  unfold mret, eff_ret. cbn beta iota.
  replace (mkWorld (rw_store w) (rw_clock w)) with w by (by destruct w).
  unfold changed, names in El. cbv zeta. rewrite El. cbn beta iota.
  unfold store, zoom. cbn [os_compare_and_swap InMemoryObjectStore.in_memory rw_store].
  unfold InMemoryObjectStore.compare_and_swap. by rewrite decide_False by (intros H; by apply H).
Qed.

(** A directory that is there, and a name in it that may be given. *)
Definition place (m : Objects) (name : string) : Prop := ∃ ps n po,
  name = of_parts (ps ++ [n]) ∧ Forall good_part ps ∧ listable n
  ∧ bt_get (K ps) m = Some po ∧ is_dir_ob po = true ∧ free m (ps ++ [n]).

Lemma linked m ps n po o mode po' : consistent m → Forall good_part ps → listable n →
  bt_get (K ps) m = Some po → is_dir_ob po = true → free m (ps ++ [n]) →
  made o → ob_mode o = wire_mode mode → (is_dir_ob o = true → names o = []) →
  relisted po' (bt_insert n mode (names po)) →
  relinked m (bt_insert (K ps) po' (bt_insert (K (ps ++ [n])) o m)) ps n po po' (Some o).
Proof.
  intros C Hps Hn Hpo Hdir Hfree Hmo Hmode Hempty Hre.
  pose proof (listed_insert _ n mode (c_listed _ C ps po Hps Hpo Hdir) Hn) as Hli.
  pose proof (relisted_names _ _ Hre Hli) as Hnames. destruct Hre as (Hmp & Hdp & _).
  split; try done.
  - by apply Hn.
  - rewrite !made_dir by eauto using c_made. done.
  - rewrite Hnames. by apply listed_wire.
  - intros n'. rewrite Hnames, on_wire_get, bt_get_insert. case_decide; [cbn; by rewrite Hmode|apply names_wire].
  - by intros x [= <-].
  - split; [done|]. by intros x [= <-].
  - intros k. by rewrite !bt_get_insert.
Qed.

Lemma unlinked m ps n po po' : consistent m → Forall good_part ps → good_part n →
  bt_get (K ps) m = Some po → is_dir_ob po = true → free m (ps ++ [n]) →
  relisted po' (bt_remove n (names po)) →
  relinked m (bt_insert (K ps) po' (bt_remove (K (ps ++ [n])) m)) ps n po po' None.
Proof.
  intros C Hps Hn Hpo Hdir Hfree Hre.
  pose proof (listed_remove _ n (c_listed _ C ps po Hps Hpo Hdir)) as Hli.
  pose proof (relisted_names _ _ Hre Hli) as Hnames. destruct Hre as (Hmp & Hdp & _).
  split; try done.
  - rewrite !made_dir by eauto using c_made. done.
  - rewrite Hnames. by apply listed_wire.
  - intros n'. rewrite Hnames, on_wire_get, bt_get_remove. case_decide; [done|apply names_wire].
  - intros k. by rewrite bt_get_insert, bt_get_remove.
Qed.

(** Storing an object and listing it: the end of [put_file_object], [mkdir] and
    [symlink]. *)
Lemma store_child ps n po o mode (w : W) : consistent (rw_store w) → clock_ok (rw_clock w) →
  Forall good_part ps → listable n → bt_get (K ps) (rw_store w) = Some po → is_dir_ob po = true →
  free (rw_store w) (ps ++ [n]) → made o → ob_mode o = wire_mode mode →
  (is_dir_ob o = true → names o = []) →
  ∃ w' po', (store (os_put (K (ps ++ [n])) o) ;;
      update_parent_listing base (of_parts (ps ++ [n])) (Some mode)) w = (Ok tt, w')
    ∧ clock_ok (rw_clock w') ∧ relinked (rw_store w) (rw_store w') ps n po po' (Some o)
    ∧ relisted po' (bt_insert n mode (names po)).
Proof.
  intros C Hc Hps Hn Hpo Hdir Hfree Hmo Hmode Hempty. pose proof (snoc_good _ _ Hps (proj2 Hn)) as Hpn.
  set (w1 := mkWorld (bt_insert (K (ps ++ [n])) o (rw_store w)) (rw_clock w)).
  assert (bt_get (K ps) (rw_store w1) = Some po) as Hpo1.
  { cbn. rewrite bt_get_insert_ne; [done|]. apply not_eq_sym, K_snoc_ne; [done|apply Hn]. }
  destruct (update_alone ps n (Some mode) po w1 Hpn Hpo1 Hc) as (po' & clock & E & Hre & Hc').
  exists (mkWorld (bt_insert (K ps) po' (rw_store w1)) clock), po'. split_and!; [|done| |done].
  - unfold mbind, eff_bind, store, zoom. exact E.
  - by eapply linked.
Qed.

Lemma sent_mode_file perm : FileMode.is_dir (sent_mode perm) = false.
Proof.
  destruct (sent_mode_perm perm) as (_ & H & _). unfold FileMode.is_dir, FileMode.contains.
  rewrite <- H. unfold FileMode.perm, FileMode.PERM_MASK. rewrite <- Z.land_assoc.
  change (Z.land 511 FileMode.DIR) with 0. by rewrite Z.land_0_r.
Qed.

#[local] Instance r2_files : FileHandle W HttpHandle := HttpFiles.http_handle (put_file_object base).

(** The contents a successful write leaves. *)
Lemma write_run_r2 fuel name data perm (w : W) : consistent (rw_store w) → clock_ok (rw_clock w) →
  place (rw_store w) name → blen data ≤ ISIZE_MAX →
  ∃ w' ps n po po' o, write_file (fs base fuel) name data perm w = (Ok tt, w') ∧ clock_ok (rw_clock w')
    ∧ name = of_parts (ps ++ [n]) ∧ relinked (rw_store w) (rw_store w') ps n po po' (Some o)
    ∧ ob_body o = data ∧ ob_mode o = sent_mode perm
    ∧ relisted po' (bt_insert n (sent_mode perm) (names po)).
Proof.
  intros C Hc (ps & n & po & -> & Hps & Hn & Hpo & Hdir & Hfree) Hlen.
  pose proof (snoc_good _ _ Hps (proj2 Hn)) as Hpn.
  destruct (metadata_run "application/octet-stream" (sent_mode perm) (blen data) w Hc)
    as (secs & clock & Em & Hsecs & Hc1).
  set (o := mkObject (r2_headers "application/octet-stream" (sent_mode perm) (blen data) secs) data).
  destruct (made_object "application/octet-stream" (sent_mode perm) (blen data) secs data) as [Hmo Hmode];
    [unfold blen, ISIZE_MAX, I64_MAX, U64_MAX in *; lia|done|by rewrite sent_mode_file|]. fold o in Hmo, Hmode.
  assert (is_dir_ob o = false) as Hnd.
  { unfold is_dir_ob. by rewrite Hmode, wire_mode_dir, sent_mode_file. }
  destruct (store_child ps n po o (sent_mode perm) (mkWorld (rw_store w) clock)) as (w' & po' & E & Hc' & R & Hre);
    [done..|by rewrite Hnd|].
  exists w', ps, n, po, po', o. split_and!; try done; [|by rewrite Hmode; apply sent_mode_perm].
  unfold write_file. cbn [fs_open_file fs]. unfold open_file.
  change (OpenFlags.is_write _) with true. cbn [negb]. rewrite clean_path_of_parts by done.
  change (_ || _) with true. cbn iota. unfold mbind at 1, eff_bind at 1. cbn beta iota.
  apply (write_whole (put_file_object base)); [done|].
  unfold put_file_object, mbind at 1, eff_bind at 1. rewrite Em. fold (K (ps ++ [n])). exact E.
Qed.

(** What an operation on a consistent store may do. *)
Definition keeps (m : M W unit) (w : W) : Prop := ∃ r w', m w = (r, w')
  ∧ consistent (rw_store w') ∧ clock_ok (rw_clock w')
  ∧ (r = Ok tt ∨ ∃ e, r = Err e ∧ rw_store w' = rw_store w).

Lemma has_parent_ok op ps n po (w : W) : Forall good_part (ps ++ [n]) →
  bt_get (K ps) (rw_store w) = Some po → has_parent base op (of_parts (ps ++ [n])) w = (Ok tt, w).
Proof.
  intros Hg Hpo. unfold has_parent. rewrite parent_of_parts by done. fold (K ps).
  unfold mbind, eff_bind, store, zoom. cbn. rewrite Hpo. by destruct w.
Qed.

Lemma mkdir_keeps name perm (w : W) : consistent (rw_store w) → clock_ok (rw_clock w) →
  place (rw_store w) name → keeps (mkdir base name perm) w.
Proof.
  intros C Hc (ps & n & po & -> & Hps & Hn & Hpo & Hdir & Hfree).
  pose proof (snoc_good _ _ Hps (proj2 Hn)) as Hpn.
  destruct (listing_run [] w Hc) as (o & clock & El & Hre & Hc1).
  assert (names o = []) as Hno by (rewrite (relisted_names o []); [done|done|split; constructor]).
  destruct Hre as (Hmo & Hdo & _).
  destruct (store_child ps n po o (dir_mode 493) (mkWorld (rw_store w) clock)) as (w' & po' & E & Hc' & R & _);
    [done..|by rewrite made_dir|done|].
  exists (Ok tt), w'. split_and!; [|by eapply relinked_consistent|done|by left].
  unfold mkdir. rewrite clean_path_of_parts by done. unfold mbind at 1, eff_bind at 1.
  rewrite (has_parent_ok _ _ _ po) by done. cbn beta iota.
  unfold put_directory_object, mbind, eff_bind. rewrite El. exact E.
Qed.

Lemma symlink_keeps target name (w : W) : consistent (rw_store w) → clock_ok (rw_clock w) →
  place (rw_store w) name → blen (bytes_of target) ≤ U64_MAX → keeps (symlink base target name) w.
Proof.
  intros C Hc (ps & n & po & -> & Hps & Hn & Hpo & Hdir & Hfree) Hlen.
  pose proof (snoc_good _ _ Hps (proj2 Hn)) as Hpn.
  destruct (metadata_run "application/x-symlink" (symlink_mode 511) (blen (bytes_of target)) w Hc)
    as (secs & clock & Em & Hsecs & Hc1).
  set (o := mkObject (r2_headers "application/x-symlink" (symlink_mode 511) (blen (bytes_of target)) secs) (bytes_of target)).
  destruct (made_object "application/x-symlink" (symlink_mode 511) (blen (bytes_of target)) secs (bytes_of target))
    as [Hmo Hmode]; [unfold blen in *; lia|done|done|]. fold o in Hmo, Hmode.
  destruct (store_child ps n po o (symlink_mode 511) (mkWorld (rw_store w) clock)) as (w' & po' & E & Hc' & R & _);
    [done..|by unfold is_dir_ob; rewrite Hmode|].
  exists (Ok tt), w'. split_and!; [|by eapply relinked_consistent|done|by left].
  unfold symlink. rewrite clean_path_of_parts by done. unfold mbind at 1, eff_bind at 1.
  rewrite (has_parent_ok _ _ _ po) by done. cbn beta iota.
  unfold mbind at 1, eff_bind at 1. rewrite Em. exact E.
Qed.

Lemma load_run name (w : W) : consistent (rw_store w) → clean_path name = name →
  match bt_get (key base name) (rw_store w) with
  | None => load base name w = (Err (EPath "r2fs" name NotFound), w)
  | Some o => ∃ md, load base name w
      = (Ok (mkNode md (ob_body o) (if is_dir_ob o then node_entry <$> names o else [])), w)
      ∧ m_mode md = ob_mode o
  end.
Proof.
  intros C Hn. unfold load, get_object. unfold_eff. unfold store, zoom. cbn -[parse_object].
  destruct (bt_get (key base name) (rw_store w)) as [o|] eqn:E; [|by destruct w].
  destruct (made_parse name o (c_made _ C _ _ E)) as (md & Ep & Hmd). exists md.
  cbn -[parse_object]. rewrite Ep. by destruct w.
Qed.

Lemma remove_keeps ps n (w : W) : consistent (rw_store w) → clock_ok (rw_clock w) →
  Forall good_part (ps ++ [n]) → keeps (remove base (of_parts (ps ++ [n]))) w.
Proof.
  intros C Hc Hg. pose proof (load_run (of_parts (ps ++ [n])) w C (clean_path_of_parts _ Hg)) as Hl.
  fold (K (ps ++ [n])) in Hl. unfold keeps, remove. rewrite clean_path_of_parts by done.
  destruct (bt_get (K (ps ++ [n])) (rw_store w)) as [o|] eqn:Ho.
  2:{ exists (Err (EPath "r2fs" (of_parts (ps ++ [n])) NotFound)), w. unfold mbind, eff_bind. rewrite Hl.
      split_and!; eauto. }
  destruct Hl as (md & El & Hmd). unfold mbind at 1, eff_bind at 1. setoid_rewrite El. cbn beta iota.
  cbn [rn_metadata rn_entries]. unfold Meta.is_dir. rewrite Hmd. fold (is_dir_ob o).
  destruct (is_dir_ob o && negb (bool_decide ((if is_dir_ob o then node_entry <$> names o else []) = []))) eqn:Hne.
  { eexists _, w. split_and!; [reflexivity|done|done|right; eauto]. }
  assert (free (rw_store w) (ps ++ [n])) as Hfree.
  { intros x Hx Hd. rewrite Ho in Hx. injection Hx as <-. rewrite Hd in Hne. cbn in Hne.
    apply negb_false_iff, bool_decide_eq_true in Hne. by apply fmap_nil_inv in Hne. }
  destruct (c_up _ C ps n o Hg Ho) as (po & Hpo & Hdir & _).
  pose proof Hg as [Hps Hn]%Forall_app. rewrite Forall_singleton in Hn.
  set (w1 := mkWorld (bt_remove (K (ps ++ [n])) (rw_store w)) (rw_clock w)).
  assert (bt_get (K ps) (rw_store w1) = Some po) as Hpo1.
  { cbn. rewrite bt_get_remove_ne; [done|]. by apply not_eq_sym, K_snoc_ne. }
  destruct (update_alone ps n None po w1 Hg Hpo1 Hc) as (po' & clock & E & Hre & Hc').
  exists (Ok tt), (mkWorld (bt_insert (K ps) po' (rw_store w1)) clock). split_and!; [exact E| |done|by left].
  eapply relinked_consistent; [done|]. by apply (unlinked (rw_store w) ps n po po').
Qed.

(** The two updates of a rename, of a file or a link, are unlinking it and linking it. *)
Lemma rename_stored ps n qs l o po (w : W) : consistent (rw_store w) → clock_ok (rw_clock w) →
  Forall good_part (ps ++ [n]) → bt_get (K (ps ++ [n])) (rw_store w) = Some o → is_dir_ob o = false →
  Forall good_part qs → listable l → bt_get (K qs) (rw_store w) = Some po → is_dir_ob po = true →
  free (rw_store w) (qs ++ [l]) → ps ++ [n] ≠ qs ++ [l] →
  ∃ w', (store (os_put (K (qs ++ [l])) o) ;; store (os_delete (K (ps ++ [n]))) ;;
      update_parent_listing base (of_parts (ps ++ [n])) None ;;
      update_parent_listing base (of_parts (qs ++ [l])) (Some (ob_mode o))) w = (Ok tt, w')
    ∧ consistent (rw_store w') ∧ clock_ok (rw_clock w').
Proof.
  intros C Hc Hg Ho Hnd Hqs Hl Hpo Hdir Hfree Hne. pose proof (snoc_good _ _ Hqs (proj2 Hl)) as Hql.
  pose proof Hg as [Hps Hn]%Forall_app. rewrite Forall_singleton in Hn.
  destruct (c_up _ C ps n o Hg Ho) as (pp & Hpp & Hdp & Hnp).
  assert (K (qs ++ [l]) ≠ K (ps ++ [n])) as N1 by (intros E%K_inj; [by subst|done..]).
  assert (K ps ≠ K (qs ++ [l])) as N2.
  { intros E%K_inj; [|done..]. subst ps. by rewrite (Hfree pp Hpp Hdp) in Hnp. }
  assert (K qs ≠ K (ps ++ [n])) as N3.
  { intros E. rewrite E, Ho in Hpo. injection Hpo as ->. congruence. }
  pose proof (K_snoc_ne _ _ Hps Hn) as N4. pose proof (K_snoc_ne _ _ Hqs (proj2 Hl)) as N5.
  set (m := rw_store w) in *.
  set (w1 := mkWorld (bt_remove (K (ps ++ [n])) (bt_insert (K (qs ++ [l])) o m)) (rw_clock w)).
  assert (bt_get (K ps) (rw_store w1) = Some pp) as Hpp1.
  { cbn. by rewrite bt_get_remove_ne, bt_get_insert_ne by auto. }
  destruct (update_alone ps n None pp w1 Hg Hpp1 Hc) as (pp' & clock & E1 & Hre1 & Hc1).
  assert (free m (ps ++ [n])) as Hfree1 by (intros x Hx; rewrite Ho in Hx; injection Hx as <-; congruence).
  pose proof (unlinked m ps n pp pp' C Hps Hn Hpp Hdp Hfree1 Hre1) as R1.
  pose proof (relinked_consistent _ _ _ _ _ _ _ C R1) as C1.
  set (m1 := bt_insert (K ps) pp' (bt_remove (K (ps ++ [n])) m)) in *.
  assert (∃ pq, bt_get (K qs) m1 = Some pq ∧ is_dir_ob pq = true) as (pq & Hpq & Hdq).
  { unfold m1. rewrite bt_get_insert. case_decide; [exists pp'; split; [done|apply Hre1]|].
    rewrite bt_get_remove_ne by done. by exists po. }
  set (w2 := mkWorld (bt_insert (K ps) pp' (rw_store w1)) clock).
  assert (bt_get (K qs) (rw_store w2) = Some pq) as Hpq2.
  { rewrite <- Hpq. cbn. unfold m1. rewrite !bt_get_insert. case_decide; [done|].
    by rewrite !bt_get_remove_ne, bt_get_insert_ne by auto. }
  destruct (update_alone qs l (Some (ob_mode o)) pq w2 Hql Hpq2 Hc1) as (pq' & clock2 & E2 & Hre2 & Hc2).
  assert (free m1 (qs ++ [l])) as Hfree2.
  { intros x. unfold m1. rewrite bt_get_insert_ne, bt_get_remove_ne by auto. apply Hfree. }
  assert (ob_mode o = wire_mode (ob_mode o)) as Hwire.
  { unfold ob_mode. by destruct (header_value _ _); rewrite ?wire_mode_parse. }
  pose proof (linked m1 qs l pq o (ob_mode o) pq' C1 Hqs Hl Hpq Hdq Hfree2 (c_made _ C _ _ Ho) Hwire
    ltac:(congruence) Hre2) as R2.
  exists (mkWorld (bt_insert (K qs) pq' (rw_store w2)) clock2). split_and!; [| |done].
  - unfold mbind, eff_bind. unfold store at 1 2, zoom. cbn beta iota.
    change (let '(r, t) := _ in (r, mkWorld t (rw_clock w))) with (Ok (E:=Error) tt, mkWorld (bt_insert (K (qs ++ [l])) o m) (rw_clock w)).
    cbn beta iota. cbn [rw_store rw_clock os_delete InMemoryObjectStore.in_memory].
    unfold InMemoryObjectStore.delete, modify. cbn beta iota. fold w1. rewrite E1. cbn beta iota. exact E2.
  - eapply consistent_ext; [|eapply relinked_consistent; [exact C1|exact R2]].
    intros k. cbn. unfold m1. rewrite !bt_get_insert, !bt_get_remove, !bt_get_insert.
    repeat case_decide; congruence.
Qed.

Lemma rename_keeps ps n new (w : W) : consistent (rw_store w) → clock_ok (rw_clock w) →
  Forall good_part (ps ++ [n]) → (∀ o, bt_get (K (ps ++ [n])) (rw_store w) = Some o → is_dir_ob o = false) →
  place (rw_store w) new → of_parts (ps ++ [n]) ≠ new → keeps (rename base (of_parts (ps ++ [n])) new) w.
Proof.
  intros C Hc Hg Hfile (qs & l & po & -> & Hqs & Hl & Hpo & Hdir & Hfree) Hne.
  pose proof (snoc_good _ _ Hqs (proj2 Hl)) as Hql. unfold keeps, rename.
  rewrite !clean_path_of_parts by done. unfold mbind at 1, eff_bind at 1.
  setoid_rewrite (has_parent_ok "rename" qs l po w Hql Hpo). cbn beta iota.
  fold (K (ps ++ [n])) (K (qs ++ [l])).
  assert (get_object base (of_parts (ps ++ [n])) w
    = (match bt_get (K (ps ++ [n])) (rw_store w) with Some o => Ok o
       | None => Err (EPath "r2fs" (of_parts (ps ++ [n])) NotFound) end, w)) as Hget.
  { unfold get_object. fold (K (ps ++ [n])). unfold_eff. unfold store, zoom. cbn.
    destruct (bt_get _ _); by destruct w. }
  unfold mbind at 1, eff_bind at 1. setoid_rewrite Hget.
  destruct (bt_get (K (ps ++ [n])) (rw_store w)) as [o|] eqn:Ho.
  2:{ eexists _, w. split_and!; [reflexivity|done|done|right; eauto]. }
  specialize (Hfile o eq_refl). destruct (made_parse (of_parts (ps ++ [n])) o (c_made _ C _ _ Ho)) as (md & Ep & Hmd).
  destruct (rename_stored ps n qs l o po w) as (w' & E & C' & Hc'); [done..|congruence|].
  exists (Ok tt), w'. split_and!; [|done|done|by left]. cbn beta iota.
  unfold mbind at 1, eff_bind at 1, lift. rewrite Ep. cbn beta iota zeta. cbn [rn_metadata].
  unfold Meta.is_dir. rewrite Hmd. fold (is_dir_ob o). rewrite Hfile. exact E.
Qed.

(** An operation of the interface. *)
Inductive Op :=
  | OWrite (name : string) (data : list byte) (perm : Z)
  | OMkdir (name : string) (perm : Z)
  | ORemove (name : string)
  | OSymlink (target name : string)
  | ORename (old new : string).

Definition apply_op (fuel : nat) (op : Op) : M W unit :=
  match op with
  | OWrite name data perm => write_file (fs base fuel) name data perm
  | OMkdir name perm => mkdir base name perm
  | ORemove name => remove base name
  | OSymlink target name => symlink base target name
  | ORename old new => rename base old new
  end.

(** What makes an operation safe: new names in directories that are there, over nothing but
    files, links and empty directories, without whitespace; not the root removed; no
    directory renamed, nothing onto itself. *)
Definition safe (m : Objects) (op : Op) : Prop :=
  match op with
  | OWrite name data _ => place m name ∧ blen data ≤ ISIZE_MAX
  | OMkdir name _ => place m name
  | ORemove name => ∃ ps n, name = of_parts (ps ++ [n]) ∧ Forall good_part (ps ++ [n])
  | OSymlink target name => place m name ∧ blen (bytes_of target) ≤ U64_MAX
  | ORename old new => ∃ ps n, old = of_parts (ps ++ [n]) ∧ Forall good_part (ps ++ [n])
      ∧ (∀ o, bt_get (K (ps ++ [n])) m = Some o → is_dir_ob o = false) ∧ place m new ∧ old ≠ new
  end.

Lemma apply_keeps fuel op (w : W) : consistent (rw_store w) → clock_ok (rw_clock w) →
  safe (rw_store w) op → keeps (apply_op fuel op) w.
Proof.
  intros C Hc. destruct op as [name data perm|name perm|name|target name|old new]; cbn [safe apply_op].
  - intros [Hp Hl]. destruct (write_run_r2 fuel name data perm w C Hc Hp Hl)
      as (w' & ps & n & po & po' & o & E & Hc' & _ & R & _).
    exists (Ok tt), w'. split_and!; [done|by eapply relinked_consistent|done|by left].
  - intros Hp. by apply mkdir_keeps.
  - intros (ps & n & -> & Hg). by apply remove_keeps.
  - intros [Hp Hl]. by apply symlink_keeps.
  - intros (ps & n & -> & Hg & Hf & Hp & Hne). by apply rename_keeps.
Qed.

(** The store a new filesystem starts from. *)
Lemma root_consistent (w : W) : rw_store w = [] → clock_ok (rw_clock w) →
  ∃ w', ensure_root base w = (Ok tt, w') ∧ consistent (rw_store w') ∧ clock_ok (rw_clock w').
Proof.
  intros Hw Hc. destruct (listing_run [] w Hc) as (o & clock & El & Hre & Hc').
  exists (mkWorld [(K [], o)] clock). split_and!; [|..|done].
  - unfold ensure_root. unfold mbind at 1, eff_bind at 1. unfold store, zoom. cbn. rewrite Hw. cbn.
    unfold put_directory_object, mbind, eff_bind. 
    replace (mkWorld [] (rw_clock w)) with w by (destruct w; cbn in *; by subst).
    rewrite El. cbn. rewrite Hw. done.
  - assert (∀ k x, bt_get k [(K [], o)] = Some x → k = K [] ∧ x = o) as Hget.
    { intros k x. cbn. case_decide; [by intros [= ->]|done]. }
    assert (names o = []) as Hno by (rewrite (relisted_names o []); [done|done|split; constructor]).
    destruct Hre as (Hm & Hd & _). split; cbn [rw_store].
    + by intros k x [_ ->]%Hget.
    + exists o. split; [|done]. cbn. by rewrite decide_True.
    + intros ps x _ [_ ->]%Hget _. rewrite Hno. split; constructor.
    + intros ps n x Hg [E _]%Hget. apply K_inj in E; [|done|done]. by destruct ps.
    + intros ps x n mode _ [_ ->]%Hget _. by rewrite Hno.
Qed.

Lemma sent_mode_link perm : FileMode.is_symlink (sent_mode perm) = false.
Proof.
  destruct (sent_mode_perm perm) as (_ & H & _). unfold FileMode.is_symlink, FileMode.contains.
  rewrite <- H. unfold FileMode.perm, FileMode.PERM_MASK. rewrite <- Z.land_assoc.
  change (Z.land 511 FileMode.SYMLINK) with 0. by rewrite Z.land_0_r.
Qed.

(** Opening a stored file gives its contents. *)
Lemma open_file_object fuel ctx name o (w : W) : consistent (rw_store w) → valid_path name = true →
  bt_get (key base name) (rw_store w) = Some o → is_dir_ob o = false →
  FileMode.is_symlink (ob_mode o) = false →
  ∃ md, open base (S fuel) ctx name w = (Ok (BoxRead (HttpFiles.read_file_of md (ob_body o))), w)
    ∧ m_mode md = ob_mode o.
Proof.
  intros C Hv Ho Hd Hs. pose proof (load_run name w C (clean_path_id _ Hv)) as Hl. rewrite Ho in Hl.
  destruct Hl as (md & El & Hmd). exists md. split; [|done].
  unfold open. cbn [follow]. rewrite Hv. cbn [negb]. rewrite clean_path_id by done.
  unfold mbind, eff_bind. rewrite El. cbn [rn_metadata]. rewrite Hmd, Hs, andb_false_r.
  unfold mret, eff_ret. cbn. unfold Meta.is_dir. rewrite Hmd. fold (is_dir_ob o). by rewrite Hd.
Qed.

Lemma write_then_read fuel k name data perm (w : W) :
  consistent (rw_store w) → clock_ok (rw_clock w) → place (rw_store w) name →
  blen data ≤ ISIZE_MAX → (length data < k)%nat →
  ∃ w', write_file (fs base (S fuel)) name data perm w = (Ok tt, w')
    ∧ read_file (fs base (S fuel)) k name w' = (Ok data, w')
    ∧ (∀ q, valid_path q = true → q ≠ name → q ≠ parent_path name →
        bt_get (key base q) (rw_store w') = bt_get (key base q) (rw_store w))
    ∧ ∃ po po', bt_get (key base (parent_path name)) (rw_store w) = Some po
        ∧ bt_get (key base (parent_path name)) (rw_store w') = Some po'
        ∧ ∀ n, bt_get n (parse_r2_listing (ob_body po'))
            = if decide (n = base_name name) then Some (sent_mode perm)
              else bt_get n (parse_r2_listing (ob_body po)).
Proof.
  intros C Hc Hp Hlen Hk.
  destruct (write_run_r2 (S fuel) name data perm w C Hc Hp Hlen)
    as (w' & ps & n & po & po' & o & E & Hc' & -> & R & Hb & Hm & Hre).
  pose proof (relinked_consistent _ _ _ _ _ _ _ C R) as C'.
  pose proof (rl_parent _ _ _ _ _ _ _ R) as Hps. pose proof (rl_name _ _ _ _ _ _ _ R) as Hn.
  pose proof (snoc_good _ _ Hps Hn) as Hpn.
  assert (bt_get (K (ps ++ [n])) (rw_store w') = Some o) as Ho.
  { rewrite (relinked_get _ _ _ _ _ _ _ _ R) by done.
    rewrite decide_False, decide_True by (done || apply not_eq_sym, snoc_ne). done. }
  exists w'. rewrite parent_of_parts, base_name_of_parts by done. split_and!; [done|..].
  - unfold read_file, open_path. unfold mbind at 1, eff_bind at 1. cbn [fs_open fs].
    destruct (open_file_object fuel (Ctx.with_origin (of_parts (ps ++ [n])) "open" Ctx.new)
      (of_parts (ps ++ [n])) o w' C' (of_parts_valid _ Hpn) Ho) as (md & Eo & _);
      [by unfold is_dir_ob; rewrite Hm, sent_mode_file|by rewrite Hm, sent_mode_link|].
    rewrite Eo, Hb. by apply (read_whole (put_file_object base)).
  - intros q (qs & -> & Hqs)%valid_as_parts N1 N2. fold (K qs).
    rewrite (relinked_get _ _ _ _ _ _ _ _ R) by done. rewrite !decide_False; [done|congruence|congruence].
  - exists po, po'. split_and!; [apply R| |].
    + fold (K ps). rewrite (relinked_get _ _ _ _ _ _ _ _ R) by done. by rewrite decide_True.
    + intros n'. pose proof (rl_names _ _ _ _ _ _ _ R n') as Hn'. unfold names in Hn'. rewrite Hn'.
      case_decide; [cbn; by rewrite Hm|done].
Qed.
End Alone.

(** A base path as [normalize_r2_base_path] leaves it. *)
Definition base_ok (base : string) : Prop := ∃ bs, Forall good_part bs ∧ base = str_join "/" bs.

Lemma normalize_base path : normalize_r2_base_path path = "." ∨ base_ok (normalize_r2_base_path path).
Proof.
  unfold normalize_r2_base_path. destruct (_ || _); [right; by exists []|].
  destruct (valid_as_parts (clean_path (trim_char "/" path)) (clean_path_valid _)) as ([|p ps] & E & Hps); rewrite E.
  - by left.
  - right. by exists (p :: ps).
Qed.

(** The worlds that safe operations lead to. *)
Inductive reached (base : string) (fuel : nat) : World Objects → Prop :=
  | reached_new w : rw_store w = [] → clock_ok (rw_clock w) → reached base fuel (ensure_root base w).2
  | reached_op w op : reached base fuel w → safe base (rw_store w) op →
      reached base fuel (apply_op base fuel op w).2.

(** C19. Listings and objects agree: after any sequence of safe operations on a new
    filesystem the root is a directory, every object is in a directory that lists it with
    its mode, every name a directory lists has an object of that mode, and each operation
    returns success or an error that changed nothing. *)
Theorem r2_consistent base fuel w : base_ok base → reached base fuel w →
  consistent base (rw_store w)
  ∧ ∀ op, safe base (rw_store w) op → ∃ r w', apply_op base fuel op w = (r, w')
      ∧ (r = Ok tt ∨ ∃ e, r = Err e ∧ rw_store w' = rw_store w).
Proof.
  intros (bs & Hbs & Hbase) Hr.
  assert (consistent base (rw_store w) ∧ clock_ok (rw_clock w)) as [C Hc].
  { induction Hr as [w Hw Hc|w op Hr [C Hc] Hs].
    - destruct (root_consistent base bs Hbs Hbase w Hw Hc) as (w' & E & C & Hc'). by rewrite E.
    - destruct (apply_keeps base bs Hbs Hbase fuel op w C Hc Hs) as (r & w' & E & C' & Hc' & _). by rewrite E. }
  split; [done|]. intros op Hs.
  destruct (apply_keeps base bs Hbs Hbase fuel op w C Hc Hs) as (r & w' & E & _ & _ & H). eauto.
Qed.

(** A file that is written is read back with its bytes; its directory lists it with the
    permissions asked for (644 octal for none), every other name of the directory as before,
    and the objects of all other paths are untouched. *)
Theorem r2_write_read base fuel k name data perm (w : World Objects) : base_ok base →
  consistent base (rw_store w) → clock_ok (rw_clock w) → place base (rw_store w) name →
  blen data ≤ ISIZE_MAX → (length data < k)%nat →
  ∃ w', @write_file _ _ (r2_files base) (fs base (S fuel)) name data perm w = (Ok tt, w')
    ∧ @read_file _ _ (r2_files base) (fs base (S fuel)) k name w' = (Ok data, w')
    ∧ (∀ q, valid_path q = true → q ≠ name → q ≠ parent_path name →
        bt_get (key base q) (rw_store w') = bt_get (key base q) (rw_store w))
    ∧ ∃ po po', bt_get (key base (parent_path name)) (rw_store w) = Some po
        ∧ bt_get (key base (parent_path name)) (rw_store w') = Some po'
        ∧ ∀ n, bt_get n (parse_r2_listing (ob_body po'))
            = if decide (n = base_name name) then Some (sent_mode perm)
              else bt_get n (parse_r2_listing (ob_body po)).
Proof. intros (bs & Hbs & Hbase). by apply (write_then_read base bs). Qed.

(** ** Examples of the object-store filesystem

    The theorems of [R2Props] at concrete stores, and what [R2Fs] does where operations are
    not safe. *)

Definition outcome_ok {A} (r : Result A) : option A := match r with Ok a => Some a | _ => None end.

Definition zero_clock : nat → Z := λ _, 0.

(** A new filesystem on the base path ["b/"]. *)
Definition fresh : World Objects := (with_base_path "b/" [] zero_clock).2.

Lemma fresh_base : base_ok "b" ∧ reached "b" 2 fresh.
Proof.
  split.
  - exists ["b"]. split; [|done]. apply Forall_singleton. by vm_compute.
  - apply (reached_new "b" 2 (mkWorld [] zero_clock)); [done|]. intros i. by vm_compute.
Qed.

Lemma fresh_place : place "b" (rw_store fresh) "f".
Proof.
  destruct (bt_get (K "b" []) (rw_store fresh)) as [po|] eqn:E; [|by vm_compute in E].
  exists [], "f", po. split_and!; [done|constructor| |done| |].
  - split; [by apply plain_ascii|by vm_compute].
  - vm_compute in E. injection E as <-. by vm_compute.
  - intros o Ho. by vm_compute in Ho.
Qed.

Lemma r2_consistent_witness :
  ∃ r w', apply_op "b" 2 (OWrite "f" [x01] 0) fresh = (r, w')
    ∧ (r = Ok tt ∨ ∃ e, r = Err e ∧ rw_store w' = rw_store fresh).
Proof.
  destruct fresh_base as [Hb Hr]. destruct (r2_consistent "b" 2 fresh Hb Hr) as [_ H].
  apply H. split; [exact fresh_place|by vm_compute].
Defined.

Lemma fresh_consistent : consistent "b" (rw_store fresh) ∧ clock_ok (rw_clock fresh).
Proof.
  destruct (root_consistent "b" ["b"] ltac:(apply Forall_singleton; by vm_compute) eq_refl (mkWorld [] zero_clock))
    as (w' & E & C & Hc); [done|intros i; by vm_compute|].
  replace fresh with w'; [done|]. change fresh with ((ensure_root "b" (mkWorld [] zero_clock)).2). by rewrite E.
Qed.

Lemma r2_write_read_witness :
  ∃ w', @write_file _ _ (r2_files "b") (fs "b" 1) "f" [x01; x02] 0 fresh = (Ok tt, w')
    ∧ @read_file _ _ (r2_files "b") (fs "b" 1) 3 "f" w' = (Ok [x01; x02], w').
Proof.
  destruct fresh_base as [Hb _]. destruct fresh_consistent as [C Hc].
  destruct (r2_write_read "b" 0 3 "f" [x01; x02] 0 fresh Hb C Hc fresh_place) as (w' & E1 & E2 & _);
    [by vm_compute|cbn; lia|]. eauto.
Defined.

(** Another thread lists a file of its own between the read of the listing and the swap:
    the swap fails once and both entries are there in the end. *)
Definition busy : World Shared :=
  mkWorld (mkShared [("/", mkObject [] [])]
    (λ i objects, match i with
      | 1%nat => bt_insert "/" (mkObject [] (bytes_of ("other 33188" +:+ String NEWLINE ""))) objects
      | _ => objects
      end)) zero_clock.

Lemma r2_no_lost_update_witness :
  ∃ w', update_parent_listing "" "mine" (Some 420) busy = (Ok tt, w')
    ∧ ∃ k found metadata,
        sh_objects (rw_store w') = bt_insert "/" (mkObject metadata
          (bytes_of (format_r2_listing (changed "mine" (Some 420) (parse_r2_listing (ob_body found))))))
          (others k (rw_store busy)).
Proof.
  destruct (update_parent_listing "" "mine" (Some 420) busy) as [r w'] eqn:E.
  destruct (r2_no_lost_update "" "mine" (Some 420) busy r w' E) as [k Hk].
  assert (r = Ok tt) as ->.
  { change r with ((r, w').1). rewrite <- E. by vm_compute. }
  exists w'. split; [done|]. exists k. destruct Hk as [[H _]|(found & md & _ & H)]; [by vm_compute in H|].
  by exists found, md.
Defined.

Example busy_keeps_both :
  bt_keys (parse_r2_listing (ob_body (default (mkObject [] [])
    (bt_get "/" (sh_objects (rw_store (update_parent_listing "" "mine" (Some 420) busy).2))))))
  = ["mine"; "other"].
Proof. by vm_compute. Qed.

(** ** What goes wrong *)

Section Wrong.
#[local] Instance b_files : FileHandle (World Objects) HttpHandle := r2_files "b".
Local Abbreviation F := (fs (S:=Objects) "b" 3).

Definition keys_after {A} (m : M (World Objects) A) : list string := bt_keys (rw_store (m fresh).2).

(** Renaming a file onto itself deletes it: the object is put under its own key and then
    deleted there. *)
Lemma r2_rename_onto_itself :
  (write_file F "f" [x01] 0 fresh).1 = Ok tt
  ∧ ((write_file F "f" [x01] 0 ;; fs_rename F "f" "f") fresh).1 = Ok tt
  ∧ keys_after (write_file F "f" [x01] 0 ;; fs_rename F "f" "f") = ["/b"].
Proof. split_and!; by vm_compute. Qed.

(** Making a directory that is there succeeds and empties its listing; the objects below it
    stay in the store but are listed nowhere. *)
Lemma r2_mkdir_again :
  let again := (fs_mkdir F "d" 0 ;; write_file F "d/x" [x02] 0 ;; fs_mkdir F "d" 0) in
  (again fresh).1 = Ok tt
  ∧ ((again ;; read_dir_path F "d") fresh).1 = Ok []
  ∧ keys_after again = ["/b"; "/b/d"; "/b/d/x"].
Proof. split_and!; by vm_compute. Qed.

(** Only the presence of a parent is looked at: writing below a file replaces the file by a
    directory, its contents read as a listing. *)
Lemma r2_write_below_file :
  let below := (write_file F "f" [x01] 0 ;; write_file F "f/x" [x02] 0) in
  (below fresh).1 = Ok tt
  ∧ FileMode.is_dir <$> (m_mode <$> outcome_ok ((below ;; fs_stat F Ctx.new "f") fresh).1) = Some true.
Proof. split_and!; by vm_compute. Qed.

(** Without a root object no file can be made any more: the listing that is made up for a
    missing root is also what the swap expects to find. *)
Lemma r2_missing_root :
  (fs_remove F "." fresh).1 = Ok tt
  ∧ ((fs_remove F "." ;; write_file F "f" [x01] 0) fresh).1
    = Err (EMessage "r2fs compare-and-swap conflict for .").
Proof. split_and!; by vm_compute. Qed.

(** A write whose parent is missing stores the object and fails: it is listed nowhere. *)
Lemma r2_orphan :
  (write_file F "n/f" [x01] 0 fresh).1 = Err (EPath "r2fs" "n" NotFound)
  ∧ keys_after (write_file F "n/f" [x01] 0) = ["/b"; "/b/n/f"].
Proof. split_and!; by vm_compute. Qed.

(** A directory can be renamed into itself: it ends below a key that has no directory. *)
Lemma r2_rename_into_itself :
  let inside := (fs_mkdir F "d" 0 ;; write_file F "d/x" [x02] 0 ;; fs_rename F "d" "d/e") in
  (inside fresh).1 = Err (EPath "r2fs" "d" NotFound)
  ∧ keys_after inside = ["/b"; "/b/d/e/e"; "/b/d/e/x"].
Proof. split_and!; by vm_compute. Qed.

(** Appending replaces the contents, as over HTTP. *)
Lemma r2_append_truncates :
  ((write_file F "f" [x01] 0 ;; append_file F "f" [x02] ;; read_file F 3 "f") fresh).1 = Ok [x02].
Proof. by vm_compute. Qed.

(** A name with a space is listed as its first word. *)
Lemma r2_listing_cut :
  (d_name <$> default [] (outcome_ok ((write_file F "a b" [x01] 0 ;; read_dir_path F ".") fresh).1)) = ["a"].
Proof. by vm_compute. Qed.
End Wrong.

(** The store with a symbolic link to itself. *)
Definition looped : World Objects := (symlink "b" "l" "l" fresh).2.

Definition link_node : R2Node :=
  default (mkNode (Meta.new "" 0) [] []) (outcome_ok (load "b" "l" looped).1).

Lemma looped_load : load "b" "l" looped = (Ok link_node, looped).
Proof. by vm_compute. Qed.

(** A symbolic link to itself is followed without end. *)
Lemma r2_link_loop fuel : (stat "b" fuel Ctx.new "l" looped).1 = NoFuel.
Proof.
  unfold stat, mbind, eff_bind.
  assert (follow "b" fuel "stat" Ctx.new "l" looped = (NoFuel, looped)) as ->; [|done].
  induction fuel as [|fuel IH]; [done|]. cbn [follow].
  change (negb (valid_path "l")) with false. change (clean_path "l") with "l".
  unfold mbind, eff_bind. rewrite looped_load.
  change (follow_symlinks Ctx.new && FileMode.is_symlink (m_mode (rn_metadata link_node))) with true.
  change (resolved "l" (from_utf8_lossy (rn_body link_node))) with "l". exact IH.
Qed.
