(* ===== verification/SyncSched.v ===== *)
(** * star9-fs: the debounced sync scheduler

    Models [DebouncedSyncScheduler], [SyncScheduleSnapshot] and
    [DebouncedSyncBackgroundHandle] of [crates/star9-fs/src/syncfs.rs].

    Each definition below is what one method does while it holds the scheduler's
    lock.  [run_due] and [flush] put them together around a sync; [step] lets any
    number of callers and the background thread run them in any order, a sync being
    the time between the steps that begin and finish an attempt.  The thread is in
    one of the places of [Worker]; a condition variable may wake without a notice. *)

From stdpp Require Import base list numbers option strings gmap pretty.
From Stdlib Require Import ZArith Lia Ascii.
From S2P Require Import Prelude Strs Core FsTrait.

Local Open Scope Z_scope.

Record DebouncedSyncState := mkDebounced {
  ds_requested_at : option Z;
  ds_last_error : option string;
  ds_request_serial : Z;
  ds_failed_request_serial : option Z;
  ds_background_running : bool;
  ds_shutdown_requested : bool
}.

Record SyncScheduleSnapshot := mkSnapshot {
  sn_pending : bool;
  sn_requested_at : option Z;
  sn_due_at : option Z;
  sn_last_error : option string
}.

Class HasSched (W : Type) := {
  sched_of : W → DebouncedSyncState;
  set_sched : DebouncedSyncState → W → W;
  sched_set s w : sched_of (set_sched s w) = s
}.

Module Sched.

(** [SystemTime::checked_add]: the seconds of a time are an [i64]. *)
Definition checked_add_time (t d : Z) : option Z :=
  if t + d <? (I64_MAX + 1) * 1000000000 then Some (t + d) else None.

(** [unix_millis(t).unwrap_or(0)] *)
Definition unix_millis_or_0 (t : Z) : Z := if t <? 0 then 0 else t / 1000000.

Definition status_text (s : SyncScheduleSnapshot) : string :=
  let fields := ["pending=" +:+ (if sn_pending s then "true" else "false")]
    ++ match sn_requested_at s with
       | Some t => ["requested_at=" +:+ pretty (unix_millis_or_0 t)] | None => [] end
    ++ match sn_due_at s with
       | Some t => ["due_at=" +:+ pretty (unix_millis_or_0 t)] | None => [] end
    ++ match sn_last_error s with Some e => ["last_error=" +:+ e] | None => [] end in
  String.concat " " fields.

(** [DebouncedSyncState::default()] *)
Definition initial : DebouncedSyncState := mkDebounced None None 0 None false false.

Section Sched.
Context (debounce : Z).

Definition due_at (requested_at : Z) : Z :=
  default requested_at (checked_add_time requested_at debounce).

Definition request (now : Z) (s : DebouncedSyncState) : DebouncedSyncState :=
  mkDebounced (Some now) None ((ds_request_serial s + 1) mod (U64_MAX + 1)) None
    (ds_background_running s) (ds_shutdown_requested s).

Definition pending (s : DebouncedSyncState) : bool :=
  bool_decide (is_Some (ds_requested_at s)).

Definition is_due (now : Z) (s : DebouncedSyncState) : bool :=
  match ds_requested_at s with Some r => due_at r <=? now | None => false end.

Definition snapshot (s : DebouncedSyncState) : SyncScheduleSnapshot :=
  mkSnapshot (pending s) (ds_requested_at s) (due_at <$> ds_requested_at s) (ds_last_error s).

(** The first lock of [run_due]: the serial of the attempt to make. *)
Definition due_serial (now : Z) (s : DebouncedSyncState) : option Z :=
  if is_due now s then Some (ds_request_serial s) else None.

Definition finish_sync_attempt (serial : Z) (result : Result unit) (s : DebouncedSyncState)
    : DebouncedSyncState :=
  if ds_request_serial s =? serial then
    match result with
    | Ok _ =>
        mkDebounced None None (ds_request_serial s) None (ds_background_running s)
          (ds_shutdown_requested s)
    | Err e =>
        mkDebounced (ds_requested_at s) (Some (Error_display e)) (ds_request_serial s)
          (Some serial) (ds_background_running s) (ds_shutdown_requested s)
    | _ => s
    end
  else s.

(** ** [run_due] and [flush] around [SyncFs::sync] *)

Section Attempt.
Context {W : Type} `{!HasSched W} (sync : M W unit).

Definition sched_state : M W DebouncedSyncState := gets sched_of.
Definition update_sched (f : DebouncedSyncState → DebouncedSyncState) : M W unit :=
  modify (λ w, set_sched (f (sched_of w)) w).

Definition run_sync_attempt (serial : Z) : M W unit :=
  result ← attempt sync;
  update_sched (finish_sync_attempt serial result) ;;
  lift result.

Definition run_due (now : Z) : M W bool :=
  s ← sched_state;
  match due_serial now s with
  | None => mret false
  | Some serial => run_sync_attempt serial ;; mret true
  end.

Definition flush : M W unit :=
  s ← sched_state; run_sync_attempt (ds_request_serial s).
End Attempt.

(** ** The background thread *)

(** What the inner loop of [run_background] does with the lock at [now]. *)
Inductive Poll := PollExit | PollWait | PollNap (delay : Z) | PollAttempt (serial : Z).

Definition poll (now : Z) (s : DebouncedSyncState) : Poll :=
  if ds_shutdown_requested s then PollExit
  else
    match ds_requested_at s with
    | None => PollWait
    | Some requested_at =>
        if bool_decide (ds_failed_request_serial s = Some (ds_request_serial s)) then PollWait
        else
          let delay := Z.max 0 (due_at requested_at - now) in
          if delay =? 0 then PollAttempt (ds_request_serial s) else PollNap delay
    end.

Definition set_background (running shutdown : bool) (s : DebouncedSyncState)
    : DebouncedSyncState :=
  mkDebounced (ds_requested_at s) (ds_last_error s) (ds_request_serial s)
    (ds_failed_request_serial s) running shutdown.

(** The first lock of [start_background]. *)
Definition start_background (s : DebouncedSyncState) : Result DebouncedSyncState :=
  if ds_background_running s then Err (EMessage "background scheduler already running")
  else Ok (set_background true false s).

(** The thread could not be spawned, or it leaves its loop.  A thread that a panic of
    the sync ends leaves [background_running] set; [step] has no such panic. *)
Definition stop_background : DebouncedSyncState → DebouncedSyncState :=
  set_background false false.

(** The lock of [shutdown_inner], which [shutdown] takes twice: itself, and by the drop
    of the handle. *)
Definition shutdown_inner (s : DebouncedSyncState) : DebouncedSyncState :=
  set_background (ds_background_running s) true s.

(** ** Interleavings *)

(** [Spawning] is between the lock of [start_background] and the thread's start;
    [Sleeping] waits for a notice, [Napping] for one or for a time. *)
Inductive Worker := NoWorker | Spawning | Looping | Sleeping | Napping (until : Z) | Attempting.

Record System := mkSystem {
  sy_state : DebouncedSyncState;
  sy_worker : Worker;
  sy_attempts : gmap nat Z
}.

(** Thread [0] is the background thread. *)
Inductive Event :=
| EvRequest (now : Z)
| EvBegin (t : nat)
| EvFinish (t : nat) (result : Result unit)
| EvStart
| EvSpawned
| EvSpawnFailed
| EvShutdown
| EvWait
| EvWake
| EvExit.

(** [notify_all] *)
Definition notify (w : Worker) : Worker :=
  match w with Sleeping | Napping _ => Looping | w => w end.

Definition after_finish (t : nat) (w : Worker) : Worker :=
  match t with O => Looping | S _ => notify w end.

Inductive step : System → Event → System → Prop :=
| step_request now s w a :
    step (mkSystem s w a) (EvRequest now) (mkSystem (request now s) (notify w) a)
| step_run_due now serial t s w a :
    t ≠ 0%nat → a !! t = None → due_serial now s = Some serial →
    step (mkSystem s w a) (EvBegin t) (mkSystem s w (<[t := serial]> a))
| step_flush t s w a :
    t ≠ 0%nat → a !! t = None →
    step (mkSystem s w a) (EvBegin t) (mkSystem s w (<[t := ds_request_serial s]> a))
| step_finish t serial result s w a :
    a !! t = Some serial → returns result →
    step (mkSystem s w a) (EvFinish t result)
      (mkSystem (finish_sync_attempt serial result s) (after_finish t w) (delete t a))
| step_start s s' w a :
    start_background s = Ok s' →
    step (mkSystem s w a) EvStart (mkSystem s' Spawning a)
| step_spawned s a :
    step (mkSystem s Spawning a) EvSpawned (mkSystem s Looping a)
| step_spawn_failed s a :
    step (mkSystem s Spawning a) EvSpawnFailed (mkSystem (stop_background s) NoWorker a)
| step_shutdown s w a :
    step (mkSystem s w a) EvShutdown (mkSystem (shutdown_inner s) (notify w) a)
| step_poll_exit now s a :
    poll now s = PollExit →
    step (mkSystem s Looping a) EvExit (mkSystem (stop_background s) NoWorker a)
| step_poll_wait now s a :
    poll now s = PollWait →
    step (mkSystem s Looping a) EvWait (mkSystem s Sleeping a)
| step_poll_nap now delay s a :
    poll now s = PollNap delay →
    step (mkSystem s Looping a) EvWait (mkSystem s (Napping (now + delay)) a)
| step_poll_attempt now serial s a :
    poll now s = PollAttempt serial →
    step (mkSystem s Looping a) (EvBegin 0) (mkSystem s Attempting (<[0%nat := serial]> a))
| step_wake s w a :
    step (mkSystem s w a) EvWake (mkSystem s (notify w) a).

Inductive steps : System → list Event → System → Prop :=
| steps_nil s : steps s [] s
| steps_snoc s tr s' e s'' : steps s tr s' → step s' e s'' → steps s (tr ++ [e]) s''.

Definition start : System := mkSystem initial NoWorker ∅.
End Sched.
End Sched.

(** ** Correctness of the debounced sync scheduler

    [sched_refines]: the serial numbers do what they are for.  The reference
    [Observed] has none: it remembers of every attempt under way whether a request
    was made since it began.  [sched_worker]: one background thread at most, and it
    sleeps only while there is nothing for it to do. *)

Import Sched.

(** ** The reference *)

(** [ob_current] says of an attempt under way that no request was made since it
    began: only such an attempt can answer the request or report its error. *)
Record Observed := mkObserved {
  ob_outstanding : option Z;
  ob_error : option string;
  ob_current : gmap nat bool
}.

Definition observe (o : Observed) (e : Event) : Observed :=
  match e with
  | EvRequest now => mkObserved (Some now) None ((λ _, false) <$> ob_current o)
  | EvBegin t => mkObserved (ob_outstanding o) (ob_error o) (<[t := true]> (ob_current o))
  | EvFinish t result =>
      let rest := delete t (ob_current o) in
      match ob_current o !! t, result with
      | Some true, Ok _ => mkObserved None None rest
      | Some true, Err e => mkObserved (ob_outstanding o) (Some (Error_display e)) rest
      | _, _ => mkObserved (ob_outstanding o) (ob_error o) rest
      end
  | _ => o
  end.

Definition observed (tr : list Event) : Observed :=
  foldl observe (mkObserved None None ∅) tr.

Definition is_request (e : Event) : bool := match e with EvRequest _ => true | _ => false end.

Definition requests (tr : list Event) : Z :=
  Z.of_nat (length (filter (λ e, is_request e = true) tr)).

Section Props.
Context (debounce : Z).

(** The attempts whose serial is the current one are those the reference calls
    current. *)
Record matches (n : Z) (s : System) (o : Observed) : Prop := {
  mt_requested : ds_requested_at (sy_state s) = ob_outstanding o;
  mt_error : ds_last_error (sy_state s) = ob_error o;
  mt_serial : ds_request_serial (sy_state s) = n;
  mt_past t serial : sy_attempts s !! t = Some serial → serial ≤ n;
  mt_current t : ob_current o !! t = (λ serial, bool_decide (serial = n)) <$> sy_attempts s !! t
}.

Lemma requests_snoc tr e :
  requests (tr ++ [e]) = requests tr + (if is_request e then 1 else 0).
Proof.
  unfold requests. rewrite filter_app, length_app, filter_cons, filter_nil.
  case_decide as Hd; destruct (is_request e); try congruence; cbn [length]; lia.
Qed.

Lemma matches_request n now s w a o : n < U64_MAX → 0 ≤ n → matches n (mkSystem s w a) o →
  matches (n + 1) (mkSystem (request now s) (notify w) a) (observe o (EvRequest now)).
Proof.
  intros Hn H0 [Hr He Hs Hp Hc]. cbn in *. split; cbn; [done|done| | |].
  - rewrite Hs. apply Z.mod_small. lia.
  - intros t serial Ht. specialize (Hp t serial Ht). lia.
  - intros t. rewrite lookup_fmap, Hc. destruct (a !! t) as [serial|] eqn:Ht; [|done].
    cbn. specialize (Hp t serial Ht). rewrite bool_decide_eq_false_2 by lia. done.
Qed.

Lemma matches_begin n t s w w' a o : matches n (mkSystem s w a) o →
  matches n (mkSystem s w' (<[t := ds_request_serial s]> a)) (observe o (EvBegin t)).
Proof.
  intros [Hr He Hs Hp Hc]. cbn in *. split; cbn; [done..| |].
  - intros t' serial Ht. apply lookup_insert_Some in Ht as [[_ <-]|[_ Ht]]; [lia|eauto].
  - intros t'. destruct (decide (t = t')) as [<-|Hne].
    + rewrite !lookup_insert_eq. cbn. by rewrite bool_decide_eq_true_2.
    + by rewrite !lookup_insert_ne.
Qed.

Lemma matches_delete n t s w' a o d r e : matches n s o → sy_attempts s = a →
  ds_requested_at d = r → ds_last_error d = e → ds_request_serial d = n →
  matches n (mkSystem d w' (delete t a)) (mkObserved r e (delete t (ob_current o))).
Proof.
  intros [_ _ _ Hp Hc] <- Hr He Hs. split; cbn; [done..| |].
  - intros t' serial [_ Ht]%lookup_delete_Some. eauto.
  - intros t'. destruct (decide (t = t')) as [<-|Hne].
    + by rewrite !lookup_delete_eq.
    + rewrite !lookup_delete_ne by done. apply Hc.
Qed.

Lemma matches_finish n t serial result s w w' a o :
  a !! t = Some serial → returns result → matches n (mkSystem s w a) o →
  matches n (mkSystem (finish_sync_attempt serial result s) w' (delete t a))
    (observe o (EvFinish t result)).
Proof.
  intros Ht Hres Hm. pose proof Hm as [Hr He Hs Hp Hc]. cbn in Hr, He, Hs, Hp, Hc.
  pose proof (Hc t) as Hct. rewrite Ht in Hct. cbn in Hct.
  unfold finish_sync_attempt, observe. rewrite Hct, Hs.
  destruct (Z.eqb_spec n serial) as [->|Hne].
  - rewrite bool_decide_eq_true_2 by done.
    destruct result as [u|e| |]; [| |done..]; by eapply matches_delete.
  - rewrite bool_decide_eq_false_2 by congruence. destruct result; by eapply matches_delete.
Qed.

Lemma matches_observe_flags n s s' w w' a o : matches n (mkSystem s w a) o →
  ds_requested_at s' = ds_requested_at s → ds_last_error s' = ds_last_error s →
  ds_request_serial s' = ds_request_serial s → matches n (mkSystem s' w' a) o.
Proof. intros [Hr He Hs Hp Hc] H1 H2 H3. cbn in *. split; cbn; congruence || done. Qed.

Lemma matches_step n s e s' o :
  0 ≤ n → n + (if is_request e then 1 else 0) ≤ U64_MAX → step debounce s e s' →
  matches n s o → matches (n + (if is_request e then 1 else 0)) s' (observe o e).
Proof.
  intros H0 Hn Hstep Hm. destruct Hstep; cbn [is_request] in *; rewrite ?Z.add_0_r in *.
  - apply matches_request; (done || lia).
  - unfold due_serial in *. destruct (is_due _ _ _); simplify_eq. by eapply matches_begin.
  - by eapply matches_begin.
  - by eapply matches_finish.
  - unfold start_background in *. destruct (ds_background_running s); simplify_eq.
    by eapply matches_observe_flags.
  - by eapply matches_observe_flags.
  - by eapply matches_observe_flags.
  - by eapply matches_observe_flags.
  - by eapply matches_observe_flags.
  - by eapply matches_observe_flags.
  - by eapply matches_observe_flags.
  - assert (serial = ds_request_serial s) as ->.
    { unfold poll in *. repeat (case_match; try done). congruence. }
    by eapply matches_begin.
  - by eapply matches_observe_flags.
Qed.

Lemma requests_nonneg tr : 0 ≤ requests tr.
Proof. unfold requests. lia. Qed.

Lemma matches_steps tr s : steps debounce start tr s → requests tr ≤ U64_MAX →
  matches (requests tr) s (observed tr).
Proof.
  remember start as s0 eqn:Hs0. intros Hst. induction Hst as [s|s tr s' e s'' Hst IH Hstep]; intros Hn.
  - subst s. split; cbn; [done..| |].
    + intros t serial Ht. by rewrite lookup_empty in Ht.
    + intros t. by rewrite !lookup_empty.
  - rewrite requests_snoc in *. unfold observed. rewrite foldl_app. cbn.
    pose proof (requests_nonneg tr). apply (matches_step _ s'); [done|done|done|].
    apply IH; [done|]. destruct (is_request e); lia.
Qed.

(** C24. The scheduler against a reference that has no serial numbers: whatever the
    interleaving of requests, of attempts by any number of callers and of the
    background thread, a request is outstanding exactly when no attempt that began
    after the last request has succeeded, and the error shown is that of the last
    finished attempt that began after the last request and failed, as long as fewer
    than [2^64] requests were made. *)
Theorem sched_refines tr s : steps debounce start tr s → requests tr ≤ U64_MAX →
  ds_requested_at (sy_state s) = ob_outstanding (observed tr)
  ∧ ds_last_error (sy_state s) = ob_error (observed tr)
  ∧ pending (sy_state s) = bool_decide (is_Some (ob_outstanding (observed tr))).
Proof.
  intros Hst Hn. destruct (matches_steps _ _ Hst Hn) as [Hr He _ _ _].
  split; [done|]. split; [done|]. unfold pending. by rewrite Hr.
Qed.

(** ** The background thread *)

Definition alive (w : Worker) : bool := match w with NoWorker => false | _ => true end.

(** The thread has reason to do what it does. *)
Definition worker_ok (s : DebouncedSyncState) (w : Worker) : Prop :=
  ds_background_running s = alive w ∧
  match w with
  | Sleeping =>
      ds_shutdown_requested s = false
      ∧ (ds_requested_at s = None ∨ ds_failed_request_serial s = Some (ds_request_serial s))
  | Napping until =>
      ds_shutdown_requested s = false
      ∧ ∃ r, ds_requested_at s = Some r ∧ until = due_at debounce r
  | _ => True
  end.

Definition worker_inv (s : System) : Prop :=
  worker_ok (sy_state s) (sy_worker s) ∧
  (is_Some (sy_attempts s !! 0%nat) ↔ sy_worker s = Attempting).

Lemma poll_spec now s w : poll debounce now s = w →
  match w with
  | PollExit => ds_shutdown_requested s = true
  | PollWait => worker_ok (set_background true (ds_shutdown_requested s) s) Sleeping
  | PollNap delay =>
      worker_ok (set_background true (ds_shutdown_requested s) s) (Napping (now + delay))
      ∧ 0 < delay
  | PollAttempt serial =>
      serial = ds_request_serial s ∧ ds_shutdown_requested s = false ∧ is_due debounce now s = true
      ∧ ds_failed_request_serial s ≠ Some serial
  end.
Proof.
  intros <-. unfold poll, worker_ok, is_due.
  destruct (ds_shutdown_requested s) eqn:Hsd; [done|].
  destruct (ds_requested_at s) as [r|] eqn:Hr; [|by cbn; auto].
  case_bool_decide as Hf; [by cbn; auto|].
  destruct (Z.eqb_spec (Z.max 0 (due_at debounce r - now)) 0) as [Hz|Hz]; cbn.
  - split; [done|]. split; [done|]. split; [apply Z.leb_le; lia|done].
  - split; [|lia]. split; [done|]. split; [done|]. exists r. split; [done|]. lia.
Qed.

(** A change of the state that is announced leaves no thread asleep. *)
Lemma worker_ok_notify s s' w : worker_ok s w →
  ds_background_running s' = ds_background_running s → worker_ok s' (notify w).
Proof. intros [Hb _] Hr. unfold worker_ok. rewrite Hr, Hb. by destruct w. Qed.

Lemma finish_running serial result s :
  ds_background_running (finish_sync_attempt serial result s) = ds_background_running s.
Proof. unfold finish_sync_attempt. destruct (_ =? _); by destruct result. Qed.

Lemma notify_attempting w : notify w = Attempting ↔ w = Attempting.
Proof. by destruct w. Qed.

Lemma worker_step s e s' : step debounce s e s' → worker_inv s → worker_inv s'.
Proof.
  intros Hstep [Hok Hat]. destruct Hstep; unfold worker_inv in *; cbn [sy_state sy_worker sy_attempts] in *.
  - split; [by eapply worker_ok_notify|]. by rewrite notify_attempting.
  - split; [done|]. by rewrite lookup_insert_ne.
  - split; [done|]. by rewrite lookup_insert_ne.
  - destruct t as [|t]; cbn [after_finish].
    + split; [|by rewrite lookup_delete_eq; split; [intros [? [=]]|]].
      destruct Hok as [Hb _]. split; [|done]. rewrite finish_running, Hb.
      by rewrite (proj1 Hat) by eauto.
    + split; [eapply worker_ok_notify; [done|]; apply finish_running|].
      rewrite lookup_delete_ne by done. by rewrite notify_attempting.
  - unfold start_background in *. destruct (ds_background_running s) eqn:Hb; simplify_eq.
    destruct Hok as [Hb' _]. destruct w; cbn in *; try congruence. split; [done|].
    split; [intros ?%Hat; done|done].
  - split; [|split; [intros ?%Hat; done|done]]. by destruct Hok.
  - split; [done|split; [intros ?%Hat; done|done]].
  - split; [by eapply worker_ok_notify|]. by rewrite notify_attempting.
  - split; [done|split; [intros ?%Hat; done|done]].
  - apply poll_spec in H. split; [|split; [intros ?%Hat; done|done]].
    destruct Hok as [Hb _]. destruct H as [_ H]. by split.
  - apply poll_spec in H as [[_ H] _]. split; [|split; [intros ?%Hat; done|done]].
    destruct Hok as [Hb _]. by split.
  - split; [|rewrite lookup_insert_eq; split; eauto]. by destruct Hok.
  - split; [by eapply worker_ok_notify|]. by rewrite notify_attempting.
Qed.

(** The background thread in every reachable state: it runs exactly when
    [background_running] says so, makes one attempt at a time, sleeps without a time
    only when no shutdown is asked for and there is no request or the last request's
    attempt failed, and naps only until the last request is due; so no notice is
    lost, and a request that is due, has not failed and meets no shutdown is
    attempted as soon as the thread looks. *)
Theorem sched_worker tr s now : steps debounce start tr s →
  worker_inv s ∧
  (sy_worker s = Looping → is_due debounce now (sy_state s) = true →
   ds_shutdown_requested (sy_state s) = false →
   ds_failed_request_serial (sy_state s) ≠ Some (ds_request_serial (sy_state s)) →
   ∃ s', step debounce s (EvBegin 0) s' ∧ sy_worker s' = Attempting).
Proof.
  intros Hst. split.
  - remember start as s0 eqn:Hs0.
    induction Hst as [s|s tr s' e s'' Hst IH Hstep]; [|by eapply worker_step; eauto].
    subst s. split; [done|]. cbn. rewrite lookup_empty. split; [by intros [? ?]|done].
  - destruct s as [s w a]. cbn. intros -> Hdue Hsd Hf. eexists.
    split; [apply (step_poll_attempt debounce now (ds_request_serial s))|done].
    unfold poll, is_due in *. rewrite Hsd. destruct (ds_requested_at s) as [r|]; [|done].
    rewrite bool_decide_eq_false_2 by done. apply Z.leb_le in Hdue.
    by rewrite (proj2 (Z.eqb_eq _ _)) by lia.
Qed.
End Props.

(** ** A run: a request during an attempt *)

(** A request at 0, a debounce of 5, an attempt of the thread from 5 on, a second request
    at 6 while it runs; the first attempt succeeds, and the second request is still
    outstanding. *)
Definition run_events : list Event :=
  [EvRequest 0; EvStart; EvSpawned; EvBegin 0; EvRequest 6; EvFinish 0 (Ok tt)].

Definition run_state : DebouncedSyncState := mkDebounced (Some 6) None 2 None true false.

Lemma steps_cons debounce s e s' tr s'' :
  step debounce s e s' → steps debounce s' tr s'' → steps debounce s (e :: tr) s''.
Proof.
  intros Hs Hst. induction Hst as [s'|s' tr s1 e' s2 Hst IH Hstep].
  - apply (steps_snoc _ s [] s); [constructor|done].
  - apply (steps_snoc _ s (e :: tr) s1); auto.
Qed.

Ltac forward t := eapply steps_cons; [solve [apply t; done]|].

Lemma run_steps : steps 5 start run_events (mkSystem run_state Looping ∅).
Proof.
  forward step_request. forward step_start. forward step_spawned.
  forward (step_poll_attempt 5 5). forward step_request. forward (step_finish 5 0 1 (Ok tt)).
  apply steps_nil.
Qed.

Lemma sched_refines_witness :
  steps 5 start run_events (mkSystem run_state Looping ∅) ∧ requests run_events ≤ U64_MAX ∧
  ds_requested_at run_state = Some 6.
Proof.
  split; [apply run_steps|]. split; [done|].
  destruct (sched_refines 5 run_events (mkSystem run_state Looping ∅) run_steps ltac:(done))
    as [Hr _].
  etransitivity; [exact Hr|]. by vm_compute.
Defined.

Lemma sched_worker_witness :
  is_due 5 11 run_state = true ∧
  ∃ s', step 5 (mkSystem run_state Looping ∅) (EvBegin 0) s' ∧ sy_worker s' = Attempting.
Proof.
  split; [done|]. destruct (sched_worker 5 run_events _ 11 run_steps) as [_ H]. by apply H.
Defined.

(** ** The drop of a handle that was shut down

    [shutdown] asks for the shutdown, waits for the thread and then drops the handle,
    which asks again.  A thread that another caller starts in between is stopped by the
    second request, and its request stays outstanding. *)
Lemma drop_stops_new_thread : ∃ tr s,
  steps 5 start tr s
  ∧ tr = [EvStart; EvSpawned; EvShutdown; EvExit; EvStart; EvSpawned; EvRequest 0; EvShutdown; EvExit]
  ∧ sy_worker s = NoWorker ∧ pending (sy_state s) = true.
Proof.
  eexists _, _. split; [|split; [reflexivity|]].
  - forward step_start. forward step_spawned. forward step_shutdown.
    forward (step_poll_exit 5 0). forward step_start. forward step_spawned.
    forward step_request. forward step_shutdown. forward (step_poll_exit 5 0). apply steps_nil.
  - done.
Qed.
