(* ===== verification/SyncProps.v ===== *)
(** * Correctness of the sync filesystem

    [push_settles]: what a push sends is clean afterwards and what is marked while it
    runs stays dirty.  [sync_changes]: the filesystem is transparent and marks every
    change. *)

From stdpp Require Import base list numbers option strings sorting.
From Stdlib Require Import ZArith Lia Ascii.
From S2P Require Import Prelude Strs BTree Core FsTrait FsLens MetaCacheProps Sync.

Local Open Scope Z_scope.

Import Sync.

(** ** What others may do to the state meanwhile: mark *)

(** [grows s s']: from [s] to [s'] paths were marked and nothing else happened to the
    dirty paths. *)
Record grows (s s' : SyncState) : Prop := {
  gr_generation : ss_next_generation s ≤ ss_next_generation s';
  gr_wf : bt_wf (ss_dirty s) → bt_wf (ss_dirty s');
  gr_new p e : bt_get p (ss_dirty s') = Some e →
    bt_get p (ss_dirty s) = Some e
    ∨ ss_next_generation s < de_generation e ≤ ss_next_generation s';
  gr_kept p e : bt_get p (ss_dirty s) = Some e → is_Some (bt_get p (ss_dirty s'))
}.

Record state_ok (s : SyncState) : Prop := {
  so_wf : bt_wf (ss_dirty s);
  so_generation p e : bt_get p (ss_dirty s) = Some e → de_generation e ≤ ss_next_generation s
}.

Lemma grows_refl s : grows s s.
Proof. split; [done|done|by left|by eauto]. Qed.

Lemma grows_trans s1 s2 s3 : grows s1 s2 → grows s2 s3 → grows s1 s3.
Proof.
  intros [G1 W1 N1 K1] [G2 W2 N2 K2]. split; [lia|auto| |].
  - intros p e He. destruct (N2 p e He) as [He2|?]; [|right; lia].
    destruct (N1 p e He2) as [?|?]; [by left|right; lia].
  - intros p e He. destruct (K1 p e He) as [e2 He2]. eauto.
Qed.

Lemma grows_marked path change s : grows s (marked path change s).
Proof.
  split; cbn; [lia|apply bt_insert_wf| |].
  - intros p e He. rewrite bt_get_insert in He. case_decide; simplify_eq; cbn; [right; lia|by left].
  - intros p e He. rewrite bt_get_insert. case_decide; eauto.
Qed.

Lemma grows_ok s s' : state_ok s → grows s s' → state_ok s'.
Proof.
  intros [Hw Hg] [G W' N K]. split; [auto|]. intros p e He.
  destruct (N p e He) as [He'|?]; [|lia]. specialize (Hg p e He'). lia.
Qed.

(** ** Computations that only mark *)

Section Marks.
Context {W : Type} `{!HasSync W}.

Definition marks_only {T A} (world : T → W) (m : M T A) : Prop :=
  ∀ t, grows (sync_of (world t)) (sync_of (world (snd (m t)))).

Context {T : Type} (world : T → W).

Lemma marks_ret {A} (a : A) : marks_only world (mret a).
Proof. intros t. apply grows_refl. Qed.

Lemma marks_lift {A} (r : Result A) : marks_only world (lift r).
Proof. intros t. apply grows_refl. Qed.

Lemma marks_bind {A B} (m : M T A) (k : A → M T B) :
  marks_only world m → (∀ a, marks_only world (k a)) → marks_only world (m ≫= k).
Proof.
  intros Hm Hk t. unfold mbind, eff_bind. specialize (Hm t).
  destruct (m t) as [[a|e| |] t']; cbn in *; [|done..].
  eapply grows_trans; [done|apply Hk].
Qed.

Lemma marks_attempt {A} (m : M T A) : marks_only world m → marks_only world (attempt m).
Proof. intros Hm t. unfold attempt. specialize (Hm t). by destruct (m t) as [[] ?]. Qed.

Lemma marks_map {A B} (f : A → M T B) l :
  (∀ a, marks_only world (f a)) → marks_only world (map_eff f l).
Proof.
  intros Hf. induction l as [|a l IH]; cbn; [apply marks_ret|].
  repeat (apply marks_bind; [done|]; intros ?). apply marks_ret.
Qed.
End Marks.

Create HintDb marks.
#[export] Hint Resolve marks_ret marks_lift marks_bind marks_attempt marks_map : marks.

(** The lookups of a filesystem and the reads of its handles only mark. *)
Class MarkingReads {W H : Type} `{!HasSync W} `{!FileHandle W H} (fsys : FileSystem W H) := {
  mk_open ctx p : marks_only id (fs_open fsys ctx p);
  mk_lstat ctx p : marks_only id (fs_lstat fsys ctx p);
  mk_read_dir ctx p : marks_only id (fs_read_dir fsys ctx p);
  mk_readlink p : marks_only id (fs_readlink fsys p);
  mk_read len : marks_only (snd : H * W → W) (fh_read len);
  mk_close : marks_only (snd : H * W → W) fh_close
}.

Section Push.
Context {W H : Type} `{!HasSync W} `{!FileHandle W H} `{!TarCodec}.
Context (local : FileSystem W H) (remote : RemoteSyncBackend W H) `{!MarkingReads local}.

Lemma marks_on_handle {A} h (m : M (H * W) A) :
  marks_only snd m → marks_only id (on_handle h m).
Proof.
  intros Hm w. unfold on_handle. specialize (Hm (h, w)).
  by destruct (m (h, w)) as [[] [h' w']].
Qed.

Lemma marks_read_loop fuel out file : marks_only id (read_loop (W:=W) (H:=H) fuel out file).
Proof.
  revert out file. induction fuel as [|fuel IH]; intros out file; cbn.
  - intros w. apply grows_refl.
  - apply marks_bind; [apply marks_on_handle, mk_read|]. intros [[[|b bs]|e| |] file'].
    all: try case_match; auto with marks; intros w; apply grows_refl.
Qed.

Lemma marks_read_file fuel p : marks_only id (read_file local fuel p).
Proof.
  unfold read_file, open_path. apply marks_bind; [apply mk_open|]. intros file.
  apply marks_bind; [apply marks_read_loop|]. intros [out file'].
  apply marks_bind; [apply marks_on_handle, mk_close|]. intros _. apply marks_ret.
Qed.

Lemma marks_append fuel p : marks_only id (append_patch_path local fuel p).
Proof.
  revert p. induction fuel as [|fuel IH]; intros p; cbn; [intros w; apply grows_refl|].
  apply marks_bind; [apply mk_lstat|]. intros meta.
  destruct (FileMode.is_symlink _).
  - apply marks_bind; [apply mk_readlink|]. auto with marks.
  - destruct (Meta.is_dir meta).
    + apply marks_bind; [apply mk_read_dir|]. auto with marks.
    + apply marks_bind; [apply marks_read_file|]. auto with marks.
Qed.

Lemma marks_build fuel d : marks_only id (build_patch local fuel d).
Proof.
  unfold build_patch, patch_entries. apply marks_bind; [|auto with marks].
  apply marks_bind; [|auto with marks]. apply marks_map. intros [p e].
  destruct (de_change e); [apply marks_append|auto with marks].
Qed.

(** ** Settling *)

Lemma settle_path_get path snapshot s p : bt_get p (ss_dirty (settle_path path snapshot s)) =
  if bool_decide (p = path) &&
     match bt_get path (ss_dirty s) with
     | Some current => de_generation current =? de_generation snapshot | None => false end
  then None else bt_get p (ss_dirty s).
Proof.
  unfold settle_path. destruct (bt_get path (ss_dirty s)) as [e|] eqn:He; [|by rewrite andb_false_r].
  destruct (_ =? _); [|by rewrite andb_false_r]. cbn. rewrite bt_get_remove, andb_true_r.
  case_decide; by case_bool_decide.
Qed.

Lemma settle_get snapshot s p : bt_wf snapshot → bt_get p (ss_dirty (settle snapshot s)) =
  match bt_get p snapshot, bt_get p (ss_dirty s) with
  | Some e0, Some e => if de_generation e =? de_generation e0 then None else Some e
  | _, o => o
  end.
Proof.
  unfold settle. revert s. induction snapshot as [|[k e0] snap IH]; intros s Hw; [done|].
  cbn [foldl fst snd]. pose proof (bt_wf_notin _ _ _ Hw) as Hk. apply bt_wf_cons in Hw as [Hw _].
  rewrite IH, settle_path_get by done. cbn [bt_get].
  destruct (decide (p = k)) as [->|Hne].
  - rewrite (proj2 (bt_get_None _ _)) by done. rewrite bool_decide_eq_true_2 by done. cbn.
    destruct (bt_get k (ss_dirty s)) as [e|]; [by destruct (_ =? _)|done].
  - by rewrite bool_decide_eq_false_2 by done.
Qed.

Lemma settle_generation snapshot s : ss_next_generation (settle snapshot s) = ss_next_generation s.
Proof.
  unfold settle. revert s. induction snapshot as [|[k e0] snap IH]; intros s; [done|]. cbn.
  rewrite IH. unfold settle_path. by repeat case_match.
Qed.

(** The snapshot is the state some marks ago: settling leaves what is newer. *)
Lemma settle_grown s s' p : state_ok s → grows s s' →
  bt_get p (ss_dirty (settle (ss_dirty s) s')) =
    match bt_get p (ss_dirty s') with
    | Some e => if de_generation e <=? ss_next_generation s then None else Some e
    | None => None
    end.
Proof.
  intros [Hw Hg] [G _ N K]. rewrite settle_get by done.
  destruct (bt_get p (ss_dirty s')) as [e|] eqn:He; [|by destruct (bt_get p (ss_dirty s))].
  destruct (N p e He) as [He0|Hnew].
  - rewrite He0, Z.eqb_refl. specialize (Hg p e He0). by rewrite (proj2 (Z.leb_le _ _)).
  - rewrite (proj2 (Z.leb_gt _ _)) by lia. destruct (bt_get p (ss_dirty s)) as [e0|] eqn:He0; [|done].
    specialize (Hg p e0 He0). by rewrite (proj2 (Z.eqb_neq _ _)) by lia.
Qed.

(** What a push leaves dirty.  However paths are marked while it reads the local
    filesystem and waits for the remote, after a successful push the dirty paths are
    exactly those marked since it began, each as it was last marked; after a failed one
    every path that was dirty still is, and no mark is lost. *)
Theorem push_settles fuel w r w' :
  state_ok (sync_of w) →
  (∀ es bytes, tar_build es = Ok bytes → bytes ≠ []) →
  (∀ patch, marks_only id (rs_apply_patch remote patch)) →
  push local remote fuel w = (r, w') →
  let before := sync_of w in
  match r with
  | Ok _ => ∃ w1, grows before (sync_of w1) ∧
      ∀ p, bt_get p (ss_dirty (sync_of w')) =
        match bt_get p (ss_dirty (sync_of w1)) with
        | Some e => if de_generation e <=? ss_next_generation before then None else Some e
        | None => None
        end
  | _ => grows before (sync_of w')
  end.
Proof.
  intros Hok Htar Hremote. unfold push.
  rewrite (eff_bind_Ok _ _ _ _ _ (eq_refl : sync_state w = (Ok (sync_of w), w))).
  case_bool_decide as Hd; [|].
  - intros [= <- <-]. exists w. split; [apply grows_refl|]. intros p. by rewrite Hd.
  - pose proof (marks_build fuel (ss_dirty (sync_of w)) w) as Hb. unfold id in Hb.
    unfold mbind at 1, eff_bind at 1.
    destruct (build_patch _ _ _ w) as [[patch|e| |] w1] eqn:Hbuild; cbn in Hb; [|by intros [= <- <-]..].
    assert (patch ≠ []) as Hp.
    { unfold build_patch in Hbuild. apply eff_bind_inv in Hbuild as (es & w0 & _ & Hl).
      injection Hl as Hl _. by eapply Htar. }
    rewrite bool_decide_eq_false_2 by done.
    specialize (Hremote patch w1). unfold id in Hremote. unfold mbind, eff_bind.
    destruct (rs_apply_patch remote patch w1) as [[u|e| |] w2] eqn:Happly; cbn in Hremote;
      [|intros [= <- <-]; by eapply grows_trans..].
    intros [= <- <-]. exists w2. split; [by eapply grows_trans|]. intros p.
    rewrite sync_set. apply settle_grown; [done|by eapply grows_trans].
Qed.
End Push.

(** ** Whole-file writes through the sync filesystem *)

Section Writes.
Context {W H : Type} `{!HasSync W} `{!FileHandle W H}.
Context (local : FileSystem W H).

Definition after_ok (m : M W unit) (k : M W unit) : M W unit := λ w,
  match m w with (Ok _, w') => k w' | (r, w') => (r, w') end.

#[local] Arguments mark_dirty : simpl never.

Lemma mark_dirty_clean path change w :
  mark_dirty (W:=W) (clean_path path) change w = mark_dirty path change w.
Proof. unfold mark_dirty, marked. by rewrite (clean_path_id (clean_path path)) by apply clean_path_valid. Qed.

(** A whole-file write is the local one; its [close] marks the path. *)
Lemma write_file_sync name data perm w :
  write_file (FileHandle0 := sum_handle) (fs local) name data perm w =
    after_ok (write_file local name data perm) (mark_dirty name Upsert) w.
Proof.
  unfold after_ok, write_file. set (flags := Z.lor _ _). cbn [fs_open_file fs].
  unfold open_file. change (OpenFlags.contains flags OpenFlags.CREATE) with true. cbn [orb].
  unfold mbind, eff_bind.
  destruct (fs_open_file local name flags perm w) as [[h|e| |] w1]; [|done..].
  cbn. unfold with_handle, on_handle, mbind, eff_bind. cbn.
  unfold file_write, in_file, mbind, eff_bind. cbn.
  destruct (fh_write data (h, w1)) as [[n|e| |] [h2 w2]]; [|done..].
  cbn. unfold file_close, in_file, attempt, gets, mbind, eff_bind. cbn.
  destruct (fh_close (h2, w2)) as [[u|e| |] [h3 w3]]; cbn; [|done..].
  rewrite mark_dirty_clean. destruct (mark_dirty name Upsert w3) as [[[]|e| |] w4]; [by destruct u|done..].
Qed.
End Writes.

(** ** Changes *)

Inductive SyncCall :=
| CChange (c : Change)
| CSetXattr (name attr : string) (data : list byte)
| CRemoveXattr (name attr : string)
| CWrite (name : string) (data : list byte) (perm : Z).

Definition run_call {W H} `{!FileHandle W H} (f : FileSystem W H) (c : SyncCall) : M W unit :=
  match c with
  | CChange c => run_change f c
  | CSetXattr name attr data => fs_set_xattr f name attr data
  | CRemoveXattr name attr => fs_remove_xattr f name attr
  | CWrite name data perm => write_file f name data perm
  end.

(** What a call marks when it succeeds; [was_dir] tells of the path before the call. *)
Definition marks (was_dir : string → bool) (c : SyncCall) (s : SyncState) : SyncState :=
  match c with
  | CChange (ChRemove name) => marked name (Remove (was_dir name)) s
  | CChange (ChRename old new) => marked new Upsert (marked old (Remove (was_dir old)) s)
  | CChange (ChMkdir name _ | ChChmod name _ | ChChown name _ _ | ChChtimes name _
      | ChTruncate name _ | ChLink _ name | ChSymlink _ name)
  | CSetXattr name _ _ | CRemoveXattr name _ | CWrite name _ _ => marked name Upsert s
  end.

(** The calls one after the other, whatever they answer. *)
Fixpoint run_calls {W H} `{!FileHandle W H} (f : FileSystem W H) (cs : list SyncCall) (w : W)
    : list (Result unit) * W :=
  match cs with
  | [] => ([], w)
  | c :: cs =>
      let '(r, w) := run_call f c w in
      let '(rs, w) := run_calls f cs w in
      (r :: rs, w)
  end.

#[global] Instance pair_sync {V} : HasSync (V * SyncState) := {|
  sync_of := snd; set_sync s w := (w.1, s); sync_set s w := eq_refl
|}.

Definition set_fst {V} (v : V) (w : V * SyncState) : V * SyncState := (v, w.2).

#[global] Instance fst_lens {V} : Lens (fst : V * SyncState → V) set_fst.
Proof. split; [done|by intros [? ?]|done]. Qed.

Section Transparent.
Context {V H : Type} `{!FileHandle V H} (inner : FileSystem V H).
Local Abbreviation W := (V * SyncState)%type.

#[local] Instance beside : FileHandle W H := zoom_handle fst set_fst.

#[local] Instance beside_lens : HandleLens (H:=H) fst set_fst (id : H → H).
Proof. by split. Qed.

(** The local filesystem: [inner], with the state of the synchronisation beside it. *)
Definition local : FileSystem W H := zoom_fs fst set_fst id inner.

Definition dir_now (v : V) (name : string) : bool :=
  match fst (lstat_path inner name v) with Ok meta => Meta.is_dir meta | _ => false end.

(** The reference: the calls on [inner] alone, and the marks of those that succeed. *)
Fixpoint spec_calls (cs : list SyncCall) (v : V) (s : SyncState)
    : list (Result unit) * (V * SyncState) :=
  match cs with
  | [] => ([], (v, s))
  | c :: cs =>
      let '(r, v') := run_call inner c v in
      let s := if is_Ok r then marks (dir_now v) c s else s in
      let '(rs, w) := spec_calls cs v' s in
      (r :: rs, w)
  end.

Context (Hlstat : ∀ ctx p v, snd (fs_lstat inner ctx p v) = v ∧ returns (fst (fs_lstat inner ctx p v))).

Lemma mark_dirty_pair name change (v : V) s : ss_next_generation s < U64_MAX →
  mark_dirty name change (v, s) = (Ok tt, (v, marked name change s)).
Proof.
  intros Hn. unfold mark_dirty, sync_state, update_sync, gets, modify, mbind, eff_bind.
  cbn. by rewrite (proj2 (Z.eqb_neq _ _)) by lia.
Qed.

Lemma was_dir_pair name (v : V) s : was_dir local name (v, s) = (Ok (dir_now v name), (v, s)).
Proof.
  destruct (Hlstat (Ctx.with_origin name "stat" Ctx.new) name v) as [Hv Hr].
  unfold was_dir, dir_now, lstat_path, attempt, local, zoom_fs, zoom, set_fst, mbind, eff_bind.
  cbn [fs_lstat fst]. destruct (fs_lstat inner _ name v) as [r v']. cbn in *. subst v'.
  by destruct r.
Qed.

Lemma local_change (m : M V unit) (v : V) s k :
  after_ok (zoom fst set_fst m) k (v, s) =
    let '(r, v') := m v in if is_Ok r then k (v', s) else (r, (v', s)).
Proof. unfold after_ok, zoom. cbn. by destruct (m v) as [[] v']. Qed.

Lemma bind_after_ok (m : M W unit) (k : M W unit) w : (m ;; k) w = after_ok m k w.
Proof. unfold after_ok, mbind, eff_bind. by destruct (m w) as [[] w']. Qed.

Lemma marking_pair name (m : M V unit) (v : V) s : ss_next_generation s < U64_MAX →
  marking name (zoom fst set_fst m) (v, s) =
    let '(r, v') := m v in (r, (v', if is_Ok r then marked name Upsert s else s)).
Proof.
  intros Hn. unfold marking. rewrite bind_after_ok, local_change.
  destruct (m v) as [[[]|e| |] v']; cbn; [by apply mark_dirty_pair|done..].
Qed.

#[local] Instance either : FileHandle W (H + SyncFile H) := sum_handle.

Lemma write_pair name data perm (v : V) s : ss_next_generation s < U64_MAX →
  write_file (fs local) name data perm (v, s) =
    let '(r, v') := write_file inner name data perm v in
    (r, (v', if is_Ok r then marked name Upsert s else s)).
Proof.
  intros Hn. unfold either. rewrite write_file_sync. unfold after_ok.
  rewrite (lifted_write_file fst set_fst id inner local
    (λ p fl pm, lifted_open fst set_fst id (fs_open_file inner p fl pm)) name data perm (v, s)).
  cbn [fst]. destruct (write_file inner name data perm v) as [[[]|e| |] v']; cbn;
    [by apply mark_dirty_pair|done..].
Qed.

Lemma call_pair c (v : V) s : ss_next_generation s + 2 ≤ U64_MAX →
  run_call (fs local) c (v, s) =
    let '(r, v') := run_call inner c v in
    (r, (v', if is_Ok r then marks (dir_now v) c s else s)).
Proof.
  intros Hn. destruct c as [c| | |]; [|by apply marking_pair; lia..|by apply write_pair; lia].
  destruct c as [|name|old new| | | | | |]; cbn [run_call run_change marks fs_mkdir fs_remove
    fs_rename fs_link fs_chmod fs_chown fs_chtimes fs_truncate fs_symlink fs local zoom_fs];
    try (by apply marking_pair; lia).
  - unfold remove. rewrite (eff_bind_Ok _ _ _ _ _ (was_dir_pair name v s)), bind_after_ok.
    cbn [fs_remove local zoom_fs]. rewrite local_change.
    destruct (fs_remove inner name v) as [[[]|e| |] v']; cbn; [|done..].
    apply mark_dirty_pair. lia.
  - unfold rename. rewrite (eff_bind_Ok _ _ _ _ _ (was_dir_pair old v s)), bind_after_ok.
    cbn [fs_rename local zoom_fs]. rewrite local_change.
    destruct (fs_rename inner old new v) as [[[]|e| |] v']; cbn; [|done..].
    rewrite (eff_bind_Ok _ _ _ _ _ (mark_dirty_pair old _ v' s ltac:(lia))).
    apply mark_dirty_pair. cbn. lia.
Qed.

Lemma marks_generation d c s : ss_next_generation (marks d c s) ≤ ss_next_generation s + 2.
Proof. destruct c as [[]| | |]; cbn; lia. Qed.

(** C21. The sync filesystem in front of any filesystem whose [lstat] changes nothing:
    whatever the calls, each is answered as by that filesystem alone, which ends up as
    if it had got the calls itself; and the calls that succeed, and they alone, mark
    their paths, in order: a removal says whether the path was a directory, a rename
    removes the old path and upserts the new one, every other change and every
    whole-file write upserts its path. *)
Theorem sync_changes cs v s :
  ss_next_generation s + 2 * Z.of_nat (length cs) ≤ U64_MAX →
  run_calls (fs local) cs (v, s) = spec_calls cs v s.
Proof.
  revert v s. induction cs as [|c cs IH]; intros v s Hn; [done|].
  cbn [run_calls spec_calls length] in *. rewrite call_pair by lia.
  destruct (run_call inner c v) as [r v']. rewrite IH; [done|].
  destruct (is_Ok r); [|lia]. pose proof (marks_generation (dir_now v) c s). lia.
Qed.
End Transparent.

(** ** Correctness of pulling

    [pull_keeps_dirty]: a pull that keeps local changes never touches what is dirty.
    The paths of [path_contains] are first put in terms of their components. *)

(** ** Paths as components *)

Lemma split_on_join_app ps r : ps ≠ [] → Forall good_part ps →
  split_on "/" (str_join "/" ps +:+ String "/" r) = ps ++ split_on "/" r.
Proof.
  intros Hne Hps. induction Hps as [|p ps [_ Hp] Hps IH]; [done|].
  destruct ps as [|q ps]; [by apply split_on_app|].
  rewrite join_cons by done. change ("/" +:+ ?x) with (String "/" x).
  rewrite <- app_str_assoc. change (String "/" ?x +:+ ?y) with (String "/" (x +:+ y)).
  rewrite split_on_app by done. cbn [app]. f_equal. by apply IH.
Qed.

Lemma prefix_slash ps qs : ps ≠ [] → Forall good_part ps → Forall good_part qs →
  (∃ r, of_parts qs = of_parts ps +:+ String "/" r) ↔ ∃ n ns, qs = ps ++ n :: ns.
Proof.
  intros Hne Hps Hqs. assert (of_parts ps = str_join "/" ps) as -> by (by destruct ps).
  split.
  - intros [r Hr]. destruct qs as [|q qs].
    + destruct ps as [|p ps]; [done|]. exfalso. inversion Hps as [|?? Hp%good_part_inv _]; subst.
      destruct Hp as (H1 & H2 & _). destruct p as [|a [|b p]]; [done| |].
      * destruct ps; cbn in Hr; [injection Hr as <- _|injection Hr as <- _]; done.
      * destruct ps; by cbn in Hr.
    + apply (f_equal (split_on "/")) in Hr. cbn [of_parts] in Hr.
      rewrite split_join_good, split_on_join_app in Hr by done.
      pose proof (split_on_nonempty "/" r). destruct (split_on "/" r) as [|n ns]; [done|]. eauto.
  - intros (n & ns & ->). exists (str_join "/" (n :: ns)).
    assert (of_parts (ps ++ n :: ns) = str_join "/" (ps ++ n :: ns)) as -> by (by destruct ps).
    clear Hps Hqs. induction ps as [|p ps IH]; [done|]. destruct ps as [|q ps].
    + cbn [app]. by rewrite join_cons.
    + change ((p :: q :: ps) ++ n :: ns) with (p :: (q :: ps) ++ n :: ns).
      rewrite join_cons by done. rewrite IH by done.
      rewrite (join_cons "/" p (q :: ps)) by done. by rewrite !app_str_assoc.
Qed.

(** A directory contains itself and what is below it; the root only itself. *)
Lemma path_contains_parts ps qs : Forall good_part ps → Forall good_part qs →
  path_contains (of_parts ps) (of_parts qs) = true ↔
    ps = qs ∨ ps ≠ [] ∧ ∃ n ns, qs = ps ++ n :: ns.
Proof.
  intros Hps Hqs. unfold path_contains. rewrite !clean_path_of_parts by done.
  rewrite orb_true_iff, bool_decide_eq_true.
  assert (of_parts qs = of_parts ps ↔ ps = qs) as ->.
  { split; [|by intros ->]. intros Heq%(f_equal parts_of). by rewrite !parts_of_of_parts in Heq. }
  assert (match strip_prefix (of_parts ps +:+ "/") (of_parts qs) with
    | Some _ => true | None => false end = true ↔
    ∃ r, of_parts qs = of_parts ps +:+ String "/" r) as ->.
  { destruct (strip_prefix _ _) as [r|] eqn:Hs.
    - apply strip_prefix_Some in Hs. rewrite <- app_str_assoc in Hs. split; eauto.
    - split; [done|]. intros [r Hr].
      change (String "/" r) with ("/" +:+ r) in Hr. rewrite app_str_assoc in Hr.
      apply strip_prefix_Some in Hr. congruence. }
  destruct (decide (ps = [])) as [->|Hne].
  - split; [intros [?|[r Hr]]|intros [?|[? _]]; [by left|done]]; [by left|]. exfalso.
    destruct qs as [|q qs]; [done|].
    change (of_parts (q :: qs)) with (str_join "/" (q :: qs)) in Hr.
    change (of_parts []) with "." in Hr.
    pose proof (join_good_no_slash (q :: qs) Hqs) as Hns.
    apply (f_equal (split_on "/")) in Hr.
    rewrite split_join_good, (split_on_app "/" ".") in Hr by done. injection Hr as -> _.
    inversion Hqs as [|?? Hq%good_part_inv _]; tauto.
  - rewrite prefix_slash by done. tauto.
Qed.

(** ** Protected paths

    [apart D p]: no path of [D] overlaps [p]; [outside D p]: none contains it. *)

Definition apart (D : list string) (p : string) : Prop :=
  ∀ q, q ∈ D → paths_overlap q p = false.

Definition outside (D : list string) (p : string) : Prop :=
  ∀ q, q ∈ D → path_contains q p = false.

Lemma apart_outside D p : apart D p → outside D p.
Proof. intros Ha q Hq. specialize (Ha q Hq). unfold paths_overlap in Ha. by apply orb_false_iff in Ha as [? _]. Qed.

Lemma not_contains ps qs : Forall good_part ps → Forall good_part qs →
  path_contains (of_parts ps) (of_parts qs) = false ↔
    ps ≠ qs ∧ (ps = [] ∨ ¬ ∃ n ns, qs = ps ++ n :: ns).
Proof.
  intros Hps Hqs. rewrite <- not_true_iff_false, path_contains_parts by done.
  destruct (decide (ps = [])); tauto.
Qed.

Lemma outside_prefix D ps qs : Forall (λ q, valid_path q = true) D → Forall good_part (ps ++ qs) →
  ps ≠ [] → outside D (of_parts (ps ++ qs)) → outside D (of_parts ps).
Proof.
  intros HD Hg Hne Ho q Hq. specialize (Ho q Hq). rewrite Forall_forall in HD.
  destruct (valid_as_parts q (HD q Hq)) as (os & -> & Hgq). pose proof Hg as [Hps _]%Forall_app.
  apply not_contains in Ho as [Hn Ho]; [|done..]. apply not_contains; [done..|].
  destruct Ho as [->|Ho]; [split; [done|by left]|]. split.
  - intros ->. destruct qs as [|n ns]; [by rewrite app_nil_r in Hn|]. apply Ho. eauto.
  - right. intros (n & ns & ->). apply Ho. exists n, (ns ++ qs). by rewrite <- app_assoc.
Qed.

Lemma apart_below D ps qs : Forall (λ q, valid_path q = true) D → Forall good_part (ps ++ qs) →
  ps ≠ [] → apart D (of_parts ps) → apart D (of_parts (ps ++ qs)).
Proof.
  intros HD Hg Hne Ha q Hq. specialize (Ha q Hq). rewrite Forall_forall in HD.
  destruct (valid_as_parts q (HD q Hq)) as (os & -> & Hgq). pose proof Hg as [Hps _]%Forall_app.
  unfold paths_overlap in *. apply orb_false_iff in Ha as [H1 H2].
  apply not_contains in H1 as [Hn1 H1]; [|done..]. apply not_contains in H2 as [Hn2 H2]; [|done..].
  destruct H2 as [?|H2]; [done|]. apply orb_false_iff. split; apply not_contains; try done.
  - split.
    + intros ->. destruct qs as [|n ns]; [by rewrite app_nil_r in Hn2|]. apply H2. eauto.
    + destruct H1 as [?|H1]; [by left|right]. intros (n & ns & Heq).
      apply app_eq_app in Heq as [l [[-> Hl]|[-> Hl]]].
      * apply H1. destruct l as [|m ms]; [by rewrite app_nil_r in Hn1|]. eauto.
      * destruct l as [|m ms]; [by rewrite app_nil_r in Hn1|]. apply H2. eauto.
  - split.
    + intros <-. destruct qs as [|n ns]; [by rewrite app_nil_r in Hn2|]. apply H2. eauto.
    + right. intros (n & ns & Heq). rewrite <- app_assoc in Heq.
      apply H2. destruct qs; cbn in Heq; eauto.
Qed.

(** ** Computations that keep an invariant, and what their results are *)

Section Keeps.
Context {W : Type} (I : W → Prop).

Definition keeps {A} (m : M W A) (Q : A → Prop) : Prop :=
  ∀ w, I w → I (snd (m w)) ∧ ∀ a, fst (m w) = Ok a → Q a.

Lemma keeps_ret {A} (a : A) (Q : A → Prop) : Q a → keeps (mret a) Q.
Proof. intros HQ w Hw. split; [done|]. by intros ? [= <-]. Qed.

Lemma keeps_bind {A B} (m : M W A) (k : A → M W B) Q R :
  keeps m Q → (∀ a, Q a → keeps (k a) R) → keeps (m ≫= k) R.
Proof.
  intros Hm Hk w Hw. destruct (Hm w Hw) as [Hi Ha]. unfold mbind, eff_bind.
  destruct (m w) as [[a|e| |] w']; cbn in *; [|by split..]. by apply Hk; [apply Ha|].
Qed.

Lemma keeps_weaken {A} (m : M W A) (Q R : A → Prop) : keeps m Q → (∀ a, Q a → R a) → keeps m R.
Proof. intros Hm HQ w Hw. destruct (Hm w Hw) as [Hi Ha]. split; [done|]. auto. Qed.

Lemma keeps_attempt {A} (m : M W A) Q : keeps m Q → keeps (attempt m) (λ _, True).
Proof. intros Hm w Hw. destruct (Hm w Hw) as [Hi _]. unfold attempt. by destruct (m w) as [[] w']. Qed.

Lemma keeps_throw {A} e (Q : A → Prop) : keeps (throw e) Q.
Proof. by intros w Hw. Qed.

Lemma keeps_looks {A} (m : M W A) : (∀ w, snd (m w) = w) → keeps m (λ _, True).
Proof. intros Hm w Hw. by rewrite Hm. Qed.

Lemma keeps_stop {A B} (m : M W A) (k : A → M W B) r w (Q : B → Prop) :
  I w → m w = (r, w) → (∀ a, r ≠ Ok a) →
  I (snd ((m ≫= k) w)) ∧ ∀ b, fst ((m ≫= k) w) = Ok b → Q b.
Proof.
  intros Hw Hm Hr. unfold mbind, eff_bind. rewrite Hm.
  destruct r as [a|e| |]; [by destruct (Hr a)|done..].
Qed.

Lemma keeps_for_each {A} (f : A → M W unit) l :
  (∀ a, a ∈ l → keeps (f a) (λ _, True)) → keeps (for_each f l) (λ _, True).
Proof.
  induction l as [|a l IH]; intros Hf; cbn; [by apply keeps_ret|].
  eapply keeps_bind; [apply Hf; left|]. intros _ _. apply IH. intros b Hb. apply Hf. by right.
Qed.

Lemma keeps_map {A B} (f : A → M W B) l (Q : B → Prop) :
  (∀ a, a ∈ l → keeps (f a) Q) → keeps (map_eff f l) (Forall Q).
Proof.
  induction l as [|a l IH]; intros Hf; cbn; [by apply keeps_ret|].
  eapply keeps_bind; [apply Hf; left|]. intros b Hb.
  eapply keeps_bind; [apply IH; intros c Hc; apply Hf; by right|]. intros bs Hbs.
  apply keeps_ret. by constructor.
Qed.

Lemma keeps_fold {A B} (f : B → A → M W B) (P : B → Prop) b l : P b →
  (∀ b a, P b → a ∈ l → keeps (f b a) P) → keeps (fold_eff f b l) P.
Proof.
  revert b. induction l as [|a l IH]; intros b Hb Hf; cbn; [by apply keeps_ret|].
  eapply keeps_bind; [apply Hf; [done|left]|]. intros b' Hb'. apply IH; [done|].
  intros c x Hc Hx. apply Hf; [done|]. by right.
Qed.
End Keeps.

(** A path below the root. *)
Definition below_root (p : string) : Prop := ∃ ps, ps ≠ [] ∧ Forall good_part ps ∧ p = of_parts ps.

Lemma below_root_valid p : below_root p → valid_path p = true ∧ p ≠ ".".
Proof.
  intros (ps & Hne & Hg & ->). split; [by apply of_parts_valid|].
  destruct ps; [done|]. by apply join_good_not_dot.
Qed.

Lemma valid_below_root p : valid_path p = true → p ≠ "." → below_root p.
Proof.
  intros (ps & -> & Hg)%valid_as_parts Hne. exists ps. split; [|done]. by intros ->.
Qed.

Lemma child_below p n : valid_path p = true → good_part n →
  below_root (child_path p n) ∧
  ∀ D, Forall (λ q, valid_path q = true) D → p ≠ "." → apart D p → apart D (child_path p n).
Proof.
  intros (ps & -> & Hg)%valid_as_parts Hn.
  assert (Forall good_part (ps ++ [n])) as Hg' by (apply Forall_app; by auto using Forall_cons, Forall_nil).
  assert (child_path (of_parts ps) n = of_parts (ps ++ [n])) as ->.
  { rewrite of_parts_snoc_clean by done. unfold child_path.
    destruct ps as [|q ps]; [done|]. rewrite decide_False by (by apply join_good_not_dot). done. }
  split.
  - exists (ps ++ [n]). split; [by destruct ps|done].
  - intros D HD Hne Ha. apply apart_below; [done|done| |done]. by intros ->.
Qed.

Section Frame.
Context {W H : Type} `{!HasSync W} `{!FileHandle W H} `{!TarCodec}.
Context (D : list string) (HD : Forall (λ q, valid_path q = true) D) (I : W → Prop).

(** The lookups of a filesystem change nothing, its listings have proper names, and
    reading it keeps [I]. *)
Record reads_ok (fsys : FileSystem W H) : Prop := {
  ro_stat ctx p w : snd (fs_stat fsys ctx p w) = w;
  ro_lstat ctx p w : snd (fs_lstat fsys ctx p w) = w;
  ro_read_dir ctx p : keeps I (fs_read_dir fsys ctx p) (Forall (λ e, good_part (d_name e)));
  ro_open ctx p : keeps I (fs_open fsys ctx p) (λ _, True);
  ro_readlink p : keeps I (fs_readlink fsys p) (λ _, True)
}.

(** [I] speaks of the paths of [D] only: making a directory that is not inside one of
    them, and any other change of a path apart from them, keeps it. *)
Record writes_ok (fsys : FileSystem W H) : Prop := {
  wo_mkdir p perm : outside D p → keeps I (fs_mkdir fsys p perm) (λ _, True);
  wo_remove p : apart D p → keeps I (fs_remove fsys p) (λ _, True);
  wo_symlink target p : apart D p → keeps I (fs_symlink fsys target p) (λ _, True);
  wo_write p data perm : apart D p → keeps I (write_file fsys p data perm) (λ _, True)
}.

Context (Hread : ∀ len, keeps (I ∘ snd) (fh_read (W:=W) (H:=H) len) (λ _, True)).
Context (Hclose : keeps (I ∘ snd) (fh_close (W:=W) (H:=H)) (λ _, True)).

Lemma keeps_on_handle {A} h (m : M (H * W) A) :
  keeps (I ∘ snd) m (λ _, True) → keeps I (on_handle h m) (λ _, True).
Proof.
  intros Hm w Hw. destruct (Hm (h, w) Hw) as [Hi _]. unfold on_handle. cbn in Hi.
  by destruct (m (h, w)) as [[] [h' w']].
Qed.

Lemma keeps_read_loop fuel out h : keeps I (read_loop (W:=W) fuel out h) (λ _, True).
Proof.
  revert out h. induction fuel as [|fuel IH]; intros out h; cbn; [by intros w Hw|].
  eapply keeps_bind; [by apply keeps_on_handle|]. intros [r h'] _.
  destruct r as [[|b bs]|e| |]; [by apply keeps_ret|apply IH| |by intros w Hw..].
  destruct (kind_is _ _); [by apply keeps_ret|apply keeps_throw].
Qed.

Lemma keeps_read_file fsys fuel p : reads_ok fsys → keeps I (read_file fsys fuel p) (λ _, True).
Proof.
  intros Hr. unfold read_file, open_path. eapply keeps_bind; [by apply ro_open|]. intros h _.
  eapply keeps_bind; [apply keeps_read_loop|]. intros [out h'] _.
  eapply keeps_bind; [by apply keeps_on_handle|]. intros _ _. by apply keeps_ret.
Qed.

Lemma keeps_collect fsys fuel p : reads_ok fsys → valid_path p = true →
  keeps I (collect_paths_from fsys fuel p) (Forall below_root).
Proof.
  intros Hr. revert p. induction fuel as [|fuel IH]; intros p Hv; cbn; [by intros w Hw|].
  eapply keeps_bind; [apply keeps_looks; intros w; by apply ro_lstat|]. intros meta _.
  assert (Forall below_root (if decide (p = ".") then [] else [p])) as Hout.
  { case_decide; [done|]. repeat constructor. by apply valid_below_root. }
  destruct (negb _); [by apply keeps_ret|].
  eapply keeps_bind; [by apply ro_read_dir|]. intros es Hes. rewrite Forall_forall in Hes.
  eapply keeps_bind.
  - apply (keeps_map I _ _ (Forall below_root)). intros e He. apply IH.
    by apply below_root_valid, child_below; [|apply Hes].
  - intros below Hb. apply keeps_ret, Forall_app. split; [done|].
    clear -Hb. induction Hb; cbn; [constructor|]. by apply Forall_app.
Qed.

Lemma keeps_collect_paths fsys fuel : reads_ok fsys →
  keeps I (collect_paths fsys fuel) (Forall below_root).
Proof.
  intros Hr. unfold collect_paths. eapply keeps_bind; [by apply keeps_collect|].
  intros out Hout. apply keeps_ret. unfold sort_paths.
  by rewrite (merge_sort_Permutation path_order out).
Qed.

Context (local : FileSystem W H) (Hl : reads_ok local) (Hw : writes_ok local).

Lemma keeps_remove_all fuel p : below_root p → apart D p →
  keeps I (remove_all local fuel p) (λ _, True).
Proof.
  revert p. induction fuel as [|fuel IH]; intros p Hp Ha; cbn; [by intros w ?|].
  destruct (below_root_valid p Hp) as [Hv Hne].
  eapply keeps_bind; [apply keeps_looks; intros w; by apply ro_stat|]. intros meta _.
  eapply (keeps_bind _ _ _ (λ _, True)); [|intros _ _; by apply wo_remove].
  destruct (Meta.is_dir meta); [|by apply keeps_ret].
  eapply keeps_bind; [by apply ro_read_dir|]. intros es Hes. rewrite Forall_forall in Hes.
  apply keeps_for_each. intros e He. destruct (child_below p (d_name e) Hv) as [Hc Hd]; [by apply Hes|].
  apply IH; [done|]. by apply Hd.
Qed.

Lemma keeps_remove_local fuel p : below_root p → apart D p →
  keeps I (remove_local_path local fuel p) (λ _, True).
Proof.
  intros Hp Ha. unfold remove_local_path.
  eapply keeps_bind; [apply keeps_looks; intros w; by apply ro_lstat|]. intros meta _.
  destruct (Meta.is_dir meta); [by apply keeps_remove_all|by apply wo_remove].
Qed.

(** [mkdir_all] makes the directories on the way, none of them inside a path of [D]. *)
Lemma keeps_mkdir_each pre todo perm : Forall good_part (pre ++ todo) →
  (todo ≠ [] → outside D (of_parts (pre ++ todo))) →
  keeps I (mkdir_each local (str_join "/" pre) todo perm) (λ _, True).
Proof.
  revert pre. induction todo as [|n todo IH]; intros pre Hg Ho; cbn [mkdir_each]; [by apply keeps_ret|].
  assert (pre ++ n :: todo = (pre ++ [n]) ++ todo) as Happ by (by rewrite <- app_assoc).
  rewrite Happ in *. pose proof Hg as [Hd _]%Forall_app.
  rewrite join_step by (by apply Forall_app in Hd as [? _]).
  assert (outside D (of_parts (pre ++ [n]))) as Hout.
  { apply (outside_prefix D _ todo); [done|done|by destruct pre|by apply Ho]. }
  assert (of_parts (pre ++ [n]) = str_join "/" (pre ++ [n])) as <- by (by destruct pre).
  eapply keeps_bind; [eapply keeps_attempt; by apply wo_mkdir|].
  assert (of_parts (pre ++ [n]) = str_join "/" (pre ++ [n])) as -> by (by destruct pre).
  assert (keeps I (mkdir_each local (str_join "/" (pre ++ [n])) todo perm) (λ _, True)) as Hrest.
  { apply IH; [done|]. intros _. by apply Ho. }
  intros [u|e| |] _; [done| |by intros w ?..]. destruct (kind_is _ _); [done|apply keeps_throw].
Qed.

Lemma keeps_mkdir_all p perm : valid_path p = true → (p ≠ "." → outside D p) →
  keeps I (mkdir_all local p perm) (λ _, True).
Proof.
  intros (ps & -> & Hg)%valid_as_parts Ho. unfold mkdir_all. case_decide as Hd; [by apply keeps_ret|].
  rewrite clean_path_of_parts by done. destruct ps as [|q ps]; [done|].
  cbn [of_parts]. rewrite split_join_good by done. apply (keeps_mkdir_each []); [done|].
  intros _. by apply Ho.
Qed.

Lemma keeps_mkdir_parent p perm : below_root p → apart D p →
  keeps I (mkdir_all local (parent_path p) perm) (λ _, True).
Proof.
  intros (ps & Hne & Hg & ->) Ha. apply keeps_mkdir_all; [apply parent_path_valid|].
  destruct ps as [|n ps _] using rev_ind; [done|]. rewrite parent_of_parts by done. intros Hroot.
  apply (outside_prefix D ps [n]); [done|done| |by apply apart_outside]. by intros ->.
Qed.

(** ** A turn of the loops *)

Lemma overlapping_nil d p : D ⊆ bt_keys d → overlapping d p = [] → apart D p.
Proof.
  intros HDd Ho q Hq. apply not_true_is_false. intros Hp.
  assert (q ∈ overlapping d p) as Hin by (apply list_elem_of_filter; auto).
  rewrite Ho in Hin. by apply elem_of_nil in Hin.
Qed.

Lemma keeps_copy_apart index fuel p : reads_ok index → below_root p → apart D p →
  keeps I (sync_path_from_remote local index fuel p) (λ _, True).
Proof.
  intros Hi Hp Ha. destruct (below_root_valid p Hp) as [Hv Hne].
  assert (keeps I (exists_path local p) (λ _, True)) as Hex.
  { eapply keeps_bind; [eapply keeps_attempt, keeps_looks; intros w; by apply ro_stat|].
    intros [u|e| |] _; [by apply keeps_ret| |by intros w ?..].
    destruct (kind_is _ _); [by apply keeps_ret|apply keeps_throw]. }
  assert (keeps I (lstat_path local p) (λ _, True)) as Hls.
  { apply keeps_looks. intros w. by apply ro_lstat. }
  assert (∀ perm, keeps I (mkdir_all local p perm) (λ _, True)) as Hmk.
  { intros perm. apply keeps_mkdir_all; [done|]. intros _. by apply apart_outside. }
  pose proof (keeps_remove_local fuel p Hp Ha) as Hrm.
  pose proof (λ perm, keeps_mkdir_parent p perm Hp Ha) as Hpar.
  unfold sync_path_from_remote.
  eapply keeps_bind; [apply keeps_looks; intros w; by apply ro_lstat|]. intros rm _.
  destruct (Meta.is_dir rm); [|destruct (FileMode.is_symlink _)].
  - eapply keeps_bind; [done|]. intros [|] _; cbn; [|done].
    eapply keeps_bind; [done|]. intros meta _. destruct (Meta.is_dir meta); cbn; [by apply keeps_ret|].
    by eapply keeps_bind.
  - eapply keeps_bind; [done|]. intros found _.
    eapply (keeps_bind _ _ _ (λ _, True)); [destruct found; [done|by apply keeps_ret]|]. intros _ _.
    eapply keeps_bind; [done|]. intros _ _. eapply keeps_bind; [by apply ro_readlink|].
    intros target _. by apply wo_symlink.
  - eapply keeps_bind; [by apply keeps_read_file|]. intros data _. eapply keeps_bind; [done|].
    intros found _. eapply (keeps_bind _ _ _ (λ _, True)).
    + destruct found.
      * eapply keeps_bind; [done|]. intros meta _. destruct (_ || _).
        -- eapply keeps_bind; [done|]. intros _ _. by apply keeps_ret.
        -- eapply keeps_bind; [by apply keeps_read_file|]. intros old _. by apply keeps_ret.
      * eapply keeps_bind; [done|]. intros _ _. by apply keeps_ret.
    + intros [|] _; [by apply keeps_ret|by apply wo_write].
Qed.

Lemma local_is_dir_looks p w : snd (local_is_dir local p w) = w.
Proof.
  unfold local_is_dir, exists_path, exists_with, stat_path, lstat_path, attempt, mbind, eff_bind.
  pose proof (ro_stat _ Hl (Ctx.with_origin p "stat" Ctx.new) p w) as Hs.
  destruct (fs_stat local _ p w) as [[m|e| |] w1]; cbn in Hs |- *; subst w1; [| |done..].
  - pose proof (ro_lstat _ Hl (Ctx.with_origin p "stat" Ctx.new) p w) as Hls.
    by destruct (fs_lstat local _ p w) as [[] w2].
  - by destruct (kind_is NotFound e).
Qed.

(** A directory on both sides: nothing is done. *)
Lemma copy_both_dirs index fuel p w : reads_ok index →
  (∀ rm, fst (lstat_path index p w) = Ok rm → Meta.is_dir rm = true) →
  fst (local_is_dir local p w) = Ok true →
  snd (sync_path_from_remote local index fuel p w) = w.
Proof.
  intros Hi Hrm Hd. unfold sync_path_from_remote, mbind, eff_bind.
  pose proof (ro_lstat _ Hi (Ctx.with_origin p "stat" Ctx.new) p w) as Hls.
  unfold lstat_path in *. destruct (fs_lstat index _ p w) as [[rm|e| |] w1]; cbn in *; subst w1; [|done..].
  rewrite (Hrm rm eq_refl). revert Hd.
  pose proof (local_is_dir_looks p w) as Hlook. revert Hlook.
  unfold local_is_dir, mbind, eff_bind, lstat_path.
  destruct (exists_path local p w) as [[[|]|e| |] w1]; cbn; try done.
  destruct (fs_lstat local _ p w1) as [[m|e| |] w2]; cbn; try done.
  intros -> [= ->]. done.
Qed.

Lemma copy_turn index fuel d retained p action conflicts w :
  I w → (conflicts = [] → I (snd (sync_path_from_remote local index fuel p w))) →
  let m :=
    if bool_decide (conflicts = [])
    then sync_path_from_remote local index fuel p ;; mret (d, retained)
    else if keeps_local KeepLocal then mret (d, record_conflicts retained d conflicts)
    else sync_path_from_remote local index fuel p ;;
         mret (clear_dirty_paths_for_remote_sync d p action, retained) in
  I (snd (m w)) ∧ ∀ st, fst (m w) = Ok st → st.1 = d.
Proof.
  intros HIw Hc m. subst m. case_bool_decide as Hnil; cbn [keeps_local].
  - specialize (Hc Hnil). unfold mbind, eff_bind.
    destruct (sync_path_from_remote local index fuel p w) as [[u|e| |] w2]; cbn in *; split; try done.
    by intros st [= <-].
  - split; [done|]. by intros st [= <-].
Qed.

Lemma keeps_pull_copy index fuel d retained p : reads_ok index → below_root p → D ⊆ bt_keys d →
  keeps I (pull_copy local KeepLocal index fuel (d, retained) p) (λ st, st.1 = d).
Proof.
  intros Hi Hp HDd w HIw. destruct (below_root_valid p Hp) as [Hv Hne].
  pose proof (ro_lstat _ Hi (Ctx.with_origin p "stat" Ctx.new) p w) as Hls.
  pose proof (local_is_dir_looks p w) as Hlook.
  assert (overlapping d p = [] → I (snd (sync_path_from_remote local index fuel p w))) as Hover.
  { intros Ho. apply keeps_copy_apart; [done|done|by eapply overlapping_nil|done]. }
  unfold pull_copy, pull_path_action. fold (lstat_path index p) in Hls.
  destruct (lstat_path index p w) as [[rm|e| |] w0] eqn:Hrm; cbn in Hls; subst w0;
    [|by unfold mbind, eff_bind; rewrite Hrm..].
  destruct (Meta.is_dir rm) eqn:Hdir.
  - rewrite (eff_bind_Ok _ _ w SyncRemoteDir w)
      by (by rewrite (eff_bind_Ok _ _ _ _ _ Hrm), Hdir).
    unfold conflicting_dirty_paths. rewrite clean_path_id by done.
    destruct (local_is_dir local p w) as [[b|e| |] w0] eqn:Hb; cbn in Hlook; subst w0;
      [|by unfold mbind, eff_bind; rewrite Hb..].
    erewrite eff_bind_Ok by (by rewrite (eff_bind_Ok _ _ _ _ _ Hb)). apply copy_turn; [done|].
    destruct b; [|done]. intros _. rewrite copy_both_dirs; [done|done| |by rewrite Hb].
    intros rm'. rewrite Hrm. by intros [= <-].
  - assert (∀ (m : M W PullPathAction), m = (if FileMode.is_symlink (m_mode rm)
        then mret SyncRemoteLeaf
        else is_dir ← local_is_dir local p;
             mret (if (is_dir : bool) then SyncRemoteLeaf else SyncRemoteLeaf)) →
      m w = (Ok SyncRemoteLeaf, w) ∨ ∃ r, m w = (r, w) ∧ (∀ a, r ≠ Ok a)) as Hact.
    { intros m ->. destruct (FileMode.is_symlink _); [by left|]. unfold mbind, eff_bind.
      destruct (local_is_dir local p w) as [[[|]|e| |] w0]; cbn in Hlook; subst w0;
        [by left|by left|right; by eexists..]. }
    destruct (Hact _ eq_refl) as [Ha|(r & Ha & Hr)].
    + rewrite (eff_bind_Ok _ _ w SyncRemoteLeaf w)
        by (by rewrite (eff_bind_Ok _ _ _ _ _ Hrm), Hdir).
      unfold conflicting_dirty_paths. rewrite clean_path_id by done.
      by rewrite (eff_bind_Ok _ _ w (overlapping d p) w); [apply copy_turn|].
    + eapply keeps_stop; [done| |done]. by rewrite (eff_bind_Ok _ _ _ _ _ Hrm), Hdir, Ha.
Qed.

Lemma keeps_pull_delete fuel remote_paths d retained p : below_root p → D ⊆ bt_keys d →
  keeps I (pull_delete local KeepLocal fuel remote_paths (d, retained) p) (λ st, st.1 = d).
Proof.
  intros Hp HDd. destruct (below_root_valid p Hp) as [Hv Hne]. unfold pull_delete.
  case_bool_decide; [by apply keeps_ret|]. unfold conflicting_dirty_paths.
  rewrite clean_path_id by done. intros w HIw.
  rewrite (eff_bind_Ok _ _ w (overlapping d p) w) by done.
  case_bool_decide as Hnil; cbn [keeps_local]; [|split; [done|by intros st [= <-]]].
  revert w HIw. eapply (keeps_bind _ _ _ (λ _, True)).
  - apply keeps_remove_local; [done|]. by eapply overlapping_nil.
  - intros _ _. by apply keeps_ret.
Qed.

(** ** Pulling *)

(** Nothing of the snapshot was given up. *)
Lemma finish_keep retain d retained s :
  ∃ c, finish_pull retain d d retained s = set_conflicts c s.
Proof.
  unfold finish_pull. eexists. f_equal.
  assert (Forall (λ kv, bt_mem kv.1 d = true) d) as Hall.
  { apply Forall_forall. intros kv Hkv. unfold bt_mem.
    destruct (bt_get kv.1 d) as [v|] eqn:Hg; [done|]. exfalso. apply bt_get_None in Hg.
    apply Hg. unfold bt_keys. by apply list_elem_of_fmap_2. }
  assert (∀ l s, Forall (λ kv, bt_mem kv.1 d = true) l →
    foldl (λ s kv, if bt_mem kv.1 d then s else unmark_path kv.1 kv.2 s) s l = s) as Hf.
  { intros l. induction l as [|kv l IH]; intros s' Hl'; [done|]. inversion Hl' as [|?? Hk Hl'']; subst.
    cbn. rewrite Hk. by apply IH. }
  by apply Hf.
Qed.
End Frame.

(** C23. A pull that keeps local changes does not touch what is dirty.  Whatever is
    said of the local filesystem that making a directory outside the dirty paths, and
    removing, writing and linking apart from them, keeps - such as that the files at
    those paths are what they were - still holds when the pull ends, well or not, and
    those paths are still dirty. *)
Theorem pull_keeps_dirty {W H} `{!HasSync W} `{!FileHandle W H} (D : list string)
    (I : W → Prop) (local : FileSystem W H) (remote : RemoteSyncBackend W H) retain fuel w :
  Forall (λ q, valid_path q = true) D →
  (∀ len, keeps (I ∘ snd) (fh_read (W:=W) (H:=H) len) (λ _, True)) →
  keeps (I ∘ snd) (fh_close (W:=W) (H:=H)) (λ _, True) →
  reads_ok I local → writes_ok D I local →
  keeps I (rs_index remote) (reads_ok I) →
  (∀ w, I w → D ⊆ bt_keys (ss_dirty (sync_of w))) →
  (∀ w c, I w → I (set_sync (set_conflicts c (sync_of w)) w)) →
  I w →
  I (snd (pull local remote KeepLocal retain fuel w)).
Proof.
  intros HD Hread Hclose Hl Hwr Hindex Hdirty Hconflicts HIw.
  assert (keeps I (pull local remote KeepLocal retain fuel) (λ _, True)) as Hk; [|by apply Hk].
  unfold pull. eapply keeps_bind; [done|]. intros index Hi w1 HI1.
  rewrite (eff_bind_Ok _ _ w1 (sync_of w1) w1) by done.
  set (d := ss_dirty (sync_of w1)). pose proof (Hdirty w1 HI1) as HDd. fold d in HDd.
  revert w1 HI1 d HDd. intros w1 HI1 d HDd. clearbody d. revert w1 HI1.
  eapply keeps_bind; [by eapply keeps_collect_paths|]. intros rps Hrps. rewrite Forall_forall in Hrps.
  eapply keeps_bind; [by eapply keeps_collect_paths|]. intros lps Hlps. rewrite Forall_forall in Hlps.
  eapply keeps_bind; [|intros st Hst; eapply keeps_bind].
  - apply (keeps_fold I _ (λ st : Dirty * btree string DirtyChange, st.1 = d)); [done|].
    intros [d' retained] p Hd Hp. cbn in Hd. subst d'.
    eapply keeps_pull_delete; [done..| |done]. apply Hlps. by apply elem_of_reverse.
  - apply (keeps_fold I _ (λ st : Dirty * btree string DirtyChange, st.1 = d)); [done|].
    intros [d' retained] p Hd Hp. cbn in Hd. subst d'.
    eapply keeps_pull_copy; [done..| |done]. by apply Hrps.
  - intros [d' retained] Hd w2 HI2. cbn in Hd. subst d'. split; [|done].
    unfold update_sync, modify. cbn.
    destruct (finish_keep retain d retained (sync_of w2)) as [c ->]. by apply Hconflicts.
Qed.
