(* ===== verification/SyncArrives.v ===== *)
(** * A file written through the sync filesystem arrives at the remote

    The sync filesystem between two in-memory filesystems, the remote applying patches
    with [apply_sync_patch]: [sync_file_arrives] follows a file from the write to the
    remote's read, through the patch. *)

From stdpp Require Import base list numbers option strings sorting countable.
From Stdlib Require Import ZArith Lia Ascii.
From S2P Require Import Prelude Strs BTree Core FsTrait FsLens MemFs MemFsFacts MemFsProps MetaCacheProps Sync SyncProps.

Local Open Scope Z_scope.

Import Sync.

(** ** Two filesystems and the state between them *)

Record Ends := mkEnds { en_local : MemWorld; en_remote : MemWorld; en_state : SyncState }.

Definition set_local (v : MemWorld) (w : Ends) : Ends := mkEnds v (en_remote w) (en_state w).
Definition set_remote (v : MemWorld) (w : Ends) : Ends := mkEnds (en_local w) v (en_state w).

#[global] Instance ends_sync : HasSync Ends := {|
  sync_of := en_state; set_sync s w := mkEnds (en_local w) (en_remote w) s;
  sync_set s w := eq_refl
|}.

#[global] Instance local_lens : Lens en_local set_local.
Proof. split; [done|by intros []|done]. Qed.

#[global] Instance remote_lens : Lens en_remote set_remote.
Proof. split; [done|by intros []|done]. Qed.

Abbreviation EndsHandle := (MemHandle + MemHandle)%type.

#[global] Instance ends_handle : FileHandle Ends EndsHandle :=
  sum_handle (FileHandle0 := zoom_handle en_local set_local)
    (FileHandle1 := zoom_handle en_remote set_remote).

#[global] Instance local_handles :
  HandleLens (H := MemHandle) (H' := EndsHandle) en_local set_local inl.
Proof.
  split; intros; cbn; unfold zoom_method.
  all: match goal with |- context [let '(_, _) := ?x in _] => by destruct x as [? [? ?]] end.
Qed.

#[global] Instance remote_handles :
  HandleLens (H := MemHandle) (H' := EndsHandle) en_remote set_remote inr.
Proof.
  split; intros; cbn; unfold zoom_method.
  all: match goal with |- context [let '(_, _) := ?x in _] => by destruct x as [? [? ?]] end.
Qed.

Section Ends.
Context (fuel : nat) `{!TarCodec}.

Definition local_fs : FileSystem Ends EndsHandle :=
  zoom_fs en_local set_local inl (MemFs.fs (S fuel)).
Definition remote_fs : FileSystem Ends EndsHandle :=
  zoom_fs en_remote set_remote inr (MemFs.fs (S fuel)).

(** The remote shows its filesystem and applies patches to it. *)
Definition ends_remote (depth : nat) : RemoteSyncBackend Ends EndsHandle :=
  mkRemote (mret remote_fs) (apply_sync_patch remote_fs depth).

(** ** Lookups *)

Lemma lstat_at ctx name i d w : valid_path name = true → file_at w name i d →
  fs_lstat (MemFs.fs (S fuel)) ctx name w = (Ok (ni_meta (node_inner w i)), w).
Proof.
  intros Hv (Hn & _ & Hr & _). apply regular_inv in Hr as [_ Hs]. cbn [fs_lstat MemFs.fs].
  unfold default_lstat. by apply stat_dir.
Qed.

Lemma lstat_absent ctx name w : valid_path name = true → absent w name →
  fs_lstat (MemFs.fs (S fuel)) ctx name w = (Err (EPath "stat" name NotFound), w).
Proof.
  intros Hv [Hn _]. cbn [fs_lstat MemFs.fs]. unfold default_lstat. cbn [MemFs.stat].
  rewrite Hv, clean_path_id by done. cbn [negb].
  unfold MemFs.node, mbind, eff_bind, gets. by rewrite Hn.
Qed.

(** A directory of the tree, not through a link. *)
Definition dir_at (w : MemWorld) (p : string) : Prop :=
  ∃ i, bt_get p (mw_nodes w) = Some i ∧ node_is_dir (node_inner w i) = true ∧
    FileMode.is_symlink (m_mode (ni_meta (node_inner w i))) = false.

(** The directories on the way to [name] are there. *)
Definition way_ok (w : MemWorld) (name : string) : Prop :=
  ∀ ps q qs, ps ≠ [] → Forall good_part (ps ++ q :: qs) → name = of_parts (ps ++ q :: qs) →
    dir_at w (of_parts ps).

Lemma way_parent w name : valid_path name = true → way_ok w name → parent_ok w name.
Proof.
  intros (ps0 & -> & Hg)%valid_as_parts Hway. unfold parent_ok.
  destruct ps0 as [|n ps _] using rev_ind; [by left|].
  rewrite parent_of_parts by done. destruct (decide (ps = [])) as [->|Hne]; [by left|right].
  by apply (Hway ps n []).
Qed.

Lemma ensure_dirs_ok depth pre todo w :
  Forall good_part (pre ++ todo) →
  (∀ ps qs, ps ≠ [] → ps ++ qs = todo → dir_at (en_remote w) (of_parts (pre ++ ps))) →
  ensure_dirs remote_fs depth (str_join "/" pre) todo w = (Ok tt, w).
Proof.
  revert pre. induction todo as [|n todo IH]; intros pre Hg Hd; cbn [ensure_dirs]; [done|].
  assert (pre ++ n :: todo = (pre ++ [n]) ++ todo) as Happ by (by rewrite <- app_assoc).
  rewrite join_step by (by apply Forall_app in Hg as [? _]).
  destruct (Hd [n] todo) as (i & Hi & Hdir & Hs); [done..|].
  assert (of_parts (pre ++ [n]) = str_join "/" (pre ++ [n])) as Hj by (by destruct pre).
  rewrite Hj in Hi. rewrite Happ in Hg. pose proof Hg as [Hgn _]%Forall_app.
  assert (valid_path (str_join "/" (pre ++ [n])) = true) as Hv by (rewrite <- Hj; by apply of_parts_valid).
  assert (attempt (lstat_path remote_fs (str_join "/" (pre ++ [n]))) w =
    (Ok (Ok (ni_meta (node_inner (en_remote w) i))), w)) as Hlstat.
  { unfold attempt, lstat_path. cbn [fs_lstat remote_fs zoom_fs MemFs.fs].
    unfold zoom, default_lstat. rewrite (stat_dir fuel _ _ i) by done. by destruct w. }
  rewrite (eff_bind_Ok _ _ _ _ _ Hlstat). unfold node_is_dir in Hdir. rewrite Hdir.
  rewrite (eff_bind_Ok _ _ w tt w) by done.
  apply IH; [done|]. intros ps qs Hne Heq. rewrite <- app_assoc. apply (Hd (n :: ps) qs); [done|].
  cbn. by rewrite Heq.
Qed.

(** ** Applying the patch *)

Lemma remote_exists_at name i d w : valid_path name = true → file_at (en_remote w) name i d →
  sync_patch_path_exists remote_fs name w = (Ok true, w).
Proof.
  intros Hv Hf. unfold sync_patch_path_exists, exists_with, attempt, mbind, eff_bind, lstat_path.
  cbn [fs_lstat remote_fs zoom_fs]. unfold zoom. rewrite (lstat_at _ name i d) by done.
  cbn. by destruct w.
Qed.

Lemma remote_exists_absent name w : valid_path name = true → absent (en_remote w) name →
  sync_patch_path_exists remote_fs name w = (Ok false, w).
Proof.
  intros Hv Hf. unfold sync_patch_path_exists, exists_with, attempt, mbind, eff_bind, lstat_path.
  cbn [fs_lstat remote_fs zoom_fs]. unfold zoom. rewrite (lstat_absent _ name) by done.
  cbn. by destruct w.
Qed.

(** The remote may take a file at [name]. *)
Record takes (w : MemWorld) (name : string) : Prop := {
  tk_inv : mem_inv w;
  tk_way : way_ok w name;
  tk_old : absent w name ∨ ∃ i d, file_at w name i d
}.

Lemma apply_file_ok depth name data mode w : valid_path name = true → name ≠ "." →
  takes (en_remote w) name → blen data ≤ ISIZE_MAX →
  ∃ i v, apply_sync_patch_file remote_fs depth name data mode w = (Ok tt, set_remote v w) ∧
    file_at v name i data ∧ same_elsewhere name (en_remote w) v.
Proof.
  intros Hv Hne [Hinv Hway Hold] Hlen.
  destruct (write_file_ok fuel name data mode (en_remote w)) as (i & v & Hwr & Hf & Hs);
    [done|done|done|by apply way_parent|done|done|].
  exists i, v. split; [|done].
  assert (ensure_sync_patch_parent_dirs remote_fs depth name w = (Ok tt, w)) as Hens.
  { unfold ensure_sync_patch_parent_dirs. case_decide as Hp; [done|].
    rewrite clean_path_id by apply parent_path_valid.
    apply valid_as_parts in Hv as (ps & -> & Hg). destruct ps as [|n ps _] using rev_ind; [done|].
    rewrite parent_of_parts in * by done. pose proof Hg as [Hps _]%Forall_app.
    assert (ps ≠ []) as Hpn by (by intros ->). assert (of_parts ps = str_join "/" ps) as Hj by (by destruct ps).
    rewrite Hj, split_join_good by done. apply (ensure_dirs_ok depth []); [done|].
    intros ps1 ps2 Hne1 <-. destruct ps2 as [|q qs].
    - apply (Hway ps1 n []); [done| |by rewrite app_nil_r]. by rewrite app_nil_r in Hg.
    - apply (Hway ps1 q (qs ++ [n])); [done|by rewrite <- app_assoc in Hg|by rewrite <- app_assoc]. }
  unfold apply_sync_patch_file. rewrite (eff_bind_Ok _ _ _ _ _ Hens).
  assert (write_file remote_fs name data mode w = (Ok tt, set_remote v w)) as Hwrite.
  { rewrite (lifted_write_file en_remote set_remote inr (MemFs.fs (S fuel)) remote_fs
      (λ p fl pm, lifted_open en_remote set_remote inr _)). by rewrite Hwr. }
  destruct Hold as [Ha|(j & d & Hold)].
  - rewrite (eff_bind_Ok _ _ _ _ _ (remote_exists_absent name w Hv Ha)). cbn beta iota.
    by rewrite (eff_bind_Ok _ _ w tt w).
  - rewrite (eff_bind_Ok _ _ _ _ _ (remote_exists_at name j d w Hv Hold)). cbn beta iota.
    rewrite (eff_bind_Ok _ _ w tt w); [done|].
    rewrite (eff_bind_Ok _ _ w (ni_meta (node_inner (en_remote w) j)) w).
    + destruct Hold as (_ & _ & Hr & _). apply regular_inv in Hr as [-> ->]. done.
    + unfold lstat_path. cbn [fs_lstat remote_fs zoom_fs]. unfold zoom.
      rewrite (lstat_at _ name j d) by done. by destruct w.
Qed.

(** ** The whole way *)

Lemma read_local rfuel name i data w : valid_path name = true → file_at (en_local w) name i data →
  blen data < 8192 * Z.of_nat rfuel →
  ∃ v, read_file local_fs (S rfuel) name w = (Ok data, set_local v w).
Proof.
  intros Hv Hf Hlen. pose proof (read_file_ok fuel rfuel name i data _ Hv Hf Hlen) as Hr.
  rewrite (lifted_read_file en_local set_local inl (MemFs.fs (S fuel)) local_fs
    (λ ctx p, lifted_open en_local set_local inl _)).
  destruct (read_file (MemFs.fs (S fuel)) _ _ _) as [r v]. cbn in Hr. subst r. by exists v.
Qed.

Lemma read_remote rfuel name i data w : valid_path name = true → file_at (en_remote w) name i data →
  blen data < 8192 * Z.of_nat rfuel →
  fst (read_file remote_fs (S rfuel) name w) = Ok data.
Proof.
  intros Hv Hf Hlen. pose proof (read_file_ok fuel rfuel name i data _ Hv Hf Hlen) as Hr.
  rewrite (lifted_read_file en_remote set_remote inr (MemFs.fs (S fuel)) remote_fs
    (λ ctx p, lifted_open en_remote set_remote inr _)).
  destruct (read_file (MemFs.fs (S fuel)) _ _ _) as [r v]. cbn in Hr. by subst r.
Qed.

Lemma append_file_entry rfuel name i data w : valid_path name = true →
  file_at (en_local w) name i data → blen data < 8192 * Z.of_nat rfuel →
  ∃ meta v, append_patch_path local_fs (S rfuel) name w =
    (Ok [path_entry name meta Regular None data], set_local v w).
Proof.
  intros Hv Hf Hlen. destruct (read_local rfuel name i data w Hv Hf Hlen) as [v Hr].
  exists (ni_meta (node_inner (en_local w) i)), v. cbn [append_patch_path].
  assert (lstat_path local_fs name w = (Ok (ni_meta (node_inner (en_local w) i)), w)) as Hl.
  { unfold lstat_path. cbn [fs_lstat local_fs zoom_fs]. unfold zoom.
    rewrite (lstat_at _ name i data) by done. by destruct w. }
  rewrite (eff_bind_Ok _ _ _ _ _ Hl). destruct Hf as (_ & _ & Hreg & _).
  apply regular_inv in Hreg as [-> ->]. rewrite (eff_bind_Ok _ _ _ _ _ Hr).
  by rewrite clean_path_id.
Qed.

(** What the archive has to do: give back the entry of a file whose path fits the name field
    of a header. *)
Definition archives : Prop :=
  ∀ name meta data, (String.length name ≤ HEADER_NAME)%nat →
    let entries := [path_entry name meta Regular None data] in
    ∃ bytes, tar_build entries = Ok bytes ∧ bytes ≠ [] ∧ tar_read bytes = (entries, None).

Lemma build_one rfuel name i data e w : valid_path name = true → archives →
  (String.length name ≤ HEADER_NAME)%nat →
  file_at (en_local w) name i data → blen data < 8192 * Z.of_nat rfuel → de_change e = Upsert →
  ∃ meta bytes v, build_patch local_fs (S rfuel) [(name, e)] w = (Ok bytes, set_local v w) ∧
    bytes ≠ [] ∧ tar_read bytes = ([path_entry name meta Regular None data], None).
Proof.
  intros Hv Htar Hshort Hf Hlen He.
  destruct (append_file_entry rfuel name i data w Hv Hf Hlen) as (meta & v & Happ).
  destruct (Htar name meta data Hshort) as (bytes & Hb & Hne & Hread). exists meta, bytes, v. split; [|done].
  unfold build_patch, patch_entries. cbn [map_eff]. rewrite He.
  rewrite (eff_bind_Ok _ _ w [path_entry name meta Regular None data] (set_local v w)).
  - unfold lift. by rewrite Hb.
  - erewrite eff_bind_Ok; [|by rewrite (eff_bind_Ok _ _ _ _ _ Happ)]. done.
Qed.

Lemma apply_one depth name meta data bytes w : valid_path name = true → name ≠ "." →
  takes (en_remote w) name → blen data ≤ ISIZE_MAX →
  tar_read bytes = ([path_entry name meta Regular None data], None) →
  ∃ i v, apply_sync_patch remote_fs depth bytes w = (Ok tt, set_remote v w) ∧
    file_at v name i data ∧ same_elsewhere name (en_remote w) v.
Proof.
  intros Hv Hne Htk Hlen Hread.
  destruct (apply_file_ok depth name data (FileMode.from_perm (FileMode.perm (m_mode meta))) w)
    as (i & v & Ha & Hf & Hs); [done..|]. exists i, v. split; [|done].
  unfold apply_sync_patch. rewrite Hread. cbn [for_each].
  rewrite (eff_bind_Ok _ _ w tt (set_remote v w)); [done|].
  rewrite (eff_bind_Ok _ _ w tt (set_remote v w)); [done|].
  unfold apply_entry. cbn [te_pax path_entry pax_flags te_path te_type te_data te_mode default].
  by rewrite clean_path_id.
Qed.

End Ends.

(** ** The sync filesystem at work

    Concrete runs between two in-memory filesystems, with an archive that packs its
    entries into the bits of a number: the instances of the theorems on pushing and
    pulling, and the cases in which a push cannot succeed or leaves the two sides
    apart. *)

(** ** An archive *)

#[local] Instance byte_countable : Countable byte.
Proof.
  apply (inj_countable' byte_to_Z byte_of_Z). intros b. apply byte_of_to_Z.
Defined.

#[local] Instance type_countable : Countable EntryType.
Proof.
  apply (inj_countable'
    (λ t, match t with Regular => 0%nat | Directory => 1%nat | Symlink => 2%nat | _ => 3%nat end)
    (λ n, match n with 0%nat => Regular | 1%nat => Directory | 2%nat => Symlink | _ => OtherType end)).
  by intros [].
Defined.

#[local] Instance entry_eq_dec : EqDecision TarEntry.
Proof. solve_decision. Defined.

#[local] Instance entry_countable : Countable TarEntry.
Proof.
  apply (inj_countable'
    (λ e, (te_path e, te_type e, te_mode e, te_mtime e, te_uid e, te_gid e, te_link e, te_pax e,
           te_data e))
    (λ '(p, t, m, mt, u, g, l, x, d), mkTarEntry p t m mt u g l x d)).
  by intros [].
Defined.

Fixpoint pos_bytes (p : positive) : list byte :=
  match p with xH => [x02] | xO p => x00 :: pos_bytes p | xI p => x01 :: pos_bytes p end.

Fixpoint bytes_pos (bs : list byte) : positive :=
  match bs with
  | x00 :: bs => xO (bytes_pos bs)
  | x01 :: bs => xI (bytes_pos bs)
  | _ => xH
  end.

Lemma bytes_pos_bytes p : bytes_pos (pos_bytes p) = p.
Proof. induction p as [p IH|p IH|]; cbn; by rewrite ?IH. Qed.

(** The path that a header keeps. *)
Definition header_entry (e : TarEntry) : TarEntry :=
  mkTarEntry (String.substring 0 HEADER_NAME (te_path e)) (te_type e) (te_mode e) (te_mtime e) (te_uid e)
    (te_gid e) (te_link e) (te_pax e) (te_data e).

#[local] Instance codec : TarCodec := {|
  tar_build es := Ok (pos_bytes (encode (header_entry <$> es)));
  tar_read bs := match decode (bytes_pos bs) with
    | Some es => (es, None)
    | None => ([], Some (EMessage "bad archive"))
    end
|}.

Lemma substring_all s n : (String.length s ≤ n)%nat → String.substring 0 n s = s.
Proof.
  revert n. induction s as [|c s IH]; intros [|n] Hn; cbn in *; try done; [lia|].
  by rewrite IH by lia.
Qed.

Lemma codec_archives : archives.
Proof.
  intros name meta data Hn entries. exists (pos_bytes (encode entries)). split; [|split].
  - cbn [tar_build codec]. do 3 f_equal. unfold entries, header_entry. cbn.
    by rewrite substring_all.
  - by destruct (encode entries).
  - cbn. by rewrite bytes_pos_bytes, decode_encode.
Qed.

Lemma codec_nonempty es bytes : tar_build es = Ok bytes → bytes ≠ [].
Proof. intros [= <-]. by destruct (encode (header_entry <$> es)). Qed.

(** ** A file goes over *)

Definition both_sample : Ends := mkEnds sample sample sync_new.

Lemma sample_takes name : name = "d/a" → takes sample name.
Proof.
  intros ->. split; [apply sample_inv| |].
  - intros ps q qs Hne Hg Heq.
    assert (ps = ["d"]) as ->; [|exists 1%nat; by vm_compute].
    apply (f_equal parts_of) in Heq. rewrite parts_of_of_parts in Heq by done. cbn in Heq.
    destruct ps as [|p [|p' ps]]; [done|by injection Heq as <- _|].
    injection Heq as _ _ Heq. by destruct ps.
  - right. exists 2%nat, [x01; x02]. unfold file_at. vm_compute. split_and!; try done. lia.
Qed.


(** The path is read from the header, so a file with a longer path arrives under the beginning
    of it, and nothing says so. *)
Definition long_name : string := str_join "" (replicate 25 "name" ++ ["!"]).

Lemma long_name_cut :
  let '(_, w) := write_file (FileHandle0 := sum_handle) (Sync.fs (local_fs 0)) long_name [x07] 384
    both_sample in
  let '(r, w) := push (local_fs 0) (ends_remote 0 2) 2 w in
  r = Ok tt ∧ ss_dirty (en_state w) = [] ∧
  fst (read_file (remote_fs 0) 2 long_name w) = Err (EPath "open" long_name NotFound) ∧
  fst (read_file (remote_fs 0) 2 (String.substring 0 HEADER_NAME long_name) w) = Ok [x07].
Proof. by vm_compute. Qed.

(** ** What is marked while a push runs *)

(** A remote at which another thread changes [late] before the patch is applied. *)
Definition busy_remote : RemoteSyncBackend Ends EndsHandle :=
  mkRemote (mret (remote_fs 0))
    (λ patch, mark_dirty "late" Upsert ;;
      zoom en_remote set_remote (apply_sync_patch (MemFs.fs 1) 3 patch)).

Definition one_dirty : Ends :=
  mkEnds sample sample (mkSyncState 1 [("d/a", mkDirtyEntry Upsert 1)] []).

Lemma local_marks A (m : M MemWorld A) :
  marks_only id (zoom en_local set_local m).
Proof. intros w. unfold zoom. destruct (m (en_local w)) as [r v]. apply grows_refl. Qed.

Lemma method_marks {A} (get : Ends → MemWorld) (set : MemWorld → Ends → Ends)
    (m : M (MemHandle * MemWorld) A) :
  (∀ v w, en_state (set v w) = en_state w) → marks_only snd (zoom_method get set m).
Proof.
  intros Hs [h w]. unfold zoom_method. destruct (m (h, get w)) as [r [h' v]]. cbn.
  rewrite Hs. apply grows_refl.
Qed.

Lemma dispatch_marks {A} (m1 m2 : M (MemHandle * Ends) A) :
  marks_only snd m1 → marks_only snd m2 → marks_only snd (dispatch m1 m2).
Proof.
  intros H1 H2 [[h|h] w]; cbn; [specialize (H1 (h, w))|specialize (H2 (h, w))].
  - by destruct (m1 (h, w)) as [r [h' w']].
  - by destruct (m2 (h, w)) as [r [h' w']].
Qed.

#[local] Instance local_fs_marking : MarkingReads (local_fs 0).
Proof.
  assert (∀ (m : M MemWorld MemHandle), marks_only id (zoom_open en_local set_local (inl : MemHandle → EndsHandle) m)) as Ho.
  { intros m. unfold zoom_open. apply marks_bind; [apply local_marks|]. intros h. apply marks_ret. }
  split; intros.
  - apply Ho.
  - apply local_marks.
  - apply local_marks.
  - apply local_marks.
  - by apply dispatch_marks; apply method_marks.
  - by apply dispatch_marks; apply method_marks.
Qed.

Lemma busy_marks patch : marks_only id (rs_apply_patch busy_remote patch).
Proof.
  cbn [rs_apply_patch busy_remote]. apply marks_bind.
  - intros w. unfold mark_dirty, sync_state, update_sync, gets, modify, mbind, eff_bind. cbn.
    destruct (_ =? _); [apply grows_refl|apply grows_marked].
  - intros _ w. unfold zoom. destruct (apply_sync_patch _ _ _ _) as [r v]. apply grows_refl.
Qed.

Lemma one_dirty_ok : state_ok (sync_of one_dirty).
Proof.
  split.
  - apply (bt_insert_wf "d/a" _ []). constructor.
  - intros p e. cbn. case_decide; [|done]. by intros [= <-].
Qed.

Lemma push_settles_witness :
  let w' := snd (push (local_fs 0) busy_remote 2 one_dirty) in
  push (local_fs 0) busy_remote 2 one_dirty = (Ok tt, w') ∧
  bt_keys (ss_dirty (en_state w')) = ["late"] ∧
  ∃ w1, grows (en_state one_dirty) (en_state w1) ∧
    ∀ p, bt_get p (ss_dirty (en_state w')) =
      match bt_get p (ss_dirty (en_state w1)) with
      | Some e => if de_generation e <=? 1 then None else Some e
      | None => None
      end.
Proof.
  assert (fst (push (local_fs 0) busy_remote 2 one_dirty) = Ok tt) as Hr by (by vm_compute).
  intros w'. assert (push (local_fs 0) busy_remote 2 one_dirty = (Ok tt, w')) as Hp.
  { unfold w'. by rewrite <- Hr, <- surjective_pairing. }
  split; [exact Hp|]. split; [by vm_compute|].
  exact (push_settles (local_fs 0) busy_remote 2 one_dirty (Ok tt) w' one_dirty_ok
    codec_nonempty busy_marks Hp).
Defined.

(** ** Calls and marks *)

#[local] Instance sync_handles : FileHandle (MemWorld * SyncState) (MemHandle + SyncFile MemHandle) :=
  sum_handle (FileHandle0 := zoom_handle fst set_fst)
    (FileHandle1 := sync_handle (FileHandle0 := zoom_handle fst set_fst)).

Definition some_calls : list SyncCall :=
  [CChange (ChMkdir "e" 493); CWrite "e/x" [x07] 384; CChange (ChRemove "nothing");
   CChange (ChRename "e" "f"); CChange (ChRemove "x")].

Lemma lstat_returns fuel ctx p v : returns (fst (fs_lstat (MemFs.fs (S fuel)) ctx p v)).
Proof.
  cbn [fs_lstat MemFs.fs]. unfold default_lstat. cbn [MemFs.stat].
  destruct (negb _); [done|]. unfold mbind, eff_bind, MemFs.node, gets, lock_node.
  by destruct (bt_get _ _).
Qed.

Lemma sync_changes_witness :
  run_calls (Sync.fs (local (MemFs.fs 1))) some_calls (sample, sync_new)
    = spec_calls (MemFs.fs 1) some_calls sample sync_new ∧
  ss_dirty (snd (snd (spec_calls (MemFs.fs 1) some_calls sample sync_new))) =
    [("e", mkDirtyEntry (Remove true) 3); ("e/x", mkDirtyEntry Upsert 2);
     ("f", mkDirtyEntry Upsert 4); ("x", mkDirtyEntry (Remove false) 5)].
Proof.
  split; [|by vm_compute]. apply (sync_changes (MemFs.fs 1)); [|done].
  intros ctx p v. split; [apply (stat_reads 1)|apply lstat_returns].
Defined.

(** ** A pull beside a local change *)

(** A directory of files: what a filesystem with no more in it does. *)
Record Flat := mkFlat {
  fl_files : btree string (list byte);
  fl_remote : btree string (list byte);
  fl_state : SyncState
}.

#[local] Instance flat_sync : HasSync Flat := {|
  sync_of := fl_state; set_sync s w := mkFlat (fl_files w) (fl_remote w) s;
  sync_set s w := eq_refl
|}.

Record FlatHandle := mkFlatHandle { ft_path : string; ft_rest : list byte }.

Definition put_file (p : string) (data : list byte) (w : Flat) : Flat :=
  mkFlat (bt_insert p data (fl_files w)) (fl_remote w) (fl_state w).

#[local] Instance flat_handle : FileHandle Flat FlatHandle := {|
  fh_read _ := λ '(h, w), (Ok (ft_rest h), (mkFlatHandle (ft_path h) [], w));
  fh_write data := λ '(h, w), (Ok (blen data), (h, put_file (ft_path h) data w));
  fh_read_at _ _ := unsupported;
  fh_write_at _ _ := unsupported;
  fh_seek _ := unsupported;
  fh_stat := unsupported;
  fh_read_dir _ := unsupported;
  fh_sync := unsupported;
  fh_close := mret tt
|}.

Section Flat.
Context (table : Flat → btree string (list byte)).

Definition flat_stat (p : string) : M Flat Metadata := λ w,
  (if decide (p = ".") then Ok (Meta.dir p 493)
   else match bt_get p (table w) with
        | Some data => Ok (Meta.new p 420)
        | None => Err (EPath "stat" p NotFound)
        end, w).

Definition part_ok (n : string) : bool := valid_part n && negb (contains_char "/" n).

Definition flat_list : M Flat (list DirEntry) := λ w,
  (Ok ((λ n, mkDirEntry n (Meta.new n 420)) <$> filter (λ n, part_ok n = true) (bt_keys (table w))), w).

Definition flat_open (p : string) : M Flat FlatHandle := λ w,
  (match bt_get p (table w) with
   | Some data => Ok (mkFlatHandle p data)
   | None => Err (EPath "open" p NotFound)
   end, w).

Definition flat_fs : FileSystem Flat FlatHandle := {|
  fs_open _ := flat_open;
  fs_stat _ := flat_stat;
  fs_lstat _ := flat_stat;
  fs_read_dir _ _ := flat_list;
  fs_create p := λ w, (Ok (mkFlatHandle p []), put_file p [] w);
  fs_open_file p _ _ := λ w, (Ok (mkFlatHandle p []), put_file p [] w);
  fs_mkdir _ _ := throw (EKind AlreadyExists);
  fs_remove p := λ w, (Ok tt, mkFlat (bt_remove p (fl_files w)) (fl_remote w) (fl_state w));
  fs_rename _ _ := unsupported;
  fs_link _ _ := unsupported;
  fs_chmod _ _ := unsupported;
  fs_chown _ _ _ := unsupported;
  fs_chtimes _ _ := unsupported;
  fs_truncate _ _ := unsupported;
  fs_symlink target p := λ w, (Ok tt, put_file p (bytes_of target) w);
  fs_readlink _ := unsupported;
  fs_set_xattr _ _ _ := unsupported;
  fs_get_xattr _ _ := unsupported;
  fs_list_xattrs _ := unsupported;
  fs_remove_xattr _ _ := unsupported
|}.

Lemma flat_reads (I : Flat → Prop) : reads_ok I flat_fs.
Proof.
  split; try done.
  - intros ctx p w Hw. split; [done|]. intros es [= <-]. apply Forall_fmap, Forall_forall.
    intros n [Hn _]%list_elem_of_In%list_elem_of_filter. unfold part_ok in Hn. apply andb_prop in Hn as [H1 H2].
    split; [done|]. by apply negb_true_iff.
Qed.
End Flat.

(** The file [mine] is dirty and holds one byte. *)
Definition mine (w : Flat) : Prop :=
  bt_get "mine" (fl_files w) = Some [x01] ∧ "mine" ∈ bt_keys (ss_dirty (fl_state w)).

Lemma apart_mine p : apart ["mine"] p → p ≠ "mine".
Proof. intros Ha ->. specialize (Ha "mine" ltac:(by left)). by vm_compute in Ha. Qed.

Lemma put_mine p data w : p ≠ "mine" → mine w → mine (put_file p data w).
Proof. intros Hp [Hm Hd]. split; [|done]. cbn. by rewrite bt_get_insert_ne. Qed.

Lemma flat_writes : writes_ok ["mine"] mine (flat_fs fl_files).
Proof.
  split.
  - intros p perm _. apply keeps_throw.
  - intros p Hp%apart_mine w [Hm Hd]. split; [|done]. split; [|done]. cbn. by rewrite bt_get_remove_ne.
  - intros target p Hp%apart_mine w Hw. split; [|done]. by apply put_mine.
  - intros p data perm Hp%apart_mine w Hw. split; [|done].
    unfold write_file, with_handle, on_handle, mbind, eff_bind. cbn. by repeat apply put_mine.
Qed.

Definition flat_remote : RemoteSyncBackend Flat FlatHandle :=
  mkRemote (mret (flat_fs fl_remote)) (λ _, mret tt).

(** [gone] is removed, [both] and [new] are copied, and [mine] stays. *)
Definition flat_world : Flat :=
  mkFlat [("both", [x02]); ("gone", [x03]); ("mine", [x01])]
    [("both", [x05]); ("mine", [x06]); ("new", [x07])]
    (mkSyncState 1 [("mine", mkDirtyEntry Upsert 1)] []).

Lemma pull_keeps_dirty_witness :
  let w' := snd (pull (flat_fs fl_files) flat_remote KeepLocal false 3 flat_world) in
  fl_files w' = [("both", [x05]); ("mine", [x01]); ("new", [x07])] ∧ mine w'.
Proof.
  split; [by vm_compute|].
  apply (pull_keeps_dirty ["mine"] mine (flat_fs fl_files) flat_remote false 3 flat_world).
  - by repeat constructor.
  - intros len [h w] Hw. by split.
  - intros [h w] Hw. by split.
  - apply flat_reads.
  - apply flat_writes.
  - intros w Hw. split; [done|]. intros index [= <-]. apply flat_reads.
  - intros w [_ Hd] q Hq. by apply list_elem_of_singleton in Hq as ->.
  - intros w c Hw. exact Hw.
  - split; [done|]. by left.
Defined.

(** ** A push that cannot succeed

    The file [e/x] is dirty when its directory is renamed.  It is no longer there to be
    read, so no patch is built: every push fails and whatever else is dirty is never
    sent. *)
Definition renamed : Ends :=
  snd (run_calls (FileHandle0 := sum_handle) (Sync.fs (local_fs 0))
    [CChange (ChMkdir "e" 493); CWrite "e/x" [x07] 384; CChange (ChRename "e" "f")] both_sample).

Lemma rename_blocks_push :
  push (local_fs 0) (ends_remote 0 3) 3 renamed = (Err (EPath "stat" "e/x" NotFound), renamed).
Proof. by vm_compute. Qed.

(** A directory made where one was renamed away: the removal is forgotten, the remote
    keeps the old files, and the pull that follows brings them back. *)
Definition remade : Ends :=
  snd (run_calls (FileHandle0 := sum_handle) (Sync.fs (local_fs 0))
    [CChange (ChRename "d" "e"); CChange (ChMkdir "d" 493)] both_sample).

Lemma remade_directory_fills :
  let w' := snd (Sync.sync (local_fs 0) (ends_remote 0 3) KeepLocal false 3 remade) in
  bt_keys (mw_nodes (en_local remade)) = ["."; "d"; "e"; "e/a"; "e/b"; "x"] ∧
  bt_keys (mw_nodes (en_local w')) = ["."; "d"; "d/a"; "d/b"; "e"; "e/a"; "e/b"; "x"].
Proof. split; by vm_compute. Qed.
