(* ===== verification/Registry.v ===== *)
(** * star9-runtime: the registries

    Models [EnvRegistry], [EnvFile] and [ServiceRegistry] of
    [crates/star9-runtime/src/lib.rs]: the variables and the services that the runtime
    shows as directories.  A service is a filesystem, here the index of its [FsRef]; the
    file that describes it is a [Node] made when it is opened. *)

From stdpp Require Import base list numbers option strings.
From Stdlib Require Import ZArith Lia Ascii.
From S2P Require Import Prelude Strs RcText BTree Core FsTrait FsLens MemFs Field.

Local Open Scope Z_scope.

Abbreviation EnvEntries := (btree string (list byte)).

Record EnvFile := mkEnvFile {
  ef_name : string;
  ef_data : list byte;
  ef_offset : Z;
  ef_dirty : bool
}.

Record ServiceEntry := mkService { sv_fs : nat; sv_description : string }.

Abbreviation Services := (btree string ServiceEntry).

(** [service_key] and [env_key], of the device [name] *)
Definition registry_key (name input : string) : Outcome Error string :=
  let path := trim_start_char "/" (trim input) in
  let key :=
    match strip_prefix ("#" +:+ name +:+ "/") path with
    | Some rest => rest
    | None => option.default path (strip_prefix (name +:+ "/") path)
    end in
  if is_empty_str key || bool_decide (key = ".") || contains_char "/" key
     || negb (valid_path key)
  then Err (EPath name input Invalid)
  else Ok key.

Module EnvReg.

Definition env_key (input : string) : Outcome Error string := registry_key "env" input.

Definition snapshot : M EnvEntries EnvEntries := get.
Definition replace_all (entries : EnvEntries) : M EnvEntries unit := put entries.
Definition set (name : string) (data : list byte) : M EnvEntries unit :=
  modify (bt_insert name data).

(** *** Files *)

Definition file_set_offset (o : Z) (f : EnvFile) : EnvFile :=
  mkEnvFile (ef_name f) (ef_data f) o (ef_dirty f).

Definition file_read (len : Z) : M (EnvFile * EnvEntries) (list byte) := λ '(f, w),
  let bs := window (ef_data f) (ef_offset f) len in
  (Ok bs, (file_set_offset (ef_offset f + blen bs) f, w)).

(** The file grows with zeros to the end of what is written. *)
Definition file_write (data : list byte) : M (EnvFile * EnvEntries) Z := λ '(f, w),
  let fin := ef_offset f + blen data in
  match (if blen (ef_data f) <? fin then vec_resize (ef_data f) fin else Some (ef_data f)) with
  | None => (Panic, (f, w))
  | Some d =>
      let d := take (Z.to_nat (ef_offset f)) d ++ data ++ drop (Z.to_nat fin) d in
      (Ok (blen data), (mkEnvFile (ef_name f) d fin true, w))
  end.

(** [x as i64] of a [u64] *)
Definition as_i64 (x : Z) : Z := if I64_MAX <? x then x - 2 ^ 64 else x.

(** Sums that leave [i64] overflow. *)
Definition file_seek (pos : SeekFrom) : M (EnvFile * EnvEntries) Z := λ '(f, w),
  let next :=
    match pos with
    | SeekStart offset => as_i64 offset
    | SeekEnd offset => blen (ef_data f) + offset
    | SeekCurrent offset => as_i64 (ef_offset f) + offset
    end in
  if I64_MAX <? next then (Panic, (f, w))
  else if next <? 0 then (Err (EKind Invalid), (f, w))
  else (Ok next, (file_set_offset next f, w)).

Definition file_stat : M (EnvFile * EnvEntries) Metadata := λ '(f, w),
  (Ok (Meta.file (base_name (ef_name f)) 438 (blen (ef_data f))), (f, w)).

Definition file_close : M (EnvFile * EnvEntries) unit := λ '(f, w),
  if ef_dirty f then
    (Ok tt, (mkEnvFile (ef_name f) (ef_data f) (ef_offset f) false,
             bt_insert (ef_name f) (ef_data f) w))
  else (Ok tt, (f, w)).

#[global] Instance env_file_handle : FileHandle EnvEntries EnvFile := {
  fh_read := file_read;
  fh_write := file_write;
  fh_read_at := default_read_at file_seek file_read;
  fh_write_at := default_write_at file_seek file_write;
  fh_seek := file_seek;
  fh_stat := file_stat;
  fh_read_dir := default_read_dir file_stat;
  fh_sync := unsupported;
  fh_close := file_close
}.

Abbreviation Box := (EnvFile + DirFile)%type.
#[global] Instance env_box : FileHandle EnvEntries Box := sum_handle.
#[global] Instance env_box_dir : BoxDir Box := inr.

(** *** The filesystem *)

Definition entry_of (name : string) (data : list byte) : DirEntry :=
  mkDirEntry name (Meta.file name 438 (blen data)).

Definition open (ctx : FsContext) (name : string) : M EnvEntries Box :=
  let name := clean_path name in
  if decide (name = ".") then
    entries ← get;
    mret (directory_file (Meta.dir "env" 511) ((λ kv, entry_of kv.1 kv.2) <$> entries))
  else
    key ← lift (env_key name);
    entries ← get;
    data ← ok_or (bt_get key entries) (EPath "open" key NotFound);
    mret (inl (mkEnvFile key data 0 false)).

Definition stat (ctx : FsContext) (name : string) : M EnvEntries Metadata :=
  let name := clean_path name in
  if decide (name = ".") then mret (Meta.dir "env" 511)
  else
    key ← lift (env_key name);
    entries ← get;
    data ← ok_or (bt_get key entries) (EPath "stat" key NotFound);
    mret (Meta.file (base_name key) 438 (blen data)).

Definition create (name : string) : M EnvEntries Box :=
  key ← lift (env_key name); mret (inl (mkEnvFile key [] 0 true)).

Definition remove (name : string) : M EnvEntries unit :=
  key ← lift (env_key name);
  entries ← get;
  ok_or (bt_get key entries) (EPath "remove" key NotFound) ;;
  put (bt_remove key entries).

Definition chmod (name : string) (mode : Z) : M EnvEntries unit :=
  key ← lift (env_key name);
  entries ← get;
  ok_or (bt_get key entries) (EPath "chmod" key NotFound) ;;
  mret tt.

Definition fs : FileSystem EnvEntries Box :=
  let base := default_fs open stat create (λ _ _, unsupported) in {|
  fs_open := open;
  fs_stat := stat;
  fs_lstat := fs_lstat base;
  fs_read_dir := fs_read_dir base;
  fs_create := create;
  fs_open_file := default_open_file open create chmod;
  fs_mkdir := fs_mkdir base;
  fs_remove := remove;
  fs_rename := fs_rename base;
  fs_link := fs_link base;
  fs_chmod := chmod;
  fs_chown := fs_chown base;
  fs_chtimes := fs_chtimes base;
  fs_truncate := fs_truncate base;
  fs_symlink := fs_symlink base;
  fs_readlink := fs_readlink base;
  fs_set_xattr := fs_set_xattr base;
  fs_get_xattr := fs_get_xattr base;
  fs_list_xattrs := fs_list_xattrs base;
  fs_remove_xattr := fs_remove_xattr base
|}.
End EnvReg.

Module ServiceReg.

Definition service_key (input : string) : Outcome Error string := registry_key "srv" input.

Definition register (name : string) (fs : nat) (description : string) : M Services unit :=
  key ← lift (service_key name); modify (bt_insert key (mkService fs description)).

Definition unregister (name : string) : M Services unit :=
  key ← lift (service_key name);
  entries ← get;
  ok_or (bt_get key entries) (EPath "srv" key NotFound) ;;
  put (bt_remove key entries).

Definition lookup (name : string) : M Services nat :=
  key ← lift (service_key name);
  entries ← get;
  entry ← ok_or (bt_get key entries) (EPath "srv" key NotFound);
  mret (sv_fs entry).

Definition names : M Services (list string) := gets bt_keys.

(** *** The filesystem; the files it opens are nodes of a heap beside the services *)

Abbreviation World := (Services * MemWorld)%type.

#[global] Instance srv_handle : FileHandle World MemHandle := zoom_handle snd (λ m w, (w.1, m)).

Definition description_entry (name : string) (entry : ServiceEntry) : DirEntry :=
  mkDirEntry name (Meta.file name 292 (blen (bytes_of (sv_description entry)))).

Definition open (ctx : FsContext) (name : string) : M World MemHandle :=
  let name := clean_path name in
  if decide (name = ".") then
    entries ← on_fst get;
    mret (directory_file (Meta.dir "srv" 365)
      ((λ kv, description_entry kv.1 kv.2) <$> entries))
  else
    key ← lift (service_key name);
    entries ← on_fst get;
    entry ← ok_or (bt_get key entries) (EPath "open" key NotFound);
    on_snd
      (i ← alloc_node (Node.file (base_name key) (bytes_of (sv_description entry))
                         (FileMode.from_perm 292));
       node_open i).

Definition stat (ctx : FsContext) (name : string) : M World Metadata :=
  let name := clean_path name in
  if decide (name = ".") then mret (Meta.dir "srv" 365)
  else
    key ← lift (service_key name);
    entries ← on_fst get;
    entry ← ok_or (bt_get key entries) (EPath "stat" key NotFound);
    mret (Meta.file (base_name key) 292 (blen (bytes_of (sv_description entry)))).

Definition fs : FileSystem World MemHandle :=
  let base := default_fs open stat (λ _, unsupported) (λ _ _, unsupported) in {|
  fs_open := open;
  fs_stat := stat;
  fs_lstat := fs_lstat base;
  fs_read_dir := fs_read_dir base;
  fs_create := fs_create base;
  fs_open_file := fs_open_file base;
  fs_mkdir := fs_mkdir base;
  fs_remove name := on_fst (unregister name);
  fs_rename := fs_rename base;
  fs_link := fs_link base;
  fs_chmod := fs_chmod base;
  fs_chown := fs_chown base;
  fs_chtimes := fs_chtimes base;
  fs_truncate := fs_truncate base;
  fs_symlink := fs_symlink base;
  fs_readlink := fs_readlink base;
  fs_set_xattr := fs_set_xattr base;
  fs_get_xattr := fs_get_xattr base;
  fs_list_xattrs := fs_list_xattrs base;
  fs_remove_xattr := fs_remove_xattr base
|}.

(** Where the service named by [source] is, which is [tcp!host!port]. *)
Definition tcp_service_addr (source : string) : Outcome Error string :=
  match strip_prefix "tcp!" source with
  | None => Err (EPath "srv" source NotSupported)
  | Some rest =>
      match split_on "!" rest with
      | [host; port] =>
          if negb (is_empty_str host) && negb (is_empty_str port) then Ok (host +:+ ":" +:+ port)
          else Err (EPath "srv" source Invalid)
      | [host] =>
          if negb (is_empty_str host) then Err (EPath "srv" source NotSupported)
          else Err (EPath "srv" source Invalid)
      | _ => Err (EPath "srv" source Invalid)
      end
  end.
End ServiceReg.
