(* ===== verification/Proto.v ===== *)
(** * star9-protocol: the messages of the runtime

    Models the types of [crates/star9-protocol/src/runtime.rs]: what a host asks of the
    runtime about workers, ports and tasks, and what it is answered.  Their encoding is that
    of the CBOR crate and is not modelled. *)

From stdpp Require Import base list numbers option strings.
From Stdlib Require Import ZArith Lia Ascii.
From S2P Require Import Prelude Strs.

Local Open Scope Z_scope.

Record WorkerHandle := mkWorker { wk_worker_id : string; wk_task_id : string }.

Record EnvironmentEntry := mkEnv { env_name : string; env_value : string }.

Inductive ExecutionKind := Wasi | JsWasm | Native.

Inductive FdKind := FdFile | FdDirectory | FdPipe | FdSocket | FdPort.

Record FdDescriptor := mkFdDescriptor {
  fdd_fd : Z;
  fdd_kind : FdKind;
  fdd_path : option string;
  fdd_read : bool;
  fdd_write : bool;
  fdd_append : bool
}.

Record PortDescriptor := mkPort { pt_port_id : string; pt_name : string }.

Inductive StreamDescriptor := Inherit | Null | OnFd (d : FdDescriptor) | OnPort (p : PortDescriptor).

Record StdioSet := mkStdio {
  sio_stdin : StreamDescriptor;
  sio_stdout : StreamDescriptor;
  sio_stderr : StreamDescriptor
}.

Definition StdioSet_default : StdioSet := mkStdio Inherit Inherit Inherit.

Record ExecutionSpec := mkSpec {
  sp_kind : ExecutionKind;
  sp_module : string;
  sp_args : list string;
  sp_env : list EnvironmentEntry;
  sp_cwd : option string;
  sp_stdio : StdioSet;
  sp_fds : list FdDescriptor
}.

Record WorkerSpawnRequest := mkWorkerSpawn {
  wsr_worker : WorkerHandle;
  wsr_parent_task_id : option string
}.

Record WorkerStartRequest := mkWorkerStart {
  wst_worker : WorkerHandle;
  wst_execution : ExecutionSpec
}.

Record PortOpenRequest := mkPortOpen { por_worker : WorkerHandle; por_port : PortDescriptor }.

Record PortHandoff := mkPortHandoff {
  ph_worker : WorkerHandle;
  ph_target_task_id : string;
  ph_port : PortDescriptor
}.

Inductive StdioStream := Stdin | Stdout | Stderr.

Record StdioData := mkStdioData { sd_stream : StdioStream; sd_data : list byte; sd_eof : bool }.

Record FdData := mkFdData { fda_fd : Z; fda_data : list byte; fda_eof : bool }.

Inductive ExitStatus := ExitCode (code : Z) | Signal (name : string) | Trap (message : string).

Inductive TaskMessagePayload :=
| PReady
| PStdioData (d : StdioData)
| PFdData (d : FdData)
| PPortOpened (p : PortDescriptor)
| PPortHandoff (h : PortHandoff)
| PExit (s : ExitStatus).

Record TaskMessage := mkTaskMessage {
  tm_task_id : string;
  tm_worker_id : option string;
  tm_sequence : Z;
  tm_payload : TaskMessagePayload
}.

Record RuntimePathRequest := mkPathRequest { rp_task_id : string; rp_path : string }.

Record RuntimePathWriteRequest := mkPathWrite {
  rpw_task_id : string;
  rpw_path : string;
  rpw_data : list byte
}.

Record RuntimePathRenameRequest := mkPathRename {
  rpr_task_id : string;
  rpr_old_path : string;
  rpr_new_path : string
}.

Record RuntimePathTruncateRequest := mkPathTruncate {
  rpt_task_id : string;
  rpt_path : string;
  rpt_size : Z
}.

Record RuntimeFdOpenRequest := mkFdOpen {
  rfo_task_id : string;
  rfo_path : string;
  rfo_read : bool;
  rfo_write : bool;
  rfo_create : bool;
  rfo_truncate : bool;
  rfo_append : bool
}.

Record RuntimeFdRequest := mkFdRequest { rf_task_id : string; rf_fd : Z }.

Record RuntimeFdReadRequest := mkFdRead { rfr_task_id : string; rfr_fd : Z; rfr_len : Z }.

Record RuntimeFdWriteRequest := mkFdWrite {
  rfw_task_id : string;
  rfw_fd : Z;
  rfw_data : list byte
}.

Inductive RuntimeSeekWhence := WhenceStart | WhenceCurrent | WhenceEnd.

Record RuntimeFdSeekRequest := mkFdSeek {
  rfs_task_id : string;
  rfs_fd : Z;
  rfs_offset : Z;
  rfs_whence : RuntimeSeekWhence
}.

Record RuntimeMetadata := mkRuntimeMetadata {
  rm_name : string;
  rm_mode : Z;
  rm_size : Z;
  rm_modified_unix_nanos : Z;
  rm_uid : Z;
  rm_gid : Z
}.

Record RuntimeDirEntry := mkRuntimeDirEntry { rde_name : string; rde_metadata : RuntimeMetadata }.

Inductive RuntimeRequest :=
| SpawnWorker (r : WorkerSpawnRequest)
| StartWorker (r : WorkerStartRequest)
| OpenPort (r : PortOpenRequest)
| HandoffPort (r : PortHandoff)
| PostMessage (m : TaskMessage)
| PathRead (r : RuntimePathRequest)
| PathWrite (r : RuntimePathWriteRequest)
| PathStat (r : RuntimePathRequest)
| PathList (r : RuntimePathRequest)
| PathMkdir (r : RuntimePathRequest)
| PathRemove (r : RuntimePathRequest)
| PathRename (r : RuntimePathRenameRequest)
| PathTruncate (r : RuntimePathTruncateRequest)
| FdOpen (r : RuntimeFdOpenRequest)
| FdRead (r : RuntimeFdReadRequest)
| FdWrite (r : RuntimeFdWriteRequest)
| FdSeek (r : RuntimeFdSeekRequest)
| FdClose (r : RuntimeFdRequest).

Inductive RuntimeResponse :=
| RtUnit
| RtWorker (w : WorkerHandle)
| RtPort (p : PortDescriptor)
| RtTaskMessage (m : TaskMessage)
| RtExitStatus (s : ExitStatus)
| RtBytes (data : list byte)
| RtText (text : string)
| RtMetadata (m : RuntimeMetadata)
| RtDirEntries (es : list RuntimeDirEntry)
| RtFd (fd : Z)
| RtOffset (o : Z)
| RtCount (n : Z).

Module Proto.
(** [RuntimeRequest::method_name] *)
Definition method_name (request : RuntimeRequest) : string :=
  match request with
  | SpawnWorker _ => "SpawnWorker"
  | StartWorker _ => "StartWorker"
  | OpenPort _ => "OpenPort"
  | HandoffPort _ => "HandoffPort"
  | PostMessage _ => "PostMessage"
  | PathRead _ => "PathRead"
  | PathWrite _ => "PathWrite"
  | PathStat _ => "PathStat"
  | PathList _ => "PathList"
  | PathMkdir _ => "PathMkdir"
  | PathRemove _ => "PathRemove"
  | PathRename _ => "PathRename"
  | PathTruncate _ => "PathTruncate"
  | FdOpen _ => "FdOpen"
  | FdRead _ => "FdRead"
  | FdWrite _ => "FdWrite"
  | FdSeek _ => "FdSeek"
  | FdClose _ => "FdClose"
  end.
End Proto.

#[global] Instance ExecutionKind_eq_dec : EqDecision ExecutionKind.
Proof. solve_decision. Defined.
#[global] Instance FdKind_eq_dec : EqDecision FdKind.
Proof. solve_decision. Defined.
#[global] Instance WorkerHandle_eq_dec : EqDecision WorkerHandle.
Proof. solve_decision. Defined.
#[global] Instance PortDescriptor_eq_dec : EqDecision PortDescriptor.
Proof. solve_decision. Defined.
