(* ===== verification/Exec.v ===== *)
(** * star9-runtime: starting a task and running it

    Models [crates/star9-runtime/src/execution.rs], the functions that
    [crates/star9-runtime/src/worker.rs] has in the same words, and [ExecutionAdapter] of
    [crates/star9-runtime/src/lib.rs]: how the fields and the descriptors of a task are set
    from an [ExecutionSpec], and the registry of the handlers that run it.

    A handler is code from outside: [handlers] gives what each does, the registry keeps
    their indices.  The pseudo-terminal of the operating system, which one handler uses, is
    not modelled. *)

From stdpp Require Import base list numbers option strings pretty gmap.
From Stdlib Require Import ZArith Lia Ascii.
From S2P Require Import Prelude Strs RcText BTree Core FsTrait MemFs Vfs Field Task Proto.

Local Open Scope Z_scope.

(** [Node]s made for descriptors that no file stands behind: a heap of nodes in the world,
    and the box of an open node. *)
Class HasNodes (W H : Type) := {
  nodes_of : W → MemWorld;
  set_nodes_of : MemWorld → W → W;
  box_node : MemHandle → H
}.

(** The two maps of [ExecutionRegistry], behind their locks. *)
Record ExecutionRegistry := mkRegistry {
  er_handlers : gmap (string * string) nat;
  er_kind_handlers : gmap string nat
}.

Record ExecutionAdapter := mkAdapter { ea_kind : string; ea_command : string }.

Module Exec.

(** ** Texts *)

Definition render_command (module : string) (args : list string) : string :=
  match args with [] => module | _ => module +:+ " " +:+ str_join " " args end.

Definition render_env (entries : list EnvironmentEntry) : list string :=
  (λ entry, env_name entry +:+ "=" +:+ env_value entry) <$> entries.

Definition render_exit_status (status : ExitStatus) : string :=
  match status with
  | ExitCode code => pretty code
  | Signal signal => "signal:" +:+ signal
  | Trap reason => "trap:" +:+ reason
  end.

Definition execution_kind_name (kind : ExecutionKind) : string :=
  match kind with Wasi => "wasi" | JsWasm => "js_wasm" | Native => "native" end.

Definition unsupported_execution (spec : ExecutionSpec) : Error :=
  EMessage ("operation not supported: no execution handler registered for "
    +:+ execution_kind_name (sp_kind spec) +:+ " module " +:+ sp_module spec).

Definition fallback_fd_path (descriptor : FdDescriptor) (default_fd : option Z) : string :=
  match fdd_kind descriptor with
  | FdPort => "port-fd:" +:+ pretty (fdd_fd descriptor)
  | FdDirectory => "dir-fd:" +:+ pretty (fdd_fd descriptor)
  | FdPipe => "pipe-fd:" +:+ pretty (fdd_fd descriptor)
  | FdSocket => "socket-fd:" +:+ pretty (fdd_fd descriptor)
  | FdFile => "file-fd:" +:+ pretty (option.default (fdd_fd descriptor) default_fd)
  end.

(** ** Descriptors *)

Section Start.
Context {W H : Type} `{!HasTasks W H} `{!FileHandle W H} `{!HasNodes W H}.
(** [table] gives the filesystem of each namespace. *)
Context (table : nat → FileSystem W H).

Definition in_namespace {A} (task : nat) (f : FileSystem W H → M W A) : M W A :=
  ns ← Task.namespace task; f (table ns).

Definition open_node (node : NodeInner) : M W H :=
  h ← zoom nodes_of set_nodes_of (i ← alloc_node node; node_open i);
  mret (box_node h).

Definition open_virtual_fd (kind : FdKind) (name : string) : M W (H * string) :=
  file ← open_node
    (match kind with
     | FdDirectory => Node.dir name (Z.lor FileMode.DIR (FileMode.from_perm 493))
     | _ => Node.file name [] (FileMode.from_perm 438)
     end);
  mret (file, name).

(** What stands behind a descriptor with a path is opened by [open_at], which differs
    between the two files. *)
Section Open.
Context (open_at : nat → FdDescriptor → string → M W H).

Definition open_fd_descriptor (task : nat) (descriptor : FdDescriptor) (default_fd : option Z)
    : M W (H * string) :=
  match fdd_path descriptor with
  | Some path => file ← open_at task descriptor path; mret (file, path)
  | None => open_virtual_fd (fdd_kind descriptor) (fallback_fd_path descriptor default_fd)
  end.

Definition open_stream_descriptor (task : nat) (name : string) (descriptor : StreamDescriptor)
    : M W (H * string) :=
  match descriptor with
  | Inherit => open_virtual_fd FdPipe name
  | Null => open_virtual_fd FdPipe ("null:" +:+ name)
  | OnFd fd => open_fd_descriptor task fd None
  | OnPort port => open_virtual_fd FdPort ("port:" +:+ pt_port_id port)
  end.

Definition install_stdio (task : nat) (stdio : StdioSet) : M W unit :=
  for_each (λ '(fd, name, descriptor),
    '(file, path) ← open_stream_descriptor task name descriptor;
    Task.set_fd task fd file path)
    [(0, "stdin", sio_stdin stdio); (1, "stdout", sio_stdout stdio);
     (2, "stderr", sio_stderr stdio)].

(** [apply_execution_spec], [worker] being what the task is told of its worker. *)
Definition apply_execution_spec (task : nat) (worker : string) (spec : ExecutionSpec) : M W unit :=
  Task.set_cmd task (render_command (sp_module spec) (sp_args spec)) ;;
  Task.set_env task (render_env (sp_env spec)) ;;
  (match sp_cwd spec with Some cwd => Task.set_dir task cwd | None => mret tt end) ;;
  Task.set_worker task worker ;;
  Task.set_exit task "running" ;;
  install_stdio task (sp_stdio spec) ;;
  for_each (λ fd,
    '(file, path) ← open_fd_descriptor task fd (Some (fdd_fd fd));
    Task.set_fd task (fdd_fd fd) file path) (sp_fds spec) ;;
  Task.set_exit task "started".
End Open.

(** ** [execution.rs] *)

(** A file opened for writing is created, and truncated unless it is appended to. *)
Definition open_at_path (task : nat) (descriptor : FdDescriptor) (path : string) : M W H :=
  if fdd_write descriptor && bool_decide (fdd_kind descriptor = FdFile) then
    let flags := Z.lor (if fdd_read descriptor then OpenFlags.RDWR else OpenFlags.WRONLY)
                   OpenFlags.CREATE in
    let flags := Z.lor flags (if fdd_append descriptor then OpenFlags.APPEND
                              else OpenFlags.TRUNC) in
    in_namespace task (λ ns, fs_open_file ns path flags (FileMode.from_perm 438))
  else in_namespace task (λ ns, fs_open ns Ctx.new path).

Definition native_worker (spec : ExecutionSpec) : string :=
  "native:" +:+ execution_kind_name (sp_kind spec) +:+ ":" +:+ sp_module spec.

(** The loop of [read_task_fd], inside the lock of the table *)
Fixpoint read_fd_loop (fuel : nat) (out : list byte) : M (H * W) (list byte) :=
  match fuel with
  | O => no_fuel
  | S fuel' =>
      r ← attempt (fh_read 8192);
      match r with
      | Ok [] => mret out
      | Ok bs => read_fd_loop fuel' (out ++ bs)
      | Err e => if kind_is UnexpectedEof e then mret out else throw e
      | Panic => panic
      | NoFuel => no_fuel
      end
  end.

Definition read_task_fd (fuel : nat) (task : nat) (fd : Z) : M W (list byte) :=
  Task.with_fd_mut task fd (attempt (fh_seek (SeekStart 0)) ;; read_fd_loop fuel []).

(** [sync], a file that has none being in order *)
Definition sync_if_supported : M (H * W) unit :=
  r ← attempt fh_sync;
  match r with
  | Err err => if kind_is NotSupported err then mret tt else throw err
  | r => lift r
  end.

Definition append_task_fd (task : nat) (fd : Z) (data : list byte) : M W unit :=
  Task.with_fd_mut task fd
    (attempt (fh_seek (SeekEnd 0)) ;;
     written ← fh_write data;
     guard_err (negb (written =? blen data)) (EKind UnexpectedEof) ;;
     sync_if_supported).

(** *** The registry *)

Context (handlers : nat → nat → ExecutionSpec → M (W * ExecutionRegistry) ExitStatus).

Definition new : ExecutionRegistry := mkRegistry ∅ ∅.

Definition register_arc (kind : ExecutionKind) (module : string) (handler : nat)
    : M (W * ExecutionRegistry) unit :=
  on_snd (modify (λ r,
    mkRegistry (<[(execution_kind_name kind, module) := handler]> (er_handlers r))
      (er_kind_handlers r))).

Definition register_kind_arc (kind : ExecutionKind) (handler : nat)
    : M (W * ExecutionRegistry) unit :=
  on_snd (modify (λ r,
    mkRegistry (er_handlers r) (<[execution_kind_name kind := handler]> (er_kind_handlers r)))).

(** The handler of the module, or else the one of its kind. *)
Definition handler (kind : ExecutionKind) (module : string) (r : ExecutionRegistry) : option nat :=
  match er_handlers r !! (execution_kind_name kind, module) with
  | Some h => Some h
  | None => er_kind_handlers r !! execution_kind_name kind
  end.

Definition has_handler (kind : ExecutionKind) (module : string) (r : ExecutionRegistry) : bool :=
  match handler kind module r with Some _ => true | None => false end.

Definition execute (task : nat) (spec : ExecutionSpec) : M (W * ExecutionRegistry) ExitStatus :=
  on_fst (apply_execution_spec open_at_path task (native_worker spec) spec) ;;
  r ← on_snd get;
  h ← ok_or (handler (sp_kind spec) (sp_module spec) r) (unsupported_execution spec);
  status ← handlers h task spec;
  on_fst (Task.set_exit task (render_exit_status status)) ;;
  mret status.

(** ** [ExecutionAdapter] *)

Definition wasi (command : string) : ExecutionAdapter := mkAdapter "Wasi" command.
Definition go_js (command : string) : ExecutionAdapter := mkAdapter "GoJs" command.

Definition install_standard_fds (task : nat) : M W unit :=
  for_each (λ '(fd, name),
    file ← open_node (Node.file name [] (FileMode.from_perm 438));
    Task.set_fd task fd file name)
    [(0, "stdin"); (1, "stdout"); (2, "stderr")].

Definition start (adapter : ExecutionAdapter) (task : nat) : M W unit :=
  Task.set_cmd task (ea_command adapter) ;;
  Task.set_worker task (ea_kind adapter +:+ ":" +:+ ea_command adapter) ;;
  Task.set_exit task "running" ;;
  install_standard_fds task ;;
  Task.set_exit task "started".

Definition finish (task : nat) (status : Z) : M W unit := Task.set_exit task (pretty status).
End Start.
End Exec.
