(* ===== verification/Worker.v ===== *)
(** * star9-runtime: the protocol host

    Models [crates/star9-runtime/src/worker.rs]: [RuntimeProtocolHost] answers the requests
    of [Proto] over the tasks of the runtime and keeps which task each worker runs, the
    ports and the messages posted to each task; [WorkerHost] is the host seen by one worker.

    The three maps are behind a mutex of their own that no task reaches, so a computation is
    over the world of the tasks and the maps beside it. *)

From stdpp Require Import base list numbers option strings pretty sorting.
From Stdlib Require Import ZArith Lia Ascii.
From S2P Require Import Prelude Strs RcText BTree Core FsTrait MemFs Vfs Field Task Proto Exec.

Local Open Scope Z_scope.
Import Exec.

Record PortRecord := mkPortRecord {
  pr_descriptor : PortDescriptor;
  pr_owner_task_id : string;
  pr_worker_id : option string;
  pr_handoff_targets : list string
}.

Record ProtocolState := mkProtocolState {
  ps_workers : btree string string;
  ps_ports : btree string PortRecord;
  ps_messages : btree string (list TaskMessage)
}.

Record WorkerSnapshot := mkWorkerSnapshot {
  wsn_handle : WorkerHandle;
  wsn_parent_task_id : option string;
  wsn_command : string;
  wsn_env : list string;
  wsn_cwd : string;
  wsn_lifecycle : string
}.

Record PortSnapshot := mkPortSnapshot {
  psn_descriptor : PortDescriptor;
  psn_owner_task_id : string;
  psn_worker_id : option string;
  psn_handoff_targets : list string
}.

Record TaskMessageSnapshot := mkTaskMessageSnapshot {
  tms_task_id : string;
  tms_messages : list TaskMessage
}.

Record RuntimeProtocolSnapshot := mkProtocolSnapshot {
  rps_workers : list WorkerSnapshot;
  rps_ports : list PortSnapshot;
  rps_task_messages : list TaskMessageSnapshot
}.

(** By name. *)
Definition rt_entry_le (a b : RuntimeDirEntry) : Prop := String.le (rde_name a) (rde_name b).
#[global] Instance rt_entry_le_dec : RelDecision rt_entry_le.
Proof. intros a b. unfold rt_entry_le. apply _. Defined.

Module Worker.

(** ** Texts and metadata *)

Definition metadata_response (meta : Metadata) : RuntimeMetadata :=
  mkRuntimeMetadata (m_name meta) (m_mode meta) (m_size meta)
    (if m_modified meta <? UNIX_EPOCH then 0 else Z.min (m_modified meta) U64_MAX)
    (m_uid meta) (m_gid meta).

Definition runtime_open_flags (request : RuntimeFdOpenRequest) : Z :=
  let wants_write := rfo_write request || rfo_create request || rfo_truncate request
                     || rfo_append request in
  let flags := if rfo_read request && wants_write then OpenFlags.RDWR
               else if wants_write then OpenFlags.WRONLY
               else OpenFlags.RDONLY in
  let flags := if rfo_create request then Z.lor flags OpenFlags.CREATE else flags in
  let flags := if rfo_truncate request then Z.lor flags OpenFlags.TRUNC else flags in
  if rfo_append request then Z.lor flags OpenFlags.APPEND else flags.

Definition stdio_fd (stream : StdioStream) : Z :=
  match stream with Stdin => 0 | Stdout => 1 | Stderr => 2 end.

Definition port_snapshot_of (record : PortRecord) : PortSnapshot :=
  mkPortSnapshot (pr_descriptor record) (pr_owner_task_id record) (pr_worker_id record)
    (pr_handoff_targets record).

(** ** The maps *)

Definition default_state : ProtocolState := mkProtocolState [] [] [].

Definition worker_taken (worker_id : string) : Error := EPath "worker" worker_id AlreadyExists.

Definition record_worker {W} (worker : WorkerHandle) : M (W * ProtocolState) unit :=
  on_snd
    (s ← get;
     let insert := mkProtocolState
       (bt_insert (wk_worker_id worker) (wk_task_id worker) (ps_workers s))
       (ps_ports s) (ps_messages s) in
     match bt_get (wk_worker_id worker) (ps_workers s) with
     | Some existing =>
         if decide (existing = wk_task_id worker) then put insert
         else throw (worker_taken (wk_worker_id worker))
     | None => put insert
     end).

(** The record of a port is overwritten but for the targets of its handoffs. *)
Definition upsert_port {W} (port : PortDescriptor) (owner_task_id : string)
    (worker_id : option string) (handoff_target : option string) : M (W * ProtocolState) unit :=
  on_snd (modify (λ s,
    let targets := match bt_get (pt_port_id port) (ps_ports s) with
                   | Some entry => pr_handoff_targets entry
                   | None => []
                   end in
    let entry := mkPortRecord port owner_task_id worker_id
      (targets ++ match handoff_target with Some target => [target] | None => [] end) in
    mkProtocolState (ps_workers s) (bt_insert (pt_port_id port) entry (ps_ports s))
      (ps_messages s))).

Definition record_message {W} (task_id : string) (message : TaskMessage)
    : M (W * ProtocolState) unit :=
  on_snd (modify (λ s,
    let old := option.default [] (bt_get task_id (ps_messages s)) in
    mkProtocolState (ps_workers s) (ps_ports s)
      (bt_insert task_id (old ++ [message]) (ps_messages s)))).

Definition port_snapshot (port_id : string) (s : ProtocolState) : option PortSnapshot :=
  port_snapshot_of <$> bt_get port_id (ps_ports s).

Definition task_messages_snapshot (task_id : string) (s : ProtocolState)
    : option TaskMessageSnapshot :=
  mkTaskMessageSnapshot task_id <$> bt_get task_id (ps_messages s).

Section Host.
Context {W H : Type} `{!HasTasks W H} `{!TaskNamespaces W H} `{!FileHandle W H} `{!HasNodes W H}.
(** The filesystem of each namespace, the task [root], and fuel for the loops that read. *)
Context (table : nat → FileSystem W H) (root : nat) (fuel : nat).

Definition Host (A : Type) : Type := M (W * ProtocolState) A.

Definition tasks {A} (m : M W A) : Host A := on_fst m.

(** *** Workers *)

Definition lookup_task_for_worker (worker : WorkerHandle) : Host nat :=
  task ← tasks (Task.lookup (wk_task_id worker));
  s ← on_snd get;
  match bt_get (wk_worker_id worker) (ps_workers s) with
  | Some existing =>
      if decide (existing = wk_task_id worker) then mret task
      else throw (worker_taken (wk_worker_id worker))
  | None => mret task
  end.

Definition spawn_worker (request : WorkerSpawnRequest) : Host WorkerHandle :=
  parent ← (match wsr_parent_task_id request with
            | Some parent_id => tasks (Task.lookup parent_id)
            | None => mret root
            end : Host nat);
  task ← tasks (Task.alloc "auto" (Some parent));
  task_id ← tasks (Task.id task);
  let handle := mkWorker (wk_worker_id (wsr_worker request)) task_id in
  record_worker handle ;;
  mret handle.

(** [open_fd_descriptor] of [worker.rs] opens a path for reading, whatever the flags of the
    descriptor. *)
Definition open_at_path (task : nat) (descriptor : FdDescriptor) (path : string) : M W H :=
  in_namespace table task (λ ns, fs_open ns Ctx.new path).

Definition start_worker (request : WorkerStartRequest) : Host unit :=
  let worker := wst_worker request in
  task ← lookup_task_for_worker worker;
  record_worker worker ;;
  tasks (apply_execution_spec open_at_path task (wk_worker_id worker) (wst_execution request)).

(** *** Ports *)

Definition open_port (request : PortOpenRequest) : Host PortDescriptor :=
  let worker := por_worker request in
  task ← lookup_task_for_worker worker;
  record_worker worker ;;
  task_id ← tasks (Task.id task);
  upsert_port (por_port request) task_id (Some (wk_worker_id worker)) None ;;
  mret (por_port request).

Definition handoff_port (request : PortHandoff) : Host PortDescriptor :=
  let worker := ph_worker request in
  lookup_task_for_worker worker ;;
  tasks (Task.lookup (ph_target_task_id request)) ;;
  record_worker worker ;;
  upsert_port (ph_port request) (ph_target_task_id request) (Some (wk_worker_id worker))
    (Some (ph_target_task_id request)) ;;
  mret (ph_port request).

(** *** Messages *)

Definition write_task_fd (task : nat) (fd : Z) (data : list byte) : M W unit :=
  Task.with_fd_mut task fd (fh_seek (SeekEnd 0) ;; fh_write data ;; fh_sync).

Definition post_message (message : TaskMessage) : Host unit :=
  task ← tasks (Task.lookup (tm_task_id message));
  task_id ← tasks (Task.id task);
  (match tm_worker_id message with
   | Some worker_id => record_worker (mkWorker worker_id task_id)
   | None => mret tt
   end) ;;
  record_message task_id message ;;
  match tm_payload message with
  | PExit status => tasks (Task.set_exit task (render_exit_status status))
  | PPortOpened port => upsert_port port task_id (tm_worker_id message) None
  | PPortHandoff handoff => handoff_port handoff ;; mret tt
  | PStdioData data => tasks (write_task_fd task (stdio_fd (sd_stream data)) (sd_data data))
  | PFdData data => tasks (write_task_fd task (fda_fd data) (fda_data data))
  | PReady => mret tt
  end.

(** *** Paths *)

Definition lookup_task (task_id : string) : M W nat :=
  root_id ← Task.id root;
  if is_empty_str task_id || bool_decide (task_id = root_id) then mret root
  else Task.lookup task_id.

(** In the namespace of the task named. *)
Definition at_task {A} (task_id : string) (f : FileSystem W H → M W A) : M W A :=
  task ← lookup_task task_id; in_namespace table task f.

Definition path_read (request : RuntimePathRequest) : M W (list byte) :=
  at_task (rp_task_id request) (λ ns, read_file ns fuel (rp_path request)).

Definition path_write (request : RuntimePathWriteRequest) : M W unit :=
  at_task (rpw_task_id request)
    (λ ns, write_file ns (rpw_path request) (rpw_data request) (FileMode.from_perm 420)).

Definition path_stat (request : RuntimePathRequest) : M W RuntimeMetadata :=
  meta ← at_task (rp_task_id request) (λ ns, fs_stat ns Ctx.new (rp_path request));
  mret (metadata_response meta).

Definition path_list (request : RuntimePathRequest) : M W (list RuntimeDirEntry) :=
  entries ← at_task (rp_task_id request) (λ ns, fs_read_dir ns Ctx.new (rp_path request));
  mret (merge_sort rt_entry_le
    ((λ entry, mkRuntimeDirEntry (d_name entry) (metadata_response (d_metadata entry))) <$> entries)).

Definition path_mkdir (request : RuntimePathRequest) : M W unit :=
  at_task (rp_task_id request)
    (λ ns, fs_mkdir ns (rp_path request) (Z.lor FileMode.DIR (FileMode.from_perm 493))).

Definition path_remove (request : RuntimePathRequest) : M W unit :=
  at_task (rp_task_id request) (λ ns, fs_remove ns (rp_path request)).

Definition path_rename (request : RuntimePathRenameRequest) : M W unit :=
  at_task (rpr_task_id request)
    (λ ns, fs_rename ns (rpr_old_path request) (rpr_new_path request)).

Definition path_truncate (request : RuntimePathTruncateRequest) : M W unit :=
  at_task (rpt_task_id request) (λ ns, fs_truncate ns (rpt_path request) (rpt_size request)).

(** *** Descriptors *)

Definition fd_open (request : RuntimeFdOpenRequest) : M W Z :=
  task ← lookup_task (rfo_task_id request);
  file ← in_namespace table task (λ ns,
    fs_open_file ns (rfo_path request) (runtime_open_flags request) (FileMode.from_perm 438));
  Task.open_fd task file (rfo_path request).

Definition fd_read (request : RuntimeFdReadRequest) : M W (list byte) :=
  task ← lookup_task (rfr_task_id request);
  Task.with_fd_mut task (rfr_fd request) (fh_read (rfr_len request)).

Definition fd_write (request : RuntimeFdWriteRequest) : M W Z :=
  task ← lookup_task (rfw_task_id request);
  count ← Task.with_fd_mut task (rfw_fd request)
    (count ← fh_write (rfw_data request); sync_if_supported ;; mret count);
  mret (Z.min count U32_MAX).

Definition fd_seek (request : RuntimeFdSeekRequest) : M W Z :=
  task ← lookup_task (rfs_task_id request);
  pos ← (match rfs_whence request with
         | WhenceStart =>
             guard_err (rfs_offset request <? 0) (EKind Invalid) ;;
             mret (SeekStart (rfs_offset request))
         | WhenceCurrent => mret (SeekCurrent (rfs_offset request))
         | WhenceEnd => mret (SeekEnd (rfs_offset request))
         end : M W SeekFrom);
  Task.with_fd_mut task (rfs_fd request) (fh_seek pos).

Definition fd_close (request : RuntimeFdRequest) : M W unit :=
  task ← lookup_task (rf_task_id request);
  Task.close_fd task (rf_fd request).

(** *** Requests *)

Definition answer {A} (f : A → RuntimeResponse) (m : Host A) : Host RuntimeResponse :=
  a ← m; mret (f a).

Definition handle_request (request : RuntimeRequest) : Host RuntimeResponse :=
  match request with
  | SpawnWorker r => answer RtWorker (spawn_worker r)
  | StartWorker r => answer (λ _, RtUnit) (start_worker r)
  | OpenPort r => answer RtPort (open_port r)
  | HandoffPort r => answer RtPort (handoff_port r)
  | PostMessage m => answer (λ _, RtTaskMessage m) (post_message m)
  | PathRead r => answer RtBytes (tasks (path_read r))
  | PathWrite r => answer (λ _, RtUnit) (tasks (path_write r))
  | PathStat r => answer RtMetadata (tasks (path_stat r))
  | PathList r => answer RtDirEntries (tasks (path_list r))
  | PathMkdir r => answer (λ _, RtUnit) (tasks (path_mkdir r))
  | PathRemove r => answer (λ _, RtUnit) (tasks (path_remove r))
  | PathRename r => answer (λ _, RtUnit) (tasks (path_rename r))
  | PathTruncate r => answer (λ _, RtUnit) (tasks (path_truncate r))
  | FdOpen r => answer RtFd (tasks (fd_open r))
  | FdRead r => answer RtBytes (tasks (fd_read r))
  | FdWrite r => answer RtCount (tasks (fd_write r))
  | FdSeek r => answer RtOffset (tasks (fd_seek r))
  | FdClose r => answer (λ _, RtUnit) (tasks (fd_close r))
  end.

(** *** Snapshots *)

Definition snapshot_worker_handle (handle : WorkerHandle) : M W WorkerSnapshot :=
  task ← Task.lookup (wk_task_id handle);
  p ← Task.parent task;
  parent_id ← (match p with
               | Some parent => i ← Task.id parent; mret (Some i)
               | None => mret None
               end : M W (option string));
  command ← Task.cmd task;
  env ← Task.env task;
  cwd ← Task.dir task;
  lifecycle ← Task.exit task;
  mret (mkWorkerSnapshot handle parent_id command env cwd lifecycle).

Definition snapshot : Host RuntimeProtocolSnapshot :=
  s ← on_snd get;
  workers ← tasks (map_eff (λ kv, snapshot_worker_handle (mkWorker kv.1 kv.2)) (ps_workers s));
  mret (mkProtocolSnapshot workers (port_snapshot_of <$> bt_values (ps_ports s))
    ((λ kv, mkTaskMessageSnapshot kv.1 kv.2) <$> ps_messages s)).

Definition worker_snapshot (worker_id : string) : Host (option WorkerSnapshot) :=
  s ← on_snd get;
  match bt_get worker_id (ps_workers s) with
  | Some task_id =>
      w ← tasks (snapshot_worker_handle (mkWorker worker_id task_id)); mret (Some w)
  | None => mret None
  end.

(** *** [WorkerHost]: the host as one worker uses it *)

Definition worker_host (worker : WorkerHandle) : Host WorkerHandle :=
  lookup_task_for_worker worker ;; mret worker.

Definition host_snapshot (worker : WorkerHandle) : M W WorkerSnapshot :=
  snapshot_worker_handle worker.
Definition host_start (worker : WorkerHandle) (execution : ExecutionSpec) : Host unit :=
  start_worker (mkWorkerStart worker execution).
Definition host_open_port (worker : WorkerHandle) (port : PortDescriptor) : Host PortDescriptor :=
  open_port (mkPortOpen worker port).
Definition host_handoff_port (worker : WorkerHandle) (target_task_id : string)
    (port : PortDescriptor) : Host PortDescriptor :=
  handoff_port (mkPortHandoff worker target_task_id port).
Definition host_post_message (message : TaskMessage) : Host unit := post_message message.
End Host.
End Worker.
