(* ===== verification/WorkerProps.v ===== *)
(** * Records of the protocol host, and tasks that are started

    [runtime_records]: what [RuntimeProtocolHost] has recorded of workers, ports and
    messages stays, whatever it is asked and however the requests end, a worker runs one
    task, and each log is exactly the messages posted to its task.  [exec_start]: what
    [apply_execution_spec] opens, in which order, and the state of the task after it, on
    success and on failure. *)

From stdpp Require Import base list numbers option strings pretty gmap.
From Stdlib Require Import ZArith Lia Ascii.
From S2P Require Import Prelude Strs RcText BTree Core FsTrait FsLens MemFs Vfs Field Task TaskWorld TaskProps Proto Exec Worker.

Local Open Scope Z_scope.
Import Exec Worker.

(** ** Records only grow *)

Definition log (p : ProtocolState) (task_id : string) : list TaskMessage :=
  option.default [] (bt_get task_id (ps_messages p)).

(** [ms]: the messages that may have been added to the logs. *)
Record grown (ms : list TaskMessage) (p p' : ProtocolState) : Prop := {
  grown_workers id t : bt_get id (ps_workers p) = Some t → bt_get id (ps_workers p') = Some t;
  grown_ports id r : bt_get id (ps_ports p) = Some r →
    ∃ r' l, bt_get id (ps_ports p') = Some r'
      ∧ pr_handoff_targets r' = pr_handoff_targets r ++ l;
  grown_messages t : ∃ l, log p' t = log p t ++ l ∧ l `sublist_of` ms
}.

Lemma grown_refl ms p : grown ms p p.
Proof.
  split; [done| |].
  - intros id r Hr. exists r, []. by rewrite app_nil_r.
  - intros t. exists []. rewrite app_nil_r. split; [done|]. apply sublist_nil_l.
Qed.

Lemma grown_trans ms1 ms2 p1 p2 p3 :
  grown ms1 p1 p2 → grown ms2 p2 p3 → grown (ms1 ++ ms2) p1 p3.
Proof.
  intros [W1 P1 M1] [W2 P2 M2]. split.
  - auto.
  - intros id r Hr. destruct (P1 id r Hr) as (r' & l & Hr' & Hl).
    destruct (P2 id r' Hr') as (r'' & l' & Hr'' & Hl').
    exists r'', (l ++ l'). by rewrite Hl', Hl, <- app_assoc.
  - intros t. destruct (M1 t) as (l & Hl & S1), (M2 t) as (l' & Hl' & S2).
    exists (l ++ l'). rewrite Hl', Hl, <- app_assoc. split; [done|]. by apply sublist_app.
Qed.

Lemma grown_mono ms ms' p p' : grown ms p p' → ms `sublist_of` ms' → grown ms' p p'.
Proof.
  intros [W1 P1 M1] Hms. split; [done..|]. intros t. destruct (M1 t) as (l & Hl & S).
  exists l. split; [done|]. by etrans.
Qed.

Section Records.
Context {W H : Type} `{!HasTasks W H} `{!TaskNamespaces W H} `{!FileHandle W H} `{!HasNodes W H}.
Context (table : nat → FileSystem W H) (root : nat) (fuel : nat).

Implicit Types (w : W) (p : ProtocolState).

(** A computation adds at most [ms] to the logs. *)
Definition grows {A} (ms : list TaskMessage) (m : M (W * ProtocolState) A) : Prop :=
  ∀ w p, grown ms p (m (w, p)).2.2.

Lemma grows_ret {A} ms (a : A) : grows ms (mret a).
Proof. intros w p. apply grown_refl. Qed.

Lemma grows_throw {A} ms e : grows (A := A) ms (throw e).
Proof. intros w p. apply grown_refl. Qed.

Lemma grows_tasks {A} ms (m : M W A) : grows ms (tasks m).
Proof. intros w p. unfold tasks, on_fst. destruct (m w) as [r w']. apply grown_refl. Qed.

Lemma grows_get ms : grows ms (on_snd get).
Proof. intros w p. apply grown_refl. Qed.

Lemma grows_bind {A B} ms1 ms2 (m : M (W * ProtocolState) A) (k : A → M (W * ProtocolState) B) :
  grows ms1 m → (∀ a, grows ms2 (k a)) → grows (ms1 ++ ms2) (m ≫= k).
Proof.
  intros Hm Hk w p. specialize (Hm w p). unfold mbind, eff_bind.
  assert (∀ p', grown ms1 p p' → grown (ms1 ++ ms2) p p') as Hweak.
  { intros p' Hp'. eapply grown_mono; [done|]. by apply sublist_inserts_r. }
  destruct (m (w, p)) as [[a|e| |] [w' p']]; cbn in *; auto.
  eapply grown_trans; [done|]. exact (Hk a w' p').
Qed.

(** The same when neither adds messages, or only the first or the second. *)
Lemma grows_seq {A B} ms (m : M (W * ProtocolState) A) (k : A → M (W * ProtocolState) B) :
  grows [] m → (∀ a, grows ms (k a)) → grows ms (m ≫= k).
Proof. apply (grows_bind [] ms). Qed.

Lemma record_worker_grows worker : grows [] (record_worker (W := W) worker).
Proof.
  intros w p. unfold record_worker, on_snd. unfold_eff.
  destruct (bt_get _ _) as [existing|] eqn:Hget; [case_decide as Ht|]; cbn; try apply grown_refl;
    (split; [|exact (grown_ports _ _ _ (grown_refl [] p))|
      exact (grown_messages _ _ _ (grown_refl [] p))]); intros id t Hid; cbn [ps_workers];
    destruct (decide (id = wk_worker_id worker)) as [->|Hne];
    rewrite ?bt_get_insert_eq, ?bt_get_insert_ne by done; congruence.
Qed.

Lemma upsert_port_grows port owner worker target :
  grows [] (upsert_port (W := W) port owner worker target).
Proof.
  intros w p. unfold upsert_port, on_snd, modify. cbn [fst snd].
  split; [done| |exact (grown_messages _ _ _ (grown_refl [] p))].
  intros id r Hr. cbn [ps_ports].
  destruct (decide (id = pt_port_id port)) as [->|Hne];
    rewrite ?bt_get_insert_eq, ?bt_get_insert_ne by done.
  - rewrite Hr. eexists _, _. split; [done|]. done.
  - exists r, []. by rewrite app_nil_r.
Qed.

Lemma record_message_grows task_id m : grows [m] (record_message (W := W) task_id m).
Proof.
  intros w p. unfold record_message, on_snd, modify. cbn [fst snd].
  split; [done|exact (grown_ports _ _ _ (grown_refl [] p))|]. intros t. unfold log. cbn [ps_messages].
  destruct (decide (t = task_id)) as [->|Hne];
    rewrite ?bt_get_insert_eq, ?bt_get_insert_ne by done.
  - exists [m]. split; [done|]. done.
  - exists []. rewrite app_nil_r. split; [done|]. apply sublist_nil_l.
Qed.

#[local] Hint Resolve grows_ret grows_throw grows_tasks grows_get grows_seq record_worker_grows
  upsert_port_grows record_message_grows : star9.

Lemma lookup_worker_grows ms worker : grows ms (lookup_task_for_worker (W := W) worker).
Proof.
  unfold lookup_task_for_worker. apply grows_seq; [auto with star9|]. intros task.
  apply grows_seq; [auto with star9|]. intros s. repeat case_match; auto with star9.
Qed.
#[local] Hint Resolve lookup_worker_grows : star9.

Lemma handoff_port_grows request : grows [] (handoff_port (W := W) request).
Proof. unfold handoff_port. eauto 10 with star9. Qed.
#[local] Hint Resolve handoff_port_grows : star9.

(** The message that a request posts. *)
Definition posted (r : RuntimeRequest) : list TaskMessage :=
  match r with PostMessage m => [m] | _ => [] end.

Lemma post_message_grows m : grows [m] (post_message (W := W) m).
Proof.
  unfold post_message. apply grows_seq; [auto with star9|]. intros task.
  apply grows_seq; [auto with star9|]. intros task_id.
  apply grows_seq; [case_match; auto with star9|]. intros _.
  apply (grows_bind [m] []); [auto with star9|]. intros _.
  case_match; eauto with star9.
Qed.
#[local] Hint Resolve post_message_grows : star9.

Lemma answer_grows {A} ms (f : A → RuntimeResponse) m : grows ms m → grows ms (answer f m).
Proof.
  intros Hm. unfold answer. rewrite <- (app_nil_r ms). apply grows_bind; auto with star9.
Qed.

Lemma handle_request_grows r : grows (posted r) (handle_request table root fuel r).
Proof.
  destruct r; cbn [handle_request posted]; apply answer_grows; auto with star9.
  - unfold spawn_worker. apply grows_seq; [case_match; auto with star9|]. eauto 10 with star9.
  - unfold start_worker. eauto with star9.
  - unfold open_port. eauto 10 with star9.
Qed.

(** *** The task of a worker *)

(** The identifier of the task that a name, an identifier or an alias, stands for. *)
Definition task_id_of (name : string) (w : W) : option string :=
  match (task ← Task.lookup name; Task.id task) w with
  | (Ok id, _) => Some id
  | _ => None
  end.

(** What an accepted request says of a worker: the task it runs.  A message names the task by
    any of its names, and the worker is recorded with its identifier. *)
Definition accepted (w : W) (r : RuntimeRequest) (o : Result RuntimeResponse)
    : option (string * string) :=
  match r, o with
  | SpawnWorker _, Ok (RtWorker h) => Some (wk_worker_id h, wk_task_id h)
  | StartWorker r, Ok _ => Some (wk_worker_id (wst_worker r), wk_task_id (wst_worker r))
  | OpenPort r, Ok _ => Some (wk_worker_id (por_worker r), wk_task_id (por_worker r))
  | HandoffPort r, Ok _ => Some (wk_worker_id (ph_worker r), wk_task_id (ph_worker r))
  | PostMessage m, Ok _ => worker ← tm_worker_id m; id ← task_id_of (tm_task_id m) w;
      Some (worker, id)
  | _, _ => None
  end.

(** The log that a request writes: that of the task a message names, unless the worker it comes
    from is recorded with another task. *)
Definition logged (s : W * ProtocolState) (r : RuntimeRequest) : list (string * TaskMessage) :=
  match r with
  | PostMessage m =>
      match task_id_of (tm_task_id m) s.1 with
      | Some id =>
          let taken := match worker ← tm_worker_id m; bt_get worker (ps_workers s.2) with
                       | Some other => bool_decide (other ≠ id)
                       | None => false
                       end in
          if taken then [] else [(id, m)]
      | None => []
      end
  | _ => []
  end.

(** [m] ends with the worker recorded when it succeeds. *)
Definition records {A} (worker : A → WorkerHandle) (m : M (W * ProtocolState) A) : Prop :=
  ∀ w p a w' p', m (w, p) = (Ok a, (w', p')) →
    bt_get (wk_worker_id (worker a)) (ps_workers p') = Some (wk_task_id (worker a)).

Lemma record_worker_records worker : records (λ _, worker) (record_worker (W := W) worker).
Proof.
  intros w p a w' p'. unfold record_worker, on_snd. unfold_eff.
  destruct (bt_get _ _) as [existing|] eqn:Hget; [case_decide as Ht|]; intros [= <- <- <-];
    cbn [ps_workers]; apply bt_get_insert_eq.
Qed.

Lemma records_bind {A B} (m : M (W * ProtocolState) A) (k : A → M (W * ProtocolState) B)
    (f : B → WorkerHandle) : (∀ a, records f (k a)) → records f (m ≫= k).
Proof.
  intros Hk w p b w' p' Hb. apply eff_bind_inv in Hb as (a & [w1 p1] & _ & Hb).
  by apply (Hk a) in Hb.
Qed.

Lemma records_then {A B} worker (m : M (W * ProtocolState) A)
    (k : A → M (W * ProtocolState) B) :
  records (λ _, worker) m → (∀ a, grows [] (k a)) → records (λ _, worker) (m ≫= k).
Proof.
  intros Hm Hk w p b w' p' Hb. apply eff_bind_inv in Hb as (a & [w1 p1] & Ha & Hb).
  apply Hm in Ha. specialize (Hk a w1 p1). rewrite Hb in Hk. by apply (grown_workers _ _ _ Hk).
Qed.

Lemma record_worker_bind_records {B} worker (k : unit → M (W * ProtocolState) B)
    (f : B → WorkerHandle) :
  (∀ s b s', k tt s = (Ok b, s') → f b = worker) → (∀ a, grows [] (k a)) →
  records f (record_worker worker ≫= k).
Proof.
  intros Hf Hk w p b w' p' Hb. apply eff_bind_inv in Hb as ([] & [w1 p1] & Ha & Hb).
  rewrite (Hf _ _ _ Hb). apply record_worker_records in Ha.
  specialize (Hk tt w1 p1). rewrite Hb in Hk. by apply (grown_workers _ _ _ Hk).
Qed.

Lemma spawn_worker_records r : records (λ h, h) (spawn_worker root r).
Proof.
  unfold spawn_worker. do 3 (apply records_bind; intros ?).
  apply record_worker_bind_records; [|auto with star9]. by intros s b s' [= <- _].
Qed.

Lemma start_worker_records r : records (λ _, wst_worker r) (start_worker table r).
Proof.
  unfold start_worker. apply records_bind. intros task.
  apply record_worker_bind_records; auto with star9.
Qed.

Lemma open_port_records r : records (λ _, por_worker r) (open_port (W := W) r).
Proof.
  unfold open_port. apply records_bind. intros task.
  apply record_worker_bind_records; eauto 10 with star9.
Qed.

Lemma handoff_port_records r : records (λ _, ph_worker r) (handoff_port (W := W) r).
Proof.
  unfold handoff_port. do 2 (apply records_bind; intros ?).
  apply record_worker_bind_records; eauto 10 with star9.
Qed.

Lemma grows_nil_log {A} (m : M (W * ProtocolState) A) w p t :
  grows [] m → log (m (w, p)).2.2 t = log p t.
Proof.
  intros Hm. destruct (grown_messages _ _ _ (Hm w p) t) as (l & -> & Hl).
  apply sublist_nil_r in Hl as ->. apply app_nil_r.
Qed.

Definition messages_of (t : string) (l : list (string * TaskMessage)) : list TaskMessage :=
  snd <$> filter (λ kv, kv.1 = t) l.

(** The worker of a message, and its log. *)
Lemma record_message_log (task_id : string) m (w : W) p t :
  log (record_message task_id m (w, p)).2.2 t = log p t ++ messages_of t [(task_id, m)].
Proof.
  unfold record_message, on_snd, modify, log, messages_of. cbn [fst snd ps_messages].
  rewrite filter_cons, filter_nil. cbn [fst]. destruct (decide (task_id = t)) as [->|Hne].
  - by rewrite bt_get_insert_eq.
  - rewrite bt_get_insert_ne by done. by rewrite app_nil_r.
Qed.

Lemma record_worker_run id worker_id (w : W) p :
  match bt_get worker_id (ps_workers p) with
  | Some other => if decide (other = id) then
      ∃ p1, record_worker (mkWorker worker_id id) (w, p) = (Ok tt, (w, p1))
        ∧ bt_get worker_id (ps_workers p1) = Some id ∧ (∀ t, log p1 t = log p t)
    else record_worker (mkWorker worker_id id) (w, p) = (Err (worker_taken worker_id), (w, p))
  | None => ∃ p1, record_worker (mkWorker worker_id id) (w, p) = (Ok tt, (w, p1))
        ∧ bt_get worker_id (ps_workers p1) = Some id ∧ (∀ t, log p1 t = log p t)
  end.
Proof.
  unfold record_worker, on_snd. unfold_eff. cbn [wk_worker_id wk_task_id].
  destruct (bt_get _ _) as [other|]; [case_decide|]; try done; cbn; eexists;
    (split; [done|]); (split; [apply bt_get_insert_eq|done]).
Qed.

Lemma task_id_of_run name w : task_id_of name w =
  match Task.lookup name w with
  | (Ok task, w1) => match Task.id task w1 with (Ok id, _) => Some id | _ => None end
  | _ => None
  end.
Proof.
  unfold task_id_of, mbind, eff_bind. destruct (Task.lookup name w) as [[task|e| |] w1]; try done.
Qed.

(** A message that does not reach its log. *)
Lemma not_logged (p : ProtocolState) t : log p t = log p t ++ messages_of t [].
Proof. by rewrite app_nil_r. Qed.

(** What [post_message] does with a message whose task and worker are right. *)
Definition keep_message (task : nat) (task_id : string) (m : TaskMessage)
    : M (W * ProtocolState) unit :=
  record_message task_id m ;;
  match tm_payload m with
  | PExit status => tasks (Task.set_exit task (render_exit_status status))
  | PPortOpened port => upsert_port port task_id (tm_worker_id m) None
  | PPortHandoff handoff => handoff_port handoff ;; mret tt
  | PStdioData data => tasks (write_task_fd task (stdio_fd (sd_stream data)) (sd_data data))
  | PFdData data => tasks (write_task_fd task (fda_fd data) (fda_data data))
  | PReady => mret tt
  end.

Lemma keep_message_run task id m w p r w' p' : keep_message task id m (w, p) = (r, (w', p')) →
  (∀ t, log p' t = log p t ++ messages_of t [(id, m)])
  ∧ ∀ a b, bt_get a (ps_workers p) = Some b → bt_get a (ps_workers p') = Some b.
Proof.
  unfold keep_message. set (after := match tm_payload m with PExit _ => _ | _ => _ end).
  assert (grows [] after) as Hafter by (unfold after; case_match; eauto with star9).
  unfold mbind, eff_bind. pose proof (record_message_log id m w p) as Hlog.
  destruct (record_message id m (w, p)) as [u [w3 p3]] eqn:Hm.
  assert (u = Ok tt) as -> by (by injection Hm as <- _ _).
  assert (ps_workers p3 = ps_workers p) as Hw by (by injection Hm as _ <-).
  cbn [snd] in Hlog. intros Hr.
  pose proof (λ t, grows_nil_log after w3 p3 t Hafter) as Hl.
  pose proof (grown_workers _ _ _ (Hafter w3 p3)) as Hg. rewrite Hr in Hl, Hg. cbn [snd] in Hl, Hg.
  split; [intros t; by rewrite Hl, Hlog|]. intros a b. rewrite <- Hw. apply Hg.
Qed.

(** The whole of [post_message]: which log it writes, and its worker when it is accepted. *)
Lemma post_message_run m w p r w' p' : post_message (W := W) m (w, p) = (r, (w', p')) →
  (∀ t, log p' t = log p t ++ messages_of t (logged (w, p) (PostMessage m)))
  ∧ ∀ x, r = Ok x → ∃ id, task_id_of (tm_task_id m) w = Some id
      ∧ logged (w, p) (PostMessage m) = [(id, m)]
      ∧ ∀ worker, tm_worker_id m = Some worker → bt_get worker (ps_workers p') = Some id.
Proof.
  change (post_message m) with
    (task ← tasks (Task.lookup (tm_task_id m)); task_id ← tasks (Task.id task);
     (match tm_worker_id m with
      | Some worker_id => record_worker (mkWorker worker_id task_id)
      | None => mret tt
      end) ;; keep_message task task_id m).
  unfold logged. rewrite task_id_of_run. unfold tasks at 1 2, on_fst at 1 2.
  unfold mbind at 1, eff_bind at 1. cbn [fst snd].
  destruct (Task.lookup (tm_task_id m) w) as [[task|e| |] w1] eqn:E1;
    try (intros [= <- <- <-]; split; [intros t; apply not_logged|done]).
  unfold mbind at 1, eff_bind at 1.
  destruct (Task.id task w1) as [[id|e| |] w2] eqn:E2;
    try (intros [= <- <- <-]; split; [intros t; apply not_logged|done]).
  assert (task_id_of (tm_task_id m) w = Some id) as Hid by (by rewrite task_id_of_run, E1, E2).
  assert (∀ worker p1, (∀ t, log p1 t = log p t) →
    (∀ a, worker = Some a → bt_get a (ps_workers p1) = Some id) →
    keep_message task id m (w2, p1) = (r, (w', p')) →
    (∀ t, log p' t = log p t ++ messages_of t [(id, m)])
    ∧ ∀ a, worker = Some a → bt_get a (ps_workers p') = Some id) as Hrest.
  { intros worker p1 Hp1 Hw Hr. destruct (keep_message_run _ _ _ _ _ _ _ _ Hr) as [Hl Hg].
    split; [intros t; by rewrite Hl, Hp1|eauto]. }
  destruct (tm_worker_id m) as [worker|] eqn:Hworker.
  2: { unfold mret at 1, eff_ret at 1, mbind at 1, eff_bind at 1. cbn [mbind option_bind]. intros Hr.
       destruct (Hrest None p) as [Hl Hg]; [done..|]. split; [done|]. intros x _. by exists id. }
  change (worker ← Some worker; bt_get worker (ps_workers p)) with (bt_get worker (ps_workers p)).
  pose proof (record_worker_run id worker w2 p) as Hrec. unfold mbind at 1, eff_bind at 1.
  destruct (bt_get worker (ps_workers p)) as [other|]; [destruct (decide (other = id)) as [->|Hne]|].
  - destruct Hrec as (p1 & -> & Hw & Hp1). intros Hr.
    rewrite bool_decide_false by (by intros []).
    destruct (Hrest (Some worker) p1 Hp1) as [Hl Hg]; [by intros a [= <-]|done|].
    split; [done|]. intros x _. by exists id.
  - rewrite Hrec, bool_decide_true by done. intros [= <- <- <-].
    split; [intros t; apply not_logged|done].
  - destruct Hrec as (p1 & -> & Hw & Hp1). intros Hr.
    destruct (Hrest (Some worker) p1 Hp1) as [Hl Hg]; [by intros a [= <-]|done|].
    split; [done|]. intros x _. by exists id.
Qed.

Lemma accepted_recorded r w p o w' p' id t :
  handle_request table root fuel r (w, p) = (o, (w', p')) → accepted w r o = Some (id, t) →
  bt_get id (ps_workers p') = Some t.
Proof.
  intros Hr Ha.
  assert (∀ A (f : A → RuntimeResponse) (m : M (W * ProtocolState) A) worker,
    records worker m → answer f m (w, p) = (o, (w', p')) → ∀ x, o = Ok x →
    ∃ a, x = f a ∧ bt_get (wk_worker_id (worker a)) (ps_workers p')
      = Some (wk_task_id (worker a))) as Hrec.
  { intros A f m worker Hm Hans x ->. unfold answer in Hans.
    apply eff_bind_inv in Hans as (a & [w1 p1] & Hm' & [= <- <- <-]).
    exists a. split; [done|]. by apply (Hm _ _ _ _ _ Hm'). }
  destruct r as [r|r|r|r|m| | | | | | | | | | | | |]; try done; cbn [handle_request] in Hr;
    destruct o as [x| | |]; try done; cbn [accepted] in Ha.
  - destruct (Hrec _ _ _ _ (spawn_worker_records r) Hr x eq_refl) as (h & -> & Hh).
    by injection Ha as <- <-.
  - destruct (Hrec _ _ _ _ (start_worker_records r) Hr x eq_refl) as (h & _ & Hh).
    by injection Ha as <- <-.
  - destruct (Hrec _ _ _ _ (open_port_records r) Hr x eq_refl) as (h & _ & Hh).
    by injection Ha as <- <-.
  - destruct (Hrec _ _ _ _ (handoff_port_records r) Hr x eq_refl) as (h & _ & Hh).
    by injection Ha as <- <-.
  - unfold answer in Hr. apply eff_bind_inv in Hr as (u & [w1 p1] & Hm & [= <- <- <-]).
    apply post_message_run in Hm as [_ Hm]. destruct (Hm u eq_refl) as (tid & Hid & _ & Hw).
    destruct (tm_worker_id m) as [worker|]; [|done]. rewrite Hid in Ha. injection Ha as <- <-.
    by apply Hw.
Qed.

(** Every request writes the logs as [logged] says. *)
Lemma handle_request_log r w p t :
  let p' := (handle_request table root fuel r (w, p)).2.2 in
  log p' t = log p t ++ messages_of t (logged (w, p) r).
Proof.
  cbv zeta. assert ((∃ m, r = PostMessage m) ∨ posted r = [] ∧ logged (w, p) r = [])
    as [[m ->]|[Hp ->]] by (destruct r; eauto).
  - cbn [handle_request]. unfold answer, mbind at 1, eff_bind.
    destruct (post_message m (w, p)) as [o [w' p']] eqn:Hm.
    apply post_message_run in Hm as [Hl _]. destruct o; apply Hl.
  - rewrite <- not_logged. apply grows_nil_log. rewrite <- Hp. apply handle_request_grows.
Qed.

(** *** Any requests *)

(** A request, the state it found and its outcome. *)
Record Served := mkServed {
  sv_found : W * ProtocolState;
  sv_request : RuntimeRequest;
  sv_outcome : Result RuntimeResponse
}.

(** The requests [rs] one after the other, and the state that they leave. *)
Fixpoint serve (rs : list RuntimeRequest) (s : W * ProtocolState)
    : list Served * (W * ProtocolState) :=
  match rs with
  | [] => ([], s)
  | r :: rs' =>
      let '(o, s') := handle_request table root fuel r s in
      let '(os, s'') := serve rs' s' in (mkServed s r o :: os, s'')
  end.

(** C32. Whatever requests the protocol host is sent and however each ends, what it has
    recorded stays: workers keep their tasks and ports the targets of their handoffs.  A worker
    that an accepted request names, a message included, is recorded with the task of that
    request (of a message, the identifier of the task that its name stands for), so no two
    accepted requests name a worker with different tasks.  The log of each task is what it was
    and then, in order, the messages to that task whose worker was not recorded with another:
    those alone, each once, an accepted message among them. *)
Theorem runtime_records rs w p :
  let '(served, (_, p')) := serve rs (w, p) in
  sv_request <$> served = rs ∧
  (∀ id t, bt_get id (ps_workers p) = Some t → bt_get id (ps_workers p') = Some t) ∧
  (∀ id r, bt_get id (ps_ports p) = Some r → ∃ r' l, bt_get id (ps_ports p') = Some r'
     ∧ pr_handoff_targets r' = pr_handoff_targets r ++ l) ∧
  (∀ t, log p' t = log p t ++ messages_of t (s ← served; logged (sv_found s) (sv_request s))) ∧
  ∀ s, s ∈ served →
    (∀ id t, accepted (sv_found s).1 (sv_request s) (sv_outcome s) = Some (id, t) →
       bt_get id (ps_workers p') = Some t) ∧
    (∀ m x, sv_request s = PostMessage m → sv_outcome s = Ok x →
       ∃ id, task_id_of (tm_task_id m) (sv_found s).1 = Some id
         ∧ logged (sv_found s) (sv_request s) = [(id, m)]).
Proof.
  revert w p. induction rs as [|r rs IH]; intros w p; cbn [serve].
  { split_and!; [done|done| | |by intros s Hs%not_elem_of_nil].
    - intros id r Hr. exists r, []. by rewrite app_nil_r.
    - intros t. apply not_logged. }
  pose proof (handle_request_log r w p) as Hlog. pose proof (handle_request_grows r w p) as Hgrown.
  destruct (handle_request table root fuel r (w, p)) as [o [w1 p1]] eqn:Hr.
  specialize (IH w1 p1). destruct (serve rs (w1, p1)) as [served [w' p']].
  cbn [snd] in Hlog, Hgrown. destruct Hgrown as [Hw1 Hp1 _].
  destruct IH as (Hrs & Hw & Hp & Hl & Hs). split_and!.
  - cbn. by rewrite Hrs.
  - auto.
  - intros id x Hx. destruct (Hp1 id x Hx) as (x1 & l & Hx1 & E1).
    destruct (Hp id x1 Hx1) as (x2 & l' & Hx2 & E2). exists x2, (l ++ l').
    by rewrite E2, E1, <- app_assoc.
  - intros t. rewrite Hl, Hlog, <- app_assoc. f_equal. rewrite bind_cons. unfold messages_of.
    by rewrite filter_app, fmap_app.
  - intros s [->|Hin]%elem_of_cons; [|by apply Hs]. cbn [sv_found sv_request sv_outcome fst]. split.
    + intros id t Ha. apply Hw. by eapply accepted_recorded.
    + intros m x -> ->. cbn [handle_request] in Hr. unfold answer in Hr.
      apply eff_bind_inv in Hr as (u & [w2 p2] & Hm & _).
      apply post_message_run in Hm as [_ Hm]. destruct (Hm u eq_refl) as (id & Hid & Hlg & _).
      by exists id.
Qed.
End Records.

(** ** Starting a task *)

Section Start.
Context {W H : Type} `{!HasTasks W H} `{!FileHandle W H} `{!HasNodes W H}.
Context (open_at : nat → FdDescriptor → string → M W H).

(** What stands behind a descriptor: what the namespace of the task has at a path, or a node
    made for it. *)
Inductive Behind :=
| AtPath (d : FdDescriptor) (path : string)
| NewDir (name : string)
| NewFile (name : string).

Definition path_of (b : Behind) : string :=
  match b with AtPath _ path => path | NewDir name => name | NewFile name => name end.

Definition behind_fd (d : FdDescriptor) (default_fd : option Z) : Behind :=
  match fdd_path d, fdd_kind d with
  | Some path, _ => AtPath d path
  | None, FdDirectory => NewDir (fallback_fd_path d default_fd)
  | None, _ => NewFile (fallback_fd_path d default_fd)
  end.

Definition behind_stream (name : string) (d : StreamDescriptor) : Behind :=
  match d with
  | Inherit => NewFile name
  | Null => NewFile ("null:" +:+ name)
  | OnFd fd => behind_fd fd None
  | OnPort port => NewFile ("port:" +:+ pt_port_id port)
  end.

(** The descriptors of a specification, in the order they are placed. *)
Definition descriptors (spec : ExecutionSpec) : list (Z * Behind) :=
  [(0, behind_stream "stdin" (sio_stdin (sp_stdio spec)));
   (1, behind_stream "stdout" (sio_stdout (sp_stdio spec)));
   (2, behind_stream "stderr" (sio_stderr (sp_stdio spec)))]
  ++ ((λ d, (fdd_fd d, behind_fd d (Some (fdd_fd d)))) <$> sp_fds spec).

(** The file of a descriptor: the one opened at its path, or a node of its own, a directory or
    an empty file, opened. *)
Definition open_behind (task : nat) (b : Behind) : M W H :=
  match b with
  | AtPath d path => open_at task d path
  | NewDir name => open_node (Node.dir name (Z.lor FileMode.DIR (FileMode.from_perm 493)))
  | NewFile name => open_node (Node.file name [] (FileMode.from_perm 438))
  end.

(** The failure of a computation, whatever it was to answer. *)
Definition failed {A B} (o : Result A) : option (Result B) :=
  match o with
  | Ok _ => None
  | Err e => Some (Err e)
  | Panic => Some Panic
  | NoFuel => Some NoFuel
  end.

(** [installs task w bs l r w']: from [w] the descriptors [bs] are opened one after the other,
    each where those before it are placed; [l] are the files placed, and [r] is the first
    failure, to open or to place, at which it stops. *)
Inductive installs (task : nat) :
  W → list (Z * Behind) → list (Z * OpenFile H) → Result unit → W → Prop :=
| installs_all w : installs task w [] [] (Ok tt) w
| installs_next w fd b bs file w1 w2 l r w3 :
    open_behind task b w = (Ok file, w1) →
    Task.set_fd task fd file (path_of b) w1 = (Ok tt, w2) →
    installs task w2 bs l r w3 →
    installs task w ((fd, b) :: bs) ((fd, mkOpenFile file (path_of b)) :: l) r w3
| installs_unopened w fd b bs o r w1 :
    open_behind task b w = (o, w1) → failed o = Some r → installs task w ((fd, b) :: bs) [] r w1
| installs_unplaced w fd b bs file w1 o r w2 :
    open_behind task b w = (Ok file, w1) →
    Task.set_fd task fd file (path_of b) w1 = (o, w2) → failed o = Some r →
    installs task w ((fd, b) :: bs) [] r w2.


Lemma bind_failed {A B} (m : M W A) (k : A → M W B) w o w' r :
  m w = (o, w') → failed o = Some r → (m ≫= k) w = (r, w').
Proof. intros Hm Hr. unfold mbind, eff_bind. rewrite Hm. by destruct o; simplify_eq/=. Qed.

Lemma for_each_installs {A} task (f : A → M W unit) (g : A → Z * Behind) xs w r w' :
  (∀ x v, f x v = (file ← open_behind task (g x).2;
                   Task.set_fd task (g x).1 file (path_of (g x).2)) v) →
  for_each f xs w = (r, w') → ∃ l, installs task w (g <$> xs) l r w'.
Proof.
  intros Hf. revert w. induction xs as [|x xs IH]; intros w; cbn [for_each fmap list_fmap].
  { intros [= <- <-]. eexists. apply installs_all. }
  specialize (Hf x). destruct (g x) as [fd b]. cbn [fst snd] in Hf.
  unfold mbind, eff_bind. rewrite Hf. unfold mbind, eff_bind.
  destruct (open_behind task b w) as [o w1] eqn:Ho. destruct o as [file|e| |].
  2-4: intros [= <- <-]; eexists; by eapply installs_unopened.
  destruct (Task.set_fd task fd file (path_of b) w1) as [o w2] eqn:Hs. destruct o as [[]|e| |].
  2-4: intros [= <- <-]; eexists; by eapply installs_unplaced.
  intros Hr. destruct (IH w2 Hr) as [l Hl]. eexists. by eapply installs_next.
Qed.

(** After all of [bs1], or stopped among them *)
Lemma installs_app task w bs1 bs2 l1 w1 l2 r w2 :
  installs task w bs1 l1 (Ok tt) w1 → installs task w1 bs2 l2 r w2 →
  installs task w (bs1 ++ bs2) (l1 ++ l2) r w2.
Proof.
  intros H1. remember (Ok tt) as o eqn:Ho.
  induction H1 as [|w fd b bs file v1 v2 l r1 v3 Hopen Hset _ IH|w fd b bs o' r1 v1 _ Hf
    |w fd b bs file v1 o' r1 v2 _ _ Hf]; intros Hrest; cbn; subst.
  - done.
  - eapply installs_next; eauto.
  - by destruct o'.
  - by destruct o'.
Qed.

Lemma installs_stopped task w bs1 bs2 l r w' :
  installs task w bs1 l r w' → is_Ok r = false → installs task w (bs1 ++ bs2) l r w'.
Proof.
  induction 1; intros Hr; cbn; [done|..].
  - eapply installs_next; eauto.
  - by eapply installs_unopened.
  - by eapply installs_unplaced.
Qed.

(** *** The tasks while descriptors are installed *)

Hypothesis nodes_leave : ∀ m w, tasks_of (set_nodes_of m w) = tasks_of w.

(** Opening a path leaves the task [t] as it is. *)
Definition opens_leave (task t : nat) : Prop :=
  ∀ d path w, task_at (open_at task d path w).2 t = task_at w t.

Lemma open_behind_leaves task t b w : opens_leave task t →
  task_at (open_behind task b w).2 t = task_at w t.
Proof.
  intros Ht. destruct b as [d path|name|name]; [apply Ht| |];
    unfold task_at; f_equal; f_equal; apply nodes_leave.
Qed.

Lemma set_fd_others task t fd (file : H) path w : t ≠ task →
  task_at (Task.set_fd task fd file path w).2 t = task_at w t.
Proof.
  intros Hne. unfold Task.set_fd, Task.lock_fds, Task.inner, Task.store. unfold_eff.
  destruct (ts_tasks (tasks_of w) !! task) as [i|]; [|done]. destruct (ft_locked _); [done|].
  destruct (if ft_next (ti_fds i) <=? fd then _ else _); [|done].
  unfold Task.put_fds. rewrite update_inner_ok. cbn [snd].
  rewrite task_at_update, decide_False by done. by destruct (task_at w t).
Qed.

Lemma installs_others task t w bs l r w' : opens_leave task t → t ≠ task →
  installs task w bs l r w' → task_at w' t = task_at w t.
Proof.
  intros Ht Hne. induction 1 as [w|w fd b bs file v1 v2 l r v3 Ho Hs _ IH|w fd b bs o r v1 Ho _
    |w fd b bs file v1 o r v2 Ho Hs _]; [done|..];
    pose proof (open_behind_leaves task t b w Ht) as H1; rewrite Ho in H1; cbn [snd] in H1.
  - pose proof (set_fd_others task t fd file (path_of b) v1 Hne) as H2. rewrite Hs in H2.
    cbn [snd] in H2. congruence.
  - done.
  - pose proof (set_fd_others task t fd file (path_of b) v1 Hne) as H2. rewrite Hs in H2.
    cbn [snd] in H2. congruence.
Qed.

(** The files of a table after placing [l] over [files]. *)
Definition placed (files : btree Z (OpenFile H)) (l : list (Z * OpenFile H)) (fd : Z)
    : option (OpenFile H) :=
  match last (filter (λ kv, kv.1 = fd) l) with
  | Some kv => Some kv.2
  | None => bt_get fd files
  end.

Lemma placed_cons files fd file l fd' :
  placed (bt_insert fd file files) l fd' = placed files ((fd, file) :: l) fd'.
Proof.
  unfold placed. rewrite filter_cons. cbn [fst]. destruct (decide (fd = fd')) as [->|Hne].
  - rewrite last_cons. destruct (last _); [done|]. by rewrite bt_get_insert_eq.
  - destruct (last _); [done|]. by rewrite bt_get_insert_ne.
Qed.

(** [i'] differs from [i] in its descriptors only. *)
Definition same_but_fds (i i' : TaskInner H) : Prop := Task.set_ti_fds (ti_fds i') i = i'.

Lemma same_but_fds_trans i1 i2 i3 : same_but_fds i1 i2 → same_but_fds i2 i3 → same_but_fds i1 i3.
Proof. unfold same_but_fds. intros <- <-. by destruct i1. Qed.

Lemma installs_table task w bs l r w' i : opens_leave task task →
  task_at w task = Some i → ft_locked (ti_fds i) = false → installs task w bs l r w' →
  ∃ i', task_at w' task = Some i' ∧ same_but_fds i i' ∧ ft_locked (ti_fds i') = false
    ∧ ∀ fd, bt_get fd (ft_files (ti_fds i')) = placed (ft_files (ti_fds i)) l fd.
Proof.
  intros Hleave Hi Hl Hins. revert i Hi Hl.
  induction Hins as [w|w fd b bs file v1 v2 l r v3 Ho Hs _ IH|w fd b bs o r v1 Ho _
    |w fd b bs file v1 o r v2 Ho Hs Hr]; intros i Hi Hl.
  - exists i. split_and!; [done|by destruct i|done|done].
  - pose proof (open_behind_leaves task task b w Hleave) as H1. rewrite Ho in H1. cbn [snd] in H1.
    rewrite Hi in H1. assert (fds_at v1 task = Some (ti_fds i)) as Hf by (unfold fds_at; by rewrite H1).
    rewrite (set_fd_spec _ _ _ _ _ _ Hf Hl) in Hs.
    destruct (if ft_next (ti_fds i) <=? fd then _ else _) as [next|]; [|done].
    injection Hs as <-. unfold with_fds, Task.put_fds in IH.
    set (t := mkFdTable _ next false) in IH.
    destruct (IH (Task.set_ti_fds t i)) as (i' & Hi' & Hsame & Hl' & Hget); [|done|].
    { by rewrite task_at_update, decide_True, H1 by done. }
    exists i'. split_and!; [done| |done|].
    + eapply same_but_fds_trans; [|done]. by destruct i.
    + intros fd'. rewrite Hget. apply placed_cons.
  - pose proof (open_behind_leaves task task b w Hleave) as H1. rewrite Ho in H1. cbn [snd] in H1.
    exists i. split_and!; [congruence|by destruct i|done|done].
  - pose proof (open_behind_leaves task task b w Hleave) as H1. rewrite Ho in H1. cbn [snd] in H1.
    rewrite Hi in H1. assert (fds_at v1 task = Some (ti_fds i)) as Hf by (unfold fds_at; by rewrite H1).
    rewrite (set_fd_spec _ _ _ _ _ _ Hf Hl) in Hs.
    destruct (if ft_next (ti_fds i) <=? fd then _ else _) as [next|]; injection Hs as <- <-; [done|].
    exists i. split_and!; [done|by destruct i|done|done].
Qed.

(** *** The whole start *)

(** The fields of a task that has been told of a specification. *)
Definition told_of (worker : string) (spec : ExecutionSpec) (exit : string) (i : TaskInner H)
    : TaskInner H :=
  let s := ti_state i in
  mkTaskInner (ti_driver i) (ti_parent i) (ti_ns i) (ti_id i)
    (mkTaskState (st_alias s) (st_kind s) (render_command (sp_module spec) (sp_args spec))
       (render_env (sp_env spec)) exit (option.default (st_dir s) (sp_cwd spec)))
    (ti_fds i) (Some worker) (ti_export i).

Definition updated (task : nat) (f : TaskInner H → TaskInner H) (w : W) : W :=
  (Task.update_inner task f w).2.

Lemma updated_twice task f g w : updated task f (updated task g w) = updated task (λ i, f (g i)) w.
Proof.
  unfold updated, Task.update_inner, Task.update_store, modify. cbn.
  rewrite tasks_set, set_tasks_set. f_equal. unfold Task.set_ts_tasks. f_equal. cbn.
  apply list_eq. intros t.
  destruct (decide (t = task)) as [->|Ht]; [|by rewrite !list_lookup_alter_ne].
  rewrite !list_lookup_alter_eq. by destruct (_ !! task).
Qed.

Lemma updated_ext task f g w : (∀ i, f i = g i) → updated task f w = updated task g w.
Proof.
  intros Hfg. unfold updated, Task.update_inner, Task.update_store, modify. cbn.
  f_equal. unfold Task.set_ts_tasks. f_equal. by apply list_alter_ext.
Qed.

Lemma open_fd_descriptor_eq task d default_fd w : open_fd_descriptor open_at task d default_fd w =
  (file ← open_behind task (behind_fd d default_fd); mret (file, path_of (behind_fd d default_fd))) w.
Proof.
  unfold open_fd_descriptor, behind_fd, open_virtual_fd. destruct (fdd_path d); [done|].
  by destruct (fdd_kind d).
Qed.

Lemma place_eq task fd b (m : M W (H * string)) w :
  m w = (file ← open_behind task b; mret (file, path_of b)) w →
  ('(file, path) ← m; Task.set_fd task fd file path) w
  = (file ← open_behind task b; Task.set_fd task fd file (path_of b)) w.
Proof.
  unfold mbind, eff_bind. intros ->. by destruct (open_behind task b w) as [[file|e| |] w1].
Qed.

Lemma fields_told worker spec task w {B} (k : M W B) :
  (Task.set_cmd task (render_command (sp_module spec) (sp_args spec)) ;;
   Task.set_env task (render_env (sp_env spec)) ;;
   (match sp_cwd spec with Some cwd => Task.set_dir task cwd | None => mret tt end) ;;
   Task.set_worker task worker ;; Task.set_exit task "running" ;; k) w
  = k (updated task (told_of worker spec "running") w).
Proof.
  assert (∀ f v C (k' : M W C), (Task.update_inner task f ;; k') v = k' (updated task f v)) as Hstep.
  { intros f v C k'. unfold mbind, eff_bind. by rewrite update_inner_ok. }
  unfold Task.set_cmd, Task.set_env, Task.set_dir, Task.set_worker, Task.set_exit, Task.update_state.
  rewrite !Hstep. destruct (sp_cwd spec) as [cwd|] eqn:Hcwd.
  - rewrite !Hstep, !updated_twice. f_equal. apply updated_ext. intros j. unfold told_of.
    rewrite Hcwd. by destruct j as [? ? ? ? []].
  - unfold mbind at 1, eff_bind at 1, mret, eff_ret. rewrite !Hstep, !updated_twice. f_equal.
    apply updated_ext. intros j. unfold told_of. rewrite Hcwd. by destruct j as [? ? ? ? []].
Qed.

(** The streams and the descriptors of a specification, opened and placed. *)
Lemma install_all task spec w r w' :
  (install_stdio open_at task (sp_stdio spec) ;;
   for_each (λ fd, '(file, path) ← open_fd_descriptor open_at task fd (Some (fdd_fd fd));
                   Task.set_fd task (fdd_fd fd) file path) (sp_fds spec)) w = (r, w') →
  ∃ l, installs task w (descriptors spec) l r w'.
Proof.
  unfold mbind at 1, eff_bind at 1. destruct (install_stdio _ _ _ w) as [o w1] eqn:Hstd.
  unfold install_stdio in Hstd.
  apply (for_each_installs task _ (λ '(fd, name, d), (fd, behind_stream name d))) in Hstd as [l Hl].
  2: { intros [[fd name] d] v. cbn [fst snd]. apply place_eq. unfold open_stream_descriptor.
       destruct d; try done. apply open_fd_descriptor_eq. }
  unfold descriptors. destruct o as [[]|e| |].
  - intros Hfds.
    apply (for_each_installs task _ (λ d, (fdd_fd d, behind_fd d (Some (fdd_fd d))))) in Hfds as [l' Hl'].
    2: { intros d v. apply place_eq, open_fd_descriptor_eq. }
    eexists. by eapply installs_app.
  - intros [= <- <-]. eexists. by eapply installs_stopped.
  - intros [= <- <-]. eexists. by eapply installs_stopped.
  - intros [= <- <-]. eexists. by eapply installs_stopped.
Qed.

(** C33. Starting a task sets its command, environment, directory and worker and marks it
    running; then its three streams and the descriptors of the specification are opened and
    placed in order, until one cannot be: what has a path is opened by the namespace at that
    path, what has none is a new directory or an empty file.  When all are placed the task is
    marked started; else the failure is the result and the task stays marked running.  Where
    opening leaves the task itself alone, it has those fields, and at each number the file
    opened for the last descriptor placed there, with its path; where it leaves another task
    alone, nothing else changes that one. *)
Theorem exec_start worker spec task i w :
  task_at w task = Some i → ft_locked (ti_fds i) = false →
  let '(r, w') := apply_execution_spec open_at task worker spec w in
  (∃ l w1,
     installs task (updated task (told_of worker spec "running") w) (descriptors spec) l r w1 ∧
     w' = (if is_Ok r then updated task (Task.set_ti_state (Task.set_st_exit "started")) w1 else w1) ∧
     (opens_leave task task → ∃ i', task_at w' task = Some i' ∧
        same_but_fds (told_of worker spec (if is_Ok r then "started" else "running") i) i' ∧
        ∀ fd, bt_get fd (ft_files (ti_fds i')) = placed (ft_files (ti_fds i)) l fd)) ∧
  ∀ t, t ≠ task → opens_leave task t → task_at w' t = task_at w t.
Proof.
  intros Hi Hl. unfold apply_execution_spec. rewrite fields_told.
  set (w0 := updated task _ w).
  assert (∀ t, task_at (updated task (told_of worker spec "running") w) t
    = (if decide (t = task) then told_of worker spec "running" else λ j, j) <$> task_at w t) as Hw0.
  { intros t. apply task_at_update. }
  fold w0 in Hw0.
  destruct ((install_stdio open_at task (sp_stdio spec) ;;
    for_each (λ fd, '(file, path) ← open_fd_descriptor open_at task fd (Some (fdd_fd fd));
      Task.set_fd task (fdd_fd fd) file path) (sp_fds spec)) w0) as [r w1] eqn:Hins.
  assert ((install_stdio open_at task (sp_stdio spec) ;;
      for_each (λ fd, '(file, path) ← open_fd_descriptor open_at task fd (Some (fdd_fd fd));
        Task.set_fd task (fdd_fd fd) file path) (sp_fds spec) ;;
      Task.set_exit task "started") w0
    = (r, if is_Ok r then updated task (Task.set_ti_state (Task.set_st_exit "started")) w1 else w1))
    as ->.
  { unfold mbind, eff_bind in *. destruct (install_stdio _ _ _ w0) as [[[]|e| |] v]; try by simplify_eq/=.
    rewrite Hins. by destruct r as [[]|e| |]. }
  apply install_all in Hins as [l Hins]. split.
  - exists l, w1. split; [done|]. split; [done|]. intros Hleave.
    assert (task_at w0 task = Some (told_of worker spec "running" i)) as Hi0.
    { by rewrite Hw0, decide_True, Hi by done. }
    destruct (installs_table _ _ _ _ _ _ _ Hleave Hi0 Hl Hins) as (i' & Hi' & Hsame & _ & Hget).
    destruct (is_Ok r); [|by exists i'].
    eexists. unfold updated. rewrite task_at_update, decide_True, Hi' by done. split; [done|].
    split; [|exact Hget]. unfold same_but_fds in *. rewrite <- Hsame. by destruct i as [? ? ? ? []].
  - intros t Hne Hleave. pose proof (installs_others _ _ _ _ _ _ _ Hleave Hne Hins) as H1.
    rewrite Hw0, decide_False in H1 by done.
    assert (task_at w1 t = task_at w t) as H2 by (rewrite H1; by destruct (task_at w t)).
    destruct (is_Ok r); [|done]. unfold updated. rewrite task_at_update, decide_False, H2 by done.
    by destruct (task_at w t).
Qed.
End Start.

(** ** A small runtime *)

(** Tasks whose one namespace is a [MemFs], the heap of which the nodes of descriptors share. *)
Module Tiny.
Definition World : Type := TaskStore MemHandle * MemWorld.

#[global] Instance tiny_tasks : HasTasks World MemHandle.
Proof.
  refine {| tasks_of := fst; set_tasks s w := (s, w.2) |}; [done|done|by intros []].
Defined.

#[global] Instance tiny_handle : FileHandle World MemHandle :=
  zoom_handle snd (λ m w, (w.1, m)).

#[global] Instance tiny_nodes : HasNodes World MemHandle :=
  {| nodes_of := snd; set_nodes_of m w := (w.1, m); box_node h := h |}.

Definition table (ns : nat) : FileSystem World MemHandle :=
  zoom_fs snd (λ m w, (w.1, m)) (λ h, h) (MemFs.fs 10).

#[global] Instance tiny_namespaces : TaskNamespaces World MemHandle := {|
  ns_new := mret 0%nat;
  ns_clone := mret;
  ns_self := mret;
  ns_bind _ _ _ _ _ := mret tt;
  ns_unbind _ _ _ _ := mret tt;
  ns_open ns := fs_open (table ns);
  ns_format_bindings _ := mret ""
|}.

(** A root task, and the file [data] in its namespace. *)
Definition boot : World :=
  snd ((write_file (table 0) "data" (bytes_of "text") 420 ;; Task.alloc "auto" None)
         (Task.new_store, MemFs.new (λ n, Z.of_nat n))).

Definition serve_boot (rs : list RuntimeRequest) := serve table 0 100 rs (boot, default_state).

Definition spec (stdio : StdioSet) (fds : list FdDescriptor) : ExecutionSpec :=
  mkSpec Wasi "prog.wasm" ["-v"] [mkEnv "MODE" "test"] (Some "sandbox") stdio fds.

Definition spawn (id : string) : RuntimeRequest :=
  SpawnWorker (mkWorkerSpawn (mkWorker id "") None).

(** What outcomes say, without the handles in them. *)
Definition refusals (served : list (Served (W := World))) : list (option Error) :=
  (λ s, match sv_outcome s with Err e => Some e | _ => None end) <$> served.

(** A computation that leaves the tasks alone. *)
Definition leaves_tasks {A} (m : M World A) : Prop := ∀ w, tasks_of (m w).2 = tasks_of w.

Lemma table_leaves ns ctx path : leaves_tasks (fs_open (table ns) ctx path).
Proof.
  intros [s m]. unfold table. cbn [zoom_fs fs_open]. unfold zoom_open, zoom. unfold_eff.
  cbn [fst snd]. by destruct (fs_open (MemFs.fs 10) ctx path m) as [[]].
Qed.

Lemma in_namespace_leaves {A} task (f : FileSystem World MemHandle → M World A) :
  (∀ ns, leaves_tasks (f (table ns))) → leaves_tasks (in_namespace table task f).
Proof.
  intros Hf w. unfold in_namespace, Task.namespace, Task.inner, Task.store. unfold_eff.
  destruct (_ !! task); [apply Hf|done].
Qed.

(** Opening in a namespace that is a [MemFs] leaves every task as it is. *)
Lemma open_at_leaves task t : opens_leave (Worker.open_at_path table) task t.
Proof.
  intros d path w. unfold task_at. do 2 f_equal.
  by apply in_namespace_leaves; intros ns; apply table_leaves.
Qed.
End Tiny.

Import Tiny.

(** The same worker id cannot be spawned twice, nor bound to the task of another, and is
    answered for by one task; the messages of a task are kept in order. *)
Example tiny_records :
  let m := mkTaskMessage "2" (Some "w") 1 PReady in
  let '(os, (_, p)) := serve_boot [spawn "w"; spawn "w"; PostMessage m;
    OpenPort (mkPortOpen (mkWorker "w" "1") (mkPort "p" "out"))] in
  refusals os = [None; Some (worker_taken "w"); None; Some (worker_taken "w")]
  ∧ ps_workers p = [("w", "2")] ∧ log p "2" = [m] ∧ ps_ports p = [].
Proof. vm_compute. done. Qed.

(** A file of the namespace at 5, and a directory made for 6. *)
Definition some_spec : ExecutionSpec :=
  spec StdioSet_default [mkFdDescriptor 5 FdFile (Some "data") true false false;
                         mkFdDescriptor 6 FdDirectory None true false false].

Lemma exec_start_witness :
  ∃ i l w1 i',
    let '(r, w') := apply_execution_spec (Worker.open_at_path table) 0 "w" some_spec boot in
    r = Ok tt ∧
    installs (Worker.open_at_path table) 0
      (updated (H := MemHandle) 0 (told_of "w" some_spec "running") boot)
      (descriptors some_spec) l r w1 ∧
    task_at w' 0 = Some i' ∧ same_but_fds (told_of "w" some_spec "started" i) i' ∧
    ∀ fd, bt_get fd (ft_files (ti_fds i')) = placed (ft_files (ti_fds i)) l fd.
Proof.
  assert (∃ i, task_at (H := MemHandle) boot 0 = Some i ∧ ft_locked (ti_fds i) = false)
    as (i & Hi & Hl) by (eexists; split; vm_compute; reflexivity).
  pose proof (exec_start (Worker.open_at_path table) ltac:(by intros m []) "w" some_spec 0 i boot Hi Hl)
    as Hs.
  assert (is_Ok (apply_execution_spec (Worker.open_at_path table) 0 "w" some_spec boot).1 = true)
    as Hok by (by vm_compute).
  destruct (apply_execution_spec _ 0 "w" some_spec boot) as [r w'].
  destruct Hs as [(l & w1 & Hins & _ & Htask) _].
  destruct (Htask (open_at_leaves 0 0)) as (i' & Hi' & Hsame & Hget).
  destruct r as [[]|e| |]; try done. by exists i, l, w1, i'.
Defined.

(** *** What a runtime would not expect *)

(** A spawn that is refused has made its task all the same. *)
Lemma refused_spawn_leaks :
  let '(os, (w, p)) := serve_boot [spawn "w"; spawn "w"] in
  refusals os = [None; Some (worker_taken "w")] ∧
  bt_keys (ts_resources (tasks_of w)) = ["1"; "2"; "3"] ∧ ps_workers p = [("w", "2")].
Proof. vm_compute. done. Qed.

(** A start that fails leaves the task marked running. *)
Lemma failed_start_running :
  let bad := OnFd (mkFdDescriptor 1 FdFile (Some "missing") false true false) in
  let '(os, (w, p)) := serve_boot [spawn "w"; StartWorker (mkWorkerStart (mkWorker "w" "2")
    (spec (mkStdio Null bad Null) []))] in
  refusals os = [None; Some (EPath "open" "missing" NotFound)] ∧
  (Task.exit 1 w).1 = Ok "running".
Proof. vm_compute. done. Qed.

(** The same specification started by the registry creates the file. *)
Lemma start_differs :
  let bad := mkFdDescriptor 1 FdFile (Some "missing") false true false in
  is_Ok ((apply_execution_spec (Exec.open_at_path table) 0 "w"
            (spec (mkStdio Null (OnFd bad) Null) []) boot).1) = true
  ∧ is_Ok ((apply_execution_spec (Worker.open_at_path table) 0 "w"
            (spec (mkStdio Null (OnFd bad) Null) []) boot).1) = false.
Proof. vm_compute. done. Qed.

(** A handle of the worker that names its task by an alias is taken for another task. *)
Lemma alias_is_another_task :
  let '(w1, p1) := (serve_boot [spawn "w"]).2 in
  let w2 := (Task.set_field 1 "alias" "job" w1).2 in
  (handle_request table 0 100 (OpenPort (mkPortOpen (mkWorker "w" "job") (mkPort "p" "out")))
     (w2, p1)).1 = Err (worker_taken "w")
  ∧ (Task.lookup "job" w2).1 = Ok 1%nat.
Proof. vm_compute. done. Qed.
