(* ===== verification/Api.v ===== *)
(** * star9-protocol: the file API of a task

    Models [crates/star9-protocol/src/lib.rs] but the CBOR encoding of its messages:
    [Star9Api] answers an [ApiRequest] over the namespace and the descriptors of a task.

    The times of [Chtimes] are [f64]s, here [spec_float]s of the Standard Library, which are
    the values of the IEEE format with its rounding and no axiom. *)

From stdpp Require Import base list numbers option strings pretty.
From Stdlib Require Import ZArith Lia Ascii Floats.SpecFloat.
From S2P Require Import Prelude Strs RcText BTree Core FsTrait Vfs Field P9Server Task.

Local Open Scope Z_scope.

Record StatInfo := mkStatInfo {
  si_size : Z;
  si_mode : Z;
  si_is_dir : bool;
  si_modified_ms : Z
}.

Inductive ApiRequest :=
| AOpen (path : string)
| AOpenFile (path : string) (flags mode : Z)
| ACreate (path : string)
| AClose (fd : Z)
| ASync (fd : Z)
| ARead (fd count : Z)
| AWrite (fd : Z) (data : list byte)
| AWriteAt (fd : Z) (data : list byte) (offset : Z)
| AReadDir (path : string)
| AMkdir (path : string)
| AMkdirAll (path : string)
| ABind (src dst : string)
| AUnbind (src dst : string)
| AStat (path : string)
| ATruncate (path : string) (size : Z)
| AWaitFor (path : string) (timeout : Z)
| ARename (old new : string)
| ACopy (old new : string)
| ARemove (path : string)
| ARemoveAll (path : string)
| AReadFile (path : string)
| AWriteFile (path : string) (data : list byte)
| AAppendFile (path : string) (data : list byte)
| AFstat (fd : Z)
| ALstat (path : string)
| AChmod (path : string) (mode : Z)
| AChown (path : string) (uid gid : Z)
| AFchmod (fd mode : Z)
| AFchown (fd uid gid : Z)
| AFtruncate (fd size : Z)
| AReadlink (path : string)
| ASymlink (old new : string)
| AChtimes (path : string) (atime mtime : spec_float).

Inductive ApiResponse :=
| AUnit
| AFd (fd : Z)
| ABytes (data : list byte)
| AOptionalBytes (data : option (list byte))
| ACount (n : Z)
| AEntries (names : list string)
| AStatInfo (s : StatInfo)
| AString (s : string).

Module Api.

(** [ApiRequest::method_name] *)
Definition method_name (req : ApiRequest) : string :=
  match req with
  | AOpen _ => "Open" | AOpenFile _ _ _ => "OpenFile" | ACreate _ => "Create"
  | AClose _ => "Close" | ASync _ => "Sync" | ARead _ _ => "Read" | AWrite _ _ => "Write"
  | AWriteAt _ _ _ => "WriteAt" | AReadDir _ => "ReadDir" | AMkdir _ => "Mkdir"
  | AMkdirAll _ => "MkdirAll" | ABind _ _ => "Bind" | AUnbind _ _ => "Unbind"
  | AStat _ => "Stat" | ATruncate _ _ => "Truncate" | AWaitFor _ _ => "WaitFor"
  | ARename _ _ => "Rename" | ACopy _ _ => "Copy" | ARemove _ => "Remove"
  | ARemoveAll _ => "RemoveAll" | AReadFile _ => "ReadFile" | AWriteFile _ _ => "WriteFile"
  | AAppendFile _ _ => "AppendFile" | AFstat _ => "Fstat" | ALstat _ => "Lstat"
  | AChmod _ _ => "Chmod" | AChown _ _ _ => "Chown" | AFchmod _ _ => "Fchmod"
  | AFchown _ _ _ => "Fchown" | AFtruncate _ _ => "Ftruncate" | AReadlink _ => "Readlink"
  | ASymlink _ _ => "Symlink" | AChtimes _ _ _ => "Chtimes"
  end.

(** [impl From<Metadata> for StatInfo]: a time before the epoch is the epoch. *)
Definition stat_info (meta : Metadata) : StatInfo :=
  mkStatInfo (m_size meta) (FileMode.unix_type_and_perm (m_mode meta)) (Meta.is_dir meta)
    (if m_modified meta <? UNIX_EPOCH then 0 else m_modified meta / 1000000).

(** ** Floating-point times *)

(** The value of a finite float towards zero; [as u64] and [as u32] saturate, and take NaN
    to zero. *)
Definition trunc_pos (m : positive) (e : Z) : Z :=
  if 0 <=? e then Z.pos m * 2 ^ e else Z.pos m / 2 ^ (- e).

Definition as_unsigned (max : Z) (x : spec_float) : Z :=
  match x with
  | S754_zero _ | S754_nan => 0
  | S754_infinity neg => if neg then 0 else max
  | S754_finite neg m e => if neg then 0 else Z.min max (trunc_pos m e)
  end.

(** [f64::fract]: [self - self.trunc()], which is exact *)
Definition fract (x : spec_float) : spec_float :=
  match x with
  | S754_finite neg m e =>
      if 0 <=? e then S754_zero false
      else
        match Z.pos m mod 2 ^ (- e) with
        | Z.pos f => SFmul 53 1024 (S754_finite neg f e) (S754_finite false 1 0)
        | _ => S754_zero false
        end
  | S754_zero _ => S754_zero false
  | _ => S754_nan
  end.

(** [1_000_000_000.0] *)
Definition BILLION : spec_float := S754_finite false 8388608000000000 (-23).

Definition unix_float_to_time (value : spec_float) : Result Z :=
  let secs := as_unsigned U64_MAX value in
  let nanos := as_unsigned U32_MAX (SFmul 53 1024 (fract value) BILLION) in
  epoch_plus secs nanos.

(** ** Operations *)

Section Api.
Context {W H : Type} `{!HasTasks W H} `{!TaskNamespaces W H} `{!FileHandle W H}.
(** The filesystem of each namespace, fuel for the loops and the recursions of the helper
    functions, and the milliseconds that the clock shows at its readings. *)
Context (table : nat → FileSystem W H) (fuel : nat) (clock : nat → Z).
Context (task : nat).

Definition in_namespace {A} (f : FileSystem W H → M W A) : M W A :=
  ns ← Task.namespace task; f (table ns).

Definition open (path : string) : M W Z :=
  file ← in_namespace (λ ns, fs_open ns Ctx.new path);
  Task.open_fd task file path.

Definition open_file (path : string) (flags mode : Z) : M W Z :=
  file ← in_namespace (λ ns, fs_open_file ns path flags mode);
  Task.open_fd task file path.

Definition create (path : string) : M W Z :=
  file ← in_namespace (λ ns, fs_create ns path);
  Task.open_fd task file path.

Definition close (fd : Z) : M W unit := Task.close_fd task fd.
Definition sync (fd : Z) : M W unit := Task.with_fd_mut task fd fh_sync.

(** No bytes are [None], the end of the file. *)
Definition read (fd count : Z) : M W (option (list byte)) :=
  Task.with_fd_mut task fd
    (buf ← fh_read count; mret (match buf with [] => None | _ => Some buf end)).

Definition write (fd : Z) (data : list byte) : M W Z := Task.with_fd_mut task fd (fh_write data).
Definition write_at (fd : Z) (data : list byte) (offset : Z) : M W Z :=
  Task.with_fd_mut task fd (fh_write_at data offset).

Definition entry_name (entry : DirEntry) : string :=
  if Meta.is_dir (d_metadata entry) then d_name entry +:+ "/" else d_name entry.

Definition read_dir (path : string) : M W (list string) :=
  entries ← in_namespace (λ ns, read_dir_path ns path);
  mret (entry_name <$> entries).

Definition dir_mode : Z := Z.lor FileMode.DIR (FileMode.from_perm 493).

Definition mkdir (path : string) : M W unit := in_namespace (λ ns, fs_mkdir ns path dir_mode).
Definition mkdir_all (path : string) : M W unit :=
  in_namespace (λ ns, FsTrait.mkdir_all ns path dir_mode).

Definition bind (src dst : string) : M W unit := Task.bind task src dst.
Definition unbind (src dst : string) : M W unit := Task.unbind task src dst.

Definition stat (path : string) : M W StatInfo :=
  meta ← in_namespace (λ ns, stat_path ns path); mret (stat_info meta).
Definition lstat (path : string) : M W StatInfo :=
  meta ← in_namespace (λ ns, lstat_path ns path); mret (stat_info meta).
Definition fstat (fd : Z) : M W StatInfo :=
  Task.with_fd_mut task fd (meta ← fh_stat; mret (stat_info meta)).

Definition truncate (path : string) (size : Z) : M W unit :=
  in_namespace (λ ns, fs_truncate ns path size).

(** The loop of [wait_for], [reading] being the number of the clock's next reading. *)
Fixpoint wait_loop (turns reading : nat) (deadline : Z) (path : string) : M W unit :=
  match turns with
  | O => no_fuel
  | S turns' =>
      if clock reading <=? deadline then
        found ← in_namespace (λ ns, exists_path ns path);
        if (found : bool) then mret tt else wait_loop turns' (S reading) deadline path
      else throw (EPath "waitfor" path NotFound)
  end.

Definition wait_for (path : string) (timeout : Z) : M W unit :=
  wait_loop fuel 1 (clock 0%nat + timeout) path.

Definition rename (old new : string) : M W unit := in_namespace (λ ns, fs_rename ns old new).
Definition copy (old new : string) : M W unit := in_namespace (λ ns, copy_all ns fuel old new).
Definition remove (path : string) : M W unit := in_namespace (λ ns, fs_remove ns path).
Definition remove_all (path : string) : M W unit :=
  in_namespace (λ ns, FsTrait.remove_all ns fuel path).

Definition read_file (path : string) : M W (list byte) :=
  in_namespace (λ ns, FsTrait.read_file ns fuel path).
Definition write_file (path : string) (data : list byte) : M W unit :=
  in_namespace (λ ns, FsTrait.write_file ns path data (FileMode.from_perm 420)).
Definition append_file (path : string) (data : list byte) : M W unit :=
  in_namespace (λ ns, FsTrait.append_file ns path data).

Definition chmod (path : string) (mode : Z) : M W unit :=
  in_namespace (λ ns, fs_chmod ns path mode).
Definition chown (path : string) (uid gid : Z) : M W unit :=
  in_namespace (λ ns, fs_chown ns path uid gid).
Definition fchmod (fd mode : Z) : M W unit := path ← Task.fd_path task fd; chmod path mode.
Definition fchown (fd uid gid : Z) : M W unit := path ← Task.fd_path task fd; chown path uid gid.
Definition ftruncate (fd size : Z) : M W unit := path ← Task.fd_path task fd; truncate path size.

Definition readlink (path : string) : M W string := in_namespace (λ ns, fs_readlink ns path).
Definition symlink (old new : string) : M W unit := in_namespace (λ ns, fs_symlink ns old new).
Definition chtimes (path : string) (mtime : Z) : M W unit :=
  in_namespace (λ ns, fs_chtimes ns path mtime).

(** ** Requests *)

Definition answer {A} (f : A → ApiResponse) (m : M W A) : M W ApiResponse := a ← m; mret (f a).
Definition done_with (m : M W unit) : M W ApiResponse := answer (λ _, AUnit) m.

Definition dispatch (req : ApiRequest) : M W ApiResponse :=
  match req with
  | AOpen path => answer AFd (open path)
  | AOpenFile path flags mode => answer AFd (open_file path flags mode)
  | ACreate path => answer AFd (create path)
  | AClose fd => done_with (close fd)
  | ASync fd => done_with (sync fd)
  | ARead fd count => answer AOptionalBytes (read fd count)
  | AWrite fd data => answer ACount (write fd data)
  | AWriteAt fd data offset => answer ACount (write_at fd data offset)
  | AReadDir path => answer AEntries (read_dir path)
  | AMkdir path => done_with (mkdir path)
  | AMkdirAll path => done_with (mkdir_all path)
  | ABind src dst => done_with (bind src dst)
  | AUnbind src dst => done_with (unbind src dst)
  | AStat path => answer AStatInfo (stat path)
  | ATruncate path size => done_with (truncate path size)
  | AWaitFor path timeout => done_with (wait_for path timeout)
  | ARename old new => done_with (rename old new)
  | ACopy old new => done_with (copy old new)
  | ARemove path => done_with (remove path)
  | ARemoveAll path => done_with (remove_all path)
  | AReadFile path => answer ABytes (read_file path)
  | AWriteFile path data => done_with (write_file path data)
  | AAppendFile path data => done_with (append_file path data)
  | AFstat fd => answer AStatInfo (fstat fd)
  | ALstat path => answer AStatInfo (lstat path)
  | AChmod path mode => done_with (chmod path mode)
  | AChown path uid gid => done_with (chown path uid gid)
  | AFchmod fd mode => done_with (fchmod fd mode)
  | AFchown fd uid gid => done_with (fchown fd uid gid)
  | AFtruncate fd size => done_with (ftruncate fd size)
  | AReadlink path => answer AString (readlink path)
  | ASymlink old new => done_with (symlink old new)
  | AChtimes path _ mtime =>
      time ← lift (unix_float_to_time mtime);
      done_with (chtimes path time)
  end.
End Api.
End Api.

(** 1.5 seconds after the epoch, and a time before it. *)
Example half_second :
  Api.unix_float_to_time (S754_finite false 6755399441055744 (-52)) = Ok 1500000000
  ∧ Api.unix_float_to_time (S754_finite true 6755399441055744 (-52)) = Ok 0.
Proof. vm_compute. by split. Qed.
