(* ===== verification/Shell.v ===== *)
(** * star9-shell: the command language of the shell

    Models [crates/star9-shell/src/lib.rs] but its [RuntimeShellHost], which is in
    [ShellHost]: [parse_line] cuts a line into commands, and a [ShellSession] runs them on
    any host.  What a session needs of its host is the class [ShellHost], as the trait of
    that name. *)

From stdpp Require Import base list numbers option strings pretty sorting.
From Stdlib Require Import ZArith Lia Ascii.
From S2P Require Import Prelude Strs RcText BTree Core FsTrait Vfs Field.

Local Open Scope Z_scope.

(** ** Data *)

Record ShellCommand := mkCommand { sc_name : string; sc_args : list string }.

Record ShellResult := mkShellResult { sr_status : Z; sr_stdout : string; sr_stderr : string }.

Record ShellTaskResult := mkTaskResult {
  tr_task_id : string;
  tr_status : string;
  tr_stdout : string
}.

Record ShellStat := mkShellStat {
  ss_size : Z;
  ss_mode : Z;
  ss_is_dir : bool;
  ss_modified_ms : Z
}.

#[global] Instance ShellCommand_eq_dec : EqDecision ShellCommand.
Proof. solve_decision. Defined.
#[global] Instance ShellResult_eq_dec : EqDecision ShellResult.
Proof. solve_decision. Defined.

(** The trait [ShellHost]; [W] is what the host and its clones share. *)
Class ShellHost (W : Type) := {
  sh_read_file : string → M W (list byte);
  sh_write_file : string → list byte → M W unit;
  sh_append_file : string → list byte → M W unit;
  sh_write_existing : string → list byte → M W unit;
  sh_read_dir : string → M W (list string);
  sh_mkdir : string → M W unit;
  sh_remove : string → M W unit;
  sh_remove_all : string → M W unit;
  sh_rename : string → string → M W unit;
  sh_copy : string → string → M W unit;
  sh_stat : string → M W ShellStat;
  sh_start_wasi : string → list string → string → M W ShellTaskResult;
  sh_start_worker : string → list string → string → M W ShellTaskResult;
  sh_bind_path : string → string → BindMode → M W unit;
  sh_unmount_path : string → M W unit;
  sh_unmount_binding : string → string → M W unit;
  sh_register_service : string → M W unit;
  sh_register_service_from_source : string → string → M W unit;
  sh_mount_service : string → string → BindMode → M W unit;
  sh_run_native : string → list string → string → M W ShellTaskResult
}.

Record ShellSession := mkShellSession {
  se_cwd : string;
  se_env : btree string string;
  se_last_status : Z
}.

(** [enum Quote] *)
Inductive Quote := QNone | QSingle | QDouble.

(** The variables of [parse_line]. *)
Record LineState := mkLine {
  ln_commands : list ShellCommand;
  ln_words : list string;
  ln_current : list char;
  ln_quote : Quote;
  ln_escaped : bool;
  ln_at_word_start : bool
}.

Definition BACKSLASH : ascii := "092"%char.
Definition DOUBLE_QUOTE : ascii := "034"%char.
Definition ESC : ascii := "027"%char.

Module ShellResult.
Definition default : ShellResult := mkShellResult 0 "" "".
Definition success (stdout : string) : ShellResult := mkShellResult 0 stdout "".
Definition failure (stderr : string) : ShellResult := mkShellResult 1 "" stderr.
Definition append (r next : ShellResult) : ShellResult :=
  mkShellResult (sr_status next) (sr_stdout r +:+ sr_stdout next) (sr_stderr r +:+ sr_stderr next).
End ShellResult.

Module Shell.
Import ShellResult.

(** ** Lines *)

(** [ShellCommand::new] *)
Definition command_new (words : list string) : option ShellCommand :=
  match words with [] => None | name :: args => Some (mkCommand name args) end.

Definition push_word (s : LineState) : LineState :=
  match ln_current s with
  | [] => s
  | current =>
      mkLine (ln_commands s) (ln_words s ++ [of_chars current]) [] (ln_quote s) (ln_escaped s)
        (ln_at_word_start s)
  end.

(** [if let Some(command) = ShellCommand::new(words) { commands.push(command) }] *)
Definition push_command (s : LineState) : LineState :=
  match command_new (ln_words s) with
  | Some command =>
      mkLine (ln_commands s ++ [command]) [] (ln_current s) (ln_quote s) (ln_escaped s)
        (ln_at_word_start s)
  | None => s
  end.

Definition push_char (c : char) (s : LineState) : LineState :=
  mkLine (ln_commands s) (ln_words s) (ln_current s ++ [c]) (ln_quote s) (ln_escaped s)
    (ln_at_word_start s).
Definition set_quote (q : Quote) (s : LineState) : LineState :=
  mkLine (ln_commands s) (ln_words s) (ln_current s) q (ln_escaped s) (ln_at_word_start s).
Definition set_escaped (b : bool) (s : LineState) : LineState :=
  mkLine (ln_commands s) (ln_words s) (ln_current s) (ln_quote s) b (ln_at_word_start s).
Definition set_word_start (b : bool) (s : LineState) : LineState :=
  mkLine (ln_commands s) (ln_words s) (ln_current s) (ln_quote s) (ln_escaped s) b.

(** [rest] are the characters after the mark. *)
Definition is_comment_marker (rest : list char) : bool :=
  match rest with [] => true | next :: _ => is_whitespace next || isc ";" next end.

(** One turn of the loop of [parse_line]; [None] is [break]. *)
Definition line_step (c : char) (rest : list char) (s : LineState) : option LineState :=
  if ln_escaped s then Some (set_word_start false (set_escaped false (push_char c s)))
  else
    match ln_quote s with
    | QSingle => Some (if isc QUOTE c then set_quote QNone s else push_char c s)
    | QDouble =>
        Some (if isc DOUBLE_QUOTE c then set_quote QNone s
              else if isc BACKSLASH c then set_escaped true s
              else push_char c s)
    | QNone =>
        if isc BACKSLASH c then Some (set_escaped true s)
        else if isc QUOTE c then Some (set_word_start false (set_quote QSingle s))
        else if isc DOUBLE_QUOTE c then Some (set_word_start false (set_quote QDouble s))
        else if isc ";" c then Some (set_word_start true (push_command (push_word s)))
        else if is_whitespace c then Some (set_word_start true (push_word s))
        else if isc "#" c && ln_at_word_start s && is_comment_marker rest then None
        else Some (set_word_start false (push_char c s))
    end.

Fixpoint line_loop (cs : list char) (s : LineState) : LineState :=
  match cs with
  | [] => s
  | c :: rest =>
      match line_step c rest s with Some s => line_loop rest s | None => s end
  end.

Definition line_start : LineState := mkLine [] [] [] QNone false true.

(** What follows the loop. *)
Definition line_end (s : LineState) : Outcome Error (list ShellCommand) :=
  let s := if ln_escaped s then push_char (ch BACKSLASH) s else s in
  match ln_quote s with
  | QNone => Ok (ln_commands (push_command (push_word s)))
  | QSingle => Err (EMessage "unterminated single quote")
  | QDouble => Err (EMessage "unterminated double quote")
  end.

Definition parse_line (line : string) : Outcome Error (list ShellCommand) :=
  line_end (line_loop (chars line) line_start).

(** ** Texts *)

Definition nl : string := String NEWLINE "".

(** [{:o}] of a [u32], which has at most eleven digits *)
Fixpoint octal_loop (fuel : nat) (n : Z) (out : string) : string :=
  let out := String (Ascii.ascii_of_nat (Z.to_nat (48 + n mod 8))) out in
  match fuel with
  | O => out
  | S fuel' => if n / 8 =? 0 then out else octal_loop fuel' (n / 8) out
  end.
Definition octal (n : Z) : string := octal_loop 10 n "".

Definition bool_text (b : bool) : string := if b then "true" else "false".

Definition usage (text : string) : ShellResult := mkShellResult 2 "" ("usage: " +:+ text +:+ nl).

Definition provider_missing (command provider : string) : ShellResult :=
  failure (command +:+ ": " +:+ provider +:+
    ": provider not configured for this Star 9 runtime" +:+ nl).

Definition format_task (kind : string) (task : ShellTaskResult) : string :=
  kind +:+ " task=" +:+ tr_task_id task +:+ " status=" +:+ tr_status task +:+ nl
  +:+ tr_stdout task.

Definition is_loopback_service_source (source : string) : bool :=
  bool_decide (source ∈ ["."; "root"; "self"; "loopback"; "star9"]).

Definition HELP : string :=
  "Star 9 shell commands:" +:+ nl +:+
  "  pwd, cd, ls, cat, write, append, mkdir, rm, mv, cp, stat" +:+ nl +:+
  "  bind, unmount, srv, mount" +:+ nl +:+
  "  version, binds, tasks, fds" +:+ nl +:+
  "  term, vm, net" +:+ nl +:+
  "  wasi, worker, native" +:+ nl +:+
  "  help [command]" +:+ nl.

(** ** Flags *)

Definition usage_bind : string := "bind [-a|-b|-c] <src> <dst>".
Definition usage_mount : string := "mount [-a|-b|-c|-n|-C] <service> <mountpoint> [aname]".
Definition usage_srv : string := "srv [-m] [root|self|loopback] <name> [mountpoint]".
Definition usage_vm : string :=
  "vm [list|new [kind]|start <id>|stop <id>|reset <id>|state <id>|console <id>|config <id>]".
Definition usage_net : string :=
  "net [list|new|dial <id> <addr>|announce <id> <addr>|ctl <id> <cmd...>|status <id>|local <id>|remote <id>]".
Definition usage_term : string := "term [list|new|write <id> <text...>]".

(** [arg.starts_with('-') && arg.len() > 1], and the flags [arg[1..].chars()] *)
Definition flags_of (arg : string) : option (list char) :=
  match arg with
  | String a (String _ _ as flags) => if decide (a = "-"%char) then Some (chars flags) else None
  | _ => None
  end.

Definition unknown_flag (name text : string) (flag : char) : ShellResult :=
  failure (name +:+ ": unknown flag -" +:+ of_chars [flag] +:+ nl +:+ "usage: " +:+ text +:+ nl).

Fixpoint bind_flags (name : string) (bind_command : bool) (mode : BindMode) (flags : list char)
    : Outcome ShellResult BindMode :=
  match flags with
  | [] => Ok mode
  | flag :: flags' =>
      if isc "a" flag then bind_flags name bind_command After flags'
      else if isc "b" flag then bind_flags name bind_command Before flags'
      else if isc "c" flag then bind_flags name bind_command mode flags'
      else if (isc "n" flag || isc "C" flag) && negb bind_command
        then bind_flags name bind_command mode flags'
      else Err (unknown_flag name (if bind_command then usage_bind else usage_mount) flag)
  end.

Fixpoint bind_mount_args (name : string) (bind_command : bool) (mode : BindMode)
    (positional : list string) (args : list string) : Outcome ShellResult (BindMode * list string) :=
  match args with
  | [] => Ok (mode, positional)
  | arg :: args' =>
      match flags_of arg with
      | Some flags =>
          mode ← bind_flags name bind_command mode flags;
          bind_mount_args name bind_command mode positional args'
      | None => bind_mount_args name bind_command mode (positional ++ [arg]) args'
      end
  end.

Definition parse_bind_mount_flags (name : string) (args : list string) (bind_command : bool)
    : Outcome ShellResult (BindMode * list string) :=
  bind_mount_args name bind_command Replace [] args.

Fixpoint srv_flags (mode : BindMode) (mount_after : bool) (flags : list char)
    : Outcome ShellResult (BindMode * bool) :=
  match flags with
  | [] => Ok (mode, mount_after)
  | flag :: flags' =>
      if isc "m" flag then srv_flags mode true flags'
      else if isc "a" flag then srv_flags After mount_after flags'
      else if isc "b" flag then srv_flags Before mount_after flags'
      else if one_of "cCnq" flag then srv_flags mode mount_after flags'
      else Err (unknown_flag "srv" usage_srv flag)
  end.

Fixpoint srv_args (mode : BindMode) (mount_after : bool) (positional : list string)
    (args : list string) : Outcome ShellResult (BindMode * bool * list string) :=
  match args with
  | [] => Ok (mode, mount_after, positional)
  | arg :: args' =>
      match flags_of arg with
      | Some flags =>
          '(mode, mount_after) ← srv_flags mode mount_after flags;
          srv_args mode mount_after positional args'
      | None => srv_args mode mount_after (positional ++ [arg]) args'
      end
  end.

Definition parse_srv_flags (args : list string)
    : Outcome ShellResult (BindMode * bool * list string) := srv_args Replace false [] args.

(** ** Sessions *)

Definition new : ShellSession := mkShellSession "." [("prompt", "star9")] 0.

Definition prompt (s : ShellSession) : string :=
  option.default "star9" (bt_get "prompt" (se_env s)) +:+ ":" +:+ se_cwd s +:+ "$ ".

Definition set_cwd (cwd : string) (s : ShellSession) : ShellSession :=
  mkShellSession cwd (se_env s) (se_last_status s).
Definition set_last_status (status : Z) (s : ShellSession) : ShellSession :=
  mkShellSession (se_cwd s) (se_env s) status.

(** [resolve_path], [cwd] the session's *)
Definition resolve (cwd path : string) : string :=
  let path := trim path in
  if is_empty_str path || bool_decide (path = ".") then cwd
  else if decide (path = "/") then "."
  else if starts_with_char "#" path then clean_path path
  else if starts_with_char "/" path then clean_path (trim_start_char "/" path)
  else if decide (cwd = ".") then clean_path path
  else clean_path (cwd +:+ "/" +:+ path).

Section Session.
Context {W : Type} `{!ShellHost W}.

Definition Sh (A : Type) : Type := M (ShellSession * W) A.

Definition host {A} (m : M W A) : Sh A := on_snd m.
Definition session : Sh ShellSession := gets fst.
Definition cwd : Sh string := s ← session; mret (se_cwd s).
Definition resolve_path (path : string) : Sh string := d ← cwd; mret (resolve d path).

(** [match m { Ok(a) => ok(a), Err(e) => ShellResult::failure(err(e)) }] *)
Definition told {A} (m : Sh A) (ok : A → Sh ShellResult) (err : Error → string)
    : Sh ShellResult :=
  r ← attempt m;
  match r with
  | Ok a => ok a
  | Err e => mret (failure (err e))
  | Panic => panic
  | NoFuel => no_fuel
  end.

Definition silent : unit → Sh ShellResult := λ _, mret default.
Definition shown (text : string) : Sh ShellResult := mret (success text).

Definition because (what : string) (e : Error) : string :=
  what +:+ ": " +:+ Error_display e +:+ nl.

Definition read_text (path : string) : Sh string :=
  bytes ← host (sh_read_file path); mret (from_utf8_lossy bytes).

Definition sorted (entries : list string) : list string := merge_sort String.le entries.

(** [entries.join("\n") + "\n"] of the sorted entries *)
Definition entry_lines (entries : list string) : string := str_join nl (sorted entries) +:+ nl.

Definition list_device (path name : string) : Sh ShellResult :=
  told (host (sh_read_dir path)) (λ entries, shown (entry_lines entries)) (because name).

(** *** Directories and files *)

Definition cmd_pwd (args : list string) : Sh ShellResult :=
  match args with
  | [] => d ← cwd; shown (d +:+ nl)
  | _ => mret (usage "pwd")
  end.

Definition cmd_cd (args : list string) : Sh ShellResult :=
  match args with
  | _ :: _ :: _ => mret (usage "cd [path]")
  | _ =>
      path ← resolve_path (option.default "." (head args));
      told (host (sh_stat path))
        (λ stat, if ss_is_dir stat then modify (prod_map (set_cwd path) id) ;; mret default
                 else mret (failure ("cd: " +:+ path +:+ ": not a directory" +:+ nl)))
        (because ("cd: " +:+ path))
  end.

(** [index] is that of the first of [paths], [many] that there are several. *)
Fixpoint ls_loop (many : bool) (index : nat) (out : string) (paths : list string)
    : Sh ShellResult :=
  match paths with
  | [] => shown out
  | path :: paths' =>
      told (host (sh_read_dir path))
        (λ entries,
           let title := if many then (if decide (index = 0%nat) then "" else nl) +:+ path +:+ ":" +:+ nl
                        else "" in
           ls_loop many (S index)
             (out +:+ title +:+ foldr (λ e r, e +:+ nl +:+ r) "" (sorted entries)) paths')
        (because ("ls: " +:+ path))
  end.

Definition cmd_ls (args : list string) : Sh ShellResult :=
  d ← cwd;
  let paths := match args with [] => [d] | _ => resolve d <$> args end in
  ls_loop (bool_decide (1 < length paths)%nat) 0 "" paths.

Fixpoint cat_loop (out : string) (args : list string) : Sh ShellResult :=
  match args with
  | [] => shown out
  | arg :: args' =>
      path ← resolve_path arg;
      told (read_text path) (λ text, cat_loop (out +:+ text) args') (because ("cat: " +:+ path))
  end.

Definition cmd_cat (args : list string) : Sh ShellResult :=
  match args with [] => mret (usage "cat <path>...") | _ => cat_loop "" args end.

Definition cmd_write (append : bool) (args : list string) : Sh ShellResult :=
  let name := if append then "append" else "write" in
  match args with
  | arg :: ((_ :: _) as words) =>
      path ← resolve_path arg;
      let data := bytes_of (str_join " " words) in
      told (host (if append then sh_append_file path data else sh_write_file path data)) silent
        (because (name +:+ ": " +:+ path))
  | _ => mret (usage (name +:+ " <path> <text...>"))
  end.

(** [for arg in args]: the first failure is the answer. *)
Fixpoint each_path (name : string) (f : string → M W unit) (args : list string)
    : Sh ShellResult :=
  match args with
  | [] => mret default
  | arg :: args' =>
      path ← resolve_path arg;
      told (host (f path)) (λ _, each_path name f args') (because (name +:+ ": " +:+ path))
  end.

Definition cmd_mkdir (args : list string) : Sh ShellResult :=
  match args with
  | [] => mret (usage "mkdir <path>...")
  | _ => each_path "mkdir" sh_mkdir args
  end.

Definition cmd_rm (args : list string) : Sh ShellResult :=
  let recursive := match args with
                   | arg :: _ => bool_decide (arg = "-r") || bool_decide (arg = "-rf")
                   | [] => false
                   end in
  match (if recursive then tail args else args) with
  | [] => mret (usage "rm [-r] <path>...")
  | paths => each_path "rm" (if recursive then sh_remove_all else sh_remove) paths
  end.

Definition cmd_binary_path (name : string) (action : string → string → M W unit)
    (args : list string) : Sh ShellResult :=
  match args with
  | [src; dst] =>
      src ← resolve_path src;
      dst ← resolve_path dst;
      told (host (action src dst)) silent (because (name +:+ ": " +:+ src +:+ " " +:+ dst))
  | _ => mret (usage (name +:+ " <src> <dst>"))
  end.

Definition stat_line (path : string) (stat : ShellStat) : string :=
  path +:+ ": size=" +:+ pretty (ss_size stat) +:+ " mode=" +:+ octal (ss_mode stat)
  +:+ " dir=" +:+ bool_text (ss_is_dir stat) +:+ " modified_ms=" +:+ pretty (ss_modified_ms stat)
  +:+ nl.

Fixpoint stat_loop (out : string) (args : list string) : Sh ShellResult :=
  match args with
  | [] => shown out
  | arg :: args' =>
      path ← resolve_path arg;
      told (host (sh_stat path)) (λ stat, stat_loop (out +:+ stat_line path stat) args')
        (because ("stat: " +:+ path))
  end.

Definition cmd_stat (args : list string) : Sh ShellResult :=
  match args with [] => mret (usage "stat <path>...") | _ => stat_loop "" args end.

(** *** Bindings and services *)

(** [Err(result) => return result] *)
Definition parsed {A} (r : Outcome ShellResult A) (k : A → Sh ShellResult) : Sh ShellResult :=
  match r with Ok a => k a | Err result => mret result | Panic => panic | NoFuel => no_fuel end.

Definition cmd_bind (args : list string) : Sh ShellResult :=
  parsed (parse_bind_mount_flags "bind" args true) (λ '(mode, positional),
    match positional with
    | [src; dst] =>
        src ← resolve_path src;
        dst ← resolve_path dst;
        told (host (sh_bind_path src dst mode)) silent (because ("bind: " +:+ src +:+ " " +:+ dst))
    | _ => mret (usage usage_bind)
    end).

Definition cmd_unmount (args : list string) : Sh ShellResult :=
  match args with
  | [src; dst] =>
      src ← resolve_path src;
      dst ← resolve_path dst;
      told (host (sh_unmount_binding src dst)) silent
        (because ("unmount: " +:+ src +:+ " " +:+ dst))
  | [dst] =>
      dst ← resolve_path dst;
      told (host (sh_unmount_path dst)) silent (because ("unmount: " +:+ dst))
  | _ => mret (usage "unmount [src] <dst>")
  end.

Definition srv_words (positional : list string)
    : option (string * string * option string) :=
  match positional with
  | [name] => Some ("root", name, None)
  | [source; name] => Some (source, name, None)
  | [source; name; mountpoint] => Some (source, name, Some mountpoint)
  | _ => None
  end.

Definition srv_mount (name : string) (mountpoint : option string) (mode : BindMode)
    : Sh ShellResult :=
  dst ← resolve_path (option.default ("n/" +:+ name) mountpoint);
  told (host (sh_mount_service name dst mode)) silent
    (because ("srv: mount " +:+ name +:+ " " +:+ dst)).

Definition cmd_srv (args : list string) : Sh ShellResult :=
  match args with
  | [] => list_device "#srv" "srv"
  | _ =>
      parsed (parse_srv_flags args) (λ '(mode, mount_after, positional),
        match srv_words positional with
        | None => mret (usage usage_srv)
        | Some (source, name, mountpoint) =>
            r ← attempt (host (sh_register_service_from_source source name));
            match r with
            | Ok _ => if (mount_after : bool) then srv_mount name mountpoint mode else mret default
            | Err err =>
                mret (if kind_is NotSupported err then provider_missing "srv" source
                      else failure (because ("srv: " +:+ source +:+ " " +:+ name) err))
            | Panic => panic
            | NoFuel => no_fuel
            end
        end)
  end.

Definition cmd_mount (args : list string) : Sh ShellResult :=
  parsed (parse_bind_mount_flags "mount" args false) (λ '(mode, positional),
    match positional with
    | [service; mountpoint] | [service; mountpoint; _] =>
        dst ← resolve_path mountpoint;
        told (host (sh_mount_service service dst mode)) silent
          (because ("mount: " +:+ service +:+ " " +:+ dst))
    | _ => mret (usage usage_mount)
    end).

Definition cmd_provider_missing (name : string) (args : list string) : Sh ShellResult :=
  mret (provider_missing name (option.default "default" (head args))).

(** *** The runtime and its devices *)

Definition cmd_version (args : list string) : Sh ShellResult :=
  match args with
  | [] => told (read_text "#star9/version") shown (because "version")
  | _ => mret (usage "version")
  end.

Definition cmd_binds (args : list string) : Sh ShellResult :=
  match args with
  | _ :: _ :: _ => mret (usage "binds [task-id]")
  | _ =>
      let task := option.default "1" (head args) in
      told (read_text ("#task/" +:+ task +:+ "/binds")) shown (because ("binds: " +:+ task))
  end.

Definition cmd_tasks (args : list string) : Sh ShellResult :=
  match args with
  | [] => list_device "#task" "tasks"
  | _ => mret (usage "tasks")
  end.

Definition cmd_fds (args : list string) : Sh ShellResult :=
  match args with
  | _ :: _ :: _ => mret (usage "fds [task-id]")
  | _ =>
      let task := option.default "1" (head args) in
      list_device ("#task/" +:+ task +:+ "/fd") ("fds: " +:+ task)
  end.

Definition write_device (path data what : string) : Sh ShellResult :=
  told (host (sh_write_existing path (bytes_of data))) silent (because what).
Definition read_device (path what : string) : Sh ShellResult :=
  told (read_text path) shown (because what).

Definition cmd_term (args : list string) : Sh ShellResult :=
  match args with
  | [] => list_device "#term" "term"
  | [cmd] =>
      if decide (cmd = "list") then list_device "#term" "term"
      else if decide (cmd = "new") then read_device "#term/new" "term new"
      else mret (usage usage_term)
  | cmd :: id :: text =>
      if bool_decide (cmd = "write") && negb (bool_decide (text = [])) then
        write_device ("#term/" +:+ id +:+ "/program") (str_join " " text) ("term write: " +:+ id)
      else mret (usage usage_term)
  end.

Definition vm_new (kind : string) : Sh ShellResult :=
  read_device ("#vm/new/" +:+ kind) ("vm new: " +:+ kind).

Definition cmd_vm (args : list string) : Sh ShellResult :=
  match args with
  | [] => list_device "#vm" "vm"
  | [cmd] =>
      if decide (cmd = "list") then list_device "#vm" "vm"
      else if decide (cmd = "new") then vm_new "vm"
      else mret (usage usage_vm)
  | [cmd; id] =>
      if decide (cmd = "new") then vm_new id
      else if decide (cmd ∈ ["start"; "stop"; "reset"]) then
        write_device ("#vm/" +:+ id +:+ "/ctl") cmd ("vm " +:+ cmd +:+ ": " +:+ id)
      else if decide (cmd ∈ ["state"; "console"; "config"]) then
        read_device ("#vm/" +:+ id +:+ "/" +:+ cmd) ("vm " +:+ cmd +:+ ": " +:+ id)
      else mret (usage usage_vm)
  | _ => mret (usage usage_vm)
  end.

Definition cmd_net (args : list string) : Sh ShellResult :=
  match args with
  | [] => list_device "#net" "net"
  | [cmd] =>
      if decide (cmd = "list") then list_device "#net" "net"
      else if decide (cmd = "new") then read_device "#net/new" "net new"
      else mret (usage usage_net)
  | cmd :: id :: rest =>
      if decide (cmd ∈ ["ctl"; "dial"; "announce"]) then
        let text := str_join " " rest in
        write_device ("#net/" +:+ id +:+ "/ctl")
          (if decide (cmd = "ctl") then text else cmd +:+ " " +:+ text)
          ("net " +:+ cmd +:+ ": " +:+ id)
      else if bool_decide (cmd ∈ ["status"; "local"; "remote"]) && bool_decide (rest = []) then
        read_device ("#net/" +:+ id +:+ "/" +:+ cmd) ("net " +:+ cmd +:+ ": " +:+ id)
      else mret (usage usage_net)
  end.

(** *** Tasks *)

Definition started (kind module : string) (m : M W ShellTaskResult) : Sh ShellResult :=
  told (host m) (λ task, shown (format_task kind task)) (because (kind +:+ ": " +:+ module)).

Definition cmd_wasi (args : list string) : Sh ShellResult :=
  match args with
  | [] => mret (usage "wasi <module> [args...]")
  | module :: rest =>
      d ← cwd;
      let module := resolve d module in
      started "wasi" module (sh_start_wasi module rest d)
  end.

Definition cmd_worker (args : list string) : Sh ShellResult :=
  match args with
  | [] => mret (usage "worker <module> [args...]")
  | module :: rest => d ← cwd; started "worker" module (sh_start_worker module rest d)
  end.

Definition cmd_native (args : list string) : Sh ShellResult :=
  match args with
  | [] => mret (usage "native <module> [args...]")
  | module :: rest => d ← cwd; started "native" module (sh_run_native module rest d)
  end.

Definition help_texts : btree string string :=
  [("vm", usage_vm); ("net", usage_net); ("term", usage_term); ("bind", usage_bind);
   ("unmount", "unmount [src] <dst>"); ("srv", usage_srv); ("mount", usage_mount);
   ("write", "write <path> <text...>"); ("append", "append <path> <text...>");
   ("wasi", "wasi <module> [args...]"); ("worker", "worker <module> [args...]");
   ("native", "native <module> [args...]  # opt-in native CLI mode only")].

Definition cmd_help (args : list string) : Sh ShellResult :=
  match args with
  | [] => shown HELP
  | [name] =>
      match list_find (λ kv, kv.1 = name) help_texts with
      | Some (_, (_, text)) => shown (text +:+ nl)
      | None => mret (failure ("help: no detailed help for " +:+ name +:+ nl))
      end
  | _ => mret (usage "help [command]")
  end.

(** *** Commands *)

(** The names of [eval_command] and what they run. *)
Definition builtins : list (string * (list string → Sh ShellResult)) := [
  ("pwd", cmd_pwd); ("cd", cmd_cd); ("ls", cmd_ls); ("cat", cmd_cat);
  ("write", cmd_write false); ("append", cmd_write true); ("mkdir", cmd_mkdir); ("rm", cmd_rm);
  ("mv", cmd_binary_path "mv" sh_rename); ("cp", cmd_binary_path "cp" sh_copy);
  ("bind", cmd_bind); ("unmount", cmd_unmount); ("srv", cmd_srv); ("mount", cmd_mount);
  ("dossrv", cmd_provider_missing "dossrv"); ("vacfs", cmd_provider_missing "vacfs");
  ("stat", cmd_stat); ("version", cmd_version); ("binds", cmd_binds); ("tasks", cmd_tasks);
  ("fds", cmd_fds); ("term", cmd_term); ("vm", cmd_vm); ("net", cmd_net);
  ("wasi", cmd_wasi); ("worker", cmd_worker); ("native", cmd_native); ("help", cmd_help);
  ("clear", λ _, shown (String ESC ("[2J" +:+ String ESC "[H")));
  ("true", λ _, mret default);
  ("false", λ _, mret (mkShellResult 1 "" ""))
].

Definition eval_command (command : ShellCommand) : Sh ShellResult :=
  match list_find (λ kv, kv.1 = sc_name command) builtins with
  | Some (_, (_, f)) => f (sc_args command)
  | None => mret (failure (sc_name command +:+ ": unknown command" +:+ nl))
  end.

Definition record_status (r : ShellResult) : Sh unit :=
  modify (prod_map (set_last_status (sr_status r)) id).

Fixpoint eval_loop (result : ShellResult) (commands : list ShellCommand) : Sh ShellResult :=
  match commands with
  | [] => mret result
  | command :: commands' =>
      next ← eval_command command;
      record_status next ;;
      eval_loop (append result next) commands'
  end.

Definition eval_line (line : string) : Sh ShellResult :=
  match parse_line line with
  | Ok commands => eval_loop default commands
  | Err err =>
      let r := mkShellResult 2 "" ("parse: " +:+ Error_display err +:+ nl) in
      record_status r ;; mret r
  | Panic => panic
  | NoFuel => no_fuel
  end.

Definition eval_argv (name : string) (args : list string) : Sh ShellResult :=
  result ← eval_command (mkCommand name args);
  record_status result ;;
  mret result.
End Session.
End Shell.
