(* ===== verification/ShellProps.v ===== *)
(** * What the shell makes of a line

    A grammar of lines, independent of [parse_line]: a line is a sequence of items, and its
    commands are its items cut at semicolons and blanks.  [shell_line_grammar] shows that
    [parse_line] accepts exactly the lines of the grammar and gives their commands. *)

From stdpp Require Import base list numbers option strings pretty sorting.
From Stdlib Require Import ZArith Lia Ascii.
From S2P Require Import Prelude Strs RcText BTree Core FsTrait Vfs Field Shell.

Local Open Scope Z_scope.
Import ShellResult Shell.

(** ** Lines as sequences of items *)

(** A character between double quotes. *)
Inductive DChar := DPlain (c : char) | DEscaped (c : char).

Inductive Item :=
| IBlank (c : char)
| ISemi
| IPlain (c : char)
| IEscaped (c : char)
| ISingle (cs : list char)
| IDouble (ds : list DChar)
| ITrailing
| IComment (cs : list char).

Definition dchar_text (d : DChar) : list char :=
  match d with DPlain c => [c] | DEscaped c => [ch BACKSLASH; c] end.
Definition dchar_content (d : DChar) : char := match d with DPlain c | DEscaped c => c end.

Definition item_text (i : Item) : list char :=
  match i with
  | IBlank c | IPlain c => [c]
  | ISemi => [ch ";"]
  | IEscaped c => [ch BACKSLASH; c]
  | ISingle cs => ch QUOTE :: cs ++ [ch QUOTE]
  | IDouble ds => ch DOUBLE_QUOTE :: mjoin (dchar_text <$> ds) ++ [ch DOUBLE_QUOTE]
  | ITrailing => [ch BACKSLASH]
  | IComment cs => ch "#" :: cs
  end.

(** What an item adds to its word. *)
Definition item_content (i : Item) : list char :=
  match i with
  | IPlain c | IEscaped c => [c]
  | ISingle cs => cs
  | IDouble ds => dchar_content <$> ds
  | ITrailing => [ch BACKSLASH]
  | IBlank _ | ISemi | IComment _ => []
  end.

Definition text (l : list Item) : list char := mjoin (item_text <$> l).
Definition content (w : list Item) : list char := mjoin (item_content <$> w).

(** A character that means itself outside quotes. *)
Definition plain_char (c : char) : bool :=
  negb (isc BACKSLASH c || isc QUOTE c || isc DOUBLE_QUOTE c || isc ";" c || is_whitespace c).

Definition dchar_ok (d : DChar) : Prop :=
  match d with
  | DPlain c => isc DOUBLE_QUOTE c = false ∧ isc BACKSLASH c = false
  | DEscaped _ => True
  end.

(** What an item may be before the characters [rest]; [b]: it is at the start of a word.  A
    number sign there is plain when a word character follows, and a comment or a backslash
    without a character ends the line. *)
Definition item_ok (b : bool) (i : Item) (rest : list char) : Prop :=
  match i with
  | IBlank c => is_whitespace c = true
  | ISemi | IEscaped _ => True
  | IPlain c => plain_char c = true ∧ isc "#" c && b && is_comment_marker rest = false
  | ISingle cs => Forall (λ c, isc QUOTE c = false) cs
  | IDouble ds => Forall dchar_ok ds
  | ITrailing => rest = []
  | IComment cs => b = true ∧ is_comment_marker cs = true ∧ rest = []
  end.

Definition starts_word (i : Item) : bool :=
  match i with IBlank _ | ISemi => true | _ => false end.

Fixpoint line_ok (b : bool) (l : list Item) : Prop :=
  match l with
  | [] => True
  | i :: l' => item_ok b i (text l') ∧ line_ok (starts_word i) l'
  end.

(** ** The commands of a line *)

Fixpoint split_items (p : Item → bool) (l : list Item) : list (list Item) :=
  match l with
  | [] => [[]]
  | i :: l' =>
      if p i then [] :: split_items p l'
      else match split_items p l' with w :: ws => (i :: w) :: ws | [] => [[i]] end
  end.

Definition is_semi (i : Item) : bool := match i with ISemi => true | _ => false end.
Definition is_blank (i : Item) : bool := match i with IBlank _ => true | _ => false end.

(** The words that are not empty, and the commands that have a word. *)
Definition words_of (seg : list Item) : list string :=
  of_chars <$> filter (λ w, w ≠ []) (content <$> split_items is_blank seg).
Definition commands_of (l : list Item) : list ShellCommand :=
  omap command_new (words_of <$> split_items is_semi l).

(** The same with what a state of the parser has gathered. *)
Definition words_from (cur : list char) (seg : list Item) : list string :=
  match split_items is_blank seg with
  | w :: ws => of_chars <$> filter (λ w, w ≠ []) ((cur ++ content w) :: (content <$> ws))
  | [] => []
  end.
Definition denote (s : LineState) (l : list Item) : list ShellCommand :=
  match split_items is_semi l with
  | seg :: segs =>
      ln_commands s ++
      omap command_new ((ln_words s ++ words_from (ln_current s) seg) :: (words_of <$> segs))
  | [] => []
  end.

Lemma split_items_cons p l : ∃ w ws, split_items p l = w :: ws.
Proof.
  destruct l as [|i l]; cbn; [eauto|]. destruct (p i); [eauto|].
  destruct (split_items p l); eauto.
Qed.

Lemma words_from_nil seg : words_from [] seg = words_of seg.
Proof. unfold words_from, words_of. by destruct (split_items_cons is_blank seg) as (w & ws & ->). Qed.

Lemma denote_start l : denote line_start l = commands_of l.
Proof.
  unfold denote, commands_of. destruct (split_items_cons is_semi l) as (w & ws & ->).
  cbn [ln_commands ln_words ln_current line_start app]. by rewrite words_from_nil.
Qed.

(** ** The steps of the parser, an item at a time *)

Definition push_chars (cs : list char) (s : LineState) : LineState :=
  mkLine (ln_commands s) (ln_words s) (ln_current s ++ cs) (ln_quote s) (ln_escaped s)
    (ln_at_word_start s).

(** The state after an item that does not end the line. *)
Definition item_step (i : Item) (s : LineState) : LineState :=
  match i with
  | IBlank _ => set_word_start true (push_word s)
  | ISemi => set_word_start true (push_command (push_word s))
  | _ => set_word_start false (push_chars (item_content i) s)
  end.

Definition idle (s : LineState) : Prop := ln_quote s = QNone ∧ ln_escaped s = false.

Lemma push_word_idle s : idle s → idle (push_word s).
Proof. intros [Hq He]. unfold push_word. destruct (ln_current s); by split. Qed.
Lemma push_command_idle s : idle s → idle (push_command s).
Proof. intros [Hq He]. unfold push_command. destruct (command_new _); by split. Qed.
Lemma set_word_start_idle b s : idle s → idle (set_word_start b s).
Proof. by intros [Hq He]. Qed.
Lemma item_step_idle i s : idle s → idle (item_step i s).
Proof.
  intros Hs. destruct i; cbn [item_step]; apply set_word_start_idle;
    by auto using push_command_idle, push_word_idle.
Qed.
#[local] Hint Resolve push_word_idle push_command_idle set_word_start_idle item_step_idle : star9.

Lemma open_single rest s : idle s →
  line_loop (ch QUOTE :: rest) s = line_loop rest (set_word_start false (set_quote QSingle s)).
Proof. destruct s as [cmds words cur q e b]. intros [Hq He]; cbn in Hq, He; by subst q e. Qed.

Lemma open_double rest s : idle s →
  line_loop (ch DOUBLE_QUOTE :: rest) s
  = line_loop rest (set_word_start false (set_quote QDouble s)).
Proof. destruct s as [cmds words cur q e b]. intros [Hq He]; cbn in Hq, He; by subst q e. Qed.

(** A loop over a quoted text. *)
Lemma single_loop cs rest s : Forall (λ c, isc QUOTE c = false) cs →
  ln_quote s = QSingle → ln_escaped s = false →
  line_loop (cs ++ ch QUOTE :: rest) s = line_loop rest (set_quote QNone (push_chars cs s)).
Proof.
  intros Hcs. revert s. induction Hcs as [|c cs Hc _ IH]; intros s Hq He; cbn [app line_loop].
  - unfold line_step. rewrite Hq, He. cbn. f_equal. unfold set_quote, push_chars. cbn.
    by rewrite app_nil_r.
  - unfold line_step at 1. rewrite Hq, He, Hc. rewrite IH by done.
    f_equal. unfold set_quote, push_chars, push_char. cbn. by rewrite <- app_assoc.
Qed.

Lemma double_loop ds rest s : Forall dchar_ok ds →
  ln_quote s = QDouble → ln_escaped s = false → ln_at_word_start s = false →
  line_loop (mjoin (dchar_text <$> ds) ++ ch DOUBLE_QUOTE :: rest) s
  = line_loop rest (set_quote QNone (push_chars (dchar_content <$> ds) s)).
Proof.
  intros Hds. revert s. induction Hds as [|d ds Hd _ IH]; intros s Hq He Hw; cbn [fmap list_fmap].
  - cbn. unfold line_step. rewrite Hq, He. cbn. f_equal. unfold set_quote, push_chars. cbn.
    by rewrite app_nil_r.
  - destruct s as [cmds words cur q e b]; cbn in Hq, He, Hw; subst q e b.
    destruct d as [c|c]; cbn in Hd.
    + destruct Hd as [Hd1 Hd2]. cbn [mjoin list_join dchar_text app line_loop].
      unfold line_step at 1. cbn [ln_escaped ln_quote]. rewrite Hd1, Hd2.
      rewrite IH by done. f_equal. unfold set_quote, push_chars, push_char. cbn.
      by rewrite <- app_assoc.
    + cbn [mjoin list_join dchar_text app line_loop].
      unfold line_step at 1. cbn [ln_escaped ln_quote].
      change (isc DOUBLE_QUOTE (ch BACKSLASH)) with false.
      change (isc BACKSLASH (ch BACKSLASH)) with true. cbn match.
      unfold line_step at 1. cbn [ln_escaped set_escaped].
      rewrite IH by done. f_equal. unfold set_quote, push_chars, push_char. cbn.
      by rewrite <- app_assoc.
Qed.

Lemma whitespace_plain c : is_whitespace c = true →
  isc BACKSLASH c = false ∧ isc QUOTE c = false ∧ isc DOUBLE_QUOTE c = false ∧ isc ";" c = false.
Proof.
  intros Hc. unfold isc. repeat split; apply N.eqb_neq; intros ->; by vm_compute in Hc.
Qed.

Definition ends_line (i : Item) : bool :=
  match i with ITrailing | IComment _ => true | _ => false end.

(** The parser's state at the end of an item. *)
Lemma item_loop i rest s : idle s → item_ok (ln_at_word_start s) i rest → ends_line i = false →
  line_loop (item_text i ++ rest) s = line_loop rest (item_step i s).
Proof.
  intros [Hq He] Hok Hi. destruct s as [cmds words cur q e b]; cbn in Hq, He; subst q e.
  destruct i as [c| |c|c|cs|ds| |cs]; try done; cbn [item_ok ln_at_word_start] in Hok;
    cbn [item_text app].
  - destruct (whitespace_plain _ Hok) as (Hb1 & Hb2 & Hb3 & Hb4).
    cbn [line_loop]. unfold line_step. cbn [ln_escaped ln_quote]. by rewrite Hb1, Hb2, Hb3, Hb4, Hok.
  - destruct Hok as [Hp Hm]. unfold plain_char in Hp. apply negb_true_iff in Hp.
    repeat (apply orb_false_iff in Hp as [Hp ?]).
    cbn [line_loop]. unfold line_step. cbn [ln_escaped ln_quote ln_at_word_start].
    rewrite Hp. by repeat match goal with H : _ = false |- _ => rewrite H; clear H end.
  - rewrite open_single, <- app_assoc by done. cbn [app]. by rewrite single_loop.
  - rewrite open_double, <- app_assoc by done. cbn [app]. by rewrite double_loop.
Qed.

Lemma item_step_word_start i s : ln_at_word_start (item_step i s) = starts_word i.
Proof. by destruct i. Qed.

(** The word gathered so far, if there is one. *)
Definition word_of (cur : list char) : list string :=
  if decide (cur = []) then [] else [of_chars cur].

Lemma push_word_eq s :
  push_word s = mkLine (ln_commands s) (ln_words s ++ word_of (ln_current s)) [] (ln_quote s)
    (ln_escaped s) (ln_at_word_start s).
Proof. destruct s as [cmds words [|c cur] q e b]; [|done]. cbn. by rewrite app_nil_r. Qed.

Lemma push_command_eq s :
  push_command s = mkLine (ln_commands s ++ omap command_new [ln_words s]) [] (ln_current s)
    (ln_quote s) (ln_escaped s) (ln_at_word_start s).
Proof. destruct s as [cmds [|w words] cur q e b]; [|done]. cbn. by rewrite app_nil_r. Qed.

Lemma words_from_end cur : words_from cur [] = word_of cur.
Proof. unfold words_from. cbn [split_items]. change (content []) with (@nil char). rewrite app_nil_r. by destruct cur. Qed.

Lemma words_from_blank cur c seg : words_from cur (IBlank c :: seg) = word_of cur ++ words_of seg.
Proof.
  unfold words_from, words_of. cbn [split_items is_blank]. unfold content at 1.
  cbn [fmap list_fmap mjoin list_join]. rewrite app_nil_r. by destruct cur.
Qed.

Lemma words_from_item cur i seg : is_blank i = false →
  words_from cur (i :: seg) = words_from (cur ++ item_content i) seg.
Proof.
  intros Hb. unfold words_from. cbn [split_items]. rewrite Hb.
  destruct (split_items_cons is_blank seg) as (w & ws & ->).
  unfold content. cbn [fmap list_fmap mjoin list_join]. by rewrite <- app_assoc.
Qed.

Lemma denote_semi s l :
  denote s (ISemi :: l)
  = ln_commands s ++ omap command_new [ln_words s ++ word_of (ln_current s)] ++ commands_of l.
Proof.
  unfold denote, commands_of. cbn [split_items is_semi]. rewrite words_from_end.
  cbn [omap list_omap]. by destruct (command_new _).
Qed.

Lemma denote_item s i l seg segs : is_semi i = false → split_items is_semi l = seg :: segs →
  denote s (i :: l) = ln_commands s ++
    omap command_new ((ln_words s ++ words_from (ln_current s) (i :: seg)) :: (words_of <$> segs)).
Proof. intros Hi Hl. unfold denote. cbn [split_items]. by rewrite Hi, Hl. Qed.

(** What an item does to the commands of the line. *)
Lemma denote_step i l s : ends_line i = false →
  denote (item_step i s) l = denote s (i :: l).
Proof.
  intros Hend. destruct (split_items_cons is_semi l) as (seg & segs & Hseg).
  destruct (is_semi i) eqn:Hi.
  { destruct i; try done. rewrite denote_semi. cbn [item_step].
    rewrite push_command_eq, push_word_eq. cbn [ln_words].
    unfold denote, commands_of. rewrite Hseg.
    cbn [set_word_start ln_commands ln_words ln_current app]. rewrite words_from_nil.
    by rewrite <- app_assoc. }
  rewrite (denote_item _ _ _ seg segs) by done. unfold denote. rewrite Hseg.
  destruct (is_blank i) eqn:Hb.
  { destruct i; try done. rewrite words_from_blank. cbn [item_step]. rewrite push_word_eq.
    cbn [set_word_start ln_commands ln_words ln_current]. by rewrite words_from_nil, <- app_assoc. }
  rewrite words_from_item by done. by destruct i.
Qed.

(** ** Accepted lines are lines of the grammar, and the other way round *)

Lemma text_cons i l : text (i :: l) = item_text i ++ text l.
Proof. done. Qed.

Lemma text_nil l : text l = [] → l = [].
Proof. destruct l as [|[] l]; done. Qed.

Lemma comment_loop cs cmds words cur : is_comment_marker cs = true →
  let s := mkLine cmds words cur QNone false true in line_loop (ch "#" :: cs) s = s.
Proof.
  intros Hm. cbn [line_loop]. unfold line_step. cbn [ln_escaped ln_quote ln_at_word_start].
  by rewrite Hm.
Qed.

Lemma line_complete l s : idle s → line_ok (ln_at_word_start s) l →
  line_end (line_loop (text l) s) = Ok (denote s l).
Proof.
  revert s. induction l as [|i l IH]; intros s Hs Hok.
  - destruct Hs as [Hq He]. destruct s as [cmds words cur q e b]; cbn in Hq, He; subst q e.
    cbn [text fmap list_fmap mjoin list_join line_loop]. unfold line_end. cbn [ln_escaped ln_quote].
    rewrite push_command_eq, push_word_eq. cbn [ln_commands ln_words ln_current].
    unfold denote. cbn [split_items ln_current]. by rewrite words_from_end.
  - destruct (ends_line i) eqn:Hi.
    { destruct i as [| | | | | | |cs]; try done; destruct Hok as [Hok _]; cbn [item_ok] in Hok;
        destruct Hs as [Hq He]; destruct s as [cmds words cur q e b]; cbn in Hq, He; subst q e.
      - apply text_nil in Hok as ->.
        cbn [text fmap list_fmap mjoin list_join item_text app line_loop].
        unfold line_step. cbn [ln_escaped ln_quote]. change (isc BACKSLASH (ch BACKSLASH)) with true.
        unfold line_end. cbn [line_loop set_escaped ln_escaped push_char ln_quote].
        rewrite push_command_eq, push_word_eq. cbn [ln_commands ln_words ln_current].
        rewrite (denote_item _ _ _ [] []) by done. by rewrite words_from_item, words_from_end.
      - cbn [ln_at_word_start] in Hok. destruct Hok as (-> & Hm & ->%text_nil).
        cbn [text fmap list_fmap mjoin list_join item_text]. rewrite app_nil_r.
        rewrite comment_loop by done. unfold line_end. cbn [ln_escaped ln_quote].
        rewrite push_command_eq, push_word_eq. cbn [ln_commands ln_words ln_current].
        rewrite (denote_item _ _ _ [] []) by done. rewrite words_from_item by done.
        cbn [item_content]. by rewrite app_nil_r, words_from_end. }
    destruct Hok as [Hi' Hl]. rewrite text_cons, item_loop, <- denote_step by done.
    apply IH; [by apply item_step_idle|]. by rewrite item_step_word_start.
Qed.

(** *** Quotes that are not closed *)

Lemma single_scan cs :
  (∃ l r, cs = l ++ ch QUOTE :: r ∧ Forall (λ c, isc QUOTE c = false) l)
  ∨ ∀ s, ln_quote s = QSingle → ln_escaped s = false → ln_quote (line_loop cs s) = QSingle.
Proof.
  induction cs as [|c cs IH]; [by right|]. destruct (isc QUOTE c) eqn:Hc.
  { left. exists [], cs. split; [|done]. by apply N.eqb_eq in Hc as ->. }
  destruct IH as [(l & r & -> & Hl)|IH].
  - left. exists (c :: l), r. split; [done|]. by constructor.
  - right. intros s Hq He. cbn [line_loop]. unfold line_step. rewrite Hq, He, Hc. by apply IH.
Qed.

Lemma double_scan n cs : (length cs ≤ n)%nat →
  (∃ ds r, cs = mjoin (dchar_text <$> ds) ++ ch DOUBLE_QUOTE :: r ∧ Forall dchar_ok ds)
  ∨ ∀ s, ln_quote s = QDouble → ln_escaped s = false → ln_quote (line_loop cs s) = QDouble.
Proof.
  revert cs. induction n as [|n IH]; intros [|c cs] Hn; cbn in Hn; try lia; try by right.
  destruct (isc DOUBLE_QUOTE c) eqn:Hc.
  { left. exists [], cs. split; [|done]. by apply N.eqb_eq in Hc as ->. }
  destruct (isc BACKSLASH c) eqn:Hb.
  - apply N.eqb_eq in Hb as ->. destruct cs as [|d cs].
    { right. intros s Hq He. cbn [line_loop]. unfold line_step. by rewrite Hq, He. }
    destruct (IH cs) as [(ds & r & -> & Hds)|Hopen]; [cbn in Hn; lia| |].
    + left. exists (DEscaped d :: ds), r. split; [done|]. by constructor.
    + right. intros s Hq He. cbn [line_loop]. unfold line_step at 1. rewrite Hq, He.
      change (isc DOUBLE_QUOTE (N_of_ascii BACKSLASH)) with false.
      change (isc BACKSLASH (N_of_ascii BACKSLASH)) with true. cbn match.
      by apply Hopen.
  - destruct (IH cs) as [(ds & r & -> & Hds)|Hopen]; [lia| |].
    + left. exists (DPlain c :: ds), r. split; [done|]. by constructor.
    + right. intros s Hq He. cbn [line_loop]. unfold line_step. rewrite Hq, He, Hc, Hb.
      by apply Hopen.
Qed.

Lemma line_end_open s cmds : line_end s = Ok cmds → ln_quote s = QNone.
Proof. unfold line_end. destruct (ln_escaped s), s as [? ? ? []]; done. Qed.

(** The first item of a line that is accepted. *)
Lemma line_item c cs s cmds : idle s → line_end (line_loop (c :: cs) s) = Ok cmds →
  ∃ i rest, c :: cs = item_text i ++ rest ∧ item_ok (ln_at_word_start s) i rest
    ∧ (ends_line i = true → rest = []) ∧ (length rest < length (c :: cs))%nat.
Proof.
  intros Hs Hend. pose proof Hs as [Hq He].
  destruct (isc BACKSLASH c) eqn:H1.
  { apply N.eqb_eq in H1 as ->. destruct cs as [|d cs].
    - exists ITrailing, []. cbn. repeat split; try done. lia.
    - exists (IEscaped d), cs. cbn. repeat split; try done. lia. }
  destruct (isc QUOTE c) eqn:H2.
  { apply N.eqb_eq in H2 as ->. destruct (single_scan cs) as [(l & r & -> & Hl)|Hopen].
    - exists (ISingle l), r. cbn. rewrite <- app_assoc, length_app. cbn. repeat split; try done. lia.
    - change (N_of_ascii QUOTE) with (ch QUOTE) in Hend. rewrite open_single in Hend by done.
      apply line_end_open in Hend. by rewrite Hopen in Hend. }
  destruct (isc DOUBLE_QUOTE c) eqn:H3.
  { apply N.eqb_eq in H3 as ->.
    destruct (double_scan (length cs) cs) as [(ds & r & -> & Hds)|Hopen]; [done| |].
    - exists (IDouble ds), r. cbn. rewrite <- app_assoc, length_app. cbn. repeat split; try done. lia.
    - change (N_of_ascii DOUBLE_QUOTE) with (ch DOUBLE_QUOTE) in Hend.
      rewrite open_double in Hend by done. apply line_end_open in Hend. by rewrite Hopen in Hend. }
  destruct (isc ";" c) eqn:H4.
  { apply N.eqb_eq in H4 as ->. exists ISemi, cs. cbn. repeat split; try done. lia. }
  destruct (is_whitespace c) eqn:H5.
  { exists (IBlank c), cs. cbn. repeat split; try done. lia. }
  destruct (isc "#" c && ln_at_word_start s && is_comment_marker cs) eqn:H6.
  { apply andb_true_iff in H6 as [[H6%N.eqb_eq H7]%andb_true_iff H8]. subst c.
    exists (IComment cs), []. cbn. rewrite app_nil_r. repeat split; try done. lia. }
  exists (IPlain c), cs. cbn. unfold plain_char. rewrite H1, H2, H3, H4, H5.
  repeat split; try done. lia.
Qed.

Lemma line_sound n cs s cmds : (length cs ≤ n)%nat → idle s →
  line_end (line_loop cs s) = Ok cmds → ∃ l, line_ok (ln_at_word_start s) l ∧ text l = cs.
Proof.
  revert cs s. induction n as [|n IH]; intros [|c cs] s Hn Hs Hend; cbn in Hn; try lia;
    try by exists [].
  destruct (line_item c cs s cmds Hs Hend) as (i & rest & Hcs & Hi & Hlast & Hlen).
  destruct (ends_line i) eqn:Hl.
  { rewrite Hlast in * by done. exists [i]. split; [done|]. by rewrite text_cons, Hcs. }
  rewrite Hcs, item_loop in Hend by done.
  destruct (IH rest (item_step i s)) as (l & Hok & <-); [cbn in Hlen; lia|by apply item_step_idle|done|].
  rewrite item_step_word_start in Hok. by exists (i :: l).
Qed.

(** C31. [parse_line] never panics, accepts exactly the lines of the grammar, whose items are blanks,
    semicolons, plain and escaped characters, quoted texts and a last comment or backslash,
    and answers the commands of its items: the words between blanks that are not empty,
    grouped between semicolons. *)
Theorem shell_line_grammar line :
  returns (parse_line line) ∧
  ∀ cmds, parse_line line = Ok cmds ↔
    ∃ l, line_ok true l ∧ text l = chars line ∧ commands_of l = cmds.
Proof.
  unfold parse_line. split.
  { unfold line_end. by destruct (ln_quote _). }
  intros cmds. split.
  - intros Hend. destruct (line_sound (length (chars line)) (chars line) line_start cmds)
      as (l & Hok & Htext); [done..|].
    exists l. split; [done|]. split; [done|].
    rewrite <- Htext, line_complete, denote_start in Hend by done. by injection Hend.
  - intros (l & Hok & <- & <-). by rewrite line_complete, denote_start.
Qed.

(** ** Concrete lines *)

Example line_words :
  parse_line "write 'a b' c\ d; ls # rest"
  = Ok [mkCommand "write" ["a b"; "c d"]; mkCommand "ls" []].
Proof. vm_compute. reflexivity. Qed.

(** An empty word between quotes is no word, so an empty text cannot be written. *)
Lemma empty_words_lost : parse_line "write f ''" = parse_line "write f".
Proof. reflexivity. Qed.

(** A number sign at the start of a word followed by a word character is part of the word. *)
Example device_word : parse_line "cat #star9/version" = Ok [mkCommand "cat" ["#star9/version"]].
Proof. vm_compute. reflexivity. Qed.
