(* ===== verification/ShellHost.v ===== *)
(** * star9-shell: the host of a runtime

    Models [RuntimeShellHost] of [crates/star9-shell/src/lib.rs] and the parts of [Runtime]
    ([crates/star9-runtime/src/lib.rs]) that it uses: the operations of the shell over a
    task, through [Star9Api], the protocol host and the registries.

    What the runtime shares beside its tasks is [RuntimeState].  Connecting a 9P client and
    making a filesystem for a new workspace give the [FsRef] of something that is modelled
    elsewhere ([P9Client], [MemFs]), and are parameters here, as are the handlers that the
    host registers for WASI modules and for programs of the operating system. *)

From stdpp Require Import base list numbers option strings pretty gmap.
From Stdlib Require Import ZArith Lia Ascii.
From S2P Require Import Prelude Strs RcText BTree Core FsTrait FsLens MemFs Vfs Field P9Server Task Registry Proto Exec Worker WorkerProps Api Shell.

Local Open Scope Z_scope.

Record RuntimeState := mkRuntimeState {
  rs_protocol : ProtocolState;
  rs_execution : ExecutionRegistry;
  rs_services : Services;
  rs_next_suffix : Z
}.

Record RuntimeShellHost := mkShellHost {
  rh_task : nat;
  rh_native_enabled : bool;
  rh_no_mount : bool
}.

(** What the host uses of namespaces beside [TaskNamespaces], and of filesystems it makes. *)
Class HostNamespaces (W : Type) := {
  ns_unbind_path : nat → string → M W unit;
  ns_unbind_source_path : nat → string → string → M W unit;
  serve_namespace : nat → M W nat;
  connect_tcp : string → M W nat;
  new_memfs : M W nat
}.

Module Host.

Definition normalize_cwd (cwd : string) : string :=
  if is_empty_str (trim cwd) then "." else cwd.

Definition shell_env_entries : list EnvironmentEntry := [mkEnv "STAR9_SHELL" "1"].

Definition render_task_status (status : ExitStatus) : string := Exec.render_exit_status status.

Definition shell_stat (s : StatInfo) : ShellStat :=
  mkShellStat (si_size s) (si_mode s) (si_is_dir s) (si_modified_ms s).

Section Host.
Context {W H : Type} `{!HasTasks W H} `{!TaskNamespaces W H} `{!FileHandle W H} `{!HasNodes W H}
  `{!HostNamespaces W}.
Context (table : nat → FileSystem W H) (root : nat) (fuel : nat).
Context (handlers : nat → nat → ExecutionSpec → M (W * ExecutionRegistry) ExitStatus).
Context (wasi_handler pty_handler : nat).

Definition Rt (A : Type) : Type := M (W * RuntimeState) A.

Definition tasks {A} (m : M W A) : Rt A := on_fst m.

Definition set_protocol (p : ProtocolState) (s : RuntimeState) : RuntimeState :=
  mkRuntimeState p (rs_execution s) (rs_services s) (rs_next_suffix s).
Definition set_execution (r : ExecutionRegistry) (s : RuntimeState) : RuntimeState :=
  mkRuntimeState (rs_protocol s) r (rs_services s) (rs_next_suffix s).
Definition set_services (v : Services) (s : RuntimeState) : RuntimeState :=
  mkRuntimeState (rs_protocol s) (rs_execution s) v (rs_next_suffix s).

Definition protocol {A} (m : M (W * ProtocolState) A) : Rt A :=
  zoom (λ x, (x.1, rs_protocol x.2)) (λ y x, (y.1, set_protocol y.2 x.2)) m.
Definition execution {A} (m : M (W * ExecutionRegistry) A) : Rt A :=
  zoom (λ x, (x.1, rs_execution x.2)) (λ y x, (y.1, set_execution y.2 x.2)) m.
Definition services {A} (m : M Services A) : Rt A :=
  on_snd (zoom rs_services set_services m).

(** [NEXT.fetch_add(1)] of the counter of workers, a [u64] *)
Definition next_worker_suffix : Rt Z := λ '(w, s),
  (Ok (rs_next_suffix s),
   (w, mkRuntimeState (rs_protocol s) (rs_execution s) (rs_services s)
         ((rs_next_suffix s + 1) mod 2 ^ 64))).

(** *** Services of the runtime *)

Definition handle_runtime_request (request : RuntimeRequest) : Rt RuntimeResponse :=
  protocol (Worker.handle_request table root fuel request).

Definition register_service_fs (name : string) (fs : nat) (description : string) : Rt unit :=
  services (ServiceReg.register name fs description).

Definition register_tcp_9p_service (source name : string) : Rt unit :=
  addr ← lift (ServiceReg.tcp_service_addr source);
  client ← tasks (connect_tcp addr);
  key ← lift (ServiceReg.service_key name);
  register_service_fs name client
    ("tcp 9p service " +:+ source +:+ " as " +:+ key +:+ Shell.nl).

(** *** The host of a task *)

Section Scope.
Context (h : RuntimeShellHost).

Definition namespace : M W nat := Task.namespace (rh_task h).

Definition check_path_allowed (op path : string) : Rt unit :=
  guard_err (rh_no_mount h && starts_with_char "#" (clean_path path))
    (EPath op path PermissionDenied).

Definition check_mount_allowed (op path : string) : Rt unit :=
  guard_err (rh_no_mount h) (EPath op path PermissionDenied).

Definition read_file (path : string) : Rt (list byte) :=
  check_path_allowed "read" path ;; tasks (Api.read_file table fuel (rh_task h) path).

Definition write_file (path : string) (data : list byte) : Rt unit :=
  check_path_allowed "write" path ;; tasks (Api.write_file table (rh_task h) path data).

Definition append_file (path : string) (data : list byte) : Rt unit :=
  check_path_allowed "append" path ;; tasks (Api.append_file table (rh_task h) path data).

Definition write_existing (path : string) (data : list byte) : Rt unit :=
  check_path_allowed "write" path ;;
  tasks
    (ns ← namespace;
     file ← open_path (table ns) path;
     '(written, file) ← with_handle file (fh_write data);
     guard_err (negb (written =? blen data)) (EKind UnexpectedEof) ;;
     with_handle file fh_close ;;
     mret tt).

Definition read_dir (path : string) : Rt (list string) :=
  check_path_allowed "ls" path ;; tasks (Api.read_dir table (rh_task h) path).

Definition mkdir (path : string) : Rt unit :=
  check_path_allowed "mkdir" path ;; tasks (Api.mkdir_all table (rh_task h) path).

Definition remove (path : string) : Rt unit :=
  check_path_allowed "rm" path ;; tasks (Api.remove table (rh_task h) path).

Definition remove_all (path : string) : Rt unit :=
  check_path_allowed "rm" path ;; tasks (Api.remove_all table fuel (rh_task h) path).

Definition rename (old new : string) : Rt unit :=
  check_path_allowed "mv" old ;;
  check_path_allowed "mv" new ;;
  tasks (Api.rename table (rh_task h) old new).

Definition copy (old new : string) : Rt unit :=
  check_path_allowed "cp" old ;;
  check_path_allowed "cp" new ;;
  tasks (Api.copy table fuel (rh_task h) old new).

Definition stat (path : string) : Rt ShellStat :=
  check_path_allowed "stat" path ;;
  s ← tasks (Api.stat table (rh_task h) path);
  mret (shell_stat s).

(** **** Tasks *)

(** The loop of [read_handle_to_string] *)
Fixpoint read_handle_loop (fuel : nat) (out : list byte) : M (H * W) string :=
  match fuel with
  | O => no_fuel
  | S fuel' =>
      bs ← fh_read 4096;
      match bs with
      | [] => mret (from_utf8_lossy out)
      | _ => read_handle_loop fuel' (out ++ bs)
      end
  end.

Definition read_handle_to_string : M (H * W) string := read_handle_loop fuel [].

Definition stdio_for (stdout_path : option string) : StdioSet :=
  match stdout_path with
  | Some path =>
      mkStdio Null (OnFd (mkFdDescriptor 1 FdFile (Some path) false true false)) Null
  | None => StdioSet_default
  end.

Definition execution_spec (kind : ExecutionKind) (module : string) (args : list string)
    (cwd : string) (stdio : StdioSet) : ExecutionSpec :=
  mkSpec kind module args shell_env_entries (Some (normalize_cwd cwd)) stdio [].

(** [unwrap_or_default()] *)
Definition or_default {S A} (d : A) (m : M S A) : M S A :=
  r ← attempt m; match r with Err _ => mret d | r => lift r end.

Definition execute_task (kind : ExecutionKind) (module : string) (args : list string)
    (cwd : string) (stdout_path : option string) : Rt ShellTaskResult :=
  task ← tasks (Task.alloc "auto" (Some (rh_task h)));
  status ← execution (Exec.execute table handlers task
             (execution_spec kind module args cwd (stdio_for stdout_path)));
  stdout ← tasks (or_default "" (Task.with_fd_mut task 1
             (fh_seek (SeekStart 0) ;; read_handle_to_string)));
  task_id ← tasks (Task.id task);
  mret (mkTaskResult task_id (render_task_status status) stdout).

Definition start_wasi (module : string) (args : list string) (cwd : string)
    : Rt ShellTaskResult :=
  execution (Exec.register_kind_arc Wasi wasi_handler) ;;
  execute_task Wasi module args cwd None.

Definition run_native (module : string) (args : list string) (cwd : string)
    : Rt ShellTaskResult :=
  guard_err (negb (rh_native_enabled h)) (EKind NotSupported) ;;
  execution (Exec.register_kind_arc Native pty_handler) ;;
  execute_task Native module args cwd None.

Definition start_worker (module : string) (args : list string) (cwd : string)
    : Rt ShellTaskResult :=
  n ← next_worker_suffix;
  parent_id ← tasks (Task.id (rh_task h));
  response ← handle_runtime_request (SpawnWorker
    (mkWorkerSpawn (mkWorker ("shell-worker-" +:+ pretty n) "") (Some parent_id)));
  match response with
  | RtWorker worker =>
      handle_runtime_request (StartWorker (mkWorkerStart worker
        (execution_spec JsWasm module args cwd StdioSet_default))) ;;
      text ← or_default [] (read_file ("#task/" +:+ wk_task_id worker +:+ "/exit"));
      mret (mkTaskResult (wk_task_id worker) (trim (from_utf8_lossy text)) "")
  | _ => throw (EMessage "runtime returned non-worker response")
  end.

(** **** Bindings and services *)

Definition bind_path (src dst : string) (mode : BindMode) : Rt unit :=
  check_mount_allowed "bind" dst ;;
  tasks (ns ← namespace; r ← ns_self ns; ns_bind ns r src dst mode).

Definition unmount_path (dst : string) : Rt unit :=
  check_mount_allowed "unmount" dst ;;
  tasks (ns ← namespace; ns_unbind_path ns dst).

Definition unmount_binding (src dst : string) : Rt unit :=
  check_mount_allowed "unmount" dst ;;
  tasks (ns ← namespace; ns_unbind_source_path ns src dst).

(** A client connected to a server of the task's own namespace *)
Definition register_service (name : string) : Rt unit :=
  check_mount_allowed "srv" name ;;
  task_id ← tasks (Task.id (rh_task h));
  exported ← tasks (Task.lookup task_id);
  client ← tasks (ns ← Task.namespace exported; serve_namespace ns);
  register_service_fs name client
    ("loopback task " +:+ task_id +:+ " namespace export: " +:+ name +:+ Shell.nl).

Definition register_service_from_source (source name : string) : Rt unit :=
  check_mount_allowed "srv" name ;;
  if Shell.is_loopback_service_source source then register_service name
  else if starts_with "tcp!" source then register_tcp_9p_service source name
  else throw (EPath "srv" source NotSupported).

Definition mount_service (service dst : string) (mode : BindMode) : Rt unit :=
  check_mount_allowed "mount" dst ;;
  fs ← services (ServiceReg.lookup service);
  tasks (ns ← namespace; ns_bind ns fs "." dst mode).

Definition shell_host : ShellHost (W * RuntimeState) := {|
  sh_read_file := read_file;
  sh_write_file := write_file;
  sh_append_file := append_file;
  sh_write_existing := write_existing;
  sh_read_dir := read_dir;
  sh_mkdir := mkdir;
  sh_remove := remove;
  sh_remove_all := remove_all;
  sh_rename := rename;
  sh_copy := copy;
  sh_stat := stat;
  sh_start_wasi := start_wasi;
  sh_start_worker := start_worker;
  sh_bind_path := bind_path;
  sh_unmount_path := unmount_path;
  sh_unmount_binding := unmount_binding;
  sh_register_service := register_service;
  sh_register_service_from_source := register_service_from_source;
  sh_mount_service := mount_service;
  sh_run_native := run_native
|}.

(** **** Scopes *)

Definition with_task_scope (task : nat) : RuntimeShellHost :=
  mkShellHost task (rh_native_enabled h) (rh_no_mount h).

Definition fork_namespace_scope : Rt RuntimeShellHost :=
  task ← tasks (Task.alloc "auto" (Some (rh_task h)));
  tasks (Task.set_cmd task "rc-scope") ;;
  mret (with_task_scope task).

Definition clean_namespace_scope : Rt RuntimeShellHost :=
  task ← tasks (Task.alloc_clean_namespace "auto");
  tasks (Task.set_cmd task "rc-scope") ;;
  mret (with_task_scope task).

Definition fork_fd_scope : Rt RuntimeShellHost :=
  ns ← tasks namespace;
  task ← tasks (Task.alloc_with_namespace "auto" (Some (rh_task h)) ns);
  tasks (Task.set_cmd task "rc-scope") ;;
  mret (with_task_scope task).

Definition clear_fds : Rt unit := tasks (Task.clear_fds (rh_task h)).

Definition with_no_mount : RuntimeShellHost := mkShellHost (rh_task h) (rh_native_enabled h) true.
Definition enable_native : RuntimeShellHost := mkShellHost (rh_task h) true (rh_no_mount h).

Definition with_writable_workspace : Rt RuntimeShellHost :=
  tasks (ns ← namespace; fs ← new_memfs; ns_bind ns fs "." "." Replace) ;;
  mret h.
End Scope.

Definition new : RuntimeShellHost := mkShellHost root false false.
End Host.
End Host.

(** ** A host without mounts *)

Lemma hash_valid path : starts_with_char "#" path = true → valid_path path = true →
  starts_with_char "#" (clean_path path) = true.
Proof. intros Hp Hv. by rewrite clean_path_id. Qed.

Section NoMount.
Context {W H : Type} `{!HasTasks W H} `{!TaskNamespaces W H} `{!FileHandle W H} `{!HasNodes W H}
  `{!HostNamespaces W}.
Context (table : nat → FileSystem W H) (root : nat) (fuel : nat).
Context (handlers : nat → nat → ExecutionSpec → M (W * ExecutionRegistry) ExitStatus).
Context (wasi_handler pty_handler : nat) (h : RuntimeShellHost).
Hypothesis no_mount : rh_no_mount h = true.

(** Namespaces refuse paths that are not clean, which [Vfs] does. *)
Hypothesis invalid_open : ∀ ns ctx path w, valid_path path = false →
  ∃ e, fs_open (table ns) ctx path w = (Err e, w).
Hypothesis invalid_read_dir : ∀ ns ctx path w, valid_path path = false →
  ∃ e, fs_read_dir (table ns) ctx path w = (Err e, w).

#[local] Instance no_mount_host : ShellHost (W * RuntimeState) :=
  Host.shell_host table root fuel handlers wasi_handler pty_handler h.

Implicit Types (s : ShellSession * (W * RuntimeState)).

(** The world has the task of the host. *)
Definition has_task (w : W * RuntimeState) : Prop :=
  is_Some (ts_tasks (tasks_of w.1) !! rh_task h).

(** An error that changes nothing; a command that fails and changes nothing. *)
Definition refuses {A} (m : M (W * RuntimeState) A) : Prop :=
  ∀ w, has_task w → ∃ e, m w = (Err e, w).
Definition fails (m : Shell.Sh ShellResult) : Prop :=
  ∀ s, has_task s.2 → ∃ r, m s = (Ok r, s) ∧ sr_status r ≠ 0.

Lemma refuses_bind {A B} (m : M (W * RuntimeState) A) (k : A → M (W * RuntimeState) B) :
  refuses m → refuses (m ≫= k).
Proof.
  intros Hm w Hw. destruct (Hm w Hw) as [e He]. exists e. by apply eff_bind_Err.
Qed.

(** On a device either the host refuses the path or the namespace does. *)
Lemma device_refused {A} op path (m : M W A) : starts_with_char "#" path = true →
  (∀ w ns, Task.namespace (rh_task h) w = (Ok ns, w) → valid_path path = false →
     ∃ e, m w = (Err e, w)) →
  refuses (Host.check_path_allowed h op path ;; Host.tasks m).
Proof.
  intros Hp Hm [w rs] [i Hi]. unfold Host.check_path_allowed. rewrite no_mount. cbn [andb].
  destruct (starts_with_char "#" (clean_path path)) eqn:Hc; [by eexists|].
  destruct (valid_path path) eqn:Hv; [by rewrite hash_valid in Hc|].
  destruct (Hm w (ti_ns i)) as [e He]; [|done|].
  - unfold Task.namespace, Task.inner, Task.store. unfold_eff. cbn in Hi. by rewrite Hi.
  - exists e. unfold guard_err, Host.tasks, on_fst. unfold_eff. by rewrite He.
Qed.

Lemma read_file_refused path : starts_with_char "#" path = true → refuses (sh_read_file path).
Proof.
  intros Hp. apply (device_refused "read" path); [done|]. intros w ns Hns Hv.
  destruct (invalid_open ns (Ctx.with_origin path "open" Ctx.new) path w Hv) as [e He]. exists e.
  unfold Api.read_file, Api.in_namespace. rewrite (eff_bind_Ok _ _ _ _ _ Hns).
  unfold FsTrait.read_file, open_path. by apply eff_bind_Err.
Qed.

Lemma read_dir_refused path : starts_with_char "#" path = true → refuses (sh_read_dir path).
Proof.
  intros Hp. apply (device_refused "ls" path); [done|]. intros w ns Hns Hv.
  destruct (invalid_read_dir ns (Ctx.with_origin path "readdir" Ctx.new) path w Hv) as [e He].
  exists e. unfold Api.read_dir, Api.in_namespace. apply eff_bind_Err.
  by rewrite (eff_bind_Ok _ _ _ _ _ Hns).
Qed.

Lemma write_existing_refused path data : starts_with_char "#" path = true →
  refuses (sh_write_existing path data).
Proof.
  intros Hp. apply (device_refused "write" path); [done|]. intros w ns Hns Hv.
  destruct (invalid_open ns (Ctx.with_origin path "open" Ctx.new) path w Hv) as [e He]. exists e.
  rewrite (eff_bind_Ok _ _ _ _ _ Hns). unfold open_path. by apply eff_bind_Err.
Qed.

Lemma mount_refused {A} op path (k : unit → M (W * RuntimeState) A) :
  refuses (Host.check_mount_allowed h op path ≫= k).
Proof. intros w Hw. eexists. unfold Host.check_mount_allowed. by rewrite no_mount. Qed.

(** *** Commands *)

Lemma fails_told {A} (m : M (W * RuntimeState) A) ok err : refuses m →
  fails (Shell.told (Shell.host m) ok err).
Proof.
  intros Hm [se w] Hw. destruct (Hm w Hw) as [e He]. exists (ShellResult.failure (err e)).
  split; [|done]. unfold Shell.told, Shell.host, on_snd. unfold_eff. by rewrite He.
Qed.

Lemma fails_read_text path ok err : starts_with_char "#" path = true →
  fails (Shell.told (Shell.read_text path) ok err).
Proof.
  intros Hp [se w] Hw. destruct (read_file_refused path Hp w Hw) as [e He].
  exists (ShellResult.failure (err e)). split; [|done].
  unfold Shell.told, Shell.read_text, Shell.host, on_snd. unfold_eff. by rewrite He.
Qed.

Lemma fails_usage text : fails (mret (Shell.usage text)).
Proof. intros s Hs. by exists (Shell.usage text). Qed.

Lemma fails_path path (k : string → Shell.Sh ShellResult) :
  (∀ p, fails (k p)) → fails (Shell.resolve_path path ≫= k).
Proof. intros Hk s Hs. exact (Hk _ s Hs). Qed.

Lemma fails_list path name : starts_with_char "#" path = true → fails (Shell.list_device path name).
Proof. intros Hp. by apply fails_told, read_dir_refused. Qed.

Lemma fails_write path data what : starts_with_char "#" path = true →
  fails (Shell.write_device path data what).
Proof. intros Hp. by apply fails_told, write_existing_refused. Qed.

Lemma fails_read path what : starts_with_char "#" path = true → fails (Shell.read_device path what).
Proof. apply fails_read_text. Qed.

Create HintDb fails discriminated.
#[local] Hint Resolve fails_usage fails_list fails_write fails_read fails_read_text : fails.

(** The branches of a command that only lists, reads or writes files of devices. *)
Ltac each_branch := repeat (first [case_decide | case_match]); auto with fails.

Lemma fails_term args : fails (Shell.cmd_term args).
Proof. unfold Shell.cmd_term. each_branch. Qed.
Lemma fails_vm args : fails (Shell.cmd_vm args).
Proof. unfold Shell.cmd_vm, Shell.vm_new. each_branch. Qed.
Lemma fails_net args : fails (Shell.cmd_net args).
Proof. unfold Shell.cmd_net. each_branch. Qed.

(** The flags of a command are read or refused with a failure. *)
Definition flags_result {A} (r : Outcome ShellResult A) : Prop :=
  match r with Ok _ => True | Err e => sr_status e ≠ 0 | _ => False end.

Lemma fails_parsed {A} (r : Outcome ShellResult A) (k : A → Shell.Sh ShellResult) :
  flags_result r → (∀ a, fails (k a)) → fails (Shell.parsed r k).
Proof. intros Hr Hk. destruct r; try done; cbn; [apply Hk|]. intros s Hs. by eexists. Qed.

Lemma flags_result_bind {A B} (r : Outcome ShellResult A) (k : A → Outcome ShellResult B) :
  flags_result r → (∀ a, flags_result (k a)) → flags_result (r ≫= k).
Proof. destruct r; cbn; auto. Qed.

Lemma bind_flags_result name b mode flags : flags_result (Shell.bind_flags name b mode flags).
Proof.
  revert mode. induction flags as [|c flags IH]; intros mode; cbn [Shell.bind_flags]; [done|].
  by repeat (case_match; [by eauto|]).
Qed.

Lemma bind_args_result name b mode pos args :
  flags_result (Shell.bind_mount_args name b mode pos args).
Proof.
  revert mode pos. induction args as [|a args IH]; intros mode pos; [done|].
  cbn [Shell.bind_mount_args]. destruct (Shell.flags_of a); [|by apply IH].
  apply flags_result_bind; [apply bind_flags_result|]. intros. apply IH.
Qed.

Lemma srv_flags_result mode m flags : flags_result (Shell.srv_flags mode m flags).
Proof.
  revert mode m. induction flags as [|c flags IH]; intros mode m; cbn [Shell.srv_flags]; [done|].
  by repeat (case_match; [by eauto|]).
Qed.

Lemma srv_args_result mode m pos args : flags_result (Shell.srv_args mode m pos args).
Proof.
  revert mode m pos. induction args as [|a args IH]; intros mode m pos; [done|].
  cbn [Shell.srv_args]. destruct (Shell.flags_of a); [|by apply IH].
  apply flags_result_bind; [apply srv_flags_result|]. intros [mode' m']. apply IH.
Qed.

Lemma fails_bind args : fails (Shell.cmd_bind args).
Proof.
  apply fails_parsed; [apply bind_args_result|]. intros [mode pos].
  repeat (case_match; auto with fails). do 2 (apply fails_path; intros ?).
  apply fails_told, mount_refused.
Qed.

Lemma fails_mount args : fails (Shell.cmd_mount args).
Proof.
  apply fails_parsed; [apply bind_args_result|]. intros [mode pos].
  repeat (case_match; auto with fails); apply fails_path; intros ?; apply fails_told, mount_refused.
Qed.

Lemma fails_unmount args : fails (Shell.cmd_unmount args).
Proof.
  unfold Shell.cmd_unmount. repeat (case_match; auto with fails);
    repeat (apply fails_path; intros ?); apply fails_told, mount_refused.
Qed.

Lemma fails_srv args : fails (Shell.cmd_srv args).
Proof.
  unfold Shell.cmd_srv. destruct args as [|a args]; [by auto with fails|].
  apply fails_parsed; [apply srv_args_result|]. intros [[mode m] pos].
  destruct (Shell.srv_words pos) as [[[source name] mountpoint]|]; [|by auto with fails].
  intros [se w] Hw. unfold Shell.host, on_snd. unfold_eff. cbn.
  unfold Host.register_service_from_source, Host.check_mount_allowed. rewrite no_mount. cbn.
  by eexists.
Qed.

(** C34. A shell whose host has no mounts cannot reach devices or change its namespace with
    the commands that do so: whatever their arguments, they fail with an error status and
    leave the session, the tasks and what the runtime shares as they were. *)
Theorem shell_no_mount name args :
  name ∈ ["bind"; "unmount"; "srv"; "mount"; "version"; "binds"; "tasks"; "fds"; "term"; "vm"; "net"] →
  fails (Shell.eval_command (mkCommand name args)).
Proof.
  intros Hname. repeat (apply elem_of_cons in Hname as [->|Hname]); [..|by apply elem_of_nil in Hname].
  - exact (fails_bind args).
  - exact (fails_unmount args).
  - exact (fails_srv args).
  - exact (fails_mount args).
  - change (fails (Shell.cmd_version args)). unfold Shell.cmd_version. each_branch.
  - change (fails (Shell.cmd_binds args)). unfold Shell.cmd_binds. each_branch.
  - change (fails (Shell.cmd_tasks args)). unfold Shell.cmd_tasks. each_branch.
  - change (fails (Shell.cmd_fds args)). unfold Shell.cmd_fds. each_branch.
  - exact (fails_term args).
  - exact (fails_vm args).
  - exact (fails_net args).
Qed.
End NoMount.

(** [Vfs] refuses the paths that the theorem assumes refused. *)
Lemma vfs_refuses_invalid {W H} `{!HasBindings W} `{!FileHandle W H} `{!BoxDir H}
    (table : nat → FileSystem W H) ctx path w :
  valid_path path = false →
  (∃ e, fs_open (Vfs.fs table) ctx path w = (Err e, w)) ∧
  (∃ e, fs_read_dir (Vfs.fs table) ctx path w = (Err e, w)).
Proof.
  intros Hv. assert (∀ ctx, Vfs.open table ctx path w = (Err (EPath "open" path NotFound), w)) as Ho.
  { intros ctx'. unfold Vfs.open. by rewrite Hv. }
  split; eexists; [apply Ho|]. cbn. unfold default_fs_read_dir. by apply eff_bind_Err, Ho.
Qed.

(** ** A shell over a small runtime *)

Import Tiny.

#[global] Instance tiny_host_namespaces : HostNamespaces Tiny.World := {|
  ns_unbind_path _ _ := mret tt;
  ns_unbind_source_path _ _ _ := mret tt;
  serve_namespace := mret;
  connect_tcp _ := throw (EMessage "no network");
  new_memfs := mret 0%nat
|}.

Definition tiny_handlers (n task : nat) (spec : ExecutionSpec)
    : M (Tiny.World * ExecutionRegistry) ExitStatus := mret (ExitCode 0).

Definition tiny_shell (no_mount : bool) : ShellHost (Tiny.World * RuntimeState) :=
  Host.shell_host Tiny.table 0 100 tiny_handlers 0 1 (mkShellHost 0 false no_mount).

Definition tiny_start : ShellSession * (Tiny.World * RuntimeState) :=
  (Shell.new, (Tiny.boot, mkRuntimeState Worker.default_state Exec.new [] 1)).

(** What the lines print, one after the other. *)
Definition prints (host : ShellHost (Tiny.World * RuntimeState)) (lines : list string)
    : list (Result ShellResult) :=
  (foldl (λ '(out, s) line, let '(r, s) := Shell.eval_line line s in (out ++ [r], s))
     ([], tiny_start) lines).1.

Example shell_session :
  prints (tiny_shell false)
    ["mkdir dir; cd dir; write f 'two words'; append f !"; "pwd; cat f; cat /data"; "ls .. ."; "cat no"; "wasi prog -v"]
  = [Ok (mkShellResult 0 "" "");
     Ok (mkShellResult 0 ("dir" +:+ Shell.nl +:+ "two words!text") "");
     Ok (mkShellResult 0 (str_join Shell.nl [".:"; "data"; "dir/"; ""; "dir:"; "f"; ""]) "");
     Ok (mkShellResult 1 "" ("cat: dir/no: open dir/no: not found" +:+ Shell.nl));
     Ok (mkShellResult 0 ("wasi task=2 status=0" +:+ Shell.nl) "")].
Proof. vm_compute. reflexivity. Qed.

Lemma tiny_invalid_open ns ctx path w : valid_path path = false →
  ∃ e, fs_open (Tiny.table ns) ctx path w = (Err e, w).
Proof.
  intros Hv. destruct w as [s m]. unfold Tiny.table. cbn [zoom_fs fs_open]. unfold zoom_open, zoom.
  unfold_eff. cbn. rewrite Hv. by eexists.
Qed.

Lemma tiny_invalid_read_dir ns ctx path w : valid_path path = false →
  ∃ e, fs_read_dir (Tiny.table ns) ctx path w = (Err e, w).
Proof.
  intros Hv. destruct w as [s m]. unfold Tiny.table. cbn [zoom_fs fs_read_dir].
  unfold zoom, default_fs_read_dir. unfold_eff. cbn. unfold default_fs_read_dir. unfold_eff. cbn.
  rewrite Hv. by eexists.
Qed.

Lemma shell_no_mount_witness :
  let h := mkShellHost 0 false true in
  "vm" ∈ ["bind"; "unmount"; "srv"; "mount"; "version"; "binds"; "tasks"; "fds"; "term"; "vm"; "net"]
  ∧ has_task h tiny_start.2
  ∧ fails h (Shell.eval_command (ShellHost0 := no_mount_host Tiny.table 0 100 tiny_handlers 0 1 h)
      (mkCommand "vm" ["start"; "1"])).
Proof.
  intros h. assert ("vm" ∈ ["bind"; "unmount"; "srv"; "mount"; "version"; "binds"; "tasks"; "fds";
    "term"; "vm"; "net"]) as Hvm by (do 9 right; left).
  split; [exact Hvm|]. split; [by eexists|].
  apply shell_no_mount; [reflexivity|apply tiny_invalid_open|apply tiny_invalid_read_dir|exact Hvm].
Defined.
