(* ===== verification/WasiMem.v ===== *)
(** * star9-runtime: the memory of a WASI guest

    Models the functions of [crates/star9-runtime/src/wasi.rs] through which the host
    reads and writes the memory that a module exports: [read_bytes], [write_bytes], the
    integers in little-endian order, strings, arrays of strings and the descriptors of
    scattered buffers.

    A [Caller] is what a host function is called with: the exported memory, if there is
    one, the world behind the filesystems, the clock and the sleeps asked for.  Addresses
    and lengths are [i32]; arithmetic on them that leaves the range is a panic, where the
    source neither checks nor saturates.  The functions that fail with [()] have [unit] for
    the type of their errors, those that fail with an errno [Z]. *)

From stdpp Require Import base list numbers option strings.
From Stdlib Require Import ZArith Lia Ascii.
From S2P Require Import Prelude Strs P9Codec.

Local Open Scope Z_scope.

(** ** [i32] and [i64] *)

Definition in_i32 (z : Z) : bool := (- (I32_MAX + 1) <=? z) && (z <=? I32_MAX).

Definition as_u32 (z : Z) : Z := z mod (U32_MAX + 1).
Definition as_usize (z : Z) : Z := z mod (USIZE_MAX + 1).
Definition as_i32 (z : Z) : Z := (z + (I32_MAX + 1)) mod (U32_MAX + 1) - (I32_MAX + 1).

(** Arithmetic that traps when it overflows, and that answers [None]. *)
Definition i32_trap {E S} (z : Z) : Eff E S Z := if in_i32 z then mret z else panic.
Definition checked_i32 (z : Z) : option Z := if in_i32 z then Some z else None.
Definition saturating_i32 (z : Z) : Z := Z.max (- (I32_MAX + 1)) (Z.min z I32_MAX).
Definition saturating_u32 (z : Z) : Z := Z.min z U32_MAX.
Definition saturating_u64 (z : Z) : Z := Z.min z U64_MAX.

(** ** The state of a host call *)

Record Caller (W : Type) := mkCaller {
  ca_memory : option (list byte);
  ca_world : W;
  ca_clock : nat → Z;
  ca_slept : list Z
}.
Arguments mkCaller {W}. Arguments ca_memory {W}. Arguments ca_world {W}.
Arguments ca_clock {W}. Arguments ca_slept {W}.

Module WasiMem.

Definition ERRNO_INVAL : Z := 28.

Section Memory.
Context {W : Type}.
Local Abbreviation C := (Caller W).

(** [memory(caller).ok_or(())?] and a change of its bytes *)
Definition memory : Eff unit C (list byte) := λ c,
  match ca_memory c with Some data => (Ok data, c) | None => (Err tt, c) end.

Definition set_memory (data : list byte) : Eff unit C unit := λ c,
  (Ok tt, mkCaller (Some data) (ca_world c) (ca_clock c) (ca_slept c)).

Definition read_bytes (ptr len : Z) : Eff unit C (list byte) :=
  guard_err ((ptr <? 0) || (len <? 0)) tt ;;
  data ← memory;
  let fin := ptr + len in
  guard_err (USIZE_MAX <? fin) tt ;;
  guard_err (blen data <? fin) tt ;;
  mret (take (Z.to_nat len) (drop (Z.to_nat ptr) data)).

(** The bytes [bs] at [start]. *)
Definition copy_at (start : nat) (bs data : list byte) : list byte :=
  take start data ++ bs ++ drop (start + length bs) data.

Definition write_bytes (ptr : Z) (bytes : list byte) : Eff unit C unit :=
  guard_err (ptr <? 0) tt ;;
  data ← memory;
  let fin := ptr + blen bytes in
  guard_err (USIZE_MAX <? fin) tt ;;
  guard_err (blen data <? fin) tt ;;
  set_memory (copy_at (Z.to_nat ptr) bytes data).

(** [uN::from_le_bytes(bytes.try_into().unwrap())] *)
Definition read_le (n : nat) (ptr : Z) : Eff unit C Z :=
  bytes ← read_bytes ptr (Z.of_nat n); mret (from_le_bytes bytes).

Definition read_u8 : Z → Eff unit C Z := read_le 1.
Definition read_u16 : Z → Eff unit C Z := read_le 2.
Definition read_u32 : Z → Eff unit C Z := read_le 4.
Definition read_u64 : Z → Eff unit C Z := read_le 8.

Definition write_u16 (ptr value : Z) : Eff unit C unit := write_bytes ptr (le_bytes 2 value).
Definition write_u32 (ptr value : Z) : Eff unit C unit := write_bytes ptr (le_bytes 4 value).
Definition write_u64 (ptr value : Z) : Eff unit C unit := write_bytes ptr (le_bytes 8 value).

(** [.map_err(|()| ERRNO_INVAL)?] *)
Definition inval {A} (m : Eff unit C A) : Eff Z C A := λ c,
  match m c with
  | (Ok a, c') => (Ok a, c')
  | (Err _, c') => (Err ERRNO_INVAL, c')
  | (Panic, c') => (Panic, c')
  | (NoFuel, c') => (NoFuel, c')
  end.

Definition read_string (ptr len : Z) : Eff Z C string :=
  guard_err (len <? 0) ERRNO_INVAL ;;
  bytes ← inval (read_bytes ptr len);
  ok_or (from_utf8 bytes) ERRNO_INVAL.

(** ** Arrays of strings *)

Definition strings_size (strings : list string) : Z :=
  foldr (λ value size, blen (bytes_of value) + 1 + size) 0 strings.

Fixpoint write_strings (index ptrs_ptr cursor : Z) (strings : list string) : Eff unit C unit :=
  match strings with
  | [] => mret tt
  | value :: strings =>
      offset ← i32_trap (as_i32 index * 4);
      slot ← i32_trap (ptrs_ptr + offset);
      write_u32 slot (as_u32 cursor) ;;
      write_bytes cursor (bytes_of value) ;;
      cursor ← i32_trap (cursor + as_i32 (blen (bytes_of value)));
      write_bytes cursor [x00] ;;
      cursor ← i32_trap (cursor + 1);
      write_strings (index + 1) ptrs_ptr cursor strings
  end.

Definition write_string_array (ptrs_ptr buf_ptr : Z) (strings : list string) : Eff unit C unit :=
  write_strings 0 ptrs_ptr buf_ptr strings.

(** ** Scattered buffers *)

(** The descriptors from [index] on; [n] of them are left. *)
Fixpoint read_descriptors (n : nat) (index ptr : Z) : Eff Z C (list (Z * Z)) :=
  match n with
  | O => mret []
  | S n =>
      scaled ← i32_trap (index * 8);
      offset ← i32_trap (ptr + scaled);
      data_ptr ← inval (read_u32 offset);
      len_offset ← i32_trap (offset + 4);
      data_len ← inval (read_u32 len_offset);
      rest ← read_descriptors n (index + 1) ptr;
      mret ((as_i32 data_ptr, as_i32 data_len) :: rest)
  end.

Definition read_iov_descriptors (ptr len : Z) : Eff Z C (list (Z * Z)) :=
  guard_err (len <? 0) ERRNO_INVAL ;;
  read_descriptors (Z.to_nat len) 0 ptr.

Definition read_iovs (ptr len : Z) : Eff Z C (list (list byte)) :=
  iovs ← read_iov_descriptors ptr len;
  map_eff (λ iov, inval (read_bytes iov.1 iov.2)) iovs.
End Memory.
End WasiMem.
