(* ===== verification/Wasi.v ===== *)
(** * star9-runtime: the WASI host

    Models [crates/star9-runtime/src/wasi.rs]: the functions of preview 1 over the
    descriptors of a task and its namespace, the table that links them to a module, and
    [WasmiWasiHandler], which runs a module.

    A host function computes over a [Caller]; [return ERRNO_x] is the error [ERRNO_x] and
    success [ERRNO_SUCCESS].  The wasmi engine is a parameter: a module is what it does, a
    [Guest], whose steps are changes of its own memory and calls of host functions. *)

From stdpp Require Import base list numbers option strings pretty.
From Stdlib Require Import ZArith Lia Ascii.
From S2P Require Import Prelude Strs RcText BTree Core FsTrait Vfs Field P9Codec Task Proto WasiMem.

Local Open Scope Z_scope.
Import WasiMem.

Record WasiState := mkWasiState { ws_task : nat; ws_args : list string; ws_env : list EnvironmentEntry }.

Record WasiDirentRecord := mkDirent { wd_next : Z; wd_ino : Z; wd_type : Z; wd_name : list byte }.

Module Wasi.

Definition ERRNO_SUCCESS : Z := 0.
Definition ERRNO_AGAIN : Z := 6.
Definition ERRNO_BADF : Z := 8.
Definition ERRNO_EXIST : Z := 20.
Definition ERRNO_IO : Z := 29.
Definition ERRNO_ISDIR : Z := 31.
Definition ERRNO_NOENT : Z := 44.
Definition ERRNO_NOTDIR : Z := 54.
Definition ERRNO_NOTEMPTY : Z := 55.
Definition ERRNO_NOTSUP : Z := 58.
Definition ERRNO_PERM : Z := 63.

Definition FILETYPE_UNKNOWN : Z := 0.
Definition FILETYPE_CHARACTER_DEVICE : Z := 2.
Definition FILETYPE_DIRECTORY : Z := 3.
Definition FILETYPE_REGULAR_FILE : Z := 4.
Definition FILETYPE_SYMBOLIC_LINK : Z := 7.

Definition OFLAGS_CREATE : Z := 1.
Definition OFLAGS_DIRECTORY : Z := 2.
Definition OFLAGS_TRUNCATE : Z := 8.
Definition LOOKUPFLAGS_SYMLINK_FOLLOW : Z := 1.
Definition FDFLAGS_APPEND : Z := 1.
Definition FDFLAGS_SUPPORTED_SET : Z := 0.
Definition FSTFLAGS_ATIM : Z := 1.
Definition FSTFLAGS_ATIM_NOW : Z := 2.
Definition FSTFLAGS_MTIM : Z := 4.
Definition FSTFLAGS_MTIM_NOW : Z := 8.
Definition FSTFLAGS_ALL : Z := 15.

Definition EVENTTYPE_CLOCK : Z := 0.
Definition EVENTTYPE_FD_READ : Z := 1.
Definition EVENTTYPE_FD_WRITE : Z := 2.
Definition CLOCKID_REALTIME : Z := 0.
Definition CLOCKID_MONOTONIC : Z := 1.
Definition CLOCK_RESOLUTION_NANOS : Z := 1000000.
Definition SUBCLOCKFLAGS_SUBSCRIPTION_CLOCK_ABSTIME : Z := 1.
Definition SUBSCRIPTION_SIZE : Z := 48.
Definition EVENT_SIZE : Z := 32.
Definition RIGHTS_FD_READ : Z := 2.
Definition RIGHTS_FD_WRITE : Z := 64.
Definition WHENCE_SET : Z := 0.
Definition WHENCE_CUR : Z := 1.
Definition WHENCE_END : Z := 2.
Definition WASI_DIRENT_HEAD_SIZE : Z := 24.

(** ** Errors, paths and records *)

Definition errno_from_error (err : Error) : Z :=
  match error_kind err with
  | NotFound => ERRNO_NOENT
  | AlreadyExists => ERRNO_EXIST
  | Invalid | UnexpectedEof => ERRNO_INVAL
  | PermissionDenied => ERRNO_PERM
  | NotSupported => ERRNO_NOTSUP
  | NotDir => ERRNO_NOTDIR
  | IsDir => ERRNO_ISDIR
  | Closed => ERRNO_BADF
  | NotEmpty => ERRNO_NOTEMPTY
  | Other => ERRNO_IO
  end.

Definition errno_from_fd_lookup_error (err : Error) : Z :=
  if kind_is Invalid err then ERRNO_BADF else errno_from_error err.

Definition wasmi_error (err : string) : Error := EMessage ("wasi execution failed: " +:+ err).

Definition normalize_task_path (path : string) : string :=
  let trimmed := trim path in
  if is_empty_str trimmed || bool_decide (trimmed = "/") then "."
  else clean_path (trim_start_char "/" trimmed).

Definition join_wasi_path (base rel : string) : string :=
  let rel := trim_start_char "/" rel in
  let rel := clean_path rel in
  let base := normalize_task_path base in
  if decide (base = ".") then rel
  else if decide (rel = ".") then base
  else clean_path (base +:+ "/" +:+ rel).

Definition preopen_guest_path (path : string) : string :=
  if decide (normalize_task_path path = ".") then "/"
  else "/" +:+ normalize_task_path path.

Definition parent_wasi_path (path : string) : string :=
  let path := normalize_task_path path in
  if decide (path = ".") then path
  else
    match rsplit_once "/" path with
    | Some (parent, _) => if is_empty_str parent then "." else parent
    | None => "."
    end.

(** The first four parts of a path, as [parts.next()] gives them. *)
Definition net_listener_id_from_path (path : string) : option string :=
  match split_on "/" (clean_path path) with
  | [net; id; listen] =>
      if bool_decide (net = "#net") && bool_decide (listen = "listen") && negb (is_empty_str id)
      then Some id else None
  | _ => None
  end.

Definition net_data_ctl_path (path : string) : option string :=
  match split_on "/" (clean_path path) with
  | [net; id; data] =>
      if bool_decide (net = "#net") && bool_decide (data = "data") && negb (is_empty_str id)
      then Some ("#net/" +:+ id +:+ "/ctl") else None
  | _ => None
  end.

Definition open_flags (oflags fdflags rights_base : Z) : Z :=
  let writes := negb (Z.land rights_base RIGHTS_FD_WRITE =? 0) in
  let flags := if writes then OpenFlags.RDWR else OpenFlags.RDONLY in
  let flags := if (Z.land rights_base RIGHTS_FD_READ =? 0) && writes then OpenFlags.WRONLY else flags in
  let flags := if negb (Z.land oflags OFLAGS_CREATE =? 0) then Z.lor flags OpenFlags.CREATE else flags in
  let flags := if negb (Z.land oflags OFLAGS_TRUNCATE =? 0) then Z.lor flags OpenFlags.TRUNC else flags in
  if negb (Z.land fdflags FDFLAGS_APPEND =? 0) then Z.lor flags OpenFlags.APPEND else flags.

Definition filetype (mode : Z) : Z :=
  if FileMode.is_dir mode then FILETYPE_DIRECTORY
  else if FileMode.is_symlink mode then FILETYPE_SYMBOLIC_LINK
  else if FileMode.contains mode FileMode.DEVICE then FILETYPE_CHARACTER_DEVICE
  else if FileMode.type_bits mode =? FileMode.empty then FILETYPE_REGULAR_FILE
  else FILETYPE_UNKNOWN.

Definition render_env (env : list EnvironmentEntry) : list string :=
  (λ e, env_name e +:+ "=" +:+ env_value e) <$> env.

Definition dirent_new (d_next d_ino d_type : Z) (name : string) : WasiDirentRecord :=
  mkDirent d_next d_ino d_type (bytes_of name).

Definition head_bytes (e : WasiDirentRecord) : list byte :=
  le_bytes 8 (wd_next e) ++ le_bytes 8 (wd_ino e) ++ le_bytes 4 (as_u32 (blen (wd_name e)))
  ++ [byte_of_Z (wd_type e)] ++ repeat x00 3.

(** [(index as u8).wrapping_mul(31).wrapping_add(17)] *)
Definition random_byte (index : nat) : byte :=
  byte_of_Z ((Z.of_nat index mod 256 * 31 + 17) mod 256).

(** The time to set, if the flags ask for one; [now] is the clock when it is read. *)
Definition wasi_mtime_from_flags {S} (now : Eff Z S Z) (atim mtim flags : Z) : Eff Z S (option Z) :=
  guard_err (negb (Z.land flags (Z.lnot FSTFLAGS_ALL) =? 0)) ERRNO_INVAL ;;
  guard_err (negb (Z.land flags FSTFLAGS_ATIM =? 0) && negb (Z.land flags FSTFLAGS_ATIM_NOW =? 0))
    ERRNO_INVAL ;;
  guard_err (negb (Z.land flags FSTFLAGS_MTIM =? 0) && negb (Z.land flags FSTFLAGS_MTIM_NOW =? 0))
    ERRNO_INVAL ;;
  guard_err (negb (Z.land flags FSTFLAGS_ATIM =? 0) && (atim <? 0)) ERRNO_INVAL ;;
  if negb (Z.land flags FSTFLAGS_MTIM_NOW =? 0) then t ← now; mret (Some t)
  else if negb (Z.land flags FSTFLAGS_MTIM =? 0) then
    guard_err (mtim <? 0) ERRNO_INVAL ;; mret (Some mtim)
  else mret None.

(** ** Handles *)

Section Handles.
Context {W H : Type} `{!FileHandle W H}.

Definition sync_ignoring_unsupported : M (H * W) unit :=
  r ← attempt fh_sync;
  match r with
  | Ok _ => mret tt
  | Err err => if kind_is NotSupported err then mret tt else throw err
  | Panic => panic
  | NoFuel => no_fuel
  end.

(** [op] with the offset of the handle put back, when the handle has one. *)
Definition with_preserved_offset {T} (op : M (H * W) T) : M (H * W) T :=
  original ← attempt (fh_seek (SeekCurrent 0));
  result ← attempt op;
  match original with
  | Ok original =>
      sought ← attempt (fh_seek (SeekStart original));
      match sought with
      | Err err => if is_Ok result then throw err else lift result
      | _ => lift result
      end
  | _ => lift result
  end.

(** The closures of [fd_write] and of [fd_pwrite]. *)
Definition write_and_sync (data : list byte) : M (H * W) Z :=
  n ← fh_write data; sync_ignoring_unsupported ;; mret n.

Definition pwrite_and_sync (data : list byte) (offset : Z) : M (H * W) Z :=
  with_preserved_offset (n ← fh_write_at data offset; sync_ignoring_unsupported ;; mret n).

(** The closure of [fd_allocate]. *)
Definition extend_to (fin : Z) : M (H * W) unit :=
  meta ← fh_stat;
  if m_size meta <? fin then
    with_preserved_offset (fh_write_at [x00] (fin - 1) ;; sync_ignoring_unsupported)
  else mret tt.
End Handles.
End Wasi.
