(* ===== verification/WasiHost.v ===== *)
(** * star9-runtime: the functions of the WASI host

    The functions that [add_wasi_imports] of [crates/star9-runtime/src/wasi.rs] links, in
    the order of the source, the table itself and [WasmiWasiHandler].  [fsys] are the
    namespaces as filesystems, [default_hash] the hash of [DefaultHasher], which the
    standard library leaves open. *)

From stdpp Require Import base list numbers option strings pretty.
From Stdlib Require Import ZArith Lia Ascii.
From S2P Require Import Prelude Strs RcText BTree Core FsTrait Vfs Field P9Codec Task Proto WasiMem Wasi.

Local Open Scope Z_scope.
Import WasiMem Wasi.

Module WasiHost.

Section Host.
Context {W H : Type} `{!HasTasks W H} `{!FileHandle W H}.
Context (fsys : nat → FileSystem W H) (default_hash : string → Z) (wasi : WasiState).
Local Abbreviation C := (Caller W).
Local Abbreviation Host := (Eff Z C).
Local Abbreviation task := (ws_task wasi).

(** ** Calls on the world *)

(** [m.map_err(to_errno)?] *)
Definition world_call {A} (to_errno : Error → Z) (m : M W A) : Host A := λ c,
  let '(r, w) := m (ca_world c) in
  (match r with
   | Ok a => Ok a
   | Err e => Err (to_errno e)
   | Panic => Panic
   | NoFuel => NoFuel
   end, mkCaller (ca_memory c) w (ca_clock c) (ca_slept c)).

Definition call {A} (m : M W A) : Host A := world_call errno_from_error m.

Definition with_fd {A} (fd : Z) (f : M (H * W) A) : Host A :=
  call (Task.with_fd_mut task (as_u32 fd) f).

Definition fd_path (fd : Z) : Host string := call (Task.fd_path task (as_u32 fd)).

(** A method of [task.namespace()]. *)
Definition in_namespace {A} (f : FileSystem W H → M W A) : M W A :=
  ns ← Task.namespace task; f (fsys ns).

Definition namespace {A} (f : FileSystem W H → M W A) : Host A := call (in_namespace f).

(** [SystemTime::now()], in nanoseconds since the epoch *)
Definition system_time : Host Z := λ c,
  (Ok (ca_clock c 0%nat), mkCaller (ca_memory c) (ca_world c) (λ n, ca_clock c (S n)) (ca_slept c)).

Definition sleep (nanos : Z) : Host unit := λ c,
  (Ok tt, mkCaller (ca_memory c) (ca_world c) (ca_clock c) (ca_slept c ++ [nanos])).

Definition validate_wasi_clock (clock_id : Z) : Host unit :=
  if bool_decide (clock_id ∈ [CLOCKID_REALTIME; CLOCKID_MONOTONIC]) then mret tt
  else throw ERRNO_INVAL.

Definition wasi_clock_now_nanos (clock_id : Z) : Host Z :=
  validate_wasi_clock clock_id ;;
  t ← system_time;
  mret (Z.min (Z.max 0 t) U64_MAX).

Definition read_wasi_path (fd path_ptr path_len : Z) : Host string :=
  rel ← read_string path_ptr path_len;
  base ← fd_path fd;
  mret (join_wasi_path base rel).

(** ** Records in the memory of the guest *)

Definition write_event (ptr userdata event_type nbytes : Z) : Eff unit C unit :=
  write_u64 ptr userdata ;;
  p ← i32_trap (ptr + 8);
  write_u16 p ERRNO_SUCCESS ;;
  p ← i32_trap (ptr + 10);
  write_bytes p [byte_of_Z event_type] ;;
  if bool_decide (event_type ∈ [EVENTTYPE_FD_READ; EVENTTYPE_FD_WRITE]) then
    p ← i32_trap (ptr + 16);
    write_u64 p nbytes ;;
    p ← i32_trap (ptr + 24);
    write_u16 p 0
  else mret tt.

Definition write_fdstat (ptr mode : Z) : Eff unit C unit :=
  write_bytes ptr [byte_of_Z (filetype mode); x00] ;;
  p ← i32_trap (ptr + 2);
  write_u16 p 0 ;;
  p ← i32_trap (ptr + 8);
  write_u64 p U64_MAX ;;
  p ← i32_trap (ptr + 16);
  write_u64 p U64_MAX.

Definition write_filestat (ptr mode size : Z) : Eff unit C unit :=
  write_u64 ptr 0 ;;
  p ← i32_trap (ptr + 8);
  write_u64 p 0 ;;
  p ← i32_trap (ptr + 16);
  write_bytes p [byte_of_Z (filetype mode)] ;;
  p ← i32_trap (ptr + 24);
  write_u64 p 1 ;;
  p ← i32_trap (ptr + 32);
  write_u64 p size ;;
  p ← i32_trap (ptr + 40);
  write_u64 p 0 ;;
  p ← i32_trap (ptr + 48);
  write_u64 p 0 ;;
  p ← i32_trap (ptr + 56);
  write_u64 p 0.

(** ** Arguments, environment, process *)

Definition args_sizes_get (count_ptr size_ptr : Z) : Host unit :=
  let size := strings_size (ws_args wasi) in
  inval (write_u32 count_ptr (as_u32 (Z.of_nat (length (ws_args wasi)))) ;;
         write_u32 size_ptr (as_u32 size)).

Definition args_get (argv_ptr argv_buf_ptr : Z) : Host unit :=
  inval (write_string_array argv_ptr argv_buf_ptr (ws_args wasi)).

Definition environ_sizes_get (count_ptr size_ptr : Z) : Host unit :=
  let rendered := render_env (ws_env wasi) in
  let size := strings_size rendered in
  inval (write_u32 count_ptr (as_u32 (Z.of_nat (length rendered))) ;;
         write_u32 size_ptr (as_u32 size)).

Definition environ_get (env_ptr env_buf_ptr : Z) : Host unit :=
  inval (write_string_array env_ptr env_buf_ptr (render_env (ws_env wasi))).

Definition proc_raise (sig : Z) : Host unit := throw ERRNO_NOTSUP.

Definition sched_yield : Host unit := mret tt.

(** ** [poll_oneoff] *)

Definition poll_clock (subscription event userdata : Z) : Host unit :=
  p ← i32_trap (subscription + 16);
  clock_id ← inval (read_u32 p);
  p ← i32_trap (subscription + 24);
  timeout ← inval (read_u64 p);
  p ← i32_trap (subscription + 36);
  flags ← inval (read_u16 p);
  guard_err (negb (Z.land flags (U16_MAX - SUBCLOCKFLAGS_SUBSCRIPTION_CLOCK_ABSTIME) =? 0)) ERRNO_INVAL ;;
  now ← wasi_clock_now_nanos clock_id;
  let sleep_nanos :=
    if negb (Z.land flags SUBCLOCKFLAGS_SUBSCRIPTION_CLOCK_ABSTIME =? 0) then Z.max 0 (timeout - now)
    else timeout in
  (if 0 <? sleep_nanos then sleep sleep_nanos else mret tt) ;;
  inval (write_event event userdata EVENTTYPE_CLOCK 0).

Definition poll_fd (subscription event userdata event_type : Z) : Host unit :=
  p ← i32_trap (subscription + 16);
  fd ← inval (read_u32 p);
  nbytes ← (if event_type =? EVENTTYPE_FD_READ
            then meta ← with_fd fd fh_stat; mret (m_size meta)
            else fd_path fd ;; mret 2147483648);
  inval (write_event event userdata event_type nbytes).

(** One turn of the loop. *)
Definition poll_one (in_ptr out_ptr index : Z) : Host unit :=
  subscription ← ok_or (checked_i32 (in_ptr + saturating_i32 (index * SUBSCRIPTION_SIZE))) ERRNO_INVAL;
  event ← ok_or (checked_i32 (out_ptr + saturating_i32 (index * EVENT_SIZE))) ERRNO_INVAL;
  userdata ← inval (read_u64 subscription);
  p ← i32_trap (subscription + 8);
  event_type ← inval (read_u8 p);
  if event_type =? EVENTTYPE_CLOCK then poll_clock subscription event userdata
  else if bool_decide (event_type ∈ [EVENTTYPE_FD_READ; EVENTTYPE_FD_WRITE]) then
    poll_fd subscription event userdata event_type
  else throw ERRNO_NOTSUP.

Definition poll_oneoff (in_ptr out_ptr nsubscriptions nevents_ptr : Z) : Host unit :=
  guard_err (nsubscriptions <=? 0) ERRNO_INVAL ;;
  for_each (λ index : nat, poll_one in_ptr out_ptr (Z.of_nat index)) (seq 0 (Z.to_nat nsubscriptions)) ;;
  inval (write_u32 nevents_ptr (as_u32 nsubscriptions)).

(** ** Reading and writing descriptors *)

Definition fd_write (fd iovs_ptr iovs_len nwritten_ptr : Z) : Host unit :=
  buffers ← read_iovs iovs_ptr iovs_len;
  written ← fold_eff (λ written data,
    n ← with_fd fd (write_and_sync data);
    mret (saturating_u32 (written + as_u32 n))) 0 buffers;
  inval (write_u32 nwritten_ptr written).

(** [vec![0_u8; len as usize]] *)
Definition alloc_buffer (len : Z) : Host unit :=
  if ISIZE_MAX <? as_usize len then panic else mret tt.

Fixpoint read_scattered (read : Z → Z → Host (list byte)) (total offset : Z) (iovs : list (Z * Z))
    : Host Z :=
  match iovs with
  | [] => mret total
  | (ptr, len) :: iovs =>
      alloc_buffer len ;;
      bytes ← read (as_usize len) offset;
      let n := blen bytes in
      (* [&buf[..n]] *)
      (if as_usize len <? n then panic else inval (write_bytes ptr bytes)) ;;
      let total := saturating_u32 (total + as_u32 n) in
      let offset := saturating_u64 (offset + n) in
      if n <? as_usize len then mret total else read_scattered read total offset iovs
  end.

Definition fd_read (fd iovs_ptr iovs_len nread_ptr : Z) : Host unit :=
  iovs ← read_iov_descriptors iovs_ptr iovs_len;
  total ← read_scattered (λ len _, with_fd fd (fh_read len)) 0 0 iovs;
  inval (write_u32 nread_ptr total).

Definition fd_advise (fd offset len advice : Z) : Host unit :=
  guard_err ((offset <? 0) || (len <? 0)) ERRNO_INVAL ;;
  fd_path fd ;; mret tt.

Fixpoint write_scattered (fd written current_offset : Z) (buffers : list (list byte)) : Host Z :=
  match buffers with
  | [] => mret written
  | data :: buffers =>
      n ← with_fd fd (pwrite_and_sync data current_offset);
      let written := saturating_u32 (written + as_u32 n) in
      let current_offset := saturating_u64 (current_offset + n) in
      if n <? blen data then mret written else write_scattered fd written current_offset buffers
  end.

Definition fd_pwrite (fd iovs_ptr iovs_len offset nwritten_ptr : Z) : Host unit :=
  guard_err (offset <? 0) ERRNO_INVAL ;;
  buffers ← read_iovs iovs_ptr iovs_len;
  written ← write_scattered fd 0 offset buffers;
  inval (write_u32 nwritten_ptr written).

Definition fd_pread (fd iovs_ptr iovs_len offset nread_ptr : Z) : Host unit :=
  guard_err (offset <? 0) ERRNO_INVAL ;;
  iovs ← read_iov_descriptors iovs_ptr iovs_len;
  total ← read_scattered (λ len current_offset,
    with_fd fd (with_preserved_offset (fh_read_at len current_offset))) 0 offset iovs;
  inval (write_u32 nread_ptr total).

Definition fd_close (fd : Z) : Host unit := call (Task.close_fd task (as_u32 fd)).

Definition fd_renumber (fd to : Z) : Host unit := call (Task.renumber_fd task (as_u32 fd) (as_u32 to)).

Definition fd_seek (fd offset whence new_offset_ptr : Z) : Host unit :=
  pos ← (if (whence =? WHENCE_SET) && (0 <=? offset) then mret (SeekStart offset)
         else if whence =? WHENCE_CUR then mret (SeekCurrent offset)
         else if whence =? WHENCE_END then mret (SeekEnd offset)
         else throw ERRNO_INVAL);
  new_offset ← with_fd fd (fh_seek pos);
  inval (write_u64 new_offset_ptr new_offset).

Definition fd_tell (fd offset_ptr : Z) : Host unit :=
  offset ← with_fd fd (fh_seek (SeekCurrent 0));
  inval (write_u64 offset_ptr offset).

Definition fd_allocate (fd offset len : Z) : Host unit :=
  guard_err ((offset <? 0) || (len <? 0)) ERRNO_INVAL ;;
  let fin := offset + len in
  guard_err (U64_MAX <? fin) ERRNO_INVAL ;;
  with_fd fd (extend_to fin).

Definition fd_fdstat_get (fd stat_ptr : Z) : Host unit :=
  meta ← with_fd fd fh_stat;
  inval (write_fdstat stat_ptr (m_mode meta)).

Definition fd_fdstat_set_flags (fd flags : Z) : Host unit :=
  fd_path fd ;;
  guard_err (negb (flags =? FDFLAGS_SUPPORTED_SET)) ERRNO_NOTSUP.

Definition fd_fdstat_set_rights (fd rights_base rights_inheriting : Z) : Host unit :=
  fd_path fd ;; mret tt.

Definition fd_filestat_get (fd stat_ptr : Z) : Host unit :=
  meta ← with_fd fd fh_stat;
  inval (write_filestat stat_ptr (m_mode meta) (m_size meta)).

Definition fd_filestat_set_size (fd size : Z) : Host unit :=
  guard_err (size <? 0) ERRNO_INVAL ;;
  path ← fd_path fd;
  namespace (λ ns, fs_truncate ns path size).

Definition fd_filestat_set_times (fd atim mtim flags : Z) : Host unit :=
  mtime ← wasi_mtime_from_flags system_time atim mtim flags;
  path ← fd_path fd;
  match mtime with
  | Some mtime => namespace (λ ns, fs_chtimes ns path mtime)
  | None => mret tt
  end.

Definition fd_sync (fd : Z) : Host unit := with_fd fd sync_ignoring_unsupported.
Definition fd_datasync (fd : Z) : Host unit := with_fd fd sync_ignoring_unsupported.

(** ** Directories *)

Definition wasi_inode (path : string) : Z :=
  let hash := default_hash (normalize_task_path path) in
  if hash =? 0 then 1 else hash.

Definition wasi_readdir_entries (fd : Z) : M W (list WasiDirentRecord) :=
  path ← Task.fd_path task fd;
  meta ← in_namespace (λ ns, fs_stat ns Ctx.new path);
  guard_err (negb (Meta.is_dir meta)) (EPath "readdir" path NotDir) ;;
  let parent := parent_wasi_path path in
  entries ← in_namespace (λ ns, fs_read_dir ns Ctx.new path);
  mret (dirent_new 1 (wasi_inode path) FILETYPE_DIRECTORY "."
        :: dirent_new 2 (wasi_inode parent) FILETYPE_DIRECTORY ".."
        :: imap (λ index entry,
             dirent_new (Z.of_nat index + 3) (wasi_inode (join_wasi_path path (d_name entry)))
               (filetype (m_mode (d_metadata entry))) (d_name entry)) entries).

(** The loop over the entries: where it writes and how much it has written. *)
Fixpoint write_dirents (buf_len cursor bufused : Z) (entries : list WasiDirentRecord) : Host Z :=
  match entries with
  | [] => mret bufused
  | entry :: entries =>
      if Z.max 0 (buf_len - bufused) <? WASI_DIRENT_HEAD_SIZE then mret buf_len
      else
        inval (write_bytes cursor (head_bytes entry)) ;;
        cursor ← i32_trap (cursor + WASI_DIRENT_HEAD_SIZE);
        let bufused := bufused + WASI_DIRENT_HEAD_SIZE in
        if Z.max 0 (buf_len - bufused) <? blen (wd_name entry) then mret buf_len
        else
          inval (write_bytes cursor (wd_name entry)) ;;
          cursor ← i32_trap (cursor + as_i32 (blen (wd_name entry)));
          let bufused := bufused + blen (wd_name entry) in
          write_dirents buf_len cursor bufused entries
  end.

Definition fd_readdir (fd buf_ptr buf_len cookie bufused_ptr : Z) : Host unit :=
  guard_err ((buf_len <? 0) || (cookie <? 0)) ERRNO_INVAL ;;
  entries ← call (wasi_readdir_entries (as_u32 fd));
  bufused ← write_dirents buf_len buf_ptr 0 (drop (Z.to_nat cookie) entries);
  inval (write_u32 bufused_ptr (as_u32 bufused)).

Definition fd_prestat_get (fd prestat_ptr : Z) : Host unit :=
  path ← fd_path fd;
  let guest := preopen_guest_path path in
  inval (write_bytes prestat_ptr [x00; x00; x00; x00] ;;
         p ← i32_trap (prestat_ptr + 4);
         write_u32 p (as_u32 (blen (bytes_of guest)))).

Definition fd_prestat_dir_name (fd path_ptr path_len : Z) : Host unit :=
  path ← fd_path fd;
  let bytes := bytes_of (preopen_guest_path path) in
  guard_err (as_usize path_len <? blen bytes) ERRNO_INVAL ;;
  inval (write_bytes path_ptr bytes).

(** ** Paths *)

Definition path_open (fd dirflags path_ptr path_len oflags rights_base rights_inheriting fdflags
    opened_fd_ptr : Z) : Host unit :=
  path ← read_wasi_path fd path_ptr path_len;
  file ← (if negb (Z.land oflags OFLAGS_DIRECTORY =? 0)
          then namespace (λ ns, fs_open ns Ctx.new path)
          else namespace (λ ns, fs_open_file ns path (open_flags oflags fdflags rights_base)
                                  (FileMode.from_perm 438)));
  opened_fd ← call (Task.open_fd task file path);
  inval (write_u32 opened_fd_ptr opened_fd).

Definition path_create_directory (fd path_ptr path_len : Z) : Host unit :=
  path ← read_wasi_path fd path_ptr path_len;
  namespace (λ ns, fs_mkdir ns path (Z.lor FileMode.DIR (FileMode.from_perm 493))).

Definition path_filestat_get (fd flags path_ptr path_len stat_ptr : Z) : Host unit :=
  path ← read_wasi_path fd path_ptr path_len;
  meta ← namespace (λ ns, fs_stat ns Ctx.new path);
  inval (write_filestat stat_ptr (m_mode meta) (m_size meta)).

Definition path_filestat_set_times (fd flags path_ptr path_len atim mtim fst_flags : Z) : Host unit :=
  mtime ← wasi_mtime_from_flags system_time atim mtim fst_flags;
  path ← read_wasi_path fd path_ptr path_len;
  match mtime with
  | Some mtime => namespace (λ ns, fs_chtimes ns path mtime)
  | None => namespace (λ ns, fs_stat ns Ctx.new path) ;; mret tt
  end.

(** The path that [path_link] links: with [LOOKUPFLAGS_SYMLINK_FOLLOW] what a symbolic
    link leads to. *)
Definition link_source (old_flags : Z) (old_path : string) : Host string :=
  if negb (Z.land old_flags LOOKUPFLAGS_SYMLINK_FOLLOW =? 0) then
    meta ← namespace (λ ns, fs_lstat ns Ctx.new old_path);
    if FileMode.is_symlink (m_mode meta) then
      target ← namespace (λ ns, fs_readlink ns old_path);
      mret (if starts_with_char "/" target then clean_path (trim_start_char "/" target)
            else clean_path (parent_wasi_path old_path +:+ "/" +:+ target))
    else mret old_path
  else mret old_path.

Definition path_link (old_fd old_flags old_path_ptr old_path_len new_fd new_path_ptr new_path_len : Z)
    : Host unit :=
  guard_err (negb (Z.land old_flags (Z.lnot LOOKUPFLAGS_SYMLINK_FOLLOW) =? 0)) ERRNO_INVAL ;;
  old_path ← read_wasi_path old_fd old_path_ptr old_path_len;
  new_path ← read_wasi_path new_fd new_path_ptr new_path_len;
  old_path ← link_source old_flags old_path;
  namespace (λ ns, fs_link ns old_path new_path).

Definition path_unlink_file (fd path_ptr path_len : Z) : Host unit :=
  path ← read_wasi_path fd path_ptr path_len;
  meta ← namespace (λ ns, fs_lstat ns Ctx.new path);
  guard_err (Meta.is_dir meta) ERRNO_ISDIR ;;
  namespace (λ ns, fs_remove ns path).

Definition path_remove_directory (fd path_ptr path_len : Z) : Host unit :=
  path ← read_wasi_path fd path_ptr path_len;
  meta ← namespace (λ ns, fs_lstat ns Ctx.new path);
  guard_err (negb (Meta.is_dir meta)) ERRNO_NOTDIR ;;
  entries ← namespace (λ ns, fs_read_dir ns Ctx.new path);
  guard_err (negb (bool_decide (entries = []))) (errno_from_error (EKind NotEmpty)) ;;
  namespace (λ ns, fs_remove ns path).

Definition path_rename (old_fd old_path_ptr old_path_len new_fd new_path_ptr new_path_len : Z)
    : Host unit :=
  old_path ← read_wasi_path old_fd old_path_ptr old_path_len;
  new_path ← read_wasi_path new_fd new_path_ptr new_path_len;
  namespace (λ ns, fs_rename ns old_path new_path).

Definition path_symlink (old_path_ptr old_path_len fd new_path_ptr new_path_len : Z) : Host unit :=
  old_path ← read_string old_path_ptr old_path_len;
  new_path ← read_wasi_path fd new_path_ptr new_path_len;
  namespace (λ ns, fs_symlink ns old_path new_path).

Definition path_readlink (fd path_ptr path_len buf_ptr buf_len used_ptr : Z) : Host unit :=
  guard_err (buf_len <? 0) ERRNO_INVAL ;;
  path ← read_wasi_path fd path_ptr path_len;
  target ← namespace (λ ns, fs_readlink ns path);
  let bytes := bytes_of target in
  let copied := Z.min (blen bytes) buf_len in
  inval (write_bytes buf_ptr (take (Z.to_nat copied) bytes) ;;
         write_u32 used_ptr (as_u32 copied)).

(** ** Random bytes and clocks *)

Definition random_get (buf_ptr buf_len : Z) : Host unit :=
  guard_err (buf_len <? 0) ERRNO_INVAL ;;
  inval (write_bytes buf_ptr (random_byte <$> seq 0 (Z.to_nat buf_len))).

Definition clock_res_get (clock_id resolution_ptr : Z) : Host unit :=
  guard_err (clock_id <? 0) ERRNO_INVAL ;;
  validate_wasi_clock clock_id ;;
  inval (write_u64 resolution_ptr CLOCK_RESOLUTION_NANOS).

Definition clock_time_get (clock_id precision time_ptr : Z) : Host unit :=
  guard_err (clock_id <? 0) ERRNO_INVAL ;;
  nanos ← wasi_clock_now_nanos clock_id;
  inval (write_u64 time_ptr nanos).

(** ** Sockets *)

Definition fd_path_lookup (fd : Z) : Host string :=
  world_call errno_from_fd_lookup_error (Task.fd_path task (as_u32 fd)).

Definition sock_accept (fd flags fd_ptr : Z) : Host unit :=
  path ← fd_path_lookup fd;
  ok_or (net_listener_id_from_path path) ERRNO_NOTSUP ;;
  accepted ← with_fd fd (fh_read 64);
  guard_err (bool_decide (accepted = [])) ERRNO_AGAIN ;;
  accepted ← ok_or (from_utf8 accepted) ERRNO_INVAL;
  let accepted_id := trim accepted in
  guard_err (is_empty_str accepted_id) ERRNO_AGAIN ;;
  let data_path := "#net/" +:+ accepted_id +:+ "/data" in
  file ← namespace (λ ns, fs_open ns Ctx.new data_path);
  accepted_fd ← call (Task.open_fd task file data_path);
  inval (write_u32 fd_ptr accepted_fd).

Definition sock_recv (fd ri_data ri_data_len ri_flags ro_datalen ro_flags : Z) : Host unit :=
  guard_err (negb (ri_flags =? 0)) ERRNO_NOTSUP ;;
  fd_path_lookup fd ;;
  inval (write_u16 ro_flags 0) ;;
  fd_read fd ri_data ri_data_len ro_datalen.

Definition sock_send (fd si_data si_data_len si_flags so_datalen : Z) : Host unit :=
  guard_err (negb (si_flags =? 0)) ERRNO_NOTSUP ;;
  fd_path_lookup fd ;;
  fd_write fd si_data si_data_len so_datalen.

(** The control file of the connection gets [hangup]; its [close] is not looked at. *)
Definition hang_up (ctl_path : string) : Host unit :=
  ctl ← namespace (λ ns, fs_open ns Ctx.new ctl_path);
  '(_, ctl) ← call (with_handle ctl (fh_write (bytes_of ("hangup" +:+ String NEWLINE ""))));
  call (on_handle ctl fh_close) ;; mret tt.

Definition sock_shutdown (fd how : Z) : Host unit :=
  guard_err (negb ((0 <=? how) && (how <=? 2))) ERRNO_INVAL ;;
  path ← fd_path_lookup fd;
  match net_data_ctl_path path with
  | Some ctl_path => hang_up ctl_path
  | None => mret tt
  end.

(** ** The table of imports *)

Inductive Val := I32 (z : Z) | I64 (z : Z).

(** What a host function answers: an errno, or the end of the process. *)
Inductive Answer := Returned (errno : Z) | Exited (code : Z).

Definition returned (m : Host unit) : Eff Error C Answer := λ c,
  match m c with
  | (Ok _, c) => (Ok (Returned ERRNO_SUCCESS), c)
  | (Err errno, c) => (Ok (Returned errno), c)
  | (Panic, c) => (Panic, c)
  | (NoFuel, c) => (NoFuel, c)
  end.

Definition proc_exit (code : Z) : Eff Error C Answer := mret (Exited code).

(** A host function by the types of its arguments; the engine calls it with values of
    these types only. *)
Definition HostFunc := list Val → option (Eff Error C Answer).

Definition func1 (f : Z → Host unit) : HostFunc := λ args,
  match args with [I32 a] => Some (returned (f a)) | _ => None end.
Definition func2 (f : Z → Z → Host unit) : HostFunc := λ args,
  match args with [I32 a; I32 b] => Some (returned (f a b)) | _ => None end.
Definition func3 (f : Z → Z → Z → Host unit) : HostFunc := λ args,
  match args with [I32 a; I32 b; I32 c] => Some (returned (f a b c)) | _ => None end.
Definition func4 (f : Z → Z → Z → Z → Host unit) : HostFunc := λ args,
  match args with [I32 a; I32 b; I32 c; I32 d] => Some (returned (f a b c d)) | _ => None end.
Definition func5 (f : Z → Z → Z → Z → Z → Host unit) : HostFunc := λ args,
  match args with
  | [I32 a; I32 b; I32 c; I32 d; I32 e] => Some (returned (f a b c d e)) | _ => None end.
Definition func6 (f : Z → Z → Z → Z → Z → Z → Host unit) : HostFunc := λ args,
  match args with
  | [I32 a; I32 b; I32 c; I32 d; I32 e; I32 g] => Some (returned (f a b c d e g)) | _ => None end.

Definition add_wasi_imports : list (string * HostFunc) := [
  ("args_sizes_get", func2 args_sizes_get);
  ("args_get", func2 args_get);
  ("environ_sizes_get", func2 environ_sizes_get);
  ("environ_get", func2 environ_get);
  ("proc_exit", λ args, match args with [I32 code] => Some (proc_exit code) | _ => None end);
  ("proc_raise", func1 proc_raise);
  ("sched_yield", λ args, match args with [] => Some (returned sched_yield) | _ => None end);
  ("poll_oneoff", func4 poll_oneoff);
  ("sock_accept", func3 sock_accept);
  ("sock_recv", func6 sock_recv);
  ("sock_send", func5 sock_send);
  ("sock_shutdown", func2 sock_shutdown);
  ("fd_write", func4 fd_write);
  ("fd_read", func4 fd_read);
  ("fd_advise", λ args, match args with
    | [I32 a; I64 b; I64 c; I32 d] => Some (returned (fd_advise a b c d)) | _ => None end);
  ("fd_pwrite", λ args, match args with
    | [I32 a; I32 b; I32 c; I64 d; I32 e] => Some (returned (fd_pwrite a b c d e)) | _ => None end);
  ("fd_pread", λ args, match args with
    | [I32 a; I32 b; I32 c; I64 d; I32 e] => Some (returned (fd_pread a b c d e)) | _ => None end);
  ("fd_close", func1 fd_close);
  ("fd_renumber", func2 fd_renumber);
  ("fd_seek", λ args, match args with
    | [I32 a; I64 b; I32 c; I32 d] => Some (returned (fd_seek a b c d)) | _ => None end);
  ("fd_tell", func2 fd_tell);
  ("fd_allocate", λ args, match args with
    | [I32 a; I64 b; I64 c] => Some (returned (fd_allocate a b c)) | _ => None end);
  ("fd_fdstat_get", func2 fd_fdstat_get);
  ("fd_fdstat_set_flags", func2 fd_fdstat_set_flags);
  ("fd_fdstat_set_rights", λ args, match args with
    | [I32 a; I64 b; I64 c] => Some (returned (fd_fdstat_set_rights a b c)) | _ => None end);
  ("fd_filestat_get", func2 fd_filestat_get);
  ("fd_filestat_set_size", λ args, match args with
    | [I32 a; I64 b] => Some (returned (fd_filestat_set_size a b)) | _ => None end);
  ("fd_filestat_set_times", λ args, match args with
    | [I32 a; I64 b; I64 c; I32 d] => Some (returned (fd_filestat_set_times a b c d)) | _ => None end);
  ("fd_prestat_get", func2 fd_prestat_get);
  ("fd_prestat_dir_name", func3 fd_prestat_dir_name);
  ("fd_sync", func1 fd_sync);
  ("fd_datasync", func1 fd_datasync);
  ("fd_readdir", λ args, match args with
    | [I32 a; I32 b; I32 c; I64 d; I32 e] => Some (returned (fd_readdir a b c d e)) | _ => None end);
  ("path_open", λ args, match args with
    | [I32 a; I32 b; I32 c; I32 d; I32 e; I64 f; I64 g; I32 h; I32 i] =>
        Some (returned (path_open a b c d e f g h i)) | _ => None end);
  ("path_create_directory", func3 path_create_directory);
  ("path_filestat_get", func5 path_filestat_get);
  ("path_filestat_set_times", λ args, match args with
    | [I32 a; I32 b; I32 c; I32 d; I64 e; I64 f; I32 g] =>
        Some (returned (path_filestat_set_times a b c d e f g)) | _ => None end);
  ("path_link", λ args, match args with
    | [I32 a; I32 b; I32 c; I32 d; I32 e; I32 f; I32 g] =>
        Some (returned (path_link a b c d e f g)) | _ => None end);
  ("path_unlink_file", func3 path_unlink_file);
  ("path_remove_directory", func3 path_remove_directory);
  ("path_rename", func6 path_rename);
  ("path_symlink", func5 path_symlink);
  ("path_readlink", func6 path_readlink);
  ("random_get", func2 random_get);
  ("clock_res_get", func2 clock_res_get);
  ("clock_time_get", λ args, match args with
    | [I32 a; I64 b; I32 c] => Some (returned (clock_time_get a b c)) | _ => None end)
].

Definition host_call (name : string) (args : list Val) : option (Eff Error C Answer) :=
  '(_, f) ← list_find (λ kv, kv.1 = name) add_wasi_imports;
  f.2 args.
End Host.

(** ** Running a module *)

(** What a started module does. *)
Inductive Guest :=
| GReturn
| GTrap (message : string)
| GLoad (next : option (list byte) → Guest)
| GStore (data : list byte) (next : Guest)
| GCall (name : string) (args : list Val) (next : Z → Guest).

Record WasmModule := mkWasmModule { wm_memory : option (list byte); wm_start : Guest }.

Section Execution.
Context {W H : Type} `{!HasTasks W H} `{!FileHandle W H}.
Context (fsys : nat → FileSystem W H) (default_hash : string → Z).
(** The engine: a module is compiled, linked to the names of the table and instantiated,
    or refused with a message. *)
Context (wasm : list string → list byte → Outcome string WasmModule).
Context (clock : nat → Z) (fuel : nat).

Fixpoint run_guest (wasi : WasiState) (g : Guest) : Eff Error (Caller W) ExitStatus :=
  match g with
  | GReturn => mret (ExitCode 0)
  | GTrap message => throw (wasmi_error message)
  | GLoad next => λ c, run_guest wasi (next (ca_memory c)) c
  | GStore data next => λ c,
      run_guest wasi next (mkCaller (Some data) (ca_world c) (ca_clock c) (ca_slept c))
  | GCall name args next =>
      match host_call fsys default_hash wasi name args with
      | None => throw (wasmi_error name)
      | Some f =>
          answer ← f;
          match answer with
          | Returned errno => run_guest wasi (next errno)
          | Exited code => mret (ExitCode code)
          end
      end
  end.

Definition ensure_default_preopen (task : nat) : M W unit :=
  r ← attempt (Task.fd_path task 3);
  match r with
  | Ok _ => mret tt
  | _ =>
      d ← Task.dir task;
      let dir := normalize_task_path d in
      file ← in_namespace fsys (mkWasiState task [] []) (λ ns, fs_open ns Ctx.new dir);
      Task.set_fd task 3 file dir
  end.

Definition resolve_module_path (task : nat) (module : string) : M W string :=
  if starts_with_char "/" module then mret (clean_path (trim_start_char "/" module))
  else d ← Task.dir task; mret (join_wasi_path d module).

Definition read_module (task : nat) (path : string) : M W (list byte) :=
  ns ← Task.namespace task; read_file (fsys ns) fuel path.

Definition run_module (wasi : WasiState) (m : WasmModule) : M W ExitStatus := λ w,
  let '(r, c) := run_guest wasi (wm_start m) (mkCaller (wm_memory m) w clock []) in
  (r, ca_world c).

Definition execute (task : nat) (spec : ExecutionSpec) : M W ExitStatus :=
  ensure_default_preopen task ;;
  module_path ← resolve_module_path task (sp_module spec);
  r ← attempt (read_module task module_path);
  module_bytes ← (match r with
    | Err err =>
        if decide (module_path = sp_module spec) then throw err
        else read_module task (sp_module spec)
    | r => lift r
    end : M W (list byte));
  match wasm (add_wasi_imports fsys default_hash (mkWasiState task [] [])).*1 module_bytes with
  | Ok m => run_module (mkWasiState task (sp_module spec :: sp_args spec) (sp_env spec)) m
  | Err message => throw (wasmi_error message)
  | Panic => panic
  | NoFuel => no_fuel
  end.
End Execution.
End WasiHost.
