(* ===== verification/WasiFacts.v ===== *)
(** * The memory of a WASI guest: what calls leave alone, and which paths they open

    [confined rs m]: the computation [m] keeps the size of the memory and changes bytes of
    the regions [rs] only, however it ends.  The rules follow the structure of the host
    functions; [star9_wasi] is the database that applies them. *)

From stdpp Require Import base list numbers option strings.
From Stdlib Require Import ZArith Lia Ascii.
From S2P Require Import Prelude Strs RcText BTree Core FsTrait Vfs P9Codec P9CodecFacts Field Task Proto WasiMem Wasi WasiHost.

Local Open Scope Z_scope.
Import WasiMem Wasi WasiHost.

(** A region is an address and a length. *)
Abbreviation Regions := (list (Z * Z)).

Definition in_region (i : Z) (r : Z * Z) : Prop := r.1 ≤ i < r.1 + r.2.
Definition in_regions (rs : Regions) (i : Z) : Prop := Exists (in_region i) rs.

Definition same_outside (rs : Regions) (m m' : option (list byte)) : Prop :=
  match m, m' with
  | Some d, Some d' => length d' = length d ∧ ∀ i : nat, ¬ in_regions rs (Z.of_nat i) → d' !! i = d !! i
  | None, None => True
  | _, _ => False
  end.

Lemma same_outside_refl rs m : same_outside rs m m.
Proof. by destruct m. Qed.

Lemma same_outside_trans rs m1 m2 m3 :
  same_outside rs m1 m2 → same_outside rs m2 m3 → same_outside rs m1 m3.
Proof.
  destruct m1, m2, m3; cbn; try done. intros [H1 H2] [H3 H4]. split; [congruence|].
  intros i Hi. rewrite H4 by done. by apply H2.
Qed.

Lemma same_outside_weaken rs rs' m m' : (∀ i, in_regions rs i → in_regions rs' i) →
  same_outside rs m m' → same_outside rs' m m'.
Proof.
  intros Hsub. destruct m, m'; cbn; try done. intros [H1 H2]. split; [done|].
  intros i Hi. apply H2. intros Hi'. by apply Hi, Hsub.
Qed.

Section Confined.
Context {W : Type} (rs : Regions).
Local Abbreviation C := (Caller W).

Definition confined {E A} (m : Eff E C A) : Prop :=
  ∀ c, same_outside rs (ca_memory c) (ca_memory (m c).2).

(** The memory is not touched at all. *)
Definition quiet {E A} (m : Eff E C A) : Prop := ∀ c, ca_memory (m c).2 = ca_memory c.

Lemma quiet_confined {E A} (m : Eff E C A) : quiet m → confined m.
Proof. intros Hm c. rewrite Hm. apply same_outside_refl. Qed.

Lemma quiet_bind {E A B} (m : Eff E C A) (k : A → Eff E C B) :
  quiet m → (∀ a, quiet (k a)) → quiet (m ≫= k).
Proof.
  intros Hm Hk c. unfold mbind, eff_bind. specialize (Hm c).
  destruct (m c) as [[a|e| |] c']; cbn in *; try done. by rewrite Hk.
Qed.

Lemma same_outside_bind {E A B} (m : Eff E C A) (k : A → Eff E C B) c :
  same_outside rs (ca_memory c) (ca_memory (m c).2) →
  (∀ a c', m c = (Ok a, c') → same_outside rs (ca_memory c') (ca_memory (k a c').2)) →
  same_outside rs (ca_memory c) (ca_memory ((m ≫= k) c).2).
Proof.
  intros Hm Hk. unfold mbind, eff_bind. destruct (m c) as [[a|e| |] c']; cbn in *; try done.
  eapply same_outside_trans; [exact Hm|by apply Hk].
Qed.

Lemma confined_bind {E A B} (m : Eff E C A) (k : A → Eff E C B) :
  confined m → (∀ a, confined (k a)) → confined (m ≫= k).
Proof.
  intros Hm Hk c. unfold mbind, eff_bind. specialize (Hm c).
  destruct (m c) as [[a|e| |] c']; cbn in *; try done.
  eapply same_outside_trans; [exact Hm|apply Hk].
Qed.

Lemma confined_if {E A} (b : bool) (m1 m2 : Eff E C A) :
  (b = true → confined m1) → (b = false → confined m2) → confined (if b then m1 else m2).
Proof. destruct b; auto. Qed.

Lemma confined_guard {E A} (b : bool) (e : E) (k : unit → Eff E C A) :
  (b = false → confined (k tt)) → confined (guard_err b e ≫= k).
Proof.
  intros Hk c. destruct b; [apply same_outside_refl|]. by apply Hk.
Qed.

Lemma confined_trap {E A} (z : Z) (k : Z → Eff E C A) :
  (in_i32 z = true → confined (k z)) → confined (i32_trap z ≫= k).
Proof.
  unfold i32_trap. intros Hk c. destruct (in_i32 z) eqn:Hz; [by apply Hk|apply same_outside_refl].
Qed.

Lemma confined_ok_or {E A B} (o : option A) (e : E) (k : A → Eff E C B) :
  (∀ a, o = Some a → confined (k a)) → confined (ok_or o e ≫= k).
Proof. intros Hk c. destruct o as [a|]; [by apply Hk|apply same_outside_refl]. Qed.

Lemma confined_inval {A} (m : Eff unit C A) : confined m → confined (inval m).
Proof. intros Hm c. unfold inval. specialize (Hm c). by destruct (m c) as [[]]. Qed.

Lemma quiet_inval {A} (m : Eff unit C A) : quiet m → quiet (inval m).
Proof. intros Hm c. unfold inval. specialize (Hm c). by destruct (m c) as [[]]. Qed.

Lemma quiet_ret {E A} (a : A) : quiet (E:=E) (mret a).
Proof. by intros c. Qed.
Lemma quiet_throw {E A} (e : E) : quiet (A:=A) (throw e).
Proof. by intros c. Qed.
Lemma quiet_panic {E A} : quiet (E:=E) (A:=A) panic.
Proof. by intros c. Qed.
Lemma quiet_lift {E A} (r : Outcome E A) : quiet (lift r).
Proof. by intros c. Qed.
Lemma quiet_ok_or {E A} (o : option A) (e : E) : quiet (ok_or o e).
Proof. by destruct o. Qed.
Lemma quiet_guard {E} b (e : E) : quiet (guard_err b e).
Proof. by destruct b. Qed.
Lemma quiet_trap {E} z : quiet (E:=E) (i32_trap z).
Proof. unfold i32_trap. by destruct (in_i32 z). Qed.
Lemma quiet_if {E A} (b : bool) (m1 m2 : Eff E C A) :
  quiet m1 → quiet m2 → quiet (if b then m1 else m2).
Proof. by destruct b. Qed.

Lemma quiet_for_each {E A} (f : A → Eff E C unit) l : (∀ x, quiet (f x)) → quiet (for_each f l).
Proof. intros Hf. induction l as [|x l IH]; [done|]. cbn. by apply quiet_bind. Qed.

Lemma quiet_map_eff {E A B} (f : A → Eff E C B) l : (∀ x, quiet (f x)) → quiet (map_eff f l).
Proof.
  intros Hf. induction l as [|x l IH]; [done|]. cbn. apply quiet_bind; [done|]. intros y.
  by apply quiet_bind.
Qed.

Lemma quiet_fold_eff {E A B} (f : B → A → Eff E C B) l : ∀ b, (∀ b x, quiet (f b x)) → quiet (fold_eff f b l).
Proof.
  induction l as [|x l IH]; intros b Hf; [done|]. cbn. apply quiet_bind; [done|]. intros b'. by apply IH.
Qed.

Lemma quiet_memory : quiet memory.
Proof. intros c. unfold memory. by destruct (ca_memory c) eqn:E. Qed.

Lemma copy_at_length start bs data : (start + length bs ≤ length data)%nat →
  length (copy_at start bs data) = length data.
Proof.
  intros Hl. unfold copy_at. rewrite !length_app, length_take, length_drop. lia.
Qed.

Lemma copy_at_outside start bs data i : (start + length bs ≤ length data)%nat →
  (i < start ∨ start + length bs ≤ i)%nat → copy_at start bs data !! i = data !! i.
Proof.
  intros Hl Hi. unfold copy_at. destruct Hi as [Hi|Hi].
  - rewrite lookup_app_l by (rewrite length_take; lia). by rewrite lookup_take_lt.
  - rewrite lookup_app_r by (rewrite length_take; lia). rewrite length_take.
    rewrite lookup_app_r by lia. rewrite lookup_drop. f_equal. lia.
Qed.

Lemma confined_write ptr bytes :
  (∀ i, ptr ≤ i < ptr + blen bytes → in_regions rs i) → confined (write_bytes ptr bytes).
Proof.
  intros Hrs c. unfold write_bytes, guard_err, memory, set_memory. unfold_eff.
  destruct (ptr <? 0) eqn:H0; [apply same_outside_refl|]. cbn.
  destruct (ca_memory c) as [data|] eqn:Hm; cbn; [|by rewrite Hm].
  destruct (USIZE_MAX <? ptr + blen bytes) eqn:H1; [cbn; rewrite ?Hm; apply (same_outside_refl rs (Some data))|].
  cbn. destruct (blen data <? ptr + blen bytes) eqn:H2; [cbn; rewrite ?Hm; apply (same_outside_refl rs (Some data))|].
  cbn. bool_to_prop. unfold blen in *. split; [apply copy_at_length; lia|].
  intros i Hi. apply copy_at_outside; [lia|].
  destruct (decide (i < Z.to_nat ptr ∨ Z.to_nat ptr + length bytes ≤ i)%nat); [done|].
  exfalso. apply Hi, Hrs. lia.
Qed.
End Confined.

Create HintDb star9_wasi discriminated.
#[export] Hint Resolve quiet_bind quiet_inval quiet_ret quiet_throw quiet_panic quiet_lift
  quiet_ok_or quiet_guard quiet_trap quiet_if quiet_for_each quiet_map_eff quiet_fold_eff
  quiet_memory : star9_wasi.

Lemma confined_weaken {W E A} rs rs' (m : Eff E (Caller W) A) : (∀ i, in_regions rs i → in_regions rs' i) →
  confined rs m → confined rs' m.
Proof. intros Hsub Hm c. by eapply same_outside_weaken. Qed.

(** ** Functions that only read *)

Section Quiet.
Context {W : Type}.
Local Abbreviation C := (Caller W).

Lemma quiet_read_bytes ptr len : quiet (W:=W) (read_bytes ptr len).
Proof. unfold read_bytes. auto 10 with star9_wasi. Qed.

Lemma quiet_read_le n ptr : quiet (W:=W) (read_le n ptr).
Proof. unfold read_le. auto using quiet_read_bytes with star9_wasi. Qed.

Lemma quiet_read_u8 ptr : quiet (W:=W) (read_u8 ptr).
Proof. apply quiet_read_le. Qed.
Lemma quiet_read_u16 ptr : quiet (W:=W) (read_u16 ptr).
Proof. apply quiet_read_le. Qed.
Lemma quiet_read_u32 ptr : quiet (W:=W) (read_u32 ptr).
Proof. apply quiet_read_le. Qed.
Lemma quiet_read_u64 ptr : quiet (W:=W) (read_u64 ptr).
Proof. apply quiet_read_le. Qed.

Lemma quiet_read_string ptr len : quiet (W:=W) (read_string ptr len).
Proof. unfold read_string. auto 10 using quiet_read_bytes with star9_wasi. Qed.

Lemma quiet_descriptors n : ∀ index ptr, quiet (W:=W) (read_descriptors n index ptr).
Proof.
  induction n as [|n IH]; intros index ptr; cbn [read_descriptors]; [auto with star9_wasi|].
  repeat (apply quiet_bind; [auto using quiet_read_u32 with star9_wasi|intros ?]).
  auto with star9_wasi.
Qed.

Lemma quiet_iov_descriptors ptr len : quiet (W:=W) (read_iov_descriptors ptr len).
Proof. unfold read_iov_descriptors. auto using quiet_descriptors with star9_wasi. Qed.

Lemma quiet_iovs ptr len : quiet (W:=W) (read_iovs ptr len).
Proof. unfold read_iovs. auto 10 using quiet_iov_descriptors, quiet_read_bytes with star9_wasi. Qed.
End Quiet.

#[export] Hint Resolve quiet_read_bytes quiet_read_le quiet_read_u8 quiet_read_u16 quiet_read_u32 quiet_read_u64 quiet_read_string quiet_descriptors
  quiet_iov_descriptors quiet_iovs : star9_wasi.

(** ** Reads depend on the memory alone *)

Definition bare (m : option (list byte)) : Caller unit := mkCaller m tt (λ _, 0) [].

Section MemoryOnly.
Context {W : Type}.
Local Abbreviation C := (Caller W).

(** [m] changes nothing and answers what [m0] does on the memory alone. *)
Definition memory_only {E A} (m : Eff E C A) (m0 : Eff E (Caller unit) A) : Prop :=
  ∀ c, m c = ((m0 (bare (ca_memory c))).1, c) ∧ (m0 (bare (ca_memory c))).2 = bare (ca_memory c).

Lemma memory_only_bind {E A B} (m : Eff E C A) m0 (k : A → Eff E C B) k0 :
  memory_only m m0 → (∀ a, memory_only (k a) (k0 a)) → memory_only (m ≫= k) (m0 ≫= k0).
Proof.
  intros Hm Hk c. unfold mbind, eff_bind. destruct (Hm c) as [-> E2].
  destruct (m0 (bare (ca_memory c))) as [[a|e| |] c0]; cbn in *; subst; try done.
  apply (Hk a c).
Qed.

Lemma memory_only_inval {A} (m : Eff unit C A) m0 : memory_only m m0 → memory_only (inval m) (inval m0).
Proof.
  intros Hm c. unfold inval. destruct (Hm c) as [-> E2].
  by destruct (m0 (bare (ca_memory c))) as [[a|e| |] c0]; cbn in *; subst.
Qed.

Lemma memory_only_const {E A} (r : Outcome E A) : memory_only (lift r) (lift r).
Proof. by intros c. Qed.

Lemma memory_only_guard {E} b (e : E) : memory_only (guard_err b e) (guard_err b e).
Proof. by destruct b; intros c. Qed.

Lemma memory_only_trap {E} z : memory_only (E:=E) (i32_trap z) (i32_trap z).
Proof. unfold i32_trap. by destruct (in_i32 z); intros c. Qed.

Lemma memory_only_memory : memory_only memory memory.
Proof. intros c. unfold memory. cbn. by destruct (ca_memory c). Qed.

Lemma memory_only_bytes ptr len : memory_only (read_bytes ptr len) (read_bytes ptr len).
Proof.
  unfold read_bytes. apply memory_only_bind; [apply memory_only_guard|intros _].
  apply memory_only_bind; [apply memory_only_memory|intros data].
  repeat (apply memory_only_bind; [apply memory_only_guard|intros _]). apply (memory_only_const (Ok _)).
Qed.

Lemma memory_only_u32 ptr : memory_only (read_u32 ptr) (read_u32 ptr).
Proof.
  apply memory_only_bind; [apply memory_only_bytes|intros bytes]. apply (memory_only_const (Ok _)).
Qed.

Lemma memory_only_descriptors n : ∀ index ptr,
  memory_only (read_descriptors n index ptr) (read_descriptors n index ptr).
Proof.
  induction n as [|n IH]; intros index ptr; cbn [read_descriptors]; [apply (memory_only_const (Ok _))|].
  repeat (apply memory_only_bind; [first [apply memory_only_trap|apply memory_only_inval, memory_only_u32|apply IH]|intros ?]).
  apply (memory_only_const (Ok _)).
Qed.

Lemma memory_only_iovs ptr len :
  memory_only (read_iov_descriptors ptr len) (read_iov_descriptors ptr len).
Proof.
  apply memory_only_bind; [apply memory_only_guard|intros _]. apply memory_only_descriptors.
Qed.
End MemoryOnly.

(** The scattered buffers that a descriptor array in the memory names. *)
Definition iovs_in (ptr len : Z) (m : option (list byte)) : Regions :=
  match (read_iov_descriptors ptr len (bare m)).1 with Ok iovs => iovs | _ => [] end.

Lemma as_i32_range z : in_i32 (as_i32 z) = true.
Proof.
  unfold in_i32, as_i32, I32_MAX, U32_MAX. pose proof (Z.mod_pos_bound (z + (2147483647 + 1)) (4294967295 + 1) eq_refl).
  apply andb_true_iff. split; apply Z.leb_le; lia.
Qed.

Lemma descriptors_range {W} n : ∀ index ptr (c : Caller W) iovs c',
  read_descriptors n index ptr c = (Ok iovs, c') → Forall (λ iov, in_i32 iov.2 = true) iovs.
Proof.
  induction n as [|n IH]; intros index ptr c iovs c'; cbn [read_descriptors].
  - intros [= <- _]. constructor.
  - intros (scaled & c1 & _ & H)%eff_bind_inv.
    apply eff_bind_inv in H as (offset & c2 & _ & H).
    apply eff_bind_inv in H as (data_ptr & c3 & _ & H).
    apply eff_bind_inv in H as (len_offset & c4 & _ & H).
    apply eff_bind_inv in H as (data_len & c5 & _ & H).
    apply eff_bind_inv in H as (rest & c6 & Hrest & H). injection H as <- _.
    constructor; [apply as_i32_range|]. by eapply IH.
Qed.

(** Running the descriptors of a call: the rest runs on the buffers in the memory. *)
Lemma run_iovs {W A} rs ptr len (k : list (Z * Z) → Eff Z (Caller W) A) (c : Caller W) :
  (∀ iovs, Forall (λ iov, in_i32 iov.2 = true) iovs → confined (rs ++ iovs) (k iovs)) →
  same_outside (rs ++ iovs_in ptr len (ca_memory c)) (ca_memory c)
    (ca_memory ((read_iov_descriptors ptr len ≫= k) c).2).
Proof.
  intros Hk. destruct (memory_only_iovs ptr len c) as [E1 E2]. unfold mbind, eff_bind. rewrite E1.
  unfold iovs_in in *. destruct (read_iov_descriptors ptr len (bare (ca_memory c))) as [[iovs|e| |] c0] eqn:E; cbn in *;
    try apply same_outside_refl.
  apply Hk. unfold read_iov_descriptors in E.
  apply eff_bind_inv in E as (? & ? & _ & E). by eapply descriptors_range.
Qed.

(** ** Reading and writing through the host *)

Section Host.
Context {W H : Type} `{!HasTasks W H} `{!FileHandle W H}.
Context (fsys : nat → FileSystem W H) (default_hash : string → Z) (wasi : WasiState).
Local Abbreviation C := (Caller W).

Lemma quiet_world_call {A} to_errno (m : M W A) : quiet (world_call to_errno m).
Proof. intros c. unfold world_call. by destruct (m (ca_world c)). Qed.

Lemma quiet_call {A} (m : M W A) : quiet (call m).
Proof. apply quiet_world_call. Qed.

Lemma quiet_with_fd {A} fd (f : M (H * W) A) : quiet (with_fd wasi fd f).
Proof. apply quiet_world_call. Qed.

Lemma quiet_fd_path fd : quiet (fd_path wasi fd).
Proof. apply quiet_world_call. Qed.

Lemma quiet_fd_path_lookup fd : quiet (fd_path_lookup wasi fd).
Proof. apply quiet_world_call. Qed.

Lemma quiet_namespace {A} (f : FileSystem W H → M W A) : quiet (namespace fsys wasi f).
Proof. apply quiet_world_call. Qed.

Lemma quiet_system_time : quiet (W:=W) system_time.
Proof. by intros c. Qed.

Lemma quiet_sleep nanos : quiet (W:=W) (sleep nanos).
Proof. by intros c. Qed.

Lemma quiet_validate clock_id : quiet (W:=W) (validate_wasi_clock clock_id).
Proof. unfold validate_wasi_clock. by destruct (bool_decide _). Qed.

Lemma quiet_clock clock_id : quiet (W:=W) (wasi_clock_now_nanos clock_id).
Proof.
  unfold wasi_clock_now_nanos. auto 10 using quiet_validate, quiet_system_time with star9_wasi.
Qed.

Lemma quiet_path fd ptr len : quiet (read_wasi_path wasi fd ptr len).
Proof. unfold read_wasi_path. auto 10 using quiet_fd_path with star9_wasi. Qed.

Lemma quiet_mtime atim mtim flags : quiet (W:=W) (wasi_mtime_from_flags system_time atim mtim flags).
Proof.
  unfold wasi_mtime_from_flags. repeat (apply quiet_bind; [apply quiet_guard|intros _]).
  apply quiet_if; [auto using quiet_system_time with star9_wasi|]. auto 10 with star9_wasi.
Qed.
End Host.

#[export] Hint Resolve quiet_world_call quiet_call quiet_with_fd quiet_fd_path quiet_fd_path_lookup
  quiet_namespace quiet_system_time quiet_sleep quiet_validate quiet_clock quiet_path quiet_mtime : star9_wasi.

(** [i] is in one of the regions of a list that is written out. *)
Ltac in_regions := intros; unfold in_regions, in_region, blen in *; cbn in *;
  rewrite ?Exists_cons, ?Exists_app, ?Exists_nil; cbn; lia.

(** Proves [confined]: one rule for each form of computation. *)
Ltac confine_step :=
  lazymatch goal with
  | |- confined _ (i32_trap _ ≫= _) => apply confined_trap
  | |- confined _ (guard_err _ _ ≫= _) => apply confined_guard
  | |- confined _ (ok_or _ _ ≫= _) => apply confined_ok_or
  | |- confined _ (inval _) => apply confined_inval
  | |- confined _ (write_bytes _ _) => apply confined_write; solve [in_regions]
  | |- confined _ (_ ≫= _) => apply confined_bind
  | |- confined _ (if _ then _ else _) => apply confined_if
  | |- confined _ (match _ with _ => _ end) => case_match
  | |- ∀ _, _ => intros ?; cbv beta zeta
  | |- confined _ (let _ := _ in _) => cbv zeta
  end.

Ltac confine :=
  repeat first [ apply quiet_confined; solve [auto 10 with star9_wasi] | confine_step ].

(** ** What the WASI host does to its guest

    The memory is changed only where a call was told to write; a guest that reads a
    directory in pieces sees each entry once; the arguments are read back; a scattered read
    is one read of the file. *)

(** ** Where each call writes *)

Section Regions.
Context (wasi : WasiState).

Definition strings_regions (ptrs buf : Z) (strings : list string) : Regions :=
  [(ptrs, 4 * Z.of_nat (length strings)); (buf, strings_size strings)].

(** The regions that a call with these arguments may write, in the memory [m]. *)
Definition call_regions (name : string) (args : list Val) (m : option (list byte)) : Regions :=
  match args with
  | [I32 a; I32 b] =>
      if ((name =? "args_sizes_get")%string || (name =? "environ_sizes_get")%string) then [(a, 4); (b, 4)]
      else if (name =? "args_get")%string then strings_regions a b (ws_args wasi)
      else if (name =? "environ_get")%string then strings_regions a b (render_env (ws_env wasi))
      else if ((name =? "fd_tell")%string || (name =? "fd_prestat_get")%string || (name =? "clock_res_get")%string) then [(b, 8)]
      else if (name =? "fd_fdstat_get")%string then [(b, 24)]
      else if (name =? "fd_filestat_get")%string then [(b, 64)]
      else if (name =? "random_get")%string then [(a, b)]
      else []
  | [I32 a; I32 b; I32 c] =>
      if (name =? "sock_accept")%string then [(c, 4)]
      else if (name =? "fd_prestat_dir_name")%string then [(b, as_usize c)]
      else []
  | [I32 a; I32 b; I32 c; I32 d] =>
      if (name =? "poll_oneoff")%string then [(b, 32 * c); (d, 4)]
      else if (name =? "fd_write")%string then [(d, 4)]
      else if (name =? "fd_read")%string then (d, 4) :: iovs_in b c m
      else []
  | [I32 a; I32 b; I32 c; I32 d; I32 e] =>
      if (name =? "sock_send")%string then [(e, 4)]
      else if (name =? "path_filestat_get")%string then [(e, 64)]
      else []
  | [I32 a; I32 b; I32 c; I32 d; I32 e; I32 f] =>
      if (name =? "sock_recv")%string then
        (f, 2) :: (e, 4) :: iovs_in b c (ca_memory (write_u16 f 0 (bare m)).2)
      else if (name =? "path_readlink")%string then [(d, e); (f, 4)]
      else []
  | [I32 a; I32 b; I32 c; I64 d; I32 e] =>
      if (name =? "fd_pread")%string then (e, 4) :: iovs_in b c m
      else if (name =? "fd_readdir")%string then [(b, c); (e, 4)]
      else [(e, 4)]
  | [I32 a; I64 b; I32 c; I32 d] => [(d, 8)]
  | [I32 a; I64 b; I32 c] => [(c, 8)]
  | [I32 _; I32 _; I32 _; I32 _; I32 _; I64 _; I64 _; I32 _; I32 i] => [(i, 4)]
  | _ => []
  end.
End Regions.

Section Confined.
Context {W H : Type} `{!HasTasks W H} `{!FileHandle W H}.
Context (fsys : nat → FileSystem W H) (default_hash : string → Z) (wasi : WasiState).
Local Abbreviation C := (Caller W).

Lemma confined_event ptr userdata event_type nbytes rs :
  (∀ i, ptr ≤ i < ptr + 32 → in_regions rs i) →
  confined rs (write_event (W:=W) ptr userdata event_type nbytes).
Proof.
  intros Hrs. unfold write_event, write_u64, write_u16.
  repeat first [apply confined_bind; [apply confined_write; intros; apply Hrs; unfold blen in *; cbn in *; lia|intros _]
    |apply confined_trap; intros _|apply confined_if; intros _
    |apply confined_write; intros; apply Hrs; unfold blen in *; cbn in *; lia].
  apply quiet_confined, quiet_ret.
Qed.

Lemma confined_fdstat ptr mode : confined [(ptr, 24)] (write_fdstat (W:=W) ptr mode).
Proof. unfold write_fdstat, write_u64, write_u16. confine. Qed.

Lemma confined_filestat ptr mode size : confined [(ptr, 64)] (write_filestat (W:=W) ptr mode size).
Proof. unfold write_filestat, write_u64. confine. Qed.

Lemma strings_size_length strings : Z.of_nat (length strings) ≤ strings_size strings.
Proof. unfold strings_size. induction strings as [|s l IH]; cbn [foldr length]; [lia|]. pose proof (blen_nonneg (bytes_of s)). lia. Qed.

Lemma as_i32_id z : in_i32 z = true → as_i32 z = z.
Proof.
  unfold in_i32, as_i32, I32_MAX, U32_MAX. intros Hz. bool_to_prop. rewrite Z.mod_small; lia.
Qed.

Lemma confined_strings ptrs strings rs : ∀ index cursor,
  0 ≤ index → index + Z.of_nat (length strings) ≤ I32_MAX → strings_size strings ≤ I32_MAX →
  (∀ i, ptrs + 4 * index ≤ i < ptrs + 4 * (index + Z.of_nat (length strings)) → in_regions rs i) →
  (∀ i, cursor ≤ i < cursor + strings_size strings → in_regions rs i) →
  confined rs (write_strings (W:=W) index ptrs cursor strings).
Proof.
  induction strings as [|value strings IH]; intros index cursor H0 Hn Hs Hp Hb; cbn [write_strings].
  { apply quiet_confined, quiet_ret. }
  cbn [strings_size foldr length] in *. fold (strings_size strings) in *.
  pose proof (blen_nonneg (bytes_of value)). pose proof (strings_size_length strings).
  assert (0 ≤ strings_size strings) by lia.
  assert (as_i32 index = index) as -> by (apply as_i32_id; unfold in_i32; lia).
  assert (as_i32 (blen (bytes_of value)) = blen (bytes_of value)) as -> by (apply as_i32_id; unfold in_i32; lia).
  apply confined_trap. intros _. apply confined_trap. intros _. unfold write_u32.
  apply confined_bind; [apply confined_write; intros i Hi; apply Hp; unfold blen in Hi; cbn in Hi; lia|intros _].
  apply confined_bind; [apply confined_write; intros i Hi; apply Hb; lia|intros _].
  apply confined_trap. intros _.
  apply confined_bind; [apply confined_write; intros i Hi; apply Hb; change (blen [x00]) with 1 in Hi; lia|intros _].
  apply confined_trap. intros _. apply IH; try lia; intros i Hi; [apply Hp; lia|apply Hb; lia].
Qed.

Lemma confined_dirents buf buf_len entries rs : ∀ cursor used, buf_len ≤ I32_MAX →
  cursor = buf + used → 0 ≤ used ≤ buf_len →
  (∀ i, buf ≤ i < buf + buf_len → in_regions rs i) →
  confined rs (write_dirents (W:=W) buf_len cursor used entries).
Proof.
  induction entries as [|entry entries IH]; intros cursor used Hl -> Hu Hrs; cbn [write_dirents].
  { apply quiet_confined, quiet_ret. }
  pose proof (blen_nonneg (wd_name entry)). unfold WASI_DIRENT_HEAD_SIZE in *.
  apply confined_if; [intros _; apply quiet_confined, quiet_ret|intros H1%Z.ltb_ge].
  apply confined_bind.
  { apply confined_inval, confined_write. intros i Hi. apply Hrs.
    replace (blen (head_bytes entry)) with 24 in Hi by done. lia. }
  intros _. apply confined_trap. intros _.
  apply confined_if; [intros _; apply quiet_confined, quiet_ret|intros H2%Z.ltb_ge].
  apply confined_bind; [apply confined_inval, confined_write; intros i Hi; apply Hrs; lia|intros _].
  rewrite as_i32_id by (unfold in_i32, I32_MAX in *; lia).
  apply confined_trap. intros _. apply IH; [done|lia|lia|done].
Qed.

Lemma confined_scattered read iovs rs : (∀ len offset, quiet (W:=W) (read len offset)) →
  Forall (λ iov, in_i32 iov.2 = true) iovs → (∀ i, in_regions iovs i → in_regions rs i) →
  ∀ total offset, confined rs (read_scattered read total offset iovs).
Proof.
  intros Hq. induction iovs as [|[ptr len] iovs IH]; intros Hr Hrs total offset; cbn [read_scattered].
  { apply quiet_confined, quiet_ret. }
  apply Forall_cons in Hr as [Hlen Hr]. cbn in Hlen. unfold alloc_buffer.
  destruct (ISIZE_MAX <? as_usize len) eqn:Hcap; [intros c; apply same_outside_refl|].
  apply Z.ltb_ge in Hcap. apply confined_bind; [apply quiet_confined, quiet_ret|intros _].
  assert (as_usize len = len) as Hu.
  { unfold as_usize, in_i32, ISIZE_MAX, I64_MAX, USIZE_MAX, U64_MAX, I32_MAX in *. bool_to_prop.
    destruct (decide (0 ≤ len)); [apply Z.mod_small; lia|].
    rewrite <- (Z_mod_plus_full len 1), Z.mod_small in Hcap; lia. }
  rewrite Hu.
  apply confined_bind; [apply quiet_confined, Hq|intros bytes].
  apply confined_bind.
  { apply confined_if; [intros _; apply quiet_confined, quiet_panic|intros Hn%Z.ltb_ge].
    apply confined_inval, confined_write. intros i Hi. apply Hrs, Exists_cons. left.
    unfold in_region. cbn. lia. }
  intros _. apply confined_if; [intros _; apply quiet_confined, quiet_ret|intros _].
  apply IH; [done|]. intros i Hi. by apply Hrs, Exists_cons_tl.
Qed.

Lemma confined_returned (m : Eff Z C unit) rs : confined rs m → confined rs (returned m).
Proof. intros Hm c. unfold returned. specialize (Hm c). by destruct (m c) as [[]]. Qed.

Lemma confined_poll_clock subscription event userdata rs :
  (∀ i, event ≤ i < event + 32 → in_regions rs i) →
  confined rs (poll_clock (W:=W) subscription event userdata).
Proof.
  intros Hev. unfold poll_clock.
  repeat first [apply quiet_confined; solve [auto 10 with star9_wasi]
    |apply confined_inval, confined_event; exact Hev|confine_step].
Qed.

Lemma confined_poll_fd subscription event userdata event_type rs :
  (∀ i, event ≤ i < event + 32 → in_regions rs i) →
  confined rs (poll_fd wasi subscription event userdata event_type).
Proof.
  intros Hev. unfold poll_fd.
  repeat first [apply quiet_confined; solve [auto 10 with star9_wasi]
    |apply confined_inval, confined_event; exact Hev|confine_step].
Qed.

Lemma saturating_range z : 0 ≤ z → 0 ≤ saturating_i32 z ≤ z.
Proof. unfold saturating_i32, I32_MAX. lia. Qed.

Lemma event_region out nsubs index event rs : 0 ≤ index < nsubs →
  checked_i32 (out + saturating_i32 (index * EVENT_SIZE)) = Some event →
  (∀ i, out ≤ i < out + 32 * nsubs → in_regions rs i) →
  ∀ i, event ≤ i < event + 32 → in_regions rs i.
Proof.
  intros Hx He Hrs i Hi. unfold checked_i32 in He. destruct (in_i32 _); [|done]. injection He as <-.
  pose proof (saturating_range (index * EVENT_SIZE)) as Hs. unfold EVENT_SIZE in *.
  apply Hrs. lia.
Qed.

Lemma confined_poll_one in_ptr out nsubs index rs : 0 ≤ index < nsubs →
  (∀ i, out ≤ i < out + 32 * nsubs → in_regions rs i) →
  confined rs (poll_one wasi in_ptr out index).
Proof.
  intros Hx Hrs. unfold poll_one. apply confined_ok_or. intros subscription _.
  apply confined_ok_or. intros event He.
  assert (∀ i, event ≤ i < event + 32 → in_regions rs i) as Hev by by eapply event_region.
  clear He. repeat first [apply quiet_confined; solve [auto 10 with star9_wasi]
    |apply confined_poll_clock; exact Hev|apply confined_poll_fd; exact Hev|confine_step].
Qed.

Lemma confined_poll in_ptr out nsubs nevents : confined [(out, 32 * nsubs); (nevents, 4)]
  (poll_oneoff wasi in_ptr out nsubs nevents).
Proof.
  unfold poll_oneoff, write_u32. apply confined_guard. intros Hn%Z.leb_gt.
  apply confined_bind; [|intros _; confine].
  assert (∀ x, x ∈ seq 0 (Z.to_nat nsubs) → 0 ≤ Z.of_nat x < nsubs) as Hin.
  { intros x [_ Hx]%elem_of_seq. lia. }
  induction (seq 0 (Z.to_nat nsubs)) as [|x l IH]; cbn [for_each]; [apply quiet_confined, quiet_ret|].
  apply confined_bind; [|intros _; apply IH; intros y Hy; apply Hin; by right].
  apply (confined_poll_one _ _ nsubs); [apply Hin; left|in_regions].
Qed.

Lemma confined_read_fd fd ptr len nread m (c : C) : m = ca_memory c →
  same_outside ((nread, 4) :: iovs_in ptr len m) m (ca_memory (fd_read wasi fd ptr len nread c).2).
Proof.
  intros ->. apply (run_iovs [(nread, 4)]). intros iovs Hr. unfold write_u32.
  apply confined_bind; [|intros total; apply confined_inval, confined_write; in_regions].
  apply confined_scattered; [auto with star9_wasi|done|]. intros i Hi. by apply Exists_cons_tl.
Qed.

(** An entry of the table writes where [call_regions] says. *)
Definition entry_confined (kv : string * HostFunc) : Prop :=
  ∀ args f (c : C), kv.2 args = Some f →
    Forall (λ v, match v with I32 z => in_i32 z = true | I64 _ => True end) args →
    same_outside (call_regions wasi kv.1 args (ca_memory c)) (ca_memory c) (ca_memory (f c).2).

Lemma entry_quiet (n : string) (g : HostFunc) : (∀ args f, g args = Some f → quiet f) → entry_confined (n, g).
Proof. intros Hg args f c Hf _. rewrite (Hg args f Hf). apply same_outside_refl. Qed.

Lemma quiet_returned (m : Eff Z C unit) : quiet m → quiet (returned m).
Proof. intros Hm c. unfold returned. specialize (Hm c). by destruct (m c) as [[]]. Qed.

(** Takes the arguments of an entry apart. *)
Ltac entry_args :=
  intros args f c Hf Hok; cbn [fst snd] in *;
  repeat (destruct args as [|[?z|?z] args]; cbn in Hf; try discriminate Hf);
  injection Hf as <-; cbn [call_regions String.eqb Ascii.eqb Bool.eqb orb].

Create HintDb wasi_calls.
#[local] Hint Unfold args_sizes_get args_get environ_sizes_get environ_get proc_raise sched_yield
  sock_accept sock_send sock_shutdown fd_write fd_advise fd_pwrite fd_close fd_renumber
  fd_seek fd_tell fd_allocate fd_fdstat_get fd_fdstat_set_flags fd_fdstat_set_rights fd_filestat_get
  fd_filestat_set_size fd_filestat_set_times fd_prestat_get fd_prestat_dir_name fd_sync fd_datasync
  path_open path_create_directory path_filestat_get path_filestat_set_times path_link path_unlink_file
  path_remove_directory path_rename path_symlink path_readlink random_get clock_res_get clock_time_get
  link_source hang_up write_u32 write_u64 write_string_array strings_regions : wasi_calls.

Lemma quiet_write_scattered fd buffers : ∀ written offset,
  quiet (write_scattered wasi fd written offset buffers).
Proof.
  induction buffers as [|data buffers IH]; intros written offset; cbn [write_scattered]; [auto with star9_wasi|].
  apply quiet_bind; [auto with star9_wasi|]. intros n. apply quiet_if; auto with star9_wasi.
Qed.
#[local] Hint Resolve quiet_write_scattered : star9_wasi.

Ltac entry := entry_args; first [by apply (same_outside_refl _ _)|apply confined_returned];
  autounfold with wasi_calls; confine.

Lemma random_get_confined ptr len : confined [(ptr, len)] (random_get (W:=W) ptr len).
Proof.
  unfold random_get. apply confined_guard. intros Hl%Z.ltb_ge. apply confined_inval, confined_write.
  intros i Hi. unfold blen in Hi. rewrite length_fmap, length_seq in Hi. in_regions.
Qed.

Lemma readlink_confined fd path path_len buf buf_len used :
  confined [(buf, buf_len); (used, 4)] (path_readlink fsys wasi fd path path_len buf buf_len used).
Proof.
  unfold path_readlink, write_u32. apply confined_guard. intros Hl%Z.ltb_ge.
  repeat (apply confined_bind; [apply quiet_confined; auto with star9_wasi|intros ?]).
  apply confined_inval, confined_bind; [|intros _; confine]. apply confined_write.
  intros i Hi. unfold blen at 1 in Hi. rewrite length_take in Hi. in_regions.
Qed.

Lemma readdir_confined fd buf buf_len cookie used : in_i32 buf_len = true →
  confined [(buf, buf_len); (used, 4)] (fd_readdir fsys default_hash wasi fd buf buf_len cookie used).
Proof.
  intros Hb. unfold fd_readdir, write_u32. apply confined_guard. intros Hl. bool_to_prop.
  apply confined_bind; [apply quiet_confined; auto with star9_wasi|intros entries].
  apply confined_bind; [|intros ?; confine].
  apply (confined_dirents buf); [|lia|lia|in_regions].
  unfold in_i32 in Hb. bool_to_prop. lia.
Qed.

Lemma confined_pread fd ptr len offset nread m (c : C) : m = ca_memory c →
  same_outside ((nread, 4) :: iovs_in ptr len m) m (ca_memory (fd_pread wasi fd ptr len offset nread c).2).
Proof.
  intros ->. unfold fd_pread, guard_err. destruct (offset <? 0); [apply same_outside_refl|].
  apply (run_iovs [(nread, 4)]). intros iovs Hr. unfold write_u32.
  apply confined_bind; [|intros total; apply confined_inval, confined_write; in_regions].
  apply confined_scattered; [auto with star9_wasi|done|]. intros i Hi. by apply Exists_cons_tl.
Qed.

(** [sock_recv] writes its flags before it reads the descriptors of the buffers. *)
Lemma confined_recv fd data len flags datalen ro_flags (c : C) :
  same_outside ((ro_flags, 2) :: (datalen, 4)
      :: iovs_in data len (ca_memory (write_u16 ro_flags 0 (bare (ca_memory c))).2))
    (ca_memory c) (ca_memory (sock_recv wasi fd data len flags datalen ro_flags c).2).
Proof.
  set (rs := _ :: _). unfold sock_recv.
  assert (confined (W:=W) rs (inval (write_u16 ro_flags 0))) as Hw.
  { unfold write_u16. apply confined_inval, confined_write. intros i Hi. subst rs. apply Exists_cons. left. exact Hi. }
  apply same_outside_bind; [apply quiet_confined, quiet_guard|]. intros u0 c0 E0.
  assert (c0 = c) as Ec by (unfold guard_err in E0; by destruct (negb _); injection E0).
  clear E0. subst c0.
  apply same_outside_bind; [apply quiet_confined, quiet_fd_path_lookup|]. intros p c1 E1.
  pose proof (quiet_fd_path_lookup wasi fd c) as Hq. rewrite E1 in Hq. cbn in Hq.
  apply same_outside_bind; [apply Hw|]. intros u2 c2 E2.
  assert (ca_memory c2 = ca_memory (write_u16 ro_flags 0 (bare (ca_memory c))).2) as Hm.
  { rewrite <- Hq. revert E2. unfold inval, write_u16, write_bytes, guard_err, memory, set_memory. unfold_eff.
    destruct (ro_flags <? 0); cbn; [done|]. destruct (ca_memory c1) as [d|] eqn:Ed; cbn; [|done].
    destruct (USIZE_MAX <? _); cbn; [done|]. destruct (blen d <? _); [done|]. by intros [= _ <-]. }
  eapply same_outside_weaken; [|by apply (confined_read_fd fd data len datalen)].
  intros i Hi. subst rs. rewrite Hm in Hi. apply Exists_cons. by right.
Qed.

Lemma entries_confined :
  strings_size (ws_args wasi) ≤ I32_MAX → strings_size (render_env (ws_env wasi)) ≤ I32_MAX →
  Forall entry_confined (add_wasi_imports fsys default_hash wasi).
Proof.
  intros Ha He. pose proof (strings_size_length (ws_args wasi)).
  pose proof (strings_size_length (render_env (ws_env wasi))). unfold add_wasi_imports.
  assert (∀ strings ptrs buf, strings_size strings ≤ I32_MAX → Z.of_nat (length strings) ≤ strings_size strings →
    confined (strings_regions ptrs buf strings) (inval (write_string_array (W:=W) ptrs buf strings))) as Hs.
  { intros strings ptrs buf Hsz Hlen. apply confined_inval, confined_strings; [lia..| |];
      intros i Hi; unfold in_regions, strings_regions; rewrite !Exists_cons; unfold in_region; cbn [fst snd]; lia. }
  repeat apply Forall_cons_2; try apply Forall_nil_2; try solve [entry]; entry_args.
  - by apply confined_returned, Hs.
  - by apply confined_returned, Hs.
  - by apply confined_returned, confined_poll.
  - unfold returned. pose proof (confined_recv z z0 z1 z2 z3 z4 c) as Hc.
    by destruct (sock_recv _ _ _ _ _ _ _ _) as [[]].
  - unfold returned. pose proof (confined_read_fd z z0 z1 z2 _ c eq_refl) as Hc.
    by destruct (fd_read _ _ _ _ _ _) as [[]].
  - unfold returned. pose proof (confined_pread z z0 z1 z2 z3 _ c eq_refl) as Hc.
    by destruct (fd_pread _ _ _ _ _ _ _) as [[]].
  - apply confined_returned. unfold fd_fdstat_get.
    apply confined_bind; [apply quiet_confined; auto with star9_wasi|]. intros. apply confined_inval, confined_fdstat.
  - apply confined_returned. unfold fd_filestat_get.
    apply confined_bind; [apply quiet_confined; auto with star9_wasi|]. intros. apply confined_inval, confined_filestat.
  - apply confined_returned, readdir_confined. by apply Forall_cons in Hok as [_ [_ [Hok _]%Forall_cons]%Forall_cons].
  - apply confined_returned. unfold path_filestat_get.
    repeat (apply confined_bind; [apply quiet_confined; auto with star9_wasi|intros ?]). apply confined_inval, confined_filestat.
  - apply confined_returned, readlink_confined.
  - apply confined_returned, random_get_confined.
Qed.
End Confined.

(** C26. The host writes only where it was told to: whatever a call is, its arguments and the
    state of the world, and however it ends, the memory of the guest keeps its size and its
    bytes outside the regions that the arguments designate. *)
Theorem wasi_call_confined {W H} `{!HasTasks W H} `{!FileHandle W H} fsys default_hash wasi name args f (c : Caller W) :
  strings_size (ws_args wasi) ≤ I32_MAX → strings_size (render_env (ws_env wasi)) ≤ I32_MAX →
  Forall (λ v, match v with I32 z => in_i32 z = true | I64 _ => True end) args →
  host_call fsys default_hash wasi name args = Some f →
  same_outside (call_regions wasi name args (ca_memory c)) (ca_memory c) (ca_memory (f c).2).
Proof.
  intros Ha He Hok Hf. unfold host_call in Hf.
  apply bind_Some in Hf as ([i kv] & Hkv & Hf).
  apply list_find_Some in Hkv as (Hkv & <- & _). apply list_elem_of_lookup_2 in Hkv.
  pose proof (entries_confined fsys default_hash wasi Ha He) as Hall.
  rewrite Forall_forall in Hall. by apply Hall.
Qed.

(** ** Where the paths of a guest lead *)

Lemma normalize_valid base : valid_path base = true → trim base = base → normalize_task_path base = base.
Proof.
  intros Hv Ht. unfold normalize_task_path. rewrite Ht.
  destruct (valid_as_parts base Hv) as (ps & -> & Hps).
  assert (is_empty_str (of_parts ps) = false) as ->.
  { apply not_true_iff_false. rewrite is_empty_str_true. destruct ps; [done|]. by apply join_good_nonempty. }
  assert (starts_with_char "/" (of_parts ps) = false) as Hs by (destruct ps; [done|by apply join_good_no_slash]).
  assert (of_parts ps ≠ "/") by (intros E; by rewrite E in Hs).
  rewrite bool_decide_eq_false_2 by done. cbn [orb].
  by rewrite trim_start_char_id, clean_path_of_parts.
Qed.

Lemma normalized_valid base : valid_path (normalize_task_path base) = true.
Proof. unfold normalize_task_path. case_match; [done|apply clean_path_valid]. Qed.

Lemma join_below base rel :
  ∃ ps, Forall good_part ps ∧
    join_wasi_path base rel = of_parts (parts_of (normalize_task_path base) ++ ps).
Proof.
  unfold join_wasi_path. cbv zeta.
  destruct (valid_as_parts (clean_path (trim_start_char "/" rel)) (clean_path_valid _)) as (rs & -> & Hrs).
  destruct (valid_as_parts _ (normalized_valid base)) as (bs & -> & Hbs). exists rs. split; [done|].
  rewrite parts_of_of_parts by done. case_decide as H1.
  { destruct bs as [|b bs]; [done|]. by apply join_good_not_dot in H1. }
  assert (bs ≠ []) by (by intros ->). case_decide as H2.
  { destruct rs as [|r rs]; [by rewrite app_nil_r|]. by apply join_good_not_dot in H2. }
  assert (rs ≠ []) by (by intros ->).
  change (String "/" (of_parts rs)) with ("/" +:+ of_parts rs). rewrite <- of_parts_app by done.
  apply clean_path_of_parts. by apply Forall_app.
Qed.

(** C28. A guest names only what is at or below the directory of its descriptor: whatever
    bytes it passes, dots and slashes included, the path that the host goes on with is a
    valid one that extends the path of the descriptor as the host normalizes it.  That is the
    path itself unless it begins or ends in whitespace, which the host trims
    ([wasi_trimmed_directory]: the guest then reaches the directory beside). *)
Theorem wasi_paths_below {W H} `{!HasTasks W H} `{!FileHandle W H} wasi fd ptr len (c c' : Caller W) base w path :
  Task.fd_path (ws_task wasi) (as_u32 fd) (ca_world c) = (Ok base, w) →
  read_wasi_path wasi fd ptr len c = (Ok path, c') →
  valid_path path = true ∧ (∃ ps, parts_of path = parts_of (normalize_task_path base) ++ ps) ∧
  (valid_path base = true → trim base = base → normalize_task_path base = base).
Proof.
  intros Hfd E. unfold read_wasi_path in E.
  apply eff_bind_inv in E as (rel & c1 & E1 & E). apply eff_bind_inv in E as (base' & c2 & E2 & E).
  injection E as <- _.
  assert (ca_world c1 = ca_world c) as Hw.
  { unfold read_string in E1. apply eff_bind_inv in E1 as (u & c3 & E3 & E1).
    unfold guard_err in E3. destruct (len <? 0); [done|]. injection E3 as _ <-.
    apply eff_bind_inv in E1 as (bs & c4 & E4 & E1). destruct (memory_only_bytes ptr len c) as [E5 _].
    unfold inval in E4. rewrite E5 in E4. destruct (read_bytes ptr len (bare (ca_memory c))).1; try done.
    injection E4 as _ <-. unfold ok_or in E1. destruct (from_utf8 bs); [|done]. by injection E1 as _ <-. }
  assert (base' = base) as ->.
  { unfold fd_path, call, world_call in E2. rewrite Hw, Hfd in E2. by injection E2 as <- _. }
  destruct (join_below base rel) as (ps & Hps & ->).
  destruct (valid_path_parts _ (normalized_valid base)) as [Hb _].
  assert (Forall good_part (parts_of (normalize_task_path base) ++ ps)) as Hall by (by apply Forall_app).
  split; [by apply of_parts_valid|]. split; [exists ps; by apply parts_of_of_parts|].
  apply normalize_valid.
Qed.
