(* ===== verification/WasiReaddir.v ===== *)
(** * Reading a directory from a WASI guest

    A guest reads a directory with [fd_readdir] in pieces that fill its buffer, decodes the
    records it finds there whole and goes on from the cookie of the last.  Here are the
    guest's side, what a piece holds, and that the pieces together are the directory. *)

From stdpp Require Import base list numbers option strings.
From Stdlib Require Import ZArith Lia Ascii.
From S2P Require Import Prelude Strs RcText BTree Core FsTrait Vfs Field P9Codec P9CodecFacts Task Proto WasiMem Wasi WasiHost WasiFacts.

Local Open Scope Z_scope.
Import WasiMem Wasi WasiHost.

(** ** The guest's side *)

Definition le_at (off n : nat) (bs : list byte) : Z := from_le_bytes (take n (drop off bs)).

(** The whole records at the front of a buffer. *)
Fixpoint guest_dirents (fuel : nat) (bs : list byte) : list WasiDirentRecord :=
  match fuel with
  | O => []
  | S fuel =>
      if (length bs <? 24)%nat then []
      else
        let len := Z.to_nat (le_at 16 4 bs) in
        if (length bs <? 24 + len)%nat then []
        else mkDirent (le_at 0 8 bs) (le_at 8 8 bs) (le_at 20 1 bs) (take len (drop 24 bs))
             :: guest_dirents fuel (drop (24 + len) bs)
  end.

Definition decode_page (bs : list byte) : list WasiDirentRecord := guest_dirents (length bs) bs.

Section Guest.
Context {W H : Type} `{!HasTasks W H} `{!FileHandle W H}.
Context (fsys : nat → FileSystem W H) (default_hash : string → Z) (wasi : WasiState).
Context (fd buf buf_len used_ptr : Z).
Local Abbreviation C := (Caller W).

(** One call, and the records it left in the buffer. *)
Definition read_page (cookie : Z) : Eff Z C (Z * list WasiDirentRecord) :=
  fd_readdir fsys default_hash wasi fd buf buf_len cookie used_ptr ;;
  used ← inval (read_u32 used_ptr);
  bs ← inval (read_bytes buf used);
  mret (used, decode_page bs).

(** Calls until a buffer is not filled. *)
Fixpoint read_all (fuel : nat) (cookie : Z) : Eff Z C (list WasiDirentRecord) :=
  match fuel with
  | O => no_fuel
  | S fuel =>
      '(used, page) ← read_page cookie;
      if used <? buf_len then mret page
      else
        match last page with
        | None => throw ERRNO_INVAL
        | Some e => rest ← read_all fuel (wd_next e); mret (page ++ rest)
        end
  end.
End Guest.

(** ** Records *)

Definition dirent_ok (e : WasiDirentRecord) : Prop :=
  in_u64 (wd_next e) ∧ in_u64 (wd_ino e) ∧ in_u8 (wd_type e) ∧ blen (wd_name e) ≤ U32_MAX.

Definition encode_dirent (e : WasiDirentRecord) : list byte := head_bytes e ++ wd_name e.

Lemma length_head e : length (head_bytes e) = 24%nat.
Proof. done. Qed.

Lemma take_drop_app {A} (l1 l2 l3 : list A) (n m : nat) : length l1 = n → length l2 = m →
  take m (drop n (l1 ++ l2 ++ l3)) = l2.
Proof. intros <- <-. by rewrite drop_app_length, take_app_length. Qed.

Lemma le_at_field (l1 l3 bs : list byte) (off n : nat) (v : Z) : bs = l1 ++ le_bytes n v ++ l3 →
  length l1 = off → 0 ≤ v < 256 ^ Z.of_nat n → le_at off n bs = v.
Proof.
  intros -> Hl Hv. unfold le_at. rewrite (take_drop_app _ _ _ off n Hl) by apply length_le_bytes.
  rewrite from_le_le_bytes. by apply Z.mod_small.
Qed.

Lemma le_at_head e rest : dirent_ok e →
  le_at 0 8 (head_bytes e ++ rest) = wd_next e ∧ le_at 8 8 (head_bytes e ++ rest) = wd_ino e
  ∧ le_at 16 4 (head_bytes e ++ rest) = blen (wd_name e) ∧ le_at 20 1 (head_bytes e ++ rest) = wd_type e.
Proof.
  intros (Hn & Hi & Ht & Hl). pose proof (blen_nonneg (wd_name e)).
  unfold in_u64, in_u8, U64_MAX, U8_MAX, U32_MAX in *.
  assert (as_u32 (blen (wd_name e)) = blen (wd_name e)) as Hu by (apply Z.mod_small; unfold U32_MAX; lia).
  unfold head_bytes. rewrite Hu. split_and!.
  - apply (le_at_field [] (le_bytes 8 (wd_ino e) ++ le_bytes 4 (blen (wd_name e)) ++ [byte_of_Z (wd_type e)] ++ repeat x00 3 ++ rest));
      [by rewrite <- ?app_assoc|by rewrite ?length_app, ?length_le_bytes|cbn; lia].
  - apply (le_at_field (le_bytes 8 (wd_next e)) (le_bytes 4 (blen (wd_name e)) ++ [byte_of_Z (wd_type e)] ++ repeat x00 3 ++ rest));
      [by rewrite <- ?app_assoc|by rewrite ?length_app, ?length_le_bytes|cbn; lia].
  - apply (le_at_field (le_bytes 8 (wd_next e) ++ le_bytes 8 (wd_ino e)) ([byte_of_Z (wd_type e)] ++ repeat x00 3 ++ rest));
      [by rewrite <- ?app_assoc|by rewrite ?length_app, ?length_le_bytes|cbn; lia].
  - apply (le_at_field (le_bytes 8 (wd_next e) ++ le_bytes 8 (wd_ino e) ++ le_bytes 4 (blen (wd_name e))) (repeat x00 3 ++ rest));
      [by rewrite <- ?app_assoc|by rewrite ?length_app, ?length_le_bytes|cbn; lia].
Qed.

Lemma guest_fuel fuel : ∀ bs, (length bs ≤ fuel)%nat → guest_dirents fuel bs = decode_page bs.
Proof.
  unfold decode_page. induction fuel as [fuel IH] using lt_wf_ind. intros bs Hf.
  destruct fuel as [|fuel]; [destruct bs; [done|cbn in Hf; lia]|]. destruct (length bs) as [|n] eqn:En.
  { cbn. by rewrite En. }
  cbn [guest_dirents]. rewrite En. case_match eqn:E1; [done|]. case_match; [done|]. f_equal.
  apply Nat.ltb_ge in E1.
  rewrite IH by (rewrite ?length_drop; lia). symmetry.
  destruct (decide (n = fuel)) as [->|]; [apply IH; rewrite ?length_drop; lia|].
  apply IH; rewrite ?length_drop; lia.
Qed.

Lemma decode_page_step bs : decode_page bs =
  if (length bs <? 24)%nat then []
  else
    let len := Z.to_nat (le_at 16 4 bs) in
    if (length bs <? 24 + len)%nat then []
    else mkDirent (le_at 0 8 bs) (le_at 8 8 bs) (le_at 20 1 bs) (take len (drop 24 bs))
         :: decode_page (drop (24 + len) bs).
Proof.
  rewrite <- (guest_fuel (S (length bs)) bs) by lia. cbn [guest_dirents].
  case_match; [done|]. cbv zeta. case_match; [done|]. f_equal. apply guest_fuel. rewrite length_drop. lia.
Qed.

Lemma drop_head e rest : drop 24 (head_bytes e ++ rest) = rest.
Proof. apply (drop_app_length' (head_bytes e)). done. Qed.

(** A whole record at the front is the first one decoded. *)
Lemma decode_page_cons e rest : dirent_ok e →
  decode_page (encode_dirent e ++ rest) = e :: decode_page rest.
Proof.
  intros He. unfold encode_dirent. rewrite <- app_assoc, decode_page_step.
  destruct (le_at_head e (wd_name e ++ rest) He) as (-> & -> & -> & ->).
  rewrite !length_app, length_head. unfold blen. rewrite Nat2Z.id.
  rewrite (proj2 (Nat.ltb_ge _ _)) by lia. cbv zeta. rewrite (proj2 (Nat.ltb_ge _ _)) by lia.
  rewrite drop_head, take_app_length, <- drop_drop, drop_head, drop_app_length. by destruct e.
Qed.

(** A record of which a part is missing is not decoded. *)
Lemma decode_page_short bs : (length bs < 24)%nat → decode_page bs = [].
Proof. intros Hl. rewrite decode_page_step. by rewrite (proj2 (Nat.ltb_lt _ _)). Qed.

Lemma decode_page_cut e rest : dirent_ok e → Z.of_nat (length rest) < blen (wd_name e) →
  decode_page (head_bytes e ++ rest) = [].
Proof.
  intros He Hl. rewrite decode_page_step. destruct (le_at_head e rest He) as (_ & _ & -> & _).
  rewrite length_app, length_head. case_match; [done|]. cbv zeta.
  by rewrite (proj2 (Nat.ltb_lt _ _)) by lia.
Qed.

(** ** What a call leaves in the buffer *)

(** The records that [n] bytes have room for. *)
Fixpoint fitting (n : Z) (es : list WasiDirentRecord) : list WasiDirentRecord :=
  match es with
  | [] => []
  | e :: es =>
      if n <? 24 + blen (wd_name e) then [] else e :: fitting (n - (24 + blen (wd_name e))) es
  end.

Section Page.
Context {W : Type}.
Local Abbreviation C := (Caller W).

Definition with_memory (c : C) (d : list byte) : C :=
  mkCaller (Some d) (ca_world c) (ca_clock c) (ca_slept c).

Lemma write_bytes_ok ptr bs d (c : C) : ca_memory c = Some d → 0 ≤ ptr → ptr + blen bs ≤ blen d →
  blen d ≤ USIZE_MAX → write_bytes ptr bs c = (Ok tt, with_memory c (copy_at (Z.to_nat ptr) bs d)).
Proof.
  intros Hm Hp Hb Hu. unfold write_bytes, guard_err, memory, set_memory. unfold_eff.
  rewrite (proj2 (Z.ltb_ge _ _)) by lia. cbn. rewrite Hm. cbn.
  rewrite (proj2 (Z.ltb_ge _ _)) by lia. cbn. by rewrite (proj2 (Z.ltb_ge _ _)) by lia.
Qed.

Lemma read_bytes_ok ptr len d (c : C) : ca_memory c = Some d → 0 ≤ ptr → 0 ≤ len → ptr + len ≤ blen d →
  blen d ≤ USIZE_MAX → read_bytes ptr len c = (Ok (take (Z.to_nat len) (drop (Z.to_nat ptr) d)), c).
Proof.
  intros Hm Hp Hl Hb Hu. unfold read_bytes, guard_err, memory. unfold_eff.
  rewrite (proj2 (Z.ltb_ge ptr _)), (proj2 (Z.ltb_ge len _)) by lia. cbn. rewrite Hm. cbn.
  rewrite (proj2 (Z.ltb_ge _ _)) by lia. cbn. by rewrite (proj2 (Z.ltb_ge _ _)) by lia.
Qed.

Lemma copy_at_take start bs d : (start ≤ length d)%nat → take start (copy_at start bs d) = take start d.
Proof.
  intros Hl. unfold copy_at. rewrite take_app_le by (rewrite length_take; lia). rewrite take_take. f_equal. lia.
Qed.

Lemma copy_at_drop start bs d : (start ≤ length d)%nat →
  drop start (copy_at start bs d) = bs ++ drop (start + length bs) d.
Proof. intros Hl. unfold copy_at. rewrite drop_app_length'; [done|]. rewrite length_take. lia. Qed.

Lemma copy_at_app start b1 b2 d : (start + length b1 + length b2 ≤ length d)%nat →
  copy_at (start + length b1) b2 (copy_at start b1 d) = copy_at start (b1 ++ b2) d.
Proof.
  intros Hl. unfold copy_at at 1 3.
  assert (take (start + length b1) (copy_at start b1 d) = take start d ++ b1) as ->.
  { unfold copy_at. rewrite app_assoc, take_app_length'; [done|]. rewrite length_app, length_take. lia. }
  assert (drop (start + length b1 + length b2) (copy_at start b1 d) = drop (start + length (b1 ++ b2)) d) as ->.
  { rewrite <- !drop_drop. rewrite (copy_at_drop start) by lia.
    rewrite drop_app_length, drop_drop, drop_drop, length_app. f_equal. lia. }
  by rewrite !app_assoc.
Qed.

Lemma trap_ok {E A} z (k : Z → Eff E C A) c : 0 ≤ z ≤ I32_MAX → (i32_trap z ≫= k) c = k z c.
Proof.
  intros Hz. unfold i32_trap. assert (in_i32 z = true) as ->; [|done].
  unfold in_i32, I32_MAX in *. lia.
Qed.

(** One turn of the loop when there is room for a head. *)
Lemma write_dirents_step buf_len e es cursor used d (c : C) : ca_memory c = Some d →
  blen d ≤ I32_MAX → 0 ≤ cursor → 0 ≤ used → 24 ≤ buf_len - used → cursor + (buf_len - used) ≤ blen d →
  write_dirents buf_len cursor used (e :: es) c =
    if buf_len - used <? 24 + blen (wd_name e)
    then (Ok buf_len, with_memory c (copy_at (Z.to_nat cursor) (head_bytes e) d))
    else write_dirents buf_len (cursor + (24 + blen (wd_name e))) (used + (24 + blen (wd_name e))) es
           (with_memory c (copy_at (Z.to_nat cursor) (encode_dirent e) d)).
Proof.
  intros Hm Hd Hcur Hu H24 Hfit. cbn [write_dirents]. pose proof (blen_nonneg (wd_name e)).
  assert (blen d ≤ USIZE_MAX) by (unfold I32_MAX, USIZE_MAX, U64_MAX in *; lia).
  assert (blen (head_bytes e) = 24) as Hh by done. unfold WASI_DIRENT_HEAD_SIZE.
  rewrite (proj2 (Z.ltb_ge _ 24)) by lia.
  set (d1 := copy_at (Z.to_nat cursor) (head_bytes e) d).
  assert (length d1 = length d) as Hl1 by (apply copy_at_length; unfold blen in *; lia).
  assert (inval (write_bytes cursor (head_bytes e)) c = (Ok tt, with_memory c d1)) as Hw1.
  { unfold inval. by rewrite (write_bytes_ok _ _ d) by (done || lia). }
  rewrite (eff_bind_Ok _ _ _ _ _ Hw1). rewrite trap_ok by lia. cbv zeta.
  replace (Z.max 0 (buf_len - (used + 24)) <? blen (wd_name e)) with (buf_len - used <? 24 + blen (wd_name e)) by lia.
  destruct (buf_len - used <? 24 + blen (wd_name e)) eqn:E2; [done|]. apply Z.ltb_ge in E2.
  assert (inval (write_bytes (cursor + 24) (wd_name e)) (with_memory c d1)
    = (Ok tt, with_memory c (copy_at (Z.to_nat cursor) (encode_dirent e) d))) as Hw2.
  { unfold inval. rewrite (write_bytes_ok _ _ d1) by (done || unfold blen in *; rewrite ?Hl1; lia).
    replace (Z.to_nat (cursor + 24)) with (Z.to_nat cursor + length (head_bytes e))%nat by (rewrite length_head; lia).
    unfold d1. by rewrite copy_at_app by (unfold blen in *; lia). }
  rewrite (eff_bind_Ok _ _ _ _ _ Hw2). rewrite as_i32_id by (unfold in_i32, I32_MAX in *; lia).
  rewrite trap_ok by lia. by rewrite !Z.add_assoc.
Qed.

(** A page between [cursor] and its end, as the loop leaves it. *)
Definition page_written (buf_len cursor used : Z) (es : list WasiDirentRecord) (d d' : list byte) (used' : Z) : Prop :=
  length d' = length d
  ∧ take (Z.to_nat cursor) d' = take (Z.to_nat cursor) d
  ∧ decode_page (take (Z.to_nat (used' - used)) (drop (Z.to_nat cursor) d')) = fitting (buf_len - used) es
  ∧ used ≤ used' ≤ buf_len ∧ (used' < buf_len → fitting (buf_len - used) es = es).

Lemma page_cut buf_len cursor used e es d : dirent_ok e → 0 ≤ cursor → 0 ≤ used →
  24 ≤ buf_len - used < 24 + blen (wd_name e) → cursor + (buf_len - used) ≤ blen d →
  page_written buf_len cursor used (e :: es) d (copy_at (Z.to_nat cursor) (head_bytes e) d) buf_len.
Proof.
  intros He Hc Hu Hb Hfit. unfold page_written. cbn [fitting]. rewrite (proj2 (Z.ltb_lt _ _)) by lia.
  unfold blen in Hfit. split_and!; [|apply copy_at_take; lia| |lia..].
  - apply copy_at_length. rewrite length_head. lia.
  - rewrite copy_at_drop by lia. rewrite take_app_ge by (rewrite length_head; lia).
    apply decode_page_cut; [done|]. rewrite length_take, length_head. lia.
Qed.

Lemma page_cons buf_len cursor used e es d d' used' : dirent_ok e → 0 ≤ cursor → 0 ≤ used →
  24 + blen (wd_name e) ≤ buf_len - used → cursor + (buf_len - used) ≤ blen d →
  page_written buf_len (cursor + (24 + blen (wd_name e))) (used + (24 + blen (wd_name e))) es
    (copy_at (Z.to_nat cursor) (encode_dirent e) d) d' used' →
  page_written buf_len cursor used (e :: es) d d' used'.
Proof.
  intros He Hc Hu Hb Hfit (Hl & Ht & Hdec & Hr & Hall). unfold page_written.
  pose proof (blen_nonneg (wd_name e)).
  assert (length (encode_dirent e) = (24 + length (wd_name e))%nat) as Hle by (unfold encode_dirent; by rewrite length_app).
  set (n := (Z.to_nat cursor + length (encode_dirent e))%nat).
  assert (Z.to_nat (cursor + (24 + blen (wd_name e))) = n) as En by (unfold n, blen in *; lia).
  rewrite En in Ht, Hdec. cbn [fitting]. rewrite (proj2 (Z.ltb_ge _ _)) by lia.
  replace (buf_len - (used + (24 + blen (wd_name e)))) with (buf_len - used - (24 + blen (wd_name e))) in * by lia.
  assert (take n (copy_at (Z.to_nat cursor) (encode_dirent e) d) = take (Z.to_nat cursor) d ++ encode_dirent e) as Htk.
  { unfold copy_at, n. rewrite app_assoc, take_app_length'; [done|]. rewrite length_app, length_take. unfold blen in *. lia. }
  rewrite Htk in Ht. rewrite copy_at_length in Hl by (unfold blen in *; lia). split_and!; [done|..|lia|lia|].
  - rewrite <- (take_drop n d'), Ht, <- app_assoc.
    rewrite take_app_length'; [done|]. rewrite length_take. unfold blen in *. lia.
  - rewrite <- Hdec. rewrite <- (take_drop n d'), Ht at 1.
    rewrite <- app_assoc, drop_app_length' by (rewrite length_take; unfold blen in *; lia).
    rewrite take_app_ge by (unfold blen in *; lia). rewrite decode_page_cons by done. do 2 f_equal.
    f_equal. unfold blen in *. lia.
  - intros Hlt. f_equal. by apply Hall.
Qed.

Lemma write_dirents_spec buf_len es : ∀ cursor used d (c : C), ca_memory c = Some d →
  blen d ≤ I32_MAX → 0 ≤ cursor → 0 ≤ used ≤ buf_len → cursor + (buf_len - used) ≤ blen d →
  Forall dirent_ok es →
  ∃ used' d', write_dirents buf_len cursor used es c = (Ok used', with_memory c d')
    ∧ page_written buf_len cursor used es d d' used'.
Proof.
  induction es as [|e es IH]; intros cursor used d c Hm Hd Hcur Hu Hfit Hok.
  { exists used, d. cbn [write_dirents]. unfold page_written. replace (used - used) with 0 by lia.
    split_and!; try done; [|lia]. unfold with_memory, mret, eff_ret. rewrite <- Hm. by destruct c. }
  apply Forall_cons in Hok as [He Hok]. pose proof (blen_nonneg (wd_name e)) as Hn0.
  destruct (decide (buf_len - used < 24)) as [E1|E1].
  { exists buf_len, d. cbn [write_dirents]. unfold WASI_DIRENT_HEAD_SIZE. rewrite (proj2 (Z.ltb_lt _ 24)) by lia.
    unfold page_written. cbn [fitting]. rewrite (proj2 (Z.ltb_lt _ _)) by lia. split_and!; try done; [..|lia|lia].
    - unfold with_memory, mret, eff_ret. rewrite <- Hm. by destruct c.
    - apply decode_page_short. rewrite length_take. lia. }
  rewrite (write_dirents_step _ _ _ _ _ d) by (done || lia).
  destruct (buf_len - used <? 24 + blen (wd_name e)) eqn:E2.
  { apply Z.ltb_lt in E2. eexists _, _. split; [done|]. apply page_cut; done || lia. }
  apply Z.ltb_ge in E2. set (d2 := copy_at (Z.to_nat cursor) (encode_dirent e) d).
  assert (length d2 = length d) as Hl2.
  { apply copy_at_length. unfold encode_dirent. rewrite length_app, length_head. unfold blen in *. lia. }
  destruct (IH (cursor + (24 + blen (wd_name e))) (used + (24 + blen (wd_name e))) d2 (with_memory c d2))
    as (used' & d' & E & Hpage); try (done || unfold blen in *; rewrite ?Hl2; lia).
  exists used', d'. split; [exact E|]. eapply page_cons; eauto; lia.
Qed.
End Page.

(** ** Pages together *)

Lemma window_copy_at s n p bs d : (p + length bs ≤ length d)%nat → (s + n ≤ p ∨ p + length bs ≤ s)%nat →
  take n (drop s (copy_at p bs d)) = take n (drop s d).
Proof.
  intros Hl Hd. apply list_eq. intros i. destruct (decide (i < n)%nat).
  - rewrite !lookup_take_lt, !lookup_drop by done. apply copy_at_outside; lia.
  - rewrite !lookup_ge_None_2; [done|rewrite length_take; lia..].
Qed.

Lemma window_of_copy_at p bs d : (p + length bs ≤ length d)%nat →
  take (length bs) (drop p (copy_at p bs d)) = bs.
Proof. intros Hl. rewrite copy_at_drop by lia. apply take_app_length. Qed.

Lemma fitting_prefix es : ∀ n, ∃ m, fitting n es = take m es.
Proof.
  induction es as [|e es IH]; intros n; cbn [fitting]; [by exists 0%nat|].
  case_match; [by exists 0%nat|]. destruct (IH (n - (24 + blen (wd_name e)))) as [m ->]. by exists (S m).
Qed.

Section Whole.
Context {W H : Type} `{!HasTasks W H} `{!FileHandle W H}.
Context (fsys : nat → FileSystem W H) (default_hash : string → Z) (wasi : WasiState).
Context (fd buf buf_len used_ptr : Z) (es : list WasiDirentRecord).
Local Abbreviation C := (Caller W).

(** The buffer and the word for its use are apart in a memory of less than two gigabytes, and
    the directory is [es] all the time. *)
Record page_setting (c : C) (d : list byte) : Prop := {
  ps_memory : ca_memory c = Some d;
  ps_size : blen d ≤ I32_MAX;
  ps_buf : 0 ≤ buf ∧ 24 < buf_len ∧ buf + buf_len ≤ blen d;
  ps_used : 0 ≤ used_ptr ∧ used_ptr + 4 ≤ blen d;
  ps_apart : used_ptr + 4 ≤ buf ∨ buf + buf_len ≤ used_ptr;
  ps_directory : wasi_readdir_entries fsys default_hash wasi (as_u32 fd) (ca_world c) = (Ok es, ca_world c)
}.

Hypothesis Hok : Forall dirent_ok es.

Lemma page_ok cookie c d : page_setting c d → 0 ≤ cookie →
  ∃ used d', read_page fsys default_hash wasi fd buf buf_len used_ptr cookie c
      = (Ok (used, fitting buf_len (drop (Z.to_nat cookie) es)), with_memory c d')
    ∧ page_setting (with_memory c d') d'
    ∧ (used < buf_len → fitting buf_len (drop (Z.to_nat cookie) es) = drop (Z.to_nat cookie) es)
    ∧ (drop (Z.to_nat cookie) es = [] → used < buf_len).
Proof.
  intros [Hm Hs Hb Hu Ha Hdir] Hc. assert (blen d ≤ USIZE_MAX) by (unfold I32_MAX, USIZE_MAX, U64_MAX in *; lia).
  destruct (write_dirents_spec buf_len (drop (Z.to_nat cookie) es) buf 0 d c)
    as (used & d1 & E & Hl & _ & Hdec & Hr & Hall); try (done || lia); [by apply Forall_drop|].
  rewrite !Z.sub_0_r in *. set (d2 := copy_at (Z.to_nat used_ptr) (le_bytes 4 used) d1).
  assert (Z.to_nat used_ptr + length (le_bytes 4 used) ≤ length d1)%nat as Hf by (cbn; unfold blen in *; lia).
  assert (length d2 = length d) as Hl2 by (unfold d2; by rewrite copy_at_length).
  assert (fd_readdir fsys default_hash wasi fd buf buf_len cookie used_ptr c = (Ok tt, with_memory c d2)) as E1.
  { unfold fd_readdir, guard_err. replace ((buf_len <? 0) || (cookie <? 0)) with false by lia.
    rewrite (eff_bind_Ok (mret tt) _ c tt c eq_refl).
    assert (call (wasi_readdir_entries fsys default_hash wasi (as_u32 fd)) c = (Ok es, c)) as Ec.
    { unfold call, world_call. rewrite Hdir. by destruct c. }
    rewrite (eff_bind_Ok _ _ _ _ _ Ec), (eff_bind_Ok _ _ _ _ _ E). unfold inval, write_u32.
    replace (as_u32 used) with used by (symmetry; apply Z.mod_small; unfold I32_MAX, U32_MAX in *; lia).
    rewrite (write_bytes_ok _ _ d1) by (done || unfold blen in *; cbn; rewrite ?Hl; lia). done. }
  exists used, d2. split_and!; [| |exact Hall|].
  - unfold read_page. rewrite (eff_bind_Ok _ _ _ _ _ E1).
    assert (inval (read_u32 used_ptr) (with_memory c d2) = (Ok used, with_memory c d2)) as E2.
    { unfold inval, read_u32, read_le, mbind, eff_bind.
      rewrite (read_bytes_ok _ _ d2) by (done || unfold blen in *; rewrite ?Hl2; cbn; lia).
      change (Z.to_nat (Z.of_nat 4)) with (length (le_bytes 4 used)). unfold d2. rewrite window_of_copy_at by done.
      rewrite from_le_le_bytes, Z.mod_small; [done|]. cbn. unfold I32_MAX in *. lia. }
    rewrite (eff_bind_Ok _ _ _ _ _ E2).
    assert (inval (read_bytes buf used) (with_memory c d2)
      = (Ok (take (Z.to_nat used) (drop (Z.to_nat buf) d1)), with_memory c d2)) as E3.
    { unfold inval. rewrite (read_bytes_ok _ _ d2) by (done || unfold blen in *; rewrite ?Hl2; lia).
      unfold d2. rewrite window_copy_at by (done || cbn; unfold blen in *; lia). done. }
    rewrite (eff_bind_Ok _ _ _ _ _ E3). by rewrite Hdec.
  - constructor; try done; unfold blen in *; rewrite ?Hl2; done.
  - intros Hnil. rewrite Hnil in E. injection E as <- _. lia.
Qed.

Hypothesis Hnext : ∀ i e, es !! i = Some e → wd_next e = Z.of_nat i + 1.
Hypothesis Hroom : Forall (λ e, 24 + blen (wd_name e) ≤ buf_len) es.

Lemma read_all_ok fuel : ∀ k c d, page_setting c d → (length (drop k es) < fuel)%nat →
  ∃ d', read_all fsys default_hash wasi fd buf buf_len used_ptr fuel (Z.of_nat k) c = (Ok (drop k es), with_memory c d').
Proof.
  induction fuel as [|fuel IH]; intros k c d Hps Hf; [lia|]. cbn [read_all].
  destruct (page_ok (Z.of_nat k) c d Hps ltac:(lia)) as (used & d1 & E & Hps1 & Hall & Hnil).
  rewrite Nat2Z.id in *. rewrite (eff_bind_Ok _ _ _ _ _ E).
  destruct (used <? buf_len) eqn:Hu.
  { apply Z.ltb_lt in Hu. rewrite (Hall Hu). by exists d1. }
  apply Z.ltb_ge in Hu. destruct (fitting_prefix (drop k es) buf_len) as [m Hm].
  destruct (drop k es) as [|e0 rest] eqn:Hdk; [specialize (Hnil eq_refl); lia|].
  assert (es !! k = Some e0) as Hk by (rewrite <- (Nat.add_0_r k), <- lookup_drop, Hdk; done).
  assert (24 + blen (wd_name e0) ≤ buf_len) as Hr0.
  { rewrite Forall_forall in Hroom. apply Hroom. by eapply list_elem_of_lookup_2. }
  destruct m as [|m].
  { cbn [fitting take] in Hm. rewrite (proj2 (Z.ltb_ge _ _)) in Hm by lia. done. }
  rewrite Hm. rewrite <- Hdk.
  set (n := (S m `min` length (drop k es))%nat).
  assert (take (S m) (drop k es) = take n (drop k es)) as ->.
  { unfold n. destruct (decide (S m ≤ length (drop k es))%nat); [by rewrite Nat.min_l|].
    rewrite Nat.min_r, !take_ge by lia. done. }
  assert (1 ≤ n ≤ length (drop k es))%nat as Hn by (unfold n; rewrite Hdk; cbn [length]; lia).
  destruct (lookup_lt_is_Some_2 (drop k es) (n - 1)) as [e He]; [lia|].
  rewrite (last_lookup (take n (drop k es))), length_take, Nat.min_l by lia.
  replace (Nat.pred n) with (n - 1)%nat by lia. rewrite lookup_take_lt, He by lia.
  rewrite lookup_drop in He. rewrite (Hnext _ _ He).
  destruct (IH (k + n)%nat (with_memory c d1) d1 Hps1) as [d2 E2].
  { rewrite length_drop in *. rewrite <- Hdk, length_drop in Hf. lia. }
  replace (Z.of_nat (k + (n - 1)) + 1) with (Z.of_nat (k + n)) by lia.
  rewrite (eff_bind_Ok _ _ _ _ _ E2). exists d2. unfold mret, eff_ret.
  by rewrite <- drop_drop, take_drop.
Qed.
End Whole.

(** ** The directory of a descriptor *)

(** What a guest sees of an entry. *)
Definition seen (e : WasiDirentRecord) : list byte * Z * Z := (wd_name e, wd_type e, wd_ino e).

Section Directory.
Context {W H : Type} `{!HasTasks W H} `{!FileHandle W H}.
Context (fsys : nat → FileSystem W H) (default_hash : string → Z) (wasi : WasiState).

Lemma readdir_entries_ok fd path meta entries (w : W) :
  Task.fd_path (ws_task wasi) fd w = (Ok path, w) →
  in_namespace fsys wasi (λ ns, fs_stat ns Ctx.new path) w = (Ok meta, w) → Meta.is_dir meta = true →
  in_namespace fsys wasi (λ ns, fs_read_dir ns Ctx.new path) w = (Ok entries, w) →
  wasi_readdir_entries fsys default_hash wasi fd w
  = (Ok (dirent_new 1 (wasi_inode default_hash path) FILETYPE_DIRECTORY "."
         :: dirent_new 2 (wasi_inode default_hash (parent_wasi_path path)) FILETYPE_DIRECTORY ".."
         :: imap (λ index entry, dirent_new (Z.of_nat index + 3)
              (wasi_inode default_hash (join_wasi_path path (d_name entry)))
              (filetype (m_mode (d_metadata entry))) (d_name entry)) entries), w).
Proof.
  intros H1 H2 H3 H4. unfold wasi_readdir_entries. rewrite (eff_bind_Ok _ _ _ _ _ H1), (eff_bind_Ok _ _ _ _ _ H2), H3.
  cbn [negb guard_err]. rewrite (eff_bind_Ok (mret tt) _ w tt w eq_refl). cbv zeta.
  by rewrite (eff_bind_Ok _ _ _ _ _ H4).
Qed.

Lemma filetype_u8 mode : in_u8 (filetype mode).
Proof. unfold filetype. by repeat case_match. Qed.

Lemma wasi_inode_u64 path : (∀ s, in_u64 (default_hash s)) → in_u64 (wasi_inode default_hash path).
Proof. intros Hh. unfold wasi_inode. case_match; [unfold in_u64, U64_MAX; lia|apply Hh]. Qed.

(** C27. A guest that reads a directory in pieces sees all of it: going on from the cookie of
    the last record until the buffer is not filled, it reads "." and ".." and every entry
    that the namespace lists, once and in order, with its type and inode, whatever the
    size of a buffer that has room for each entry alone. *)
Theorem wasi_readdir_complete fd buf buf_len used_ptr fuel path meta entries (c : Caller W) d :
  ca_memory c = Some d → blen d ≤ I32_MAX → 0 ≤ buf → buf + buf_len ≤ blen d →
  0 ≤ used_ptr → used_ptr + 4 ≤ blen d → used_ptr + 4 ≤ buf ∨ buf + buf_len ≤ used_ptr →
  Task.fd_path (ws_task wasi) (as_u32 fd) (ca_world c) = (Ok path, ca_world c) →
  in_namespace fsys wasi (λ ns, fs_stat ns Ctx.new path) (ca_world c) = (Ok meta, ca_world c) →
  Meta.is_dir meta = true →
  in_namespace fsys wasi (λ ns, fs_read_dir ns Ctx.new path) (ca_world c) = (Ok entries, ca_world c) →
  (∀ s, in_u64 (default_hash s)) → Z.of_nat (length entries) ≤ ISIZE_MAX → 26 ≤ buf_len →
  Forall (λ e, 24 + blen (bytes_of (d_name e)) ≤ buf_len) entries → (length entries + 2 < fuel)%nat →
  ∃ es d', read_all fsys default_hash wasi fd buf buf_len used_ptr fuel 0 c = (Ok es, with_memory c d')
    ∧ seen <$> es
      = (bytes_of ".", FILETYPE_DIRECTORY, wasi_inode default_hash path)
        :: (bytes_of "..", FILETYPE_DIRECTORY, wasi_inode default_hash (parent_wasi_path path))
        :: ((λ e, (bytes_of (d_name e), filetype (m_mode (d_metadata e)),
               wasi_inode default_hash (join_wasi_path path (d_name e)))) <$> entries).
Proof.
  intros Hm Hd Hb1 Hb2 Hu1 Hu2 Ha H1 H2 H3 H4 Hh Hlen H26 Hroom Hfuel.
  pose proof (readdir_entries_ok _ _ _ _ _ H1 H2 H3 H4) as Hdir.
  match type of Hdir with _ = (Ok (_ :: _ :: ?l), _) => remember l as rest eqn:Hrest end. set (es := _ :: _ :: _) in Hdir.
  assert (length es = 2 + length entries)%nat as Hles by (unfold es; cbn; by rewrite Hrest, length_imap).
  assert (∀ i e, es !! i = Some e → ∃ name typ path', e = dirent_new (Z.of_nat i + 1) (wasi_inode default_hash path') typ name
    ∧ in_u8 typ ∧ 24 + blen (bytes_of name) ≤ buf_len) as Hes.
  { intros [|[|i]] e He; cbn in He.
    - injection He as <-. exists ".", FILETYPE_DIRECTORY, path. split_and!; [done|done|change (blen (bytes_of ".")) with 1; lia].
    - injection He as <-. exists "..", FILETYPE_DIRECTORY, (parent_wasi_path path). split_and!; [done|done|change (blen (bytes_of "..")) with 2; lia].
    - change (rest !! i = Some e) in He. rewrite Hrest, list_lookup_imap in He. apply fmap_Some in He as (en & Hen & ->).
      exists (d_name en), (filetype (m_mode (d_metadata en))), (join_wasi_path path (d_name en)).
      split_and!; [f_equal; lia|apply filetype_u8|]. rewrite Forall_forall in Hroom.
      apply Hroom. by eapply list_elem_of_lookup_2. }
  destruct (read_all_ok fsys default_hash wasi fd buf buf_len used_ptr es) with (fuel:=fuel) (k:=0%nat) (c:=c) (d:=d)
    as [d' E].
  - apply Forall_lookup_2. intros i e He. pose proof (lookup_lt_Some _ _ _ He).
    destruct (Hes i e He) as (name & typ & p' & -> & Ht & Hn).
    split_and!; cbn; [unfold in_u64, U64_MAX, ISIZE_MAX, I64_MAX in *; lia|by apply wasi_inode_u64|done|].
    unfold I32_MAX, U32_MAX in *. lia.
  - intros i e He. by destruct (Hes i e He) as (name & typ & p' & -> & _).
  - apply Forall_lookup_2. intros i e He. by destruct (Hes i e He) as (name & typ & p' & -> & _ & Hn).
  - constructor; try done; lia.
  - rewrite drop_0, Hles. lia.
  - exists es, d'. split; [exact E|]. unfold es. cbn [fmap list_fmap]. do 2 f_equal.
    apply list_eq. intros i. rewrite Hrest, !list_lookup_fmap, list_lookup_imap. by destruct (entries !! i).
Qed.
End Directory.
