(* ===== verification/WasiBuffers.v ===== *)
(** * Arguments and scattered buffers of a WASI guest

    The arguments and the environment that the host writes are what the guest reads back,
    and a read into scattered buffers is one read of the file cut into pieces. *)

From stdpp Require Import base list numbers option strings.
From Stdlib Require Import ZArith Lia Ascii.
From S2P Require Import Prelude Strs RcText BTree Core FsTrait Vfs P9Codec P9CodecFacts Field Task HttpText Proto WasiMem Wasi WasiHost WasiFacts WasiReaddir.

Local Open Scope Z_scope.
Import WasiMem Wasi WasiHost.

(** ** Arrays of strings *)

(** A string of C: up to the first NUL. *)
Fixpoint c_string (bs : list byte) : list byte :=
  match bs with
  | [] => []
  | b :: bs => if decide (b = x00) then [] else b :: c_string bs
  end.

(** The strings that [n] pointers at [ptrs] lead to. *)
Definition guest_strings (ptrs : Z) (n : nat) (d : list byte) : list (list byte) :=
  (λ i : nat, c_string (drop (Z.to_nat (le_at (Z.to_nat ptrs + 4 * i) 4 d)) d)) <$> seq 0 n.

Lemma c_string_app l rest : x00 ∉ l → c_string (l ++ x00 :: rest) = l.
Proof.
  induction l as [|b l IH]; intros Hl; cbn; [done|]. apply not_elem_of_cons in Hl as [Hb Hl].
  rewrite decide_False by done. by rewrite IH.
Qed.

Definition outside_same (rs : Regions) (d d' : list byte) : Prop := same_outside rs (Some d) (Some d').

(** A part of the memory outside the regions reads the same. *)
Lemma outside_window rs d d' (s n : nat) : outside_same rs d d' →
  (∀ i, Z.of_nat s ≤ i < Z.of_nat s + Z.of_nat n → ¬ in_regions rs i) →
  take n (drop s d') = take n (drop s d).
Proof.
  intros [Hl Hs] Hn. apply list_eq. intros i. destruct (decide (i < n)%nat).
  - rewrite !lookup_take_lt, !lookup_drop by done. apply Hs, Hn. lia.
  - rewrite !lookup_ge_None_2; [done|rewrite length_take; lia..].
Qed.

Section Strings.
Context {W : Type}.
Local Abbreviation C := (Caller W).

Lemma write_u32_ok ptr v d (c : C) : ca_memory c = Some d → 0 ≤ ptr → ptr + 4 ≤ blen d → blen d ≤ I32_MAX →
  write_u32 ptr v c = (Ok tt, with_memory c (copy_at (Z.to_nat ptr) (le_bytes 4 v) d)).
Proof.
  intros Hm Hp Hb Hd. apply write_bytes_ok; [done..|].
  unfold I32_MAX, USIZE_MAX, U64_MAX in *. lia.
Qed.

(** One string: its pointer, its bytes and the NUL. *)
Definition string_written (slot cursor : nat) (value : list byte) (d : list byte) : list byte :=
  copy_at cursor (value ++ [x00]) (copy_at slot (le_bytes 4 (Z.of_nat cursor)) d).

Lemma write_strings_step index ptrs cursor value strings d (c : C) : ca_memory c = Some d →
  blen d ≤ I32_MAX → 0 ≤ index → 0 ≤ ptrs → 0 ≤ cursor → ptrs + 4 * index + 4 ≤ blen d →
  cursor + blen (bytes_of value) + 1 ≤ blen d →
  write_strings index ptrs cursor (value :: strings) c
  = write_strings (index + 1) ptrs (cursor + blen (bytes_of value) + 1) strings
      (with_memory c (string_written (Z.to_nat (ptrs + 4 * index)) (Z.to_nat cursor) (bytes_of value) d)).
Proof.
  intros Hm Hd Hi Hp Hc Hslot Hbuf. cbn [write_strings]. pose proof (blen_nonneg (bytes_of value)).
  assert (blen d ≤ USIZE_MAX) by (unfold I32_MAX, USIZE_MAX, U64_MAX in *; lia).
  rewrite !as_i32_id by (unfold in_i32, I32_MAX in *; lia).
  rewrite trap_ok by lia. rewrite trap_ok by lia.
  replace (as_u32 cursor) with cursor by (symmetry; apply Z.mod_small; unfold I32_MAX, U32_MAX in *; lia).
  set (d1 := copy_at (Z.to_nat (ptrs + 4 * index)) (le_bytes 4 cursor) d).
  assert (length d1 = length d) as Hl1 by (apply copy_at_length; cbn; unfold blen in *; lia).
  assert (write_u32 (ptrs + index * 4) cursor c = (Ok tt, with_memory c d1)) as E1.
  { rewrite (write_u32_ok _ _ d) by (done || lia). unfold d1. do 4 f_equal. lia. }
  rewrite (eff_bind_Ok _ _ _ _ _ E1).
  set (d2 := copy_at (Z.to_nat cursor) (bytes_of value) d1).
  assert (length d2 = length d) as Hl2 by (unfold d2; rewrite copy_at_length; [done|unfold blen in *; lia]).
  assert (write_bytes cursor (bytes_of value) (with_memory c d1) = (Ok tt, with_memory c d2)) as E2.
  { rewrite (write_bytes_ok _ _ d1) by (done || unfold blen in *; lia). done. }
  rewrite (eff_bind_Ok _ _ _ _ _ E2). rewrite trap_ok by lia.
  assert (write_bytes (cursor + blen (bytes_of value)) [x00] (with_memory c d2)
    = (Ok tt, with_memory c (string_written (Z.to_nat (ptrs + 4 * index)) (Z.to_nat cursor) (bytes_of value) d))) as E3.
  { rewrite (write_bytes_ok _ _ d2) by (done || unfold blen in *; cbn; lia). unfold string_written, d2.
    replace (Z.to_nat (cursor + blen (bytes_of value))) with (Z.to_nat cursor + length (bytes_of value))%nat
      by (unfold blen; lia).
    rewrite copy_at_app by (cbn; unfold blen in *; lia). unfold d1. by rewrite Z2Nat.id by lia. }
  rewrite (eff_bind_Ok _ _ _ _ _ E3). by rewrite trap_ok by lia.
Qed.

Lemma string_written_outside slot cursor value d :
  (slot + 4 ≤ length d)%nat → (cursor + length value + 1 ≤ length d)%nat →
  outside_same [(Z.of_nat slot, 4); (Z.of_nat cursor, blen value + 1)] d (string_written slot cursor value d).
Proof.
  intros Hs Hc. unfold string_written. set (d1 := copy_at slot _ d).
  assert (length d1 = length d) as Hl by (apply copy_at_length; cbn; lia).
  split; [rewrite copy_at_length; rewrite ?length_app; cbn; lia|]. intros i Hi.
  unfold in_regions, in_region, blen in Hi. rewrite !Exists_cons, Exists_nil in Hi. cbn in Hi.
  rewrite copy_at_outside by (rewrite ?length_app; cbn; lia). apply copy_at_outside; cbn; lia.
Qed.

Lemma guest_string_at slot cursor value d d' rs : outside_same rs (string_written slot cursor value d) d' →
  (slot + 4 ≤ length d)%nat → (cursor + length value + 1 ≤ length d)%nat → x00 ∉ value →
  Z.of_nat cursor ≤ U32_MAX → (slot + 4 ≤ cursor ∨ cursor + length value + 1 ≤ slot)%nat →
  (∀ i, Z.of_nat slot ≤ i < Z.of_nat slot + 4 → ¬ in_regions rs i) →
  (∀ i, Z.of_nat cursor ≤ i < Z.of_nat cursor + blen value + 1 → ¬ in_regions rs i) →
  c_string (drop (Z.to_nat (le_at slot 4 d')) d') = value.
Proof.
  intros Hout Hs Hc Hnul Hu Hap H1 H2. set (d1 := copy_at slot (le_bytes 4 (Z.of_nat cursor)) d).
  assert (length d1 = length d) as Hl by (apply copy_at_length; cbn; lia).
  assert (le_at slot 4 d' = Z.of_nat cursor) as ->.
  { unfold le_at. rewrite (outside_window _ _ _ _ _ Hout) by (intros; apply H1; lia).
    unfold string_written. fold d1. rewrite window_copy_at by (rewrite ?length_app; cbn; lia).
    change 4%nat with (length (le_bytes 4 (Z.of_nat cursor))) at 1. unfold d1.
    rewrite window_of_copy_at by (cbn; lia). rewrite from_le_le_bytes. apply Z.mod_small.
    unfold U32_MAX in Hu. cbn. lia. }
  rewrite Nat2Z.id, <- (take_drop (length (value ++ [x00])) (drop cursor d')).
  rewrite (outside_window _ _ _ _ _ Hout) by (intros; apply H2; rewrite length_app in *; unfold blen; cbn in *; lia).
  unfold string_written. fold d1. rewrite window_of_copy_at by (rewrite length_app; cbn; lia).
  rewrite <- app_assoc. by apply c_string_app.
Qed.

(** Where the pointers and the strings go. *)
Definition string_areas (ptrs cursor : Z) (strings : list string) : Regions :=
  [(ptrs, 4 * Z.of_nat (length strings)); (cursor, strings_size strings)].

Lemma strings_size_cons s l : strings_size (s :: l) = blen (bytes_of s) + 1 + strings_size l.
Proof. done. Qed.

Lemma in_areas ptrs cursor strings i : in_regions (string_areas ptrs cursor strings) i ↔
  ptrs ≤ i < ptrs + 4 * Z.of_nat (length strings) ∨ cursor ≤ i < cursor + strings_size strings.
Proof.
  unfold in_regions, string_areas. rewrite !Exists_cons, Exists_nil. unfold in_region. cbn [fst snd]. tauto.
Qed.

Lemma write_strings_ok strings : ∀ index ptrs cursor d (c : C), ca_memory c = Some d → blen d ≤ I32_MAX →
  0 ≤ index → 0 ≤ ptrs → 0 ≤ cursor →
  ptrs + 4 * (index + Z.of_nat (length strings)) ≤ blen d → cursor + strings_size strings ≤ blen d →
  ptrs + 4 * (index + Z.of_nat (length strings)) ≤ cursor ∨ cursor + strings_size strings ≤ ptrs →
  Forall (λ s, x00 ∉ bytes_of s) strings →
  ∃ d', write_strings index ptrs cursor strings c = (Ok tt, with_memory c d')
    ∧ outside_same (string_areas (ptrs + 4 * index) cursor strings) d d'
    ∧ guest_strings (ptrs + 4 * index) (length strings) d' = bytes_of <$> strings.
Proof.
  induction strings as [|s strings IH]; intros index ptrs cursor d c Hm Hd Hi Hp Hc Hb1 Hb2 Hap Hnul.
  { exists d. cbn [write_strings]. split_and!; [|apply same_outside_refl|done].
    unfold with_memory, mret, eff_ret. rewrite <- Hm. by destruct c. }
  apply Forall_cons in Hnul as [Hs Hnul]. rewrite strings_size_cons in *. cbn [length] in *.
  pose proof (blen_nonneg (bytes_of s)). pose proof (strings_size_length strings).
  rewrite (write_strings_step _ _ _ _ _ d) by (done || lia).
  set (slot := Z.to_nat (ptrs + 4 * index)). set (d1 := string_written slot (Z.to_nat cursor) (bytes_of s) d).
  assert (outside_same [(Z.of_nat slot, 4); (Z.of_nat (Z.to_nat cursor), blen (bytes_of s) + 1)] d d1) as Ho
    by (apply string_written_outside; unfold slot, blen in *; lia).
  assert (blen d1 = blen d) as Hl1 by (unfold blen; destruct Ho as [-> _]; done).
  destruct (IH (index + 1) ptrs (cursor + blen (bytes_of s) + 1) d1 (with_memory c d1)) as (d' & E & Hout & Hg);
    rewrite ?Hl1; try (done || lia).
  exists d'. split_and!; [exact E|..].
  - eapply (same_outside_trans _ _ (Some d1)).
    + eapply same_outside_weaken; [|exact Ho]. intros i Hin. apply in_areas.
      unfold in_regions in Hin. rewrite !Exists_cons, Exists_nil in Hin. unfold in_region in Hin. cbn [fst snd length] in *.
      rewrite strings_size_cons. unfold slot in Hin. lia.
    + eapply same_outside_weaken; [|exact Hout]. intros i Hin. apply in_areas. apply in_areas in Hin.
      cbn [length]. rewrite strings_size_cons. lia.
  - cbn [fmap list_fmap]. rewrite <- Hg. unfold guest_strings. cbn [seq fmap list_fmap]. f_equal.
    + rewrite Nat.mul_0_r, Nat.add_0_r. change (Z.to_nat (ptrs + 4 * index)) with slot.
      eapply (guest_string_at slot (Z.to_nat cursor) (bytes_of s) d); [exact Hout|..]; unfold slot, blen in *;
        try (done || unfold I32_MAX, U32_MAX in *; lia); intros i Hin Hr; apply in_areas in Hr; lia.
    + rewrite <- seq_shift, <- list_fmap_compose. apply list_fmap_ext. intros i x _. cbn [compose].
      do 4 f_equal; lia.
Qed.
End Strings.

(** ** Arguments and environment *)

Section Args.
Context {W H : Type} `{!HasTasks W H} `{!FileHandle W H} (wasi : WasiState).
Local Abbreviation C := (Caller W).

(** What a guest does at its start: it asks for the number and the size of the strings and
    lays out its memory, with the pointers at [ptrs] and the strings behind them. *)
Definition guest_args (sizes get : Z → Z → Eff Z C unit) (out ptrs : Z) : Eff Z C (list (list byte)) :=
  sizes out (out + 4) ;;
  count ← inval (read_u32 out);
  size ← inval (read_u32 (out + 4));
  get ptrs (ptrs + 4 * count) ;;
  d ← inval memory;
  mret (guest_strings ptrs (Z.to_nat count) d).

(** The name and the value of a rendered variable. *)
Fixpoint split_variable (bs : list byte) : list byte * list byte :=
  match bs with
  | [] => ([], [])
  | b :: bs => if decide (b = x3d) then ([], bs) else let '(n, v) := split_variable bs in (b :: n, v)
  end.

Lemma split_variable_app n v : x3d ∉ n → split_variable (n ++ x3d :: v) = (n, v).
Proof.
  induction n as [|b n IH]; intros Hn; cbn; [done|]. apply not_elem_of_cons in Hn as [Hb Hn].
  rewrite decide_False by done. by rewrite IH.
Qed.

Lemma guest_args_ok (strings : list string) sizes get out ptrs d (c : C) :
  sizes = (λ a b, inval (write_u32 a (as_u32 (Z.of_nat (length strings))) ;; write_u32 b (as_u32 (strings_size strings)))) →
  get = (λ a b, inval (write_string_array a b strings)) →
  ca_memory c = Some d → blen d ≤ I32_MAX → 0 ≤ out → out + 8 ≤ ptrs →
  ptrs + 4 * Z.of_nat (length strings) + strings_size strings ≤ blen d →
  Forall (λ s, x00 ∉ bytes_of s) strings →
  ∃ d', guest_args sizes get out ptrs c = (Ok (bytes_of <$> strings), with_memory c d').
Proof.
  intros -> -> Hm Hd H0 H1 H2 Hnul. pose proof (strings_size_length strings) as Hn. unfold guest_args.
  set (n := Z.of_nat (length strings)) in *. set (z := strings_size strings) in *.
  assert (as_u32 n = n ∧ as_u32 z = z) as [-> ->] by (split; apply Z.mod_small; unfold I32_MAX, U32_MAX in *; lia).
  set (d1 := copy_at (Z.to_nat out) (le_bytes 4 n ++ le_bytes 4 z) d).
  assert (length d1 = length d) as Hl1 by (apply copy_at_length; cbn; unfold blen in *; lia).
  assert (blen d ≤ USIZE_MAX) by (unfold I32_MAX, USIZE_MAX, U64_MAX in *; lia).
  assert (inval (write_u32 out n ;; write_u32 (out + 4) z) c = (Ok tt, with_memory c d1)) as E1.
  { unfold inval. rewrite (eff_bind_Ok _ _ _ _ _ (write_u32_ok out n d c Hm H0 ltac:(lia) Hd)).
    rewrite (write_u32_ok (out + 4) z (copy_at (Z.to_nat out) (le_bytes 4 n) d)) by
      (done || unfold blen in *; rewrite ?copy_at_length; cbn; lia).
    replace (Z.to_nat (out + 4)) with (Z.to_nat out + length (le_bytes 4 n))%nat by (cbn; lia).
    by rewrite copy_at_app by (cbn; unfold blen in *; lia). }
  rewrite (eff_bind_Ok _ _ _ _ _ E1).
  assert (∀ off v l1 l2, le_bytes 4 n ++ le_bytes 4 z = l1 ++ le_bytes 4 v ++ l2 → off = Z.of_nat (length l1) →
    0 ≤ v ≤ U32_MAX → (off = 0 ∨ off = 4) →
    inval (read_u32 (out + off)) (with_memory c d1) = (Ok v, with_memory c d1)) as Hrd.
  { intros off v l1 l2 El -> Hv Hoff. unfold inval, read_u32, read_le, mbind, eff_bind.
    rewrite (read_bytes_ok _ _ d1) by (done || unfold blen in *; rewrite ?Hl1; cbn; lia).
    replace (Z.to_nat (out + Z.of_nat (length l1))) with (Z.to_nat out + length l1)%nat by lia.
    rewrite <- drop_drop. unfold d1. rewrite copy_at_drop by (unfold blen in *; lia). rewrite El, <- !app_assoc, drop_app_length.
    change (Z.to_nat (Z.of_nat 4)) with (length (le_bytes 4 v)). rewrite take_app_length, from_le_le_bytes, Z.mod_small; [done|].
    unfold U32_MAX in Hv. cbn. lia. }
  assert (inval (read_u32 out) (with_memory c d1) = (Ok n, with_memory c d1)) as E2.
  { rewrite <- (Z.add_0_r out). apply (Hrd 0 n [] (le_bytes 4 z)); [done|done|unfold I32_MAX, U32_MAX in *; lia|by left]. }
  rewrite (eff_bind_Ok _ _ _ _ _ E2).
  assert (inval (read_u32 (out + 4)) (with_memory c d1) = (Ok z, with_memory c d1)) as E3.
  { apply (Hrd 4 z (le_bytes 4 n) []); [by rewrite app_nil_r|done|unfold I32_MAX, U32_MAX in *; lia|by right]. }
  rewrite (eff_bind_Ok _ _ _ _ _ E3).
  destruct (write_strings_ok strings 0 ptrs (ptrs + 4 * n) d1 (with_memory c d1)) as (d' & E4 & _ & Hg);
    try (done || unfold blen in *; rewrite ?Hl1; lia).
  assert (inval (write_string_array ptrs (ptrs + 4 * n) strings) (with_memory c d1) = (Ok tt, with_memory c d')) as E5.
  { unfold inval, write_string_array. by rewrite E4. }
  rewrite (eff_bind_Ok _ _ _ _ _ E5). exists d'. unfold n. rewrite Nat2Z.id.
  replace (ptrs + 4 * 0) with ptrs in Hg by lia. rewrite <- Hg. done.
Qed.

(** A guest gets the arguments and the environment it was started with: the sizes that
    the host announces are enough room, and what the guest reads through the pointers are
    the strings, each variable splitting at its first equals sign into name and value. *)
Theorem wasi_arguments_arrive out ptrs d (c : C) :
  ca_memory c = Some d → blen d ≤ I32_MAX → 0 ≤ out → out + 8 ≤ ptrs →
  (ptrs + 4 * Z.of_nat (length (ws_args wasi)) + strings_size (ws_args wasi) ≤ blen d →
   Forall (λ s, x00 ∉ bytes_of s) (ws_args wasi) →
   ∃ d', guest_args (args_sizes_get wasi) (args_get wasi) out ptrs c
     = (Ok (bytes_of <$> ws_args wasi), with_memory c d'))
  ∧ (ptrs + 4 * Z.of_nat (length (ws_env wasi)) + strings_size (render_env (ws_env wasi)) ≤ blen d →
     Forall (λ e, (x00 ∉ bytes_of (env_name e)) ∧ (x00 ∉ bytes_of (env_value e)) ∧ (x3d ∉ bytes_of (env_name e)))
       (ws_env wasi) →
     ∃ vs d', guest_args (environ_sizes_get wasi) (environ_get wasi) out ptrs c = (Ok vs, with_memory c d')
       ∧ (split_variable <$> vs) = ((λ e, (bytes_of (env_name e), bytes_of (env_value e))) <$> ws_env wasi)).
Proof.
  intros Hm Hd H0 H1. split.
  - intros H2 Hnul. by apply (guest_args_ok (ws_args wasi) _ _ out ptrs d).
  - intros H2 Henv. set (rendered := render_env (ws_env wasi)).
    assert (length rendered = length (ws_env wasi)) as Hl by (unfold rendered, render_env; by rewrite length_fmap).
    assert (∀ e, bytes_of (env_name e +:+ "=" +:+ env_value e) = bytes_of (env_name e) ++ x3d :: bytes_of (env_value e)) as Hb.
    { intros e. by rewrite !bytes_of_app. }
    destruct (guest_args_ok rendered (environ_sizes_get wasi) (environ_get wasi) out ptrs d c) as [d' E]; try done.
    + rewrite Hl. done.
    + unfold rendered, render_env. apply Forall_fmap. eapply Forall_impl; [exact Henv|]. intros e (Hn & Hv & _).
      change (x00 ∉ bytes_of (env_name e +:+ "=" +:+ env_value e)). rewrite Hb, elem_of_app, elem_of_cons.
      intros [?|[?|?]]; done.
    + exists (bytes_of <$> rendered), d'. split; [exact E|]. unfold rendered, render_env.
      rewrite <- !list_fmap_compose. apply list_fmap_ext. intros i e He. cbn [compose].
      etransitivity; [apply f_equal, Hb|]. apply split_variable_app. rewrite Forall_forall in Henv.
      apply (Henv e). by eapply list_elem_of_lookup_2.
Qed.
End Args.

(** ** Scattered reads *)

(** [data] cut into the buffers, as far as it goes. *)
Fixpoint scatter (data : list byte) (iovs : list (Z * Z)) (d : list byte) : list byte :=
  match iovs with
  | [] => d
  | (ptr, len) :: iovs =>
      let piece := take (Z.to_nat len) data in
      let d := copy_at (Z.to_nat ptr) piece d in
      if blen piece <? len then d else scatter (drop (Z.to_nat len) data) iovs d
  end.

Definition room (iovs : list (Z * Z)) : Z := foldr (λ iov n, iov.2 + n) 0 iovs.

Lemma window_eq data off len : 0 ≤ off → 0 ≤ len →
  window data off len = take (Z.to_nat len) (drop (Z.to_nat off) data).
Proof.
  intros Ho Hl. unfold window. destruct (blen data <=? off) eqn:E.
  - apply Z.leb_le in E. rewrite drop_ge by (unfold blen in *; lia). by rewrite take_nil.
  - apply Z.leb_gt in E. destruct (decide (len ≤ blen data - off)); [by rewrite Z.min_l|].
    rewrite Z.min_r, !take_ge by (rewrite ?length_drop; unfold blen in *; lia). done.
Qed.

Section Scattered.
Context {W H : Type} `{!HasTasks W H} `{!FileHandle W H} (wasi : WasiState).
Local Abbreviation C := (Caller W).
Context (contents : list byte) (read : Z → Z → Eff Z C (list byte)).

Definition buffers_ok (d : list byte) (iovs : list (Z * Z)) : Prop :=
  Forall (λ iov, 0 ≤ iov.1 ∧ 0 ≤ iov.2 ∧ iov.1 + iov.2 ≤ blen d) iovs.

Lemma room_nonneg d iovs : buffers_ok d iovs → 0 ≤ room iovs.
Proof.
  unfold room. induction 1 as [|[p n] iovs (_ & Hn & _) _ IH]; cbn [foldr fst snd] in *; lia.
Qed.

Lemma read_scattered_ok iovs : ∀ total offset d (c : C),
  (∀ len off c', ca_world c' = ca_world c → 0 ≤ len → 0 ≤ off → read len off c' = (Ok (window contents off len), c')) →
  ca_memory c = Some d → blen d ≤ I32_MAX → buffers_ok d iovs → 0 ≤ total → 0 ≤ offset →
  total + room iovs ≤ U32_MAX → offset + room iovs ≤ U64_MAX →
  let data := window contents offset (room iovs) in
  read_scattered read total offset iovs c = (Ok (total + blen data), with_memory c (scatter data iovs d)).
Proof.
  induction iovs as [|[ptr len] iovs IH]; intros total offset d c Hr Hm Hd Hb Ht Ho Hu32 Hu64 data;
    cbn [read_scattered scatter].
  { unfold data. rewrite window_eq by done. cbn. rewrite Z.add_0_r. unfold with_memory, mret, eff_ret.
    rewrite <- Hm. by destruct c. }
  pose proof Hb as Hb0. apply Forall_cons in Hb as [(Hp & Hl & Hpl) Hb]. cbn [fst snd] in *.
  pose proof (room_nonneg _ _ Hb) as Hroom. cbn [room foldr fst snd] in *. fold (room iovs) in *.
  unfold alloc_buffer. replace (as_usize len) with len by
    (symmetry; apply Z.mod_small; unfold I32_MAX, USIZE_MAX, U64_MAX in *; lia).
  rewrite (proj2 (Z.ltb_ge ISIZE_MAX len)) by (unfold I32_MAX, ISIZE_MAX, I64_MAX in *; lia).
  rewrite (eff_bind_Ok (mret tt) _ c tt c eq_refl).
  rewrite (eff_bind_Ok _ _ _ _ _ (Hr len offset c eq_refl Hl Ho)).
  assert (take (Z.to_nat len) data = window contents offset len) as Hpiece.
  { unfold data. rewrite !window_eq, take_take by lia. f_equal. lia. }
  rewrite Hpiece. set (piece := window contents offset len) in *.
  assert (blen piece ≤ len) as Hpl2 by (unfold piece, blen; rewrite window_eq, length_take by done; lia).
  rewrite (proj2 (Z.ltb_ge len (blen piece)) Hpl2).
  assert (inval (write_bytes ptr piece) c = (Ok tt, with_memory c (copy_at (Z.to_nat ptr) piece d))) as Ew.
  { unfold inval. rewrite (write_bytes_ok _ _ d) by (done || unfold I32_MAX, USIZE_MAX, U64_MAX in *; lia). done. }
  rewrite (eff_bind_Ok _ _ _ _ _ Ew). pose proof (blen_nonneg piece). cbv zeta.
  replace (as_u32 (blen piece)) with (blen piece) by (symmetry; apply Z.mod_small; unfold U32_MAX in *; lia).
  unfold saturating_u32, saturating_u64. rewrite !Z.min_l by lia.
  destruct (blen piece <? len) eqn:Es.
  { apply Z.ltb_lt in Es. assert (data = piece) as ->; [|done].
    unfold data, piece in *. unfold blen in Es. rewrite window_eq, length_take in Es by lia.
    rewrite !window_eq by lia. rewrite !take_ge by lia. done. }
  apply Z.ltb_ge in Es. assert (blen piece = len) as Heq by lia.
  set (d1 := copy_at (Z.to_nat ptr) piece d).
  assert (blen d1 = blen d) as Hl1 by (unfold blen in *; unfold d1; rewrite copy_at_length; lia).
  assert (drop (Z.to_nat len) data = window contents (offset + len) (room iovs)) as ->.
  { unfold data. rewrite !window_eq by lia. rewrite skipn_firstn_comm, drop_drop. f_equal; f_equal; lia. }
  rewrite (IH (total + blen piece) (offset + blen piece) d1 (with_memory c d1)); rewrite ?Heq, ?Hl1; try (done || lia).
  - do 2 f_equal. rewrite <- Z.add_assoc. f_equal. unfold data, blen in *. rewrite !window_eq in * by lia.
    rewrite !length_take, !length_drop in *. unfold piece in Heq. rewrite window_eq, length_take, length_drop in Heq by lia. lia.
  - unfold buffers_ok. by rewrite Hl1.
Qed.
End Scattered.

(** A read at an offset into scattered buffers is one read of the file: when the handle
    answers reads of [contents], what arrives is the part of [contents] at the offset, as
    long as the buffers together, cut into them in order; the count is its length and
    nothing else of the guest or of the world changes. *)
Theorem wasi_scattered_read {W H} `{!HasTasks W H} `{!FileHandle W H} wasi fd iovs_ptr iovs_len offset nread
    contents iovs d (c : Caller W) :
  ca_memory c = Some d → blen d ≤ I32_MAX → read_iov_descriptors iovs_ptr iovs_len c = (Ok iovs, c) →
  buffers_ok d iovs → room iovs ≤ U32_MAX → 0 ≤ offset ≤ I64_MAX → 0 ≤ nread → nread + 4 ≤ blen d →
  (∀ len off, 0 ≤ len → 0 ≤ off →
    Task.with_fd_mut (ws_task wasi) (as_u32 fd) (with_preserved_offset (fh_read_at len off)) (ca_world c)
    = (Ok (window contents off len), ca_world c)) →
  let data := window contents offset (room iovs) in
  fd_pread wasi fd iovs_ptr iovs_len offset nread c
  = (Ok tt, with_memory c (copy_at (Z.to_nat nread) (le_bytes 4 (blen data)) (scatter data iovs d))).
Proof.
  intros Hm Hd Hio Hb Hroom Ho Hn1 Hn2 Hr data. unfold fd_pread, guard_err.
  rewrite (proj2 (Z.ltb_ge _ _)) by lia. rewrite (eff_bind_Ok (mret tt) _ c tt c eq_refl), (eff_bind_Ok _ _ _ _ _ Hio).
  pose proof (room_nonneg _ _ Hb).
  erewrite eff_bind_Ok; [|apply (read_scattered_ok contents) with (d:=d);
    try (done || unfold I64_MAX, U32_MAX, U64_MAX in *; lia)].
  2: { intros len off c' Hw Hl Hoff. unfold with_fd, call, world_call. rewrite Hw, (Hr len off Hl Hoff). rewrite <- Hw. by destruct c'. }
  fold data. rewrite Z.add_0_l. unfold inval.
  assert (∀ iovs data d', buffers_ok d' iovs → length (scatter data iovs d') = length d') as Hlen.
  { clear. induction iovs as [|[p n] iovs IH]; intros data d' Hb; cbn; [done|].
    apply Forall_cons in Hb as [(Hp & Hn & Hpn) Hb]. cbn in *.
    assert (length (copy_at (Z.to_nat p) (take (Z.to_nat n) data) d') = length d') as Hc.
    { apply copy_at_length. rewrite length_take. unfold blen in *. lia. }
    case_match; [done|]. rewrite IH; [done|]. unfold buffers_ok, blen in *. by rewrite Hc. }
  rewrite (write_u32_ok _ _ (scatter data iovs d)); [done|done|done|..]; unfold blen in *; rewrite Hlen; done.
Qed.

(** ** Examples of the WASI host

    A small world of one task, the theorems on guests there, and what the host does where
    it is not what preview 1 asks for. *)

(** ** A world *)

Abbreviation Desk := (TaskStore HttpHandle).

#[local] Instance desk_tasks : HasTasks Desk HttpHandle.
Proof. by refine {| tasks_of s := s; set_tasks s _ := s |}. Defined.

#[local] Instance desk_handles : FileHandle Desk HttpHandle := HttpFiles.http_handle (λ _ _ _, unsupported).

Definition hello : list byte := bytes_of "hello, world".

Definition entry (name : string) : DirEntry := mkDirEntry name (Meta.file name 420 12).

Definition desk_fs : FileSystem Desk HttpHandle :=
  default_fs (λ _ name, mret (if decide (name = "home") then directory_file (Meta.dir "home" 493) [entry "b"; entry "a"]
                              else BoxRead (HttpFiles.read_file_of (Meta.file name 420 12) hello)))
    (λ _ name, mret (if decide (name = "home") then Meta.dir "home" 493 else Meta.file name 420 12))
    (λ _, unsupported) (λ _ _, unsupported).

Definition desk_task : TaskInner HttpHandle :=
  mkTaskInner 0 None 0 1 (mkTaskState "" "auto" "" [] "" "home")
    (mkFdTable [(3, mkOpenFile (directory_file (Meta.dir "home" 493) []) "home");
                (4, mkOpenFile (BoxRead (HttpFiles.read_file_of (Meta.file "f" 420 12) hello)) "home/f")] 5 false)
    None None.

Definition desk : Desk := mkTaskStore [desk_task] [] [] [] 1.

Definition guest : WasiState := mkWasiState 0 ["prog"; "-v"] [mkEnv "HOME" "/home"; mkEnv "OPT" "a=b"].

Definition hash (s : string) : Z := 7.

(** A caller whose memory starts with these bytes. *)
Definition caller (front : list byte) : Caller Desk :=
  mkCaller (Some (front ++ repeat x00 (256 - length front))) desk (λ _, 0) [].

Local Abbreviation fs1 := (λ _ : nat, desk_fs).

(** ** The theorems there *)

Lemma wasi_call_confined_witness : ∃ f, host_call fs1 hash guest "clock_res_get" [I32 0; I32 16] = Some f
  ∧ same_outside [(16, 8)] (ca_memory (caller [])) (ca_memory (f (caller [])).2).
Proof.
  eexists. split; [reflexivity|].
  apply (wasi_call_confined fs1 hash guest "clock_res_get" [I32 0; I32 16]); [by vm_compute..| |reflexivity].
  repeat constructor.
Defined.

Lemma wasi_readdir_complete_witness : ∃ es d',
  read_all fs1 hash guest 3 64 27 0 5 0 (caller []) = (Ok es, with_memory (caller []) d')
  ∧ wd_name <$> es = [bytes_of "."; bytes_of ".."; bytes_of "a"; bytes_of "b"].
Proof.
  destruct (wasi_readdir_complete fs1 hash guest 3 64 27 0 5 "home" (Meta.dir "home" 493) [entry "a"; entry "b"]
    (caller []) (repeat x00 256)) as (es & d' & E & H);
    try (lazymatch goal with |- Forall _ _ => idtac | |- ∃ _, _ => idtac | |- _ ∨ _ => left; lia | _ => by vm_compute end).
  - do 2 (apply Forall_cons; split; [by vm_compute|]). by apply Forall_nil.
  - exists es, d'. split; [exact E|]. apply (f_equal (fmap (λ x, x.1.1))) in H.
    rewrite <- list_fmap_compose in H. exact H.
Defined.

Lemma wasi_arguments_arrive_witness : ∃ d',
  guest_args (args_sizes_get guest) (args_get guest) 0 16 (caller [])
  = (Ok [bytes_of "prog"; bytes_of "-v"], with_memory (caller []) d').
Proof.
  destruct (wasi_arguments_arrive guest 0 16 (repeat x00 256) (caller [])) as [H _]; [by vm_compute..|lia|lia|].
  destruct H as [d' H]; [by vm_compute| |by exists d'].
  repeat constructor; intros Hin; vm_compute in Hin; repeat (apply elem_of_cons in Hin as [Hin|Hin]; [done|]); by apply elem_of_nil in Hin.
Defined.

(** Two descriptors: five bytes at 100 and nine bytes at 120. *)
Definition two_buffers : list byte := le_bytes 4 100 ++ le_bytes 4 5 ++ le_bytes 4 120 ++ le_bytes 4 9.

Lemma desk_reads len off : 0 ≤ len → 0 ≤ off →
  Task.with_fd_mut 0 4 (with_preserved_offset (fh_read_at len off)) desk = (Ok (window hello off len), desk).
Proof. reflexivity. Qed.

Lemma wasi_scattered_read_witness : ∃ d',
  fd_pread guest 4 0 2 3 32 (caller two_buffers) = (Ok tt, with_memory (caller two_buffers) d')
  ∧ take 5 (drop 100 d') = bytes_of "lo, w" ∧ take 9 (drop 120 d') = bytes_of "orld" ++ repeat x00 5.
Proof.
  eexists. split.
  - apply (wasi_scattered_read guest 4 0 2 3 32 hello [(100, 5); (120, 9)] (two_buffers ++ repeat x00 240));
      [by vm_compute..| |by vm_compute|by vm_compute|lia|by vm_compute|exact desk_reads].
    repeat constructor; by vm_compute.
  - split; by vm_compute.
Defined.

Lemma wasi_paths_below_witness : ∃ path c', read_wasi_path guest 3 0 5 (caller (bytes_of "../a/")) = (Ok path, c')
  ∧ path = "home/a" ∧ ∃ ps, parts_of path = ["home"] ++ ps.
Proof.
  destruct (read_wasi_path guest 3 0 5 (caller (bytes_of "../a/"))) as [[path|e| |] c'] eqn:E; [|by vm_compute in E..].
  exists path, c'. split; [done|]. split; [vm_compute in E; by injection E as <- _|].
  exact (proj1 (proj2 (wasi_paths_below guest 3 0 5 (caller (bytes_of "../a/")) c' "home" desk path
    eq_refl E))).
Defined.

(** ** What is not as preview 1 asks *)

(** A guest stops the host: a buffer whose length has its highest bit set is allocated as it
    is, which is a panic, even when the descriptor is not open. *)
Lemma wasi_negative_buffer fd :
  (fd_read guest fd 0 1 32 (caller (le_bytes 4 100 ++ le_bytes 4 2147483648))).1 = Panic.
Proof. by vm_compute. Qed.

(** A descriptor that is not open is an invalid argument, where a guest that looks for its
    preopened directories expects a bad descriptor at their end. *)
Lemma wasi_bad_descriptor :
  (fd_prestat_get guest 9 0 (caller [])).1 = Err ERRNO_INVAL
  ∧ (fd_close guest 9 (caller [])).1 = Err ERRNO_INVAL
  ∧ (sock_shutdown fs1 guest 9 0 (caller [])).1 = Err ERRNO_BADF.
Proof. split_and!; by vm_compute. Qed.

(** Every open descriptor is given out as a preopened directory, a file too. *)
Lemma wasi_prestat_of_file : (fd_prestat_get guest 4 0 (caller [])).1 = Ok tt.
Proof. by vm_compute. Qed.

(** The random bytes are always the same. *)
Lemma wasi_random_fixed {W} ptr len d (c c' : Caller W) : ca_memory c = Some d → ca_memory c' = Some d →
  ca_memory (random_get ptr len c).2 = ca_memory (random_get ptr len c').2.
Proof.
  intros H1 H2. unfold random_get, inval, write_bytes, guard_err, memory, set_memory. unfold_eff.
  destruct (len <? 0); cbn; [congruence|]. destruct (ptr <? 0); cbn; [congruence|]. rewrite H1, H2. cbn.
  destruct (USIZE_MAX <? _); cbn; [congruence|]. destruct (blen d <? _); cbn; congruence.
Qed.

(** The path of a descriptor is trimmed of spaces: through a directory whose name ends in one
    a guest reaches the directory beside it. *)
Lemma wasi_trimmed_directory : join_wasi_path "home " "f" = "home/f".
Proof. by vm_compute. Qed.

(** [O_EXCL], bit 4 of the open flags, changes nothing: what exists is opened. *)
Lemma wasi_exclusive_ignored oflags fdflags rights : open_flags (Z.lor oflags 4) fdflags rights = open_flags oflags fdflags rights.
Proof.
  unfold open_flags, OFLAGS_CREATE, OFLAGS_TRUNCATE.
  assert (∀ b, Z.land 4 b = 0 → Z.land (Z.lor oflags 4) b = Z.land oflags b) as Hb.
  { intros b Hb. by rewrite Z.land_lor_distr_l, Hb, Z.lor_0_r. }
  by rewrite !Hb.
Qed.

(** With the flag for directories a regular file is opened as well. *)
Lemma wasi_directory_flag : (path_open fs1 guest 3 0 0 1 OFLAGS_DIRECTORY 2 0 0 32 (caller (bytes_of "f"))).1 = Ok tt.
Proof. by vm_compute. Qed.

(** [path_filestat_get] follows symbolic links whatever its flags say. *)
Lemma wasi_stat_follows {W H} `{!HasTasks W H} `{!FileHandle W H} fsys wasi fd flags path len stat (c : Caller W) :
  path_filestat_get fsys wasi fd flags path len stat c
  = path_filestat_get fsys wasi fd LOOKUPFLAGS_SYMLINK_FOLLOW path len stat c.
Proof. done. Qed.

(** A poll of a ready descriptor and a clock of one second sleeps the second. *)
Definition poll_two : list byte :=
  le_bytes 8 1 ++ le_bytes 8 2 ++ le_bytes 4 4 ++ repeat x00 28
  ++ le_bytes 8 2 ++ le_bytes 8 0 ++ le_bytes 8 0 ++ le_bytes 8 1000000000 ++ repeat x00 16.

Lemma wasi_poll_sleeps : (poll_oneoff guest 0 128 2 240 (caller poll_two)).1 = Ok tt
  ∧ ca_slept (poll_oneoff guest 0 128 2 240 (caller poll_two)).2 = [1000000000].
Proof. split; by vm_compute. Qed.
