(* ===== verification/RcSyntax.v ===== *)
(** * rc: values, statuses, requests and the syntax tree

    Models the data of [crates/star9-rc/src/lib.rs]: [RcError], [Span],
    [RcStatus], [RcOutput], the specifications the evaluator hands to its host
    ([RcFdBindingSpec], [RcProcessGraphSpec], [RcExecutableGraphSpec],
    [RcRforkSpec]), the tokens and the tree [Node] with its rendering back to
    source text ([render_node]). *)

From stdpp Require Import base list numbers option strings pretty.
From Stdlib Require Import ZArith Lia Ascii.
From S2P Require Import Prelude Strs BTree RcText.

(** ** Errors, statuses and outputs *)

Record Span := mkSpan { span_start : nat; span_end : nat }.
Definition Span_default : Span := mkSpan 0 0.

Record RcError := mkRcError { message : string; span : option Span }.

Module RcErr.
Definition new (m : string) : RcError := mkRcError m None.
Definition at_span (m : string) (s : Span) : RcError := mkRcError m (Some s).
Definition display (e : RcError) : string :=
  match span e with
  | Some s => message e +:+ " at " +:+ pretty (span_start s) +:+ ".." +:+ pretty (span_end s)
  | None => message e
  end.
End RcErr.

Abbreviation RcResult A := (Outcome RcError A).

(** [RcStatus(String)] *)
Record RcStatus := mkStatus { status_str : string }.

#[global] Instance RcStatus_eq_dec : EqDecision RcStatus.
Proof. solve_decision. Defined.

Module Status.
Definition success : RcStatus := mkStatus "".
Definition failure : RcStatus := mkStatus "false".
Definition from_code (code : Z) : RcStatus :=
  if (code =? 0)%Z then success else mkStatus (pretty code).
Definition zero_part (part : string) : bool := bool_decide (part = "" ∨ part = "0").
Definition is_success (s : RcStatus) : bool :=
  is_empty_str (status_str s) || bool_decide (status_str s = "0") ||
  (contains_char "|" (status_str s) && forallb zero_part (split_on "|" (status_str s))).
Definition invert (s : RcStatus) : RcStatus := if is_success s then failure else success.
Definition from_status (status : string) : RcStatus :=
  if decide (status = "0") then success else mkStatus status.
Definition or_zero (s : RcStatus) : string :=
  if is_empty_str (status_str s) then "0" else status_str s.
Definition pipeline (left right : RcStatus) : RcStatus :=
  mkStatus (or_zero left +:+ "|" +:+ or_zero right).
Definition display (s : RcStatus) : string := or_zero s.
End Status.

Record RcOutput := mkOutput {
  o_status : RcStatus; o_stdout : string; o_stderr : string; o_exited : bool
}.

Module Out.
Definition default : RcOutput := mkOutput Status.success "" "" false.
Definition success (stdout : string) : RcOutput := mkOutput Status.success stdout "" false.
Definition failure (status stderr : string) : RcOutput :=
  mkOutput (mkStatus status) "" stderr false.
Definition append (out next : RcOutput) : RcOutput :=
  mkOutput (o_status next) (o_stdout out +:+ o_stdout next)
    (o_stderr out +:+ o_stderr next) (o_exited next).
Definition set_status (s : RcStatus) (o : RcOutput) : RcOutput :=
  mkOutput s (o_stdout o) (o_stderr o) (o_exited o).
Definition set_stdout (s : string) (o : RcOutput) : RcOutput :=
  mkOutput (o_status o) s (o_stderr o) (o_exited o).
Definition set_stderr (s : string) (o : RcOutput) : RcOutput :=
  mkOutput (o_status o) (o_stdout o) s (o_exited o).
Definition set_exited (b : bool) (o : RcOutput) : RcOutput :=
  mkOutput (o_status o) (o_stdout o) (o_stderr o) b.
End Out.

(** ** Requests to the host *)

Record RcStat := mkRcStat { rs_is_dir : bool }.

Record RcCommandResult := mkCommandResult {
  cr_status : RcStatus; cr_stdout : string; cr_stderr : string
}.

Record RcCommandInvocation := mkInvocation {
  ci_name : string; ci_args : list string; ci_stdin : string;
  ci_env : btree string (list string)
}.

Inductive RcProcessGraphKind :=
| Pipeline | BackgroundGraph | ProcessSubstitutionRead | ProcessSubstitutionWrite.

#[global] Instance RcProcessGraphKind_eq_dec : EqDecision RcProcessGraphKind.
Proof. solve_decision. Defined.

Record RcFdBindingSpec := mkFdBinding {
  b_fd : Z; b_path : string; b_readable : bool; b_writable : bool; b_append : bool;
  b_dup_from : option Z; b_close : bool
}.

Module FdBinding.
Definition file (fd : Z) (path : string) (readable writable : bool) : RcFdBindingSpec :=
  mkFdBinding fd path readable writable false None false.
Definition append_file (fd : Z) (path : string) : RcFdBindingSpec :=
  mkFdBinding fd path false true true None false.
Definition dup (fd from : Z) : RcFdBindingSpec :=
  mkFdBinding fd "" false false false (Some from) false.
Definition close (fd : Z) : RcFdBindingSpec :=
  mkFdBinding fd "" false false false None true.
End FdBinding.

Record RcProcessStageSpec := mkStage {
  ps_command : string; ps_cwd : string; ps_env : btree string (list string);
  ps_stdin : option string; ps_stdout : option string; ps_stderr : option string;
  ps_fd_bindings : list RcFdBindingSpec
}.

Record RcProcessGraphSpec := mkGraph {
  pg_kind : RcProcessGraphKind; pg_job_id : option Z; pg_stages : list RcProcessStageSpec
}.

Record RcProcessStageRecord := mkStageRecord {
  sr_command : string; sr_task_id : option string; sr_fd_bindings : list RcFdBindingSpec
}.

Record RcProcessGraphRecord := mkGraphRecord {
  gr_graph_id : string; gr_kind : RcProcessGraphKind; gr_job_id : option Z;
  gr_stages : list RcProcessStageRecord
}.

Record RcProcessJobResult := mkJobResult {
  jr_id : Z; jr_status : RcStatus; jr_stdout : string; jr_stderr : string
}.

Record RcExecutableStageSpec := mkExecStage {
  es_argv : list string; es_stdin : string; es_cwd : string;
  es_env : btree string (list string); es_fd_bindings : list RcFdBindingSpec
}.

Record RcExecutableGraphSpec := mkExecGraph {
  eg_kind : RcProcessGraphKind; eg_job_id : option Z; eg_stages : list RcExecutableStageSpec
}.

(** The three-valued choices of [rfork], each [Shared] by default. *)
Inductive RcRforkNamespace := NsShared | NsCopy | NsClean.
Inductive RcRforkEnvironment := EnvShared | EnvCopy | EnvClean.
Inductive RcRforkFd := FdShared | FdCopy | FdClean.

#[global] Instance RcRforkNamespace_eq_dec : EqDecision RcRforkNamespace.
Proof. solve_decision. Defined.
#[global] Instance RcRforkEnvironment_eq_dec : EqDecision RcRforkEnvironment.
Proof. solve_decision. Defined.
#[global] Instance RcRforkFd_eq_dec : EqDecision RcRforkFd.
Proof. solve_decision. Defined.

Record RcRforkSpec := mkRfork {
  rf_raw : string; rf_namespace : RcRforkNamespace; rf_environment : RcRforkEnvironment;
  rf_fds : RcRforkFd; rf_new_note_group : bool; rf_no_mount : bool
}.

Inductive RcRforkEnvironmentOutcome := Unchanged | Reload | Cleared.

Record RcRforkOutcome := mkRforkOutcome { ro_environment : RcRforkEnvironmentOutcome }.

Module Rfork.
Definition set_namespace n s :=
  mkRfork (rf_raw s) n (rf_environment s) (rf_fds s) (rf_new_note_group s) (rf_no_mount s).
Definition set_environment e s :=
  mkRfork (rf_raw s) (rf_namespace s) e (rf_fds s) (rf_new_note_group s) (rf_no_mount s).
Definition set_fds f s :=
  mkRfork (rf_raw s) (rf_namespace s) (rf_environment s) f (rf_new_note_group s) (rf_no_mount s).
Definition set_notes s :=
  mkRfork (rf_raw s) (rf_namespace s) (rf_environment s) (rf_fds s) true (rf_no_mount s).
Definition set_no_mount s :=
  mkRfork (rf_raw s) (rf_namespace s) (rf_environment s) (rf_fds s) (rf_new_note_group s) true.

(** One flag of the [for flag in raw.chars()] loop *)
Definition step (spec : RcRforkSpec) (flag : char) : RcResult RcRforkSpec :=
  if isc "n" flag && bool_decide (rf_namespace spec ≠ NsClean)
  then Ok (set_namespace NsCopy spec)
  else if isc "N" flag && bool_decide (rf_namespace spec ≠ NsCopy)
  then Ok (set_namespace NsClean spec)
  else if one_of "nN" flag
  then Err (RcErr.new "rfork flags n and N are mutually exclusive")
  else if isc "e" flag && bool_decide (rf_environment spec ≠ EnvClean)
  then Ok (set_environment EnvCopy spec)
  else if isc "E" flag && bool_decide (rf_environment spec ≠ EnvCopy)
  then Ok (set_environment EnvClean spec)
  else if one_of "eE" flag
  then Err (RcErr.new "rfork flags e and E are mutually exclusive")
  else if isc "f" flag && bool_decide (rf_fds spec ≠ FdClean)
  then Ok (set_fds FdCopy spec)
  else if isc "F" flag && bool_decide (rf_fds spec ≠ FdCopy)
  then Ok (set_fds FdClean spec)
  else if one_of "fF" flag
  then Err (RcErr.new "rfork flags f and F are mutually exclusive")
  else if isc "s" flag then Ok (set_notes spec)
  else if isc "m" flag then Ok (set_no_mount spec)
  else Err (RcErr.new ("unsupported rfork flag " +:+ of_chars [flag])).

Fixpoint steps (spec : RcRforkSpec) (flags : list char) : RcResult RcRforkSpec :=
  match flags with
  | [] => Ok spec
  | flag :: flags' => spec' ← step spec flag; steps spec' flags'
  end.

Definition parse (args : list string) : RcResult RcRforkSpec :=
  let raw := match args with [] => "ens" | _ => str_join "" args end in
  steps (mkRfork raw NsShared EnvShared FdShared false false) (chars raw).
End Rfork.

(** ** Tokens and the tree *)

#[local] Set Warnings "-register-all".

Record Word := mkWord { raw : string; word_span : Span }.
Definition Word_new (raw : string) : Word := mkWord raw Span_default.

Record Assignment := mkAssignment { as_name : string; as_values : list Word }.

Record PipeSpec := mkPipeSpec { from_fd : Z; to_fd : Z }.

Inductive RedirectMode := Read | Write | Append | Here | Dup (from : option Z).

Record HereDoc := mkHereDoc { hd_body : string; hd_expand : bool }.

Inductive Node :=
| Empty
| Simple (simple : SimpleCommand)
| Block (nodes : list Node)
| Sequence (nodes : list Node)
| And (left right : Node)
| Or (left right : Node)
| Pipe (left right : Node) (spec : option PipeSpec)
| Not (inner : Node)
| Background (inner : Node)
| If (condition then_branch : Node) (else_branch : option Node)
| For (var : string) (values : list Word) (body : Node)
| While (condition body : Node)
| Switch (value : Word) (cases : list SwitchCase)
| Function (name : string) (body : option Node)
with SimpleCommand :=
| mkSimple (assignments : list Assignment) (words : list Word) (redirects : list Redirect)
with SwitchCase :=
| mkCase (patterns : list Word) (body : list Node)
with Redirect :=
| mkRedirect (fd : Z) (mode : RedirectMode) (target : option RedirectTarget)
with RedirectTarget :=
| TWord (w : Word)
| TProcess (node : Node)
| THereDoc (doc : HereDoc).

Definition assignments (s : SimpleCommand) := let 'mkSimple a _ _ := s in a.
Definition words (s : SimpleCommand) := let 'mkSimple _ w _ := s in w.
Definition redirects (s : SimpleCommand) := let 'mkSimple _ _ r := s in r.
Definition rd_fd (r : Redirect) := let 'mkRedirect fd _ _ := r in fd.
Definition rd_mode (r : Redirect) := let 'mkRedirect _ m _ := r in m.
Definition rd_target (r : Redirect) := let 'mkRedirect _ _ t := r in t.
Definition case_patterns (c : SwitchCase) := let 'mkCase p _ := c in p.
Definition case_body (c : SwitchCase) := let 'mkCase _ b := c in b.

Record Script := mkScript { commands : list Node }.

Record RedirectOp := mkRedirectOp { op_fd : Z; op_mode : RedirectMode }.

Inductive TokenKind :=
| TkWord (w : string) | TkNewline | TkSemi | TkAndAnd | TkOrOr | TkAmp
| TkPipe (spec : option PipeSpec) | TkBang | TkLBrace | TkRBrace | TkLParen | TkRParen
| TkRedirect (op : RedirectOp).

Record Token := mkToken { kind : TokenKind; tok_span : Span }.

(** ** Rendering *)

Definition render_word (w : Word) : string := raw w.

Definition render_assignment (a : Assignment) : string :=
  match as_values a with
  | [] => as_name a +:+ "=()"
  | vs => as_name a +:+ "=(" +:+ str_join " " (render_word <$> vs) +:+ ")"
  end.

Definition render_pipe (spec : option PipeSpec) : string :=
  match spec with
  | Some s =>
      if (to_fd s =? 0)%Z then "|[" +:+ pretty (from_fd s) +:+ "]"
      else "|[" +:+ pretty (from_fd s) +:+ "=" +:+ pretty (to_fd s) +:+ "]"
  | None => "|"
  end.

Definition render_op (fd : Z) (mode : RedirectMode) : string :=
  match mode with
  | Read => "<"
  | Write => ">"
  | Append => ">>"
  | Here => "<<"
  | Dup (Some from) => ">[" +:+ pretty fd +:+ "=" +:+ pretty from +:+ "]"
  | Dup None => ">[" +:+ pretty fd +:+ "=]"
  end.

Fixpoint render_node (node : Node) : string :=
  match node with
  | Empty => ""
  | Simple (mkSimple assignments words redirects) =>
      str_join " " ((render_assignment <$> assignments) ++ (render_word <$> words) ++
                    (render_redirect <$> redirects))
  | Block nodes | Sequence nodes => "{ " +:+ str_join "; " (render_node <$> nodes) +:+ " }"
  | And l r => render_node l +:+ " && " +:+ render_node r
  | Or l r => render_node l +:+ " || " +:+ render_node r
  | Pipe l r spec =>
      render_node l +:+ " " +:+ render_pipe spec +:+ " " +:+ render_node r
  | Not inner => "! " +:+ render_node inner
  | Background inner => render_node inner +:+ " &"
  | If condition then_branch else_branch =>
      "if(" +:+ render_node condition +:+ ") " +:+ render_node then_branch +:+
      match else_branch with
      | Some e => " if not " +:+ render_node e
      | None => ""
      end
  | For var values body =>
      let values := str_join " " (render_word <$> values) in
      if is_empty_str values then "for(" +:+ var +:+ ") " +:+ render_node body
      else "for(" +:+ var +:+ " in " +:+ values +:+ ") " +:+ render_node body
  | While condition body => "while(" +:+ render_node condition +:+ ") " +:+ render_node body
  | Switch value cases =>
      "switch(" +:+ render_word value +:+ "){" +:+ String NEWLINE "" +:+
      str_join (String NEWLINE "") (render_case <$> cases) +:+ String NEWLINE "}"
  | Function name body =>
      match body with
      | Some body => "fn " +:+ name +:+ " " +:+ render_node body
      | None => "fn " +:+ name
      end
  end
with render_case (c : SwitchCase) : string :=
  match c with
  | mkCase patterns body =>
      "case " +:+ str_join " " (render_word <$> patterns) +:+ String NEWLINE "" +:+
      str_join "; " (render_node <$> body)
  end
with render_redirect (r : Redirect) : string :=
  match r with
  | mkRedirect fd mode target =>
      let target := match target with
                    | Some t => render_target t
                    | None => ""
                    end in
      if is_empty_str target then render_op fd mode else render_op fd mode +:+ target
  end
with render_target (t : RedirectTarget) : string :=
  match t with
  | TWord w => render_word w
  | TProcess node => render_node node
  | THereDoc _ => "<here-doc>"
  end.
