(* ===== verification/RcLex.v ===== *)
(** * rc: here documents and the lexer

    Models [prepare_here_docs], [find_here_markers], [lex] and the scanners it
    calls in [crates/star9-rc/src/lib.rs].  Where the source keeps an index [i]
    into [chars], a scanner here takes the index together with the characters
    [rest] from it on, and gives back the next index with what is left; the loops
    whose step can consume several characters take fuel, for which the number of
    characters is enough ([lex_total]). *)

From stdpp Require Import base list numbers option strings pretty.
From Stdlib Require Import ZArith Lia Ascii.
From S2P Require Import Prelude Strs BTree RcText RcSyntax.

(** ** Here documents *)

Record HereMarker := mkHereMarker {
  hm_start : nat; hm_end : nat; delimiter : list char; hm_quoted : bool; marker : list char
}.

Record PreparedSource := mkPrepared {
  prep_source : list char; prep_here_docs : btree string HereDoc
}.

(** Byte offsets run along: the index of the character under the cursor is the
    number of bytes before it. *)
Fixpoint skip_blanks (pos : nat) (rest : list char) : nat * list char :=
  match rest with
  | c :: r => if is_whitespace c && negb (isc NEWLINE c) then skip_blanks (pos + len_utf8 c) r
              else (pos, rest)
  | [] => (pos, [])
  end.

Fixpoint quoted_delimiter (delim : list char) (pos : nat) (rest : list char)
    : list char * nat * list char :=
  match rest with
  | [] => (delim, pos, [])
  | c :: r => if isc QUOTE c then (delim, pos + len_utf8 c, r)
              else quoted_delimiter (delim ++ [c]) (pos + len_utf8 c) r
  end.

Fixpoint bare_delimiter (delim : list char) (pos : nat) (rest : list char)
    : list char * nat * list char :=
  match rest with
  | [] => (delim, pos, [])
  | c :: r => if is_whitespace c || one_of ";&|" c then (delim, pos, rest)
              else bare_delimiter (delim ++ [c]) (pos + len_utf8 c) r
  end.

Definition here_marker_name (n : nat) : list char :=
  chars ("__star9_heredoc_" +:+ pretty n +:+ "__").

Fixpoint here_markers_loop (fuel pos : nat) (rest : list char) (quoted : bool)
    (next_id : nat) (markers : list HereMarker) : RcResult (list HereMarker) :=
  match fuel, rest with
  | _, [] => Ok markers
  | O, _ => NoFuel
  | S fuel, c :: r =>
      if isc QUOTE c then here_markers_loop fuel (pos + len_utf8 c) r (negb quoted) next_id markers
      else
        match negb quoted && isc "<" c, r with
        | true, c2 :: r2 =>
            if isc "<" c2 then
              let '(start, rest) := skip_blanks (pos + len_utf8 c + len_utf8 c2) r2 in
              match rest with
              | [] => Ok markers
              | d :: r3 =>
                  let '(delim, end_, rest) :=
                    if isc QUOTE d then quoted_delimiter [] (start + len_utf8 d) r3
                    else bare_delimiter [] start rest in
                  match delim with
                  | [] => Err (RcErr.at_span "empty here document delimiter" (mkSpan pos end_))
                  | _ =>
                      here_markers_loop fuel end_ rest quoted next_id
                        (markers ++ [mkHereMarker start end_ delim (isc QUOTE d)
                                       (here_marker_name (next_id + length markers))])
                  end
              end
            else here_markers_loop fuel (pos + len_utf8 c) r quoted next_id markers
        | _, _ => here_markers_loop fuel (pos + len_utf8 c) r quoted next_id markers
        end
  end.

Definition find_here_markers (line : list char) (next_id : nat) : RcResult (list HereMarker) :=
  here_markers_loop (length line) 0 line false next_id [].

(** The lines up to the one that is the delimiter: the body and what follows;
    [None] when no line is. *)
Fixpoint here_body (delim : list char) (body : list char) (lines : list (list char))
    : option (list char * list (list char)) :=
  match lines with
  | [] => None
  | candidate :: lines' =>
      let trimmed := trim_end_chars CR (trim_end_chars NEWLINE candidate) in
      if decide (trimmed = delim) then Some (body, lines')
      else here_body delim (body ++ candidate) lines'
  end.

Fixpoint here_bodies (markers : list HereMarker) (lines : list (list char))
    (here_docs : btree string HereDoc) : RcResult (list (list char) * btree string HereDoc) :=
  match markers with
  | [] => Ok (lines, here_docs)
  | m :: markers' =>
      match here_body (delimiter m) [] lines with
      | None => Err (RcErr.new ("unterminated here document " +:+ of_chars (delimiter m)))
      | Some (body, lines') =>
          here_bodies markers' lines'
            (bt_insert (of_chars (marker m)) (mkHereDoc (of_chars body) (negb (hm_quoted m))) here_docs)
      end
  end.

(** [for marker in markers.iter().rev()] *)
Fixpoint replace_markers (rev_markers : list HereMarker) (line : list char) : RcResult (list char) :=
  match rev_markers with
  | [] => Ok line
  | m :: ms =>
      line' ← replace_range (hm_start m) (hm_end m) (marker m) line;
      replace_markers ms line'
  end.

Fixpoint prepare_lines (fuel : nat) (lines : list (list char)) (next_id : nat) (out : list char)
    (here_docs : btree string HereDoc) : RcResult PreparedSource :=
  match fuel, lines with
  | _, [] => Ok (mkPrepared out here_docs)
  | O, _ => NoFuel
  | S fuel, line :: lines' =>
      markers ← find_here_markers line next_id;
      match markers with
      | [] => prepare_lines fuel lines' next_id (out ++ line) here_docs
      | _ =>
          '(lines', here_docs) ← here_bodies markers lines' here_docs;
          replaced ← replace_markers (reverse markers) line;
          prepare_lines fuel lines' (next_id + length markers) (out ++ replaced) here_docs
      end
  end.

Definition prepare_here_docs (source : list char) : RcResult PreparedSource :=
  let lines := split_lines source in
  prepare_lines (length lines) lines 0 [] [].

(** ** Scanners of the lexer *)

(** What a scanner gives: the text it pushed, the next index and what is left. *)
Abbreviation Scan := (list char * nat * list char)%type.

(** Inside quotes: a doubled quote stays, a single one ends the literal. *)
Fixpoint scan_quote (out : list char) (i : nat) (rest : list char) : Scan :=
  match rest with
  | [] => (out, i, [])
  | c :: r =>
      if isc QUOTE c then
        match r with
        | c2 :: r2 =>
            if isc QUOTE c2 then scan_quote (out ++ [c; ch QUOTE]) (i + 2) r2
            else (out ++ [c], i + 1, r)
        | [] => (out ++ [c], i + 1, r)
        end
      else scan_quote (out ++ [c]) (i + 1) r
  end.

(** A subscript: up to and with the closing parenthesis. *)
Fixpoint scan_subscript (out : list char) (i : nat) (rest : list char) : Scan :=
  match rest with
  | [] => (out, i, [])
  | c :: r => if isc ")" c then (out ++ [c], i + 1, r)
              else scan_subscript (out ++ [c]) (i + 1) r
  end.

Definition unterminated_substitution (start len : nat) : RcError :=
  RcErr.at_span "unterminated command substitution" (mkSpan start len).

(** [len] is [chars.len()]; [depth] is an [i32], whose overflow panics. *)
Fixpoint braced_loop (fuel : nat) (start len : nat) (depth : Z) (out : list char)
    (i : nat) (rest : list char) : RcResult Scan :=
  match fuel, rest with
  | _, [] => Err (unterminated_substitution start len)
  | O, _ => NoFuel
  | S fuel, c :: r =>
      let out := out ++ [c] in
      if isc QUOTE c then
        let '(out, i, rest) := scan_quote out (i + 1) r in
        braced_loop fuel start len depth out i rest
      else if isc "{" c then
        if (depth =? I32_MAX)%Z then Panic
        else braced_loop fuel start len (depth + 1) out (i + 1) r
      else if isc "}" c then
        let depth := (depth - 1)%Z in
        if (depth =? 0)%Z then Ok (out, i + 1, r)
        else braced_loop fuel start len depth out (i + 1) r
      else braced_loop fuel start len depth out (i + 1) r
  end.

Definition read_braced_substitution (len start : nat) (rest : list char) : RcResult Scan :=
  braced_loop (length rest) start len 0 [] start rest.

Definition ends_word (c : char) : bool := is_whitespace c || one_of ";{}()&|<>" c.

Fixpoint word_loop (fuel : nat) (len : nat) (out : list char) (i : nat) (rest : list char)
    : RcResult Scan :=
  match fuel, rest with
  | _, [] => Ok (out, i, rest)
  | O, _ => NoFuel
  | S fuel, c :: r =>
      if isc "(" c && existsb (isc "$") out then
        let '(out, i, rest) := scan_subscript (out ++ [c]) (i + 1) r in
        word_loop fuel len out i rest
      else if ends_word c then Ok (out, i, rest)
      else if isc QUOTE c then
        let '(out, i, rest) := scan_quote (out ++ [c]) (i + 1) r in
        word_loop fuel len out i rest
      else if isc "`" c && match r with c2 :: _ => isc "{" c2 | [] => false end then
        '(sub, i, rest) ← read_braced_substitution len i rest;
        word_loop fuel len (out ++ sub) i rest
      else word_loop fuel len (out ++ [c]) (i + 1) r
  end.

Definition read_word (len i : nat) (rest : list char) : RcResult Scan :=
  '(out, next, rest) ← word_loop (length rest) len [] i rest;
  match out with
  | [] => Err (RcErr.at_span "expected word" (mkSpan i next))
  | _ => Ok (out, next, rest)
  end.

(** The text up to the bracket, and what follows it; the search starts behind
    the opening bracket. *)
Fixpoint until_bracket (text : list char) (i : nat) (rest : list char) : option Scan :=
  match rest with
  | [] => None
  | c :: r => if isc "]" c then Some (text, i, rest) else until_bracket (text ++ [c]) (i + 1) r
  end.

Definition find_closing_bracket (len start : nat) (rest : list char) : RcResult Scan :=
  match until_bracket [] (start + 1) (tail rest) with
  | Some s => Ok s
  | None => Err (RcErr.at_span "unterminated fd specifier" (mkSpan start len))
  end.

Definition parse_or (s : string) (d : Z) : Z := default d (parse_u32 s).

Definition parse_pipe_spec (len start : nat) (rest : list char)
    : RcResult (option PipeSpec * nat * list char) :=
  match rest with
  | c :: _ =>
      if isc "[" c then
        '(text, end_, rest') ← find_closing_bracket len start rest;
        let text := of_chars text in
        let spec := match split_once "=" text with
                    | Some (l, r) => mkPipeSpec (parse_or l 1) (parse_or r 0)
                    | None => mkPipeSpec (parse_or text 1) 0
                    end in
        Ok (Some spec, end_ + 1, tail rest')
      else Ok (None, start, rest)
  | [] => Ok (None, start, rest)
  end.

(** [chars.get(i) == Some(&a)] *)
Definition next_is (a : ascii) (rest : list char) : bool :=
  match rest with c :: _ => isc a c | [] => false end.
Arguments next_is a%_char_scope rest.

(** The operator, doubled or not; [op] is [chars[start]], [rest] what follows it. *)
Definition redirect_mode (start : nat) (op : char) (rest : list char)
    : RedirectMode * nat * list char :=
  let i := start + 1 in
  if isc ">" op && next_is ">" rest then (Append, i + 1, tail rest)
  else if isc "<" op && next_is "<" rest then (Here, i + 1, tail rest)
  else (if isc "<" op then Read else Write, i, rest).

Definition parse_redirect (len start : nat) (op : char) (rest : list char)
    : RcResult (RedirectOp * nat * list char) :=
  let '(mode, i, rest) := redirect_mode start op rest in
  let fd := (if isc "<" op then 0 else 1)%Z in
  match rest with
  | c :: _ =>
      if isc "[" c then
        '(text, end_, rest') ← find_closing_bracket len i rest;
        let text := of_chars text in
        let '(fd, mode) :=
          match split_once "=" text with
          | Some (l, r) =>
              let fd := parse_or l fd in
              (fd, Dup (if is_empty_str r then None else Some (parse_or r fd)))
          | None => (if is_empty_str text then fd else parse_or text fd, mode)
          end in
        Ok (mkRedirectOp fd mode, end_ + 1, tail rest')
      else Ok (mkRedirectOp fd mode, i, rest)
  | [] => Ok (mkRedirectOp fd mode, i, rest)
  end.

(** ** The lexer *)

Definition token (k : TokenKind) (start end_ : nat) : Token := mkToken k (mkSpan start end_).

Fixpoint skip_comment (i : nat) (rest : list char) : nat * list char :=
  match rest with
  | c :: r => if isc NEWLINE c then (i, rest) else skip_comment (i + 1) r
  | [] => (i, [])
  end.

(** The token of one character, when the character is one of those that stand
    for themselves whatever follows. *)
Definition single (c : char) : option TokenKind :=
  if isc ";" c then Some TkSemi
  else if isc "{" c then Some TkLBrace
  else if isc "}" c then Some TkRBrace
  else if isc "(" c then Some TkLParen
  else if isc ")" c then Some TkRParen
  else if isc "!" c then Some TkBang
  else None.

(** The arms of the [match] that push one token: the token, the next index and
    what is left. *)
Definition lex_token (len i : nat) (c : char) (r : list char)
    : RcResult (Token * nat * list char) :=
  match single c with
  | Some k => Ok (token k i (i + 1), i + 1, r)
  | None =>
      if isc "&" c then
        if match r with c2 :: _ => isc "&" c2 | [] => false end
        then Ok (token TkAndAnd i (i + 2), i + 2, tail r)
        else Ok (token TkAmp i (i + 1), i + 1, r)
      else if isc "|" c then
        if match r with c2 :: _ => isc "|" c2 | [] => false end
        then Ok (token TkOrOr i (i + 2), i + 2, tail r)
        else
          '(spec, next, rest) ← parse_pipe_spec len (i + 1) r;
          Ok (token (TkPipe spec) i next, next, rest)
      else if isc "<" c || isc ">" c then
        '(op, next, rest) ← parse_redirect len i c r;
        Ok (token (TkRedirect op) i next, next, rest)
      else
        '(word, next, rest) ← read_word len i (c :: r);
        Ok (token (TkWord (of_chars word)) i next, next, rest)
  end.

Fixpoint lex_loop (fuel : nat) (len i : nat) (rest : list char) (at_line_start : bool)
    : RcResult (list Token) :=
  match fuel, rest with
  | _, [] => Ok []
  | O, _ => NoFuel
  | S fuel, c :: r =>
      if isc " " c || isc TAB c || isc CR c then lex_loop fuel len (i + 1) r at_line_start
      else if isc NEWLINE c then
        toks ← lex_loop fuel len (i + 1) r true;
        Ok (token TkNewline i (i + 1) :: toks)
      else if isc "#" c && at_line_start then
        let '(i, rest) := skip_comment i rest in
        lex_loop fuel len i rest at_line_start
      else
        '(tok, next, rest) ← lex_token len i c r;
        toks ← lex_loop fuel len next rest false;
        Ok (tok :: toks)
  end.

Definition lex (source : list char) : RcResult (list Token) :=
  lex_loop (length source) (length source) 0 source true.

Example lex_example :
  lex (chars "a>[2=1] b|[1=0]c") = Ok
    [token (TkWord "a") 0 1; token (TkRedirect (mkRedirectOp 2 (Dup (Some 1%Z)))) 1 7;
     token (TkWord "b") 8 9; token (TkPipe (Some (mkPipeSpec 1 0))) 9 15;
     token (TkWord "c") 15 16].
Proof. vm_compute. reflexivity. Qed.
