(* ===== verification/RcLexFacts.v ===== *)
(** * rc: facts about here documents and the lexer

    The scanners are total, push exactly the characters they pass over, and the
    tokens of a source carry its text: what lies between two spans is blank or
    comment. *)

From stdpp Require Import base list numbers option strings pretty.
From Stdlib Require Import ZArith Lia Ascii.
From S2P Require Import Prelude Strs BTree RcText Field TextFacts RcSyntax RcLex.

(** ** Specification vocabulary *)

(** A scanner went from index [i] at [rest] to [i'] at [rest'] over [text]. *)
Definition passes (i : nat) (rest text : list char) (i' : nat) (rest' : list char) : Prop :=
  rest = text ++ rest' ∧ i' = i + length text.

Definition blank (c : char) : bool := isc " " c || isc TAB c || isc CR c.

(** What the lexer drops: blanks, and comments up to the end of their line. *)
Inductive Skippable : list char → Prop :=
| skip_nothing : Skippable []
| skip_blank c cs : blank c = true → Skippable cs → Skippable (c :: cs)
| skip_note c note cs :
    isc "#" c = true → forallb (λ c, negb (isc NEWLINE c)) note = true →
    Skippable cs → Skippable (c :: note ++ cs).

(** The text a token of kind [k] stands for. *)
Definition token_text (k : TokenKind) (text : list char) : Prop :=
  match k with
  | TkWord w => w = of_chars text ∧ text ≠ []
  | TkNewline => text = [ch NEWLINE]
  | TkSemi => text = [ch ";"]
  | TkAndAnd => text = [ch "&"; ch "&"]
  | TkOrOr => text = [ch "|"; ch "|"]
  | TkAmp => text = [ch "&"]
  | TkPipe None => text = [ch "|"]
  | TkPipe (Some _) => ∃ spec, text = [ch "|"; ch "["] ++ spec ++ [ch "]"]
  | TkBang => text = [ch "!"]
  | TkLBrace => text = [ch "{"]
  | TkRBrace => text = [ch "}"]
  | TkLParen => text = [ch "("]
  | TkRParen => text = [ch ")"]
  | TkRedirect _ => ∃ c more, text = c :: more ∧ (isc "<" c || isc ">" c) = true
  end.

(** The tokens of the characters [rest] that start at index [i]: dropped text,
    then the text of a token at the token's span, and so on to the end. *)
Inductive Lexed : nat → list char → list Token → Prop :=
| lexed_end i gap : Skippable gap → Lexed i gap []
| lexed_token i gap text rest k toks :
    Skippable gap → token_text k text →
    Lexed (i + length gap + length text) rest toks →
    Lexed i (gap ++ text ++ rest)
      (token k (i + length gap) (i + length gap + length text) :: toks).

(** How many opening braces there are, which bounds the depth of a substitution *)
Fixpoint opens (cs : list char) : nat :=
  match cs with [] => 0 | c :: r => (if isc "{" c then 1 else 0) + opens r end.

(** Markers, last first, at places of the line before [pre]'s end that do not
    overlap; what takes their places has no braces. *)
Fixpoint placed (markers : list HereMarker) (line : list char) : Prop :=
  match markers with
  | [] => True
  | m :: ms => ∃ l t r,
      line = l ++ t ++ r ∧ hm_start m = byte_len l ∧ hm_end m = byte_len l + byte_len t ∧
      opens (marker m) = 0 ∧ placed ms l
  end.

(** ** Characters *)

Lemma isc_true a c : isc a c = true → c = ch a.
Proof. by intros ->%N.eqb_eq. Qed.

Lemma passes_nil i rest : passes i rest [] i rest.
Proof. split; [done|]. cbn. lia. Qed.

Lemma passes_cons i c rest text i' rest' :
  passes (i + 1) rest text i' rest' → passes i (c :: rest) (c :: text) i' rest'.
Proof. intros [-> ->]. split; [done|]. cbn. lia. Qed.

Lemma passes_one i c rest : passes i (c :: rest) [c] (i + 1) rest.
Proof. split; done. Qed.

Lemma passes_trans i r t1 i1 r1 t2 i2 r2 :
  passes i r t1 i1 r1 → passes i1 r1 t2 i2 r2 → passes i r (t1 ++ t2) i2 r2.
Proof. intros [-> ->] [-> ->]. split; [by rewrite <- app_assoc|]. rewrite length_app. lia. Qed.

Lemma passes_length i r t i' r' : passes i r t i' r' → length r' ≤ length r.
Proof. intros [-> _]. rewrite length_app. lia. Qed.

(** *** Opening braces *)

Lemma opens_app a b : opens (a ++ b) = opens a + opens b.
Proof. induction a as [|c a IH]; cbn; [done|]. rewrite IH. lia. Qed.

Lemma opens_passes i r t i' r' : passes i r t i' r' → opens r' ≤ opens r.
Proof. intros [-> _]. rewrite opens_app. lia. Qed.

(** The result of a scanner of a text with [n] opening braces: it settles, or the depth
    overflowed. *)
Definition ends {A} (n : nat) (r : RcResult A) (Q : A → Prop) : Prop :=
  match r with
  | Ok a => Q a
  | Err _ => True
  | Panic => (I32_MAX < Z.of_nat n)%Z
  | NoFuel => False
  end.

Lemma ends_bind {A B} n (r : RcResult A) (k : A → RcResult B) Q R :
  ends n r Q → (∀ a, Q a → ends n (k a) R) → ends n (r ≫= k) R.
Proof. destruct r; cbn; auto. Qed.

Lemma ends_mono {A} n (r : RcResult A) (Q R : A → Prop) :
  ends n r Q → (∀ a, Q a → R a) → ends n r R.
Proof. destruct r; cbn; auto. Qed.

Lemma settles_ends {A} n (r : RcResult A) (Q : A → Prop) : settles r Q → ends n r Q.
Proof. by destruct r. Qed.

Create HintDb passes discriminated.
#[export] Hint Resolve passes_nil passes_cons passes_one : passes.

(** ** Scanners *)

Lemma scan_quote_passes out i rest :
  ∃ text i' rest', scan_quote out i rest = (out ++ text, i', rest') ∧ passes i rest text i' rest'.
Proof.
  revert out i. induction rest as [rest IH] using (induction_ltof1 _ length).
  intros out i. destruct rest as [|c r]; cbn [scan_quote].
  { exists [], i, []. rewrite app_nil_r. auto with passes. }
  destruct (isc QUOTE c) eqn:Hc.
  - destruct r as [|c2 r2]; [exists [c], (i + 1), []; auto with passes|].
    destruct (isc QUOTE c2) eqn:Hc2; [|exists [c], (i + 1), (c2 :: r2); auto with passes].
    destruct (IH r2) with (out := out ++ [c; ch QUOTE]) (i := i + 2)
      as (text & i' & rest' & -> & Hp); [unfold ltof; cbn; lia|].
    exists (c :: c2 :: text), i', rest'. rewrite (isc_true _ _ Hc2), <- app_assoc.
    split; [done|]. apply passes_cons, passes_cons. by replace (i + 1 + 1) with (i + 2) by lia.
  - destruct (IH r) with (out := out ++ [c]) (i := i + 1)
      as (text & i' & rest' & -> & Hp); [unfold ltof; cbn; lia|].
    exists (c :: text), i', rest'. rewrite <- app_assoc. auto with passes.
Qed.

Lemma scan_subscript_passes out i rest :
  ∃ text i' rest',
    scan_subscript out i rest = (out ++ text, i', rest') ∧ passes i rest text i' rest'.
Proof.
  revert out i. induction rest as [|c r IH]; intros out i; cbn [scan_subscript].
  { exists [], i, []. rewrite app_nil_r. auto with passes. }
  destruct (isc ")" c); [exists [c], (i + 1), r; auto with passes|].
  destruct (IH (out ++ [c]) (i + 1)) as (text & i' & rest' & -> & Hp).
  exists (c :: text), i', rest'. rewrite <- app_assoc. auto with passes.
Qed.

(** The result of a scanner that started with [out] pushed already. *)
Definition scanned (out : list char) (i : nat) (rest : list char) (s : Scan) : Prop :=
  ∃ text, s.1.1 = out ++ text ∧ passes i rest text s.1.2 s.2.

Lemma scanned_done out i rest : scanned out i rest (out, i, rest).
Proof. exists []. rewrite app_nil_r. auto with passes. Qed.

(** One more piece in front of what a scanner goes on with. *)
Lemma scanned_step out i rest piece i1 rest1 s :
  passes i rest piece i1 rest1 → scanned (out ++ piece) i1 rest1 s → scanned out i rest s.
Proof.
  intros H1 (text & Hs & H2). exists (piece ++ text). rewrite app_assoc. split; [done|].
  by eapply passes_trans.
Qed.

Lemma braced_loop_ends n fuel start len depth out i rest :
  length rest ≤ fuel → (depth + Z.of_nat (opens rest) ≤ Z.of_nat n)%Z →
  ends n (braced_loop fuel start len depth out i rest) (scanned out i rest).
Proof.
  revert depth out i rest. induction fuel as [|fuel IH]; intros depth out i [|c r] Hlen Hd;
    cbn [braced_loop ends]; try done; [cbn in Hlen; lia|].
  cbn in Hlen. cbn [opens] in Hd.
  assert (Hgo : ∀ d, (d + Z.of_nat (opens r) ≤ Z.of_nat n)%Z →
    ends n (braced_loop fuel start len d (out ++ [c]) (i + 1) r) (scanned out i (c :: r))).
  { intros d Hdr. eapply ends_mono; [apply IH; lia|]. intros s. apply scanned_step, passes_one. }
  destruct (isc QUOTE c).
  - destruct (scan_quote_passes (out ++ [c]) (i + 1) r) as (text & i' & rest' & -> & Hp).
    pose proof (passes_length _ _ _ _ _ Hp). pose proof (opens_passes _ _ _ _ _ Hp).
    rewrite <- app_assoc. eapply ends_mono; [apply IH; lia|].
    intros s. apply scanned_step. by apply passes_cons.
  - destruct (isc "{" c).
    { destruct (depth =? I32_MAX)%Z eqn:Hmax; [apply Z.eqb_eq in Hmax; cbn; lia|].
      apply Hgo. lia. }
    destruct (isc "}" c); [|apply Hgo; lia].
    destruct (depth - 1 =? 0)%Z; [|apply Hgo; lia].
    exists [c]. split; [done|]. apply passes_one.
Qed.

Lemma braced_loop_nonempty fuel start len depth out i rest s :
  braced_loop fuel start len depth out i rest = Ok s → length s.2 < length rest ∨ rest = [].
Proof.
  revert depth out i rest. induction fuel as [|fuel IH]; intros depth out i [|c r]; cbn; try done.
  assert (Hgo : ∀ d o j r1, length r1 ≤ length r →
    braced_loop fuel start len d o j r1 = Ok s → length s.2 < S (length r) ∨ c :: r = []).
  { intros d o j r1 Hle H. destruct (IH _ _ _ _ H) as [?| ->]; [left; lia|].
    by destruct fuel. }
  destruct (isc QUOTE c).
  - destruct (scan_quote_passes (out ++ [c]) (i + 1) r) as (text & i' & rest' & -> & Hp).
    eapply Hgo, passes_length. exact Hp.
  - destruct (isc "{" c); [destruct (depth =? I32_MAX)%Z; [done|by apply Hgo]|].
    destruct (isc "}" c); [|by apply Hgo].
    destruct (depth - 1 =? 0)%Z; [|by apply Hgo].
    intros [= <-]. left. cbn. lia.
Qed.

Lemma read_braced_ends n len start rest :
  rest ≠ [] → opens rest ≤ n →
  ends n (read_braced_substitution len start rest)
    (λ s, scanned [] start rest s ∧ length s.2 < length rest).
Proof.
  intros Hne Hn. unfold read_braced_substitution.
  pose proof (braced_loop_ends n (length rest) start len 0 [] start rest (le_n _) ltac:(lia)) as H.
  destruct (braced_loop _ _ _ _ _ _ _) as [s| | |] eqn:E; cbn in *; try done.
  split; [done|]. apply braced_loop_nonempty in E. by destruct E.
Qed.

Lemma word_loop_ends n fuel len out i rest :
  length rest ≤ fuel → opens rest ≤ n →
  ends n (word_loop fuel len out i rest) (scanned out i rest).
Proof.
  revert out i rest. induction fuel as [|fuel IH]; intros out i [|c r] Hlen Hn;
    cbn [word_loop ends]; try (cbn in Hlen; lia); try apply scanned_done.
  cbn in Hlen. assert (opens r ≤ n) by (cbn in Hn; lia).
  destruct (isc "(" c && _).
  { destruct (scan_subscript_passes (out ++ [c]) (i + 1) r) as (text & i' & rest' & -> & Hp).
    pose proof (passes_length _ _ _ _ _ Hp). pose proof (opens_passes _ _ _ _ _ Hp).
    rewrite <- app_assoc. eapply ends_mono; [apply IH; lia|].
    intros s. apply scanned_step. by apply passes_cons. }
  destruct (ends_word c); [apply scanned_done|].
  destruct (isc QUOTE c).
  { destruct (scan_quote_passes (out ++ [c]) (i + 1) r) as (text & i' & rest' & -> & Hp).
    pose proof (passes_length _ _ _ _ _ Hp). pose proof (opens_passes _ _ _ _ _ Hp).
    rewrite <- app_assoc. eapply ends_mono; [apply IH; lia|].
    intros s. apply scanned_step. by apply passes_cons. }
  destruct (isc "`" c && _).
  { eapply ends_bind; [by apply read_braced_ends|].
    intros [[sub i'] rest'] [(text & Hsub & Hp) Hlt]. cbn in *. subst sub.
    pose proof (opens_passes _ _ _ _ _ Hp) as Ho. cbn in Ho.
    eapply ends_mono; [apply IH; lia|]. intros s. by apply scanned_step. }
  eapply ends_mono; [apply IH; lia|]. intros s. apply scanned_step, passes_one.
Qed.

Lemma read_word_ends n len i rest : opens rest ≤ n →
  ends n (read_word len i rest) (λ s, s.1.1 ≠ [] ∧ passes i rest s.1.1 s.1.2 s.2).
Proof.
  intros Hn. unfold read_word. eapply ends_bind; [by apply word_loop_ends|].
  intros [[out next] rest'] (text & Hout & Hp). cbn in Hout, Hp. subst out.
  by destruct text.
Qed.

Lemma until_bracket_passes text i rest s :
  until_bracket text i rest = Some s →
  ∃ more r, s = (text ++ more, i + length more, ch "]" :: r) ∧ rest = more ++ ch "]" :: r.
Proof.
  revert text i. induction rest as [|c r IH]; intros text i; cbn; [done|].
  destruct (isc "]" c) eqn:Hc.
  - intros [= <-]. exists [], r. rewrite app_nil_r, Nat.add_0_r, (isc_true _ _ Hc). done.
  - intros (more & r' & -> & ->)%IH. exists (c :: more), r'. split; [|done].
    rewrite <- app_assoc. cbn. by replace (i + 1 + length more) with (i + S (length more)) by lia.
Qed.

(** The bracket and what it encloses: [chars[start]] is the opening one. *)
Lemma find_closing_bracket_settles len start c rest :
  settles (find_closing_bracket len start (c :: rest))
    (λ s, ∃ r, s.2 = ch "]" :: r ∧ rest = s.1.1 ++ ch "]" :: r ∧
               s.1.2 = start + 1 + length s.1.1).
Proof.
  unfold find_closing_bracket. cbn [tail].
  destruct (until_bracket [] (start + 1) rest) as [s|] eqn:E; [|done].
  apply until_bracket_passes in E as (more & r & -> & ->). by exists r.
Qed.

Lemma parse_pipe_spec_settles len start rest :
  settles (parse_pipe_spec len start rest) (λ '(spec, next, rest'), ∃ text,
    passes start rest text next rest' ∧
    match spec with
    | None => text = []
    | Some _ => ∃ t, text = ch "[" :: t ++ [ch "]"]
    end).
Proof.
  unfold parse_pipe_spec. destruct rest as [|c r]; [exists []; auto with passes|].
  destruct (isc "[" c) eqn:Hc; [|exists []; auto with passes].
  eapply settles_bind; [apply find_closing_bracket_settles|].
  intros [[text end_] rest'] (r' & Hr' & Hr & Hend). cbn in Hr', Hr, Hend. subst. cbn.
  exists (c :: text ++ [ch "]"]). split.
  - split; [cbn; by rewrite <- app_assoc|]. cbn. rewrite length_app. cbn. lia.
  - exists text. by rewrite (isc_true _ _ Hc).
Qed.

Lemma redirect_mode_passes start op rest : ∃ mode i1 r1 t1,
  redirect_mode start op rest = (mode, i1, r1) ∧ passes (start + 1) rest t1 i1 r1.
Proof.
  unfold redirect_mode. destruct rest as [|c r]; cbn [next_is tail].
  { rewrite !andb_false_r. eexists _, _, _, []. auto with passes. }
  repeat case_match; eexists _, _, _, _; (split; [done|]); auto with passes.
Qed.

Lemma parse_redirect_settles len start op rest :
  settles (parse_redirect len start op rest) (λ '(_, next, rest'), ∃ text,
    passes (start + 1) rest text next rest').
Proof.
  unfold parse_redirect.
  destruct (redirect_mode_passes start op rest) as (mode & i1 & r1 & t1 & -> & Hp).
  destruct r1 as [|c r]; [by exists t1|].
  destruct (isc "[" c) eqn:Hc; [|by exists t1].
  eapply settles_bind; [apply find_closing_bracket_settles|].
  intros [[text end_] rest'] (r' & Hr' & Hr & Hend). cbn in Hr', Hr, Hend. subst. cbn.
  assert (Hpass : passes i1 (c :: text ++ ch "]" :: r') (c :: text ++ [ch "]"])
                   (i1 + 1 + length text + 1) r').
  { split; [cbn; by rewrite <- app_assoc|]. cbn. rewrite length_app. cbn. lia. }
  repeat case_match; exists (t1 ++ c :: text ++ [ch "]"]); by eapply passes_trans.
Qed.

(** ** Tokens *)

Lemma lex_token_ends n len i c r : opens (c :: r) ≤ n →
  ends n (lex_token len i c r) (λ '(tok, next, rest), ∃ text,
    passes i (c :: r) text next rest ∧ text ≠ [] ∧
    tok = token (kind tok) i next ∧ token_text (kind tok) text).
Proof.
  intros Hn. unfold lex_token.
  destruct (single c) as [k|] eqn:Hs.
  { exists [c]. split; [apply passes_one|]. split; [done|]. split; [done|]. cbn.
    unfold single in Hs.
    repeat case_match; simplify_eq;
      match goal with H : isc _ c = true |- _ => by apply isc_true in H as -> end. }
  destruct (isc "&" c) eqn:Hamp; [apply isc_true in Hamp; subst c|].
  { destruct r as [|c2 r2]; [|destruct (isc "&" c2) eqn:H2; [apply isc_true in H2; subst c2|]].
    - exists [ch "&"]. split; [apply passes_one|done].
    - exists [ch "&"; ch "&"]. split; [|done]. by split; [|cbn].
    - exists [ch "&"]. split; [apply passes_one|done]. }
  destruct (isc "|" c) eqn:Hbar; [apply isc_true in Hbar; subst c|].
  { destruct (match r with c2 :: _ => isc "|" c2 | [] => false end) eqn:H2.
    - destruct r as [|c2 r2]; [done|]. apply isc_true in H2; subst c2.
      exists [ch "|"; ch "|"]. split; [|done]. by split; [|cbn].
    - eapply ends_bind; [apply settles_ends, parse_pipe_spec_settles|].
      intros [[spec next] rest] (text & Hp & Htext). cbn.
      exists (ch "|" :: text). split; [by apply passes_cons|]. split; [done|]. split; [done|].
      destruct spec; [|by subst]. destruct Htext as [t ->]. by exists t. }
  destruct (isc "<" c || isc ">" c) eqn:Hr.
  { eapply ends_bind; [apply settles_ends, parse_redirect_settles|].
    intros [[op next] rest] (text & Hp). cbn.
    exists (c :: text). split; [by apply passes_cons|]. split; [done|]. split; [done|].
    by exists c, text. }
  eapply ends_bind; [by apply read_word_ends|].
  intros [[word next] rest] [Hne Hp]. cbn in *. by exists word.
Qed.

Lemma skip_comment_passes i rest :
  ∃ text i' rest', skip_comment i rest = (i', rest') ∧ passes i rest text i' rest' ∧
    forallb (λ c, negb (isc NEWLINE c)) text = true.
Proof.
  revert i. induction rest as [|c r IH]; intros i; cbn [skip_comment].
  { exists [], i, []. auto with passes. }
  destruct (isc NEWLINE c) eqn:Hc; [exists [], i, (c :: r); auto with passes|].
  destruct (IH (i + 1)) as (text & i' & rest' & -> & Hp & Ht).
  exists (c :: text), i', rest'. cbn. rewrite Hc. auto with passes.
Qed.

(** Dropped text in front of tokens is part of the first gap. *)
Lemma lexed_blank i c rest toks :
  blank c = true → Lexed (i + 1) rest toks → Lexed i (c :: rest) toks.
Proof.
  intros Hc. inversion 1 as [j gap Hg|j gap text rest' k toks' Hg Ht Hl]; subst.
  - apply lexed_end. by apply skip_blank.
  - change (c :: gap ++ text ++ rest') with ((c :: gap) ++ text ++ rest').
    replace (i + 1 + length gap) with (i + length (c :: gap)) in * by (cbn; lia).
    apply lexed_token; [by apply skip_blank|done|done].
Qed.

Lemma lexed_note i c note rest toks :
  isc "#" c = true → forallb (λ c, negb (isc NEWLINE c)) note = true →
  Lexed (i + 1 + length note) rest toks → Lexed i (c :: note ++ rest) toks.
Proof.
  intros Hc Hn. inversion 1 as [j gap Hg|j gap text rest' k toks' Hg Ht Hl]; subst.
  - apply lexed_end. by apply skip_note.
  - change (c :: note ++ gap ++ text ++ rest') with ((c :: note) ++ gap ++ text ++ rest').
    rewrite app_assoc.
    replace (i + 1 + length note + length gap) with (i + length ((c :: note) ++ gap)) in *
      by (rewrite length_app; cbn; lia).
    apply lexed_token; [by apply skip_note|done|done].
Qed.

Lemma lexed_cons i text rest k toks :
  token_text k text → Lexed (i + length text) rest toks →
  Lexed i (text ++ rest) (token k i (i + length text) :: toks).
Proof.
  intros Ht Hl. rewrite <- (Nat.add_0_r i) at 2 3.
  apply (lexed_token i [] text rest); [constructor|done|]. cbn.
  by replace (i + 0 + length text) with (i + length text) by lia.
Qed.

Lemma lex_loop_ends n fuel len i rest als :
  length rest ≤ fuel → opens rest ≤ n → ends n (lex_loop fuel len i rest als) (Lexed i rest).
Proof.
  revert i rest als. induction fuel as [|fuel IH]; intros i [|c r] als Hlen Hopen;
    cbn [lex_loop ends]; try (cbn in Hlen; lia);
    try (apply lexed_end; constructor).
  cbn in Hlen. assert (opens r ≤ n) by (cbn in Hopen; lia).
  destruct (isc " " c || isc TAB c || isc CR c) eqn:Hb.
  { eapply ends_mono; [apply IH; lia|]. intros toks. by apply lexed_blank. }
  destruct (isc NEWLINE c) eqn:Hn.
  { apply isc_true in Hn; subst c. eapply ends_bind; [apply IH; lia|].
    intros toks Hl. cbn. by apply (lexed_cons i [ch NEWLINE]). }
  destruct (isc "#" c && als) eqn:Hh.
  { apply andb_true_iff in Hh as [Hh _]. cbn [skip_comment]. rewrite Hn.
    destruct (skip_comment_passes (i + 1) r) as (text & i' & rest' & -> & [-> ->] & Ht).
    eapply ends_mono; [apply IH; rewrite length_app in Hlen;
      rewrite ?opens_app in *; lia|].
    intros toks. by apply lexed_note. }
  eapply ends_bind; [by apply lex_token_ends|].
  intros [[tok next] rest] (text & [Hrest ->] & Hne & Htok & Ht).
  eapply ends_bind; [apply IH|].
  - pose proof (f_equal length Hrest) as Hl. rewrite length_app in Hl.
    destruct text; [done|]. cbn in *. lia.
  - rewrite Hrest, opens_app in Hopen. lia.
  - intros toks Hl. cbn. rewrite Hrest, Htok. by apply lexed_cons.
Qed.

Lemma lex_ends n source : opens source ≤ n → ends n (lex source) (Lexed 0 source).
Proof. by apply lex_loop_ends. Qed.

(** ** Here documents *)

Lemma placed_app ms line more : placed ms line → placed ms (line ++ more).
Proof.
  destruct ms as [|m ms]; [done|]. cbn. intros (l & t & r & -> & Hs & He & Hm & Hp).
  exists l, t, (r ++ more). by rewrite <- !app_assoc.
Qed.

Lemma replace_markers_returns ms line : placed ms line →
  ∃ l, replace_markers ms line = Ok l ∧ opens l ≤ opens line.
Proof.
  revert line. induction ms as [|m ms IH]; intros line; [by exists line|].
  cbn [placed replace_markers]. intros (l & t & r & -> & -> & -> & Hm & Hp).
  rewrite replace_range_app. cbn.
  destruct (IH (l ++ marker m ++ r)) as (l' & -> & Hl); [by apply placed_app|].
  exists l'. split; [done|]. rewrite !opens_app in *. lia.
Qed.

Lemma numeric_opens cs : Forall (λ c, is_ascii_digit c = true) cs → opens cs = 0.
Proof.
  induction 1 as [|c cs Hc _ IH]; [done|]. cbn. destruct (isc "{" c) eqn:E; [|done].
  apply isc_true in E as ->. by vm_compute in Hc.
Qed.

Lemma marker_name_opens k : opens (here_marker_name k) = 0.
Proof.
  unfold here_marker_name. destruct (pretty_numeric (N.of_nat k)) as ([Hv _] & Hn & _).
  change (pretty k) with (pretty (N.of_nat k)).
  assert (str_valid "__") by done.
  rewrite chars_app by (done || by apply str_valid_app). rewrite chars_app by done.
  by rewrite !opens_app, (numeric_opens _ Hn).
Qed.

Lemma skip_blanks_spec pos rest :
  ∃ text rest', skip_blanks pos rest = (pos + byte_len text, rest') ∧ rest = text ++ rest'.
Proof.
  revert pos. induction rest as [|c r IH]; intros pos; cbn [skip_blanks].
  { exists [], []. by rewrite Nat.add_0_r. }
  case_match; [|exists [], (c :: r); by rewrite Nat.add_0_r].
  destruct (IH (pos + len_utf8 c)) as (text & rest' & -> & ->).
  exists (c :: text), rest'. split; [|done]. f_equal. cbn. unfold byte_len. lia.
Qed.

Lemma quoted_delimiter_spec delim pos rest :
  ∃ d text rest', quoted_delimiter delim pos rest = (d, pos + byte_len text, rest') ∧
    rest = text ++ rest'.
Proof.
  revert delim pos. induction rest as [|c r IH]; intros delim pos; cbn [quoted_delimiter].
  { exists delim, [], []. by rewrite Nat.add_0_r. }
  case_match.
  - exists delim, [c], r. split; [|done]. do 2 f_equal. cbn. lia.
  - destruct (IH (delim ++ [c]) (pos + len_utf8 c)) as (d & text & rest' & -> & ->).
    exists d, (c :: text), rest'. split; [|done]. do 2 f_equal. cbn. unfold byte_len. lia.
Qed.

Lemma bare_delimiter_spec delim pos rest :
  ∃ d text rest', bare_delimiter delim pos rest = (d, pos + byte_len text, rest') ∧
    rest = text ++ rest' ∧ d = delim ++ text.
Proof.
  revert delim pos. induction rest as [|c r IH]; intros delim pos; cbn [bare_delimiter].
  { exists delim, [], []. by rewrite Nat.add_0_r, !app_nil_r. }
  case_match; [exists delim, [], (c :: r); by rewrite Nat.add_0_r, app_nil_r|].
  destruct (IH (delim ++ [c]) (pos + len_utf8 c)) as (d & text & rest' & -> & -> & ->).
  exists ((delim ++ [c]) ++ text), (c :: text), rest'. rewrite <- app_assoc. split; [|done].
  do 2 f_equal. cbn. unfold byte_len. lia.
Qed.

(** The delimiter of a marker, whichever way it is written. *)
Lemma delimiter_spec (d : char) start r :
  ∃ delim text rest',
    (if isc QUOTE d then quoted_delimiter [] (start + len_utf8 d) r
     else bare_delimiter [] start (d :: r)) = (delim, start + byte_len text, rest') ∧
    d :: r = text ++ rest' ∧ (delim ≠ [] → text ≠ []).
Proof.
  destruct (isc QUOTE d).
  - destruct (quoted_delimiter_spec [] (start + len_utf8 d) r) as (dl & text & rest' & -> & ->).
    exists dl, (d :: text), rest'. split; [|done]. do 2 f_equal. cbn. unfold byte_len. lia.
  - destruct (bare_delimiter_spec [] start (d :: r)) as (dl & text & rest' & -> & -> & ->).
    by exists text, text, rest'.
Qed.

Lemma here_markers_loop_settles fuel pre rest quoted next_id markers :
  length rest ≤ fuel → placed (reverse markers) pre →
  settles (here_markers_loop fuel (byte_len pre) rest quoted next_id markers)
    (λ ms, placed (reverse ms) (pre ++ rest)).
Proof.
  revert pre rest quoted markers.
  induction fuel as [|fuel IH]; intros pre [|c r] quoted markers Hlen Hp;
    cbn [here_markers_loop settles]; try (cbn in Hlen; lia); try (by apply placed_app).
  cbn in Hlen.
  assert (Hgo : ∀ q, settles
    (here_markers_loop fuel (byte_len pre + len_utf8 c) r q next_id markers)
    (λ ms, placed (reverse ms) (pre ++ c :: r))).
  { intros q. replace (byte_len pre + len_utf8 c) with (byte_len (pre ++ [c]))
      by (rewrite byte_len_app; cbn; lia).
    replace (pre ++ c :: r) with ((pre ++ [c]) ++ r) by (by rewrite <- app_assoc).
    apply IH; [lia|]. by apply placed_app. }
  destruct (isc QUOTE c); [apply Hgo|].
  destruct (negb quoted && isc "<" c); [|apply Hgo].
  destruct r as [|c2 r2]; [apply Hgo|].
  destruct (isc "<" c2); [|apply Hgo].
  destruct (skip_blanks_spec (byte_len pre + len_utf8 c + len_utf8 c2) r2)
    as (blanks & rest & -> & ->).
  destruct rest as [|d r3]; [by apply placed_app|].
  replace (byte_len pre + len_utf8 c + len_utf8 c2 + byte_len blanks)
    with (byte_len (pre ++ c :: c2 :: blanks)) by (rewrite byte_len_app; cbn; unfold byte_len; lia).
  set (l := pre ++ c :: c2 :: blanks).
  destruct (delimiter_spec d (byte_len l) r3) as (delim & text & rest' & -> & Hdr & Hne).
  destruct delim as [|x delim]; [done|].
  replace (byte_len l + byte_len text) with (byte_len (l ++ text)) by apply byte_len_app.
  replace (pre ++ c :: c2 :: blanks ++ d :: r3) with ((l ++ text) ++ rest')
    by (unfold l; rewrite Hdr; by rewrite <- !app_assoc).
  apply IH.
  - pose proof (f_equal length Hdr) as Hl. rewrite length_app in Hl.
    destruct text; [by destruct Hne|]. cbn in *. rewrite length_app in Hlen. cbn in Hlen. lia.
  - rewrite reverse_app. cbn. exists l, text, []. rewrite app_nil_r, byte_len_app.
    split; [done|]. split; [done|]. split; [done|]. split; [apply marker_name_opens|].
    by apply placed_app.
Qed.

Lemma find_here_markers_settles line next_id :
  settles (find_here_markers line next_id) (λ ms, placed (reverse ms) line).
Proof. by apply (here_markers_loop_settles _ [] line false next_id []). Qed.

(** What is left of the lines is the end of them. *)
Lemma here_body_rest delim body lines b lines' :
  here_body delim body lines = Some (b, lines') → ∃ used, used ≠ [] ∧ lines = used ++ lines'.
Proof.
  revert body. induction lines as [|l ls IH]; intros body; cbn; [done|].
  case_decide; [intros [= _ <-]; by exists [l]|].
  intros (used & _ & ->)%IH. by exists (l :: used).
Qed.

Lemma here_bodies_settles ms lines docs :
  settles (here_bodies ms lines docs) (λ r, ∃ used, lines = used ++ r.1).
Proof.
  revert lines docs. induction ms as [|m ms IH]; intros lines docs; cbn; [by exists []|].
  destruct (here_body _ _ _) as [[b lines']|] eqn:E; [|done].
  apply here_body_rest in E as (used & _ & ->). eapply settles_mono; [apply IH|].
  cbn. intros r [used' ->]. exists (used ++ used'). by rewrite app_assoc.
Qed.

Lemma opens_join_app (a b : list (list char)) :
  opens (mjoin (a ++ b)) = opens (mjoin a) + opens (mjoin b).
Proof. by rewrite join_app, opens_app. Qed.

Lemma prepare_lines_settles fuel lines next_id out docs :
  length lines ≤ fuel →
  settles (prepare_lines fuel lines next_id out docs)
    (λ p, opens (prep_source p) ≤ opens out + opens (mjoin lines)).
Proof.
  revert lines next_id out docs.
  induction fuel as [|fuel IH]; intros [|line lines] next_id out docs Hlen;
    cbn [prepare_lines settles]; try (cbn in Hlen; lia); try (cbn; lia).
  cbn in Hlen. change (mjoin (line :: lines)) with (line ++ mjoin lines). rewrite opens_app.
  eapply settles_bind; [apply find_here_markers_settles|]. intros [|m ms] Hp.
  { eapply settles_mono; [apply IH; lia|]. intros p. rewrite opens_app. lia. }
  eapply settles_bind; [apply here_bodies_settles|]. intros [lines' docs'] [used Hl].
  cbn in Hl. subst lines. rewrite length_app in Hlen. rewrite opens_join_app.
  destruct (replace_markers_returns _ _ Hp) as (l & -> & Hopen). cbn [mbind outcome_bind].
  eapply settles_mono; [apply IH; lia|]. intros p. rewrite opens_app. lia.
Qed.

Lemma prepare_here_docs_settles source :
  settles (prepare_here_docs source) (λ p, opens (prep_source p) ≤ opens source).
Proof.
  eapply settles_mono; [by apply prepare_lines_settles|]. intros p. cbn.
  by rewrite split_lines_concat.
Qed.

(** ** Properties *)

(** C10. The lexer drops nothing but blanks and comments: the tokens it gives
    carry, at spans that follow each other without overlap, the very text of the
    source, and a word is the characters of its span, quotes, substitutions and
    subscripts included. *)
Theorem lex_lossless source toks : lex source = Ok toks → Lexed 0 source toks.
Proof. intros Hlex. pose proof (lex_ends _ source (le_n _)) as H. by rewrite Hlex in H. Qed.

Definition sample_source : list char :=
  chars ("# start" +:+ String NEWLINE "x=`{date} a'b c'^$x(1 2) >[2=1]|[2] y&& z").

Lemma lex_lossless_witness :
  ∃ toks, lex sample_source = Ok toks ∧ length toks = 8 ∧ Lexed 0 sample_source toks.
Proof.
  eexists. split; [vm_compute; reflexivity|]. split; [reflexivity|].
  apply lex_lossless. vm_compute. reflexivity.
Defined.
