(* ===== verification/RcParse.v ===== *)
(** * rc: the parser

    Models [Parser] and [parse] of [crates/star9-rc/src/lib.rs].  The parser is a
    computation over its state (tokens, position, here documents).  The recursive
    descent goes through [parse_command]: the other productions take it as a
    parameter, and [parse_command] ties the knot with its depth as fuel.  The
    loops have their own fuel [n].  A parser over [k] tokens gets [k + 1] of
    both, which is enough ([RcParseFacts.parse_total]). *)

From stdpp Require Import base list numbers option strings pretty.
From Stdlib Require Import ZArith Lia Ascii.
From S2P Require Import Prelude Strs BTree RcText RcSyntax RcLex.

Record Parser := mkParser {
  tokens : list Token; pos : nat; here_docs : btree string HereDoc
}.

Abbreviation P A := (Eff RcError Parser A).

(** ** Cursor *)

Definition set_pos (n : nat) (p : Parser) : Parser := mkParser (tokens p) n (here_docs p).
Definition set_here_docs (h : btree string HereDoc) (p : Parser) : Parser :=
  mkParser (tokens p) (pos p) h.

Definition peek : P (option Token) := gets (λ p, tokens p !! pos p).
Definition peek_kind : P (option TokenKind) := gets (λ p, kind <$> tokens p !! pos p).
(** [self.pos += 1] *)
Definition advance : P unit := modify (λ p, set_pos (pos p + 1) p).

(** [matches!(self.peek_kind(), Some(k) if test(k))] *)
Definition at_kind (test : TokenKind → bool) (k : option TokenKind) : bool :=
  match k with Some k => test k | None => false end.

Definition is_separator (k : TokenKind) : bool :=
  match k with TkSemi | TkNewline => true | _ => false end.
Definition is_lbrace (k : TokenKind) : bool := match k with TkLBrace => true | _ => false end.
Definition is_rbrace (k : TokenKind) : bool := match k with TkRBrace => true | _ => false end.
Definition is_lparen (k : TokenKind) : bool := match k with TkLParen => true | _ => false end.
Definition is_rparen (k : TokenKind) : bool := match k with TkRParen => true | _ => false end.
Definition is_word (w : string) (k : TokenKind) : bool :=
  match k with TkWord v => bool_decide (v = w) | _ => false end.

Definition is_command_terminator (k : TokenKind) : bool :=
  match k with
  | TkSemi | TkNewline | TkAndAnd | TkOrOr | TkAmp | TkPipe _ | TkRBrace | TkRParen => true
  | _ => false
  end.

Fixpoint skip_separators (n : nat) : P unit :=
  match n with
  | O => no_fuel
  | S n => k ← peek_kind;
      if at_kind is_separator k then advance ;; skip_separators n else mret tt
  end.

Definition consume_separator : P bool :=
  k ← peek_kind;
  if at_kind is_separator k then advance ;; mret true else mret false.

Definition expect_symbol (predicate : TokenKind → bool) (label : string) : P unit :=
  t ← peek;
  match t with
  | Some t =>
      if predicate (kind t) then advance
      else throw (RcErr.at_span ("expected " +:+ label) (tok_span t))
  | None => throw (RcErr.new ("expected " +:+ label))
  end.

Definition expect_lbrace : P unit := expect_symbol is_lbrace "{".
Definition expect_rbrace : P unit := expect_symbol is_rbrace "}".
Definition expect_lparen : P unit := expect_symbol is_lparen "(".
Definition expect_rparen : P unit := expect_symbol is_rparen ")".

Definition expect_word (expected : string) : P unit :=
  k ← peek_kind;
  if at_kind (is_word expected) k then advance
  else throw (RcErr.new ("expected " +:+ expected)).

Definition expect_any_word : P string :=
  k ← peek_kind;
  match k with
  | Some (TkWord w) => advance ;; mret w
  | _ => throw (RcErr.new "expected word")
  end.

Definition match_word (expected : string) : P bool :=
  k ← peek_kind;
  if at_kind (is_word expected) k then advance ;; mret true else mret false.

(** ** Names and assignments *)

Definition is_name (value : string) : bool :=
  match chars value with
  | c :: cs =>
      (is_ascii_alphabetic c || isc "_" c || isc "*" c) &&
      forallb (λ c, is_ascii_alphanumeric c || isc "_" c) cs
  | [] => false
  end.

Definition parse_assignment_head (raw : string) : option (string * string) :=
  match split_once "=" raw with
  | Some (name, suffix) => if is_name name then Some (name, suffix) else None
  | None => None
  end.

(** ** Debug output of a token kind, for the text of one error *)

Definition PipeSpec_debug (s : option PipeSpec) : string :=
  match s with
  | None => "None"
  | Some s => "Some(PipeSpec { from_fd: " +:+ pretty (from_fd s) +:+ ", to_fd: " +:+
              pretty (to_fd s) +:+ " })"
  end.

Definition RedirectMode_debug (m : RedirectMode) : string :=
  match m with
  | Read => "Read"
  | Write => "Write"
  | Append => "Append"
  | Here => "Here"
  | Dup None => "Dup { from: None }"
  | Dup (Some f) => "Dup { from: Some(" +:+ pretty f +:+ ") }"
  end.

(** The escapes of [{:?}] on a word are left out: the error that prints a kind is
    never raised at a word. *)
Definition TokenKind_debug (k : TokenKind) : string :=
  match k with
  | TkWord w => "Word(" +:+ w +:+ ")"
  | TkNewline => "Newline"
  | TkSemi => "Semi"
  | TkAndAnd => "AndAnd"
  | TkOrOr => "OrOr"
  | TkAmp => "Amp"
  | TkPipe s => "Pipe(" +:+ PipeSpec_debug s +:+ ")"
  | TkBang => "Bang"
  | TkLBrace => "LBrace"
  | TkRBrace => "RBrace"
  | TkLParen => "LParen"
  | TkRParen => "RParen"
  | TkRedirect op =>
      "Redirect(RedirectOp { fd: " +:+ pretty (op_fd op) +:+ ", mode: " +:+
      RedirectMode_debug (op_mode op) +:+ " })"
  end.

(** ** Productions *)

(** Words up to a token with [stop]; at the end of the tokens the loop goes on
    to [expect_any_word] unless [stop_at_end]. *)
Fixpoint words_until (n : nat) (stop : TokenKind → bool) (stop_at_end : bool)
    (values : list Word) : P (list Word) :=
  match n with
  | O => no_fuel
  | S n =>
      k ← peek_kind;
      if match k with Some k => stop k | None => stop_at_end end then mret values
      else w ← expect_any_word; words_until n stop stop_at_end (values ++ [Word_new w])
  end.

Section Productions.
(** The fuel of a loop, and the production for a nested command. *)
Variable n : nat.
Variable parse_command : P Node.

Fixpoint unary_loop (m : nat) : P Node :=
  match m with
  | O => no_fuel
  | S m =>
      k ← peek_kind;
      match k with
      | Some TkBang => advance ;; inner ← unary_loop m; mret (Not inner)
      | _ => parse_command
      end
  end.

Definition parse_unary : P Node := unary_loop n.

Fixpoint pipeline_loop (m : nat) (left : Node) : P Node :=
  match m with
  | O => no_fuel
  | S m =>
      k ← peek_kind;
      match k with
      | Some (TkPipe spec) =>
          advance ;; right ← parse_unary; pipeline_loop m (Pipe left right spec)
      | _ => mret left
      end
  end.

Definition parse_pipeline : P Node := left ← parse_unary; pipeline_loop n left.

Fixpoint and_or_loop (m : nat) (left : Node) : P Node :=
  match m with
  | O => no_fuel
  | S m =>
      k ← peek_kind;
      match k with
      | Some TkAndAnd => advance ;; right ← parse_pipeline; and_or_loop m (And left right)
      | Some TkOrOr => advance ;; right ← parse_pipeline; and_or_loop m (Or left right)
      | _ => mret left
      end
  end.

Definition parse_and_or : P Node := left ← parse_pipeline; and_or_loop n left.

Definition no_progress (t : Token) : RcError :=
  RcErr.at_span ("parser made no progress at token " +:+ TokenKind_debug (kind t)) (tok_span t).

(** One command of a sequence, made a background one by an ampersand. *)
Definition sequence_item (t : Token) : P Node :=
  before ← gets pos;
  node ← parse_and_or;
  after ← gets pos;
  guard_err (bool_decide (after = before)) (no_progress t) ;;
  k ← peek_kind;
  match k with
  | Some TkAmp => advance ;; mret (Background node)
  | _ => mret node
  end.

Fixpoint sequence_loop (m : nat) (stop : TokenKind → bool) (nodes : list Node) : P (list Node) :=
  match m with
  | O => no_fuel
  | S m =>
      t ← peek;
      match t with
      | None => mret nodes
      | Some t =>
          if stop (kind t) then mret nodes
          else
            node ← sequence_item t;
            separated ← consume_separator;
            if (separated : bool) then
              skip_separators n ;; sequence_loop m stop (nodes ++ [node])
            else
              t ← peek;
              match t with
              | Some t =>
                  if stop (kind t) then mret (nodes ++ [node])
                  else sequence_loop m stop (nodes ++ [node])
              | None => mret (nodes ++ [node])
              end
      end
  end.

Definition parse_sequence_until (stop : TokenKind → bool) : P (list Node) :=
  skip_separators n ;; sequence_loop n stop [].

Definition parse_block : P Node :=
  expect_lbrace ;; body ← parse_sequence_until is_rbrace; expect_rbrace ;; mret (Block body).

Definition parse_paren_group : P Node :=
  expect_lparen ;; body ← parse_sequence_until is_rparen; expect_rparen ;; mret (Block body).

Definition parse_condition : P Node :=
  expect_lparen ;; nodes ← parse_sequence_until is_rparen; expect_rparen ;;
  mret (Sequence nodes).

(** The optional [if not] part; without it the separators before it are not
    consumed. *)
Definition parse_else (condition then_branch : Node) : P Node :=
  before_else ← gets pos;
  skip_separators n ;;
  found ← (b ← match_word "if"; if (b : bool) then match_word "not" else mret false);
  if (found : bool) then
    skip_separators n ;;
    else_branch ← parse_command;
    mret (If condition then_branch (Some else_branch))
  else
    modify (set_pos before_else) ;; mret (If condition then_branch None).

Definition parse_if : P Node :=
  expect_word "if" ;;
  condition ← parse_condition;
  skip_separators n ;;
  then_branch ← parse_command;
  parse_else condition then_branch.

Definition parse_while : P Node :=
  expect_word "while" ;;
  condition ← parse_condition;
  skip_separators n ;;
  body ← parse_command;
  mret (While condition body).

Definition parse_for : P Node :=
  expect_word "for" ;;
  expect_lparen ;;
  var ← expect_any_word;
  has_in ← match_word "in";
  values ← (if (has_in : bool) then words_until n is_rparen false [] else mret []);
  expect_rparen ;;
  skip_separators n ;;
  body ← parse_command;
  mret (For var values body).

Definition ends_patterns (k : TokenKind) : bool :=
  match k with TkSemi | TkNewline | TkRBrace => true | _ => false end.

Definition ends_case (k : TokenKind) : bool := is_rbrace k || is_word "case" k.

Fixpoint cases_loop (m : nat) (cases : list SwitchCase) : P (list SwitchCase) :=
  match m with
  | O => no_fuel
  | S m =>
      k ← peek_kind;
      match k with
      | Some TkRBrace | None => mret cases
      | _ =>
          expect_word "case" ;;
          patterns ← words_until n ends_patterns true [];
          consume_separator ;;
          body ← parse_sequence_until ends_case;
          skip_separators n ;;
          cases_loop m (cases ++ [mkCase patterns body])
      end
  end.

Definition parse_switch : P Node :=
  expect_word "switch" ;;
  expect_lparen ;;
  value ← expect_any_word;
  expect_rparen ;;
  skip_separators n ;;
  expect_lbrace ;;
  skip_separators n ;;
  cases ← cases_loop n [];
  expect_rbrace ;;
  mret (Switch (Word_new value) cases).

Definition parse_function : P Node :=
  expect_word "fn" ;;
  name ← expect_any_word;
  k ← peek_kind;
  if at_kind is_lbrace k then body ← parse_block; mret (Function name (Some body))
  else mret (Function name None).

(** What follows [name=], the word of the assignment being consumed already. *)
Definition assignment_values (suffix : string) : P (list Word) :=
  k ← peek_kind;
  if is_empty_str suffix && at_kind is_lparen k then
    advance ;;
    values ← words_until n is_rparen true [];
    expect_rparen ;;
    mret values
  else mret (if is_empty_str suffix then [] else [Word_new suffix]).

(** The target of a redirection, its operator being consumed already. *)
Definition redirect_target (op : RedirectOp) : P (option RedirectTarget) :=
  k ← peek_kind;
  match op_mode op with
  | Dup _ => mret None
  | Here =>
      raw ← expect_any_word;
      docs ← gets here_docs;
      modify (set_here_docs (bt_remove raw docs)) ;;
      mret (Some match bt_get raw docs with
                 | Some doc => THereDoc doc
                 | None => TWord (Word_new raw)
                 end)
  | Read | Write | Append =>
      if at_kind is_lbrace k then node ← parse_block; mret (Some (TProcess node))
      else raw ← expect_any_word; mret (Some (TWord (Word_new raw)))
  end.

Fixpoint simple_loop (m : nat) (seen_word : bool) (simple : SimpleCommand) : P SimpleCommand :=
  match m with
  | O => no_fuel
  | S m =>
      k ← peek_kind;
      match k with
      | Some (TkWord raw) =>
          advance ;;
          match (if seen_word then None else parse_assignment_head raw) with
          | Some (name, suffix) =>
              values ← assignment_values suffix;
              simple_loop m seen_word
                (mkSimple (assignments simple ++ [mkAssignment name values]) (words simple)
                   (redirects simple))
          | None =>
              simple_loop m true
                (mkSimple (assignments simple) (words simple ++ [Word_new raw])
                   (redirects simple))
          end
      | Some (TkRedirect op) =>
          advance ;;
          target ← redirect_target op;
          simple_loop m seen_word
            (mkSimple (assignments simple) (words simple)
               (redirects simple ++ [mkRedirect (op_fd op) (op_mode op) target]))
      | _ => mret simple
      end
  end.

Definition parse_simple : P Node :=
  simple ← simple_loop n false (mkSimple [] [] []);
  mret match simple with
       | mkSimple [] [] [] => Empty
       | _ => Simple simple
       end.

(** The body of [parse_command]. *)
Definition command_body : P Node :=
  k ← peek_kind;
  match k with
  | Some TkLBrace => parse_block
  | Some TkLParen => parse_paren_group
  | Some (TkWord w) =>
      if decide (w = "if") then parse_if
      else if decide (w = "while") then parse_while
      else if decide (w = "for") then parse_for
      else if decide (w = "switch") then parse_switch
      else if decide (w = "fn") then parse_function
      else parse_simple
  | _ => parse_simple
  end.
End Productions.

Fixpoint parse_command (n depth : nat) : P Node :=
  match depth with
  | O => no_fuel
  | S depth => command_body n (parse_command n depth)
  end.

Definition script_end (k : TokenKind) : bool := is_rbrace k || is_rparen k.

Definition parse_script (n : nat) : P Script :=
  nodes ← parse_sequence_until n (parse_command n n) script_end;
  mret (mkScript nodes).

Definition run_parser (toks : list Token) (docs : btree string HereDoc) : RcResult Script :=
  fst (parse_script (S (length toks)) (mkParser toks 0 docs)).

(** [parse], on a source given as its characters *)
Definition parse_chars (source : list char) : RcResult Script :=
  prepared ← prepare_here_docs source;
  toks ← lex (prep_source prepared);
  run_parser toks (prep_here_docs prepared).

Definition parse (source : string) : RcResult Script := parse_chars (chars source).

Definition parse_render (source : string) : option string :=
  match parse source with
  | Ok s => Some (str_join "; " (render_node <$> commands s))
  | _ => None
  end.

Example parse_example :
  parse_render "if(~ $x a*) echo yes >out; if not { for(i in a b) echo $i | wc &}"
  = Some "if({ ~ $x a* }) echo yes >out if not { for(i in a b) echo $i | wc & }".
Proof. vm_compute. reflexivity. Qed.
