(* ===== verification/RcParseFacts.v ===== *)
(** * rc: the parser ends

    Every production only moves forward over the tokens, and every loop and every
    nested command consumes one, so the fuel [run_parser] gives is never used up:
    [parse] is total on all sources, and a script or an error comes out. *)

From stdpp Require Import base list numbers option strings pretty.
From Stdlib Require Import ZArith Lia Ascii.
From S2P Require Import Prelude Strs BTree RcText RcSyntax RcLex RcLexFacts RcParse.

Section Progress.
Variable toks : list Token.

Abbreviation len := (length toks).

(** From a position [lo] or later, and before the end when [strict], [m] ends; a
    success leaves the tokens alone and a position between [lo'] and the end. *)
Definition goes {A} (strict : bool) (lo lo' : nat) (m : P A) : Prop :=
  ∀ p, tokens p = toks → lo ≤ pos p → pos p + (if strict then 1 else 0) ≤ len →
    match m p with
    | (Ok _, p') => tokens p' = toks ∧ lo' ≤ pos p' ≤ len
    | (Err _, _) => True
    | _ => False
    end.

(** ** Rules *)

Lemma goes_bind {A B} st lo mid lo' (m : P A) (f : A → P B) :
  goes st lo mid m → (∀ a, goes false mid lo' (f a)) → goes st lo lo' (m ≫= f).
Proof.
  intros Hm Hf p Ht Hlo Hp. specialize (Hm p Ht Hlo Hp). unfold mbind, eff_bind.
  destruct (m p) as [[a|e| |] p']; try done.
  destruct Hm as (Ht' & Hlo' & Hp'). apply Hf; [done..|lia].
Qed.

Lemma goes_ret {A} st lo lo' (a : A) : lo' ≤ lo → goes st lo lo' (mret a).
Proof. intros Hle p Ht Hlo Hp. cbn. split; [done|]. lia. Qed.

Lemma goes_throw {A} st lo lo' e : goes (A:=A) st lo lo' (throw e).
Proof. done. Qed.

Lemma goes_vacuous {A} st lo lo' (m : P A) : len < lo → goes st lo lo' m.
Proof. intros H p Ht Hlo Hp. lia. Qed.

Lemma goes_weaken {A} st lo lo' lo2 lo2' (m : P A) :
  goes st lo lo' m → lo ≤ lo2 → lo2' ≤ lo' → goes st lo2 lo2' m.
Proof.
  intros Hm H1 H2 p Ht Hlo Hp. specialize (Hm p Ht ltac:(lia) Hp).
  destruct (m p) as [[a|e| |] p']; try done. destruct Hm as (? & ? & ?). split; [done|]. lia.
Qed.

Lemma goes_strict {A} st lo lo' (m : P A) : goes false lo lo' m → goes st lo lo' m.
Proof. intros Hm p Ht Hlo Hp. apply Hm; [done..|]. cbn. lia. Qed.

Lemma goes_advance lo : goes true lo (S lo) advance.
Proof. intros p Ht Hlo Hp. cbn in *. split; [done|]. lia. Qed.

(** Looking at the next token: a token there means the position is not the end. *)
Lemma goes_peek_kind {A} st lo lo' (f : option TokenKind → P A) :
  goes st lo lo' (f None) → (∀ k, goes true lo lo' (f (Some k))) →
  goes st lo lo' (peek_kind ≫= f).
Proof.
  intros Hnone Hsome p Ht Hlo Hp. unfold peek_kind, mbind at 1, eff_bind. cbn [gets].
  unfold gets. destruct (tokens p !! pos p) as [t|] eqn:E; cbn [fmap option_fmap option_map].
  - apply lookup_lt_Some in E. rewrite Ht in E. apply Hsome; [done..|lia].
  - by apply Hnone.
Qed.

Lemma goes_peek {A} st lo lo' (f : option Token → P A) :
  goes st lo lo' (f None) → (∀ t, goes true lo lo' (f (Some t))) →
  goes st lo lo' (peek ≫= f).
Proof.
  intros Hnone Hsome p Ht Hlo Hp. unfold peek, mbind, eff_bind, gets.
  destruct (tokens p !! pos p) as [t|] eqn:E.
  - apply lookup_lt_Some in E. rewrite Ht in E. apply Hsome; [done..|lia].
  - by apply Hnone.
Qed.

(** The position itself, on which a later test or reset may depend. *)
Lemma goes_pos {A} st lo lo' (f : nat → P A) :
  (∀ n, lo ≤ n → n ≤ len → goes st n lo' (f n)) → goes st lo lo' (gets pos ≫= f).
Proof.
  intros Hf p Ht Hlo Hp. unfold mbind, eff_bind, gets.
  apply Hf; [done| |done|done|done]. destruct st; lia.
Qed.

Lemma goes_set_pos lo lo' : lo' ≤ len → goes false lo lo' (modify (set_pos lo')).
Proof. intros H p Ht Hlo Hp. cbn. split; [done|]. lia. Qed.

Lemma goes_if {A} st lo lo' (b : bool) (m1 m2 : P A) :
  goes st lo lo' m1 → goes st lo lo' m2 → goes st lo lo' (if b then m1 else m2).
Proof. by destruct b. Qed.

(** ** The cursor operations *)

Lemma skip_separators_goes m lo : len < lo + m → goes false lo lo (skip_separators m).
Proof.
  revert lo. induction m as [|m IH]; intros lo Hm; [apply goes_vacuous; lia|].
  cbn [skip_separators]. apply goes_peek_kind; [by apply goes_ret|].
  intros k. apply goes_if; [|by apply goes_ret].
  eapply goes_bind; [apply goes_advance|]. intros _.
  eapply goes_weaken; [apply (IH (S lo)); lia|lia|lia].
Qed.

Lemma consume_separator_goes lo : goes false lo lo consume_separator.
Proof.
  apply goes_peek_kind; [by apply goes_ret|]. intros k. apply goes_if; [|by apply goes_ret].
  eapply goes_bind; [apply goes_advance|]. intros _. apply goes_ret. lia.
Qed.

Lemma expect_symbol_goes st lo test label : goes st lo (S lo) (expect_symbol test label).
Proof.
  apply goes_peek; [apply goes_throw|]. intros t.
  apply goes_if; [apply goes_advance|apply goes_throw].
Qed.

Lemma expect_word_goes st lo w : goes st lo (S lo) (expect_word w).
Proof.
  apply goes_peek_kind; [apply goes_throw|]. intros k.
  apply goes_if; [apply goes_advance|apply goes_throw].
Qed.

Lemma expect_any_word_goes st lo : goes st lo (S lo) expect_any_word.
Proof.
  apply goes_peek_kind; [apply goes_throw|]. intros []; try apply goes_throw.
  eapply goes_bind; [apply goes_advance|]. intros _. by apply goes_ret.
Qed.

Lemma match_word_goes st lo w : goes st lo lo (match_word w).
Proof.
  apply goes_peek_kind; [by apply goes_ret|]. intros k. apply goes_if; [|by apply goes_ret].
  eapply goes_bind; [apply goes_advance|]. intros _. apply goes_ret. lia.
Qed.

Lemma words_until_goes m stop at_end values lo :
  len < lo + m → goes false lo lo (words_until m stop at_end values).
Proof.
  revert values lo. induction m as [|m IH]; intros values lo Hm; [apply goes_vacuous; lia|].
  assert (Hword : ∀ st, goes st lo lo
    (w ← expect_any_word; words_until m stop at_end (values ++ [Word_new w]))).
  { intros st. eapply goes_bind; [apply expect_any_word_goes|]. intros w.
    eapply goes_weaken; [apply (IH _ (S lo)); lia|lia|lia]. }
  cbn [words_until].
  apply goes_peek_kind; [|intros k]; (apply goes_if; [by apply goes_ret|apply Hword]).
Qed.

(** ** The productions

    [base] is where nested commands may start: they are known to end from there. *)
Section Productions.
Variables n base : nat.
Variable cmd : P Node.
Hypothesis fuel : len < n.
Hypothesis nested : ∀ lo, base ≤ lo → goes false lo lo cmd.

Lemma skip_goes lo : goes false lo lo (skip_separators n).
Proof. apply skip_separators_goes. lia. Qed.

Lemma unary_loop_goes m lo : base ≤ lo → len < lo + m → goes false lo lo (unary_loop cmd m).
Proof.
  revert lo. induction m as [|m IH]; intros lo Hb Hm; [apply goes_vacuous; lia|].
  cbn [unary_loop]. apply goes_peek_kind; [by apply nested|].
  intros k. assert (goes true lo lo cmd) by (by apply goes_strict, nested).
  destruct k; try done.
  eapply goes_bind; [apply goes_advance|]. intros _.
  eapply goes_bind; [apply IH; lia|]. intros inner. apply goes_ret. lia.
Qed.

Lemma parse_unary_goes lo : base ≤ lo → goes false lo lo (parse_unary n cmd).
Proof. intros Hb. apply unary_loop_goes; [done|lia]. Qed.

Lemma pipeline_loop_goes m left lo :
  base ≤ lo → len < lo + m → goes false lo lo (pipeline_loop n cmd m left).
Proof.
  revert left lo. induction m as [|m IH]; intros left lo Hb Hm; [apply goes_vacuous; lia|].
  cbn [pipeline_loop]. apply goes_peek_kind; [by apply goes_ret|].
  intros []; try (by apply goes_ret).
  eapply goes_bind; [apply goes_advance|]. intros _.
  eapply goes_bind; [apply parse_unary_goes; lia|]. intros right.
  eapply goes_weaken; [apply (IH _ (S lo)); lia|lia|lia].
Qed.

Lemma parse_pipeline_goes lo : base ≤ lo → goes false lo lo (parse_pipeline n cmd).
Proof.
  intros Hb. eapply goes_bind; [by apply parse_unary_goes|]. intros left.
  apply pipeline_loop_goes; [done|lia].
Qed.

Lemma and_or_loop_goes m left lo :
  base ≤ lo → len < lo + m → goes false lo lo (and_or_loop n cmd m left).
Proof.
  revert left lo. induction m as [|m IH]; intros left lo Hb Hm; [apply goes_vacuous; lia|].
  assert (Hstep : ∀ g, goes true lo lo
    (advance ;; right ← parse_pipeline n cmd; and_or_loop n cmd m (g right))).
  { intros g. eapply goes_bind; [apply goes_advance|]. intros _.
    eapply goes_bind; [apply parse_pipeline_goes; lia|]. intros right.
    eapply goes_weaken; [apply (IH _ (S lo)); lia|lia|lia]. }
  cbn [and_or_loop]. apply goes_peek_kind; [by apply goes_ret|].
  intros []; solve [by apply goes_ret|apply (Hstep (And left))|apply (Hstep (Or left))].
Qed.

Lemma parse_and_or_goes lo : base ≤ lo → goes false lo lo (parse_and_or n cmd).
Proof.
  intros Hb. eapply goes_bind; [by apply parse_pipeline_goes|]. intros left.
  apply and_or_loop_goes; [done|lia].
Qed.

(** An item consumes a token, or it is the error that none was consumed. *)
Lemma sequence_item_goes st t lo : base ≤ lo → goes st lo (S lo) (sequence_item n cmd t).
Proof.
  intros Hb. apply goes_strict, goes_pos. intros before Hlo Hlen.
  eapply goes_bind; [apply parse_and_or_goes; lia|]. intros node.
  apply goes_pos. intros after Hle Hlen'. unfold guard_err. case_bool_decide as Heq.
  { intros p ???. exact I. }
  apply (goes_bind _ _ after); [by apply goes_ret|]. intros _.
  assert (Hret : ∀ st, goes st after (S lo) (mret node)) by (intros; apply goes_ret; lia).
  apply goes_peek_kind; [apply Hret|].
  intros []; try apply Hret. eapply goes_bind; [apply goes_advance|]. intros _. apply goes_ret. lia.
Qed.

Lemma sequence_loop_goes m stop nodes lo :
  base ≤ lo → len < lo + m → goes false lo lo (sequence_loop n cmd m stop nodes).
Proof.
  revert nodes lo. induction m as [|m IH]; intros nodes lo Hb Hm; [apply goes_vacuous; lia|].
  assert (Hnext : ∀ st nodes, goes st (S lo) lo (sequence_loop n cmd m stop nodes)).
  { intros st ns. apply goes_strict. eapply goes_weaken; [apply (IH _ (S lo)); lia|lia|lia]. }
  cbn [sequence_loop]. apply goes_peek; [by apply goes_ret|]. intros t.
  apply goes_if; [by apply goes_ret|].
  eapply goes_bind; [by apply sequence_item_goes|]. intros node.
  eapply goes_bind; [apply consume_separator_goes|]. intros [].
  - eapply goes_bind; [apply skip_goes|]. intros _. apply Hnext.
  - apply goes_peek; [apply goes_ret; lia|]. intros t'.
    apply goes_if; [apply goes_ret; lia|apply Hnext].
Qed.

Lemma parse_sequence_goes stop lo : base ≤ lo → goes false lo lo (parse_sequence_until n cmd stop).
Proof.
  intros Hb. eapply goes_bind; [apply skip_goes|]. intros _.
  apply sequence_loop_goes; [done|lia].
Qed.
End Productions.

(** ** Commands: their first token is consumed before a nested one starts *)
Section Commands.
Variables n lo : nat.
Variable cmd : P Node.
Hypothesis fuel : len < n.
Hypothesis nested : ∀ lo', S lo ≤ lo' → goes false lo' lo' cmd.

Lemma enclosed_goes st from (open close : P unit) stop (g : list Node → Node) :
  lo ≤ from → goes st from (S from) open → (∀ at_, goes false at_ (S at_) close) →
  goes st from from (open ;; nodes ← parse_sequence_until n cmd stop; close ;; mret (g nodes)).
Proof.
  intros Hfrom Hopen Hclose. eapply goes_bind; [done|]. intros _.
  eapply goes_bind; [eapply (parse_sequence_goes n (S lo)); [done..|lia]|]. intros nodes.
  eapply goes_bind; [apply Hclose|]. intros _. apply goes_ret. lia.
Qed.

Lemma parse_block_goes st from : lo ≤ from → goes st from from (parse_block n cmd).
Proof.
  intros. apply enclosed_goes; [done|apply expect_symbol_goes|intros; apply expect_symbol_goes].
Qed.

Lemma parse_paren_group_goes st from : lo ≤ from → goes st from from (parse_paren_group n cmd).
Proof.
  intros. apply enclosed_goes; [done|apply expect_symbol_goes|intros; apply expect_symbol_goes].
Qed.

Lemma parse_condition_goes st from : lo ≤ from → goes st from from (parse_condition n cmd).
Proof.
  intros. apply enclosed_goes; [done|apply expect_symbol_goes|intros; apply expect_symbol_goes].
Qed.

Lemma parse_else_goes c t from :
  S lo ≤ from → goes false from from (parse_else n cmd c t).
Proof.
  intros Hfrom. apply goes_pos. intros before Hle Hlen.
  eapply goes_bind; [by apply skip_goes|]. intros _.
  apply (goes_bind _ _ before).
  { eapply goes_bind; [apply match_word_goes|]. intros [];
      [apply match_word_goes|by apply goes_ret]. }
  intros [].
  - eapply goes_bind; [by apply skip_goes|]. intros _.
    eapply goes_bind; [apply nested; lia|]. intros e. by apply goes_ret.
  - eapply goes_bind; [by apply goes_set_pos|]. intros _. by apply goes_ret.
Qed.

Lemma parse_if_goes st : goes st lo lo (parse_if n cmd).
Proof.
  eapply goes_bind; [apply expect_word_goes|]. intros _.
  eapply goes_bind; [apply parse_condition_goes; lia|]. intros c.
  eapply goes_bind; [by apply skip_goes|]. intros _.
  eapply goes_bind; [by apply nested|]. intros t.
  eapply goes_weaken; [by apply parse_else_goes|lia|lia].
Qed.

Lemma parse_while_goes st : goes st lo lo (parse_while n cmd).
Proof.
  eapply goes_bind; [apply expect_word_goes|]. intros _.
  eapply goes_bind; [apply parse_condition_goes; lia|]. intros c.
  eapply goes_bind; [by apply skip_goes|]. intros _.
  eapply goes_bind; [by apply nested|]. intros b. apply goes_ret. lia.
Qed.

Lemma parse_for_goes st : goes st lo lo (parse_for n cmd).
Proof.
  eapply goes_bind; [apply expect_word_goes|]. intros _.
  eapply goes_bind; [apply expect_symbol_goes|]. intros _.
  eapply goes_bind; [apply expect_any_word_goes|]. intros var.
  eapply goes_bind; [apply match_word_goes|]. intros has_in.
  apply (goes_bind _ _ (S (S (S lo)))).
  { apply goes_if; [apply words_until_goes; lia|by apply goes_ret]. }
  intros values. eapply goes_bind; [apply expect_symbol_goes|]. intros _.
  eapply goes_bind; [by apply skip_goes|]. intros _.
  eapply goes_bind; [apply nested; lia|]. intros b. apply goes_ret. lia.
Qed.

Lemma cases_loop_goes m cases from :
  lo ≤ from → len < from + m → goes false from from (cases_loop n cmd m cases).
Proof.
  revert cases from. induction m as [|m IH]; intros cases from Hf Hm; [apply goes_vacuous; lia|].
  cbn [cases_loop]. apply goes_peek_kind; [by apply goes_ret|].
  set (body := expect_word "case" ;; _).
  assert (goes true from from body).
  { eapply goes_bind; [apply expect_word_goes|]. intros _.
    eapply goes_bind; [apply words_until_goes; lia|]. intros ps.
    eapply goes_bind; [apply consume_separator_goes|]. intros _.
    eapply goes_bind; [eapply (parse_sequence_goes n (S lo)); [done..|lia]|]. intros b.
    eapply goes_bind; [by apply skip_goes|]. intros _.
    eapply goes_weaken; [apply (IH _ (S from)); lia|lia|lia]. }
  intros []; try done. by apply goes_ret.
Qed.

Lemma parse_switch_goes st : goes st lo lo (parse_switch n cmd).
Proof.
  eapply goes_bind; [apply expect_word_goes|]. intros _.
  eapply goes_bind; [apply expect_symbol_goes|]. intros _.
  eapply goes_bind; [apply expect_any_word_goes|]. intros value.
  eapply goes_bind; [apply expect_symbol_goes|]. intros _.
  eapply goes_bind; [by apply skip_goes|]. intros _.
  eapply goes_bind; [apply expect_symbol_goes|]. intros _.
  eapply goes_bind; [by apply skip_goes|]. intros _.
  eapply goes_bind; [apply cases_loop_goes; lia|]. intros cases.
  eapply goes_bind; [apply expect_symbol_goes|]. intros _. apply goes_ret. lia.
Qed.

Lemma parse_function_goes st : goes st lo lo (parse_function n cmd).
Proof.
  eapply goes_bind; [apply expect_word_goes|]. intros _.
  eapply goes_bind; [apply expect_any_word_goes|]. intros name.
  apply goes_peek_kind; [apply goes_ret; lia|]. intros k.
  apply goes_if; [|apply goes_ret; lia].
  eapply goes_bind; [apply parse_block_goes; lia|]. intros b. apply goes_ret. lia.
Qed.

Lemma assignment_values_goes suffix from :
  lo ≤ from → goes false from from (assignment_values n suffix).
Proof.
  intros Hf.
  assert (Hplain : ∀ st vs, goes (A:=list Word) st from from (mret vs)) by (intros; by apply goes_ret).
  unfold assignment_values. destruct (is_empty_str suffix); cbn [andb].
  - apply goes_peek_kind; [apply Hplain|]. intros k. apply goes_if; [|apply Hplain].
    eapply goes_bind; [apply goes_advance|]. intros _.
    eapply goes_bind; [apply words_until_goes; lia|]. intros vs.
    eapply goes_bind; [apply expect_symbol_goes|]. intros _. apply goes_ret. lia.
  - apply goes_peek_kind; intros; apply Hplain.
Qed.

Lemma redirect_target_goes op from :
  lo ≤ from → goes false from from (redirect_target n cmd op).
Proof.
  intros Hf.
  assert (Hword : ∀ st (g : string → option RedirectTarget),
    goes st from from (raw ← expect_any_word; mret (g raw))).
  { intros st g. eapply goes_bind; [apply expect_any_word_goes|]. intros w.
    apply goes_ret. lia. }
  assert (Hopen : ∀ st k, goes st from from
    (if at_kind is_lbrace k then node ← parse_block n cmd; mret (Some (TProcess node))
     else raw ← expect_any_word; mret (Some (TWord (Word_new raw))))).
  { intros st k. apply goes_if; [|apply Hword].
    eapply goes_bind; [by apply parse_block_goes|]. intros b. by apply goes_ret. }
  assert (Hhere : ∀ st, goes st from from
    (raw ← expect_any_word; docs ← gets here_docs;
     modify (set_here_docs (bt_remove raw docs)) ;;
     mret (Some match bt_get raw docs with
                | Some doc => THereDoc doc
                | None => TWord (Word_new raw)
                end))).
  { intros st. eapply goes_bind; [apply expect_any_word_goes|].
    intros w p Ht Hlo Hp. cbn in *. split; [done|]. cbn [set_here_docs pos]. lia. }
  unfold redirect_target.
  apply goes_peek_kind; [|intros k];
    (destruct (op_mode op); [apply Hopen..|apply Hhere|by apply goes_ret]).
Qed.

Lemma simple_loop_goes m seen simple from :
  lo ≤ from → len < from + m → goes false from from (simple_loop n cmd m seen simple).
Proof.
  revert seen simple from. induction m as [|m IH]; intros seen simple from Hf Hm;
    [apply goes_vacuous; lia|].
  assert (Hnext : ∀ b s, goes false (S from) from (simple_loop n cmd m b s)).
  { intros b s. eapply goes_weaken; [apply (IH _ _ (S from)); lia|lia|lia]. }
  cbn [simple_loop]. apply goes_peek_kind; [by apply goes_ret|].
  intros []; try (by apply goes_ret).
  - eapply goes_bind; [apply goes_advance|]. intros _.
    destruct (if seen then None else _) as [[name suffix]|]; [|apply Hnext].
    eapply goes_bind; [apply assignment_values_goes; lia|]. intros vs. apply Hnext.
  - eapply goes_bind; [apply goes_advance|]. intros _.
    eapply goes_bind; [apply redirect_target_goes; lia|]. intros t. apply Hnext.
Qed.

Lemma parse_simple_goes st : goes st lo lo (parse_simple n cmd).
Proof.
  apply goes_strict. eapply goes_bind; [apply simple_loop_goes; [done|lia]|].
  intros s. by apply goes_ret.
Qed.

Lemma command_body_goes : goes false lo lo (command_body n cmd).
Proof.
  pose proof (parse_simple_goes true).
  apply goes_peek_kind; [apply parse_simple_goes|].
  intros []; try done; [|by apply parse_block_goes|by apply parse_paren_group_goes].
  repeat case_decide;
    [apply parse_if_goes|apply parse_while_goes|apply parse_for_goes|apply parse_switch_goes
    |apply parse_function_goes|done].
Qed.
End Commands.

Lemma parse_command_goes n depth lo :
  len < n → len < lo + depth → goes false lo lo (parse_command n depth).
Proof.
  intros Hn. revert lo. induction depth as [|depth IH]; intros lo Hd; [apply goes_vacuous; lia|].
  cbn [parse_command]. apply command_body_goes; [done|].
  intros lo' Hlo'. apply IH. lia.
Qed.
End Progress.

(** ** Properties *)

Lemma run_parser_returns toks docs : returns (run_parser toks docs).
Proof.
  unfold run_parser, parse_script. set (n := S (length toks)).
  assert (Hs : goes toks false 0 0
    (nodes ← parse_sequence_until n (parse_command n n) script_end; mret (mkScript nodes))).
  { eapply goes_bind; [|intros nodes; by apply goes_ret].
    apply (parse_sequence_goes toks n 0); [unfold n; lia| |done].
    intros lo _. apply parse_command_goes; unfold n; lia. }
  specialize (Hs (mkParser toks 0 docs) eq_refl (Nat.le_0_l _) (Nat.le_0_l _)).
  revert Hs. match goal with |- context [fst ?m] => by destruct m as [[]] end.
Qed.

(** C8. Parsing ends on every source text: neither the search for here
    documents, nor the lexer, nor the recursive descent of the parser runs past its
    fuel.  The result is a script or a parse error; the one panic is the overflow of the
    [i32] that counts the braces of a substitution, which takes more than [i32::MAX]
    opening braces in the source. *)
Theorem parse_total source :
  parse source ≠ NoFuel ∧ (Z.of_nat (opens (chars source)) ≤ I32_MAX → returns (parse source))%Z.
Proof.
  assert (ends (opens (chars source)) (parse source) (λ _, True)) as H.
  { unfold parse, parse_chars.
    eapply ends_bind; [apply settles_ends, prepare_here_docs_settles|]. intros prepared Hp.
    eapply ends_bind; [by apply lex_ends|]. intros toks _.
    apply settles_ends, returns_settles, run_parser_returns. }
  destruct (parse source); cbn in *; split; try done; lia.
Qed.
