(* ===== verification/RcPattern.v ===== *)
(** * rc: patterns, carets and the other text functions of expansion

    Models the free functions of [crates/star9-rc/src/lib.rs] that expansion and
    globbing use: [pattern_match] and [char_class_match], [split_caret_parts],
    [concat_values], [read_quoted_literal], [extract_command_substitution],
    [split_ifs], [join_path] and the tests on paths.  The matcher is proved
    equivalent to a relational specification of the pattern language. *)

From stdpp Require Import base sets list numbers option strings pretty.
From Stdlib Require Import ZArith Lia Ascii.
From S2P Require Import Prelude Strs BTree RcText RcSyntax RcLex.

(** ** Pattern matching *)

(** One pass over a class: three characters with a dash in the middle are a
    range. *)
Fixpoint class_loop (fuel : nat) (cls : list char) (value : char) : bool :=
  match fuel, cls with
  | S fuel, lo :: cls1 =>
      match cls1 with
      | d :: hi :: cls3 =>
          if isc "-" d then ((lo <=? value) && (value <=? hi))%N || class_loop fuel cls3 value
          else (lo =? value)%N || class_loop fuel cls1 value
      | _ => (lo =? value)%N || class_loop fuel cls1 value
      end
  | _, _ => false
  end.

Definition char_class_match (cls : list char) (value : char) : bool :=
  match cls with
  | c :: items =>
      if isc "~" c then negb (class_loop (length items) items value)
      else class_loop (length cls) cls value
  | [] => class_loop 0 cls value
  end.

(** [pattern.iter().position(|ch| *ch == ']')]: what is before and what follows *)
Fixpoint split_class (p : list char) : option (list char * list char) :=
  match p with
  | [] => None
  | c :: p' =>
      if isc "]" c then Some ([], p')
      else match split_class p' with
           | Some (cls, r) => Some (c :: cls, r)
           | None => None
           end
  end.

(** Every call shortens the pattern or the value, so the sum of their lengths is
    fuel enough ([pattern_match_inner_spec]). *)
Fixpoint pattern_match_inner (fuel : nat) (pattern value : list char) : bool :=
  match fuel with
  | O => match pattern, value with [], [] => true | _, _ => false end
  | S fuel =>
      match pattern with
      | [] => match value with [] => true | _ => false end
      | x :: p =>
          if isc "*" x then
            pattern_match_inner fuel p value ||
            match value with [] => false | _ :: v => pattern_match_inner fuel pattern v end
          else
            match value with
            | [] => false
            | c :: v =>
                if isc "?" x then pattern_match_inner fuel p v
                else if isc "[" x then
                  match split_class p with
                  | Some (cls, p') => char_class_match cls c && pattern_match_inner fuel p' v
                  | None => (x =? c)%N && pattern_match_inner fuel p v
                  end
                else (x =? c)%N && pattern_match_inner fuel p v
            end
      end
  end.

Definition pattern_match_chars (p v : list char) : bool :=
  pattern_match_inner (length p + length v) p v.

Definition pattern_match (pattern value : string) : bool :=
  pattern_match_chars (chars pattern) (chars value).

Definition has_glob_chars (value : string) : bool := existsb (one_of "*?[") (chars value).

(** ** Words *)

(** The characters of a caret-separated word; [in_quote] inside a literal.  A
    doubled quote inside a literal stays in it. *)
Fixpoint caret_loop (in_quote : bool) (current : list char) (cs : list char) : list (list char) :=
  match cs with
  | [] => [current]
  | c :: r =>
      if in_quote then
        if isc QUOTE c then
          match r with
          | c2 :: r2 => if isc QUOTE c2 then caret_loop true (current ++ [c; c2]) r2
                        else caret_loop false (current ++ [c]) r
          | [] => caret_loop false (current ++ [c]) r
          end
        else caret_loop true (current ++ [c]) r
      else if isc QUOTE c then caret_loop true (current ++ [c]) r
      else if isc "^" c then current :: caret_loop false [] r
      else caret_loop false (current ++ [c]) r
  end.

Definition split_caret_parts (raw : string) : list string :=
  of_chars <$> caret_loop false [] (chars raw).

(** Every value on the left with every value on the right. *)
Definition concat_values (left right : list string) : list string :=
  match left, right with
  | [], _ | _, [] => []
  | _, _ => l ← left; (λ r, l +:+ r) <$> right
  end.

(** After the opening quote: the literal, and what follows the closing one. *)
Fixpoint quoted_loop (out : list char) (rest : list char) : RcResult (list char * list char) :=
  match rest with
  | [] => Err (RcErr.new "unterminated quote")
  | c :: r =>
      if isc QUOTE c then
        match r with
        | c2 :: r2 => if isc QUOTE c2 then quoted_loop (out ++ [c2]) r2 else Ok (out, r)
        | [] => Ok (out, r)
        end
      else quoted_loop (out ++ [c]) r
  end.

(** [rest] starts at the opening quote. *)
Definition read_quoted_literal (rest : list char) : RcResult (string * list char) :=
  '(out, rest') ← quoted_loop [] (tail rest);
  Ok (of_chars out, rest').

(** [raw[2..raw.len() - 1]]; [rest] starts at the backquote, at index [start]. *)
Definition extract_command_substitution (len start : nat) (rest : list char)
    : RcResult (string * list char) :=
  '(raw, _, rest') ← read_braced_substitution len start rest;
  Ok (of_chars (take (length raw - 3) (drop 2 raw)), rest').

(** [value.split(|ch| chars.contains(&ch)).filter(|part| !part.is_empty())] *)
Fixpoint split_where (sep : char → bool) (current cs : list char) : list (list char) :=
  match cs with
  | [] => [current]
  | c :: r => if sep c then current :: split_where sep [] r
              else split_where sep (current ++ [c]) r
  end.

Definition default_ifs : string := String " " (String TAB (String NEWLINE "")).

Definition split_ifs (value : string) (ifs : list string) : list string :=
  let seps := chars (default default_ifs (head ifs)) in
  of_chars <$> filter (λ part, part ≠ []) (split_where (λ c, bool_decide (c ∈ seps)) [] (chars value)).

(** ** Paths *)

(** [s.trim_end_matches(c)] *)
Fixpoint trim_end_char (c : ascii) (s : string) : string :=
  match s with
  | EmptyString => ""
  | String a s' =>
      match trim_end_char c s' with
      | EmptyString => if decide (a = c) then "" else String a ""
      | t => String a t
      end
  end.

(** [s.ends_with(suffix)] *)
Fixpoint ends_with (suffix s : string) : bool :=
  bool_decide (s = suffix) || match s with String _ s' => ends_with suffix s' | EmptyString => false end.

Definition join_path (base leaf : string) : string :=
  if is_empty_str base || bool_decide (base = ".") then leaf
  else if is_empty_str leaf then base
  else trim_end_char "/" base +:+ "/" +:+ leaf.

Definition is_null_path (path : string) : bool :=
  bool_decide (path ∈ ["/dev/null"; "dev/null"; "#null"; "#null/null"]).

Definition is_host_executable_path (path : string) : bool :=
  ends_with ".wasm" path || ends_with ".wat" path || ends_with ".js" path ||
  ends_with ".mjs" path.

Definition wasm_magic : list byte := [x00; x61; x73; x6d].

Definition is_host_executable (path : string) (bytes : list byte) : bool :=
  bool_decide (take 4 bytes = wasm_magic) || is_host_executable_path path.

(** Does the last binding of [fd] write the data end of pipe [pipe_index]? *)
Definition stage_writes_pipe (bindings : list RcFdBindingSpec) (fd : Z) (pipe_index : nat) : bool :=
  match last (filter (λ b, b_fd b = fd) bindings) with
  | None => false
  | Some b =>
      b_writable b && negb (b_close b) &&
      match b_dup_from b with None => true | Some _ => false end &&
      bool_decide (b_path b = "pipe:" +:+ pretty pipe_index +:+ "/data")
  end.

Definition BUILTINS : list string :=
  ["."; "basename"; "builtin"; "cd"; "echo"; "eval"; "exec"; "exit"; "false"; "flag"; "pwd";
   "rfork"; "shift"; "status"; "test"; "true"; "wait"; "whatis"; "~"].

Definition is_builtin (name : string) : bool := bool_decide (name ∈ BUILTINS).

Definition restore_var (vars : btree string (list string)) (name : string)
    (old : option (list string)) : btree string (list string) :=
  match old with
  | Some old => bt_insert name old vars
  | None => bt_remove name vars
  end.

(** ** The language of patterns *)

(** The characters a class without its tilde names: ranges [a-b], written with
    a dash between two characters, and single ones. *)
Inductive ClassHas (c : char) : list char → Prop :=
| class_range_in lo hi r : (lo ≤ c ≤ hi)%N → ClassHas c (lo :: ch "-" :: hi :: r)
| class_range_skip lo hi r : ClassHas c r → ClassHas c (lo :: ch "-" :: hi :: r)
| class_char_in r : (∀ hi r', r ≠ ch "-" :: hi :: r') → ClassHas c (c :: r)
| class_char_skip x r : (∀ hi r', r ≠ ch "-" :: hi :: r') → ClassHas c r → ClassHas c (x :: r).

Definition InClass (cls : list char) (c : char) : Prop :=
  match cls with
  | x :: items => if isc "~" x then ¬ ClassHas c items else ClassHas c cls
  | [] => False
  end.

(** [Matches p v]: the value is in the language of the pattern.  A bracket that
    is never closed stands for itself. *)
Inductive Matches : list char → list char → Prop :=
| match_end : Matches [] []
| match_star p skipped v : Matches p v → Matches (ch "*" :: p) (skipped ++ v)
| match_any p c v : Matches p v → Matches (ch "?" :: p) (c :: v)
| match_class cls p c v :
    ch "]" ∉ cls → InClass cls c → Matches p v →
    Matches (ch "[" :: cls ++ ch "]" :: p) (c :: v)
| match_open p v : ch "]" ∉ p → Matches p v → Matches (ch "[" :: p) (ch "[" :: v)
| match_char x p v : one_of "*?[" x = false → Matches p v → Matches (x :: p) (x :: v).

(** Parts with a separator between them. *)
Fixpoint join_with (c : char) (parts : list (list char)) : list char :=
  match parts with
  | [] => []
  | [p] => p
  | p :: ps => p ++ c :: join_with c ps
  end.

(** ** The matcher decides the language *)

Lemma isc_ch a c : isc a c = true ↔ c = ch a.
Proof. apply N.eqb_eq. Qed.

Lemma isc_ne a c : isc a c = false ↔ c ≠ ch a.
Proof. apply N.eqb_neq. Qed.

Lemma isc_refl a : isc a (ch a) = true.
Proof. by apply isc_ch. Qed.

Lemma class_loop_spec fuel cls c :
  length cls ≤ fuel → class_loop fuel cls c = true ↔ ClassHas c cls.
Proof.
  revert cls. induction fuel as [|fuel IH]; intros [|lo cls] Hlen; cbn [class_loop];
    try (cbn in Hlen; lia); try (split; [done|by inversion 1]).
  cbn in Hlen.
  assert (Hone : (∀ hi r', cls ≠ ch "-" :: hi :: r') →
    (lo =? c)%N || class_loop fuel cls c = true ↔ ClassHas c (lo :: cls)).
  { intros Hno. rewrite orb_true_iff, N.eqb_eq, IH by lia. split.
    - intros [->|H]; by constructor.
    - inversion 1; subst; auto; by edestruct Hno. }
  destruct cls as [|d [|hi r]]; [by apply Hone..|].
  destruct (isc "-" d) eqn:Hd.
  - apply isc_ch in Hd; subst d.
    rewrite orb_true_iff, andb_true_iff, !N.leb_le, IH by (cbn in *; lia). split.
    + intros [[??]|H]; by constructor.
    + inversion 1 as [| | ? Hno |?? Hno]; subst; auto; by edestruct Hno.
  - apply Hone. intros hi' r' [= -> _ _]. by rewrite isc_refl in Hd.
Qed.

Lemma char_class_match_spec cls c : char_class_match cls c = true ↔ InClass cls c.
Proof.
  destruct cls as [|x items]; cbn [char_class_match InClass]; [done|].
  destruct (isc "~" x); [|by apply class_loop_spec].
  rewrite negb_true_iff, <- not_true_iff_false, class_loop_spec by done. done.
Qed.

Lemma split_class_Some p cls r :
  split_class p = Some (cls, r) ↔ p = cls ++ ch "]" :: r ∧ ch "]" ∉ cls.
Proof.
  revert cls. induction p as [|x p IH]; intros cls; cbn [split_class].
  { split; [done|]. by destruct cls as [|? cls]; intros [? _]. }
  destruct (isc "]" x) eqn:Hx.
  - apply isc_ch in Hx; subst x. split.
    + intros [= <- <-]. split; [done|]. by inversion 1.
    + intros [H Hn]. destruct cls as [|y cls]; [by injection H as ->|].
      injection H as <- _. by destruct Hn; left.
  - apply isc_ne in Hx. split.
    + destruct (split_class p) as [[cls' r']|]; [|done]. intros [= <- <-].
      destruct (proj1 (IH cls') eq_refl) as [-> Hn]. split; [done|].
      by rewrite not_elem_of_cons.
    + intros [H Hn]. destruct cls as [|y cls]; [by injection H as -> _|].
      injection H as -> H. apply not_elem_of_cons in Hn as [_ Hn].
      by rewrite (proj2 (IH cls) (conj H Hn)).
Qed.

Lemma split_class_None p : split_class p = None ↔ ch "]" ∉ p.
Proof.
  induction p as [|x p IH]; cbn [split_class]; [split; [by inversion 2|done]|].
  destruct (isc "]" x) eqn:Hx.
  - apply isc_ch in Hx; subst x. split; [done|]. intros H. by destruct H; left.
  - apply isc_ne in Hx. rewrite not_elem_of_cons, <- IH.
    destruct (split_class p) as [[]|]; naive_solver.
Qed.

(** Inversions of the language, one for each head of the pattern. *)
Lemma matches_nil v : Matches [] v ↔ v = [].
Proof. split; [by inversion 1|]. intros ->. constructor. Qed.

Lemma matches_star p v :
  Matches (ch "*" :: p) v ↔ Matches p v ∨ ∃ c v', v = c :: v' ∧ Matches (ch "*" :: p) v'.
Proof.
  split.
  - inversion 1 as [|? skipped| | | |]; subst; try done.
    destruct skipped as [|c skipped]; [by left|]. right.
    exists c, (skipped ++ v0). split; [done|]. by constructor.
  - intros [H|(c & v' & -> & H)]; [by apply (match_star p [])|].
    inversion H as [|? skipped| | | |]; subst; try done.
    by apply (match_star p (c :: skipped)).
Qed.

Lemma matches_any p v : Matches (ch "?" :: p) v ↔ ∃ c v', v = c :: v' ∧ Matches p v'.
Proof.
  split; [inversion 1; subst; try done; eauto|].
  intros (c & v' & -> & H). by constructor.
Qed.

Lemma matches_class cls p v : ch "]" ∉ cls →
  Matches (ch "[" :: cls ++ ch "]" :: p) v ↔
  ∃ c v', v = c :: v' ∧ InClass cls c ∧ Matches p v'.
Proof.
  intros Hn. split.
  - inversion 1 as [| | |cls' p' c v' Hn' Hin Hm E|p' v' Hn'|]; subst; try done.
    + assert (Some (cls', p') = Some (cls, p)) as [= -> ->].
      { rewrite <- (proj2 (split_class_Some (cls' ++ ch "]" :: p') cls' p')) by done.
        rewrite <- (proj2 (split_class_Some (cls ++ ch "]" :: p) cls p)) by done.
        by f_equal. }
      by exists c, v'.
    + exfalso. apply Hn'. apply elem_of_app. right. by left.
  - intros (c & v' & -> & Hin & Hm). by constructor.
Qed.

Lemma matches_open p v : ch "]" ∉ p →
  Matches (ch "[" :: p) v ↔ ∃ v', v = ch "[" :: v' ∧ Matches p v'.
Proof.
  intros Hn. split.
  - inversion 1; subst; try done; [|by eauto]. exfalso. apply Hn, elem_of_app. right. by left.
  - intros (v' & -> & H). by constructor.
Qed.

Lemma matches_char x p v : one_of "*?[" x = false →
  Matches (x :: p) v ↔ ∃ v', v = x :: v' ∧ Matches p v'.
Proof.
  intros Hx. split; [inversion 1; subst; try done; eauto|].
  intros (v' & -> & H). by constructor.
Qed.

Lemma pattern_match_inner_spec fuel p v :
  length p + length v ≤ fuel → pattern_match_inner fuel p v = true ↔ Matches p v.
Proof.
  revert p v. induction fuel as [|fuel IH]; intros [|x p] v Hlen; cbn [pattern_match_inner].
  - rewrite matches_nil. by destruct v.
  - cbn in Hlen. lia.
  - rewrite matches_nil. by destruct v.
  - cbn in Hlen.
    destruct (isc "*" x) eqn:Hstar.
    { apply isc_ch in Hstar; subst x. rewrite matches_star, orb_true_iff, IH by lia.
      destruct v as [|c v]; cbn in Hlen; [naive_solver|].
      rewrite IH by (cbn; lia). naive_solver. }
    destruct (isc "?" x) eqn:Hany.
    { apply isc_ch in Hany; subst x. rewrite matches_any.
      destruct v as [|c v]; cbn in Hlen; [naive_solver|]. rewrite IH by lia. naive_solver. }
    destruct (isc "[" x) eqn:Hopen.
    { apply isc_ch in Hopen; subst x. destruct (split_class p) as [[cls p']|] eqn:Hc.
      - apply split_class_Some in Hc as [-> Hn]. rewrite matches_class by done.
        destruct v as [|c v]; cbn in Hlen; [naive_solver|].
        rewrite length_app in Hlen. cbn in Hlen.
        rewrite andb_true_iff, char_class_match_spec, IH by lia. naive_solver.
      - apply split_class_None in Hc. rewrite matches_open by done.
        destruct v as [|c v]; cbn in Hlen; [naive_solver|].
        rewrite andb_true_iff, N.eqb_eq, IH by lia. naive_solver. }
    rewrite matches_char by (cbn; by rewrite Hstar, Hany, Hopen).
    destruct v as [|c v]; cbn in Hlen; [naive_solver|].
    rewrite andb_true_iff, N.eqb_eq, IH by lia. naive_solver.
Qed.

(** ** Words *)

Lemma concat_values_elem left right s :
  s ∈ concat_values left right ↔ ∃ l r, l ∈ left ∧ r ∈ right ∧ s = l +:+ r.
Proof.
  assert (s ∈ (l ← left; (λ r, l +:+ r) <$> right) ↔ ∃ l r, l ∈ left ∧ r ∈ right ∧ s = l +:+ r)
    as H.
  { rewrite list_elem_of_bind. setoid_rewrite list_elem_of_fmap. naive_solver. }
  destruct left as [|l left]; [cbn; naive_solver set_solver|].
  destruct right as [|r right]; [cbn; naive_solver set_solver|]. exact H.
Qed.

(** A list with one empty string on the left is neutral, as [^] starts with. *)
Lemma concat_values_unit vs : concat_values [""] vs = vs.
Proof.
  destruct vs as [|v vs]; [done|]. unfold concat_values. cbn [mbind list_bind].
  rewrite app_nil_r. by rewrite list_fmap_id.
Qed.

Lemma caret_loop_nonempty in_quote current cs : caret_loop in_quote current cs ≠ [].
Proof.
  revert in_quote current. induction cs as [cs IH] using (induction_ltof1 _ length).
  intros q cur. destruct cs as [|c r]; [done|]. cbn [caret_loop].
  repeat case_match; subst; try done; apply IH; unfold ltof; cbn; lia.
Qed.

(** Splitting at carets loses nothing but the carets. *)
Lemma caret_loop_join in_quote current cs :
  join_with (ch "^") (caret_loop in_quote current cs) = current ++ cs.
Proof.
  revert in_quote current. induction cs as [cs IH] using (induction_ltof1 _ length).
  intros q cur. destruct cs as [|c r]; [cbn; by rewrite app_nil_r|]. cbn [caret_loop].
  repeat case_match; subst;
    try (rewrite IH by (unfold ltof; cbn; lia); by rewrite <- app_assoc).
  match goal with H : isc "^" c = true |- _ => apply isc_ch in H as -> end.
  pose proof (caret_loop_nonempty false [] r). cbn [join_with].
  destruct (caret_loop false [] r) as [|p ps] eqn:E; [done|].
  rewrite <- E, IH by (unfold ltof; cbn; lia). done.
Qed.

(** ** Properties *)

(** C9. [pattern_match] decides the pattern language: an asterisk is any string,
    a question mark any character, a closed bracket one character that is (or,
    after a tilde, is not) in the class, with ranges; a bracket without an end and
    every other character stand for themselves. *)
Theorem pattern_match_language pattern value :
  pattern_match pattern value = true ↔ Matches (chars pattern) (chars value).
Proof. by apply pattern_match_inner_spec. Qed.
