(* ===== verification/RcSession.v ===== *)
(** * rc: sessions and the host interface

    Models [RcHost], [RcSession] and [RcJob] of [crates/star9-rc/src/lib.rs] with
    the operations of a session that do not evaluate commands: variables,
    arguments, the exported environment, job results and the requests for process
    graphs.  A host is the type class [RcHost]: its operations are computations
    over a host state of their own, as the trait's methods are over [&mut self]. *)

From stdpp Require Import base list numbers option strings pretty sorting.
From Stdlib Require Import ZArith Lia Ascii.
From S2P Require Import Prelude Strs BTree RcText RcSyntax RcLex RcParse RcPattern.

(** ** The host *)

Abbreviation env_data := (btree string (list byte)).
Abbreviation var_map := (btree string (list string)).

Class RcHost (H : Type) := {
  host_current_dir : H → string;
  host_set_current_dir : string → Eff RcError H unit;
  host_read_file : string → Eff RcError H (list byte);
  host_write_file : string → list byte → Eff RcError H unit;
  host_append_file : string → list byte → Eff RcError H unit;
  host_read_dir : string → Eff RcError H (list string);
  host_stat : string → Eff RcError H RcStat;
  host_run_command : RcCommandInvocation → Eff RcError H RcCommandResult;
  host_load_environment : Eff RcError H (option env_data);
  host_store_environment : env_data → Eff RcError H unit;
  host_prepare_process_graph : RcProcessGraphSpec → Eff RcError H (option RcProcessGraphRecord);
  host_finish_process_graph : RcProcessGraphRecord → list RcStatus → Eff RcError H unit;
  host_wait_process_job : option Z → Eff RcError H (option (list RcProcessJobResult));
  host_send_note : string → Eff RcError H unit;
  host_execute_process_graph : RcExecutableGraphSpec → Eff RcError H (option RcOutput);
  host_start_process_graph_job : RcExecutableGraphSpec → Eff RcError H (option Z);
  host_rfork : RcRforkSpec → Eff RcError H RcRforkOutcome
}.

(** The provided methods of the trait. *)
Definition default_load_environment {H} : Eff RcError H (option env_data) := mret None.
Definition default_store_environment {H} (env : env_data) : Eff RcError H unit := mret tt.
Definition default_prepare_process_graph {H} (spec : RcProcessGraphSpec)
    : Eff RcError H (option RcProcessGraphRecord) := mret None.
Definition default_finish_process_graph {H} (record : RcProcessGraphRecord)
    (outcomes : list RcStatus) : Eff RcError H unit := mret tt.
Definition default_wait_process_job {H} (job_id : option Z)
    : Eff RcError H (option (list RcProcessJobResult)) := mret None.
Definition default_send_note {H} (note : string) : Eff RcError H unit := mret tt.
Definition default_execute_process_graph {H} (spec : RcExecutableGraphSpec)
    : Eff RcError H (option RcOutput) := mret None.
Definition default_start_process_graph_job {H} (spec : RcExecutableGraphSpec)
    : Eff RcError H (option Z) := mret None.

Definition default_rfork {H} (spec : RcRforkSpec) : Eff RcError H RcRforkOutcome :=
  if bool_decide (rf_namespace spec = NsShared) && bool_decide (rf_fds spec = FdShared) &&
     negb (rf_new_note_group spec) && negb (rf_no_mount spec)
  then mret (mkRforkOutcome match rf_environment spec with
                            | EnvShared => Unchanged
                            | EnvCopy => Reload
                            | EnvClean => Cleared
                            end)
  else throw (RcErr.new ("unsupported rfork flags " +:+ rf_raw spec)).

(** ** Sessions *)

Record RcJob := mkJob {
  job_id : Z; job_status : RcStatus; job_stdout : string; job_stderr : string;
  job_graph : option RcProcessGraphRecord
}.

Record RcSession (H : Type) := mkSession {
  s_host : H;
  s_vars : var_map;
  s_functions : btree string Node;
  s_last_status : RcStatus;
  s_argv0 : string;
  s_argv : list string;
  s_jobs : list RcJob;
  s_next_job_id : Z;
  s_notes : btree string unit
}.
Arguments mkSession {H}.
Arguments s_host {H}.
Arguments s_vars {H}.
Arguments s_functions {H}.
Arguments s_last_status {H}.
Arguments s_argv0 {H}.
Arguments s_argv {H}.
Arguments s_jobs {H}.
Arguments s_next_job_id {H}.
Arguments s_notes {H}.

Module Sess.
Section Set_.
Context {H : Type}.
Implicit Types s : RcSession H.
Definition set_host (h : H) s := mkSession h (s_vars s) (s_functions s) (s_last_status s)
  (s_argv0 s) (s_argv s) (s_jobs s) (s_next_job_id s) (s_notes s).
Definition set_vars v s := mkSession (s_host s) v (s_functions s) (s_last_status s)
  (s_argv0 s) (s_argv s) (s_jobs s) (s_next_job_id s) (s_notes s).
Definition set_functions f s := mkSession (s_host s) (s_vars s) f (s_last_status s)
  (s_argv0 s) (s_argv s) (s_jobs s) (s_next_job_id s) (s_notes s).
Definition set_last_status st s := mkSession (s_host s) (s_vars s) (s_functions s) st
  (s_argv0 s) (s_argv s) (s_jobs s) (s_next_job_id s) (s_notes s).
Definition set_argv0 a s := mkSession (s_host s) (s_vars s) (s_functions s) (s_last_status s)
  a (s_argv s) (s_jobs s) (s_next_job_id s) (s_notes s).
Definition set_argv a s := mkSession (s_host s) (s_vars s) (s_functions s) (s_last_status s)
  (s_argv0 s) a (s_jobs s) (s_next_job_id s) (s_notes s).
Definition set_jobs j s := mkSession (s_host s) (s_vars s) (s_functions s) (s_last_status s)
  (s_argv0 s) (s_argv s) j (s_next_job_id s) (s_notes s).
Definition set_next_job_id n s := mkSession (s_host s) (s_vars s) (s_functions s)
  (s_last_status s) (s_argv0 s) (s_argv s) (s_jobs s) n (s_notes s).
Definition set_notes n s := mkSession (s_host s) (s_vars s) (s_functions s) (s_last_status s)
  (s_argv0 s) (s_argv s) (s_jobs s) (s_next_job_id s) n.
End Set_.
End Sess.

(** A step of a session: [Err] is an [RcError] in flight. *)
Abbreviation S H A := (Eff RcError (RcSession H) A).

(** [let x = m?; k] in a function that answers an [Option]. *)
Definition try_opt {E T A B} (m : Eff E T (option A)) (k : A → Eff E T (option B))
    : Eff E T (option B) :=
  o ← m; match o with Some a => k a | None => mret None end.

(** [m.ok()] for a [Result]. *)
Definition ok {E T A} (m : Eff E T A) : Eff E T (option A) :=
  r ← attempt m; mret match r with Ok a => Some a | _ => None end.

(** [m.ok().flatten()] *)
Definition ok_flatten {E T A} (m : Eff E T (option A)) : Eff E T (option A) :=
  r ← ok m; mret (mjoin r).

(** [v.get(i)] for an index that may be past any list's length *)
Definition get_index {A} (l : list A) (i : Z) : option A :=
  if ((0 <=? i) && (i <? Z.of_nat (length l)))%Z then l !! Z.to_nat i else None.

Section Session.
Context {H : Type} `{!RcHost H}.

(** A host call. *)
Definition host {A} (m : Eff RcError H A) : S H A :=
  zoom s_host (λ h, Sess.set_host h) m.

Definition current_dir : S H string := gets (λ s, host_current_dir (s_host s)).

(** ** Variables *)

Definition insert_var (name : string) (values : list string) : S H unit :=
  modify (λ s, Sess.set_vars (bt_insert name values (s_vars s)) s).

Definition restore (name : string) (old : option (list string)) : S H unit :=
  modify (λ s, Sess.set_vars (restore_var (s_vars s) name old) s).

Definition all_digits (name : string) : bool := forallb is_ascii_digit (chars name).

Definition lookup_var (s : RcSession H) (name : string) : list string :=
  if decide (name = "*") then s_argv s
  else if decide (name = "0") then [s_argv0 s]
  else if all_digits name then
    match parse_usize name with
    | Some index =>
        if (index =? 0)%Z then [s_argv0 s] else option_list (get_index (s_argv s) (index - 1))
    | None => []
    end
  else if decide (name = "status") then [Status.display (s_last_status s)]
  else default [] (bt_get name (s_vars s)).

Definition refresh_arg_vars : S H unit :=
  argv ← gets s_argv; insert_var "*" argv.

(** ** The environment *)

Definition NUL : string := String "000" "".

Definition function_key (name : string) : string := "fn#" +:+ name.

Definition export_vars (vars : var_map) (env : env_data) : env_data :=
  foldl (λ env '(name, values), bt_insert name (bytes_of (str_join NUL values)) env) env vars.

Definition export_functions (functions : btree string Node) (env : env_data) : env_data :=
  foldl (λ env '(name, body), bt_insert (function_key name) (bytes_of (render_node body)) env)
    env functions.

Definition export_environment (s : RcSession H) : env_data :=
  export_functions (s_functions s) (export_vars (s_vars s) []).

Definition publish_environment : S H unit :=
  env ← gets export_environment; host (host_store_environment env).

(** [self.publish_environment().ok()] *)
Definition publish : S H unit := ok publish_environment ;; mret tt.

(** [data.split(|byte| *byte == 0)] *)
Fixpoint split_nul_bytes (current bs : list byte) : list (list byte) :=
  match bs with
  | [] => [current]
  | b :: r => if decide (b = x00) then current :: split_nul_bytes [] r
              else split_nul_bytes (current ++ [b]) r
  end.

Definition data_values (data : list byte) : list string :=
  from_utf8_lossy <$> split_nul_bytes [] data.

(** The body of the function an entry defines, when it does define one. *)
Definition function_body (name source : string) : RcResult (option Node) :=
  match parse ("fn " +:+ name +:+ " " +:+ source) with
  | Ok script =>
      Ok match commands script with
         | Function _ (Some body) :: _ => Some body
         | _ => None
         end
  | Err _ => Ok None
  | Panic => Panic
  | NoFuel => NoFuel
  end.

Definition import_entry (entry : string * list byte) : S H unit :=
  let '(name, data) := entry in
  match strip_prefix "fn#" name with
  | Some function =>
      match from_utf8 data with
      | Some source =>
          body ← lift (function_body function source);
          match body with
          | Some body =>
              modify (λ s, Sess.set_functions (bt_insert function body (s_functions s)) s)
          | None => mret tt
          end
      | None => mret tt
      end
  | None => insert_var name (data_values data)
  end.

Definition import_environment (env : env_data) : S H unit :=
  for_each import_entry env ;; publish.

Definition import_environment_without_publish (env : env_data) : S H unit :=
  for_each import_entry env ;; refresh_arg_vars.

Definition replace_environment_without_publish (env : env_data) : S H unit :=
  modify (Sess.set_vars []) ;; modify (Sess.set_functions []) ;;
  import_environment_without_publish env.

Definition import_host_environment_result : S H unit :=
  env ← host host_load_environment;
  match env with
  | Some env => import_environment_without_publish env
  | None => mret tt
  end.

(** [self.import_host_environment().ok()] *)
Definition import_host_environment : S H unit :=
  ok import_host_environment_result ;; mret tt.

Definition set_args (args : list string) : S H unit :=
  modify (Sess.set_argv args) ;; refresh_arg_vars ;; publish.

Definition set_argv0 (argv0 : string) : S H unit := modify (Sess.set_argv0 argv0).

Definition set_var (name : string) (values : list string) : S H unit :=
  insert_var name values ;; publish.

Definition initial_session (h : H) : RcSession H :=
  mkSession h (bt_insert "ifs" [default_ifs] (bt_insert "path" ["."; "bin"] []))
    [] Status.success "rc" [] [] 1 [].

(** [RcSession::new] *)
Definition session_new (h : H) : RcSession H :=
  snd ((import_host_environment ;; publish) (initial_session h)).

Definition prompt : S H string :=
  dir ← current_dir; mret ("rc:" +:+ dir +:+ "% ").

(** ** Requests for process graphs *)

Definition stage_spec (node : Node) : S H RcProcessStageSpec :=
  dir ← current_dir;
  vars ← gets s_vars;
  mret (mkStage (render_node node) dir vars None None None []).

Definition add_binding (b : RcFdBindingSpec) (st : RcProcessStageSpec) : RcProcessStageSpec :=
  mkStage (ps_command st) (ps_cwd st) (ps_env st) (ps_stdin st) (ps_stdout st) (ps_stderr st)
    (ps_fd_bindings st ++ [b]).

Definition prepare_graph (spec : RcProcessGraphSpec) : S H (option RcProcessGraphRecord) :=
  ok_flatten (host (host_prepare_process_graph spec)).

Definition prepare_pipeline_graph (left right : Node) (from_fd to_fd : Z)
    : S H (option RcProcessGraphRecord) :=
  left_stage ← stage_spec left;
  right_stage ← stage_spec right;
  prepare_graph (mkGraph Pipeline None
    [add_binding (FdBinding.file from_fd "pipe:0/data" false true) left_stage;
     add_binding (FdBinding.file to_fd "pipe:0/data1" true false) right_stage]).

Definition prepare_background_graph (id : Z) (node : Node) : S H (option RcProcessGraphRecord) :=
  stage ← stage_spec node;
  prepare_graph (mkGraph BackgroundGraph (Some id)
    [mkStage (ps_command stage) (ps_cwd stage) (ps_env stage) (ps_stdin stage)
       (Some ("job:" +:+ pretty id +:+ "/stdout")) (Some ("job:" +:+ pretty id +:+ "/stderr"))
       (ps_fd_bindings stage)]).

Definition prepare_process_substitution_graph (k : RcProcessGraphKind) (node : Node) (fd : Z)
    : S H (option RcProcessGraphRecord) :=
  stage ← stage_spec node;
  let readable := bool_decide (k = ProcessSubstitutionRead) in
  prepare_graph (mkGraph k None
    [add_binding
       (FdBinding.file fd (if readable then "pipe:0/data" else "pipe:0/data1") readable
          (negb readable)) stage]).

Definition finish_process_graph (record : option RcProcessGraphRecord) (statuses : list RcStatus)
    : S H unit :=
  match record with
  | None => mret tt
  | Some record => ok (host (host_finish_process_graph record statuses)) ;; mret tt
  end.

(** ** Executables *)

Definition host_executable_argv (path : string) (args : list string) : S H (option (list string)) :=
  try_opt (ok (host (host_read_file path))) (λ bytes,
    mret (if is_host_executable path bytes then Some (path :: args) else None)).

Fixpoint first_in_path {A} (run : string → S H (option A)) (command : string) (dirs : list string)
    : S H (option A) :=
  match dirs with
  | [] => mret None
  | dir :: dirs' =>
      o ← run (join_path dir command);
      match o with
      | Some a => mret (Some a)
      | None => first_in_path run command dirs'
      end
  end.

Definition resolve_external_argv (words : list string) : S H (option (list string)) :=
  match words with
  | [] => mret None
  | command :: args =>
      if bool_decide (command ∈ ["wasi"; "worker"; "native"]) && (1 <? length words)
      then mret (Some words)
      else if is_host_executable_path command then mret (Some words)
      else if contains_char "/" command then host_executable_argv command args
      else
        s ← get;
        first_in_path (λ candidate, host_executable_argv candidate args) command
          (lookup_var s "path")
  end.

(** ** Waiting for jobs *)

Definition render_wait_results (results : list RcProcessJobResult) : RcOutput :=
  let '(out, status) :=
    foldl (λ '(out, status) job,
      (out +:+ jr_stdout job +:+ jr_stderr job +:+ "[" +:+ pretty (jr_id job) +:+ "] " +:+
         Status.display (jr_status job) +:+ String NEWLINE "",
       if Status.is_success (jr_status job) then status else jr_status job))
      ("", Status.success) results in
  mkOutput status out "" false.

Definition wait_job (acc : string * RcStatus) (job : RcJob) : S H (string * RcStatus) :=
  let '(out, status) := acc in
  (match job_graph job with
   | Some graph => finish_process_graph (Some graph) [job_status job]
   | None => mret tt
   end) ;;
  mret (out +:+ job_stdout job +:+ job_stderr job +:+ "[" +:+ pretty (job_id job) +:+ "] " +:+
          Status.display (job_status job) +:+ String NEWLINE "",
        if Status.is_success (job_status job) then status else job_status job).

Definition wait_jobs (jobs : list RcJob) : S H RcOutput :=
  r ← fold_eff wait_job ("", Status.success) jobs;
  mret (mkOutput (snd r) (fst r) "" false).

(** [jobs.remove(position of id)] *)
Fixpoint remove_job (id : Z) (jobs : list RcJob) : option (RcJob * list RcJob) :=
  match jobs with
  | [] => None
  | job :: jobs' =>
      if decide (job_id job = id) then Some (job, jobs')
      else match remove_job id jobs' with
           | Some (j, r) => Some (j, job :: r)
           | None => None
           end
  end.

Definition wait_for (requested : option Z) : S H RcOutput :=
  r ← ok_flatten (host (host_wait_process_job requested));
  match r with
  | Some results => mret (render_wait_results results)
  | None =>
      jobs ← gets s_jobs;
      match requested with
      | Some id =>
          match remove_job id jobs with
          | None => mret (Out.failure "wait"
                      ("wait: " +:+ pretty id +:+ ": no such job" +:+ String NEWLINE ""))
          | Some (job, rest) => modify (Sess.set_jobs rest) ;; wait_jobs [job]
          end
      | None => modify (Sess.set_jobs []) ;; wait_jobs jobs
      end
  end.

Definition run_wait (args : list string) : S H RcOutput :=
  match args with
  | [] => wait_for None
  | [arg] =>
      match parse_u32 arg with
      | Some id => wait_for (Some id)
      | None => mret (Out.failure "usage"
                  ("wait: " +:+ arg +:+ ": bad job id" +:+ String NEWLINE ""))
      end
  | _ => mret (Out.failure "usage" ("usage: wait [job]" +:+ String NEWLINE ""))
  end.
End Session.
