(* ===== verification/RcEval.v ===== *)
(** * rc: expansion, redirection, built-in commands and evaluation

    Models the evaluating half of [RcSession] in [crates/star9-rc/src/lib.rs].
    Every recursion of the evaluator goes through [eval_node]: word expansion
    reaches it by command substitution, redirections by process substitution,
    built-ins by [eval] and scripts.  The operations here take it as a parameter
    and [eval_node] ties the knot, with the depth of nested evaluations as fuel: a
    script that never ends has none that is enough. *)

From stdpp Require Import base list numbers option strings pretty sorting.
From Stdlib Require Import ZArith Lia Ascii.
From S2P Require Import Prelude Strs RcText BTree RcSyntax RcLex RcParse RcPattern RcSession.

Definition DQUOTE : ascii := "034"%char.
Definition nl : string := String NEWLINE "".

Inductive FdSink :=
| SinkStdout
| SinkStderr
| SinkFile (path : string) (append : bool)
| SinkProcess (node : Node) (graph : option RcProcessGraphRecord)
| SinkClosed.

Definition WHILE_LIMIT : nat := N.to_nat 100000.

(** ** Globbing *)

#[global] Instance string_le_dec : RelDecision String.le.
Proof. intros a b. unfold String.le. apply _. Defined.

(** [out.sort(); out.dedup()] *)
Fixpoint dedup (l : list string) : list string :=
  match l with
  | [] => []
  | x :: l' =>
      match dedup l' with
      | y :: r => if decide (x = y) then y :: r else x :: y :: r
      | [] => [x]
      end
  end.

Definition sort_dedup (l : list string) : list string := dedup (merge_sort String.le l).

Section Eval.
Context {H : Type} `{!RcHost H}.

Fixpoint glob_inner (parts : list string) (base prefix : string) (out : list string)
    : S H (list string) :=
  match parts with
  | [] => mret (out ++ [if is_empty_str prefix then "." else prefix])
  | part :: parts' =>
      if negb (has_glob_chars part) then
        glob_inner parts' (join_path base part) (join_path prefix part) out
      else
        entries ← ok (host (host_read_dir base));
        match entries with
        | None => mret out
        | Some entries =>
            fold_eff (λ out entry,
              let clean := trim_end_char "/" entry in
              if starts_with_char "." clean && negb (starts_with_char "." part) then mret out
              else if pattern_match part clean then
                glob_inner parts' (join_path base clean) (join_path prefix clean) out
              else mret out) out entries
        end
  end.

Definition glob (pattern : string) : S H (list string) :=
  let parts := filter (λ part, part ≠ "") (split_on "/" (trim_start_char "/" pattern)) in
  dir ← current_dir;
  out ← glob_inner parts (if starts_with_char "/" pattern then "." else dir) "" [];
  mret (sort_dedup out).

Definition expand_glob_or_literal (value : string) : S H (list string) :=
  if negb (has_glob_chars value) then mret [value]
  else
    found ← glob value;
    mret match found with [] => [value] | _ => found end.

(** ** Variables in words *)

Fixpoint take_name (cs : list char) : list char * list char :=
  match cs with
  | c :: r =>
      if is_ascii_alphanumeric c || isc "_" c then
        let '(name, rest) := take_name r in (c :: name, rest)
      else ([], cs)
  | [] => ([], [])
  end.

(** The characters up to a closing parenthesis, and what follows it. *)
Fixpoint until_paren (text rest : list char) : option (list char * list char) :=
  match rest with
  | [] => None
  | c :: r => if isc ")" c then Some (text, r) else until_paren (text ++ [c]) r
  end.

(** [subs.split_whitespace()] *)
Definition split_whitespace (cs : list char) : list (list char) :=
  filter (λ part, part ≠ []) (split_where is_whitespace [] cs).

Definition select_index (values : list string) (sub : list char) : list string :=
  match parse_usize (of_chars sub) with
  | Some index => if (0 <? index)%Z then option_list (get_index values (index - 1)) else []
  | None => []
  end.

(** [rest] is what follows the dollar. *)
Definition read_variable_expansion (s : RcSession H) (rest : list char)
    : RcResult (list string * list char) :=
  let count := next_is "#" rest in
  let quote := negb count && next_is DQUOTE rest in
  let body := if count || quote then tail rest else rest in
  let '(name, after) :=
    if next_is "*" body then ([ch "*"], tail body) else take_name body in
  match name with
  | [] => Ok (["$"], rest)
  | _ =>
      let values := lookup_var s (of_chars name) in
      '(values, after) ←
        (if next_is "(" after then
           match until_paren [] (tail after) with
           | None => Err (RcErr.new "unterminated variable subscript")
           | Some (subs, after) => Ok (split_whitespace subs ≫= select_index values, after)
           end
         else Ok (values, after));
      Ok (if count then [pretty (length values)]
          else if quote then [str_join " " values]
          else values, after)
  end.

(** ** The evaluator over nested evaluations *)

Section Knot.
Variable eval_node : Node → string → S H RcOutput.

Fixpoint eval_nodes_loop (nodes : list Node) (input : string) (out : RcOutput) : S H RcOutput :=
  match nodes with
  | [] => mret out
  | node :: nodes' =>
      next ← eval_node node input;
      let out := Out.append out next in
      if o_exited next then mret out else eval_nodes_loop nodes' "" out
  end.

Definition eval_nodes (nodes : list Node) (input : string) : S H RcOutput :=
  eval_nodes_loop nodes input Out.default.

(** [self.last_status = status] with the variable that shows it *)
Definition record_status (status : RcStatus) : S H unit :=
  modify (Sess.set_last_status status) ;; insert_var "status" [Status.display status].

Definition eval_script (script : Script) (input : string) : S H RcOutput :=
  output ← eval_nodes (commands script) input;
  record_status (o_status output) ;;
  publish ;;
  mret output.

Definition eval_source (source : string) : S H RcOutput :=
  import_host_environment ;;
  r ← attempt (lift (parse source));
  match r with
  | Ok script => eval_script script ""
  | Err err =>
      modify (Sess.set_last_status Status.failure) ;;
      mret (Out.failure "parse" ("rc: " +:+ RcErr.display err +:+ nl))
  | _ => no_fuel
  end.

(** *** Expansion *)

(** [len] is [chars.len()], and [start] the index of the head of [rest]. *)
Fixpoint expand_part_loop (fuel len : nat) (rest : list char) (acc : list string)
    : S H (list string) :=
  match fuel, rest with
  | _, [] => mret acc
  | O, _ => no_fuel
  | Datatypes.S fuel, c :: r =>
      if isc QUOTE c then
        '(literal, rest) ← lift (read_quoted_literal rest);
        expand_part_loop fuel len rest (concat_values acc [literal])
      else if isc "$" c then
        s ← get;
        '(values, rest) ← lift (read_variable_expansion s r);
        expand_part_loop fuel len rest (concat_values acc values)
      else if isc "`" c && next_is "{" r then
        '(source, rest) ← lift (extract_command_substitution len (len - length rest) rest);
        out ← eval_source source;
        ifs ← gets (λ s, lookup_var s "ifs");
        expand_part_loop fuel len rest (concat_values acc (split_ifs (o_stdout out) ifs))
      else expand_part_loop fuel len r (concat_values acc [of_chars [c]])
  end.

Definition expand_part (raw : string) : S H (list string) :=
  let cs := chars raw in expand_part_loop (length cs) (length cs) cs [""].

Definition expand_raw_word (raw : string) : S H (list string) :=
  fold_eff (λ acc part, values ← expand_part part; mret (concat_values acc values))
    [""] (split_caret_parts raw).

Definition expand_word (word : Word) : S H (list string) :=
  r ← attempt (expand_raw_word (raw word));
  match r with
  | Ok values => mret values
  | Err err => mret ["rc-expansion-error:" +:+ RcErr.display err]
  | _ => no_fuel
  end.

Definition expand_words (words : list Word) : S H (list string) :=
  fold_eff (λ out word,
    expanded ← expand_word word;
    fold_eff (λ out value, more ← expand_glob_or_literal value; mret (out ++ more)) out expanded)
    [] words.

Definition assignment_value (a : Assignment) : S H (list string) :=
  match as_values a with [] => mret [] | values => expand_words values end.

(** *** Redirection *)

Definition redirect_path (r : Redirect) : S H string :=
  match rd_target r with
  | Some (TWord word) =>
      values ← expand_word word;
      ok_or (head values) (RcErr.new "redirect target expanded to empty list")
  | Some (THereDoc _) => throw (RcErr.new "here document is not a path")
  | Some (TProcess _) => throw (RcErr.new "process substitution is not a path")
  | None => throw (RcErr.new "redirect target expanded to empty list")
  end.

Definition redirect_here_text (r : Redirect) : S H string :=
  match rd_target r with
  | Some (THereDoc doc) =>
      if hd_expand doc then values ← expand_raw_word (hd_body doc); mret (str_join " " values)
      else mret (hd_body doc)
  | Some (TWord word) => mret (raw word)
  | Some (TProcess _) =>
      throw (RcErr.new "process substitution cannot be a here document")
  | None => mret ""
  end.

(** The command of an executable stage. *)
Definition stage_command (node : Node) : option SimpleCommand :=
  match node with
  | Simple simple => Some simple
  | Block [Simple simple] | Sequence [Simple simple] => Some simple
  | _ => None
  end.

(** One redirection of an executable stage, over its standard input and its
    bindings; [None] when the stage cannot be handed to the host. *)
Definition stage_redirect (acc : string * list RcFdBindingSpec) (r : Redirect)
    : S H (option (string * list RcFdBindingSpec)) :=
  let '(stdin, bindings) := acc in
  let here :=
    if decide (rd_fd r = 0%Z) then
      try_opt (ok (redirect_here_text r)) (λ text, mret (Some (text, bindings)))
    else mret None in
  let path_binding f :=
    try_opt (ok (redirect_path r)) (λ path, mret (Some (stdin, bindings ++ [f path]))) in
  match rd_mode r, rd_target r with
  | Read, Some (TWord _) => path_binding (λ path, FdBinding.file (rd_fd r) path true false)
  | Read, Some (THereDoc _) => here
  | Here, _ => here
  | Write, Some (TWord _) => path_binding (λ path, FdBinding.file (rd_fd r) path false true)
  | Append, Some (TWord _) => path_binding (λ path, FdBinding.append_file (rd_fd r) path)
  | Dup (Some from), _ => mret (Some (stdin, bindings ++ [FdBinding.dup (rd_fd r) from]))
  | Dup None, _ => mret (Some (stdin, bindings ++ [FdBinding.close (rd_fd r)]))
  | _, _ => mret None
  end.

Fixpoint stage_redirects (acc : string * list RcFdBindingSpec) (rs : list Redirect)
    : S H (option (string * list RcFdBindingSpec)) :=
  match rs with
  | [] => mret (Some acc)
  | r :: rs' => try_opt (stage_redirect acc r) (λ acc, stage_redirects acc rs')
  end.

Definition executable_stage (node : Node) (stdin : string) (bindings : list RcFdBindingSpec)
    : S H (option RcExecutableStageSpec) :=
  match stage_command node with
  | None => mret None
  | Some simple =>
      vars ← gets s_vars;
      env ← fold_eff (λ env a,
              values ← assignment_value a; mret (bt_insert (as_name a) values env))
              vars (assignments simple);
      words ← expand_words (words simple);
      functions ← gets s_functions;
      match words with
      | [] => mret None
      | name :: _ =>
          if bt_mem name functions || is_builtin name then mret None
          else
            try_opt (stage_redirects (stdin, bindings) (redirects simple)) (λ acc,
              try_opt (resolve_external_argv words) (λ argv,
                dir ← current_dir;
                mret (Some (mkExecStage argv (fst acc) dir env (snd acc)))))
      end
  end.

(** *** Pipelines handed to the host *)

Fixpoint append_pipeline_nodes (node : Node) : option (list Node * list (Z * Z)) :=
  match node with
  | Simple _ => Some ([node], [])
  | Pipe l r spec =>
      match append_pipeline_nodes l, append_pipeline_nodes r with
      | Some (ln, le), Some (rn, re) =>
          let edge := (default 1%Z (from_fd <$> spec), default 0%Z (to_fd <$> spec)) in
          Some (ln ++ rn, le ++ edge :: re)
      | _, _ => None
      end
  | _ => None
  end.

Definition pipe_path (index : nat) (leaf : string) : string :=
  "pipe:" +:+ pretty index +:+ "/" +:+ leaf.

(** What the edges bind at stage [index]: it reads the edge before it, and writes
    the one after it. *)
Definition stage_bindings (edges : list (Z * Z)) (index : nat) : list RcFdBindingSpec :=
  match index with
  | O => []
  | Datatypes.S before =>
      match edges !! before with
      | Some (_, to_fd) => [FdBinding.file to_fd (pipe_path before "data1") true false]
      | None => []
      end
  end ++
  match edges !! index with
  | Some (from_fd, _) => [FdBinding.file from_fd (pipe_path index "data") false true]
  | None => []
  end.

Fixpoint executable_stages (index : nat) (edges : list (Z * Z)) (input : string)
    (nodes : list Node) : S H (option (list RcExecutableStageSpec)) :=
  match nodes with
  | [] => mret (Some [])
  | node :: nodes' =>
      try_opt (executable_stage node (match index with O => input | _ => "" end)
                 (stage_bindings edges index)) (λ stage,
        try_opt (executable_stages (Datatypes.S index) edges input nodes') (λ stages,
          mret (Some (stage :: stages))))
  end.

Definition set_stage_bindings (f : list RcFdBindingSpec → list RcFdBindingSpec)
    (st : RcExecutableStageSpec) : RcExecutableStageSpec :=
  mkExecStage (es_argv st) (es_stdin st) (es_cwd st) (es_env st) (f (es_fd_bindings st)).

(** A stage that redirected its end of the pipe away leaves the next stage with a
    closed descriptor. *)
Fixpoint close_unwritten (index : nat) (edges : list (Z * Z)) (stages : list RcExecutableStageSpec)
    : list RcExecutableStageSpec :=
  match edges with
  | [] => stages
  | (from_fd, to_fd) :: edges' =>
      let stages :=
        match stages !! index with
        | Some stage =>
            if stage_writes_pipe (es_fd_bindings stage) from_fd index then stages
            else
              alter (set_stage_bindings (λ bs,
                filter (λ b, ¬ (b_fd b = to_fd ∧ b_path b = pipe_path index "data1")) bs ++
                  [FdBinding.close to_fd])) (Datatypes.S index) stages
        | None => stages
        end in
      close_unwritten (Datatypes.S index) edges' stages
  end.

Definition try_execute_pipeline_graph (left right : Node) (from_fd to_fd : Z) (input : string)
    : S H (option RcOutput) :=
  match append_pipeline_nodes left, append_pipeline_nodes right with
  | Some (ln, le), Some (rn, re) =>
      let nodes := ln ++ rn in
      let edges := le ++ (from_fd, to_fd) :: re in
      if (length nodes <? 2) || negb (length edges + 1 =? length nodes) then mret None
      else
        try_opt (executable_stages 0 edges input nodes) (λ stages,
          ok_flatten (host (host_execute_process_graph
            (mkExecGraph Pipeline None (close_unwritten 0 edges stages)))))
  | _, _ => mret None
  end.

Definition try_start_background_graph (id : Z) (node : Node) (input : string) : S H bool :=
  stage ← executable_stage node input [];
  match stage with
  | None => mret false
  | Some stage =>
      r ← ok_flatten (host (host_start_process_graph_job
            (mkExecGraph BackgroundGraph (Some id) [stage])));
      mret match r with Some _ => true | None => false end
  end.

Definition try_execute_process_substitution_graph (k : RcProcessGraphKind) (node : Node)
    (input : string) (fd : Z) : S H (option RcOutput) :=
  let run bindings :=
    try_opt (executable_stage node input bindings) (λ stage,
      r ← attempt (host (host_execute_process_graph (mkExecGraph k None [stage])));
      match r with
      | Ok out => mret out
      | Err err =>
          mret (Some (Out.failure "process-substitution"
                        ("process substitution: " +:+ RcErr.display err +:+ nl)))
      | _ => no_fuel
      end) in
  match k with
  | ProcessSubstitutionRead => run [FdBinding.file fd "pipe:0/data" false true]
  | ProcessSubstitutionWrite => run []
  | _ => mret None
  end.
(** *** Sinks *)

Definition sink_of (sinks : btree Z FdSink) (fd : Z) (otherwise : FdSink) : FdSink :=
  default otherwise (bt_get fd sinks).

(** One redirection of a command, over its input and its sinks. *)
Definition prepare_redirect (r : Redirect) (acc : string * btree Z FdSink)
    : S H (string * btree Z FdSink) :=
  let '(input, sinks) := acc in
  match rd_mode r with
  | Read =>
      match rd_target r with
      | Some (TProcess node) =>
          done ← try_execute_process_substitution_graph ProcessSubstitutionRead node "" 1;
          match done with
          | Some out => mret (o_stdout out, sinks)
          | None =>
              graph ← prepare_process_substitution_graph ProcessSubstitutionRead node 1;
              out ← eval_node node "";
              finish_process_graph graph [o_status out] ;;
              mret (o_stdout out, sinks)
          end
      | _ =>
          path ← redirect_path r;
          if is_null_path path then mret ("", sinks)
          else bytes ← host (host_read_file path); mret (from_utf8_lossy bytes, sinks)
      end
  | Here => text ← redirect_here_text r; mret (text, sinks)
  | Write | Append =>
      match rd_target r with
      | Some (TProcess node) =>
          graph ← prepare_process_substitution_graph ProcessSubstitutionWrite node (rd_fd r);
          mret (input, bt_insert (rd_fd r) (SinkProcess node graph) sinks)
      | _ =>
          path ← redirect_path r;
          mret (input, bt_insert (rd_fd r)
                         (if is_null_path path then SinkClosed
                          else SinkFile path match rd_mode r with Append => true | _ => false end)
                         sinks)
      end
  | Dup (Some from) =>
      let sink := sink_of sinks from (if decide (from = 1%Z) then SinkStdout
                                      else if decide (from = 2%Z) then SinkStderr
                                      else SinkClosed) in
      mret (input, bt_insert (rd_fd r) sink sinks)
  | Dup None => mret (input, bt_insert (rd_fd r) SinkClosed sinks)
  end.

Fixpoint prepare_redirects (rs : list Redirect) (acc : string * btree Z FdSink)
    : S H (string * btree Z FdSink) :=
  match rs with
  | [] => mret acc
  | r :: rs' => acc ← prepare_redirect r acc; prepare_redirects rs' acc
  end.

(** The output so far, and the error that stopped the sink, if one did. *)
Definition sink_write (m : Eff RcError H unit) (output : RcOutput)
    : S H (RcOutput * option RcError) :=
  r ← attempt (host m);
  match r with
  | Err err => mret (output, Some err)
  | _ => mret (output, None)
  end.

Definition apply_fd_sink (fd : Z) (data : string) (sinks : btree Z FdSink) (output : RcOutput)
    : S H (RcOutput * option RcError) :=
  if is_empty_str data then mret (output, None)
  else
    match sink_of sinks fd (if decide (fd = 2%Z) then SinkStderr else SinkStdout) with
    | SinkStdout => mret (Out.set_stdout (o_stdout output +:+ data) output, None)
    | SinkStderr => mret (Out.set_stderr (o_stderr output +:+ data) output, None)
    | SinkClosed => mret (output, None)
    | SinkFile path true => sink_write (host_append_file path (bytes_of data)) output
    | SinkFile path false => sink_write (host_write_file path (bytes_of data)) output
    | SinkProcess node graph =>
        done ← try_execute_process_substitution_graph ProcessSubstitutionWrite node data fd;
        next ← match done with Some next => mret next | None => eval_node node data end;
        finish_process_graph graph [o_status next] ;;
        mret (mkOutput (o_status next) (o_stdout output +:+ o_stdout next)
                (o_stderr output +:+ o_stderr next) (o_exited output || o_exited next), None)
    end.

Definition apply_output_sinks (output : RcOutput) (sinks : btree Z FdSink)
    : S H (RcOutput * option RcError) :=
  r ← apply_fd_sink 1 (o_stdout output) sinks (Out.set_stderr "" (Out.set_stdout "" output));
  match r with
  | (out, Some err) => mret (out, Some err)
  | (out, None) => apply_fd_sink 2 (o_stderr output) sinks out
  end.

(** *** Commands *)

Definition command_output (result : RcCommandResult) : RcOutput :=
  mkOutput (cr_status result) (cr_stdout result) (cr_stderr result) false.

Definition run_rc_script (path : string) (args : list string) (input : string) : S H RcOutput :=
  bytes ← host (host_read_file path);
  if is_host_executable path bytes then
    env ← gets s_vars;
    result ← host (host_run_command (mkInvocation path args input env));
    mret (command_output result)
  else
    let source := from_utf8_lossy bytes in
    old_argv0 ← gets s_argv0;
    old_argv ← gets s_argv;
    set_argv0 path ;;
    set_args args ;;
    script ← lift (parse source);
    out ← eval_script script input;
    set_argv0 old_argv0 ;;
    set_args old_argv ;;
    mret out.

Definition run_path_command (words : list string) (input : string) : S H (option RcOutput) :=
  match words with
  | [] => mret None
  | command :: args =>
      if contains_char "/" command then ok (run_rc_script command args input)
      else
        s ← get;
        first_in_path (λ candidate, ok (run_rc_script candidate args input)) command
          (lookup_var s "path")
  end.

(** The host's own command, when no script has the name. *)
Definition run_host_command (name : string) (args : list string) (input : string) : S H RcOutput :=
  env ← gets s_vars;
  r ← attempt (host (host_run_command (mkInvocation name args input env)));
  match r with
  | Ok result => mret (command_output result)
  | Err err => mret (Out.failure "notfound" (name +:+ ": " +:+ RcErr.display err +:+ nl))
  | _ => no_fuel
  end.

(** A function of the session, run with its own arguments. *)
Definition call_function (body : Node) (args : list string) (input : string) : S H RcOutput :=
  old_argv ← gets s_argv;
  set_args args ;;
  out ← eval_node body input;
  set_args old_argv ;;
  mret out.

Definition run_note_function (name : string) : S H (option RcOutput) :=
  notes ← gets s_notes;
  if bt_mem name notes then mret None
  else
    modify (Sess.set_notes (bt_insert name tt notes)) ;;
    functions ← gets s_functions;
    out ← match bt_get name functions with
          | Some body => out ← call_function body [] ""; mret (Some out)
          | None => mret None
          end;
    modify (λ s, Sess.set_notes (bt_remove name (s_notes s)) s) ;;
    mret out.

Definition deliver_note (note : string) : S H RcOutput :=
  ok (host (host_send_note note)) ;;
  out ← run_note_function ("sig" +:+ note);
  mret (default (Out.failure note ("rc: unhandled note " +:+ note +:+ nl)) out).

(** *** Built-in commands *)

Definition plain_failure : RcOutput := mkOutput Status.failure "" "" false.
Definition usage (text : string) : RcOutput := Out.failure "usage" ("usage: " +:+ text +:+ nl).

Definition run_cd (args : list string) : S H RcOutput :=
  let path := default "." (head args) in
  r ← attempt (host (host_set_current_dir path));
  mret match r with
       | Err err => Out.failure "cd" ("cd: " +:+ path +:+ ": " +:+ RcErr.display err +:+ nl)
       | _ => Out.default
       end.

Definition run_match (args : list string) : RcOutput :=
  match args with
  | subject :: p :: patterns =>
      if existsb (λ pattern, pattern_match pattern subject) (p :: patterns) then Out.default
      else plain_failure
  | _ => usage "~ subject pattern ..."
  end.

Definition run_exec (args : list string) (input : string) : S H RcOutput :=
  match args with
  | [] => mret (usage "exec command [args ...]")
  | name :: rest =>
      found ← run_path_command args input;
      match found with
      | Some out => mret (Out.set_exited true out)
      | None => out ← run_host_command name rest input; mret (Out.set_exited true out)
      end
  end.

Definition run_dot (args : list string) : S H RcOutput :=
  match args with
  | path :: _ =>
      r ← attempt (host (host_read_file path));
      match r with
      | Ok bytes => eval_source (from_utf8_lossy bytes)
      | Err err =>
          mret (Out.failure "source" (".: " +:+ path +:+ ": " +:+ RcErr.display err +:+ nl))
      | _ => no_fuel
      end
  | [] => mret (usage ". file")
  end.

(** [argv.iter().skip(n)] *)
Definition skip_args (n : Z) (argv : list string) : list string :=
  drop (Z.to_nat (Z.min n (Z.of_nat (length argv)))) argv.

Definition run_shift (args : list string) : S H RcOutput :=
  let n := default 1%Z (head args ≫= parse_usize) in
  modify (λ s, Sess.set_argv (skip_args n (s_argv s)) s) ;;
  refresh_arg_vars ;;
  mret Out.default.

Definition whatis_line (s : RcSession H) (arg : string) : string :=
  match bt_get arg (s_vars s) with
  | Some values => arg +:+ "=(" +:+ str_join " " values +:+ ")" +:+ nl
  | None =>
      match bt_get arg (s_functions s) with
      | Some function => "fn " +:+ arg +:+ " " +:+ render_node function +:+ nl
      | None =>
          if is_builtin arg then "builtin " +:+ arg +:+ nl else arg +:+ ": not found" +:+ nl
      end
  end.

Definition run_whatis (s : RcSession H) (args : list string) : RcOutput :=
  Out.success (str_join "" (whatis_line s <$> args)).

Definition host_test (path : string) (test : RcStat → bool) : S H bool :=
  r ← attempt (host (host_stat path));
  mret match r with Ok stat => test stat | _ => false end.

Definition run_test (args : list string) : S H RcOutput :=
  success ←
    match args with
    | [flag; path] =>
        if bool_decide (flag = "-e" ∨ flag = "-f") then
          host_test path (λ stat, bool_decide (flag = "-e") || negb (rs_is_dir stat))
        else if decide (flag = "-d") then host_test path rs_is_dir
        else mret false
    | [l; op; r] =>
        mret (if decide (op = "=") then bool_decide (l = r)
              else if decide (op = "!=") then bool_decide (l ≠ r)
              else false)
    | [value] => mret (negb (is_empty_str value))
    | _ => mret false
    end;
  mret (if (success : bool) then Out.default else plain_failure).

(** [leaf.truncate(leaf.len() - suffix.len())] when the suffix is there *)
Definition strip_suffix (leaf suffix : string) : string :=
  if ends_with suffix leaf
  then String.substring 0 (String.length leaf - String.length suffix) leaf else leaf.

Definition run_basename (args : list string) : RcOutput :=
  match args with
  | [] => usage "basename path [suffix]"
  | path :: rest =>
      let trimmed := trim_end_char "/" path in
      let leaf := match rsplit_once "/" trimmed with Some (_, leaf) => leaf | None => trimmed end in
      Out.success (match rest with suffix :: _ => strip_suffix leaf suffix | [] => leaf end +:+ nl)
  end.

Definition run_exit (args : list string) : S H RcOutput :=
  last ← gets s_last_status;
  let status := match args with value :: _ => mkStatus value | [] => last end in
  out ← run_note_function "sigexit";
  mret (Out.set_exited true (Out.set_status status (default Out.default out))).

Definition run_rfork (args : list string) : S H RcOutput :=
  let fail err := Out.failure "rfork" ("rfork: " +:+ RcErr.display err +:+ nl) in
  spec ← attempt (lift (Rfork.parse args));
  match spec with
  | Ok spec =>
      outcome ← attempt (host (host_rfork spec));
      match outcome with
      | Ok outcome =>
          match ro_environment outcome with
          | Unchanged => mret Out.default
          | Reload =>
              env ← attempt (host host_load_environment);
              match env with
              | Ok (Some env) => replace_environment_without_publish env ;; mret Out.default
              | Err err => mret (fail err)
              | _ => mret Out.default
              end
          | Cleared =>
              modify (Sess.set_vars []) ;; modify (Sess.set_functions []) ;;
              refresh_arg_vars ;; mret Out.default
          end
      | Err err => mret (fail err)
      | _ => no_fuel
      end
  | Err err => mret (fail err)
  | _ => no_fuel
  end.

Definition run_flag (args : list string) : RcOutput :=
  match args with
  | [] => Out.success nl
  | [flag] =>
      if bool_decide (flag ∈ ["x"; "e"; "r"; "i"]) then Out.default
      else Out.failure "flag" ("flag: unknown flag " +:+ flag +:+ nl)
  | _ => usage "flag [name]"
  end.

(** [again] is [run_builtin] itself, for [builtin name ...]. *)
Definition run_builtin_command (again : list string → string → S H (option RcOutput))
    (args : list string) (input : string) : S H RcOutput :=
  match args with
  | [] => mret (usage "builtin command [args ...]")
  | name :: _ =>
      if decide (name = "builtin") then mret Out.default
      else if is_builtin name then out ← again args input; mret (default Out.default out)
      else mret (Out.failure "builtin" ("builtin: " +:+ name +:+ ": not a builtin" +:+ nl))
  end.

Definition run_builtin_with (again : list string → string → S H (option RcOutput))
    (words : list string) (input : string) : S H (option RcOutput) :=
  match words with
  | [] => mret None
  | name :: args =>
      let some (m : S H RcOutput) : S H (option RcOutput) := out ← m; mret (Some out) in
      if decide (name = "echo") then mret (Some (Out.success (str_join " " args +:+ nl)))
      else if decide (name = "cd") then some (run_cd args)
      else if decide (name = "pwd") then
        dir ← current_dir; mret (Some (Out.success (dir +:+ nl)))
      else if decide (name = "status") then
        last ← gets s_last_status; mret (Some (Out.success (Status.display last +:+ nl)))
      else if decide (name = "true") then mret (Some Out.default)
      else if decide (name = "false") then mret (Some plain_failure)
      else if decide (name = "~") then mret (Some (run_match args))
      else if decide (name = "eval") then some (eval_source (str_join " " args))
      else if decide (name = "exec") then some (run_exec args input)
      else if decide (name = ".") then some (run_dot args)
      else if decide (name = "shift") then some (run_shift args)
      else if decide (name = "whatis") then s ← get; mret (Some (run_whatis s args))
      else if decide (name = "test") then some (run_test args)
      else if decide (name = "basename") then mret (Some (run_basename args))
      else if decide (name = "exit") then some (run_exit args)
      else if decide (name = "wait") then some (run_wait args)
      else if decide (name = "rfork") then some (run_rfork args)
      else if decide (name = "flag") then mret (Some (run_flag args))
      else if decide (name = "builtin") then some (run_builtin_command again args input)
      else if bool_decide (name = "cat") && match args with [] => true | _ => false end then
        mret (Some (Out.success input))
      else mret None
  end.

(** [builtin] does not run itself, so one level of it is all there is. *)
Definition run_builtin : list string → string → S H (option RcOutput) :=
  run_builtin_with (run_builtin_with (λ _ _, no_fuel)).

(** *** Nodes *)

Definition run_words (words : list string) (input : string) : S H RcOutput :=
  match words with
  | [] => mret Out.default
  | name :: args =>
      functions ← gets s_functions;
      match bt_get name functions with
      | Some body => call_function body args input
      | None =>
          built_in ← run_builtin words input;
          match built_in with
          | Some out => mret out
          | None =>
              script ← run_path_command words input;
              match script with
              | Some out => mret out
              | None => run_host_command name args input
              end
          end
      end
  end.

Fixpoint assign_temporarily (values : list (string * list string))
    (saved : list (string * option (list string))) : S H (list (string * option (list string))) :=
  match values with
  | [] => mret saved
  | (name, vs) :: values' =>
      vars ← gets s_vars;
      insert_var name vs ;;
      assign_temporarily values' (saved ++ [(name, bt_get name vars)])
  end.

Definition eval_simple (simple : SimpleCommand) (input : string) : S H RcOutput :=
  values ← map_eff (λ a, vs ← assignment_value a; mret (as_name a, vs)) (assignments simple);
  match words simple with
  | [] => for_each (λ '(name, vs), insert_var name vs) values ;; publish ;; mret Out.default
  | _ =>
      saved ← assign_temporarily values [];
      r ← attempt (prepare_redirects (redirects simple)
                     (input, bt_insert 2%Z SinkStderr (bt_insert 1%Z SinkStdout [])));
      match r with
      | Err err => mret (Out.failure "redirect" ("rc: " +:+ RcErr.display err +:+ nl))
      | Ok (input, sinks) =>
          words ← expand_words (words simple);
          match words with
          | [] => for_each (λ '(name, old), restore name old) saved ;; mret Out.default
          | _ =>
              out ← run_words words input;
              import_host_environment ;;
              r ← apply_output_sinks out sinks;
              let out := match r with
                         | (out, Some err) =>
                             Out.set_status Status.failure
                               (Out.set_stderr (o_stderr out +:+ "rc: " +:+ RcErr.display err +:+ nl) out)
                         | (out, None) => out
                         end in
              record_status (o_status out) ;;
              for_each (λ '(name, old), restore name old) saved ;;
              publish ;;
              mret out
          end
      | _ => no_fuel
      end
  end.

Fixpoint for_loop (var : string) (body : Node) (values : list string) (out : RcOutput)
    : S H RcOutput :=
  match values with
  | [] => mret out
  | value :: values' =>
      insert_var var [value] ;;
      next ← eval_node body "";
      for_loop var body values' (Out.append out next)
  end.

Fixpoint while_loop (guard : nat) (condition body : Node) (out : RcOutput) : S H RcOutput :=
  match guard with
  | O => mret (Out.failure "loop" ("rc: while loop iteration limit exceeded" +:+ nl))
  | Datatypes.S guard =>
      cond ← eval_node condition "";
      if negb (Status.is_success (o_status cond)) then mret out
      else next ← eval_node body ""; while_loop guard condition body (Out.append out next)
  end.

Fixpoint switch_cases (value : string) (cases : list SwitchCase) (input : string) : S H RcOutput :=
  match cases with
  | [] => mret Out.default
  | mkCase patterns body :: cases' =>
      patterns ← expand_words patterns;
      if existsb (λ pattern, pattern_match pattern value) patterns then eval_nodes body input
      else switch_cases value cases' input
  end.

Definition take_job_id : S H Z :=
  id ← gets s_next_job_id;
  if (id =? U32_MAX)%Z then panic
  else modify (Sess.set_next_job_id (id + 1)%Z) ;; mret id.

Definition eval_pipe (l r : Node) (spec : option PipeSpec) (input : string) : S H RcOutput :=
  let from_fd := default 1%Z (from_fd <$> spec) in
  let to_fd := default 0%Z (to_fd <$> spec) in
  executed ← try_execute_pipeline_graph l r from_fd to_fd input;
  match executed with
  | Some out => mret out
  | None =>
      graph ← prepare_pipeline_graph l r from_fd to_fd;
      lout ← eval_node l input;
      let '(piped, lout) :=
        if decide (from_fd = 2%Z) then (o_stderr lout, Out.set_stderr "" lout)
        else (o_stdout lout, Out.set_stdout "" lout) in
      rout ← eval_node r (if decide (to_fd = 0%Z) then piped else "");
      finish_process_graph graph [o_status lout; o_status rout] ;;
      mret (mkOutput (Status.pipeline (o_status lout) (o_status rout))
              (o_stdout lout +:+ o_stdout rout) (o_stderr lout +:+ o_stderr rout)
              (o_exited rout))
  end.

Definition eval_background (inner : Node) (input : string) : S H RcOutput :=
  id ← take_job_id;
  let started := Out.success ("[" +:+ pretty id +:+ "]" +:+ nl) in
  handed ← try_start_background_graph id inner input;
  if (handed : bool) then mret started
  else
    graph ← prepare_background_graph id inner;
    out ← eval_node inner input;
    finish_process_graph graph [o_status out] ;;
    modify (λ s, Sess.set_jobs
      (s_jobs s ++ [mkJob id (o_status out) (o_stdout out) (o_stderr out) graph]) s) ;;
    mret started.

(** The body of [eval_node]. *)
Definition eval_node_body (node : Node) (input : string) : S H RcOutput :=
  match node with
  | Empty => mret Out.default
  | Sequence nodes | Block nodes => eval_nodes nodes input
  | Simple simple => eval_simple simple input
  | And l r =>
      lout ← eval_node l input;
      if Status.is_success (o_status lout) then
        rout ← eval_node r "";
        mret (Out.set_stderr (o_stderr lout +:+ o_stderr rout) rout)
      else mret lout
  | Or l r =>
      lout ← eval_node l input;
      if Status.is_success (o_status lout) then mret lout
      else
        rout ← eval_node r "";
        mret (Out.set_stderr (o_stderr lout +:+ o_stderr rout) rout)
  | Pipe l r spec => eval_pipe l r spec input
  | Not inner =>
      out ← eval_node inner input;
      mret (Out.set_status (Status.invert (o_status out)) out)
  | Background inner => eval_background inner input
  | If condition then_branch else_branch =>
      cond ← eval_node condition input;
      if Status.is_success (o_status cond) then eval_node then_branch ""
      else
        match else_branch with
        | Some e => eval_node e ""
        | None => mret (mkOutput Status.success "" (o_stderr cond) false)
        end
  | For var values body =>
      values ← match values with [] => gets s_argv | _ => expand_words values end;
      vars ← gets s_vars;
      out ← for_loop var body values Out.default;
      restore var (bt_get var vars) ;;
      mret out
  | While condition body => while_loop WHILE_LIMIT condition body Out.default
  | Switch value cases =>
      values ← expand_word value;
      switch_cases (default "" (head values)) cases input
  | Function name body =>
      match body with
      | Some body => modify (λ s, Sess.set_functions (bt_insert name body (s_functions s)) s)
      | None => modify (λ s, Sess.set_functions (bt_remove name (s_functions s)) s)
      end ;;
      mret Out.default
  end.
End Knot.

Fixpoint eval_node (fuel : nat) (node : Node) (input : string) : S H RcOutput :=
  match fuel with
  | O => no_fuel
  | Datatypes.S fuel => eval_node_body (eval_node fuel) node input
  end.

(** [RcSession::eval_source] with [fuel] levels of nested evaluation *)
Definition run_source (fuel : nat) (source : string) : S H RcOutput :=
  eval_source (eval_node fuel) source.
End Eval.

(** ** rc: a host in memory, and the evaluator on whole scripts

    Models [fake::FakeHost] of [crates/star9-rc/src/lib.rs], the host the crate's
    own tests run against: a map of files and a current directory.  The examples
    run the evaluator on the scripts of those tests. *)

Record FakeHost := mkFakeHost { fh_cwd : string; fh_files : btree string (list byte) }.

Module Fake.
Definition default : FakeHost := mkFakeHost "." [].

Definition clean_part (out : list string) (part : string) : list string :=
  if bool_decide (part = "" ∨ part = ".") then out
  else if decide (part = "..") then removelast out
  else out ++ [part].

Definition clean (path : string) : string :=
  match foldl clean_part [] (split_on "/" path) with
  | [] => "."
  | out => str_join "/" out
  end.

Definition with_file (path data : string) (h : FakeHost) : FakeHost :=
  mkFakeHost (fh_cwd h) (bt_insert (clean path) (bytes_of data) (fh_files h)).

Definition resolve (h : FakeHost) (path : string) : string :=
  if bool_decide (path = ".") || starts_with_char "#" path then clean path
  else if starts_with_char "/" path then clean (trim_start_char "/" path)
  else if decide (fh_cwd h = ".") then clean path
  else clean (fh_cwd h +:+ "/" +:+ path).

Definition is_dir (h : FakeHost) (path : string) : bool :=
  bool_decide (path = ".") || existsb (starts_with (path +:+ "/")) (bt_keys (fh_files h)).

Definition set_current_dir (path : string) : Eff RcError FakeHost unit :=
  h ← get;
  let path := resolve h path in
  if is_dir h path then put (mkFakeHost path (fh_files h))
  else throw (RcErr.new "not a directory").

Definition read_file (path : string) : Eff RcError FakeHost (list byte) :=
  h ← get; ok_or (bt_get (resolve h path) (fh_files h)) (RcErr.new "not found").

Definition write_file (path : string) (data : list byte) : Eff RcError FakeHost unit :=
  modify (λ h, mkFakeHost (fh_cwd h) (bt_insert (resolve h path) data (fh_files h))).

Definition append_file (path : string) (data : list byte) : Eff RcError FakeHost unit :=
  modify (λ h, let path := resolve h path in
    let old := option.default [] (bt_get path (fh_files h)) in
    mkFakeHost (fh_cwd h) (bt_insert path (old ++ data) (fh_files h))).

(** The entry of a directory that a file below it shows as. *)
Definition dir_entry (prefix file : string) : option string :=
  rest ← strip_prefix prefix file;
  Some match split_once "/" rest with
       | Some (dir, _) => dir +:+ "/"
       | None => rest
       end.

Definition read_dir (path : string) : Eff RcError FakeHost (list string) :=
  h ← get;
  let path := resolve h path in
  let prefix := if decide (path = ".") then "" else path +:+ "/" in
  mret (sort_dedup (omap (dir_entry prefix) (bt_keys (fh_files h)))).

Definition stat (path : string) : Eff RcError FakeHost RcStat :=
  gets (λ h, mkRcStat (is_dir h (resolve h path))).

(** [to_uppercase] of the letters of ASCII *)
Definition upper_char (c : char) : char :=
  if ((97 <=? c) && (c <=? 122))%N then (c - 32)%N else c.

Definition run_command (i : RcCommandInvocation) : Eff RcError FakeHost RcCommandResult :=
  if decide (ci_name i = "upper") then
    mret (mkCommandResult Status.success (of_chars (upper_char <$> chars (ci_stdin i))) "")
  else if decide (ci_name i = "argv") then
    mret (mkCommandResult Status.success (str_join "," (ci_args i) +:+ nl) "")
  else throw (RcErr.new "command not found").

Definition rfork (spec : RcRforkSpec) : Eff RcError FakeHost RcRforkOutcome :=
  (if bool_decide (rf_namespace spec = NsClean) then put default else mret tt) ;;
  mret (mkRforkOutcome match rf_environment spec with
                       | EnvShared => Unchanged
                       | EnvCopy => Reload
                       | EnvClean => Cleared
                       end).
End Fake.

#[global] Instance fake_host : RcHost FakeHost := {|
  host_current_dir := fh_cwd;
  host_set_current_dir := Fake.set_current_dir;
  host_read_file := Fake.read_file;
  host_write_file := Fake.write_file;
  host_append_file := Fake.append_file;
  host_read_dir := Fake.read_dir;
  host_stat := Fake.stat;
  host_run_command := Fake.run_command;
  host_load_environment := default_load_environment;
  host_store_environment := default_store_environment;
  host_prepare_process_graph := default_prepare_process_graph;
  host_finish_process_graph := default_finish_process_graph;
  host_wait_process_job := default_wait_process_job;
  host_send_note := default_send_note;
  host_execute_process_graph := default_execute_process_graph;
  host_start_process_graph_job := default_start_process_graph_job;
  host_rfork := Fake.rfork
|}.

(** Lines, for the scripts below. *)
Definition lines (ls : list string) : string := str_join nl ls.

(** What a script prints on both outputs, its status and whether it exited. *)
Definition outcome_of (h : FakeHost) (source : string) : option (string * string * string * bool) :=
  match fst (run_source 20 source (session_new h)) with
  | Ok out => Some (o_stdout out, o_stderr out, status_str (o_status out), o_exited out)
  | _ => None
  end.

Definition prints (h : FakeHost) (source : string) : option string :=
  (λ o, o.1.1.1) <$> outcome_of h source.

(** ** The crate's tests *)

Example variables_lists_quotes_and_concatenation :
  prints Fake.default "x=(a b c); echo $#x $x(2) pre^$x 'don''t'"
  = Some ("3 b prea preb prec don't" +:+ nl).
Proof. vm_compute. reflexivity. Qed.

Example command_substitution :
  prints Fake.default "echo `{echo a b}" = Some ("a b" +:+ nl).
Proof. vm_compute. reflexivity. Qed.

Example functions_for_if_switch :
  prints Fake.default
    (lines ["fn twice { echo $1 $1 }"; "for(i in one two) twice $i"; "if(~ two two) echo ok";
            "switch(two){case one"; " echo bad"; "case t*"; " echo switch}"; ""])
  = Some (lines ["one one"; "two two"; "ok"; "switch"; ""]).
Proof. vm_compute. reflexivity. Qed.

Example globbing :
  prints (Fake.with_file "tmp/c.bin" "c" (Fake.with_file "tmp/b.txt" "b"
            (Fake.with_file "tmp/a.txt" "a" Fake.default)))
    "echo tmp/*.txt nope*"
  = Some ("tmp/a.txt tmp/b.txt nope*" +:+ nl).
Proof. vm_compute. reflexivity. Qed.

Example redirection_pipeline_and_source :
  prints (Fake.with_file "script.rc" "echo sourced" Fake.default)
    "echo hello | upper >out; . script.rc; cat <out"
  = Some (lines ["sourced"; "HELLO"; ""]).
Proof. vm_compute. reflexivity. Qed.

Definition with_name (h : FakeHost) : RcSession FakeHost :=
  snd (set_var "name" ["world"] (session_new h)).

Example here_docs_and_exit :
  (match fst (run_source 20
      (lines ["echo err >[1=2]"; "echo hidden >/dev/null"; "cat <{echo proc}"; "cat <<EOF";
              "hello $name"; "EOF"; "echo before"; "exit done"; "echo after"; ""])
      (with_name Fake.default)) with
   | Ok out => Some (o_stdout out, o_stderr out, status_str (o_status out), o_exited out)
   | _ => None
   end)
  = Some (lines ["proc"; "hello world"; "before"; ""], "err" +:+ nl, "done", true).
Proof. vm_compute. reflexivity. Qed.

Example path_search :
  prints (Fake.with_file "bin/hello" "echo script-$1-$0" Fake.default) "hello world"
  = Some ("script-world-bin/hello" +:+ nl).
Proof. vm_compute. reflexivity. Qed.

Example background_and_wait :
  prints Fake.default "echo one & echo two & wait 1; wait"
  = Some (lines ["[1]"; "[2]"; "one"; "[1] 0"; "two"; "[2] 0"; ""]).
Proof. vm_compute. reflexivity. Qed.

Example rfork_flags :
  outcome_of Fake.default "rfork; echo default-ok; rfork nN"
  = Some ("default-ok" +:+ nl, "rfork: rfork flags n and N are mutually exclusive" +:+ nl,
          "rfork", false).
Proof. vm_compute. reflexivity. Qed.
