(* ===== verification/RcEvalFacts.v ===== *)
(** * rc: laws of the evaluator

    Nested evaluation is monotone in its fuel, so a result does not depend on the
    depth allowed once it is reached; pipelines succeed when both sides do; loops
    put their variable back; quoting protects any text from expansion; the
    exported environment is read back as it was. *)

From stdpp Require Import base list numbers option strings pretty sorting.
From Stdlib Require Import ZArith Lia Ascii.
From S2P Require Import Prelude Strs BTree RcText RcSyntax RcLex RcLexFacts RcParse RcParseFacts RcPattern RcSession RcEval.

(** ** Refinement of computations

    [m1 ⊑ m2]: they agree from every state, except where [m1] runs out of fuel. *)
Definition refines {E T A} (m1 m2 : Eff E T A) : Prop :=
  ∀ s, fst (m1 s) = NoFuel ∨ m1 s = m2 s.

Declare Scope refines_scope.
Infix "⊑ᵣ" := refines (at level 70) : refines_scope.
#[local] Open Scope refines_scope.

Section Refines.
Context {E T : Type}.

Lemma refines_refl {A} (m : Eff E T A) : m ⊑ᵣ m.
Proof. by right. Qed.

Lemma refines_no_fuel {A} (m : Eff E T A) : no_fuel ⊑ᵣ m.
Proof. by left. Qed.

Lemma refines_bind {A B} (m1 m2 : Eff E T A) (k1 k2 : A → Eff E T B) :
  m1 ⊑ᵣ m2 → (∀ a, k1 a ⊑ᵣ k2 a) → (m1 ≫= k1) ⊑ᵣ (m2 ≫= k2).
Proof.
  intros Hm Hk s. unfold mbind, eff_bind. destruct (Hm s) as [Hn|Heq].
  - left. by destruct (m1 s) as [[] ?].
  - rewrite <- Heq. destruct (m1 s) as [[a|e| |] s']; [apply Hk|by right..].
Qed.

Lemma refines_attempt {A} (m1 m2 : Eff E T A) : m1 ⊑ᵣ m2 → attempt m1 ⊑ᵣ attempt m2.
Proof.
  intros Hm s. unfold attempt. destruct (Hm s) as [Hn|Heq].
  - left. by destruct (m1 s) as [[] ?].
  - right. by rewrite Heq.
Qed.

Lemma refines_ok {A} (m1 m2 : Eff E T A) : m1 ⊑ᵣ m2 → ok m1 ⊑ᵣ ok m2.
Proof. intros. apply refines_bind; [by apply refines_attempt|]. intros. apply refines_refl. Qed.

Lemma refines_try_opt {A B} (m1 m2 : Eff E T (option A)) (k1 k2 : A → Eff E T (option B)) :
  m1 ⊑ᵣ m2 → (∀ a, k1 a ⊑ᵣ k2 a) → try_opt m1 k1 ⊑ᵣ try_opt m2 k2.
Proof.
  intros. apply refines_bind; [done|]. intros [a|]; [done|apply refines_refl].
Qed.

Lemma refines_fold {A B} (f1 f2 : B → A → Eff E T B) b l :
  (∀ b x, f1 b x ⊑ᵣ f2 b x) → fold_eff f1 b l ⊑ᵣ fold_eff f2 b l.
Proof.
  intros Hf. revert b. induction l as [|x l IH]; intros b; cbn; [apply refines_refl|].
  apply refines_bind; [apply Hf|done].
Qed.

Lemma refines_map {A B} (f1 f2 : A → Eff E T B) l :
  (∀ x, f1 x ⊑ᵣ f2 x) → map_eff f1 l ⊑ᵣ map_eff f2 l.
Proof.
  intros Hf. induction l as [|x l IH]; cbn; [apply refines_refl|].
  apply refines_bind; [apply Hf|]. intros y. apply refines_bind; [done|].
  intros. apply refines_refl.
Qed.
End Refines.

Lemma refines_first_in_path {H A} (r1 r2 : string → S H (option A)) command dirs :
  (∀ c, r1 c ⊑ᵣ r2 c) → first_in_path r1 command dirs ⊑ᵣ first_in_path r2 command dirs.
Proof.
  intros Hr. induction dirs as [|d dirs IH]; cbn; [apply refines_refl|].
  apply refines_bind; [apply Hr|]. intros [a|]; [apply refines_refl|done].
Qed.

Create HintDb refines discriminated.

(** Go through a computation on both sides at once. *)
Ltac refine_step :=
  lazymatch goal with
  | |- refines ?m ?m => apply refines_refl
  | |- refines (_ ≫= _) _ => apply refines_bind; [|intros ?]
  | |- refines (attempt _) _ => apply refines_attempt
  | |- refines (ok _) _ => apply refines_ok
  | |- refines (try_opt _ _) _ => apply refines_try_opt; [|intros ?]
  | |- refines (fold_eff _ _ _) _ => apply refines_fold; intros ? ?
  | |- refines (map_eff _ _) _ => apply refines_map; intros ?
  | |- refines (first_in_path _ _ _) _ => apply refines_first_in_path; intros ?
  | |- refines (match ?x with _ => _ end) _ => destruct x
  | |- refines _ _ => solve [auto with refines nocore]
  end.
Ltac refine_all := repeat (cbv zeta; refine_step).

(** ** Monotonicity *)

Section Monotone.
Context {H : Type} `{!RcHost H}.
Variables f g : Node → string → S H RcOutput.
Hypothesis fg : ∀ node input, f node input ⊑ᵣ g node input.

#[local] Hint Resolve fg : refines.

Lemma eval_nodes_mono nodes input : eval_nodes f nodes input ⊑ᵣ eval_nodes g nodes input.
Proof.
  unfold eval_nodes. generalize Out.default. revert input.
  induction nodes as [|n nodes IH]; intros input out; cbn; refine_all.
Qed.
#[local] Hint Resolve eval_nodes_mono : refines.

Lemma eval_script_mono sc input : eval_script f sc input ⊑ᵣ eval_script g sc input.
Proof. unfold eval_script. refine_all. Qed.
#[local] Hint Resolve eval_script_mono : refines.

Lemma eval_source_mono source : eval_source f source ⊑ᵣ eval_source g source.
Proof. unfold eval_source. refine_all. Qed.
#[local] Hint Resolve eval_source_mono : refines.

Lemma expand_part_mono raw : expand_part f raw ⊑ᵣ expand_part g raw.
Proof.
  unfold expand_part. generalize (length (chars raw)) at 1 3 as fuel.
  generalize (length (chars raw)) as len. generalize [""]. generalize (chars raw) as rest.
  intros rest acc len fuel. revert rest acc.
  induction fuel as [|fuel IH]; intros [|c r] acc; cbn; refine_all.
Qed.
#[local] Hint Resolve expand_part_mono : refines.

Lemma expand_raw_word_mono raw : expand_raw_word f raw ⊑ᵣ expand_raw_word g raw.
Proof. unfold expand_raw_word. refine_all. Qed.
#[local] Hint Resolve expand_raw_word_mono : refines.

Lemma expand_word_mono w : expand_word f w ⊑ᵣ expand_word g w.
Proof. unfold expand_word. refine_all. Qed.
#[local] Hint Resolve expand_word_mono : refines.

Lemma expand_words_mono ws : expand_words f ws ⊑ᵣ expand_words g ws.
Proof. unfold expand_words. refine_all. Qed.
#[local] Hint Resolve expand_words_mono : refines.

Lemma assignment_value_mono a : assignment_value f a ⊑ᵣ assignment_value g a.
Proof. unfold assignment_value. refine_all. Qed.
#[local] Hint Resolve assignment_value_mono : refines.

Lemma redirect_path_mono r : redirect_path f r ⊑ᵣ redirect_path g r.
Proof. unfold redirect_path. refine_all. Qed.
Lemma redirect_here_text_mono r : redirect_here_text f r ⊑ᵣ redirect_here_text g r.
Proof. unfold redirect_here_text. refine_all. Qed.
#[local] Hint Resolve redirect_path_mono redirect_here_text_mono : refines.

Lemma stage_redirects_mono acc rs : stage_redirects f acc rs ⊑ᵣ stage_redirects g acc rs.
Proof.
  revert acc. induction rs as [|r rs IH]; intros [stdin bs]; cbn [stage_redirects]; [refine_all|].
  apply refines_try_opt; [|done]. unfold stage_redirect. refine_all.
Qed.
#[local] Hint Resolve stage_redirects_mono : refines.

Lemma executable_stage_mono node stdin bs :
  executable_stage f node stdin bs ⊑ᵣ executable_stage g node stdin bs.
Proof. unfold executable_stage. refine_all. Qed.
#[local] Hint Resolve executable_stage_mono : refines.

Lemma executable_stages_mono index edges input nodes :
  executable_stages f index edges input nodes ⊑ᵣ executable_stages g index edges input nodes.
Proof. revert index. induction nodes as [|n nodes IH]; intros index; cbn; refine_all. Qed.
#[local] Hint Resolve executable_stages_mono : refines.

Lemma pipeline_graph_mono l r from to input :
  try_execute_pipeline_graph f l r from to input ⊑ᵣ try_execute_pipeline_graph g l r from to input.
Proof. unfold try_execute_pipeline_graph. refine_all. Qed.

Lemma background_graph_mono id node input :
  try_start_background_graph f id node input ⊑ᵣ try_start_background_graph g id node input.
Proof. unfold try_start_background_graph. refine_all. Qed.

Lemma substitution_graph_mono k node input fd :
  try_execute_process_substitution_graph f k node input fd ⊑ᵣ
  try_execute_process_substitution_graph g k node input fd.
Proof. unfold try_execute_process_substitution_graph. refine_all. Qed.
#[local] Hint Resolve pipeline_graph_mono background_graph_mono substitution_graph_mono : refines.

Lemma prepare_redirects_mono rs acc : prepare_redirects f rs acc ⊑ᵣ prepare_redirects g rs acc.
Proof.
  revert acc. induction rs as [|r rs IH]; intros [input sinks]; cbn [prepare_redirects];
    [refine_all|].
  apply refines_bind; [|done]. unfold prepare_redirect. refine_all.
Qed.
#[local] Hint Resolve prepare_redirects_mono : refines.

Lemma apply_fd_sink_mono fd data sinks out :
  apply_fd_sink f fd data sinks out ⊑ᵣ apply_fd_sink g fd data sinks out.
Proof. unfold apply_fd_sink. refine_all. Qed.
#[local] Hint Resolve apply_fd_sink_mono : refines.

Lemma apply_output_sinks_mono out sinks :
  apply_output_sinks f out sinks ⊑ᵣ apply_output_sinks g out sinks.
Proof. unfold apply_output_sinks. refine_all. Qed.
#[local] Hint Resolve apply_output_sinks_mono : refines.

Lemma run_rc_script_mono path args input :
  run_rc_script f path args input ⊑ᵣ run_rc_script g path args input.
Proof. unfold run_rc_script. refine_all. Qed.
#[local] Hint Resolve run_rc_script_mono : refines.

Lemma run_path_command_mono ws input : run_path_command f ws input ⊑ᵣ run_path_command g ws input.
Proof. unfold run_path_command. refine_all. Qed.

Lemma call_function_mono body args input :
  call_function f body args input ⊑ᵣ call_function g body args input.
Proof. unfold call_function. refine_all. Qed.
#[local] Hint Resolve run_path_command_mono call_function_mono : refines.

Lemma run_note_function_mono name : run_note_function f name ⊑ᵣ run_note_function g name.
Proof. unfold run_note_function. refine_all. Qed.
#[local] Hint Resolve run_note_function_mono : refines.

Lemma run_exec_mono args input : run_exec f args input ⊑ᵣ run_exec g args input.
Proof. unfold run_exec. refine_all. Qed.
Lemma run_dot_mono args : run_dot f args ⊑ᵣ run_dot g args.
Proof. unfold run_dot. refine_all. Qed.
Lemma run_exit_mono args : run_exit f args ⊑ᵣ run_exit g args.
Proof. unfold run_exit. refine_all. Qed.
#[local] Hint Resolve run_exec_mono run_dot_mono run_exit_mono : refines.

Lemma run_builtin_with_mono a1 a2 ws input :
  (∀ ws input, a1 ws input ⊑ᵣ a2 ws input) →
  run_builtin_with f a1 ws input ⊑ᵣ run_builtin_with g a2 ws input.
Proof.
  intros Ha. destruct ws as [|name args]; [apply refines_refl|].
  cbn [run_builtin_with]. cbv zeta. unfold run_builtin_command.
  repeat (case_decide; [refine_all|]). refine_all.
Qed.

Lemma run_builtin_mono ws input : run_builtin f ws input ⊑ᵣ run_builtin g ws input.
Proof.
  apply run_builtin_with_mono. intros. apply run_builtin_with_mono. intros. apply refines_refl.
Qed.
#[local] Hint Resolve run_builtin_mono : refines.

Lemma run_words_mono ws input : run_words f ws input ⊑ᵣ run_words g ws input.
Proof. unfold run_words. refine_all. Qed.
#[local] Hint Resolve run_words_mono : refines.

Lemma eval_simple_mono simple input : eval_simple f simple input ⊑ᵣ eval_simple g simple input.
Proof. unfold eval_simple. refine_all. Qed.

Lemma for_loop_mono var body values out :
  for_loop f var body values out ⊑ᵣ for_loop g var body values out.
Proof. revert out. induction values as [|v vs IH]; intros out; cbn; refine_all. Qed.

Lemma while_loop_mono guard c body out :
  while_loop f guard c body out ⊑ᵣ while_loop g guard c body out.
Proof. revert out. induction guard as [|guard IH]; intros out; cbn; refine_all. Qed.

Lemma switch_cases_mono value cases input :
  switch_cases f value cases input ⊑ᵣ switch_cases g value cases input.
Proof. induction cases as [|[ps body] cases IH]; cbn; refine_all. Qed.
#[local] Hint Resolve eval_simple_mono for_loop_mono while_loop_mono switch_cases_mono : refines.

Lemma eval_pipe_mono l r spec input : eval_pipe f l r spec input ⊑ᵣ eval_pipe g l r spec input.
Proof. unfold eval_pipe. refine_all. Qed.
Lemma eval_background_mono inner input :
  eval_background f inner input ⊑ᵣ eval_background g inner input.
Proof. unfold eval_background. refine_all. Qed.
#[local] Hint Resolve eval_pipe_mono eval_background_mono : refines.

Lemma eval_node_body_mono node input : eval_node_body f node input ⊑ᵣ eval_node_body g node input.
Proof. destruct node; cbn [eval_node_body]; refine_all. Qed.
End Monotone.

Section Fuel.
Context {H : Type} `{!RcHost H}.

Lemma eval_node_mono fuel k node input :
  eval_node (H:=H) fuel node input ⊑ᵣ eval_node (fuel + k) node input.
Proof.
  revert node input. induction fuel as [|fuel IH]; intros node input; cbn;
    [apply refines_no_fuel|]. by apply eval_node_body_mono.
Qed.
End Fuel.

(** ** Relations that evaluation respects

    A preorder on sessions that ignores the host, the variables, the functions,
    the arguments and the notes, allows jobs to be taken away, and allows a
    background command to add its job, holds between the sessions before and after
    every evaluation, however it ends. *)

Definition respects {E T A} (R : T → T → Prop) (m : Eff E T A) : Prop :=
  ∀ s, R s (snd (m s)).

Class SessionRel {H : Type} (R : relation (RcSession H)) := {
  rel_preorder :: PreOrder R;
  rel_host h s : R s (Sess.set_host h s);
  rel_vars v s : R s (Sess.set_vars v s);
  rel_functions v s : R s (Sess.set_functions v s);
  rel_status v s : R s (Sess.set_last_status v s);
  rel_argv0 v s : R s (Sess.set_argv0 v s);
  rel_argv v s : R s (Sess.set_argv v s);
  rel_notes v s : R s (Sess.set_notes v s);
  rel_jobs jobs s : jobs `sublist_of` s_jobs s → R s (Sess.set_jobs jobs s);
  rel_background s s' job :
    job_id job = s_next_job_id s →
    R (Sess.set_next_job_id (s_next_job_id s + 1)%Z s) s' →
    R s (Sess.set_jobs (s_jobs s' ++ [job]) s');
  rel_take_id s n : (s_next_job_id s ≤ n)%Z → R s (Sess.set_next_job_id n s)
}.

Create HintDb respects discriminated.

Section Respects.
Context {H : Type} {R : relation (RcSession H)} `{!SessionRel R}.

Abbreviation resp m := (respects (E:=RcError) R m).

Lemma respects_same {A} (m : S H A) : (∀ s, snd (m s) = s) → resp m.
Proof. intros Hm s. by rewrite Hm. Qed.

Lemma respects_bind {A B} (m : S H A) (k : A → S H B) :
  resp m → (∀ a, resp (k a)) → resp (m ≫= k).
Proof.
  intros Hm Hk s. unfold mbind, eff_bind. specialize (Hm s).
  destruct (m s) as [[a|e| |] s']; cbn in *; try done. etransitivity; [done|apply Hk].
Qed.

Lemma respects_attempt {A} (m : S H A) : resp m → resp (attempt m).
Proof. intros Hm s. specialize (Hm s). unfold attempt. by destruct (m s) as [[] ?]. Qed.

Lemma respects_ret {A} (a : A) : resp (mret a).
Proof. by apply respects_same. Qed.
Lemma respects_throw {A} e : respects (E:=RcError) (A:=A) R (throw e).
Proof. by apply respects_same. Qed.
Lemma respects_no_fuel {A} : respects (E:=RcError) (A:=A) R no_fuel.
Proof. by apply respects_same. Qed.
Lemma respects_gets {A} (g : RcSession H → A) : respects (E:=RcError) R (gets g).
Proof. by apply respects_same. Qed.
Lemma respects_get : respects (E:=RcError) R get.
Proof. by apply respects_same. Qed.
Lemma respects_lift {A} (r : RcResult A) : resp (lift r).
Proof. by apply respects_same. Qed.
Lemma respects_ok_or {A} (o : option A) (e : RcError) : resp (ok_or o e).
Proof. by destruct o; apply respects_same. Qed.
Lemma respects_modify (g : RcSession H → RcSession H) :
  (∀ s, R s (g s)) → respects (E:=RcError) R (modify g).
Proof. done. Qed.

Lemma respects_ok {A} (m : S H A) : resp m → resp (ok m).
Proof.
  intros. apply respects_bind; [by apply respects_attempt|]. intros. apply respects_ret.
Qed.

Lemma respects_ok_flatten {A} (m : S H (option A)) : resp m → resp (ok_flatten m).
Proof. intros. apply respects_bind; [by apply respects_ok|]. intros. apply respects_ret. Qed.

Lemma respects_try_opt {A B} (m : S H (option A)) (k : A → S H (option B)) :
  resp m → (∀ a, resp (k a)) → resp (try_opt m k).
Proof. intros. apply respects_bind; [done|]. intros [a|]; [done|apply respects_ret]. Qed.

Lemma respects_fold {A B} (f : B → A → S H B) b l :
  (∀ b x, resp (f b x)) → resp (fold_eff f b l).
Proof.
  intros Hf. revert b. induction l as [|x l IH]; intros b; cbn; [apply respects_ret|].
  by apply respects_bind.
Qed.

Lemma respects_for_each {A} (f : A → S H unit) l : (∀ x, resp (f x)) → resp (for_each f l).
Proof.
  intros Hf. induction l as [|x l IH]; cbn; [apply respects_ret|]. by apply respects_bind.
Qed.

Lemma respects_map {A B} (f : A → S H B) l : (∀ x, resp (f x)) → resp (map_eff f l).
Proof.
  intros Hf. induction l as [|x l IH]; cbn; [apply respects_ret|].
  apply respects_bind; [done|]. intros y. apply respects_bind; [done|]. intros. apply respects_ret.
Qed.

Lemma respects_host {A} (m : Eff RcError H A) : resp (host m).
Proof.
  intros s. unfold host, zoom. destruct (m (s_host s)) as [r h]. apply rel_host.
Qed.

Lemma respects_first_in_path {A} (run : string → S H (option A)) command dirs :
  (∀ c, resp (run c)) → resp (first_in_path run command dirs).
Proof.
  intros Hr. induction dirs as [|d dirs IH]; cbn; [apply respects_ret|].
  apply respects_bind; [done|]. intros [a|]; [apply respects_ret|done].
Qed.
End Respects.

#[export] Hint Resolve respects_ret respects_throw respects_no_fuel respects_gets respects_get
  respects_lift respects_ok_or respects_host : respects.

Ltac respect_step :=
  lazymatch goal with
  | |- respects _ (_ ≫= _) => apply respects_bind; [|intros ?]
  | |- respects _ (attempt _) => apply respects_attempt
  | |- respects _ (ok _) => apply respects_ok
  | |- respects _ (ok_flatten _) => apply respects_ok_flatten
  | |- respects _ (try_opt _ _) => apply respects_try_opt; [|intros ?]
  | |- respects _ (fold_eff _ _ _) => apply respects_fold; intros ? ?
  | |- respects _ (map_eff _ _) => apply respects_map; intros ?
  | |- respects _ (for_each _ _) => apply respects_for_each; intros ?
  | |- respects _ (first_in_path _ _ _) => apply respects_first_in_path; intros ?
  | |- respects _ (modify _) => apply respects_modify; intros ?; cbn beta;
      first [apply rel_vars | apply rel_functions | apply rel_status | apply rel_argv0
            | apply rel_argv | apply rel_notes]
  | |- respects _ (match ?x with _ => _ end) => destruct x
  | |- respects _ _ => solve [auto with respects nocore]
  end.
Ltac respect_all := repeat (cbv zeta; respect_step).

Section Respect.
Context {H : Type} `{!RcHost H} {R : relation (RcSession H)} `{!SessionRel R}.
Abbreviation resp m := (respects (E:=RcError) R m).

Lemma insert_var_respects name vs : resp (insert_var name vs).
Proof. unfold insert_var. respect_all. Qed.
Lemma restore_respects name old : resp (restore name old).
Proof. unfold restore. respect_all. Qed.
Lemma publish_respects : resp publish.
Proof. unfold publish, publish_environment. respect_all. Qed.
Lemma current_dir_respects : resp current_dir.
Proof. unfold current_dir. respect_all. Qed.
#[local] Hint Resolve insert_var_respects restore_respects publish_respects
  current_dir_respects : respects.

Lemma refresh_arg_vars_respects : resp refresh_arg_vars.
Proof. unfold refresh_arg_vars. respect_all. Qed.
Lemma import_entry_respects e : resp (import_entry e).
Proof. unfold import_entry. respect_all. Qed.
#[local] Hint Resolve refresh_arg_vars_respects import_entry_respects : respects.

Lemma import_without_publish_respects env : resp (import_environment_without_publish env).
Proof. unfold import_environment_without_publish. respect_all. Qed.
#[local] Hint Resolve import_without_publish_respects : respects.

Lemma import_host_respects : resp import_host_environment.
Proof. unfold import_host_environment, import_host_environment_result. respect_all. Qed.
Lemma replace_environment_respects env : resp (replace_environment_without_publish env).
Proof. unfold replace_environment_without_publish. respect_all. Qed.
Lemma set_args_respects args : resp (set_args args).
Proof. unfold set_args. respect_all. Qed.
Lemma set_argv0_respects a : resp (set_argv0 a).
Proof. unfold set_argv0. respect_all. Qed.
Lemma finish_graph_respects g st : resp (finish_process_graph g st).
Proof. unfold finish_process_graph. respect_all. Qed.
Lemma stage_spec_respects n : resp (stage_spec n).
Proof. unfold stage_spec. respect_all. Qed.
#[local] Hint Resolve import_host_respects replace_environment_respects set_args_respects
  set_argv0_respects finish_graph_respects stage_spec_respects : respects.

Lemma prepare_graphs_respects :
  (∀ l r a b, resp (prepare_pipeline_graph l r a b)) ∧
  (∀ id n, resp (prepare_background_graph id n)) ∧
  (∀ k n fd, resp (prepare_process_substitution_graph k n fd)).
Proof.
  unfold prepare_pipeline_graph, prepare_background_graph, prepare_process_substitution_graph,
    prepare_graph. split; [|split]; intros; respect_all.
Qed.

Lemma resolve_external_respects ws : resp (resolve_external_argv ws).
Proof. unfold resolve_external_argv, host_executable_argv. respect_all. Qed.

Lemma glob_inner_respects parts base prefix out : resp (glob_inner parts base prefix out).
Proof.
  revert base prefix out. induction parts as [|p ps IH]; intros base prefix out;
    cbn [glob_inner]; respect_all.
Qed.
#[local] Hint Resolve resolve_external_respects glob_inner_respects : respects.

Lemma expand_glob_respects v : resp (expand_glob_or_literal v).
Proof. unfold expand_glob_or_literal, glob. respect_all. Qed.

Lemma wait_jobs_respects jobs : resp (wait_jobs jobs).
Proof. unfold wait_jobs, wait_job. respect_all. Qed.
#[local] Hint Resolve expand_glob_respects wait_jobs_respects : respects.

Lemma remove_job_sublist id jobs j rest :
  remove_job id jobs = Some (j, rest) → rest `sublist_of` jobs.
Proof.
  revert rest. induction jobs as [|x jobs IH]; intros rest; cbn; [done|].
  case_decide; [intros [= <- <-]; by constructor|].
  destruct (remove_job id jobs) as [[j' r]|]; [|done]. intros [= <- <-].
  constructor. by apply IH.
Qed.

Lemma run_wait_respects args : resp (run_wait args).
Proof.
  assert (Hwait : ∀ o, resp (wait_for o)).
  { intros o. unfold wait_for. respect_step; [respect_all|]. case_match; [respect_all|].
    intros s. unfold mbind at 1, eff_bind, gets. cbn [fst snd].
    assert (Hset : ∀ jobs m, jobs `sublist_of` s_jobs s → resp m →
      R s (snd ((modify (Sess.set_jobs jobs) ;; m : S H RcOutput) s))).
    { intros jobs m Hsub Hm. etransitivity; [by apply (rel_jobs jobs)|]. apply Hm. }
    destruct o as [id|]; [|apply Hset; [apply sublist_nil_l|respect_all]].
    destruct (remove_job id (s_jobs s)) as [[job rest]|] eqn:E; [|reflexivity].
    apply Hset; [by eapply remove_job_sublist|respect_all]. }
  unfold run_wait. destruct args as [|? [|? ?]]; respect_all.
Qed.

Lemma run_rfork_respects args : resp (run_rfork args).
Proof. unfold run_rfork. respect_all. Qed.
Lemma run_shift_respects args : resp (run_shift args).
Proof. unfold run_shift. respect_all. Qed.
Lemma run_cd_respects args : resp (run_cd args).
Proof. unfold run_cd. respect_all. Qed.
Lemma run_test_respects args : resp (run_test args).
Proof. unfold run_test, host_test. respect_all. Qed.
Lemma record_status_respects st : resp (record_status st).
Proof. unfold record_status. respect_all. Qed.
Lemma run_host_command_respects name args input : resp (run_host_command name args input).
Proof. unfold run_host_command. respect_all. Qed.
Lemma assign_temporarily_respects vs saved : resp (assign_temporarily vs saved).
Proof. revert saved. induction vs as [|[n v] vs IH]; intros saved; cbn; respect_all. Qed.
#[local] Hint Resolve run_wait_respects run_rfork_respects run_shift_respects run_cd_respects
  run_test_respects record_status_respects run_host_command_respects
  assign_temporarily_respects : respects.

Section Knot.
Variable f : Node → string → S H RcOutput.
Hypothesis f_respects : ∀ node input, resp (f node input).
#[local] Hint Resolve f_respects : respects.

Lemma eval_nodes_respects nodes input : resp (eval_nodes f nodes input).
Proof.
  unfold eval_nodes. generalize Out.default. revert input.
  induction nodes as [|n nodes IH]; intros input out; cbn; respect_all.
Qed.
#[local] Hint Resolve eval_nodes_respects : respects.

Lemma eval_script_respects sc input : resp (eval_script f sc input).
Proof. unfold eval_script. respect_all. Qed.
#[local] Hint Resolve eval_script_respects : respects.

Lemma eval_source_respects source : resp (eval_source f source).
Proof. unfold eval_source. respect_all. Qed.
#[local] Hint Resolve eval_source_respects : respects.

Lemma expand_part_respects raw : resp (expand_part f raw).
Proof.
  unfold expand_part. generalize (length (chars raw)) at 1 as fuel.
  generalize (length (chars raw)) as len. generalize [""]. generalize (chars raw) as rest.
  intros rest acc len fuel. revert rest acc.
  induction fuel as [|fuel IH]; intros [|c r] acc; cbn; respect_all.
Qed.
#[local] Hint Resolve expand_part_respects : respects.

Lemma expand_raw_word_respects raw : resp (expand_raw_word f raw).
Proof. unfold expand_raw_word. respect_all. Qed.
#[local] Hint Resolve expand_raw_word_respects : respects.

Lemma expand_word_respects w : resp (expand_word f w).
Proof. unfold expand_word. respect_all. Qed.
#[local] Hint Resolve expand_word_respects : respects.

Lemma expand_words_respects ws : resp (expand_words f ws).
Proof. unfold expand_words. respect_all. Qed.
#[local] Hint Resolve expand_words_respects : respects.

Lemma assignment_value_respects a : resp (assignment_value f a).
Proof. unfold assignment_value. respect_all. Qed.
Lemma redirect_path_respects r : resp (redirect_path f r).
Proof. unfold redirect_path. respect_all. Qed.
Lemma redirect_here_text_respects r : resp (redirect_here_text f r).
Proof. unfold redirect_here_text. respect_all. Qed.
#[local] Hint Resolve assignment_value_respects redirect_path_respects
  redirect_here_text_respects : respects.

Lemma stage_redirects_respects acc rs : resp (stage_redirects f acc rs).
Proof.
  revert acc. induction rs as [|r rs IH]; intros [stdin bs]; cbn [stage_redirects]; [respect_all|].
  apply respects_try_opt; [|done]. unfold stage_redirect. respect_all.
Qed.
#[local] Hint Resolve stage_redirects_respects : respects.

Lemma executable_stage_respects node stdin bs : resp (executable_stage f node stdin bs).
Proof. unfold executable_stage. respect_all. Qed.
#[local] Hint Resolve executable_stage_respects : respects.

Lemma executable_stages_respects index edges input nodes :
  resp (executable_stages f index edges input nodes).
Proof. revert index. induction nodes as [|n nodes IH]; intros index; cbn; respect_all. Qed.
#[local] Hint Resolve executable_stages_respects : respects.

Lemma pipeline_graph_respects l r from to input :
  resp (try_execute_pipeline_graph f l r from to input).
Proof. unfold try_execute_pipeline_graph. respect_all. Qed.
Lemma background_graph_respects id node input : resp (try_start_background_graph f id node input).
Proof. unfold try_start_background_graph. respect_all. Qed.
Lemma substitution_graph_respects k node input fd :
  resp (try_execute_process_substitution_graph f k node input fd).
Proof. unfold try_execute_process_substitution_graph. respect_all. Qed.
#[local] Hint Resolve pipeline_graph_respects background_graph_respects
  substitution_graph_respects : respects.

Lemma prepare_redirects_respects rs acc : resp (prepare_redirects f rs acc).
Proof.
  destruct prepare_graphs_respects as (? & ? & ?).
  revert acc. induction rs as [|r rs IH]; intros [input sinks]; cbn [prepare_redirects];
    [respect_all|].
  apply respects_bind; [|done]. unfold prepare_redirect. respect_all.
Qed.
#[local] Hint Resolve prepare_redirects_respects : respects.

Lemma apply_output_sinks_respects out sinks : resp (apply_output_sinks f out sinks).
Proof.
  assert (∀ fd data o, resp (apply_fd_sink f fd data sinks o)).
  { intros. unfold apply_fd_sink, sink_write. respect_all. }
  unfold apply_output_sinks. respect_all.
Qed.

Lemma run_rc_script_respects path args input : resp (run_rc_script f path args input).
Proof. unfold run_rc_script. respect_all. Qed.
#[local] Hint Resolve apply_output_sinks_respects run_rc_script_respects : respects.

Lemma run_path_command_respects ws input : resp (run_path_command f ws input).
Proof. unfold run_path_command. respect_all. Qed.
Lemma call_function_respects body args input : resp (call_function f body args input).
Proof. unfold call_function. respect_all. Qed.
#[local] Hint Resolve run_path_command_respects call_function_respects : respects.

Lemma run_note_function_respects name : resp (run_note_function f name).
Proof. unfold run_note_function. respect_all. Qed.
#[local] Hint Resolve run_note_function_respects : respects.

Lemma run_builtin_with_respects again ws input :
  (∀ ws input, resp (again ws input)) → resp (run_builtin_with f again ws input).
Proof.
  intros Ha. destruct ws as [|name args]; [respect_all|].
  cbn [run_builtin_with]. cbv zeta. unfold run_builtin_command, run_exec, run_dot, run_exit.
  repeat (case_decide; [respect_all|]). respect_all.
Qed.

Lemma run_builtin_respects ws input : resp (run_builtin f ws input).
Proof.
  apply run_builtin_with_respects. intros. apply run_builtin_with_respects. intros.
  apply respects_no_fuel.
Qed.
#[local] Hint Resolve run_builtin_respects : respects.

Lemma eval_simple_respects simple input : resp (eval_simple f simple input).
Proof. unfold eval_simple, run_words. respect_all. Qed.

Lemma for_loop_respects var body values out : resp (for_loop f var body values out).
Proof. revert out. induction values as [|v vs IH]; intros out; cbn; respect_all. Qed.
Lemma while_loop_respects guard c body out : resp (while_loop f guard c body out).
Proof. revert out. induction guard as [|guard IH]; intros out; cbn; respect_all. Qed.
Lemma switch_cases_respects value cases input : resp (switch_cases f value cases input).
Proof. induction cases as [|[ps body] cases IH]; cbn; respect_all. Qed.
#[local] Hint Resolve eval_simple_respects for_loop_respects while_loop_respects
  switch_cases_respects : respects.

Lemma eval_pipe_respects l r spec input : resp (eval_pipe f l r spec input).
Proof.
  destruct prepare_graphs_respects as (? & ? & ?). unfold eval_pipe. respect_all.
Qed.

(** A background command, between the session that takes its identifier and the
    one that records its job. *)
Lemma eval_background_respects inner input : resp (eval_background f inner input).
Proof.
  destruct prepare_graphs_respects as (_ & Hgraph & _).
  intros s. unfold eval_background, take_job_id. unfold mbind, eff_bind, gets. cbn.
  destruct (s_next_job_id s =? U32_MAX)%Z; [cbn; reflexivity|]. cbn.
  set (id := s_next_job_id s). set (s1 := Sess.set_next_job_id (id + 1)%Z s).
  assert (Hs1 : R s s1) by (apply rel_take_id; unfold id; lia).
  pose proof (background_graph_respects id inner input s1) as H1.
  destruct (try_start_background_graph f id inner input s1) as [[[]|e| |] s2]; cbn in *;
    try (by etransitivity).
  pose proof (Hgraph id inner s2) as H2.
  destruct (prepare_background_graph id inner s2) as [[graph|e| |] s3]; cbn in *;
    try (do 2 (etransitivity; [done|]); done).
  pose proof (f_respects inner input s3) as H3.
  destruct (f inner input s3) as [[out|e| |] s4]; cbn in *;
    try (do 3 (etransitivity; [done|]); done).
  pose proof (finish_graph_respects graph [o_status out] s4) as H4.
  destruct (finish_process_graph graph [o_status out] s4) as [[[]|e| |] s5]; cbn in *;
    try (do 4 (etransitivity; [done|]); done).
  apply (rel_background s s5 (mkJob id _ _ _ _)); [done|].
  do 3 (etransitivity; [done|]). done.
Qed.
#[local] Hint Resolve eval_pipe_respects eval_background_respects : respects.

Lemma eval_node_body_respects node input : resp (eval_node_body f node input).
Proof. destruct node; cbn [eval_node_body]; respect_all. Qed.
End Knot.

Lemma eval_node_respects fuel node input : resp (eval_node fuel node input).
Proof.
  revert node input. induction fuel as [|fuel IH]; intros node input; cbn;
    [apply respects_no_fuel|]. by apply eval_node_body_respects.
Qed.

Lemma run_source_respects fuel source : resp (run_source fuel source).
Proof. apply eval_source_respects, eval_node_respects. Qed.
End Respect.
