(* ===== verification/RcProps.v ===== *)
(** * rc: properties of the evaluator, and what it does otherwise than rc

    The theorems about sessions, words and statuses, and, at the end, scripts on
    which the evaluator differs from what its commands promise. *)

From stdpp Require Import base list numbers option strings pretty sorting.
From Stdlib Require Import ZArith Lia Ascii.
From S2P Require Import Prelude Strs BTree RcText RcSyntax RcLex RcParse RcPattern RcSession RcEval RcEvalFacts.

(** ** Vocabulary *)

Definition job_ids {H} (s : RcSession H) : list Z := job_id <$> s_jobs s.

(** The identifiers of the jobs are all different, and below the next one. *)
Definition jobs_wf {H} (s : RcSession H) : Prop :=
  NoDup (job_ids s) ∧ Forall (λ id, (id < s_next_job_id s)%Z) (job_ids s).

(** Between two sessions of an evaluation: the identifiers only grow, and a job
    that is new has one that was not given out before. *)
Definition jobs_step {H} (s s' : RcSession H) : Prop :=
  (s_next_job_id s ≤ s_next_job_id s')%Z ∧
  (jobs_wf s → jobs_wf s') ∧
  ∀ id, id ∈ job_ids s' → id ∈ job_ids s ∨ (s_next_job_id s ≤ id)%Z.

(** A literal of rc: the text between quotes, its own quotes doubled. *)
Fixpoint double_quotes (cs : list char) : list char :=
  match cs with
  | [] => []
  | c :: r => if isc QUOTE c then ch QUOTE :: ch QUOTE :: double_quotes r
              else c :: double_quotes r
  end.

Definition quote_chars (cs : list char) : list char :=
  ch QUOTE :: double_quotes cs ++ [ch QUOTE].

(** A variable the environment can hold: at least one value, each of them text
    without NUL, under a name that is not that of a function. *)
Definition exportable (name : string) (values : list string) : Prop :=
  strip_prefix "fn#" name = None ∧ values ≠ [] ∧
  Forall (λ v, str_valid v ∧ x00 ∉ bytes_of v) values.

(** ** Jobs *)

Lemma jobs_step_same {H} (s s' : RcSession H) :
  s_jobs s' = s_jobs s → s_next_job_id s' = s_next_job_id s → jobs_step s s'.
Proof.
  intros Hj Hn. unfold jobs_step, jobs_wf, job_ids. rewrite Hj, Hn.
  split; [lia|]. split; [done|]. intros id Hid. by left.
Qed.

#[global] Instance jobs_step_preorder {H} : PreOrder (@jobs_step H).
Proof.
  split; [intros s; by apply jobs_step_same|].
  intros s1 s2 s3 (Hn1 & Hw1 & Hid1) (Hn2 & Hw2 & Hid2).
  split; [lia|]. split; [by auto|]. intros id [Hid|Hid]%Hid2; [by apply Hid1|right; lia].
Qed.

Lemma jobs_step_sublist {H} (s : RcSession H) jobs :
  jobs `sublist_of` s_jobs s → jobs_step s (Sess.set_jobs jobs s).
Proof.
  intros Hsub. assert (Hids : (job_id <$> jobs) `sublist_of` job_ids s).
  { by apply fmap_sublist. }
  assert (Hin : ∀ id, id ∈ job_id <$> jobs → id ∈ job_ids s).
  { intros id Hid. by eapply elem_of_submseteq, sublist_submseteq. }
  split; [cbn; lia|]. split.
  - intros [Hnd Hlt]. split; cbn.
    + by eapply sublist_NoDup.
    + rewrite Forall_forall in *. auto.
  - intros id Hid. left. auto.
Qed.

Lemma jobs_step_background {H} (s s' : RcSession H) job :
  job_id job = s_next_job_id s →
  jobs_step (Sess.set_next_job_id (s_next_job_id s + 1)%Z s) s' →
  jobs_step s (Sess.set_jobs (s_jobs s' ++ [job]) s').
Proof.
  intros Hjob (Hn & Hwf & Hids). cbn in Hn.
  assert (Hnew : job_ids (Sess.set_jobs (s_jobs s' ++ [job]) s') = job_ids s' ++ [job_id job])
    by (unfold job_ids; cbn; by rewrite fmap_app).
  unfold jobs_step, jobs_wf. rewrite Hnew, Hjob. cbn [s_next_job_id Sess.set_jobs].
  split; [lia|]. split.
  - intros [Hnd Hlt]. destruct Hwf as [Hnd' Hlt'].
    { split; [done|]. eapply Forall_impl; [exact Hlt|]. cbn. lia. }
    split; [|apply Forall_app; split; [done|]; constructor; [lia|done]].
    apply NoDup_app. split; [done|]. split; [|by apply NoDup_singleton].
    intros id Hid Heq%list_elem_of_singleton. subst id.
    destruct (Hids _ Hid) as [Hin|Hge]; [|cbn in Hge; lia].
    unfold job_ids in Hin, Hlt. cbn in Hin. rewrite Forall_forall in Hlt.
    specialize (Hlt _ Hin). lia.
  - intros id [Hid|Hid%list_elem_of_singleton]%elem_of_app.
    + destruct (Hids _ Hid) as [Hin|Hge]; [by left|]. right. cbn in Hge. lia.
    + right. lia.
Qed.

#[global] Instance jobs_step_rel {H} : SessionRel (@jobs_step H).
Proof.
  split; try apply _; try (intros; by apply jobs_step_same).
  - intros. by apply jobs_step_sublist.
  - intros. by apply jobs_step_background.
  - intros s n Hn. split; [done|]. split.
    + intros [Hnd Hlt]. split; [done|]. eapply Forall_impl; [exact Hlt|]. cbn. lia.
    + intros id Hid. by left.
Qed.

(** ** Quoting *)

Lemma caret_loop_quoted current cs rest :
  next_is QUOTE rest = false →
  caret_loop true current (double_quotes cs ++ ch QUOTE :: rest)
  = caret_loop false (current ++ double_quotes cs ++ [ch QUOTE]) rest.
Proof.
  intros Hrest. revert current. induction cs as [|c cs IH]; intros current.
  - cbn [double_quotes app caret_loop]. rewrite isc_refl.
    destruct rest as [|c2 r2]; [done|]. cbn in Hrest. by rewrite Hrest.
  - cbn [double_quotes]. destruct (isc QUOTE c) eqn:Hc; cbn [app caret_loop].
    + rewrite isc_refl, IH, <- app_assoc. done.
    + rewrite Hc, IH, <- app_assoc. done.
Qed.

Lemma quoted_loop_quoted out cs rest :
  next_is QUOTE rest = false →
  quoted_loop out (double_quotes cs ++ ch QUOTE :: rest) = Ok (out ++ cs, rest).
Proof.
  intros Hrest. revert out. induction cs as [|c cs IH]; intros out.
  - cbn [double_quotes app quoted_loop]. rewrite isc_refl, app_nil_r.
    destruct rest as [|c2 r2]; [done|]. cbn in Hrest. by rewrite Hrest.
  - cbn [double_quotes]. destruct (isc QUOTE c) eqn:Hc; cbn [app quoted_loop].
    + apply isc_ch in Hc as ->. rewrite isc_refl, IH, <- app_assoc. done.
    + rewrite Hc, IH, <- app_assoc. done.
Qed.

Lemma scalar_quote : scalar (ch QUOTE).
Proof. left. done. Qed.

Lemma scalar_quote_chars cs : Forall scalar cs → Forall scalar (quote_chars cs).
Proof.
  intros Hcs. apply Forall_cons_2; [apply scalar_quote|]. apply Forall_app. split.
  - induction Hcs as [|c cs Hc _ IH]; cbn; [done|].
    destruct (isc QUOTE c); repeat (apply Forall_cons_2; [by auto using scalar_quote|]); done.
  - apply Forall_cons_2; [apply scalar_quote|done].
Qed.

Lemma expand_quoted {H} `{!RcHost H} (f : Node → string → S H RcOutput) cs s :
  Forall scalar cs →
  expand_raw_word f (of_chars (quote_chars cs)) s = (Ok [of_chars cs], s).
Proof.
  intros Hcs. pose proof (scalar_quote_chars cs Hcs) as Hq.
  unfold expand_raw_word, split_caret_parts. rewrite chars_of_chars by done.
  assert (Hcaret : caret_loop false [] (quote_chars cs) = [quote_chars cs]).
  { unfold quote_chars. cbn [caret_loop]. rewrite isc_refl. by rewrite (caret_loop_quoted _ cs []). }
  rewrite Hcaret. cbn [fmap list_fmap fold_eff].
  unfold expand_part. rewrite chars_of_chars by done.
  set (len := length (quote_chars cs)). unfold quote_chars.
  assert (Hlen : len = Datatypes.S (length (double_quotes cs ++ [ch QUOTE]))) by done.
  rewrite Hlen at 1. cbn [expand_part_loop]. rewrite isc_refl.
  unfold read_quoted_literal. cbn [tail]. rewrite (quoted_loop_quoted [] cs []) by done.
  cbn [app]. unfold mbind, outcome_bind, eff_bind, lift. cbn [concat_values mbind list_bind].
  replace (length (double_quotes cs ++ [ch QUOTE]))
    with (Datatypes.S (length (double_quotes cs))) by (rewrite length_app; cbn; lia).
  reflexivity.
Qed.

(** ** The environment *)

Lemma split_nul_bytes_app current bs rest :
  x00 ∉ bs → split_nul_bytes current (bs ++ x00 :: rest)
             = (current ++ bs) :: split_nul_bytes [] rest.
Proof.
  revert current. induction bs as [|b bs IH]; intros current Hn; cbn.
  - by rewrite app_nil_r.
  - apply not_elem_of_cons in Hn as [Hb Hn]. rewrite decide_False by congruence.
    rewrite IH by done. by rewrite <- app_assoc.
Qed.

Lemma split_nul_none current bs : x00 ∉ bs → split_nul_bytes current bs = [current ++ bs].
Proof.
  revert current. induction bs as [|b bs IH]; intros current Hn; cbn.
  - by rewrite app_nil_r.
  - apply not_elem_of_cons in Hn as [Hb Hn]. rewrite decide_False by congruence.
    rewrite IH by done. by rewrite <- app_assoc.
Qed.

Lemma split_nul_join values : values ≠ [] → Forall (λ v, x00 ∉ bytes_of v) values →
  split_nul_bytes [] (bytes_of (str_join NUL values)) = bytes_of <$> values.
Proof.
  induction values as [|v [|w vs] IH]; intros Hne Hvs; [done| |].
  - inversion Hvs; subst. by apply split_nul_none.
  - inversion Hvs; subst. rewrite join_cons by done. rewrite !bytes_of_app.
    change (bytes_of NUL ++ ?r) with (x00 :: r). rewrite split_nul_bytes_app by done.
    by rewrite IH.
Qed.

Lemma data_values_join name values : exportable name values →
  data_values (bytes_of (str_join NUL values)) = values.
Proof.
  intros (_ & Hne & Hvs). unfold data_values. rewrite split_nul_join; [|done|].
  - rewrite <- list_fmap_compose. rewrite <- (list_fmap_id values) at 2.
    apply list_fmap_ext. intros i v Hv. cbn. apply from_utf8_lossy_valid.
    rewrite Forall_lookup in Hvs. by destruct (Hvs _ _ Hv).
  - eapply Forall_impl; [exact Hvs|]. by intros v [_ ?].
Qed.

Lemma export_vars_get vars env name : NoDup (bt_keys vars) →
  bt_get name (export_vars vars env) =
    match bt_get name vars with
    | Some values => Some (bytes_of (str_join NUL values))
    | None => bt_get name env
    end.
Proof.
  unfold export_vars. revert env. induction vars as [|[n vs] vars IH]; intros env Hnd; [done|].
  cbn in Hnd. apply NoDup_cons in Hnd as [Hn Hnd]. cbn [foldl]. rewrite IH by done. cbn [bt_get].
  case_decide; subst.
  - rewrite (proj2 (bt_get_None n vars)) by done. by rewrite bt_get_insert_eq.
  - destruct (bt_get name vars); [done|]. by rewrite bt_get_insert_ne.
Qed.

Lemma export_vars_wf vars env : bt_wf env → bt_wf (export_vars vars env).
Proof.
  unfold export_vars. revert env. induction vars as [|[n vs] vars IH]; intros env Hwf; [done|].
  cbn. apply IH. by apply bt_insert_wf.
Qed.

(** Importing entries that are all variables. *)
Lemma import_entries {H} `{!RcHost H} (env : env_data) (t : RcSession H) :
  NoDup (bt_keys env) →
  (∀ name data, bt_get name env = Some data → strip_prefix "fn#" name = None) →
  ∃ t', for_each import_entry env t = (Ok tt, t') ∧ s_argv t' = s_argv t ∧
    ∀ name, bt_get name (s_vars t') =
      match bt_get name env with
      | Some data => Some (data_values data)
      | None => bt_get name (s_vars t)
      end.
Proof.
  revert t. induction env as [|[n d] env IH]; intros t Hnd Hvar; [by exists t|].
  cbn in Hnd. apply NoDup_cons in Hnd as [Hn Hnd].
  pose proof (Hvar n d) as Hnd'. cbn [bt_get] in Hnd'. rewrite decide_True in Hnd' by done.
  specialize (Hnd' eq_refl). apply bt_get_None in Hn.
  cbn [for_each import_entry]. rewrite Hnd'. unfold mbind, eff_bind. cbn.
  destruct (IH (Sess.set_vars (bt_insert n (data_values d) (s_vars t)) t)) as (t' & Hrun & Ha & Hget).
  { done. }
  { intros name data Hd. apply (Hvar name data). cbn [bt_get]. rewrite decide_False; [done|].
    intros ->. congruence. }
  exists t'. split; [exact Hrun|]. split; [exact Ha|].
  intros name. rewrite Hget. cbn. case_decide; subst.
  - rewrite Hn. by rewrite bt_get_insert_eq.
  - destruct (bt_get name env); [done|]. by rewrite bt_get_insert_ne.
Qed.

(** ** Statuses *)

#[local] Arguments String.append !_ _ / : simpl nomatch.

Lemma contains_split_on c s : contains_char c s = false ∨ 1 < length (split_on c s).
Proof.
  induction s as [|a s IH]; cbn; [by left|]. case_decide.
  - right. cbn. pose proof (split_on_nonempty c s). destruct (split_on c s); [done|cbn; lia].
  - destruct IH as [IH|IH]; [left; by rewrite bool_decide_false|].
    right. destruct (split_on c s); cbn in *; lia.
Qed.

(** The parts of a status, and success as a statement about them. *)
Lemma is_success_parts st :
  Status.is_success st = forallb Status.zero_part (split_on "|" (Status.or_zero st)).
Proof.
  unfold Status.is_success, Status.or_zero.
  destruct (is_empty_str (status_str st)) eqn:He; [done|]. cbn [orb].
  destruct (contains_char "|" (status_str st)) eqn:Hc; cbn [andb].
  - case_bool_decide as H0; [|done]. by rewrite H0 in *.
  - rewrite split_on_no_char by done. cbn [forallb]. unfold Status.zero_part.
    rewrite orb_false_r, andb_true_r. apply bool_decide_ext.
    split; [by right|]. intros [H|H]; [|done]. by rewrite H in He.
Qed.

Lemma split_on_append c l r :
  split_on c (l +:+ String c r) = split_on c l ++ split_on c r.
Proof.
  induction l as [|a l IH]; cbn; [by rewrite decide_True|].
  case_decide; [by rewrite IH|]. rewrite IH.
  pose proof (split_on_nonempty c l). by destruct (split_on c l).
Qed.

(** ** Properties *)

(** A result of the evaluator is the result at every greater depth: once a
    node evaluates within the nesting allowed, to an output, an error or a panic,
    allowing more changes neither what comes out nor the session. *)
Theorem eval_fuel_monotone {H} `{!RcHost H} fuel k node input (s s' : RcSession H) r :
  eval_node fuel node input s = (r, s') → r ≠ NoFuel →
  eval_node (fuel + k) node input s = (r, s').
Proof.
  intros Hr Hne. destruct (eval_node_mono fuel k node input s) as [Hn|Heq].
  - rewrite Hr in Hn. done.
  - by rewrite <- Heq.
Qed.

(** However an evaluation ends, the jobs of the session have different
    identifiers, all of them given out, when that held before: [wait n] names one
    job. *)
Theorem eval_keeps_jobs {H} `{!RcHost H} fuel source (s : RcSession H) :
  jobs_wf s → jobs_wf (snd (run_source fuel source s)).
Proof. intros Hs. by apply (run_source_respects (R:=jobs_step) fuel source s). Qed.

(** The word that quotes a text *)
Definition quoted (cs : list char) : Word := Word_new (of_chars (quote_chars cs)).

Lemma expand_quoted_word {H} `{!RcHost H} (f : Node → string → S H RcOutput) cs s :
  Forall scalar cs → expand_word f (quoted cs) s = (Ok [of_chars cs], s).
Proof.
  intros Hcs. unfold expand_word, attempt. cbn [raw Word_new quoted].
  unfold mbind, eff_bind. by rewrite expand_quoted.
Qed.

(** C11. Quoting protects a text from expansion: the word made of the text between quotes,
    its quotes doubled, expands to that text alone and touches nothing, whatever dollars,
    carets, backquotes and blanks are in it.  Words of a command are matched against the
    files after that, quoted or not: there the words stand for their texts as long as these
    have none of the characters of patterns. *)
Theorem quote_protects {H} `{!RcHost H} (f : Node → string → S H RcOutput) css s :
  Forall (Forall scalar) css →
  (∀ cs, cs ∈ css → expand_word f (quoted cs) s = (Ok [of_chars cs], s)) ∧
  (Forall (λ cs, has_glob_chars (of_chars cs) = false) css →
   expand_words f (quoted <$> css) s = (Ok (of_chars <$> css), s)).
Proof.
  intros Hcss. split.
  { intros cs Hcs. apply expand_quoted_word. by eapply Forall_forall in Hcss. }
  intros Hglob. unfold expand_words. change (of_chars <$> css) with ([] ++ (of_chars <$> css)).
  generalize (@nil string). induction Hcss as [|cs css Hcs _ IH]; intros out.
  { cbn. by rewrite app_nil_r. }
  inversion_clear Hglob as [|? ? Hg Hrest]. cbn [fmap list_fmap fold_eff].
  unfold mbind at 1, eff_bind at 1. unfold mbind at 1, eff_bind at 1.
  rewrite expand_quoted_word by done. cbn [fold_eff]. unfold expand_glob_or_literal.
  rewrite Hg. cbn [negb]. unfold mret, eff_ret, mbind, eff_bind.
  etrans; [exact (IH Hrest (out ++ [of_chars cs]))|]. by rewrite <- app_assoc.
Qed.

(** Exporting the variables of a session and importing the result into any
    session gives every exportable variable its list of values back. *)
Theorem environment_round_trip {H H'} `{!RcHost H, !RcHost H'} (s : RcSession H) (t : RcSession H')
    name values :
  bt_wf (s_vars s) → s_functions s = [] →
  (∀ n vs, bt_get n (s_vars s) = Some vs → strip_prefix "fn#" n = None) →
  bt_get name (s_vars s) = Some values → exportable name values → name ≠ "*" →
  ∃ t', import_environment_without_publish (export_environment s) t = (Ok tt, t') ∧
    bt_get name (s_vars t') = Some values.
Proof.
  intros Hwf Hf Hnames Hget Hexp Hstar. unfold export_environment. rewrite Hf.
  pose proof (bt_keys_nodup _ Hwf) as Hnd. change (export_functions [] ?e) with e.
  assert (Hwf' : bt_wf (export_vars (s_vars s) [])) by (apply export_vars_wf; constructor).
  destruct (import_entries (export_vars (s_vars s) []) t) as (t' & Hrun & _ & Hget').
  { by apply bt_keys_nodup. }
  { intros n d Hd. rewrite export_vars_get in Hd by done.
    destruct (bt_get n (s_vars s)) eqn:E; [by eapply Hnames|done]. }
  eexists. unfold import_environment_without_publish.
  rewrite (eff_bind_Ok _ _ _ _ _ Hrun). split; [reflexivity|]. cbn.
  rewrite bt_get_insert_ne by done. rewrite Hget', export_vars_get by done.
  rewrite Hget. by rewrite (data_values_join name).
Qed.

(** The status of a pipeline is a success exactly when both sides succeeded,
    also when a side is itself the status of a pipeline. *)
Theorem pipeline_success l r :
  Status.is_success (Status.pipeline l r) = Status.is_success l && Status.is_success r.
Proof.
  rewrite !is_success_parts. unfold Status.pipeline.
  assert (Hne : ∀ st, is_empty_str (Status.or_zero st) = false).
  { intros st. unfold Status.or_zero. by destruct (is_empty_str (status_str st)) eqn:E. }
  unfold Status.or_zero at 1. cbn [status_str].
  replace (is_empty_str (Status.or_zero l +:+ "|" +:+ Status.or_zero r)) with false.
  2:{ specialize (Hne l). by destruct (Status.or_zero l). }
  change ("|" +:+ Status.or_zero r) with (String "|" (Status.or_zero r)).
  rewrite split_on_append. apply forallb_app.
Qed.

(** ** Witnesses *)

Definition sample_node : Node :=
  For "i" [Word_new "a"; Word_new "b"]
    (Pipe (Simple (mkSimple [] [Word_new "echo"; Word_new "$i"] []))
       (Simple (mkSimple [] [Word_new "upper"] [])) None).

Definition sample_out : RcOutput :=
  mkOutput (mkStatus "0|0") (lines ["A"; "B"; ""]) "" false.

Lemma eval_fuel_monotone_witness :
  ∃ s', eval_node 3 sample_node "" (session_new Fake.default) = (Ok sample_out, s') ∧
        eval_node (3 + 7) sample_node "" (session_new Fake.default) = (Ok sample_out, s').
Proof.
  eexists. split; [vm_compute; reflexivity|].
  apply eval_fuel_monotone; [vm_compute; reflexivity|discriminate].
Defined.

Lemma eval_keeps_jobs_witness :
  job_ids (snd (run_source 9 "echo a & echo b & wait 1" (session_new Fake.default))) = [2%Z] ∧
  jobs_wf (snd (run_source 9 "echo a & echo b & wait 1" (session_new Fake.default))).
Proof.
  split; [vm_compute; reflexivity|].
  apply eval_keeps_jobs. split; [apply NoDup_nil_2|apply Forall_nil_2].
Defined.

Lemma quote_protects_witness :
  let css := [chars "it's $x^`{y}"; chars "two words"] in
  of_chars (quote_chars (chars "it's $x^`{y}")) = "'it''s $x^`{y}'" ∧
  Forall (Forall scalar) css ∧
  (∀ cs, cs ∈ css → expand_word (eval_node 5) (quoted cs) (session_new Fake.default)
                    = (Ok [of_chars cs], session_new Fake.default)) ∧
  (Forall (λ cs, has_glob_chars (of_chars cs) = false) css →
   expand_words (eval_node 5) (quoted <$> css) (session_new Fake.default)
   = (Ok (of_chars <$> css), session_new Fake.default)).
Proof.
  intros css. assert (Forall (Forall scalar) css) as Hcss
    by (apply (bool_decide_unpack _); vm_compute; exact I).
  split; [vm_compute; reflexivity|]. split; [exact Hcss|]. apply quote_protects. exact Hcss.
Defined.

Definition sample_session : RcSession FakeHost :=
  Sess.set_vars [("x", ["a b"; ""; "c"])] (session_new Fake.default).

Lemma environment_round_trip_witness :
  ∃ t', import_environment_without_publish (export_environment sample_session)
          (session_new Fake.default) = (Ok tt, t') ∧
    bt_get "x" (s_vars t') = Some ["a b"; ""; "c"].
Proof.
  apply environment_round_trip.
  - apply SSorted_cons; [apply SSorted_nil|apply Forall_nil_2].
  - reflexivity.
  - intros n vs. cbn. case_decide; [subst; reflexivity|discriminate].
  - reflexivity.
  - split; [reflexivity|]. split; [discriminate|].
    repeat (apply Forall_cons_2; [split; [reflexivity|apply (bool_decide_unpack _); vm_compute; exact I]|]).
    apply Forall_nil_2.
  - discriminate.
Defined.

(** ** Where the evaluator departs from rc

    Each lemma runs a script on the host in memory. *)

(** [And] and [Or] join the error outputs of their sides and drop the output of
    the left one. *)
Lemma and_drops_left_output :
  prints Fake.default "echo a && echo b" = Some ("b" +:+ nl).
Proof. vm_compute. reflexivity. Qed.

(** The result of expansion does not say what was quoted, so a quoted pattern is
    matched against the files all the same. *)
Lemma quoted_pattern_is_globbed :
  prints (Fake.with_file "x.txt" "" Fake.default) "echo '*'" = Some ("x.txt" +:+ nl).
Proof. vm_compute. reflexivity. Qed.

(** Temporary assignments are undone first to last, so the second of two to the
    same name leaves the value of the first behind. *)
Lemma repeated_assignment_leaks :
  prints Fake.default "a=1 a=2 true; echo $a" = Some ("1" +:+ nl).
Proof. vm_compute. reflexivity. Qed.

(** A failing redirection returns before the temporary assignments are undone. *)
Lemma failed_redirect_keeps_assignment :
  prints Fake.default "x=1 echo hi <nosuch; echo $x" = Some ("1" +:+ nl).
Proof. vm_compute. reflexivity. Qed.

(** Loops and [And] do not look whether a command exited. *)
Lemma loop_ignores_exit :
  prints Fake.default "for(i in 1 2) { echo $i; exit }" = Some (lines ["1"; "2"; ""]).
Proof. vm_compute. reflexivity. Qed.

Lemma and_ignores_exit :
  outcome_of Fake.default "exit && echo still" = Some ("still" +:+ nl, "", "", false).
Proof. vm_compute. reflexivity. Qed.

(** An unmatched closing brace ends the script without an error. *)
Lemma unmatched_brace_ends_script :
  outcome_of Fake.default "echo a } echo b" = Some ("a" +:+ nl, "", "", false).
Proof. vm_compute. reflexivity. Qed.

(** Here documents are looked for in comments too. *)
Lemma comment_starts_here_document :
  outcome_of Fake.default "# see <<EOF"
  = Some ("", "rc: unterminated here document EOF" +:+ nl, "parse", false).
Proof. vm_compute. reflexivity. Qed.

(** A block takes no redirection: the rest of the line is another command. *)
Lemma block_is_not_redirected :
  outcome_of Fake.default "{ echo a } >out; cat <out"
  = Some ("a" +:+ nl, "rc: not found" +:+ nl, "redirect", false).
Proof. vm_compute. reflexivity. Qed.

(** The environment cannot tell the empty list from the empty string. *)
Lemma empty_list_comes_back_as_empty_string :
  data_values (bytes_of (str_join NUL [])) = [""].
Proof. reflexivity. Qed.

(** A script whose text does not parse leaves its arguments behind: [$0] stays
    the script's name. *)
Lemma bad_script_keeps_arguments :
  prints (Fake.with_file "bin/bad" "if" Fake.default) "bad one; echo $0 $1"
  = Some ("bin/bad one" +:+ nl).
Proof. vm_compute. reflexivity. Qed.

(** The rendering of a function, with which it is exported, loses the descriptor
    of a redirection and the text of a here document. *)
Lemma rendering_loses_descriptor :
  parse_render "fn f { echo x >[2]log }" = Some "fn f { echo x >log }".
Proof. vm_compute. reflexivity. Qed.
