(* ===== verification/RcGraph.v ===== *)
(** * star9-shell: process graphs of external programs

    Models the functions of [crates/star9-shell/src/rc.rs] that run the stages of a pipeline,
    a process substitution or a job as tasks of the runtime ([execute_external_graph] and what
    it calls), and the [JobControl] that a job shares with the shell.

    A job runs on a thread and so does each stage.  A computation on a thread is a [Prog]: its
    steps may be interleaved with those of others, a step being one call on the runtime or on
    a control.  An execution handler is a parameter and runs in one step; [schedule] gives the
    order in which the stages of a graph take their steps. *)

From stdpp Require Import base list numbers option strings pretty sorting gmap.
From Stdlib Require Import ZArith Lia Ascii.
From S2P Require Import Prelude Strs RcText BTree Core FsTrait MemFs Vfs Field Task Registry Proto Exec Worker Shell ShellHost RcSyntax RcLex RcParse RcPattern RcSession.

Local Open Scope Z_scope.

(** ** Threads *)

Inductive Prog (W A : Type) : Type :=
| Finished (o : Outcome RcError A)
| Step (f : W → Prog W A * W).
Arguments Finished {W A}.
Arguments Step {W A}.

Module Thread.

(** One step *)
Definition act {W A} (m : Eff RcError W A) : Prog W A :=
  Step (λ w, let '(o, w) := m w in (Finished o, w)).

#[global] Instance prog_ret {W} : MRet (Prog W) := λ A a, Finished (Ok a).

#[global] Instance prog_bind {W} : MBind (Prog W) := λ A B k,
  fix bind p :=
    match p with
    | Finished (Ok a) => k a
    | Finished (Err e) => Finished (Err e)
    | Finished Panic => Finished Panic
    | Finished NoFuel => Finished NoFuel
    | Step f => Step (λ w, let '(p, w) := f w in (bind p, w))
    end.

(** A thread alone, to its end *)
Fixpoint run {W A} (p : Prog W A) : Eff RcError W A := λ w,
  match p with
  | Finished o => (o, w)
  | Step f => let '(p, w) := f w in run p w
  end.

(** The next step of a thread, if it has one *)
Definition step {W A} (p : Prog W A) : W → Prog W A * W :=
  match p with Finished o => λ w, (Finished o, w) | Step f => f end.

Fixpoint for_each {W A} (f : A → Prog W unit) (l : list A) : Prog W unit :=
  match l with
  | [] => mret tt
  | x :: l' => f x ≫= λ _, for_each f l'
  end.

(** A thread to its end, and how it ended *)
Fixpoint finish {W A} (p : Prog W A) : Prog W (Outcome RcError A) :=
  match p with
  | Finished o => Finished (Ok o)
  | Step f => Step (λ w, let '(p, w) := f w in (finish p, w))
  end.

(** [spawn] for each of the threads and [join] for each: they take steps as [schedule] says
    and run to their ends when it is over. *)
Fixpoint finish_all {W A} (ps : list (Prog W A)) : Prog W (list (Outcome RcError A)) :=
  match ps with
  | [] => mret []
  | p :: ps' => finish p ≫= λ o, finish_all ps' ≫= λ os, mret (o :: os)
  end.

Fixpoint interleave {W A} (schedule : list nat) (ps : list (Prog W A))
    : Prog W (list (Outcome RcError A)) :=
  match schedule with
  | [] => finish_all ps
  | i :: schedule' =>
      match ps !! i with
      | None => interleave schedule' ps
      | Some p =>
          Step (λ w, let '(p, w) := step p w in (interleave schedule' (<[i:=p]> ps), w))
      end
  end.
End Thread.

(** ** Jobs and what they share *)

Record JobControl := mkControl {
  jc_graph_root : string;
  jc_task_ids : list string;
  jc_note : option string
}.

(** The namespaces and filesystems that a graph needs beside those of [ShellHost]: a pipe,
    and the variables of an [EnvRegistry], which is an index. *)
Class GraphNamespaces (W : Type) := {
  ns_binding_paths : nat → M W (list string);
  new_pipe_fs : bool → M W nat;
  new_env : EnvEntries → M W nat;
  env_snapshot : nat → M W EnvEntries;
  env_replace_all : nat → EnvEntries → M W unit;
  env_ref : nat → M W nat
}.

Module Graph.

Definition nl : string := String NEWLINE "".
Definition NUL : string := String "000"%char "".

Definition to_rc_error (err : Error) : RcError := RcErr.new (Error_display err).
Definition rc_error (message : string) : RcError := RcErr.new message.

(** [map_err(to_rc_error)] *)
Definition told {A} (r : Result A) : RcResult A :=
  match r with
  | Ok a => Ok a
  | Err e => Err (to_rc_error e)
  | Panic => Panic
  | NoFuel => NoFuel
  end.

(** ** Paths of a graph *)

Definition strip_suffix (suffix s : string) : option string :=
  if ends_with suffix s
  then Some (String.substring 0 (String.length s - String.length suffix) s) else None.

(** [rest.split_once('/').unwrap_or((rest, "."))] of a path in pipe [rest] *)
Definition pipe_binding (graph_root rest : string) : string :=
  let '(pipe, path) := option.default (rest, ".") (split_once "/" rest) in
  graph_root +:+ "/pipe" +:+ pipe +:+ "/" +:+ path.

Definition resolve_graph_binding_path (graph_root binding_path : string) : string :=
  match strip_prefix "pipe:" binding_path with
  | Some rest => pipe_binding graph_root rest
  | None => graph_root +:+ "/" +:+ trim_start_char "/" binding_path
  end.

Definition resolve_executable_binding_path (graph_root binding_path : string) : string :=
  match strip_prefix "pipe:" binding_path with
  | Some rest => pipe_binding graph_root rest
  | None => binding_path
  end.

Definition graphs : string := ".rc/graphs/".

Definition graph_ctl_root (path : string) : option string :=
  match strip_prefix graphs (clean_path path) with
  | None => None
  | Some rest =>
      match strip_suffix "/ctl" rest with
      | Some graph_id => if contains_char "/" graph_id then None else Some (graphs +:+ graph_id)
      | None => None
      end
  end.

(** ** Which program a stage runs *)

Definition stage_execution (stage : RcExecutableStageSpec) (native_enabled : bool)
    : option (ExecutionKind * string * list string) :=
  match es_argv stage with
  | [] => None
  | command :: rest =>
      let named kind :=
        match rest with module :: args => Some (kind, module, args) | [] => None end in
      if decide (command = "wasi") then named Wasi
      else if decide (command = "worker") then named JsWasm
      else if bool_decide (command = "native") && native_enabled then named Native
      else if ends_with ".wasm" command || ends_with ".wat" command
      then Some (Wasi, command, rest)
      else if ends_with ".js" command || ends_with ".mjs" command
      then Some (JsWasm, command, rest)
      else if native_enabled then Some (Native, command, rest)
      else None
  end.

Definition stage_execution_kind (stage : RcExecutableStageSpec) (native_enabled : bool)
    : option ExecutionKind := (λ x, x.1.1) <$> stage_execution stage native_enabled.

(** ** What stands behind a descriptor of a stage *)

Definition fd_stream (fd : Z) (kind : FdKind) (path : string) (read write : bool)
    : StreamDescriptor := OnFd (mkFdDescriptor fd kind (Some path) read write false).

Definition fd_descriptor_from_binding (binding : RcFdBindingSpec) (graph_root : string)
    : FdDescriptor :=
  mkFdDescriptor (b_fd binding)
    (if starts_with "pipe:" (b_path binding) then FdPipe else FdFile)
    (Some (resolve_executable_binding_path graph_root (b_path binding)))
    (b_readable binding) (b_writable binding) (b_append binding).

(** The last binding of [fd], as [iter().rev().find(..)] *)
Definition last_binding (bindings : list RcFdBindingSpec) (fd : Z) : option RcFdBindingSpec :=
  List.find (λ b, b_fd b =? fd) (reverse bindings).

(** What [dup_from] gives when nothing is bound at [from] *)
Definition standard_stream (from : Z) : option StreamDescriptor :=
  if from =? 0 then Some Null else if (from =? 1) || (from =? 2) then Some Inherit else None.

(** A descriptor that is a copy of another is looked up in its place, as often as it takes:
    [fuel] is the number of copies followed. *)
Fixpoint stream_for_fd (fuel : nat) (bindings : list RcFdBindingSpec) (graph_root : string)
    (fd : Z) : Result (option StreamDescriptor) :=
  match fuel with
  | O => NoFuel
  | Datatypes.S fuel' =>
      match last_binding bindings fd with
      | None => Ok None
      | Some binding =>
          if b_close binding then Ok (Some Null)
          else
            match b_dup_from binding with
            | Some from =>
                s ← stream_for_fd fuel' bindings graph_root from;
                Ok match s with Some s => Some s | None => standard_stream from end
            | None =>
                if is_empty_str (b_path binding) then Ok None
                else Ok (Some (OnFd (fd_descriptor_from_binding binding graph_root)))
            end
      end
  end.

Definition set_fdd_fd (fd : Z) (d : FdDescriptor) : FdDescriptor :=
  mkFdDescriptor fd (fdd_kind d) (fdd_path d) (fdd_read d) (fdd_write d) (fdd_append d).

Definition fd_descriptor_for_binding (fuel : nat) (bindings : list RcFdBindingSpec)
    (binding : RcFdBindingSpec) (graph_root : string) : Result (option FdDescriptor) :=
  if b_close binding then Ok None
  else
    match b_dup_from binding with
    | Some from =>
        s ← stream_for_fd fuel bindings graph_root from;
        Ok match s with
           | Some (OnFd descriptor) => Some (set_fdd_fd (b_fd binding) descriptor)
           | _ => None
           end
    | None =>
        if is_empty_str (b_path binding) then Ok None
        else Ok (Some (fd_descriptor_from_binding binding graph_root))
    end.

(** [filter_map] over the bindings of other descriptors than the three streams *)
Fixpoint other_fds (fuel : nat) (bindings : list RcFdBindingSpec) (graph_root : string)
    (bs : list RcFdBindingSpec) : Result (list FdDescriptor) :=
  match bs with
  | [] => Ok []
  | b :: bs' =>
      if (0 <=? b_fd b) && (b_fd b <=? 2) then other_fds fuel bindings graph_root bs'
      else
        d ← fd_descriptor_for_binding fuel bindings b graph_root;
        ds ← other_fds fuel bindings graph_root bs';
        Ok match d with Some d => d :: ds | None => ds end
  end.

Definition rc_env_entries (env : var_map) : list EnvironmentEntry :=
  (λ kv, mkEnv kv.1 (str_join NUL kv.2)) <$> env.

Definition normalize_graph_cwd (cwd : string) : string :=
  if is_empty_str (trim cwd) then "." else cwd.

Definition exit_status_to_rc (status : ExitStatus) : RcStatus :=
  match status with
  | ExitCode code => Status.from_code code
  | Signal signal => Status.from_status ("signal:" +:+ signal)
  | Trap reason => Status.from_status ("trap:" +:+ reason)
  end.

(** [{:?}] of the kind *)
Definition kind_debug (kind : RcProcessGraphKind) : string :=
  match kind with
  | Pipeline => "Pipeline"
  | BackgroundGraph => "Background"
  | ProcessSubstitutionRead => "ProcessSubstitutionRead"
  | ProcessSubstitutionWrite => "ProcessSubstitutionWrite"
  end.

Definition job_text (job_id : option Z) : string :=
  match job_id with Some id => pretty id | None => "-" end.

(** [dedup] *)
Fixpoint dedup (l : list Z) : list Z :=
  match l with
  | x :: l' =>
      match l' with
      | y :: _ => if x =? y then dedup l' else x :: dedup l'
      | [] => [x]
      end
  | [] => []
  end.

Definition pipe_index (binding : RcFdBindingSpec) : option Z :=
  match strip_prefix "pipe:" (b_path binding) with
  | Some rest => match split_on "/" rest with index :: _ => parse_usize index | [] => None end
  | None => None
  end.

Definition graph_pipe_indices (spec : RcExecutableGraphSpec) : list Z :=
  dedup (merge_sort Z.le (omap pipe_index (eg_stages spec ≫= es_fd_bindings))).
End Graph.

(** ** Running a graph *)

Module External.
Import Graph Thread.

Section External.
Context {W H : Type} `{!HasTasks W H} `{!TaskNamespaces W H} `{!FileHandle W H} `{!HasNodes W H}
  `{!HostNamespaces W} `{!GraphNamespaces W}.
Context (table : nat → FileSystem W H) (root : nat) (fuel : nat).
Context (handlers : nat → nat → ExecutionSpec → M (W * ExecutionRegistry) ExitStatus).
Context (wasi_handler pty_handler : nat).
(** The order of the steps of the stages of a graph, by its root *)
Context (schedule : string → list nat).

(** The runtime and the controls of the jobs *)
Definition Shared : Type := (W * RuntimeState) * list JobControl.
Definition Gr (A : Type) : Type := Eff RcError Shared A.

Definition rt {A} (m : Host.Rt A) : Gr A := λ '(w, cs),
  let '(r, w) := m w in (told r, (w, cs)).

(** [let _ = m], and [m.unwrap_or_default()] *)
Definition ignore {A} (m : Host.Rt (W:=W) A) : Host.Rt (W:=W) unit := attempt m ;; mret tt.

(** *** Files of a graph, in the namespace of the shell's task *)

Definition write_graph_file (h : RuntimeShellHost) (graph_root name data : string) : Host.Rt unit :=
  Host.tasks
    (ns ← Task.namespace (rh_task h);
     FsTrait.write_file (table ns) (graph_root +:+ "/" +:+ name) (bytes_of data)
       (FileMode.from_perm 420)).

Definition append_graph_file (h : RuntimeShellHost) (graph_root name data : string)
    : Host.Rt unit :=
  Host.tasks
    (ns ← Task.namespace (rh_task h);
     let path := graph_root +:+ "/" +:+ name in
     bytes ← Host.or_default [] (FsTrait.read_file (table ns) fuel path);
     FsTrait.write_file (table ns) path (bytes ++ bytes_of data) (FileMode.from_perm 420)).

(** *** [JobControl] *)

Definition control (c : nat) : Gr JobControl := λ '(w, cs),
  match cs !! c with Some x => (Ok x, (w, cs)) | None => (Panic, (w, cs)) end.

Definition update_control (c : nat) (f : JobControl → JobControl) : Gr unit := λ '(w, cs),
  (Ok tt, (w, alter f c cs)).

Definition set_tasks (c : nat) (task_ids : list string) : Gr unit :=
  update_control c (λ x, mkControl (jc_graph_root x) task_ids (jc_note x)).

Definition note (c : nat) : Gr (option string) := x ← control c; mret (jc_note x).

Definition signal_status (c : nat) : Gr (option RcStatus) :=
  n ← note c; mret ((λ note, Status.from_status ("signal:" +:+ note)) <$> n).

(** The first note a job is sent stays its note. *)
Definition record_note (note : string) (x : JobControl) : JobControl :=
  mkControl (jc_graph_root x) (jc_task_ids x)
    (match jc_note x with None => Some note | n => n end).

Definition signal_task (note task_id : string) : Host.Rt unit :=
  Host.tasks
    (r ← attempt (Task.lookup task_id);
     match r with
     | Ok task => Task.set_exit task ("signal:" +:+ note)
     | _ => mret tt
     end).

Definition send_note (h : RuntimeShellHost) (c : nat) (note : string) : Gr unit :=
  update_control c (record_note note) ;;
  x ← control c;
  rt (ignore (write_graph_file h (jc_graph_root x) "state" ("signaled" +:+ nl)) ;;
      ignore (write_graph_file h (jc_graph_root x) "status" ("signal:" +:+ note +:+ nl)) ;;
      ignore (append_graph_file h (jc_graph_root x) "notes" (note +:+ nl)) ;;
      Prelude.for_each (signal_task note) (jc_task_ids x)).

(** [control.as_ref().and_then(|control| control.signal_status())] *)
Definition signaled (job : option nat) : Gr (option RcStatus) :=
  match job with Some c => signal_status c | None => mret None end.

(** *** A graph *)

Definition can_execute_external_graph (h : RuntimeShellHost) (spec : RcExecutableGraphSpec)
    : Host.Rt (W:=W) bool :=
  r ← on_snd (gets rs_execution);
  mret
    (negb (bool_decide (eg_stages spec = [])) &&
     forallb (λ stage,
       match stage_execution stage (rh_native_enabled h) with
       | None => false
       | Some (kind, module, _) =>
           match kind with
           | JsWasm => Exec.has_handler kind module r
           | Native => rh_native_enabled h
           | Wasi => true
           end
       end) (eg_stages spec)).

Definition write_graph_state (h : RuntimeShellHost) (graph_root state : string)
    (job : option nat) : Prog Shared unit :=
  s ← act (signaled job);
  match s with
  | Some status =>
      act (rt (write_graph_file h graph_root "status" (Status.display status +:+ nl))) ;;
      act (rt (write_graph_file h graph_root "state" ("signaled" +:+ nl)))
  | None => act (rt (write_graph_file h graph_root "state" state))
  end.

Definition maybe_finish_signaled_graph (h : RuntimeShellHost) (graph_root : string)
    (kind : RcProcessGraphKind) (job : option nat) : Prog Shared (option RcOutput) :=
  s ← act (signaled job);
  match s with
  | None => mret None
  | Some status =>
      act (rt (write_graph_file h graph_root "status" (Status.display status +:+ nl))) ;;
      act (rt (write_graph_file h graph_root "state" ("signaled" +:+ nl))) ;;
      mret (Some (mkOutput status "" ""
        (bool_decide (kind = ProcessSubstitutionRead ∨ kind = ProcessSubstitutionWrite))))
  end.

(** **** Stages *)

Definition stdin_file (h : RuntimeShellHost) (graph_root : string) (index : nat)
    (stage : RcExecutableStageSpec) : Host.Rt (option string) :=
  if is_empty_str (es_stdin stage) then mret None
  else
    let name := "stage" +:+ pretty index +:+ "-stdin" in
    write_graph_file h graph_root name (es_stdin stage) ;;
    mret (Some (graph_root +:+ "/" +:+ name)).

Definition build_execution_spec (h : RuntimeShellHost) (graph_root : string) (index : nat)
    (stage : RcExecutableStageSpec) : Host.Rt ExecutionSpec :=
  '(kind, module, args) ← ok_or (stage_execution stage (rh_native_enabled h))
      (EPath "exec" (str_join " " (es_argv stage)) NotSupported);
  stdin_path ← stdin_file h graph_root index stage;
  let bindings := es_fd_bindings stage in
  stdin ← lift (stream_for_fd fuel bindings graph_root 0);
  stdout ← lift (stream_for_fd fuel bindings graph_root 1);
  stderr ← lift (stream_for_fd fuel bindings graph_root 2);
  fds ← lift (other_fds fuel bindings graph_root bindings);
  let from_file := (λ path, fd_stream 0 FdFile path true false) <$> stdin_path in
  mret (mkSpec kind module args (rc_env_entries (es_env stage))
    (Some (normalize_graph_cwd (es_cwd stage)))
    (mkStdio (option.default Null (match stdin with Some s => Some s | None => from_file end))
       (option.default Inherit stdout) (option.default Inherit stderr)) fds).

Definition Stage : Type := nat * ExecutionSpec * list RcFdBindingSpec.

Fixpoint build_stages (h : RuntimeShellHost) (graph_root : string) (index : nat)
    (stages : list RcExecutableStageSpec) : Prog Shared (list Stage) :=
  match stages with
  | [] => mret []
  | stage :: stages' =>
      task ← act (rt (Host.tasks (Task.alloc "auto" (Some (rh_task h)))));
      exec ← act (rt (build_execution_spec h graph_root index stage));
      rest ← build_stages h graph_root (Datatypes.S index) stages';
      mret ((task, exec, es_fd_bindings stage) :: rest)
  end.

(** The thread of a stage: what it can write to is closed when it is over. *)
Definition run_stage (stage : Stage) : Prog Shared ExitStatus :=
  let '(task, exec, bindings) := stage in
  result ← act (attempt (rt (Host.execution (Exec.execute table handlers task exec))));
  for_each (λ binding, act (rt (ignore (Host.tasks (Task.close_fd task (b_fd binding))))))
    (filter (λ b, b_writable b = true) bindings) ;;
  Finished result.

(** [handle.join()] of each *)
Fixpoint join_all (os : list (RcResult ExitStatus)) : RcResult (list RcStatus) :=
  match os with
  | [] => Ok []
  | o :: os' =>
      status ← match o with Panic => Err (rc_error "execution graph stage panicked") | o => o end;
      rest ← join_all os';
      Ok (exit_status_to_rc status :: rest)
  end.

Definition read_task_fd_string (task : nat) (fd : Z) : Host.Rt string :=
  bytes ← Host.tasks (Exec.read_task_fd fuel task fd); mret (from_utf8_lossy bytes).

(** What a stage printed on [fd], if no binding took it elsewhere *)
Definition printed_on (fd : Z) (task : nat) (bindings : list RcFdBindingSpec)
    : Prog Shared string :=
  if existsb (λ b, (b_fd b =? fd) && b_writable b) bindings then mret ""
  else act (rt (read_task_fd_string task fd)).

(** The outputs of the stages, each read as they come *)
Fixpoint printed (stages : list Stage) : Prog Shared (string * string) :=
  match stages with
  | [] => mret ("", "")
  | (task, _, bindings) :: stages' =>
      stdout ← printed_on 1 task bindings;
      stderr ← printed_on 2 task bindings;
      '(out, err) ← printed stages';
      mret (stdout +:+ out, stderr +:+ err)
  end.

(** [reduce(..).unwrap_or_else(RcStatus::success)] *)
Definition statuses_of (statuses : list RcStatus) : RcStatus :=
  match statuses with [] => Status.success | s :: rest => foldl Status.pipeline s rest end.

Definition register_kinds (h : RuntimeShellHost) (spec : RcExecutableGraphSpec)
    : Prog Shared unit :=
  let any kind := existsb (λ stage,
    bool_decide (stage_execution_kind stage (rh_native_enabled h) = Some kind))
    (eg_stages spec) in
  (if any Wasi then act (rt (Host.execution (Exec.register_kind_arc Wasi wasi_handler)))
   else mret tt) ;;
  (if any Native then act (rt (Host.execution (Exec.register_kind_arc Native pty_handler)))
   else mret tt).

(** The first files of a graph *)
Definition announce (h : RuntimeShellHost) (graph_root : string) (spec : RcExecutableGraphSpec)
    (job : option nat) : Prog Shared unit :=
  act (rt (write_graph_file h graph_root "kind" (kind_debug (eg_kind spec) +:+ nl))) ;;
  act (rt (write_graph_file h graph_root "job" (job_text (eg_job_id spec) +:+ nl))) ;;
  write_graph_state h graph_root ("planned" +:+ nl) job ;;
  act (rt (write_graph_file h graph_root "notes" "")) ;;
  act (rt (write_graph_file h graph_root "ctl" "")).

(** A pipe is bound into the namespace of the runtime, not of the shell's task. *)
Definition bind_graph_pipe (blocking : bool) (graph_root index : string) : Host.Rt unit :=
  Host.tasks
    (ns ← Task.namespace root;
     pipe ← new_pipe_fs blocking;
     ns_bind ns pipe "." (graph_root +:+ "/pipe" +:+ index) Replace).

Definition final_state (status : RcStatus) : string :=
  if starts_with "signal:" (Status.display status) then "signaled" +:+ nl
  else if Status.is_success status then "exited" +:+ nl else "failed" +:+ nl.

(** From the stages' ends to the output of the graph *)
Definition conclude (h : RuntimeShellHost) (graph_root : string) (kind : RcProcessGraphKind)
    (job : option nat) (stages : list Stage) (statuses : list RcStatus)
    : Prog Shared (option RcOutput) :=
  '(stdout, stderr) ← printed stages;
  s ← act (signaled job);
  let status := option.default (statuses_of statuses) s in
  stdout ← (if decide (kind = ProcessSubstitutionRead) then
              act (rt (Host.tasks (
                ns ← Task.namespace (rh_task h);
                bytes ← Host.or_default []
                  (FsTrait.read_file (table ns) fuel (graph_root +:+ "/pipe0/data1"));
                mret (from_utf8_lossy bytes))))
            else mret stdout);
  act (rt (write_graph_file h graph_root "status" (Status.display status +:+ nl))) ;;
  write_graph_state h graph_root (final_state status) job ;;
  mret (Some (mkOutput status stdout stderr false)).

Definition run_stages (h : RuntimeShellHost) (graph_root : string) (spec : RcExecutableGraphSpec)
    (job : option nat) : Prog Shared (option RcOutput) :=
  for_each (λ index, act (rt (bind_graph_pipe true graph_root (pretty index))))
    (graph_pipe_indices spec) ;;
  register_kinds h spec ;;
  stages ← build_stages h graph_root 0 (eg_stages spec);
  task_ids ← act (rt (Host.tasks (map_eff (λ stage, Task.id stage.1.1) stages)));
  (match job with Some c => act (set_tasks c task_ids) | None => mret tt end) ;;
  act (rt (write_graph_file h graph_root "tasks" (str_join nl task_ids +:+ nl))) ;;
  write_graph_state h graph_root ("running" +:+ nl) job ;;
  out ← maybe_finish_signaled_graph h graph_root (eg_kind spec) job;
  match out with
  | Some out => mret (Some out)
  | None =>
      os ← interleave (schedule graph_root) (run_stage <$> stages);
      statuses ← Finished (join_all os);
      conclude h graph_root (eg_kind spec) job stages statuses
  end.

(** [job] is the control of the job the graph runs for, if it is one. *)
Definition execute_external_graph (h : RuntimeShellHost) (graph_root : string)
    (spec : RcExecutableGraphSpec) (job : option nat) : Prog Shared (option RcOutput) :=
  can ← act (rt (can_execute_external_graph h spec));
  if negb can then mret None
  else
    announce h graph_root spec job ;;
    out ← maybe_finish_signaled_graph h graph_root (eg_kind spec) job;
    match out with
    | Some out => mret (Some out)
    | None => run_stages h graph_root spec job
    end.
End External.
End External.
