(* ===== verification/RcShell.v ===== *)
(** * star9-shell: the rc host of a runtime

    Models [Star9RcHost] of [crates/star9-shell/src/rc.rs]: the operations of the rc language
    over a task of the runtime, the graphs it prepares, runs and cancels, its jobs and its
    scopes.  [star9_rc_host] is the instance of [RcHost], so that [RcSession] runs over it.

    The threads of jobs are [Prog]s beside the host.  An operation of the host is one step of
    the shell's own thread; between two of them the jobs take steps ([job_step]).  Waiting for
    a job runs its thread to the end. *)

From stdpp Require Import base list numbers option strings pretty sorting gmap.
From Stdlib Require Import ZArith Lia Ascii.
From S2P Require Import Prelude Strs RcText BTree Core FsTrait MemFs Vfs Field Task Registry Proto Exec Worker Shell ShellHost RcSyntax RcLex RcParse RcPattern RcSession RcEval RcGraph.

Local Open Scope Z_scope.

Record Star9RcHost := mkStar9RcHost {
  rc_host : RuntimeShellHost;
  rc_env_registry : nat;
  rc_cwd : string;
  rc_next_graph_id : Z;
  rc_note_group : Z
}.

(** The thread, whose result is what [receiver] receives, and the control. *)
Record RunningJob := mkRunningJob {
  rj_thread : nat;
  rj_control : nat;
  rj_note_group : Z
}.

(** The host, the jobs behind their lock, the threads there are and what all share *)
Record Star9 (W : Type) := mkStar9 {
  s9_host : Star9RcHost;
  s9_running : btree Z RunningJob;
  s9_threads : list (Prog (External.Shared (W:=W)) (option RcOutput));
  s9_shared : External.Shared (W:=W)
}.
Arguments mkStar9 {W}. Arguments s9_host {W}. Arguments s9_running {W}.
Arguments s9_threads {W}. Arguments s9_shared {W}.

(** [sort_by_key(Reverse(len))] *)
Definition longer_first (a b : string) : Prop := (String.length b ≤ String.length a)%nat.
#[global] Instance longer_first_dec : RelDecision longer_first.
Proof. intros a b. unfold longer_first. apply _. Defined.

Module Rc9.
Import Graph External.

Section Host.
Context {W H : Type} `{!HasTasks W H} `{!TaskNamespaces W H} `{!FileHandle W H} `{!HasNodes W H}
  `{!HostNamespaces W} `{!GraphNamespaces W}.
Context (table : nat → FileSystem W H) (root : nat) (fuel : nat).
Context (handlers : nat → nat → ExecutionSpec → M (W * ExecutionRegistry) ExitStatus).
Context (wasi_handler pty_handler : nat) (schedule : string → list nat).

Definition R (A : Type) : Type := Eff RcError (Star9 W) A.

(** *** The parts of the host *)

Definition set_host (h : Star9RcHost) (s : Star9 W) : Star9 W :=
  mkStar9 h (s9_running s) (s9_threads s) (s9_shared s).
Definition set_running (j : btree Z RunningJob) (s : Star9 W) : Star9 W :=
  mkStar9 (s9_host s) j (s9_threads s) (s9_shared s).
Definition set_threads (ts : list (Prog (Shared (W:=W)) (option RcOutput))) (s : Star9 W) : Star9 W :=
  mkStar9 (s9_host s) (s9_running s) ts (s9_shared s).
Definition set_shared (w : Shared (W:=W)) (s : Star9 W) : Star9 W :=
  mkStar9 (s9_host s) (s9_running s) (s9_threads s) w.

Definition set_runtime_host (h : RuntimeShellHost) (s : Star9 W) : Star9 W :=
  let x := s9_host s in
  set_host (mkStar9RcHost h (rc_env_registry x) (rc_cwd x) (rc_next_graph_id x)
              (rc_note_group x)) s.
Definition set_env_registry (env : nat) (s : Star9 W) : Star9 W :=
  let x := s9_host s in
  set_host (mkStar9RcHost (rc_host x) env (rc_cwd x) (rc_next_graph_id x) (rc_note_group x)) s.
Definition set_cwd (cwd : string) (s : Star9 W) : Star9 W :=
  let x := s9_host s in
  set_host (mkStar9RcHost (rc_host x) (rc_env_registry x) cwd (rc_next_graph_id x)
              (rc_note_group x)) s.
Definition set_next_graph_id (id : Z) (s : Star9 W) : Star9 W :=
  let x := s9_host s in
  set_host (mkStar9RcHost (rc_host x) (rc_env_registry x) (rc_cwd x) id (rc_note_group x)) s.
Definition set_note_group (g : Z) (s : Star9 W) : Star9 W :=
  let x := s9_host s in
  set_host (mkStar9RcHost (rc_host x) (rc_env_registry x) (rc_cwd x) (rc_next_graph_id x) g) s.

(** A call on what is shared, on the runtime, and on the runtime's host with [self.host] *)
Definition on_shared {A} (m : Gr A) : R A := zoom s9_shared set_shared m.
Definition on_runtime {A} (m : Host.Rt A) : R A := on_shared (rt m).
Definition with_host {A} (m : RuntimeShellHost → Host.Rt A) : R A :=
  h ← gets (rc_host ∘ s9_host); on_runtime (m h).
Definition in_tasks {A} (m : RuntimeShellHost → M W A) : R A :=
  with_host (λ h, Host.tasks (m h)).
(** [let _ = m] *)
Definition ignored {A} (m : R A) : R unit := attempt m ;; mret tt.

Definition write_file_of (path data : string) (h : RuntimeShellHost) : Host.Rt unit :=
  Host.write_file table h path (bytes_of data).

(** *** Paths *)

Definition resolve (cwd path : string) : string :=
  let path := trim path in
  if is_empty_str path || bool_decide (path = ".") then cwd
  else if decide (path = "/") then "."
  else if starts_with_char "#" path then clean_path path
  else if starts_with_char "/" path then clean_path (trim_start_char "/" path)
  else if decide (cwd = ".") then clean_path path
  else clean_path (cwd +:+ "/" +:+ path).

Definition resolve_path (path : string) : R string :=
  gets (λ s, resolve (rc_cwd (s9_host s)) path).

(** *** Graphs *)

(** The number of a graph is taken even when binding its root fails. *)
Definition graph_root : R string :=
  h ← gets s9_host;
  guard_err (rh_no_mount (rc_host h)) (to_rc_error (EPath "rfork" "m" PermissionDenied)) ;;
  match next_u32 (rc_next_graph_id h) with
  | None => panic
  | Some next =>
      modify (set_next_graph_id next) ;;
      let graph_root := graphs +:+ "rcgraph" +:+ pretty (rc_next_graph_id h) in
      in_tasks (λ h, ns ← Task.namespace (rh_task h); fs ← new_memfs;
                     ns_bind ns fs "." graph_root Replace) ;;
      mret graph_root
  end.

Definition install_task_binding (task : nat) (binding : RcFdBindingSpec) (graph_root : string)
    : M W RcFdBindingSpec :=
  if b_close binding || bool_decide (is_Some (b_dup_from binding)) then mret binding
  else
    let path := resolve_graph_binding_path graph_root (b_path binding) in
    ns ← Task.namespace task;
    file ← open_path (table ns) path;
    Task.set_fd task (b_fd binding) file path ;;
    mret (mkFdBinding (b_fd binding) path (b_readable binding) (b_writable binding)
            (b_append binding) (b_dup_from binding) (b_close binding)).

(** **** The control file *)

(** Whether a job runs the graph *)
Definition cancel_running_graph_jobs (graph_root note : string) : R bool :=
  jobs ← gets (bt_values ∘ s9_running);
  h ← gets (rc_host ∘ s9_host);
  fold_eff (λ delivered job,
    x ← on_shared (control (rj_control job));
    if decide (jc_graph_root x = graph_root) then
      on_shared (send_note table fuel h (rj_control job) note) ;; mret true
    else mret delivered) false jobs.

Definition cancel_graph (graph_root note : string) : R unit :=
  delivered ← cancel_running_graph_jobs graph_root note;
  if (delivered : bool) then mret tt
  else
    with_host (write_file_of (graph_root +:+ "/state") ("signaled" +:+ nl)) ;;
    with_host (write_file_of (graph_root +:+ "/status") ("signal:" +:+ note +:+ nl)) ;;
    with_host (λ h, Host.append_file table h (graph_root +:+ "/notes") (bytes_of (note +:+ nl))).

Definition belongs_to (graph_root path : string) : bool :=
  bool_decide (path = graph_root) || starts_with (graph_root +:+ "/") path.

Definition runs_graph (cs : list JobControl) (graph_root : string) (job : RunningJob) : bool :=
  match cs !! rj_control job with
  | Some x => bool_decide (jc_graph_root x = graph_root)
  | None => false
  end.

(** [retain(..)]: the threads go on. *)
Definition retain_jobs (graph_root : string) : R unit :=
  modify (λ s, set_running
    (List.filter (λ kv, negb (runs_graph (s9_shared s).2 graph_root kv.2)) (s9_running s)) s).

Definition cleanup_graph (graph_root : string) : R unit :=
  state ← with_host (λ h,
    bytes ← attempt (Host.read_file table fuel h (graph_root +:+ "/state"));
    match bytes with
    | Ok bytes => mret (trim (from_utf8_lossy bytes))
    | _ => mret ""
    end);
  guard_err (bool_decide (state = "running") || bool_decide (state = "starting"))
    (to_rc_error (EPath "graphctl" graph_root Other)) ;;
  retain_jobs graph_root ;;
  in_tasks (λ h,
    ns ← Task.namespace (rh_task h);
    paths ← ns_binding_paths ns;
    for_each (λ path, attempt (ns_unbind_path ns path) ;; mret tt)
      (merge_sort longer_first (List.filter (belongs_to graph_root) paths))).

Definition ctl_line (graph_root line : string) : R unit :=
  let words := split_whitespace_str line in
  let command := option.default "" (head words) in
  if decide (command = "status") then mret tt
  else if decide (command = "hold") then
    with_host (write_file_of (graph_root +:+ "/hold") ("1" +:+ nl))
  else if decide (command = "release") then
    with_host (write_file_of (graph_root +:+ "/hold") ("0" +:+ nl))
  else if decide (command = "cancel") then
    cancel_graph graph_root (option.default "term" (words !! 1%nat))
  else if bool_decide (command = "cleanup") || bool_decide (command = "close") then
    cleanup_graph graph_root
  else throw (to_rc_error (EPath "graphctl" command Invalid)).

Definition handle_graph_ctl (graph_root : string) (data : list byte) : R unit :=
  for_each (ctl_line graph_root)
    (List.filter (λ line, negb (is_empty_str line)) (trim <$> str_lines (from_utf8_lossy data))).

(** *** Environments *)

Definition bind_env (path : string) : R unit :=
  env ← gets (rc_env_registry ∘ s9_host);
  in_tasks (λ h, ns ← Task.namespace (rh_task h); fs ← env_ref env; ns_bind ns fs "." path Replace).

Definition exists_at (path : string) : R bool :=
  in_tasks (λ h, ns ← Task.namespace (rh_task h);
                 r ← attempt (fs_stat (table ns) Ctx.new path);
                 mret match r with Ok _ => true | _ => false end).

Definition replace_env_registry (registry : nat) : R bool :=
  rebind_hash ← exists_at "#env";
  rebind_plain ← exists_at "env";
  modify (set_env_registry registry) ;;
  (if (rebind_hash : bool) then bind_env "#env" else mret tt) ;;
  (if (rebind_plain : bool) then bind_env "env" else mret tt) ;;
  mret (rebind_hash || rebind_plain).

Definition copied_env_registry : R nat :=
  env ← gets (rc_env_registry ∘ s9_host);
  in_tasks (λ _, entries ← env_snapshot env; registry ← new_env [];
                 env_replace_all registry entries ;; mret registry).

(** *** Files and commands *)

Definition set_current_dir (path : string) : R unit :=
  path ← resolve_path path;
  stat ← with_host (λ h, Host.stat table h path);
  if ss_is_dir stat then modify (set_cwd path) else throw (rc_error "not a directory").

Definition read_file (path : string) : R (list byte) :=
  path ← resolve_path path; with_host (λ h, Host.read_file table fuel h path).

Definition write_file (path : string) (data : list byte) : R unit :=
  path ← resolve_path path;
  match graph_ctl_root path with
  | Some graph_root => handle_graph_ctl graph_root data
  | None => with_host (λ h, Host.write_file table h path data)
  end.

Definition append_file (path : string) (data : list byte) : R unit :=
  path ← resolve_path path;
  match graph_ctl_root path with
  | Some graph_root => handle_graph_ctl graph_root data
  | None => with_host (λ h, Host.append_file table h path data)
  end.

Definition read_dir (path : string) : R (list string) :=
  path ← resolve_path path; with_host (λ h, Host.read_dir table h path).

Definition stat (path : string) : R RcStat :=
  path ← resolve_path path;
  stat ← with_host (λ h, Host.stat table h path);
  mret (mkRcStat (ss_is_dir stat)).

(** A command of [ShellSession], in a session of its own in the directory of the host *)
Definition eval_argv (cwd name : string) (args : list string) (h : RuntimeShellHost)
    : Host.Rt ShellResult := λ w,
  let '(r, (_, w)) := Shell.eval_argv
    (ShellHost0 := Host.shell_host table root fuel handlers wasi_handler pty_handler h)
    name args (Shell.set_cwd cwd Shell.new, w) in
  (r, w).

Definition run_command (invocation : RcCommandInvocation) : R RcCommandResult :=
  cwd ← gets (rc_cwd ∘ s9_host);
  let name := ci_name invocation in
  let args := ci_args invocation in
  result ← with_host
    (if ends_with ".wasm" name || ends_with ".wat" name then eval_argv cwd "wasi" (name :: args)
     else if ends_with ".js" name || ends_with ".mjs" name
     then eval_argv cwd "worker" (name :: args)
     else eval_argv cwd name args);
  mret (mkCommandResult (Status.from_code (sr_status result)) (sr_stdout result)
          (sr_stderr result)).

Definition load_environment : R (option env_data) :=
  env ← gets (rc_env_registry ∘ s9_host); entries ← in_tasks (λ _, env_snapshot env);
  mret (Some entries).

Definition store_environment (env : env_data) : R unit :=
  registry ← gets (rc_env_registry ∘ s9_host); in_tasks (λ _, env_replace_all registry env).

(** *** Graphs whose stages the shell runs itself *)

Definition has_pipe (kind : RcProcessGraphKind) : bool :=
  bool_decide (kind ∈ [Pipeline; ProcessSubstitutionRead; ProcessSubstitutionWrite]).

Definition env_line (kv : string * list string) : string :=
  match kv.2 with [] => kv.1 +:+ "=()" | values => kv.1 +:+ "=" +:+ str_join NUL values end.

Definition plan_stage (graph_root : string) (stage : RcProcessStageSpec) (h : RuntimeShellHost)
    : M W RcProcessStageRecord :=
  task ← Task.alloc "auto" (Some (rh_task h));
  Task.set_cmd task (ps_command stage) ;;
  Task.set_dir task (ps_cwd stage) ;;
  Task.set_env task (env_line <$> ps_env stage) ;;
  Task.set_exit task "planned" ;;
  Exec.install_standard_fds task ;;
  fd_bindings ← map_eff (λ binding, install_task_binding task binding graph_root)
                  (ps_fd_bindings stage);
  id ← Task.id task;
  mret (mkStageRecord (ps_command stage) (Some id) fd_bindings).

Definition prepare_process_graph (spec : RcProcessGraphSpec) : R (option RcProcessGraphRecord) :=
  graph_root ← graph_root;
  let graph_id :=
    match rsplit_once "/" graph_root with Some (_, id) => id | None => graph_root end in
  (if has_pipe (pg_kind spec) then on_runtime (bind_graph_pipe root false graph_root "0")
   else mret tt) ;;
  let write name data := ignored (with_host (write_file_of (graph_root +:+ "/" +:+ name) data)) in
  write "kind" (kind_debug (pg_kind spec) +:+ nl) ;;
  write "job" (job_text (pg_job_id spec) +:+ nl) ;;
  write "state" ("planned" +:+ nl) ;;
  write "status" ("planned" +:+ nl) ;;
  write "notes" "" ;;
  write "ctl" "" ;;
  stages ← map_eff (λ stage, in_tasks (plan_stage graph_root stage)) (pg_stages spec);
  mret (Some (mkGraphRecord graph_id (pg_kind spec) (pg_job_id spec) stages)).

Definition finish_process_graph (record : RcProcessGraphRecord) (outcomes : list RcStatus)
    : R unit :=
  for_each (λ '(stage, outcome),
    match sr_task_id stage with
    | None => mret tt
    | Some task_id =>
        in_tasks (λ _,
          r ← attempt (Task.lookup task_id);
          match r with
          | Ok task => Task.set_exit task (Status.display outcome)
          | _ => mret tt
          end)
    end) (zip (gr_stages record) outcomes).

(** *** Graphs and jobs that run as tasks *)

Definition next_graph_root : R string := graph_root.

Definition execute_process_graph (spec : RcExecutableGraphSpec) : R (option RcOutput) :=
  if negb (has_pipe (eg_kind spec)) then mret None
  else
    can ← with_host (λ h, can_execute_external_graph h spec);
    if negb (can : bool) then mret None
    else
      graph_root ← next_graph_root;
      h ← gets (rc_host ∘ s9_host);
      on_shared (Thread.run
        (execute_external_graph table root fuel handlers wasi_handler pty_handler schedule
           h graph_root spec None)).

Definition spawn (p : Prog (Shared (W:=W)) (option RcOutput)) : R nat := λ s,
  (Ok (length (s9_threads s)), set_threads (s9_threads s ++ [p]) s).

Definition new_control (graph_root : string) : R nat := on_shared (λ '(w, cs),
  (Ok (length cs), (w, cs ++ [mkControl graph_root [] None]))).

Definition start_process_graph_job (spec : RcExecutableGraphSpec) : R (option Z) :=
  if negb (bool_decide (eg_kind spec = BackgroundGraph)) then mret None
  else
    match eg_job_id spec with
    | None => mret None
    | Some job_id =>
        can ← with_host (λ h, can_execute_external_graph h spec);
        if negb (can : bool) then mret None
        else
          graph_root ← next_graph_root;
          h ← gets s9_host;
          control ← new_control graph_root;
          thread ← spawn (execute_external_graph table root fuel handlers wasi_handler
                     pty_handler schedule (rc_host h) graph_root spec (Some control));
          modify (λ s, set_running
            (bt_insert job_id (mkRunningJob thread control (rc_note_group h)) (s9_running s)) s) ;;
          mret (Some job_id)
    end.

(** What the thread of a job sends when it is over; nothing after a panic *)
Definition sent (job_id : Z) (o : RcResult (option RcOutput)) : RcProcessJobResult :=
  match o with
  | Ok (Some out) => mkJobResult job_id (o_status out) (o_stdout out) (o_stderr out)
  | Ok None => mkJobResult job_id (Status.from_status "provider-missing") ""
                 ("job " +:+ pretty job_id +:+ ": no external execution provider" +:+ nl)
  | Err err => mkJobResult job_id (Status.from_status "failed") ""
                 ("job " +:+ pretty job_id +:+ ": " +:+ RcErr.display err +:+ nl)
  | _ => mkJobResult job_id (Status.from_status "failed") ""
           ("wait: " +:+ pretty job_id +:+ ": job provider closed" +:+ nl)
  end.

(** [receiver.recv()] *)
Definition recv (job_id : Z) (job : RunningJob) : R RcProcessJobResult := λ s,
  match s9_threads s !! rj_thread job with
  | None => (Panic, s)
  | Some p =>
      let '(o, w) := Thread.run p (s9_shared s) in
      let s := set_shared w (set_threads (<[rj_thread job := Finished o]> (s9_threads s)) s) in
      (match o with NoFuel => NoFuel | o => Ok (sent job_id o) end, s)
  end.

Definition wait_one (job_id : Z) (job : RunningJob) : R RcProcessJobResult :=
  status ← on_shared (signal_status (rj_control job));
  match status with
  | Some status =>
      n ← on_shared (note (rj_control job));
      h ← gets (rc_host ∘ s9_host);
      (match n with
       | Some note => on_shared (send_note table fuel h (rj_control job) note)
       | None => mret tt
       end) ;;
      mret (mkJobResult job_id status "" "")
  | None => recv job_id job
  end.

(** The jobs that are waited for, which no longer run for the host *)
Definition take_jobs (job_id : option Z) : R (option (list (Z * RunningJob))) := λ s,
  match job_id with
  | Some id =>
      match bt_get id (s9_running s) with
      | Some job => (Ok (Some [(id, job)]), set_running (bt_remove id (s9_running s)) s)
      | None => (Ok None, s)
      end
  | None =>
      match s9_running s with
      | [] => (Ok None, s)
      | jobs => (Ok (Some jobs), set_running [] s)
      end
  end.

Definition wait_process_job (job_id : option Z) : R (option (list RcProcessJobResult)) :=
  receivers ← take_jobs job_id;
  match receivers with
  | None => mret None
  | Some jobs => results ← map_eff (λ '(id, job), wait_one id job) jobs; mret (Some results)
  end.

Definition send_note_to_processes (note : string) : R unit :=
  ignored (with_host (λ h, Host.write_existing table h "#signal/data" (bytes_of note))) ;;
  jobs ← gets (bt_values ∘ s9_running);
  h ← gets s9_host;
  for_each (λ job,
    if rj_note_group job =? rc_note_group h
    then on_shared (send_note table fuel (rc_host h) (rj_control job) note)
    else mret tt) jobs.

(** *** Scopes *)

(** A scope that becomes the host *)
Definition enter (m : RuntimeShellHost → Host.Rt RuntimeShellHost) : R unit :=
  h ← with_host m; modify (set_runtime_host h).

Definition fork_environment (environment : RcRforkEnvironment) : R RcRforkEnvironmentOutcome :=
  match environment with
  | EnvShared => mret Unchanged
  | EnvCopy => registry ← copied_env_registry; replace_env_registry registry ;; mret Reload
  | EnvClean =>
      registry ← in_tasks (λ _, new_env []); replace_env_registry registry ;; mret Cleared
  end.

Definition rfork (spec : RcRforkSpec) : R RcRforkOutcome :=
  old_host ← gets (rc_host ∘ s9_host);
  (match rf_namespace spec with
   | NsShared => mret tt
   | NsCopy => enter Host.fork_namespace_scope
   | NsClean => enter Host.clean_namespace_scope ;; modify (set_cwd ".")
   end) ;;
  environment ← fork_environment (rf_environment spec);
  (match rf_fds spec with
   | FdShared => mret tt
   | FdCopy =>
       next ← with_host Host.fork_fd_scope;
       in_tasks (λ _, Task.reopen_fds_from (rh_task next) (rh_task old_host)) ;;
       modify (set_runtime_host next)
   | FdClean => with_host Host.clear_fds
   end) ;;
  (if rf_new_note_group spec then
     modify (λ s, set_note_group (Z.min (rc_note_group (s9_host s) + 1) U64_MAX) s)
   else mret tt) ;;
  (if rf_no_mount spec then
     modify (λ s, set_runtime_host (Host.with_no_mount (rc_host (s9_host s))) s)
   else mret tt) ;;
  mret (mkRforkOutcome environment).

Definition star9_rc_host : RcHost (Star9 W) := {|
  host_current_dir s := rc_cwd (s9_host s);
  host_set_current_dir := set_current_dir;
  host_read_file := read_file;
  host_write_file := write_file;
  host_append_file := append_file;
  host_read_dir := read_dir;
  host_stat := stat;
  host_run_command := run_command;
  host_load_environment := load_environment;
  host_store_environment := store_environment;
  host_prepare_process_graph := prepare_process_graph;
  host_finish_process_graph := finish_process_graph;
  host_wait_process_job := wait_process_job;
  host_send_note := send_note_to_processes;
  host_execute_process_graph := execute_process_graph;
  host_start_process_graph_job := start_process_graph_job;
  host_rfork := rfork
|}.

(** [Star9RcHost::new], with no job and nothing run yet *)
Definition new (host : RuntimeShellHost) (env_registry : nat) (w : W * RuntimeState) : Star9 W :=
  mkStar9 (mkStar9RcHost host env_registry "." 1 1) [] [] (w, []).

(** A job takes a step of its thread. *)
Inductive job_step : Star9 W → Star9 W → Prop :=
| job_steps i f s p w :
    s9_threads s !! i = Some (Step f) → f (s9_shared s) = (p, w) →
    job_step s (set_shared w (set_threads (<[i := p]> (s9_threads s)) s)).
End Host.
End Rc9.

(** ** [RcShell]: a session over the host *)

Module RcSh.
Section RcSh.
Context {H : Type} `{!RcHost H}.

Definition new (host : H) : RcSession H := session_new host.
(** [fuel] is the depth of nested evaluation. *)
Definition eval_line (fuel : nat) (source : string) : Eff RcError (RcSession H) RcOutput :=
  run_source fuel source.
Definition set_argv0 (argv0 : string) : Eff RcError (RcSession H) unit :=
  RcSession.set_argv0 argv0.
Definition set_args (args : list string) : Eff RcError (RcSession H) unit :=
  RcSession.set_args args.
Definition prompt : Eff RcError (RcSession H) string := RcSession.prompt.
Definition cwd (s : RcSession H) : string := host_current_dir (s_host s).
Definition last_status (s : RcSession H) : string := Status.display (s_last_status s).
End RcSh.

Definition rc_to_star9_result (output : RcOutput) : ShellResult :=
  mkShellResult (if Status.is_success (o_status output) then 0 else 1) (o_stdout output)
    (o_stderr output).
End RcSh.
