(* ===== verification/RcShellProps.v ===== *)
(** * The rc host of a runtime: descriptors, notes and scopes

    [stage_fds_resolve]: following the copies of descriptors ends exactly when they do not go
    round in a circle, and gives what the bindings say.  [signaled_job_reported]: the first
    note a job is sent is its status for ever, whatever the threads and the shell do.
    [rc_scope_kept]: a shell that gave up mounts never makes a graph again.  Concrete runs of
    a whole shell are at the end. *)

From stdpp Require Import base list numbers option strings pretty sorting gmap relations.
From Stdlib Require Import ZArith Lia Ascii.
From S2P Require Import Prelude Strs RcText BTree Core FsTrait FsLens MemFs Vfs Pipe Field Task Registry Proto Exec Worker WorkerProps Api Shell ShellHost RcSyntax RcLex RcParse RcPattern RcSession RcEval RcGraph RcShell.

Local Open Scope Z_scope.
Import Graph.

(** ** Descriptors that are copies of others *)

(** [fd] is a copy of [from]. *)
Definition copies (bs : list RcFdBindingSpec) (fd from : Z) : Prop :=
  ∃ b, last_binding bs fd = Some b ∧ b_close b = false ∧ b_dup_from b = Some from.

(** What stands behind a descriptor, without fuel *)
Inductive resolves (bs : list RcFdBindingSpec) (root : string)
    : Z → option StreamDescriptor → Prop :=
| resolves_unbound fd : last_binding bs fd = None → resolves bs root fd None
| resolves_closed fd b : last_binding bs fd = Some b → b_close b = true →
    resolves bs root fd (Some Null)
| resolves_nothing fd b : last_binding bs fd = Some b → b_close b = false →
    b_dup_from b = None → b_path b = "" → resolves bs root fd None
| resolves_path fd b : last_binding bs fd = Some b → b_close b = false →
    b_dup_from b = None → b_path b ≠ "" →
    resolves bs root fd (Some (OnFd (fd_descriptor_from_binding b root)))
| resolves_copy fd from s : copies bs fd from → resolves bs root from (Some s) →
    resolves bs root fd (Some s)
| resolves_standard fd from : copies bs fd from → resolves bs root from None →
    resolves bs root fd (standard_stream from).

(** The copies from [fd] on go round in a circle. *)
Definition circular (bs : list RcFdBindingSpec) (fd : Z) : Prop :=
  ∃ d, rtc (copies bs) fd d ∧ tc (copies bs) d d.

Section Resolution.
Context (bs : list RcFdBindingSpec) (root : string).

Lemma stream_step n fd :
  (∃ from, copies bs fd from ∧
     stream_for_fd (Datatypes.S n) bs root fd
     = (s ← stream_for_fd n bs root from;
        Ok match s with Some s => Some s | None => standard_stream from end)) ∨
  (∀ from, ¬ copies bs fd from) ∧
  ∃ s, resolves bs root fd s ∧ ∀ m, stream_for_fd (Datatypes.S m) bs root fd = Ok s.
Proof.
  cbn [stream_for_fd]. destruct (last_binding bs fd) as [b|] eqn:Hb.
  2:{ right. split; [intros from (b & ? & _); congruence|]. exists None.
      by split; [constructor|]. }
  destruct (b_close b) eqn:Hc.
  { right. split; [intros from (b' & ? & ? & _); congruence|].
    exists (Some Null). by split; [econstructor|]. }
  destruct (b_dup_from b) as [from|] eqn:Hd.
  { left. exists from. split; [by exists b|done]. }
  right. split; [intros from (b' & ? & _ & ?); congruence|].
  destruct (is_empty_str (b_path b)) eqn:Hp.
  - exists None. apply is_empty_str_true in Hp. by split; [eapply resolves_nothing|].
  - eexists. split; [eapply resolves_path; [done..|]|done]. intros He. by rewrite He in Hp.
Qed.

(** The fuel runs out when that many copies can be followed. *)
Lemma stream_no_fuel n fd :
  stream_for_fd n bs root fd = NoFuel ↔ ∃ d, nsteps (copies bs) n fd d.
Proof.
  revert fd. induction n as [|n IH]; intros fd.
  { split; [|done]. intros _. exists fd. constructor. }
  destruct (stream_step n fd) as [(from & Hcopy & ->)|(Hnone & s & _ & ->)].
  - transitivity (stream_for_fd n bs root from = NoFuel).
    { by destruct (stream_for_fd n bs root from). }
    rewrite IH. split; [intros [d Hd]; exists d; by econstructor|].
    intros [d Hd]. inversion Hd as [|? ? from' ? Hc' Hrest]; subst. exists d.
    destruct Hcopy as (b & Hb & _ & Hf), Hc' as (b' & Hb' & _ & Hf'). by simplify_eq.
  - split; [done|]. intros [d Hd]. inversion Hd; subst. by edestruct Hnone.
Qed.

Lemma stream_sound n fd :
  stream_for_fd n bs root fd = NoFuel ∨
  ∃ s, stream_for_fd n bs root fd = Ok s ∧ resolves bs root fd s.
Proof.
  revert fd. induction n as [|n IH]; intros fd; [by left|].
  destruct (stream_step n fd) as [(from & Hcopy & ->)|(_ & s & Hs & ->)]; [|right; eauto].
  destruct (IH from) as [->|(s & -> & Hs)]; [by left|]. right. eexists. split; [done|].
  destruct s; by econstructor.
Qed.

Lemma resolves_stream fd s : resolves bs root fd s → ∃ n, stream_for_fd n bs root fd = Ok s.
Proof.
  assert (∀ fd from r, copies bs fd from → ∀ n, stream_for_fd n bs root from = Ok r →
    stream_for_fd (Datatypes.S n) bs root fd
    = Ok match r with Some s => Some s | None => standard_stream from end) as Hstep.
  { intros f from r (b & Hb & Hc & Hd) n Hn. cbn. by rewrite Hb, Hc, Hd, Hn. }
  induction 1 as [fd Hb|fd b Hb Hc|fd b Hb Hc Hd Hp|fd b Hb Hc Hd Hp|fd from s Hcopy _ [n IH]
                 |fd from Hcopy _ [n IH]].
  - exists 1%nat. cbn. by rewrite Hb.
  - exists 1%nat. cbn. by rewrite Hb, Hc.
  - exists 1%nat. cbn. by rewrite Hb, Hc, Hd, Hp.
  - exists 1%nat. cbn. rewrite Hb, Hc, Hd. destruct (is_empty_str (b_path b)) eqn:He; [|done].
    by apply is_empty_str_true in He.
  - exists (Datatypes.S n). by rewrite (Hstep _ _ _ Hcopy n IH).
  - exists (Datatypes.S n). by rewrite (Hstep _ _ _ Hcopy n IH).
Qed.

Lemma stream_more n m fd s : (n ≤ m)%nat →
  stream_for_fd n bs root fd = Ok s → stream_for_fd m bs root fd = Ok s.
Proof.
  revert m fd s. induction n as [|n IH]; intros [|m] fd s Hle Hn; [done|done|lia|].
  destruct (stream_step n fd) as [(from & Hcopy & Heq)|(_ & t & _ & Heq)].
  - rewrite Heq in Hn. destruct Hcopy as (b & Hb & Hc & Hd).
    cbn [stream_for_fd]. rewrite Hb, Hc, Hd.
    destruct (stream_for_fd n bs root from) as [t| | |] eqn:Ht; try done.
    by rewrite (IH m from t) by (done || lia).
  - rewrite Heq in Hn |- *. done.
Qed.

(** *** Circles *)

Lemma circle_steps n d : tc (copies bs) d d → ∃ x, nsteps (copies bs) n d x.
Proof.
  revert d. induction n as [|n IH]; intros d Hd; [exists d; constructor|].
  assert (∃ d', copies bs d d' ∧ rtc (copies bs) d' d) as (d' & Hstep & Hback).
  { inversion Hd as [|? d' ? ? Hrest]; subst; [by exists d|].
    exists d'. split; [done|]. by apply tc_rtc. }
  destruct (IH d') as [x Hx]; [by eapply tc_rtc_l; [done|apply tc_once]|].
  exists x. by econstructor.
Qed.

Lemma circular_steps n fd : circular bs fd → ∃ x, nsteps (copies bs) n fd x.
Proof.
  intros (d & Hrtc & Hd). revert n. induction Hrtc as [d|fd fd' d Hstep _ IH]; intros n.
  { by apply circle_steps. }
  destruct n as [|n]; [exists fd; constructor|].
  destruct (IH Hd n) as [x Hx]. exists x. by econstructor.
Qed.

(** The descriptors on the way *)
Lemma steps_visited n fd x : nsteps (copies bs) n fd x →
  circular bs fd ∨
  ∃ l, length l = n ∧ NoDup l ∧ ∀ y, y ∈ l → rtc (copies bs) fd y ∧ y ∈ (b_fd <$> bs).
Proof.
  induction 1 as [fd|n fd fd' x Hstep _ IH].
  { right. exists []. split; [done|]. split; [constructor|]. by intros y ?%elem_of_nil. }
  destruct IH as [(d & Hd & Hcirc)|(l & Hl & Hdup & Hin)].
  { left. exists d. split; [by econstructor|done]. }
  destruct (decide (fd ∈ l)) as [Hfd|Hfd].
  { left. exists fd. split; [done|]. eapply tc_rtc_r; [by apply tc_once|]. by apply Hin. }
  right. exists (fd :: l). split; [by f_equal/=|]. split; [by constructor|].
  intros y [->|Hy]%elem_of_cons.
  - split; [done|]. destruct Hstep as (b & Hb & _). unfold last_binding in Hb.
    apply List.find_some in Hb as [Hb Heq]. apply Z.eqb_eq in Heq as <-.
    apply list_elem_of_fmap. exists b. split; [done|]. by apply elem_of_reverse, list_elem_of_In.
  - destruct (Hin y Hy) as [Hrtc ?]. split; [by econstructor|done].
Qed.

Lemma many_steps_circular n fd x :
  (length bs < n)%nat → nsteps (copies bs) n fd x → circular bs fd.
Proof.
  intros Hn Hsteps. destruct (steps_visited n fd x Hsteps) as [|(l & Hl & Hdup & Hin)]; [done|].
  assert (length l ≤ length (b_fd <$> bs))%nat; [|rewrite length_fmap in *; lia].
  apply submseteq_length, NoDup_submseteq; [done|]. intros y Hy. by apply Hin.
Qed.

(** C37. Which stream a descriptor of an external stage gets is what its bindings say, copies
    being followed to what they are copies of.  One more turn than there are bindings is
    enough, unless the copies go round in a circle, and then no number of turns is: the
    program recurses until its stack overflows. *)
Theorem stage_fds_resolve fd :
  (∀ s, resolves bs root fd s ↔ ∃ n, stream_for_fd n bs root fd = Ok s) ∧
  (¬ circular bs fd → ∃ s, ∀ n, (length bs < n)%nat → stream_for_fd n bs root fd = Ok s) ∧
  (circular bs fd → ∀ n, stream_for_fd n bs root fd = NoFuel).
Proof.
  split; [|split].
  - intros s. split; [apply resolves_stream|]. intros [n Hn].
    destruct (stream_sound n fd) as [Hno|(t & Ht & Hres)]; [congruence|].
    rewrite Hn in Ht. by injection Ht as ->.
  - intros Hnot. destruct (stream_sound (Datatypes.S (length bs)) fd) as [Hno|(s & Hs & _)].
    + apply stream_no_fuel in Hno as [x Hx]. destruct Hnot. eapply many_steps_circular; [|done]. lia.
    + exists s. intros n Hn. eapply stream_more; [|done]. lia.
  - intros Hcirc n. by apply stream_no_fuel, circular_steps.
Qed.
End Resolution.

(** ** What jobs and the shell do to the controls *)

(** Controls are never lost, keep their graphs, and keep the first note they got. *)
Definition told_more (cs cs' : list JobControl) : Prop :=
  ∀ c x, cs !! c = Some x → ∃ x', cs' !! c = Some x' ∧ jc_graph_root x' = jc_graph_root x ∧
    ∀ n, jc_note x = Some n → jc_note x' = Some n.

Lemma told_more_refl cs : told_more cs cs.
Proof. intros c x Hx. by exists x. Qed.

Lemma told_more_trans a b c : told_more a b → told_more b c → told_more a c.
Proof.
  intros Hab Hbc i x Hx. destruct (Hab i x Hx) as (y & Hy & Hyr & Hyn).
  destruct (Hbc i y Hy) as (z & Hz & Hzr & Hzn). exists z. split; [done|]. split; [congruence|].
  auto.
Qed.

Lemma told_more_alter f c cs :
  (∀ x, jc_graph_root (f x) = jc_graph_root x ∧
        ∀ n, jc_note x = Some n → jc_note (f x) = Some n) →
  told_more cs (alter f c cs).
Proof.
  intros Hf i x Hx. destruct (decide (c = i)) as [->|Hne].
  - exists (f x). rewrite list_lookup_alter_eq, Hx. split; [done|]. apply Hf.
  - exists x. by rewrite list_lookup_alter_ne by done.
Qed.

Lemma told_more_app cs l : told_more cs (cs ++ l).
Proof. intros i x Hx. exists x. split; [by apply lookup_app_l_Some|done]. Qed.

#[local] Hint Resolve told_more_refl told_more_app : core.

Section Keeps.
Context {W H : Type} `{!HasTasks W H} `{!TaskNamespaces W H} `{!FileHandle W H} `{!HasNodes W H}
  `{!HostNamespaces W} `{!GraphNamespaces W}.
Context (table : nat → FileSystem W H) (root : nat) (fuel : nat).
Context (handlers : nat → nat → ExecutionSpec → M (W * ExecutionRegistry) ExitStatus).
Context (wasi_handler pty_handler : nat) (schedule : string → list nat).

Abbreviation Shared := (External.Shared (W:=W)).
Abbreviation Gr := (Eff RcError Shared).

(** *** Calls and threads that only add notes *)

Definition tells {A} (m : Gr A) : Prop := ∀ w, told_more w.2 (m w).2.2.

Fixpoint tacit {A} (p : Prog Shared A) : Prop :=
  match p with
  | Finished _ => True
  | Step f => ∀ w, let '(p, w') := f w in told_more w.2 w'.2 ∧ tacit p
  end.

Lemma tells_bind {A B} (m : Gr A) (k : A → Gr B) : tells m → (∀ a, tells (k a)) → tells (m ≫= k).
Proof.
  intros Hm Hk w. specialize (Hm w). unfold mbind, eff_bind.
  destruct (m w) as [[a|e| |] w']; cbn in *; [|done..]. eapply told_more_trans; [done|apply Hk].
Qed.

Lemma tells_ret {A} (a : A) : tells (mret a).
Proof. intros w. apply told_more_refl. Qed.

Lemma tells_rt {A} (m : Host.Rt A) : tells (External.rt m).
Proof. intros [w cs]. unfold External.rt. destruct (m w) as [r w']. apply told_more_refl. Qed.

Lemma tells_attempt {A} (m : Gr A) : tells m → tells (attempt m).
Proof. intros Hm w. specialize (Hm w). unfold attempt. by destruct (m w) as [[] w']. Qed.

Lemma tells_control c : tells (External.control (W:=W) c).
Proof. intros [w cs]. unfold External.control. destruct (cs !! c); apply told_more_refl. Qed.

Lemma tells_update c f :
  (∀ x, jc_graph_root (f x) = jc_graph_root x ∧
        ∀ n, jc_note x = Some n → jc_note (f x) = Some n) →
  tells (External.update_control (W:=W) c f).
Proof. intros Hf [w cs]. by apply told_more_alter. Qed.

Create HintDb tells discriminated.
#[local] Hint Resolve tells_bind tells_ret tells_rt tells_attempt tells_control : tells.

Lemma tells_note c : tells (External.note (W:=W) c).
Proof. unfold External.note. auto with tells. Qed.
#[local] Hint Resolve tells_note : tells.

Lemma tells_signal_status c : tells (External.signal_status (W:=W) c).
Proof. unfold External.signal_status. auto with tells. Qed.
#[local] Hint Resolve tells_signal_status : tells.

Lemma tells_signaled job : tells (External.signaled (W:=W) job).
Proof. destruct job; cbn; auto with tells. Qed.

Lemma tells_set_tasks c ids : tells (External.set_tasks (W:=W) c ids).
Proof. apply tells_update. by intros x. Qed.

Lemma record_note_first note x :
  jc_graph_root (External.record_note note x) = jc_graph_root x ∧
  ∀ n, jc_note x = Some n → jc_note (External.record_note note x) = Some n.
Proof. split; [done|]. intros n Hn. cbn. by rewrite Hn. Qed.

Lemma tells_send_note h c note : tells (External.send_note table fuel h c note).
Proof.
  unfold External.send_note. apply tells_bind; [apply tells_update, record_note_first|].
  auto with tells.
Qed.
#[local] Hint Resolve tells_signaled tells_set_tasks tells_send_note : tells.

(** *** Threads *)

Lemma tacit_act {A} (m : Gr A) : tells m → tacit (Thread.act m).
Proof. intros Hm w. specialize (Hm w). by destruct (m w) as [o w']. Qed.

Lemma tacit_ret {A} (a : A) : tacit (mret (M:=Prog Shared) a).
Proof. exact I. Qed.

Lemma tacit_finished {A} (o : Outcome RcError A) : tacit (Finished o).
Proof. exact I. Qed.

(** Induction on threads *)
Lemma prog_ind' {A} (P : Prog Shared A → Prop) :
  (∀ o, P (Finished o)) → (∀ f, (∀ w, P (f w).1) → P (Step f)) → ∀ p, P p.
Proof.
  intros Hf Hs. fix IH 1. intros [o|f]; [apply Hf|]. apply Hs. intros w.
  destruct (f w) as [p w']. apply IH.
Qed.

Lemma tacit_step {A} (f : Shared → Prog Shared A * Shared) w :
  tacit (Step f) → told_more w.2 (f w).2.2 ∧ tacit (f w).1.
Proof. intros Hf. specialize (Hf w). by destruct (f w) as [p w']. Qed.

Lemma tacit_bind {A B} (p : Prog Shared A) (k : A → Prog Shared B) :
  tacit p → (∀ a, tacit (k a)) → tacit (p ≫= k).
Proof.
  intros Hp Hk. induction p as [o|f IH] using prog_ind'; [by destruct o; cbn|].
  intros w. specialize (IH w). destruct (tacit_step f w Hp) as [Hmore Hq].
  change ((Step f ≫= k)) with (Step (λ w, let '(p, w') := f w in (p ≫= k, w'))).
  cbn. destruct (f w) as [p w']. auto.
Qed.

Lemma tacit_run {A} (p : Prog Shared A) w : tacit p → told_more w.2 (Thread.run p w).2.2.
Proof.
  revert w. induction p as [o|f IH] using prog_ind'; intros w Hp; [apply told_more_refl|].
  destruct (tacit_step f w Hp) as [Hmore Hq]. specialize (IH w). cbn.
  destruct (f w) as [p w']. eapply told_more_trans; [done|]. by apply IH.
Qed.

Lemma tacit_for_each {A} (f : A → Prog Shared unit) l :
  (∀ x, tacit (f x)) → tacit (Thread.for_each f l).
Proof.
  intros Hf. induction l as [|x l IH]; cbn [Thread.for_each]; [exact I|].
  by apply tacit_bind.
Qed.

Lemma tacit_finish {A} (p : Prog Shared A) : tacit p → tacit (Thread.finish p).
Proof.
  intros Hp. induction p as [o|f IH] using prog_ind'; [exact I|]. intros w.
  destruct (tacit_step f w Hp) as [Hmore Hq]. specialize (IH w). cbn.
  destruct (f w) as [p w']. auto.
Qed.

Lemma tacit_interleave {A} sch (ps : list (Prog Shared A)) :
  Forall tacit ps → tacit (Thread.interleave sch ps).
Proof.
  revert ps. induction sch as [|i sch IH]; intros ps Hps.
  { induction Hps as [|p ps Hp _ IHps]; [exact I|].
    change (tacit (Thread.finish p ≫= λ o, Thread.finish_all ps ≫= λ os, mret (o :: os))).
    apply tacit_bind; [by apply tacit_finish|]. intros o. by apply tacit_bind. }
  cbn [Thread.interleave]. destruct (ps !! i) as [p|] eqn:Hi; [|by apply IH].
  intros w. pose proof (Forall_lookup_1 _ _ _ _ Hps Hi) as Hp.
  assert (told_more w.2 (Thread.step p w).2.2 ∧ tacit (Thread.step p w).1) as [Hmore Hq].
  { destruct p as [o|f]; [by split|by apply tacit_step]. }
  destruct (Thread.step p w) as [p' w']. split; [done|]. by apply IH, Forall_insert.
Qed.

Create HintDb tacit discriminated.
#[local] Hint Resolve tacit_bind tacit_ret tacit_finished tacit_for_each tacit_act tells_rt
  tells_attempt tells_signaled tells_set_tasks : tacit.

(** A thread is tacit when each of its steps is. *)
Ltac tacitly := repeat first
  [ progress auto with tacit
  | progress intros
  | apply tacit_bind
  | match goal with
    | |- context [match ?x with _ => _ end] => destruct x
    end ].

Lemma tacit_write_state h graph_root state job :
  tacit (External.write_graph_state table h graph_root state job).
Proof. unfold External.write_graph_state. tacitly. Qed.

Lemma tacit_maybe_finish h graph_root kind job :
  tacit (External.maybe_finish_signaled_graph table h graph_root kind job).
Proof. unfold External.maybe_finish_signaled_graph. tacitly. Qed.

Lemma tacit_build h graph_root index stages :
  tacit (External.build_stages table fuel h graph_root index stages).
Proof.
  revert index. induction stages as [|s stages IH]; intros index; cbn [External.build_stages];
    tacitly; apply IH.
Qed.

Lemma tacit_printed stages : tacit (External.printed (W:=W) fuel stages).
Proof.
  induction stages as [|[[task spec] bs] stages IH]; cbn [External.printed]; [exact I|].
  unfold External.printed_on. tacitly.
Qed.
#[local] Hint Resolve tacit_write_state tacit_maybe_finish tacit_build tacit_printed : tacit.

Lemma tacit_stages stages : Forall tacit (External.run_stage table handlers <$> stages).
Proof.
  apply Forall_fmap, Forall_true. intros [[task spec] bs]. unfold compose, External.run_stage. tacitly.
Qed.

Lemma tacit_conclude h graph_root kind job stages statuses :
  tacit (External.conclude table fuel h graph_root kind job stages statuses).
Proof. unfold External.conclude. tacitly. Qed.

Lemma tacit_graph h graph_root spec job :
  tacit (External.execute_external_graph table root fuel handlers wasi_handler pty_handler
           schedule h graph_root spec job).
Proof.
  unfold External.execute_external_graph, External.announce, External.run_stages,
    External.register_kinds.
  tacitly; first [apply tacit_interleave, tacit_stages | apply tacit_conclude].
Qed.

(** *** Operations of the host *)

(** Every thread only adds notes. *)
Definition good (s : Star9 W) : Prop := Forall tacit (s9_threads s).

(** What stays from a state to a later one: the controls, and what the host may do *)
Record later (s s' : Star9 W) : Prop := {
  later_controls : told_more (s9_shared s).2 (s9_shared s').2;
  later_no_mount : rh_no_mount (rc_host (s9_host s)) = true →
    rh_no_mount (rc_host (s9_host s')) = true;
  later_native : rh_native_enabled (rc_host (s9_host s')) = rh_native_enabled (rc_host (s9_host s));
  later_good : good s → good s'
}.

Definition stays {A} (m : Rc9.R (W:=W) A) : Prop := ∀ s, good s → later s (m s).2.

Lemma later_refl s : later s s.
Proof. by split. Qed.

Lemma later_trans a b c : later a b → later b c → later a c.
Proof.
  intros [H1 H2 H3 H4] [H1' H2' H3' H4']. split; [by eapply told_more_trans|by auto|congruence|auto].
Qed.

Lemma stays_ret {A} (a : A) : stays (mret a).
Proof. intros s _. apply later_refl. Qed.

Lemma stays_throw {A} e : stays (throw (A:=A) e).
Proof. intros s _. apply later_refl. Qed.

Lemma stays_panic {A} : stays (panic (A:=A)).
Proof. intros s _. apply later_refl. Qed.

Lemma stays_gets {A} (f : Star9 W → A) : stays (gets f).
Proof. intros s _. apply later_refl. Qed.

Lemma stays_guard b e : stays (guard_err b e).
Proof. destruct b; intros s _; apply later_refl. Qed.

Lemma stays_bind {A B} (m : Rc9.R A) (k : A → Rc9.R B) :
  stays m → (∀ a, stays (k a)) → stays (m ≫= k).
Proof.
  intros Hm Hk s Hs. specialize (Hm s Hs). unfold mbind, eff_bind.
  destruct (m s) as [[a|e| |] s'] eqn:Hms; cbn in *; [|done..].
  eapply later_trans; [done|]. apply Hk. by apply (later_good _ _ Hm).
Qed.

Lemma stays_attempt {A} (m : Rc9.R A) : stays m → stays (attempt m).
Proof. intros Hm s Hs. specialize (Hm s Hs). unfold attempt. by destruct (m s) as [[] s']. Qed.

Lemma stays_for_each {A} (f : A → Rc9.R unit) l : (∀ x, stays (f x)) → stays (for_each f l).
Proof.
  intros Hf. induction l as [|x l IH]; cbn [for_each]; [apply stays_ret|by apply stays_bind].
Qed.

Lemma stays_map {A B} (f : A → Rc9.R B) l : (∀ x, stays (f x)) → stays (map_eff f l).
Proof.
  intros Hf. induction l as [|x l IH]; cbn [map_eff]; [apply stays_ret|].
  apply stays_bind; [done|]. intros y. apply stays_bind; [done|]. intros. apply stays_ret.
Qed.

Lemma stays_fold {A B} (f : B → A → Rc9.R B) b l :
  (∀ b x, stays (f b x)) → stays (fold_eff f b l).
Proof.
  intros Hf. revert b. induction l as [|x l IH]; intros b; cbn [fold_eff]; [apply stays_ret|].
  by apply stays_bind.
Qed.

Lemma stays_shared {A} (m : Gr A) : tells m → stays (Rc9.on_shared m).
Proof.
  intros Hm s Hs. unfold Rc9.on_shared, zoom. specialize (Hm (s9_shared s)).
  destruct (m (s9_shared s)) as [r w]. by split.
Qed.

Lemma stays_with_host {A} (m : RuntimeShellHost → Host.Rt A) : stays (Rc9.with_host m).
Proof.
  unfold Rc9.with_host. apply stays_bind; [apply stays_gets|].
  intros h. apply stays_shared, tells_rt.
Qed.

Lemma stays_modify f : (∀ s, later s (f s)) → stays (modify f).
Proof. intros Hf s _. apply Hf. Qed.

Create HintDb stays discriminated.
#[local] Hint Resolve stays_bind stays_ret stays_throw stays_panic stays_gets stays_guard
  stays_attempt stays_for_each stays_map stays_fold stays_with_host stays_shared tells_rt
  tells_note tells_signal_status tells_control tells_send_note : stays.

(** An operation keeps what its calls keep. *)
Ltac stay := repeat first
  [ progress auto with stays
  | match goal with |- ∀ _, _ => intros ? end
  | apply stays_bind
  | apply stays_for_each
  | apply stays_map
  | apply stays_fold
  | apply stays_attempt
  | apply stays_modify; by split
  | match goal with
    | |- context [match ?x with _ => _ end] => destruct x
    end ].

Lemma stays_graph_root : stays (Rc9.graph_root (W:=W) (H:=H)).
Proof. unfold Rc9.graph_root, Rc9.in_tasks. stay. Qed.

Lemma stays_cancel graph_root note : stays (Rc9.cancel_graph table fuel graph_root note).
Proof. unfold Rc9.cancel_graph, Rc9.cancel_running_graph_jobs. stay. Qed.

Lemma stays_cleanup graph_root : stays (Rc9.cleanup_graph table fuel graph_root).
Proof. unfold Rc9.cleanup_graph, Rc9.retain_jobs, Rc9.in_tasks. stay. Qed.
#[local] Hint Resolve stays_graph_root stays_cancel stays_cleanup : stays.

Lemma stays_ctl graph_root data : stays (Rc9.handle_graph_ctl table fuel graph_root data).
Proof. unfold Rc9.handle_graph_ctl, Rc9.ctl_line. stay. Qed.

Lemma stays_replace_env registry : stays (Rc9.replace_env_registry table registry).
Proof.
  unfold Rc9.replace_env_registry, Rc9.exists_at, Rc9.bind_env, Rc9.in_tasks. stay.
Qed.

Lemma stays_fork_env e : stays (Rc9.fork_environment table e).
Proof.
  unfold Rc9.fork_environment, Rc9.copied_env_registry, Rc9.in_tasks.
  pose proof stays_replace_env. destruct e; stay.
Qed.

Lemma stays_recv id job : stays (Rc9.recv (W:=W) id job).
Proof.
  intros s Hs. unfold Rc9.recv. destruct (s9_threads s !! rj_thread job) as [p|] eqn:Hp;
    [|apply later_refl].
  pose proof (tacit_run p (s9_shared s) (Forall_lookup_1 _ _ _ _ Hs Hp)) as Hmore.
  destruct (Thread.run p (s9_shared s)) as [o w].
  split; [done..|]. intros _. by apply Forall_insert.
Qed.

Lemma stays_take id : stays (Rc9.take_jobs (W:=W) id).
Proof.
  intros s Hs. unfold Rc9.take_jobs. destruct id as [id|].
  - destruct (bt_get id (s9_running s)); [by split|apply later_refl].
  - destruct (s9_running s); [apply later_refl|by split].
Qed.
#[local] Hint Resolve stays_ctl stays_fork_env stays_recv stays_take : stays.

Lemma stays_wait id : stays (Rc9.wait_process_job table fuel id).
Proof. unfold Rc9.wait_process_job, Rc9.wait_one. stay. Qed.

Lemma stays_execute spec :
  stays (Rc9.execute_process_graph table root fuel handlers wasi_handler pty_handler schedule spec).
Proof.
  unfold Rc9.execute_process_graph, Rc9.next_graph_root. stay.
  apply stays_shared. intros w. apply tacit_run, tacit_graph.
Qed.

Lemma stays_spawn p : tacit p → stays (Rc9.spawn p).
Proof.
  intros Hp s Hs. split; [done..|]. intros _. apply Forall_app. by split; [|repeat constructor].
Qed.

Lemma stays_new_control graph_root : stays (Rc9.new_control (W:=W) graph_root).
Proof. apply stays_shared. intros [w cs]. apply told_more_app. Qed.

Lemma stays_start spec :
  stays (Rc9.start_process_graph_job table root fuel handlers wasi_handler pty_handler schedule spec).
Proof.
  unfold Rc9.start_process_graph_job, Rc9.next_graph_root. stay;
    [apply stays_new_control|by apply stays_spawn, tacit_graph].
Qed.

(** A scope is the host with another task. *)
Lemma stays_enter m :
  (∀ h w h' w', m h w = (Ok h', w') →
     rh_no_mount h' = rh_no_mount h ∧ rh_native_enabled h' = rh_native_enabled h) →
  stays (Rc9.enter (W:=W) m).
Proof.
  intros Hm s Hs. unfold Rc9.enter, Rc9.with_host, Rc9.on_runtime, Rc9.on_shared, zoom.
  unfold_eff. cbn. unfold External.rt. destruct s as [h jobs ts [w cs]]. cbn.
  destruct (m (rc_host h) w) as [[h'|e| |] w'] eqn:Hh; cbn; [|by split..].
  destruct (Hm _ _ _ _ Hh) as [H1 H2]. split; cbn; [done|by rewrite H1|by rewrite H2|done].
Qed.

(** *** Scopes *)

Definition same_rights (h h' : RuntimeShellHost) : Prop :=
  rh_no_mount h' = rh_no_mount h ∧ rh_native_enabled h' = rh_native_enabled h.

Definition scope_like (m : RuntimeShellHost → Host.Rt (W:=W) RuntimeShellHost) : Prop :=
  ∀ h w h' w', m h w = (Ok h', w') → same_rights h h'.

Lemma scope_bind {A} (m : RuntimeShellHost → Host.Rt (W:=W) A) k :
  (∀ a, scope_like (λ h, k h a)) → scope_like (λ h, m h ≫= k h).
Proof. intros Hk h w h' w' (a & w1 & _ & Ha)%eff_bind_inv. by eapply Hk. Qed.

Lemma scope_task task : scope_like (λ h, mret (Host.with_task_scope h task)).
Proof. intros h w h' w' Hh. by injection Hh as <- <-. Qed.

Lemma scope_fork : scope_like Host.fork_namespace_scope.
Proof. do 2 (apply scope_bind; intros ?). apply scope_task. Qed.

Lemma scope_clean : scope_like Host.clean_namespace_scope.
Proof. do 2 (apply scope_bind; intros ?). apply scope_task. Qed.

Lemma scope_fd : scope_like Host.fork_fd_scope.
Proof. do 3 (apply scope_bind; intros ?). apply scope_task. Qed.

Lemma with_host_run {A} (m : RuntimeShellHost → Host.Rt A) (s s' : Star9 W) r :
  Rc9.with_host m s = (r, s') →
  s9_host s' = s9_host s ∧
  ∀ a, r = Ok a → ∃ w w', m (rc_host (s9_host s)) w = (Ok a, w').
Proof.
  unfold Rc9.with_host, Rc9.on_runtime, Rc9.on_shared, zoom. unfold_eff. unfold External.rt.
  destruct s as [h jobs ts [w cs]]. cbn. destruct (m (rc_host h) w) as [o w'] eqn:Hm.
  cbn. intros [= <- <-]. split; [done|]. intros a Ha. destruct o; cbn in Ha; simplify_eq. eauto.
Qed.

(** A scope that becomes the host after calls on the runtime *)
Lemma stays_scope (m : RuntimeShellHost → Host.Rt RuntimeShellHost)
    (k : RuntimeShellHost → RuntimeShellHost → Host.Rt unit) :
  scope_like m →
  stays (next ← Rc9.with_host m; Rc9.with_host (k next) ;; modify (Rc9.set_runtime_host next)).
Proof.
  intros Hm s Hs. pose proof (stays_with_host m s Hs) as H1. unfold mbind, eff_bind.
  destruct (Rc9.with_host m s) as [r s1] eqn:Hr. destruct (with_host_run m s s1 r Hr) as [Hh Hok].
  destruct r as [next|e| |]; [|done..]. cbn [snd] in H1.
  pose proof (stays_with_host (k next) s1 (later_good _ _ H1 Hs)) as H2.
  destruct (Rc9.with_host (k next) s1) as [r2 s2] eqn:Hr2.
  destruct (with_host_run _ _ _ _ Hr2) as [Hh2 _].
  pose proof (later_trans _ _ _ H1 H2) as H12.
  destruct r2 as [[]|e| |]; [|done..].
  destruct (Hok next eq_refl) as (w & w' & Hrun). destruct (Hm _ _ _ _ Hrun) as [Hn He].
  eapply later_trans; [exact H12|].
  split; cbn; [done|by rewrite Hn, Hh2, Hh|by rewrite He, Hh2, Hh|done].
Qed.

Lemma stays_rfork spec : stays (Rc9.rfork table spec).
Proof.
  unfold Rc9.rfork, Rc9.in_tasks. apply stays_bind; [apply stays_gets|]. intros old.
  apply stays_bind.
  { destruct (rf_namespace spec).
    - apply stays_ret.
    - apply stays_enter, scope_fork.
    - apply stays_bind; [apply stays_enter, scope_clean|]. stay. }
  intros []. apply stays_bind; [stay|]. intros e. apply stays_bind.
  { destruct (rf_fds spec); [stay|by apply stays_scope, scope_fd|stay]. }
  stay.
Qed.

(** *** Any operation *)

Inductive Op :=
| OpCd (path : string)
| OpRead (path : string)
| OpWrite (path : string) (data : list byte)
| OpAppend (path : string) (data : list byte)
| OpReadDir (path : string)
| OpStat (path : string)
| OpRun (invocation : RcCommandInvocation)
| OpLoadEnv
| OpStoreEnv (env : env_data)
| OpPrepare (spec : RcProcessGraphSpec)
| OpFinish (record : RcProcessGraphRecord) (outcomes : list RcStatus)
| OpWait (job_id : option Z)
| OpNote (note : string)
| OpExecute (spec : RcExecutableGraphSpec)
| OpStart (spec : RcExecutableGraphSpec)
| OpRfork (spec : RcRforkSpec).

#[local] Instance rc_host_of : RcHost (Star9 W) :=
  Rc9.star9_rc_host table root fuel handlers wasi_handler pty_handler schedule.

Definition perform (op : Op) : Rc9.R (W:=W) unit :=
  match op with
  | OpCd path => host_set_current_dir path
  | OpRead path => host_read_file path ;; mret tt
  | OpWrite path data => host_write_file path data
  | OpAppend path data => host_append_file path data
  | OpReadDir path => host_read_dir path ;; mret tt
  | OpStat path => host_stat path ;; mret tt
  | OpRun invocation => host_run_command invocation ;; mret tt
  | OpLoadEnv => host_load_environment ;; mret tt
  | OpStoreEnv env => host_store_environment env
  | OpPrepare spec => host_prepare_process_graph spec ;; mret tt
  | OpFinish record outcomes => host_finish_process_graph record outcomes
  | OpWait id => host_wait_process_job id ;; mret tt
  | OpNote note => host_send_note note
  | OpExecute spec => host_execute_process_graph spec ;; mret tt
  | OpStart spec => host_start_process_graph_job spec ;; mret tt
  | OpRfork spec => host_rfork spec ;; mret tt
  end.

(** The shell does an operation, or a job takes a step. *)
Inductive rc_step : Star9 W → Star9 W → Prop :=
| rc_op op s : rc_step s (perform op s).2
| rc_job s s' : Rc9.job_step s s' → rc_step s s'.

#[local] Hint Resolve stays_wait stays_execute stays_start stays_rfork : stays.

Lemma stays_perform op : stays (perform op).
Proof.
  destruct op; cbn [perform rc_host_of Rc9.star9_rc_host host_set_current_dir host_read_file
    host_write_file host_append_file host_read_dir host_stat host_run_command
    host_load_environment host_store_environment host_prepare_process_graph
    host_finish_process_graph host_wait_process_job host_send_note host_execute_process_graph
    host_start_process_graph_job host_rfork];
  unfold Rc9.set_current_dir, Rc9.read_file, Rc9.write_file, Rc9.append_file, Rc9.read_dir,
    Rc9.stat, Rc9.run_command, Rc9.load_environment, Rc9.store_environment,
    Rc9.prepare_process_graph, Rc9.finish_process_graph, Rc9.send_note_to_processes,
    Rc9.ignored, Rc9.resolve_path, Rc9.in_tasks, Rc9.on_runtime; stay.
Qed.

Lemma later_step s s' : rc_step s s' → good s → later s s'.
Proof.
  intros [op s1|s1 s2 [i f s3 p w Hi Hf]] Hs; [by apply stays_perform|].
  pose proof (Forall_lookup_1 _ _ _ _ Hs Hi) as Hq.
  destruct (tacit_step f (s9_shared s3) Hq) as [Hmore Hp]. rewrite Hf in Hmore, Hp.
  split; [done..|]. intros _. by apply Forall_insert.
Qed.

Lemma later_steps s s' : rtc rc_step s s' → good s → later s s'.
Proof.
  induction 1 as [s|s s1 s' Hstep _ IH]; intros Hs; [apply later_refl|].
  pose proof (later_step _ _ Hstep Hs) as H1. eapply later_trans; [done|].
  apply IH. by apply (later_good _ _ H1).
Qed.

Lemma good_new h env w : good (Rc9.new h env w).
Proof. constructor. Qed.

(** *** Waiting for a job that was sent a note *)

Definition no_err {A} (m : Host.Rt (W:=W) A) : Prop := ∀ w e w', m w ≠ (Err e, w').

Lemma no_err_bind {A B} (m : Host.Rt A) (k : A → Host.Rt B) :
  no_err m → (∀ a, no_err (k a)) → no_err (m ≫= k).
Proof.
  intros Hm Hk w e w'. unfold mbind, eff_bind. specialize (Hm w e w').
  destruct (m w) as [[a|e'| |] w1]; [apply Hk|congruence..].
Qed.

Lemma no_err_ignore {A} (m : Host.Rt A) : no_err (External.ignore m).
Proof.
  intros w e w'. unfold External.ignore, attempt, mbind, eff_bind.
  by destruct (m w) as [[] w1].
Qed.

Lemma no_err_signal note ids : no_err (for_each (External.signal_task note) ids).
Proof.
  induction ids as [|id ids IH]; [by intros w e w'|]. cbn [for_each].
  apply no_err_bind; [|done]. intros [w rs] e w'.
  unfold External.signal_task, Host.tasks, on_fst, attempt, mbind, eff_bind.
  by destruct (Task.lookup id w) as [[] w1].
Qed.

Lemma send_note_never_fails h c note (w : Shared) :
  is_Some (w.2 !! c) → ∀ e w', External.send_note table fuel h c note w ≠ (Err e, w').
Proof.
  intros [x Hx] e w'. destruct w as [w cs]. cbn in Hx. unfold External.send_note.
  unfold mbind at 1, eff_bind at 1. cbn.
  unfold mbind at 1, eff_bind at 1, External.control. rewrite list_lookup_alter_eq, Hx. cbn.
  unfold External.rt.
  match goal with |- context [let '(_, _) := ?m w in _] => assert (no_err m) as Hn end.
  { do 3 (apply no_err_bind; [apply no_err_ignore|intros []]). apply no_err_signal. }
  specialize (Hn w). match goal with |- context [let '(_, _) := ?m w in _] => destruct (m w) as [r w1] end.
  destruct r as [a|e'| |]; cbn; try congruence. by edestruct Hn.
Qed.

(** A signalled job is waited for: its thread is left alone. *)
Lemma wait_one_signaled id job s x n :
  (s9_shared s).2 !! rj_control job = Some x → jc_note x = Some n →
  let '(r, s') := Rc9.wait_one table fuel id job s in
  s9_running s' = s9_running s ∧ s9_threads s' = s9_threads s ∧
  match r with
  | Ok r => r = mkJobResult id (Status.from_status ("signal:" +:+ n)) "" ""
  | Err _ => False
  | _ => True
  end.
Proof.
  intros Hx Hn. destruct s as [h jobs ts [w cs]]. cbn in Hx.
  unfold Rc9.wait_one, Rc9.on_shared, External.signal_status, External.note, External.control.
  unfold_eff. cbn. rewrite Hx. cbn. rewrite Hn. cbn. rewrite Hx. cbn. rewrite Hn. cbn.
  pose proof (send_note_never_fails (rc_host h) (rj_control job) n (w, cs)) as Hnf.
  destruct (External.send_note table fuel (rc_host h) (rj_control job) n (w, cs))
    as [[[]|e| |] w']; try done.
  by edestruct Hnf.
Qed.

(** C35. The first note a job is sent is its status for ever.  Whatever the shell and the
    threads of the jobs do afterwards, as long as the shell still runs the job, waiting for it
    does not wait for its thread: it reports the signal of that note, unless writing the files
    of the graph crashes, and the job no longer runs. *)
Theorem signaled_job_reported h env w s s' id job x n :
  rtc rc_step (Rc9.new h env w) s → rtc rc_step s s' →
  (s9_shared s).2 !! rj_control job = Some x → jc_note x = Some n →
  bt_get id (s9_running s') = Some job →
  let '(r, s'') := host_wait_process_job (Some id) s' in
  bt_get id (s9_running s'') = None ∧ s9_threads s'' = s9_threads s' ∧
  match r with
  | Ok results => results = Some [mkJobResult id (Status.from_status ("signal:" +:+ n)) "" ""]
  | Err _ => False
  | _ => True
  end.
Proof.
  intros H0 H1 Hx Hn Hjob.
  pose proof (later_good _ _ (later_steps _ _ H0 (good_new _ _ _)) (good_new _ _ _)) as Hgood.
  destruct (later_controls _ _ (later_steps _ _ H1 Hgood) _ _ Hx) as (x' & Hx' & _ & Hn').
  cbn [host_wait_process_job rc_host_of Rc9.star9_rc_host]. unfold Rc9.wait_process_job.
  unfold mbind at 1, eff_bind at 1, Rc9.take_jobs. rewrite Hjob. cbn [map_eff].
  set (s1 := Rc9.set_running _ s').
  pose proof (wait_one_signaled id job s1 x' n Hx' (Hn' n Hn)) as Hwait.
  unfold mbind, eff_bind, mret, eff_ret. destruct (Rc9.wait_one table fuel id job s1) as [r s2].
  destruct Hwait as (Hr & Ht & Hres).
  assert (bt_get id (s9_running s2) = None) as Hnone by (rewrite Hr; apply bt_get_remove_eq).
  destruct r as [r|e| |]; [subst r|..]; done.
Qed.

(** *** A host that gave up mounts *)

Lemma graph_root_refused (s : Star9 W) :
  rh_no_mount (rc_host (s9_host s)) = true →
  Rc9.graph_root s = (Err (to_rc_error (EPath "rfork" "m" PermissionDenied)), s).
Proof. intros Hn. unfold Rc9.graph_root. unfold_eff. cbn. by rewrite Hn. Qed.

Lemma can_execute_unchanged spec (s : Star9 W) :
  ∃ b, Rc9.with_host (λ h, External.can_execute_external_graph h spec) s = (Ok b, s).
Proof.
  destruct s as [h jobs ts [[w rs] cs]]. eexists.
  unfold Rc9.with_host, Rc9.on_runtime, Rc9.on_shared, External.rt,
    External.can_execute_external_graph. unfold_eff. reflexivity.
Qed.

(** No graph, and nothing changed *)
Definition makes_none {A} (r : RcResult (option A) * Star9 W) (s : Star9 W) : Prop :=
  r.2 = s ∧ (r.1 = Ok None ∨ ∃ e, r.1 = Err e).

(** C36. Whoever gives up mounts gives them up for good: no operation of the rc host, nor any
    job, gives them or the right to run native programs back, and from then on the host
    prepares no graph, executes none and starts no job. *)
Theorem rc_scope_kept h env w s s' :
  rtc rc_step (Rc9.new h env w) s → rh_no_mount (rc_host (s9_host s)) = true →
  rtc rc_step s s' →
  rh_no_mount (rc_host (s9_host s')) = true ∧
  rh_native_enabled (rc_host (s9_host s')) = rh_native_enabled h ∧
  (∀ spec, makes_none (host_prepare_process_graph spec s') s') ∧
  (∀ spec, makes_none (host_execute_process_graph spec s') s') ∧
  (∀ spec, makes_none (host_start_process_graph_job spec s') s').
Proof.
  intros H0 Hn H1. pose proof (later_steps _ _ H0 (good_new _ _ _)) as L0.
  pose proof (later_steps _ _ H1 (later_good _ _ L0 (good_new _ _ _))) as L1.
  pose proof (later_no_mount _ _ L1 Hn) as Hn'.
  split; [done|]. split; [by rewrite (later_native _ _ L1), (later_native _ _ L0)|].
  cbn [host_prepare_process_graph host_execute_process_graph host_start_process_graph_job
    rc_host_of Rc9.star9_rc_host].
  pose proof (graph_root_refused s' Hn') as Hg.
  split; [|split]; intros spec.
  - unfold Rc9.prepare_process_graph. rewrite (eff_bind_Err _ _ _ _ _ Hg). split; eauto.
  - unfold Rc9.execute_process_graph. destruct (negb (Rc9.has_pipe _)); [split; [done|by left]|].
    destruct (can_execute_unchanged spec s') as [b Hb]. rewrite (eff_bind_Ok _ _ _ _ _ Hb).
    destruct b; cbn [negb]; [|split; [done|by left]].
    unfold Rc9.next_graph_root. rewrite (eff_bind_Err _ _ _ _ _ Hg). split; eauto.
  - unfold Rc9.start_process_graph_job. destruct (negb (bool_decide _)); [split; [done|by left]|].
    destruct (eg_job_id spec) as [id|]; [|split; [done|by left]].
    destruct (can_execute_unchanged spec s') as [b Hb]. rewrite (eff_bind_Ok _ _ _ _ _ Hb).
    destruct b; cbn [negb]; [|split; [done|by left]].
    unfold Rc9.next_graph_root. rewrite (eff_bind_Err _ _ _ _ _ Hg). split; eauto.
Qed.
End Keeps.
