(* ===== verification/RcTown.v ===== *)
(** * A whole rc shell, concretely

    One executable world under [RcSession]: tasks with namespaces of [Vfs], over filesystems
    in memory, pipes and environments, the rc host of [RcShell] and execution handlers that
    copy their input.  Whole lines of rc run in it; witnesses of [RcShellProps], and what the
    shell does that it should not, are at the end. *)

From stdpp Require Import base list numbers option strings pretty sorting gmap relations.
From Stdlib Require Import ZArith Lia Ascii.
From S2P Require Import Prelude Strs RcText BTree Core FsTrait FsLens MemFs Vfs Pipe Field Task Registry Proto Exec Worker WorkerProps Api Shell ShellHost RcSyntax RcLex RcParse RcPattern RcSession RcEval RcGraph RcShell RcShellProps.

Local Open Scope Z_scope.
Import Graph.

Module Town.

(** What a [FsRef] refers to *)
Inductive Ref := RMem (i : nat) | RPipe (f : Pipe.PipeFs) | REnv (i : nat).

Inductive Box :=
| BNode (h : MemHandle)
| BMem (i : nat) (h : MemHandle)
| BPipe (h : Pipe.PipeFile)
| BEnv (i : nat) (h : EnvReg.Box)
| BDir (h : DirFile).

Record World := mkWorld {
  w_tasks : TaskStore Box;
  w_nodes : MemWorld;
  w_mems : list MemWorld;
  w_pipes : Pipes;
  w_envs : list EnvEntries;
  w_ns : nat → Bindings;
  w_ns_next : nat;
  w_refs : list Ref
}.

Definition no_mem : MemWorld := MemFs.new (λ n, Z.of_nat n).

Definition set_nodes (m : MemWorld) (w : World) : World :=
  mkWorld (w_tasks w) m (w_mems w) (w_pipes w) (w_envs w) (w_ns w) (w_ns_next w) (w_refs w).
Definition mem_at (i : nat) (w : World) : MemWorld := default no_mem (w_mems w !! i).
Definition set_mem (i : nat) (m : MemWorld) (w : World) : World :=
  mkWorld (w_tasks w) (w_nodes w) (<[i:=m]> (w_mems w)) (w_pipes w) (w_envs w) (w_ns w) (w_ns_next w) (w_refs w).
Definition set_pipes (p : Pipes) (w : World) : World :=
  mkWorld (w_tasks w) (w_nodes w) (w_mems w) p (w_envs w) (w_ns w) (w_ns_next w) (w_refs w).
Definition env_at (i : nat) (w : World) : EnvEntries := default [] (w_envs w !! i).
Definition set_env (i : nat) (e : EnvEntries) (w : World) : World :=
  mkWorld (w_tasks w) (w_nodes w) (w_mems w) (w_pipes w) (<[i:=e]> (w_envs w)) (w_ns w) (w_ns_next w) (w_refs w).

#[global] Instance town_tasks : HasTasks World Box.
Proof.
  refine {| tasks_of := w_tasks;
            set_tasks s w := mkWorld s (w_nodes w) (w_mems w) (w_pipes w) (w_envs w) (w_ns w)
                               (w_ns_next w) (w_refs w) |}; [done|done|by intros []].
Defined.

(** *** Handles *)

Definition part {V H A} (get : World → V) (set : V → World → World) (inj : H → Box)
    (m : M (H * V) A) (h : H) (w : World) : Result A * (Box * World) :=
  let '(r, (h, v)) := m (h, get w) in (r, (inj h, set v w)).

Definition box_case {A} (node : M (MemHandle * MemWorld) A) (pipe : M (Pipe.PipeFile * Pipes) A)
    (env : M (EnvReg.Box * EnvEntries) A) (dir : M (DirFile * World) A) : M (Box * World) A :=
  λ '(b, w),
  match b with
  | BNode h => part w_nodes set_nodes BNode node h w
  | BMem i h => part (mem_at i) (set_mem i) (BMem i) node h w
  | BPipe h => part w_pipes set_pipes BPipe pipe h w
  | BEnv i h => part (env_at i) (set_env i) (BEnv i) env h w
  | BDir h => let '(r, (h, w)) := dir (h, w) in (r, (BDir h, w))
  end.

#[global] Instance town_handle : FileHandle World Box := {|
  fh_read len := box_case (fh_read len) (fh_read len) (fh_read len) (fh_read len);
  fh_write data := box_case (fh_write data) (fh_write data) (fh_write data) (fh_write data);
  fh_read_at len o := box_case (fh_read_at len o) (fh_read_at len o) (fh_read_at len o)
    (fh_read_at len o);
  fh_write_at data o := box_case (fh_write_at data o) (fh_write_at data o) (fh_write_at data o)
    (fh_write_at data o);
  fh_seek pos := box_case (fh_seek pos) (fh_seek pos) (fh_seek pos) (fh_seek pos);
  fh_stat := box_case fh_stat fh_stat fh_stat fh_stat;
  fh_read_dir n := box_case (fh_read_dir n) (fh_read_dir n) (fh_read_dir n) (fh_read_dir n);
  fh_sync := box_case fh_sync fh_sync fh_sync fh_sync;
  fh_close := box_case fh_close fh_close fh_close fh_close
|}.

#[global] Instance town_dir : BoxDir Box := BDir.

#[global] Instance town_nodes : HasNodes World Box :=
  {| nodes_of := w_nodes; set_nodes_of := set_nodes; box_node := BNode |}.

(** *** Filesystems and namespaces *)

Definition no_fs : FileSystem World Box :=
  default_fs (λ _ _, panic) (λ _ _, panic) (λ _, panic) (λ _ _, panic).

(** [dyn FileSystem], of what a reference refers to when it is called *)
Definition pick (r : nat) (w : World) : FileSystem World Box :=
  match w_refs w !! r with
  | Some (RMem i) => zoom_fs (mem_at i) (set_mem i) (BMem i) (MemFs.fs 10)
  | Some (RPipe f) => zoom_fs w_pipes set_pipes BPipe (Pipe.pipefs f)
  | Some (REnv i) => zoom_fs (env_at i) (set_env i) (BEnv i) EnvReg.fs
  | None => no_fs
  end.

Definition ref_fs (r : nat) : FileSystem World Box := {|
  fs_open ctx p w := fs_open (pick r w) ctx p w;
  fs_stat ctx p w := fs_stat (pick r w) ctx p w;
  fs_lstat ctx p w := fs_lstat (pick r w) ctx p w;
  fs_read_dir ctx p w := fs_read_dir (pick r w) ctx p w;
  fs_create p w := fs_create (pick r w) p w;
  fs_open_file p flags perm w := fs_open_file (pick r w) p flags perm w;
  fs_mkdir p perm w := fs_mkdir (pick r w) p perm w;
  fs_remove p w := fs_remove (pick r w) p w;
  fs_rename p q w := fs_rename (pick r w) p q w;
  fs_link p q w := fs_link (pick r w) p q w;
  fs_chmod p mode w := fs_chmod (pick r w) p mode w;
  fs_chown p uid gid w := fs_chown (pick r w) p uid gid w;
  fs_chtimes p t w := fs_chtimes (pick r w) p t w;
  fs_truncate p n w := fs_truncate (pick r w) p n w;
  fs_symlink p q w := fs_symlink (pick r w) p q w;
  fs_readlink p w := fs_readlink (pick r w) p w;
  fs_set_xattr p attr data w := fs_set_xattr (pick r w) p attr data w;
  fs_get_xattr p attr w := fs_get_xattr (pick r w) p attr w;
  fs_list_xattrs p w := fs_list_xattrs (pick r w) p w;
  fs_remove_xattr p attr w := fs_remove_xattr (pick r w) p attr w
|}.

Definition set_ns (i : nat) (b : Bindings) (w : World) : World :=
  mkWorld (w_tasks w) (w_nodes w) (w_mems w) (w_pipes w) (w_envs w)
    (λ n, if decide (n = i) then b else w_ns w n) (w_ns_next w) (w_refs w).

(** The bindings of one namespace *)
Definition bindings_of (i : nat) : HasBindings World.
Proof.
  refine {| bindings w := w_ns w i; set_bindings := set_ns i |}.
  intros b w. cbn. by rewrite decide_True.
Defined.

Definition new_namespace (b : Bindings) : M World nat := λ w,
  (Ok (w_ns_next w),
   mkWorld (w_tasks w) (w_nodes w) (w_mems w) (w_pipes w) (w_envs w)
     (λ n, if decide (n = w_ns_next w) then b else w_ns w n) (Datatypes.S (w_ns_next w))
     (w_refs w)).

Definition new_ref (r : Ref) : M World nat := λ w,
  (Ok (length (w_refs w)),
   mkWorld (w_tasks w) (w_nodes w) (w_mems w) (w_pipes w) (w_envs w) (w_ns w) (w_ns_next w)
     (w_refs w ++ [r])).

Definition new_mem : M World nat := λ w,
  new_ref (RMem (length (w_mems w)))
    (mkWorld (w_tasks w) (w_nodes w) (w_mems w ++ [no_mem]) (w_pipes w) (w_envs w) (w_ns w)
       (w_ns_next w) (w_refs w)).

Definition alloc_env (e : EnvEntries) : M World nat := λ w,
  (Ok (length (w_envs w)),
   mkWorld (w_tasks w) (w_nodes w) (w_mems w) (w_pipes w) (w_envs w ++ [e]) (w_ns w)
     (w_ns_next w) (w_refs w)).

Definition table (ns : nat) : FileSystem World Box :=
  @Vfs.fs World Box (bindings_of ns) _ _ ref_fs.

Definition no_network {A} : M World A := throw (EMessage "no network").

(** A namespace is not itself bound anywhere here. *)
#[global] Instance town_namespaces : TaskNamespaces World Box := {|
  ns_new := new_namespace [];
  ns_clone ns := (b ← gets (λ w, w_ns w ns); new_namespace b);
  ns_self _ := no_network;
  ns_bind ns := @Vfs.bind World Box (bindings_of ns) ref_fs;
  ns_unbind ns := @Vfs.unbind World (bindings_of ns);
  ns_open ns := fs_open (table ns);
  ns_format_bindings ns := @Vfs.format_bindings World (bindings_of ns)
|}.

#[global] Instance town_host : HostNamespaces World := {|
  ns_unbind_path ns := @Vfs.unbind_path World (bindings_of ns);
  ns_unbind_source_path ns := @Vfs.unbind_source_path World (bindings_of ns);
  serve_namespace _ := no_network;
  connect_tcp _ := no_network;
  new_memfs := new_mem
|}.

#[global] Instance town_graphs : GraphNamespaces World := {|
  ns_binding_paths ns := @Vfs.binding_paths World (bindings_of ns);
  new_pipe_fs blocking :=
    (f ← zoom w_pipes set_pipes (Pipe.pipefs_new blocking); new_ref (RPipe f));
  new_env := alloc_env;
  env_snapshot i := gets (env_at i);
  env_replace_all i e := modify (set_env i e);
  env_ref i := new_ref (REnv i)
|}.

(** *** Programs

    A program prints its arguments and then what it reads; [fail.wasm] exits with 3. *)
Definition handlers (n task : nat) (spec : ExecutionSpec)
    : M (World * ExecutionRegistry) ExitStatus :=
  on_fst
    (input ← Task.with_fd_mut task 0 (Exec.read_fd_loop 20 []);
     Task.with_fd_mut task 1
       (fh_write (bytes_of (str_join " " (sp_args spec)) ++ input)) ;;
     mret (ExitCode (if decide (sp_module spec = "fail.wasm") then 3 else 0))).

(** The root task, over an empty filesystem in memory, and an environment *)
Definition boot : World :=
  ((task ← Task.alloc "auto" None;
    ns ← Task.namespace task;
    fs ← new_mem;
    ns_bind ns fs "." "." Replace;;
    env ← alloc_env [];
    r ← env_ref env;
    ns_bind ns r "." "#env" Replace)
   (mkWorld Task.new_store no_mem [] [] [] (λ _, []) 0 [])).2.

Definition schedule (graph_root : string) : list nat := [].

#[global] Instance town_rc_host : RcHost (Star9 World) :=
  Rc9.star9_rc_host table 0 50 handlers 0 1 schedule.

Definition runtime : World * RuntimeState :=
  (boot, mkRuntimeState Worker.default_state Exec.new [] 1).

Definition host : Star9 World := Rc9.new (mkShellHost 0 false false) 0 runtime.

Abbreviation Session := (RcSession (Star9 World)).

(** What the lines print and their statuses, one after the other *)
Definition told (o : RcResult RcOutput) : option (string * string * string) :=
  match o with
  | Ok out => Some (o_stdout out, o_stderr out, Status.display (o_status out))
  | _ => None
  end.

Definition lines_from (s : Session) (lines : list string)
    : list (option (string * string * string)) * Session :=
  foldl (λ '(out, s) line, let '(r, s) := RcSh.eval_line 20 line s in (out ++ [told r], s))
    ([], s) lines.

Definition lines (ls : list string) : list (option (string * string * string)) :=
  (lines_from (RcSh.new host) ls).1.
End Town.

Import Town.

(** ** Lines of rc in the town *)

Example town_shell :
  lines ["echo hello > f; cat f"; "x=(a b); echo $x"; "cat '#env/x' > g; ls"]
  = [Some ("hello" +:+ nl, "", "0"); Some ("a b" +:+ nl, "", "0");
     Some ("f" +:+ nl +:+ "g" +:+ nl, "", "0")].
Proof. vm_compute. reflexivity. Qed.

(** The stages of a pipeline run as tasks joined by a pipe; the status is that of all. *)
Example town_pipeline :
  lines ["p.wasm one | p.wasm two"; "fail.wasm x | p.wasm"]
  = [Some ("twoone", "", "0|0"); Some ("x", "", "3|0")].
Proof. vm_compute. reflexivity. Qed.

Example town_job :
  lines ["p.wasm one &"; "wait"; "cat .rc/graphs/rcgraph1/state"]
  = [Some ("[1]" +:+ nl, "", "0"); Some ("one[1] 0" +:+ nl, "", "0");
     Some ("exited" +:+ nl, "", "0")].
Proof. vm_compute. reflexivity. Qed.

(** Cleaning up takes the root of a finished graph away, and refuses while it runs. *)
Example town_cleanup :
  lines ["p.wasm one | p.wasm two"; "echo cleanup > .rc/graphs/rcgraph1/ctl";
         "cat .rc/graphs/rcgraph1/state"]
  = [Some ("twoone", "", "0|0"); Some ("", "", "0");
     Some ("", "cat: .rc/graphs/rcgraph1/state: open .rc/graphs/rcgraph1/state: not found" +:+ nl,
           "1")].
Proof. vm_compute. reflexivity. Qed.

(** ** Witnesses *)

Abbreviation town_step := (rc_step table 0 50 handlers 0 1 schedule).
Definition town_do (op : Op) (s : Star9 World) : Star9 World :=
  (perform table 0 50 handlers 0 1 schedule op s).2.

(** Thread [i] takes a step. *)
Definition step_thread (i : nat) (s : Star9 World) : Star9 World :=
  match s9_threads s !! i with
  | Some p =>
      let '(p, w) := Thread.step p (s9_shared s) in
      Rc9.set_shared w (Rc9.set_threads (<[i := p]> (s9_threads s)) s)
  | None => s
  end.

Definition can_step (i : nat) (s : Star9 World) : bool :=
  match s9_threads s !! i with Some (Step _) => true | _ => false end.

Lemma town_thread_step i s : can_step i s = true → town_step s (step_thread i s).
Proof.
  unfold can_step, step_thread. destruct (s9_threads s !! i) as [[o|f]|] eqn:Hi; [done| |done].
  intros _. cbn. destruct (f (s9_shared s)) as [p w] eqn:Hf.
  apply rc_job. by eapply Rc9.job_steps.
Qed.

Definition town_graph (kind : RcProcessGraphKind) (id : option Z) : RcExecutableGraphSpec :=
  mkExecGraph kind id [mkExecStage ["p.wasm"; "one"] "" "." [] []].

(** A job that is started, and sent a note before it did anything *)
Definition noted : Star9 World :=
  town_do (OpNote "int") (town_do (OpStart (town_graph BackgroundGraph (Some 1))) host).

Lemma signaled_job_reported_witness :
  let s' := step_thread 0 noted in
  rtc town_step host noted ∧ rtc town_step noted s' ∧
  (s9_shared noted).2 !! 0%nat = Some (mkControl ".rc/graphs/rcgraph1" [] (Some "int")) ∧
  bt_get 1 (s9_running s') = Some (mkRunningJob 0 0 1) ∧
  let '(r, s'') := host_wait_process_job (Some 1) s' in
  bt_get 1 (s9_running s'') = None ∧ s9_threads s'' = s9_threads s' ∧
  match r with
  | Ok results => results = Some [mkJobResult 1 (Status.from_status ("signal:" +:+ "int")) "" ""]
  | Err _ => False
  | _ => True
  end.
Proof.
  intros s'.
  assert (rtc town_step host noted) as H0 by (do 2 (eapply rtc_l; [apply rc_op|]); constructor).
  assert (rtc town_step noted s') as H1
    by (apply rtc_once, town_thread_step; vm_compute; reflexivity).
  assert ((s9_shared noted).2 !! 0%nat = Some (mkControl ".rc/graphs/rcgraph1" [] (Some "int")))
    as Hx by (vm_compute; reflexivity).
  assert (bt_get 1 (s9_running s') = Some (mkRunningJob 0 0 1)) as Hjob
    by (vm_compute; reflexivity).
  split; [exact H0|]. split; [exact H1|]. split; [exact Hx|]. split; [exact Hjob|].
  exact (signaled_job_reported table 0 50 handlers 0 1 schedule (mkShellHost 0 false false) 0 runtime
    noted s' 1 (mkRunningJob 0 0 1) _ "int" H0 H1 Hx eq_refl Hjob).
Defined.

Definition without_mounts : Star9 World :=
  town_do (OpRfork (mkRfork "m" NsCopy EnvShared FdShared false true)) host.

Lemma rc_scope_kept_witness :
  let s' := town_do (OpRfork (mkRfork "n" NsCopy EnvShared FdShared false false)) without_mounts in
  rtc town_step host without_mounts ∧
  rh_no_mount (rc_host (s9_host without_mounts)) = true ∧ rtc town_step without_mounts s' ∧
  rh_no_mount (rc_host (s9_host s')) = true ∧
  rh_native_enabled (rc_host (s9_host s')) = false ∧
  (∀ spec, makes_none (host_prepare_process_graph spec s') s') ∧
  (∀ spec, makes_none (host_execute_process_graph spec s') s') ∧
  (∀ spec, makes_none (host_start_process_graph_job spec s') s').
Proof.
  intros s'.
  assert (rtc town_step host without_mounts) as H0 by apply rtc_once, rc_op.
  assert (rh_no_mount (rc_host (s9_host without_mounts)) = true) as Hn
    by (vm_compute; reflexivity).
  assert (rtc town_step without_mounts s') as H1 by apply rtc_once, rc_op.
  split; [exact H0|]. split; [exact Hn|]. split; [exact H1|].
  exact (rc_scope_kept table 0 50 handlers 0 1 schedule (mkShellHost 0 false false) 0 runtime
    without_mounts s' H0 Hn H1).
Defined.

(** ** What the shell does that it should not *)

(** A note that a job was sent is written to its file again when the job is waited for. *)
Lemma notes_written_twice :
  lines ["p.wasm one &"; "echo cancel > .rc/graphs/rcgraph1/ctl"; "wait 1";
         "cat .rc/graphs/rcgraph1/notes"]
  = [Some ("[1]" +:+ nl, "", "0"); Some ("", "", "0");
     Some ("[1] signal:term" +:+ nl, "", "signal:term");
     Some ("term" +:+ nl +:+ "term" +:+ nl, "", "0")].
Proof. vm_compute. reflexivity. Qed.

(** The pipes of a graph are bound into the namespace of the runtime, so a shell with a
    namespace of its own cannot open them: what the left side prints is lost. *)
Lemma pipeline_lost_after_rfork :
  lines ["p.wasm one | p.wasm two"; "rfork n"; "p.wasm one | p.wasm two"]
  = [Some ("twoone", "", "0|0"); Some ("", "", "0");
     Some ("wasi task=9 status=0" +:+ nl +:+ "two", "", "0|0")].
Proof. vm_compute. reflexivity. Qed.

(** Descriptors that are copies of each other recurse without end. *)
Lemma copies_of_each_other n root :
  stream_for_fd n [FdBinding.dup 1 2; FdBinding.dup 2 1] root 1 = NoFuel.
Proof.
  assert (∀ n, stream_for_fd n [FdBinding.dup 1 2; FdBinding.dup 2 1] root 1 = NoFuel ∧
               stream_for_fd n [FdBinding.dup 1 2; FdBinding.dup 2 1] root 2 = NoFuel) as H.
  { clear n. induction n as [|n [IH1 IH2]]; [done|]. cbn. by rewrite IH1, IH2. }
  apply H.
Qed.

(** The stage of a line of rc has such descriptors. *)
Lemma line_with_copies_of_each_other :
  lines ["p.wasm one >[1=2] >[2=1] | p.wasm two"] = [None].
Proof. vm_compute. reflexivity. Qed.
